(* ===== verification/_CoqProject ===== *)
-Q . S2P
Prelude.v
GoLib.v
ApiError.v
Handler.v
Resource.v
GoCrypto.v
GoBinary.v
MetaStore.v
Paging.v
Lro.v
IamPolicy.v
Float64.v
Sched.v
Lifecycle.v
TasksModel.v
TasksStore.v
TasksStoreSpec.v
NetHttp.v
TasksDispatch.v
TasksWorker.v
TasksWorkerSpec.v
TasksConvert.v
FilterText.v
TasksFilter.v
TasksApi.v
TasksApiSpec.v
SecretsModel.v
SecretsNames.v
SecretsStore.v
SecretsInv.v
SecretsOps.v
SecretsEffects.v
SecretsSweep.v
SecretsSpec.v
SecretsRun.v
SecretsAccess.v
SecretsRefine.v
SecretsExamples.v
SecretsFilter.v
SecretsFilterSpec.v
SecretsApi.v
SecretsApiSpec.v
SchedulerStore.v
SchedulerConvert.v
SchedulerApi.v
SchedulerRunner.v
SchedulerSpec.v
SchedulerRunnerSpec.v
RmModel.v
RmRegistry.v
RmTags.v
RmInv.v
RmEffects.v
RmSpec.v
KmsModel.v
KmsNames.v
KmsFilter.v
KmsStore.v
KmsVersions.v
KmsKeys.v
KmsCrypt.v
KmsOps.v
KmsKwp.v
KmsImport.v
KmsHsm.v
KmsEkm.v
KmsAutokey.v
KmsSweep.v
KmsInv.v
KmsEffects.v
KmsHandlers.v
KmsHsmWrites.v
KmsRun.v
KmsSpec.v
KmsRunSpec.v
KmsQuorum.v
KmsSecrets.v
KmsRoundtrip.v
KmsRotation.v
KmsExamples.v
