(* ===== verification/Prelude.v ===== *)
(** * A verification development for CloudBurrow

    CloudBurrow (src/) emulates Google Cloud APIs on a developer's machine.  Its
    services keep their state in one metadata store, name things by Google
    resource names, page their listings, keep IAM policies, run long operations
    and schedule work with retries; these shared packages are under
    src/internal/, each service under src/internal/service/.  This development
    models the shared packages, the coordinator that starts and stops the process,
    and five services (Cloud Tasks, Secret Manager, Cloud Scheduler, Resource
    Manager and Cloud KMS) as Rocq functions and transition systems translated from
    the Go.

    ** Parts, files and how they fit

    Shared:

    - Prelude.v: the result type [res] with its bind, tactics, the hint database
      [burrow], sorting by a string key, invariants of a step relation.
    - GoLib.v: what the code uses of Go's standard library: strings, strconv,
      times, durations and dates, binary search, path unescaping, integers at
      their width, the runes of a string, and the Timestamp and Duration
      messages.  Float64.v: IEEE double arithmetic with rounding, math.Pow,
      math.Ceil, math.Min and conversion to int64.
      NetHttp.v: URLs, header maps and requests.  GoBinary.v: big-endian
      integers and the CBC and CTR modes over a block cipher.  GoCrypto.v: the
      interfaces of the crypto packages and their laws.
      FilterText.v: the text of list filters.
    - Handler.v: the state and error monad of request handlers, with a
      weakest-precondition rule for each combinator; Secret Manager, Resource
      Manager and Cloud KMS instantiate it.
    - ApiError.v (internal/apierror): error values, codes, From and Wrap.
    - Resource.v (internal/resource): Parse, String, Key, the ID rules, project
      numbers.
    - MetaStore.v (internal/store): the Store interface as the classes
      [MetaStore] (operations), [MetaStoreLaws] (what a client may rely on) and
      [ReliableStore] (writes do not fail); [Memory] and [Durable] implement it,
      [Flush] is a flush as its system calls, [Open] is OpenDurable as processes
      racing for the lock file.  Service theorems are proved against the classes.
      Those that ask for [MetaStoreLaws] only (Cloud Tasks, Cloud Scheduler and
      Cloud KMS, but for [fire_due_exact] and [autokey_follows_hierarchy]) hold of
      the memory store and of the durable store whatever its disk does.  Those that
      ask for [ReliableStore] (Secret Manager, Resource Manager and the two named)
      hold of the memory store and of [Durable.Healthy], the durable store while
      no flush fails; what a failing write does there is shown by examples.
    - Paging.v (internal/paging), Lro.v (internal/lro), IamPolicy.v
      (internal/iampolicy).
    - Sched.v (internal/sched): both backoff policies ([Retry], [CloudTasks]),
      the fake clock ([Clock]) and the job scheduler ([Scheduler]).
    - Lifecycle.v (internal/lifecycle): the Coordinator, its locked sections as
      functions, the calls of Start, Stop and RegisterWorker, the members of
      concurrent groups and the workers as [Thread]s that [perform] interleaves,
      and what /readyz answers.  [calm] runs are those in which Stop takes effect
      between starts, as up.go calls it.

    Cloud Tasks (internal/service/tasks):

    - TasksModel.v, TasksStore.v (store.go and the store parts of grpc1215.go):
      the data of Cloud Tasks and every operation of its Store; [op] and [exec]
      make one step of each of them, [writes] says what each may write.
      TasksStoreSpec.v: their theorems.
    - TasksDispatch.v (dispatch.go's Dispatcher, httptarget1282.go,
      appengine1447.go): one attempt.  TasksWorker.v (dispatch.go's Worker): the
      token bucket, and [step], the worker's pass, its attempts and the API
      interleaved.  TasksWorkerSpec.v: its invariants.
    - TasksConvert.v, TasksApi.v (grpcserver.go, grpc1215.go and the conversions
      of the other files): the messages, the request checks and the gRPC
      handlers.  TasksFilter.v (filter.go): the ListQueues filter language.
      TasksApiSpec.v: paging, batches, round trips, examples.

    Secret Manager (internal/service/secrets):

    - SecretsModel.v, SecretsNames.v, SecretsStore.v (store.go, schedule.go,
      expiry.go, cmek.go, notify.go): the data, the names and keys, and every
      operation of the Store as a computation of the monad [M] of Handler.v,
      with the surroundings of an operation (clock, publisher, Cloud KMS, random
      bytes, map order) in [Env].
    - SecretsInv.v: what a well-formed store is ([Inv]).  SecretsOps.v and
      SecretsEffects.v: weakest-precondition rules for the store's primitives and
      what each operation does.  SecretsSweep.v: a sweep.  SecretsRun.v: the operations,
      the sweeper's loop and passing time as one transition system.
    - SecretsSpec.v: what every operation does to the documents and keeps of them.
      SecretsRefine.v: the abstract map of secrets, in which a secret goes when it
      expires and a scheduled destruction happens at a sweep, and that the store
      implements it.  SecretsAccess.v: envelope encryption, and a payload read back.  SecretsExamples.v: concrete runs.
    - SecretsFilter.v, SecretsFilterSpec.v (filter.go): list filters.
    - SecretsApi.v, SecretsApiSpec.v (grpcserver.go,
      fidelity.go, rotation1215.go and expiry.go's bounds): the messages, checks
      and handlers, their etags and paging.

    Cloud Scheduler (internal/service/scheduler):

    - SchedulerStore.v (store.go): jobs, nextRun and the Store.
      SchedulerConvert.v, SchedulerApi.v (server.go, locations.go and the
      messages of appengine1447.go): conversions and handlers.  SchedulerSpec.v:
      what they guarantee.
    - SchedulerRunner.v (runner.go, appengine1447.go): an attempt, a delivery and
      [step], the runner's pass, its deliveries, RunJob and the API interleaved.
      SchedulerRunnerSpec.v: its invariants, one pass, examples.

    Resource Manager (internal/service/resourcemanager):

    - RmModel.v: projects, folders, liens, tags and policies, their keys and the
      rules for names.  RmRegistry.v (projects.go, numbers.go, purge.go,
      hierarchy.go, capabilities.go): the registry's operations on projects and
      folders.  RmTags.v (tags.go, iam.go, orgpolicy.go): liens, tags, IAM and
      organization policies.
    - RmInv.v: [Inv], the folders form a tree and numbers are unique, and [write],
      what one change of the store may be.  RmEffects.v: [does R op], the store
      moves by [R] whatever [op] returns, with a rule for each combinator, and what
      the operations on projects and folders know when they write.  RmSpec.v: the
      locked sections as [call]s, runs of them, the theorems and concrete runs.

    Cloud KMS (internal/service/kms):

    - KmsModel.v (the stored records of every file, purposes.go, protection.go):
      the data and the algorithm tables.  KmsNames.v (names.go and the parsers of
      the other files): names and keys.  KmsFilter.v (filter.go, orderedPage):
      list filters and pages.
    - KmsStore.v: the server's primitives.  KmsVersions.v (external.go, ops.go's
      usableVersion, hsm.go's backends, delete.go, deletering.go),
      KmsKeys.v (server.go): rings, keys and versions.  KmsCrypt.v (envelope.go,
      crypto.go), KmsOps.v (ops.go): what is done with them.  KmsKwp.v,
      KmsImport.v (import.go, trusted.go): imports.  KmsHsm.v (hsm.go):
      single-tenant HSM instances and their proposals.  KmsEkm.v (ekm.go, iam.go),
      KmsAutokey.v (autokey.go, locations.go).  KmsSweep.v (rotation.go and the
      sweep of server.go).
    - KmsInv.v: [Inv], every record is under its own key, and [write], what one
      record may become given the others.  KmsEffects.v: the rules that show a
      handler makes only such writes, also when one of them fails.  KmsHandlers.v,
      KmsHsmWrites.v: that every handler does.  KmsRun.v:
      what one write does to one record, and the calls, the two steps of a
      sweep, passing time and restarts as one transition system; [stable]
      properties, which every write keeps, hold over every run.
    - KmsSpec.v, KmsRunSpec.v: versions, primaries and retired names over every
      run.  KmsQuorum.v: the quorum of an HSM instance.  KmsRoundtrip.v: raw
      encryption, signatures, MACs and imports reversed.  KmsRotation.v: one
      rotation.  KmsSecrets.v (cmd/cloudburrow/secrets.go and kms.go): Cloud KMS as
      the key service of Secret Manager, and Resource Manager as its hierarchy.  KmsExamples.v: concrete runs.

    A stateful operation takes the state and returns it with its result.  Each
    lock-protected section is one step; where the code releases its lock between
    sections (the workers and runners, the scheduler, OpenDurable) each section
    is a step of its own.  A clock reading, a random etag and a map's iteration
    order are arguments, so the theorems hold for all of them.  A failure of the
    disk is a list of faults in the durable store, and any error a
    [MetaStoreLaws] store may return in the services.

    ** What the theorems show

    - Storage: a commit is atomic in memory and on disk, a restart finds exactly
      the commits that succeeded (of keys that are valid UTF-8, which JSON keeps), a crash inside a flush leaves the old or the new file, and the
      lock file keeps a second owner out while no owner dies.
    - Names, pages, operations, policies: names print and parse back and keep
      projects apart; a listing returns each key once and ends, and its tokens
      are bound to it; a finished operation stays finished; no read-modify-write
      of a policy is lost, and masks keep what they do not name.
    - Scheduling: the float64 retry delays are the documented integer schedule,
      retrying stops exactly when attempts and duration are used up, the fake
      clock loses no timer, and no job runs twice at once.
    - The process: over every interleaving a started component is recorded, in the
      hands of one goroutine or stopped, at most once; in calm runs /readyz says 200
      only when everything is up, components stop in the reverse of their order, a
      failed or stopped coordinator has left none running, and Stop answers all that
      went wrong; distinct component names are assumed throughout.  Outside calm
      runs the examples of [LifecycleRuns] show what leaks.
    - Cloud Tasks: the store keeps every document under its own key; only
      CreateTask creates, a deleted name stays reserved, a forced run is never
      lost; due, listed, purged and deleted tasks are exactly the right ones;
      what an attempt sends cannot be spoofed and a failure backs off.  Over
      every interleaving, a task has at most one attempt, a task answered 2xx and
      then deleted is not sent again, and while tasks are in the queue their name
      says a queue's concurrency limit holds; the token bucket paces dispatches.
      UpdateQueue changes exactly what a mask of field paths names, created
      tasks and queues come back as asked for, paged listings are complete, a
      batch's request_id runs it once, and a filter is decided on every input
      and means what it says.
    - Secret Manager, while no write fails: over every history the store answers as the abstract map
      of secrets does; stored documents are well-formed, versions live and die as
      documented, and a payload comes back through every customer-managed key as
      it was added; a sweep runs exactly what is due, and the sweeper never
      sleeps past something due; filters print and parse back, version listings
      page completely in descending order, and a stale etag changes nothing.
    - Cloud Scheduler: over every interleaving no job is delivered twice at once,
      every stored job is one the API accepts and no delivery makes more attempts
      than allowed; a pass fires exactly what is due; UpdateJob changes exactly
      what a mask of field paths names; a created job comes back as asked for;
      resuming makes up nothing; GetLocation finds what ListLocations lists.
    - Resource Manager, while no write fails: over every run of its locked sections the active folders
      form a tree under the organization with distinct names among siblings, and a
      project number names one project for ever; a deleted project comes back
      whole within thirty days, a lien keeps it from being deleted, a purge leaves
      nothing of it and a project created later under the ID starts with nothing;
      the walks over the hierarchy end.  With [autokey_follows_hierarchy] the
      folders Autokey reads configs of are the project's path in that tree.
    - Cloud KMS: over every run between resets, with any failing writes and restarts
      between, and for versions whose number the key has given out, a destroyed
      version stays destroyed and unusable, a live one is kept for at
      least the shortest destruction wait, what was encrypted is decrypted while
      its version is enabled, a key's primary is never missing and the name of a
      deleted key is never used again; an HSM instance changes only by the execution
      of a stored proposal its quorum signed, and its quorum stays sound.  Raw encryption, signatures,
      MACs and imports come back; a due rotation makes one version.  Together
      with [added_payload_is_accessed], whose hypothesis on the key service
      [cloud_kms_opens] discharges, a payload under a customer-managed key is
      served as long as its key version is.
    - Divergences: the examples under headings that say the code does not do what
      it says, and the theorems of Resource.v, MetaStore.v, Sched.v and
      TasksDispatch.v that do, are each a concrete run.

    ** Bounds and fuel

    Recursion is structural except for binary search (fuel: the length of the
    range, which halves), the client walks of Paging.v, TasksApiSpec.v and
    SecretsApiSpec.v (fuel: one call more than there are keys, and the theorems
    show the walk ends within it), the lexers and parsers of both filter
    languages (fuel: the length of the input, and a small multiple of its weight
    in tokens and characters, which [filter_decides] and
    [secret_filter_decides] show is enough), the catch-up of a rotation (fuel:
    the periods that passed, and [rotation_catches_up] shows it arrives), the
    tokenizer and parser of KMS filters (fuel: the length of the filter and three
    times its weight, and [parseFilter_answers] shows it is enough), the stepping
    of a KMS rotation ([step_past]; fuel: the periods between the two times, and
    [step_past_spec] shows where it arrives), the walks of Resource Manager over
    its folders (fuel: thirteen up and fourteen down, and [hierarchy_walks_end]
    shows it is never used up; a loop of random draws ends with the draws given)
    and Float64's power loop (fuel: the bits of the exponent).  [importingVersion] calls itself once, so two levels
    are written out.  Integers are [Z],
    wrapped where the code's width matters; conversion of an out-of-range float
    to int64 is the platform's value, a parameter ([Platform]).

    ** What is not modelled

    Libraries are parameters: encoding/json of a page token ([TokenJSON]), net/url
    and net/http's check of a request ([Net]), the token minters, AES-GCM and
    SHA-256 ([Crypto]), AES blocks, RSA, elliptic curves, HMAC, X.509 and ML-KEM
    (the other classes of GoCrypto.v, with the laws their documentation gives),
    Unicode's tables ([Unicode]), certificates and the JSON text an EKM etag hashes
    ([Certificates], [JsonText]), the encodings Resource Manager's etags digest
    ([Encodings]), cron expressions and time zones ([Cron]), the protobuf descriptor of Queue and the
    parsing of floats and times in a filter ([Parsing], [TimeText]).  The protobuf
    and JSON codecs are taken to read back what they wrote; a stored document is
    the value itself, and a value the codec refuses is refused ([marshals]).  The
    keys of the durable store's file are written as encoding/json writes them,
    invalid UTF-8 replaced ([json_map]).
    Error texts, tracing and log entries are left out.  The stores of Secret Manager
    and Cloud KMS in a Kubernetes cluster (kube.go, mount.go, kubestore.go) are
    left out: the optional interfaces only they implement are taken as absent.
    CreateKeyHandle of Cloud KMS, which calls other handlers without the lock, is
    taken as one step.  An administrator's reset of Cloud KMS, which deletes records
    through [Server.Exclusive], is left out: its runs are those between resets.
    The theorems of Resource Manager are over a store whose
    writes do not fail: its registry ignores the errors of several.  Its gRPC and
    REST handlers (api.go, hierarchy_api.go, tags_api.go, v1.go) convert and page
    what the registry answers and are left out, as are Storage's generations and
    preconditions and the other services.
    Locks are sections that run in one step: a lock that is not released does not
    show.  In Lifecycle.v a context is what its Err, its deadline and its cancellation
    answer, the components and workers are whatever they return, at whatever later
    step they are taken to return, and the control
    server's listener is left out.
    The fronts of upstream emulators, the transports, the console and the command
    line are I/O and stay out. *)

From stdpp Require Export base tactics option list gmap sets strings sorting fin_maps pretty.
From Stdlib Require Export ZArith Lia.

(** ** Scope and results *)

Declare Scope burrow_scope.
Delimit Scope burrow_scope with burrow.

(** A Go call that returns [(T, error)]: either the value or the error. *)
Inductive res (E A : Type) : Type :=
| Ok (a : A)
| Err (e : E).
Global Arguments Ok {E A} a.
Global Arguments Err {E A} e.

Global Instance res_ret E : MRet (res E) := fun A a => Ok a.
Global Instance res_bind E : MBind (res E) := fun A B f m =>
  match m with Ok a => f a | Err e => Err e end.
Global Instance res_fmap E : FMap (res E) := fun A B f m =>
  match m with Ok a => Ok (f a) | Err e => Err e end.

Global Instance res_eq_dec {E A} `{EqDecision E, EqDecision A} : EqDecision (res E A).
Proof. solve_decision. Defined.

Definition is_ok {E A} (r : res E A) : bool :=
  match r with Ok _ => true | Err _ => false end.

(** [guard_ c e]: the early return [if !c { return e }]. *)
Definition guard_ {E} (c : bool) (e : E) : res E unit :=
  if c then Ok tt else Err e.

Lemma res_bind_ok {E A B} (f : A → res E B) (m : res E A) b :
  m ≫= f = Ok b ↔ ∃ a, m = Ok a ∧ f a = Ok b.
Proof. destruct m; naive_solver. Qed.

Lemma guard_ok {E} (c : bool) (e : E) u : guard_ c e = Ok u ↔ c = true.
Proof. destruct c, u; naive_solver. Qed.

(** ** Tactics *)

(** Case analysis on every [match] and [if] of the context, keeping the
    equations, then simplification. *)
Ltac case_all :=
  repeat (case_match; simplify_eq/=); try done.

Ltac bool_prop :=
  repeat match goal with
  | H : _ && _ = true |- _ => apply andb_true_iff in H as [??]
  | H : _ || _ = false |- _ => apply orb_false_iff in H as [??]
  | H : negb _ = true |- _ => apply negb_true_iff in H
  | H : negb _ = false |- _ => apply negb_false_iff in H
  | H : (_ =? _)%Z = true |- _ => apply Z.eqb_eq in H
  | H : (_ =? _)%Z = false |- _ => apply Z.eqb_neq in H
  | H : (_ <? _)%Z = true |- _ => apply Z.ltb_lt in H
  | H : (_ <? _)%Z = false |- _ => apply Z.ltb_ge in H
  | H : (_ <=? _)%Z = true |- _ => apply Z.leb_le in H
  | H : (_ <=? _)%Z = false |- _ => apply Z.leb_gt in H
  | H : bool_decide _ = true |- _ => apply bool_decide_eq_true in H
  | H : bool_decide _ = false |- _ => apply bool_decide_eq_false in H
  end.

(** [NoDup] of a list of literals. *)
Ltac solve_NoDup :=
  repeat (apply NoDup_cons; split; [set_solver|]); apply NoDup_nil_2.

Create HintDb burrow.

(** ** Reachability *)

(** An invariant of every step holds of every reachable state. *)
Lemma rtc_invariant {A} (R : relation A) (I : A → Prop) x y :
  (∀ x y, I x → R x y → I y) → I x → rtc R x y → I y.
Proof. intros Hstep Hx Hr. induction Hr; eauto. Qed.

(** ** Lists *)

Lemma filter_Permutation_bool {A} (P : A → Prop) `{∀ x, Decision (P x)} (l k : list A) :
  l ≡ₚ k → filter P l ≡ₚ filter P k.
Proof. intros ->. done. Qed.

Lemma filter_cons_bool {A} (f : A → bool) x (l : list A) :
  filter (λ x, f x = true) (x :: l) =
  if f x then x :: filter (λ x, f x = true) l else filter (λ x, f x = true) l.
Proof. rewrite filter_cons. case_decide as Hd; destruct (f x); done. Qed.

Lemma StronglySorted_filter {A} (R : relation A) (P : A → Prop) `{∀ x, Decision (P x)} l :
  StronglySorted R l → StronglySorted R (filter P l).
Proof.
  induction 1 as [|x l Hl IH Hx]; [constructor|].
  rewrite filter_cons. destruct (decide (P x)); [|done].
  constructor; [done|]. apply Forall_forall. intros y [_ Hy]%list_elem_of_filter.
  by apply (proj1 (Forall_forall _ _) Hx).
Qed.

Lemma NoDup_fst_filter {A B} (P : A * B → Prop) `{∀ x, Decision (P x)} (l : list (A * B)) :
  NoDup l.*1 → NoDup (filter P l).*1.
Proof.
  induction l as [|[a b] l IH]; [done|]. rewrite filter_cons. cbn. intros [Ha Hl]%NoDup_cons.
  case_decide; [|auto]. cbn. apply NoDup_cons. split; [|auto].
  intros ([a' b'] & -> & [_ Hin]%list_elem_of_filter)%list_elem_of_fmap. apply Ha.
  apply list_elem_of_fmap. by exists (a', b').
Qed.

(** [sort.Strings]: ascending byte order. *)
Definition sort_strings (l : list string) : list string := merge_sort String.le l.

Lemma sort_strings_perm l : sort_strings l ≡ₚ l.
Proof. apply merge_sort_Permutation. Qed.

Lemma sort_strings_sorted l : StronglySorted String.le (sort_strings l).
Proof. apply (StronglySorted_merge_sort String.le). Qed.

Lemma sort_strings_elem x l : x ∈ sort_strings l ↔ x ∈ l.
Proof. by rewrite sort_strings_perm. Qed.

Lemma sort_strings_unique l k :
  StronglySorted String.le k → k ≡ₚ l → sort_strings l = k.
Proof.
  intros Hk Hp. apply (StronglySorted_unique String.le);
    [apply sort_strings_sorted|done|]. by rewrite sort_strings_perm.
Qed.

#[export] Hint Resolve sort_strings_perm sort_strings_sorted : burrow.

(** ** Sorting by a string key

    [sort.Slice(out, func(i, j) bool { return key(out[i]) < key(out[j]) })].
    The standard sort is not stable, so its result is determined only when
    the keys are distinct; [sorted_by_unique] says that it then is. *)

Lemma NoDup_fmap_inj_on {A B} (key : A → B) (l : list A) x y :
  NoDup (key <$> l) → x ∈ l → y ∈ l → key x = key y → x = y.
Proof.
  intros Hnd [i Hi]%list_elem_of_lookup_1 [j Hj]%list_elem_of_lookup_1 Hxy.
  assert (i = j) as ->; [|congruence].
  eapply NoDup_lookup; [exact Hnd| |].
  - rewrite list_lookup_fmap, Hi. simpl. done.
  - rewrite list_lookup_fmap, Hj. simpl. by rewrite Hxy.
Qed.

Section sort_by.
Context {A : Type} (key : A → string).

Definition key_le (a b : A) : Prop := String.le (key a) (key b).

Global Instance key_le_dec : RelDecision key_le.
Proof. intros a b. unfold key_le. apply _. Defined.

Global Instance key_le_trans : Transitive key_le.
Proof. intros a b c Hab Hbc. unfold key_le in *. by transitivity (key b). Qed.

Global Instance key_le_total : Total key_le.
Proof. intros a b. unfold key_le. apply (total String.le). Qed.

Definition sort_by (l : list A) : list A := merge_sort key_le l.

Lemma sort_by_perm l : sort_by l ≡ₚ l.
Proof. apply merge_sort_Permutation. Qed.

Lemma sort_by_sorted l : StronglySorted key_le (sort_by l).
Proof. apply (StronglySorted_merge_sort key_le). Qed.

Lemma sort_by_elem x l : x ∈ sort_by l ↔ x ∈ l.
Proof. by rewrite sort_by_perm. Qed.

Lemma sorted_by_unique l k :
  StronglySorted key_le l → StronglySorted key_le k → l ≡ₚ k → NoDup (key <$> l) → l = k.
Proof.
  intros Hl Hk Hp Hnd. apply (StronglySorted_unique_strong key_le); [|done..].
  intros x y Hx Hy Hxy Hyx. rewrite <- Hp in Hy.
  apply (NoDup_fmap_inj_on key l); [done..|]. by apply (anti_symm String.le).
Qed.

End sort_by.

(** A map filled from a list finds each item under its own key. *)
Lemma byName_lookup {A} (key : A → string) l (m : gmap string A) x :
  NoDup (key <$> l) → x ∈ l → fold_left (λ m t, <[key t := t]> m) l m !! key x = Some x.
Proof.
  revert m. induction l as [|y l IH]; intros m; [by intros _ ?%not_elem_of_nil|]. cbn.
  intros [Hy Hl]%NoDup_cons [->|Hx]%elem_of_cons; [|by apply IH].
  clear IH. rewrite <- (lookup_insert_eq m (key y) y). generalize (<[key y := y]> m). intros m'.
  revert m' Hl. induction l as [|z l IH]; intros m' Hl; [done|]. cbn in Hl |- *.
  apply NoDup_cons in Hl as [_ Hl]. rewrite IH; [|set_solver|done].
  rewrite lookup_insert_ne; [done|]. set_solver.
Qed.
