(* ===== verification/GoLib.v ===== *)
(** * The Go language and standard library, as far as the modelled code uses them

    Byte strings ([strings], [strconv], [net/url]), sorted-slice search
    ([sort]), instants, durations and dates ([time]), 64-bit wrap-around, runes
    ([unicode]) and the well-known protobuf types.  A Go
    string is a sequence of bytes, here a [string] of 8-bit [ascii]; an
    instant is its distance in nanoseconds from Go's zero [time.Time], so the
    zero value is [0] and [IsZero] is a test against it. *)

From S2P Require Import Prelude.
From Stdlib Require Import Ascii.
From stdpp Require Import pretty.
From Stdlib Require Import DecimalString DecimalZ.

Local Open Scope stdpp_scope.

(** [len] of a string: its bytes. *)
Definition len (s : string) : nat := String.length s.

(** ** package strings *)

Module strings.

Fixpoint HasPrefix (s p : string) {struct p} : bool :=
  match p, s with
  | EmptyString, _ => true
  | String _ _, EmptyString => false
  | String a p', String b s' => if decide (a = b) then HasPrefix s' p' else false
  end.

Fixpoint Contains (s sub : string) : bool :=
  HasPrefix s sub ||
  match s with
  | EmptyString => false
  | String _ s' => Contains s' sub
  end.

(** [ToLower] on ASCII.  Go also folds non-ASCII runes; none of them folds to
    an ASCII byte the callers look for ('.', '%', the hex digits of "2e", "2f"
    and "5c", NUL and the backslash). *)
Definition lower_byte (a : ascii) : ascii :=
  let n := N_of_ascii a in
  if (65 <=? n)%N && (n <=? 90)%N then ascii_of_N (n + 32) else a.

Fixpoint ToLower (s : string) : string :=
  match s with
  | EmptyString => EmptyString
  | String a s' => String (lower_byte a) (ToLower s')
  end.

Definition upper_byte (a : ascii) : ascii :=
  let n := N_of_ascii a in
  if (97 <=? n)%N && (n <=? 122)%N then ascii_of_N (n - 32) else a.

(** [strings.ToUpper] of an ASCII string. *)
Fixpoint ToUpper (s : string) : string :=
  match s with
  | EmptyString => EmptyString
  | String a s' => String (upper_byte a) (ToUpper s')
  end.

(** [strings.Split] with a one-byte separator: always at least one part. *)
Fixpoint Split (s : string) (sep : ascii) : list string :=
  match s with
  | EmptyString => [""]
  | String a s' =>
      if decide (a = sep) then "" :: Split s' sep
      else match Split s' sep with
           | h :: t => String a h :: t
           | [] => [String a ""]
           end
  end.

Definition Join (l : list string) (sep : ascii) : string :=
  String.concat (String sep "") l.

(** [strings.Index] of a substring. *)
Fixpoint Index (s sub : string) : option nat :=
  if HasPrefix s sub then Some 0
  else match s with
       | EmptyString => None
       | String _ s' => S <$> Index s' sub
       end.

Fixpoint drop_bytes (n : nat) (s : string) : string :=
  match n, s with
  | O, _ => s
  | S n, String _ s' => drop_bytes n s'
  | S _, EmptyString => ""
  end.

Fixpoint take_bytes (n : nat) (s : string) : string :=
  match n, s with
  | O, _ => ""
  | S n, String a s' => String a (take_bytes n s')
  | S _, EmptyString => ""
  end.

Definition TrimPrefix (s p : string) : string :=
  if HasPrefix s p then drop_bytes (String.length p) s else s.

Definition HasSuffix (s p : string) : bool :=
  (String.length p <=? String.length s)%nat &&
  bool_decide (drop_bytes (String.length s - String.length p) s = p).

Definition TrimSuffix (s p : string) : string :=
  if HasSuffix s p then take_bytes (String.length s - String.length p) s else s.

(** [s[strings.LastIndex(s, sep)+1:]]: what follows the last separator, all
    of [s] when there is none. *)
Definition AfterLast (s : string) (sep : ascii) : string :=
  default "" (last (Split s sep)).

Fixpoint AllBytes (P : ascii → bool) (s : string) : bool :=
  match s with
  | EmptyString => true
  | String a s' => P a && AllBytes P s'
  end.

(** [strings.Cut] at the first separator byte. *)
Fixpoint Cut (s : string) (sep : ascii) : string * string * bool :=
  match s with
  | EmptyString => ("", "", false)
  | String a s' =>
      if decide (a = sep) then ("", s', true)
      else let '(x, y, f) := Cut s' sep in (String a x, y, f)
  end.

(** [strings.TrimSpace] on ASCII white space. *)
Definition is_space (a : ascii) : bool :=
  let n := N_of_ascii a in ((9 <=? n)%N && (n <=? 13)%N) || (n =? 32)%N.

Fixpoint trim_left (s : string) : string :=
  match s with
  | EmptyString => ""
  | String a s' => if is_space a then trim_left s' else s
  end.

Fixpoint trim_right (s : string) : string :=
  match s with
  | EmptyString => ""
  | String a s' =>
      match trim_right s' with
      | EmptyString => if is_space a then "" else String a ""
      | r => String a r
      end
  end.

Definition TrimSpace (s : string) : string := trim_right (trim_left s).

(** *** Facts *)

Lemma app_cons a s t : String a s +:+ t = String a (s +:+ t).
Proof. reflexivity. Qed.

Lemma app_assoc (s t u : string) : (s +:+ t) +:+ u = s +:+ (t +:+ u).
Proof. induction s; [done|]. rewrite !app_cons. by f_equal. Qed.

Lemma app_nil_r (s : string) : s +:+ "" = s.
Proof. induction s; [done|]. rewrite app_cons. by f_equal. Qed.

Lemma HasPrefix_spec s p : HasPrefix s p = true ↔ ∃ r, s = p +:+ r.
Proof.
  revert s. induction p as [|a p IH]; intros s.
  { split; [by exists s|by destruct s]. }
  destruct s as [|b s]; [split; [done|by intros [? ?]]|].
  cbn [HasPrefix]. case_decide as Hab.
  - subst. rewrite IH. split; intros [r Hr]; exists r.
    + by rewrite Hr.
    + by injection Hr.
  - split; [done|]. intros [r Hr]. by injection Hr.
Qed.

Lemma drop_bytes_app s t : drop_bytes (String.length s) (s +:+ t) = t.
Proof. induction s as [|a s IH]; [by destruct t|]. rewrite app_cons. exact IH. Qed.

Lemma HasPrefix_app p r : HasPrefix (p +:+ r) p = true.
Proof. apply HasPrefix_spec. by exists r. Qed.

Lemma TrimPrefix_app p t : TrimPrefix (p +:+ t) p = t.
Proof. unfold TrimPrefix. by rewrite HasPrefix_app, drop_bytes_app. Qed.

Lemma Contains_spec s sub : Contains s sub = true ↔ ∃ x y, s = x +:+ sub +:+ y.
Proof.
  revert sub. induction s as [|a s IH]; intros sub; cbn [Contains].
  - rewrite orb_false_r, HasPrefix_spec. split.
    + intros [r ?]. by exists "", r.
    + intros (x & y & Hx). destruct x; [by exists y|done].
  - rewrite orb_true_iff, IH, HasPrefix_spec. split.
    + intros [[r ?]|(x & y & ->)]; [by exists "", r|by exists (String a x), y].
    + intros ([|b x] & y & Hx); [left; by exists y|].
      right. exists x, y. by injection Hx.
Qed.

Lemma AllBytes_app P s t : AllBytes P (s +:+ t) = AllBytes P s && AllBytes P t.
Proof. induction s; [done|]. rewrite app_cons. simpl. rewrite IHs. by rewrite andb_assoc. Qed.

Lemma AllBytes_mono (P Q : ascii → bool) s : (∀ a, P a = true → Q a = true) → AllBytes P s = true → AllBytes Q s = true.
Proof. intros HPQ. induction s as [|a s IH]; [done|]. cbn. rewrite !andb_true_iff. naive_solver. Qed.

Lemma AllBytes_not_in P s c :
  AllBytes P s = true → P c = false → AllBytes (λ a, negb (bool_decide (a = c))) s = true.
Proof.
  intros Hs Hc. induction s as [|a s IH]; [done|]. simpl in *.
  apply andb_true_iff in Hs as [Ha Hs]. rewrite (IH Hs), andb_true_r.
  apply negb_true_iff, bool_decide_eq_false. congruence.
Qed.

(** [s] has no byte [c]. *)
Definition free_of (c : ascii) (s : string) : bool :=
  AllBytes (λ a, negb (bool_decide (a = c))) s.

Lemma free_of_app c s t : free_of c (s +:+ t) = free_of c s && free_of c t.
Proof. apply AllBytes_app. Qed.
Lemma free_of_cons c a s : free_of c (String a s) = negb (bool_decide (a = c)) && free_of c s.
Proof. done. Qed.

Lemma Split_nonempty s c : Split s c ≠ [].
Proof. destruct s; [done|]. simpl. repeat case_match; done. Qed.

Lemma Split_parts_free s c : Forall (λ p, free_of c p = true) (Split s c).
Proof.
  induction s as [|a s IH]; simpl; [by constructor|].
  case_decide; [by constructor|]. destruct (Split s c) as [|h t]; inversion IH; subst.
  - constructor; [|done]. unfold free_of. simpl. rewrite bool_decide_false by done. done.
  - constructor; [|done]. unfold free_of in *. simpl.
    rewrite bool_decide_false by done. done.
Qed.

Lemma Join_cons2 a b l c : Join (a :: b :: l) c = a +:+ String c (Join (b :: l) c).
Proof. reflexivity. Qed.

Lemma Join_Split s c : Join (Split s c) c = s.
Proof.
  induction s as [|a s IH]; [done|]. simpl.
  pose proof (Split_nonempty s c). case_decide.
  - subst. destruct (Split s c) as [|h t]; [done|]. rewrite Join_cons2, IH. done.
  - destruct (Split s c) as [|h t]; [done|].
    destruct t as [|h' t]; [by rewrite <- IH|].
    rewrite Join_cons2 in *. by rewrite <- IH.
Qed.

Lemma Split_free s c : free_of c s = true → Split s c = [s].
Proof.
  induction s as [|a s IH]; [done|]. unfold free_of. simpl. intros [Ha Hs]%andb_true_iff.
  apply negb_true_iff, bool_decide_eq_false in Ha. rewrite decide_False by done.
  by rewrite IH.
Qed.

Lemma Split_app s c t :
  free_of c s = true → Split (s +:+ String c t) c = s :: Split t c.
Proof.
  induction s as [|a s IH]; intros Hs.
  - change ("" +:+ String c t) with (String c t). simpl. by rewrite decide_True.
  - unfold free_of in *. simpl in Hs. apply andb_true_iff in Hs as [Ha Hs].
    apply negb_true_iff, bool_decide_eq_false in Ha.
    rewrite app_cons. simpl. rewrite decide_False by done. by rewrite IH.
Qed.

Lemma Split_Join l c :
  l ≠ [] → Forall (λ p, free_of c p = true) l → Split (Join l c) c = l.
Proof.
  intros Hl Hf. induction Hf as [|x l Hx Hf IH]; [done|].
  destruct l as [|y l]; [by apply Split_free|].
  rewrite Join_cons2, Split_app by done. by rewrite IH.
Qed.

Lemma Join_inj l k c :
  l ≠ [] → k ≠ [] → Forall (λ p, free_of c p = true) l → Forall (λ p, free_of c p = true) k →
  Join l c = Join k c → l = k.
Proof. intros. rewrite <- (Split_Join l c), <- (Split_Join k c) by done. by f_equal. Qed.

Lemma trim_right_app s t :
  AllBytes (λ a, negb (is_space a)) s = true → AllBytes is_space t = true → trim_right (s +:+ t) = s.
Proof.
  intros Hs Ht. induction s as [|a s IH].
  - change ("" +:+ t) with t. induction t as [|b t IHt]; [done|].
    simpl in *. bool_prop. rewrite IHt by done. by case_match.
  - simpl in Hs. bool_prop. rewrite app_cons. simpl. rewrite IH by done.
    destruct s; [|done]. by case_match.
Qed.

Lemma TrimSpace_line s t :
  s ≠ "" → AllBytes (λ a, negb (is_space a)) s = true → AllBytes is_space t = true →
  TrimSpace (s +:+ t) = s.
Proof.
  intros Hs Hb Ht. unfold TrimSpace.
  assert (trim_left (s +:+ t) = s +:+ t) as ->; [|by apply trim_right_app].
  destruct s; [done|]. rewrite app_cons. simpl in *. bool_prop. by case_match; simplify_eq.
Qed.

Lemma TrimSpace_nonempty c s : is_space c = false → TrimSpace (String c s) ≠ "".
Proof. intros Hc. unfold TrimSpace. cbn. rewrite Hc. cbn. rewrite Hc. by destruct (trim_right s). Qed.

(** [strings.ReplaceAll] of one byte by another. *)
Fixpoint ReplaceAll (s : string) (a b : ascii) : string :=
  match s with
  | EmptyString => EmptyString
  | String c s => String (if bool_decide (c = a) then b else c) (ReplaceAll s a b)
  end.

Lemma Cut_spec s c :
  let '(x, y, found) := Cut s c in
  free_of c x = true ∧ (if found then s = x +:+ String c y else s = x ∧ y = "").
Proof.
  induction s as [|a s IH]; [done|]. simpl. case_decide as Ha; [by subst|].
  destruct (Cut s c) as [[x y] found]. destruct IH as [Hx IH].
  unfold free_of in *. simpl. rewrite bool_decide_false by done. split; [done|].
  destruct found; [by rewrite app_cons, IH|]. destruct IH as [-> ->]. done.
Qed.

Lemma Cut_app_sep x y c : free_of c x = true → Cut (x +:+ String c y) c = (x, y, true).
Proof.
  induction x as [|a x IH]; intros Hx.
  - change ("" +:+ String c y) with (String c y). simpl. by rewrite decide_True.
  - rewrite free_of_cons in Hx. bool_prop. rewrite app_cons. simpl. rewrite decide_False by done. by rewrite IH.
Qed.

Lemma ReplaceAll_back s a b : free_of b s = true → ReplaceAll (ReplaceAll s a b) b a = s.
Proof.
  unfold free_of. induction s as [|c s IH]; [done|]. cbn [AllBytes ReplaceAll]. intros [Hc Hs]%andb_true_iff. rewrite IH by done.
  apply negb_true_iff, bool_decide_eq_false in Hc. f_equal. case_bool_decide as Hca; subst; case_bool_decide; congruence.
Qed.

End strings.

(** ** package strconv *)


Definition int_min : Z := (- 2 ^ 63)%Z.
Definition int_max : Z := (2 ^ 63 - 1)%Z.

Definition in_int (z : Z) : bool := (int_min <=? z)%Z && (z <=? int_max)%Z.

Module strconv.

(** [strconv.Itoa], and [%d] of an [int]. *)
Definition Itoa (z : Z) : string := NilZero.string_of_int (Z.to_int z).

Definition digits (s : string) : option Z :=
  Z.of_uint <$> NilZero.uint_of_string s.

(** [strconv.Atoi]: an optional sign, at least one digit, no other byte, and
    the value must fit an [int]. *)
Definition Atoi (s : string) : option Z :=
  let signed :=
    match s with
    | String "-"%char s' => Z.opp <$> digits s'
    | String "+"%char s' => digits s'
    | _ => digits s
    end in
  z ← signed; if in_int z then Some z else None.

Lemma to_uint_nonnil p : Pos.to_uint p ≠ Decimal.Nil.
Proof. apply DecimalPos.Unsigned.to_uint_nonnil. Qed.

Lemma digits_uint u : u ≠ Decimal.Nil → digits (NilZero.string_of_uint u) = Some (Z.of_uint u).
Proof. intros. unfold digits. by rewrite NilZero.usu. Qed.

Lemma Atoi_uint u :
  u ≠ Decimal.Nil →
  Atoi (NilZero.string_of_uint u) = if in_int (Z.of_uint u) then Some (Z.of_uint u) else None.
Proof.
  intros Hu. pose proof (digits_uint u Hu) as Hd. unfold Atoi.
  by destruct u; [done|..]; simpl NilZero.string_of_uint in *; cbv beta iota; rewrite Hd.
Qed.

(** Printing then parsing gives the number back exactly when it fits an [int]. *)
Lemma digits_Itoa n : (0 ≤ n)%Z → digits (Itoa n) = Some n.
Proof.
  intros Hn. unfold Itoa. destruct n as [|p|p]; [done| |lia]. cbn [Z.to_int NilZero.string_of_int].
  rewrite digits_uint by apply to_uint_nonnil.
  change (Z.of_uint (Pos.to_uint p)) with (Z.of_int (Z.to_int (Z.pos p))). by rewrite DecimalZ.of_to.
Qed.

Lemma Atoi_Itoa_eq z : Atoi (Itoa z) = if in_int z then Some z else None.
Proof.
  unfold Itoa. destruct z as [|p|p]; [done|..]; cbn [Z.to_int NilZero.string_of_int].
  - rewrite Atoi_uint by apply to_uint_nonnil.
    change (Z.of_uint (Pos.to_uint p)) with (Z.of_int (Z.to_int (Z.pos p))).
    by rewrite DecimalZ.of_to.
  - unfold Atoi. rewrite digits_uint by apply to_uint_nonnil.
    cbn [fmap option_fmap option_map mbind option_bind].
    change (- Z.of_uint (Pos.to_uint p))%Z with (Z.of_int (Z.to_int (Z.neg p))).
    by rewrite DecimalZ.of_to.
Qed.

Lemma Atoi_Itoa z : in_int z = true → Atoi (Itoa z) = Some z.
Proof. intros Hz. by rewrite Atoi_Itoa_eq, Hz. Qed.

Lemma Atoi_Itoa_out z : in_int z = false → Atoi (Itoa z) = None.
Proof. intros Hz. by rewrite Atoi_Itoa_eq, Hz. Qed.

Lemma Itoa_no_space z : strings.AllBytes (λ a, negb (strings.is_space a)) (Itoa z) = true.
Proof.
  assert (∀ u, strings.AllBytes (λ a, negb (strings.is_space a)) (NilEmpty.string_of_uint u) = true) as Hu.
  { induction u; simpl; done. }
  assert (∀ u, strings.AllBytes (λ a, negb (strings.is_space a)) (NilZero.string_of_uint u) = true) as Hz.
  { intros []; [done|..]; apply Hu. }
  unfold Itoa. destruct (Z.to_int z); simpl; apply Hz.
Qed.

(** A printed number is digits, after a sign if it is negative. *)
Lemma Itoa_bytes z :
  strings.AllBytes (λ a, (N.leb 48 (N_of_ascii a) && N.leb (N_of_ascii a) 57) || bool_decide (a = "-"%char)) (Itoa z) = true.
Proof.
  assert (∀ u, strings.AllBytes (λ a, (N.leb 48 (N_of_ascii a) && N.leb (N_of_ascii a) 57) || bool_decide (a = "-"%char))
    (NilEmpty.string_of_uint u) = true) as Hu by (induction u; simpl; done).
  unfold Itoa. destruct (Z.to_int z) as [[]|[]]; simpl; first [done | apply Hu].
Qed.

Lemma Itoa_nonempty z : Itoa z ≠ "".
Proof.
  unfold Itoa. destruct z as [|p|p]; simpl; try done.
  unfold NilZero.string_of_uint. pose proof (to_uint_nonnil p). by destruct (Pos.to_uint p).
Qed.

Lemma Itoa_inj n m : Itoa n = Itoa m → n = m.
Proof.
  intros H. apply (f_equal NilZero.int_of_string) in H. unfold Itoa in H.
  assert (∀ k, Z.to_int k ≠ Decimal.Pos Decimal.Nil ∧ Z.to_int k ≠ Decimal.Neg Decimal.Nil) as Hk.
  { intros [|p|p]; cbn; split; try done; pose proof (to_uint_nonnil p); congruence. }
  rewrite !NilZero.isi in H by apply Hk. injection H as H. by apply DecimalZ.to_int_inj.
Qed.

(** Digits without a leading zero are how their value is printed. *)
Lemma uint_norm u : match u with Decimal.Nil | Decimal.D0 _ => False | _ => True end → Decimal.unorm u = u ∧ Pos.of_uint u ≠ 0%N.
Proof. by destruct u. Qed.

Lemma Itoa_digits s n :
  match s with String a _ => a ≠ "0"%char | EmptyString => True end → digits s = Some n → Itoa n = s ∧ (1 ≤ n)%Z.
Proof.
  intros Hf Hd. unfold digits in Hd. destruct (NilZero.uint_of_string s) as [u|] eqn:Hu; [|done]. injection Hd as <-.
  assert (match u with Decimal.Nil | Decimal.D0 _ => False | _ => True end) as H0.
  { apply NilZero.sus in Hu. subst s. destruct u; cbn in *; try done. }
  apply NilZero.sus in Hu. subst s. destruct (uint_norm u H0) as [Hn Hp]. unfold Itoa, Z.of_uint.
  destruct (Pos.of_uint u) as [|p] eqn:Hpu; [done|]. cbn [Z.of_N Z.to_int NilZero.string_of_int]. split; [|lia]. f_equal.
  rewrite <- Hn. rewrite <- (DecimalPos.Unsigned.to_of u), Hpu. done.
Qed.

Lemma Atoi_plain a s n : a ≠ "-"%char → a ≠ "+"%char → Atoi (String a s) = Some n → digits (String a s) = Some n ∧ in_int n = true.
Proof.
  intros H1 H2. unfold Atoi. assert ((match String a s with
    | String "-"%char s' => Z.opp <$> digits s' | String "+"%char s' => digits s' | _ => digits (String a s) end) = digits (String a s)) as ->.
  { destruct a as [[] [] [] [] [] [] [] []]; try done. }
  destruct (digits (String a s)) as [z|]; [|done]. cbn. destruct (in_int z) eqn:Hz; [|done]. by intros [= <-].
Qed.

(** A positive number is printed as digits, the first not zero. *)
Lemma Itoa_positive n : (1 ≤ n)%Z → ∃ a s, Itoa n = String a s ∧ (49 ≤ N_of_ascii a ≤ 57)%N ∧
  strings.AllBytes (λ a, N.leb 48 (N_of_ascii a) && N.leb (N_of_ascii a) 57) (String a s) = true.
Proof.
  intros Hn. destruct n as [|p|p]; [lia| |lia]. unfold Itoa. cbn [Z.to_int NilZero.string_of_int].
  assert (∀ u, strings.AllBytes (λ a, N.leb 48 (N_of_ascii a) && N.leb (N_of_ascii a) 57) (NilEmpty.string_of_uint u) = true) as Hu
    by (induction u; simpl; done).
  pose proof (DecimalPos.Unsigned.to_uint_nonzero p) as Hz. pose proof (to_uint_nonnil p) as Hnn.
  assert (Decimal.unorm (Pos.to_uint p) = Pos.to_uint p) as Hnorm.
  { pose proof (DecimalPos.Unsigned.to_of (Pos.to_uint p)) as H. rewrite DecimalPos.Unsigned.of_to in H. by rewrite <- H. }
  destruct (Pos.to_uint p) as [|u|u|u|u|u|u|u|u|u|u]; [done|..];
    try (eexists _, _; split; [reflexivity|]; split; [vm_compute; split; discriminate|]; exact (Hu u)).
  exfalso. unfold Decimal.unorm in Hnorm. cbn [Decimal.nzhead] in Hnorm.
  destruct (Decimal.nzhead u) eqn:Hnz; try discriminate Hnorm.
  - by rewrite <- Hnorm in Hz.
  - by apply DecimalFacts.nzhead_nonzero in Hnz.
Qed.

End strconv.

(** ** Fixed-width integers *)

Definition wrap_u64 (z : Z) : Z := (z mod 2 ^ 64)%Z.
Definition wrap_i64 (z : Z) : Z := ((z + 2 ^ 63) mod 2 ^ 64 - 2 ^ 63)%Z.
Definition wrap_i32 (z : Z) : Z := ((z + 2 ^ 31) mod 2 ^ 32 - 2 ^ 31)%Z.

Lemma wrap_i64_id z : (int_min ≤ z ≤ int_max)%Z → wrap_i64 z = z.
Proof. unfold wrap_i64, int_min, int_max. intros. rewrite Z.mod_small by lia. lia. Qed.

Lemma wrap_i64_range z : (int_min ≤ wrap_i64 z ≤ int_max)%Z.
Proof.
  unfold wrap_i64, int_min, int_max.
  pose proof (Z.mod_pos_bound (z + 2 ^ 63) (2 ^ 64)). lia.
Qed.

(** ** package time *)

Module time.

(** Nanoseconds since Go's zero [time.Time] (January 1, year 1, UTC). *)
Definition Time := Z.
(** [time.Duration], an [int64] count of nanoseconds. *)
Definition Duration := Z.

Definition Millisecond : Duration := 1000000%Z.
Definition Second : Duration := 1000000000%Z.
Definition Minute : Duration := (60 * Second)%Z.
Definition Hour : Duration := (60 * Minute)%Z.

Definition zero : Time := 0%Z.
Definition IsZero (t : Time) : bool := (t =? 0)%Z.
Definition Before (t u : Time) : bool := (t <? u)%Z.
Definition After (t u : Time) : bool := (u <? t)%Z.
Definition Equal (t u : Time) : bool := (t =? u)%Z.
Definition Add (t : Time) (d : Duration) : Time := (t + d)%Z.

(** Seconds from the zero time to the Unix epoch. *)
Definition unix_epoch : Z := 62135596800.
Definition UnixMicro (t : Time) : Z := ((t - unix_epoch * Second) / 1000)%Z.
(** [UnixNano] is an [int64]. *)
Definition UnixNano (t : Time) : Z := wrap_i64 (t - unix_epoch * Second).

(** [Sub] saturates at the ends of [Duration]. *)
Definition Sub (t u : Time) : Duration := Z.max int_min (Z.min int_max (t - u)%Z).

(** The instants [Time.MarshalJSON] accepts, years 0 to 9999: year 0 has 366
    days and January 1 of year 10000 is 3652059 days after the zero time. *)
Definition json_ok (t : Time) : bool :=
  (- 366 * 24 * Hour <=? t)%Z && (t <? 3652059 * 24 * Hour)%Z.

Lemma Sub_exact t u : (int_min ≤ t - u ≤ int_max)%Z → Sub t u = (t - u)%Z.
Proof. unfold Sub. lia. Qed.

End time.

(** ** package sort *)

Module sort.

(** [sort.Search(n, f)]: the binary search of the standard library; [fuel]
    bounds the iterations, and [n] is enough (the interval shrinks). *)
Fixpoint search_loop (fuel : nat) (f : nat → bool) (i j : nat) : nat :=
  match fuel with
  | O => i
  | S n =>
      if (i <? j)%nat then
        let h := ((i + j) / 2)%nat in
        if negb (f h) then search_loop n f (S h) j else search_loop n f i h
      else i
  end.

Definition Search (n : nat) (f : nat → bool) : nat := search_loop n f 0 n.

(** [sort.SearchStrings(a, x)]: the first index whose string is at least [x]. *)
Definition SearchStrings (a : list string) (x : string) : nat :=
  Search (length a) (λ i, match a !! i with Some y => String.leb x y | None => true end).

Lemma search_loop_spec fuel f i j :
  (j - i ≤ fuel)%nat → (i ≤ j)%nat →
  (∀ a b, (a ≤ b)%nat → f a = true → f b = true) →
  (i ≤ search_loop fuel f i j ≤ j)%nat ∧
  (∀ a, (i ≤ a < search_loop fuel f i j)%nat → f a = false) ∧
  ((search_loop fuel f i j < j)%nat → f (search_loop fuel f i j) = true).
Proof.
  intros Hfuel Hij Hmono. revert i j Hfuel Hij. induction fuel as [|n IH]; intros i j Hf Hij; cbn [search_loop].
  { split; [lia|]. split; intros; lia. }
  destruct (Nat.ltb_spec i j) as [Hlt|]; [|split; [lia|]; split; intros; lia].
  assert ((i ≤ (i + j) / 2 < j)%nat) as Hh.
  { pose proof (Nat.div_mod_eq (i + j) 2). pose proof (Nat.mod_upper_bound (i + j) 2). lia. }
  set (h := ((i + j) / 2)%nat) in *. destruct (f h) eqn:Hfh; cbn [negb].
  - destruct (IH i h ltac:(lia) ltac:(lia)) as (H1 & H2 & H3). split; [lia|]. split; [done|].
    intros _. destruct (decide (search_loop n f i h = h)) as [Heq|]; [by rewrite Heq|].
    apply H3. lia.
  - destruct (IH (S h) j ltac:(lia) ltac:(lia)) as (H1 & H2 & H3). split; [lia|]. split; [|done].
    intros a Ha. destruct (decide (S h ≤ a)%nat); [apply H2; lia|].
    destruct (f a) eqn:Hfa; [|done]. rewrite (Hmono a h) in Hfh; [done|lia|done].
Qed.

Lemma leb_le x y : String.leb x y = true ↔ String.le x y.
Proof. unfold String.le. by rewrite Is_true_true. Qed.

Lemma sorted_lookup_le (l : list string) i j x y :
  StronglySorted String.le l → (i ≤ j)%nat → l !! i = Some x → l !! j = Some y → String.le x y.
Proof.
  intros Hs. revert i j. induction Hs as [|a l Hs IH Ha]; intros i j Hij Hi Hj; [done|].
  destruct i as [|i], j as [|j]; simplify_eq/=; [done|..].
  - apply (proj1 (Forall_forall _ _) Ha). by apply list_elem_of_lookup_2 in Hj.
  - lia.
  - apply (IH i j); [lia|done..].
Qed.

(** On a sorted slice [SearchStrings] splits it into the strings below [x] and
    those not below it. *)
Lemma SearchStrings_spec a x :
  StronglySorted String.le a →
  (SearchStrings a x ≤ length a)%nat ∧
  (∀ i y, (i < SearchStrings a x)%nat → a !! i = Some y → ¬ String.le x y) ∧
  (∀ i y, (SearchStrings a x ≤ i)%nat → a !! i = Some y → String.le x y).
Proof.
  intros Hs. unfold SearchStrings, Search.
  set (f := λ i : nat, match a !! i with Some y => String.leb x y | None => true end).
  assert (∀ i j, (i ≤ j)%nat → f i = true → f j = true) as Hmono.
  { intros i j Hij. unfold f. destruct (a !! j) as [y|] eqn:Hj; [|done].
    destruct (a !! i) as [z|] eqn:Hi.
    - rewrite !leb_le. intros Hx. transitivity z; [done|]. by eapply sorted_lookup_le.
    - apply lookup_ge_None in Hi. apply lookup_lt_Some in Hj. lia. }
  destruct (search_loop_spec (length a) f 0 (length a) ltac:(lia) ltac:(lia) Hmono) as (H1 & H2 & H3).
  split; [lia|]. split; intros i y Hi Hy.
  - specialize (H2 i ltac:(lia)). unfold f in H2. rewrite Hy in H2.
    rewrite <- leb_le. by rewrite H2.
  - apply leb_le. assert (f i = true) as Hfi; [|unfold f in Hfi; by rewrite Hy in Hfi].
    apply (Hmono _ _ Hi), H3. apply lookup_lt_Some in Hy. lia.
Qed.

End sort.

(** ** package net/url *)

Module url.

Definition unhex (a : ascii) : option N :=
  let n := N_of_ascii a in
  if (48 <=? n)%N && (n <=? 57)%N then Some (n - 48)%N
  else if (97 <=? n)%N && (n <=? 102)%N then Some (n - 87)%N
  else if (65 <=? n)%N && (n <=? 70)%N then Some (n - 55)%N
  else None.

(** [url.PathUnescape]: every '%' must be followed by two hex digits. *)
Fixpoint PathUnescape (s : string) : option string :=
  match s with
  | EmptyString => Some ""
  | String "%"%char s' =>
      match s' with
      | String h (String l s'') =>
          hi ← unhex h; lo ← unhex l; r ← PathUnescape s'';
          Some (String (ascii_of_N (16 * hi + lo)) r)
      | _ => None
      end
  | String a s' => r ← PathUnescape s'; Some (String a r)
  end.

End url.

(** ** The well-known protobuf types

    google.protobuf.Timestamp and Duration with the conversions of the Go packages
    timestamppb and durationpb, and [strings.Cut]. *)

Import strings time strconv.

(** [strings.Cut] at the first [sep]; [None] when there is none. *)
Fixpoint CutString (s sep : string) : option (string * string) :=
  if HasPrefix s sep then Some ("", drop_bytes (String.length sep) s)
  else match s with
       | EmptyString => None
       | String a s => '(x, y) ← CutString s sep; Some (String a x, y)
       end.

(** ** Well-known types *)

Module timestamppb.

Record Timestamp := mkTimestamp { seconds : Z; nanos : Z }.

(** Seconds from the zero time to the Unix epoch. *)
Definition unix_epoch : Z := 62135596800.

(** Years 1 to 9999. *)
Definition CheckValid (t : Timestamp) : bool :=
  ((- unix_epoch <=? seconds t) && (seconds t <=? 253402300799) && (0 <=? nanos t) && (nanos t <? 1000000000))%Z.

Definition AsTime (t : Timestamp) : Time := ((seconds t + unix_epoch) * Second + nanos t)%Z.
Definition New (t : Time) : Timestamp := mkTimestamp (t / Second - unix_epoch)%Z (t mod Second)%Z.

Lemma AsTime_New t : AsTime (New t) = t.
Proof.
  unfold AsTime, New. cbn [seconds nanos]. pose proof (Z.div_mod t Second ltac:(done)) as Hd.
  replace (t / Second - unix_epoch + unix_epoch)%Z with (t / Second)%Z by lia. lia.
Qed.

End timestamppb.

Module durationpb.

Record Duration := mkDuration { seconds : Z; nanos : Z }.

Definition CheckValid (d : Duration) : bool :=
  ((-315576000000 <=? seconds d) && (seconds d <=? 315576000000) && (-1000000000 <? nanos d) && (nanos d <? 1000000000) &&
   negb ((0 <? seconds d) && (nanos d <? 0)) && negb ((seconds d <? 0) && (0 <? nanos d)))%Z.

(** [AsDuration] saturates. *)
Definition AsDuration (d : Duration) : time.Duration :=
  Z.max int_min (Z.min int_max (seconds d * Second + nanos d)%Z).
Definition New (d : time.Duration) : Duration := mkDuration (Z.quot d Second) (Z.rem d Second).

Lemma AsDuration_New d : (int_min ≤ d ≤ int_max)%Z → AsDuration (New d) = d.
Proof.
  intros Hd. unfold AsDuration, New. cbn [seconds nanos]. pose proof (Z.quot_rem' d Second) as Hq. lia.
Qed.

End durationpb.

(** ** Dates and padded numbers

    What the services use of the calendar of package time, and of [fmt]'s zero
    padding. *)

Import strings strconv time.

Module fmt.

(** [%0<width>d] of an integer that is not negative. *)
Definition pad (width : nat) (s : string) : string :=
  Nat.iter (width - len s) (String "0") s.

Definition Sprintf_0d (width : nat) (n : Z) : string :=
  if (n <? 0)%Z then String "-" (pad (width - 1) (Itoa (- n))) else pad width (Itoa n).

End fmt.

(** ** The calendar *)

(** The calendar behind [AddDate] with years only, in UTC: days of year [y] from
    0, counted from January 1 of year 1. *)
Definition leap (y : Z) : bool := ((y mod 4 =? 0) && (negb (y mod 100 =? 0) || (y mod 400 =? 0)))%Z.
Definition days_before_year (y : Z) : Z := (365 * (y - 1) + (y - 1) / 4 - (y - 1) / 100 + (y - 1) / 400)%Z.
Definition year_yday (days : Z) : Z * Z :=
  (let n400 := days / 146097 in let d := days mod 146097 in
   let n100 := d / 36524 in let n100 := n100 - Z.shiftr n100 2 in let d := d - 36524 * n100 in
   let n4 := d / 1461 in let d := d - 1461 * n4 in
   let n1 := d / 365 in let n1 := n1 - Z.shiftr n1 2 in
   (400 * n400 + 100 * n100 + 4 * n4 + n1 + 1, d - 365 * n1))%Z.

(** A day of February 29 goes to March 1 in a year without one. *)
Definition AddYears (t : Time) (n : Z) : Time :=
  let day := (24 * Hour)%Z in
  let '(y, yday) := year_yday (t / day) in
  let y' := (y + n)%Z in
  let yday' := if (yday <? 59 + Z.b2z (leap y))%Z then yday else (yday - Z.b2z (leap y) + Z.b2z (leap y'))%Z in
  ((days_before_year y' + yday') * day + t mod day)%Z.

(** The month and the day of it, from the day of the year. *)
Fixpoint month_day (months : list Z) (m yday : Z) : Z * Z :=
  match months with
  | [] => (m, yday + 1)%Z
  | n :: rest => if (yday <? n)%Z then (m, yday + 1)%Z else month_day rest (m + 1) (yday - n)
  end.

Definition month_lengths (y : Z) : list Z := [31; 28 + Z.b2z (leap y); 31; 30; 31; 30; 31; 31; 30; 31; 30; 31]%Z.

(** [t.UTC().Format(time.RFC3339)] *)
Definition FormatRFC3339 (t : Time) : string :=
  let day := (24 * Hour)%Z in
  let '(y, yday) := year_yday (t / day) in
  let '(m, d) := month_day (month_lengths y) 1 yday in
  let s := (t mod day / Second)%Z in
  let two := fmt.Sprintf_0d 2 in
  fmt.Sprintf_0d 4 y +:+ "-" +:+ two m +:+ "-" +:+ two d +:+ "T" +:+
  two (s / 3600)%Z +:+ ":" +:+ two (s / 60 mod 60)%Z +:+ ":" +:+ two (s mod 60)%Z +:+ "Z".

Example format_epoch : FormatRFC3339 (unix_epoch * Second)%Z = "1970-01-01T00:00:00Z".
Proof. vm_compute. reflexivity. Qed.
Example format_leap_day : FormatRFC3339 ((unix_epoch + 1709210096) * Second + 5)%Z = "2024-02-29T12:34:56Z".
Proof. vm_compute. reflexivity. Qed.

(** ** UTF-8 and the tables of package unicode

    How a Go string is ranged over: rune by rune, a byte that is not the start of
    a valid encoding being U+FFFD.  Which runes are letters or digits are the
    tables of package unicode, a parameter outside ASCII. *)

Definition byte_in (lo hi : N) (a : ascii) : bool := (lo <=? N_of_ascii a)%N && (N_of_ascii a <=? hi)%N.
Definition cont (a : ascii) : bool := byte_in 128 191 a.
Definition low6 (a : ascii) : N := (N_of_ascii a mod 64)%N.
Definition RuneError : N := 65533%N.

(** The range of the second byte after a first byte of three or four. *)
Definition second_of_three (a : ascii) : ascii → bool :=
  if (N_of_ascii a =? 224)%N then byte_in 160 191 else if (N_of_ascii a =? 237)%N then byte_in 128 159 else cont.
Definition second_of_four (a : ascii) : ascii → bool :=
  if (N_of_ascii a =? 240)%N then byte_in 144 191 else if (N_of_ascii a =? 244)%N then byte_in 128 143 else cont.

Fixpoint runes (s : string) : list N :=
  match s with
  | EmptyString => []
  | String a s1 =>
      if byte_in 0 127 a then N_of_ascii a :: runes s1
      else match s1 with
           | String b s2 =>
               if byte_in 194 223 a && cont b then (N_of_ascii a mod 32 * 64 + low6 b)%N :: runes s2
               else match s2 with
                    | String c s3 =>
                        if byte_in 224 239 a && second_of_three a b && cont c
                        then (N_of_ascii a mod 16 * 4096 + low6 b * 64 + low6 c)%N :: runes s3
                        else match s3 with
                             | String d s4 =>
                                 if byte_in 240 244 a && second_of_four a b && cont c && cont d
                                 then (N_of_ascii a mod 8 * 262144 + low6 b * 4096 + low6 c * 64 + low6 d)%N :: runes s4
                                 else RuneError :: runes s1
                             | EmptyString => RuneError :: runes s1
                             end
                    | EmptyString => RuneError :: runes s1
                    end
           | EmptyString => RuneError :: runes s1
           end
  end.

(** A string as encoding/json writes it and reads it back: each byte that is not
    part of a valid encoding becomes U+FFFD. *)
Definition replacement : string := String "239" (String "191" (String "189" "")).

Fixpoint json_string (s : string) : string :=
  match s with
  | EmptyString => ""
  | String a s1 =>
      if byte_in 0 127 a then String a (json_string s1)
      else match s1 with
           | String b s2 =>
               if byte_in 194 223 a && cont b then String a (String b (json_string s2))
               else match s2 with
                    | String c s3 =>
                        if byte_in 224 239 a && second_of_three a b && cont c
                        then String a (String b (String c (json_string s3)))
                        else match s3 with
                             | String d s4 =>
                                 if byte_in 240 244 a && second_of_four a b && cont c && cont d
                                 then String a (String b (String c (String d (json_string s4))))
                                 else replacement +:+ json_string s1
                             | EmptyString => replacement +:+ json_string s1
                             end
                    | EmptyString => replacement +:+ json_string s1
                    end
           | EmptyString => replacement +:+ json_string s1
           end
  end.

(** The strings that come back as they were: valid UTF-8. *)
Definition ValidString (s : string) : bool := bool_decide (json_string s = s).

(** Letters and digits outside ASCII, and the classes Ll, Lo and N of regexp. *)
Class Unicode := {
  uni_letter : N → bool;
  uni_digit : N → bool;
  uni_Ll : N → bool;
  uni_Lo : N → bool;
  uni_N : N → bool
}.

Section unicode.
Context `{Unicode}.

Definition rune_in (lo hi r : N) : bool := (lo <=? r)%N && (r <=? hi)%N.
Definition IsLetter (r : N) : bool := if (r <? 128)%N then rune_in 65 90 r || rune_in 97 122 r else uni_letter r.
Definition IsDigit (r : N) : bool := if (r <? 128)%N then rune_in 48 57 r else uni_digit r.
Definition in_Ll (r : N) : bool := if (r <? 128)%N then rune_in 97 122 r else uni_Ll r.
Definition in_Lo (r : N) : bool := if (r <? 128)%N then false else uni_Lo r.
Definition in_N (r : N) : bool := if (r <? 128)%N then rune_in 48 57 r else uni_N r.

End unicode.

Lemma runes_ascii s : strings.AllBytes (byte_in 0 127) s = true → runes s = N_of_ascii <$> String.list_ascii_of_string s.
Proof. induction s as [|a s IH]; [done|]. cbn [strings.AllBytes]. intros [Ha Hs]%andb_true_iff. cbn [runes]. rewrite Ha. cbn. by rewrite IH. Qed.

Lemma ValidString_ascii s : strings.AllBytes (byte_in 0 127) s = true → ValidString s = true.
Proof.
  intros Hs. apply bool_decide_eq_true. induction s as [|a s IH]; [done|]. cbn [strings.AllBytes] in Hs.
  apply andb_true_iff in Hs as [Ha Hs]. cbn [json_string]. by rewrite Ha, IH.
Qed.
