(* ===== verification/ApiError.v ===== *)
(** * internal/apierror: Google-style errors

    An error value is the canonical code, its JSON reason and its cause; the
    formatted message text is not modelled.  [error] is the closed set of Go
    error values the modelled services produce. *)

From S2P Require Import Prelude.

Module codes.
(** [google.golang.org/grpc/codes]. *)
Inductive Code :=
| OK | Canceled | Unknown | InvalidArgument | DeadlineExceeded | NotFound
| AlreadyExists | PermissionDenied | ResourceExhausted | FailedPrecondition
| Aborted | OutOfRange | Unimplemented | Internal | Unavailable | DataLoss
| Unauthenticated.

#[global] Instance Code_eq_dec : EqDecision Code.
Proof. solve_decision. Defined.
End codes.

Import codes (Code).

Inductive error : Type :=
| Api (code : Code) (reason : string) (cause : option error) (** [*apierror.Error] *)
| Status (code : Code)                       (** an error carrying a gRPC status *)
| Wrapped (e : error)                        (** [fmt.Errorf("...: %w", e)] *)
| Sentinel (name : string).                  (** [errors.New] *)

Definition httpStatus (c : Code) : Z :=
  match c with
  | codes.OK => 200
  | codes.InvalidArgument | codes.FailedPrecondition | codes.OutOfRange => 400
  | codes.Unauthenticated => 401
  | codes.PermissionDenied => 403
  | codes.NotFound => 404
  | codes.AlreadyExists | codes.Aborted => 409
  | codes.ResourceExhausted => 429
  | codes.Canceled => 499
  | codes.Unimplemented => 501
  | codes.Unavailable => 503
  | codes.DeadlineExceeded => 504
  | codes.Unknown | codes.Internal | codes.DataLoss => 500
  end%Z.

Definition NotFound : error := Api codes.NotFound "notFound" None.
Definition AlreadyExists : error := Api codes.AlreadyExists "alreadyExists" None.
Definition InvalidArgument : error := Api codes.InvalidArgument "invalid" None.
Definition FailedPrecondition : error := Api codes.FailedPrecondition "conditionNotMet" None.
Definition Aborted : error := Api codes.Aborted "aborted" None.
Definition Unimplemented : error := Api codes.Unimplemented "notImplemented" None.
Definition Internal (cause : error) : error := Api codes.Internal "internalError" (Some cause).

(** [statusReasons], "" for a code it does not list. *)
Definition statusReasons (c : Code) : string :=
  match c with
  | codes.NotFound => "notFound"
  | codes.AlreadyExists => "alreadyExists"
  | codes.InvalidArgument => "invalid"
  | codes.FailedPrecondition => "conditionNotMet"
  | codes.Unimplemented => "notImplemented"
  | codes.Aborted => "aborted"
  | codes.PermissionDenied => "forbidden"
  | codes.Unauthenticated => "unauthorized"
  | codes.Unavailable => "backendError"
  | _ => ""
  end.

(** [errors.Is(err, target)] for a sentinel, by its text: along the [Unwrap] chain. *)
Fixpoint errors_Is (e : error) (target : string) : bool :=
  match e with
  | Sentinel n => bool_decide (n = target)
  | Wrapped e' | Api _ _ (Some e') => errors_Is e' target
  | Api _ _ None | Status _ => false
  end.

(** [errors.As(err, &e)] for an [*Error]: the first one of the [Unwrap] chain. *)
Fixpoint as_api (e : error) : option error :=
  match e with
  | Api c r k => Some (Api c r k)
  | Wrapped e' => as_api e'
  | Status _ | Sentinel _ => None
  end.

(** [status.FromError]: the status an error of the chain carries. *)
Fixpoint from_status (e : error) : option Code :=
  match e with
  | Api c _ _ => Some c
  | Status c => Some c
  | Wrapped e' => from_status e'
  | Sentinel _ => None
  end.

(** [From] of a non-nil error ([From(nil)] is [nil], and [Wrap] keeps it so). *)
Definition From (e : error) : error :=
  match as_api e with
  | Some a => a
  | None =>
      match from_status e with
      | Some c => if decide (c = codes.Unknown) then Internal e
                  else Api c (statusReasons c) None
      | None => Internal e
      end
  end.

(** [Wrap(err)]: a nil error stays nil. *)
Definition Wrap (e : option error) : option error := From <$> e.

(** The code a caller of either transport sees. *)
Definition code_of (e : error) : Code :=
  match From e with Api c _ _ => c | _ => codes.Unknown end.

Lemma From_api e : ∃ c r k, From e = Api c r k.
Proof.
  unfold From, Internal. destruct (as_api e) as [a|] eqn:Ha.
  - induction e; naive_solver.
  - case_match; [case_decide|]; eauto.
Qed.

Lemma From_idempotent e : From (From e) = From e.
Proof. destruct (From_api e) as (c & r & k & ->). done. Qed.

Lemma From_wrapped e : From e = Api (code_of e) (match From e with Api _ r _ => r | _ => "" end)
                                   (match From e with Api _ _ k => k | _ => None end).
Proof. unfold code_of. by destruct (From_api e) as (c & r & k & ->). Qed.
