(* ===== verification/Handler.v ===== *)
(** * Request handlers as computations

    A handler reads its surroundings (the clock, random bytes), runs on the state
    of its service and returns a value or an error; what it wrote before an error
    stays written.  The weakest-precondition rules below are one per combinator. *)

From S2P Require Import Prelude GoLib ApiError.

Section handler.
Context {E St : Type}.

Definition M (A : Type) : Type := E → St → St * res error A.

#[global] Instance M_ret : MRet M := λ A a _ s, (s, Ok a).
#[global] Instance M_bind : MBind M := λ A B f m e s,
  match m e s with
  | (s', Ok a) => f a e s'
  | (s', Err err) => (s', Err err)
  end.

Definition throw {A} (err : error) : M A := λ _ s, (s, Err err).
Definition lift {A} (r : res error A) : M A := λ _ s, (s, r).
Definition ask {A} (f : E → A) : M A := λ e s, (s, Ok (f e)).
Definition when (c : bool) (m : M unit) : M unit := if c then m else mret tt.

(** [if c { return err }] *)
Definition refuse (c : bool) (err : error) : M unit := when c (throw err).

(** The result of a computation as a value: [_, err := f()]. *)
Definition attempt {A} (m : M A) : M (res error A) := λ e s, let '(s', r) := m e s in (s', Ok r).

(** [defer m()]: also after a failure, whose error stays. *)
Definition deferred {A} (m : M unit) (body : M A) : M A := λ e s, let '(s', r) := body e s in ((m e s').1, r).

Fixpoint each {A} (f : A → M unit) (l : list A) : M unit :=
  match l with
  | [] => mret tt
  | x :: rest => f x ;; each f rest
  end.

(** The results of a loop that appends one or none at each turn. *)
Fixpoint collect {A B} (f : A → M (option B)) (l : list A) : M (list B) :=
  match l with
  | [] => mret []
  | x :: rest => b ← f x; bs ← collect f rest; mret (match b with Some b => b :: bs | None => bs end)
  end.

(** ** Weakest preconditions *)

(** [m], run in [e] from [s], ends as [Q] says. *)
Definition wp {A} (e : E) (s : St) (m : M A) (Q : res error A → St → Prop) : Prop := Q (m e s).2 (m e s).1.

Implicit Types (e : E) (s : St).

Lemma wp_mono {A} e s (m : M A) Q Q' : (∀ r s', Q r s' → Q' r s') → wp e s m Q → wp e s m Q'.
Proof. unfold wp. auto. Qed.

Lemma wp_and {A} e s (m : M A) Q Q' : wp e s m Q → wp e s m Q' → wp e s m (λ r s', Q r s' ∧ Q' r s').
Proof. unfold wp. auto. Qed.

Lemma wp_bind {A B} e s (m : M A) (f : A → M B) Q :
  wp e s m (λ r s', match r with Ok a => wp e s' (f a) Q | Err x => Q (Err x) s' end) → wp e s (m ≫= f) Q.
Proof. unfold wp, mbind, M_bind. destruct (m e s) as [s' [a|x]]; done. Qed.

Lemma wp_ret {A} e s (a : A) Q : Q (Ok a) s → wp e s (mret a) Q.
Proof. done. Qed.
Lemma wp_throw {A} e s x Q : Q (Err x) s → wp e s (throw (A := A) x) Q.
Proof. done. Qed.
Lemma wp_lift {A} e s (r : res error A) Q : Q r s → wp e s (lift r) Q.
Proof. done. Qed.
Lemma wp_ask {A} e s (f : E → A) Q : Q (Ok (f e)) s → wp e s (ask f) Q.
Proof. done. Qed.

Lemma wp_refuse e s c x Q : (c = true → Q (Err x) s) → (c = false → Q (Ok tt) s) → wp e s (refuse c x) Q.
Proof. unfold refuse, when. destruct c; intros H1 H2; [by apply H1|by apply H2]. Qed.

Lemma wp_attempt {A} e s (m : M A) Q : wp e s m (λ r, Q (Ok r)) → wp e s (attempt m) Q.
Proof. unfold wp, attempt. by destruct (m e s). Qed.

Lemma wp_deferred {A} e s (w : M unit) (m : M A) Q :
  wp e s m (λ r s', wp e s' w (λ _, Q r)) → wp e s (deferred w m) Q.
Proof. unfold wp, deferred. by destruct (m e s). Qed.

(** Computations that only read leave the state as it was. *)
Definition reads {A} (m : M A) : Prop := ∀ e s, (m e s).1 = s.

Lemma wp_reads {A} e s (m : M A) (Q : res error A → St → Prop) : reads m → Q (m e s).2 s → wp e s m Q.
Proof. intros Hm HQ. unfold wp. by rewrite Hm. Qed.

Lemma reads_ret {A} (a : A) : reads (mret a).
Proof. done. Qed.
Lemma reads_throw {A} x : reads (throw (A := A) x).
Proof. done. Qed.
Lemma reads_lift {A} (r : res error A) : reads (lift r).
Proof. done. Qed.
Lemma reads_ask {A} (f : E → A) : reads (ask f).
Proof. done. Qed.
Lemma reads_refuse c x : reads (refuse c x).
Proof. by destruct c. Qed.
Lemma reads_attempt {A} (m : M A) : reads m → reads (attempt m).
Proof. intros Hm e s. unfold attempt. specialize (Hm e s). by destruct (m e s). Qed.
Lemma reads_bind {A B} (m : M A) (f : A → M B) : reads m → (∀ a, reads (f a)) → reads (m ≫= f).
Proof.
  intros Hm Hf e s. unfold mbind, M_bind. specialize (Hm e s). destruct (m e s) as [s' [a|x]]; cbn in *; subst; [apply Hf|done].
Qed.
Lemma reads_when c m : reads m → reads (when c m).
Proof. by destruct c. Qed.
Lemma reads_each {A} (f : A → M unit) l : (∀ x, reads (f x)) → reads (each f l).
Proof. intros Hf. induction l as [|x l IH]; [done|]. cbn. apply reads_bind; auto. Qed.
Lemma reads_collect {A B} (f : A → M (option B)) l : (∀ x, reads (f x)) → reads (collect f l).
Proof.
  intros Hf. induction l as [|x l IH]; [done|]. cbn. apply reads_bind; [done|]. intros b. apply reads_bind; [done|].
  intros bs. apply reads_ret.
Qed.


(** A loop that only reads collects what its turns give from the state it runs on. *)
Lemma wp_collect_reads {A B} e s (f : A → M (option B)) l (Q : res error (list B) → St → Prop) :
  (∀ x, reads (f x)) →
  (∀ bs, (∀ b, b ∈ bs ↔ ∃ x, x ∈ l ∧ (f x e s).2 = Ok (Some b)) → Q (Ok bs) s) →
  (∀ x err, x ∈ l → (f x e s).2 = Err err → Q (Err err) s) → wp e s (collect f l) Q.
Proof.
  intros Hf. revert Q. induction l as [|x l IH]; intros Q Hok Herr.
  { apply wp_ret, Hok. intros b. split; [by intros ?%not_elem_of_nil|]. by intros (x & ?%not_elem_of_nil & _). }
  cbn. apply wp_bind, wp_reads; [done|]. destruct ((f x e s).2) as [o|] eqn:Hx; [|by eapply Herr; [left|]].
  apply wp_bind, IH; [|intros y err Hy; apply Herr; by right]. intros bs Hbs. apply wp_ret, Hok. intros b. destruct o as [b0|].
  - rewrite elem_of_cons, Hbs. split.
    + intros [->|(y & Hy & Hb)]; [by exists x; split; [left|]|exists y; split; [by right|done]].
    + intros (y & [->|Hy]%elem_of_cons & Hb); [left; congruence|right; eauto].
  - rewrite Hbs. split.
    + intros (y & Hy & Hb). exists y. split; [by right|done].
    + intros (y & [->|Hy]%elem_of_cons & Hb); [congruence|eauto].
Qed.

End handler.

Global Arguments M : clear implicits.

#[export] Hint Resolve reads_ret reads_throw reads_lift reads_ask reads_refuse : burrow.

(** Proves that a computation only reads, by its structure. *)
Ltac solve_reads :=
  repeat first
    [ done | solve [auto with burrow nocore] | apply reads_bind | apply reads_attempt | apply reads_when | apply reads_each
    | apply reads_collect | progress intros | case_match ].
