(* ===== verification/Resource.v ===== *)
(** * internal/resource: Google resource names

    Parsing and printing of location-scoped names, the identifier rules, and
    the storage key that isolates projects and locations. *)

From S2P Require Import Prelude GoLib ApiError.
From Stdlib Require Import Ascii.

Import strings.

Definition ErrMalformed : error := Sentinel "malformed resource name".
(** [fmt.Errorf("%w: ...", ErrMalformed, ...)] *)
Definition malformed : error := Wrapped ErrMalformed.

(** ** Byte classes of the regular expressions *)

Definition in_range (lo hi : N) (a : ascii) : bool :=
  (lo <=? N_of_ascii a)%N && (N_of_ascii a <=? hi)%N.
Definition is_lower : ascii → bool := in_range 97 122.
Definition is_upper : ascii → bool := in_range 65 90.
Definition is_digit : ascii → bool := in_range 48 57.
Definition is_alnum (a : ascii) : bool := is_lower a || is_upper a || is_digit a.
Definition one_of (l : list ascii) (a : ascii) : bool := bool_decide (a ∈ l).


(** *** Lengths and slices *)

Lemma take_len_app s t : take_bytes (len s) (s +:+ t) = s.
Proof. induction s as [|a s IH]; [by destruct t|]. rewrite app_cons. cbn [len String.length take_bytes]. by f_equal. Qed.
Lemma drop_len_app s t n : drop_bytes (len s + n) (s +:+ t) = drop_bytes n t.
Proof. induction s; [done|]. rewrite app_cons. cbn. done. Qed.

Lemma len_app s t : len (s +:+ t) = len s + len t.
Proof. unfold len. induction s; [done|]. rewrite app_cons. cbn. by f_equal. Qed.

Definition first_byte (P : ascii → bool) (s : string) : bool :=
  match s with String a _ => P a | EmptyString => false end.

Fixpoint last_byte (P : ascii → bool) (s : string) : bool :=
  match s with
  | EmptyString => false
  | String a EmptyString => P a
  | String _ s' => last_byte P s'
  end.

(** [^[a-z][a-z0-9-]{4,28}[a-z0-9]$] *)
Definition projectRE (s : string) : bool :=
  (6 <=? len s)%nat && (len s <=? 30)%nat && first_byte is_lower s &&
  AllBytes (λ a, is_lower a || is_digit a || one_of ["-"%char] a) s &&
  last_byte (λ a, is_lower a || is_digit a) s.

(** [^[a-z]+(-[a-z0-9]+)*$] *)
Definition locationRE (s : string) : bool :=
  match Split s "-"%char with
  | first :: rest =>
      negb (bool_decide (first = "")) && AllBytes is_lower first &&
      forallb (λ p, negb (bool_decide (p = "")) && AllBytes (λ a, is_lower a || is_digit a) p) rest
  | [] => false
  end.

(** [^[a-zA-Z0-9][a-zA-Z0-9._~%+-]{0,499}$] *)
Definition idRE (s : string) : bool :=
  (1 <=? len s)%nat && (len s <=? 500)%nat && first_byte is_alnum s &&
  AllBytes (λ a, is_alnum a || one_of ["."; "_"; "~"; "%"; "+"; "-"]%char a) s.

(** [^[A-Za-z0-9/_.-]{1,511}$] *)
Definition logIDRE (s : string) : bool :=
  (1 <=? len s)%nat && (len s <=? 511)%nat &&
  AllBytes (λ a, is_alnum a || one_of ["/"; "_"; "."; "-"]%char a) s.

(** ** Identifiers *)

Definition bad_id_parts : list string := ["%2f"; "%5c"; "%2e%2e"; ".."; String "000" ""].

Definition ValidID (id : string) : bool :=
  if bool_decide (id = "") || bool_decide (id = ".") || bool_decide (id = "..") then false
  else if negb (AllBytes (λ a, negb (one_of ["/"; "\"]%char a)) id) then false
  else if existsb (Contains (ToLower id)) bad_id_parts then false
  else idRE id.

Definition ValidProjectID (id : string) : bool := projectRE id.

(** ** Names *)

Record Name := mkName {
  Project : string;
  Location : string;
  Collection : string;
  ID : string;
  ParentCollection : string;
  ParentID : string
}.

#[global] Instance Name_eq_dec : EqDecision Name.
Proof. solve_decision. Defined.

Abbreviation slash := "/"%char.

Definition ParseProject (name : string) : res error string :=
  match Split name slash with
  | [p0; p1] =>
      if negb (bool_decide (p0 = "projects")) then Err malformed
      else if negb (projectRE p1) then Err malformed
      else Ok p1
  | _ => Err malformed
  end.

Definition ParseLogName (name : string) : res error (string * string) :=
  let name := TrimPrefix name "/" in
  match Split name slash with
  | [p0; p1; p2; p3] =>
      if negb (bool_decide (p0 = "projects") && bool_decide (p2 = "logs")) then Err malformed
      else if negb (projectRE p1) then Err malformed
      else match url.PathUnescape p3 with
           | Some id => if logIDRE id then Ok (p1, id) else Err malformed
           | None => Err malformed
           end
  | _ => Err malformed
  end.

Definition ParseLocation (name : string) : res error (string * string) :=
  match Split name slash with
  | [p0; p1; p2; p3] =>
      if negb (bool_decide (p0 = "projects") && bool_decide (p2 = "locations")) then Err malformed
      else if negb (projectRE p1) then Err malformed
      else if negb (locationRE p3) then Err malformed
      else Ok (p1, p3)
  | _ => Err malformed
  end.

Definition Parse (name : string) : res error Name :=
  let parts := Split name slash in
  if negb ((length parts =? 6)%nat || (length parts =? 8)%nat) then Err malformed else
  '(project, location) ← ParseLocation (Join (list.take 4 parts) slash);
  let part i := default "" (parts !! i) in
  if bool_decide (part 4 = "") || negb (ValidID (part 5)) then Err malformed else
  if (length parts =? 8)%nat then
    if bool_decide (part 6 = "") || negb (ValidID (part 7)) then Err malformed else
    Ok (mkName project location (part 6) (part 7) (part 4) (part 5))
  else Ok (mkName project location (part 4) (part 5) "" "").

(** [fmt.Sprintf] with "/" between the segments. *)
Definition LocationName (n : Name) : string :=
  Join ["projects"; Project n; "locations"; Location n] slash.

Definition String_ (n : Name) : string :=
  let base := LocationName n in
  if negb (bool_decide (ParentCollection n = "")) then
    Join [base; ParentCollection n; ParentID n; Collection n; ID n] slash
  else Join [base; Collection n; ID n] slash.

Definition Key (n : Name) : string := String_ n.

(** ** Project numbers *)

(** 64-bit FNV-1a over the bytes, as the code computes it in [uint64]. *)
Fixpoint fnv1a (h : Z) (s : string) : Z :=
  match s with
  | EmptyString => h
  | String a s' => fnv1a (wrap_u64 (Z.lxor h (Z.of_N (N_of_ascii a)) * 1099511628211)) s'
  end.

Definition DerivedProjectNumber (id : string) : Z :=
  wrap_i64 (fnv1a 14695981039346656037 id mod 900000000000) + 100000000000.

(** [resolver] is what [SetProjectNumberResolver] installed, if anything. *)
Definition ProjectNumber (resolver : option (string → option Z)) (id : string) : Z :=
  match (fn ← resolver; fn id) with
  | Some n => n
  | None => DerivedProjectNumber id
  end.

(** ** Facts about the identifier rules *)

Lemma projectRE_free p : projectRE p = true → free_of slash p = true.
Proof.
  unfold projectRE. intros H. bool_prop.
  by eapply AllBytes_not_in; [eassumption|].
Qed.

Lemma idRE_free s : idRE s = true → free_of slash s = true.
Proof. unfold idRE. intros H. bool_prop. by eapply AllBytes_not_in; [eassumption|]. Qed.

Lemma free_of_Join c sep l :
  sep ≠ c → Forall (λ p, free_of c p = true) l → free_of c (Join l sep) = true.
Proof.
  intros Hc. induction 1 as [|x l Hx Hl IH]; [done|].
  destruct l as [|y l]; [done|]. rewrite Join_cons2.
  unfold free_of in *. rewrite AllBytes_app, Hx. simpl.
  by rewrite bool_decide_false.
Qed.

Lemma locationRE_free l : locationRE l = true → free_of slash l = true.
Proof.
  intros H. rewrite <- (Join_Split l "-"%char). apply free_of_Join; [done|].
  unfold locationRE in H. destruct (Split l "-"%char) as [|x k]; [done|].
  bool_prop. constructor; [by eapply AllBytes_not_in; [eassumption|]|].
  apply Forall_forall. intros y Hy%list_elem_of_In.
  match goal with H : forallb _ _ = true |- _ =>
    pose proof (proj1 (forallb_forall _ _) H y Hy) as Hp end.
  simpl in Hp. bool_prop. by eapply AllBytes_not_in; [eassumption|].
Qed.

Lemma ValidID_idRE id : ValidID id = true → idRE id = true.
Proof. unfold ValidID. intros. by case_all. Qed.

Lemma ValidID_free id : ValidID id = true → free_of slash id = true.
Proof. intros. by apply idRE_free, ValidID_idRE. Qed.

#[export] Hint Resolve projectRE_free locationRE_free ValidID_free : burrow.

Lemma Join_nested l k c : l ≠ [] → k ≠ [] → Join (Join l c :: k) c = Join (l ++ k) c.
Proof.
  intros Hl Hk. induction l as [|x l IH]; [done|]. destruct l as [|y l]; [done|].
  destruct k as [|z k]; [done|].
  change ((x :: y :: l) ++ z :: k) with (x :: y :: (l ++ z :: k)).
  change ((y :: l) ++ z :: k) with (y :: (l ++ z :: k)) in IH.
  rewrite (Join_cons2 x y (l ++ z :: k)), <- IH, (Join_cons2 x y l), !(Join_cons2 _ z k) by done.
  by rewrite app_assoc, app_cons.
Qed.

(** The segments of a name, as [String_] prints them. *)
Definition segments (n : Name) : list string :=
  ["projects"; Project n; "locations"; Location n] ++
  (if bool_decide (ParentCollection n = "") then [] else [ParentCollection n; ParentID n]) ++
  [Collection n; ID n].

Lemma String_segments n : String_ n = Join (segments n) slash.
Proof.
  unfold String_, segments, LocationName.
  destruct (bool_decide (ParentCollection n = "")); cbn [negb app]; by rewrite Join_nested.
Qed.

(** A well-formed name: what [Parse] can return. *)
Definition wf_name (n : Name) : bool :=
  projectRE (Project n) && locationRE (Location n) &&
  negb (bool_decide (Collection n = "")) && free_of slash (Collection n) && ValidID (ID n) &&
  (if bool_decide (ParentCollection n = "") then bool_decide (ParentID n = "")
   else free_of slash (ParentCollection n) && ValidID (ParentID n)).

Lemma segments_free n :
  wf_name n = true → Forall (λ p, free_of slash p = true) (segments n).
Proof.
  unfold wf_name, segments. intros H. bool_prop.
  repeat constructor; eauto with burrow.
  case_bool_decide; bool_prop; simpl; repeat constructor; eauto with burrow.
Qed.

Lemma Split_String n : wf_name n = true → Split (String_ n) slash = segments n.
Proof. intros H. rewrite String_segments. apply Split_Join; [done|]. by apply segments_free. Qed.

Lemma ParseLocation_segments p l :
  free_of slash p = true → free_of slash l = true →
  ParseLocation (Join ["projects"; p; "locations"; l] slash) =
    if negb (projectRE p) then Err malformed else if negb (locationRE l) then Err malformed else Ok (p, l).
Proof.
  intros Hp Hl. unfold ParseLocation. rewrite Split_Join; [done..|].
  repeat constructor; done.
Qed.

Lemma Parse_String n : wf_name n = true → Parse (String_ n) = Ok n.
Proof.
  intros Hn. pose proof Hn as Hw. unfold Parse. rewrite (Split_String n Hn).
  unfold wf_name in Hw. bool_prop. unfold segments. destruct n as [P L C I PC PI]; simpl in *.
  case_bool_decide; bool_prop; simpl; subst;
    rewrite ParseLocation_segments by eauto with burrow; simplify_option_eq;
    repeat match goal with H : ?b = true |- context [?b] => rewrite H; simpl end;
    by rewrite ?bool_decide_false by done.
Qed.

Lemma ParseLocation_ok parts p l :
  Forall (λ p, free_of slash p = true) parts → length parts = 4%nat →
  ParseLocation (Join parts slash) = Ok (p, l) →
  parts = ["projects"; p; "locations"; l] ∧ projectRE p = true ∧ locationRE l = true.
Proof.
  intros Hf Hl. unfold ParseLocation. rewrite Split_Join by (done || by destruct parts).
  destruct parts as [|p0 [|p1 [|p2 [|p3 [|]]]]]; simplify_eq/=.
  intros H. by repeat (case_match; simplify_eq/=; bool_prop).
Qed.

Lemma Parse_wf s n : Parse s = Ok n → wf_name n = true ∧ s = String_ n.
Proof.
  unfold Parse. set (parts := Split s slash).
  assert (s = Join parts slash) as Hs by (symmetry; apply Join_Split).
  assert (Forall (λ p, free_of slash p = true) parts) as Hf by apply Split_parts_free.
  intros H. destruct ((length parts =? 6) || (length parts =? 8))%nat eqn:Hlen; [|done].
  simpl in H. apply res_bind_ok in H as ([p l] & Hpl & H).
  apply ParseLocation_ok in Hpl as (Htake & Hp & Hl);
    [|by apply Forall_take|rewrite length_take; apply orb_true_iff in Hlen as [?%Nat.eqb_eq|?%Nat.eqb_eq]; lia].
  rewrite String_segments, Hs. clear Hs.
  destruct parts as [|a0 [|a1 [|a2 [|a3 [|a4 [|a5 k]]]]]]; simplify_eq/=.
  apply Forall_cons in Hf as [_ Hf]. do 3 apply Forall_cons in Hf as [_ Hf].
  apply Forall_cons in Hf as [H4 Hf].
  destruct k as [|a6 [|a7 [|]]]; simplify_eq/=.
  - repeat (case_match; simplify_eq/=; bool_prop).
    unfold wf_name, segments; simpl.
    rewrite Hp, Hl, H4, bool_decide_false by done. simpl. split; [|done]. by rewrite andb_true_r.
  - apply Forall_cons in Hf as [_ Hf]. apply Forall_cons in Hf as [H6 Hf].
    repeat (case_match; simplify_eq/=; bool_prop).
    unfold wf_name, segments; simpl.
    rewrite Hp, Hl, H4, H6, !bool_decide_false by done. simpl. split; [|done].
    by repeat match goal with H : ?b = true |- context [?b] => rewrite H; simpl end.
Qed.

Lemma ValidID_parts id bad :
  ValidID id = true → bad ∈ bad_id_parts → Contains (ToLower id) bad = false.
Proof.
  unfold ValidID. intros H Hb. destruct (existsb _ bad_id_parts) eqn:He in H.
  { by repeat case_match. }
  destruct (Contains (ToLower id) bad) eqn:Hc; [|done]. rewrite <- He.
  symmetry. apply existsb_exists. exists bad. by rewrite <- list_elem_of_In.
Qed.

(** The segments an identifier contributes can never climb out of a path. *)
Lemma ValidID_safe_part id :
  ValidID id = true → Contains (ToLower id) ".." = false ∧ free_of slash id = true ∧ id ≠ "".
Proof.
  intros H. split; [apply ValidID_parts; [done|set_solver]|].
  split; [by apply ValidID_free|]. intros ->. done.
Qed.

(** ** Properties *)

(** Parsing and printing are inverse on exactly the well-formed names:
    [Parse] accepts a string if and only if it is the canonical printing of a
    well-formed name, and returns that name. *)
Theorem Parse_String_roundtrip s n :
  Parse s = Ok n ↔ wf_name n = true ∧ s = String_ n.
Proof.
  split; [apply Parse_wf|]. intros [Hn ->]. by apply Parse_String.
Qed.

(** Storage keys isolate projects and locations by construction: two
    different parsed names, for instance the same queue in two projects, never
    have the same key. *)
Theorem Key_isolated s1 s2 n1 n2 :
  Parse s1 = Ok n1 → Parse s2 = Ok n2 → n1 ≠ n2 → Key n1 ≠ Key n2.
Proof.
  intros [H1 _]%Parse_wf [H2 _]%Parse_wf Hne Hk. unfold Key in Hk.
  apply Hne. apply Parse_String in H1, H2. rewrite Hk in H1. congruence.
Qed.

Lemma Key_isolated_witness :
  Key (mkName "my-project" "us-central1" "queues" "q" "" "") ≠
  Key (mkName "other-project" "us-central1" "queues" "q" "" "").
Proof.
  apply (Key_isolated "projects/my-project/locations/us-central1/queues/q"
                      "projects/other-project/locations/us-central1/queues/q").
  - vm_compute. reflexivity.
  - vm_compute. reflexivity.
  - discriminate.
Defined.

(** The number derived for a project ID has exactly twelve digits, for
    every ID: the 64-bit wrap-around of the hash never escapes the range. *)
Theorem DerivedProjectNumber_range id :
  (100000000000 ≤ DerivedProjectNumber id < 1000000000000)%Z.
Proof.
  unfold DerivedProjectNumber.
  pose proof (Z.mod_pos_bound (fnv1a 14695981039346656037 id) 900000000000 ltac:(lia)).
  rewrite wrap_i64_id by (unfold int_min, int_max; lia). lia.
Qed.

(** Only the identifier segments are checked for traversal.  A collection
    segment need only be non-empty, so a name whose collection is ".." parses,
    against the package's promise that ".." never survives parsing. *)
Theorem Parse_accepts_dotdot_collection :
  Parse "projects/my-project/locations/us-central1/../q" =
    Ok (mkName "my-project" "us-central1" ".." "q" "" "").
Proof. vm_compute. reflexivity. Qed.

(** The other two parsers agree with [Parse] on their own shapes. *)
Lemma ParseProject_roundtrip s p :
  ParseProject s = Ok p ↔ projectRE p = true ∧ s = Join ["projects"; p] slash.
Proof.
  unfold ParseProject. split.
  - intros H. rewrite <- (Join_Split s slash).
    destruct (Split s slash) as [|a [|b [|]]]; simplify_eq/=.
    by repeat (case_match; simplify_eq/=; bool_prop).
  - intros [Hp ->]. rewrite Split_Join; [|done|repeat constructor; eauto with burrow].
    by rewrite bool_decide_true, Hp.
Qed.

(** A leading "/" of a log name is ignored, once. *)
Lemma ParseLogName_leading_slash s :
  HasPrefix s "/" = false → ParseLogName (String slash s) = ParseLogName s.
Proof.
  intros Hs. unfold ParseLogName, TrimPrefix at 1. simpl. unfold TrimPrefix. by rewrite Hs.
Qed.

Lemma ParseLogName_sound s p id :
  ParseLogName s = Ok (p, id) → projectRE p = true ∧ logIDRE id = true.
Proof.
  unfold ParseLogName. intros H. by repeat (case_match; simplify_eq/=; bool_prop).
Qed.
