(* ===== verification/GoCrypto.v ===== *)
(** * What the services use of Go's crypto packages

    The ciphers and hashes themselves are parameters; their documented laws are
    classes of their own, so that a theorem names exactly what it relies on.  A
    byte slice is the string of its bytes. *)

From S2P Require Import Prelude GoLib Resource.
From Stdlib Require Import Ascii.

Import strings.

(** crypto/sha256 with encoding/hex, and AES-256-GCM of crypto/cipher. *)
Class Crypto := {
  sha256_hex : string → string;
  gcm_Seal : string → string → string → string → string;
  gcm_Open : string → string → string → string → option string
}.

(** Go's documentation of [cipher.AEAD]: Open of what Seal returned, under the
    same key, nonce and additional data, gives the plaintext back. *)
Class CryptoLaws `{Crypto} :=
  gcm_Open_Seal key nonce plaintext aad :
    gcm_Open key nonce (gcm_Seal key nonce plaintext aad) aad = Some plaintext.

(** The overhead of GCM is its tag of 16 bytes. *)
Class GcmOverhead `{Crypto} :=
  gcm_Seal_len key nonce plaintext aad : len (gcm_Seal key nonce plaintext aad) = len plaintext + 16.

(** crypto/aes: the block cipher of a key.  [aes_Encrypt] and [aes_Decrypt] are
    those of [aes.NewCipher], which refuses a key that is not 16, 24 or 32 bytes
    long. *)
Class Aes := {
  aes_Encrypt : string → string → string;
  aes_Decrypt : string → string → string
}.

Class AesLaws `{Aes} := {
  aes_block kek b : len b = 16 → len (aes_Encrypt kek b) = 16;
  aes_Decrypt_Encrypt kek b : len b = 16 → aes_Decrypt kek (aes_Encrypt kek b) = b
}.

Definition aes_key_ok (key : string) : bool := bool_decide (len key ∈ [16; 24; 32]).

(** hash/crc32 with the Castagnoli table. *)
Class Crc32 := crc32_Checksum : string → Z.

(** ** Hashes *)

Inductive hash := SHA1 | SHA224 | SHA256 | SHA384 | SHA512.

#[global] Instance hash_eq_dec : EqDecision hash.
Proof. solve_decision. Defined.

(** [crypto.Hash.Size] *)
Definition hash_Size (h : hash) : nat :=
  match h with SHA1 => 20 | SHA224 => 28 | SHA256 => 32 | SHA384 => 48 | SHA512 => 64 end.

(** The sum of a hash, and crypto/hmac over it. *)
Class Hashes := {
  hash_Sum : hash → string → string;
  hmac_Sum : hash → string → string → string
}.

(** ** Keys and their encodings

    A private key is its PKCS #8 DER and a public key its PKIX DER, so a key's
    kind is what parsing tells; [other] is any other type, which may sign.  A PEM
    block is its type and its bytes; the code encodes PUBLIC KEY blocks. *)

Inductive curve := P256 | P384.

#[global] Instance curve_eq_dec : EqDecision curve.
Proof. solve_decision. Defined.

Inductive KeyKind := kind_rsa (bits : nat) | kind_ecdsa (c : option curve) | kind_ed25519 | kind_other (signer : bool).

#[global] Instance KeyKind_eq_dec : EqDecision KeyKind.
Proof. solve_decision. Defined.

Class X509 := {
  ParsePKCS8PrivateKey : string → option KeyKind;
  ParsePKIXPublicKey : string → option KeyKind;
  MarshalPKIXPublicKey : string → option string;
  pem_Encode : string → string;
  pem_Decode : string → option (string * string)
}.

(** A public key's encoding parses to the kind of its private key; a PEM block
    decodes to what was encoded. *)
Class X509Laws `{X509} := {
  public_kind priv pub kind :
    ParsePKCS8PrivateKey priv = Some kind → MarshalPKIXPublicKey priv = Some pub → ParsePKIXPublicKey pub = Some kind;
  pem_Decode_Encode der : pem_Decode (pem_Encode der) = Some ("PUBLIC KEY", der)
}.

(** [rsa.PrivateKey.Size] *)
Definition rsa_Size (bits : nat) : nat := (bits + 7) / 8.

(** ** Signatures *)

Inductive scheme := PKCS1v15 (h : option hash) | PSS (h : hash) | ECDSA | Ed25519.

#[global] Instance scheme_eq_dec : EqDecision scheme.
Proof. solve_decision. Defined.

(** [sign] reads its random bytes; crypto/ed25519's takes none and always
    signs, so its result is used as given. *)
Class Signatures := {
  sign : scheme → string → string → string → option string;
  verify : scheme → string → string → string → bool
}.

Class SignatureLaws `{X509, Signatures} :=
  verify_sign sch priv pub msg rand sig :
    MarshalPKIXPublicKey priv = Some pub → sign sch priv msg rand = Some sig → verify sch pub msg sig = true.

(** ** RSA-OAEP, with MGF1 of the same hash and no label *)

Class Oaep := {
  EncryptOAEP : hash → string → string → string → option string;
  DecryptOAEP : hash → string → string → option string
}.

Class OaepLaws `{X509, Oaep} := {
  DecryptOAEP_Encrypt h priv pub msg rand ct :
    MarshalPKIXPublicKey priv = Some pub → EncryptOAEP h pub msg rand = Some ct → DecryptOAEP h priv ct = Some msg;
  EncryptOAEP_len h pub bits msg rand ct :
    ParsePKIXPublicKey pub = Some (kind_rsa bits) → EncryptOAEP h pub msg rand = Some ct → len ct = rsa_Size bits
}.

(** ** crypto/mlkem, of 768 or 1024 *)

Class Mlkem := {
  kem_public : nat → string → option string;
  kem_Decapsulate : nat → string → string → option string
}.

(** ** RSA public keys in either encoding

    [rsa_public t der] parses the DER of a PEM block of type [t], PUBLIC KEY or
    RSA PUBLIC KEY: the kind of the key and its PKCS #1 DER, which is how two keys
    are compared and what a signature over a SHA-256 digest is checked with. *)
Class RsaPublic := {
  rsa_public : string → string → option (KeyKind * string);
  VerifyPKCS1v15_SHA256 : string → string → string → bool
}.
