(* ===== verification/GoBinary.v ===== *)
(** * encoding/binary and the block modes of crypto/cipher

    Big-endian integers, and CBC and CTR over a block cipher, for byte slices as
    strings of bytes. *)

From S2P Require Import Prelude GoLib Resource GoCrypto.
From Stdlib Require Import Ascii.

Import strings.

(** ** Big-endian integers *)

Definition byte_of (z : Z) : ascii := ascii_of_N (Z.to_N (z mod 256)).
Definition byte_val (a : ascii) : Z := Z.of_N (N_of_ascii a).

Fixpoint be_put (n : nat) (z : Z) : string :=
  match n with
  | O => ""
  | S n => String (byte_of (z / 256 ^ Z.of_nat n)) (be_put n z)
  end.

Fixpoint be_get (acc : Z) (s : string) : Z :=
  match s with
  | "" => acc
  | String a s => be_get (acc * 256 + byte_val a) s
  end.

(** [binary.BigEndian.PutUint32] and [PutUint64] of an unsigned integer, and
    [Uint32] and [Uint64] of a slice that is long enough. *)
Definition put_uint32 (v : Z) : string := be_put 4 v.
Definition uint32 (s : string) : Z := be_get 0 (take_bytes 4 s).
Definition put_uint64 (v : Z) : string := be_put 8 v.
Definition uint64 (s : string) : Z := be_get 0 (take_bytes 8 s).

Definition wrap_u32 (z : Z) : Z := (z mod 2 ^ 32)%Z.

Lemma byte_val_range a : (0 ≤ byte_val a < 256)%Z.
Proof. unfold byte_val. pose proof (N_ascii_bounded a). lia. Qed.

Lemma byte_val_of z : byte_val (byte_of z) = (z mod 256)%Z.
Proof. unfold byte_val, byte_of. pose proof (Z.mod_pos_bound z 256). rewrite N_ascii_embedding by lia. lia. Qed.

Lemma byte_of_val a z : byte_of (z * 256 + byte_val a) = a.
Proof.
  unfold byte_of. pose proof (byte_val_range a). rewrite Z.add_comm, Z.mod_add by lia. rewrite Z.mod_small by lia.
  unfold byte_val. rewrite N2Z.id. apply ascii_N_embedding.
Qed.

Lemma be_put_len n z : len (be_put n z) = n.
Proof. induction n as [|n IH]; [done|]. unfold len in *. cbn. by rewrite IH. Qed.

Lemma be_get_put n z acc : be_get acc (be_put n z) = (acc * 256 ^ Z.of_nat n + z mod 256 ^ Z.of_nat n)%Z.
Proof.
  revert acc. induction n as [|n IH]; intros acc; cbn [be_put be_get]; [by rewrite Z.mod_1_r; lia|].
  rewrite IH, byte_val_of, Nat2Z.inj_succ, Z.pow_succ_r by lia. set (p := (256 ^ Z.of_nat n)%Z).
  assert (0 < p)%Z by (apply Z.pow_pos_nonneg; lia). rewrite (Z.mul_comm 256 p), Z.rem_mul_r by lia. lia.
Qed.

Lemma be_get_range s acc : (0 ≤ acc)%Z → (0 ≤ be_get acc s < (acc + 1) * 256 ^ Z.of_nat (len s))%Z.
Proof.
  revert acc. induction s as [|a s IH]; intros acc Ha; cbn [be_get]; [unfold len; cbn; lia|].
  pose proof (byte_val_range a). specialize (IH (acc * 256 + byte_val a)%Z ltac:(lia)).
  unfold len in *. cbn [String.length]. rewrite Nat2Z.inj_succ, Z.pow_succ_r by lia.
  set (p := (256 ^ Z.of_nat (String.length s))%Z) in *. assert (0 < p)%Z by (apply Z.pow_pos_nonneg; lia). nia.
Qed.

Lemma be_get_div s acc : (0 ≤ acc)%Z → (be_get acc s / 256 ^ Z.of_nat (len s) = acc)%Z.
Proof.
  intros Ha. pose proof (be_get_range s acc Ha) as Hr.
  assert (be_get acc s = acc * 256 ^ Z.of_nat (len s) + be_get 0 s)%Z as ->.
  { clear Hr Ha. enough (∀ x y, be_get (x + y) s = x * 256 ^ Z.of_nat (len s) + be_get y s)%Z as H by (rewrite <- (H acc 0%Z); f_equal; lia).
    induction s as [|a s IH]; intros x y; cbn [be_get]; [unfold len; cbn; lia|].
    replace ((x + y) * 256 + byte_val a)%Z with (x * 256 + (y * 256 + byte_val a))%Z by lia. rewrite IH.
    unfold len. cbn [String.length]. rewrite Nat2Z.inj_succ, Z.pow_succ_r by lia. lia. }
  pose proof (be_get_range s 0 ltac:(lia)). rewrite Z.div_add_l by lia. rewrite Z.div_small by lia. lia.
Qed.

Lemma be_put_get s acc : (0 ≤ acc)%Z → be_put (len s) (be_get acc s) = s.
Proof.
  revert acc. induction s as [|a s IH]; intros acc Ha; [done|]. pose proof (byte_val_range a).
  change (len (String a s)) with (S (len s)). cbn [be_put be_get]. rewrite IH by lia. rewrite be_get_div by lia. by rewrite byte_of_val.
Qed.

Lemma uint32_put v s : (0 ≤ v < 2 ^ 32)%Z → uint32 (put_uint32 v +:+ s) = v.
Proof.
  intros Hv. unfold uint32, put_uint32. rewrite <- (be_put_len 4 v) at 1. rewrite take_len_app, be_get_put.
  change (256 ^ Z.of_nat 4)%Z with (2 ^ 32)%Z. rewrite Z.mod_small by lia. lia.
Qed.

Lemma uint64_put v s : (0 ≤ v < 2 ^ 64)%Z → uint64 (put_uint64 v +:+ s) = v.
Proof.
  intros Hv. unfold uint64, put_uint64. rewrite <- (be_put_len 8 v) at 1. rewrite take_len_app, be_get_put.
  change (256 ^ Z.of_nat 8)%Z with (2 ^ 64)%Z. rewrite Z.mod_small by lia. lia.
Qed.

Lemma take_bytes_all s n : (len s ≤ n)%nat → take_bytes n s = s.
Proof. revert n. induction s as [|a s IH]; intros [|n] Hn; unfold len in *; cbn in *; [done..|lia|]. by rewrite IH by lia. Qed.

Lemma put_uint64_uint64 s : len s = 8 → put_uint64 (uint64 s) = s.
Proof. intros Hs. unfold uint64, put_uint64. rewrite take_bytes_all by lia. rewrite <- Hs at 1. by apply be_put_get. Qed.

Lemma uint64_range s : len s = 8 → (0 ≤ uint64 s < 2 ^ 64)%Z.
Proof.
  intros Hs. unfold uint64. rewrite take_bytes_all by lia. pose proof (be_get_range s 0 ltac:(lia)) as Hr. rewrite Hs in Hr.
  change (256 ^ Z.of_nat 8)%Z with (2 ^ 64)%Z in Hr. lia.
Qed.

(** ** Block modes

    [cipher.NewCBCEncrypter], [NewCBCDecrypter] and [NewCTR] over the AES block
    cipher of a key; the fuel is the length of the data, a block of it at a time. *)

Fixpoint xor_bytes (s t : string) : string :=
  match s, t with
  | String a s, String b t => String (byte_of (Z.lxor (byte_val a) (byte_val b))) (xor_bytes s t)
  | _, _ => ""
  end.

Definition BlockSize : nat := 16.

Section modes.
Context `{AE : Aes}.

Fixpoint cbc_encrypt (fuel : nat) (key prev s : string) : string :=
  match fuel, s with
  | S fuel, String _ _ =>
      let c := aes_Encrypt key (xor_bytes (take_bytes BlockSize s) prev) in
      c +:+ cbc_encrypt fuel key c (drop_bytes BlockSize s)
  | _, _ => ""
  end.

Fixpoint cbc_decrypt (fuel : nat) (key prev s : string) : string :=
  match fuel, s with
  | S fuel, String _ _ =>
      let c := take_bytes BlockSize s in
      xor_bytes (aes_Decrypt key c) prev +:+ cbc_decrypt fuel key c (drop_bytes BlockSize s)
  | _, _ => ""
  end.

(** The counter is the whole block, and wraps around. *)
Fixpoint ctr_stream (fuel : nat) (key : string) (counter : Z) (s : string) : string :=
  match fuel, s with
  | S fuel, String _ _ =>
      xor_bytes (take_bytes BlockSize s) (aes_Encrypt key (be_put 16 counter)) +:+ ctr_stream fuel key (counter + 1) (drop_bytes BlockSize s)
  | _, _ => ""
  end.

Definition CBCEncrypt (key iv s : string) : string := cbc_encrypt (len s) key iv s.
Definition CBCDecrypt (key iv s : string) : string := cbc_decrypt (len s) key iv s.
Definition CTR (key iv s : string) : string := ctr_stream (len s) key (be_get 0 iv) s.

End modes.

Lemma lxor_byte a b : (0 ≤ Z.lxor (byte_val a) (byte_val b) < 256)%Z.
Proof.
  pose proof (byte_val_range a) as Ha. pose proof (byte_val_range b) as Hb. set (x := byte_val a) in *. set (y := byte_val b) in *.
  assert (0 ≤ Z.lxor x y)%Z as H0 by (apply Z.lxor_nonneg; lia). split; [done|].
  replace (Z.lxor x y) with (Z.land (Z.lxor x y) (Z.ones 8)); [rewrite Z.land_ones by lia; apply Z.mod_pos_bound; lia|].
  assert (∀ z, (0 ≤ z < 256)%Z → Z.land z (Z.ones 8) = z) as Hl by (intros z Hz; rewrite Z.land_ones by lia; apply Z.mod_small; lia).
  apply Z.bits_inj'. intros n Hn. rewrite Z.land_spec, !Z.lxor_spec, <- (Hl x Ha), <- (Hl y Hb), !Z.land_spec.
  by destruct (Z.testbit x n), (Z.testbit y n), (Z.testbit (Z.ones 8) n).
Qed.

Lemma xor_bytes_len s t : len (xor_bytes s t) = Nat.min (len s) (len t).
Proof. revert t. induction s as [|a s IH]; intros [|b t]; unfold len in *; cbn; [done..|]. by rewrite IH. Qed.

Lemma xor_bytes_twice s t : (len s ≤ len t)%nat → xor_bytes (xor_bytes s t) t = s.
Proof.
  revert t. induction s as [|a s IH]; intros [|b t] Hl; unfold len in *; cbn in *; [done..|lia|]. rewrite IH by lia. f_equal.
  rewrite byte_val_of, Z.mod_small by apply lxor_byte. rewrite Z.lxor_assoc, Z.lxor_nilpotent, Z.lxor_0_r.
  exact (byte_of_val a 0).
Qed.

Lemma take_drop_bytes n s : take_bytes n s +:+ drop_bytes n s = s.
Proof. revert s. induction n as [|n IH]; intros [|a s]; cbn; [done..|]. rewrite app_cons. by rewrite IH. Qed.

Lemma take_bytes_len n s : len (take_bytes n s) = Nat.min n (len s).
Proof. revert s. induction n as [|n IH]; intros [|a s]; unfold len in *; cbn; [done..|]. by rewrite IH. Qed.

Lemma drop_bytes_length n s : len (drop_bytes n s) = (len s - n)%nat.
Proof. revert s. induction n as [|n IH]; intros [|a s]; unfold len in *; cbn; [done..|]. apply IH. Qed.

Section mode_laws.
Context `{AL : AesLaws}.

Lemma cbc_decrypt_encrypt fuel fuel' key prev s m :
  len s = 16 * m → (m ≤ fuel)%nat → (m ≤ fuel')%nat → len prev = 16 →
  cbc_decrypt fuel' key prev (cbc_encrypt fuel key prev s) = s.
Proof.
  revert fuel fuel' prev s. induction m as [|m IH]; intros fuel fuel' prev s Hs Hf Hf' Hp.
  - destruct s; [|by unfold len in Hs]. destruct fuel, fuel'; done.
  - destruct fuel as [|fuel]; [lia|]. destruct fuel' as [|fuel']; [lia|]. destruct s as [|a s']; [unfold len in Hs; cbn in Hs; lia|].
    cbn [cbc_encrypt]. set (s := String a s') in *. set (b := take_bytes BlockSize s). set (c := aes_Encrypt key (xor_bytes b prev)).
    assert (len b = 16) as Hb by (unfold b; rewrite take_bytes_len; unfold BlockSize; lia).
    assert (len (xor_bytes b prev) = 16) as Hx by (rewrite xor_bytes_len; lia).
    assert (len c = BlockSize) as Hc by (by apply aes_block).
    set (rest := cbc_encrypt fuel key c (drop_bytes BlockSize s)). cbn [cbc_decrypt].
    destruct (c +:+ rest) as [|x y] eqn:Hcr; [destruct c; [done|by rewrite app_cons in Hcr]|]. rewrite <- Hcr.
    rewrite <- Hc, take_len_app. rewrite <- (Nat.add_0_r (len c)), drop_len_app. cbn [drop_bytes].
    unfold rest. rewrite IH; [|rewrite drop_bytes_length; unfold BlockSize in *; lia|lia|lia|done].
    unfold c. rewrite aes_Decrypt_Encrypt, xor_bytes_twice by (done || lia). apply take_drop_bytes.
Qed.

Lemma ctr_stream_twice fuel fuel' key n s :
  (len s ≤ fuel)%nat → (len s ≤ fuel')%nat → ctr_stream fuel' key n (ctr_stream fuel key n s) = s.
Proof.
  revert fuel' n s. induction fuel as [|fuel IH]; intros fuel' n s Hf Hf'.
  { destruct s; [by destruct fuel'|unfold len in Hf; cbn in Hf; lia]. }
  destruct s as [|a s']; [by destruct fuel'|]. destruct fuel' as [|fuel']; [unfold len in Hf'; cbn in Hf'; lia|]. cbn [ctr_stream].
  set (s := String a s') in *. set (k := aes_Encrypt key (be_put 16 n)). set (x := xor_bytes (take_bytes BlockSize s) k).
  assert (len k = 16) as Hk by (apply aes_block; apply be_put_len).
  assert (len x = Nat.min 16 (len s)) as Hx by (unfold x; rewrite xor_bytes_len, take_bytes_len; unfold BlockSize; lia).
  assert (1 ≤ len s)%nat as Hs by (unfold s, len; cbn; lia). set (rest := ctr_stream fuel key (n + 1) (drop_bytes BlockSize s)). cbn [ctr_stream].
  destruct (x +:+ rest) as [|u v] eqn:Hxr; [destruct x; [unfold len in Hx, Hs; cbn in Hx; lia|by rewrite app_cons in Hxr]|]. rewrite <- Hxr. clear u v Hxr.
  assert (take_bytes BlockSize (x +:+ rest) = x ∧ drop_bytes BlockSize (x +:+ rest) = rest) as [-> ->].
  { destruct (Nat.le_gt_cases 16 (len s)) as [Hge|Hlt].
    - assert (len x = BlockSize) as Hb by (unfold BlockSize; lia). rewrite <- Hb, take_len_app.
      by rewrite <- (Nat.add_0_r (len x)), drop_len_app.
    - assert (rest = "") as ->.
      { unfold rest. assert (len (drop_bytes BlockSize s) = 0) as Hd by (rewrite drop_bytes_length; unfold BlockSize; lia).
        destruct (drop_bytes BlockSize s); [by destruct fuel|done]. }
      rewrite app_nil_r. split; [apply take_bytes_all; unfold BlockSize; lia|].
      assert (len (drop_bytes BlockSize x) = 0) as Hd by (rewrite drop_bytes_length; unfold BlockSize; lia).
      by destruct (drop_bytes BlockSize x). }
  unfold rest. rewrite IH by (rewrite drop_bytes_length; unfold BlockSize, len in *; lia).
  unfold x. rewrite xor_bytes_twice by (rewrite take_bytes_len; unfold BlockSize; lia). apply take_drop_bytes.
Qed.

Lemma cbc_encrypt_len fuel key prev s m : len s = 16 * m → (m ≤ fuel)%nat → len prev = 16 → len (cbc_encrypt fuel key prev s) = len s.
Proof.
  revert fuel prev s. induction m as [|m IH]; intros fuel prev s Hs Hf Hp.
  - destruct s; [|by unfold len in Hs]. by destruct fuel.
  - destruct fuel as [|fuel]; [lia|]. destruct s as [|a s']; [unfold len in Hs; cbn in Hs; lia|]. cbn [cbc_encrypt]. set (s := String a s') in *.
    assert (len (xor_bytes (take_bytes BlockSize s) prev) = 16) as Hx by (rewrite xor_bytes_len, take_bytes_len; unfold BlockSize; lia).
    rewrite len_app, IH; rewrite ?aes_block, ?drop_bytes_length by done; unfold BlockSize; lia.
Qed.

Lemma ctr_stream_len fuel key n s : (len s ≤ fuel)%nat → len (ctr_stream fuel key n s) = len s.
Proof.
  revert n s. induction fuel as [|fuel IH]; intros n s Hf.
  { destruct s; [done|unfold len in Hf; cbn in Hf; lia]. }
  destruct s as [|a s']; [done|]. cbn [ctr_stream]. set (s := String a s') in *. assert (1 ≤ len s)%nat by (unfold s, len; cbn; lia).
  rewrite len_app, xor_bytes_len, take_bytes_len, aes_block by apply be_put_len. rewrite IH by (rewrite drop_bytes_length; unfold BlockSize, len in *; lia).
  rewrite drop_bytes_length. unfold BlockSize. lia.
Qed.

(** CBC and CTR give the plaintext back. *)
Lemma CBCDecrypt_Encrypt key iv s :
  len s mod BlockSize = 0 → len iv = 16 → CBCDecrypt key iv (CBCEncrypt key iv s) = s ∧ len (CBCEncrypt key iv s) = len s.
Proof.
  intros Hs Hiv. unfold CBCDecrypt, CBCEncrypt. apply Nat.Div0.div_exact in Hs. set (m := len s / BlockSize) in *.
  assert (len (cbc_encrypt (len s) key iv s) = len s) as Hl by (apply (cbc_encrypt_len _ _ _ _ m); unfold BlockSize in Hs; lia).
  split; [|done]. apply (cbc_decrypt_encrypt _ _ _ _ _ m); unfold BlockSize in *; lia.
Qed.

Lemma CTR_CTR key iv s : CTR key iv (CTR key iv s) = s.
Proof. unfold CTR. by apply ctr_stream_twice; rewrite ?ctr_stream_len. Qed.

End mode_laws.
