(* ===== verification/MetaStore.v ===== *)
(** * internal/store: metadata storage

    The [Store] interface as a class of operations with its laws, the
    in-memory store, and the durable store with its crash behaviour and its
    ownership protocol.  A stored value ([[]byte] in the code) is any type
    [V]: nothing here inspects it. *)

From S2P Require Import Prelude GoLib ApiError.
From Stdlib Require Import Ascii.

Import strings.

Definition ErrNotFound : error := Sentinel "key not found".
Definition ErrConflict : error := Sentinel "write conflict".
Definition ErrLocked : error := Sentinel "data directory is in use by another instance".
Definition ErrUnsafeKey : error := Sentinel "unsafe key".

(** ** Keys *)

Definition bad_key_parts : list string :=
  [".."; "%2e%2e"; "%2f"; "%5c"; String "000" ""; "\"].

Definition SafeKey (key : string) : bool :=
  if bool_decide (key = "") || HasPrefix key "/" then false
  else negb (existsb (Contains (ToLower key)) bad_key_parts).

Definition checkKey (key : string) : res error unit :=
  if SafeKey key then Ok tt else Err (Wrapped ErrUnsafeKey).

(** ** Writes *)

Inductive Op (V : Type) :=
| OpPut (key : string) (value : V)
| OpDelete (key : string).
Global Arguments OpPut {V} key value.
Global Arguments OpDelete {V} key.

Definition op_key {V} (op : Op V) : string :=
  match op with OpPut k _ | OpDelete k => k end.

Definition apply_op {V} (m : gmap string V) (op : Op V) : gmap string V :=
  match op with
  | OpPut k v => <[k := v]> m
  | OpDelete k => delete k m
  end.

Definition apply_ops {V} (m : gmap string V) (ops : list (Op V)) : gmap string V :=
  fold_left apply_op ops m.

(** The loop over [checkKey] at the head of both [Commit]s: the first unsafe
    key is the error. *)
Fixpoint check_keys {V} (ops : list (Op V)) : res error unit :=
  match ops with
  | [] => Ok tt
  | op :: ops => checkKey (op_key op) ≫= λ _, check_keys ops
  end.

Definition list_keys {V} (m : gmap string V) (prefix : string) : list string :=
  sort_strings (filter (λ k, HasPrefix k prefix = true) (map_to_list m).*1).

(** ** The [Store] interface *)

Class MetaStore (S V : Type) := {
  st_Get : S → string → res error V;
  st_Put : S → string → V → S * res error unit;
  st_Delete : S → string → S * res error unit;
  st_List : S → string → res error (list string);
  st_Commit : S → list (Op V) → S * res error unit
}.

(** What an implementation promises: a finite map behind the operations,
    reads that see it exactly, and writes that land whole or not at all. *)
Class MetaStoreLaws (S V : Type) `{MS : MetaStore S V} := {
  contents : S → gmap string V;
  Get_law s k :
    st_Get s k = (_ ← checkKey k;
                  match contents s !! k with Some v => Ok v | None => Err (Wrapped ErrNotFound) end);
  List_law s p : st_List s p = Ok (list_keys (contents s) p);
  Put_law s k v : st_Put s k v = st_Commit s [OpPut k v];
  Delete_law s k : st_Delete s k = st_Commit s [OpDelete k];
  Commit_unsafe s ops e : check_keys ops = Err e → st_Commit s ops = (s, Err e);
  Commit_atomic s ops :
    check_keys ops = Ok tt →
    ((st_Commit s ops).2 = Ok tt ∧ contents (st_Commit s ops).1 = apply_ops (contents s) ops) ∨
    (∃ e, (st_Commit s ops).2 = Err e ∧ contents (st_Commit s ops).1 = contents s)
}.

(** A store none of whose writes fails, as the in-memory one. *)
Class ReliableStore (S V : Type) `{MSL : MetaStoreLaws S V} :=
  Commit_succeeds (s : S) (ops : list (Op V)) :
    check_keys ops = Ok tt → (st_Commit s ops).2 = Ok tt.

(** ** Shared facts *)

Section facts.
Context {V : Type}.
Implicit Types (m : gmap string V) (ops : list (Op V)).

Lemma checkKey_ok k u : checkKey k = Ok u ↔ SafeKey k = true.
Proof. unfold checkKey. destruct u; by destruct (SafeKey k). Qed.

Lemma check_keys_ok ops : check_keys ops = Ok tt ↔ Forall (λ op, SafeKey (op_key op) = true) ops.
Proof.
  induction ops as [|op ops IH]; simpl; [split; [by constructor|done]|].
  rewrite Forall_cons, <- IH. unfold checkKey. destruct (SafeKey (op_key op)); naive_solver.
Qed.

Lemma check_keys_err ops e : check_keys ops = Err e → e = Wrapped ErrUnsafeKey.
Proof.
  induction ops as [|op ops IH]; [done|]. simpl. unfold checkKey.
  destruct (SafeKey (op_key op)); naive_solver.
Qed.

Lemma apply_ops_app m ops1 ops2 : apply_ops m (ops1 ++ ops2) = apply_ops (apply_ops m ops1) ops2.
Proof. apply fold_left_app. Qed.

Lemma elem_of_list_keys m p k : k ∈ list_keys m p ↔ is_Some (m !! k) ∧ HasPrefix k p = true.
Proof.
  unfold list_keys. rewrite sort_strings_elem, list_elem_of_filter, list_elem_of_fmap. split.
  - intros [Hp ([k' v] & -> & Hk%elem_of_map_to_list)]. eauto.
  - intros [[v Hv] Hp]. split; [done|]. exists (k, v). by rewrite elem_of_map_to_list.
Qed.

Lemma list_keys_NoDup m p : NoDup (list_keys m p).
Proof.
  unfold list_keys. rewrite sort_strings_perm. apply list.NoDup_filter, NoDup_fst_map_to_list.
Qed.

(** An occurrence of a separator-free string lies within one segment. *)
Lemma Contains_app_sep x y sub c :
  free_of c sub = true → sub ≠ "" →
  Contains (x +:+ String c y) sub = true → Contains x sub = true ∨ Contains y sub = true.
Proof.
  intros Hf Hne. rewrite !Contains_spec. revert x. induction x as [|a x IH]; intros (u & v & H).
  - change ("" +:+ String c y) with (String c y) in H. right. destruct u as [|b u].
    + destruct sub as [|b sub]; [done|]. injection H as -> _.
      unfold free_of in Hf. simpl in Hf. by rewrite bool_decide_true in Hf.
    + injection H as _ H. by exists u, v.
  - rewrite app_cons in H. destruct u as [|b u].
    + left. destruct (HasPrefix (String a x) sub) eqn:Hp.
      { apply HasPrefix_spec in Hp as [r Hr]. by exists "", r. }
      exfalso. change ("" +:+ sub +:+ v) with (sub +:+ v) in H. rewrite <- app_cons in H.
      clear IH. revert Hp H Hf. generalize (String a x) as z. clear.
      induction sub as [|b sub IH]; intros z Hp H Hf; [by destruct z|].
      unfold free_of in Hf. simpl in Hf. bool_prop. rewrite app_cons in H.
      destruct z as [|d z]; [by injection H|]. rewrite app_cons in H. injection H as -> H.
      simpl in Hp. rewrite decide_True in Hp by done. by eapply IH.
    + injection H as -> H. destruct IH as [(u' & v' & ->)|?]; [by exists u, v| |by right].
      left. by exists (String b u'), v'.
Qed.

Lemma Contains_Join parts sub c :
  free_of c sub = true → sub ≠ "" → parts ≠ [] →
  Contains (Join parts c) sub = true → Exists (λ p, Contains p sub = true) parts.
Proof.
  intros Hf Hne Hp. induction parts as [|x parts IH]; [done|].
  destruct parts as [|y parts]; [by constructor|]. rewrite Join_cons2.
  intros [?|?]%Contains_app_sep; [by left|right; by apply IH|done..].
Qed.

Lemma ToLower_app x y : ToLower (x +:+ y) = ToLower x +:+ ToLower y.
Proof. induction x; [done|]. rewrite !app_cons. simpl. rewrite IHx. done. Qed.

Lemma ToLower_Join parts :
  ToLower (Join parts "/"%char) = Join (ToLower <$> parts) "/"%char.
Proof.
  induction parts as [|x [|y parts] IH]; [done..|].
  cbn [fmap list_fmap] in *. rewrite !Join_cons2, ToLower_app. cbn [ToLower]. by rewrite IH.
Qed.

(** A key made of segments is safe when every segment is free of the refused
    strings and the first one is not empty. *)
Lemma SafeKey_Join x parts :
  x ≠ "" → HasPrefix x "/" = false →
  Forall (λ p, Forall (λ bad, Contains (ToLower p) bad = false) bad_key_parts) (x :: parts) →
  SafeKey (Join (x :: parts) "/"%char) = true.
Proof.
  intros Hx Hs Hp. unfold SafeKey.
  assert (HasPrefix (Join (x :: parts) "/"%char) "/" = false ∧ Join (x :: parts) "/"%char ≠ "") as [-> Hne].
  { destruct x as [|a x]; [done|]. destruct parts; [done|]. rewrite Join_cons2. split; [|done].
    rewrite app_cons. cbn in *. by case_decide. }
  rewrite bool_decide_false by done. cbn [orb]. apply negb_true_iff.
  destruct (existsb (Contains (ToLower (Join (x :: parts) "/"%char))) bad_key_parts) eqn:He; [|done]. exfalso.
  apply existsb_exists in He as (bad & Hb & Hc). apply list_elem_of_In in Hb.
  rewrite ToLower_Join in Hc. apply Contains_Join in Hc; [|..|done].
  - apply Exists_exists in Hc as (q & (p & -> & Hq)%list_elem_of_fmap & Hc).
    rewrite Forall_forall in Hp. specialize (Hp p Hq). rewrite Forall_forall in Hp.
    specialize (Hp bad Hb). congruence.
  - unfold bad_key_parts in Hb. set_solver.
  - unfold bad_key_parts in Hb. set_solver.
Qed.

Definition clean (p : string) : Prop := Forall (λ bad, Contains (ToLower p) bad = false) bad_key_parts.

(** A tail of a safe key is clean, and a clean tail under a clean directory
    makes a safe key. *)
Lemma SafeKey_tail x n : SafeKey (x +:+ n) = true → clean n.
Proof.
  unfold SafeKey. destruct (_ || _); [done|]. intros Hk%negb_true_iff. apply Forall_forall. intros bad Hb.
  destruct (Contains (ToLower n) bad) eqn:Hc; [|done]. rewrite <- Hk. symmetry. apply existsb_exists.
  exists bad. split; [by apply list_elem_of_In|]. rewrite ToLower_app. apply Contains_spec in Hc as (u & v & ->).
  apply Contains_spec. exists (ToLower x +:+ u), v. by rewrite app_assoc.
Qed.

Lemma clean_slash p n : clean p → clean n → clean (p +:+ String "/" n).
Proof.
  intros Hp Hn. unfold clean in *. rewrite Forall_forall in *. intros bad Hb.
  destruct (Contains (ToLower (p +:+ String "/" n)) bad) eqn:Hc; [|done].
  rewrite ToLower_app in Hc. cbn [ToLower] in Hc.
  apply Contains_app_sep in Hc; [|unfold bad_key_parts in Hb; set_solver..].
  destruct Hc as [Hc|Hc]; [rewrite Hp in Hc|rewrite Hn in Hc]; done.
Qed.

Lemma SafeKey_under p n :
  p ≠ "" → HasPrefix p "/" = false → clean p → clean n → SafeKey (p +:+ String "/" n) = true.
Proof.
  intros Hne Hs Hp Hn. unfold SafeKey. destruct p as [|a p]; [done|]. rewrite app_cons.
  rewrite bool_decide_false by done. cbn [HasPrefix orb] in *. destruct (decide _); [done|].
  apply negb_true_iff. destruct (existsb _ _) eqn:He; [|done]. exfalso.
  apply existsb_exists in He as (bad & Hb & Hc). apply list_elem_of_In in Hb. rewrite <- app_cons in Hc.
  pose proof (clean_slash _ _ Hp Hn) as Hpn. unfold clean in Hpn. rewrite Forall_forall in Hpn. by rewrite Hpn in Hc.
Qed.

(** A byte no refused string is made of. *)
Definition safe_byte (a : ascii) : bool := negb (bool_decide (a ∈ ["."; "%"; "000"; "\"]%char)).

Lemma Contains_byte (P : ascii → bool) s sub a :
  AllBytes P s = true → P a = false → Contains s (String a sub) = false.
Proof.
  intros Hs Ha. destruct (Contains s (String a sub)) eqn:Hc; [|done]. apply Contains_spec in Hc as (x & y & ->).
  rewrite !AllBytes_app in Hs. cbn in Hs. rewrite Ha, !andb_false_r in Hs. done.
Qed.

Lemma ToLower_safe s : AllBytes safe_byte s = true → AllBytes safe_byte (ToLower s) = true.
Proof.
  induction s as [|a s IH]; [done|]. cbn. rewrite !andb_true_iff. intros [Ha Hs]. split; [|auto]. revert Ha. clear.
  destruct a as [[] [] [] [] [] [] [] []]; vm_compute; done.
Qed.

Lemma SafeKey_bytes s : AllBytes safe_byte s = true → s ≠ "" → HasPrefix s "/" = false → SafeKey s = true.
Proof.
  intros Hs Hne Hp. unfold SafeKey. rewrite bool_decide_false, Hp by done. cbn [orb]. apply negb_true_iff.
  apply ToLower_safe in Hs. unfold bad_key_parts. cbn [existsb].
  rewrite !(Contains_byte safe_byte (ToLower s)) by done. done.
Qed.

(** Deleting a list of keys, as the bulk deletes of the services do. *)
Lemma apply_deletes m (ks : list string) k :
  apply_ops m (OpDelete <$> ks) !! k = if decide (k ∈ ks) then None else m !! k.
Proof.
  revert m. induction ks as [|k' ks IH]; intros m; [by rewrite decide_False by set_solver|].
  cbn [fmap list_fmap]. change (apply_ops m (OpDelete k' :: (OpDelete <$> ks)))
    with (apply_ops (delete k' m) (OpDelete <$> ks)).
  rewrite IH. destruct (decide (k = k')) as [->|].
  - rewrite lookup_delete_eq. repeat case_decide; set_solver.
  - rewrite lookup_delete_ne by done. repeat case_decide; set_solver.
Qed.

(** What holds of every entry still does after writes whose puts satisfy it. *)
Lemma apply_ops_preserves (P : string → V → Prop) m ops :
  map_Forall P m → Forall (λ op, match op with OpPut k v => P k v | OpDelete _ => True end) ops →
  map_Forall P (apply_ops m ops).
Proof.
  intros Hm Hops. revert m Hm. induction Hops as [|op ops Hop _ IH]; intros m Hm; [done|].
  apply IH. destruct op as [k v|k]; cbn in *; [by apply map_Forall_insert_2|by apply map_Forall_delete].
Qed.

(** Writes of other keys leave an entry alone. *)
Lemma apply_ops_ne m ops k : Forall (λ op, op_key op ≠ k) ops → apply_ops m ops !! k = m !! k.
Proof.
  intros Hops. revert m. induction Hops as [|op ops Hop _ IH]; intros m; [done|].
  change (apply_ops (apply_op m op) ops !! k = m !! k). rewrite IH.
  destruct op; cbn in *; [by rewrite lookup_insert_ne|by rewrite lookup_delete_ne].
Qed.

(** An entry after a list of writes was there before or was put by one. *)
Lemma apply_ops_Some m ops k v :
  apply_ops m ops !! k = Some v → m !! k = Some v ∨ OpPut k v ∈ ops.
Proof.
  revert m. induction ops as [|op ops IH]; intros m; [by left|].
  intros [H|H]%(IH (apply_op m op)); [|set_solver].
  destruct op as [k' v'|k']; cbn in H.
  - apply lookup_insert_Some in H as [[-> ->]|[_ H]]; [right; set_solver|by left].
  - apply lookup_delete_Some in H as [_ H]. by left.
Qed.

End facts.

(** ** Facts about every implementation *)

Section laws.
Context {S V : Type} `{MSL : MetaStoreLaws S V}.

(** A commit lands whole, its keys all safe, or not at all. *)
Lemma st_Commit_cases (s : S) (ops : list (Op V)) :
  ((st_Commit s ops).2 = Ok tt ∧ check_keys ops = Ok tt ∧
     contents (st_Commit s ops).1 = apply_ops (contents s) ops) ∨
  (∃ e, (st_Commit s ops).2 = Err e ∧ contents (st_Commit s ops).1 = contents s).
Proof.
  destruct (check_keys ops) as [[]|e] eqn:Hc.
  - destruct (Commit_atomic s ops Hc) as [[H1 H2]|H]; auto.
  - right. exists e. by rewrite (Commit_unsafe s ops e Hc).
Qed.

Lemma Get_ok (s : S) k (v : V) : st_Get s k = Ok v ↔ SafeKey k = true ∧ contents s !! k = Some v.
Proof.
  rewrite Get_law. unfold checkKey. destruct (SafeKey k); cbn; [|naive_solver].
  destruct (contents s !! k); naive_solver.
Qed.

(** A write under a safe key, where none fails. *)
Lemma Commit_ok `{!ReliableStore S V} (d : S) op : SafeKey (op_key op) = true →
  ∃ d', st_Commit d [op] = (d', Ok tt) ∧ contents d' = apply_op (contents d) op.
Proof.
  intros Hk. assert (check_keys [op] = Ok tt) as Hc by (apply check_keys_ok; by constructor).
  pose proof (Commit_succeeds d [op] Hc) as Hok. destruct (st_Commit_cases d [op]) as [(_ & _ & Hcts)|(err & Herr & _)]; [|congruence].
  exists (st_Commit d [op]).1. split; [|done]. by destruct (st_Commit d [op]) as [d' r]; cbn in *; subst.
Qed.

End laws.

(** ** Memory *)

Module Memory.
Section memory.
Context {V : Type}.

Record Memory := mkMemory { data : gmap string V }.

Definition NewMemory : Memory := mkMemory ∅.

Definition Get (m : Memory) (key : string) : res error V :=
  _ ← checkKey key;
  match data m !! key with
  | Some v => Ok v
  | None => Err (Wrapped ErrNotFound)
  end.

Definition List (m : Memory) (prefix : string) : res error (list string) :=
  Ok (list_keys (data m) prefix).

(** Every key is checked before any write is applied. *)
Definition Commit (m : Memory) (ops : list (Op V)) : Memory * res error unit :=
  match check_keys ops with
  | Err e => (m, Err e)
  | Ok _ => (mkMemory (apply_ops (data m) ops), Ok tt)
  end.

Definition Put (m : Memory) (key : string) (value : V) := Commit m [OpPut key value].
Definition Delete (m : Memory) (key : string) := Commit m [OpDelete key].

#[global] Instance memory_store : MetaStore Memory V := {|
  st_Get := Get; st_Put := Put; st_Delete := Delete; st_List := List; st_Commit := Commit |}.

#[global, refine] Instance memory_laws : MetaStoreLaws Memory V := {| contents := data |}.
Proof.
  all: cbn.
  - done.
  - done.
  - done.
  - done.
  - intros s ops e He. unfold Commit. by rewrite He.
  - intros s ops Hops. left. unfold Commit. by rewrite Hops.
Defined.

#[global] Instance memory_reliable : ReliableStore Memory V.
Proof. intros s ops Hops. cbn. unfold Commit. by rewrite Hops. Qed.

End memory.
Global Arguments Memory : clear implicits.
End Memory.

(** ** Durable *)

Module Durable.
Section durable.
Context {V : Type}.

(** What [metadata.json] holds: absent, unreadable, not a JSON map, or a map, the
    one reading it gives (JSON [null] reads as the empty map). *)
Inductive disk_file :=
| Absent
| Unreadable
| Garbage
| Contents (m : gmap string V).

(** Where a [flush] fails, in the order of its calls; [None] is success. *)
Inductive fault := FCreateTemp | FWrite | FSync | FClose | FRename.

(** [faults] is the outcome of the flushes to come, in order; when it runs
    out they succeed. *)
Record Durable := mkDurable {
  file : disk_file;
  lock : bool;
  data : gmap string V;
  faults : list (option fault)
}.

Definition set_data (d : Durable) (m : gmap string V) : Durable :=
  mkDurable (file d) (lock d) m (faults d).

Definition ErrIO : error := Sentinel "i/o error".

(** What encoding/json reads back of a map it wrote: the entries in the order of
    their keys, each key as [json_string] makes it, a later entry replacing an
    earlier one of the same key.  A value is base64 and comes back as it was. *)
Definition json_map (m : gmap string V) : gmap string V :=
  foldl (λ acc kv, <[json_string kv.1 := kv.2]> acc) ∅ (sort_by fst (map_to_list m)).

Definition load (d : Durable) : res error Durable :=
  match file d with
  | Absent => Ok d
  | Unreadable => Err (Wrapped ErrIO)
  | Garbage => Err (Wrapped (Sentinel "parse metadata"))
  | Contents m => Ok (set_data d m)
  end.

(** [flush] writes a temporary file and renames it over [metadata.json]: any
    failing call returns before the rename takes effect. *)
Definition flush (d : Durable) : Durable * res error unit :=
  match faults d with
  | Some _ :: fs => (mkDurable (file d) (lock d) (data d) fs, Err ErrIO)
  | None :: fs => (mkDurable (Contents (json_map (data d))) (lock d) (data d) fs, Ok tt)
  | [] => (mkDurable (Contents (json_map (data d))) (lock d) (data d) [], Ok tt)
  end.

Definition Get (d : Durable) (key : string) : res error V :=
  _ ← checkKey key;
  match data d !! key with
  | Some v => Ok v
  | None => Err (Wrapped ErrNotFound)
  end.

Definition List (d : Durable) (prefix : string) : res error (list string) :=
  Ok (list_keys (data d) prefix).

(** The writes are staged in a copy; a failed flush puts the old map back. *)
Definition Commit (d : Durable) (ops : list (Op V)) : Durable * res error unit :=
  match check_keys ops with
  | Err e => (d, Err e)
  | Ok _ =>
      let prev := data d in
      let staged := apply_ops prev ops in
      match flush (set_data d staged) with
      | (d', Err e) => (set_data d' prev, Err (Wrapped e))
      | (d', Ok _) => (d', Ok tt)
      end
  end.

Definition Put (d : Durable) (key : string) (value : V) := Commit d [OpPut key value].
Definition Delete (d : Durable) (key : string) := Commit d [OpDelete key].

(** Releases the directory; a second [Close] does nothing. *)
Definition Close (d : Durable) : Durable :=
  if lock d then mkDurable (file d) false (data d) (faults d) else d.

#[global] Instance durable_store : MetaStore Durable V := {|
  st_Get := Get; st_Put := Put; st_Delete := Delete; st_List := List; st_Commit := Commit |}.

Lemma Commit_cases d ops :
  check_keys ops = Ok tt →
  ((Commit d ops).2 = Ok tt ∧ data (Commit d ops).1 = apply_ops (data d) ops ∧
     file (Commit d ops).1 = Contents (json_map (apply_ops (data d) ops))) ∨
  (∃ e, (Commit d ops).2 = Err e ∧ data (Commit d ops).1 = data d ∧ file (Commit d ops).1 = file d).
Proof.
  intros Hops. unfold Commit. rewrite Hops. unfold flush; simpl.
  destruct (faults d) as [|[f|] fs]; simpl; eauto 10.
Qed.

#[global, refine] Instance durable_laws : MetaStoreLaws Durable V := {| contents := data |}.
Proof.
  all: cbn.
  - done.
  - done.
  - done.
  - done.
  - intros s ops e He. unfold Commit. by rewrite He.
  - intros s ops Hops. destruct (Commit_cases s ops Hops) as [(?&?&?)|(e&?&?&?)]; eauto.
Defined.

(** Keys that are valid UTF-8 come back from the file as they were. *)
Definition valid_keys (m : gmap string V) : Prop := map_Forall (λ k _, ValidString k = true) m.

Lemma foldl_list_to_map (l : list (string * V)) (acc : gmap string V) :
  foldl (λ acc kv, <[kv.1 := kv.2]> acc) acc l = list_to_map (reverse l) ∪ acc.
Proof.
  revert acc. induction l as [|[k v] l IH]; intros acc; [cbn; by rewrite (left_id_L ∅ (∪))|].
  cbn [foldl fst snd]. rewrite IH, reverse_cons, list_to_map_app. cbn [list_to_map foldr fst snd uncurry].
  by rewrite <- (assoc_L (∪)), <- insert_union_l, (left_id_L ∅ (∪)).
Qed.

Lemma json_map_valid (m : gmap string V) : valid_keys m → json_map m = m.
Proof.
  intros Hm. unfold json_map. set (l := sort_by fst (map_to_list m)).
  assert (l ≡ₚ map_to_list m) as Hl by apply merge_sort_Permutation.
  assert (Forall (λ kv, json_string kv.1 = kv.1) l) as Hv.
  { rewrite Hl. apply Forall_forall. intros [k v] Hin%elem_of_map_to_list. by apply Hm, bool_decide_eq_true in Hin. }
  assert (∀ acc, foldl (λ acc kv, <[json_string kv.1 := kv.2]> acc) acc l = foldl (λ acc kv, <[kv.1 := kv.2]> acc) acc l) as ->.
  { clear Hl. induction Hv as [|kv l Hkv _ IH]; intros acc; [done|]. cbn. by rewrite Hkv, IH. }
  rewrite foldl_list_to_map, (right_id_L ∅ (∪)).
  assert (reverse l ≡ₚ map_to_list m) as Hr by by rewrite reverse_Permutation.
  transitivity (list_to_map (M := gmap string V) (map_to_list m)); [|apply list_to_map_to_list].
  apply list_to_map_proper; [|done]. rewrite Hr. apply NoDup_fst_map_to_list.
Qed.

(** Memory and disk agree: what a restart would load is what is served. *)
Definition in_sync (d : Durable) : Prop :=
  match file d with
  | Contents m => data d = m ∧ valid_keys m
  | Absent => data d = ∅
  | Unreadable | Garbage => False
  end.

Definition valid_op (op : Op V) : Prop := ValidString (op_key op) = true.

Lemma in_sync_valid d : in_sync d → valid_keys (data d).
Proof. unfold in_sync. destruct (file d); try done; [intros ->; apply map_Forall_empty|by intros [-> ?]]. Qed.

Lemma apply_ops_valid (m : gmap string V) ops : valid_keys m → Forall valid_op ops → valid_keys (apply_ops m ops).
Proof. intros Hm Ho. apply apply_ops_preserves; [done|]. eapply Forall_impl; [exact Ho|]. by intros []. Qed.

Lemma Commit_in_sync d ops : in_sync d → Forall valid_op ops → in_sync (Commit d ops).1.
Proof.
  intros Hd Ho. destruct (check_keys ops) as [[]|e] eqn:Hops.
  - pose proof (apply_ops_valid _ _ (in_sync_valid d Hd) Ho) as Hv.
    unfold in_sync in *. destruct (Commit_cases d ops Hops) as [(?&->&->)|(e&?&->&->)]; [|done].
    by rewrite json_map_valid.
  - unfold Commit. by rewrite Hops.
Qed.

(** A process that restarts: the directory is claimed again and the file
    loaded into an empty map. *)
Definition restart (d : Durable) : res error Durable :=
  load (mkDurable (file d) true ∅ []).

(** The commits of the batches, one after the other, and the writes of those that
    returned nil. *)
Fixpoint commits (d : Durable) (batches : list (list (Op V))) : Durable :=
  match batches with
  | [] => d
  | ops :: rest => commits (Commit d ops).1 rest
  end.

Fixpoint committed (d : Durable) (batches : list (list (Op V))) : list (Op V) :=
  match batches with
  | [] => []
  | ops :: rest => (if is_ok (Commit d ops).2 then ops else []) ++ committed (Commit d ops).1 rest
  end.

(** A commit to the durable store is all or nothing, in memory and on
    disk alike: either it succeeds and both hold every write of the batch, or
    it fails and both are as they were, whichever call of the flush failed. *)
Theorem durable_commit_atomic (d : Durable) (ops : list (Op V)) :
  ((Commit d ops).2 = Ok tt ∧ data (Commit d ops).1 = apply_ops (data d) ops ∧
     file (Commit d ops).1 = Contents (json_map (apply_ops (data d) ops))) ∨
  (is_ok (Commit d ops).2 = false ∧ data (Commit d ops).1 = data d ∧ file (Commit d ops).1 = file d).
Proof.
  destruct (check_keys ops) as [[]|e] eqn:Hops.
  - destruct (Commit_cases d ops Hops) as [?|(e & -> & ?)]; auto.
  - right. unfold Commit. by rewrite Hops.
Qed.

Lemma commits_state d batches :
  in_sync d → Forall (Forall valid_op) batches →
  in_sync (commits d batches) ∧ data (commits d batches) = apply_ops (data d) (committed d batches).
Proof.
  revert d. induction batches as [|ops rest IH]; intros d Hd Hb; [done|]. apply Forall_cons in Hb as [Ho Hb]. cbn [commits committed].
  destruct (IH _ (Commit_in_sync d ops Hd Ho) Hb) as [Hs ->]. split; [done|]. rewrite apply_ops_app. f_equal.
  destruct (durable_commit_atomic d ops) as [(-> & -> & _)|(-> & -> & _)]; done.
Qed.

(** C1: a restart of the durable store loses no commit that returned nil and shows
    none that failed: after any sequence of commits, with any of their flushes
    failing, reopening the directory serves exactly the map made by the writes of
    the commits that returned nil, in their order.  The keys written are valid
    UTF-8 (encoding/json replaces the bytes of others) and the directory was in
    step with memory at the start, as a fresh one is. *)
Theorem durable_restart_lossless (d : Durable) (batches : list (list (Op V))) :
  in_sync d → Forall (Forall valid_op) batches →
  ∃ d', restart (commits d batches) = Ok d' ∧ data d' = apply_ops (data d) (committed d batches).
Proof.
  intros Hd Hb. destruct (commits_state d batches Hd Hb) as [Hs <-]. unfold restart, load, in_sync in *. simpl.
  destruct (file (commits d batches)); try done; [|destruct Hs as [-> _]]; eexists; split; done.
Qed.

End durable.
Global Arguments Durable : clear implicits.
Global Arguments disk_file : clear implicits.

(** A fresh directory whose second flush fails. *)
Definition fresh : Durable nat := mkDurable Absent true ∅ [None; Some FRename].

Definition batches : list (list (Op nat)) := [[OpPut "a" 1]; [OpPut "b" 2; OpDelete "a"]; [OpPut "c" 3]].

Lemma durable_restart_lossless_witness :
  ∃ d', restart (commits fresh batches) = Ok d' ∧ data d' = apply_ops ∅ [OpPut "a" 1; OpPut "c" 3].
Proof. apply (durable_restart_lossless fresh batches); [reflexivity|]. repeat constructor. Defined.

(** *** Keys that are not valid UTF-8

    The code does not do what it says here: SafeKey accepts such keys, and a
    restart finds their values under other keys, or not at all. *)
Definition ff : string := String "255" "".
Definition fe : string := String "254" "".

Example invalid_keys_collapse :
  let d := commits (mkDurable (V := nat) Absent true ∅ []) [[OpPut ff 1]; [OpPut fe 2]] in
  SafeKey ff = true ∧ Get d ff = Ok 1 ∧ Get d fe = Ok 2 ∧
  match restart d with Ok d' => map_to_list (data d') = [(replacement, 1)] | Err _ => False end.
Proof. vm_compute. done. Qed.

(** *** The durable store while no flush fails

    The second store, beside the one in memory, none of whose writes fails. *)
Section healthy.
Context {V : Type}.

Record Healthy := mkHealthy { h_file : disk_file V; h_lock : bool; h_data : gmap string V }.

Definition disk (h : Healthy) : Durable V := mkDurable (h_file h) (h_lock h) (h_data h) [].

Definition healthy_Commit (h : Healthy) (ops : list (Op V)) : Healthy * res error unit :=
  let '(d, r) := Commit (disk h) ops in (mkHealthy (file d) (lock d) (data d), r).

#[global] Instance healthy_store : MetaStore Healthy V := {|
  st_Get h := Get (disk h); st_Put h key value := healthy_Commit h [OpPut key value];
  st_Delete h key := healthy_Commit h [OpDelete key]; st_List h := List (disk h); st_Commit := healthy_Commit |}.

#[global, refine] Instance healthy_laws : MetaStoreLaws Healthy V := {| contents h := data (disk h) |}.
Proof.
  all: cbn.
  - done.
  - done.
  - done.
  - done.
  - intros [f l d] ops e He. unfold healthy_Commit, Commit. by rewrite He.
  - intros h ops Hops. left. unfold healthy_Commit, Commit. by rewrite Hops.
Defined.

#[global] Instance healthy_reliable : ReliableStore Healthy V.
Proof. intros h ops Hops. cbn. unfold healthy_Commit, Commit. by rewrite Hops. Qed.

End healthy.
Global Arguments Healthy : clear implicits.

End Durable.

(** ** Crashes in the middle of a flush *)

Module Flush.
Section flush.
Context {V : Type}.

(** A file's content as the disk holds it: bytes that reached the disk, bytes
    that are only in the page cache, or a write cut short. *)
Inductive content :=
| Synced (m : gmap string V)
| Unsynced (m : gmap string V)
| Partial.

Record disk := mkDisk { main : option content; temp : option content }.

(** The calls of [flush] that touch the disk, in the order of the code. *)
Inductive effect :=
| ECreateTemp
| EWriteSome                  (** part of the bytes *)
| EWrite (m : gmap string V)  (** all of them *)
| ESync
| EClose
| ERename
| ERemoveTemp.                (** the deferred [os.Remove(tmpName)] *)

Definition flush_effects (m : gmap string V) : list effect :=
  [ECreateTemp; EWriteSome; EWrite m; ESync; EClose; ERename; ERemoveTemp].

(** A rename takes effect on disk at once: the code does not sync the directory
    after it, so on a file system that delays renames a crash after a finished
    flush may still find the previous file. *)
Definition run_effect (d : disk) (e : effect) : disk :=
  match e with
  | ECreateTemp | EWriteSome => mkDisk (main d) (Some Partial)
  | EWrite m => mkDisk (main d) (Some (Unsynced m))
  | ESync =>
      mkDisk (main d) (match temp d with Some (Unsynced m) => Some (Synced m) | t => t end)
  | EClose => d
  | ERename => match temp d with Some t => mkDisk (Some t) None | None => d end
  | ERemoveTemp => mkDisk (main d) None
  end.

Definition run (d : disk) (es : list effect) : disk := fold_left run_effect es d.

(** What a machine that stops now may find in [metadata.json] when it starts
    again: only synced bytes are sure to be there. *)
Definition survives (d : disk) (f : Durable.disk_file V) : Prop :=
  match main d with
  | None => f = Durable.Absent
  | Some (Synced m) => f = Durable.Contents m
  | Some (Unsynced _) | Some Partial => True
  end.

Lemma run_prefix_main m old n :
  main (run (mkDisk old None) (take n (flush_effects m))) = old ∨
  main (run (mkDisk old None) (take n (flush_effects m))) = Some (Synced m).
Proof. do 8 (destruct n as [|n]; [cbn; auto|]). cbn. auto. Qed.

(** C2: a crash after any number of the calls of a flush leaves
    [metadata.json] with the previous map or the new one, never with a
    truncated file, and a flush that ran to its end left the new one.  It begins
    with a file that was synced; a rename is taken to be on disk when it returns,
    although the code does not sync the directory. *)
Theorem flush_crash_safe (old new : gmap string V) (n : nat) (f : Durable.disk_file V) :
  let d0 := mkDisk (Some (Synced old)) None in
  (survives (run d0 (take n (flush_effects new))) f → f = Durable.Contents old ∨ f = Durable.Contents new) ∧
  (survives (run d0 (flush_effects new)) f → f = Durable.Contents new).
Proof.
  intros d0. split; [|done]. unfold survives.
  destruct (run_prefix_main new (Some (Synced old)) n) as [H|H]; unfold d0; rewrite H; auto.
Qed.

End flush.
Global Arguments disk : clear implicits.
Global Arguments content : clear implicits.
End Flush.

(** ** Ownership of a data directory *)

Module Open.

(** Where a process is in [OpenDurable]. *)
Inductive pc :=
| Opening     (** before the first [O_EXCL] create *)
| Checking    (** the create failed: [lockIsLive] decides *)
| Reclaiming  (** the owner is gone: before [os.Remove] *)
| Retrying    (** before the second [O_EXCL] create *)
| Claimed     (** the lock file is ours, the PID not yet written *)
| Owner
| Refused     (** [ErrLocked] *)
| Closed.

#[global] Instance pc_eq_dec : EqDecision pc.
Proof. solve_decision. Defined.

(** [lockf] is the lock file: which process created it and whether it has
    written its PID there.  A write goes to the file the process opened, which
    may have been unlinked since. *)
Record world := mkWorld {
  lockf : option (Z * bool);
  alive : gset Z;
  pcs : gmap Z pc
}.

(** What signal 0 to a PID answers. *)
Inductive signal := Delivered | NotPermitted | NoProcess.

(** [lockIsLive] on the bytes of the lock file, [None] when it cannot be
    read: unreadable or malformed content is live, and so is our own PID. *)
Definition lock_live (getpid : Z) (signal0 : Z → signal) (b : option string) : bool :=
  match b with
  | None => true
  | Some b =>
      match strconv.Atoi (TrimSpace b) with
      | None => true
      | Some pid =>
          if (pid <=? 0)%Z then true
          else if (pid =? getpid)%Z then true
          else match signal0 pid with
               | Delivered | NotPermitted => true
               | NoProcess => false
               end
      end
  end.

(** The bytes a process finds: [fmt.Fprintf(lock, "%d\n", os.Getpid())]. *)
Definition lock_bytes (w : world) : option string :=
  match lockf w with
  | None => None
  | Some (_, false) => Some ""
  | Some (q, true) => Some (strconv.Itoa q +:+ String "010" "")
  end.

Definition lockIsLive (w : world) (p : Z) : bool :=
  lock_live p (λ q, if decide (q ∈ alive w) then Delivered else NoProcess) (lock_bytes w).

Lemma lockIsLive_false w p :
  lockIsLive w p = false → ∃ q, lockf w = Some (q, true) ∧ q ∉ alive w.
Proof.
  unfold lockIsLive, lock_bytes, lock_live. destruct (lockf w) as [[q []]|]; [|done..].
  rewrite TrimSpace_line by (apply strconv.Itoa_nonempty || apply strconv.Itoa_no_space || done).
  destruct (in_int q) eqn:Hq.
  - rewrite strconv.Atoi_Itoa by done. intros H. exists q. by repeat case_match.
  - destruct (strconv.Atoi (strconv.Itoa q)) as [n|] eqn:Hn; [|done].
    (* a PID outside an int is malformed *)
    exfalso. by rewrite strconv.Atoi_Itoa_out in Hn.
Qed.

Definition at_pc (w : world) (p : Z) (c : pc) : Prop := pcs w !! p = Some c ∧ p ∈ alive w.
Definition goto (w : world) (p : Z) (c : pc) : gmap Z pc := <[p := c]> (pcs w).

Inductive step : world → world → Prop :=
| step_create w p : at_pc w p Opening → lockf w = None →
    step w (mkWorld (Some (p, false)) (alive w) (goto w p Claimed))
| step_exists w p l : at_pc w p Opening → lockf w = Some l →
    step w (mkWorld (lockf w) (alive w) (goto w p Checking))
| step_live w p : at_pc w p Checking → lockIsLive w p = true →
    step w (mkWorld (lockf w) (alive w) (goto w p Refused))
| step_dead w p : at_pc w p Checking → lockIsLive w p = false →
    step w (mkWorld (lockf w) (alive w) (goto w p Reclaiming))
| step_remove w p : at_pc w p Reclaiming →
    step w (mkWorld None (alive w) (goto w p Retrying))
| step_recreate w p : at_pc w p Retrying → lockf w = None →
    step w (mkWorld (Some (p, false)) (alive w) (goto w p Claimed))
| step_lost w p l : at_pc w p Retrying → lockf w = Some l →
    step w (mkWorld (lockf w) (alive w) (goto w p Refused))
| step_write w p : at_pc w p Claimed →
    step w (mkWorld (match lockf w with Some (q, b) => Some (q, b || bool_decide (q = p)) | None => None end)
                    (alive w) (goto w p Owner))
| step_close w p : at_pc w p Owner →
    step w (mkWorld None (alive w) (goto w p Closed)).

(** A process that dies leaves its lock file behind. *)
Definition kill (w : world) (p : Z) : world :=
  mkWorld (lockf w) (alive w ∖ {[p]}) (delete p (pcs w)).

Definition holds (w : world) (p : Z) : Prop :=
  pcs w !! p = Some Owner ∨ pcs w !! p = Some Claimed.

(** While no owner has died: the lock file is there exactly when a process
    holds it, that process created it and is alive, and nobody is reclaiming. *)
Definition inv (w : world) : Prop :=
  (∀ p, holds w p → ∃ b, lockf w = Some (p, b)) ∧
  (∀ p b, lockf w = Some (p, b) → p ∈ alive w) ∧
  (∀ p, pcs w !! p ≠ Some Reclaiming ∧ pcs w !! p ≠ Some Retrying).

Lemma holds_goto w p c q l al :
  holds (mkWorld l al (goto w p c)) q → (q = p ∧ (c = Owner ∨ c = Claimed)) ∨ (q ≠ p ∧ holds w q).
Proof.
  unfold holds, goto; simpl. destruct (decide (q = p)) as [->|]; [rewrite lookup_insert_eq; naive_solver|].
  rewrite lookup_insert_ne by done. naive_solver.
Qed.

Lemma no_reclaim_goto w p c l al q :
  (∀ p, pcs w !! p ≠ Some Reclaiming ∧ pcs w !! p ≠ Some Retrying) → c ≠ Reclaiming → c ≠ Retrying →
  pcs (mkWorld l al (goto w p c)) !! q ≠ Some Reclaiming ∧ pcs (mkWorld l al (goto w p c)) !! q ≠ Some Retrying.
Proof.
  intros H ??. unfold goto; simpl. destruct (decide (p = q)) as [->|].
  - rewrite lookup_insert_eq. naive_solver.
  - rewrite lookup_insert_ne by done. apply H.
Qed.

Lemma inv_step w w' : inv w → step w w' → inv w'.
Proof.
  intros (Hh & Hl & Hr) Hs.
  destruct Hs as [w p [Hp Ha] Hn|w p l [Hp Ha] Hn|w p [Hp Ha] Hn|w p [Hp Ha] Hn|w p [Hp Ha]
                 |w p [Hp Ha] Hn|w p l [Hp Ha] Hn|w p [Hp Ha]|w p [Hp Ha]].
  5,6,7: by destruct (Hr p); congruence.
  4: { apply lockIsLive_false in Hn as (q & Hq & Hna). exfalso. eauto. }
  all: (split; [|split]; [..|intros q; by apply no_reclaim_goto]); simpl.
  - intros q [[-> _]|[_ [b Hb]%Hh]]%holds_goto; [eauto|congruence].
  - intros q b [=]. by subst.
  - intros q [[-> [|]]|[_ ?]]%holds_goto; naive_solver.
  - done.
  - intros q [[-> [|]]|[_ ?]]%holds_goto; naive_solver.
  - done.
  - destruct (Hh p) as [b Hb]; [by right|]. rewrite Hb.
    intros q [[-> _]|[_ [b' Hb']%Hh]]%holds_goto; [eauto|]. simplify_eq. eauto.
  - destruct (lockf w) as [[q b]|] eqn:Hq; [|done]. intros ?? [=]; subst; eauto.
  - destruct (Hh p) as [b Hb]; [by left|]. intros q [[-> [|]]|[Hne [b' Hb']%Hh]]%holds_goto; [done..|congruence].
  - done.
Qed.

(** While no owner dies, a data directory never has two owners: from a
    directory with no lock file, however many processes open it and however
    their calls interleave, at most one of them owns it at any time. *)
Theorem open_exclusive al (ps : gset Z) (w : world) p q :
  rtc step (mkWorld None al (gset_to_gmap Opening ps)) w →
  pcs w !! p = Some Owner → pcs w !! q = Some Owner → p = q.
Proof.
  intros Hw Hp Hq.
  assert (inv w) as (Hh & _).
  { assert (inv (mkWorld None al (gset_to_gmap Opening ps))) as H0.
    { split; [|split]; simpl; [|done|].
      - intros x [Hx|Hx]; simpl in Hx; by apply lookup_gset_to_gmap_Some in Hx as [_ ?].
      - intros x. split; intros [_ ?]%lookup_gset_to_gmap_Some; done. }
    revert H0. induction Hw; eauto using inv_step. }
  destruct (Hh p) as [b Hb]; [by left|]. destruct (Hh q) as [b' Hb']; [by left|]. congruence.
Qed.

(** A run of one process to ownership, for the witness. *)
Lemma open_one : rtc step (mkWorld None {[7%Z]} (gset_to_gmap Opening {[7%Z]}))
                          (mkWorld (Some (7%Z, true)) {[7%Z]} {[7%Z := Owner]}).
Proof.
  eapply rtc_l; [by apply (step_create _ 7)|].
  eapply rtc_l; [by apply (step_write _ 7)|]. reflexivity.
Qed.

Lemma open_exclusive_witness : (7 = 7)%Z.
Proof.
  apply (open_exclusive {[7%Z]} {[7%Z]} (mkWorld (Some (7%Z, true)) {[7%Z]} {[7%Z := Owner]})).
  - exact open_one.
  - reflexivity.
  - reflexivity.
Defined.

(** The directory of a process that died: its lock file names PID 1. *)
Definition stale : world :=
  mkWorld (Some (1%Z, true)) {[2%Z; 3%Z]} {[2%Z := Opening; 3%Z := Opening]}.

(** Reclaiming a stale lock is not exclusive.  Two processes that both
    find the owner gone can both remove the lock file and both create it, the
    second one removing the first one's fresh lock, and both then own the
    directory: the second [O_EXCL] create does not make the loser refuse. *)
Theorem reclaim_race :
  ∃ w, rtc step stale w ∧ pcs w !! 2%Z = Some Owner ∧ pcs w !! 3%Z = Some Owner.
Proof.
  eexists. split.
  { eapply rtc_l; [by eapply (step_exists _ 2)|].
    eapply rtc_l; [by eapply (step_exists _ 3)|].
    eapply rtc_l; [by apply (step_dead _ 2)|].
    eapply rtc_l; [by apply (step_dead _ 3)|].
    eapply rtc_l; [by apply (step_remove _ 2)|].
    eapply rtc_l; [by apply (step_recreate _ 2)|].
    eapply rtc_l; [by apply (step_write _ 2)|].
    eapply rtc_l; [by apply (step_remove _ 3)|].
    eapply rtc_l; [by apply (step_recreate _ 3)|].
    eapply rtc_l; [by apply (step_write _ 3)|]. reflexivity. }
  split; reflexivity.
Qed.

End Open.
