(* ===== verification/Paging.v ===== *)
(** * internal/paging: page tokens and pages

    The token's JSON is [encoding/json]'s, through the [TokenJSON] class; its
    base64url form is computed here as [base64.RawURLEncoding] does. *)

From S2P Require Import Prelude GoLib ApiError.
From Stdlib Require Import Ascii.

Import strings.

Definition ErrInvalidToken : error := Sentinel "invalid page token".
Definition invalid_token : error := Wrapped ErrInvalidToken.

Definition DefaultPageSize : Z := 100.
Definition MaxPageSize : Z := 1000.

Record token := mkToken { After : string; Scope : string }.

(** ** base64.RawURLEncoding *)

Module base64.

Definition alphabet : string := "ABCDEFGHIJKLMNOPQRSTUVWXYZabcdefghijklmnopqrstuvwxyz0123456789-_".

Definition enc_char (n : N) : ascii := default "A"%char (String.get (N.to_nat n) alphabet).

Definition dec_char (a : ascii) : option N :=
  let n := N_of_ascii a in
  if (65 <=? n)%N && (n <=? 90)%N then Some (n - 65)%N
  else if (97 <=? n)%N && (n <=? 122)%N then Some (n - 71)%N
  else if (48 <=? n)%N && (n <=? 57)%N then Some (n + 4)%N
  else if (n =? 45)%N then Some 62%N
  else if (n =? 95)%N then Some 63%N
  else None.

Local Open Scope N_scope.

Fixpoint EncodeToString (s : string) : string :=
  match s with
  | String a (String b (String c r)) =>
      let x := N_of_ascii a in let y := N_of_ascii b in let z := N_of_ascii c in
      String (enc_char (x / 4)) (String (enc_char (x mod 4 * 16 + y / 16))
        (String (enc_char (y mod 16 * 4 + z / 64)) (String (enc_char (z mod 64)) (EncodeToString r))))
  | String a (String b EmptyString) =>
      let x := N_of_ascii a in let y := N_of_ascii b in
      String (enc_char (x / 4)) (String (enc_char (x mod 4 * 16 + y / 16))
        (String (enc_char (y mod 16 * 4)) EmptyString))
  | String a EmptyString =>
      let x := N_of_ascii a in
      String (enc_char (x / 4)) (String (enc_char (x mod 4 * 16)) EmptyString)
  | EmptyString => EmptyString
  end.

(** Whole quanta, then a tail of two or three characters; a single trailing
    character is an error, and the unused low bits of a tail are ignored. *)
Fixpoint decode_quanta (s : string) : option string :=
  match s with
  | String a (String b (String c (String d r))) =>
      w ← dec_char a; x ← dec_char b; y ← dec_char c; z ← dec_char d;
      t ← decode_quanta r;
      Some (String (ascii_of_N (w * 4 + x / 16))
             (String (ascii_of_N (x mod 16 * 16 + y / 4))
               (String (ascii_of_N (y mod 4 * 64 + z)) t)))
  | String a (String b (String c EmptyString)) =>
      w ← dec_char a; x ← dec_char b; y ← dec_char c;
      Some (String (ascii_of_N (w * 4 + x / 16)) (String (ascii_of_N (x mod 16 * 16 + y / 4)) EmptyString))
  | String a (String b EmptyString) =>
      w ← dec_char a; x ← dec_char b; Some (String (ascii_of_N (w * 4 + x / 16)) EmptyString)
  | String _ EmptyString => None
  | EmptyString => Some EmptyString
  end.

(** The decoder skips carriage returns and newlines wherever they are. *)
Fixpoint skip_newlines (s : string) : string :=
  match s with
  | EmptyString => EmptyString
  | String a r =>
      if (N_of_ascii a =? 10) || (N_of_ascii a =? 13) then skip_newlines r
      else String a (skip_newlines r)
  end.

Definition DecodeString (s : string) : option string := decode_quanta (skip_newlines s).

Lemma enc_char_facts n :
  n < 64 → dec_char (enc_char n) = Some n ∧
           ((N_of_ascii (enc_char n) =? 10) || (N_of_ascii (enc_char n) =? 13)) = false.
Proof.
  intros Hn. assert (∀ k : nat, (k < 64)%nat →
    dec_char (enc_char (N.of_nat k)) = Some (N.of_nat k) ∧
    ((N_of_ascii (enc_char (N.of_nat k)) =? 10) || (N_of_ascii (enc_char (N.of_nat k)) =? 13)) = false) as H.
  { intros k Hk. do 64 (destruct k as [|k]; [vm_compute; done|]). lia. }
  rewrite <- (N2Nat.id n). apply H. lia.
Qed.

Lemma dec_enc n : n < 64 → dec_char (enc_char n) = Some n.
Proof. apply enc_char_facts. Qed.

Lemma byte_lt a : N_of_ascii a < 256.
Proof. apply N_ascii_bounded. Qed.

Ltac byte_arith :=
  repeat match goal with
  | a : ascii |- _ => lazymatch goal with H : N_of_ascii a < 256 |- _ => fail | _ => pose proof (byte_lt a) end
  end; zify; Z.to_euclidean_division_equations; lia.

Lemma string_ind3 (P : string → Prop) :
  P "" → (∀ a, P (String a "")) → (∀ a b, P (String a (String b ""))) →
  (∀ a b c r, P r → P (String a (String b (String c r)))) → ∀ s, P s.
Proof.
  intros H0 H1 H2 H3 s. assert (P s ∧ (∀ a, P (String a s)) ∧ (∀ a b, P (String a (String b s)))) as [? _]; [|done].
  induction s as [|c s (IH0 & IH1 & IH2)]; auto.
Qed.

Lemma ascii_byte a n : n = N_of_ascii a → ascii_of_N n = a.
Proof. intros ->. apply ascii_N_embedding. Qed.

Lemma skip_enc n r : n < 64 → skip_newlines (String (enc_char n) r) = String (enc_char n) (skip_newlines r).
Proof. intros Hn. cbn [skip_newlines]. by rewrite (proj2 (enc_char_facts n Hn)). Qed.

Lemma skip_EncodeToString s : skip_newlines (EncodeToString s) = EncodeToString s.
Proof.
  induction s as [|a|a b|a b c r IH] using string_ind3; cbn [EncodeToString]; [done|..].
  - rewrite !skip_enc by byte_arith. done.
  - rewrite !skip_enc by byte_arith. done.
  - rewrite !skip_enc by byte_arith. by rewrite IH.
Qed.

Ltac same_bytes :=
  repeat match goal with
  | |- Some _ = Some _ => f_equal
  | |- String _ _ = String _ _ => f_equal; try (apply ascii_byte; byte_arith)
  end; try done.

Lemma decode_quanta_enc s : decode_quanta (EncodeToString s) = Some s.
Proof.
  induction s as [|a|a b|a b c r IH] using string_ind3; cbn [EncodeToString decode_quanta]; [done|..].
  - rewrite !dec_enc by byte_arith. cbn [mbind option_bind].
    same_bytes.
  - rewrite !dec_enc by byte_arith. cbn [mbind option_bind].
    same_bytes.
  - rewrite !dec_enc by byte_arith. rewrite IH. cbn [mbind option_bind].
    same_bytes.
Qed.

Lemma Decode_Encode s : DecodeString (EncodeToString s) = Some s.
Proof. unfold DecodeString. rewrite skip_EncodeToString. apply decode_quanta_enc. Qed.

Lemma EncodeToString_nonempty s : s ≠ "" → EncodeToString s ≠ "".
Proof. destruct s as [|a [|b [|c r]]]; done. Qed.

End base64.

(** ** Tokens *)

Definition ascii_only (s : string) : bool := AllBytes (λ a, (N_of_ascii a <? 128)%N) s.

(** [encoding/json] on [token].  Its documented behaviour the code relies on:
    a struct of ASCII strings is marshalled without error, and reading it back
    gives it again (other strings may be rewritten as valid UTF-8). *)
Class TokenJSON := {
  Marshal : token → option string;
  Unmarshal : string → option token;
  Marshal_roundtrip t :
    ascii_only (After t) = true → ascii_only (Scope t) = true →
    ∃ b, Marshal t = Some b ∧ b ≠ "" ∧ Unmarshal b = Some t
}.

Section paging.
Context `{TokenJSON}.

Definition EncodeToken (scope after : string) : string :=
  match Marshal (mkToken after scope) with
  | None => ""
  | Some b => base64.EncodeToString b
  end.

Definition DecodeToken (scope s : string) : res error string :=
  if bool_decide (s = "") then Ok "" else
  match base64.DecodeString s with
  | None => Err invalid_token
  | Some b =>
      match Unmarshal b with
      | None => Err invalid_token
      | Some t => if bool_decide (Scope t = scope) then Ok (After t) else Err invalid_token
      end
  end.

Definition ClampPageSize (requested : Z) : Z :=
  if (requested <=? 0)%Z then DefaultPageSize
  else if (MaxPageSize <? requested)%Z then MaxPageSize
  else requested.

(** ** Pages *)

Definition Page (scope : string) (keys : list string) (pageToken : string) (pageSize : Z) :
    res error (list string * string) :=
  after ← DecodeToken scope pageToken;
  let size := Z.to_nat (ClampPageSize pageSize) in
  let sorted := sort_strings keys in
  let start :=
    if bool_decide (after = "") then O
    else let start := sort.SearchStrings sorted after in
         if (start <? length sorted)%nat && bool_decide (sorted !! start = Some after)
         then S start else start in
  if (length sorted <=? start)%nat then Ok ([], "") else
  let stop := if (length sorted <? start + size)%nat then length sorted else (start + size)%nat in
  let page := take (stop - start) (drop start sorted) in
  let nextToken := if (stop <? length sorted)%nat then EncodeToken scope (default "" (last page)) else "" in
  Ok (page, nextToken).

Lemma ClampPageSize_range n : (1 ≤ ClampPageSize n ≤ MaxPageSize)%Z.
Proof. unfold ClampPageSize, DefaultPageSize, MaxPageSize. repeat case_match; bool_prop; lia. Qed.

Lemma EncodeToken_nonempty scope after :
  ascii_only after = true → ascii_only scope = true → EncodeToken scope after ≠ "".
Proof.
  intros Ha Hs. unfold EncodeToken.
  destruct (Marshal_roundtrip (mkToken after scope) Ha Hs) as (b & -> & Hb & _).
  by apply base64.EncodeToString_nonempty.
Qed.

Lemma DecodeToken_EncodeToken scope scope' after :
  ascii_only after = true → ascii_only scope = true →
  DecodeToken scope' (EncodeToken scope after) =
    if decide (scope = scope') then Ok after else Err invalid_token.
Proof.
  intros Ha Hs. unfold DecodeToken. rewrite bool_decide_false by by apply EncodeToken_nonempty.
  unfold EncodeToken.
  destruct (Marshal_roundtrip (mkToken after scope) Ha Hs) as (b & -> & Hb & Hu).
  rewrite base64.Decode_Encode, Hu. simpl. by repeat case_decide; case_bool_decide.
Qed.

(** ** What a page holds *)

(** The keys a listing resumes with: all of them, or those strictly after the
    cursor. *)
Definition beyond (after k : string) : Prop := after = "" ∨ (String.le after k ∧ after ≠ k).

Global Instance beyond_dec after k : Decision (beyond after k).
Proof. apply _. Defined.

Definition remaining (keys : list string) (after : string) : list string :=
  filter (beyond after) (sort_strings keys).

Lemma filter_all {A} (P : A → Prop) `{∀ x, Decision (P x)} l : Forall P l → filter P l = l.
Proof. induction 1; [done|]. by rewrite filter_cons_True, IHForall. Qed.

Lemma filter_none {A} (P : A → Prop) `{∀ x, Decision (P x)} l : Forall (λ x, ¬ P x) l → filter P l = [].
Proof. induction 1; [done|]. by rewrite filter_cons_False. Qed.

(** A list split where [P] starts to hold is split by the filter. *)
Lemma filter_suffix {A} (P : A → Prop) `{∀ x, Decision (P x)} n l :
  Forall (λ x, ¬ P x) (take n l) → Forall P (drop n l) → filter P l = drop n l.
Proof.
  intros H1 H2. rewrite <- (take_drop n l) at 1.
  by rewrite filter_app, filter_none, filter_all.
Qed.

Lemma Forall_take_lookup {A} (P : A → Prop) n (l : list A) :
  (∀ i x, (i < n)%nat → l !! i = Some x → P x) → Forall P (take n l).
Proof.
  intros H'. apply Forall_lookup. intros i x Hi. apply lookup_take_Some in Hi as [??]. eauto.
Qed.

Lemma Forall_drop_lookup {A} (P : A → Prop) n (l : list A) :
  (∀ i x, (n ≤ i)%nat → l !! i = Some x → P x) → Forall P (drop n l).
Proof.
  intros H'. apply Forall_lookup. intros i x Hi. rewrite lookup_drop in Hi. eapply H'; [|done]. lia.
Qed.

(** The start index computed by the binary search. *)
Lemma start_spec sorted after :
  StronglySorted String.le sorted → NoDup sorted → after ≠ "" →
  let start := sort.SearchStrings sorted after in
  drop (if (start <? length sorted)%nat && bool_decide (sorted !! start = Some after) then S start else start) sorted
  = filter (beyond after) sorted.
Proof.
  intros Hs Hnd Ha start. destruct (sort.SearchStrings_spec sorted after Hs) as (Hle & Hlt & Hge).
  fold start in Hle, Hlt, Hge. symmetry.
  destruct ((start <? length sorted)%nat && bool_decide (sorted !! start = Some after)) eqn:Heq;
    apply filter_suffix.
  - bool_prop. apply Forall_take_lookup. intros i x Hi Hx [|[??]]; [done|].
    destruct (decide (i = start)) as [->|]; [congruence|]. eapply (Hlt i); eauto. lia.
  - bool_prop. apply Forall_drop_lookup. intros i x Hi Hx. right. split; [eapply (Hge i); [lia|done]|].
    intros ->. assert (start = i); [by eapply NoDup_lookup|lia].
  - apply Forall_take_lookup. intros i x Hi Hx [|[??]]; [done|]. by eapply (Hlt i).
  - apply Forall_drop_lookup. intros i x Hi Hx. right. split; [by eapply (Hge i)|]. intros ->.
    assert (sorted !! start = Some x) as Hst.
    { assert (start < length sorted)%nat as [y Hy]%lookup_lt_is_Some by (apply lookup_lt_Some in Hx; lia).
      rewrite Hy. f_equal. apply (anti_symm String.le).
      - by apply (sort.sorted_lookup_le sorted start i).
      - by eapply (Hge start). }
    rewrite Hst, bool_decide_true, andb_true_r in Heq by done.
    apply Nat.ltb_ge in Heq. apply lookup_lt_Some in Hst. lia.
Qed.

Lemma Page_length scope keys tok n page next :
  Page scope keys tok n = Ok (page, next) → (length page ≤ Z.to_nat MaxPageSize)%nat.
Proof.
  unfold Page. intros (after & _ & HP)%res_bind_ok. pose proof (ClampPageSize_range n).
  destruct (_ <=? _)%nat in HP; [by simplify_eq/=; lia|].
  injection HP as <- _. rewrite length_take.
  match goal with |- context [if (?l <? ?m)%nat then _ else _] => destruct (Nat.ltb_spec l m) end; lia.
Qed.

(** A page is the first [size] of the remaining keys, and there is a next
    token exactly when some remain after it. *)
Lemma Page_spec scope keys tok after n :
  NoDup keys → DecodeToken scope tok = Ok after →
  let size := Z.to_nat (ClampPageSize n) in
  Page scope keys tok n =
    Ok (take size (remaining keys after),
        if decide (length (remaining keys after) ≤ size)%nat then ""
        else EncodeToken scope (default "" (last (take size (remaining keys after))))).
Proof.
  intros Hnd Htok size. unfold Page. rewrite Htok. cbn [mbind res_bind].
  set (start := if bool_decide (after = "") then O else _).
  assert (drop start (sort_strings keys) = remaining keys after) as Hdrop.
  { unfold start, remaining. case_bool_decide as Ha.
    - rewrite drop_0, filter_all; [done|]. apply Forall_forall. by left.
    - apply start_spec; [apply sort_strings_sorted|by rewrite sort_strings_perm|done]. }
  assert (length (remaining keys after) = length (sort_strings keys) - start)%nat as Hlen
    by by rewrite <- Hdrop, length_drop.
  pose proof (ClampPageSize_range n) as Hsz. fold size.
  destruct (Nat.leb_spec (length (sort_strings keys)) start).
  - rewrite decide_True by lia. destruct (remaining keys after); [by rewrite take_nil|simpl in *; lia].
  - rewrite Hdrop. destruct (Nat.ltb_spec (length (sort_strings keys)) (start + size)).
    + rewrite Nat.ltb_irrefl, decide_True by lia. rewrite !take_ge by lia. done.
    + replace (start + size - start)%nat with size by lia. f_equal. f_equal.
      destruct (Nat.ltb_spec (start + size) (length (sort_strings keys))); case_decide; (done || lia).
Qed.

Lemma elem_of_remaining keys after k : k ∈ remaining keys after ↔ k ∈ keys ∧ beyond after k.
Proof. unfold remaining. rewrite list_elem_of_filter, sort_strings_elem. naive_solver. Qed.

Lemma remaining_sorted keys after : StronglySorted String.le (remaining keys after).
Proof. apply StronglySorted_filter, sort_strings_sorted. Qed.

Lemma remaining_NoDup keys after : NoDup keys → NoDup (remaining keys after).
Proof. intros. unfold remaining. apply list.NoDup_filter. by rewrite sort_strings_perm. Qed.

(** A client's walk over a listing: one [Page] call per snapshot of the keys,
    until there is no next token.  [true] means the listing ended. *)
Fixpoint walk (scope : string) (snaps : list (list string)) (tok : string) (n : Z) :
    res error (list (list string) * bool) :=
  match snaps with
  | [] => Ok ([], false)
  | keys :: rest =>
      '(page, next) ← Page scope keys tok n;
      if bool_decide (next = "") then Ok ([page], true)
      else '(pages, fin) ← walk scope rest next n; Ok (page :: pages, fin)
  end.

(** The keys of a listing: distinct, non-empty, ASCII. *)
Definition good_keys (keys : list string) : Prop :=
  NoDup keys ∧ "" ∉ keys ∧ Forall (λ k, ascii_only k = true) keys.

(** The cursor of a non-final page splits the remaining keys. *)
Lemma page_cut rem size c :
  StronglySorted String.le rem → NoDup rem → (size < length rem)%nat → last (take size rem) = Some c →
  (∀ k, k ∈ take size rem → ¬ (String.le c k ∧ c ≠ k)) ∧
  (∀ k, k ∈ drop size rem → String.le c k ∧ c ≠ k).
Proof.
  intros Hs Hnd Hlen Hc. rewrite last_lookup, length_take in Hc.
  assert (rem !! (size - 1) = Some c ∧ (0 < size)%nat) as [Hc' Hpos].
  { apply lookup_take_Some in Hc as [Hc ?]. split; [|lia]. rewrite <- Hc. f_equal. lia. }
  split; intros k Hk; apply list_elem_of_lookup_1 in Hk as [i Hi].
  - apply lookup_take_Some in Hi as [Hi ?]. intros [Hle Hne]. apply Hne.
    apply (anti_symm String.le); [done|]. eapply (sort.sorted_lookup_le rem i (size - 1)); eauto. lia.
  - rewrite lookup_drop in Hi. split.
    + eapply (sort.sorted_lookup_le rem (size - 1) (size + i)); eauto. lia.
    + intros ->. assert (size - 1 = size + i)%nat; [by eapply NoDup_lookup|lia].
Qed.

(** One step of a walk: the page, and either the end or the cursor it stops at. *)
Lemma Page_step scope keys tok after n page next :
  good_keys keys → ascii_only scope = true → DecodeToken scope tok = Ok after →
  Page scope keys tok n = Ok (page, next) →
  let rem := remaining keys after in let size := Z.to_nat (ClampPageSize n) in
  page = take size rem ∧
  ((next = "" ∧ (length rem ≤ size)%nat) ∨
   (∃ c, next ≠ "" ∧ DecodeToken scope next = Ok c ∧ c ≠ "" ∧ (size < length rem)%nat ∧
         last (take size rem) = Some c)).
Proof.
  intros (Hnd & Hne & Hasc) Hsc Htok HP rem size. rewrite (Page_spec _ _ _ after) in HP by done.
  fold size rem in HP. injection HP as <- <-. split; [done|].
  case_decide as Hlen; [by left|right].
  pose proof (ClampPageSize_range n).
  destruct (last (take size rem)) as [c|] eqn:Hc.
  2: { apply last_None in Hc. apply (f_equal length) in Hc. rewrite length_take in Hc. simpl in Hc.
       unfold size in *. lia. }
  exists c. simpl.
  assert (c ∈ keys) as Hk.
  { rewrite last_lookup in Hc. apply list_elem_of_lookup_2, elem_of_take in Hc as (i & Hi & _).
    by apply list_elem_of_lookup_2, elem_of_remaining in Hi as [? _]. }
  rewrite Forall_forall in Hasc.
  rewrite DecodeToken_EncodeToken, decide_True by auto.
  repeat split; [apply EncodeToken_nonempty; auto|by intros ->|lia].
Qed.

Lemma walk_spec scope snaps tok after n pages :
  Forall good_keys snaps → ascii_only scope = true → DecodeToken scope tok = Ok after →
  walk scope snaps tok n = Ok (pages, true) →
  NoDup (concat pages) ∧ (∀ k, k ∈ concat pages → beyond after k) ∧
  (∀ k, beyond after k → (∀ keys, keys ∈ snaps → k ∈ keys) → k ∈ concat pages).
Proof.
  intros Hg Hsc. revert tok after pages. induction Hg as [|keys rest Hkeys Hg IH]; intros tok after pages Htok; [done|].
  cbn [walk]. intros ([page next] & HP & Hw)%res_bind_ok.
  destruct (Page_step _ _ _ _ _ _ _ Hkeys Hsc Htok HP) as [Hpage Hnext].
  set (rem := remaining keys after) in *. set (size := Z.to_nat (ClampPageSize n)) in *.
  assert (NoDup rem) as Hrem by apply remaining_NoDup, Hkeys.
  pose proof (remaining_sorted keys after) as Hsort. fold rem in Hsort.
  assert (NoDup page) as Hpd.
  { rewrite Hpage. rewrite <- (take_drop size rem) in Hrem. by apply NoDup_app in Hrem as [? _]. }
  assert (∀ k, k ∈ page → k ∈ rem) as Hin.
  { rewrite Hpage. intros k. rewrite <- (take_drop size rem) at 2. rewrite elem_of_app. by left. }
  destruct Hnext as [[-> Hlen]|(c & Hne & Hdec & Hc0 & Hlen & Hlast)].
  - rewrite bool_decide_true in Hw by done. simplify_eq. cbn [concat]. rewrite List.app_nil_r.
    rewrite take_ge by done. split; [done|]. split.
    + by intros k [_ ?]%elem_of_remaining.
    + intros k Hk Hall. apply elem_of_remaining. split; [apply Hall; left|done].
  - rewrite bool_decide_false in Hw by done. apply res_bind_ok in Hw as ([ps fin] & Hw & [= <- ->]).
    destruct (IH next c ps Hdec Hw) as (Hnd & Hbey & Hall).
    destruct (page_cut rem size c Hsort Hrem Hlen Hlast) as [Hlow Hhigh]. rewrite <- Hpage in Hlow.
    assert (beyond after c) as Hac.
    { eapply elem_of_remaining, Hin. rewrite Hpage. rewrite last_lookup in Hlast. by apply list_elem_of_lookup_2 in Hlast. }
    cbn [concat]. split; [|split].
    + apply NoDup_app. split; [done|]. split; [|done]. intros k Hk Hk'.
      destruct (Hbey k Hk') as [->|]; [done|]. by apply (Hlow k).
    + intros k [Hk|Hk]%elem_of_app; [by apply Hin, elem_of_remaining in Hk as [_ ?]|].
      destruct (Hbey k Hk) as [->|[Hck Hck']]; [done|]. destruct Hac as [->|[Hac Hac']]; [by left|right].
      split; [by transitivity c|]. intros ->. apply Hck'. by apply (anti_symm String.le).
    + intros k Hk Hks. apply elem_of_app.
      assert (k ∈ rem) as Hkr by (apply elem_of_remaining; split; [apply Hks; left|done]).
      rewrite <- (take_drop size rem), elem_of_app, <- Hpage in Hkr. destruct Hkr as [?|Hd]; [by left|right].
      apply Hall; [right; by apply Hhigh|]. intros ks Hks'. apply Hks. by right.
Qed.

(** With the keys unchanged, the cursor drops exactly the page. *)
Lemma remaining_after_page keys after size c :
  NoDup keys → (size < length (remaining keys after))%nat → c ≠ "" →
  last (take size (remaining keys after)) = Some c →
  remaining keys c = drop size (remaining keys after).
Proof.
  intros Hnd Hlen Hc Hlast.
  destruct (page_cut (remaining keys after) size c) as [Hlow Hhigh];
    [apply remaining_sorted|by apply remaining_NoDup|done|done|].
  apply (StronglySorted_unique String.le); [apply remaining_sorted| |].
  - pose proof (remaining_sorted keys after) as Hs.
    rewrite <- (take_drop size (remaining keys after)) in Hs. by apply StronglySorted_app_1_r in Hs.
  - apply NoDup_Permutation; [by apply remaining_NoDup| |].
    { pose proof (remaining_NoDup keys after Hnd) as Hr.
      rewrite <- (take_drop size (remaining keys after)) in Hr. by apply NoDup_app in Hr as (_ & _ & ?). }
    intros k. rewrite elem_of_remaining. split.
    + intros [Hk [->|Hck]]; [done|].
      assert (k ∈ remaining keys after) as Hkr.
      { apply elem_of_remaining. split; [done|].
        assert (c ∈ remaining keys after) as [_ [->|[Hac Hac']]]%elem_of_remaining; [|by left|].
        { rewrite last_lookup in Hlast. apply list_elem_of_lookup_2, elem_of_take in Hlast as (i & Hi & _).
          by apply list_elem_of_lookup_2 in Hi. }
        destruct Hck as [Hck Hck']. right. split; [by transitivity c|]. intros ->. apply Hck'.
        by apply (anti_symm String.le). }
      rewrite <- (take_drop size (remaining keys after)), elem_of_app in Hkr.
      destruct Hkr as [Ht|?]; [|done]. by destruct (Hlow k Ht).
    + intros Hk. split; [|right; by apply Hhigh].
      assert (k ∈ remaining keys after) as [? _]%elem_of_remaining; [|done].
      rewrite <- (take_drop size (remaining keys after)). apply elem_of_app. by right.
Qed.

Lemma walk_complete scope keys n fuel tok after :
  good_keys keys → ascii_only scope = true → DecodeToken scope tok = Ok after →
  (length (remaining keys after) < fuel)%nat →
  ∃ pages, walk scope (replicate fuel keys) tok n = Ok (pages, true) ∧ concat pages = remaining keys after.
Proof.
  intros Hg Hsc. revert tok after. induction fuel as [|fuel IH]; intros tok after Htok Hf; [lia|].
  destruct (Page scope keys tok n) as [[page next]|e] eqn:HP.
  2: { rewrite (Page_spec _ _ _ after) in HP; [done|apply Hg|done]. }
  destruct (Page_step _ _ _ _ _ _ _ Hg Hsc Htok HP) as [Hpage Hnext].
  cbn [walk replicate]. rewrite HP. cbn [mbind res_bind].
  destruct Hnext as [[-> Hlen]|(c & Hne & Hdec & Hc0 & Hlen & Hlast)].
  - rewrite bool_decide_true by done. exists [page]. split; [done|].
    cbn [concat]. by rewrite List.app_nil_r, Hpage, take_ge.
  - rewrite bool_decide_false by done.
    pose proof (remaining_after_page keys after _ c (proj1 Hg) Hlen Hc0 Hlast) as Hrem.
    pose proof (ClampPageSize_range n).
    destruct (IH next c Hdec) as (ps & -> & Hps); [rewrite Hrem, length_drop; lia|].
    exists (page :: ps). split; [done|]. cbn [concat]. rewrite Hps, Hpage, Hrem. apply take_drop.
Qed.

(** A listing whose keys do not change returns every key exactly once, in
    sorted order, whatever the page size, and it ends: one call more than
    there are keys is always enough. *)
Theorem listing_complete scope keys n :
  good_keys keys → ascii_only scope = true →
  ∃ pages, walk scope (replicate (S (length keys)) keys) "" n = Ok (pages, true) ∧
           concat pages = sort_strings keys ∧
           Forall (λ page, (length page ≤ Z.to_nat MaxPageSize)%nat) pages.
Proof.
  intros Hg Hsc.
  assert (remaining keys "" = sort_strings keys) as Hall.
  { apply filter_all, Forall_forall. by left. }
  destruct (walk_complete scope keys n (S (length keys)) "" "") as (pages & Hw & Hc); [done..| |].
  { rewrite Hall, sort_strings_perm. lia. }
  exists pages. rewrite Hc. split; [done|]. split; [done|]. clear Hc.
  revert Hw. generalize (replicate (S (length keys)) keys) as snaps. generalize "" as tok. intros tok snaps.
  revert tok pages. induction snaps as [|ks snaps IH]; intros tok pages; [done|]. cbn [walk].
  intros ([page next] & HP & Hw)%res_bind_ok.
  assert (length page ≤ Z.to_nat MaxPageSize)%nat as Hlen.
  { by eapply Page_length. }
  case_bool_decide; [by simplify_eq; apply Forall_singleton|].
  apply res_bind_ok in Hw as ([ps fin] & Hw & [= <- ->]). constructor; eauto.
Qed.

(** A listing whose keys change between its pages still returns no key
    twice, and returns every key that was there at each of its calls: a
    deleted cursor neither restarts the listing nor skips its successors. *)
Theorem listing_stable scope snaps n pages :
  Forall good_keys snaps → ascii_only scope = true →
  walk scope snaps "" n = Ok (pages, true) →
  NoDup (concat pages) ∧ (∀ k, (∀ keys, keys ∈ snaps → k ∈ keys) → k ∈ concat pages).
Proof.
  intros Hg Hsc Hw. destruct (walk_spec scope snaps "" "" n pages Hg Hsc eq_refl Hw) as (? & _ & Hall).
  split; [done|]. intros k Hk. apply Hall; [by left|done].
Qed.

(** A token is only good for the listing it came from: it decodes to its
    cursor under its own scope and is refused, never silently misapplied,
    under any other. *)
Theorem token_bound_to_scope scope scope' after :
  ascii_only after = true → ascii_only scope = true →
  DecodeToken scope (EncodeToken scope after) = Ok after ∧
  (scope' ≠ scope → DecodeToken scope' (EncodeToken scope after) = Err invalid_token).
Proof.
  intros Ha Hs. split; [by rewrite DecodeToken_EncodeToken, decide_True|].
  intros Hne. by rewrite DecodeToken_EncodeToken, decide_False.
Qed.

End paging.

(** ** A concrete encoding of tokens, for the witnesses

    The length of [After] in unary, a separator, then both strings. *)

Module Example.

Fixpoint ones (n : nat) : string := match n with O => "0" | S n => String "1" (ones n) end.

Fixpoint read_ones (s : string) : option (nat * string) :=
  match s with
  | String "0" r => Some (O, r)
  | String "1" r => '(n, t) ← read_ones r; Some (S n, t)
  | _ => None
  end.

Definition marshal (t : token) : option string :=
  Some (ones (String.length (After t)) +:+ After t +:+ Scope t).

Definition unmarshal (b : string) : option token :=
  '(n, r) ← read_ones b; Some (mkToken (take_bytes n r) (drop_bytes n r)).

Lemma read_ones_app n s : read_ones (ones n +:+ s) = Some (n, s).
Proof. induction n as [|n IH]; [done|]. cbn [ones]. rewrite app_cons. cbn. by rewrite IH. Qed.

Lemma split_app s t :
  take_bytes (String.length s) (s +:+ t) = s ∧ drop_bytes (String.length s) (s +:+ t) = t.
Proof. induction s as [|a s [IH1 IH2]]; [by destruct t|]. rewrite app_cons. cbn. by rewrite IH1, IH2. Qed.

#[refine] Instance example_json : TokenJSON := {| Marshal := marshal; Unmarshal := unmarshal |}.
Proof.
  intros [a s] _ _. eexists. split; [done|]. simpl. split.
  - by destruct (String.length a).
  - unfold unmarshal. rewrite read_ones_app. simpl. by destruct (split_app a s) as [-> ->].
Defined.

Lemma good_keys_dec_example : good_keys ["b"; "a"; "c"] ∧ good_keys ["a"; "c"; "d"].
Proof. unfold good_keys. split; (split; [solve_NoDup|]); (split; [set_solver|repeat constructor]). Qed.

Lemma listing_complete_witness :
  ∃ pages, walk "queues" (replicate 4 ["b"; "a"; "c"]) "" 2 = Ok (pages, true) ∧
           concat pages = sort_strings ["b"; "a"; "c"] ∧
           Forall (λ page, (length page ≤ Z.to_nat MaxPageSize)%nat) pages.
Proof. apply (listing_complete "queues" ["b"; "a"; "c"] 2); [apply good_keys_dec_example|reflexivity]. Defined.

(** The cursor "b" is deleted before the second page. *)
Lemma listing_stable_witness :
  NoDup (concat [["a"; "b"]; ["c"; "d"]]) ∧
  (∀ k, (∀ keys, keys ∈ [["b"; "a"; "c"]; ["a"; "c"; "d"]] → k ∈ keys) → k ∈ concat [["a"; "b"]; ["c"; "d"]]).
Proof.
  apply (listing_stable "queues" [["b"; "a"; "c"]; ["a"; "c"; "d"]] 2).
  - by repeat (apply Forall_cons; split; [apply good_keys_dec_example|]).
  - reflexivity.
  - vm_compute. reflexivity.
Defined.

Lemma token_bound_to_scope_witness :
  DecodeToken "queues" (EncodeToken "queues" "a") = Ok "a" ∧
  ("tasks" ≠ "queues" → DecodeToken "tasks" (EncodeToken "queues" "a") = Err invalid_token).
Proof. apply token_bound_to_scope; reflexivity. Defined.

End Example.
