(* ===== verification/Lro.v ===== *)
(** * internal/lro: long-running operations

    The in-process table of operations and its state machine.  Responses and
    metadata ([any] in the code) are type parameters; a clock reading is an
    argument of the operation that takes it. *)

From S2P Require Import Prelude GoLib ApiError.
From Stdlib Require Import Ascii.

Import strings time.

Definition ErrNotFound : error := Sentinel "operation not found".

Inductive State := StatePending | StateSucceeded | StateFailed.

Definition State_String (s : State) : string :=
  match s with
  | StatePending => "pending"
  | StateSucceeded => "succeeded"
  | StateFailed => "failed"
  end.

(** [fmt.Errorf("operation %s is already %s", name, op.State)], which wraps
    no sentinel. *)
Definition already (name : string) (s : State) : error :=
  Sentinel ("operation " +:+ name +:+ " is already " +:+ State_String s).

#[global] Instance State_eq_dec : EqDecision State.
Proof. solve_decision. Defined.

Section lro.
Context {R M : Type}.

Record Operation := mkOperation {
  Name : string;
  Target : string;
  OpState : State;
  OpError : option error;
  Response : option R;
  Metadata : option M;
  Created : Time;
  Updated : Time
}.

Definition Done (o : Operation) : bool := negb (bool_decide (OpState o = StatePending)).

Record Store := mkStore { ops : gmap string Operation; seq : Z }.

Definition NewStore : Store := mkStore ∅ 0.

Definition pending (name target : string) (created updated : Time) : Operation :=
  mkOperation name target StatePending None None None created updated.

(** [fmt.Sprintf("%s/operations/op-%d", parent, s.seq)] *)
Definition op_name (parent : string) (n : Z) : string :=
  parent +:+ "/operations/op-" +:+ strconv.Itoa n.

Definition Create (s : Store) (parent target : string) (now1 now2 : Time) : Store * Operation :=
  let n := (seq s + 1)%Z in
  let name := op_name parent n in
  let op := pending name target now1 now2 in
  (mkStore (<[name := op]> (ops s)) n, op).

Definition CreateNamed (s : Store) (name target : string) (now1 now2 : Time) : Store * Operation :=
  let op := pending name target now1 now2 in
  (mkStore (<[name := op]> (ops s)) (seq s), op).

Definition finish (s : Store) (name : string) (state : State) (response : option R)
    (cause : option error) (now : Time) : Store * res error unit :=
  match ops s !! name with
  | None => (s, Err (Wrapped ErrNotFound))
  | Some op =>
      if Done op then (s, Err (already name (OpState op)))
      else (mkStore (<[name := mkOperation (Name op) (Target op) state cause response (Metadata op)
                                 (Created op) now]> (ops s)) (seq s), Ok tt)
  end.

Definition Succeed (s : Store) (name : string) (response : option R) (now : Time) :=
  finish s name StateSucceeded response None now.

Definition Fail_ (s : Store) (name : string) (cause : option error) (now : Time) :=
  finish s name StateFailed None cause now.

Definition SetMetadata (s : Store) (name : string) (metadata : option M) (now : Time) : Store * res error unit :=
  match ops s !! name with
  | None => (s, Err (Wrapped ErrNotFound))
  | Some op =>
      (mkStore (<[name := mkOperation (Name op) (Target op) (OpState op) (OpError op) (Response op)
                            metadata (Created op) now]> (ops s)) (seq s), Ok tt)
  end.

Definition Get (s : Store) (name : string) : res error Operation :=
  match ops s !! name with
  | None => Err (Wrapped ErrNotFound)
  | Some op => Ok op
  end.

Definition Delete (s : Store) (name : string) : Store * res error unit :=
  match ops s !! name with
  | None => (s, Err (Wrapped ErrNotFound))
  | Some _ => (mkStore (delete name (ops s)) (seq s), Ok tt)
  end.

(** [parent == "" || len(name) > len(parent) && name[:len(parent)] == parent] *)
Definition under (parent name : string) : bool :=
  bool_decide (parent = "") ||
  ((String.length parent <? String.length name)%nat && HasPrefix name parent).

(** The inner loop of [List] for a fixed [i]: [x] is [out[i]], the list what
    follows it; every smaller element met is exchanged with it. *)
Fixpoint pass (x : Operation) (rest : list Operation) : Operation * list Operation :=
  match rest with
  | [] => (x, [])
  | y :: r =>
      if String.ltb (Name y) (Name x)
      then let '(m, r') := pass y r in (m, x :: r')
      else let '(m, r') := pass x r in (m, y :: r')
  end.

(** The outer loop; [fuel] is the length of the slice, which it decreases by
    one each time round. *)
Fixpoint exchange_sort (fuel : nat) (l : list Operation) : list Operation :=
  match fuel, l with
  | S n, x :: rest => let '(m, r) := pass x rest in m :: exchange_sort n r
  | _, _ => l
  end.

(** [List] on one order in which the map may be ranged over. *)
Definition list_in_order (order : list (string * Operation)) (parent : string) : list Operation :=
  let out := (filter (λ p : string * Operation, under parent p.1 = true) order).*2 in
  exchange_sort (length out) out.

Definition List (s : Store) (parent : string) : list Operation :=
  list_in_order (map_to_list (ops s)) parent.

(** ** Sorting *)

Abbreviation name_le := (key_le Name).

Lemma ltb_false x y : String.ltb y x = false → String.le x y.
Proof.
  intros H. destruct (total String.le x y) as [|Hyx]; [done|].
  apply sort.leb_le. apply sort.leb_le in Hyx. unfold String.leb, String.ltb in *.
  rewrite String.compare_antisym. by destruct (String.compare y x).
Qed.

Lemma ltb_true x y : String.ltb y x = true → String.le y x.
Proof. intros H. apply sort.leb_le. unfold String.leb, String.ltb in *. by destruct (String.compare y x). Qed.

Lemma pass_spec x rest m r :
  pass x rest = (m, r) → m :: r ≡ₚ x :: rest ∧ Forall (name_le m) r ∧ length r = length rest ∧ name_le m x.
Proof.
  revert x m r. induction rest as [|y rest IH]; intros x m r; simpl.
  { intros [= <- <-]. split; [done|]. split; [done|]. split; [done|]. unfold key_le. reflexivity. }
  destruct (String.ltb (Name y) (Name x)) eqn:Hlt.
  - destruct (pass y rest) as [m' r'] eqn:Hp. intros [= -> <-].
    destruct (IH _ _ _ Hp) as (Hperm & Hall & Hlen & Hle).
    assert (name_le m x) as Hmx by (transitivity y; [done|by apply ltb_true]).
    split; [|split; [by constructor|split; [simpl; lia|done]]].
    rewrite (Permutation_swap x m r'), Hperm. done.
  - destruct (pass x rest) as [m' r'] eqn:Hp. intros [= -> <-].
    destruct (IH _ _ _ Hp) as (Hperm & Hall & Hlen & Hle).
    split; [|split; [constructor; [|done]|split; [simpl; lia|done]]].
    + rewrite (Permutation_swap y m r'), Hperm. apply Permutation_swap.
    + transitivity x; [done|by apply ltb_false].
Qed.

Lemma exchange_sort_spec n l :
  (length l ≤ n)%nat → exchange_sort n l ≡ₚ l ∧ StronglySorted name_le (exchange_sort n l).
Proof.
  revert l. induction n as [|n IH]; intros [|x l] Hn; simpl in *; [..|].
  1, 3: split; [done|apply SSorted_nil].
  { lia. }
  destruct (pass x l) as [m r] eqn:Hp. destruct (pass_spec _ _ _ _ Hp) as (Hperm & Hall & Hlen & _).
  destruct (IH r) as [Hr Hs]; [lia|]. split; [by rewrite Hr|].
  constructor; [done|]. by rewrite Hr.
Qed.

(** ** Invariant *)

(** Every operation is filed under its own name. *)
Definition wf (s : Store) : Prop := ∀ k o, ops s !! k = Some o → Name o = k.

Lemma map_names (s : Store) order :
  wf s → order ≡ₚ map_to_list (ops s) → Name <$> order.*2 = order.*1.
Proof.
  intros Hwf Hp. rewrite <- list_fmap_compose. apply list_fmap_ext.
  intros i [k o] Hi. simpl. apply Hwf. apply elem_of_map_to_list. rewrite <- Hp.
  by apply list_elem_of_lookup_2 in Hi.
Qed.

Lemma list_in_order_spec s order parent :
  wf s → order ≡ₚ map_to_list (ops s) →
  StronglySorted name_le (list_in_order order parent) ∧
  NoDup (Name <$> list_in_order order parent) ∧
  (∀ o, o ∈ list_in_order order parent ↔ ops s !! Name o = Some o ∧ under parent (Name o) = true).
Proof.
  intros Hwf Hp. unfold list_in_order. set (sel := filter _ order).
  destruct (exchange_sort_spec (length sel.*2) sel.*2 ltac:(done)) as [Hperm Hsort].
  split; [done|]. split.
  - rewrite Hperm. rewrite <- list_fmap_compose.
    assert ((Name ∘ snd) <$> sel = sel.*1) as ->.
    { apply list_fmap_ext. intros i [k o] Hi. simpl. apply Hwf.
      apply list_elem_of_lookup_2, list_elem_of_filter in Hi as [_ Hi].
      rewrite Hp in Hi. by apply elem_of_map_to_list. }
    unfold sel. apply NoDup_fst_filter. rewrite Hp. apply NoDup_fst_map_to_list.
  - intros o. rewrite Hperm, list_elem_of_fmap. split.
    + intros ([k o'] & -> & [Hu Ho]%list_elem_of_filter). simpl in *. rewrite Hp in Ho.
      apply elem_of_map_to_list in Ho. by rewrite (Hwf k o' Ho).
    + intros [Ho Hu]. exists (Name o, o). split; [done|]. apply list_elem_of_filter. split; [done|].
      rewrite Hp. by apply elem_of_map_to_list.
Qed.

(** ** Histories *)

Inductive event :=
| ECreate (parent target : string) (now1 now2 : Time)
| ECreateNamed (name target : string) (now1 now2 : Time)
| ESucceed (name : string) (response : option R) (now : Time)
| EFail (name : string) (cause : option error) (now : Time)
| ESetMetadata (name : string) (metadata : option M) (now : Time)
| EDelete (name : string).

Definition apply_event (s : Store) (e : event) : Store :=
  match e with
  | ECreate p t a b => (Create s p t a b).1
  | ECreateNamed n t a b => (CreateNamed s n t a b).1
  | ESucceed n r t => (Succeed s n r t).1
  | EFail n c t => (Fail_ s n c t).1
  | ESetMetadata n m t => (SetMetadata s n m t).1
  | EDelete n => (Delete s n).1
  end.

Definition run (s : Store) (es : list event) : Store := fold_left apply_event es s.

(** Caller-chosen names do not have the shape of the ones [Create] makes. *)
Definition own_name (e : event) : Prop :=
  match e with
  | ECreateNamed k _ _ _ => ∀ p n, k ≠ op_name p n
  | _ => True
  end.

(** The event neither deletes nor replaces [name]. *)
Definition spares (name : string) (e : event) : Prop :=
  match e with
  | ECreateNamed k _ _ _ | EDelete k => k ≠ name
  | _ => True
  end.

(** No name [Create] has yet to make is taken. *)
Definition fresh (s : Store) : Prop :=
  (0 ≤ seq s)%Z ∧ ∀ p n, (seq s < n)%Z → ops s !! op_name p n = None.

Lemma finish_cases s name st r c now :
  ops s !! name = None ∧ finish s name st r c now = (s, Err (Wrapped ErrNotFound)) ∨
  ∃ op, ops s !! name = Some op ∧
    ((Done op = true ∧ finish s name st r c now = (s, Err (already name (OpState op)))) ∨
     (Done op = false ∧ finish s name st r c now =
        (mkStore (<[name := mkOperation (Name op) (Target op) st c r (Metadata op) (Created op) now]> (ops s)) (seq s), Ok tt))).
Proof.
  unfold finish. destruct (ops s !! name) as [op|] eqn:Ho; [right|left]; [|done].
  exists op. split; [done|]. destruct (Done op); auto.
Qed.

Lemma wf_insert (m : gmap string Operation) n k o :
  wf (mkStore m n) → Name o = k → wf (mkStore (<[k := o]> m) n).
Proof.
  intros Hm Hk j o'. simpl. rewrite lookup_insert. case_decide as Hkj; [|by apply Hm].
  intros [= <-]. by rewrite Hk.
Qed.

Lemma wf_apply s e : wf s → wf (apply_event s e).
Proof.
  intros Hs. assert (∀ m, wf (mkStore (ops s) m)) as Hs' by (intros; exact Hs).
  destruct e; simpl; try (by apply wf_insert).
  - unfold Succeed. destruct (finish_cases s name StateSucceeded response None now)
      as [[_ ->]|(op & Ho & [[_ ->]|[_ ->]])]; [done..|]. apply wf_insert; [done|exact (Hs _ _ Ho)].
  - unfold Fail_. destruct (finish_cases s name StateFailed None cause now)
      as [[_ ->]|(op & Ho & [[_ ->]|[_ ->]])]; [done..|]. apply wf_insert; [done|exact (Hs _ _ Ho)].
  - unfold SetMetadata. destruct (ops s !! name) as [op|] eqn:Ho; [|done].
    apply wf_insert; [done|exact (Hs _ _ Ho)].
  - unfold Delete. destruct (ops s !! name) as [op|] eqn:Ho; [|done].
    intros k o. simpl. rewrite lookup_delete. case_decide; [done|apply Hs].
Qed.

Lemma wf_run s es : wf s → wf (run s es).
Proof. revert s. induction es as [|e es IH]; intros s Hs; [done|]. by apply IH, wf_apply. Qed.

(** The number is what follows the last '-'. *)
Lemma Itoa_free n : (0 < n)%Z → free_of "-"%char (strconv.Itoa n) = true.
Proof.
  intros Hn. destruct n as [|p|p]; [lia| |lia].
  unfold strconv.Itoa. cbn [Z.to_int DecimalString.NilZero.string_of_int].
  assert (∀ u, free_of "-"%char (DecimalString.NilEmpty.string_of_uint u) = true) as Hu.
  { induction u; done. }
  destruct (Pos.to_uint p); [done|..]; apply Hu.
Qed.

Lemma AfterLast_app (s t : string) : free_of "-"%char t = true → AfterLast (s +:+ String "-" t) "-"%char = t.
Proof.
  intros Ht. unfold AfterLast. induction s as [|a s IH].
  - change ("" +:+ String "-" t) with (String "-" t). simpl. by rewrite Split_free.
  - rewrite app_cons. simpl.
    pose proof (Split_nonempty (s +:+ String "-" t) "-"%char) as Hne.
    destruct (Split (s +:+ String "-" t) "-"%char) as [|h k] eqn:Hk; [done|].
    case_decide; [by rewrite <- IH|]. destruct k as [|h' k]; [|by rewrite <- IH].
    (* the separator is there, so there are at least two parts *)
    exfalso. pose proof (Split_parts_free (s +:+ String "-" t) "-"%char) as Hf.
    rewrite Hk in Hf. apply Forall_cons_1 in Hf as [Hf _].
    pose proof (Join_Split (s +:+ String "-" t) "-"%char) as HJ. rewrite Hk in HJ. change (h = s +:+ String "-" t) in HJ. rewrite HJ in Hf.
    change (AllBytes (λ a, negb (bool_decide (a = "-"%char))) (s +:+ String "-" t) = true) in Hf.
    rewrite AllBytes_app in Hf. bool_prop. by simpl in *.
Qed.

Lemma op_name_number p p' n n' :
  (0 < n)%Z → (0 < n')%Z → op_name p n = op_name p' n' → n = n'.
Proof.
  intros Hn Hn' H. apply strconv.Itoa_inj.
  rewrite <- (AfterLast_app (p +:+ "/operations/op") (strconv.Itoa n)) by by apply Itoa_free.
  rewrite <- (AfterLast_app (p' +:+ "/operations/op") (strconv.Itoa n')) by by apply Itoa_free.
  unfold op_name in H. rewrite !app_assoc. exact (f_equal (λ s, AfterLast s "-"%char) H).
Qed.

(** ** Freshness *)

Lemma fresh_create s p t a b : fresh s → fresh (Create s p t a b).1.
Proof.
  intros [H0 Hf]. split; simpl in *; [lia|]. intros q n Hn.
  rewrite lookup_insert_ne; [apply Hf; lia|].
  intros Heq%op_name_number; lia.
Qed.

(** Overwriting an operation that is there takes no new name. *)
Lemma fresh_update s name o o' :
  fresh s → ops s !! name = Some o → fresh (mkStore (<[name := o']> (ops s)) (seq s)).
Proof.
  intros [H0 Hf] Ho. split; [done|]. simpl. intros p n Hn.
  rewrite lookup_insert_ne; [by apply Hf|]. intros ->. rewrite Hf in Ho; [done|lia].
Qed.

Lemma fresh_apply s e : fresh s → own_name e → fresh (apply_event s e).
Proof.
  intros Hs He. destruct e; simpl.
  - by apply fresh_create.
  - destruct Hs as [H0 Hf]. split; [done|]. simpl. intros p n Hn.
    rewrite lookup_insert_ne; [by apply Hf|]. apply He.
  - unfold Succeed. destruct (finish_cases s name StateSucceeded response None now)
      as [[_ ->]|(op & Ho & [[_ ->]|[_ ->]])]; [done..|]. by eapply fresh_update.
  - unfold Fail_. destruct (finish_cases s name StateFailed None cause now)
      as [[_ ->]|(op & Ho & [[_ ->]|[_ ->]])]; [done..|]. by eapply fresh_update.
  - unfold SetMetadata. destruct (ops s !! name) as [op|] eqn:Ho; [|done]. by eapply fresh_update.
  - unfold Delete. destruct (ops s !! name) as [op|] eqn:Ho; [|done].
    destruct Hs as [H0 Hf]. split; [done|]. simpl. intros p n Hn.
    rewrite lookup_delete. case_decide; [done|by apply Hf].
Qed.

Lemma fresh_run s es : fresh s → Forall own_name es → fresh (run s es).
Proof.
  revert s. induction es as [|e es IH]; intros s Hs He; [done|].
  apply Forall_cons in He as [??]. by apply IH; [apply fresh_apply|].
Qed.

Lemma fresh_new : fresh NewStore.
Proof. split; done. Qed.

Lemma wf_new : wf NewStore.
Proof. intros k o. simpl. by rewrite lookup_empty. Qed.

(** ** Terminal states *)

(** What a poller sees of a finished operation: everything but the metadata
    and the update time. *)
Definition outcome (o : Operation) := (OpState o, OpError o, Response o, Target o, Created o).

Lemma outcome_finish s name st r c now k o :
  ops s !! k = Some o → Done o = true → ops (finish s name st r c now).1 !! k = Some o.
Proof.
  intros Ho Hd. destruct (finish_cases s name st r c now)
    as [[_ ->]|(op & Hop & [[_ ->]|[Hp ->]])]; [done..|].
  simpl. rewrite lookup_insert_ne; [done|]. intros ->. simplify_eq. by rewrite Hd in Hp.
Qed.

Lemma outcome_apply s e name o :
  fresh s → spares name e → ops s !! name = Some o → Done o = true →
  ∃ o', ops (apply_event s e) !! name = Some o' ∧ outcome o' = outcome o.
Proof.
  intros Hf He Ho Hd. destruct e as [p t a b|k t a b|k r now|k c now|k md now|k]; simpl in *.
  - exists o. split; [|done]. rewrite lookup_insert_ne; [done|].
    intros <-. rewrite (proj2 Hf) in Ho; [done|lia].
  - exists o. by rewrite lookup_insert_ne.
  - exists o. split; [|done]. by apply outcome_finish.
  - exists o. split; [|done]. by apply outcome_finish.
  - unfold SetMetadata. destruct (ops s !! k) as [ok|] eqn:Hk; simpl; [|by exists o].
    destruct (decide (k = name)) as [->|Hne].
    + simplify_eq. eexists. by rewrite lookup_insert_eq.
    + exists o. by rewrite lookup_insert_ne.
  - unfold Delete. destruct (ops s !! k) as [ok|] eqn:Hk; simpl; [|by exists o].
    exists o. by rewrite lookup_delete_ne.
Qed.

Lemma outcome_run s es name o :
  fresh s → Forall own_name es → Forall (spares name) es → ops s !! name = Some o → Done o = true →
  ∃ o', ops (run s es) !! name = Some o' ∧ outcome o' = outcome o.
Proof.
  revert s o. induction es as [|e es IH]; intros s o Hf Hown Hsp Ho Hd; [by exists o|].
  apply Forall_cons in Hown as [Hown1 Hown2]. apply Forall_cons in Hsp as [Hsp1 Hsp2].
  destruct (outcome_apply s e name o) as (o1 & Ho1 & Heq1); [done..|].
  destruct (IH (apply_event s e) o1) as (o2 & Ho2 & Heq2); [by apply fresh_apply|done..| |].
  - unfold outcome in Heq1. simplify_eq. unfold Done in *. by destruct o, o1; simplify_eq/=.
  - exists o2. split; [done|]. by rewrite Heq2.
Qed.

Lemma run_app s es es' : run s (es ++ es') = run (run s es) es'.
Proof. apply fold_left_app. Qed.

(** A terminal state is final.  Whatever sequence of operations follows
    (new operations, late or repeated outcomes, metadata), short of deleting the
    operation or re-registering its very name, a poller of an operation that was
    once done still reads the same state, error, response and target. *)
Theorem terminal_final before after name o :
  Forall own_name (before ++ after) → Forall (spares name) after →
  Get (run NewStore before) name = Ok o → Done o = true →
  ∃ o', Get (run NewStore (before ++ after)) name = Ok o' ∧ outcome o' = outcome o.
Proof.
  intros [Hb Ha]%Forall_app Hsp Hget Hd. rewrite run_app. unfold Get in *.
  destruct (ops (run NewStore before) !! name) as [o0|] eqn:Ho; simplify_eq.
  destruct (outcome_run (run NewStore before) after name o) as (o' & -> & Heq); [|done..|by exists o'].
  by apply fresh_run; [apply fresh_new|].
Qed.

(** [Create] never reuses a name: after any history, the operation it
    registers is new, is pending, is what [Get] returns for its name, and every
    other operation of the table is what it was. *)
Theorem create_unique es p t a b :
  Forall own_name es →
  let s := run NewStore es in
  let '(s', o) := Create s p t a b in
  Get s (Name o) = Err (Wrapped ErrNotFound) ∧ Get s' (Name o) = Ok o ∧ Done o = false ∧
  ∀ k, k ≠ Name o → Get s' k = Get s k.
Proof.
  intros Hes. simpl. destruct (fresh_run _ _ fresh_new Hes) as [H0 Hf].
  unfold Get. simpl. rewrite Hf by lia. rewrite lookup_insert_eq.
  split; [done|]. split; [done|]. split; [done|]. intros k Hk. by rewrite lookup_insert_ne.
Qed.

(** A listing is deterministic although the table is a Go map: in
    whatever order the map is ranged over, [List] returns the same slice, sorted
    by name and without repeats, holding exactly the operations whose name the
    parent is a proper prefix of (all of them for the empty parent). *)
Theorem list_deterministic es order parent :
  let s := run NewStore es in
  order ≡ₚ map_to_list (ops s) →
  list_in_order order parent = List s parent ∧
  StronglySorted name_le (List s parent) ∧ NoDup (Name <$> List s parent) ∧
  ∀ o, o ∈ List s parent ↔ Get s (Name o) = Ok o ∧ under parent (Name o) = true.
Proof.
  intros s Hp. assert (wf s) as Hwf by apply wf_run, wf_new.
  destruct (list_in_order_spec s order parent Hwf Hp) as (Hs1 & Hn1 & He1).
  destruct (list_in_order_spec s (map_to_list (ops s)) parent Hwf) as (Hs2 & Hn2 & He2); [done|].
  split; [|split; [done|split; [done|]]].
  - apply (sorted_by_unique Name); [done..| |done].
    apply NoDup_Permutation; [by eapply NoDup_fmap_1|by eapply NoDup_fmap_1|].
    intros o. by rewrite He1, He2.
  - intros o. unfold List. rewrite He2. unfold Get. by destruct (ops s !! Name o); naive_solver.
Qed.

End lro.

Module Examples.

Definition parent : string := "projects/p/locations/l".
Definition before : list (@event Z Z) :=
  [ECreate parent "a" 1 2; ECreate parent "b" 3 4; ESucceed (op_name parent 1) (Some 7) 5]%Z.
Definition after : list (@event Z Z) :=
  [EFail (op_name parent 1) (Some ErrNotFound) 6; ESetMetadata (op_name parent 1) (Some 1) 7;
   ECreate parent "c" 8 9; EDelete (op_name parent 2)]%Z.

Lemma terminal_final_witness :
  ∃ o', Get (run NewStore (before ++ after)) (op_name parent 1) = Ok o' ∧
    outcome o' = (StateSucceeded, None, Some 7%Z, "a", 1%Z).
Proof.
  apply (terminal_final before after (op_name parent 1)
    (mkOperation (op_name parent 1) "a" StateSucceeded None (Some 7%Z) None 1%Z 5%Z));
    [repeat constructor|..]; [|reflexivity|reflexivity].
  repeat constructor. simpl. vm_compute. discriminate.
Defined.

Lemma create_unique_witness :
  Get (run NewStore before) (op_name parent 3) = Err (Wrapped ErrNotFound).
Proof.
  pose proof (create_unique before parent "c" 8%Z 9%Z) as H.
  destruct H as [H _]; [repeat constructor|]. exact H.
Defined.

Lemma list_deterministic_witness :
  list_in_order (rev (map_to_list (ops (run NewStore before)))) parent = List (run NewStore before) parent.
Proof.
  apply (list_deterministic before _ parent). symmetry. apply Permutation_rev.
Defined.

Example list_is_not_empty : length (List (run NewStore before) parent) = 2%nat.
Proof. vm_compute. reflexivity. Qed.

End Examples.
