(* ===== verification/IamPolicy.v ===== *)
(** * internal/iampolicy: IAM policies stored beside a resource

    The request and response messages are iampb's, as records of the fields
    the package reads; a nil message is [None] where the code distinguishes it,
    and otherwise the record of zero values its getters return.  The eight bytes
    [rand.Read] yields are an argument of [apply]. *)

From S2P Require Import Prelude ApiError.
From Stdlib Require Import Ascii.

(** ** iampb *)

Module iampb.

Record Binding := mkBinding { Role : string; Members : list string; Condition : bool }.
Record AuditLogConfig := mkAuditLogConfig { LogType : Z; ExemptedMembers : list string }.
Record AuditConfig := mkAuditConfig { Service : string; AuditLogConfigs : list AuditLogConfig }.
Record Policy := mkPolicy {
  Version : Z;
  Bindings : list Binding;
  AuditConfigs : list AuditConfig;
  Etag : string
}.
Record SetIamPolicyRequest := mkSetIamPolicyRequest { policy : option Policy; update_mask : list string }.

(** [AuditLogConfig_LogType_name]. *)
Definition LogType_name (t : Z) : option string :=
  match t with
  | 0 => Some "LOG_TYPE_UNSPECIFIED"
  | 1 => Some "ADMIN_READ"
  | 2 => Some "DATA_WRITE"
  | 3 => Some "DATA_READ"
  | _ => None
  end%Z.

(** [AuditLogConfig_LogType_value]: 0 for a name it does not hold. *)
Definition LogType_value (s : string) : Z :=
  if bool_decide (s = "ADMIN_READ") then 1
  else if bool_decide (s = "DATA_WRITE") then 2
  else if bool_decide (s = "DATA_READ") then 3
  else 0.

End iampb.

(** ** Stored policies *)

Record Binding := mkBinding { Role : string; Members : list string }.
Record AuditLogConfig := mkAuditLogConfig { LogType : string; ExemptedMembers : list string }.
Record AuditConfig := mkAuditConfig { Service : string; LogConfigs : list AuditLogConfig }.
Record Stored := mkStored {
  Bindings : list Binding;
  AuditConfigs : list AuditConfig;
  Etag : string
}.

#[global] Instance Binding_eq_dec : EqDecision Binding.
Proof. solve_decision. Defined.
#[global] Instance AuditLogConfig_eq_dec : EqDecision AuditLogConfig.
Proof. solve_decision. Defined.
#[global] Instance AuditConfig_eq_dec : EqDecision AuditConfig.
Proof. solve_decision. Defined.
#[global] Instance Stored_eq_dec : EqDecision Stored.
Proof. solve_decision. Defined.

(** The bytes 0x00 0x20 0x01. *)
Definition emptyEtag : string := String "000" (String "032" (String "001" "")).

Definition etag (s : option Stored) : string :=
  match s with
  | None => emptyEtag
  | Some p => if bool_decide (Etag p = "") then emptyEtag else Etag p
  end.

Definition proto_binding (b : Binding) : iampb.Binding := iampb.mkBinding (Role b) (Members b) false.
Definition proto_log (l : AuditLogConfig) : iampb.AuditLogConfig :=
  iampb.mkAuditLogConfig (iampb.LogType_value (LogType l)) (ExemptedMembers l).
Definition proto_audit (a : AuditConfig) : iampb.AuditConfig :=
  iampb.mkAuditConfig (Service a) (proto_log <$> LogConfigs a).

Definition Proto (s : option Stored) : iampb.Policy :=
  match s with
  | None => iampb.mkPolicy 1 [] [] (etag s)
  | Some p => iampb.mkPolicy 1 (proto_binding <$> Bindings p) (proto_audit <$> AuditConfigs p) (etag s)
  end.

(** [requested] is [opts.GetRequestedPolicyVersion()]. *)
Definition Get (current : option Stored) (requested : Z) : res error iampb.Policy :=
  if bool_decide (requested ∈ [0; 1; 3]%Z) then Ok (Proto current) else Err InvalidArgument.

(** The paths of the mask: the keys of the map [masked], of which the code uses
    only whether there is any and whether a given one is there. *)
Fixpoint mask_paths (audit : bool) (paths : list string) (masked : list string) : res error (list string) :=
  match paths with
  | [] => Ok masked
  | path :: rest =>
      if bool_decide (path ∈ ["bindings"; "etag"; "version"]) then mask_paths audit rest (path :: masked)
      else if bool_decide (path ∈ ["audit_configs"; "auditConfigs"]) then
        if negb audit then Err Unimplemented else mask_paths audit rest ("audit_configs" :: masked)
      else Err InvalidArgument
  end.

Definition masked_of (audit : bool) (paths : list string) : res error (list string) :=
  masked ← mask_paths audit paths [];
  Ok (if bool_decide (masked = []) then ["bindings"; "etag"] else masked).

(** The loop over [p.GetBindings()]. *)
Fixpoint bindings_of (bs : list iampb.Binding) : res error (list Binding) :=
  match bs with
  | [] => Ok []
  | b :: rest =>
      if iampb.Condition b then Err Unimplemented
      else if bool_decide (iampb.Role b = "") then Err InvalidArgument
      else
        out ← bindings_of rest;
        Ok (if bool_decide (iampb.Members b = []) then out
            else mkBinding (iampb.Role b) (iampb.Members b) :: out)
  end.

Definition log_config (l : iampb.AuditLogConfig) : res error AuditLogConfig :=
  if bool_decide (iampb.LogType l = 0%Z) then Err InvalidArgument
  else match iampb.LogType_name (iampb.LogType l) with
       | None => Err InvalidArgument
       | Some n => Ok (mkAuditLogConfig n (iampb.ExemptedMembers l))
       end.

(** The body of a loop that returns at the first error. *)
Fixpoint each {A B} (f : A → res error B) (l : list A) : res error (list B) :=
  match l with
  | [] => Ok []
  | a :: rest => b ← f a; out ← each f rest; Ok (b :: out)
  end.

Definition audit_config (a : iampb.AuditConfig) : res error AuditConfig :=
  if bool_decide (iampb.Service a = "") then Err InvalidArgument
  else logs ← each log_config (iampb.AuditLogConfigs a); Ok (mkAuditConfig (iampb.Service a) logs).

Definition auditConfigs (l : list iampb.AuditConfig) : res error (list AuditConfig) := each audit_config l.

Definition apply (current : option Stored) (req : iampb.SetIamPolicyRequest) (audit : bool) (rnd : string)
    : res error Stored :=
  masked ← masked_of audit (iampb.update_mask req);
  match iampb.policy req with
  | None => Err InvalidArgument
  | Some p =>
      guard_ (bool_decide (iampb.Version p ∈ [0; 1; 3]%Z)) InvalidArgument ≫= λ _,
      guard_ (audit || bool_decide (iampb.AuditConfigs p = [])) Unimplemented ≫= λ _,
      bindings ← bindings_of (iampb.Bindings p);
      audits ← auditConfigs (iampb.AuditConfigs p);
      guard_ (bool_decide (iampb.Etag p = "") || bool_decide (iampb.Etag p = etag current)) Aborted ≫= λ _,
      let kept_bindings :=
        if audit && negb (bool_decide ("bindings" ∈ masked))
        then match current with Some c => Bindings c | None => bindings end
        else bindings in
      let kept_audits :=
        if audit
        then if bool_decide ("audit_configs" ∈ masked) then audits
             else match current with Some c => AuditConfigs c | None => [] end
        else [] in
      Ok (mkStored kept_bindings kept_audits rnd)
  end.

Definition Set_ (current : option Stored) (req : iampb.SetIamPolicyRequest) (rnd : string) : res error Stored :=
  apply current req false rnd.

Definition SetWithAuditConfigs (current : option Stored) (req : iampb.SetIamPolicyRequest) (rnd : string)
    : res error Stored :=
  apply current req true rnd.

Definition Permissions (permissions : list string) : list string := permissions.

(** ** Well-formed policies *)

Definition binding_ok (b : Binding) : Prop := Role b ≠ "" ∧ Members b ≠ [].
Definition log_ok (l : AuditLogConfig) : Prop := LogType l ∈ ["ADMIN_READ"; "DATA_WRITE"; "DATA_READ"].
Definition audit_ok (a : AuditConfig) : Prop := Service a ≠ "" ∧ Forall log_ok (LogConfigs a).

Record wf (s : Stored) : Prop := mkWf {
  wf_bindings : Forall binding_ok (Bindings s);
  wf_audits : Forall audit_ok (AuditConfigs s)
}.

(** What a caller may have kept: nothing, or a well-formed policy. *)
Definition wf_opt (s : option Stored) : Prop := from_option wf True s.

(** ** Lemmas *)

Lemma each_ok {A B} (f : A → res error B) l out :
  each f l = Ok out ↔ Forall2 (λ a b, f a = Ok b) l out.
Proof.
  revert out. induction l as [|a l IH]; intros out; simpl.
  - split; [intros [= <-]; constructor|]. intros H. by inversion H.
  - rewrite res_bind_ok. split.
    + intros (b & Hb & (o & Ho & [= <-])%res_bind_ok). constructor; [done|]. by apply IH.
    + inversion 1 as [|? b ? o Hb Ho]; subst. exists b. split; [done|].
      apply res_bind_ok. exists o. split; [by apply IH|done].
Qed.

Lemma log_config_ok l o : log_config l = Ok o → log_ok o.
Proof.
  unfold log_config, iampb.LogType_name, log_ok. intros H.
  case_bool_decide as H0; [done|]. case_all; set_solver.
Qed.

Lemma auditConfigs_ok l out : auditConfigs l = Ok out → Forall audit_ok out.
Proof.
  unfold auditConfigs. rewrite each_ok. induction 1 as [|a o l out Ha _ IH]; constructor; [|done].
  unfold audit_config in Ha. case_bool_decide; [done|].
  apply res_bind_ok in Ha as (logs & Hl & [= <-]). split; [done|]. simpl.
  apply each_ok in Hl. induction Hl; constructor; [by eapply log_config_ok|done].
Qed.

Lemma bindings_of_ok bs out :
  bindings_of bs = Ok out →
  Forall (λ b, iampb.Condition b = false ∧ iampb.Role b ≠ "") bs ∧
  out = (λ b, mkBinding (iampb.Role b) (iampb.Members b)) <$> filter (λ b, iampb.Members b ≠ []) bs.
Proof.
  revert out. induction bs as [|b bs IH]; intros out; simpl; [naive_solver|].
  destruct (iampb.Condition b) eqn:Hc; [done|]. case_bool_decide as Hr; [done|].
  rewrite res_bind_ok. intros (o & Ho & [= <-]). destruct (IH _ Ho) as [Hall ->].
  split; [by constructor|]. rewrite filter_cons.
  case_bool_decide; case_decide; naive_solver.
Qed.

Lemma bindings_of_wf bs out : bindings_of bs = Ok out → Forall binding_ok out.
Proof.
  intros [Hall ->]%bindings_of_ok. apply Forall_fmap, Forall_forall. intros b [Hm Hb]%list_elem_of_filter.
  split; [|done]. by apply (proj1 (Forall_forall _ _) Hall b Hb).
Qed.

(** [apply] succeeds exactly under the code's conditions, and then yields this. *)
Lemma apply_ok current req audit rnd next :
  apply current req audit rnd = Ok next →
  ∃ masked p bindings audits,
    masked_of audit (iampb.update_mask req) = Ok masked ∧ iampb.policy req = Some p ∧
    bindings_of (iampb.Bindings p) = Ok bindings ∧ auditConfigs (iampb.AuditConfigs p) = Ok audits ∧
    (iampb.Etag p = "" ∨ iampb.Etag p = etag current) ∧
    Etag next = rnd ∧
    Bindings next = (if audit && negb (bool_decide ("bindings" ∈ masked))
                     then match current with Some c => Bindings c | None => bindings end else bindings) ∧
    AuditConfigs next = (if audit
                         then if bool_decide ("audit_configs" ∈ masked) then audits
                              else match current with Some c => AuditConfigs c | None => [] end
                         else []).
Proof.
  unfold apply. rewrite res_bind_ok. intros (masked & Hm & H).
  destruct (iampb.policy req) as [p|]; [|done].
  apply res_bind_ok in H as (? & Hv & H). apply res_bind_ok in H as (? & Ha & H).
  apply res_bind_ok in H as (bindings & Hb & H). apply res_bind_ok in H as (audits & Hau & H).
  apply res_bind_ok in H as (? & He & [= <-]).
  exists masked, p, bindings, audits. split_and!; try done.
  apply guard_ok, orb_true_iff in He as [He|He]; bool_prop; auto.
Qed.

Lemma apply_wf current req audit rnd next :
  wf_opt current → apply current req audit rnd = Ok next → wf next.
Proof.
  intros Hc (masked & p & bs & au & _ & _ & Hb & Ha & _ & _ & HB & HA)%apply_ok.
  apply bindings_of_wf in Hb. apply auditConfigs_ok in Ha.
  split; [rewrite HB|rewrite HA]; destruct current as [c|]; repeat case_match; try done;
    by (apply Hc || constructor).
Qed.

Lemma etag_Some p : Etag p ≠ "" → etag (Some p) = Etag p.
Proof. intros H. unfold etag. by rewrite bool_decide_false. Qed.

(** ** Properties *)

(** A resource's policy under a sequence of SetIamPolicy requests: each is
    given its fresh etag, and the caller stores the policy only when there is no
    error. *)
Fixpoint sets (audit : bool) (current : option Stored) (reqs : list (iampb.SetIamPolicyRequest * string))
    : option Stored * nat :=
  match reqs with
  | [] => (current, 0%nat)
  | (req, rnd) :: rest =>
      match apply current req audit rnd with
      | Ok next => let '(final, n) := sets audit (Some next) rest in (final, S n)
      | Err _ => sets audit current rest
      end
  end.

(** The request's policy carries the etag [e]. *)
Definition carries (e : string) (r : iampb.SetIamPolicyRequest * string) : Prop :=
  ∃ p, iampb.policy r.1 = Some p ∧ iampb.Etag p = e.

Lemma sets_stale audit current e reqs :
  e ≠ "" → etag current ≠ e → Forall (carries e) reqs → sets audit current reqs = (current, 0%nat).
Proof.
  intros He Hne. induction reqs as [|[req rnd] reqs IH]; [done|].
  intros [(p & Hp & Hpe) Hrest]%Forall_cons_1. simpl.
  destruct (apply current req audit rnd) as [next|] eqn:Happ; [|by apply IH].
  apply apply_ok in Happ as (? & p' & ? & ? & _ & Hp' & _ & _ & Heq & _). simpl in Hp.
  simplify_eq. naive_solver.
Qed.

(** Read-modify-write loses no update.  However many clients read the
    same policy and each send it back, changed, with the etag they read, at most
    one of them succeeds, as long as the random etags differ from the one that
    was read; the others are refused and store nothing. *)
Theorem etag_no_lost_update audit current reqs :
  Forall (carries (etag current)) reqs →
  Forall (λ r, r.2 ≠ "" ∧ r.2 ≠ etag current) reqs →
  ((sets audit current reqs).2 ≤ 1)%nat.
Proof.
  assert (etag current ≠ "") as Hne.
  { unfold etag. destruct current as [c|]; [case_bool_decide|]; done. }
  induction reqs as [|[req rnd] reqs IH]; [simpl; lia|].
  intros [_ Hc]%Forall_cons_1 [[Hr1 Hr2] Hr]%Forall_cons_1. simpl in *.
  destruct (apply current req audit rnd) as [next|] eqn:Happ; [|by apply IH].
  apply apply_ok in Happ as (? & ? & ? & ? & _ & _ & _ & _ & _ & Hetag & _).
  rewrite (sets_stale audit (Some next) (etag current)); [simpl; lia|done| |done].
  rewrite etag_Some by congruence. congruence.
Qed.

(** What SetIamPolicy stores is well formed: every binding has a role and
    at least one member (bindings without members are dropped, in order), every
    audit config a service and known log types; no request with an IAM condition
    is accepted, masked or not; and with [Set] no audit config is ever stored. *)
Theorem set_stores_wf current req audit rnd next :
  wf_opt current → apply current req audit rnd = Ok next →
  wf next ∧ (∀ p b, iampb.policy req = Some p → b ∈ iampb.Bindings p → iampb.Condition b = false) ∧
  (audit = false → AuditConfigs next = []).
Proof.
  intros Hc Happ. split; [by eapply apply_wf|].
  apply apply_ok in Happ as (masked & p & bs & au & _ & Hp & Hb & _ & _ & _ & _ & HA). split.
  - intros p' b Hp' Hin. simplify_eq. apply bindings_of_ok in Hb as [Hall _].
    by apply (proj1 (Forall_forall _ _) Hall b Hin).
  - intros ->. by rewrite HA.
Qed.

(** Update_mask, on the resources that keep audit configs: a set whose
    mask does not name audit_configs (no mask in particular) keeps the stored
    audit configs, one whose mask is not empty and does not name bindings keeps
    the stored bindings. *)
Theorem update_mask_keeps c req rnd next :
  SetWithAuditConfigs (Some c) req rnd = Ok next →
  (("audit_configs" ∉ iampb.update_mask req) → ("auditConfigs" ∉ iampb.update_mask req) →
     AuditConfigs next = AuditConfigs c) ∧
  (iampb.update_mask req ≠ [] → "bindings" ∉ iampb.update_mask req → Bindings next = Bindings c).
Proof.
  intros (masked & p & bs & au & Hm & _ & _ & _ & _ & _ & HB & HA)%apply_ok.
  unfold masked_of in Hm. apply res_bind_ok in Hm as (m & Hm & [= <-]).
  assert (∀ paths acc m, mask_paths true paths acc = Ok m →
    (∀ x, x ∈ m → x ∈ acc ∨ x ∈ paths ∨ (x = "audit_configs" ∧ "auditConfigs" ∈ paths)) ∧
    (paths ≠ [] ∨ acc ≠ [] → m ≠ [])) as Hmask.
  { clear. induction paths as [|x paths IH]; intros acc m; simpl; [intros [= <-]; naive_solver|].
    case_bool_decide; [|case_bool_decide; [|done]]; intros [Hin Hne]%IH; split; try set_solver. }
  destruct (Hmask _ _ _ Hm) as [Hin Hne]. simpl in *. split.
  - intros H1 H2. rewrite HA. rewrite bool_decide_false; [done|].
    destruct (bool_decide (m = [])); [intros Hx%(bool_decide_pack _); exact Hx|].
    intros [Hx%not_elem_of_nil|[Hx|[_ Hx]]]%Hin; done.
  - intros H1 H2. rewrite HB, (bool_decide_false (m = [])) by auto.
    rewrite (bool_decide_false ("bindings" ∈ m)); [done|].
    intros [Hx%not_elem_of_nil|[Hx|[Hx _]]]%Hin; done.
Qed.

Lemma bindings_of_proto bs : Forall binding_ok bs → bindings_of (proto_binding <$> bs) = Ok bs.
Proof.
  induction 1 as [|[r m] bs [Hr Hm] _ IH]; [done|]. rewrite fmap_cons. cbn [bindings_of proto_binding iampb.Condition iampb.Role iampb.Members Role Members].
  rewrite bool_decide_false by done. rewrite IH. simpl in *. by rewrite bool_decide_false.
Qed.

Lemma each_fmap {A B} (f : A → res error B) (g : B → A) l :
  Forall (λ b, f (g b) = Ok b) l → each f (g <$> l) = Ok l.
Proof. induction 1 as [|b l Hb _ IH]; [done|]. rewrite fmap_cons. cbn [each]. by rewrite Hb, IH. Qed.

Lemma auditConfigs_proto l : Forall audit_ok l → auditConfigs (proto_audit <$> l) = Ok l.
Proof.
  intros Hl. apply each_fmap. eapply Forall_impl; [exact Hl|]. intros [s logs] [Hs Hlogs].
  unfold audit_config. simpl in *. rewrite bool_decide_false by done.
  rewrite each_fmap; [done|]. eapply Forall_impl; [exact Hlogs|]. intros [t m] Ht.
  unfold log_ok in Ht. simpl in Ht. repeat (apply elem_of_cons in Ht as [->|Ht]; [reflexivity|]).
  by apply not_elem_of_nil in Ht.
Qed.

(** The round trip of an unchanged policy: what [Proto] renders of a
    stored policy, sent back whole with its etag, is accepted and stores the same
    bindings and audit configs, under the new etag. *)
Theorem proto_set_roundtrip s rnd :
  wf s →
  SetWithAuditConfigs (Some s)
    (iampb.mkSetIamPolicyRequest (Some (Proto (Some s))) ["bindings"; "etag"; "audit_configs"]) rnd =
  Ok (mkStored (Bindings s) (AuditConfigs s) rnd).
Proof.
  intros [Hb Ha]. unfold SetWithAuditConfigs, apply.
  replace (masked_of _ _) with (@Ok error _ ["audit_configs"; "etag"; "bindings"])
    by (vm_compute; reflexivity).
  cbn -[bool_decide bindings_of auditConfigs etag]. rewrite (bindings_of_proto _ Hb), (auditConfigs_proto _ Ha).
  cbn -[bool_decide etag]. rewrite (bool_decide_true (1%Z ∈ _)) by set_solver. cbn -[bool_decide etag].
  rewrite (bool_decide_true (_ = etag _)) by done. rewrite orb_true_r. cbn -[bool_decide].
  rewrite (bool_decide_true ("bindings" ∈ _)), (bool_decide_true ("audit_configs" ∈ _)) by set_solver. done.
Qed.

Module Examples.

Definition stored : Stored :=
  mkStored [mkBinding "roles/viewer" ["user:a"]] [mkAuditConfig "allServices" [mkAuditLogConfig "DATA_READ" []]] "e1".
Definition request (e : string) (mask : list string) : iampb.SetIamPolicyRequest :=
  iampb.mkSetIamPolicyRequest
    (Some (iampb.mkPolicy 3 [iampb.mkBinding "roles/owner" ["user:b"] false; iampb.mkBinding "roles/editor" [] false] [] e))
    mask.

Lemma stored_wf : wf stored.
Proof.
  split; repeat constructor; try done; unfold log_ok; simpl; set_solver.
Qed.

Lemma etag_no_lost_update_witness :
  ((sets true (Some stored) [(request "e1" [], "e2"); (request "e1" [], "e3")]).2 ≤ 1)%nat ∧
  (sets true (Some stored) [(request "e1" [], "e2"); (request "e1" [], "e3")]).2 = 1%nat.
Proof.
  split; [|vm_compute; reflexivity].
  apply (etag_no_lost_update true (Some stored)).
  - repeat constructor; eexists; split; reflexivity.
  - repeat constructor; done.
Defined.

Lemma set_stores_wf_witness : wf (mkStored [mkBinding "roles/owner" ["user:b"]] [] "e2").
Proof.
  apply (set_stores_wf (Some stored) (request "e1" []) false "e2"); [apply stored_wf|].
  vm_compute. reflexivity.
Defined.

Lemma update_mask_keeps_witness :
  AuditConfigs (mkStored [mkBinding "roles/owner" ["user:b"]] (AuditConfigs stored) "e2") = AuditConfigs stored.
Proof.
  apply (update_mask_keeps stored (request "e1" []) "e2"); [vm_compute; reflexivity|set_solver..].
Defined.

Lemma proto_set_roundtrip_witness :
  SetWithAuditConfigs (Some stored)
    (iampb.mkSetIamPolicyRequest (Some (Proto (Some stored))) ["bindings"; "etag"; "audit_configs"]) "e2" =
  Ok (mkStored (Bindings stored) (AuditConfigs stored) "e2").
Proof. apply (proto_set_roundtrip stored "e2"), stored_wf. Defined.

End Examples.
