(* ===== verification/Float64.v ===== *)
(** * Go's float64: IEEE 754 binary64

    A finite value is [m * 2^e] for integers [m] and [e]; every operation
    computes the exact result and rounds it once, to nearest with ties to even,
    with the width and the exponent range of binary64.  A representation need
    not be normalised, and the two zeros are not told apart (no modelled code can
    see the sign of a zero).  Of package math: [Pow] on an integer exponent,
    following its square-and-multiply loop, [Ceil], [Min], [Frexp] and [Ldexp]. *)

From S2P Require Import Prelude.

Local Open Scope Z_scope.

Inductive f64 := NaN | Inf (neg : bool) | Fin (m e : Z).

(** [m / 2^s] to the nearest integer, ties to even. *)
Definition half_even (m s : Z) : Z :=
  let q := m / 2 ^ s in
  let r := m mod 2 ^ s in
  if 2 * r <? 2 ^ s then q
  else if 2 ^ s <? 2 * r then q + 1
  else if Z.even q then q else q + 1.

(** The exact [m * 2^e], rounded. *)
Definition round (m e : Z) : f64 :=
  if m =? 0 then Fin 0 0
  else
    let s := Z.max (Z.log2 (Z.abs m) + 1 - 53) (-1074 - e) in
    let m' := if s <=? 0 then m else half_even m s in
    let e' := if s <=? 0 then e else e + s in
    if (negb (m' =? 0)) && (1024 <=? Z.log2 (Z.abs m') + e') then Inf (m <? 0) else Fin m' e'.

Definition of_int (z : Z) : f64 := round z 0.

(** The order of two finite values. *)
Definition compare (m1 e1 m2 e2 : Z) : Datatypes.comparison :=
  let e := Z.min e1 e2 in
  m1 * 2 ^ (e1 - e) ?= m2 * 2 ^ (e2 - e).

(** [a < b] and [a <= b]; every comparison with NaN is false. *)
Definition ltb (a b : f64) : bool :=
  match a, b with
  | NaN, _ | _, NaN => false
  | Inf true, Inf true => false
  | Inf true, _ => true
  | _, Inf true => false
  | Inf false, _ => false
  | Fin _ _, Inf false => true
  | Fin m1 e1, Fin m2 e2 => match compare m1 e1 m2 e2 with Lt => true | _ => false end
  end.

Definition leb (a b : f64) : bool :=
  match a, b with
  | NaN, _ | _, NaN => false
  | _, _ => negb (ltb b a)
  end.

Definition IsNaN (a : f64) : bool := match a with NaN => true | _ => false end.
(** [math.IsInf(a, 0)] *)
Definition IsInf (a : f64) : bool := match a with Inf _ => true | _ => false end.

Definition is_neg (a : f64) : bool :=
  match a with NaN => false | Inf n => n | Fin m _ => m <? 0 end.

Definition add (a b : f64) : f64 :=
  match a, b with
  | NaN, _ | _, NaN => NaN
  | Inf n1, Inf n2 => if Bool.eqb n1 n2 then a else NaN
  | Inf _, Fin _ _ => a
  | Fin _ _, Inf _ => b
  | Fin m1 e1, Fin m2 e2 =>
      let e := Z.min e1 e2 in round (m1 * 2 ^ (e1 - e) + m2 * 2 ^ (e2 - e)) e
  end.

Definition mul (a b : f64) : f64 :=
  match a, b with
  | NaN, _ | _, NaN => NaN
  | Fin m1 e1, Fin m2 e2 => round (m1 * m2) (e1 + e2)
  | Fin m _, Inf _ | Inf _, Fin m _ => if m =? 0 then NaN else Inf (xorb (is_neg a) (is_neg b))
  | Inf n1, Inf n2 => Inf (xorb n1 n2)
  end.

(** The quotient of the magnitudes is computed to 64 bits or more, with a last
    sticky bit that says whether anything was left over. *)
Definition div (a b : f64) : f64 :=
  match a, b with
  | NaN, _ | _, NaN => NaN
  | Inf _, Inf _ => NaN
  | Inf _, Fin _ _ => Inf (xorb (is_neg a) (is_neg b))
  | Fin _ _, Inf _ => Fin 0 0
  | Fin m1 e1, Fin m2 e2 =>
      if m2 =? 0 then (if m1 =? 0 then NaN else Inf (is_neg a))
      else
        let k := Z.max 0 (64 + Z.log2 (Z.abs m2) - Z.log2 (Z.abs m1)) in
        let n := Z.abs m1 * 2 ^ k in
        let q := n / Z.abs m2 in
        let sticky := if n mod Z.abs m2 =? 0 then 0 else 1 in
        round (Z.sgn m1 * Z.sgn m2 * (2 * q + sticky)) (e1 - e2 - k - 1)
  end.

Definition Ceil (a : f64) : f64 :=
  match a with
  | Fin m e => if 0 <=? e then a else Fin (- ((- m) / 2 ^ (- e))) 0
  | _ => a
  end.

Definition Min (a b : f64) : f64 :=
  match a, b with
  | Inf true, _ | _, Inf true => Inf true
  | NaN, _ | _, NaN => NaN
  | _, _ => if ltb a b then a else b
  end.

(** The integer part, towards zero. *)
Definition trunc (m e : Z) : Z := if 0 <=? e then m * 2 ^ e else Z.quot m (2 ^ (- e)).

(** [int64(a)]: [undef] stands for the value the language leaves to the
    implementation when the result does not fit. *)
Definition to_int64 (undef : Z) (a : f64) : Z :=
  match a with
  | Fin m e => let t := trunc m e in
               if (- 2 ^ 63 <=? t) && (t <? 2 ^ 63) then t else undef
  | _ => undef
  end.

(** [math.Frexp] of a positive finite value: a fraction in [1/2, 1) and an
    exponent. *)
Definition Frexp (m e : Z) : f64 * Z :=
  let n := Z.log2 m + 1 in (Fin m (- n), e + n).

Definition Ldexp (a : f64) (exp : Z) : f64 :=
  match a with Fin m e => round m (e + exp) | _ => a end.

Definition one : f64 := Fin 1 0.
Definition two : f64 := Fin 1 1.
Definition half : f64 := Fin 1 (-1).

(** The loop of [math.Pow] over the bits of the exponent; [fuel] bounds the bits
    of an int64. *)
Fixpoint pow_loop (fuel : nat) (i : Z) (a1 : f64) (ae : Z) (x1 : f64) (xe : Z) : f64 :=
  match fuel with
  | O => Ldexp a1 ae
  | S fuel' =>
      if i =? 0 then Ldexp a1 ae
      else if (xe <? - 4096) || (4096 <? xe) then Ldexp a1 (ae + xe)
      else
        let a1' := if Z.odd i then mul a1 x1 else a1 in
        let ae' := if Z.odd i then ae + xe else ae in
        let x2 := mul x1 x1 in
        let small := ltb x2 half in
        pow_loop fuel' (Z.shiftr i 1) a1' ae'
          (if small then mul x2 two else x2)
          (if small then Z.shiftl xe 1 - 1 else Z.shiftl xe 1)
  end.

(** [math.Pow(x, y)] for [x >= 1] and [y] the float64 of a non-negative integer. *)
Definition Pow (x y : f64) : f64 :=
  match y with
  | Fin ym ye =>
      let yi := trunc ym ye in
      if yi =? 0 then one
      else match x with
      | NaN => NaN
      | Inf n => Inf n
      | Fin m e =>
          if (match compare m e 1 0 with Eq => true | _ => false end) then one
          else if yi =? 1 then x
          else if 2 ^ 63 <=? yi then Inf false
          else let '(x1, xe) := Frexp m e in pow_loop 64 yi one 0 x1 xe
      end
  | _ => NaN
  end.

(** ** Rounding *)

Lemma round_exact m e :
  0 < m < 2 ^ 53 → -1074 ≤ e → Z.log2 m + e < 1024 → round m e = Fin m e.
Proof.
  intros Hm He Hov. unfold round. rewrite (proj2 (Z.eqb_neq m 0)) by lia.
  assert (Z.log2 m < 53) by (apply Z.log2_lt_pow2; lia).
  rewrite (Z.abs_eq m) by lia.
  rewrite (proj2 (Z.leb_le _ 0)) by lia. rewrite (Z.abs_eq m) by lia.
  rewrite (proj2 (Z.leb_gt 1024 _)) by lia. by rewrite andb_false_r.
Qed.

Lemma round_overflow m e :
  0 < m < 2 ^ 53 → 0 ≤ e → 1024 ≤ Z.log2 m + e → round m e = Inf false.
Proof.
  intros Hm He Hov. unfold round. rewrite (proj2 (Z.eqb_neq m 0)) by lia.
  assert (Z.log2 m < 53) by (apply Z.log2_lt_pow2; lia).
  rewrite (Z.abs_eq m) by lia.
  rewrite (proj2 (Z.leb_le _ 0)) by lia. rewrite (Z.abs_eq m) by lia.
  rewrite (proj2 (Z.leb_le 1024 _)) by lia. rewrite (proj2 (Z.eqb_neq m 0)) by lia.
  simpl. by rewrite (proj2 (Z.ltb_ge m 0)) by lia.
Qed.

Lemma half_even_ge m s : m / 2 ^ s ≤ half_even m s.
Proof. unfold half_even. repeat case_match; lia. Qed.

(** [a] is an integer of at least [b], or +Inf. *)
Definition at_least (b : Z) (a : f64) : Prop :=
  a = Inf false ∨ ∃ m e, a = Fin m e ∧ 0 < m ∧ 0 ≤ e ∧ b ≤ m * 2 ^ e.

(** Rounding keeps a large integer large. *)
Lemma round_at_least m e :
  0 < m → 0 ≤ e → 2 ^ 53 ≤ m * 2 ^ e → at_least (2 ^ 53) (round m e).
Proof.
  intros Hm He Hge. unfold round. rewrite (proj2 (Z.eqb_neq m 0)) by lia.
  rewrite (Z.abs_eq m) by lia. rewrite (Z.max_l _ (-1074 - e)); cycle 1.
  { pose proof (Z.log2_nonneg m). lia. }
  set (s := Z.log2 m + 1 - 53). rewrite (proj2 (Z.ltb_ge m 0)) by lia.
  destruct (Z.leb_spec s 0) as [Hs|Hs].
  - case_match; [by left|]. right. exists m, e. split_and!; auto; lia.
  - case_match; [by left|]. right. exists (half_even m s), (e + s).
    pose proof (Z.log2_spec m Hm) as [Hlo _]. pose proof (half_even_ge m s) as Hh.
    assert (2 ^ 52 ≤ m / 2 ^ s) as Hq.
    { apply Z.div_le_lower_bound; [lia|]. rewrite <- Z.pow_add_r by lia. by replace (s + 52) with (Z.log2 m) by lia. }
    assert (0 < 2 ^ (e + s - 1)) by lia.
    split_and!; [done|lia|lia|]. replace (e + s) with (1 + (e + s - 1)) by lia.
    rewrite Z.pow_add_r by lia. nia.
Qed.

Lemma of_int_exact n : 0 < n < 2 ^ 53 → of_int n = Fin n 0.
Proof.
  intros Hn. apply round_exact; [lia..|].
  assert (Z.log2 n < 53) by (apply Z.log2_lt_pow2; lia). lia.
Qed.

Lemma of_int_large n : 2 ^ 53 ≤ n → at_least (2 ^ 53) (of_int n).
Proof. intros Hn. apply round_at_least; lia. Qed.

(** ** Comparisons of integers *)

Lemma ltb_Fin m1 e1 m2 e2 :
  0 ≤ e1 → 0 ≤ e2 → ltb (Fin m1 e1) (Fin m2 e2) = (m1 * 2 ^ e1 <? m2 * 2 ^ e2).
Proof.
  intros H1 H2. unfold ltb, compare. set (e := Z.min e1 e2).
  assert (∀ m x, 0 ≤ x → e ≤ x → m * 2 ^ x = m * 2 ^ (x - e) * 2 ^ e) as Hx.
  { intros m x Hx0 Hxe. rewrite <- Z.mul_assoc, <- Z.pow_add_r by lia. by replace (x - e + e) with x by lia. }
  rewrite (Hx m1 e1), (Hx m2 e2) by lia. assert (0 < 2 ^ e) by lia. unfold Z.ltb.
  by rewrite <- Zmult_compare_compat_r by lia.
Qed.

Lemma ltb_at_least b a m : at_least b a → 0 ≤ m < b → ltb (Fin m 0) a = true.
Proof.
  intros [->|(m' & e' & -> & Hm & He & Hb)] H; [done|].
  rewrite ltb_Fin by lia. apply Z.ltb_lt. rewrite Z.pow_0_r. lia.
Qed.

Lemma to_int64_Fin u m e :
  0 ≤ m → 0 ≤ e → m * 2 ^ e < 2 ^ 63 → to_int64 u (Fin m e) = m * 2 ^ e.
Proof.
  intros Hm He Hlt. unfold to_int64, trunc. rewrite (proj2 (Z.leb_le 0 e)) by lia.
  assert (0 ≤ m * 2 ^ e) by (apply Z.mul_nonneg_nonneg; lia).
  rewrite (proj2 (Z.leb_le _ _)), (proj2 (Z.ltb_lt _ _)) by lia. done.
Qed.

(** ** Powers of two *)

Lemma round_pow2 e : -1074 ≤ e < 1024 → round 1 e = Fin 1 e.
Proof. intros He. apply round_exact; [lia..|]. change (Z.log2 1) with 0. lia. Qed.

Lemma round_pow2_overflow e : 1024 ≤ e → round 1 e = Inf false.
Proof. intros He. apply round_overflow; [lia..|]. change (Z.log2 1) with 0. lia. Qed.

(** One turn of the loop for [x = 2]: the base stays 1/2, and its exponent is
    one more than a power of two. *)
Lemma pow_loop_step fuel i c ae xe :
  0 < i → 0 ≤ c < 1000 → 2 ≤ xe ≤ 4096 →
  pow_loop (S fuel) i (Fin 1 (- c)) ae half xe =
  pow_loop fuel (i / 2) (Fin 1 (- (if Z.odd i then c + 1 else c))) (if Z.odd i then ae + xe else ae)
    half (2 * xe - 1).
Proof.
  intros Hi Hc Hxe. cbn [pow_loop]. rewrite (proj2 (Z.eqb_neq i 0)) by lia.
  rewrite (proj2 (Z.ltb_ge xe (-4096))), (proj2 (Z.ltb_ge 4096 xe)) by lia. cbn [orb].
  change (mul half half) with (Fin 1 (-2)). change (ltb (Fin 1 (-2)) half) with true. cbv iota.
  change (mul (Fin 1 (-2)) two) with half. rewrite Z.shiftr_div_pow2 by lia. change (2 ^ 1) with 2.
  rewrite Z.shiftl_mul_pow2 by lia. change (2 ^ 1) with 2. rewrite (Z.mul_comm xe 2).
  destruct (Z.odd i); [|done]. f_equal. unfold mul, half. rewrite round_pow2 by lia. f_equal. lia.
Qed.

(** [ae - c] is what the bits consumed so far contribute, [j] their number. *)
Lemma pow_loop_two fuel j i c ae :
  i < 2 ^ Z.of_nat fuel → 0 ≤ i → 0 ≤ j ≤ 12 → 0 ≤ c ≤ j → 0 ≤ ae - c →
  pow_loop fuel i (Fin 1 (- c)) ae half (2 ^ j + 1) = round 1 (ae - c + i * 2 ^ j) ∨
  (0 < i ∧ 1024 ≤ ae - c + i * 2 ^ j ∧ pow_loop fuel i (Fin 1 (- c)) ae half (2 ^ j + 1) = Inf false).
Proof.
  revert j i c ae. induction fuel as [|fuel IH]; intros j i c ae Hf Hi Hj Hc Hae.
  { left. assert (i = 0) as -> by (simpl in Hf; lia). cbn [pow_loop Ldexp]. f_equal. lia. }
  destruct (decide (i = 0)) as [->|Hi0].
  { left. cbn [pow_loop Z.eqb Ldexp]. f_equal. lia. }
  assert (2 ^ j ≤ 2 ^ 12) as Hpow by (apply Z.pow_le_mono_r; lia).
  assert (0 < 2 ^ j) as Hpos by lia.
  destruct (decide (j = 12)) as [->|Hjne].
  - right. assert (1 * 2 ^ 12 ≤ i * 2 ^ 12) by (apply Z.mul_le_mono_nonneg_r; lia).
    split; [lia|]. split; [lia|].
    cbn [pow_loop]. rewrite (proj2 (Z.eqb_neq i 0)) by lia.
    rewrite (proj2 (Z.ltb_lt 4096 (2 ^ 12 + 1))) by lia. rewrite orb_true_r. cbn [Ldexp].
    apply round_pow2_overflow. lia.
  - assert (2 ^ j ≤ 2 ^ 11) by (apply Z.pow_le_mono_r; lia).
    assert (2 ≤ 2 ^ j + 1) by lia. rewrite pow_loop_step by lia.
    replace (2 * (2 ^ j + 1) - 1) with (2 ^ (j + 1) + 1) by (rewrite Z.pow_add_r; lia).
    pose proof (Z.div_mod i 2 ltac:(lia)) as Hdm.
    assert (i mod 2 = if Z.odd i then 1 else 0) as Hm by (rewrite Zmod_odd; done).
    set (c' := if Z.odd i then c + 1 else c). set (ae' := if Z.odd i then ae + (2 ^ j + 1) else ae).
    assert (ae' - c' + i / 2 * 2 ^ (j + 1) = ae - c + i * 2 ^ j) as Heq.
    { rewrite Z.pow_add_r by lia. unfold c', ae'. destruct (Z.odd i); nia. }
    rewrite <- Heq.
    destruct (decide (i / 2 = 0)) as [Hd|Hd].
    { left. rewrite Hd. destruct fuel; cbn [pow_loop Z.eqb Ldexp]; f_equal; lia. }
    assert (0 < i / 2) by (pose proof (Z.div_pos i 2); lia).
    destruct (IH (j + 1) (i / 2) c' ae') as [->|(_ & Hge & ->)].
    + rewrite Nat2Z.inj_succ, Z.pow_succ_r in Hf by lia. apply Z.div_lt_upper_bound; lia.
    + lia.
    + lia.
    + unfold c'. destruct (Z.odd i); lia.
    + unfold c', ae'. destruct (Z.odd i); lia.
    + by left.
    + right. split; [lia|]. by split.
Qed.

Lemma pow_loop_two_spec i :
  0 ≤ i < 2 ^ 63 → pow_loop 64 i one 0 half 2 = if i <? 1024 then Fin 1 i else Inf false.
Proof.
  intros Hi. destruct (pow_loop_two 64 0 i 0 0) as [H|(_ & Hge & H)]; try lia.
  - change (pow_loop 64 i one 0 half 2 = round 1 (0 - 0 + i * 2 ^ 0)) in H. rewrite H.
    replace (0 - 0 + i * 2 ^ 0) with i by lia.
    destruct (Z.ltb_spec i 1024); [apply round_pow2; lia|apply round_pow2_overflow; lia].
  - change (pow_loop 64 i one 0 half 2 = Inf false) in H. rewrite H.
    rewrite (proj2 (Z.ltb_ge i 1024)) by lia. done.
Qed.

(** A positive int64 converts exactly below 2^53, and stays at least 2^53
    above. *)
Lemma of_int_trunc k :
  0 < k < 2 ^ 63 →
  ∃ m e, of_int k = Fin m e ∧ 0 < m ∧ (k < 2 ^ 53 → trunc m e = k) ∧ (2 ^ 53 ≤ k → 2 ^ 53 ≤ trunc m e).
Proof.
  intros Hk.
  destruct (decide (k < 2 ^ 53)).
  - rewrite of_int_exact by lia. exists k, 0. unfold trunc. simpl. split; [done|]. split; [lia|]. lia.
  - destruct (of_int_large k) as [H|(m & e & H & Hm & He & Hb)]; [lia|exfalso|].
    + revert H. unfold of_int, round. rewrite (proj2 (Z.eqb_neq k 0)) by lia.
      rewrite (Z.abs_eq k) by lia. assert (Z.log2 k < 63) by (apply Z.log2_lt_pow2; lia).
      assert (53 ≤ Z.log2 k) by (apply Z.log2_le_pow2; lia).
      rewrite Z.max_l by lia. set (s := Z.log2 k + 1 - 53). rewrite (proj2 (Z.leb_gt s 0)) by lia.
      assert (0 ≤ half_even k s ≤ k + 1) as Hh.
      { assert (0 ≤ k / 2 ^ s ≤ k).
        { split; [apply Z.div_pos; lia|]. apply Z.div_le_upper_bound; [lia|]. nia. }
        unfold half_even. repeat case_match; lia. }
      rewrite (Z.abs_eq (half_even k s)) by lia.
      assert (Z.log2 (half_even k s) ≤ Z.log2 (k + 1)) by (apply Z.log2_le_mono; lia).
      assert (Z.log2 (k + 1) < 64) by (apply Z.log2_lt_pow2; lia).
      rewrite (proj2 (Z.leb_gt 1024 _)) by lia. rewrite andb_false_r. done.
    + exists m, e. split; [done|]. split; [done|]. unfold trunc. rewrite (proj2 (Z.leb_le 0 e)) by lia. lia.
Qed.

(** [math.Pow(2, float64(k))] is the exact power of two, or +Inf. *)
Lemma Pow_two k :
  0 ≤ k < 2 ^ 63 → Pow two (of_int k) = if k <? 1024 then Fin 1 k else Inf false.
Proof.
  intros Hk. destruct (decide (k = 0)) as [->|Hk0]; [done|].
  destruct (of_int_trunc k) as (m & e & -> & _ & Hsm & Hlg); [lia|].
  unfold Pow. set (yi := trunc m e) in *.
  change (two) with (Fin 1 1). cbv beta iota.
  change (match compare 1 1 1 0 with Eq => true | _ => false end) with false. cbv iota.
  assert (0 < yi) by (destruct (decide (k < 2 ^ 53)); lia).
  rewrite (proj2 (Z.eqb_neq yi 0)) by lia.
  destruct (Z.eqb_spec yi 1) as [H1|H1].
  { destruct (decide (k < 2 ^ 53)); [|lia]. assert (k = 1) as -> by lia. done. }
  destruct (Z.leb_spec (2 ^ 63) yi) as [Hbig|Hsmall].
  { destruct (decide (k < 2 ^ 53)); [lia|]. by rewrite (proj2 (Z.ltb_ge k 1024)) by lia. }
  change (Frexp 1 1) with (half, 2). cbv beta iota. rewrite pow_loop_two_spec by lia.
  destruct (decide (k < 2 ^ 53)); [by rewrite Hsm|].
  rewrite (proj2 (Z.ltb_ge yi 1024)), (proj2 (Z.ltb_ge k 1024)) by lia. done.
Qed.
