(* ===== verification/Sched.v ===== *)
(** * internal/sched: clocks, backoff and the due-time scheduler

    [Retry] is retry.go's Backoff, [CloudTasks] cloudtasks.go's schedule,
    [Clock] the fake clock and [Scheduler] the job table and its attempts.
    Delays are computed in float64, as the code does. *)

From S2P Require Import Prelude GoLib ApiError Float64.

Import time.

Local Open Scope Z_scope.

(** What the language leaves to the platform: the int64 of a float64 that does
    not fit. *)
Class Platform := { undef_int64 : Z }.

(** [time.Duration(d)] *)
Definition Duration_of `{Platform} (d : f64) : Duration := to_int64 undef_int64 d.

(** ** retry.go *)

Module Retry.

Record Backoff := mkBackoff {
  Min : Duration;
  Max : Duration;
  Multiplier : f64;
  MaxAttempts : Z
}.

Definition DefaultBackoff : Backoff := mkBackoff (100 * Millisecond) (10 * Second) two 5.

Definition Delay `{Platform} (b : Backoff) (attempt : Z) : Duration :=
  if attempt <? 1 then 0
  else
    let min := if Min b <=? 0 then 100 * Millisecond else Min b in
    let mult := if ltb (Multiplier b) one then one else Multiplier b in
    let d := mul (of_int min) (Pow mult (of_int (attempt - 1))) in
    if (0 <? Max b) && (ltb (of_int (Max b)) d || IsInf d) then Max b
    else if ltb (of_int int_max) d then Max b
    else Duration_of d.

Definition ShouldRetry (b : Backoff) (attempt : Z) : bool :=
  if MaxAttempts b <=? 0 then true else attempt <? MaxAttempts b.

End Retry.

(** ** cloudtasks.go *)

Module CloudTasks.

Record CloudTasksBackoff := mkCloudTasksBackoff {
  MaxAttempts : Z;
  MinBackoff : Duration;
  MaxBackoff : Duration;
  MaxDoublings : Z;
  MaxRetryDuration : Duration
}.

#[global] Instance CloudTasksBackoff_eq_dec : EqDecision CloudTasksBackoff.
Proof. solve_decision. Defined.

Definition DefaultCloudTasksBackoff : CloudTasksBackoff :=
  mkCloudTasksBackoff 100 (100 * Millisecond) Hour 16 0.

Definition WithDefaults (b : CloudTasksBackoff) : CloudTasksBackoff :=
  let d := DefaultCloudTasksBackoff in
  mkCloudTasksBackoff
    (if MaxAttempts b =? 0 then MaxAttempts d else MaxAttempts b)
    (if MinBackoff b <=? 0 then MinBackoff d else MinBackoff b)
    (if MaxBackoff b <=? 0 then MaxBackoff d else MaxBackoff b)
    (if MaxDoublings b <=? 0 then MaxDoublings d else MaxDoublings b)
    (MaxRetryDuration b).

Definition Delay `{Platform} (b : CloudTasksBackoff) (attempt : Z) : Duration :=
  if attempt <? 1 then 0
  else
    let minB := of_int (MinBackoff b) in
    let maxB := of_int (MaxBackoff b) in
    let k := attempt - 1 in
    let doublings := MaxDoublings b in
    let d :=
      if k <=? doublings then mul minB (Pow two (of_int k))
      else
        let step := mul minB (Pow two (of_int doublings)) in
        mul step (of_int (wrap_i64 (wrap_i64 (k - doublings) + 1))) in
    if ltb maxB d || IsInf d || IsNaN d then MaxBackoff b else Duration_of d.

Definition ShouldRetry (b : CloudTasksBackoff) (attempts : Z) : bool :=
  if MaxAttempts b <? 0 then true else attempts <? MaxAttempts b.

Definition ShouldRetryAfter (b : CloudTasksBackoff) (attempts : Z) (sinceFirst : Duration) : bool :=
  ShouldRetry b attempts || ((0 <? MaxRetryDuration b) && (sinceFirst <? MaxRetryDuration b)).

(** The documented schedule, in integers: double up to [MaxDoublings] times,
    then add the last doubled interval each time. *)
Definition ideal (b : CloudTasksBackoff) (attempt : Z) : Z :=
  let k := attempt - 1 in
  if k <=? MaxDoublings b then MinBackoff b * 2 ^ k
  else MinBackoff b * 2 ^ MaxDoublings b * (k - MaxDoublings b + 1).

End CloudTasks.

(** ** Delays are the documented schedule *)

(** The final test of both [Delay]s: a float that is the exact positive integer
    [v], or any float that is at least 2^53, against a limit below 2^53. *)
Lemma capped `{Platform} (max v : Z) (d : f64) :
  0 < max < 2 ^ 53 → 0 < v →
  ((∃ m e, d = Fin m e ∧ 0 < m ∧ 0 ≤ e ∧ m * 2 ^ e = v) ∨ (at_least (2 ^ 53) d ∧ 2 ^ 53 ≤ v)) →
  (if ltb (of_int max) d || IsInf d || IsNaN d then max else Duration_of d) = Z.min max v.
Proof.
  intros Hmax Hv [(m & e & -> & Hm & He & Hval)|[Hd Hge]]; rewrite (of_int_exact max) by lia.
  - rewrite ltb_Fin by lia. rewrite Z.pow_0_r, Z.mul_1_r, Hval. cbn [IsInf IsNaN].
    rewrite !orb_false_r. destruct (Z.ltb_spec max v); [lia|].
    unfold Duration_of. rewrite to_int64_Fin by lia. lia.
  - rewrite (ltb_at_least (2 ^ 53)) by (done || lia). simpl. lia.
Qed.

(** The product of a duration below 2^53 and a power of two. *)
Lemma scaled min k :
  0 < min < 2 ^ 53 → 0 ≤ k < 2 ^ 63 →
  let d := mul (of_int min) (Pow two (of_int k)) in
  (d = Fin min k ∧ Z.log2 min + k < 1024) ∨ (d = Inf false ∧ 2 ^ 53 ≤ min * 2 ^ k).
Proof.
  intros Hmin Hk. cbv zeta. rewrite (of_int_exact min), (Pow_two k) by lia.
  assert (0 ≤ Z.log2 min < 53) as Hlog by (split; [apply Z.log2_nonneg|apply Z.log2_lt_pow2; lia]).
  assert (900 ≤ k → 2 ^ 53 ≤ min * 2 ^ k) as Hbig.
  { intros Hge. assert (2 ^ 53 ≤ 2 ^ k) by (apply Z.pow_le_mono_r; lia). nia. }
  destruct (Z.ltb_spec k 1024).
  - cbn [mul]. rewrite Z.mul_1_r, Z.add_0_l.
    destruct (decide (Z.log2 min + k < 1024)).
    + left. split; [apply round_exact; lia|done].
    + right. split; [apply round_overflow; lia|apply Hbig; lia].
  - right. cbn [mul is_neg]. rewrite (proj2 (Z.eqb_neq min 0)), (proj2 (Z.ltb_ge min 0)) by lia.
    split; [done|apply Hbig; lia].
Qed.

(** A finite float that is a positive integer, times a positive integer. *)
Lemma stepped min k n :
  0 < min < 2 ^ 53 → 0 ≤ k → 1 < n < 2 ^ 63 → Z.log2 min + k < 1024 →
  let d := mul (Fin min k) (of_int n) in
  (∃ m e, d = Fin m e ∧ 0 < m ∧ 0 ≤ e ∧ m * 2 ^ e = min * 2 ^ k * n) ∨
  (at_least (2 ^ 53) d ∧ 2 ^ 53 ≤ min * 2 ^ k * n).
Proof.
  intros Hmin Hk Hn Hfin. cbv zeta. assert (0 < 2 ^ k) by lia.
  destruct (decide (n < 2 ^ 53)) as [Hlt|Hge].
  - rewrite (of_int_exact n) by lia. cbn [mul]. rewrite Z.add_0_r.
    destruct (decide (min * n * 2 ^ k < 2 ^ 53)) as [Hs|Hs].
    + left. exists (min * n), k. assert (0 < min * n) by nia. assert (min * n < 2 ^ 53) by nia.
      split; [|split; [lia|split; [lia|ring]]]. apply round_exact; [lia..|].
      assert (Z.log2 (min * n * 2 ^ k) < 53) as Hl by (apply Z.log2_lt_pow2; nia).
      rewrite Z.log2_mul_pow2 in Hl by lia. lia.
    + right. split; [apply round_at_least; nia|]. nia.
  - right. split; [|nia]. destruct (of_int_large n) as [->|(m & e & -> & Hm & He & Hb)]; [lia|..].
    + left. cbn [mul is_neg]. rewrite (proj2 (Z.eqb_neq min 0)), (proj2 (Z.ltb_ge min 0)) by lia. done.
    + cbn [mul]. apply round_at_least; [nia|lia|]. rewrite Z.pow_add_r by lia. nia.
Qed.

Lemma cloud_tasks_delay_exact `{Platform} b attempt :
  0 < CloudTasks.MinBackoff b < 2 ^ 53 → 0 < CloudTasks.MaxBackoff b < 2 ^ 53 →
  0 ≤ CloudTasks.MaxDoublings b ≤ int_max → 1 ≤ attempt ≤ int_max →
  CloudTasks.Delay b attempt = Z.min (CloudTasks.MaxBackoff b) (CloudTasks.ideal b attempt).
Proof.
  intros Hmin Hmax HD Ha. unfold int_max in *. unfold CloudTasks.Delay, CloudTasks.ideal.
  rewrite (proj2 (Z.ltb_ge attempt 1)) by lia.
  set (k := attempt - 1). set (D := CloudTasks.MaxDoublings b) in *.
  set (min := CloudTasks.MinBackoff b) in *.
  destruct (Z.leb_spec k D) as [HkD|HkD].
  - assert (0 < 2 ^ k) by lia. apply capped; [lia|nia|].
    destruct (scaled min k) as [[-> _]|[-> Hge]]; [lia..| |].
    + left. exists min, k. split_and!; [done|lia..].
    + right. split; [by left|lia].
  - rewrite (wrap_i64_id (k - D)), (wrap_i64_id (k - D + 1)) by (unfold int_min, int_max; lia).
    assert (0 < 2 ^ D) by lia. apply capped; [lia|apply Z.mul_pos_pos; nia|].
    destruct (scaled min D) as [[-> Hf]|[-> Hge]]; [lia..| |].
    + apply stepped; lia.
    + right. split; [|nia]. left.
      destruct (of_int_trunc (k - D + 1)) as (m & e & -> & Hm & _); [lia|].
      cbn [mul is_neg]. by rewrite (proj2 (Z.eqb_neq m 0)), (proj2 (Z.ltb_ge m 0)) by lia.
Qed.

Lemma WithDefaults_positive b :
  let b' := CloudTasks.WithDefaults b in
  0 < CloudTasks.MinBackoff b' ∧ 0 < CloudTasks.MaxBackoff b' ∧ 0 < CloudTasks.MaxDoublings b' ∧
  CloudTasks.MaxAttempts b' ≠ 0.
Proof.
  simpl. repeat case_match; bool_prop; unfold Hour, Minute, Second, Millisecond; lia.
Qed.

(** Defaults are decided per field, and deciding them twice changes nothing. *)
Lemma WithDefaults_idemp b : CloudTasks.WithDefaults (CloudTasks.WithDefaults b) = CloudTasks.WithDefaults b.
Proof.
  destruct (WithDefaults_positive b) as (H1 & H2 & H3 & H4). cbv zeta in *.
  generalize dependent (CloudTasks.WithDefaults b). intros [a mn mx d r] H1 H2 H3 H4. simpl in *.
  unfold CloudTasks.WithDefaults. simpl.
  rewrite (proj2 (Z.eqb_neq a 0)), (proj2 (Z.leb_gt mn 0)), (proj2 (Z.leb_gt mx 0)), (proj2 (Z.leb_gt d 0)) by lia.
  done.
Qed.

Lemma ideal_positive b a :
  0 < CloudTasks.MinBackoff b → 0 ≤ CloudTasks.MaxDoublings b → 1 ≤ a → 0 < CloudTasks.ideal b a.
Proof.
  intros Hm Hd Ha. unfold CloudTasks.ideal. destruct (Z.leb_spec (a - 1) (CloudTasks.MaxDoublings b)).
  - assert (0 < 2 ^ (a - 1)) by lia. nia.
  - assert (0 < 2 ^ CloudTasks.MaxDoublings b) by lia. apply Z.mul_pos_pos; nia.
Qed.

Lemma ideal_step b a :
  0 < CloudTasks.MinBackoff b → 0 ≤ CloudTasks.MaxDoublings b → 1 ≤ a →
  CloudTasks.ideal b a ≤ CloudTasks.ideal b (a + 1).
Proof.
  intros Hm Hd Ha. unfold CloudTasks.ideal. set (D := CloudTasks.MaxDoublings b) in *.
  replace (a + 1 - 1) with (Z.succ (a - 1)) by lia. set (k := a - 1). assert (0 ≤ k) by lia.
  assert (0 < 2 ^ k) by lia. assert (0 < 2 ^ D) by lia.
  destruct (Z.leb_spec k D); destruct (Z.leb_spec (Z.succ k) D); try lia.
  - rewrite Z.pow_succ_r by lia. nia.
  - assert (k = D) as -> by lia. nia.
Qed.

(** C32: a Cloud Tasks retry schedule computed in float64 is the documented
    one in integers.  For every queue configuration (unset fields defaulted)
    whose bounds are under 2^53 ns, 104 days, and every attempt an int can count,
    the wait is MinBackoff doubled MaxDoublings times and from then on increased
    by that interval, cut off at MaxBackoff: it never overflows into a negative
    or an unordered wait, on any platform. *)
Theorem cloud_tasks_schedule `{Platform} rc attempt :
  CloudTasks.MinBackoff rc < 2 ^ 53 → CloudTasks.MaxBackoff rc < 2 ^ 53 →
  CloudTasks.MaxDoublings rc ≤ int_max → 1 ≤ attempt < int_max →
  let b := CloudTasks.WithDefaults rc in
  CloudTasks.Delay b attempt = Z.min (CloudTasks.MaxBackoff b) (CloudTasks.ideal b attempt) ∧
  0 < CloudTasks.Delay b attempt ≤ CloudTasks.Delay b (attempt + 1).
Proof.
  intros Hmin Hmax HD Ha b. destruct (WithDefaults_positive rc) as (H1 & H2 & H3 & _).
  assert (CloudTasks.MinBackoff b < 2 ^ 53 ∧ CloudTasks.MaxBackoff b < 2 ^ 53 ∧ CloudTasks.MaxDoublings b ≤ int_max)
    as (H4 & H5 & H6).
  { unfold b. simpl. unfold Hour, Minute, Second, Millisecond, int_max in *. repeat case_match; lia. }
  fold b in H1, H2, H3. cbv zeta in *.
  rewrite !cloud_tasks_delay_exact by lia. split; [done|].
  pose proof (ideal_positive b attempt). pose proof (ideal_step b attempt). lia.
Qed.

(** When retrying stops.  A task is given up exactly when its attempts
    have reached MaxAttempts and, where MaxRetryDuration is set, that much time
    has passed since the first attempt too; a negative MaxAttempts never stops. *)
Theorem retry_stops_iff rc attempts sinceFirst :
  let b := CloudTasks.WithDefaults rc in
  CloudTasks.ShouldRetryAfter b attempts sinceFirst = false ↔
  0 < CloudTasks.MaxAttempts b ≤ attempts ∧
  (0 < CloudTasks.MaxRetryDuration rc → CloudTasks.MaxRetryDuration rc ≤ sinceFirst).
Proof.
  cbv zeta. destruct (WithDefaults_positive rc) as (_ & _ & _ & Hne). cbv zeta in Hne.
  unfold CloudTasks.ShouldRetryAfter, CloudTasks.ShouldRetry.
  change (CloudTasks.MaxRetryDuration (CloudTasks.WithDefaults rc)) with (CloudTasks.MaxRetryDuration rc).
  set (n := CloudTasks.MaxAttempts (CloudTasks.WithDefaults rc)) in *.
  rewrite orb_false_iff, andb_false_iff, !Z.ltb_ge.
  destruct (Z.ltb_spec n 0); [split; [intros [? _]; done|lia]|].
  rewrite Z.ltb_ge. lia.
Qed.

(** The owned-work policy with a doubling multiplier waits Min, 2 Min,
    4 Min, ... and never more than Max, for every attempt. *)
Theorem backoff_schedule `{Platform} b attempt :
  Retry.Multiplier b = two → 0 < Retry.Min b < 2 ^ 53 → 0 < Retry.Max b < 2 ^ 53 →
  1 ≤ attempt ≤ int_max →
  Retry.Delay b attempt = Z.min (Retry.Max b) (Retry.Min b * 2 ^ (attempt - 1)).
Proof.
  intros Hmul Hmin Hmax Ha. unfold int_max in *. unfold Retry.Delay. rewrite Hmul.
  change (ltb two one) with false. cbv zeta iota. rewrite (proj2 (Z.ltb_ge attempt 1)) by lia.
  rewrite (proj2 (Z.leb_gt (Retry.Min b) 0)), (proj2 (Z.ltb_lt 0 (Retry.Max b))) by lia. cbn [andb].
  set (k := attempt - 1). set (d := mul _ _). assert (0 < 2 ^ k) by lia.
  rewrite <- (capped (Retry.Max b) (Retry.Min b * 2 ^ k) d); [|lia|nia|].
  - destruct (scaled (Retry.Min b) k) as [[Hd _]|[Hd _]]; [lia..| |]; fold d in Hd; rewrite Hd.
    + cbn [IsInf IsNaN]. rewrite !orb_false_r. rewrite (of_int_exact (Retry.Max b)) by lia.
      rewrite ltb_Fin by lia. destruct (Z.ltb_spec (Retry.Max b * 2 ^ 0) (Retry.Min b * 2 ^ k)); [done|].
      change (of_int int_max) with (Fin (2 ^ 53) 10). rewrite ltb_Fin by lia.
      rewrite (proj2 (Z.ltb_ge _ _)) by lia. done.
    + by rewrite !orb_true_r.
  - destruct (scaled (Retry.Min b) k) as [[Hd _]|[Hd Hge]]; [lia..| |]; fold d in Hd; rewrite Hd.
    + left. exists (Retry.Min b), k. split_and!; [done|lia..].
    + right. split; [by left|lia].
Qed.

Module BackoffExamples.

#[local] Instance amd64 : Platform := {| undef_int64 := int_min |}.

(** The documented example: 10 s, 300 s and 3 doublings. *)
Definition documented : CloudTasks.CloudTasksBackoff :=
  CloudTasks.mkCloudTasksBackoff 0 (10 * Second) (300 * Second) 3 0.

Example documented_delays :
  (λ a, CloudTasks.Delay (CloudTasks.WithDefaults documented) a / Second) <$> [1; 2; 3; 4; 5; 6; 7; 8; 5000] =
  [10; 20; 40; 80; 160; 240; 300; 300; 300].
Proof. vm_compute. reflexivity. Qed.

Lemma cloud_tasks_schedule_witness :
  CloudTasks.Delay (CloudTasks.WithDefaults documented) 6 = 240 * Second ∧
  0 < CloudTasks.Delay (CloudTasks.WithDefaults documented) 6.
Proof.
  destruct (cloud_tasks_schedule documented 6) as [H1 H2]; [vm_compute; repeat split; discriminate || reflexivity..|].
  split; [rewrite H1; vm_compute; reflexivity|lia].
Defined.

Lemma backoff_schedule_witness : Retry.Delay Retry.DefaultBackoff 4 = 800 * Millisecond.
Proof.
  rewrite (backoff_schedule Retry.DefaultBackoff 4); [reflexivity|reflexivity|vm_compute; split; reflexivity..|].
  vm_compute. split; discriminate.
Defined.

(** Without a Max, a delay that has outgrown an int64 comes out as Max,
    that is 0: the 35th retry of a one-second doubling policy fires at once. *)
Theorem uncapped_delay_collapses :
  let b := Retry.mkBackoff Second 0 two 0 in
  Retry.Delay b 34 = 2 ^ 33 * Second ∧ Retry.Delay b 35 = 0.
Proof. vm_compute. split; reflexivity. Qed.

End BackoffExamples.

(** ** clock.go: FakeClock

    A channel is a number; [FakeClock] numbers them as it makes them, and what
    has been sent on each is kept with the clock. *)

Module Clock.

Record waiter := mkWaiter { deadline : Time; ch : nat }.

Record FakeClock := mkFakeClock {
  now : Time;
  waiters : list waiter;
  made : nat;                    (** channels made so far *)
  sent : list (nat * Time)       (** sends, oldest first *)
}.

Definition NewFakeClock (start : Time) : FakeClock := mkFakeClock start [] 0 [].

(** [c.After(d)]: the channel it returns is [made c]. *)
Definition After (c : FakeClock) (d : Duration) : FakeClock :=
  if d <=? 0 then mkFakeClock (now c) (waiters c) (S (made c)) (sent c ++ [(made c, now c)])
  else mkFakeClock (now c) (waiters c ++ [mkWaiter (Add (now c) d) (made c)]) (S (made c)) (sent c).

Definition deadline_le (a b : waiter) : Prop := deadline a ≤ deadline b.

#[global] Instance deadline_le_dec : RelDecision deadline_le.
Proof. intros a b. unfold deadline_le. apply _. Defined.
#[global] Instance deadline_le_total : Total deadline_le.
Proof. intros a b. unfold deadline_le. lia. Qed.
#[global] Instance deadline_le_trans : Transitive deadline_le.
Proof. intros a b c. unfold deadline_le. lia. Qed.

Definition is_due (t : Time) (w : waiter) : Prop := time.After (deadline w) t = false.

#[global] Instance is_due_dec t w : Decision (is_due t w).
Proof. unfold is_due. apply _. Defined.

Definition Advance (c : FakeClock) (d : Duration) : FakeClock :=
  let t := Add (now c) d in
  let due := filter (is_due t) (waiters c) in
  let remaining := filter (λ w, ¬ is_due t w) (waiters c) in
  let fired := merge_sort deadline_le due in
  mkFakeClock t remaining (made c) (sent c ++ ((λ w, (ch w, t)) <$> fired)).

Definition HasWaiterAt (c : FakeClock) (t : Time) : bool :=
  existsb (λ w, Equal (deadline w) t) (waiters c).

Definition Waiters (c : FakeClock) : nat := length (waiters c).

Inductive event := EAfter (d : Duration) | EAdvance (d : Duration).

Definition apply_event (c : FakeClock) (e : event) : FakeClock :=
  match e with EAfter d => After c d | EAdvance d => Advance c d end.

Definition run (c : FakeClock) (es : list event) : FakeClock := fold_left apply_event es c.

(** Every channel made is armed or has been sent on, never both, never twice. *)
Definition accounted (c : FakeClock) : Prop :=
  (ch <$> waiters c) ++ (sent c).*1 ≡ₚ seq 0 (made c).

Lemma filter_split {A} (P : A → Prop) `{∀ x, Decision (P x)} (l : list A) :
  filter (λ x, ¬ P x) l ++ filter P l ≡ₚ l.
Proof.
  induction l as [|x l IH]; [done|]. rewrite !filter_cons.
  destruct (decide (P x)), (decide (¬ P x)); try tauto; simpl.
  - rewrite <- Permutation_middle. by rewrite IH.
  - by rewrite IH.
Qed.

Lemma accounted_apply c e : accounted c → accounted (apply_event c e).
Proof.
  unfold accounted. intros Hc. destruct e as [d|d]; simpl.
  - unfold After. destruct (d <=? 0); cbn [made waiters sent]; rewrite seq_S, !fmap_app, <- Hc.
    + by rewrite app_assoc.
    + rewrite <- !app_assoc. apply Permutation_app_head, Permutation_app_comm.
  - rewrite fmap_app, <- list_fmap_compose. rewrite merge_sort_Permutation.
    change (fst ∘ (λ w, (ch w, Add (now c) d))) with ch.
    rewrite <- Hc. rewrite (Permutation_app_comm (sent c).*1), app_assoc, <- fmap_app.
    by rewrite filter_split.
Qed.

Lemma accounted_run c es : accounted c → accounted (run c es).
Proof. revert c. induction es as [|e es IH]; intros c Hc; [done|]. by apply IH, accounted_apply. Qed.

(** The fake clock loses and repeats no timer.  After any sequence of
    timers and advances, each timer ever armed is either still waiting or has
    been sent on, exactly once; and one [Advance] fires exactly the timers whose
    deadline has passed, in deadline order, leaving only later ones. *)
Theorem fake_clock_timers start es d :
  let c := run (NewFakeClock start) es in
  let c' := Advance c d in
  NoDup ((ch <$> waiters c') ++ (sent c').*1) ∧
  (∀ n, (n < made c)%nat ↔ n ∈ ch <$> waiters c' ∨ n ∈ (sent c').*1) ∧
  ∃ fired, sent c' = sent c ++ ((λ w, (ch w, now c')) <$> fired) ∧
    StronglySorted deadline_le fired ∧
    (∀ w, w ∈ fired ↔ w ∈ waiters c ∧ deadline w ≤ now c') ∧
    (∀ w, w ∈ waiters c' ↔ w ∈ waiters c ∧ now c' < deadline w).
Proof.
  intros c c'. assert (accounted c') as Hacc by (apply (accounted_apply c (EAdvance d)), accounted_run; constructor).
  unfold accounted in Hacc. split; [rewrite Hacc; apply NoDup_seq|]. split.
  { intros n. rewrite <- elem_of_app, Hacc, elem_of_seq. change (made c') with (made c). lia. }
  exists (merge_sort deadline_le (filter (is_due (now c')) (waiters c))).
  split; [done|]. split; [apply (StronglySorted_merge_sort deadline_le)|]. split; intros w.
  - rewrite merge_sort_Permutation, list_elem_of_filter. unfold is_due, time.After.
    rewrite Z.ltb_ge. tauto.
  - simpl. rewrite list_elem_of_filter. unfold is_due, time.After. rewrite Z.ltb_ge. naive_solver lia.
Qed.

End Clock.

(** ** scheduler.go

    Every lock-protected section is one step; [running] are the attempts whose
    goroutine is in the handler. *)

Module Scheduler.

Definition ErrClosed : error := Sentinel "scheduler is closed".

Section scheduler.
Context {P : Type} `{Platform}.

Record Job := mkJob { ID : string; Due : Time; Attempt : Z; Payload : P }.

Record Scheduler := mkScheduler {
  jobs : gmap string Job;
  claimed : gset string;
  closed : bool;
  failures : list (string * Z * error);
  running : list Job
}.

Definition New : Scheduler := mkScheduler ∅ ∅ false [] [].

Definition Schedule (s : Scheduler) (job : Job) : res error Scheduler :=
  if closed s then Err ErrClosed
  else Ok (mkScheduler (<[ID job := job]> (jobs s)) (claimed s) (closed s) (failures s) (running s)).

Definition Cancel (s : Scheduler) (id : string) : Scheduler :=
  mkScheduler (delete id (jobs s)) (claimed s) (closed s) (failures s) (running s).

Definition Pending (s : Scheduler) : nat := size (jobs s).

(** The loop of [due] over one order of the map: the claims it makes, the jobs
    it makes ready (in that order) and the wait. *)
Fixpoint due_loop (now : Time) (order : list Job) (cl : gset string) (next : Duration)
    : gset string * list Job * Duration :=
  match order with
  | [] => (cl, [], next)
  | j :: rest =>
      if After (Due j) now then
        let d := Sub (Due j) now in
        due_loop now rest cl (if d <? next then d else next)
      else if bool_decide (ID j ∈ cl) then due_loop now rest cl next
      else let '(cl', ready, next') := due_loop now rest ({[ID j]} ∪ cl) next in (cl', j :: ready, next')
  end.

Definition due_in_order (order : list Job) (s : Scheduler) (now : Time) : Scheduler * list Job * Duration :=
  let '(cl, ready, next) := due_loop now order (claimed s) Hour in
  (mkScheduler (jobs s) cl (closed s) (failures s) (running s), sort_by ID ready, next).

Definition due (s : Scheduler) (now : Time) : Scheduler * list Job * Duration :=
  due_in_order (map_to_list (jobs s)).*2 s now.

(** What [attempt] does once the handler has returned [err]; [cancelled] is
    [ctx.Err() != nil]. *)
Definition attempt (b : Retry.Backoff) (s : Scheduler) (job : Job) (err : option error) (cancelled : bool) (now : Time)
    : Scheduler :=
  let cl := claimed s ∖ {[ID job]} in
  match err with
  | None => mkScheduler (delete (ID job) (jobs s)) cl (closed s) (failures s) (running s)
  | Some e =>
      if cancelled then mkScheduler (jobs s) cl (closed s) (failures s) (running s)
      else
        let n := Attempt job + 1 in
        if negb (Retry.ShouldRetry b n)
        then mkScheduler (delete (ID job) (jobs s)) cl (closed s) (failures s ++ [(ID job, n, Wrapped e)]) (running s)
        else mkScheduler (<[ID job := mkJob (ID job) (Add now (Retry.Delay b n)) n (Payload job)]> (jobs s))
               cl (closed s) (failures s) (running s)
  end.

Definition set_running (s : Scheduler) (l : list Job) : Scheduler :=
  mkScheduler (jobs s) (claimed s) (closed s) (failures s) l.

(** The scheduler as a transition system. *)
Inductive step (b : Retry.Backoff) : Scheduler → Scheduler → Prop :=
| step_schedule s s' job : Schedule s job = Ok s' → step b s s'
| step_cancel s id : step b s (Cancel s id)
| step_due s now order s' ready next :
    (** one turn of [Run]: whatever is ready is started *)
    order ≡ₚ (map_to_list (jobs s)).*2 →
    due_in_order order s now = (s', ready, next) →
    step b s (set_running s' (running s' ++ ready))
| step_finish s before job after err cancelled now :
    running s = before ++ job :: after →
    step b s (attempt b (set_running s (before ++ after)) job err cancelled now)
| step_close s :
    (** [Run] returning: no attempt is left *)
    running s = [] →
    step b s (mkScheduler (jobs s) (claimed s) true (failures s) []).

(** ** Invariant *)

Record inv (s : Scheduler) : Prop := mkInv {
  inv_filed : ∀ k j, jobs s !! k = Some j → ID j = k;
  inv_once : NoDup (ID <$> running s);
  inv_claimed : ∀ k, k ∈ claimed s ↔ k ∈ ID <$> running s
}.

Lemma inv_New : inv New.
Proof. split; simpl; [set_solver|constructor|set_solver]. Qed.

Lemma due_loop_spec now order cl next cl' ready next' :
  NoDup (ID <$> order) → due_loop now order cl next = (cl', ready, next') →
  (∀ k, k ∈ cl' ↔ k ∈ cl ∨ k ∈ ID <$> ready) ∧ NoDup (ID <$> ready) ∧
  (∀ j, j ∈ ready ↔ j ∈ order ∧ Due j ≤ now ∧ ID j ∉ cl) ∧
  next' ≤ next ∧ (∀ j, j ∈ order → now < Due j → next' ≤ Sub (Due j) now).
Proof.
  revert cl next cl' ready next'. induction order as [|j order IH]; intros cl next cl' ready next' Hnd.
  { simpl. intros [= <- <- <-]. split_and!; [set_solver|constructor|set_solver|lia|set_solver]. }
  rewrite fmap_cons in Hnd. apply NoDup_cons in Hnd as [Hj Hnd]. cbn [due_loop].
  assert (∀ j', j' ∈ order → ID j' ≠ ID j) as Hother.
  { intros j' Hj' Heq. apply Hj. rewrite <- Heq. by apply list_elem_of_fmap_2. }
  unfold After. destruct (Z.ltb_spec now (Due j)) as [Hlater|Hdue].
  - intros (H1 & H2 & H3 & H4 & H5)%IH; [|done]. split_and!; [done..| | |].
    + intros j'. rewrite H3, elem_of_cons. split; [naive_solver|]. intros [[->|?] ?]; [lia|naive_solver].
    + destruct (Z.ltb_spec (Sub (Due j) now) next); lia.
    + intros j' [->|Hj']%elem_of_cons Hlt; [|by apply H5].
      destruct (Z.ltb_spec (Sub (Due j) now) next); lia.
  - case_bool_decide as Hcl.
    + intros (H1 & H2 & H3 & H4 & H5)%IH; [|done]. split_and!; [done..| |done|].
      * intros j'. rewrite H3, elem_of_cons. naive_solver.
      * intros j' [->|Hj']%elem_of_cons Hlt; [lia|by apply H5].
    + destruct (due_loop now order ({[ID j]} ∪ cl) next) as [[c r] n] eqn:Hl. intros [= <- <- <-].
      destruct (IH _ _ _ _ _ Hnd Hl) as (H1 & H2 & H3 & H4 & H5). rewrite fmap_cons. split_and!.
      * intros k. rewrite H1, elem_of_cons. set_solver.
      * apply NoDup_cons. split; [|done]. intros (j' & Heq & Hj')%list_elem_of_fmap.
        apply H3 in Hj' as (Hin & _ & Hnot). rewrite <- Heq in Hnot. set_solver.
      * intros j'. rewrite !elem_of_cons, H3. split; [|set_solver].
        intros [->|(Hin & Hd & Hnot)]; [auto|]. split; [auto|]. set_solver.
      * done.
      * intros j' [->|Hj']%elem_of_cons Hlt; [lia|by apply H5].
Qed.

Lemma order_NoDup s order :
  inv s → order ≡ₚ (map_to_list (jobs s)).*2 → NoDup (ID <$> order).
Proof.
  intros Hi ->. rewrite <- list_fmap_compose.
  replace ((ID ∘ snd) <$> map_to_list (jobs s)) with (map_to_list (jobs s)).*1.
  - apply NoDup_fst_map_to_list.
  - apply list_fmap_ext. intros i [k j] Hk. simpl. symmetry.
    apply (inv_filed s Hi), elem_of_map_to_list. by apply list_elem_of_lookup_2 in Hk.
Qed.

Lemma inv_due s now order s' ready next :
  inv s → order ≡ₚ (map_to_list (jobs s)).*2 → due_in_order order s now = (s', ready, next) →
  inv (set_running s' (running s' ++ ready)).
Proof.
  intros Hi Ho Hd. unfold due_in_order in Hd.
  destruct (due_loop now order (claimed s) Hour) as [[cl r] n] eqn:Hl. simplify_eq/=.
  destruct (due_loop_spec _ _ _ _ _ _ _ (order_NoDup _ _ Hi Ho) Hl) as (H1 & H2 & H3 & _ & _).
  destruct Hi as [Hf Hon Hcl]. split; simpl; [done|..].
  - rewrite fmap_app, sort_by_perm. apply NoDup_app. split; [done|]. split; [|done].
    intros k Hk (j & -> & Hj)%list_elem_of_fmap. apply H3 in Hj as (_ & _ & Hnot).
    by apply Hnot, Hcl.
  - intros k. rewrite fmap_app, sort_by_perm, elem_of_app, H1, Hcl. done.
Qed.

Lemma inv_finish b s before job after err cancelled now :
  inv s → running s = before ++ job :: after →
  inv (attempt b (set_running s (before ++ after)) job err cancelled now).
Proof.
  intros [Hf Hon Hcl] Hr. rewrite Hr, fmap_app, fmap_cons in Hon.
  assert (NoDup (ID <$> before ++ after)) as Hnd.
  { rewrite <- Permutation_middle in Hon. apply NoDup_cons in Hon as [_ Hon]. by rewrite fmap_app. }
  assert (ID job ∉ ID <$> before ++ after) as Hjob.
  { rewrite <- Permutation_middle in Hon. apply NoDup_cons in Hon as [Hon _]. by rewrite fmap_app. }
  assert (∀ k, k ∈ claimed s ∖ {[ID job]} ↔ k ∈ ID <$> before ++ after) as Hcl'.
  { intros k. rewrite elem_of_difference, Hcl, Hr, !fmap_app, fmap_cons. rewrite fmap_app in Hjob. set_solver. }
  unfold attempt. destruct err as [e|]; [destruct cancelled; [|destruct (negb _)]|];
    split; simpl; try done.
  - intros k j. rewrite lookup_delete. case_decide; [done|apply Hf].
  - intros k j. rewrite lookup_insert. case_decide; [intros [= <-]; done|apply Hf].
  - intros k j. rewrite lookup_delete. case_decide; [done|apply Hf].
Qed.

Lemma scheduler_inv_step b s s' : inv s → step b s s' → inv s'.
Proof.
  intros Hi Hs. destruct Hs as [s s' job Hsch|s id|s now order s' ready next Ho Hd|s before job after err cancelled now Hr|s Hr].
  - unfold Schedule in Hsch. destruct (closed s); simplify_eq. destruct Hi as [Hf ? ?]. split; simpl; [|done..].
    intros k j. rewrite lookup_insert. case_decide; [intros [= <-]; done|apply Hf].
  - destruct Hi as [Hf ? ?]. split; simpl; [|done..]. intros k j. rewrite lookup_delete. case_decide; [done|apply Hf].
  - by eapply inv_due.
  - by apply inv_finish.
  - destruct Hi as [Hf Hon Hcl]. rewrite Hr in Hcl. split; [done|constructor|done].
Qed.

Lemma scheduler_inv b s : rtc (step b) New s → inv s.
Proof. apply rtc_invariant; [apply scheduler_inv_step|apply inv_New]. Qed.

(** No job is ever in two attempts at once, over every interleaving of
    scheduling, cancelling, polling and finishing attempts, in whatever order the
    job map is ranged over; and a poll of a reachable state starts exactly the
    jobs that are due and have no attempt out, in ID order, and waits no longer
    than the earliest of the others is due. *)
Theorem scheduler_one_attempt b s order now s' ready next :
  rtc (step b) New s → order ≡ₚ (map_to_list (jobs s)).*2 →
  due_in_order order s now = (s', ready, next) →
  NoDup (ID <$> running s' ++ ready) ∧ StronglySorted (key_le ID) ready ∧
  (∀ j, j ∈ ready ↔ jobs s !! ID j = Some j ∧ Due j ≤ now ∧ ID j ∉ ID <$> running s) ∧
  next ≤ Hour ∧ (∀ k j, jobs s !! k = Some j → now < Due j → next ≤ Sub (Due j) now).
Proof.
  intros Hs%scheduler_inv Ho Hd. pose proof (inv_due _ _ _ _ _ _ Hs Ho Hd) as [_ Hnd _].
  unfold due_in_order in Hd.
  destruct (due_loop now order (claimed s) Hour) as [[cl r] n] eqn:Hl. simplify_eq/=.
  destruct (due_loop_spec _ _ _ _ _ _ _ (order_NoDup _ _ Hs Ho) Hl) as (_ & _ & H3 & H4 & H5).
  assert (∀ j, j ∈ order ↔ jobs s !! ID j = Some j) as Hin.
  { intros j. rewrite Ho, list_elem_of_fmap. split.
    - intros ([k j'] & -> & Hk%elem_of_map_to_list). simpl in *. by rewrite (inv_filed s Hs k j').
    - intros Hj. exists (ID j, j). split; [done|]. by apply elem_of_map_to_list. }
  split; [done|]. split; [apply sort_by_sorted|]. split; [|split; [done|]].
  - intros j. rewrite sort_by_elem, H3, Hin. by rewrite (inv_claimed s Hs).
  - intros k j Hj Hlt. apply H5; [|done]. apply Hin. by rewrite (inv_filed s Hs k j).
Qed.

End scheduler.

Module Examples.

#[local] Instance amd64 : Platform := {| undef_int64 := int_min |}.

Definition job (due attempt payload : Z) : Job := mkJob "a" due attempt payload.
Definition b : Retry.Backoff := Retry.DefaultBackoff.

(** The job is scheduled and its first attempt is out. *)
Definition out : Scheduler := mkScheduler {["a" := job 5 0 1]} {["a"]} false [] [job 5 0 1].

Lemma out_reachable : rtc (step b) New out.
Proof.
  eapply rtc_l; [apply (step_schedule b _ _ (job 5 0 1)); reflexivity|].
  apply rtc_once. unfold out.
  refine (step_due b _ 5 [job 5 0 1] (mkScheduler {["a" := job 5 0 1]} {["a"]} false [] []) [job 5 0 1] Hour _ _).
  - vm_compute. reflexivity.
  - vm_compute. reflexivity.
Qed.

Lemma scheduler_one_attempt_witness : NoDup (ID <$> [job 5 0 1]).
Proof.
  apply (scheduler_one_attempt b out [job 5 0 1] 9 out [] Hour).
  - apply out_reachable.
  - vm_compute. reflexivity.
  - vm_compute. reflexivity.
Defined.

(** A job replaced while its previous version is in flight is lost: when
    the attempt of the old version succeeds, [attempt] deletes the entry by its
    ID, and the replacement never runs. *)
Theorem replacement_lost :
  ∃ s1 s2, rtc (step b) New out ∧
    Schedule out (job 20 0 2) = Ok s1 ∧ jobs s1 !! "a" = Some (job 20 0 2) ∧
    s2 = attempt b (set_running s1 []) (job 5 0 1) None false 6 ∧ step b s1 s2 ∧ jobs s2 !! "a" = None.
Proof.
  eexists _, _. split; [apply out_reachable|]. split; [reflexivity|]. split; [reflexivity|].
  split; [reflexivity|]. split; [|reflexivity].
  apply (step_finish b _ [] (job 5 0 1) [] None false 6). reflexivity.
Qed.

(** A cancelled job comes back: [Cancel] while an attempt is out removes
    the entry, and the attempt's failure schedules the job again. *)
Theorem cancel_undone :
  ∃ s1 s2, rtc (step b) New out ∧
    s1 = Cancel out "a" ∧ jobs s1 !! "a" = None ∧
    s2 = attempt b (set_running s1 []) (job 5 0 1) (Some ErrClosed) false 6 ∧ step b s1 s2 ∧
    jobs s2 !! "a" = Some (job (6 + 100 * Millisecond) 1 1).
Proof.
  eexists _, _. split; [apply out_reachable|]. split; [reflexivity|]. split; [reflexivity|].
  split; [reflexivity|]. split; [|vm_compute; reflexivity].
  apply (step_finish b _ [] (job 5 0 1) [] (Some ErrClosed) false 6). reflexivity.
Qed.

End Examples.
End Scheduler.
