(* ===== verification/Lifecycle.v ===== *)
(** * The lifecycle coordinator (src/internal/lifecycle)

    lifecycle.go's Coordinator starts the components of the process, runs its
    workers and shuts it all down; control.go reports its readiness.  Several
    goroutines work on one Coordinator: the calls of Start, Stop and
    RegisterWorker, the members of a concurrent group, and the workers.  Each
    section the code runs under its lock is a function on the [Coordinator], each
    goroutine is a [Thread], and [perform] lets one of them do its next section or
    call, with what its surroundings answer in a [Choice].  What Start and Stop of
    components and Run of workers did is kept in a log of [Event]s.

    The mutex itself is not modelled: a section it guards is one atomic step, so
    that a lock that is never released, or taken twice, does not show.  Neither is
    the time a call takes: a component's Start or Stop and a worker's Run are taken
    to return, at whatever later step. *)

From S2P Require Import Prelude GoLib.

Import time.

(** ** Data *)

Inductive State := StateNew | StateStarting | StateReady | StateStopping | StateStopped | StateFailed.

Global Instance State_eq_dec : EqDecision State.
Proof. solve_decision. Defined.

Definition State_String (s : State) : string :=
  match s with
  | StateNew => "new"
  | StateStarting => "starting"
  | StateReady => "ready"
  | StateStopping => "stopping"
  | StateStopped => "stopped"
  | StateFailed => "failed"
  end.

(** A component is an object: its identity, and the name it reports. *)
Record Component := mkComponent { c_id : nat; c_Name : string }.
Record Worker := mkWorker { w_id : nat; w_Name : string }.

Global Instance Component_eq_dec : EqDecision Component.
Proof. solve_decision. Defined.
Global Instance Worker_eq_dec : EqDecision Worker.
Proof. solve_decision. Defined.

(** Errors: the ones the file names, fmt.Errorf with %w, and the ones of
    components and workers, of which only errors.Is(err, context.Canceled) is
    asked. *)
Inductive error :=
| Canceled
| ErrShutdownTimeout
| Already (s : State)
| Wrapped (what name : string) (e : error)
| Opaque (text : string) (canceled : bool).

Fixpoint is_Canceled (e : error) : bool :=
  match e with
  | Canceled => true
  | Wrapped _ _ e => is_Canceled e
  | Opaque _ b => b
  | ErrShutdownTimeout | Already _ => false
  end.

Record Timing := mkTiming { StartedAt : Time; ReadyAfter : Duration }.

(** [workCtx]: nil, or whether the context has been cancelled; [cancelWork]: it is
    not nil.  [workerWG] is the counter of the wait group. *)
Record Coordinator := mkCoordinator {
  shutdownTimeout : Duration;
  components : list Component;
  groups : list Z;
  nextGroup : Z;
  workers : list Worker;
  started : list Component;
  state : State;
  failure : option error;
  ready : gmap string bool;
  timing : gmap string Timing;
  workerWG : nat;
  workerErrs : list error;
  cancelWork : bool;
  workCtx : option bool
}.

Definition New (timeout : Duration) : Coordinator :=
  mkCoordinator timeout [] [] 0 [] [] StateNew None ∅ ∅ 0 [] false None.

Definition set_components (c : Coordinator) cs gs next : Coordinator :=
  mkCoordinator (shutdownTimeout c) cs gs next (workers c) (started c) (state c) (failure c) (ready c) (timing c)
    (workerWG c) (workerErrs c) (cancelWork c) (workCtx c).
Definition set_workers (c : Coordinator) ws : Coordinator :=
  mkCoordinator (shutdownTimeout c) (components c) (groups c) (nextGroup c) ws (started c) (state c) (failure c)
    (ready c) (timing c) (workerWG c) (workerErrs c) (cancelWork c) (workCtx c).
Definition set_started (c : Coordinator) cs : Coordinator :=
  mkCoordinator (shutdownTimeout c) (components c) (groups c) (nextGroup c) (workers c) cs (state c) (failure c)
    (ready c) (timing c) (workerWG c) (workerErrs c) (cancelWork c) (workCtx c).
Definition set_state (c : Coordinator) s : Coordinator :=
  mkCoordinator (shutdownTimeout c) (components c) (groups c) (nextGroup c) (workers c) (started c) s (failure c)
    (ready c) (timing c) (workerWG c) (workerErrs c) (cancelWork c) (workCtx c).
Definition set_failure (c : Coordinator) f : Coordinator :=
  mkCoordinator (shutdownTimeout c) (components c) (groups c) (nextGroup c) (workers c) (started c) (state c) f
    (ready c) (timing c) (workerWG c) (workerErrs c) (cancelWork c) (workCtx c).
Definition set_ready (c : Coordinator) r t : Coordinator :=
  mkCoordinator (shutdownTimeout c) (components c) (groups c) (nextGroup c) (workers c) (started c) (state c)
    (failure c) r t (workerWG c) (workerErrs c) (cancelWork c) (workCtx c).
Definition set_work (c : Coordinator) n es : Coordinator :=
  mkCoordinator (shutdownTimeout c) (components c) (groups c) (nextGroup c) (workers c) (started c) (state c)
    (failure c) (ready c) (timing c) n es (cancelWork c) (workCtx c).
Definition set_ctx (c : Coordinator) b w : Coordinator :=
  mkCoordinator (shutdownTimeout c) (components c) (groups c) (nextGroup c) (workers c) (started c) (state c)
    (failure c) (ready c) (timing c) (workerWG c) (workerErrs c) b w.

(** ** Reading *)

Definition Timings (c : Coordinator) : gmap string Timing := timing c.
Definition TimingOrder (c : Coordinator) : list string :=
  filter (λ n, is_Some (timing c !! n)) (c_Name <$> components c).
Definition Ready (c : Coordinator) : bool := bool_decide (state c = StateReady).
Definition ReadyComponents (c : Coordinator) : gmap string bool := ready c.
Definition ComponentNames (c : Coordinator) : list string := c_Name <$> components c.
Definition SortedReady (c : Coordinator) : list string * gmap string bool :=
  (sort_strings (map_to_list (ReadyComponents c)).*1, ReadyComponents c).

(** ** Registering *)

Definition Register (cs : list Component) (c : Coordinator) : Coordinator :=
  set_components c (components c ++ cs) (groups c ++ replicate (length cs) 0%Z) (nextGroup c).

Definition RegisterConcurrent (cs : list Component) (c : Coordinator) : Coordinator :=
  let g := (nextGroup c + 1)%Z in
  set_components c (components c ++ cs) (groups c ++ replicate (length cs) g) g.

(** RegisterWorker's locked section, and whether it starts the workers itself. *)
Definition RegisterWorker_add (ws : list Worker) (c : Coordinator) : Coordinator * bool :=
  (set_workers c (workers c ++ ws),
   bool_decide (state c = StateReady) && cancelWork c && bool_decide (is_Some (workCtx c))).

(** ** Starting *)

(** The components of the next step, and the ones after it: the first, with the
    ones that follow in its group. *)
Definition nextStep (todo : list (Component * Z)) : list Component * list (Component * Z) :=
  match todo with
  | [] => ([], [])
  | (c, g) :: rest =>
      if (g =? 0)%Z then ([c], rest)
      else
        let same := (fix same l := match l with
                     | (c', g') :: l => if (g' =? g)%Z then S (same l) else 0
                     | [] => 0
                     end) rest in
        (c :: (take same rest).*1, drop same rest)
  end.

Definition startOne_begin (comp : Component) (now : Time) (c : Coordinator) : Coordinator :=
  set_ready c (ready c) (<[c_Name comp := mkTiming now 0%Z]> (timing c)).

Definition startOne_ready (comp : Component) (began now : Time) (c : Coordinator) : Coordinator :=
  set_ready c (<[c_Name comp := true]> (ready c)) (<[c_Name comp := mkTiming began (Sub now began)]> (timing c)).

Definition startOne_failed (comp : Component) (c : Coordinator) : Coordinator :=
  set_ready c (<[c_Name comp := false]> (ready c)) (timing c).

(** A call of startOne: not begun, in the component's Start, after it, and
    returned. *)
Inductive Phase :=
| MNew
| MStarting (began : Time)
| MStarted (began : Time)
| MFailed (e : error)
| MDone (r : option error).

(** Whether the component is up: its Start has returned nil. *)
Definition is_up (p : Phase) : bool :=
  match p with MStarted _ | MDone None => true | _ => false end.

Definition returned (p : Phase) : option (option error) :=
  match p with MDone r => Some r | _ => None end.

(** startStep after wg.Wait: the error it returns, and what it records as
    started. *)
Definition better (first : option error) (err : option error) : option error :=
  match err with
  | None => first
  | Some e =>
      match first with
      | None => Some e
      | Some f => if is_Canceled f && negb (is_Canceled e) then Some e else first
      end
  end.

Definition first_error (errs : list (option error)) : option error := foldl better None errs.

Definition recorded (members : list (Component * option error)) (c : Coordinator) : list Component :=
  match members with
  | [(comp, None)] => [comp]
  | _ => (filter (λ m, m.2 = None ∧ ready c !! c_Name m.1 = Some true) members).*1
  end.

Definition startStep_record (members : list (Component * option error)) (c : Coordinator) : Coordinator :=
  set_started c (started c ++ recorded members c).

Definition Start_begin (c : Coordinator) : res error (Coordinator * list (Component * Z)) :=
  if bool_decide (state c = StateNew)
  then Ok (set_state c StateStarting, zip (components c) (groups c))
  else Err (Already (state c)).

Definition Start_ready (c : Coordinator) : Coordinator * list Worker :=
  (set_state (set_ctx c true (Some false)) StateReady, workers c).

(** ** Stopping *)

Definition stopComponents_take (c : Coordinator) : Coordinator * list Component :=
  (set_started c [], reverse (started c)).

Definition stopComponents_mark (comp : Component) (c : Coordinator) : Coordinator :=
  set_ready c (<[c_Name comp := false]> (ready c)) (timing c).

Definition unwind_end (cause : error) (c : Coordinator) : Coordinator :=
  set_failure (set_state c StateFailed) (Some cause).

Definition Stop_begin (c : Coordinator) : option (Coordinator * bool) :=
  match state c with
  | StateStopped | StateStopping => None
  | _ => Some (set_state c StateStopping, cancelWork c)
  end.

Definition Stop_cancel (cancel : bool) (c : Coordinator) : Coordinator :=
  if cancel then set_ctx c (cancelWork c) (Some true) else c.

Definition Stop_errs (c : Coordinator) : Coordinator * list error :=
  (set_work c (workerWG c) [], workerErrs c).

Definition Stop_end (c : Coordinator) : Coordinator := set_state c StateStopped.

Definition Stop_result (timedOut : bool) (errs : list error) : list error :=
  if timedOut then ErrShutdownTimeout :: errs else errs.

(** ** Workers *)

Definition startWorker (c : Coordinator) : Coordinator := set_work c (S (workerWG c)) (workerErrs c).
Definition worker_done (c : Coordinator) : Coordinator := set_work c (Nat.pred (workerWG c)) (workerErrs c).
Definition worker_failed (w : Worker) (e : error) (c : Coordinator) : Coordinator :=
  set_work c (workerWG c) (workerErrs c ++ [Wrapped "worker" (w_Name w) e]).

(** ** Goroutines *)

(** Who called stopComponents: unwind with its cause, or Stop. *)
Inductive Caller := KUnwind (cause : error) | KStop (timedOut : bool).

(** [Stopping k todo mid errs]: in the loop of stopComponents, [todo] still to be
    stopped in that order, [mid] stopped and not yet marked. *)
Inductive Thread :=
| StartCall
| StartLoop (todo : list (Component * Z))
| StartStep (members : list (Component * Phase)) (todo : list (Component * Z))
| StartLaunch (ws : list Worker)
| StartDone (r : option error)
| Take (k : Caller)
| Stopping (k : Caller) (todo : list Component) (mid : option Component) (errs : list error)
| StopCall
| StopCancel (cancel : bool)
| StopDrain
| StopEnd (timedOut : bool) (errs : list error)
| StopDone (did : bool) (r : list error)
| RegCall (ws : list Worker)
| RegLaunch (ws : list Worker)
| RegDone
| WorkerRun (w : Worker)
| WorkerFailed (w : Worker) (e : error)
| WorkerClosing
| WorkerDone.

Inductive Event :=
| Began (cs : list Component)
| Up (comp : Component)
| Down (k : Caller) (comp : Component) (r : option error)
| Ran (w : Worker)
| Gave (w : Worker) (e : error).

(** What the surroundings of a step answer: the clock, what a called Start, Stop,
    Run or ctx.Err() returns, whether a deadline has passed, which member of a
    group goes on. *)
Record Choice := mkChoice { now : Time; answer : option error; deadline : bool; pick : nat }.

Definition startOne (o : Choice) (m : Component * Phase) (c : Coordinator) : option (Coordinator * Phase * list Event) :=
  let comp := m.1 in
  match m.2 with
  | MNew => Some (startOne_begin comp (now o) c, MStarting (now o), [])
  | MStarting began =>
      match answer o with
      | None => Some (c, MStarted began, [Up comp])
      | Some e => Some (c, MFailed e, [])
      end
  | MStarted began => Some (startOne_ready comp began (now o) c, MDone None, [])
  | MFailed e => Some (startOne_failed comp c, MDone (Some (Wrapped "start" (c_Name comp) e)), [])
  | MDone _ => None
  end.

(** What a step makes of the coordinator and of its goroutine, the goroutines it
    starts and what it logs. *)
Definition outcome : Type := Coordinator * Thread * list Thread * list Event.
Definition goes (c : Coordinator) (t : Thread) : option outcome := Some (c, t, [], []).

Definition startStep (o : Choice) (members : list (Component * Phase)) (todo : list (Component * Z)) (c : Coordinator)
    : option outcome :=
  match mapM (λ m, r ← returned m.2; Some (m.1, r)) members with
  | Some done =>
      goes (startStep_record done c)
        match first_error done.*2 with Some e => Take (KUnwind e) | None => StartLoop todo end
  | None =>
      m ← members !! pick o;
      '(c', p, ev) ← startOne o m c;
      Some (c', StartStep (<[pick o := (m.1, p)]> members) todo, [], ev)
  end.

Definition stopComponents (o : Choice) (k : Caller) (todo : list Component) (mid : option Component) (errs : list error)
    (c : Coordinator) : option outcome :=
  match mid, todo with
  | Some comp, _ => goes (stopComponents_mark comp c) (Stopping k todo None errs)
  | None, comp :: todo =>
      let errs' := match answer o with None => errs | Some e => errs ++ [Wrapped "stop" (c_Name comp) e] end in
      Some (c, Stopping k todo (Some comp) errs', [], [Down k comp (answer o)])
  | None, [] =>
      match k with
      | KUnwind cause => goes (unwind_end cause c) (StartDone (Some cause))
      | KStop timedOut => let '(c', es) := Stop_errs c in goes c' (StopEnd timedOut (errs ++ es))
      end
  end.

Definition launch (next : list Worker → Thread) (last : Thread) (ws : list Worker) (c : Coordinator) : option outcome :=
  match ws with
  | [] => goes c last
  | w :: ws => Some (startWorker c, next ws, [WorkerRun w], [Ran w])
  end.

Definition tstep (o : Choice) (t : Thread) (c : Coordinator) : option outcome :=
  match t with
  | StartCall =>
      match Start_begin c with
      | Err e => goes c (StartDone (Some e))
      | Ok (c', todo) => Some (c', StartLoop todo, [], [Began (components c)])
      end
  | StartLoop [] => let '(c', ws) := Start_ready c in goes c' (StartLaunch ws)
  | StartLoop todo =>
      match answer o with
      | Some e => goes c (Take (KUnwind e))
      | None => goes c (StartStep ((λ comp, (comp, MNew)) <$> (nextStep todo).1) (nextStep todo).2)
      end
  | StartStep members todo => startStep o members todo c
  | StartLaunch ws => launch StartLaunch (StartDone None) ws c
  | Take k => let '(c', todo) := stopComponents_take c in goes c' (Stopping k todo None [])
  | Stopping k todo mid errs => stopComponents o k todo mid errs c
  | StopCall =>
      match Stop_begin c with
      | None => goes c (StopDone false [])
      | Some (c', cancel) => goes c' (StopCancel cancel)
      end
  | StopCancel cancel => goes (Stop_cancel cancel c) StopDrain
  | StopDrain =>
      if deadline o then goes c (Take (KStop true))
      else if bool_decide (workerWG c = 0) then goes c (Take (KStop false)) else None
  | StopEnd timedOut errs => goes (Stop_end c) (StopDone true (Stop_result timedOut errs))
  | RegCall ws =>
      let '(c', running) := RegisterWorker_add ws c in
      goes c' (if running then RegLaunch ws else RegDone)
  | RegLaunch ws => launch RegLaunch RegDone ws c
  | WorkerRun w =>
      match answer o with
      | None => goes c WorkerClosing
      | Some e => if is_Canceled e then goes c WorkerClosing else Some (c, WorkerFailed w e, [], [Gave w e])
      end
  | WorkerFailed w e => goes (worker_failed w e c) WorkerClosing
  | WorkerClosing => goes (worker_done c) WorkerDone
  | StartDone _ | StopDone _ _ | RegDone | WorkerDone => None
  end.

Record World := mkWorld { coord : Coordinator; threads : list Thread; log : list Event }.

Inductive Act :=
| ARegister (cs : list Component)
| ARegisterConcurrent (cs : list Component)
| ARegisterWorker (ws : list Worker)
| AStart
| AStop
| AStep (i : nat) (o : Choice).

Definition spawn (W : World) (t : Thread) : World := mkWorld (coord W) (threads W ++ [t]) (log W).

(** The log has the newest event last. *)
Definition perform (W : World) (a : Act) : option World :=
  match a with
  | ARegister cs => Some (mkWorld (Register cs (coord W)) (threads W) (log W))
  | ARegisterConcurrent cs => Some (mkWorld (RegisterConcurrent cs (coord W)) (threads W) (log W))
  | ARegisterWorker ws => Some (spawn W (RegCall ws))
  | AStart => Some (spawn W StartCall)
  | AStop => Some (spawn W StopCall)
  | AStep i o =>
      t ← threads W !! i;
      '(c, t', ts, ev) ← tstep o t (coord W);
      Some (mkWorld c (<[i := t']> (threads W) ++ ts) (log W ++ ev))
  end.

Definition initial (timeout : Duration) : World := mkWorld (New timeout) [] [].

Definition run (W : World) (acts : list Act) : option World := foldl (λ W a, W ≫= λ W, perform W a) (Some W) acts.

(** A call of Start or RegisterWorker that is under way. *)
Definition starting (t : Thread) : bool :=
  match t with
  | StartLoop _ | StartStep _ _ | StartLaunch _ | RegLaunch _ | Take (KUnwind _) | Stopping (KUnwind _) _ _ _ => true
  | _ => false
  end.

(** In a calm run Stop takes effect only between such calls, the way up.go calls
    it: after Start has returned. *)
Definition calm_act (W : World) (a : Act) : bool :=
  match a with
  | AStep i _ =>
      match threads W !! i with
      | Some StopCall => negb (existsb starting (threads W))
      | _ => true
      end
  | _ => true
  end.

Definition step (W W' : World) : Prop := ∃ a, perform W a = Some W'.
Definition calm_step (W W' : World) : Prop := ∃ a, calm_act W a = true ∧ perform W a = Some W'.
Definition reachable (W : World) : Prop := ∃ timeout, rtc step (initial timeout) W.
Definition calm (W : World) : Prop := ∃ timeout, rtc calm_step (initial timeout) W.

(** ** Readiness over HTTP (control.go) *)

Record componentTiming := mkComponentTiming { ct_StartedAt : Time; ReadyAfterMS : Z }.
Record readyResponse := mkReadyResponse {
  rr_Ready : bool;
  rr_State : string;
  rr_Components : gmap string bool;
  rr_Timing : gmap string componentTiming;
  rr_Error : option error
}.

Definition get_or_head (method : string) : bool := bool_decide (method = "GET") || bool_decide (method = "HEAD").

(** The status; [None] is the plain-text body of http.Error. *)
Definition handleHealth (method : string) : Z := if get_or_head method then 200%Z else 405%Z.

(** The handler reads the coordinator five times, each time as it then is. *)
Definition handleReady (method : string) (c1 c2 c3 c4 c5 : Coordinator) : Z * option readyResponse :=
  if negb (get_or_head method) then (405%Z, None)
  else
    let '(names, rdy) := SortedReady c1 in
    let comps := list_to_map ((λ n, (n, default false (rdy !! n))) <$> names) in
    let resp := mkReadyResponse (Ready c2) (State_String (state c3)) comps
      ((λ t, mkComponentTiming (StartedAt t) (Z.quot (ReadyAfter t) Millisecond)) <$> Timings c5) (failure c4) in
    ((if rr_Ready resp then 200 else 503)%Z, Some resp).

(** ** What one step does *)

Definition ups (l : list Event) : list Component := omap (λ e, match e with Up c => Some c | _ => None end) l.
Definition downs (l : list Event) : list Component := omap (λ e, match e with Down _ c _ => Some c | _ => None end) l.

(** The components that are up and in the hands of a goroutine, and the ones it
    has still to start. *)
Definition members_up (ms : list (Component * Phase)) : list Component := (filter (λ m, is_up m.2 = true) ms).*1.
Definition members_down (ms : list (Component * Phase)) : list Component := (filter (λ m, is_up m.2 = false) ms).*1.
Definition held (t : Thread) : list Component :=
  match t with
  | StartStep ms _ => members_up ms
  | Stopping _ todo _ _ => todo
  | _ => []
  end.
Definition pending (t : Thread) : list Component :=
  match t with
  | StartLoop todo => todo.*1
  | StartStep ms todo => members_down ms ++ todo.*1
  | _ => []
  end.

Definition all_returned (d : list (Component * option error)) : list (Component * Phase) :=
  (λ m, (m.1, MDone m.2)) <$> d.

(** The members of a group that returned nil are ready. *)
Definition members_ready (c : Coordinator) (ms : list (Component * Phase)) : Prop :=
  ∀ comp, (comp, MDone None) ∈ ms → ready c !! c_Name comp = Some true.
Definition thread_ready (c : Coordinator) (t : Thread) : Prop :=
  match t with StartStep ms _ => members_ready c ms | _ => True end.

Lemma returned_all ms d :
  mapM (λ m : Component * Phase, r ← returned m.2; Some (m.1, r)) ms = Some d → ms = all_returned d.
Proof.
  revert d. induction ms as [|[comp p] ms IH]; intros d; cbn; [by intros [= <-]|].
  destruct p; cbn; try done. destruct (mapM _ ms) as [d'|] eqn:Hd; cbn; [|done]. intros [= <-].
  cbn. f_equal. by apply IH.
Qed.

Lemma members_up_cons m ms : members_up (m :: ms) = (if is_up m.2 then [m.1] else []) ++ members_up ms.
Proof. unfold members_up. rewrite filter_cons_bool. by destruct (is_up m.2). Qed.
Lemma members_down_cons m ms : members_down (m :: ms) = (if is_up m.2 then [] else [m.1]) ++ members_down ms.
Proof. unfold members_down. rewrite filter_cons. destruct (is_up m.2); by case_decide. Qed.
Lemma members_up_app l k : members_up (l ++ k) = members_up l ++ members_up k.
Proof. unfold members_up. by rewrite filter_app, fmap_app. Qed.
Lemma members_down_app l k : members_down (l ++ k) = members_down l ++ members_down k.
Proof. unfold members_down. by rewrite filter_app, fmap_app. Qed.

Lemma members_split ms : members_up ms ++ members_down ms ≡ₚ ms.*1.
Proof.
  induction ms as [|m ms IH]; [done|]. rewrite members_up_cons, members_down_cons. cbn. rewrite <-IH.
  destruct (is_up m.2); cbn; solve_Permutation.
Qed.

Lemma members_new cs : members_up ((λ comp, (comp, MNew)) <$> cs) = [] ∧ members_down ((λ comp, (comp, MNew)) <$> cs) = cs.
Proof.
  induction cs as [|c cs [IH1 IH2]]; [done|]. cbn [fmap list_fmap]. rewrite members_up_cons, members_down_cons. cbn.
  by rewrite IH1, IH2.
Qed.

Lemma members_returned d : members_up (all_returned d) = (filter (λ m, m.2 = None) d).*1.
Proof.
  induction d as [|[comp r] d IH]; [done|]. cbn [all_returned fmap list_fmap].
  rewrite members_up_cons, filter_cons. unfold all_returned in IH. rewrite IH. by destruct r; case_decide.
Qed.

Lemma recorded_sublist d c : recorded d c `sublist_of` (filter (λ m, m.2 = None) d).*1.
Proof.
  assert (∀ d, (filter (λ m : Component * option error, m.2 = None ∧ ready c !! c_Name m.1 = Some true) d).*1
            `sublist_of` (filter (λ m, m.2 = None) d).*1) as Hs.
  { clear d. intros d. induction d as [|m d IH]; [done|]. rewrite !filter_cons.
    repeat case_decide; cbn; try naive_solver; [by apply sublist_skip|by apply sublist_cons]. }
  unfold recorded. destruct d as [|[comp [e|]] [|m d]]; try apply Hs; done.
Qed.

Lemma recorded_all d c : members_ready c (all_returned d) → recorded d c = (filter (λ m, m.2 = None) d).*1.
Proof.
  intros Hr.
  assert (∀ k, k ⊆ d → filter (λ m : Component * option error, m.2 = None ∧ ready c !! c_Name m.1 = Some true) k
                       = filter (λ m, m.2 = None) k) as Heq.
  { intros k. induction k as [|[comp r] k IH]; intros Hk; [done|]. rewrite !filter_cons, IH by set_solver.
    destruct r as [e|]; repeat case_decide; try naive_solver. exfalso.
    assert (ready c !! c_Name comp = Some true); [|naive_solver].
    apply Hr, list_elem_of_fmap. exists (comp, None). set_solver. }
  unfold recorded. destruct d as [|[comp [e|]] [|m d]]; try by rewrite Heq. done.
Qed.

Lemma nextStep_split todo : todo ≠ [] → (nextStep todo).1 ++ (nextStep todo).2.*1 = todo.*1.
Proof.
  destruct todo as [|[c g] rest]; [done|]. intros _. cbn. destruct (g =? 0)%Z; [done|]. cbn.
  by rewrite <-fmap_app, take_drop.
Qed.

(** A step of a member of a group. *)
Lemma startOne_split o ms p m c c' ph ev :
  ms !! p = Some m → startOne o m c = Some (c', ph, ev) →
  started c' = started c ∧ downs ev = [] ∧
  members_up (<[p := (m.1, ph)]> ms) ≡ₚ members_up ms ++ ups ev ∧
  members_up (<[p := (m.1, ph)]> ms) ++ members_down (<[p := (m.1, ph)]> ms) ≡ₚ members_up ms ++ members_down ms.
Proof.
  intros Hp Hs. assert ((<[p := (m.1, ph)]> ms).*1 = ms.*1) as Hfst.
  { rewrite list_fmap_insert. apply list_insert_id. by rewrite list_lookup_fmap, Hp. }
  rewrite !members_split, Hfst. destruct m as [comp q].
  assert (started c' = started c ∧ downs ev = [] ∧ ((if is_up ph then [comp] else []) ≡ₚ (if is_up q then [comp] else []) ++ ups ev))
    as (-> & -> & Hup).
  { revert Hs. unfold startOne. cbn. destruct q; try case_match; intros [=]; simplify_eq/=; done. }
  repeat split; [|done]. rewrite (insert_take_drop _ _ _ (lookup_lt_Some _ _ _ Hp)).
  rewrite <-(take_drop_middle ms p _ Hp) at 3. rewrite !members_up_app, !members_up_cons. cbn. rewrite Hup.
  solve_Permutation.
Qed.

(** Case analysis of a step that does not change the members of a group. *)
Ltac tstep_cases H :=
  cbn [tstep stopComponents launch goes Start_begin Start_ready stopComponents_take Stop_begin RegisterWorker_add Stop_errs] in H;
  unfold stopComponents, launch, goes, Start_begin, Start_ready, stopComponents_take, Stop_begin, RegisterWorker_add,
    Stop_errs, Stop_cancel in H;
  simplify_eq/=; repeat (case_match; simplify_eq/=).

(** A step of startStep: the members are recorded, or one of them goes on. *)
Lemma startStep_cases o ms todo c c' t' ts ev :
  startStep o ms todo c = Some (c', t', ts, ev) → ts = [] ∧
  ((∃ d, ms = all_returned d ∧ ev = [] ∧ c' = startStep_record d c ∧
         t' = match first_error d.*2 with Some e => Take (KUnwind e) | None => StartLoop todo end) ∨
   (∃ m ph, ms !! pick o = Some m ∧ startOne o m c = Some (c', ph, ev) ∧
         t' = StartStep (<[pick o := (m.1, ph)]> ms) todo)).
Proof.
  unfold startStep, goes. destruct (mapM _ ms) as [d|] eqn:Hd.
  - intros [= <- <- <- <-]. split; [done|]. left. exists d. by rewrite <-(returned_all _ _ Hd).
  - destruct (ms !! pick o) as [m|]; cbn; [|done]. destruct (startOne o m c) as [[[c0 ph] ev0]|] eqn:Hs; cbn; [|done].
    intros [= <- <- <- <-]. split; [done|]. right. by exists m, ph.
Qed.

(** The head of Start's loop: it is left, ctx is done, or the next step begins. *)
Lemma startLoop_cases o todo c c' t' ts ev :
  tstep o (StartLoop todo) c = Some (c', t', ts, ev) → ev = [] ∧ ts = [] ∧
  ((todo = [] ∧ c' = (Start_ready c).1 ∧ t' = StartLaunch (workers c)) ∨
   (todo ≠ [] ∧ c' = c ∧
    ((∃ e, t' = Take (KUnwind e)) ∨ t' = StartStep ((λ comp, (comp, MNew)) <$> (nextStep todo).1) (nextStep todo).2))).
Proof.
  destruct todo as [|m todo]; cbn [tstep]; [intros [= <- <- <- <-]; naive_solver|].
  destruct (answer o) as [e|]; intros [= <- <- <- <-]; (repeat split; [done..|]); right; eauto.
Qed.

Lemma tstep_spawned o t c c' t' ts ev :
  tstep o t c = Some (c', t', ts, ev) → Forall (λ t, ∃ w, t = WorkerRun w) ts.
Proof.
  intros H. destruct t; try (tstep_cases H; repeat constructor; eauto; done).
  apply startStep_cases in H as [-> _]. done.
Qed.

(** What was up or came up is still up, in the same hands, or was stopped. *)
Lemma tstep_up o t c c' t' ts ev :
  tstep o t c = Some (c', t', ts, ev) → thread_ready c t →
  started c ++ held t ++ ups ev ≡ₚ downs ev ++ started c' ++ held t'.
Proof.
  intros H Hr. destruct t as [|todo|ms todo| | |k|k todo mid errs| | | | | | | | | | | |]; try (tstep_cases H; solve_Permutation).
  - apply startLoop_cases in H as (-> & _ & [(-> & -> & ->)|(_ & -> & [[e ->]| ->])]); cbn; [solve_Permutation..|].
    by rewrite (proj1 (members_new _)), (right_id_L [] (++)).
  - apply startStep_cases in H as [_ [(d & -> & -> & -> & ->)|(m & ph & Hm & Hs & ->)]].
    + cbn in *. rewrite members_returned, (recorded_all _ _ Hr). case_match; cbn; solve_Permutation.
    + destruct (startOne_split _ _ _ _ _ _ _ _ Hm Hs) as (-> & -> & Hup & _). cbn. by rewrite Hup.
  - tstep_cases H. rewrite reverse_Permutation. solve_Permutation.
Qed.

(** No component comes into play but by Start's snapshot. *)
Lemma tstep_stake o t c c' t' ts ev :
  tstep o t c = Some (c', t', ts, ev) → (t = StartCall → state c ≠ StateNew) →
  downs ev ++ started c' ++ held t' ++ pending t' ⊆+ started c ++ held t ++ pending t.
Proof.
  intros H Hn. destruct t as [|todo|ms todo| | |k|k todo mid errs| | | | | | | | | | | |];
    try (tstep_cases H; solve_submseteq).
  - cbn [tstep] in H. unfold Start_begin, goes in H. rewrite bool_decide_false in H by auto. simplify_eq/=. solve_submseteq.
  - apply startLoop_cases in H as (-> & _ & [(-> & -> & ->)|(Hne & -> & [[e ->]| ->])]); cbn; [solve_submseteq..|].
    destruct (members_new (nextStep todo).1) as [-> ->]. cbn. by rewrite (nextStep_split todo Hne).
  - apply startStep_cases in H as [_ [(d & -> & -> & -> & ->)|(m & ph & Hm & Hs & ->)]].
    + cbn. rewrite members_returned, <-(assoc_L (++)). apply submseteq_skips_l, submseteq_app.
      { apply sublist_submseteq, recorded_sublist. }
      case_match; cbn; [apply submseteq_nil_l|solve_submseteq].
    + destruct (startOne_split _ _ _ _ _ _ _ _ Hm Hs) as (-> & -> & _ & Hall). cbn.
      rewrite !(assoc_L (++)). rewrite <-!(assoc_L (++)), (assoc_L (++) (members_up _) (members_down _)), Hall.
      solve_submseteq.
  - tstep_cases H. rewrite reverse_Permutation. solve_submseteq.
Qed.

Lemma startOne_frame o m c c' ph ev :
  startOne o m c = Some (c', ph, ev) →
  components c' = components c ∧ groups c' = groups c ∧ state c' = state c ∧ workerWG c' = workerWG c ∧
  workerErrs c' = workerErrs c ∧
  (∀ n, n ≠ c_Name m.1 → ready c' !! n = ready c !! n) ∧ (ph = MDone None → ready c' !! c_Name m.1 = Some true).
Proof.
  destruct m as [comp p]. unfold startOne. cbn. intros H.
  destruct p; repeat case_match; simplify_eq/=; repeat split; try done; intros; simplify_map_eq; done.
Qed.

(** Only Start and stopComponents write readiness, of a component in their hands. *)
Definition touched (t : Thread) : list Component :=
  match t with
  | StartStep ms _ => ms.*1
  | Stopping _ _ (Some comp) _ => [comp]
  | _ => []
  end.

Lemma tstep_frame o t c c' t' ts ev :
  tstep o t c = Some (c', t', ts, ev) →
  components c' = components c ∧ groups c' = groups c ∧
  (∀ n, n ∉ c_Name <$> touched t → ready c' !! n = ready c !! n).
Proof.
  intros H. destruct t as [|todo|ms todo| | |k|k todo mid errs| | | | | | | | | | | |];
    try (tstep_cases H; repeat split; intros; try done; rewrite lookup_insert_ne by set_solver; done).
  apply startStep_cases in H as [_ [(d & -> & -> & -> & ->)|(m & ph & Hm & Hs & ->)]]; [done|].
  apply startOne_frame in Hs as (-> & -> & _ & _ & _ & Hn & _). repeat split. intros n Hne. apply Hn. intros ->.
  apply Hne. apply list_elem_of_fmap. exists m.1. split; [done|]. apply list_elem_of_fmap. exists m.
  by split; [|eapply list_elem_of_lookup_2].
Qed.

(** Threads of a coordinator that has not been started or stopped. *)
Definition fresh (t : Thread) : bool :=
  match t with StartCall | StopCall | RegCall _ | RegDone => true | _ => false end.

Lemma tstep_new o t c c' t' ts ev :
  tstep o t c = Some (c', t', ts, ev) → fresh t = true → state c' = StateNew →
  state c = StateNew ∧ started c' = started c ∧ fresh t' = true ∧ ts = [] ∧ ev = [] ∧ t ≠ StartCall.
Proof. intros H Hf Hn. destruct t; try done; tstep_cases H; bool_prop; try done; congruence. Qed.

Lemma tstep_state_new o t c c' t' ts ev :
  tstep o t c = Some (c', t', ts, ev) → state c' = StateNew → state c = StateNew.
Proof.
  intros H. destruct t; try (tstep_cases H; done).
  apply startStep_cases in H as [_ [(d & -> & -> & -> & ->)|(m & ph & Hm & Hs & ->)]]; [done|].
  by apply startOne_frame in Hs as (_ & _ & -> & _).
Qed.

(** ** Ownership *)

Definition names (W : World) : list string := ComponentNames (coord W).
Definition in_hand (W : World) : list Component := started (coord W) ++ (threads W ≫= held).
Definition in_play (W : World) : list Component :=
  downs (log W) ++ started (coord W) ++ (threads W ≫= λ t, held t ++ pending t).

Record Inv (W : World) : Prop := {
  inv_groups : length (groups (coord W)) = length (components (coord W));
  inv_new : state (coord W) = StateNew → started (coord W) = [] ∧ log W = [] ∧ Forall (λ t, fresh t = true) (threads W);
  inv_play : in_play W ⊆+ components (coord W);
  inv_mid k todo m errs : Stopping k todo (Some m) errs ∈ threads W → m ∈ downs (log W);
  inv_ready : NoDup (names W) → Forall (thread_ready (coord W)) (threads W);
  inv_up : NoDup (names W) → ups (log W) ≡ₚ downs (log W) ++ in_hand W
}.

Lemma perform_split W i o W' :
  perform W (AStep i o) = Some W' →
  ∃ t c' t' ts ev l1 l2, threads W !! i = Some t ∧ threads W = l1 ++ t :: l2 ∧
    tstep o t (coord W) = Some (c', t', ts, ev) ∧ W' = mkWorld c' (l1 ++ t' :: l2 ++ ts) (log W ++ ev).
Proof.
  cbn. destruct (threads W !! i) as [t|] eqn:Ht; cbn; [|done].
  destruct (tstep o t (coord W)) as [[[[c' t'] ts] ev]|] eqn:Hs; cbn; [|done]. intros [= <-].
  exists t, c', t', ts, ev, (take i (threads W)), (drop (S i) (threads W)). split_and!; [done| |done|].
  - by rewrite take_drop_middle.
  - rewrite (insert_take_drop _ _ _ (lookup_lt_Some _ _ _ Ht)). by rewrite <-(assoc_L (++)).
Qed.

(** The calls add a goroutine or components, and nothing else. *)
Inductive called (W : World) : World → Prop :=
| called_thread t : fresh t = true → called W (spawn W t)
| called_components cs gs next :
    length cs = length gs →
    called W (mkWorld (set_components (coord W) (components (coord W) ++ cs) (groups (coord W) ++ gs) next) (threads W) (log W)).

Lemma perform_called W a W' : perform W a = Some W' → (∃ i o, a = AStep i o) ∨ called W W'.
Proof.
  destruct a; cbn; try (intros [= <-]; right; constructor; try done; by rewrite length_replicate). eauto.
Qed.

Lemma ups_app l k : ups (l ++ k) = ups l ++ ups k.
Proof. apply omap_app. Qed.
Lemma downs_app l k : downs (l ++ k) = downs l ++ downs k.
Proof. apply omap_app. Qed.

Lemma fresh_nothing t : fresh t = true → held t = [] ∧ pending t = [] ∧ touched t = [] ∧ ∀ c, thread_ready c t.
Proof. by destruct t. Qed.

Lemma called_Inv W W' : Inv W → called W W' → Inv W'.
Proof.
  intros [Hg Hnew Hp Hm Hr Hu] [t Hf|cs gs next Hl].
  - destruct (fresh_nothing t Hf) as (Hh & Hpe & _ & Hre).
    constructor; cbn; unfold names, in_hand, in_play in *; cbn; try done.
    + intros Hs. destruct (Hnew Hs) as (? & ? & ?). rewrite Forall_app. auto.
    + rewrite bind_app. cbn. rewrite Hh, Hpe. cbn. by rewrite (right_id_L [] (++)).
    + intros k todo m errs [Hin|Hin]%elem_of_app; [eauto|]. apply list_elem_of_singleton in Hin as <-. done.
    + intros Hn. rewrite Forall_app. auto.
    + intros Hn. rewrite bind_app. cbn. rewrite Hh. cbn. rewrite (right_id_L [] (++)). auto.
  - assert (NoDup (c_Name <$> components (coord W) ++ cs) → NoDup (names W)) as Hn.
    { rewrite fmap_app. by intros [? _]%NoDup_app. }
    constructor; cbn; unfold names, ComponentNames, in_hand, in_play in *; cbn; eauto.
    + rewrite !length_app. lia.
    + by apply submseteq_inserts_r.
Qed.

Lemma names_apart (A B : list Component) x y :
  NoDup (c_Name <$> A ++ B) → x ∈ A → y ∈ B → c_Name x ≠ c_Name y.
Proof.
  rewrite fmap_app. intros (_ & Hd & _)%NoDup_app Hx Hy Heq. apply (Hd (c_Name x)).
  - apply list_elem_of_fmap. by exists x.
  - rewrite Heq. apply list_elem_of_fmap. by exists y.
Qed.

Lemma in_play_split W l1 t l2 :
  threads W = l1 ++ t :: l2 →
  in_play W ≡ₚ (downs (log W) ++ held t ++ pending t) ++ started (coord W) ++ ((l1 ++ l2) ≫= λ t, held t ++ pending t).
Proof. intros Hts. unfold in_play. rewrite Hts, !bind_app, bind_cons. solve_Permutation. Qed.

Lemma in_play_NoDup W : Inv W → NoDup (names W) → NoDup (c_Name <$> in_play W).
Proof.
  intros HI Hn. pose proof (inv_play W HI) as [k Hk]%submseteq_Permutation.
  unfold names, ComponentNames in Hn. rewrite Hk, fmap_app in Hn. by apply NoDup_app in Hn as [? _].
Qed.

Lemma members_up_in comp ms : (comp, MDone None) ∈ ms → comp ∈ members_up ms.
Proof. intros Hin. apply list_elem_of_fmap. exists (comp, MDone None). split; [done|]. by apply list_elem_of_filter. Qed.

(** What a step writes is ready of no other goroutine's member. *)
Lemma other_thread_ready W i o t c' t' ts ev l1 l2 u :
  Inv W → NoDup (names W) → threads W = l1 ++ t :: l2 → threads W !! i = Some t →
  tstep o t (coord W) = Some (c', t', ts, ev) → u ∈ l1 ++ l2 → thread_ready c' u.
Proof.
  intros HI Hn Hts Ht Hs Hu.
  assert (thread_ready (coord W) u) as Hr.
  { apply (proj1 (Forall_forall _ _) (inv_ready W HI Hn)). rewrite Hts. set_solver. }
  destruct u as [| |ms todo| | | | | | | | | | | | | | | |]; try done.
  intros comp Hc. destruct (tstep_frame _ _ _ _ _ _ _ Hs) as (_ & _ & ->); [by apply Hr|].
  intros (x & Hx & Hin)%list_elem_of_fmap. revert Hx. apply not_eq_sym.
  apply (names_apart (downs (log W) ++ held t ++ pending t)
           (started (coord W) ++ ((l1 ++ l2) ≫= λ t, held t ++ pending t))).
  - rewrite <-(in_play_split W l1 t l2 Hts). by apply in_play_NoDup.
  - destruct t as [| |ms' todo'| | | |k todo' [m|] errs| | | | | | | | | | | |]; cbn in Hin; try (by apply not_elem_of_nil in Hin).
    + rewrite !elem_of_app. right. rewrite <-members_split, elem_of_app in Hin. cbn. set_solver.
    + apply list_elem_of_singleton in Hin as ->. apply elem_of_app. left. eapply (inv_mid W HI).
      by eapply list_elem_of_lookup_2.
  - apply elem_of_app. right. apply list_elem_of_bind. exists (StartStep ms todo). split; [|done]. cbn.
    apply elem_of_app. left. by apply members_up_in.
Qed.

(** Nor of another member of its own group. *)
Lemma own_thread_ready o t c c' t' ts ev :
  NoDup (c_Name <$> held t ++ pending t) → thread_ready c t →
  tstep o t c = Some (c', t', ts, ev) → thread_ready c' t'.
Proof.
  intros Hd Hr H. destruct t as [|todo|ms todo| | |k|k todo mid errs| | | | | | | | | | | |];
    try (tstep_cases H; done).
  - apply startLoop_cases in H as (-> & _ & [(-> & -> & ->)|(Hne & -> & [[e ->]| ->])]); [done..|].
    intros comp (x & Hx & _)%list_elem_of_fmap. done.
  - apply startStep_cases in H as [_ [(d & -> & -> & -> & ->)|(m & ph & Hm & Hs & ->)]]; [by case_match|].
    destruct (startOne_frame _ _ _ _ _ _ Hs) as (_ & _ & _ & _ & _ & Hw & Hnew).
    intros comp (j & Hj)%list_elem_of_lookup. destruct (decide (j = pick o)) as [->|Hne].
    + rewrite list_lookup_insert_eq in Hj by (by eapply lookup_lt_Some). injection Hj as <- ->. auto.
    + rewrite list_lookup_insert_ne in Hj by done. rewrite Hw; [apply Hr; by eapply list_elem_of_lookup_2|].
      assert (NoDup (c_Name <$> ms.*1)) as Hms.
      { cbn in Hd. rewrite (assoc_L (++)), members_split, fmap_app in Hd. by apply NoDup_app in Hd as [? _]. }
      intros Heq. apply Hne. eapply (NoDup_lookup _ _ _ _ Hms); rewrite !list_lookup_fmap, ?Hj, ?Hm; cbn; by f_equal.
Qed.

Lemma inert_bind (f : Thread → list Component) ts :
  (∀ w, f (WorkerRun w) = []) → Forall (λ t, ∃ w, t = WorkerRun w) ts → ts ≫= f = [].
Proof. intros Hf. induction 1 as [|t ts [w ->] _ IH]; [done|]. by rewrite bind_cons, Hf, IH. Qed.

Lemma fresh_bind (f : Thread → list Component) ts :
  (∀ t, fresh t = true → f t = []) → Forall (λ t, fresh t = true) ts → ts ≫= f = [].
Proof. intros Hf. induction 1 as [|t ts Ht _ IH]; [done|]. by rewrite bind_cons, Hf, IH. Qed.

(** The components in play after a step. *)
Lemma step_play W o t c' t' ts ev l1 l2 :
  Inv W → threads W = l1 ++ t :: l2 → tstep o t (coord W) = Some (c', t', ts, ev) →
  in_play (mkWorld c' (l1 ++ t' :: l2 ++ ts) (log W ++ ev)) ⊆+ components c'.
Proof.
  intros HI Hts Hs. destruct (tstep_frame _ _ _ _ _ _ _ Hs) as (-> & _).
  pose proof (inert_bind (λ t, held t ++ pending t) ts (λ w, eq_refl) (tstep_spawned _ _ _ _ _ _ _ Hs)) as Hsp.
  rewrite (in_play_split (mkWorld c' (l1 ++ t' :: l2 ++ ts) (log W ++ ev)) l1 t' (l2 ++ ts) eq_refl). cbn [log coord].
  rewrite (assoc_L (++) l1 l2 ts), bind_app, Hsp, (right_id_L [] (++)).
  assert ((t = StartCall ∧ state (coord W) = StateNew) ∨ (t = StartCall → state (coord W) ≠ StateNew)) as [[-> Hn]|Hne].
  { destruct (decide (state (coord W) = StateNew)); [destruct t; auto; by right|auto]. }
  - destruct (inv_new W HI Hn) as (Hst & Hlog & Hfr). rewrite Hts, Forall_app, Forall_cons in Hfr.
    destruct Hfr as (Hf1 & _ & Hf2). rewrite bind_app.
    assert (∀ t, fresh t = true → held t ++ pending t = []) as Hf by (by intros []).
    rewrite (fresh_bind _ l1 Hf Hf1), (fresh_bind _ l2 Hf Hf2).
    cbn in Hs. unfold Start_begin in Hs. rewrite bool_decide_true in Hs by done. simplify_eq/=.
    rewrite Hst, Hlog. cbn. rewrite (right_id_L [] (++)), fst_zip; [done|]. rewrite (inv_groups W HI). done.
  - transitivity (in_play W); [|apply (inv_play W HI)]. rewrite (in_play_split W l1 t l2 Hts), downs_app.
    pose proof (tstep_stake _ _ _ _ _ _ _ Hs Hne) as Hk.
    transitivity (downs (log W) ++ (downs ev ++ started c' ++ held t' ++ pending t') ++ ((l1 ++ l2) ≫= λ t, held t ++ pending t)).
    { apply Permutation_submseteq. solve_Permutation. }
    transitivity (downs (log W) ++ (started (coord W) ++ held t ++ pending t) ++ ((l1 ++ l2) ≫= λ t, held t ++ pending t)).
    { by apply submseteq_skips_l, submseteq_skips_r. }
    apply Permutation_submseteq. solve_Permutation.
Qed.

Lemma step_mid o t c c' k todo m errs ts ev :
  tstep o t c = Some (c', Stopping k todo (Some m) errs, ts, ev) → m ∈ downs ev.
Proof.
  intros H. destruct t; try (tstep_cases H; try done; try set_solver; fail).
  apply startStep_cases in H as [_ [(d & -> & -> & -> & H)|(mm & ph & Hm & Hs & H)]]; [|done]. by case_match.
Qed.

Lemma step_Inv W W' : Inv W → step W W' → Inv W'.
Proof.
  intros HI [a Ha]. destruct (perform_called W a W' Ha) as [(i & o & ->)|Hc]; [|by eapply called_Inv].
  destruct (perform_split _ _ _ _ Ha) as (t & c' & t' & ts & ev & l1 & l2 & Ht & Hts & Hs & ->).
  destruct (tstep_frame _ _ _ _ _ _ _ Hs) as (Hcs & Hgs & _). pose proof (tstep_spawned _ _ _ _ _ _ _ Hs) as Hsp.
  assert (∀ W', components (coord W') = components (coord W) → names W' = names W) as Hnames.
  { intros W'. unfold names, ComponentNames. by intros ->. }
  assert (NoDup (names W) → thread_ready (coord W) t) as Hrt.
  { intros Hn. apply (proj1 (Forall_forall _ _) (inv_ready W HI Hn)). rewrite Hts. set_solver. }
  constructor; cbn; rewrite ?(Hnames (mkWorld c' (l1 ++ t' :: l2 ++ ts) (log W ++ ev)) Hcs).
  - rewrite Hcs, Hgs. apply (inv_groups W HI).
  - intros Hn'. pose proof (tstep_state_new _ _ _ _ _ _ _ Hs Hn') as Hn.
    destruct (inv_new W HI Hn) as (Hst & Hlog & Hfr). rewrite Hts, Forall_app, Forall_cons in Hfr.
    destruct Hfr as (Hf1 & Hft & Hf2). destruct (tstep_new _ _ _ _ _ _ _ Hs Hft Hn') as (_ & -> & ? & -> & -> & _).
    rewrite Hst, Hlog, Forall_app, Forall_cons, !(right_id_L [] (++)). auto.
  - by eapply step_play.
  - intros k todo m errs Hin. rewrite downs_app, elem_of_app.
    assert (Stopping k todo (Some m) errs = t' ∨ Stopping k todo (Some m) errs ∈ threads W) as [Heq|Hin'].
    { rewrite Hts. rewrite Forall_forall in Hsp. rewrite elem_of_app, elem_of_cons, elem_of_app in Hin.
      destruct Hin as [?|[?|[?|Hw]]]; [set_solver..|]. by destruct (Hsp _ Hw). }
    + right. subst t'. by eapply step_mid.
    + left. by eapply (inv_mid W HI).
  - intros Hn. rewrite !Forall_app, Forall_cons, Forall_app.
    assert (Forall (thread_ready c') (l1 ++ l2)) as [H1 H2]%Forall_app.
    { apply Forall_forall. intros u Hu. by eapply (other_thread_ready W i o t). }
    split_and!; [done| |done|]; [|eapply Forall_impl; [exact Hsp|]; by intros ? [w ->]].
    eapply own_thread_ready; [|by apply Hrt|exact Hs].
    pose proof (in_play_NoDup W HI Hn) as Hd. rewrite (in_play_split W l1 t l2 Hts), !fmap_app in Hd. rewrite fmap_app.
    apply NoDup_app in Hd as [(_ & _ & ?)%NoDup_app _]. done.
  - intros Hn. rewrite ups_app, downs_app, (inv_up W HI Hn).
    unfold in_hand. cbn. rewrite Hts, !bind_app, !bind_cons, bind_app, (inert_bind held ts (λ w, eq_refl) Hsp).
    pose proof (tstep_up _ _ _ _ _ _ _ Hs (Hrt Hn)) as Hup.
    transitivity (downs (log W) ++ (started (coord W) ++ held t ++ ups ev) ++ (l1 ≫= held) ++ (l2 ≫= held)); [solve_Permutation|].
    rewrite Hup. solve_Permutation.
Qed.

Lemma lifecycle_Inv W : reachable W → Inv W.
Proof.
  intros [timeout Hr]. refine (rtc_invariant _ _ _ _ step_Inv _ Hr). constructor; cbn; try done.
  intros ???? []%not_elem_of_nil.
Qed.

(** ** Workers and reports *)

(** A worker that has not left the wait group. *)
Definition working (t : Thread) : nat :=
  match t with WorkerRun _ | WorkerFailed _ _ | WorkerClosing => 1 | _ => 0 end.

(** The errors a Stop has collected, or has answered. *)
Definition report (t : Thread) : list error :=
  match t with
  | Stopping (KStop _) _ _ errs | StopEnd _ errs | StopDone true errs => errs
  | _ => []
  end.

Record Reports (W : World) : Prop := {
  rep_working : workerWG (coord W) = sum_list_with working (threads W);
  rep_worker w e :
    Gave w e ∈ log W →
    WorkerFailed w e ∈ threads W ∨ Wrapped "worker" (w_Name w) e ∈ workerErrs (coord W) ∨
    ∃ t, t ∈ threads W ∧ Wrapped "worker" (w_Name w) e ∈ report t;
  rep_stop b comp e :
    Down (KStop b) comp (Some e) ∈ log W →
    ∃ t, t ∈ threads W ∧ Wrapped "stop" (c_Name comp) e ∈ report t
}.

Lemma tstep_working o t c c' t' ts ev :
  tstep o t c = Some (c', t', ts, ev) → working t ≤ workerWG c →
  workerWG c' + working t = workerWG c + working t' + sum_list_with working ts.
Proof.
  intros H Hw. destruct t as [|todo|ms todo| | |k|k todo mid errs| | | | | | | | | | | |]; try (tstep_cases H; lia).
  apply startStep_cases in H as [-> [(d & -> & -> & -> & ->)|(m & ph & Hm & Hs & ->)]]; [case_match; cbn; lia|].
  apply startOne_frame in Hs as (_ & _ & _ & -> & _). cbn. lia.
Qed.

(** A report is never lost, and what a step logs or takes is reported. *)
Lemma tstep_report o t c c' t' ts ev :
  tstep o t c = Some (c', t', ts, ev) →
  (∀ e, e ∈ report t → e ∈ report t') ∧
  (∀ e, e ∈ workerErrs c → e ∈ workerErrs c' ∨ e ∈ report t' ∨ workerErrs c' = workerErrs c) ∧
  (∀ w e, t = WorkerFailed w e → Wrapped "worker" (w_Name w) e ∈ workerErrs c') ∧
  (∀ w e, Gave w e ∈ ev → t' = WorkerFailed w e) ∧
  (∀ b comp e, Down (KStop b) comp (Some e) ∈ ev → Wrapped "stop" (c_Name comp) e ∈ report t').
Proof.
  intros H. destruct t as [|todo|ms todo| | |k|k todo mid errs| | | | | | | | | | | |];
    try (tstep_cases H; unfold Stop_result; repeat case_match; split_and!; intros; set_solver).
  apply startStep_cases in H as [-> [(d & -> & -> & -> & ->)|(m & ph & Hm & Hs & ->)]];
    [case_match; split_and!; intros; cbn in *; set_solver|].
  pose proof (startOne_frame _ _ _ _ _ _ Hs) as (_ & _ & _ & _ & He & _). rewrite He.
  revert Hs. unfold startOne. intros Hs. repeat case_match; simplify_eq/=; split_and!; intros; set_solver.
Qed.

Lemma step_Reports W W' : Reports W → step W W' → Reports W'.
Proof.
  intros [Hw Hg Hd] [a Ha]. destruct (perform_called W a W' Ha) as [(i & o & ->)|[t Hf|cs gs next _]].
  - destruct (perform_split _ _ _ _ Ha) as (t & c' & t' & ts & ev & l1 & l2 & Ht & Hts & Hs & ->).
    destruct (tstep_report _ _ _ _ _ _ _ Hs) as (Hk & Hes & Hfl & Hgv & Hdn).
    assert (∀ e, (∃ u, u ∈ threads W ∧ e ∈ report u) → ∃ u, u ∈ l1 ++ t' :: l2 ++ ts ∧ e ∈ report u) as Hkeep.
    { intros e (u & Hu & He). rewrite Hts, elem_of_app, elem_of_cons in Hu.
      destruct Hu as [?|[->|?]]; [exists u; set_solver|exists t'; set_solver|exists u; set_solver]. }
    constructor; cbn.
    + rewrite Hts, sum_list_with_app in Hw. cbn in Hw.
      pose proof (tstep_working _ _ _ _ _ _ _ Hs ltac:(lia)).
      rewrite sum_list_with_app. cbn. rewrite sum_list_with_app. lia.
    + intros w e [Hin|Hin]%elem_of_app; [|left; rewrite (Hgv w e Hin); set_solver].
      destruct (Hg w e Hin) as [Hin'|[Hin'|Hin']]; [| |auto].
      * rewrite Hts, elem_of_app, elem_of_cons in Hin'. destruct Hin' as [?|[<-|?]]; [set_solver| |set_solver].
        right. left. by apply Hfl.
      * right. destruct (Hes _ Hin') as [?|[?|Heq]]; [by left| |left; by rewrite Heq].
        right. exists t'. set_solver.
    + intros b comp e [Hin|Hin]%elem_of_app; [eauto|]. exists t'. split; [set_solver|eauto].
  - constructor; cbn.
    + rewrite sum_list_with_app, Hw. cbn. destruct t; try done; cbn; lia.
    + intros w e Hin. destruct (Hg w e Hin) as [?|[?|(u & ? & ?)]]; [set_solver|auto|].
      right; right. exists u. set_solver.
    + intros b comp e Hin. destruct (Hd b comp e Hin) as (u & ? & ?). exists u. set_solver.
  - constructor; cbn; auto.
Qed.

Lemma reachable_Reports W : reachable W → Reports W.
Proof.
  intros [timeout Hr]. refine (rtc_invariant _ _ _ _ step_Reports _ Hr). constructor; cbn; [done|..]; set_solver.
Qed.

(** ** Calm runs *)

(** The goroutines that take the coordinator from one state to the next; a call
    of Stop that did the work counts to the end. *)
Definition active (t : Thread) : bool :=
  match t with
  | StartLoop _ | StartStep _ _ | StartLaunch _ | Take _ | Stopping _ _ _ _ | StopCancel _ | StopDrain | StopEnd _ _
  | StopDone true _ => true
  | _ => false
  end.
Definition mains (ts : list Thread) : list Thread := filter (λ t, active t = true) ts.

(** What Start has still to go through. *)
Definition coming (t : Thread) : option (list Component) :=
  match t with
  | StartLoop todo => Some todo.*1
  | StartStep ms todo => Some (ms.*1 ++ todo.*1)
  | _ => None
  end.

Definition state_of (k : Caller) : State :=
  match k with KUnwind _ => StateStarting | KStop _ => StateStopping end.

(** [cs] are the components Start was called with. *)
Definition snapshot (c : Coordinator) (l : list Event) (cs : list Component) : Prop :=
  Began cs ∈ l ∧ cs `prefix_of` components c.

(** [cs] can be stopped next, in that order. *)
Definition in_order (c : Coordinator) (l : list Event) (cs : list Component) : Prop :=
  downs l ++ cs `sublist_of` reverse (components c).

(** One goroutine at most is active, and its place says what has been done. *)
Inductive Driver (c : Coordinator) (l : list Event) : list Thread → Prop :=
| DNew : state c = StateNew → started c = [] → downs l = [] → Driver c l []
| DLoop t cs :
    state c = StateStarting → coming t = Some cs → downs l = [] → snapshot c l (started c ++ cs) → Driver c l [t]
| DTake k : state c = state_of k → in_order c l (reverse (started c)) → Driver c l [Take k]
| DStopping k todo mid errs :
    state c = state_of k → started c = [] → in_order c l todo → Driver c l [Stopping k todo mid errs]
| DReady m :
    state c = StateReady → m = [] ∨ (∃ ws, m = [StartLaunch ws]) → downs l = [] → snapshot c l (started c) → Driver c l m
| DFailed : state c = StateFailed → started c = [] → in_order c l [] → Driver c l []
| DStop t : state c = StateStopping → (∃ b, t = StopCancel b) ∨ t = StopDrain → in_order c l (reverse (started c)) → Driver c l [t]
| DEnd timedOut errs :
    state c = StateStopping → started c = [] → in_order c l [] → Driver c l [StopEnd timedOut errs]
| DStopped r : state c = StateStopped → started c = [] → in_order c l [] → Driver c l [StopDone true r].

(** Once Stop has seen the workers return, none of them works. *)
Definition drained (c : Coordinator) (t : Thread) : Prop :=
  match t with
  | Take (KStop false) | Stopping (KStop false) _ _ _ => workerWG c = 0
  | StopEnd false _ => workerWG c = 0 ∧ workerErrs c = []
  | StopDone true r => ErrShutdownTimeout ∈ r ∨ (workerWG c = 0 ∧ workerErrs c = [])
  | _ => True
  end.

Record Calm (W : World) : Prop := {
  calm_driver : Driver (coord W) (log W) (mains (threads W));
  calm_launch ws : RegLaunch ws ∈ threads W → state (coord W) = StateReady;
  calm_drained : Forall (drained (coord W)) (mains (threads W))
}.

Lemma mains_app l k : mains (l ++ k) = mains l ++ mains k.
Proof. apply filter_app. Qed.
Lemma mains_cons t l : mains (t :: l) = (if active t then [t] else []) ++ mains l.
Proof. unfold mains. rewrite filter_cons_bool. by destruct (active t). Qed.

(** Registering more components changes nothing of it. *)
Lemma Driver_more c l m cs gs next :
  Driver c l m → Driver (set_components c (components c ++ cs) gs next) l m.
Proof.
  assert (∀ k, in_order c l k → in_order (set_components c (components c ++ cs) gs next) l k) as Hord.
  { intros k Hk. unfold in_order in *. cbn [components set_components]. rewrite reverse_app. by apply sublist_inserts_l. }
  assert (∀ k, snapshot c l k → snapshot (set_components c (components c ++ cs) gs next) l k) as Hsn.
  { intros k [? ?]. split; [done|]. by apply prefix_app_r. }
  destruct 1; [eapply DNew|eapply DLoop|eapply DTake|eapply DStopping|eapply DReady|eapply DFailed|eapply DStop|eapply DEnd|eapply DStopped];
    cbn; eauto.
Qed.

(** A snapshot that is all started is in order to be stopped. *)
Lemma snapshot_in_order c l k cs :
  downs l = [] → snapshot c l (cs ++ k) → in_order c l (reverse cs).
Proof.
  intros Hd [_ [r Hp]]. unfold in_order. rewrite Hd, Hp, <-(assoc_L (++)), (reverse_app cs). cbn.
  by apply sublist_inserts_l.
Qed.

Lemma snapshot_cons c l ev cs : snapshot c l cs → snapshot c (l ++ ev) cs.
Proof. intros [? ?]. split; [set_solver|done]. Qed.

Lemma first_error_none errs : first_error errs = None → Forall (λ e, e = None) errs.
Proof.
  unfold first_error. assert (∀ f e, foldl better (Some f) e ≠ None) as Hs.
  { intros f e. revert f. induction e as [|[e|] es IH]; intros f; cbn; [done| |apply IH]. case_match; apply IH. }
  induction errs as [|[e|] es IH]; cbn; [constructor|by intros ?%Hs|]. constructor; auto.
Qed.

Lemma recorded_succeeded d c :
  members_ready c (all_returned d) → first_error d.*2 = None → recorded d c = d.*1.
Proof.
  intros Hr He%first_error_none. rewrite (recorded_all _ _ Hr). f_equal. clear Hr.
  induction d as [|m d IH]; [done|]. cbn in He. apply Forall_cons in He as [Hm Hd].
  rewrite filter_cons, decide_True by done. by rewrite IH.
Qed.

(** startStep answers the first error in registration order that is not a
    cancellation, and the first cancellation when all errors are. *)
Theorem first_error_is_the_cause errs :
  first_error errs =
    match filter (λ e, is_Canceled e = false) (omap id errs) with
    | e :: _ => Some e
    | [] => head (omap id errs)
    end.
Proof.
  unfold first_error.
  assert (∀ f es, foldl better (Some f) es =
    if is_Canceled f
    then match filter (λ e, is_Canceled e = false) (omap id es) with e :: _ => Some e | [] => Some f end
    else Some f) as Hs.
  { intros f es. revert f. induction es as [|[x|] es IH]; intros f; cbn; [by case_match| |apply IH].
    destruct (is_Canceled f) eqn:Hf, (is_Canceled x) eqn:Hx; cbn; rewrite IH, ?Hf, ?Hx; repeat case_decide; first [done | congruence]. }
  induction errs as [|[x|] es IH]; cbn; [done| |exact IH].
  rewrite Hs. destruct (is_Canceled x) eqn:Hx; repeat case_decide; first [done | congruence].
Qed.

Lemma sublist_reverse {A} (l k : list A) : l `sublist_of` k → reverse l `sublist_of` reverse k.
Proof.
  induction 1 as [|x l k _ IH|x l k _ IH]; [done|..]; rewrite !reverse_cons; [by apply sublist_app|by apply sublist_inserts_r].
Qed.

Definition main_of (t : Thread) : list Thread := if active t then [t] else [].

Lemma recorded_in_order c l d (todo : list (Component * Z)) :
  downs l = [] → snapshot c l (started c ++ (all_returned d).*1 ++ todo.*1) →
  in_order c l (reverse (started c ++ recorded d c)).
Proof.
  intros Hd [_ [r Hp]]. unfold in_order. rewrite Hd, Hp. cbn. apply sublist_reverse.
  rewrite <-!(assoc_L (++)). apply sublist_app; [done|]. apply sublist_inserts_r.
  assert ((all_returned d).*1 = d.*1) as ->.
  { unfold all_returned. by rewrite <-list_fmap_compose. }
  etrans; [apply recorded_sublist|]. apply fmap_sublist, sublist_filter.
Qed.

(** Start goes on in its loop. *)
Lemma loop_step o t c c' t' ts ev l cs :
  thread_ready c t → state c = StateStarting → coming t = Some cs → downs l = [] → snapshot c l (started c ++ cs) →
  tstep o t c = Some (c', t', ts, ev) → Driver c' (l ++ ev) (main_of t').
Proof.
  intros Hr Hst Hc Hd Hsn H. destruct t as [|todo|ms todo| | | | | | | | | | | | | | | |]; try done; injection Hc as <-.
  - apply startLoop_cases in H as (-> & _ & [(-> & -> & ->)|(Hne & -> & [[e ->]| ->])]); rewrite (right_id_L [] (++)); cbn.
    + cbn in Hsn. rewrite (right_id_L [] (++)) in Hsn. eapply DReady; cbn; eauto.
    + eapply DTake; [done|]. by eapply snapshot_in_order.
    + eapply (DLoop _ _ _ ((nextStep todo).1 ++ (nextStep todo).2.*1)); try done; [cbn|by rewrite nextStep_split].
      by rewrite <-list_fmap_compose, list_fmap_id.
  - apply startStep_cases in H as [_ [(d & -> & -> & -> & ->)|(m & ph & Hm & Hs & ->)]].
    + rewrite (right_id_L [] (++)). destruct (first_error d.*2) as [e|] eqn:He; cbn.
      * eapply DTake; [done|]. exact (recorded_in_order c l d todo Hd Hsn).
      * eapply (DLoop _ _ _ todo.*1); try done. cbn. rewrite (recorded_succeeded _ _ Hr He), <-(assoc_L (++)).
        unfold all_returned in Hsn. by rewrite <-list_fmap_compose in Hsn.
    + destruct (startOne_split _ _ _ _ _ _ _ _ Hm Hs) as (Hst' & Hev & _).
      apply startOne_frame in Hs as (Hcs & _ & Hst2 & _). cbn.
      eapply (DLoop _ _ _ (ms.*1 ++ todo.*1)); cbn; [by rewrite Hst2| |by rewrite downs_app, Hev, Hd|].
      * rewrite list_fmap_insert, list_insert_id; [done|]. by rewrite list_lookup_fmap, Hm.
      * rewrite Hst'. apply snapshot_cons. destruct Hsn as [? ?]. split; [done|]. by rewrite Hcs.
Qed.

(** The active goroutine goes on. *)
Lemma driver_step o t c c' t' ts ev l :
  thread_ready c t → active t = true → Driver c l [t] → tstep o t c = Some (c', t', ts, ev) →
  Driver c' (l ++ ev) (main_of t').
Proof.
  intros Hr Ha HD H. inversion HD as [|? cs Hst Hc Hdn Hsn|k Hst Ho|k todo mid errs Hst Hs Ho|m Hst Hm Hdn Hsn| |? Hst Ht Ho|to errs Hst Hs Ho|r Hst Hs Ho]; subst.
  - by eapply loop_step.
  - tstep_cases H. rewrite (right_id_L [] (++)). by eapply DStopping.
  - tstep_cases H; rewrite ?(right_id_L [] (++));
      first [by eapply DStopping | by eapply DFailed | by eapply DEnd | eapply DStopping]; try done;
      unfold in_order in *; by rewrite downs_app, <-(assoc_L (++)).
  - destruct Hm as [?|[ws ?]]; [done|]. simplify_eq. tstep_cases H; eapply DReady; cbn; eauto;
      rewrite ?downs_app, ?Hdn; auto using snapshot_cons.
  - destruct Ht as [[b ->]| ->]; tstep_cases H; rewrite ?(right_id_L [] (++)); first [by eapply DTake | eapply DStop; cbn; eauto].
  - tstep_cases H. rewrite (right_id_L [] (++)). by eapply DStopped.
  - done.
Qed.

Definition launching (t : Thread) : bool := match t with RegLaunch _ => true | _ => false end.

(** A goroutine that is not active begins a Start or a Stop, or changes neither
    the state nor what is started. *)
Inductive idle_effect (t : Thread) (c : Coordinator) : outcome → Prop :=
| idle_start :
    t = StartCall → state c = StateNew →
    idle_effect t c (set_state c StateStarting, StartLoop (zip (components c) (groups c)), [], [Began (components c)])
| idle_stop b :
    t = StopCall → state c ≠ StateStopping → state c ≠ StateStopped →
    idle_effect t c (set_state c StateStopping, StopCancel b, [], [])
| idle_other c' t' ts ev :
    active t' = false → state c' = state c → started c' = started c → components c' = components c → downs ev = [] →
    (launching t' = true → launching t = true ∨ state c = StateReady) →
    launching t = true ∨ working t = 1 ∨ (workerWG c' = workerWG c ∧ workerErrs c' = workerErrs c) →
    idle_effect t c (c', t', ts, ev).

Lemma idle_step o t c out : active t = false → tstep o t c = Some out → idle_effect t c out.
Proof.
  intros Ha H. destruct out as [[[c' t'] ts] ev]. destruct t; try done.
  - cbn in H. unfold Start_begin, goes in H. case_bool_decide; simplify_eq; [by constructor|]. by apply idle_other; auto.
  - cbn in H. unfold Stop_begin, goes in H. destruct (state c) eqn:Hs; simplify_eq;
      first [by apply idle_stop; rewrite ?Hs | by apply idle_other; auto].
  - tstep_cases H; bool_prop; apply idle_other; try done; auto.
  - tstep_cases H; apply idle_other; auto; done.
  - tstep_cases H; apply idle_other; auto; done.
  - tstep_cases H; apply idle_other; auto; done.
  - tstep_cases H; apply idle_other; auto; done.
Qed.

Lemma Driver_one c l m : Driver c l m → length m ≤ 1.
Proof. destruct 1 as [| | | |m _ [->|[ws ->]]| | | |]; cbn; lia. Qed.

Lemma Driver_same c c' l ev m :
  Driver c l m → state c' = state c → started c' = started c → components c' = components c → downs ev = [] →
  Driver c' (l ++ ev) m.
Proof.
  intros HD Hs Hst Hc He.
  assert (downs (l ++ ev) = downs l) as Hd by (by rewrite downs_app, He, (right_id_L [] (++))).
  assert (∀ k, in_order c l k → in_order c' (l ++ ev) k) as Hord.
  { intros k. unfold in_order. by rewrite Hd, Hc. }
  assert (∀ k, snapshot c l k → snapshot c' (l ++ ev) k) as Hsn.
  { intros k Hk. apply snapshot_cons. unfold snapshot in *. by rewrite Hc. }
  destruct HD; [eapply DNew|eapply DLoop|eapply DTake|eapply DStopping|eapply DReady|eapply DFailed|eapply DStop|eapply DEnd|eapply DStopped];
    try rewrite Hs; try rewrite Hst; try rewrite Hd; eauto.
Qed.

Lemma mains_workers ts : Forall (λ t, ∃ w, t = WorkerRun w) ts → mains ts = [].
Proof. induction 1 as [|t ts [w ->] _ IH]; [done|]. by rewrite mains_cons, IH. Qed.

Lemma mains_step l1 t l2 ts :
  Forall (λ t, ∃ w, t = WorkerRun w) ts → mains (l1 ++ t :: l2 ++ ts) = mains l1 ++ main_of t ++ mains l2.
Proof. intros Hts. by rewrite mains_app, mains_cons, mains_app, (mains_workers ts Hts), (right_id_L [] (++)). Qed.

Lemma active_drained o t c c' t' ts ev :
  active t = true → drained c t → tstep o t c = Some (c', t', ts, ev) → drained c' t'.
Proof.
  intros Ha Hd H. destruct t; try done; try (tstep_cases H; bool_prop; repeat case_match; unfold Stop_result; try set_solver; done).
  apply startStep_cases in H as [_ [(d & _ & _ & -> & ->)|(m & ph & _ & _ & ->)]]; [by case_match|done].
Qed.

Lemma ready_active_stays o t c l c' t' ts ev :
  active t = true → Driver c l [t] → state c = StateReady → tstep o t c = Some (c', t', ts, ev) → state c' = StateReady.
Proof.
  intros Ha HD Hr H.
  inversion HD as [|? cs Hst Hc Hdn Hsn|k Hst Ho|k todo mid errs Hst Hs Ho|m Hst Hm Hdn Hsn| |? Hst Ht Ho|to errs Hst Hs Ho|r Hst Hs Ho];
    subst; try congruence; try (destruct k; cbn in *; congruence).
  destruct Hm as [?|[ws ?]]; [done|]. simplify_eq. by tstep_cases H.
Qed.

Lemma no_launch_kept W l1 t l2 t' ts (s : State) :
  Calm W → threads W = l1 ++ t :: l2 → Forall (λ t, ∃ w, t = WorkerRun w) ts →
  (launching t' = true → s = StateReady) → (state (coord W) = StateReady → s = StateReady) →
  ∀ ws, RegLaunch ws ∈ l1 ++ t' :: l2 ++ ts → s = StateReady.
Proof.
  intros HC Hts Hsp Ht' Hs ws Hin. rewrite elem_of_app, elem_of_cons, elem_of_app in Hin.
  destruct Hin as [Hin|[<-|[Hin|Hin]]].
  - apply Hs, (calm_launch W HC ws). rewrite Hts. set_solver.
  - by apply Ht'.
  - apply Hs, (calm_launch W HC ws). rewrite Hts. set_solver.
  - rewrite Forall_forall in Hsp. by destruct (Hsp _ Hin).
Qed.

Lemma Calm_active W o l1 t l2 c' t' ts ev :
  Calm W → thread_ready (coord W) t → active t = true → threads W = l1 ++ t :: l2 →
  tstep o t (coord W) = Some (c', t', ts, ev) → Calm (mkWorld c' (l1 ++ t' :: l2 ++ ts) (log W ++ ev)).
Proof.
  intros HC Hr Ha Hts Hs. pose proof (tstep_spawned _ _ _ _ _ _ _ Hs) as Hsp.
  pose proof (calm_driver W HC) as HD. pose proof (calm_drained W HC) as Hdr.
  assert (mains l1 = [] ∧ mains l2 = []) as [H1 H2].
  { apply Driver_one in HD. rewrite Hts, mains_app, mains_cons, Ha, !length_app in HD. cbn in HD.
    by destruct (mains l1), (mains l2); cbn in HD; try lia. }
  rewrite Hts, mains_app, mains_cons, Ha, H1, H2 in HD, Hdr. cbn [app] in HD, Hdr.
  rewrite Forall_singleton in Hdr.
  constructor; cbn [coord threads log]; rewrite ?(mains_step l1 t' l2 ts Hsp), ?H1, ?H2, ?(right_id_L [] (++)).
  - by eapply driver_step.
  - apply (no_launch_kept W l1 t l2 t' ts _ HC Hts Hsp); [|intros Hst; by eapply ready_active_stays].
    intros Hl. exfalso. destruct t; try done; try (tstep_cases Hs; done).
    apply startStep_cases in Hs as [_ [(d & _ & _ & -> & ->)|(m & ph & _ & _ & ->)]]; [by case_match|done].
  - unfold main_of. destruct (active t'); [|done]. apply Forall_singleton. by eapply active_drained.
Qed.

Lemma Driver_new c l m : Driver c l m → state c = StateNew → m = [] ∧ started c = [] ∧ downs l = [].
Proof.
  intros HD Hn. inversion HD as [| |k Hst|k ? ? ? Hst| | | | |]; subst; try congruence; try done;
    destruct k; cbn in *; congruence.
Qed.

(** Between starts, a Stop finds nobody else at work. *)
Lemma Driver_stoppable c l m :
  Driver c l m → state c ≠ StateStopping → state c ≠ StateStopped → Forall (λ t, starting t = false) m →
  m = [] ∧ in_order c l (reverse (started c)).
Proof.
  intros HD H1 H2 Hf.
  destruct HD as [Hst Hs Hd|t cs Hst Hc Hd Hsn|k Hst Ho|k todo mid errs Hst Hs Ho|m Hst Hm Hdn Hsn|Hst Hs Ho| | |];
    try done; rewrite ?Forall_singleton in Hf.
  - rewrite Hs. split; [done|]. unfold in_order. rewrite Hd. apply sublist_nil_l.
  - by destruct t.
  - by destruct k.
  - by destruct k.
  - destruct Hm as [->|[ws ->]]; [|by rewrite Forall_singleton in Hf]. split; [done|].
    eapply (snapshot_in_order _ _ []); [done|]. by rewrite (right_id_L [] (++)).
  - by rewrite Hs.
Qed.

Lemma drained_kept c c' l u :
  Driver c l [u] → drained c u → state c = StateReady ∨ workerWG c ≠ 0 ∨ (workerWG c' = workerWG c ∧ workerErrs c' = workerErrs c) →
  drained c' u.
Proof.
  intros HD Hd [Hs|[Hw|[Hw He]]].
  - inversion HD as [| |k Hst|k ? ? ? Hst|m Hst Hm| |? ? [[b ->]| ->]| |]; subst; try done; try congruence;
      try (destruct k; cbn in *; congruence).
    destruct Hm as [?|[ws ?]]; [done|]. by simplify_eq.
  - destruct u; cbn in *; repeat case_match; try done; try lia; naive_solver lia.
  - destruct u; cbn in *; repeat case_match; try done; rewrite ?Hw, ?He; done.
Qed.

Lemma launching_ready W t : Calm W → t ∈ threads W → launching t = true → state (coord W) = StateReady.
Proof. intros HC Hin Hl. destruct t; try done. by eapply (calm_launch W HC). Qed.

Lemma Calm_idle W i o l1 t l2 c' t' ts ev :
  length (groups (coord W)) = length (components (coord W)) → Calm W → Reports W → active t = false → threads W = l1 ++ t :: l2 → threads W !! i = Some t →
  calm_act W (AStep i o) = true →
  tstep o t (coord W) = Some (c', t', ts, ev) → Calm (mkWorld c' (l1 ++ t' :: l2 ++ ts) (log W ++ ev)).
Proof.
  intros Hg HC HR Ha Hts Hi Hc Hs. pose proof (tstep_spawned _ _ _ _ _ _ _ Hs) as Hsp.
  pose proof (calm_driver W HC) as HD. pose proof (calm_drained W HC) as Hdr.
  assert (mains (threads W) = mains l1 ++ mains l2) as Hm by (by rewrite Hts, mains_app, mains_cons, Ha).
  pose proof (idle_step _ _ _ _ Ha Hs) as He.
  inversion He as [Ht Hn|b Ht H1 H2|c0 t0 ts0 ev0 Ha' Hst Hsd Hcs Hdn Hl Hw]; subst.
  - destruct (Driver_new _ _ _ HD Hn) as (Hnil & Hsd & Hd). rewrite Hm in Hnil. apply app_eq_nil in Hnil as [E1 E2].
    constructor; cbn [coord threads log]; rewrite ?(mains_step l1 _ l2 [] Hsp), ?E1, ?E2.
    + eapply (DLoop _ _ _ (components (coord W))); cbn [state set_state]; [done| |by rewrite downs_app, Hd|].
      * cbn. rewrite fst_zip; [done|]. by rewrite Hg.
      * cbn. rewrite Hsd. split; [set_solver|done].
    + apply (no_launch_kept W l1 _ l2 _ [] _ HC Hts Hsp); [done|]. intros. congruence.
    + by apply Forall_singleton.
  - cbn in Hc. rewrite Hi in Hc. apply negb_true_iff in Hc.
    assert (Forall (λ t, starting t = false) (threads W)) as Hno.
    { apply Forall_forall. intros u Hu. destruct (starting u) eqn:Hsu; [|done]. exfalso.
      rewrite <-not_true_iff_false in Hc. apply Hc. apply existsb_exists. exists u. by rewrite <-list_elem_of_In. }
    destruct (Driver_stoppable _ _ _ HD H1 H2) as [Hnil Ho].
    { apply Forall_forall. intros u [_ Hu]%list_elem_of_filter. by apply (proj1 (Forall_forall _ _) Hno). }
    rewrite Hm in Hnil. apply app_eq_nil in Hnil as [E1 E2].
    constructor; cbn [coord threads log]; rewrite ?(mains_step l1 _ l2 [] Hsp), ?E1, ?E2, ?(right_id_L [] (++)).
    + eapply DStop; eauto.
    + intros ws Hin. exfalso. assert (RegLaunch ws ∈ threads W) as Hin'.
      { rewrite Hts. set_solver. }
      by pose proof (proj1 (Forall_forall _ _) Hno _ Hin').
    + by apply Forall_singleton.
  - assert (mains (l1 ++ t' :: l2 ++ ts) = mains (threads W)) as Hm'.
    { rewrite (mains_step l1 t' l2 ts Hsp), Hm. unfold main_of. by rewrite Ha'. }
    assert (state (coord W) = StateReady ∨ workerWG (coord W) ≠ 0 ∨ (workerWG c' = workerWG (coord W) ∧ workerErrs c' = workerErrs (coord W))) as Hw'.
    { destruct Hw as [Hw|[Hw|Hw]]; [left|right; left|auto].
      - apply (launching_ready W t); [done| |done]. rewrite Hts. set_solver.
      - rewrite (rep_working W HR), Hts, sum_list_with_app. cbn. lia. }
    constructor; cbn [coord threads log]; rewrite ?Hm'.
    + by eapply Driver_same.
    + apply (no_launch_kept W l1 t l2 t' ts _ HC Hts Hsp); rewrite Hst; [|done].
      intros [Hlt|?]%Hl; [|done]. apply (launching_ready W t); [done| |done]. rewrite Hts. set_solver.
    + apply Forall_forall. intros u Hu. pose proof (Driver_one _ _ _ HD) as Hone.
      destruct (mains (threads W)) as [|x [|y m]] eqn:Hx; [set_solver| |cbn in Hone; lia].
      apply list_elem_of_singleton in Hu as ->. rewrite Forall_singleton in Hdr. by eapply drained_kept.
Qed.

Lemma step_Calm W W' :
  Inv W → Reports W → NoDup (names W) → Calm W → calm_step W W' → Calm W'.
Proof.
  intros HI HR Hn HC [a [Hok Ha]]. destruct (perform_called W a W' Ha) as [(i & o & ->)|[t Hf|cs gs next _]].
  - destruct (perform_split _ _ _ _ Ha) as (t & c' & t' & ts & ev & l1 & l2 & Ht & Hts & Hs & ->).
    destruct (active t) eqn:Hact.
    + eapply Calm_active; eauto. apply (proj1 (Forall_forall _ _) (inv_ready W HI Hn)). rewrite Hts. set_solver.
    + eapply Calm_idle; eauto. apply (inv_groups W HI).
  - assert (mains (threads W ++ [t]) = mains (threads W)) as Hm.
    { rewrite mains_app, mains_cons. destruct t; try done; cbn; by rewrite (right_id_L [] (++)). }
    constructor; cbn [coord threads log spawn]; rewrite ?Hm; [apply HC| |apply HC].
    intros ws [?|Hin]%elem_of_app; [by eapply (calm_launch W HC)|]. apply list_elem_of_singleton in Hin as <-. done.
  - constructor; cbn [coord threads log]; [apply Driver_more, HC|apply HC|].
    eapply Forall_impl; [apply HC|]. by intros [] ?.
Qed.

Lemma calm_step_step W W' : calm_step W W' → step W W'.
Proof. intros (a & _ & Ha). by exists a. Qed.

Lemma calm_reachable W : calm W → reachable W.
Proof. intros [timeout Hr]. exists timeout. eapply rtc_subrel; [|exact Hr]. apply calm_step_step. Qed.

Lemma step_names W W' : step W W' → NoDup (names W') → NoDup (names W).
Proof.
  intros [a Ha]. destruct (perform_called W a W' Ha) as [(i & o & ->)|[t Hf|cs gs next _]]; [|done|].
  - destruct (perform_split _ _ _ _ Ha) as (t & c' & t' & ts & ev & l1 & l2 & Ht & Hts & Hs & ->).
    destruct (tstep_frame _ _ _ _ _ _ _ Hs) as (Hcs & _). unfold names, ComponentNames. cbn. by rewrite Hcs.
  - unfold names, ComponentNames. cbn. rewrite fmap_app. by intros [? _]%NoDup_app.
Qed.

Lemma calm_Calm W : calm W → NoDup (names W) → Calm W.
Proof.
  intros [timeout Hr] Hn.
  cut (Inv W ∧ Reports W ∧ (NoDup (names W) → Calm W)); [naive_solver|]. clear Hn.
  refine (rtc_invariant calm_step (λ W, Inv W ∧ Reports W ∧ (NoDup (names W) → Calm W)) _ _ _ _ Hr).
  - intros x y (HI & HR & HC) Hs. pose proof (calm_step_step _ _ Hs) as Hs'.
    split_and!; [by eapply step_Inv|by eapply step_Reports|].
    intros Hn. pose proof (step_names _ _ Hs' Hn). eapply step_Calm; eauto.
  - split_and!.
    + apply lifecycle_Inv. exists timeout. apply rtc_refl.
    + apply reachable_Reports. exists timeout. apply rtc_refl.
    + intros _. constructor; cbn; [by apply DNew| |done]. intros ws []%not_elem_of_nil.
Qed.

Lemma held_mains ts : ts ≫= held = mains ts ≫= held.
Proof.
  induction ts as [|t ts IH]; [done|]. rewrite bind_cons, mains_cons, bind_app, IH. f_equal.
  by destruct t as [| | | | | | | | | | |[] ?| | | | | | |]; cbn; rewrite ?(right_id_L [] (++)).
Qed.

Lemma calm_balance W : calm W → NoDup (names W) → ups (log W) ≡ₚ downs (log W) ++ started (coord W) ++ (mains (threads W) ≫= held).
Proof. intros Hc Hn. rewrite <-held_mains. apply (inv_up W (lifecycle_Inv W (calm_reachable W Hc)) Hn). Qed.

Lemma calm_in_order W : Calm W → downs (log W) `sublist_of` reverse (components (coord W)).
Proof.
  intros HC. assert (∀ k, in_order (coord W) (log W) k → downs (log W) `sublist_of` reverse (components (coord W))) as Ho.
  { intros k. unfold in_order. intros H. etrans; [|exact H]. by apply sublist_inserts_r. }
  destruct (calm_driver W HC) as [Hst Hs Hd|t cs Hst Hc Hd Hsn| | |m Hst Hm Hd Hsn| | | |]; eauto; rewrite Hd; apply sublist_nil_l.
Qed.

Lemma Driver_over c l m :
  Driver c l m → state c = StateFailed ∨ state c = StateStopped → started c = [] ∧ m ≫= held = [].
Proof.
  intros HD Hs. destruct HD as [| |k Hst|k ? ? ? Hst| | | | |]; try (destruct k); cbn in *; naive_solver congruence.
Qed.

Lemma Driver_ready c l m :
  Driver c l m → state c = StateReady → m ≫= held = [] ∧ downs l = [] ∧ snapshot c l (started c).
Proof.
  intros HD Hs. destruct HD as [| |k Hst|k ? ? ? Hst|m Hst Hm Hd Hsn| | | |]; try (destruct k); cbn in *; try congruence.
  split_and!; [|done..]. by destruct Hm as [->|[ws ->]].
Qed.

(** The Stop that did the shutdown is the only one to report anything. *)
Lemma stopped_alone W r :
  Calm W → StopDone true r ∈ threads W →
  state (coord W) = StateStopped ∧ mains (threads W) = [StopDone true r] ∧
  (∀ t e, t ∈ threads W → e ∈ report t → e ∈ r).
Proof.
  intros HC Hin. assert (StopDone true r ∈ mains (threads W)) as Hmn by (by apply list_elem_of_filter).
  pose proof (calm_driver W HC) as HD. pose proof (Driver_one _ _ _ HD) as Hone.
  destruct (mains (threads W)) as [|x [|y m]] eqn:Hm; [set_solver| |cbn in Hone; lia].
  apply list_elem_of_singleton in Hmn as <-. split_and!; [|done|].
  - inversion HD as [|? ? ? Hc| | |? ? [?|[ws ?]]| |? ? [[b ?]|?]| |]; subst; try done.
  - intros t e Ht He. assert (active t = true) as Ha by (by destruct t as [| | | | | |[] ? ? ?| | | | |[] ?| | | | | | |]; try apply not_elem_of_nil in He).
    assert (t ∈ mains (threads W)) as Hmt by (by apply list_elem_of_filter). rewrite Hm in Hmt.
    by apply list_elem_of_singleton in Hmt as ->.
Qed.

(** ** Theorems *)

(** C28: However the calls of Start, Stop and RegisterWorker, the members of concurrent groups and the workers interleave, with components of distinct names, a component whose Start returned nil is in exactly one place, the list of started components, the hands of one goroutine or the ones stopped: Start is called with success at most once, Stop at most once and never before it, and no started component is lost. *)
Theorem component_in_one_place W :
  reachable W → NoDup (names W) →
  ups (log W) ≡ₚ downs (log W) ++ in_hand W ∧ NoDup (ups (log W)) ∧ ups (log W) ⊆ components (coord W).
Proof.
  intros Hr Hn. pose proof (lifecycle_Inv W Hr) as HI. pose proof (inv_up W HI Hn) as Hup.
  assert (downs (log W) ++ in_hand W ⊆+ in_play W) as Hsub.
  { unfold in_hand, in_play. apply submseteq_skips_l, submseteq_skips_l.
    generalize (threads W). intros ts. induction ts as [|t ts IH]; [done|].
    rewrite !bind_cons. apply submseteq_app; [by apply submseteq_inserts_r|done]. }
  assert (downs (log W) ++ in_hand W ⊆+ components (coord W)) as Hc by (etrans; [exact Hsub|apply (inv_play W HI)]).
  split; [done|]. rewrite Hup. split.
  - apply submseteq_Permutation in Hsub as [k Hk]. pose proof (in_play_NoDup W HI Hn) as Hd%NoDup_fmap_1.
    rewrite Hk in Hd. by apply NoDup_app in Hd as [? _].
  - intros x Hx. by eapply elem_of_submseteq.
Qed.

(** C30: with components of distinct names (those registered later included), and
    while Stop takes effect only between calls of Start and RegisterWorker, /readyz
    answers 200 only when every component Start was called with has started and
    none has been stopped. *)
Theorem readiness_is_actual W method c1 c3 c4 c5 :
  calm W → NoDup (names W) → (handleReady method c1 (coord W) c3 c4 c5).1 = 200%Z →
  ∃ cs, Began cs ∈ log W ∧ ups (log W) ≡ₚ cs ∧ downs (log W) = [].
Proof.
  intros Hc Hn H200. assert (state (coord W) = StateReady) as Hs.
  { revert H200. unfold handleReady, Ready. destruct (get_or_head method); [|done]. cbn. by case_bool_decide. }
  destruct (Driver_ready _ _ _ (calm_driver W (calm_Calm W Hc Hn)) Hs) as (Hh & Hd & [Hb _]).
  exists (started (coord W)). split_and!; [done| |done].
  by rewrite (calm_balance W Hc Hn), Hd, Hh, (right_id_L [] (++)).
Qed.

(** C29: with components of distinct names (those registered later included), and
    while Stop takes effect only between calls of Start and RegisterWorker,
    components are stopped in the reverse of the order they were registered in, and
    once the coordinator is failed or stopped every component that was started,
    also by a start that failed half way, has been stopped, each once. *)
Theorem shutdown_is_complete W :
  calm W → NoDup (names W) →
  downs (log W) `sublist_of` reverse (components (coord W)) ∧
  (state (coord W) = StateFailed ∨ state (coord W) = StateStopped → ups (log W) ≡ₚ downs (log W)).
Proof.
  intros Hc Hn. pose proof (calm_Calm W Hc Hn) as HC. split; [by apply calm_in_order|]. intros Hs.
  destruct (Driver_over _ _ _ (calm_driver W HC) Hs) as [Hst Hh].
  by rewrite (calm_balance W Hc Hn), Hst, Hh, !(right_id_L [] (++)).
Qed.

(** C31: with components of distinct names (those registered later included), and
    while Stop takes effect only between calls of Start and RegisterWorker, the
    Stop that did the shutdown has stopped every component that was started and
    answers everything that went wrong: the error of every component's Stop, and,
    unless it answers ErrShutdownTimeout, the failure of every worker, none of
    which is then still running. *)
Theorem stop_reports_everything W r :
  calm W → NoDup (names W) → StopDone true r ∈ threads W →
  ups (log W) ≡ₚ downs (log W) ∧
  (∀ b comp e, Down (KStop b) comp (Some e) ∈ log W → Wrapped "stop" (c_Name comp) e ∈ r) ∧
  (ErrShutdownTimeout ∈ r ∨
   (∀ t, t ∈ threads W → working t = 0) ∧ ∀ w e, Gave w e ∈ log W → Wrapped "worker" (w_Name w) e ∈ r).
Proof.
  intros Hc Hn Hin. pose proof (calm_Calm W Hc Hn) as HC. pose proof (reachable_Reports W (calm_reachable W Hc)) as HR.
  destruct (stopped_alone W r HC Hin) as (Hst & Hm & Honly).
  destruct (Driver_over _ _ _ (calm_driver W HC) (or_intror Hst)) as [Hsd Hh].
  split_and!.
  - by rewrite (calm_balance W Hc Hn), Hsd, Hh, !(right_id_L [] (++)).
  - intros b comp e Hd. destruct (rep_stop W HR b comp e Hd) as (t & Ht & He). by apply (Honly t).
  - pose proof (calm_drained W HC) as Hdr. rewrite Hm, Forall_singleton in Hdr.
    destruct Hdr as [?|[Hwg Hwe]]; [by left|right].
    assert (∀ t, t ∈ threads W → working t = 0) as Hidle.
    { intros t Ht. rewrite (rep_working W HR) in Hwg. apply list_elem_of_split in Ht as (l1 & l2 & Heq).
      rewrite Heq, sum_list_with_app in Hwg. cbn in Hwg. lia. }
    split; [done|]. intros w e Hg. destruct (rep_worker W HR w e Hg) as [Hf|[He|(t & Ht & He)]].
    + by apply Hidle in Hf.
    + rewrite Hwe in He. by apply not_elem_of_nil in He.
    + by apply (Honly t).
Qed.

(** ** Every call returns *)

Definition finished (t : Thread) : bool :=
  match t with StartDone _ | StopDone _ _ | RegDone | WorkerDone => true | _ => false end.

Definition phase_work (p : Phase) : nat :=
  match p with MNew => 3 | MStarting _ => 2 | MStarted _ | MFailed _ => 1 | MDone _ => 0 end.

(** The steps a goroutine has before it, with [n] components and [k] workers
    registered: one for each section, the ones of the workers it starts and of
    the components it leaves to be stopped. *)
Definition thread_work (n k : nat) (t : Thread) : nat :=
  match t with
  | StartCall => 8 * n + 5 * k + 6
  | StartLoop todo => 8 * length todo + 5 * k + 5
  | StartStep ms todo => sum_list_with (λ m, phase_work m.2) ms + 3 * length ms + 8 * length todo + 5 * k + 6
  | StartLaunch ws | RegLaunch ws => 5 * length ws + 1
  | Take _ => 3
  | Stopping _ todo mid _ => 2 * length todo + (if mid then 1 else 0) + 2
  | StopCall => 6
  | StopCancel _ => 5
  | StopDrain => 4
  | StopEnd _ _ => 1
  | RegCall ws => 5 * length ws + 2
  | WorkerRun _ => 3
  | WorkerFailed _ _ => 2
  | WorkerClosing => 1
  | StartDone _ | StopDone _ _ | RegDone | WorkerDone => 0
  end.

Definition registering (t : Thread) : nat := match t with RegCall ws => length ws | _ => 0 end.
Definition all_workers (W : World) : nat := length (workers (coord W)) + sum_list_with registering (threads W).
Definition work (W : World) : nat :=
  sum_list_with (thread_work (length (components (coord W))) (all_workers W)) (threads W) + 3 * length (started (coord W)).

Lemma startOne_work o m c c' ph ev :
  startOne o m c = Some (c', ph, ev) →
  phase_work ph < phase_work m.2 ∧ started c' = started c ∧ workers c' = workers c.
Proof.
  destruct m as [comp p]. unfold startOne. intros H. destruct p; cbn in *; repeat case_match; simplify_eq/=; repeat split; lia.
Qed.

Lemma insert_work ms i m (ph : Phase) :
  ms !! i = Some m → phase_work ph < phase_work m.2 →
  sum_list_with (λ m, phase_work m.2) (<[i := (m.1, ph)]> ms) < sum_list_with (λ m : Component * Phase, phase_work m.2) ms.
Proof.
  revert i. induction ms as [|x ms IH]; intros [|i] Hi Hlt; simplify_eq/=; [lia|]. specialize (IH i Hi Hlt). lia.
Qed.

Lemma recorded_length d c : length (recorded d c) ≤ length (all_returned d).
Proof.
  unfold all_returned. rewrite length_fmap, <-(length_fmap fst d).
  apply sublist_length. etrans; [apply recorded_sublist|]. apply fmap_sublist, sublist_filter.
Qed.

Lemma tstep_workers o t c c' t' ts ev :
  tstep o t c = Some (c', t', ts, ev) →
  length (workers c') + registering t' = length (workers c) + registering t ∧ sum_list_with registering ts = 0.
Proof.
  intros H. destruct t as [|todo|ms todo| | |k|k todo mid errs| | | | | | | | | | | |];
    try (tstep_cases H; rewrite ?length_app; lia).
  apply startStep_cases in H as [-> [(d & -> & -> & -> & ->)|(m & ph & Hm & Hs & ->)]]; [case_match; cbn; lia|].
  apply startOne_work in Hs as (_ & _ & ->). cbn. lia.
Qed.

Lemma tstep_work o t c c' t' ts ev n k :
  tstep o t c = Some (c', t', ts, ev) → n = length (components c) → length (workers c) + registering t ≤ k →
  thread_work n k t' + sum_list_with (thread_work n k) ts + 3 * length (started c') <
  thread_work n k t + 3 * length (started c).
Proof.
  intros H -> Hk. destruct t as [|todo|ms todo| | |q|q todo mid errs| | | | | | | | | | | |];
    try (tstep_cases H; lia).
  - tstep_cases H; rewrite ?length_zip_with; lia.
  - apply startLoop_cases in H as (-> & -> & [(-> & -> & ->)|(Hne & -> & [[e ->]| ->])]); cbn; [cbn in Hk; lia..|].
    pose proof (nextStep_split todo Hne) as Hl. apply (f_equal length) in Hl. rewrite length_app, !length_fmap in Hl.
    assert (0 < length (nextStep todo).1) by (destruct todo as [|[x g] todo]; [done|]; cbn; case_match; cbn; lia).
    rewrite length_fmap.
    assert (∀ cs, sum_list_with (λ m : Component * Phase, phase_work m.2) ((λ comp, (comp, MNew)) <$> cs) = 3 * length cs) as ->.
    { intros cs. induction cs as [|x cs IH]; cbn in *; lia. }
    lia.
  - apply startStep_cases in H as [-> [(d & -> & -> & -> & ->)|(m & ph & Hm & Hs & ->)]].
    + pose proof (recorded_length d c). cbn. rewrite length_app. case_match; cbn; lia.
    + apply startOne_work in Hs as (Hlt & -> & _). pose proof (insert_work _ _ _ _ Hm Hlt). cbn.
      rewrite length_insert. lia.
  - tstep_cases H. rewrite length_reverse. lia.
Qed.

Definition one_step (W W' : World) : Prop := ∃ i o, perform W (AStep i o) = Some W'.

Lemma step_work W W' : one_step W W' → work W' < work W.
Proof.
  intros (i & o & Ha).
  destruct (perform_split _ _ _ _ Ha) as (t & c' & t' & ts & ev & l1 & l2 & Ht & Hts & Hs & ->).
  destruct (tstep_workers _ _ _ _ _ _ _ Hs) as [Hw Hz]. destruct (tstep_frame _ _ _ _ _ _ _ Hs) as (Hcs & _).
  assert (all_workers (mkWorld c' (l1 ++ t' :: l2 ++ ts) (log W ++ ev)) = all_workers W) as Hall.
  { unfold all_workers. cbn. rewrite Hts, !sum_list_with_app. cbn. rewrite sum_list_with_app. lia. }
  unfold work. rewrite Hall. cbn [coord threads]. rewrite Hcs, Hts, !sum_list_with_app. cbn [sum_list_with].
  rewrite sum_list_with_app.
  assert (length (workers (coord W)) + registering t ≤ all_workers W).
  { unfold all_workers. rewrite Hts, sum_list_with_app. cbn. lia. }
  pose proof (tstep_work _ _ _ _ _ _ _ (length (components (coord W))) (all_workers W) Hs eq_refl ltac:(done)). lia.
Qed.

Lemma mapM_returned_None (ms : list (Component * Phase)) :
  mapM (λ m, r ← returned m.2; Some (m.1, r)) ms = None → ∃ i m, ms !! i = Some m ∧ returned m.2 = None.
Proof.
  induction ms as [|m ms IH]; cbn; [done|]. destruct (returned m.2) eqn:Hr; cbn; [|intros _; by exists 0, m].
  destruct (mapM _ ms); cbn; [done|]. intros _. destruct (IH eq_refl) as (i & x & ? & ?). by exists (S i), x.
Qed.

Lemma tstep_progress t c : finished t = false → ∃ o out, tstep o t c = Some out.
Proof.
  intros Hf. set (o := λ p, mkChoice 0%Z None true p).
  destruct t as [|[|m todo]|ms todo|[|w ws]| |k|k todo mid errs| | | | | |ws|[|w ws]| | | | |]; try done;
    try (exists (o 0); cbn; unfold goes, Start_begin, Stop_begin; repeat case_match; simplify_eq; by eexists).
  - destruct (mapM (λ m, r ← returned m.2; Some (m.1, r)) ms) as [d|] eqn:Hd.
    + exists (o 0). cbn. unfold startStep. rewrite Hd. by eexists.
    + destruct (mapM_returned_None ms Hd) as (i & m & Hi & Hr). exists (o i). cbn. unfold startStep. rewrite Hd.
      cbn. rewrite Hi. cbn. destruct m as [comp []]; cbn in *; try done; by eexists.
  - exists (o 0). cbn. unfold stopComponents, goes, Stop_errs. destruct mid, todo, k; by eexists.
Qed.

(** The coordinator's own part of its calls is bounded: a goroutine that has not
    returned always has a next section or call, whatever the others do, and from
    any state the calls and workers under way take at most [work] of them together.
    This says nothing of how long a component, a worker or a lock takes. *)
Theorem sections_bounded W :
  (∀ i t, threads W !! i = Some t → finished t = false → ∃ o W', perform W (AStep i o) = Some W') ∧
  (∀ m W', nsteps one_step m W W' → m ≤ work W).
Proof.
  split.
  - intros i t Hi Hf. assert (∃ o out, tstep o t (coord W) = Some out) as (o & [[[c' t'] ts] ev] & Hs).
    { by apply tstep_progress. }
    exists o. cbn. rewrite Hi. cbn. rewrite Hs. cbn. eauto.
  - intros m. revert W. induction m as [|m IH]; intros W W' Hs; [lia|].
    inversion Hs as [|? ? W1 ? H1 H2]; subst. apply step_work in H1. apply IH in H2. lia.
Qed.

(** ** Runs *)

Definition calm_run (W : World) (acts : list Act) : option World :=
  foldl (λ W a, W ≫= λ W, if calm_act W a then perform W a else None) (Some W) acts.

Lemma foldl_rtc (f : World → Act → option World) (R : relation World) acts W W' :
  (∀ W a W', f W a = Some W' → R W W') → foldl (λ W a, W ≫= λ W, f W a) (Some W) acts = Some W' → rtc R W W'.
Proof.
  intros Hf. revert W. induction acts as [|a acts IH]; intros W; cbn; [intros [= ->]; apply rtc_refl|].
  destruct (f W a) as [W1|] eqn:Ha; [intros Hr; eapply rtc_l; eauto|].
  intros Hn. exfalso. clear -Hn. induction acts as [|b acts IH]; cbn in Hn; [done|auto].
Qed.

Lemma calm_run_calm timeout acts W : calm_run (initial timeout) acts = Some W → calm W.
Proof.
  intros H. exists timeout. revert H. apply foldl_rtc. intros W1 a W2. destruct (calm_act W1 a) eqn:Hc; [|done].
  intros Ha. by exists a.
Qed.

Lemma run_reaches timeout acts W : run (initial timeout) acts = Some W → reachable W.
Proof. intros H. exists timeout. revert H. apply foldl_rtc. intros W1 b W2 Hb. by exists b. Qed.

Module LifecycleRuns.

Definition a : Component := mkComponent 1 "a".
Definition b : Component := mkComponent 2 "b".
Definition c : Component := mkComponent 3 "c".
Definition w : Worker := mkWorker 1 "w".
Definition boom : error := Opaque "boom" false.

(** Goroutine [i] goes on and what it calls returns nil; the same with an error;
    member [k] of the group [i] starts goes on. *)
Definition s (i : nat) : Act := AStep i (mkChoice 5%Z None false 0).
Definition fails (i : nat) : Act := AStep i (mkChoice 5%Z (Some boom) false 0).
Definition member (i k : nat) : Act := AStep i (mkChoice 5%Z None false k).
Definition times {A} (n : nat) (x : A) : list A := replicate n x.

Definition world (r : option World) : World := default (initial 0%Z) r.

(** a, then b and c at once, c first, and the worker w. *)
Definition starts : list Act :=
  [ARegister [a]; ARegisterConcurrent [b; c]; ARegisterWorker [w]; s 0; AStart] ++ times 7 (s 1) ++
  times 3 (member 1 1) ++ times 3 (member 1 0) ++ times 4 (s 1).
Definition up : World := world (calm_run (initial 30%Z) starts).

Lemma up_calm : calm up.
Proof. apply (calm_run_calm 30%Z starts). by vm_compute. Qed.

Example up_runs :
  state (coord up) = StateReady ∧ log up = [Began [a; b; c]; Up a; Up c; Up b; Ran w] ∧ started (coord up) = [a; b; c].
Proof. by vm_compute. Qed.

(** Then the worker fails, and Stop stops everything, with an error of c. *)
Definition stops : list Act :=
  starts ++ [fails 2; s 2; s 2; AStop; s 3; s 3; s 3; s 3; fails 3] ++ times 7 (s 3).
Definition down : World := world (calm_run (initial 30%Z) stops).

Lemma down_calm : calm down.
Proof. apply (calm_run_calm 30%Z stops). by vm_compute. Qed.

Definition answered : list error := [Wrapped "stop" "c" boom; Wrapped "worker" "w" boom].

Example down_runs :
  state (coord down) = StateStopped ∧ downs (log down) = [c; b; a] ∧ StopDone true answered ∈ threads down.
Proof. split_and!; [by vm_compute..|]. apply (list_elem_of_lookup_2 _ 3). by vm_compute. Qed.

(** c fails in the group of b: b and a are stopped again. *)
Definition half : list Act :=
  [ARegister [a]; ARegisterConcurrent [b; c]; AStart] ++ times 10 (s 0) ++
  [member 0 1; AStep 0 (mkChoice 5%Z (Some boom) false 1); member 0 1] ++ times 7 (s 0).
Definition unwound : World := world (calm_run (initial 30%Z) half).

Lemma unwound_calm : calm unwound.
Proof. apply (calm_run_calm 30%Z half). by vm_compute. Qed.

Example unwound_runs :
  state (coord unwound) = StateFailed ∧ failure (coord unwound) = Some (Wrapped "start" "c" boom) ∧
  log unwound = [Began [a; b; c]; Up a; Up b; Down (KUnwind (Wrapped "start" "c" boom)) b None;
                 Down (KUnwind (Wrapped "start" "c" boom)) a None].
Proof. by vm_compute. Qed.

(** *** Stop during Start

    The code does not keep Stop and Start apart: Start goes on after Stop. *)

(** Stop begins when a is up, and stops it while Start starts b. *)
Definition overlap : list Act :=
  [ARegister [a; b]; ARegisterWorker [w]; s 0; AStart] ++ times 6 (s 1) ++
  [AStop; s 2; s 2; s 2; s 2; s 2] ++ times 6 (s 1).
Definition crossed : World := world (run (initial 30%Z) overlap).

(** Start has made the coordinator ready, although a is being stopped. *)
Example ready_while_stopped :
  state (coord crossed) = StateReady ∧ downs (log crossed) = [a] ∧
  (handleReady "GET" (coord crossed) (coord crossed) (coord crossed) (coord crossed) (coord crossed)).1 = 200%Z.
Proof. by vm_compute. Qed.

(** Stop then makes it stopped: b and the worker go on for ever, Start has
    returned nil, and another Stop does nothing. *)
Definition left_running : World := world (run (initial 30%Z) (overlap ++ [s 1; s 1; s 2; s 2; s 2; AStop; s 4])).

Example stop_during_start_leaks :
  state (coord left_running) = StateStopped ∧ started (coord left_running) = [b] ∧
  threads left_running = [RegDone; StartDone None; StopDone true []; WorkerRun w; StopDone false []] ∧
  log left_running = [Began [a; b]; Up a; Down (KStop false) a None; Up b; Ran w].
Proof. by vm_compute. Qed.

(** RegisterWorker finds the coordinator ready and starts its worker after Stop
    has drained the workers and stopped the components. *)
Definition late : World :=
  world (run (initial 30%Z) ([ARegister [a]; AStart] ++ times 8 (s 0) ++
    [ARegisterWorker [w]; s 1; AStop] ++ times 8 (s 2) ++ [s 1])).

Example worker_runs_after_stop :
  threads late = [StartDone None; RegLaunch []; StopDone true []; WorkerRun w] ∧
  log late = [Began [a]; Up a; Down (KStop false) a None; Ran w].
Proof. by vm_compute. Qed.

(** Two components of one name in a group, one of which fails last: the other is
    not ready under its name, is not recorded and never stopped. *)
Definition a' : Component := mkComponent 4 "a".
Definition clash : World :=
  world (run (initial 30%Z) ([ARegisterConcurrent [a; a']; AStart; s 0; s 0; s 0; s 0; s 0; member 0 1;
    AStep 0 (mkChoice 5%Z (Some boom) false 1); member 0 1] ++ times 3 (s 0))).

Example namesake_never_stopped :
  state (coord clash) = StateFailed ∧ log clash = [Began [a; a']; Up a] ∧ in_hand clash = [].
Proof. by vm_compute. Qed.

(** *** Witnesses *)

Lemma component_in_one_place_witness :
  NoDup (ups (log left_running)) ∧ ups (log left_running) ≡ₚ downs (log left_running) ++ in_hand left_running.
Proof.
  destruct (component_in_one_place left_running) as (H1 & H2 & _); [|vm_compute; solve_NoDup|done].
  apply (run_reaches 30%Z (overlap ++ [s 1; s 1; s 2; s 2; s 2; AStop; s 4])). by vm_compute.
Defined.

Lemma readiness_is_actual_witness : ∃ cs, Began cs ∈ log up ∧ ups (log up) ≡ₚ cs ∧ downs (log up) = [].
Proof.
  apply (readiness_is_actual up "GET" (coord up) (coord up) (coord up) (coord up));
    [apply up_calm|vm_compute; solve_NoDup|by vm_compute].
Defined.

Lemma shutdown_is_complete_witness :
  downs (log unwound) `sublist_of` reverse [a; b; c] ∧ ups (log unwound) ≡ₚ downs (log unwound).
Proof.
  destruct (shutdown_is_complete unwound) as [H1 H2]; [apply unwound_calm|vm_compute; solve_NoDup|].
  split; [exact H1|]. apply H2. left. by vm_compute.
Defined.

Lemma stop_reports_everything_witness :
  Wrapped "stop" "c" boom ∈ answered ∧
  (ErrShutdownTimeout ∈ answered ∨
   (∀ t, t ∈ threads down → working t = 0) ∧ ∀ w e, Gave w e ∈ log down → Wrapped "worker" (w_Name w) e ∈ answered).
Proof.
  destruct (stop_reports_everything down answered) as (_ & H2 & H3); [apply down_calm|vm_compute; solve_NoDup|..].
  - apply (list_elem_of_lookup_2 _ 3). by vm_compute.
  - split; [|exact H3]. apply (H2 false c). apply (list_elem_of_lookup_2 _ 6). by vm_compute.
Defined.

End LifecycleRuns.
