(* ===== verification/TasksModel.v ===== *)
(** * internal/service/tasks: the data of Cloud Tasks

    Queues, tasks and their parts, as store.go, appengine1447.go, logging1256.go
    and httptarget1282.go declare them.  Byte slices and strings are both
    [string]; a Go map with string keys is a [gmap string].  A queue's
    [HTTPTarget] is kept by the code as the proto JSON of a message; the codec
    is a library, and the model keeps the message, [None] for nil. *)

From S2P Require Import Prelude GoLib ApiError Float64 Sched IamPolicy.

Import time.

(** The zero value, the empty string, is [StateUnset]. *)
Inductive State := StateUnset | StateRunning | StatePaused | StateDisabled.

#[global] Instance State_eq_dec : EqDecision State.
Proof. solve_decision. Defined.

(** RetryConfig converts to sched.CloudTasksBackoff field by field. *)
Abbreviation RetryConfig := CloudTasks.CloudTasksBackoff.
Definition DefaultRetryConfig : RetryConfig := CloudTasks.DefaultCloudTasksBackoff.
Definition retry_withDefaults (rc : RetryConfig) : RetryConfig := CloudTasks.WithDefaults rc.

Record RateLimits := mkRateLimits {
  MaxDispatchesPerSecond : f64;
  MaxConcurrentDispatches : Z
}.

Definition DefaultRateLimits : RateLimits := mkRateLimits (of_int 500) 1000.

Definition rate_withDefaults (rl : RateLimits) : RateLimits :=
  let d := DefaultRateLimits in
  mkRateLimits
    (if leb (MaxDispatchesPerSecond rl) (Fin 0 0) then MaxDispatchesPerSecond d else MaxDispatchesPerSecond rl)
    (if (MaxConcurrentDispatches rl <=? 0)%Z then MaxConcurrentDispatches d else MaxConcurrentDispatches rl).

Record OIDCToken := mkOIDCToken { oidc_email : string; Audience : string }.
Record OAuthToken := mkOAuthToken { oauth_email : string; Scope : string }.

Record HTTPRequest := mkHTTPRequest {
  URL : string;
  Method : string;
  Headers : gmap string string;
  Body : string;
  OIDC : option OIDCToken;
  OAuth : option OAuthToken
}.

Record AppEngineRouting := mkAppEngineRouting { Service : string; Version : string; Instance_ : string }.

Record AppEngineHTTPRequest := mkAppEngineHTTPRequest {
  ae_Method : string;
  RelativeURI : string;
  ae_Headers : gmap string string;
  ae_Body : string;
  Routing : option AppEngineRouting
}.

Record Attempt := mkAttempt {
  Scheduled : Time;
  Dispatched : Time;
  Responded : Time;
  Code : codes.Code;
  Message : string
}.

Record LoggingConfig := mkLoggingConfig { SamplingRatio : f64 }.

(** ** cloudtaskspb.HttpTarget *)

(** [HttpMethod], by name; the enum is open, so any other number may arrive. *)
Inductive HttpMethod :=
| HTTP_METHOD_UNSPECIFIED | POST | GET | HEAD | PUT | DELETE | PATCH | OPTIONS
| other_method (n : Z).

#[global] Instance HttpMethod_eq_dec : EqDecision HttpMethod.
Proof. solve_decision. Defined.

Definition method_String (m : HttpMethod) : string :=
  match m with
  | HTTP_METHOD_UNSPECIFIED => "HTTP_METHOD_UNSPECIFIED"
  | POST => "POST" | GET => "GET" | HEAD => "HEAD" | PUT => "PUT"
  | DELETE => "DELETE" | PATCH => "PATCH" | OPTIONS => "OPTIONS"
  | other_method n => strconv.Itoa n
  end.

Inductive Scheme := SCHEME_UNSPECIFIED | HTTP | HTTPS.

Record UriOverride := mkUriOverride {
  ov_Scheme : option Scheme;
  ov_Host : option string;
  ov_Port : option Z;
  ov_Path : option string;
  ov_Query : option string;
  IF_NOT_EXISTS : bool           (** the enforce mode is IF_NOT_EXISTS *)
}.

Inductive AuthorizationHeader :=
| AuthOidc (t : OIDCToken)
| AuthOauth (t : OAuthToken).

Record HttpTarget := mkHttpTarget {
  uri_override : option UriOverride;
  http_method : HttpMethod;
  header_overrides : list (string * string);
  authorization_header : option AuthorizationHeader
}.

(** ** Queues and tasks *)

Record Queue := mkQueue {
  q_Name : string;
  q_State : State;
  q_RetryConfig : RetryConfig;
  q_RateLimits : RateLimits;
  q_Created : Time;
  Purged : Time;
  IAMPolicy : option IamPolicy.Stored;
  Logging : option LoggingConfig;
  HTTPTarget : option HttpTarget;
  q_AppEngineRouting : option AppEngineRouting
}.

Record Task := mkTask {
  t_Name : string;
  t_Queue : string;
  t_HTTPRequest : option HTTPRequest;
  t_AppEngine : option AppEngineHTTPRequest;
  ScheduleTime : Time;
  t_Created : Time;
  DispatchCount : Z;
  ResponseCount : Z;
  LastResponseCode : Z;
  FirstAttempt : Time;
  LastAttempt : option Attempt;
  DispatchDeadline : Duration;
  Traceparent : string;
  RunRequested : Time;
  NamedByServer : bool
}.

(** Assignments to a field. *)
Definition set_q_State (q : Queue) (v : State) : Queue :=
  mkQueue (q_Name q) v (q_RetryConfig q) (q_RateLimits q) (q_Created q) (Purged q) (IAMPolicy q) (Logging q)
    (HTTPTarget q) (q_AppEngineRouting q).
Definition set_q_config (q : Queue) (rc : RetryConfig) (rl : RateLimits) : Queue :=
  mkQueue (q_Name q) (q_State q) rc rl (q_Created q) (Purged q) (IAMPolicy q) (Logging q)
    (HTTPTarget q) (q_AppEngineRouting q).
Definition set_q_Created (q : Queue) (v : Time) : Queue :=
  mkQueue (q_Name q) (q_State q) (q_RetryConfig q) (q_RateLimits q) v (Purged q) (IAMPolicy q) (Logging q)
    (HTTPTarget q) (q_AppEngineRouting q).
Definition set_Purged (q : Queue) (v : Time) : Queue :=
  mkQueue (q_Name q) (q_State q) (q_RetryConfig q) (q_RateLimits q) (q_Created q) v (IAMPolicy q) (Logging q)
    (HTTPTarget q) (q_AppEngineRouting q).
Definition set_IAMPolicy (q : Queue) (v : option IamPolicy.Stored) : Queue :=
  mkQueue (q_Name q) (q_State q) (q_RetryConfig q) (q_RateLimits q) (q_Created q) (Purged q) v (Logging q)
    (HTTPTarget q) (q_AppEngineRouting q).
Definition set_Logging (q : Queue) (v : option LoggingConfig) : Queue :=
  mkQueue (q_Name q) (q_State q) (q_RetryConfig q) (q_RateLimits q) (q_Created q) (Purged q) (IAMPolicy q) v
    (HTTPTarget q) (q_AppEngineRouting q).
Definition set_HTTPTarget (q : Queue) (v : option HttpTarget) : Queue :=
  mkQueue (q_Name q) (q_State q) (q_RetryConfig q) (q_RateLimits q) (q_Created q) (Purged q) (IAMPolicy q) (Logging q)
    v (q_AppEngineRouting q).
Definition set_q_Routing (q : Queue) (v : option AppEngineRouting) : Queue :=
  mkQueue (q_Name q) (q_State q) (q_RetryConfig q) (q_RateLimits q) (q_Created q) (Purged q) (IAMPolicy q) (Logging q)
    (HTTPTarget q) v.

Definition set_t_Name (t : Task) (v : string) (byServer : bool) : Task :=
  mkTask v (t_Queue t) (t_HTTPRequest t) (t_AppEngine t) (ScheduleTime t) (t_Created t) (DispatchCount t)
    (ResponseCount t) (LastResponseCode t) (FirstAttempt t) (LastAttempt t) (DispatchDeadline t) (Traceparent t)
    (RunRequested t) byServer.
Definition set_t_Queue (t : Task) (v : string) : Task :=
  mkTask (t_Name t) v (t_HTTPRequest t) (t_AppEngine t) (ScheduleTime t) (t_Created t) (DispatchCount t)
    (ResponseCount t) (LastResponseCode t) (FirstAttempt t) (LastAttempt t) (DispatchDeadline t) (Traceparent t)
    (RunRequested t) (NamedByServer t).
Definition set_HTTPRequest (t : Task) (v : option HTTPRequest) : Task :=
  mkTask (t_Name t) (t_Queue t) v (t_AppEngine t) (ScheduleTime t) (t_Created t) (DispatchCount t)
    (ResponseCount t) (LastResponseCode t) (FirstAttempt t) (LastAttempt t) (DispatchDeadline t) (Traceparent t)
    (RunRequested t) (NamedByServer t).
Definition set_times (t : Task) (schedule created : Time) : Task :=
  mkTask (t_Name t) (t_Queue t) (t_HTTPRequest t) (t_AppEngine t) schedule created (DispatchCount t)
    (ResponseCount t) (LastResponseCode t) (FirstAttempt t) (LastAttempt t) (DispatchDeadline t) (Traceparent t)
    (RunRequested t) (NamedByServer t).
Definition set_RunRequested (t : Task) (v : Time) : Task :=
  mkTask (t_Name t) (t_Queue t) (t_HTTPRequest t) (t_AppEngine t) (ScheduleTime t) (t_Created t) (DispatchCount t)
    (ResponseCount t) (LastResponseCode t) (FirstAttempt t) (LastAttempt t) (DispatchDeadline t) (Traceparent t)
    v (NamedByServer t).
Definition set_Traceparent (t : Task) (v : string) : Task :=
  mkTask (t_Name t) (t_Queue t) (t_HTTPRequest t) (t_AppEngine t) (ScheduleTime t) (t_Created t) (DispatchCount t)
    (ResponseCount t) (LastResponseCode t) (FirstAttempt t) (LastAttempt t) (DispatchDeadline t) v
    (RunRequested t) (NamedByServer t).
(** [FirstAttempt] (when zero) and [DispatchCount++]: what an attempt sets when
    it begins. *)
Definition begin_attempt (t : Task) (now : Time) : Task :=
  mkTask (t_Name t) (t_Queue t) (t_HTTPRequest t) (t_AppEngine t) (ScheduleTime t) (t_Created t) (DispatchCount t + 1)
    (ResponseCount t) (LastResponseCode t) (if IsZero (FirstAttempt t) then now else FirstAttempt t) (LastAttempt t)
    (DispatchDeadline t) (Traceparent t) (RunRequested t) (NamedByServer t).
Definition set_LastAttempt (t : Task) (v : option Attempt) : Task :=
  mkTask (t_Name t) (t_Queue t) (t_HTTPRequest t) (t_AppEngine t) (ScheduleTime t) (t_Created t) (DispatchCount t)
    (ResponseCount t) (LastResponseCode t) (FirstAttempt t) v (DispatchDeadline t) (Traceparent t)
    (RunRequested t) (NamedByServer t).
(** [ResponseCount++], [LastResponseCode] and [LastAttempt]: a response. *)
Definition record_response (t : Task) (status : Z) (a : Attempt) : Task :=
  mkTask (t_Name t) (t_Queue t) (t_HTTPRequest t) (t_AppEngine t) (ScheduleTime t) (t_Created t) (DispatchCount t)
    (ResponseCount t + 1) status (FirstAttempt t) (Some a) (DispatchDeadline t) (Traceparent t)
    (RunRequested t) (NamedByServer t).

(** ** cloudtaskspb: the messages of the API

    A message a getter may find nil is the message with every field unset.  A
    google.protobuf.Duration or Timestamp is the Go value AsDuration or AsTime
    reads from it, [None] when unset; an enum holds one of its declared values. *)

Module pb.

Inductive QueueState := STATE_UNSPECIFIED | RUNNING | PAUSED | DISABLED.

Record RateLimits := mkRateLimits {
  max_dispatches_per_second : f64;
  max_burst_size : Z;              (** int32 *)
  max_concurrent_dispatches : Z    (** int32 *)
}.

Record RetryConfig := mkRetryConfig {
  max_attempts : Z;                (** int32 *)
  max_retry_duration : option Duration;
  min_backoff : option Duration;
  max_backoff : option Duration;
  max_doublings : Z                (** int32 *)
}.

Record AppEngineRouting := mkAppEngineRouting { service : string; version : string; instance : string; host : string }.

Record Queue := mkQueue {
  q_name : string;
  q_routing_override : option AppEngineRouting;
  q_rate_limits : option RateLimits;
  q_retry_config : option RetryConfig;
  q_state : QueueState;
  q_purge_time : option Time;
  q_sampling_ratio : option f64;   (** stackdriver_logging_config *)
  q_http_target : option HttpTarget
}.

Record HttpRequest := mkHttpRequest {
  hr_url : string;
  hr_http_method : HttpMethod;
  hr_headers : gmap string string;
  hr_body : string;
  hr_authorization_header : option AuthorizationHeader
}.

Record AppEngineHttpRequest := mkAppEngineHttpRequest {
  ae_http_method : HttpMethod;
  ae_routing : option AppEngineRouting;
  ae_relative_uri : string;
  ae_headers : gmap string string;
  ae_body : string
}.

Record Attempt := mkAttempt {
  schedule_time : option Time;
  dispatch_time : option Time;
  response_time : option Time;
  response_status : option (codes.Code * string)
}.

Inductive MessageType :=
| Task_AppEngineHttpRequest (ae : AppEngineHttpRequest)
| Task_HttpRequest (hr : HttpRequest).

Record Task := mkTask {
  t_name : string;
  t_message_type : option MessageType;
  t_schedule_time : option Time;
  t_create_time : option Time;
  t_dispatch_deadline : option Duration;
  t_dispatch_count : Z;            (** int32 *)
  t_response_count : Z;            (** int32 *)
  t_first_attempt : option Attempt;
  t_last_attempt : option Attempt
}.

End pb.

(** ** Batches *)

Inductive BatchResult :=
| BatchAborted                          (** error ABORTED: every request failed *)
| BatchTasks (created : list pb.Task)   (** BatchCreateTasksResponse *)
| BatchEmpty.                           (** BatchDeleteTasks's response *)

(** A finished batch's operation, its metadata first decoded.  A failed
    request's status keeps its code. *)
Record BatchOp := mkBatchOp {
  b_Name : string;
  StartTime : Time;
  EndTime : Time;
  PartiallySucceeded : bool;            (** else SUCCEEDED *)
  FailedRequests : list (Z * codes.Code);
  b_Result : BatchResult
}.

(** ** Documents

    What the metadata store keeps under the service's keys.  The codec is
    encoding/json, which reads back what it wrote and refuses only a time
    outside the years 0 to 9999 and a float that is not finite. *)

Inductive doc :=
| DQueue (q : Queue)
| DTask (t : Task)
| DTime (t : Time)
| DString (s : string)
| DBatch (op : BatchOp).

Definition float_json_ok (a : f64) : bool := negb (IsNaN a || IsInf a).

Definition marshals (d : doc) : bool :=
  match d with
  | DQueue q =>
      json_ok (q_Created q) && json_ok (Purged q) && float_json_ok (MaxDispatchesPerSecond (q_RateLimits q)) &&
      match Logging q with Some l => float_json_ok (SamplingRatio l) | None => true end
  | DTask t =>
      json_ok (ScheduleTime t) && json_ok (t_Created t) && json_ok (FirstAttempt t) && json_ok (RunRequested t) &&
      match LastAttempt t with
      | Some a => json_ok (Scheduled a) && json_ok (Dispatched a) && json_ok (Responded a)
      | None => true
      end
  | DTime t => json_ok t
  | DString _ | DBatch _ => true
  end.

Definition ErrEncode : error := Sentinel "json: unsupported value".
