(* ===== verification/TasksStore.v ===== *)
(** * internal/service/tasks/store.go: queues and tasks in the metadata store

    Every operation of the Store, over any implementation of the metadata
    store's interface.  A clock reading is an argument of the operation that
    takes it; [s.mu] makes each operation one step. *)

From S2P Require Import Prelude GoLib ApiError Resource MetaStore Float64 Sched IamPolicy TasksModel.
From Stdlib Require Import Ascii.

Import strings time.

(** ** Keys and names *)

Definition queueKey (name : string) : string := "tasks/queues/" +:+ name.
Definition taskKey (name : string) : string := "tasks/tasks/" +:+ name.
Definition tombstoneKey (name : string) : string := "tasks/tombstones/" +:+ name.
Definition batchKey (queue requestID : string) : string := "tasks/batches/" +:+ queue +:+ "/" +:+ requestID.
Definition cmekKey (name : string) : string := "tasks/cmek/" +:+ name.

Definition TombstoneTTL : Duration := Hour.
Definition tombstoneSweep : Duration := Minute.

Definition queueIDRE (s : string) : bool :=
  (1 <=? len s)%nat && (len s <=? 100)%nat && AllBytes (λ a, is_alnum a || one_of ["-"%char] a) s.
Definition taskIDRE (s : string) : bool :=
  (1 <=? len s)%nat && (len s <=? 500)%nat && AllBytes (λ a, is_alnum a || one_of ["_"; "-"]%char a) s.

Definition checkQueueName (name : string) : res error unit :=
  match Parse name with
  | Err _ => Err InvalidArgument
  | Ok n =>
      if negb (bool_decide (Collection n = "queues")) then Err InvalidArgument
      else if negb (queueIDRE (ID n)) then Err InvalidArgument
      else Ok tt
  end.

(** [strings.TrimSuffix(queue, "/") + "/tasks/" + id] *)
Definition TaskName (queue id : string) : string := TrimSuffix queue "/" +:+ "/tasks/" +:+ id.

(** The queue a task name is under, as [CreateTask] derives it. *)
Definition home (name : string) : string :=
  match Parse name with
  | Ok n => LocationName n +:+ "/queues/" +:+ ParentID n
  | Err _ => ""
  end.

(** [targetsHost] *)
Definition targetsHost (q : Queue) : bool :=
  match HTTPTarget q with
  | Some ht =>
      match uri_override ht with
      | Some o => negb (bool_decide (default "" (ov_Host o) = ""))
      | None => false
      end
  | None => false
  end.

(** ** Keys of different kinds do not collide *)

Lemma queueKey_inj a b : queueKey a = queueKey b → a = b.
Proof. intros H. by injection H. Qed.
Lemma taskKey_inj a b : taskKey a = taskKey b → a = b.
Proof. intros H. by injection H. Qed.
Lemma tombstoneKey_inj a b : tombstoneKey a = tombstoneKey b → a = b.
Proof. intros H. by injection H. Qed.
Lemma queue_task_ne a b : queueKey a ≠ taskKey b.
Proof. intros H. discriminate H. Qed.
Lemma queue_tomb_ne a b : queueKey a ≠ tombstoneKey b.
Proof. intros H. discriminate H. Qed.
Lemma task_tomb_ne a b : taskKey a ≠ tombstoneKey b.
Proof. intros H. discriminate H. Qed.

#[export] Hint Resolve queue_task_ne queue_tomb_ne task_tomb_ne : burrow.
#[export] Hint Extern 1 (_ ≠ _) => (apply not_eq_sym; solve [auto with burrow nocore]) : burrow.

Lemma HasPrefix_taskKey n p : HasPrefix (taskKey n) (taskKey p) = HasPrefix n p.
Proof. done. Qed.
Lemma HasPrefix_tombstoneKey n p : HasPrefix (tombstoneKey n) (tombstoneKey p) = HasPrefix n p.
Proof. done. Qed.
Lemma HasPrefix_queueKey n p : HasPrefix (queueKey n) (queueKey p) = HasPrefix n p.
Proof. done. Qed.

Section store.
Context {S : Type} `{MSL : MetaStoreLaws S doc}.

Record Store := mkStore { db : S; swept : Time }.

Definition NewStore (db : S) : Store := mkStore db zero.

(** ** put and get *)

Definition put (s : Store) (key : string) (v : doc) : Store * res error unit :=
  if negb (marshals v) then (s, Err (Internal ErrEncode))
  else match st_Put (db s) key v with
       | (d, Err e) => (mkStore d (swept s), Err (From e))
       | (d, Ok _) => (mkStore d (swept s), Ok tt)
       end.

(** [s.get] into a value of each type; any error is [None]. *)
Definition get_queue (s : Store) (key : string) : option Queue :=
  match st_Get (db s) key with Ok (DQueue q) => Some q | _ => None end.
Definition get_task (s : Store) (key : string) : option Task :=
  match st_Get (db s) key with Ok (DTask t) => Some t | _ => None end.
Definition get_time (s : Store) (key : string) : option Time :=
  match st_Get (db s) key with Ok (DTime t) => Some t | _ => None end.

Definition has (s : Store) (key : string) : bool := is_ok (st_Get (db s) key).

(** Pair what was computed with the outcome of storing it. *)
Definition returning {A} (a : A) (r : Store * res error unit) : Store * res error A :=
  (r.1, r.2 ≫= λ _, Ok a).

(** ** Queues *)

Definition CreateQueue (s : Store) (q : Queue) (now : Time) : Store * res error Queue :=
  match checkQueueName (q_Name q) with
  | Err e => (s, Err e)
  | Ok _ =>
      if has s (queueKey (q_Name q)) then (s, Err AlreadyExists)
      else
        let q := if decide (q_State q = StateUnset) then set_q_State q StateRunning else q in
        let q := set_q_config q (retry_withDefaults (q_RetryConfig q)) (rate_withDefaults (q_RateLimits q)) in
        let q := if IsZero (q_Created q) then set_q_Created q now else q in
        returning q (put s (queueKey (q_Name q)) (DQueue q))
  end.

(** [Queue{Name: name, State: StateRunning, Created: now}] *)
Definition new_queue (name : string) (now : Time) : Queue :=
  mkQueue name StateRunning (CloudTasks.mkCloudTasksBackoff 0 0 0 0 0)%Z (mkRateLimits (Fin 0 0) 0) now zero
    None None None None.

Definition UpdateQueue (s : Store) (name : string) (update : Queue → res error Queue) (now : Time)
    : Store * res error (Queue * bool) :=
  match checkQueueName name with
  | Err e => (s, Err e)
  | Ok _ =>
      let '(q, created) :=
        match get_queue s (queueKey name) with
        | Some q => (q, false)
        | None => (new_queue name now, true)
        end in
      match update q with
      | Err e => (s, Err e)
      | Ok q =>
          let q := set_q_config q (retry_withDefaults (q_RetryConfig q)) (rate_withDefaults (q_RateLimits q)) in
          returning (q, created) (put s (queueKey name) (DQueue q))
      end
  end.

Definition GetQueue (s : Store) (name : string) : res error Queue :=
  match get_queue s (queueKey name) with Some q => Ok q | None => Err NotFound end.

Definition SetIamPolicy (s : Store) (name : string) (req : iampb.SetIamPolicyRequest) (rnd : string)
    : Store * res error IamPolicy.Stored :=
  match get_queue s (queueKey name) with
  | None => (s, Err NotFound)
  | Some q =>
      match Set_ (IAMPolicy q) req rnd with
      | Err e => (s, Err e)
      | Ok next => returning next (put s (queueKey name) (DQueue (set_IAMPolicy q (Some next))))
      end
  end.

Definition list_queues (s : Store) (prefix : string) : res error (list Queue) :=
  match st_List (db s) prefix with
  | Err e => Err (Internal e)
  | Ok keys => Ok (sort_by q_Name (omap (get_queue s) keys))
  end.

Definition AllQueues (s : Store) : res error (list Queue) := list_queues s "tasks/queues/".

Definition ListQueues (s : Store) (parent : string) : res error (list Queue) :=
  if bool_decide (parent = "") then Err InvalidArgument
  else list_queues s (queueKey (parent +:+ "/queues/")).

Definition DeleteQueue (s : Store) (name : string) : Store * res error unit :=
  if negb (has s (queueKey name)) then (s, Err NotFound)
  else match st_List (db s) (taskKey (name +:+ "/tasks/")) with
  | Err e => (s, Err (Internal e))
  | Ok taskKeys =>
      match st_List (db s) (tombstoneKey (name +:+ "/tasks/")) with
      | Err e => (s, Err (Internal e))
      | Ok tombKeys =>
          match st_Commit (db s) (OpDelete (queueKey name) :: (OpDelete <$> (taskKeys ++ tombKeys))) with
          | (d, Err e) => (mkStore d (swept s), Err (Internal e))
          | (d, Ok _) => (mkStore d (swept s), Ok tt)
          end
      end
  end.

Definition SetQueueState (s : Store) (name : string) (state : State) : Store * res error Queue :=
  match get_queue s (queueKey name) with
  | None => (s, Err NotFound)
  | Some q => let q := set_q_State q state in returning q (put s (queueKey name) (DQueue q))
  end.

Definition PurgeQueue (s : Store) (name : string) (now : Time) : Store * res error unit :=
  match get_queue s (queueKey name) with
  | None => (s, Err NotFound)
  | Some q =>
      match st_List (db s) (taskKey (name +:+ "/tasks/")) with
      | Err e => (s, Err (Internal e))
      | Ok keys =>
          let q := set_Purged q now in
          if negb (marshals (DQueue q)) then (s, Err (Internal ErrEncode))
          else match st_Commit (db s) (OpPut (queueKey name) (DQueue q) :: (OpDelete <$> keys)) with
               | (d, Err e) => (mkStore d (swept s), Err (From e))
               | (d, Ok _) => (mkStore d (swept s), Ok tt)
               end
      end
  end.

(** ** Tasks *)

(** The end of [CreateTask]: defaults, then the put. *)
Definition finish_create (s : Store) (t : Task) (wall : Time) : Store * res error Task :=
  let t := match t_HTTPRequest t with
           | Some hr => if bool_decide (Method hr = "")
                        then set_HTTPRequest t (Some (mkHTTPRequest (URL hr) "POST" (Headers hr) (Body hr) (OIDC hr) (OAuth hr)))
                        else t
           | None => t
           end in
  let t := set_times t (if IsZero (ScheduleTime t) then wall else ScheduleTime t)
                       (if IsZero (t_Created t) then wall else t_Created t) in
  returning t (put s (taskKey (t_Name t)) (DTask t)).

(** [CreateTask] once the name is checked and the queue is filled in. *)
Definition create_in_queue (s : Store) (t : Task) (now wall : Time) : Store * res error Task :=
  match get_queue s (queueKey (t_Queue t)) with
  | None => (s, Err NotFound)
  | Some q =>
      if match t_HTTPRequest t with
         | Some hr => bool_decide (URL hr = "") && negb (targetsHost q)
         | None => false
         end
      then (s, Err InvalidArgument)
      else if has s (taskKey (t_Name t)) then (s, Err AlreadyExists)
      else
        match get_time s (tombstoneKey (t_Name t)) with
        | Some until =>
            if Before now until then (s, Err AlreadyExists)
            else finish_create (mkStore (st_Delete (db s) (tombstoneKey (t_Name t))).1 (swept s)) t wall
        | None => finish_create s t wall
        end
  end.

(** [now] is [s.now()], [wall] is [time.Now()]. *)
Definition CreateTask (s : Store) (t : Task) (now wall : Time) : Store * res error Task :=
  match Parse (t_Name t) with
  | Err _ => (s, Err InvalidArgument)
  | Ok n =>
      if negb (bool_decide (Collection n = "tasks")) || negb (bool_decide (ParentCollection n = "queues"))
      then (s, Err InvalidArgument)
      else if negb (taskIDRE (ID n)) then (s, Err InvalidArgument)
      else match t_HTTPRequest t, t_AppEngine t with
      | None, None => (s, Err InvalidArgument)
      | _, _ =>
          create_in_queue s
            (if bool_decide (t_Queue t = "") then set_t_Queue t (LocationName n +:+ "/queues/" +:+ ParentID n) else t)
            now wall
      end
  end.

Definition GetTask (s : Store) (name : string) : res error Task :=
  match get_task s (taskKey name) with Some t => Ok t | None => Err NotFound end.

Definition ListTasks (s : Store) (queue : string) : res error (list Task) :=
  if negb (has s (queueKey queue)) then Err NotFound
  else match st_List (db s) (taskKey (queue +:+ "/tasks/")) with
       | Err e => Err (Internal e)
       | Ok keys => Ok (sort_by t_Name (omap (get_task s) keys))
       end.

(** The tombstone stored at [k] is past at [now]. *)
Definition expired (s : Store) (now : Time) (k : string) : bool :=
  match get_time s k with Some until => negb (Before now until) | None => false end.

Definition expiredTombstones (s : Store) (now : Time) : list (Op doc) :=
  match st_List (db s) "tasks/tombstones/" with
  | Err _ => []
  | Ok keys => OpDelete <$> filter (λ k, expired s now k = true) keys
  end.

Definition DeleteTask (s : Store) (name : string) (now : Time) : Store * res error unit :=
  match get_task s (taskKey name) with
  | None => (s, Err NotFound)
  | Some t =>
      let until := Add now TombstoneTTL in
      if negb (NamedByServer t) && negb (marshals (DTime until)) then (s, Err (Internal ErrEncode))
      else
        let tomb := if NamedByServer t then [] else [OpPut (tombstoneKey name) (DTime until)] in
        let sweep := (tombstoneSweep <=? Sub now (swept s))%Z in
        let expired := if sweep then expiredTombstones s now else [] in
        let sw := if sweep then now else swept s in
        match st_Commit (db s) (OpDelete (taskKey name) :: tomb ++ expired) with
        | (d, Err e) => (mkStore d sw, Err (From e))
        | (d, Ok _) => (mkStore d sw, Ok tt)
        end
  end.

Definition UpdateTask (s : Store) (t : Task) : Store * res error unit :=
  match get_task s (taskKey (t_Name t)) with
  | None => (s, Err NotFound)
  | Some stored =>
      let t := if negb (IsZero (RunRequested stored)) && negb (Equal (RunRequested stored) (RunRequested t))
               then set_RunRequested t (RunRequested stored) else t in
      put s (taskKey (t_Name t)) (DTask t)
  end.

Definition RunTask (s : Store) (name : string) (now : Time) : Store * res error Task :=
  match get_task s (taskKey name) with
  | None => (s, Err NotFound)
  | Some t => let t := set_RunRequested t now in returning t (put s (taskKey name) (DTask t))
  end.

Definition TakeRun (s : Store) (name : string) (at_ : Time) : Store :=
  match get_task s (taskKey name) with
  | None => s
  | Some t =>
      if negb (Equal (RunRequested t) at_) then s
      else (put s (taskKey name) (DTask (set_RunRequested t zero))).1
  end.

(** The loop of [DueTasks]; [running] caches what is known of each queue. *)
Fixpoint due_loop (s : Store) (now : Time) (keys : list string) (running : gmap string bool) : list Task :=
  match keys with
  | [] => []
  | k :: rest =>
      match get_task s k with
      | None => due_loop s now rest running
      | Some t =>
          if negb (IsZero (RunRequested t)) then t :: due_loop s now rest running
          else if After (ScheduleTime t) now then due_loop s now rest running
          else
            let ok :=
              match running !! t_Queue t with
              | Some ok => ok
              | None => match get_queue s (queueKey (t_Queue t)) with
                        | Some q => bool_decide (q_State q = StateRunning)
                        | None => false
                        end
              end in
            let running := <[t_Queue t := ok]> running in
            if ok then t :: due_loop s now rest running else due_loop s now rest running
      end
  end.

Definition DueTasks (s : Store) (now : Time) : res error (list Task) :=
  match st_List (db s) "tasks/tasks/" with
  | Err e => Err e
  | Ok keys => Ok (sort_by t_Name (due_loop s now keys ∅))
  end.

(** ** Batches and the CMEK config (grpc1215.go) *)

Definition batchOperation (s : Store) (queue requestID : string) : option BatchOp :=
  if bool_decide (requestID = "") then None
  else match st_Get (db s) (batchKey queue requestID) with
       | Ok (DBatch op) => Some op
       | _ => None
       end.

Definition keepBatchOperation (s : Store) (queue requestID : string) (op : BatchOp) : Store :=
  if bool_decide (requestID = "") then s
  else mkStore (st_Put (db s) (batchKey queue requestID) (DBatch op)).1 (swept s).

Definition get_string (s : Store) (key : string) : option string :=
  match st_Get (db s) key with Ok (DString x) => Some x | _ => None end.

(** The store part of UpdateCmekConfig: an empty key clears the config, and a
    failed delete of a config that is not there is no error. *)
Definition setCmek (s : Store) (name key : string) : Store * res error unit :=
  if bool_decide (key = "") then
    match st_Delete (db s) (cmekKey name) with
    | (d, Err e) =>
        let s' := mkStore d (swept s) in
        (s', match get_string s' (cmekKey name) with Some _ => Err (From e) | None => Ok tt end)
    | (d, Ok _) => (mkStore d (swept s), Ok tt)
    end
  else match put s (cmekKey name) (DString key) with
       | (s', Err e) => (s', Err (From e))
       | (s', Ok _) => (s', Ok tt)
       end.

(** ** Reads and writes, on the contents *)

Abbreviation cts s := (contents (db s)).

Lemma get_task_Some s k t : get_task s k = Some t ↔ SafeKey k = true ∧ cts s !! k = Some (DTask t).
Proof.
  unfold get_task. destruct (st_Get (db s) k) as [d|] eqn:Hg.
  - pose proof Hg as Hg'. apply Get_ok in Hg' as [Hk Hm]. rewrite Hm. destruct d; naive_solver.
  - split; [done|]. intros H. apply Get_ok in H. congruence.
Qed.

Lemma get_queue_Some s k q : get_queue s k = Some q ↔ SafeKey k = true ∧ cts s !! k = Some (DQueue q).
Proof.
  unfold get_queue. destruct (st_Get (db s) k) as [d|] eqn:Hg.
  - pose proof Hg as Hg'. apply Get_ok in Hg' as [Hk Hm]. rewrite Hm. destruct d; naive_solver.
  - split; [done|]. intros H. apply Get_ok in H. congruence.
Qed.

Lemma get_time_Some s k t : get_time s k = Some t ↔ SafeKey k = true ∧ cts s !! k = Some (DTime t).
Proof.
  unfold get_time. destruct (st_Get (db s) k) as [d|] eqn:Hg.
  - pose proof Hg as Hg'. apply Get_ok in Hg' as [Hk Hm]. rewrite Hm. destruct d; naive_solver.
  - split; [done|]. intros H. apply Get_ok in H. congruence.
Qed.

Lemma has_true s k : has s k = true ↔ SafeKey k = true ∧ is_Some (cts s !! k).
Proof.
  unfold has, is_ok. destruct (st_Get (db s) k) as [d|] eqn:Hg.
  - apply Get_ok in Hg as [Hk Hm]. rewrite Hm. split; [eauto|done].
  - split; [done|]. intros [Hk [v Hv]]. pose proof (proj2 (Get_ok (db s) k v)) as H. rewrite H in Hg; done.
Qed.

(** A write of one document: stored, or the store as it was. *)
Lemma put_cases s k v :
  ((put s k v).2 = Ok tt ∧ SafeKey k = true ∧ cts (put s k v).1 = <[k := v]> (cts s)) ∨
  (∃ e, (put s k v).2 = Err e ∧ cts (put s k v).1 = cts s).
Proof.
  unfold put. destruct (marshals v); cbn [negb]; [|right; by eexists].
  rewrite Put_law. destruct (st_Commit_cases (db s) [OpPut k v]) as [(H1 & H2%check_keys_ok & H3)|(e & H1 & H2)];
    destruct (st_Commit (db s) [OpPut k v]) as [d r]; cbn in *; subst r.
  - left. apply Forall_cons_1 in H2 as [Hk _]. done.
  - right. by eexists.
Qed.

Lemma put_swept s k v : swept (put s k v).1 = swept s.
Proof. unfold put. repeat case_match; done. Qed.

Lemma returning_ok {A} (a : A) r s' b : returning a r = (s', Ok b) → r = (s', Ok tt) ∧ a = b.
Proof. destruct r as [s1 [[]|]]; unfold returning; cbn; naive_solver. Qed.

(** ** The invariant: every document lies under its own key *)

Definition fits (k : string) (v : doc) : Prop :=
  SafeKey k = true ∧
  match v with
  | DQueue q => k = queueKey (q_Name q)
  | DTask t => k = taskKey (t_Name t)
  | DTime _ => ∃ n, k = tombstoneKey n
  | DString _ => HasPrefix k "tasks/cmek/" = true
  | DBatch _ => HasPrefix k "tasks/batches/" = true
  end.

Definition typed (s : Store) : Prop := map_Forall fits (cts s).

Lemma typed_task s n d : typed s → cts s !! taskKey n = Some d → ∃ t, d = DTask t ∧ t_Name t = n.
Proof.
  intros Hs Hd. destruct (Hs _ _ Hd) as [_ Hf]. destruct d as [q|t|t|x|b]; try done.
  - exists t. split; [done|]. by apply taskKey_inj.
  - by destruct Hf as [m Hf].
Qed.

Lemma typed_queue s n d : typed s → cts s !! queueKey n = Some d → ∃ q, d = DQueue q ∧ q_Name q = n.
Proof.
  intros Hs Hd. destruct (Hs _ _ Hd) as [_ Hf]. destruct d as [q|t|t|x|b]; try done.
  - exists q. split; [done|]. by apply queueKey_inj.
  - by destruct Hf as [m Hf].
Qed.

Lemma typed_tomb s n d : typed s → cts s !! tombstoneKey n = Some d → ∃ t, d = DTime t.
Proof.
  intros Hs Hd. destruct (Hs _ _ Hd) as [_ Hf]. destruct d as [q|t|t|x|b]; try done. by exists t.
Qed.

Lemma get_task_name s n t : typed s → get_task s (taskKey n) = Some t → t_Name t = n.
Proof.
  intros Hs [_ Ht]%get_task_Some. by destruct (typed_task s n _ Hs Ht) as (t' & [= <-] & ?).
Qed.

Lemma get_queue_name s n q : typed s → get_queue s (queueKey n) = Some q → q_Name q = n.
Proof.
  intros Hs [_ Ht]%get_queue_Some. by destruct (typed_queue s n _ Hs Ht) as (q' & [= <-] & ?).
Qed.

(** The outcome of a commit decides only the answer, not the store. *)
Lemma commit_store {A} (d : S * res error unit) sw (f : error → res error A) (a : res error A) :
  (match d with
   | (d', Err e) => (mkStore d' sw, f e)
   | (d', Ok _) => (mkStore d' sw, a)
   end).1 = mkStore d.1 sw.
Proof. by destruct d as [d' [[]|e]]. Qed.

(** ** Every operation, as a step *)

Inductive op :=
| OCreateQueue (q : Queue) (now : Time)
| OUpdateQueue (name : string) (update : Queue → res error Queue) (now : Time)
| OSetIamPolicy (name : string) (req : iampb.SetIamPolicyRequest) (rnd : string)
| ODeleteQueue (name : string)
| OSetQueueState (name : string) (state : State)
| OPurgeQueue (name : string) (now : Time)
| OCreateTask (t : Task) (now wall : Time)
| ODeleteTask (name : string) (now : Time)
| OUpdateTask (t : Task)
| ORunTask (name : string) (now : Time)
| OTakeRun (name : string) (at_ : Time)
| OKeepBatch (queue requestID : string) (b : BatchOp)
| OSetCmek (name key : string).

Definition exec (s : Store) (o : op) : Store :=
  match o with
  | OCreateQueue q now => (CreateQueue s q now).1
  | OUpdateQueue name update now => (UpdateQueue s name update now).1
  | OSetIamPolicy name req rnd => (SetIamPolicy s name req rnd).1
  | ODeleteQueue name => (DeleteQueue s name).1
  | OSetQueueState name state => (SetQueueState s name state).1
  | OPurgeQueue name now => (PurgeQueue s name now).1
  | OCreateTask t now wall => (CreateTask s t now wall).1
  | ODeleteTask name now => (DeleteTask s name now).1
  | OUpdateTask t => (UpdateTask s t).1
  | ORunTask name now => (RunTask s name now).1
  | OTakeRun name at_ => TakeRun s name at_
  | OKeepBatch queue id b => keepBatchOperation s queue id b
  | OSetCmek name key => (setCmek s name key).1
  end.

Definition run (s : Store) (os : list op) : Store := fold_left exec os s.

(** The update a caller passes to UpdateQueue leaves the name alone, as its
    contract says. *)
Definition keeps_name (o : op) : Prop :=
  match o with
  | OUpdateQueue _ update _ => ∀ q q', update q = Ok q' → q_Name q' = q_Name q
  | _ => True
  end.

(** What an operation may write, given the store it runs on. *)
Inductive writes (s : Store) : op → Op doc → Prop :=
| w_create_queue q now q' :
    q_Name q' = q_Name q → has s (queueKey (q_Name q)) = false →
    writes s (OCreateQueue q now) (OpPut (queueKey (q_Name q)) (DQueue q'))
| w_update_queue name update now q0 q1 q' :
    (get_queue s (queueKey name) = Some q0 ∨ q_Name q0 = name) → update q0 = Ok q1 → q_Name q' = q_Name q1 →
    writes s (OUpdateQueue name update now) (OpPut (queueKey name) (DQueue q'))
| w_iam name req rnd q q' :
    get_queue s (queueKey name) = Some q → q_Name q' = q_Name q →
    writes s (OSetIamPolicy name req rnd) (OpPut (queueKey name) (DQueue q'))
| w_state name state q q' :
    get_queue s (queueKey name) = Some q → q_Name q' = q_Name q →
    writes s (OSetQueueState name state) (OpPut (queueKey name) (DQueue q'))
| w_delete_queue name : writes s (ODeleteQueue name) (OpDelete (queueKey name))
| w_delete_queue_tasks name k :
    HasPrefix k (taskKey (name +:+ "/tasks/")) = true ∨ HasPrefix k (tombstoneKey (name +:+ "/tasks/")) = true →
    writes s (ODeleteQueue name) (OpDelete k)
| w_purge name now q q' :
    get_queue s (queueKey name) = Some q → q_Name q' = q_Name q →
    writes s (OPurgeQueue name now) (OpPut (queueKey name) (DQueue q'))
| w_purge_tasks name now k :
    HasPrefix k (taskKey (name +:+ "/tasks/")) = true → writes s (OPurgeQueue name now) (OpDelete k)
| w_create_tomb t now wall :
    has s (taskKey (t_Name t)) = false → expired s now (tombstoneKey (t_Name t)) = true →
    writes s (OCreateTask t now wall) (OpDelete (tombstoneKey (t_Name t)))
| w_create_task t now wall t' :
    t_Name t' = t_Name t → t_Queue t' = (if bool_decide (t_Queue t = "") then home (t_Name t) else t_Queue t) →
    has s (taskKey (t_Name t)) = false →
    (get_time s (tombstoneKey (t_Name t)) = None ∨ expired s now (tombstoneKey (t_Name t)) = true) →
    writes s (OCreateTask t now wall) (OpPut (taskKey (t_Name t)) (DTask t'))
| w_delete_task name now t :
    get_task s (taskKey name) = Some t → writes s (ODeleteTask name now) (OpDelete (taskKey name))
| w_tombstone name now t :
    get_task s (taskKey name) = Some t → NamedByServer t = false →
    writes s (ODeleteTask name now) (OpPut (tombstoneKey name) (DTime (Add now TombstoneTTL)))
| w_sweep name now t k :
    get_task s (taskKey name) = Some t → expired s now k = true → HasPrefix k "tasks/tombstones/" = true →
    writes s (ODeleteTask name now) (OpDelete k)
| w_update t stored t' :
    get_task s (taskKey (t_Name t)) = Some stored →
    t' = t ∧ (IsZero (RunRequested stored) = true ∨ RunRequested stored = RunRequested t) ∨
    t' = set_RunRequested t (RunRequested stored) →
    writes s (OUpdateTask t) (OpPut (taskKey (t_Name t)) (DTask t'))
| w_run name now t :
    get_task s (taskKey name) = Some t →
    writes s (ORunTask name now) (OpPut (taskKey name) (DTask (set_RunRequested t now)))
| w_take name at_ t :
    get_task s (taskKey name) = Some t → RunRequested t = at_ →
    writes s (OTakeRun name at_) (OpPut (taskKey name) (DTask (set_RunRequested t zero)))
| w_batch queue id b : writes s (OKeepBatch queue id b) (OpPut (batchKey queue id) (DBatch b))
| w_cmek name key : writes s (OSetCmek name key) (OpPut (cmekKey name) (DString key))
| w_cmek_clear name key : writes s (OSetCmek name key) (OpDelete (cmekKey name)).

(** [ws] were applied, each of a safe key and allowed. *)
Definition applied (s : Store) (o : op) (s' : Store) (ws : list (Op doc)) : Prop :=
  cts s' = apply_ops (cts s) ws ∧ Forall (λ w, SafeKey (op_key w) = true ∧ writes s o w) ws.

Lemma applied_none s o s' : cts s' = cts s → ∃ ws, applied s o s' ws.
Proof. intros H. exists []. by split; [|constructor]. Qed.

Lemma applied_commit s o sw ops :
  Forall (writes s o) ops → ∃ ws, applied s o (mkStore (st_Commit (db s) ops).1 sw) ws.
Proof.
  intros Hops. destruct (st_Commit_cases (db s) ops) as [(_ & Hk%check_keys_ok & Heq)|(e & _ & Heq)].
  - exists ops. split; [done|]. apply Forall_and. split; done.
  - by apply applied_none.
Qed.

Lemma applied_put s o k v : writes s o (OpPut k v) → ∃ ws, applied s o (put s k v).1 ws.
Proof.
  intros Hw. destruct (put_cases s k v) as [(_ & Hk & Heq)|(e & _ & Heq)]; [|by apply applied_none].
  exists [OpPut k v]. split; [done|]. constructor; [done|constructor].
Qed.

Lemma finish_create_put s t wall :
  ∃ t', t_Name t' = t_Name t ∧ t_Queue t' = t_Queue t ∧ finish_create s t wall = returning t' (put s (taskKey (t_Name t)) (DTask t')).
Proof.
  unfold finish_create. destruct (t_HTTPRequest t) as [hr|]; [case_bool_decide|]; (eexists; split; [|split; [|reflexivity]]); done.
Qed.

Lemma applied_create_in_queue s t t0 now wall :
  t_Name t0 = t_Name t → t_Queue t0 = (if bool_decide (t_Queue t = "") then home (t_Name t) else t_Queue t) →
  ∃ ws, applied s (OCreateTask t now wall) (create_in_queue s t0 now wall).1 ws.
Proof.
  intros Hn Hqueue. unfold create_in_queue. destruct (get_queue _ _) as [q|]; [|by apply applied_none].
  destruct (match t_HTTPRequest t0 with Some _ => _ | None => _ end); [by apply applied_none|].
  rewrite Hn. destruct (has s (taskKey (t_Name t))) eqn:Hhas; [by apply applied_none|].
  destruct (get_time s (tombstoneKey (t_Name t))) as [until|] eqn:Hg.
  - destruct (Before now until) eqn:Hb; [by apply applied_none|].
    assert (expired s now (tombstoneKey (t_Name t)) = true) as He by (unfold expired; by rewrite Hg, Hb).
    rewrite Delete_law. set (s1 := mkStore (st_Commit (db s) [OpDelete (tombstoneKey (t_Name t))]).1 (swept s)).
    destruct (finish_create_put s1 t0 wall) as (t' & Ht' & Hq' & ->). rewrite Hn. unfold returning. cbn [fst].
    destruct (applied_commit s (OCreateTask t now wall) (swept s) [OpDelete (tombstoneKey (t_Name t))])
      as (ws & Hws & Hall); [by repeat constructor|].
    destruct (put_cases s1 (taskKey (t_Name t)) (DTask t')) as [(_ & Hk & Heq)|(e & _ & Heq)].
    + exists (ws ++ [OpPut (taskKey (t_Name t)) (DTask t')]). split.
      * rewrite Heq, apply_ops_app, <- Hws. done.
      * apply Forall_app. split; [done|]. constructor; [|constructor]. split; [done|].
        apply w_create_task; [congruence|congruence|done|auto].
    + exists ws. split; [by rewrite Heq|done].
  - destruct (finish_create_put s t0 wall) as (t' & Ht' & Hq' & ->). rewrite Hn.
    apply applied_put, w_create_task; [congruence|congruence|done|auto].
Qed.

Lemma applied_create s t now wall :
  ∃ ws, applied s (OCreateTask t now wall) (CreateTask s t now wall).1 ws.
Proof.
  unfold CreateTask. destruct (Parse (t_Name t)) as [n|] eqn:Hp; [|by apply applied_none].
  destruct (negb _ || negb _); [by apply applied_none|]. destruct (negb _); [by apply applied_none|].
  destruct (t_HTTPRequest t); [|destruct (t_AppEngine t); [|by apply applied_none]];
    (apply applied_create_in_queue; [by case_bool_decide|]; unfold home; rewrite Hp; by case_bool_decide).
Qed.

Lemma list_prefix s p keys k : st_List (db s) p = Ok keys → k ∈ keys → HasPrefix k p = true.
Proof. rewrite List_law. intros [= <-]. by intros [_ ?]%elem_of_list_keys. Qed.

Lemma applied_delete_queue s name : ∃ ws, applied s (ODeleteQueue name) (DeleteQueue s name).1 ws.
Proof.
  unfold DeleteQueue. destruct (negb _); [by apply applied_none|].
  destruct (st_List (db s) (taskKey _)) as [tk|] eqn:H1; [|by apply applied_none].
  destruct (st_List (db s) (tombstoneKey _)) as [bk|] eqn:H2; [|by apply applied_none].
  rewrite commit_store. apply applied_commit. constructor; [constructor|].
  apply Forall_fmap, Forall_forall. intros k Hk%elem_of_app. apply w_delete_queue_tasks.
  destruct Hk as [Hk|Hk]; [left|right]; by eapply list_prefix.
Qed.

Lemma applied_purge s name now : ∃ ws, applied s (OPurgeQueue name now) (PurgeQueue s name now).1 ws.
Proof.
  unfold PurgeQueue. destruct (get_queue _ _) as [q|] eqn:Hq; [|by apply applied_none].
  destruct (st_List _ _) as [keys|] eqn:H1; [|by apply applied_none].
  cbv zeta. destruct (negb _); [by apply applied_none|]. rewrite commit_store. apply applied_commit.
  constructor; [by econstructor|]. apply Forall_fmap, Forall_forall. intros k Hk.
  apply w_purge_tasks. by eapply list_prefix.
Qed.

Lemma applied_delete_task s name now : ∃ ws, applied s (ODeleteTask name now) (DeleteTask s name now).1 ws.
Proof.
  unfold DeleteTask. destruct (get_task _ _) as [t|] eqn:Ht; [|by apply applied_none].
  cbv zeta. destruct (_ && _); [by apply applied_none|]. rewrite commit_store. apply applied_commit.
  constructor; [by econstructor|]. apply Forall_app. split.
  - destruct (NamedByServer t) eqn:Hb; repeat (constructor; [by econstructor|]); constructor.
  - destruct (_ <=? _)%Z; [|constructor]. unfold expiredTombstones.
    destruct (st_List _ _) as [keys|] eqn:H1; [|constructor].
    apply Forall_fmap, Forall_forall. intros k [He Hk]%list_elem_of_filter.
    eapply w_sweep; [done..|]. by eapply list_prefix.
Qed.

(** Every operation writes only what [writes] allows it. *)
Lemma exec_applied s o : ∃ ws, applied s o (exec s o) ws.
Proof.
  destruct o as [q now|name update now|name req rnd|name|name state|name now|t now wall|name now|t|name now|name at_|queue id b|name key];
    cbn [exec].
  - unfold CreateQueue. destruct (checkQueueName _); [|by apply applied_none].
    destruct (has _ _) eqn:Hh; [by apply applied_none|]. cbv zeta. unfold returning. cbn [fst].
    destruct (decide _), (IsZero _); apply applied_put; by apply (w_create_queue s q now).
  - unfold UpdateQueue. destruct (checkQueueName _); [|by apply applied_none].
    destruct (get_queue _ _) as [q|] eqn:Hq; cbv zeta iota beta.
    + destruct (update q) as [q1|] eqn:Hu; [|by apply applied_none]. apply applied_put. econstructor; eauto.
    + destruct (update (new_queue name now)) as [q1|] eqn:Hu; [|by apply applied_none].
      apply applied_put. eapply (w_update_queue s name update now (new_queue name now)); eauto.
  - unfold SetIamPolicy. destruct (get_queue _ _) as [q|] eqn:Hq; [|by apply applied_none].
    destruct (Set_ _ _ _) as [next|]; [|by apply applied_none]. apply applied_put. by econstructor.
  - apply applied_delete_queue.
  - unfold SetQueueState. destruct (get_queue _ _) as [q|] eqn:Hq; [|by apply applied_none].
    apply applied_put. by econstructor.
  - apply applied_purge.
  - apply applied_create.
  - apply applied_delete_task.
  - unfold UpdateTask. destruct (get_task _ _) as [st|] eqn:Ht; [|by apply applied_none]. cbv zeta.
    destruct (negb _ && negb _) eqn:Hc; apply applied_put; (apply (w_update s t st); [done|]); [by right|left].
    split; [done|]. apply andb_false_iff in Hc as [Hc|Hc]; apply negb_false_iff in Hc; [by left|right].
    by apply Z.eqb_eq.
  - unfold RunTask. destruct (get_task _ _) as [t|] eqn:Ht; [|by apply applied_none].
    apply applied_put. by constructor.
  - unfold TakeRun. destruct (get_task _ _) as [t|] eqn:Ht; [|by apply applied_none].
    destruct (negb _) eqn:Hc; [by apply applied_none|]. apply applied_put. constructor; [done|].
    apply negb_false_iff in Hc. by apply Z.eqb_eq.
  - unfold keepBatchOperation. case_bool_decide; [by apply applied_none|]. rewrite Put_law.
    apply applied_commit. by repeat constructor.
  - unfold setCmek. case_bool_decide.
    + rewrite Delete_law. destruct (st_Commit (db s) [OpDelete (cmekKey name)]) as [d r] eqn:Hc.
      replace d with (st_Commit (db s) [OpDelete (cmekKey name)]).1 by by rewrite Hc.
      destruct r; apply applied_commit; by repeat constructor.
    + destruct (put s (cmekKey name) (DString key)) as [s' r] eqn:Hp.
      replace s' with (put s (cmekKey name) (DString key)).1 by by rewrite Hp.
      destruct r; apply applied_put; constructor.
Qed.

End store.
