(* ===== verification/TasksStoreSpec.v ===== *)
(** * What the Cloud Tasks store guarantees

    Properties of store.go over any metadata store that keeps the interface's
    laws, and the divergences the model shows. *)

From S2P Require Import Prelude GoLib ApiError Resource MetaStore Float64 Sched IamPolicy TasksModel TasksStore.
From Stdlib Require Import Ascii.

Import strings time.

(** Inversion of a [writes], with the equations between keys of one kind
    reduced to equations between names. *)
Ltac writes_inv H :=
  inversion H; subst;
  repeat match goal with H : "" +:+ ?a = "" +:+ ?b |- _ => change (a = b) in H; subst end;
  repeat match goal with
    | H1 : get_task ?s ?k = Some ?a, H2 : get_task ?s ?k = Some ?b |- _ =>
        rewrite H1 in H2; injection H2 as H2; subst
    end;
  try congruence.

Section spec.
Context {S : Type} `{MSL : MetaStoreLaws S doc}.
Implicit Types (s : Store (S := S)).
Abbreviation cts s := (contents (db s)).

(** ** Typing *)

Lemma writes_fit s o w :
  typed s → keeps_name o → writes s o w → SafeKey (op_key w) = true →
  match w with OpPut k v => fits k v | OpDelete _ => True end.
Proof.
  intros Hs Ho Hw. destruct Hw; intros Hk; try done; (split; [done|]); cbn in *.
  all: repeat match goal with
    | H : get_task _ (taskKey _) = Some _ |- _ => apply (get_task_name _ _ _ Hs) in H
    | H : get_queue _ (queueKey _) = Some _ |- _ => apply (get_queue_name _ _ _ Hs) in H
    end; try (congruence || done || by eexists).
  - assert (q_Name q0 = name) as Hn by (destruct H as [H|H]; [by apply (get_queue_name _ _ _ Hs)|done]).
    rewrite H1, (Ho _ _ H0). congruence.
  - destruct H0 as [[-> _]| ->]; done.
Qed.

Lemma typed_exec s o : typed s → keeps_name o → typed (exec s o).
Proof.
  intros Hs Ho. destruct (exec_applied s o) as (ws & Heq & Hws). unfold typed. rewrite Heq.
  apply apply_ops_preserves; [done|]. eapply Forall_impl; [exact Hws|].
  intros w [Hk Hw]. by eapply writes_fit.
Qed.

Lemma typed_run s os : typed s → Forall keeps_name os → typed (run s os).
Proof.
  revert s. induction os as [|o os IH]; intros s Hs Hos; [done|].
  apply Forall_cons_1 in Hos as [??]. by apply IH; [apply typed_exec|].
Qed.

(** The store stays well typed.  Whatever operations run, in whatever
    order, over any metadata store (one that fails writes included), every
    document is under the key of its own name, so a read of a queue, task or
    tombstone key never meets a document of another kind, and every key is one
    the metadata store accepts. *)
Theorem store_typed d os :
  contents d = ∅ → Forall keeps_name os →
  ∀ k v, contents (db (run (NewStore d) os)) !! k = Some v → fits k v.
Proof.
  intros Hd Hos. apply typed_run; [|done]. unfold typed. cbn. rewrite Hd. apply map_Forall_empty.
Qed.

(** ** What can change one name *)

(** No operation but CreateTask puts a document under a task key that has none. *)
Lemma exec_no_new_task s o n :
  cts s !! taskKey n = None → is_Some (cts (exec s o) !! taskKey n) →
  ∃ t now wall, o = OCreateTask t now wall ∧ t_Name t = n.
Proof.
  intros Hnone [v Hv]. destruct (exec_applied s o) as (ws & Heq & Hws).
  rewrite Heq in Hv. apply apply_ops_Some in Hv as [Hv|Hin]; [congruence|].
  apply (proj1 (Forall_forall _ _) Hws) in Hin as [_ Hw].
  assert (∀ t, get_task s (taskKey n) = Some t → False) as Hno by (intros t [_ Ht]%get_task_Some; congruence).
  writes_inv Hw; [by do 3 eexists|exfalso; by eapply Hno..].
Qed.

(** Only CreateTask makes a task.  No other operation, whatever it is
    given (an attempt's late write-back, a forced run, a purge), brings back a
    task that is not there. *)
Theorem only_create_creates s o n :
  typed s → GetTask s n = Err NotFound → is_ok (GetTask (exec s o) n) = true →
  ∃ t now wall, o = OCreateTask t now wall ∧ t_Name t = n.
Proof.
  unfold GetTask. intros Hs Hnone Hsome. destruct (get_task s (taskKey n)) as [t0|] eqn:Hg; [done|].
  destruct (get_task (exec s o) (taskKey n)) as [t1|] eqn:Hg1; [|done].
  apply get_task_Some in Hg1 as [Hk Ht1]. apply (exec_no_new_task s o n); [|by eexists].
  destruct (cts s !! taskKey n) as [v|] eqn:Hv; [|done].
  destruct (typed_task s n v Hs Hv) as (t & -> & _). by rewrite (proj2 (get_task_Some s _ t)) in Hg.
Qed.

(** A forced run is never lost.  Once RunTask has recorded a request, an
    operation leaves it pending unless it is the TakeRun that consumes that very
    request, a newer RunTask, or removes the task; in particular the write-back of
    an attempt that read the task before the request keeps it. *)
Theorem run_request_survives s o n t :
  typed s → GetTask s n = Ok t → IsZero (RunRequested t) = false →
  match GetTask (exec s o) n with
  | Ok t' => RunRequested t' = RunRequested t ∨ o = OTakeRun n (RunRequested t) ∨ ∃ now, o = ORunTask n now
  | Err _ => True
  end.
Proof.
  unfold GetTask. intros Hs Hget Hrun. destruct (get_task s (taskKey n)) as [t0|] eqn:Hg; simplify_eq.
  destruct (get_task (exec s o) (taskKey n)) as [t'|] eqn:Hg'; [|done].
  apply get_task_Some in Hg' as [Hk Ht']. destruct (exec_applied s o) as (ws & Heq & Hws).
  rewrite Heq in Ht'. apply apply_ops_Some in Ht' as [Ht'|Hin].
  { apply get_task_Some in Hg as [_ Hg]. simplify_eq. by left. }
  apply (proj1 (Forall_forall _ _) Hws) in Hin as [_ Hw]. writes_inv Hw.
  - (* a create refuses a name that is there *)
    match goal with H : has s _ = false |- _ => rewrite (proj2 (has_true s _)) in H; [done|] end.
    apply get_task_Some in Hg as [? Hg]. split; [done|]. by eexists.
  - left. match goal with H : _ ∨ _ |- _ => destruct H as [[Ht' [Hz|Hr]]|Ht'] end. 1, 2: congruence.
    by rewrite Ht'.
  - right. right. by eexists.
  - right. left. by simplify_eq.
Qed.

(** ** De-duplication *)

(** The name [n] is taken until [until]: no task, and a tombstone. *)
Definition buried s n until : Prop :=
  SafeKey (tombstoneKey n) = true ∧ cts s !! taskKey n = None ∧ cts s !! tombstoneKey n = Some (DTime until).

(** The clock an operation reads, if it reads one that matters. *)
Definition op_before (until : Time) (o : op) : Prop :=
  match o with
  | OCreateTask _ now _ | ODeleteTask _ now => now < until
  | _ => True
  end%Z.

(** The operation does not delete the queue whose task [n] is. *)
Definition spares_queue_of (n : string) (o : op) : Prop :=
  match o with
  | ODeleteQueue q => HasPrefix n (q +:+ "/tasks/") = false
  | _ => True
  end.

Lemma buried_not_expired s n until now :
  buried s n until → (now < until)%Z → expired s now (tombstoneKey n) = false.
Proof.
  intros (Hk & _ & Ht) Hlt. unfold expired. rewrite (proj2 (get_time_Some s _ until)) by done.
  unfold Before. by rewrite (proj2 (Z.ltb_lt now until)).
Qed.

Lemma buried_no_task s n until t : buried s n until → get_task s (taskKey n) = Some t → False.
Proof. intros (_ & Hn & _) [_ Ht]%get_task_Some. congruence. Qed.

Lemma buried_exec s n until o :
  buried s n until → op_before until o → spares_queue_of n o → buried (exec s o) n until.
Proof.
  intros Hb Ho Hq. destruct (exec_applied s o) as (ws & Heq & Hws).
  assert (Forall (λ w, op_key w ≠ tombstoneKey n) ws) as Htomb.
  { eapply Forall_impl; [exact Hws|]. intros w [_ Hw] Hkey. destruct w as [k v|k]; cbn in Hkey; subst k; writes_inv Hw.
    - by eapply buried_no_task.
    - match goal with H : _ ∨ _ |- _ => destruct H as [H|H] end; [done|].
      match goal with H : _ = true |- _ => change (HasPrefix n (name +:+ "/tasks/") = true) in H end.
      cbn [spares_queue_of] in Hq. congruence.
    - done.
    - match goal with H : expired _ _ _ = true |- _ => rewrite (buried_not_expired _ _ until) in H; done end.
    - match goal with H : expired _ _ _ = true |- _ => rewrite (buried_not_expired _ _ until) in H; done end. }
  assert (cts (exec s o) !! taskKey n = None) as Htask.
  { destruct (cts (exec s o) !! taskKey n) as [v|] eqn:Hv; [|done]. rewrite Heq in Hv.
    apply apply_ops_Some in Hv as [Hv|Hin]; [destruct Hb as (_ & Hb & _); congruence|].
    apply (proj1 (Forall_forall _ _) Hws) in Hin as [_ Hw]. writes_inv Hw; exfalso; try by eapply buried_no_task.
    match goal with H : _ ∨ _ |- _ => destruct H as [Hx|Hx] end.
    - destruct Hb as (Hk & _ & Ht). rewrite (proj2 (get_time_Some s _ until)) in Hx; done.
    - rewrite (buried_not_expired s _ until) in Hx; done. }
  destruct Hb as (Hk & _ & Ht). split; [done|]. split; [done|]. rewrite Heq, apply_ops_ne; done.
Qed.

Lemma buried_run s n until os :
  buried s n until → Forall (op_before until) os → Forall (spares_queue_of n) os → buried (run s os) n until.
Proof.
  revert s. induction os as [|o os IH]; intros s Hb H1 H2; [done|].
  apply Forall_cons_1 in H1 as [??]. apply Forall_cons_1 in H2 as [??].
  apply IH; [by apply buried_exec|done..].
Qed.

(** A buried name cannot be created before its time. *)
Lemma buried_create s t now wall until :
  buried s (t_Name t) until → (now < until)%Z → is_ok (CreateTask s t now wall).2 = false.
Proof.
  intros (Hk & Hn & Ht) Hlt. unfold CreateTask. destruct (Parse (t_Name t)) as [n|]; [|done].
  destruct (negb _ || negb _); [done|]. destruct (negb _); [done|].
  assert (∀ t0, t_Name t0 = t_Name t → is_ok (create_in_queue s t0 now wall).2 = false) as Hmain.
  { intros t0 Heq. unfold create_in_queue. destruct (get_queue _ _) as [q|]; [|done].
    destruct (match t_HTTPRequest t0 with Some _ => _ | None => _ end); [done|].
    rewrite Heq. destruct (has _ _); [done|]. rewrite (proj2 (get_time_Some s _ until)) by done.
    unfold Before. by rewrite (proj2 (Z.ltb_lt now until)). }
  destruct (t_HTTPRequest t); [|destruct (t_AppEngine t); [|done]]; apply Hmain; by case_bool_decide.
Qed.

Lemma DeleteTask_ok s n now t s' :
  get_task s (taskKey n) = Some t → NamedByServer t = false → get_time s (tombstoneKey n) = None →
  DeleteTask s n now = (s', Ok tt) → buried s' n (Add now TombstoneTTL).
Proof.
  intros Ht Hns Htomb Hdel. unfold DeleteTask in Hdel. rewrite Ht, Hns in Hdel. cbn [negb andb] in Hdel.
  destruct (negb (marshals _)); [done|]. cbv zeta in Hdel.
  set (rest := if (tombstoneSweep <=? Sub now (swept s))%Z then expiredTombstones s now else []) in Hdel.
  set (ops := OpDelete (taskKey n) :: [OpPut (tombstoneKey n) (DTime (Add now TombstoneTTL))] ++ rest) in Hdel.
  assert (Forall (λ w, op_key w ≠ taskKey n ∧ op_key w ≠ tombstoneKey n) rest) as Hrest.
  { unfold rest. destruct (_ <=? _)%Z; [|constructor]. unfold expiredTombstones.
    destruct (st_List _ _) as [keys|] eqn:Hl; [|constructor]. apply Forall_fmap, Forall_forall.
    intros k [He Hk]%list_elem_of_filter. cbn. split.
    - intros ->. by apply (list_prefix s _ _ _ Hl) in Hk.
    - intros ->. unfold expired in He. by rewrite Htomb in He. }
  destruct (st_Commit_cases (db s) ops) as [(H1 & H2%check_keys_ok & H3)|(e & H1 & _)];
    destruct (st_Commit (db s) ops) as [d r]; cbn [fst snd] in *; subst r; simplify_eq.
  split; [|cbn [db]; rewrite H3].
  - apply Forall_cons_1 in H2 as [_ H2]. by apply Forall_cons_1 in H2 as [H2 _].
  - unfold ops. change (?x :: ?y ++ rest) with ((x :: y) ++ rest). rewrite apply_ops_app.
    cbn [apply_ops fold_left apply_op].
    split; (rewrite apply_ops_ne; [|eapply Forall_impl; [exact Hrest|]; by intros w [? ?]]).
    + rewrite lookup_insert_ne by apply not_eq_sym, task_tomb_ne. by rewrite lookup_delete_eq.
    + by rewrite lookup_insert_eq.
Qed.

(** C5: de-duplication.  After a client-named task, of whose name no earlier
    tombstone is left in the store, was executed or deleted by a DeleteTask that
    succeeded, every attempt to create a task of that name within the hour is
    refused, whatever operations ran in between within that hour (deletes and their
    sweeps, other creates, purges, pauses, failed writes) short of deleting the
    task's queue, which takes the tombstones with it. *)
Theorem name_not_reusable s n t now s' os t2 now2 wall :
  GetTask s n = Ok t → NamedByServer t = false → get_time s (tombstoneKey n) = None →
  DeleteTask s n now = (s', Ok tt) →
  Forall (op_before (Add now TombstoneTTL)) os → Forall (spares_queue_of n) os →
  t_Name t2 = n → (now2 < now + Hour)%Z →
  is_ok (CreateTask (run s' os) t2 now2 wall).2 = false.
Proof.
  unfold GetTask. intros Hg Hns Htomb Hdel Hb Hsp <- Hlt.
  destruct (get_task s (taskKey (t_Name t2))) as [t0|] eqn:Ht; simplify_eq.
  eapply buried_create; [|exact Hlt]. apply buried_run; [|done..].
  by eapply DeleteTask_ok.
Qed.

(** ** Deleting and purging *)

(** The key belongs to a task of the queue, or to a tombstone of one. *)
Definition task_of (name k : string) : bool := HasPrefix k (taskKey (name +:+ "/tasks/")).
Definition tomb_of (name k : string) : bool := HasPrefix k (tombstoneKey (name +:+ "/tasks/")).

(** DeleteQueue, when it succeeds, removes the queue, every task whose
    name is under it and every tombstone under it, and nothing else at all: every
    other queue, its tasks and its tombstones are untouched. *)
Theorem delete_queue_exact s name s' k :
  DeleteQueue s name = (s', Ok tt) →
  cts s' !! k = if decide (k = queueKey name) then None
                else if task_of name k || tomb_of name k then None else cts s !! k.
Proof.
  unfold DeleteQueue. destruct (negb _); [done|]. rewrite !List_law.
  set (keys := list_keys _ _ ++ list_keys _ _).
  intros Hdel. destruct (st_Commit_cases (db s) (OpDelete (queueKey name) :: (OpDelete <$> keys)))
    as [(H1 & _ & H3)|(e & H1 & _)]; destruct (st_Commit (db s) _) as [d r]; cbn [fst snd] in *; subst r; simplify_eq.
  cbn [db]. rewrite H3. change (OpDelete (queueKey name) :: (OpDelete <$> keys)) with (OpDelete (V:=doc) <$> (queueKey name :: keys)).
  rewrite apply_deletes. unfold keys, task_of, tomb_of.
  destruct (decide (k = queueKey name)) as [->|Hne]; [by rewrite decide_True by set_solver|].
  case_decide as Hin.
  - apply elem_of_cons in Hin as [Hin|[Hin|Hin]%elem_of_app]; [done|..]; apply elem_of_list_keys in Hin as [_ Hp]; rewrite Hp.
    + done.
    + by rewrite orb_true_r.
  - destruct (_ || _) eqn:Hor; [|done]. destruct (cts s !! k) as [v|] eqn:Hv; [|done]. exfalso. apply Hin.
    apply elem_of_cons. right. apply elem_of_app. apply orb_true_iff in Hor as [Hp|Hp]; [left|right];
      apply elem_of_list_keys; eauto.
Qed.

(** PurgeQueue, when it succeeds, removes exactly the queue's tasks and
    leaves the queue, with its purge time set and everything else of it as it was;
    it buries no name, and other queues are untouched. *)
Theorem purge_queue_exact s name now s' q k :
  GetQueue s name = Ok q → PurgeQueue s name now = (s', Ok tt) →
  cts s' !! k = if decide (k = queueKey name) then Some (DQueue (set_Purged q now))
                else if task_of name k then None else cts s !! k.
Proof.
  unfold GetQueue, PurgeQueue. destruct (get_queue s (queueKey name)) as [q0|]; intros Hq; simplify_eq.
  rewrite List_law. destruct (negb _); [done|]. set (keys := list_keys _ _).
  intros Hdel. destruct (st_Commit_cases (db s) (OpPut (queueKey name) (DQueue (set_Purged q now)) :: (OpDelete <$> keys)))
    as [(H1 & _ & H3)|(e & H1 & _)]; destruct (st_Commit (db s) _) as [d r]; cbn [fst snd] in *; subst r; simplify_eq.
  cbn [db]. rewrite H3.
  change (apply_ops (cts s) (?x :: ?l)) with (apply_ops (apply_op (cts s) x) l). rewrite apply_deletes.
  cbn [apply_op]. unfold task_of.
  destruct (decide (k = queueKey name)) as [->|Hne].
  - rewrite decide_False; [by rewrite lookup_insert_eq|]. intros [_ Hp]%elem_of_list_keys. done.
  - rewrite lookup_insert_ne by done. case_decide as Hin.
    + apply elem_of_list_keys in Hin as [_ Hp]. by rewrite Hp.
    + destruct (HasPrefix k _) eqn:Hp; [|done]. destruct (cts s !! k) as [v|] eqn:Hv; [|done].
      exfalso. apply Hin, elem_of_list_keys. eauto.
Qed.

(** ** Listings *)

Lemma NoDup_omap_key {A} (f : string → option A) (key : A → string) (wrap : string → string) (keys : list string) :
  (∀ k a, k ∈ keys → f k = Some a → k = wrap (key a)) → NoDup keys → NoDup (key <$> omap f keys).
Proof.
  intros Hf. induction keys as [|k keys IH]; cbn; [constructor|]. intros [Hk Hnd]%NoDup_cons.
  assert (NoDup (key <$> omap f keys)) as Hrest by (apply IH; [set_solver|done]).
  destruct (f k) as [a|] eqn:Ha; [|done]. cbn. apply NoDup_cons. split; [|done].
  intros (b & Heq & (k' & Hk' & Hb)%list_elem_of_omap)%list_elem_of_fmap. apply Hk.
  rewrite (Hf k a), Heq, <- (Hf k' b); set_solver.
Qed.

Lemma task_listing s p :
  typed s →
  let l := omap (get_task s) (list_keys (cts s) (taskKey p)) in
  NoDup (t_Name <$> l) ∧ ∀ t, t ∈ l ↔ GetTask s (t_Name t) = Ok t ∧ HasPrefix (t_Name t) p = true.
Proof.
  intros Hs l. assert (∀ k t, k ∈ list_keys (cts s) (taskKey p) → get_task s k = Some t → k = taskKey (t_Name t)) as Hkey.
  { intros k t _ [_ Ht]%get_task_Some. by destruct (Hs _ _ Ht). }
  split; [eapply NoDup_omap_key; [exact Hkey|apply list_keys_NoDup]|].
  intros t. unfold l, GetTask. rewrite list_elem_of_omap. split.
  - intros (k & Hk & Ht). pose proof (Hkey k t Hk Ht) as ->. rewrite Ht.
    apply elem_of_list_keys in Hk as [_ Hk]. done.
  - intros [Ht Hp]. destruct (get_task s (taskKey (t_Name t))) as [t'|] eqn:Hg; simplify_eq.
    exists (taskKey (t_Name t)). split; [|done]. apply elem_of_list_keys. split; [|done].
    apply get_task_Some in Hg as [_ Hg]. by eexists.
Qed.

(** ListTasks lists the queue: sorted by name, each task once, exactly the
    stored tasks whose name is under the queue; a queue that is not there is
    NOT_FOUND and never an empty page. *)
Theorem list_tasks_exact s queue :
  typed s →
  (GetQueue s queue = Err NotFound → ListTasks s queue = Err NotFound) ∧
  (∀ q, GetQueue s queue = Ok q → ∃ l, ListTasks s queue = Ok l ∧
     StronglySorted (key_le t_Name) l ∧ NoDup (t_Name <$> l) ∧
     ∀ t, t ∈ l ↔ GetTask s (t_Name t) = Ok t ∧ HasPrefix (t_Name t) (queue +:+ "/tasks/") = true).
Proof.
  intros Hs. unfold GetQueue, ListTasks. split.
  - destruct (get_queue s (queueKey queue)) as [q|] eqn:Hq; [done|]. intros _.
    destruct (has s (queueKey queue)) eqn:Hh; [|done]. apply has_true in Hh as [Hk [d Hd]].
    destruct (typed_queue s _ _ Hs Hd) as (q & -> & _). by rewrite (proj2 (get_queue_Some s _ q)) in Hq.
  - intros q. destruct (get_queue s (queueKey queue)) as [q0|] eqn:Hq; [|done]. intros _.
    apply get_queue_Some in Hq as [Hk Hq]. rewrite (proj2 (has_true s _)) by eauto. cbn [negb]. rewrite List_law.
    eexists. split; [done|]. split; [apply sort_by_sorted|].
    destruct (task_listing s (queue +:+ "/tasks/") Hs) as [Hnd Hin].
    split; [by rewrite sort_by_perm|]. intros t. rewrite sort_by_elem. apply Hin.
Qed.

(** ** Due tasks *)

Definition queue_running s (queue : string) : bool :=
  match GetQueue s queue with Ok q => bool_decide (q_State q = StateRunning) | Err _ => false end.

(** A forced run is due whatever its queue's state; otherwise the schedule time
    has come and the queue is running. *)
Definition is_due s (now : Time) (t : Task) : bool :=
  negb (IsZero (RunRequested t)) || ((ScheduleTime t <=? now)%Z && queue_running s (t_Queue t)).

Lemma due_loop_filter s now keys running :
  (∀ q b, running !! q = Some b → b = queue_running s q) →
  due_loop s now keys running = filter (λ t, is_due s now t = true) (omap (get_task s) keys).
Proof.
  revert running. induction keys as [|k keys IH]; intros running Hc; [done|]. cbn [due_loop].
  destruct (get_task s k) as [t|] eqn:Ht; cbn; rewrite Ht; [|by apply IH].
  rewrite filter_cons_bool. unfold is_due at 1. destruct (IsZero (RunRequested t)); cbn [negb orb].
  2:{ by rewrite IH. }
  unfold After. destruct (Z.ltb_spec now (ScheduleTime t)) as [Hl|Hl].
  { rewrite (proj2 (Z.leb_gt _ _)) by done. cbn [andb]. by apply IH. }
  rewrite (proj2 (Z.leb_le _ _)) by done. cbn [andb].
  assert (match running !! t_Queue t with
          | Some ok => ok
          | None => match get_queue s (queueKey (t_Queue t)) with
                    | Some q => bool_decide (q_State q = StateRunning)
                    | None => false
                    end
          end = queue_running s (t_Queue t)) as ->.
  { destruct (running !! t_Queue t) as [b|] eqn:Hr; [by apply Hc|].
    unfold queue_running, GetQueue. by destruct (get_queue _ _). }
  rewrite IH.
  - done.
  - intros q b. rewrite lookup_insert. case_decide as Hd; [intros [= <-]; by subst|apply Hc].
Qed.

(** C9: DueTasks is exactly the work to dispatch: every stored task with a
    forced run pending, and every task whose schedule time has come in a queue
    that exists and is running; each once, sorted by name.  A paused queue's tasks
    are never among them unless forced. *)
Theorem due_tasks_exact s now :
  typed s → ∃ l, DueTasks s now = Ok l ∧
    StronglySorted (key_le t_Name) l ∧ NoDup (t_Name <$> l) ∧
    ∀ t, t ∈ l ↔ GetTask s (t_Name t) = Ok t ∧ is_due s now t = true.
Proof.
  intros Hs. unfold DueTasks. rewrite List_law. eexists. split; [done|].
  split; [apply sort_by_sorted|]. rewrite due_loop_filter by done.
  destruct (task_listing s "" Hs) as [Hnd Hin]. change (taskKey "") with "tasks/tasks/" in *. split.
  - rewrite sort_by_perm. eapply sublist_NoDup; [exact Hnd|]. apply fmap_sublist, sublist_filter.
  - intros t. rewrite sort_by_elem, list_elem_of_filter, Hin. destruct (t_Name t); naive_solver.
Qed.

(** ** Creating *)

Lemma put_ok s k v s' : put s k v = (s', Ok tt) → SafeKey k = true ∧ cts s' = <[k := v]> (cts s).
Proof.
  intros Hp. destruct (put_cases s k v) as [(_ & Hk & Heq)|(e & He & _)]; rewrite Hp in *; [done|]. by cbn in He.
Qed.

(** What [CreateTask] fills in. *)
Definition completed (t : Task) (queue : string) (wall : Time) : Task :=
  let t := set_t_Queue t queue in
  let t := match t_HTTPRequest t with
           | Some hr => if bool_decide (Method hr = "")
                        then set_HTTPRequest t (Some (mkHTTPRequest (URL hr) "POST" (Headers hr) (Body hr) (OIDC hr) (OAuth hr)))
                        else t
           | None => t
           end in
  set_times t (if IsZero (ScheduleTime t) then wall else ScheduleTime t)
    (if IsZero (t_Created t) then wall else t_Created t).

Lemma completed_name t queue wall : t_Name (completed t queue wall) = t_Name t.
Proof. unfold completed. cbn. destruct (t_HTTPRequest t); [case_bool_decide|]; done. Qed.

Lemma completed_queue t queue wall : t_Queue (completed t queue wall) = queue.
Proof. unfold completed. cbn. destruct (t_HTTPRequest t); [case_bool_decide|]; done. Qed.

Lemma create_in_queue_ok s t now wall s' t' :
  create_in_queue s t now wall = (s', Ok t') →
  is_ok (GetQueue s (t_Queue t)) = true ∧ has s (taskKey (t_Name t)) = false ∧
  t' = completed t (t_Queue t) wall ∧ SafeKey (taskKey (t_Name t)) = true ∧
  ∀ k, k ≠ tombstoneKey (t_Name t) → cts s' !! k = <[taskKey (t_Name t) := DTask t']> (cts s) !! k.
Proof.
  unfold create_in_queue, GetQueue. destruct (get_queue _ _) as [q|]; [|done].
  destruct (match t_HTTPRequest t with Some _ => _ | None => _ end); [done|].
  destruct (has s _) eqn:Hh; [done|].
  assert (∀ s0, (∀ k, k ≠ tombstoneKey (t_Name t) → cts s0 !! k = cts s !! k) →
    finish_create s0 t wall = (s', Ok t') →
    t' = completed t (t_Queue t) wall ∧ SafeKey (taskKey (t_Name t)) = true ∧
    ∀ k, k ≠ tombstoneKey (t_Name t) → cts s' !! k = <[taskKey (t_Name t) := DTask t']> (cts s) !! k) as Hfin.
  { intros s0 Hs0 (Hput & Heq)%returning_ok. apply put_ok in Hput as [Hk Hc].
    assert (t' = completed t (t_Queue t) wall) as Ht' by (rewrite <- Heq; by destruct t).
    assert (t_Name t' = t_Name t) as Hn by (rewrite Ht'; apply completed_name).
    rewrite Heq, Hn in Hk, Hc. split; [done|]. split; [done|]. intros k Hne. rewrite Hc, !lookup_insert.
    case_decide; [done|]. by apply Hs0. }
  destruct (get_time s _) as [until|]; [destruct (Before now until); [done|]|]; intros Hf; (split; [done|]); (split; [done|]);
    (eapply Hfin; [|exact Hf]); [|done].
  intros k Hk. cbn [db]. rewrite Delete_law.
  destruct (st_Commit_cases (db s) [OpDelete (tombstoneKey (t_Name t))]) as [(_ & _ & ->)|(e & _ & ->)]; [|done].
  cbn. by rewrite lookup_delete_ne.
Qed.

(** CreateTask round trip.  A create that succeeds names a task of an
    existing queue that was not there; the task returned is the one given with its
    queue, method and times filled in, GetTask returns it, and every other key
    but the name's own tombstone is untouched. *)
Lemma create_then_get s t now wall s' t' :
  CreateTask s t now wall = (s', Ok t') →
  GetTask s' (t_Name t) = Ok t' ∧ is_ok (GetQueue s (t_Queue t')) = true ∧
  GetTask s (t_Name t) = Err NotFound ∧
  t' = completed t (if bool_decide (t_Queue t = "") then home (t_Name t) else t_Queue t) wall ∧
  ∀ k, k ≠ taskKey (t_Name t) → k ≠ tombstoneKey (t_Name t) → cts s' !! k = cts s !! k.
Proof.
  assert (∀ t0, t_Name t0 = t_Name t → completed t0 (t_Queue t0) wall = completed t (t_Queue t0) wall →
    create_in_queue s t0 now wall = (s', Ok t') →
    GetTask s' (t_Name t) = Ok t' ∧ is_ok (GetQueue s (t_Queue t')) = true ∧
    GetTask s (t_Name t) = Err NotFound ∧ t' = completed t (t_Queue t0) wall ∧
    ∀ k, k ≠ taskKey (t_Name t) → k ≠ tombstoneKey (t_Name t) → cts s' !! k = cts s !! k) as Hmain.
  { intros t0 Hn Hcomp (Hq & Hh & Ht' & Hk & Hc)%create_in_queue_ok. rewrite Hn in *.
    assert (t_Queue t' = t_Queue t0) as Hqueue by (rewrite Ht'; apply completed_queue).
    rewrite Hqueue. split_and!; [|done| |congruence|].
    - unfold GetTask. rewrite (proj2 (get_task_Some s' _ t')); [done|]. split; [done|].
      rewrite Hc by apply task_tomb_ne. by rewrite lookup_insert_eq.
    - unfold GetTask. destruct (get_task s _) as [t1|] eqn:Hg; [|done]. apply get_task_Some in Hg as [_ Hg].
      rewrite (proj2 (has_true s _)) in Hh; [done|]. eauto.
    - intros k H1 H2. rewrite Hc by done. by rewrite lookup_insert_ne. }
  unfold CreateTask, home. destruct (Parse (t_Name t)) as [n|]; [|done].
  destruct (negb _ || negb _); [done|]. destruct (negb _); [done|].
  destruct (t_HTTPRequest t); [|destruct (t_AppEngine t); [|done]]; case_bool_decide.
  all: try (intros Hc; eapply (Hmain (set_t_Queue t _)) in Hc; [exact Hc|done|by destruct t]).
  all: apply (Hmain t); by destruct t.
Qed.

(** A create that fails creates nothing. *)
Lemma create_failed s t now wall n :
  is_ok (CreateTask s t now wall).2 = false →
  cts (CreateTask s t now wall).1 !! taskKey n = cts s !! taskKey n.
Proof.
  assert (∀ s0 t0, (∀ k, k ≠ tombstoneKey (t_Name t0) → cts s0 !! k = cts s !! k) →
    is_ok (finish_create s0 t0 wall).2 = false →
    cts (finish_create s0 t0 wall).1 !! taskKey n = cts s !! taskKey n) as Hfin.
  { intros s0 t0 Hs0. destruct (finish_create_put s0 t0 wall) as (t' & _ & _ & ->). unfold returning. cbn [fst snd].
    destruct (put_cases s0 (taskKey (t_Name t0)) (DTask t')) as [(Hok & _ & _)|(e & _ & ->)].
    - by rewrite Hok.
    - intros _. apply Hs0, task_tomb_ne. }
  assert (∀ t0, is_ok (create_in_queue s t0 now wall).2 = false →
    cts (create_in_queue s t0 now wall).1 !! taskKey n = cts s !! taskKey n) as Hmain.
  { intros t0. unfold create_in_queue. destruct (get_queue _ _) as [q|]; [|done].
    destruct (match t_HTTPRequest t0 with Some _ => _ | None => _ end); [done|].
    destruct (has _ _); [done|]. destruct (get_time _ _) as [until|]; [destruct (Before now until); [done|]|]; apply Hfin; [|done].
    intros k Hk. cbn [db]. rewrite Delete_law.
    destruct (st_Commit_cases (db s) [OpDelete (tombstoneKey (t_Name t0))]) as [(_ & _ & ->)|(e & _ & ->)]; [|done].
    cbn. by rewrite lookup_delete_ne. }
  unfold CreateTask. destruct (Parse (t_Name t)) as [m|]; [|done].
  destruct (negb _ || negb _); [done|]. destruct (negb _); [done|].
  destruct (t_HTTPRequest t); [|destruct (t_AppEngine t); [|done]]; apply Hmain.
Qed.

(** A delete that succeeds leaves no task of the name. *)
Lemma DeleteTask_gone s n now :
  (DeleteTask s n now).2 = Ok tt → cts (DeleteTask s n now).1 !! taskKey n = None.
Proof.
  unfold DeleteTask. destruct (get_task _ _) as [t|] eqn:Ht; [|done]. cbv zeta.
  destruct (_ && _); [done|]. set (rest := _ ++ _). rewrite commit_store.
  assert (Forall (λ w, op_key w ≠ taskKey n) rest) as Hrest.
  { apply Forall_app. split.
    - destruct (NamedByServer t); [constructor|]. constructor; [|constructor]. apply not_eq_sym, task_tomb_ne.
    - destruct (_ <=? _)%Z; [|constructor]. unfold expiredTombstones.
      destruct (st_List _ _) as [keys|] eqn:Hl; [|constructor]. apply Forall_fmap, Forall_forall.
      intros k [_ Hk]%list_elem_of_filter. cbn. intros ->. by apply (list_prefix s _ _ _ Hl) in Hk. }
  intros Hok. destruct (st_Commit_cases (db s) (OpDelete (taskKey n) :: rest)) as [(_ & _ & Heq)|(e & He & _)].
  - cbn [db]. rewrite Heq. change (apply_ops (cts s) (?x :: ?l)) with (apply_ops (apply_op (cts s) x) l).
    rewrite apply_ops_ne by done. cbn [apply_op]. by rewrite lookup_delete_eq.
  - exfalso. revert Hok. destruct (st_Commit (db s) _) as [d r]. cbn in He. by subst r.
Qed.

(** ** Deleting from a store that does not fail *)

Lemma SafeKey_task_tomb n : SafeKey (taskKey n) = true → SafeKey (tombstoneKey n) = true.
Proof.
  intros Hn%SafeKey_tail. apply (SafeKey_under "tasks/tombstones"); [done|done| |done].
  unfold clean, bad_key_parts. repeat constructor.
Qed.

Lemma DeleteTask_removes `{!ReliableStore S doc} s n now t :
  typed s → get_task s (taskKey n) = Some t → json_ok (Add now TombstoneTTL) = true →
  (DeleteTask s n now).2 = Ok tt ∧ GetTask (DeleteTask s n now).1 n = Err NotFound.
Proof.
  intros Hs Ht Hjson. unfold DeleteTask. rewrite Ht. cbn [marshals]. rewrite Hjson. cbn [negb].
  rewrite !andb_false_r. cbv zeta.
  pose proof Ht as Hk. apply get_task_Some in Hk as [Hk _].
  set (rest := _ ++ _). assert (Forall (λ w, SafeKey (op_key w) = true ∧ op_key w ≠ taskKey n) rest) as Hrest.
  { apply Forall_app. split.
    - destruct (NamedByServer t); [constructor|]. constructor; [|constructor]. cbn. split; [by apply SafeKey_task_tomb|].
      apply not_eq_sym, task_tomb_ne.
    - destruct (_ <=? _)%Z; [|constructor]. unfold expiredTombstones. rewrite List_law.
      apply Forall_fmap, Forall_forall. intros k [_ [[v Hv] Hp]%elem_of_list_keys]%list_elem_of_filter. cbn. split.
      + by destruct (Hs _ _ Hv).
      + intros ->. done. }
  assert (check_keys (OpDelete (taskKey n) :: rest) = Ok tt) as Hc.
  { apply check_keys_ok. constructor; [done|]. eapply Forall_impl; [exact Hrest|]. by intros w [? _]. }
  pose proof (Commit_succeeds (db s) _ Hc) as Hok.
  destruct (st_Commit_cases (db s) (OpDelete (taskKey n) :: rest)) as [(_ & _ & Heq)|(e & He & _)];
    destruct (st_Commit (db s) _) as [d r]; cbn [fst snd] in *; subst r; [|done].
  split; [done|]. unfold GetTask. cbn [fst]. set (s' := mkStore d _).
  destruct (get_task s' (taskKey n)) as [t'|] eqn:Hg; [|done].
  apply get_task_Some in Hg as [_ Hg]. change (contents (db s')) with (contents d) in Hg. rewrite Heq in Hg.
  change (apply_ops (cts s) (?x :: ?l)) with (apply_ops (apply_op (cts s) x) l) in Hg.
  rewrite apply_ops_ne in Hg by (eapply Forall_impl; [exact Hrest|]; by intros w [_ ?]).
  cbn [apply_op] in Hg. by rewrite lookup_delete_eq in Hg.
Qed.

End spec.

(** ** Examples *)

Module Examples.

Import Memory.

Abbreviation st := (@Store (Memory doc)).

Definition empty : st := NewStore NewMemory.

Definition queue : string := "projects/my-proj/locations/us-central1/queues/q".
Definition other : string := "projects/my-proj/locations/us-central1/queues/other".
Definition named : string := queue +:+ "/tasks/a".

Definition a_queue (name : string) : Queue := new_queue name zero.

Definition a_task (name q : string) : Task :=
  mkTask name q (Some (mkHTTPRequest "http://localhost/h" "" ∅ "" None None)) None zero zero 0 0 0 zero None 0%Z "" zero false.

(** Two queues and a task in the first. *)
Definition setup : list op :=
  [OCreateQueue (a_queue queue) 5; OCreateQueue (a_queue other) 6; OCreateTask (a_task named "") 7 8]%Z.

Definition s1 : st := run empty setup.

Lemma s1_typed : typed s1.
Proof. apply typed_run; [apply map_Forall_empty|]. repeat constructor. Qed.

Definition t1 : Task := completed (a_task named "") queue 8%Z.

Example s1_has_task : GetTask s1 named = Ok t1.
Proof. vm_compute. reflexivity. Qed.

Lemma store_typed_witness : fits (taskKey named) (DTask t1).
Proof.
  apply (store_typed (S := Memory doc) NewMemory setup); [reflexivity|repeat constructor|vm_compute; reflexivity].
Defined.

Lemma only_create_creates_witness :
  ∃ t now wall, OCreateTask (a_task (queue +:+ "/tasks/b") "") 9%Z 9%Z = OCreateTask t now wall ∧ t_Name t = queue +:+ "/tasks/b".
Proof.
  apply (only_create_creates s1); [apply s1_typed|vm_compute; reflexivity..].
Defined.

Definition forced : st := exec s1 (ORunTask named 20%Z).

Lemma run_request_survives_witness :
  match GetTask (exec forced (OUpdateTask t1)) named with
  | Ok t' => RunRequested t' = 20%Z ∨ OUpdateTask t1 = OTakeRun named 20%Z ∨ ∃ now, OUpdateTask t1 = ORunTask named now
  | Err _ => True
  end.
Proof.
  apply (run_request_survives forced (OUpdateTask t1) named (set_RunRequested t1 20%Z)).
  - apply typed_exec; [apply s1_typed|done].
  - vm_compute. reflexivity.
  - reflexivity.
Defined.

Definition deleted : st := (DeleteTask s1 named 100%Z).1.

Definition between : list op := [OPurgeQueue queue 150%Z; ODeleteQueue other].

Lemma name_not_reusable_witness :
  is_ok (CreateTask (run deleted between) (a_task named "") (100 + Hour - 1)%Z 0%Z).2 = false.
Proof.
  refine (name_not_reusable s1 named t1 100%Z deleted between (a_task named "") (100 + Hour - 1)%Z 0%Z _ _ _ _ _ _ _ _).
  - vm_compute. reflexivity.
  - vm_compute. reflexivity.
  - vm_compute. reflexivity.
  - vm_compute. reflexivity.
  - repeat constructor.
  - repeat constructor.
  - reflexivity.
  - vm_compute. reflexivity.
Defined.

(** A tombstone left by an earlier task of the name: CreateTask ignores the
    failure of the delete by which it removes one that is past.  The next
    DeleteTask writes its tombstone and, in the same commit, sweeps the key of the
    old one away: the name can be used again at once. *)
Definition left_tombstone : Store (S := Durable.Durable doc) :=
  run (NewStore (Durable.mkDurable (Durable.Contents ∅) true ∅ [None; None; None; None; Some Durable.FRename]))
    (setup ++ [ODeleteTask named 100; OCreateTask (a_task named "") (100 + Hour) 0])%Z.

Example stale_tombstone_reuses_name :
  let '(s, r) := DeleteTask left_tombstone named (101 + Hour)%Z in
  r = Ok tt ∧ is_ok (CreateTask s (a_task named "") (102 + Hour)%Z 0%Z).2 = true.
Proof. vm_compute. split; reflexivity. Qed.

(** ... and once the hour is over, the name can be used again. *)
Example name_reusable_later :
  is_ok (CreateTask deleted (a_task named "") (100 + Hour)%Z 0%Z).2 = true.
Proof. vm_compute. reflexivity. Qed.

Lemma delete_queue_exact_witness :
  contents (db (DeleteQueue s1 queue).1) !! taskKey named = None.
Proof.
  rewrite (delete_queue_exact s1 queue (DeleteQueue s1 queue).1 (taskKey named)); vm_compute; reflexivity.
Defined.

Lemma purge_queue_exact_witness :
  contents (db (PurgeQueue s1 queue 50%Z).1) !! taskKey named = None.
Proof.
  rewrite (purge_queue_exact s1 queue 50%Z (PurgeQueue s1 queue 50%Z).1
    (set_q_config (set_q_Created (a_queue queue) 5%Z) DefaultRetryConfig DefaultRateLimits) (taskKey named));
    vm_compute; reflexivity.
Defined.

Lemma list_tasks_exact_witness : ListTasks s1 (queue +:+ "z") = Err NotFound.
Proof. apply (list_tasks_exact s1 (queue +:+ "z") s1_typed). vm_compute. reflexivity. Defined.

Lemma due_tasks_exact_witness : ∃ l, DueTasks s1 8%Z = Ok l ∧ t1 ∈ l.
Proof.
  destruct (due_tasks_exact s1 8%Z s1_typed) as (l & Hl & _ & _ & Hin). exists l. split; [done|].
  apply Hin. split; vm_compute; reflexivity.
Defined.

Definition second : Task := a_task (queue +:+ "/tasks/b") "".
Definition after_second : st := (CreateTask s1 second 9%Z 9%Z).1.

Lemma create_then_get_witness : GetTask after_second (t_Name second) = Ok (completed second queue 9%Z).
Proof.
  refine (proj1 (create_then_get s1 second 9%Z 9%Z after_second (completed second queue 9%Z) _)).
  vm_compute. reflexivity.
Defined.

(** ** Divergences *)

(** CreateTask does not check that a task's name is under the queue it is
    queued on.  A task named under one queue and queued on another is stored
    under the first and dispatched by the second; deleting the second queue leaves
    it, and a new queue of that name inherits it: it is due again. *)
Theorem foreign_task_outlives_its_queue :
  let foreign := a_task (other +:+ "/tasks/x") queue in
  let s2 := exec s1 (OCreateTask foreign 10%Z 10%Z) in
  let s3 := exec s2 (ODeleteQueue queue) in
  let s4 := exec s3 (OCreateQueue (a_queue queue) 11%Z) in
  (DeleteQueue s2 queue).2 = Ok tt ∧
  is_ok (GetTask s3 (other +:+ "/tasks/x")) = true ∧
  DueTasks s3 12%Z = Ok [] ∧
  match DueTasks s4 12%Z with Ok l => t_Name <$> l = [other +:+ "/tasks/x"] | Err _ => False end.
Proof. vm_compute. repeat split; reflexivity. Qed.

(** The queue name check looks at the last collection only, so a queue
    nested under another queue is accepted, whose own tasks are not names that
    parse. *)
Theorem nested_queue_accepted :
  let nested := queue +:+ "/queues/b" in
  checkQueueName nested = Ok tt ∧ is_ok (CreateQueue s1 (a_queue nested) 9%Z).2 = true ∧
  (CreateTask (exec s1 (OCreateQueue (a_queue nested) 9%Z)) (a_task (TaskName nested "t") nested) 9%Z 9%Z).2 = Err InvalidArgument.
Proof. vm_compute. repeat split; reflexivity. Qed.

End Examples.
