(* ===== verification/NetHttp.v ===== *)
(** * What the services use of net/url and net/http

    URLs by their parts, header maps and requests.  Parsing and printing a URL and
    net/http's validity check of a request are the members of [Net]. *)

From S2P Require Import Prelude GoLib Resource.
From Stdlib Require Import Ascii.

Import strings.

(** ** net/url and net/http *)

(** The fields of [url.URL] the code reads or sets; [u_rest] is everything
    else a URL has. *)
Record url := mkUrl {
  u_Scheme : string;
  u_Host : string;
  u_Path : string;
  u_RawPath : string;
  u_RawQuery : string;
  u_rest : string
}.

Class Net := {
  url_Parse : string → option url;
  url_String : url → string;
  (** [http.NewRequest] accepts the method and URL *)
  request_ok : string → string → bool
}.

(** [strings.LastIndexByte(s, c)], with what precedes and follows. *)
Fixpoint last_cut (s : string) (c : ascii) : option (string * string) :=
  match s with
  | EmptyString => None
  | String a s' =>
      match last_cut s' c with
      | Some (before, after) => Some (String a before, after)
      | None => if decide (a = c) then Some ("", s') else None
      end
  end.

(** [splitHostPort]: a port is what follows the last colon, when it is digits. *)
Definition splitHostPort (hp : string) : string * string :=
  let '(host, port) :=
    match last_cut hp ":"%char with
    | Some (h, p) => if AllBytes is_digit p then (h, p) else (hp, "")
    | None => (hp, "")
    end in
  if HasPrefix host "[" && HasSuffix host "]" then (TrimSuffix (TrimPrefix host "[") "]", port) else (host, port).

Definition Hostname (u : url) : string := (splitHostPort (u_Host u)).1.
Definition Port (u : url) : string := (splitHostPort (u_Host u)).2.

(** A byte of a header name. *)
Definition token_byte (a : ascii) : bool :=
  is_alnum a || one_of ["!"; "#"; "$"; "%"; "&"; "'"; "*"; "+"; "-"; "."; "^"; "_"; "`"; "|"; "~"]%char a.

Fixpoint canonical_loop (upper : bool) (s : string) : string :=
  match s with
  | EmptyString => EmptyString
  | String a s' =>
      String (if upper then upper_byte a else lower_byte a) (canonical_loop (bool_decide (a = "-"%char)) s')
  end.

(** [textproto.CanonicalMIMEHeaderKey]: a name with other bytes is unchanged. *)
Definition CanonicalHeaderKey (s : string) : string :=
  if AllBytes token_byte s then canonical_loop true s else s.

(** [http.Header], one value a name (the code only uses Set and Get). *)
Abbreviation Header := (gmap string string).
Definition Header_Set (h : Header) (k v : string) : Header := <[CanonicalHeaderKey k := v]> h.
Definition Header_Get (h : Header) (k : string) : string := default "" (h !! CanonicalHeaderKey k).

(** ** Requests *)

Record Request := mkRequest {
  rq_Method : string;
  rq_URL : string;
  rq_Header : Header;
  rq_Body : string;
  rq_Host : option string      (** when it is not the URL's *)
}.

(** [for k, v := range headers { req.Header.Set(k, v) }] in the order [order]. *)
Definition set_all (order : list (string * string)) (h : Header) : Header :=
  fold_left (λ h kv, Header_Set h kv.1 kv.2) order h.

Lemma Header_Set_eq h k v : Header_Get (Header_Set h k v) k = v.
Proof. unfold Header_Get, Header_Set. by rewrite lookup_insert_eq. Qed.

Lemma Header_Set_ne h k k' v :
  CanonicalHeaderKey k ≠ CanonicalHeaderKey k' → Header_Get (Header_Set h k v) k' = Header_Get h k'.
Proof. intros Hne. unfold Header_Get, Header_Set. by rewrite lookup_insert_ne. Qed.

(** A lookup of one literal name after a [Set] of another. *)
Ltac other_header := rewrite Header_Set_ne by (vm_compute; discriminate).
