(* ===== verification/TasksDispatch.v ===== *)
(** * internal/service/tasks: one dispatch attempt

    dispatch.go's Dispatcher with the targets of httptarget1282.go and
    appengine1447.go: what is sent for a task, and what the answer does to the
    store.  Tracing, the attempt observer and Cloud Logging only report and are
    left out.  The token minter is the interface the code declares; parsing and
    printing a URL and net/http's validity check of a request are the members of
    [Net] in NetHttp.v. *)

From S2P Require Import Prelude GoLib ApiError Resource MetaStore Float64 Sched IamPolicy NetHttp TasksModel TasksStore TasksStoreSpec.
From Stdlib Require Import Ascii.

Import strings time.

(** ** App Engine routing *)

Definition AppEngineHost (project : string) (r : AppEngineRouting) : string :=
  fold_left (λ host part, if bool_decide (part = "") then host else part +:+ "." +:+ host)
    [Service r; Version r; Instance_ r] (project +:+ ".appspot.com").

Definition effectiveRouting (task : AppEngineHTTPRequest) (override : option AppEngineRouting) : AppEngineRouting :=
  match override with
  | Some o => o
  | None => match Routing task with Some r => r | None => mkAppEngineRouting "" "" "" end
  end.

Definition projectOf (name : string) : string :=
  match Split name "/"%char with
  | p0 :: p1 :: _ => if bool_decide (p0 = "projects") then p1 else ""
  | _ => ""
  end.

(** The queue of a task name: what precedes the first "/tasks/". *)
Definition queueOf (taskName : string) : string :=
  match Index taskName "/tasks/" with
  | Some i => take_bytes i taskName
  | None => taskName
  end.

(** ** Outcomes *)

(** [attemptStatus]; [deadline] is [errors.Is(err, context.DeadlineExceeded)]. *)
Definition attemptStatus (statusCode : Z) (deadline : bool) : codes.Code :=
  (if statusCode =? 0 then if deadline then codes.DeadlineExceeded else codes.Unavailable
   else if (200 <=? statusCode) && (statusCode <? 300) then codes.OK
   else if statusCode =? 400 then codes.InvalidArgument
   else if statusCode =? 401 then codes.Unauthenticated
   else if statusCode =? 403 then codes.PermissionDenied
   else if statusCode =? 404 then codes.NotFound
   else if statusCode =? 409 then codes.Aborted
   else if statusCode =? 429 then codes.ResourceExhausted
   else if statusCode =? 499 then codes.Canceled
   else if statusCode =? 501 then codes.Unimplemented
   else if statusCode =? 503 then codes.Unavailable
   else if statusCode =? 504 then codes.DeadlineExceeded
   else if (400 <=? statusCode) && (statusCode <? 500) then codes.FailedPrecondition
   else codes.Internal)%Z.

Definition DefaultDispatchDeadline : Duration := (10 * Minute)%Z.

Definition effective_deadline (task : Task) : Duration :=
  if (DispatchDeadline task <=? 0)%Z then DefaultDispatchDeadline else DispatchDeadline task.

(** ** The queue's http_target *)

Section target.
Context `{Net}.

Definition scheme_String (s : Scheme) : string :=
  match s with SCHEME_UNSPECIFIED => "SCHEME_UNSPECIFIED" | HTTP => "HTTP" | HTTPS => "HTTPS" end.

(** [u.Host = host], with [":" + port] when there is one. *)
Definition host_port (host port : string) : string :=
  if bool_decide (port = "") then host else host +:+ ":" +:+ port.

Definition override_url (u : url) (o : UriOverride) : url :=
  let scheme := match ov_Scheme o with
                | Some SCHEME_UNSPECIFIED | None => u_Scheme u
                | Some s => ToLower (scheme_String s)
                end in
  let host := match ov_Host o with Some h => h | None => Hostname u end in
  let port := match ov_Port o with
              | Some p => if (0 <? p)%Z then strconv.Itoa p else ""
              | None => Port u
              end in
  let '(path, raw) := match ov_Path o with Some p => (p, "") | None => (u_Path u, u_RawPath u) end in
  let query := match ov_Query o with Some q => q | None => u_RawQuery u end in
  mkUrl scheme (host_port host port) path raw query (u_rest u).

Definition overrideURI (raw : string) (o : UriOverride) : string :=
  let u := match url_Parse raw with
           | Some u => if bool_decide (raw = "") then mkUrl "https" "" "" "" "" "" else u
           | None => mkUrl "https" "" "" "" "" ""
           end in
  url_String (override_url u o).

(** [strings.EqualFold] on header names, which are ASCII. *)
Definition EqualFold (a b : string) : bool := bool_decide (ToLower a = ToLower b).

Definition override_header (headers : gmap string string) (h : string * string) : gmap string string :=
  <[h.1 := h.2]> (filter (λ kv : string * string, EqualFold kv.1 h.1 = false) headers).

Definition drops_body (m : HttpMethod) : bool :=
  match m with GET | HEAD | DELETE | OPTIONS => true | _ => false end.

Definition withQueueTarget (hr : HTTPRequest) (q : Queue) : HTTPRequest :=
  match HTTPTarget q with
  | None => hr
  | Some ht =>
      let url := match uri_override ht with
                 | Some o => if negb (IF_NOT_EXISTS o) || bool_decide (URL hr = "") then overrideURI (URL hr) o else URL hr
                 | None => URL hr
                 end in
      let '(method, body) :=
        if decide (http_method ht = HTTP_METHOD_UNSPECIFIED) then (Method hr, Body hr)
        else (method_String (http_method ht), if drops_body (http_method ht) then "" else Body hr) in
      let headers := if bool_decide (length (header_overrides ht) = 0%nat) then Headers hr
                     else fold_left override_header (header_overrides ht) (Headers hr) in
      let '(oidc, oauth) :=
        match authorization_header ht with
        | Some (AuthOidc t) => (Some t, None)
        | Some (AuthOauth t) => (None, Some t)
        | None => (OIDC hr, OAuth hr)
        end in
      mkHTTPRequest url method headers body oidc oauth
  end.

End target.

(** ** The request *)

(** The [TokenMinter] interface. *)
Record TokenMinter := mkTokenMinter {
  ServiceAccountIDToken : string → string → res error string;
  ServiceAccountAccessToken : string → string → res error string
}.

(** The configuration of a Dispatcher that decides what is sent. *)
Record Dispatcher := mkDispatcher {
  tokens : option TokenMinter;
  appEngine : string           (** base URL of the App Engine stand-in, "" for none *)
}.

Definition DefaultOAuthScope : string := "https://www.googleapis.com/auth/cloud-platform".
Definition AppEngineUserAgent : string := "AppEngine-Google; (+http://code.google.com/appengine)".
Definition AppEngineAttemptStatus : Z := 404.

Definition ErrNoRequest : error := Sentinel "task has no httpRequest".
Definition ErrBadRequest : error := Sentinel "build request".
Definition ErrNoCredentials : error := Sentinel "no local credentials to mint a token".

Definition authorize (d : Dispatcher) (hr : HTTPRequest) (h : Header) : res error Header :=
  match OIDC hr, OAuth hr with
  | None, None => Ok h
  | oidc, oauth =>
      match tokens d with
      | None => Err ErrNoCredentials
      | Some m =>
          let minted :=
            match oidc, oauth with
            | Some o, _ => ServiceAccountIDToken m (oidc_email o)
                             (if bool_decide (Audience o = "") then URL hr else Audience o)
            | None, Some o => ServiceAccountAccessToken m (oauth_email o)
                             (if bool_decide (Scope o = "") then DefaultOAuthScope else Scope o)
            | None, None => Ok ""
            end in
          match minted with
          | Err e => Err (Wrapped e)
          | Ok tok => Ok (Header_Set h "Authorization" ("Bearer " +:+ tok))
          end
      end
  end.

Definition default_content_type (body : string) (h : Header) : Header :=
  if bool_decide (Header_Get h "Content-Type" = "") && negb (bool_decide (body = ""))
  then Header_Set h "Content-Type" "application/octet-stream" else h.

(** [fmt]'s zero padding of a six-digit fraction. *)
Definition pad6 (n : Z) : string :=
  let d := strconv.Itoa n in
  String.substring 0 (6 - String.length d) "000000" +:+ d.

(** [strconv.FormatFloat(a, 'f', 6, 64)] of a finite value: the exact decimal
    rounded half to even at six places. *)
Definition FormatFloat6 (a : f64) : string :=
  match a with
  | Fin m e =>
      let n := if (0 <=? e)%Z then (Z.abs m * 2 ^ e * 1000000)%Z else half_even (Z.abs m * 1000000) (- e) in
      (if (m <? 0)%Z then "-" else "") +:+ strconv.Itoa (n / 1000000) +:+ "." +:+ pad6 (n mod 1000000)
  | NaN => "NaN"
  | Inf false => "+Inf"
  | Inf true => "-Inf"
  end.

(** The headers a task may not set itself. *)
Definition app_engine_reserved (k : string) : bool :=
  HasPrefix (ToLower k) "x-appengine-" || HasPrefix (ToLower k) "x-google-".

Section dispatch.
Context {S : Type} `{MSL : MetaStoreLaws S doc} `{Net} `{Platform}.
Implicit Types (s : Store (S := S)).
Abbreviation cts s := (contents (db s)).

Definition queue_override s (queue : string) : option AppEngineRouting :=
  match GetQueue s queue with Ok q => q_AppEngineRouting q | Err _ => None end.

Definition appEngineRequest (d : Dispatcher) s (task : Task) (a : AppEngineHTTPRequest) (order : list (string * string))
    : res error Request :=
  if negb (request_ok (ae_Method a) (appEngine d +:+ RelativeURI a)) then Err (Wrapped ErrBadRequest)
  else
    let h := set_all (filter (λ kv, app_engine_reserved kv.1 = false) order) ∅ in
    let h := Header_Set h "User-Agent" AppEngineUserAgent in
    let h := default_content_type (ae_Body a) h in
    let h := Header_Set h "X-AppEngine-QueueName" (AfterLast (t_Queue task) "/"%char) in
    let h := Header_Set h "X-AppEngine-TaskName" (AfterLast (t_Name task) "/"%char) in
    let h := Header_Set h "X-AppEngine-TaskRetryCount" (strconv.Itoa (DispatchCount task)) in
    let h := Header_Set h "X-AppEngine-TaskExecutionCount" (strconv.Itoa (ResponseCount task)) in
    let h := Header_Set h "X-AppEngine-TaskETA"
               (FormatFloat6 (div (of_int (UnixMicro (ScheduleTime task))) (of_int 1000000))) in
    let h := if (LastResponseCode task =? 0)%Z then h
             else Header_Set h "X-AppEngine-TaskPreviousResponse" (strconv.Itoa (LastResponseCode task)) in
    Ok (mkRequest (ae_Method a) (appEngine d +:+ RelativeURI a) h (ae_Body a)
          (Some (AppEngineHost (projectOf (t_Name task)) (effectiveRouting a (queue_override s (t_Queue task)))))).

(** [order] is the order in which the task's header map is ranged over. *)
Definition buildRequest (d : Dispatcher) s (task : Task) (order : list (string * string)) : res error Request :=
  match t_AppEngine task with
  | Some a => appEngineRequest d s task a order
  | None =>
      match t_HTTPRequest task with
      | None => Err ErrNoRequest
      | Some hr =>
          let method := if bool_decide (Method hr = "") then "POST" else Method hr in
          if negb (request_ok method (URL hr)) then Err (Wrapped ErrBadRequest)
          else
            h ← authorize d hr (set_all order ∅);
            let h := Header_Set h "X-CloudTasks-TaskName" (AfterLast (t_Name task) "/"%char) in
            let h := Header_Set h "X-CloudTasks-QueueName" (AfterLast (t_Queue task) "/"%char) in
            let h := Header_Set h "X-CloudTasks-TaskRetryCount" (strconv.Itoa (DispatchCount task)) in
            let h := Header_Set h "X-CloudTasks-TaskExecutionCount" (strconv.Itoa (ResponseCount task)) in
            Ok (mkRequest method (URL hr) (default_content_type (Body hr) h) (Body hr) None)
      end
  end.

(** ** Dispatch *)

(** The task as it is sent: its queue's http_target applied to a copy. *)
Definition sent_task s (task : Task) : Task :=
  match t_HTTPRequest task with
  | Some hr =>
      match GetQueue s (t_Queue task) with
      | Ok q => match HTTPTarget q with
                | Some _ => set_HTTPRequest task (Some (withQueueTarget hr q))
                | None => task
                end
      | Err _ => task
      end
  | None => task
  end.

(** How an attempt begins: App Engine without a stand-in, a request that
    cannot be built, or a request to send. *)
Inductive beginning :=
| NoAppEngine (a : AppEngineHTTPRequest)
| NotBuilt (e : error)
| Send (r : Request).

Definition headers_of (task : Task) : gmap string string :=
  match t_AppEngine task, t_HTTPRequest task with
  | Some a, _ => ae_Headers a
  | None, Some hr => Headers hr
  | None, None => ∅
  end.

Definition begin_dispatch (d : Dispatcher) s (task : Task) : beginning :=
  let sent := sent_task s task in
  match t_AppEngine task with
  | Some a =>
      if bool_decide (appEngine d = "") then NoAppEngine a
      else match buildRequest d s sent (map_to_list (headers_of sent)) with Ok r => Send r | Err e => NotBuilt e end
  | None => match buildRequest d s sent (map_to_list (headers_of sent)) with Ok r => Send r | Err e => NotBuilt e end
  end.

(** What the target does. *)
Inductive answer :=
| NoResponse (e : error)
| Response (code : Z) (status : string).

(** [attemptAppEngine], on the task whose attempt has begun. *)
Definition attemptAppEngine s (task : Task) (a : AppEngineHTTPRequest) (started now : Time) : Store * error :=
  let host := AppEngineHost (projectOf (t_Name task)) (effectiveRouting a (queue_override s (t_Queue task))) in
  let reason := "HTTP 404: App Engine is not available on this CloudBurrow instance, so no app serves "
                +:+ host +:+ RelativeURI a in
  let task := record_response task AppEngineAttemptStatus (mkAttempt (ScheduleTime task) started now codes.NotFound reason) in
  ((UpdateTask s task).1, Sentinel reason).

Definition ErrDispatch : error := Sentinel "task returned an error".

(** What [Dispatch] records of the answer on its copy of the task. *)
Definition recorded (task : Task) (started : Time) (ans : answer) (now : Time) : Task :=
  match ans with
  | NoResponse _ => set_LastAttempt task (Some (mkAttempt (ScheduleTime task) started zero codes.OK ""))
  | Response code status =>
      let c := attemptStatus code false in
      let message := if decide (c = codes.OK) then "" else status in
      record_response task code (mkAttempt (ScheduleTime task) started now c message)
  end.

(** The end of [Dispatch], once the target has answered; [task] is the task
    whose attempt has begun, [now] the dispatcher's clock when the response is in
    and [deleted] the store's when the task is deleted. *)
Definition complete s (task : Task) (started : Time) (ans : answer) (now deleted : Time) : Store * res error unit :=
  let task := recorded task started ans now in
  match ans with
  | NoResponse e => ((UpdateTask s task).1, Err (Wrapped e))
  | Response code _ =>
      if ((200 <=? code) && (code <? 300))%Z then DeleteTask s (t_Name task) deleted
      else ((UpdateTask s task).1, Err ErrDispatch)
  end.

(** [Dispatch] with nothing else running: [first] and [started] are the clock
    readings before the request, [now] and [deleted] the ones after the response. *)
Definition Dispatch (d : Dispatcher) s (task : Task) (first started : Time) (ans : answer) (now deleted : Time)
    : Store * res error unit :=
  match begin_dispatch d s task with
  | NoAppEngine a => let '(s', e) := attemptAppEngine s (begin_attempt task first) a started now in (s', Err e)
  | NotBuilt e => (s, Err e)
  | Send _ => complete s (begin_attempt task first) started ans now deleted
  end.

(** ** reschedule *)

Definition Backoff (rc : RetryConfig) : CloudTasks.CloudTasksBackoff := CloudTasks.WithDefaults rc.

(** What [reschedule] decides from what it reads. *)
Inductive decision := Drop (name : string) | Retry (task : Task) | Nothing.

Definition reschedule_decide s (name : string) (now1 now2 : Time) : decision :=
  match GetTask s name with
  | Err _ => Nothing
  | Ok current =>
      match GetQueue s (t_Queue current) with
      | Err _ => Nothing
      | Ok q =>
          let b := Backoff (q_RetryConfig q) in
          if negb (CloudTasks.ShouldRetryAfter b (DispatchCount current) (Sub now1 (FirstAttempt current)))
          then Drop (t_Name current)
          else Retry (set_times current (Add now2 (CloudTasks.Delay b (DispatchCount current))) (t_Created current))
      end
  end.

Definition reschedule_apply s (dec : decision) (now : Time) : Store :=
  match dec with
  | Nothing => s
  | Drop name => (DeleteTask s name now).1
  | Retry t => (UpdateTask s t).1
  end.

Definition reschedule s (name : string) (now1 now2 : Time) : Store :=
  reschedule_apply s (reschedule_decide s name now1 now2) now2.

(** ** Properties *)

Lemma default_content_type_other body h k :
  CanonicalHeaderKey "Content-Type" ≠ CanonicalHeaderKey k →
  Header_Get (default_content_type body h) k = Header_Get h k.
Proof. intros Hne. unfold default_content_type. destruct (_ && _); [by rewrite Header_Set_ne|done]. Qed.

Lemma authorize_ok d hr h h' :
  authorize d hr h = Ok h' →
  (OIDC hr = None ∧ OAuth hr = None ∧ h' = h) ∨ ∃ tok, h' = Header_Set h "Authorization" ("Bearer " +:+ tok).
Proof.
  unfold authorize. destruct (OIDC hr) as [o|], (OAuth hr) as [a|]; [..|naive_solver];
    (destruct (tokens d) as [m|]; [|done]); case_match; naive_solver.
Qed.

(** What a handler is told cannot be spoofed by the task.  Whatever
    headers a task sets, in whatever letter case and whatever order its header map
    is ranged over, the request built for it carries Cloud Tasks' own values: the
    short names of the task and its queue, the attempts already made and the
    responses already had; and where the task asks for a token, the Authorization
    header is the minted one. *)
Theorem request_headers d s task hr order r :
  t_AppEngine task = None → t_HTTPRequest task = Some hr → buildRequest d s task order = Ok r →
  Header_Get (rq_Header r) "x-cloudtasks-taskname" = AfterLast (t_Name task) "/"%char ∧
  Header_Get (rq_Header r) "X-CloudTasks-QueueName" = AfterLast (t_Queue task) "/"%char ∧
  Header_Get (rq_Header r) "X-CloudTasks-TaskRetryCount" = strconv.Itoa (DispatchCount task) ∧
  Header_Get (rq_Header r) "X-CloudTasks-TaskExecutionCount" = strconv.Itoa (ResponseCount task) ∧
  (OIDC hr ≠ None ∨ OAuth hr ≠ None → ∃ tok, Header_Get (rq_Header r) "Authorization" = "Bearer " +:+ tok).
Proof.
  intros Hae Hhr. unfold buildRequest. rewrite Hae, Hhr. destruct (negb _); [done|].
  rewrite res_bind_ok. intros (h & Hauth & [= <-]). cbn [rq_Header].
  change (Header_Get ?h "x-cloudtasks-taskname") with (Header_Get h "X-CloudTasks-TaskName").
  rewrite !default_content_type_other by (vm_compute; discriminate).
  split; [do 3 other_header; apply Header_Set_eq|]. split; [do 2 other_header; apply Header_Set_eq|].
  split; [other_header; apply Header_Set_eq|]. split; [apply Header_Set_eq|].
  intros Htok. do 4 other_header.
  apply authorize_ok in Hauth as [(H1 & H2 & _)|(tok & ->)]; [naive_solver|].
  exists tok. apply Header_Set_eq.
Qed.

Lemma attemptStatus_OK code dl : attemptStatus code dl = codes.OK ↔ (200 <= code < 300)%Z.
Proof.
  unfold attemptStatus. destruct (Z.eqb_spec code 0); [destruct dl; split; (done || lia)|].
  destruct (Z.leb_spec 200 code), (Z.ltb_spec code 300); cbn [andb]; [split; (done || lia)|..];
    (split; [|lia]); repeat case_match; done.
Qed.

(** ** What a failed attempt leaves *)

Definition failed (ans : answer) : Prop :=
  match ans with
  | NoResponse _ => True
  | Response code _ => ~ (200 <= code < 300)%Z
  end.

Lemma complete_failed s task started ans now deleted :
  failed ans → (complete s task started ans now deleted).1 = (UpdateTask s (recorded task started ans now)).1 ∧
               is_ok (complete s task started ans now deleted).2 = false.
Proof.
  unfold complete. destruct ans as [e|code st]; cbn [failed]; [done|]. intros Hf.
  destruct (Z.leb_spec 200 code), (Z.ltb_spec code 300); cbn [andb]; try done. lia.
Qed.

Lemma recorded_fields task started ans now :
  let t := recorded task started ans now in
  t_Name t = t_Name task ∧ t_Queue t = t_Queue task ∧ DispatchCount t = DispatchCount task ∧
  FirstAttempt t = FirstAttempt task ∧ RunRequested t = RunRequested task ∧ ScheduleTime t = ScheduleTime task.
Proof. destruct ans; done. Qed.

(** With a store that does not fail, an update that encodes is stored. *)
Lemma UpdateTask_stores `{!ReliableStore S doc} s t stored :
  get_task s (taskKey (t_Name t)) = Some stored → RunRequested t = RunRequested stored →
  marshals (DTask t) = true →
  cts (UpdateTask s t).1 = <[taskKey (t_Name t) := DTask t]> (cts s).
Proof.
  intros Hg Hrun Hm. unfold UpdateTask. rewrite Hg, Hrun. unfold Equal. rewrite Z.eqb_refl, andb_false_r.
  unfold put. rewrite Hm. cbn [negb]. rewrite Put_law. apply get_task_Some in Hg as [Hk _].
  assert (check_keys [OpPut (taskKey (t_Name t)) (DTask t)] = Ok tt) as Hc by (apply check_keys_ok; by constructor).
  pose proof (Commit_succeeds (db s) _ Hc) as Hok.
  destruct (st_Commit_cases (db s) [OpPut (taskKey (t_Name t)) (DTask t)]) as [(_ & _ & Heq)|(e & He & _)];
    destruct (st_Commit (db s) _) as [d0 r]; cbn [fst snd] in *; subst; done.
Qed.

Lemma get_task_insert s s' n t :
  SafeKey (taskKey n) = true → cts s' = <[taskKey n := DTask t]> (cts s) → get_task s' (taskKey n) = Some t.
Proof. intros Hk Heq. apply get_task_Some. split; [done|]. rewrite Heq. by rewrite lookup_insert_eq. Qed.

Lemma get_queue_insert s s' n t q :
  cts s' = <[taskKey n := DTask t]> (cts s) → get_queue s' (queueKey q) = get_queue s (queueKey q).
Proof.
  intros Heq. destruct (get_queue s (queueKey q)) as [x|] eqn:Hq.
  - apply get_queue_Some in Hq as [Hk Hq]. apply get_queue_Some. split; [done|].
    rewrite Heq. rewrite lookup_insert_ne; [done|]. apply not_eq_sym, queue_task_ne.
  - destruct (get_queue s' (queueKey q)) as [x|] eqn:Hq'; [|done].
    apply get_queue_Some in Hq' as [Hk Hq']. rewrite Heq in Hq'.
    rewrite lookup_insert_ne in Hq' by apply not_eq_sym, queue_task_ne.
    by rewrite (proj2 (get_queue_Some s _ x)) in Hq.
Qed.

(** A failed attempt, end to end.  With a store that takes its writes,
    an attempt that got no response or a status outside 2xx is recorded (one more
    dispatch) and the task either stays, due again after exactly the documented
    backoff for that many attempts, or, exactly when the queue's attempts and
    retry duration are both used up, is removed. *)
Theorem failed_attempt_backs_off `{!ReliableStore S doc} s n t q first started ans now deleted now1 now2 :
  typed s → GetTask s n = Ok t → GetQueue s (t_Queue t) = Ok q → failed ans →
  (CloudTasks.MinBackoff (q_RetryConfig q) < 2 ^ 53)%Z → (CloudTasks.MaxBackoff (q_RetryConfig q) < 2 ^ 53)%Z →
  (CloudTasks.MaxDoublings (q_RetryConfig q) ≤ int_max)%Z → (0 ≤ DispatchCount t < int_max - 1)%Z →
  let b := Backoff (q_RetryConfig q) in
  let rec := recorded (begin_attempt t first) started ans now in
  let wait := Z.min (CloudTasks.MaxBackoff b) (CloudTasks.ideal b (DispatchCount t + 1)) in
  let next := set_times rec (Add now2 wait) (t_Created t) in
  marshals (DTask rec) = true → marshals (DTask next) = true → json_ok (Add now2 TombstoneTTL) = true →
  GetTask (reschedule (complete s (begin_attempt t first) started ans now deleted).1 n now1 now2) n =
  if CloudTasks.ShouldRetryAfter b (DispatchCount t + 1) (Sub now1 (FirstAttempt rec)) then Ok next else Err NotFound.
Proof.
  intros Hs Hget Hq Hf Hmin Hmax Hdbl Hcnt b rec wait next Hrec Hnext Hjson.
  unfold GetTask in Hget. destruct (get_task s (taskKey n)) as [t0|] eqn:Ht; simplify_eq.
  pose proof (get_task_name s n t Hs Ht) as Hn. pose proof Ht as Hsafe. apply get_task_Some in Hsafe as [Hsafe _].
  destruct (recorded_fields (begin_attempt t first) started ans now) as (Hrn & Hrq & Hrc & Hrf & Hrr & Hrs).
  fold rec in Hrn, Hrq, Hrc, Hrf, Hrr, Hrs. cbn in Hrn, Hrq, Hrc, Hrr, Hrs.
  rewrite (proj1 (complete_failed s _ started ans now deleted Hf)). fold rec.
  assert (cts (UpdateTask s rec).1 = <[taskKey n := DTask rec]> (cts s)) as Hup.
  { rewrite <- Hn, <- Hrn. apply (UpdateTask_stores s rec t); [by rewrite Hrn, Hn|done|done]. }
  set (s1 := (UpdateTask s rec).1) in *.
  pose proof (get_task_insert s s1 n rec Hsafe Hup) as Hg1.
  assert (typed s1) as Hs1.
  { unfold typed. rewrite Hup. apply map_Forall_insert_2; [|done]. split; [done|]. cbn. by rewrite Hrn, Hn. }
  unfold reschedule, reschedule_decide. unfold GetTask at 2. rewrite Hg1. unfold GetQueue. rewrite (get_queue_insert s s1 n rec) by done.
  rewrite Hrq. unfold GetQueue in Hq.
  destruct (get_queue s (queueKey (t_Queue t))) as [q0|]; [injection Hq as ->|done].
  rewrite Hrc. fold b. destruct (CloudTasks.ShouldRetryAfter b _ _); cbn [negb reschedule_apply].
  - assert (CloudTasks.Delay b (DispatchCount t + 1) = wait) as Hw.
    { destruct (WithDefaults_positive (q_RetryConfig q)) as (H1 & H2 & H3 & _). fold b in H1, H2, H3. cbv zeta in H1, H2, H3.
      apply cloud_tasks_delay_exact; try lia; unfold b, Backoff; cbn; unfold int_max, Hour, Minute, Second, Millisecond in *;
        repeat case_match; lia. }
    rewrite Hw. assert (set_times rec (Add now2 wait) (t_Created rec) = next) as Hnx by (unfold next, rec; by destruct ans).
    rewrite Hnx. unfold GetTask. erewrite get_task_insert; [done|done|].
    replace n with (t_Name next) by (rewrite <- Hn, <- Hrn; done).
    apply (UpdateTask_stores s1 next rec); [|done|done]. cbn. by rewrite Hrn, Hn.
  - rewrite Hrn, Hn. by apply (DeleteTask_removes s1 n now2 rec).
Qed.

(** ** Divergences *)

(** An attempt whose request cannot be built (a URL net/http refuses, a token
    with no credentials to mint it) is not counted: [Dispatch] returns before
    DispatchCount is incremented and writes nothing, so [reschedule] sees zero
    attempts, which no limit stops, and the delay before retry zero, which is 0.
    The task is due again at once, for ever; it is never dropped. *)
Theorem unbuildable_never_backs_off d s n t q e first started ans now deleted now1 now2 :
  GetTask s n = Ok t → DispatchCount t = 0%Z → GetQueue s (t_Queue t) = Ok q →
  begin_dispatch d s t = NotBuilt e →
  Dispatch d s t first started ans now deleted = (s, Err e) ∧
  reschedule_decide s n now1 now2 = Retry (set_times t now2 (t_Created t)).
Proof.
  intros Ht Hc Hq Hb. unfold Dispatch. rewrite Hb. split; [done|].
  unfold reschedule_decide. rewrite Ht, Hq, Hc.
  destruct (WithDefaults_positive (q_RetryConfig q)) as (_ & _ & _ & Hne). cbv zeta in Hne.
  assert (CloudTasks.ShouldRetryAfter (Backoff (q_RetryConfig q)) 0 (Sub now1 (FirstAttempt t)) = true) as ->.
  { unfold CloudTasks.ShouldRetryAfter, CloudTasks.ShouldRetry, Backoff.
    destruct (Z.ltb_spec (CloudTasks.MaxAttempts (CloudTasks.WithDefaults (q_RetryConfig q))) 0); [done|].
    by rewrite (proj2 (Z.ltb_lt 0 _)) by lia. }
  cbn [negb]. unfold CloudTasks.Delay. cbn [Z.ltb Z.compare]. unfold Add. by rewrite Z.add_0_r.
Qed.

End dispatch.

(** Overriding any part of a URL rebuilds its host from [Hostname], which drops
    an IPv6 literal's brackets: with no port, the host that results reads as
    another host and a port. *)
Theorem ipv6_host_broken_by_override :
  let u := mkUrl "http" "[::1]" "/x" "" "" "" in
  let o := mkUriOverride None None None (Some "/y") None false in
  (Hostname u, Port u) = ("::1", "") ∧
  (Hostname (override_url u o), Port (override_url u o)) = (":", "1").
Proof. vm_compute. split; reflexivity. Qed.

Module DispatchExamples.

Import TasksStoreSpec.Examples Memory.

#[local] Instance amd64 : Platform := {| undef_int64 := int_min |}.

(** A network library that accepts every request and parses no URL. *)
#[local] Instance permissive : Net :=
  {| url_Parse := λ _, None; url_String := u_Path; request_ok := λ _ _, true |}.

Definition plain : Dispatcher := mkDispatcher None "".

Definition spoofing : Task :=
  set_HTTPRequest t1 (Some (mkHTTPRequest "http://localhost/h" "POST" {["X-CLOUDTASKS-taskname" := "spoof"]} "" None None)).

Definition built : Request :=
  match buildRequest plain s1 spoofing [("X-CLOUDTASKS-taskname", "spoof")] with
  | Ok r => r
  | Err _ => mkRequest "" "" ∅ "" None
  end.

Lemma request_headers_witness : Header_Get (rq_Header built) "x-cloudtasks-taskname" = "a".
Proof.
  refine (proj1 (request_headers plain s1 spoofing
    (mkHTTPRequest "http://localhost/h" "POST" {["X-CLOUDTASKS-taskname" := "spoof"]} "" None None)
    [("X-CLOUDTASKS-taskname", "spoof")] built _ _ _)); [reflexivity|reflexivity|vm_compute; reflexivity].
Defined.

Definition q1 : Queue := set_q_config (set_q_Created (a_queue queue) 5%Z) DefaultRetryConfig DefaultRateLimits.

Lemma failed_attempt_backs_off_witness :
  GetTask (reschedule (complete s1 (begin_attempt t1 10%Z) 10%Z (Response 500 "500 Internal Server Error") 11%Z 11%Z).1
             named 12%Z 13%Z) named =
  Ok (set_times (recorded (begin_attempt t1 10%Z) 10%Z (Response 500 "500 Internal Server Error") 11%Z)
        (13 + 100 * Millisecond)%Z 8%Z).
Proof.
  refine (failed_attempt_backs_off s1 named t1 q1 10%Z 10%Z (Response 500 "500 Internal Server Error") 11%Z 11%Z 12%Z 13%Z
    s1_typed _ _ _ _ _ _ _ _ _ _); try (vm_compute; reflexivity).
  - cbn. lia.
  - vm_compute. discriminate.
  - vm_compute. split; [discriminate|reflexivity].
Defined.

End DispatchExamples.
