(* ===== verification/TasksWorker.v ===== *)
(** * internal/service/tasks: the dispatch worker

    dispatch.go's Worker: the token bucket, one pass over the due tasks, and the
    attempts it starts, as a transition system.  Every lock-protected section and
    every store operation of the pass, of each attempt's goroutine and of the API
    is a step of its own, so every interleaving of them is covered. *)

From S2P Require Import Prelude GoLib ApiError Resource MetaStore Float64 Sched IamPolicy NetHttp TasksModel TasksStore TasksStoreSpec TasksDispatch.
From Stdlib Require Import Ascii.

Import strings time.

(** ** Rate limiting *)

Definition max_int32 : Z := 2147483647.
Definition max_quarter : Z := 2305843009213693951. (* math.MaxInt64 / 4 *)

Section bucket.
Context `{Platform}.

(** A rate that is not positive, or not a number, is the default. *)
Definition effective_rate (rate : f64) : f64 :=
  if Float64.leb rate (Fin 0 0) || IsNaN rate then MaxDispatchesPerSecond DefaultRateLimits else rate.

Definition BurstSize (rate : f64) : Z :=
  let rate := effective_rate rate in
  if Float64.ltb (of_int max_int32) rate then max_int32
  else Z.max 1 (to_int64 undef_int64 (Ceil rate)).

Definition bucket_interval (rate : f64) : Duration :=
  let i := Duration_of (Min (div (of_int Second) (effective_rate rate)) (of_int max_quarter)) in
  if (i <=? 0)%Z then 1%Z else i.

Definition bucket_tolerance (interval : Duration) (burst : Z) : Duration :=
  Duration_of (Min (mul (of_int interval) (of_int (burst - 1))) (of_int max_quarter)).

(** [b.take(now, rate, burst)]: the bucket is its [next]. *)
Definition take (next now : Time) (rate : f64) (burst : Z) : Time * bool :=
  let interval := bucket_interval rate in
  let tolerance := bucket_tolerance interval burst in
  if Before now (Add next (- tolerance)%Z) then (next, false)
  else
    let next := if Before next now then now else next in
    (Add next interval, true).

(** Tokens taken at the times [ts], in order: how many, and when. *)
Fixpoint takes (next : Time) (rate : f64) (burst : Z) (ts : list Time) : list Time :=
  match ts with
  | [] => []
  | now :: ts =>
      let '(next', ok) := take next now rate burst in
      if ok then now :: takes next' rate burst ts else takes next' rate burst ts
  end.

Lemma bucket_interval_pos rate : (0 < bucket_interval rate)%Z.
Proof. unfold bucket_interval. destruct (Z.leb_spec (Duration_of (Min (div (of_int Second) (effective_rate rate)) (of_int max_quarter))) 0); lia. Qed.

Lemma take_spec next now rate burst next' ok :
  take next now rate burst = (next', ok) →
  (ok = false ∧ next' = next) ∨
  (ok = true ∧ (next - bucket_tolerance (bucket_interval rate) burst ≤ now)%Z ∧
     next' = (Z.max next now + bucket_interval rate)%Z).
Proof.
  unfold take, Before, Add. destruct (Z.ltb_spec now (next + - bucket_tolerance (bucket_interval rate) burst)) as [Hl|Hl].
  - intros [= <- <-]. by left.
  - intros [= <- <-]. right. split; [done|]. split; [lia|]. destruct (Z.ltb_spec next now); lia.
Qed.

(** [k] tokens after one at [t0], the bucket's next is at least [k] intervals
    past it. *)
Lemma takes_spacing next rate burst ts t0 k t :
  (t0 + Z.of_nat k * bucket_interval rate ≤ next)%Z →
  ∀ i, takes next rate burst ts !! i = Some t →
  (t0 + Z.of_nat (k + i) * bucket_interval rate - bucket_tolerance (bucket_interval rate) burst ≤ t)%Z.
Proof.
  revert next k. induction ts as [|now ts IH]; intros next k Hk i Hi; [done|]. cbn in Hi.
  pose proof (bucket_interval_pos rate) as Hpos.
  destruct (take next now rate burst) as [next' ok] eqn:Ht.
  destruct (take_spec _ _ _ _ _ _ Ht) as [[-> ->]|(-> & Hle & ->)]; [by eapply IH|].
  destruct i as [|i]; cbn in Hi.
  - injection Hi as ->. rewrite Nat.add_0_r. lia.
  - replace (k + Datatypes.S i)%nat with (Datatypes.S k + i)%nat by lia.
    eapply IH; [|exact Hi]. rewrite Nat2Z.inj_succ. lia.
Qed.

(** The token bucket paces.  For every rate and burst, of any sequence of
    attempts to take a token, the times at which one was granted satisfy the
    generic cell rate bound: between the first and the (n+1)-st at least n
    intervals less the tolerance pass, so a window of length w holds at most
    1 + (w + tolerance) / interval tokens. *)
Theorem bucket_paces next rate burst ts i j ti tj :
  takes next rate burst ts !! i = Some ti → takes next rate burst ts !! j = Some tj → (i ≤ j)%nat →
  (Z.of_nat (j - i) * bucket_interval rate - bucket_tolerance (bucket_interval rate) burst ≤ tj - ti)%Z ∨ i = j.
Proof.
  revert next i j. induction ts as [|now ts IH]; intros next i j Hi Hj Hij; [done|]. cbn in Hi, Hj.
  destruct (take next now rate burst) as [next' ok] eqn:Ht.
  destruct (take_spec _ _ _ _ _ _ Ht) as [[-> ->]|(-> & Hle & ->)]; [by eapply IH|].
  destruct i as [|i]; cbn in Hi; [injection Hi as ->|].
  - destruct j as [|j]; [by right|]. left. cbn in Hj.
    pose proof (takes_spacing (Z.max next ti + bucket_interval rate) rate burst ts ti 1 tj) as Hsp.
    specialize (Hsp ltac:(lia) j Hj). replace (Datatypes.S j - 0)%nat with (1 + j)%nat by lia. lia.
  - destruct j as [|j]; [lia|]. cbn in Hj.
    destruct (IH _ i j Hi Hj) as [H1|H1]; [lia|left|right; lia].
    by replace (Datatypes.S j - Datatypes.S i)%nat with (j - i)%nat by lia.
Qed.

End bucket.

(** The default rate: 500 dispatches a second, two milliseconds apart, with
    bursts of up to a second's worth. *)
Module BucketExamples.

#[local] Instance amd64 : Platform := {| undef_int64 := int_min |}.

Example default_bucket :
  let rate := MaxDispatchesPerSecond DefaultRateLimits in
  BurstSize rate = 500%Z ∧ bucket_interval rate = (2 * Millisecond)%Z ∧
  bucket_tolerance (bucket_interval rate) (BurstSize rate) = (499 * 2 * Millisecond)%Z.
Proof. vm_compute. repeat split; reflexivity. Qed.

(** Three tokens a second, starting full. *)
Definition three : list Time := [10; 10; 10; 10; 10 + 333333333; 10 + 333333333; 10 + 666666666]%Z.

Lemma bucket_paces_witness :
  (Z.of_nat 3 * bucket_interval (of_int 3) - bucket_tolerance (bucket_interval (of_int 3)) 3 ≤ (10 + 333333333) - 10)%Z ∨ 0%nat = 3%nat.
Proof.
  apply (bucket_paces 0%Z (of_int 3) 3%Z three 0 3); [vm_compute; reflexivity..|lia].
Defined.

End BucketExamples.

(** ** The worker *)

Record Worker := mkWorker {
  inflight : gset string;
  perQueue : gmap string Z;
  buckets : gmap string Time
}.

Definition NewWorker : Worker := mkWorker ∅ ∅ ∅.

Definition per_queue (w : Worker) (q : string) : Z := default 0%Z (perQueue w !! q).

(** [inflight[name] = true; perQueue[queue]++] *)
Definition mark (w : Worker) (task : Task) : Worker :=
  mkWorker ({[t_Name task]} ∪ inflight w) (<[t_Queue task := (per_queue w (t_Queue task) + 1)%Z]> (perQueue w)) (buckets w).

(** [release], and the end of an attempt: [delete(inflight, name); perQueue[queue]--] *)
Definition release (w : Worker) (task : Task) : Worker :=
  mkWorker (inflight w ∖ {[t_Name task]}) (<[t_Queue task := (per_queue w (t_Queue task) - 1)%Z]> (perQueue w)) (buckets w).

Definition set_bucket (w : Worker) (q : string) (next : Time) : Worker :=
  mkWorker (inflight w) (perQueue w) (<[q := next]> (buckets w)).

(** What the locked section of [startAll] does with a task. *)
Inductive verdict := Skip | MarkedForced | MarkedDue.

Section worker.
Context {S : Type} `{MSL : MetaStoreLaws S doc} `{Net} `{Platform}.
Implicit Types (s : Store (S := S)).

(** The limits of a queue as a pass reads them. *)
Definition limits_of s (queue : string) : RateLimits :=
  let d := DefaultRateLimits in
  match GetQueue s queue with
  | Ok q =>
      mkRateLimits
        (if Float64.ltb (Fin 0 0) (MaxDispatchesPerSecond (q_RateLimits q))
         then MaxDispatchesPerSecond (q_RateLimits q) else MaxDispatchesPerSecond d)
        (if (0 <? MaxConcurrentDispatches (q_RateLimits q))%Z
         then MaxConcurrentDispatches (q_RateLimits q) else MaxConcurrentDispatches d)
  | Err _ => d
  end.

Definition try_start (w : Worker) (now : Time) (limit : RateLimits) (task : Task) : Worker * verdict :=
  let forced := negb (IsZero (RunRequested task)) in
  let out := bool_decide (t_Name task ∈ inflight w) in
  if forced && negb out then (mark w task, MarkedForced)
  else if forced || out || (MaxConcurrentDispatches limit <=? per_queue w (t_Queue task))%Z then (w, Skip)
  else
    let b := default zero (buckets w !! t_Queue task) in
    let rate := MaxDispatchesPerSecond limit in
    let '(next, ok) := take b now rate (BurstSize rate) in
    let w := set_bucket w (t_Queue task) next in
    if ok then (mark w task, MarkedDue) else (w, Skip).

(** [current(name, due)] *)
Definition current s (name : string) (due : Time) : option Task :=
  match GetTask s name with
  | Err _ => None
  | Ok t =>
      if negb (IsZero due) && After (ScheduleTime t) due && IsZero (RunRequested t) then None else Some t
  end.

(** What [startAll] does with a marked task, once it has read it again. *)
Inductive reread := Release | TakeThenStart (fresh : Task) | Start (fresh : Task).

Definition reread_task s (now : Time) (forced : bool) (task : Task) : reread :=
  if forced then
    match current s (t_Name task) zero with
    | Some fresh => if Equal (RunRequested fresh) (RunRequested task) then TakeThenStart fresh else Release
    | None => Release
    end
  else match current s (t_Name task) now with Some fresh => Start fresh | None => Release end.

(** ** The system *)

(** Where an attempt's goroutine is. *)
Inductive phase :=
| PBegin                                        (** about to build and send *)
| PSent (begun : Task) (started : Time)         (** the target has the request *)
| PDecide                                       (** failed: about to read for [reschedule] *)
| PApply (dec : decision)                       (** about to write [reschedule]'s decision *)
| PEnd.                                         (** about to clear its mark *)

Record attempt := mkAttemptState { a_task : Task; a_phase : phase }.

(** Where the pass is. *)
Inductive pass :=
| Idle
| Next (now : Time) (due : list Task) (limits : gmap string RateLimits)
| Marked (now : Time) (forced : bool) (task : Task) (due : list Task) (limits : gmap string RateLimits)
| Taking (now : Time) (fresh : Task) (due : list Task) (limits : gmap string RateLimits)
| Releasing (now : Time) (task : Task) (due : list Task) (limits : gmap string RateLimits).

Record world := mkWorld {
  w_store : Store (S := S);
  w_worker : Worker;
  w_pass : pass;
  w_attempts : list attempt;
  (** names whose task an attempt deleted after its 2xx, until the name is created
      again; a 2xx whose DeleteTask failed does not count *)
  w_done : gset string
}.

(** The operations the API runs, at any time. *)
Definition api (o : op) : Prop :=
  keeps_name o ∧ match o with OUpdateTask _ | OTakeRun _ _ => False | _ => True end.

Definition api_done (s : Store) (o : op) (done : gset string) : gset string :=
  match o with
  | OCreateTask t now wall => if is_ok (CreateTask s t now wall).2 then done ∖ {[t_Name t]} else done
  | _ => done
  end.

(** [A] restricts the API's operations further where a property needs it. *)
Inductive step (d : Dispatcher) (A : op → Prop) : world → world → Prop :=
(* the API *)
| s_api s w p atts done o :
    api o → A o → step d A (mkWorld s w p atts done) (mkWorld (exec s o) w p atts (api_done s o done))
(* the pass *)
| s_due s w atts done now due :
    DueTasks s now = Ok due →
    step d A (mkWorld s w Idle atts done) (mkWorld s w (Next now due ∅) atts done)
| s_stop s w now due limits atts done :
    (* the list is done, or ctx is cancelled *)
    step d A (mkWorld s w (Next now due limits) atts done) (mkWorld s w Idle atts done)
| s_limits s w now task due limits atts done :
    limits !! t_Queue task = None →
    step d A (mkWorld s w (Next now (task :: due) limits) atts done)
           (mkWorld s w (Next now (task :: due) (<[t_Queue task := limits_of s (t_Queue task)]> limits)) atts done)
| s_try s w w' now task due limits limit atts done v :
    limits !! t_Queue task = Some limit → try_start w now limit task = (w', v) →
    step d A (mkWorld s w (Next now (task :: due) limits) atts done)
           (mkWorld s w' (match v with
                          | Skip => Next now due limits
                          | MarkedForced => Marked now true task due limits
                          | MarkedDue => Marked now false task due limits
                          end) atts done)
| s_reread s w now forced task due limits atts done :
    step d A (mkWorld s w (Marked now forced task due limits) atts done)
           (match reread_task s now forced task with
            | Release => mkWorld s w (Releasing now task due limits) atts done
            | TakeThenStart fresh => mkWorld s w (Taking now fresh due limits) atts done
            | Start fresh => mkWorld s w (Next now due limits) (atts ++ [mkAttemptState fresh PBegin]) done
            end)
| s_take s w now fresh due limits atts done :
    step d A (mkWorld s w (Taking now fresh due limits) atts done)
           (mkWorld (TakeRun s (t_Name fresh) (RunRequested fresh)) w (Next now due limits)
              (atts ++ [mkAttemptState (set_RunRequested fresh zero) PBegin]) done)
| s_release s w now task due limits atts done :
    step d A (mkWorld s w (Releasing now task due limits) atts done)
           (mkWorld s (release w task) (Next now due limits) atts done)
(* the attempts *)
| s_begin s w p l1 l2 done t first started now :
    step d A (mkWorld s w p (l1 ++ mkAttemptState t PBegin :: l2) done)
           (match begin_dispatch d s t with
            | Send _ => mkWorld s w p (l1 ++ mkAttemptState t (PSent (begin_attempt t first) started) :: l2) done
            | NotBuilt _ => mkWorld s w p (l1 ++ mkAttemptState t PDecide :: l2) done
            | NoAppEngine a =>
                mkWorld (attemptAppEngine s (begin_attempt t first) a started now).1 w p
                  (l1 ++ mkAttemptState t PDecide :: l2) done
            end)
| s_answer s w p l1 l2 done t begun started ans now deleted s' r :
    complete s begun started ans now deleted = (s', r) →
    step d A (mkWorld s w p (l1 ++ mkAttemptState t (PSent begun started) :: l2) done)
           (mkWorld s' w p (l1 ++ mkAttemptState t (if is_ok r then PEnd else PDecide) :: l2)
              (if is_ok r then {[t_Name t]} ∪ done else done))
| s_decide s w p l1 l2 done t now1 now2 :
    step d A (mkWorld s w p (l1 ++ mkAttemptState t PDecide :: l2) done)
           (mkWorld s w p (l1 ++ mkAttemptState t (PApply (reschedule_decide s (t_Name t) now1 now2)) :: l2) done)
| s_apply s w p l1 l2 done t dec now :
    step d A (mkWorld s w p (l1 ++ mkAttemptState t (PApply dec) :: l2) done)
           (mkWorld (reschedule_apply s dec now) w p (l1 ++ mkAttemptState t PEnd :: l2) done)
| s_end s w p l1 l2 done t :
    step d A (mkWorld s w p (l1 ++ mkAttemptState t PEnd :: l2) done)
           (mkWorld s (release w t) p (l1 ++ l2) done).

(** The tasks that hold a mark: those of attempts, and the pass's. *)
Definition pass_marked (p : pass) : list Task :=
  match p with
  | Idle | Next _ _ _ => []
  | Marked _ _ t _ _ | Taking _ t _ _ | Releasing _ t _ _ => [t]
  end.

Definition marked_tasks (w : world) : list Task := (a_task <$> w_attempts w) ++ pass_marked (w_pass w).

Definition init (s : Store) : world := mkWorld s NewWorker Idle [] ∅.

End worker.
