(* ===== verification/TasksWorkerSpec.v ===== *)
(** * What the dispatch worker guarantees

    Invariants of every interleaving of passes, attempts and API operations. *)

From S2P Require Import Prelude GoLib ApiError Resource MetaStore Float64 Sched IamPolicy NetHttp TasksModel TasksStore TasksStoreSpec TasksDispatch TasksWorker.
From Stdlib Require Import Ascii.

Import strings time.

(** Projections of a literal world. *)
Ltac wproj := cbn [w_store w_worker w_pass w_attempts w_done a_task a_phase] in *.

Section spec.
Context {S : Type} `{MSL : MetaStoreLaws S doc} `{Net} `{Platform}.
Implicit Types (s : Store (S := S)) (W : world (S := S)) (w : Worker).
Abbreviation cts s := (contents (db s)).

(** ** The store operations of the worker, as steps of the store *)

Lemma complete_exec s begun started ans now deleted s' r :
  complete s begun started ans now deleted = (s', r) →
  (∃ o, s' = exec s o ∧ keeps_name o ∧ (∀ t a b, o ≠ OCreateTask t a b)) ∧
  (is_ok r = true → cts s' !! taskKey (t_Name begun) = None).
Proof.
  unfold complete. destruct ans as [e|code st]; cbn [recorded].
  - intros [= <- <-]. split; [|done]. eexists (OUpdateTask _). done.
  - destruct (_ && _).
    + intros Heq. split.
      * exists (ODeleteTask (t_Name begun) deleted). cbn in *. by rewrite Heq.
      * intros Hr. pose proof (DeleteTask_gone s (t_Name begun) deleted) as Hg. cbn in Heq. rewrite Heq in Hg.
        apply Hg. by destruct r as [[]|].
    + intros [= <- <-]. split; [|done]. eexists (OUpdateTask _). done.
Qed.

Lemma reschedule_apply_exec s dec now :
  reschedule_apply s dec now = s ∨
  ∃ o, reschedule_apply s dec now = exec s o ∧ keeps_name o ∧ (∀ t a b, o ≠ OCreateTask t a b).
Proof.
  destruct dec as [n|t|]; cbn; [right..|by left].
  - by exists (ODeleteTask n now).
  - by exists (OUpdateTask t).
Qed.

Lemma attemptAppEngine_exec s t a started now :
  ∃ o, (attemptAppEngine s t a started now).1 = exec s o ∧ keeps_name o ∧ (∀ t a b, o ≠ OCreateTask t a b).
Proof. unfold attemptAppEngine. cbn [fst]. by eexists (OUpdateTask _). Qed.

(** An operation of the worker leaves absent tasks absent. *)
Lemma exec_absent s o n :
  (∀ t a b, o ≠ OCreateTask t a b) → cts s !! taskKey n = None → cts (exec s o) !! taskKey n = None.
Proof.
  intros Ho Hn. destruct (cts (exec s o) !! taskKey n) as [v|] eqn:Hv; [|done].
  destruct (exec_no_new_task s o n Hn) as (t & a & b & -> & _); [by eexists|]. by destruct (Ho t a b).
Qed.

Lemma api_absent s o n done :
  (∀ m, m ∈ done → cts s !! taskKey m = None) → n ∈ api_done s o done → cts (exec s o) !! taskKey n = None.
Proof.
  intros Hd Hn. assert (n ∈ done) as Hin by (destruct o; cbn in Hn; try done; destruct (is_ok _); set_solver).
  destruct (cts (exec s o) !! taskKey n) as [v|] eqn:Hv; [|done].
  destruct (exec_no_new_task s o n) as (t & a & b & -> & Hname); [by apply Hd|by eexists|].
  cbn in Hn. destruct (is_ok (CreateTask s t a b).2) eqn:Hok; [set_solver|].
  cbn [exec] in Hv. rewrite create_failed in Hv by done. by rewrite Hd in Hv.
Qed.

Lemma api_done_sub s o done : api_done s o done ⊆ done.
Proof. destruct o; cbn; try done. destruct (is_ok _); set_solver. Qed.

(** ** The invariant *)

(** The attempt has yet to be answered. *)
Definition delivering (p : phase) : Prop :=
  match p with PBegin | PSent _ _ => True | _ => False end.

Definition attempt_ok (done : gset string) (a : attempt) : Prop :=
  (delivering (a_phase a) → t_Name (a_task a) ∉ done) ∧
  match a_phase a with PSent begun _ => t_Name begun = t_Name (a_task a) | _ => True end.

Definition pass_ok (done : gset string) (p : pass) : Prop :=
  match p with Taking _ fresh _ _ => t_Name fresh ∉ done | _ => True end.

Record inv W : Prop := mkInv {
  i_typed : typed (w_store W);
  i_names : NoDup (t_Name <$> marked_tasks W);
  i_inflight : ∀ n, n ∈ inflight (w_worker W) ↔ n ∈ t_Name <$> marked_tasks W;
  i_done : ∀ n, n ∈ w_done W → cts (w_store W) !! taskKey n = None;
  i_attempts : Forall (attempt_ok (w_done W)) (w_attempts W);
  i_pass : pass_ok (w_done W) (w_pass W)
}.

Lemma attempt_ok_mono done done' a : done' ⊆ done → attempt_ok done a → attempt_ok done' a.
Proof. intros Hsub [H1 H2]. split; [set_solver|done]. Qed.

Lemma pass_ok_mono done done' p : done' ⊆ done → pass_ok done p → pass_ok done' p.
Proof. intros Hsub. destruct p; cbn; set_solver. Qed.

(** Replacing one attempt by one of the same task moves no mark. *)
Lemma marked_replace s w p l1 l2 t ph ph' done s' done' :
  marked_tasks (mkWorld s w p (l1 ++ mkAttemptState t ph :: l2) done) =
  marked_tasks (mkWorld s' w p (l1 ++ mkAttemptState t ph' :: l2) done').
Proof. unfold marked_tasks. cbn. by rewrite !fmap_app. Qed.

Lemma marked_split s w p l1 l2 t ph done :
  marked_tasks (mkWorld s w p (l1 ++ mkAttemptState t ph :: l2) done) ≡ₚ
  t :: marked_tasks (mkWorld s w p (l1 ++ l2) done).
Proof.
  unfold marked_tasks. wproj. rewrite !fmap_app, fmap_cons. wproj.
  by rewrite <- Permutation_middle.
Qed.

(** A step of one attempt that keeps its mark. *)
Lemma inv_attempt s s' w p l1 l2 t ph ph' done done' :
  inv (mkWorld s w p (l1 ++ mkAttemptState t ph :: l2) done) →
  typed s' → (∀ n, n ∈ done' → cts s' !! taskKey n = None) → done' ⊆ {[t_Name t]} ∪ done →
  attempt_ok done' (mkAttemptState t ph') →
  inv (mkWorld s' w p (l1 ++ mkAttemptState t ph' :: l2) done').
Proof.
  intros [Hty Hnd Hin Hdone Hatts Hpass] Hty' Hdone' Hsub Hok. wproj.
  rewrite (marked_replace _ _ _ _ _ _ _ ph' _ s' done') in Hnd, Hin.
  assert (∀ x, x ∈ marked_tasks (mkWorld s' w p (l1 ++ l2) done') → t_Name x ≠ t_Name t) as Hother.
  { rewrite marked_split, fmap_cons in Hnd. apply NoDup_cons in Hnd as [Hnd _].
    intros x Hx Heq. apply Hnd. rewrite <- Heq. by apply list_elem_of_fmap_2. }
  assert (∀ a, a ∈ l1 ∨ a ∈ l2 → attempt_ok done a → attempt_ok done' a) as Hkeep.
  { intros a Ha [Hd Hp]. split; [|done]. intros Hdel Hin'. apply Hsub in Hin'.
    assert (t_Name (a_task a) ≠ t_Name t); [|set_solver].
    apply Hother, elem_of_app. left. apply list_elem_of_fmap_2, elem_of_app. done. }
  apply Forall_app in Hatts as [Ha1 Ha2]. apply Forall_cons_1 in Ha2 as [_ Ha2].
  split; wproj; try done.
  - apply Forall_app. split; [|constructor; [done|]]; apply Forall_forall; intros a Ha;
      (apply Hkeep; [by auto|]); [by apply (proj1 (Forall_forall _ _) Ha1)|by apply (proj1 (Forall_forall _ _) Ha2)].
  - destruct p; try done. cbn in *. assert (t_Name fresh ≠ t_Name t); [|set_solver].
    apply Hother, elem_of_app. right. set_solver.
Qed.

(** A step that changes neither marks nor attempts. *)
Lemma inv_store s s' w p atts done done' :
  inv (mkWorld s w p atts done) → typed s' → done' ⊆ done →
  (∀ n, n ∈ done' → cts s' !! taskKey n = None) → inv (mkWorld s' w p atts done').
Proof.
  intros [Hty Hnd Hin Hdone Hatts Hpass] Hty' Hsub Hdone'. wproj. split; wproj; try done.
  - eapply Forall_impl; [exact Hatts|]. intros a. by apply attempt_ok_mono.
  - by eapply pass_ok_mono.
Qed.

(** A step of the pass that keeps what is marked. *)
Lemma inv_pass_move s w p p' atts done :
  inv (mkWorld s w p atts done) → pass_marked p' = pass_marked p → pass_ok done p' → inv (mkWorld s w p' atts done).
Proof.
  intros [Hty Hnd Hin Hdone Hatts Hpass] Heq Hok. unfold marked_tasks in *. wproj. rewrite <- Heq in Hnd, Hin.
  split; unfold marked_tasks; wproj; done.
Qed.

(** ** Marking and releasing *)

Lemma try_start_cases w now limit task w' v :
  try_start w now limit task = (w', v) →
  (v = Skip ∧ inflight w' = inflight w ∧ perQueue w' = perQueue w) ∨
  (v ≠ Skip ∧ t_Name task ∉ inflight w ∧ inflight w' = {[t_Name task]} ∪ inflight w ∧
     perQueue w' = <[t_Queue task := (per_queue w (t_Queue task) + 1)%Z]> (perQueue w) ∧
     (v = MarkedDue → IsZero (RunRequested task) = true ∧ (per_queue w (t_Queue task) < MaxConcurrentDispatches limit)%Z)).
Proof.
  unfold try_start. case_bool_decide as Hin; destruct (IsZero (RunRequested task)); cbn [negb andb orb].
  - intros [= <- <-]. by left.
  - intros [= <- <-]. by left.
  - destruct (Z.leb_spec (MaxConcurrentDispatches limit) (per_queue w (t_Queue task))); [intros [= <- <-]; by left|].
    destruct (take _ _ _ _) as [next ok]. destruct ok; intros [= <- <-]; [right|by left].
    split; [done|]. split; [done|]. done.
  - intros [= <- <-]. right. split; [done|]. done.
Qed.

Lemma inv_mark s w w' p p' atts done task :
  inv (mkWorld s w p atts done) → pass_marked p = [] → pass_marked p' = [task] → pass_ok done p' →
  t_Name task ∉ inflight w → inflight w' = {[t_Name task]} ∪ inflight w →
  inv (mkWorld s w' p' atts done).
Proof.
  intros [Hty Hnd Hin Hdone Hatts Hpass] Hp Hp' Hok Hnot Hfl. unfold marked_tasks in *. wproj.
  rewrite Hp, List.app_nil_r in Hnd, Hin. split; unfold marked_tasks; wproj; try done; rewrite Hp', fmap_app.
  - apply NoDup_app. split; [done|]. split; [|apply NoDup_singleton].
    intros n Hn Hx. apply Hnot, Hin. cbn in Hx. by apply list_elem_of_singleton in Hx as ->.
  - intros n. rewrite Hfl, elem_of_app, <- Hin. cbn. set_solver.
Qed.

(** Clearing a mark: [t] leaves the marked tasks. *)
Lemma inv_unmark s w p p' atts atts' done t :
  inv (mkWorld s w p atts done) →
  marked_tasks (mkWorld s w p atts done) ≡ₚ t :: marked_tasks (mkWorld s w p' atts' done) →
  Forall (attempt_ok done) atts' → pass_ok done p' →
  inv (mkWorld s (release w t) p' atts' done).
Proof.
  intros [Hty Hnd Hin Hdone Hatts Hpass] Hperm Ha Hp. wproj. rewrite Hperm, fmap_cons in Hnd. apply NoDup_cons in Hnd as [Hn Hnd].
  split; wproj; try done. intros n. cbn [release inflight]. rewrite elem_of_difference, Hin, Hperm, fmap_cons, elem_of_cons.
  unfold marked_tasks in *. wproj. destruct (decide (n = t_Name t)) as [->|]; [|set_solver]. set_solver.
Qed.

Lemma current_Some s name due t :
  typed s → current s name due = Some t → t_Name t = name ∧ GetTask s name = Ok t.
Proof.
  intros Hs. unfold current, GetTask. destruct (get_task s (taskKey name)) as [t0|] eqn:Hg; [|done].
  destruct (_ && _); [done|]. intros [= <-]. split; [by apply (get_task_name s)|done].
Qed.

Lemma reread_fresh s now forced task fresh :
  typed s → reread_task s now forced task = TakeThenStart fresh ∨ reread_task s now forced task = Start fresh →
  t_Name fresh = t_Name task ∧ GetTask s (t_Name task) = Ok fresh.
Proof.
  intros Hs. unfold reread_task. destruct forced.
  - destruct (current s (t_Name task) zero) as [t|] eqn:Hc; [|naive_solver].
    apply (current_Some s) in Hc; [|done]. destruct (Equal _ _); naive_solver.
  - destruct (current s (t_Name task) now) as [t|] eqn:Hc; [|naive_solver].
    apply (current_Some s) in Hc; [|done]. naive_solver.
Qed.

Lemma present_not_done s (done : gset string) n t :
  (∀ m, m ∈ done → cts s !! taskKey m = None) → GetTask s n = Ok t → n ∉ done.
Proof.
  intros Hd Hg Hn. unfold GetTask in Hg. destruct (get_task s (taskKey n)) as [t0|] eqn:Ht; [|done].
  apply get_task_Some in Ht as [_ Ht]. by rewrite Hd in Ht.
Qed.

(** Starting an attempt: the pass's mark becomes the attempt's. *)
Lemma inv_start s s' w p p' atts done task fresh :
  inv (mkWorld s w p atts done) → pass_marked p = [task] → pass_marked p' = [] → pass_ok done p' →
  typed s' → (∀ n, n ∈ done → cts s' !! taskKey n = None) →
  t_Name fresh = t_Name task → t_Name fresh ∉ done →
  inv (mkWorld s' w p' (atts ++ [mkAttemptState fresh PBegin]) done).
Proof.
  intros [Hty Hnd Hin Hdone Hatts Hpass] Hp Hp' Hok Hty' Hdone' Hname Hnot. unfold marked_tasks in *. wproj.
  rewrite Hp in Hnd, Hin. rewrite !fmap_app in Hnd, Hin.
  split; unfold marked_tasks; wproj; try done; rewrite ?Hp', ?List.app_nil_r, ?fmap_app; cbn [fmap list_fmap a_task] in *; rewrite ?Hname; try done.
  apply Forall_app. split; [done|]. constructor; [|constructor]. split; [intros _; cbn; congruence|done].
Qed.

Lemma exec_keeps s o (done : gset string) :
  typed s → (∀ n, n ∈ done → cts s !! taskKey n = None) → keeps_name o → (∀ t a b, o ≠ OCreateTask t a b) →
  typed (exec s o) ∧ ∀ n, n ∈ done → cts (exec s o) !! taskKey n = None.
Proof. intros Hs Hd Hk Hc. split; [by apply typed_exec|]. intros n Hn. apply exec_absent; auto. Qed.

Lemma worker_inv_step d A W W' : inv W → step d A W W' → inv W'.
Proof.
  intros Hi Hstep. pose proof (i_typed W Hi) as Hty. pose proof (i_done W Hi) as Hdone.
  destruct Hstep as
    [s w p atts done o [Hkeep _] _|s w atts done now due _|s w now due limits atts done
    |s w now task due limits atts done _|s w w' now task due limits limit atts done v _ Htry
    |s w now forced task due limits atts done|s w now fresh due limits atts done|s w now task due limits atts done
    |s w p l1 l2 done t first started now|s w p l1 l2 done t begun started ans now deleted s' r Hc
    |s w p l1 l2 done t now1 now2|s w p l1 l2 done t dec now|s w p l1 l2 done t]; wproj.
  - apply (inv_store s _ _ _ _ done); [done|by apply typed_exec|apply api_done_sub|intros n; by apply api_absent].
  - by eapply inv_pass_move.
  - by eapply inv_pass_move.
  - by eapply inv_pass_move.
  - destruct (try_start_cases _ _ _ _ _ _ Htry) as [(-> & Hfl & _)|(Hv & Hnot & Hfl & _)].
    + destruct Hi as [? Hnd Hin ? ? ?]. unfold marked_tasks in *. wproj. split; unfold marked_tasks; wproj; try done.
      intros n. by rewrite Hfl, Hin.
    + destruct v; [done|..]; by eapply inv_mark.
  - destruct (reread_task s now forced task) as [|fresh|fresh] eqn:Hr.
    + by eapply inv_pass_move.
    + destruct (reread_fresh s now forced task fresh Hty) as [Hn Hg]; [by left|].
      destruct Hi as [? Hnd Hin ? ? ?]. unfold marked_tasks in *. wproj.
      split; unfold marked_tasks; wproj; try done; rewrite ?fmap_app in *; cbn [pass_marked fmap list_fmap] in *; rewrite ?Hn; try done.
      cbn [pass_ok]. rewrite Hn. by eapply present_not_done.
    + destruct (reread_fresh s now forced task fresh Hty) as [Hn Hg]; [by right|].
      eapply inv_start; [exact Hi|done..|]. rewrite Hn. by eapply present_not_done.
  - destruct (exec_keeps s (OTakeRun (t_Name fresh) (RunRequested fresh)) done) as [Hty' Hd']; [done..|].
    pose proof (i_pass _ Hi) as Hp. by eapply (inv_start s _ _ _ _ _ _ fresh (set_RunRequested fresh zero)).
  - eapply inv_unmark; [exact Hi| |by apply (i_attempts _ Hi)|done].
    unfold marked_tasks. wproj. cbn [pass_marked]. by rewrite List.app_nil_r, Permutation_app_comm.
  - pose proof (i_attempts _ Hi) as Ha. wproj. apply Forall_app in Ha as [_ [[Hn _] _]%Forall_cons_1]. wproj.
    destruct (begin_dispatch d s t) as [a|e|rq].
    + destruct (attemptAppEngine_exec s (begin_attempt t first) a started now) as (o & -> & Hk & Hc).
      destruct (exec_keeps s o done) as [Hty' Hd']; [done..|]. eapply inv_attempt; [exact Hi|done|done|set_solver|done].
    + eapply inv_attempt; [exact Hi|done|done|set_solver|done].
    + eapply inv_attempt; [exact Hi|done|done|set_solver|]. split; [|done]. intros _. by apply Hn.
  - pose proof (i_attempts _ Hi) as Ha. wproj. apply Forall_app in Ha as [_ [[_ Hb] _]%Forall_cons_1]. wproj.
    destruct (complete_exec _ _ _ _ _ _ _ _ Hc) as [(o & -> & Hk & Hno) Hgone].
    destruct (exec_keeps s o done) as [Hty' Hd']; [done..|].
    destruct (is_ok r); eapply inv_attempt; try exact Hi; try done; try set_solver.
    intros n [->%elem_of_singleton|Hn]%elem_of_union; [rewrite <- Hb; auto|auto].
  - by eapply inv_attempt; [exact Hi|done|done|set_solver|].
  - assert (typed (reschedule_apply s dec now) ∧ ∀ n, n ∈ done → cts (reschedule_apply s dec now) !! taskKey n = None) as [Hty' Hd'].
    { destruct (reschedule_apply_exec s dec now) as [->|(o & -> & Hk & Hno)]; [done|by apply exec_keeps]. }
    by eapply inv_attempt; [exact Hi|done|done|set_solver|].
  - eapply inv_unmark; [exact Hi|apply marked_split| |by apply (i_pass _ Hi)].
    pose proof (i_attempts _ Hi) as Ha. wproj. apply Forall_app in Ha as [Ha1 Ha2]. apply Forall_cons_1 in Ha2 as [_ Ha2].
    by apply Forall_app.
Qed.

Lemma worker_inv d A s W : typed s → rtc (step d A) (init s) W → inv W.
Proof.
  intros Hs. apply rtc_invariant; [apply worker_inv_step|]. split; try done.
  - apply NoDup_nil_2.
  - intros n. unfold marked_tasks. cbn. set_solver.
Qed.

(** C3: at most one attempt of a task at a time.  Over every interleaving of
    API calls, passes and attempts, the attempts that are out and the task the
    pass has marked have different names, and the in-flight marks are exactly
    theirs: no mark leaks and none is missing. *)
Theorem one_attempt_per_task d A s W :
  typed s → rtc (step d A) (init s) W →
  NoDup (t_Name <$> marked_tasks W) ∧
  ∀ n, n ∈ inflight (w_worker W) ↔ n ∈ t_Name <$> marked_tasks W.
Proof. intros Hs HW. destruct (worker_inv d A s W Hs HW). done. Qed.

(** C4: a task that was answered 2xx and then deleted is not delivered again.
    From a store whose documents are under their own keys, over every interleaving, an attempt that has yet to be answered (it is about to
    be sent or is out) is never of a task that an earlier attempt removed after its
    2xx, by a DeleteTask that succeeded, and that nobody has created since, however
    stale the list it was picked from.  Where the store fails that DeleteTask the
    task stays and is retried ([failed_delete_sends_again]). *)
Theorem no_redelivery_after_success d A s W a :
  typed s → rtc (step d A) (init s) W → a ∈ w_attempts W → delivering (a_phase a) →
  t_Name (a_task a) ∉ w_done W.
Proof.
  intros Hs HW Ha Hd. destruct (worker_inv d A s W Hs HW) as [_ _ _ _ Hatts _].
  by apply (proj1 (Forall_forall _ _) Hatts a Ha).
Qed.

(** ** Counting

    For tasks queued where their name says, the counters [perQueue] are exact. *)

Definition own (t : Task) : Prop := t_Queue t = home (t_Name t).

(** CreateTask names the queue its task is under, or none. *)
Definition own_queue (o : op) : Prop :=
  match o with OCreateTask t _ _ => t_Queue t = "" ∨ own t | _ => True end.

Definition own_store s : Prop := ∀ k t, cts s !! k = Some (DTask t) → own t.

Definition own_write (o : op) : Prop :=
  match o with OCreateTask t _ _ => t_Queue t = "" ∨ own t | OUpdateTask t => own t | _ => True end.

Lemma own_exec s o : own_store s → own_write o → own_store (exec s o).
Proof.
  intros Hs Ho k t Ht. destruct (exec_applied s o) as (ws & Heq & Hws). rewrite Heq in Ht.
  apply apply_ops_Some in Ht as [Ht|Hin]; [by eapply Hs|].
  apply (proj1 (Forall_forall _ _) Hws) in Hin as [_ Hw]. inversion Hw; subst; cbn in Ho.
  - unfold own. match goal with H1 : t_Name t = _, H2 : t_Queue t = _ |- _ => rewrite H1, H2 end.
    case_bool_decide; [done|]. by destruct Ho.
  - match goal with H1 : _ ∨ _ |- _ => destruct H1 as [[-> _]| ->] end; done.
  - match goal with H1 : get_task s _ = Some _ |- _ => apply get_task_Some in H1 as [_ H1]; by apply Hs in H1 end.
  - match goal with H1 : get_task s _ = Some _ |- _ => apply get_task_Some in H1 as [_ H1]; by apply Hs in H1 end.
Qed.

Definition pass_due (p : pass) : list Task :=
  match p with
  | Idle => []
  | Next _ due _ | Marked _ _ _ due _ | Taking _ _ due _ | Releasing _ _ due _ => due
  end.

(** The copies of its task an attempt carries. *)
Definition phase_own (p : phase) : Prop :=
  match p with PSent begun _ => own begun | PApply (Retry t) => own t | _ => True end.

(** How many marked tasks are of the queue. *)
Definition out_of W (q : string) : Z := Z.of_nat (length (filter (λ t, t_Queue t = q) (marked_tasks W))).

Record counted W : Prop := mkCounted {
  c_store : own_store (w_store W);
  c_due : Forall own (pass_due (w_pass W));
  c_marked : Forall own (marked_tasks W);
  c_phases : Forall (λ a, phase_own (a_phase a)) (w_attempts W);
  c_count : ∀ q, per_queue (w_worker W) q = out_of W q
}.

Lemma per_queue_insert w q q' n fl b :
  per_queue (mkWorker fl (<[q := n]> (perQueue w)) b) q' = if decide (q = q') then n else per_queue w q'.
Proof. unfold per_queue. cbn. rewrite lookup_insert. by case_decide. Qed.

Lemma per_queue_release w t q :
  per_queue (release w t) q = (per_queue w q - if decide (t_Queue t = q) then 1 else 0)%Z.
Proof. unfold release. rewrite per_queue_insert. case_decide; [by subst|lia]. Qed.

Lemma out_cons W W' t q :
  marked_tasks W' ≡ₚ t :: marked_tasks W → out_of W' q = ((if decide (t_Queue t = q) then 1 else 0) + out_of W q)%Z.
Proof.
  intros Hp. unfold out_of. rewrite Hp, filter_cons. case_decide; cbn [length]; lia.
Qed.

Lemma out_same W W' q : marked_tasks W' = marked_tasks W → out_of W' q = out_of W q.
Proof. unfold out_of. by intros ->. Qed.

Lemma due_own s now due : typed s → own_store s → DueTasks s now = Ok due → Forall own due.
Proof.
  intros Hty Hs. unfold DueTasks. rewrite List_law. intros [= <-]. rewrite due_loop_filter by done.
  apply Forall_forall. intros t Ht. rewrite sort_by_elem in Ht. apply list_elem_of_filter in Ht as [_ Ht].
  apply list_elem_of_omap in Ht as (k & _ & [_ Hk]%get_task_Some). by apply Hs in Hk.
Qed.

Lemma GetTask_own s n t : own_store s → GetTask s n = Ok t → own t.
Proof.
  unfold GetTask. intros Hs Hg. destruct (get_task s (taskKey n)) as [t0|] eqn:Ht; simplify_eq.
  apply get_task_Some in Ht as [_ Ht]. by apply Hs in Ht.
Qed.

(** One attempt replaced by one of the same task. *)
Lemma counted_attempt s s' w p l1 l2 t ph ph' done done' :
  counted (mkWorld s w p (l1 ++ mkAttemptState t ph :: l2) done) → own_store s' → phase_own ph' →
  counted (mkWorld s' w p (l1 ++ mkAttemptState t ph' :: l2) done').
Proof.
  intros [Hs Hd Hm Hp Hc] Hs' Hph. wproj.
  pose proof (marked_replace s w p l1 l2 t ph ph' done s' done') as Heq.
  split; wproj; [done|done|by rewrite <- Heq| |].
  - apply Forall_app in Hp as [Hp1 Hp2]. apply Forall_cons_1 in Hp2 as [_ Hp2].
    apply Forall_app. split; [done|]. by constructor.
  - intros q. rewrite Hc. by apply out_same.
Qed.

Lemma counted_pass s w p p' atts done :
  counted (mkWorld s w p atts done) → pass_marked p' = pass_marked p → Forall own (pass_due p') →
  counted (mkWorld s w p' atts done).
Proof.
  intros [Hs Hd Hm Hp Hc] Heq Hdue. wproj.
  assert (marked_tasks (mkWorld s w p' atts done) = marked_tasks (mkWorld s w p atts done)) as Hmt
    by (unfold marked_tasks; wproj; by rewrite Heq).
  split; wproj; [done..|by rewrite Hmt|done|]. intros q. rewrite Hc. by apply out_same.
Qed.

Lemma counted_release s w p p' atts atts' done t :
  counted (mkWorld s w p atts done) →
  marked_tasks (mkWorld s w p atts done) ≡ₚ t :: marked_tasks (mkWorld s (release w t) p' atts' done) →
  pass_due p' = pass_due p → Forall (λ a, phase_own (a_phase a)) atts' →
  counted (mkWorld s (release w t) p' atts' done).
Proof.
  intros [Hs Hd Hm Hp Hc] Hperm Hdue Ha. wproj. rewrite Hperm in Hm. apply Forall_cons_1 in Hm as [_ Hm].
  split; wproj; [done|by rewrite Hdue|done|done|].
  intros q. rewrite per_queue_release, Hc, (out_cons _ _ _ q Hperm).
  destruct (decide (t_Queue t = q)); lia.
Qed.

Lemma counted_mark s w w' p p' atts done task :
  counted (mkWorld s w p atts done) → pass_marked p = [] → pass_marked p' = [task] → own task → Forall own (pass_due p') →
  perQueue w' = <[t_Queue task := (per_queue w (t_Queue task) + 1)%Z]> (perQueue w) →
  counted (mkWorld s w' p' atts done).
Proof.
  intros [Hs Hd Hm Hp Hc] Hpm Hpm' Hown Hdue Hpq. wproj.
  assert (marked_tasks (mkWorld s w' p' atts done) ≡ₚ task :: marked_tasks (mkWorld s w p atts done)) as Hperm.
  { unfold marked_tasks. wproj. rewrite Hpm, Hpm', List.app_nil_r. by rewrite Permutation_app_comm. }
  split; wproj; [done|done|rewrite Hperm; by constructor|done|].
  intros q. rewrite (out_cons _ _ _ q Hperm), <- Hc. wproj. unfold per_queue at 1. rewrite Hpq, lookup_insert.
  destruct (decide (t_Queue task = q)) as [<-|]; cbn; unfold per_queue; lia.
Qed.

Lemma counted_start s s' w p p' atts done task fresh :
  counted (mkWorld s w p atts done) → own_store s' → pass_marked p = [task] → pass_marked p' = [] →
  pass_due p' = pass_due p → own fresh → t_Name fresh = t_Name task →
  counted (mkWorld s' w p' (atts ++ [mkAttemptState fresh PBegin]) done).
Proof.
  intros [Hs Hd Hm Hp Hc] Hs' Hpm Hpm' Hdue Hown Hname. wproj.
  assert (t_Queue fresh = t_Queue task) as Hqueue.
  { unfold marked_tasks in Hm. wproj. rewrite Hpm in Hm. apply Forall_app in Hm as [_ [Ht _]%Forall_cons_1].
    unfold own in *. congruence. }
  assert (marked_tasks (mkWorld s' w p' (atts ++ [mkAttemptState fresh PBegin]) done) =
          (a_task <$> atts) ++ [fresh]) as Hmt.
  { unfold marked_tasks. wproj. rewrite Hpm', List.app_nil_r, fmap_app. done. }
  assert (marked_tasks (mkWorld s w p atts done) = (a_task <$> atts) ++ [task]) as Hmt0
    by (unfold marked_tasks; wproj; by rewrite Hpm).
  split; wproj; [done|by rewrite Hdue| | |].
  - rewrite Hmt. rewrite Hmt0 in Hm. apply Forall_app in Hm as [Hm _]. apply Forall_app. split; [done|]. by repeat constructor.
  - apply Forall_app. split; [done|]. by repeat constructor.
  - intros q. rewrite Hc. unfold out_of. rewrite Hmt, Hmt0, !filter_app, !length_app.
    rewrite !filter_cons, !filter_nil, Hqueue. by case_decide.
Qed.

(** The pass's mark moved to a copy of its task. *)
Lemma counted_refresh s w p p' atts done task fresh :
  counted (mkWorld s w p atts done) → pass_marked p = [task] → pass_marked p' = [fresh] →
  pass_due p' = pass_due p → own fresh → t_Name fresh = t_Name task →
  counted (mkWorld s w p' atts done).
Proof.
  intros [Hs Hd Hm Hp Hc] Hpm Hpm' Hdue Hown Hname. wproj.
  assert (marked_tasks (mkWorld s w p atts done) = (a_task <$> atts) ++ [task]) as Hmt0
    by (unfold marked_tasks; wproj; by rewrite Hpm).
  assert (marked_tasks (mkWorld s w p' atts done) = (a_task <$> atts) ++ [fresh]) as Hmt
    by (unfold marked_tasks; wproj; by rewrite Hpm').
  rewrite Hmt0 in Hm. apply Forall_app in Hm as [Hm [Ht _]%Forall_cons_1].
  assert (t_Queue fresh = t_Queue task) as Hqueue by (unfold own in *; congruence).
  split; wproj; [done|by rewrite Hdue| |done|].
  - rewrite Hmt. apply Forall_app. split; [done|]. by repeat constructor.
  - intros q. rewrite Hc. unfold out_of. rewrite Hmt, Hmt0, !filter_app, !length_app.
    rewrite !filter_cons, !filter_nil, Hqueue. by case_decide.
Qed.

(** The store operations of an attempt write tasks queued where they were. *)
Lemma complete_own s begun started ans now deleted s' r :
  own_store s → own begun → complete s begun started ans now deleted = (s', r) → own_store s'.
Proof.
  intros Hs Hb. unfold complete. destruct (recorded_fields begun started ans now) as (Hn & Hq & _).
  assert (own (recorded begun started ans now)) as Hrec by (unfold own in *; congruence).
  destruct ans as [e|code st]; [|destruct (_ && _)].
  - intros [= <- <-]. by apply (own_exec s (OUpdateTask _)).
  - intros Heq. replace s' with (exec s (ODeleteTask (t_Name (recorded begun started (Response code st) now)) deleted)).
    + by apply own_exec.
    + cbn [exec]. by rewrite Heq.
  - intros [= <- <-]. by apply (own_exec s (OUpdateTask _)).
Qed.

Lemma worker_counted_step d W W' : inv W → counted W → step d own_queue W W' → counted W'.
Proof.
  intros Hi Hcnt Hstep. pose proof (i_typed W Hi) as Hty. pose proof (c_store W Hcnt) as Hs. pose proof (c_due W Hcnt) as Hdue.
  destruct Hstep as
    [s w p atts done o [_ Hapi] HA|s w atts done now due HD|s w now due limits atts done
    |s w now task due limits atts done _|s w w' now task due limits limit atts done v _ Htry
    |s w now forced task due limits atts done|s w now fresh due limits atts done|s w now task due limits atts done
    |s w p l1 l2 done t first started now|s w p l1 l2 done t begun started ans now deleted s' r Hc
    |s w p l1 l2 done t now1 now2|s w p l1 l2 done t dec now|s w p l1 l2 done t]; wproj.
  - assert (own_store (exec s o)) by (apply own_exec; [done|by destruct o]).
    destruct Hcnt as [? ? ? ? Hct]. by split.
  - eapply counted_pass; [exact Hcnt|done|]. by eapply due_own.
  - by eapply counted_pass; [exact Hcnt|done|constructor].
  - by eapply counted_pass.
  - cbn [pass_due] in Hdue. apply Forall_cons_1 in Hdue as [Ht Hd].
    destruct (try_start_cases _ _ _ _ _ _ Htry) as [(-> & _ & Hpq)|(Hv & _ & _ & Hpq & _)].
    + apply (counted_pass s w' (Next now (task :: due) limits)); [|done|done].
      destruct Hcnt as [? ? ? ? Hct]. split; try done. intros q. wproj. unfold per_queue. rewrite Hpq. apply Hct.
    + destruct v; [done|..]; by eapply counted_mark.
  - destruct (reread_task s now forced task) as [|fresh|fresh] eqn:Hr.
    + by eapply counted_pass.
    + destruct (reread_fresh s now forced task fresh Hty) as [Hn Hg]; [by left|].
      pose proof (GetTask_own s _ _ Hs Hg) as Hown.
      by eapply counted_refresh.
    + destruct (reread_fresh s now forced task fresh Hty) as [Hn Hg]; [by right|].
      pose proof (GetTask_own s _ _ Hs Hg) as Hown. by eapply counted_start.
  - assert (own fresh) as Hf by (destruct Hcnt as [_ _ Hm _ _]; unfold marked_tasks in Hm; wproj;
      by apply Forall_app in Hm as [_ [Hm _]%Forall_cons_1]).
    eapply (counted_start s _ w _ _ atts done fresh); [exact Hcnt| |done..].
    by apply (own_exec s (OTakeRun (t_Name fresh) (RunRequested fresh))).
  - eapply counted_release; [exact Hcnt| |done|by apply (c_phases _ Hcnt)].
    unfold marked_tasks. wproj. cbn [pass_marked]. by rewrite List.app_nil_r, Permutation_app_comm.
  - assert (own t) as Ht by (destruct Hcnt as [_ _ Hm _ _]; rewrite marked_split in Hm; by apply Forall_cons_1 in Hm as [? _]).
    destruct (begin_dispatch d s t) as [a|e|rq].
    + eapply counted_attempt; [exact Hcnt| |done]. unfold attemptAppEngine. cbn [fst]. by apply (own_exec s (OUpdateTask _)).
    + by eapply counted_attempt.
    + by eapply counted_attempt.
  - pose proof (c_phases _ Hcnt) as Hp. wproj. apply Forall_app in Hp as [_ [Hb _]%Forall_cons_1]. wproj. cbn in Hb.
    eapply counted_attempt; [exact Hcnt|by eapply complete_own|by destruct (is_ok r)].
  - eapply counted_attempt; [exact Hcnt|done|]. unfold reschedule_decide. destruct (GetTask s (t_Name t)) as [cur|] eqn:Hg; [|done].
    destruct (GetQueue _ _); [|done]. cbv zeta. destruct (negb _); [done|]. change (own cur). by eapply GetTask_own.
  - pose proof (c_phases _ Hcnt) as Hp. wproj. apply Forall_app in Hp as [_ [Hb _]%Forall_cons_1]. wproj. cbn in Hb.
    eapply counted_attempt; [exact Hcnt| |done]. destruct dec as [n|t'|]; cbn [reschedule_apply]; [|by apply (own_exec s (OUpdateTask t'))|done].
    by apply (own_exec s (ODeleteTask n now)).
  - eapply counted_release; [exact Hcnt|exact (marked_split s w p l1 l2 t PEnd done)|done|].
    pose proof (c_phases _ Hcnt) as Hp. wproj. apply Forall_app in Hp as [Hp1 Hp2]. apply Forall_cons_1 in Hp2 as [_ Hp2].
    by apply Forall_app.
Qed.

Lemma worker_counted d s W :
  typed s → own_store s → rtc (step d own_queue) (init s) W → counted W.
Proof.
  intros Hty Hs HW. cut (inv W ∧ counted W); [by intros [_ ?]|].
  apply (rtc_invariant (step d own_queue) (λ W, inv W ∧ counted W) (init s)); [..|done].
  - intros W1 W2 [Hi Hc] Hstep. split; [by eapply worker_inv_step|by eapply worker_counted_step].
  - split; [apply (worker_inv d own_queue s); [done|apply rtc_refl]|]. by split.
Qed.

(** The limits a pass has read so far. *)
Definition pass_limits (p : pass) : gmap string RateLimits :=
  match p with
  | Idle => ∅
  | Next _ _ l | Marked _ _ _ _ l | Taking _ _ _ l | Releasing _ _ _ l => l
  end.

(** A step that does not end the pass under way. *)
Definition in_pass d A : relation world := λ W W', step d A W W' ∧ w_pass W' ≠ Idle.

(** A limit of the pass was there before, or it is what the queue says now. *)
Lemma step_limits d A W W' q l :
  step d A W W' → pass_limits (w_pass W') !! q = Some l →
  w_pass W' ≠ Idle ∧ (pass_limits (w_pass W) !! q = Some l ∨ l = limits_of (w_store W') q).
Proof.
  intros Hstep Hl. split; [intros Hp; by rewrite Hp in Hl|].
  destruct Hstep; cbn [w_pass w_store pass_limits] in *; try (by left); try done.
  - apply lookup_insert_Some in Hl as [[<- <-]|[_ Hl]]; [by right|by left].
  - destruct v; by left.
  - destruct (reread_task _ _ _ _); by left.
  - destruct (begin_dispatch _ _ _); by left.
Qed.

(** Every limit of the pass is what the queue's document said at a moment of this
    pass. *)
Lemma limits_read d A s W q l :
  rtc (step d A) (init s) W → pass_limits (w_pass W) !! q = Some l →
  ∃ W0, rtc (step d A) (init s) W0 ∧ rtc (in_pass d A) W0 W ∧ l = limits_of (w_store W0) q.
Proof.
  intros HW. revert q l.
  cut (rtc (step d A) (init s) W ∧ ∀ q l, pass_limits (w_pass W) !! q = Some l →
    ∃ W0, rtc (step d A) (init s) W0 ∧ rtc (in_pass d A) W0 W ∧ l = limits_of (w_store W0) q); [by intros [_ ?]|].
  apply (rtc_invariant (step d A) (λ W, rtc (step d A) (init s) W ∧ ∀ q l, pass_limits (w_pass W) !! q = Some l →
    ∃ W0, rtc (step d A) (init s) W0 ∧ rtc (in_pass d A) W0 W ∧ l = limits_of (w_store W0) q) (init s)); [..|done].
  - intros W1 W2 [H1 IH] Hstep. assert (rtc (step d A) (init s) W2) as H2 by (by eapply rtc_r).
    split; [done|]. intros q l Hl. destruct (step_limits d A W1 W2 q l Hstep Hl) as [Hp [Hold| ->]].
    + destruct (IH q l Hold) as (W0 & ? & ? & ?). exists W0. split_and!; [done| |done]. by eapply rtc_r.
    + exists W2. by split_and!; [|apply rtc_refl|].
  - split; [apply rtc_refl|]. intros q l Hl. done.
Qed.

(** A pass marks a due task by the locked section of [startAll] alone, under the
    limits it has read of the task's queue. *)
Lemma step_marks_due d A W W' now task due limits :
  step d A W W' → w_pass W = Next now (task :: due) limits → w_pass W' = Marked now false task due limits →
  ∃ limit, limits !! t_Queue task = Some limit ∧
    try_start (w_worker W) now limit task = (w_worker W', MarkedDue).
Proof.
  intros Hstep Hp Hp'. destruct Hstep; cbn [w_pass w_worker] in *; simplify_eq.
  - destruct v; simplify_eq. by eexists.
  - destruct (begin_dispatch _ _ _); cbn [w_pass] in *; simplify_eq.
Qed.

(** C7: max_concurrent_dispatches holds, from a store whose documents are under
    their own keys and whose tasks are in the
    queue their name is under and while CreateTask is called with such tasks only
    (it does not check this).  Over every interleaving, the worker's counter of a
    queue is at every moment the number of the queue's tasks that are out or about
    to be; and whenever a pass starts a due task, the number out, with this one,
    is at most the max_concurrent_dispatches that the queue's document gave when
    the pass read it (the default where it gives none).  The task started so is
    not a forced run: forced runs ignore the limit, and count towards it. *)
Theorem concurrency_limited d s W :
  typed s → own_store s → rtc (step d own_queue) (init s) W →
  (∀ q, per_queue (w_worker W) q = out_of W q) ∧
  ∀ W' now task due limits,
    step d own_queue W W' →
    w_pass W = Next now (task :: due) limits → w_pass W' = Marked now false task due limits →
    IsZero (RunRequested task) = true ∧
    ∃ W0, rtc (step d own_queue) (init s) W0 ∧ rtc (in_pass d own_queue) W0 W ∧
      (out_of W' (t_Queue task) ≤ MaxConcurrentDispatches (limits_of (w_store W0) (t_Queue task)))%Z.
Proof.
  intros Hty Hs HW. destruct (worker_counted d s W Hty Hs HW) as [_ _ _ _ Hc]. split; [done|].
  intros W' now task due limits Hstep Hp Hp'.
  destruct (step_marks_due _ _ _ _ _ _ _ _ Hstep Hp Hp') as (limit & Hl & Ht).
  destruct (try_start_cases _ _ _ _ _ _ Ht) as [(? & _)|(_ & _ & _ & Hpq & Hd)]; [done|].
  destruct (Hd eq_refl) as [Hz Hlt]. split; [done|].
  assert (pass_limits (w_pass W) !! t_Queue task = Some limit) as Hlim by (rewrite Hp; exact Hl).
  destruct (limits_read d own_queue s W _ _ HW Hlim) as (W0 & HW0 & Hpass & ->).
  exists W0. split; [done|]. split; [done|].
  destruct (worker_counted d s W' Hty Hs) as [_ _ _ _ Hc']; [exact (rtc_r _ _ _ HW Hstep)|].
  rewrite <- Hc'. unfold per_queue at 1. rewrite Hpq, lookup_insert_eq. apply Z.le_succ_l in Hlt. exact Hlt.
Qed.

End spec.

(** ** Examples *)

Module WorkerExamples.

Import TasksStoreSpec.Examples TasksDispatch.DispatchExamples Memory.

#[local] Instance amd64 : Platform := {| undef_int64 := int_min |}.
#[local] Instance permissive : Net :=
  {| url_Parse := λ _, None; url_String := u_Path; request_ok := λ _ _, true |}.

Abbreviation anything := (λ _ : op, True).

Definition limit : RateLimits := limits_of s1 queue.
Definition limits : gmap string RateLimits := {[queue := limit]}.
Definition w1 : Worker := (try_start NewWorker 8%Z limit t1).1.
Definition out1 : attempt := mkAttemptState t1 (PSent (begin_attempt t1 9%Z) 9%Z).
(** The task of [s1] picked by a pass and sent. *)
Definition sent : world := mkWorld s1 w1 (Next 8%Z [] limits) [out1] ∅.

Lemma reread1 : reread_task s1 8%Z false t1 = Start t1.
Proof. vm_compute. reflexivity. Qed.

Lemma begin1 : ∃ r, begin_dispatch plain s1 t1 = Send r.
Proof. eexists. vm_compute. reflexivity. Qed.

Lemma sent_reachable A : rtc (step plain A) (init s1) sent.
Proof.
  apply (rtc_l _ _ (mkWorld s1 NewWorker (Next 8%Z [t1] ∅) [] ∅)); [apply s_due; vm_compute; reflexivity|].
  apply (rtc_l _ _ (mkWorld s1 NewWorker (Next 8%Z [t1] limits) [] ∅)).
  { apply (s_limits plain A s1 NewWorker 8%Z t1 [] ∅). reflexivity. }
  apply (rtc_l _ _ (mkWorld s1 w1 (Marked 8%Z false t1 [] limits) [] ∅)).
  { apply (s_try plain A s1 NewWorker w1 8%Z t1 [] limits limit [] ∅ MarkedDue); vm_compute; reflexivity. }
  apply (rtc_l _ _ (mkWorld s1 w1 (Next 8%Z [] limits) [mkAttemptState t1 PBegin] ∅)).
  { pose proof (s_reread plain A s1 w1 8%Z false t1 [] limits [] ∅) as Hs. by rewrite reread1 in Hs. }
  apply rtc_once. pose proof (s_begin plain A s1 w1 (Next 8%Z [] limits) [] [] ∅ t1 9%Z 9%Z 9%Z) as Hs.
  destruct begin1 as [r Hr]. by rewrite Hr in Hs.
Qed.

Lemma s1_own : own_store s1.
Proof.
  unfold s1, run, setup. cbn [fold_left]. do 3 (apply own_exec; [|by (left + constructor)]).
  intros k t Ht. cbn in Ht. by rewrite lookup_empty in Ht.
Qed.

Lemma one_attempt_per_task_witness : NoDup (t_Name <$> marked_tasks sent).
Proof. apply (one_attempt_per_task plain anything s1 sent s1_typed (sent_reachable anything)). Defined.

Lemma no_redelivery_after_success_witness : t_Name (TasksWorker.a_task out1) ∉ w_done sent.
Proof.
  apply (no_redelivery_after_success plain anything s1 sent out1 s1_typed (sent_reachable anything)).
  - apply list_elem_of_singleton. reflexivity.
  - exact I.
Defined.

(** ... and once it is answered 200, the name is in the set the theorem is
    about. *)
Example answered_is_done :
  ∃ W, rtc (step plain anything) (init s1) W ∧ named ∈ w_done W.
Proof.
  eexists. split.
  - eapply rtc_r; [apply sent_reachable|].
    apply (s_answer plain anything s1 w1 (Next 8%Z [] limits) [] [] ∅ t1 (begin_attempt t1 9%Z) 9%Z (Response 200 "200 OK") 10%Z 10%Z
      (DeleteTask s1 named 10%Z).1 (Ok tt)). vm_compute. reflexivity.
  - cbn [w_done is_ok]. apply elem_of_union. left. by apply elem_of_singleton.
Qed.

(** The same store on disk, and its next flush failing: the DeleteTask that
    follows the 2xx fails, the task stays, its attempt takes the path of a failed
    one and a later pass finds the task due. *)
Definition on_disk : Store (S := Durable.Durable doc) :=
  NewStore (Durable.mkDurable (Durable.Contents (Memory.data (db s1))) true (Memory.data (db s1)) [Some Durable.FRename]).

Example failed_delete_sends_again :
  let '(s, r) := complete on_disk (begin_attempt t1 9%Z) 9%Z (Response 200 "200 OK") 10%Z 10%Z in
  is_ok r = false ∧
  ∃ t, DueTasks (reschedule_apply s (reschedule_decide s named 11%Z 11%Z) 12%Z) Hour = Ok [t] ∧ t_Name t = named.
Proof. vm_compute. split; [reflexivity|]. eexists. split; reflexivity. Qed.

(** The pass that is about to start the task, and the state in which it has. *)
Definition picking : world := mkWorld s1 NewWorker (Next 8%Z [t1] limits) [] ∅.
Definition picked : world := mkWorld s1 w1 (Marked 8%Z false t1 [] limits) [] ∅.

Lemma picking_reachable A : rtc (step plain A) (init s1) picking.
Proof.
  apply (rtc_l _ _ (mkWorld s1 NewWorker (Next 8%Z [t1] ∅) [] ∅)); [apply s_due; vm_compute; reflexivity|].
  apply rtc_once, (s_limits plain A s1 NewWorker 8%Z t1 [] ∅). reflexivity.
Qed.

Lemma picked_step A : step plain A picking picked.
Proof. apply (s_try plain A s1 NewWorker w1 8%Z t1 [] limits limit [] ∅ MarkedDue); vm_compute; reflexivity. Qed.

Lemma concurrency_limited_witness :
  ∃ W0, rtc (in_pass plain own_queue) W0 picking ∧
    (out_of picked queue ≤ MaxConcurrentDispatches (limits_of (w_store W0) queue))%Z.
Proof.
  destruct (concurrency_limited plain s1 picking s1_typed s1_own (picking_reachable own_queue)) as [_ Hm].
  destruct (Hm picked 8%Z t1 [] limits (picked_step own_queue) eq_refl eq_refl) as [_ (W0 & _ & H1 & H2)].
  exists W0. by split.
Defined.

End WorkerExamples.
