(* ===== verification/TasksConvert.v ===== *)
(** * internal/service/tasks: between the API's messages and the stored model

    grpcserver.go's conversions and request checks, with those of
    appengine1447.go, httptarget1282.go and logging1256.go.  Error texts are not
    modelled, only their codes. *)

From S2P Require Import Prelude GoLib ApiError Resource MetaStore Float64 Sched IamPolicy NetHttp TasksModel TasksStore TasksStoreSpec TasksDispatch TasksWorker.
From Stdlib Require Import Ascii.

Import strings time.

(** ** Queues *)

(** [proto.Size(ht) == 0]: no field is set. *)
Definition target_empty (ht : HttpTarget) : bool :=
  match uri_override ht, http_method ht, header_overrides ht, authorization_header ht with
  | None, HTTP_METHOD_UNSPECIFIED, [], None => true
  | _, _, _, _ => false
  end.

Definition httpTargetJSON (ht : option HttpTarget) : option HttpTarget :=
  match ht with
  | Some ht => if target_empty ht then None else Some ht
  | None => None
  end.

Definition queueHTTPTarget (q : Queue) : option HttpTarget := HTTPTarget q.

Definition routingFromProto (p : option pb.AppEngineRouting) : option AppEngineRouting :=
  match p with
  | None => None
  | Some p =>
      if bool_decide (pb.service p = "") && bool_decide (pb.version p = "") && bool_decide (pb.instance p = "")
      then None
      else Some (mkAppEngineRouting (pb.service p) (pb.version p) (pb.instance p))
  end.

Definition routingToProto (r : option AppEngineRouting) (project : string) : option pb.AppEngineRouting :=
  match r with
  | None => None
  | Some r => Some (pb.mkAppEngineRouting (Service r) (Version r) (Instance_ r) (AppEngineHost project r))
  end.

Section queues.
Context `{Platform}.

Definition toProtoQueue (q : Queue) : pb.Queue :=
  let state := match q_State q with
               | StatePaused => pb.PAUSED
               | StateDisabled => pb.DISABLED
               | _ => pb.RUNNING
               end in
  let rl := q_RateLimits q in
  let rc := q_RetryConfig q in
  pb.mkQueue (q_Name q) (routingToProto (q_AppEngineRouting q) (projectOf (q_Name q)))
    (Some (pb.mkRateLimits (MaxDispatchesPerSecond rl) (wrap_i32 (BurstSize (MaxDispatchesPerSecond rl)))
             (wrap_i32 (MaxConcurrentDispatches rl))))
    (Some (pb.mkRetryConfig (wrap_i32 (CloudTasks.MaxAttempts rc))
             (if (0 <? CloudTasks.MaxRetryDuration rc)%Z then Some (CloudTasks.MaxRetryDuration rc) else None)
             (Some (CloudTasks.MinBackoff rc)) (Some (CloudTasks.MaxBackoff rc)) (wrap_i32 (CloudTasks.MaxDoublings rc))))
    state
    (if IsZero (Purged q) then None else Some (Purged q))
    (SamplingRatio <$> Logging q)
    (queueHTTPTarget q).

End queues.

(** [r < 0 || r > 1 || r != r] is refused. *)
Definition checkSamplingRatio (r : f64) : res error unit :=
  if Float64.ltb r (Fin 0 0) || Float64.ltb (of_int 1) r || IsNaN r then Err (Sentinel "sampling_ratio") else Ok tt.

Definition checkLogging (p : pb.Queue) : res error unit :=
  match pb.q_sampling_ratio p with
  | Some r => match checkSamplingRatio r with Err _ => Err InvalidArgument | Ok _ => Ok tt end
  | None => Ok tt
  end.

Definition override_ok (o : UriOverride) : bool :=
  negb (bool_decide (ov_Host o = Some "")) && (0 <=? default 0 (ov_Port o))%Z && (default 0 (ov_Port o) <=? 65535)%Z.

Definition checkHTTPTarget (p : pb.Queue) : res error unit :=
  match pb.q_http_target p with
  | None => Ok tt
  | Some ht =>
      guard_ (match uri_override ht with Some o => override_ok o | None => true end) InvalidArgument ≫= λ _,
      guard_ (forallb (λ h, negb (bool_decide (TrimSpace h.1 = ""))) (header_overrides ht)) InvalidArgument ≫= λ _,
      match authorization_header ht with
      | Some (AuthOidc t) => guard_ (negb (bool_decide (oidc_email t = ""))) InvalidArgument
      | Some (AuthOauth t) => guard_ (negb (bool_decide (oauth_email t = ""))) InvalidArgument
      | None => Ok tt
      end
  end.

(** Whether the mask path [sub] under a message covers its field [field]; the
    empty path is the whole message. *)
Definition names (sub field : string) : bool := bool_decide (sub = "") || bool_decide (sub = field).

Definition checkRateLimits (p : pb.Queue) (sub : string) : res error unit :=
  match pb.q_rate_limits p with
  | None => Ok tt
  | Some rl =>
      guard_ (negb (names sub "max_dispatches_per_second" &&
                    Float64.ltb (of_int 500) (pb.max_dispatches_per_second rl))) InvalidArgument ≫= λ _,
      guard_ (negb (names sub "max_concurrent_dispatches" &&
                    (5000 <? pb.max_concurrent_dispatches rl)%Z)) InvalidArgument
  end.

Definition negative (d : option Duration) : bool := match d with Some d => (d <? 0)%Z | None => false end.

Definition checkRetry (p : pb.Queue) (sub : string) : res error unit :=
  match pb.q_retry_config p with
  | None => Ok tt
  | Some rc =>
      guard_ (negb (names sub "max_attempts" && (pb.max_attempts rc <? -1)%Z)) InvalidArgument ≫= λ _,
      guard_ (negb (names sub "max_retry_duration" && negative (pb.max_retry_duration rc))) InvalidArgument ≫= λ _,
      guard_ (negb (names sub "min_backoff" && negative (pb.min_backoff rc))) InvalidArgument ≫= λ _,
      guard_ (negb (names sub "max_backoff" && negative (pb.max_backoff rc))) InvalidArgument ≫= λ _,
      guard_ (negb (names sub "max_doublings" && (pb.max_doublings rc <? 0)%Z)) InvalidArgument
  end.

Definition checkQueue (p : pb.Queue) : res error unit :=
  checkLogging p ≫= λ _, checkHTTPTarget p ≫= λ _, checkRateLimits p "" ≫= λ _, checkRetry p "".

(** [AsDuration] of a message that may be nil. *)
Definition AsDuration (d : option Duration) : Duration := default 0%Z d.

Definition fromProtoQueue (p : pb.Queue) : Queue :=
  mkQueue (pb.q_name p)
    (match pb.q_state p with pb.PAUSED => StatePaused | pb.DISABLED => StateDisabled | _ => StateRunning end)
    (match pb.q_retry_config p with
     | Some rc => CloudTasks.mkCloudTasksBackoff (pb.max_attempts rc) (AsDuration (pb.min_backoff rc))
                    (AsDuration (pb.max_backoff rc)) (pb.max_doublings rc) (AsDuration (pb.max_retry_duration rc))
     | None => CloudTasks.mkCloudTasksBackoff 0 0 0 0 0
     end)%Z
    (match pb.q_rate_limits p with
     | Some rl => mkRateLimits (pb.max_dispatches_per_second rl) (pb.max_concurrent_dispatches rl)
     | None => mkRateLimits (Fin 0 0) 0
     end)
    zero zero None
    (mkLoggingConfig <$> pb.q_sampling_ratio p)
    (httpTargetJSON (pb.q_http_target p))
    (routingFromProto (pb.q_routing_override p)).

(** ** Tasks *)

(** [taskspb.HttpMethod_value] *)
Definition HttpMethod_value (s : string) : option HttpMethod :=
  find (λ m, bool_decide (method_String m = s)) [HTTP_METHOD_UNSPECIFIED; POST; GET; HEAD; PUT; DELETE; PATCH; OPTIONS].
#[global] Arguments HttpMethod_value : simpl never.

Definition appEngineFromProto (p : pb.AppEngineHttpRequest) : res error AppEngineHTTPRequest :=
  let uri := if bool_decide (pb.ae_relative_uri p = "") then "/" else pb.ae_relative_uri p in
  if negb (HasPrefix uri "/") then Err InvalidArgument
  else
    let method := if decide (pb.ae_http_method p = HTTP_METHOD_UNSPECIFIED) then POST else pb.ae_http_method p in
    if negb (bool_decide (pb.ae_body p = "")) && negb (bool_decide (method = POST)) && negb (bool_decide (method = PUT))
    then Err InvalidArgument
    else Ok (mkAppEngineHTTPRequest (method_String method) uri (pb.ae_headers p) (pb.ae_body p)
               (routingFromProto (pb.ae_routing p))).

Definition appEngineToProto (a : AppEngineHTTPRequest) (taskName : string) (override : option AppEngineRouting)
    : pb.AppEngineHttpRequest :=
  let method := default POST (HttpMethod_value (ae_Method a)) in
  let host := AppEngineHost (projectOf taskName) (effectiveRouting a override) in
  let routing := match Routing a with
                 | Some r => pb.mkAppEngineRouting (Service r) (Version r) (Instance_ r) host
                 | None => pb.mkAppEngineRouting "" "" "" host
                 end in
  pb.mkAppEngineHttpRequest method (Some routing) (RelativeURI a) (ae_Headers a) (ae_Body a).

(** [attemptsToProto]: the first attempt's message, and the last's. *)
Definition first_attempt (t : Task) : option pb.Attempt :=
  if IsZero (FirstAttempt t) then None else Some (pb.mkAttempt None (Some (FirstAttempt t)) None None).

Definition last_attempt (t : Task) : option pb.Attempt :=
  match LastAttempt t with
  | None => None
  | Some a =>
      Some (if IsZero (Responded a) then pb.mkAttempt (Some (Scheduled a)) (Some (Dispatched a)) None None
            else pb.mkAttempt (Some (Scheduled a)) (Some (Dispatched a)) (Some (Responded a)) (Some (Code a, Message a)))
  end.

Definition httpToProto (hr : HTTPRequest) : pb.HttpRequest :=
  pb.mkHttpRequest (URL hr) (default POST (HttpMethod_value (ToUpper (Method hr)))) (Headers hr) (Body hr)
    (match OIDC hr, OAuth hr with
     | Some t, _ => Some (AuthOidc t)
     | None, Some t => Some (AuthOauth t)
     | None, None => None
     end).

Definition toProtoTaskIn (t : Task) (override : option AppEngineRouting) : pb.Task :=
  let message :=
    match t_AppEngine t, t_HTTPRequest t with
    | Some a, _ => Some (pb.Task_AppEngineHttpRequest (appEngineToProto a (t_Name t) override))
    | None, Some hr => Some (pb.Task_HttpRequest (httpToProto hr))
    | None, None => None
    end in
  pb.mkTask (t_Name t) message (Some (ScheduleTime t)) (Some (t_Created t))
    (if (0 <? DispatchDeadline t)%Z then Some (DispatchDeadline t) else None)
    (wrap_i32 (DispatchCount t)) (wrap_i32 (ResponseCount t)) (first_attempt t) (last_attempt t).

Definition authorizationFromProto (hr : pb.HttpRequest) : res error (option OIDCToken * option OAuthToken) :=
  match pb.hr_authorization_header hr with
  | Some (AuthOidc t) => if bool_decide (oidc_email t = "") then Err InvalidArgument else Ok (Some t, None)
  | Some (AuthOauth t) => if bool_decide (oauth_email t = "") then Err InvalidArgument else Ok (None, Some t)
  | None => Ok (None, None)
  end.

Definition bodyless (m : HttpMethod) : bool :=
  match m with GET | HEAD | DELETE | OPTIONS => true | _ => false end.

(** [dispatch_deadline], 0 when unset. *)
Definition deadlineFromProto (d : option Duration) : res error Duration :=
  match d with
  | None => Ok 0%Z
  | Some d => if (d <? 15 * Second)%Z || (24 * Hour + 15 * Second <? d)%Z then Err InvalidArgument else Ok d
  end.

Definition fromProtoTask (p : pb.Task) (parent : string) : res error Task :=
  let task hr ae d :=
    mkTask (pb.t_name p) parent hr ae (default zero (pb.t_schedule_time p)) zero 0 0 0 zero None d "" zero false in
  d ← deadlineFromProto (pb.t_dispatch_deadline p);
  match pb.t_message_type p with
  | None => Err InvalidArgument
  | Some (pb.Task_AppEngineHttpRequest ae) => a ← appEngineFromProto ae; Ok (task None (Some a) d)
  | Some (pb.Task_HttpRequest hr) =>
      if (30 * Minute <? d)%Z then Err InvalidArgument
      else
        '(oidc, oauth) ← authorizationFromProto hr;
        if bodyless (pb.hr_http_method hr) && negb (bool_decide (pb.hr_body hr = "")) then Err InvalidArgument
        else Ok (task (Some (mkHTTPRequest (pb.hr_url hr) (method_String (pb.hr_http_method hr)) (pb.hr_headers hr)
                               (pb.hr_body hr) oidc oauth)) None d)
  end.

(** [now] is the time.Now() it reads. *)
Definition generateTaskName (parent : string) (now : Time) : string :=
  parent +:+ "/tasks/" +:+ strconv.Itoa (UnixNano now).
