(* ===== verification/FilterText.v ===== *)
(** * Text functions the list filters share

    What the two filter languages, ListQueues' (tasks) and Secret Manager's, use
    of Go's unicode, strings, strconv and time packages. *)

From S2P Require Import Prelude GoLib ApiError Float64.
From Stdlib Require Import Ascii.

Import strings time.

(** [unicode.IsSpace(rune(c))] of a byte: Latin-1. *)
Definition IsSpace (c : ascii) : bool :=
  let n := N_of_ascii c in
  ((9 <=? n) && (n <=? 13))%N || (n =? 32)%N || (n =? 133)%N || (n =? 160)%N.

(** [strings.ContainsRune(set, rune(c))] *)
Definition ContainsRune (set : string) (c : ascii) : bool := negb (AllBytes (λ a, negb (bool_decide (a = c))) set).

Abbreviation dquote := "034"%char.
Abbreviation backslash := "\"%char.

(** The longest prefix of bytes with [P], and the rest. *)
Fixpoint span (P : ascii → bool) (s : string) : string * string :=
  match s with
  | EmptyString => ("", "")
  | String c s' => if P c then let '(a, b) := span P s' in (String c a, b) else ("", s)
  end.

(** [strings.Compare] *)
Definition Compare (a b : string) : Datatypes.comparison :=
  if decide (a = b) then Eq else if decide (String.le a b) then Lt else Gt.

(** [strconv.ParseFloat(s, 64)] and [time.Parse(time.RFC3339Nano, s)]; [None] is
    an error. *)
Class Parsing := {
  ParseFloat : string → option f64;
  ParseTime : string → option Time
}.

Lemma span_length P s a b : span P s = (a, b) → (String.length a + String.length b = String.length s)%nat.
Proof.
  revert a b. induction s as [|c s IH]; intros a b; cbn; [by intros [= <- <-]|].
  destruct (P c); [|by intros [= <- <-]]. destruct (span P s) as [x y]. intros [= <- <-]. cbn. by rewrite (IH x y).
Qed.

(** A quoted text, with its quotes and backslashes escaped. *)
Fixpoint escape (s : string) : string :=
  match s with
  | EmptyString => ""
  | String c s => if bool_decide (c = dquote) || bool_decide (c = backslash)
                  then String backslash (String c (escape s)) else String c (escape s)
  end.

Lemma span_all P s c r : AllBytes P s = true → P c = false → span P (s +:+ String c r) = (s, String c r).
Proof.
  induction s as [|a s IH]; intros Hs Hc.
  - change ("" +:+ String c r) with (String c r). cbn. by rewrite Hc.
  - cbn in Hs. apply andb_true_iff in Hs as [Ha Hs]. rewrite app_cons. cbn. by rewrite Ha, IH.
Qed.

Lemma length_app_string a b : String.length (a +:+ b) = (String.length a + String.length b)%nat.
Proof. induction a as [|c a IH]; [done|]. rewrite app_cons. cbn. by rewrite IH. Qed.

