(* ===== verification/TasksFilter.v ===== *)
(** * internal/service/tasks/filter.go: ListQueues filters

    The lexer, the recursive-descent parser, the checks of a restriction and its
    evaluation.  A message is seen through protoreflect: descriptors and the
    populated fields of a message are data, and the descriptor of Queue is an
    argument.  [strconv.ParseFloat] and [time.Parse] with RFC 3339 are the members
    of [Parsing] (FilterText.v).  Case-insensitive matching folds ASCII letters. *)

From S2P Require Import Prelude GoLib ApiError Float64 FilterText.
From Stdlib Require Import Ascii.

Import strings time.

(** ** protoreflect *)

Inductive Kind :=
| KString | KBool
| KEnum (values : list (string * Z))       (** names and numbers *)
| KFloat                                   (** double, float *)
| KUint                                    (** uint32, uint64, fixed32, fixed64 *)
| KInt                                     (** every other integer kind *)
| KMessage (m : MessageDescriptor)
with FieldDescriptor := mkFieldDescriptor (name jsonName : string) (repeated : bool) (kind : Kind)
with MessageDescriptor := mkMessageDescriptor (fullName : string) (fields : list FieldDescriptor).

Definition fd_name (fd : FieldDescriptor) : string := match fd with mkFieldDescriptor n _ _ _ => n end.
Definition fd_json (fd : FieldDescriptor) : string := match fd with mkFieldDescriptor _ j _ _ => j end.
(** [IsList() || IsMap()] *)
Definition fd_repeated (fd : FieldDescriptor) : bool := match fd with mkFieldDescriptor _ _ r _ => r end.
Definition fd_kind (fd : FieldDescriptor) : Kind := match fd with mkFieldDescriptor _ _ _ k => k end.
Definition md_name (md : MessageDescriptor) : string := match md with mkMessageDescriptor n _ => n end.
Definition md_fields (md : MessageDescriptor) : list FieldDescriptor := match md with mkMessageDescriptor _ fs => fs end.

Inductive Value :=
| VString (s : string) | VBool (b : bool) | VEnum (n : Z) | VFloat (f : f64) | VUint (n : Z) | VInt (n : Z)
| VMessage (fields : list (string * Value)).

(** A message: its populated fields, by name. *)
Abbreviation message := (list (string * Value)).

(** The value of an unpopulated field. *)
Definition default_value (k : Kind) : Value :=
  match k with
  | KString => VString "" | KBool => VBool false | KEnum _ => VEnum 0 | KFloat => VFloat (Fin 0 0)
  | KUint => VUint 0 | KInt => VInt 0 | KMessage _ => VMessage []
  end.

Definition find_field (m : message) (n : string) : option Value := snd <$> find (λ kv, bool_decide (kv.1 = n)) m.

Definition Get (m : message) (fd : FieldDescriptor) : Value := default (default_value (fd_kind fd)) (find_field m (fd_name fd)).
Definition Has (m : message) (fd : FieldDescriptor) : bool := bool_decide (is_Some (find_field m (fd_name fd))).

(** [v.Message()] *)
Definition as_message (v : Value) : message := match v with VMessage m => m | _ => [] end.
Definition as_int (v : Value) : Z := match v with VInt n | VUint n | VEnum n => n | _ => 0 end.

(** ** Tokens *)

Record qtoken := mkToken { text : string; quoted : bool }.

Definition operator_first : string := "<>=!:~".
Definition operator_rest : string := "<>=!~".

Definition word_byte (c : ascii) : bool :=
  negb (IsSpace c) && negb (bool_decide (c = "("%char)) && negb (bool_decide (c = ")"%char)) &&
  negb (bool_decide (c = dquote)) && negb (ContainsRune operator_first c).

(** The inside of a quoted string and what follows its closing quote. *)
Fixpoint lex_quoted (s : string) : option (string * string) :=
  match s with
  | EmptyString => None
  | String c s' =>
      if bool_decide (c = dquote) then Some ("", s')
      else if bool_decide (c = backslash) then
        match s' with
        | String d s'' => '(b, r) ← lex_quoted s''; Some (String d b, r)
        | EmptyString => None
        end
      else '(b, r) ← lex_quoted s'; Some (String c b, r)
  end.

(** The loop of [lexQueueFilter]; [None] is out of fuel.  [lex_body] is one turn,
    over the rest of the loop. *)
Definition lex_body (lex : string → option (res error (list qtoken))) (s : string) : option (res error (list qtoken)) :=
  match s with
  | EmptyString => Some (Ok [])
  | String c s' =>
      let emit tok rest := option_map (λ r, toks ← r; Ok (tok :: toks)) (lex rest) in
      if IsSpace c then lex s'
      else if bool_decide (c = "("%char) || bool_decide (c = ")"%char) then emit (mkToken (String c "") false) s'
      else if bool_decide (c = dquote) then
        match lex_quoted s' with
        | None => Some (Err InvalidArgument)
        | Some (b, rest) => emit (mkToken b true) rest
        end
      else if ContainsRune operator_first c then
        let '(a, rest) := span (ContainsRune operator_rest) s' in emit (mkToken (String c a) false) rest
      else let '(a, rest) := span word_byte s in emit (mkToken a false) rest
  end.

Fixpoint lex_loop (fuel : nat) (s : string) : option (res error (list qtoken)) :=
  match fuel with O => None | S fuel => lex_body (lex_loop fuel) s end.

Lemma lex_loop_S fuel s : lex_loop (S fuel) s = lex_body (lex_loop fuel) s.
Proof. done. Qed.

(** ** Restrictions *)

Definition ParseBool (s : string) : option bool :=
  if bool_decide (s ∈ ["1"; "t"; "T"; "TRUE"; "true"; "True"]) then Some true
  else if bool_decide (s ∈ ["0"; "f"; "F"; "FALSE"; "false"; "False"]) then Some false
  else None.

Definition leafMessage (md : MessageDescriptor) : bool :=
  bool_decide (md_name md = "google.protobuf.Duration") || bool_decide (md_name md = "google.protobuf.Timestamp").

Definition lookup_field (md : MessageDescriptor) (part : string) : option FieldDescriptor :=
  match find (λ fd, bool_decide (fd_name fd = part)) (md_fields md) with
  | Some fd => Some fd
  | None => find (λ fd, bool_decide (fd_json fd = part)) (md_fields md)
  end.

(** The loop of [queueFieldPath]: the fields above the last, and the last. *)
Fixpoint field_path (md : MessageDescriptor) (parts : list string) : option (list FieldDescriptor * FieldDescriptor) :=
  match parts with
  | [] => None
  | part :: rest =>
      match lookup_field md part with
      | None => None
      | Some fd =>
          if fd_repeated fd then None
          else match fd_kind fd with
          | KMessage md' =>
              if leafMessage md' then match rest with [] => Some ([], fd) | _ => None end
              else '(above, last) ← field_path md' rest; Some (fd :: above, last)
          | _ => match rest with [] => Some ([], fd) | _ => None end
          end
      end
  end.

Definition queueFieldPath (queue_desc : MessageDescriptor) (field : string) : option (list FieldDescriptor * FieldDescriptor) :=
  field_path queue_desc (Split field "."%char).

Inductive node :=
| NAnd (kids : list node)
| NOr (kids : list node)
| NNot (kid : node)
| NRestriction (above : list FieldDescriptor) (fd : FieldDescriptor) (cmp value : string).

Section filter.
Context `{Parsing} (queue_desc : MessageDescriptor).

Definition parseFilterSeconds (s : string) : option f64 := ParseFloat (TrimSuffix s "s").

(** Whether the restriction's field can hold its value. *)
Definition check (fd : FieldDescriptor) (cmp value : string) : bool :=
  if bool_decide (value = "*") then bool_decide (cmp = ":")
  else match fd_kind fd with
  | KEnum values =>
      bool_decide (cmp ∈ ["="; "!="; ":"]) &&
      match find (λ v, bool_decide (v.1 = value)) values with Some (_, n) => negb (n =? 0)%Z | None => false end
  | KMessage md => if bool_decide (md_name md = "google.protobuf.Duration")
                   then bool_decide (is_Some (parseFilterSeconds value)) else bool_decide (is_Some (ParseTime value))
  | KString => true
  | KBool => bool_decide (is_Some (ParseBool value))
  | KFloat | KUint | KInt => bool_decide (is_Some (ParseFloat value))
  end.

(** [compareFilter]; [c] is the order of the field's value and the filter's. *)
Definition compareFilter (c : Datatypes.comparison) (cmp : string) : bool :=
  if bool_decide (cmp = "=") || bool_decide (cmp = ":") then match c with Eq => true | _ => false end
  else if bool_decide (cmp = "<") then match c with Lt => true | _ => false end
  else if bool_decide (cmp = ">") then match c with Gt => true | _ => false end
  else if bool_decide (cmp = "<=") then match c with Gt => false | _ => true end
  else if bool_decide (cmp = ">=") then match c with Lt => false | _ => true end
  else false.

Definition compareFloat (got want : f64) (cmp : string) : bool :=
  compareFilter (if Float64.ltb got want then Lt else if Float64.ltb want got then Gt else Eq) cmp.

Definition billion : f64 := of_int 1000000000.

Definition matches (m : message) (fd : FieldDescriptor) (cmp value : string) : bool :=
  let v := Get m fd in
  match fd_kind fd with
  | KEnum values =>
      match find (λ x, bool_decide (x.2 = as_int v)) values with Some (n, _) => bool_decide (n = value) | None => false end
  | KString =>
      let s := match v with VString s => s | _ => "" end in
      if bool_decide (cmp = ":") then Contains (ToLower s) (ToLower value) else compareFilter (Compare s value) cmp
  | KBool =>
      let b := match v with VBool b => b | _ => false end in
      (bool_decide (cmp = "=") || bool_decide (cmp = ":")) && Bool.eqb b (default false (ParseBool value))
  | KMessage md =>
      let part n := of_int (match find_field (as_message v) n with Some x => as_int x | None => 0 end) in
      let secs := add (part "seconds") (div (part "nanos") billion) in
      let want := if bool_decide (md_name md = "google.protobuf.Duration")
                  then default (Fin 0 0) (parseFilterSeconds value)
                  else div (of_int (UnixNano (default zero (ParseTime value)))) billion in
      compareFloat secs want cmp
  | KFloat => compareFloat (match v with VFloat f => f | _ => Fin 0 0 end) (default (Fin 0 0) (ParseFloat value)) cmp
  | KUint | KInt => compareFloat (of_int (as_int v)) (default (Fin 0 0) (ParseFloat value)) cmp
  end.

Definition eval_restriction (m : message) (above : list FieldDescriptor) (fd : FieldDescriptor) (cmp value : string) : bool :=
  let m := fold_left (λ m fd, as_message (Get m fd)) above m in
  if bool_decide (value = "*") then Has m fd
  else if bool_decide (cmp = "!=") then negb (matches m fd "=" value)
  else matches m fd cmp value.

Fixpoint eval (n : node) (m : message) : bool :=
  match n with
  | NAnd kids => forallb (λ k, eval k m) kids
  | NOr kids => existsb (λ k, eval k m) kids
  | NNot k => negb (eval k m)
  | NRestriction above fd cmp value => eval_restriction m above fd cmp value
  end.

(** ** Parsing: the state is the tokens from the position on *)

Definition word (toks : list qtoken) (w : string) : bool :=
  match toks with t :: _ => negb (quoted t) && bool_decide (text t = w) | [] => false end.

Definition comparisons : list string := ["="; "!="; "<"; ">"; "<="; ">="; ":"].
Definition regexes : list string := ["=~"; "!~"; "~"].

(** A value is any token but an unquoted parenthesis. *)
Definition is_value (t : qtoken) : bool :=
  quoted t || negb (bool_decide (text t = "(") || bool_decide (text t = ")")).

Definition restriction (field : string) (toks : list qtoken) : res error (node * list qtoken) :=
  match toks with
  | [] => Err InvalidArgument
  | o :: toks =>
      if quoted o then Err InvalidArgument
      else if bool_decide (text o ∈ regexes) then Err Unimplemented
      else if negb (bool_decide (text o ∈ comparisons)) then Err InvalidArgument
      else match toks with
      | [] => Err InvalidArgument
      | v :: toks =>
          if negb (is_value v) then Err InvalidArgument
          else match queueFieldPath queue_desc field with
          | None => Err InvalidArgument
          | Some (above, fd) =>
              if check fd (text o) (text v) then Ok (NRestriction above fd (text o) (text v), toks)
              else Err InvalidArgument
          end
      end
  end.

(** A "-" in front of more text. *)
Definition negation (s : string) : option string :=
  match s with String "-" (String _ _ as r) => Some r | _ => None end.

(** An answer of the parser; [None] is out of fuel. *)
Abbreviation answer A := (option (res error (A * list qtoken))).

(** The bodies of [p.and] (which returns the kids of its node), [p.or] and
    [p.unary], over the parsers they call. *)
Definition and_body (por pand : list qtoken → answer (list node)) (toks : list qtoken) : answer (list node) :=
  if match toks with [] => true | _ => word toks ")" end then Some (Ok ([], toks))
  else if word toks "AND" then pand (tail toks)
  else match por toks with
       | None => None
       | Some (Err e) => Some (Err e)
       | Some (Ok (ks, toks)) => option_map (λ r, '(rest, toks) ← r; Ok (NOr ks :: rest, toks)) (pand toks)
       end.

Definition or_body (punary : list qtoken → answer node) (por : list qtoken → answer (list node)) (toks : list qtoken)
    : answer (list node) :=
  match punary toks with
  | None => None
  | Some (Err e) => Some (Err e)
  | Some (Ok (k, toks)) =>
      if word toks "OR" then option_map (λ r, '(rest, toks) ← r; Ok (k :: rest, toks)) (por (tail toks))
      else Some (Ok ([k], toks))
  end.

Definition unary_body (punary : list qtoken → answer node) (pand : list qtoken → answer (list node)) (toks : list qtoken)
    : answer node :=
  match toks with
  | [] => Some (Err InvalidArgument)
  | t :: rest =>
      let negated toks := option_map (λ r, '(k, toks) ← r; Ok (NNot k, toks)) (punary toks) in
      if negb (quoted t) && bool_decide (text t = "NOT") then negated rest
      else match (if quoted t then None else negation (text t)) with
      | Some r => negated (mkToken r false :: rest)
      | None =>
          if negb (quoted t) && bool_decide (text t = "(") then
            match pand rest with
            | None => None
            | Some (Err e) => Some (Err e)
            | Some (Ok ([], _)) => Some (Err InvalidArgument)
            | Some (Ok (ks, toks)) => Some (if word toks ")" then Ok (NAnd ks, tail toks) else Err InvalidArgument)
            end
          else Some (restriction (text t) rest)
      end
  end.

Fixpoint p_and (fuel : nat) (toks : list qtoken) : answer (list node) :=
  match fuel with O => None | S fuel => and_body (p_or fuel) (p_and fuel) toks end
with p_or (fuel : nat) (toks : list qtoken) : answer (list node) :=
  match fuel with O => None | S fuel => or_body (p_unary fuel) (p_or fuel) toks end
with p_unary (fuel : nat) (toks : list qtoken) : answer node :=
  match fuel with O => None | S fuel => unary_body (p_unary fuel) (p_and fuel) toks end.

Lemma p_and_S fuel toks : p_and (S fuel) toks = and_body (p_or fuel) (p_and fuel) toks.
Proof. done. Qed.
Lemma p_or_S fuel toks : p_or (S fuel) toks = or_body (p_unary fuel) (p_or fuel) toks.
Proof. done. Qed.
Lemma p_unary_S fuel toks : p_unary (S fuel) toks = unary_body (p_unary fuel) (p_and fuel) toks.
Proof. done. Qed.

(** What the remaining input can still cost. *)
Definition weight (toks : list qtoken) : nat := list_sum ((λ t, 1 + String.length (text t))%nat <$> toks).

Definition ErrFuel : error := Sentinel "out of fuel".

(** [queueFilter]: the compiled predicate. *)
Definition queueFilter (filter : string) : res error (message → bool) :=
  if bool_decide (TrimSpace filter = "") then Ok (λ _, true)
  else
    toks ← default (Err ErrFuel) (lex_loop (S (String.length filter)) filter);
    '(ks, rest) ← default (Err ErrFuel) (p_and (3 * weight toks + 3) toks);
    match ks, rest with
    | [], _ => Err InvalidArgument
    | _, [] => Ok (λ m, eval (NAnd ks) m)
    | _, _ => Err InvalidArgument
    end.

End filter.

(** ** Termination *)

(** A step of the lexer consumes what it reads. *)
Lemma lex_quoted_length s b r : lex_quoted s = Some (b, r) → (String.length r < String.length s)%nat.
Proof.
  revert s b r. fix IH 1. intros [|c s] b r; cbn; [done|].
  case_bool_decide; [intros [= <- <-]; lia|]. case_bool_decide.
  - destruct s as [|d s]; [done|]. destruct (lex_quoted s) as [[b' r']|] eqn:E; [|done]. intros [= <- <-].
    apply IH in E. cbn. lia.
  - destruct (lex_quoted s) as [[b' r']|] eqn:E; [|done]. intros [= <- <-]. apply IH in E. lia.
Qed.

Lemma lex_loop_total fuel s :
  (String.length s < fuel)%nat →
  ∃ r, lex_loop fuel s = Some r ∧ match r with Ok _ => True | Err e => e = InvalidArgument end.
Proof.
  revert s. induction fuel as [|fuel IH]; intros s Hs; [lia|]. rewrite lex_loop_S. unfold lex_body.
  assert (∀ tok rest, (String.length rest < String.length s)%nat →
    ∃ r, option_map (λ r, toks ← r; Ok (tok :: toks)) (lex_loop fuel rest) = Some r ∧
         match r with Ok _ => True | Err e => e = InvalidArgument end) as Hemit.
  { intros tok rest Hr. destruct (IH rest) as (r & -> & Hr'); [lia|]. cbn. eexists. split; [done|]. by destruct r. }
  destruct s as [|c s]; [by eexists|]. cbn in Hs.
  destruct (IsSpace c) eqn:Hsp; [apply IH; lia|].
  destruct (_ || _) eqn:Hpar; [apply Hemit; cbn; lia|].
  destruct (bool_decide (c = dquote)) eqn:Hdq.
  { destruct (lex_quoted s) as [[b rest]|] eqn:Hq; [|by eexists]. apply lex_quoted_length in Hq. apply Hemit. cbn. lia. }
  destruct (ContainsRune operator_first c) eqn:Hop.
  - destruct (span _ s) as [a rest] eqn:Hspan. apply span_length in Hspan. apply Hemit. cbn. lia.
  - destruct (span word_byte (String c s)) as [a rest] eqn:Hspan. apply Hemit.
    assert (word_byte c = true) as Hw.
    { apply orb_false_iff in Hpar as [H1 H2]. unfold word_byte. by rewrite Hsp, H1, H2, Hop, Hdq. }
    cbn [span] in Hspan. rewrite Hw in Hspan. destruct (span word_byte s) as [x y] eqn:Hx. injection Hspan as <- <-.
    apply span_length in Hx. cbn. lia.
Qed.

Section total.
Context `{Parsing} (queue_desc : MessageDescriptor).

(** A refusal is INVALID_ARGUMENT or UNIMPLEMENTED. *)
Definition refusal (e : error) : Prop := e = InvalidArgument ∨ e = Unimplemented.

(** The parser answered: a refusal, or something parsed and less input. *)
Definition answered {A} (bound : nat) (r : option (res error (A * list qtoken))) : Prop :=
  match r with
  | None => False
  | Some (Err e) => refusal e
  | Some (Ok (_, toks)) => (weight toks < bound)%nat
  end.

Lemma weight_cons t toks : weight (t :: toks) = (1 + String.length (text t) + weight toks)%nat.
Proof. done. Qed.

Lemma restriction_answered field toks bound :
  (weight toks < bound)%nat → answered bound (Some (restriction queue_desc field toks)).
Proof.
  intros Hb. unfold restriction, answered, refusal. destruct toks as [|o toks]; [by left|]. rewrite weight_cons in Hb.
  destruct (quoted o); [by left|]. case_bool_decide; [by right|]. destruct (negb _); [by left|].
  destruct toks as [|v toks]; [by left|]. rewrite weight_cons in Hb. destruct (negb _); [by left|].
  destruct (queueFieldPath _ _) as [[above fd]|]; [|by left]. destruct (check _ _ _); [lia|by left].
Qed.

Lemma answered_mono {A} bound bound' (r : option (res error (A * list qtoken))) :
  answered bound r → (bound ≤ bound')%nat → answered bound' r.
Proof. destruct r as [[[a toks]|e]|]; cbn; [lia|done|done]. Qed.

Lemma answered_map {A B} bound bound' (f : A → B) (r : option (res error (A * list qtoken))) :
  answered bound r → (bound ≤ bound')%nat →
  answered bound' (option_map (λ r, '(a, toks) ← r; Ok (f a, toks)) r).
Proof. destruct r as [[[a toks]|e]|]; cbn; [lia|done|done]. Qed.

Lemma negation_length s r : negation s = Some r → (String.length r < String.length s)%nat.
Proof. unfold negation. repeat case_match; intros [= <-]; cbn; lia. Qed.

(** Enough fuel for each: three calls a token and character. *)
Lemma parser_answers fuel :
  (∀ toks, (3 * weight toks + 3 ≤ fuel)%nat → answered (S (weight toks)) (p_and queue_desc fuel toks)) ∧
  (∀ toks, (3 * weight toks + 2 ≤ fuel)%nat → answered (weight toks) (p_or queue_desc fuel toks)) ∧
  (∀ toks, (3 * weight toks + 1 ≤ fuel)%nat → answered (weight toks) (p_unary queue_desc fuel toks)).
Proof.
  induction fuel as [|fuel (IHand & IHor & IHun)]; [repeat split; intros; lia|]. split; [|split]; intros toks Hf;
    [rewrite p_and_S; unfold and_body|rewrite p_or_S; unfold or_body|rewrite p_unary_S; unfold unary_body].
  - destruct toks as [|t toks]; [by apply Nat.lt_succ_diag_r|]. destruct (word (t :: toks) ")"); [by apply Nat.lt_succ_diag_r|].
    destruct (word (t :: toks) "AND").
    + cbn [tail]. rewrite weight_cons in Hf. eapply answered_mono; [apply IHand|rewrite weight_cons]; lia.
    + specialize (IHor (t :: toks) ltac:(lia)). destruct (p_or _ _ _) as [[[ks toks']|e]|]; [|done|done]. unfold answered in IHor.
      specialize (IHand toks' ltac:(lia)). by eapply answered_map; [exact IHand|lia].
  - specialize (IHun toks ltac:(lia)). destruct (p_unary _ _ _) as [[[k toks']|e]|]; [|done|done]. unfold answered in IHun.
    destruct (word toks' "OR") eqn:Hw; [|done]. destruct toks' as [|t toks']; [done|]. cbn [tail]. rewrite weight_cons in IHun.
    eapply answered_map; [apply IHor|]; lia.
  - destruct toks as [|t toks]; [by left|]. rewrite weight_cons in Hf.
    destruct (negb (quoted t) && bool_decide (text t = "NOT")).
    { eapply answered_map; [apply IHun; lia|]. rewrite weight_cons. lia. }
    destruct (if quoted t then None else negation (text t)) as [r|] eqn:Hneg.
    { destruct (quoted t); [done|]. apply negation_length in Hneg.
      eapply answered_map; [apply IHun; rewrite weight_cons; cbn; lia|]. rewrite !weight_cons. cbn. lia. }
    destruct (negb (quoted t) && bool_decide (text t = "(")).
    + specialize (IHand toks ltac:(lia)). destruct (p_and _ _ _) as [[[ks toks']|e]|]; [|done|done].
      destruct ks as [|k ks]; [by left|]. unfold answered in IHand.
      destruct (word toks' ")") eqn:Hw; [|by left]. destruct toks' as [|t' toks']; [done|]. unfold answered. cbn [tail]. rewrite weight_cons in IHand |- *. lia.
    + apply restriction_answered. rewrite weight_cons. lia.
Qed.

(** Every filter compiles or is refused, with INVALID_ARGUMENT or, for a
    regular expression, UNIMPLEMENTED: the lexer and the parser end on every
    input. *)
Theorem filter_decides filter :
  match queueFilter queue_desc filter with Ok _ => True | Err e => refusal e end.
Proof.
  unfold queueFilter. case_bool_decide; [done|].
  destruct (lex_loop_total (S (String.length filter)) filter) as (r & -> & Hr); [lia|].
  destruct r as [toks|e]; cbn; [|by left].
  destruct (parser_answers (3 * weight toks + 3)) as (Hand & _ & _). specialize (Hand toks ltac:(lia)).
  destruct (p_and _ _ _) as [[[ks rest]|e]|]; cbn; [|done|done]. destruct ks, rest; try done; by left.
Qed.

End total.

(** ** Meaning: filters as they are written *)

Inductive expr :=
| ERestriction (field op value : string) (q : bool)   (** [q]: the value is quoted *)
| ENot (e : expr)
| EAnd (a b : expr)
| EOr (a b : expr).

Abbreviation bare w := (mkToken w false).

(** The tokens of an expression: a compound one is in parentheses. *)
Fixpoint print (e : expr) : list qtoken :=
  match e with
  | ERestriction f o v q => [bare f; bare o; mkToken v q]
  | ENot e => bare "NOT" :: print e
  | EAnd a b => bare "(" :: print a ++ bare "AND" :: print b ++ [bare ")"]
  | EOr a b => bare "(" :: print a ++ bare "OR" :: print b ++ [bare ")"]
  end.

(** A clause is alternatives joined by OR, a filter clauses joined by AND, with no
    parentheses between them. *)
Fixpoint print_clause (e : expr) (es : list expr) : list qtoken :=
  match es with [] => print e | e' :: es => print e ++ bare "OR" :: print_clause e' es end.

Fixpoint print_filter (cs : list (expr * list expr)) : list qtoken :=
  match cs with
  | [] => []
  | [c] => print_clause c.1 c.2
  | c :: cs => print_clause c.1 c.2 ++ bare "AND" :: print_filter cs
  end.

(** A word: one unquoted token of the lexer. *)
Definition is_word (s : string) : bool := negb (bool_decide (s = "")) && AllBytes word_byte s.

(** A field name that is not read as something else. *)
Definition field_word (s : string) : bool :=
  is_word s && negb (bool_decide (s ∈ ["NOT"; "AND"])) && match negation s with Some _ => false | None => true end.

(** Tokens written out, each followed by a space. *)
Definition show_token (t : qtoken) : string :=
  if quoted t then String dquote (escape (text t) +:+ String dquote "") else text t.

Fixpoint show (toks : list qtoken) : string :=
  match toks with [] => "" | t :: toks => show_token t +:+ String " " (show toks) end.

Definition tok_ok (t : qtoken) : bool :=
  quoted t || bool_decide (text t ∈ ["("; ")"]) || bool_decide (text t ∈ comparisons) || is_word (text t).

Lemma lex_quoted_escape s r : lex_quoted (escape s +:+ String dquote r) = Some (s, r).
Proof.
  induction s as [|c s IH]; [done|]. cbn [escape].
  destruct (bool_decide (c = dquote) || bool_decide (c = backslash)) eqn:Hc; rewrite !app_cons; cbn [lex_quoted].
  - by rewrite IH.
  - apply orb_false_iff in Hc as [-> ->]. by rewrite IH.
Qed.

(** One token, with the space after it. *)
Lemma lex_token fuel t s :
  tok_ok t = true →
  lex_loop (S (S fuel)) (show_token t +:+ String " " s) = option_map (λ r, toks ← r; Ok (t :: toks)) (lex_loop fuel s).
Proof.
  destruct t as [w q]. unfold tok_ok, show_token. cbn [text quoted]. destruct q; cbn [orb].
  { intros _. rewrite app_cons, app_assoc, app_cons. change ("" +:+ String " " s) with (String " " s).
    rewrite lex_loop_S. unfold lex_body. cbn [IsSpace]. rewrite lex_quoted_escape. done. }
  intros [[H|H]%orb_true_iff|H]%orb_true_iff.
  - apply bool_decide_eq_true in H. repeat (apply elem_of_cons in H as [->|H]; [done|]). by apply not_elem_of_nil in H.
  - apply bool_decide_eq_true in H. repeat (apply elem_of_cons in H as [->|H]; [done|]). by apply not_elem_of_nil in H.
  - apply andb_true_iff in H as [Hne Hw]. destruct w as [|c w]; [done|]. pose proof Hw as Hc. cbn in Hc.
    apply andb_true_iff in Hc as [Hc _]. pose proof (span_all word_byte (String c w) " "%char s Hw eq_refl) as Hspan.
    unfold word_byte in Hc. repeat rewrite andb_true_iff in Hc. rewrite !negb_true_iff in Hc. destruct Hc as ((((H1 & H2) & H3) & H4) & H5).
    rewrite app_cons in Hspan |- *. rewrite lex_loop_S. unfold lex_body. by rewrite H1, H2, H3, H4, H5, Hspan.
Qed.

Lemma show_token_length t : tok_ok t = true → (1 ≤ String.length (show_token t))%nat.
Proof.
  destruct t as [w q]. unfold tok_ok, show_token. cbn [text quoted]. destruct q; cbn; [lia|]. destruct w; [done|]. cbn. lia.
Qed.

Lemma lex_show toks fuel :
  forallb tok_ok toks = true → (String.length (show toks) < fuel)%nat → lex_loop fuel (show toks) = Some (Ok toks).
Proof.
  revert fuel. induction toks as [|t toks IH]; intros fuel; [destruct fuel; [cbn; lia|done]|].
  cbn [forallb show]. intros [Ht Htoks]%andb_true_iff Hf. pose proof (show_token_length t Ht).
  rewrite length_app_string in Hf. cbn [String.length] in Hf. destruct fuel as [|[|fuel]]; [lia|lia|].
  rewrite lex_token by done. rewrite IH; [done|done|lia].
Qed.

Lemma show_nonempty t toks : tok_ok t = true → TrimSpace (show (t :: toks)) ≠ "".
Proof.
  destruct t as [w q]. unfold tok_ok, show, show_token. cbn [text quoted]. destruct q; cbn [orb].
  { intros _. rewrite app_cons. by apply TrimSpace_nonempty. }
  intros [[H|H]%orb_true_iff|H]%orb_true_iff.
  - apply bool_decide_eq_true in H. repeat (apply elem_of_cons in H as [->|H]; [rewrite app_cons; by apply TrimSpace_nonempty|]).
    by apply not_elem_of_nil in H.
  - apply bool_decide_eq_true in H. repeat (apply elem_of_cons in H as [->|H]; [rewrite app_cons; by apply TrimSpace_nonempty|]).
    by apply not_elem_of_nil in H.
  - apply andb_true_iff in H as [Hne Hw]. destruct w as [|c w]; [done|]. rewrite app_cons. apply TrimSpace_nonempty.
    cbn in Hw. apply andb_true_iff in Hw as [Hc _]. unfold word_byte in Hc. repeat rewrite andb_true_iff in Hc.
    destruct Hc as ((((H1 & _) & _) & _) & _). apply negb_true_iff in H1. unfold IsSpace in H1. unfold is_space.
    cbv zeta in *. repeat rewrite orb_false_iff in H1. destruct H1 as (((-> & ->) & _) & _). done.
Qed.

Section meaning.
Context `{Parsing} (queue_desc : MessageDescriptor).

Fixpoint wf (e : expr) : bool :=
  match e with
  | ERestriction f o v q =>
      field_word f && bool_decide (o ∈ comparisons) && (q || is_word v) &&
      match queueFieldPath queue_desc f with Some (_, fd) => check fd o v | None => false end
  | ENot e => wf e
  | EAnd a b | EOr a b => wf a && wf b
  end.

Fixpoint sem (e : expr) (m : message) : bool :=
  match e with
  | ERestriction f o v _ =>
      match queueFieldPath queue_desc f with Some (above, fd) => eval_restriction m above fd o v | None => false end
  | ENot e => negb (sem e m)
  | EAnd a b => sem a m && sem b m
  | EOr a b => sem a m || sem b m
  end.

Abbreviation p_and := (TasksFilter.p_and queue_desc).
Abbreviation p_or := (TasksFilter.p_or queue_desc).
Abbreviation p_unary := (TasksFilter.p_unary queue_desc).

Lemma weight_app a b : weight (a ++ b) = (weight a + weight b)%nat.
Proof. unfold weight. by rewrite fmap_app, list_sum_app. Qed.

(** An expression does not begin like the end of a list of clauses. *)
Lemma print_starts e rest :
  wf e = true → ∃ t toks, print e ++ rest = t :: toks ∧ word (t :: toks) ")" = false ∧ word (t :: toks) "AND" = false.
Proof.
  destruct e as [f o v q|e|a b|a b]; intros Hwf; (eexists _, _; split; [done|]); [|done..].
  cbn [wf] in Hwf. do 3 apply andb_true_iff in Hwf as [Hwf _].
  split; cbn; apply bool_decide_eq_false; intros ->; by vm_compute in Hwf.
Qed.

(** [n] stands for [e]. *)
Definition stands (n : node) (e : expr) : Prop := ∀ m, eval n m = sem e m.

Lemma p_or_one fuel e n rest :
  p_unary fuel (print e ++ rest) = Some (Ok (n, rest)) → word rest "OR" = false →
  p_or (S fuel) (print e ++ rest) = Some (Ok ([n], rest)).
Proof. intros Hu Hw. rewrite p_or_S. unfold or_body. by rewrite Hu, Hw. Qed.

Lemma p_or_more fuel e n rest r :
  p_unary fuel (print e ++ bare "OR" :: rest) = Some (Ok (n, bare "OR" :: rest)) → p_or fuel rest = Some (Ok r) →
  p_or (S fuel) (print e ++ bare "OR" :: rest) = Some (Ok (n :: r.1, r.2)).
Proof. intros Hu Hr. rewrite p_or_S. unfold or_body. rewrite Hu. cbn. rewrite Hr. by destruct r. Qed.

Lemma p_and_end fuel rest : word rest ")" = true ∨ rest = [] → p_and (S fuel) rest = Some (Ok ([], rest)).
Proof. rewrite p_and_S. unfold and_body. intros [Hw| ->]; [|done]. destruct rest; [done|]. by rewrite Hw. Qed.

Lemma p_and_word fuel rest : p_and (S fuel) (bare "AND" :: rest) = p_and fuel rest.
Proof. by rewrite p_and_S. Qed.

Lemma p_and_clause fuel t toks ks rest ks' rest' :
  word (t :: toks) ")" = false → word (t :: toks) "AND" = false →
  p_or fuel (t :: toks) = Some (Ok (ks, rest)) → p_and fuel rest = Some (Ok (ks', rest')) →
  p_and (S fuel) (t :: toks) = Some (Ok (NOr ks :: ks', rest')).
Proof. intros H1 H2 Ho Ha. rewrite p_and_S. unfold and_body. by rewrite H1, H2, Ho, Ha. Qed.

Lemma p_unary_paren fuel toks k ks rest :
  p_and fuel toks = Some (Ok (k :: ks, bare ")" :: rest)) →
  p_unary (S fuel) (bare "(" :: toks) = Some (Ok (NAnd (k :: ks), rest)).
Proof. intros Ha. rewrite p_unary_S. unfold unary_body. cbn. by rewrite Ha. Qed.

Lemma is_word_paren w s : is_word s = true → w ∈ ["("; ")"; ""] → s ≠ w.
Proof. intros Hs Hw ->. repeat (apply elem_of_cons in Hw as [->|Hw]; [by vm_compute in Hs|]). by apply not_elem_of_nil in Hw. Qed.

Lemma comparison_not_regex o : o ∈ comparisons → bool_decide (o ∈ regexes) = false.
Proof. intros Ho. repeat (apply elem_of_cons in Ho as [->|Ho]; [by vm_compute|]). by apply not_elem_of_nil in Ho. Qed.

Lemma restriction_parses f o v q fuel rest above fd :
  wf (ERestriction f o v q) = true → queueFieldPath queue_desc f = Some (above, fd) →
  p_unary (S fuel) (print (ERestriction f o v q) ++ rest) = Some (Ok (NRestriction above fd o v, rest)).
Proof.
  cbn [wf]. intros Hwf Hpath. rewrite Hpath in Hwf. apply andb_true_iff in Hwf as [Hwf Hcheck].
  apply andb_true_iff in Hwf as [Hwf Hv]. apply andb_true_iff in Hwf as [Hf Ho]. apply bool_decide_eq_true in Ho.
  unfold field_word in Hf. apply andb_true_iff in Hf as [Hf Hneg]. apply andb_true_iff in Hf as [Hw Hnot].
  apply negb_true_iff, bool_decide_eq_false in Hnot.
  rewrite p_unary_S. unfold unary_body. cbn [print app text quoted negb andb].
  rewrite (bool_decide_false (f = "NOT")) by set_solver. destruct (negation f); [done|].
  rewrite (bool_decide_false (f = "(")) by (apply is_word_paren; [done|set_solver]).
  unfold restriction. cbn [text quoted]. rewrite comparison_not_regex, (bool_decide_true (o ∈ comparisons)) by done. cbn [negb].
  assert (is_value (mkToken v q) = true) as ->; [|cbn [negb text]; by rewrite Hpath, Hcheck].
  unfold is_value. cbn. destruct q; [done|]. cbn in Hv.
  rewrite !bool_decide_false by (apply is_word_paren; [done|set_solver]). done.
Qed.

(** An expression parses to its meaning, whatever follows it. *)
Lemma print_parses e :
  wf e = true → ∃ n, stands n e ∧
    ∀ fuel rest, (3 * weight (print e) + 1 ≤ fuel)%nat → p_unary fuel (print e ++ rest) = Some (Ok (n, rest)).
Proof.
  induction e as [f o v q|e IH|a IHa b IHb|a IHa b IHb]; intros Hwf.
  - destruct (queueFieldPath queue_desc f) as [[above fd]|] eqn:Hpath.
    2: { cbn [wf] in Hwf. rewrite Hpath in Hwf. by rewrite andb_false_r in Hwf. }
    exists (NRestriction above fd o v). split; [intros m; cbn; by rewrite Hpath|].
    intros [|fuel] rest Hf; [lia|]. by apply restriction_parses.
  - destruct (IH Hwf) as (n & Hn & Hp). exists (NNot n). split; [intros m; cbn; by rewrite Hn|].
    intros [|fuel] rest Hf; [lia|]. cbn [print] in Hf. rewrite weight_cons in Hf. rewrite p_unary_S. cbn. rewrite Hp by lia. done.
  - cbn [wf] in Hwf. apply andb_true_iff in Hwf as [Ha Hb]. destruct (IHa Ha) as (na & Hna & Hpa), (IHb Hb) as (nb & Hnb & Hpb).
    exists (NAnd [NOr [na]; NOr [nb]]). split; [intros m; cbn; by rewrite Hna, Hnb, !orb_false_r, andb_true_r|].
    intros fuel rest Hf. cbn [print] in Hf |- *. rewrite weight_cons, weight_app, weight_cons, weight_app, weight_cons in Hf. cbn in Hf.
    destruct fuel as [|[|[|[|[|fuel]]]]]; try lia.
    rewrite <- app_comm_cons, <- (assoc_L (++)), <- app_comm_cons, <- (assoc_L (++)). cbn [app].
    apply p_unary_paren. destruct (print_starts a (bare "AND" :: print b ++ bare ")" :: rest) Ha) as (t & toks & Ht & H1 & H2).
    rewrite Ht. eapply p_and_clause; [done|done|rewrite <- Ht; apply p_or_one; [apply Hpa; lia|done]|].
    rewrite p_and_word. destruct (print_starts b (bare ")" :: rest) Hb) as (t' & toks' & Ht' & H1' & H2').
    rewrite Ht'. eapply p_and_clause; [done|done|rewrite <- Ht'; apply p_or_one; [apply Hpb; lia|done]|apply p_and_end; by left].
  - cbn [wf] in Hwf. apply andb_true_iff in Hwf as [Ha Hb]. destruct (IHa Ha) as (na & Hna & Hpa), (IHb Hb) as (nb & Hnb & Hpb).
    exists (NAnd [NOr [na; nb]]). split; [intros m; cbn; by rewrite Hna, Hnb, orb_false_r, andb_true_r|].
    intros fuel rest Hf. cbn [print] in Hf |- *. rewrite weight_cons, weight_app, weight_cons, weight_app, weight_cons in Hf. cbn in Hf.
    destruct fuel as [|[|[|[|fuel]]]]; try lia.
    rewrite <- app_comm_cons, <- (assoc_L (++)), <- app_comm_cons, <- (assoc_L (++)). cbn [app].
    apply p_unary_paren. destruct (print_starts a (bare "OR" :: print b ++ bare ")" :: rest) Ha) as (t & toks & Ht & H1 & H2).
    rewrite Ht. eapply p_and_clause; [done|done| |].
    + rewrite <- Ht. apply (p_or_more _ _ _ _ ([nb], bare ")" :: rest)); [apply Hpa; lia|].
      apply p_or_one; [apply Hpb; lia|done].
    + apply p_and_end. by left.
Qed.

(** The meaning of a clause and of a filter. *)
Definition clause_wf (c : expr * list expr) : bool := wf c.1 && forallb wf c.2.
Definition sem_clause (c : expr * list expr) (m : message) : bool := sem c.1 m || existsb (λ e, sem e m) c.2.

Lemma clause_parses e es :
  clause_wf (e, es) = true → ∃ ns, (∀ m, existsb (λ n, eval n m) ns = sem_clause (e, es) m) ∧
    ∀ fuel rest, word rest "OR" = false → (3 * weight (print_clause e es) + 2 ≤ fuel)%nat →
      p_or fuel (print_clause e es ++ rest) = Some (Ok (ns, rest)).
Proof.
  revert e. induction es as [|e' es IH]; intros e [He Hes]%andb_true_iff; cbn [fst snd] in *;
    destruct (print_parses e He) as (n & Hn & Hp).
  - exists [n]. split; [intros m; unfold sem_clause; cbn; by rewrite Hn|]. intros [|fuel] rest Hw Hf; cbn [print_clause] in *; [lia|].
    apply p_or_one; [apply Hp; lia|done].
  - destruct (IH e') as (ns & Hns & Hps); [done|]. exists (n :: ns).
    split; [intros m; cbn; rewrite Hn, Hns; done|]. intros [|fuel] rest Hw Hf; cbn [print_clause] in *; [lia|].
    rewrite weight_app, weight_cons in Hf. cbn in Hf. rewrite <- (assoc_L (++)), <- app_comm_cons.
    apply (p_or_more _ _ _ _ (ns, rest)); [apply Hp; lia|apply Hps; [done|lia]].
Qed.

Lemma clause_starts c rest :
  clause_wf c = true →
  ∃ t toks, print_clause c.1 c.2 ++ rest = t :: toks ∧ word (t :: toks) ")" = false ∧ word (t :: toks) "AND" = false.
Proof.
  destruct c as [e [|e' es]]; intros [He _]%andb_true_iff; cbn [print_clause fst snd]; [by apply print_starts|].
  rewrite <- (assoc_L (++)). by apply print_starts.
Qed.

Lemma filter_parses cs :
  forallb clause_wf cs = true → ∃ ks, length ks = length cs ∧ (∀ m, eval (NAnd ks) m = forallb (λ c, sem_clause c m) cs) ∧
    ∀ fuel, (3 * weight (print_filter cs) + 3 ≤ fuel)%nat → p_and fuel (print_filter cs) = Some (Ok (ks, [])).
Proof.
  induction cs as [|c cs IH]; cbn [forallb].
  { intros _. exists []. split_and!; [done|done|]. intros [|fuel] Hf; [lia|]. apply p_and_end. by right. }
  intros [Hc Hcs]%andb_true_iff. destruct (IH Hcs) as (ks & Hlen & Hks & Hps). destruct c as [e es].
  destruct (clause_parses e es Hc) as (ns & Hns & Hp). exists (NOr ns :: ks).
  split_and!; [cbn; congruence|intros m; cbn; rewrite Hns; f_equal; apply Hks|]. intros [|fuel] Hf; [lia|].
  destruct (clause_starts (e, es) (match cs with [] => [] | _ => bare "AND" :: print_filter cs end) Hc) as (t & toks & Ht & H1 & H2).
  cbn [fst snd] in Ht. destruct cs as [|c' cs].
  - rewrite List.app_nil_r in Ht. cbn [print_filter fst snd] in *. rewrite Ht in Hf |- *.
    eapply p_and_clause; [done|done| |].
    + rewrite <- Ht. rewrite <- (List.app_nil_r (print_clause e es)). apply Hp; [done|]. rewrite Ht. lia.
    + destruct ks; [|done]. destruct fuel; [lia|]. apply p_and_end. by right.
  - change (print_filter ((e, es) :: c' :: cs)) with (print_clause e es ++ bare "AND" :: print_filter (c' :: cs)) in *.
    rewrite weight_app, weight_cons in Hf. cbn [text String.length] in Hf. rewrite Ht.
    eapply p_and_clause; [done|done|rewrite <- Ht; apply Hp; [done|lia]|].
    destruct fuel as [|fuel]; [lia|]. rewrite p_and_word. apply Hps. lia.
Qed.

Lemma print_tok_ok e : wf e = true → forallb tok_ok (print e) = true.
Proof.
  induction e as [f o v q|e IH|a IHa b IHb|a IHa b IHb]; cbn [wf print]; intros Hwf.
  - apply andb_true_iff in Hwf as [Hwf _]. apply andb_true_iff in Hwf as [Hwf Hv]. apply andb_true_iff in Hwf as [Hf Ho].
    unfold field_word in Hf. apply andb_true_iff in Hf as [Hf _]. apply andb_true_iff in Hf as [Hf _].
    cbn. unfold tok_ok. cbn. rewrite Hf, Ho, !orb_true_r. cbn. destruct q; [done|]. cbn in Hv |- *. by rewrite Hv, !orb_true_r.
  - cbn. by apply IH.
  - apply andb_true_iff in Hwf as [Ha Hb]. cbn. rewrite !forallb_app. cbn. by rewrite IHa, forallb_app, IHb.
  - apply andb_true_iff in Hwf as [Ha Hb]. cbn. rewrite !forallb_app. cbn. by rewrite IHa, forallb_app, IHb.
Qed.

Lemma clause_tok_ok e es : clause_wf (e, es) = true → forallb tok_ok (print_clause e es) = true.
Proof.
  revert e. induction es as [|e' es IH]; intros e [He Hes]%andb_true_iff; cbn [print_clause fst snd] in *; [by apply print_tok_ok|].
  rewrite forallb_app, print_tok_ok by done. cbn. by apply IH.
Qed.

Lemma filter_tok_ok cs : forallb clause_wf cs = true → forallb tok_ok (print_filter cs) = true.
Proof.
  induction cs as [|[e es] cs IH]; [done|]. cbn [forallb]. intros [Hc Hcs]%andb_true_iff.
  destruct cs as [|c cs]; [by apply clause_tok_ok|].
  change (print_filter ((e, es) :: c :: cs)) with (print_clause e es ++ bare "AND" :: print_filter (c :: cs)).
  rewrite forallb_app, clause_tok_ok by done. cbn. by apply IH.
Qed.

(** A filter means what it says.  Written out as text, a conjunction of
    clauses, each a disjunction of restrictions, negations and parenthesised
    expressions, compiles, and the compiled predicate holds of a message exactly
    when every clause has an alternative that holds: OR binds tighter than AND. *)
Theorem filter_meaning cs :
  cs ≠ [] → forallb clause_wf cs = true →
  ∃ keep, queueFilter queue_desc (show (print_filter cs)) = Ok keep ∧ ∀ m, keep m = forallb (λ c, sem_clause c m) cs.
Proof.
  intros Hne Hwf. destruct (filter_parses cs Hwf) as (ks & Hlen & Hks & Hp). pose proof (filter_tok_ok cs Hwf) as Hok.
  exists (λ m, eval (NAnd ks) m). split; [|done]. unfold queueFilter.
  rewrite bool_decide_false.
  2: { destruct (print_filter cs) as [|t toks] eqn:Hpf; [|apply andb_true_iff in Hok as [Ht _]; by apply show_nonempty].
       exfalso. specialize (Hp 3%nat). rewrite p_and_end in Hp by by right.
       destruct ks; [by destruct cs|]. specialize (Hp ltac:(cbn; lia)). congruence. }
  rewrite lex_show by (done || lia). cbn -[Nat.mul Nat.add weight TasksFilter.p_and eval print_filter]. rewrite Hp by lia. cbn -[eval].
  destruct ks; [by destruct cs|done].
Qed.

End meaning.

(** ** Examples *)

Module FilterExamples.

#[local] Instance decimals : Parsing := {| ParseFloat := λ s, of_int <$> strconv.Atoi s; ParseTime := λ _, None |}.

Definition limits : MessageDescriptor :=
  mkMessageDescriptor "google.cloud.tasks.v2.RateLimits" [mkFieldDescriptor "max_burst_size" "maxBurstSize" false KInt].

(** Some of the fields of Queue. *)
Definition queue_desc : MessageDescriptor :=
  mkMessageDescriptor "google.cloud.tasks.v2.Queue"
    [mkFieldDescriptor "name" "name" false KString;
     mkFieldDescriptor "rate_limits" "rateLimits" false (KMessage limits);
     mkFieldDescriptor "state" "state" false
       (KEnum [("STATE_UNSPECIFIED", 0); ("RUNNING", 1); ("PAUSED", 2); ("DISABLED", 3)]%Z)].

Definition paused (burst : Z) : message :=
  [("name", VString "projects/p/queues/Mail"); ("state", VEnum 2); ("rate_limits", VMessage [("max_burst_size", VInt burst)])].

Definition holds (filter : string) (m : message) : option bool :=
  match queueFilter queue_desc filter with Ok keep => Some (keep m) | Err _ => None end.

Example filters :
  holds "state: PAUSED" (paused 5) = Some true ∧
  holds "rateLimits.maxBurstSize > 5" (paused 5) = Some false ∧
  holds "name:mail AND NOT (state=RUNNING OR rate_limits.max_burst_size<5)" (paused 5) = Some true ∧
  holds "-state=PAUSED" (paused 5) = Some false ∧
  holds "state=PAUSED name:x OR rate_limits.max_burst_size:*" (paused 5) = Some true ∧
  holds "" (paused 5) = Some true.
Proof. vm_compute. done. Qed.

Example refused :
  holds "state" (paused 5) = None ∧ holds "state < PAUSED" (paused 5) = None ∧ holds "(state=PAUSED" (paused 5) = None ∧
  holds "rate_limits=1" (paused 5) = None ∧ holds "nope=1" (paused 5) = None ∧
  queueFilter queue_desc "name =~ x" = Err Unimplemented.
Proof. vm_compute. done. Qed.

Definition two_clauses : list (expr * list expr) :=
  [(ERestriction "state" "=" "RUNNING" false, [ERestriction "name" ":" "mail" true]);
   (ENot (EOr (ERestriction "state" "=" "DISABLED" false) (ERestriction "name" "=" "x" true)), [])].

Lemma filter_meaning_witness :
  ∃ keep, queueFilter queue_desc (show (print_filter two_clauses)) = Ok keep ∧
          keep (paused 5) = forallb (λ c, sem_clause queue_desc c (paused 5)) two_clauses.
Proof.
  destruct (filter_meaning queue_desc two_clauses ltac:(discriminate) ltac:(vm_compute; reflexivity)) as (keep & Hk & Hm).
  exists keep. split; [exact Hk|apply Hm].
Defined.

End FilterExamples.
