(* ===== verification/TasksApi.v ===== *)
(** * internal/service/tasks: the google.cloud.tasks.v2 service

    The handlers of grpcserver.go and grpc1215.go over the Store.  A handler is
    one step; the times it reads are arguments. *)

From S2P Require Import Prelude GoLib ApiError Resource MetaStore Float64 Sched IamPolicy Paging NetHttp TasksModel TasksStore TasksStoreSpec TasksDispatch TasksWorker TasksConvert FilterText TasksFilter.
From Stdlib Require Import Ascii.

Import strings time.

(** ** update_mask *)

Abbreviation config := (RetryConfig * RateLimits)%type.

Definition rateLimitsSetter (sub : string) (want : RateLimits) : res error (config → config) :=
  if bool_decide (sub = "") then Ok (λ '(rc, _), (rc, want))
  else if bool_decide (sub = "max_dispatches_per_second") then
    Ok (λ '(rc, rl), (rc, mkRateLimits (MaxDispatchesPerSecond want) (MaxConcurrentDispatches rl)))
  else if bool_decide (sub = "max_concurrent_dispatches") then
    Ok (λ '(rc, rl), (rc, mkRateLimits (MaxDispatchesPerSecond rl) (MaxConcurrentDispatches want)))
  else if bool_decide (sub = "max_burst_size") then Err InvalidArgument
  else Err InvalidArgument.

Definition retryConfigSetter (sub : string) (want : RetryConfig) : res error (config → config) :=
  if bool_decide (sub = "") then Ok (λ '(_, rl), (want, rl))
  else if bool_decide (sub = "max_attempts") then
    Ok (λ '(rc, rl), (CloudTasks.mkCloudTasksBackoff (CloudTasks.MaxAttempts want) (CloudTasks.MinBackoff rc)
                        (CloudTasks.MaxBackoff rc) (CloudTasks.MaxDoublings rc) (CloudTasks.MaxRetryDuration rc), rl))
  else if bool_decide (sub = "max_retry_duration") then
    Ok (λ '(rc, rl), (CloudTasks.mkCloudTasksBackoff (CloudTasks.MaxAttempts rc) (CloudTasks.MinBackoff rc)
                        (CloudTasks.MaxBackoff rc) (CloudTasks.MaxDoublings rc) (CloudTasks.MaxRetryDuration want), rl))
  else if bool_decide (sub = "min_backoff") then
    Ok (λ '(rc, rl), (CloudTasks.mkCloudTasksBackoff (CloudTasks.MaxAttempts rc) (CloudTasks.MinBackoff want)
                        (CloudTasks.MaxBackoff rc) (CloudTasks.MaxDoublings rc) (CloudTasks.MaxRetryDuration rc), rl))
  else if bool_decide (sub = "max_backoff") then
    Ok (λ '(rc, rl), (CloudTasks.mkCloudTasksBackoff (CloudTasks.MaxAttempts rc) (CloudTasks.MinBackoff rc)
                        (CloudTasks.MaxBackoff want) (CloudTasks.MaxDoublings rc) (CloudTasks.MaxRetryDuration rc), rl))
  else if bool_decide (sub = "max_doublings") then
    Ok (λ '(rc, rl), (CloudTasks.mkCloudTasksBackoff (CloudTasks.MaxAttempts rc) (CloudTasks.MinBackoff rc)
                        (CloudTasks.MaxBackoff rc) (CloudTasks.MaxDoublings want) (CloudTasks.MaxRetryDuration rc), rl))
  else Err InvalidArgument.

(** [set = func(q *Queue) { f(&q.RetryConfig, &q.RateLimits) }] *)
Definition on_config (f : config → config) (q : Queue) : Queue :=
  let '(rc, rl) := f (q_RetryConfig q, q_RateLimits q) in set_q_config q rc rl.

Definition updatableQueuePaths : list string :=
  ["app_engine_routing_override"; "http_target"; "rate_limits"; "retry_config"; "stackdriver_logging_config"].

(** The body of UpdateQueue's loop: what one mask path sets. *)
Definition path_setter (inp : pb.Queue) (p : string) : res error (Queue → Queue) :=
  let want := fromProtoQueue inp in
  let '(field, sub, _) := Cut p "."%char in
  if bool_decide (field = "rate_limits") then
    checkRateLimits inp sub ≫= λ _, f ← rateLimitsSetter sub (q_RateLimits want); Ok (on_config f)
  else if bool_decide (field = "retry_config") then
    checkRetry inp sub ≫= λ _, f ← retryConfigSetter sub (q_RetryConfig want); Ok (on_config f)
  else if bool_decide (field = "stackdriver_logging_config") then
    checkLogging inp ≫= λ _, Ok (λ q, set_Logging q (Logging want))
  else if bool_decide (field = "http_target") then
    checkHTTPTarget inp ≫= λ _, Ok (λ q, set_HTTPTarget q (HTTPTarget want))
  else if bool_decide (field = "app_engine_routing_override") then
    Ok (λ q, set_q_Routing q (routingFromProto (pb.q_routing_override inp)))
  else Err InvalidArgument.

Fixpoint path_setters (inp : pb.Queue) (paths : list string) : res error (list (Queue → Queue)) :=
  match paths with
  | [] => Ok []
  | p :: paths => set ← path_setter inp p; sets ← path_setters inp paths; Ok (set :: sets)
  end.

(** The paths a request updates. *)
Definition mask_of (paths : list string) : list string :=
  match paths with [] => updatableQueuePaths | _ => paths end.

(** ** CMEK names *)

(** [[^/]+] *)
Definition segment (s : string) : bool := negb (bool_decide (s = "")).

Definition cmekNameRE (s : string) : bool :=
  match Split s "/"%char with
  | [p; pr; l; lo; c] =>
      bool_decide (p = "projects") && segment pr && bool_decide (l = "locations") && segment lo &&
      bool_decide (c = "cmekConfig")
  | _ => false
  end.

Definition kmsKeyRE (s : string) : bool :=
  match Split s "/"%char with
  | [p; pr; l; lo; kr; r; ck; k] =>
      bool_decide (p = "projects") && segment pr && bool_decide (l = "locations") && segment lo &&
      bool_decide (kr = "keyRings") && segment r && bool_decide (ck = "cryptoKeys") && segment k
  | _ => false
  end.

(** [strings.Split(name, "/")[3]] *)
Definition location_segment (name : string) : string := default "" (Split name "/"%char !! 3%nat).

Definition MaxBatchCreate : Z := 100.
Definition MaxBatchDelete : Z := 1000.

(** The clock readings of one CreateTask: the name's, the store's clock and
    the wall clock of the times it fills in. *)
Record Readings := mkReadings { r_name : Time; r_now : Time; r_wall : Time }.

Record CreateTaskRequest := mkCreateTaskRequest { c_parent : string; c_task : pb.Task }.

(** [status.Convert(err).Code()] *)
Definition status_code (e : error) : codes.Code := default codes.Unknown (from_status e).

Section api.
Context {S : Type} `{MSL : MetaStoreLaws S doc} `{PL : Platform} `{TJ : TokenJSON} `{PA : Parsing}.

(** The descriptor of the Queue message, and a queue as a reflected message. *)
Context (queue_desc : MessageDescriptor) (reflect : pb.Queue → message).

Abbreviation Store := (@TasksStore.Store S).
Implicit Types s : Store.

(** [toProtoQueue] of what the store answered. *)
Definition reply {A B} (f : A → B) (r : Store * res error A) : Store * res error B :=
  (r.1, r.2 ≫= λ a, Ok (f a)).

(** ** Queue methods *)

Definition CreateQueue s (parent : string) (p : pb.Queue) (now : Time) : Store * res error pb.Queue :=
  match ParseLocation parent with
  | Err _ => (s, Err InvalidArgument)
  | Ok _ =>
      match checkQueue p with
      | Err e => (s, Err e)
      | Ok _ =>
          let q := fromProtoQueue p in
          if bool_decide (q_Name q = "") then (s, Err InvalidArgument)
          else if negb (HasPrefix (q_Name q) (parent +:+ "/queues/")) then (s, Err InvalidArgument)
          else reply toProtoQueue (TasksStore.CreateQueue s q now)
      end
  end.

Definition UpdateQueue s (inp : pb.Queue) (paths : list string) (now : Time) : Store * res error pb.Queue :=
  if bool_decide (pb.q_name inp = "") then (s, Err InvalidArgument)
  else match path_setters inp (mask_of paths) with
  | Err e => (s, Err e)
  | Ok sets =>
      reply (λ r, toProtoQueue r.1)
        (TasksStore.UpdateQueue s (pb.q_name inp) (λ q, Ok (fold_left (λ q set, set q) sets q)) now)
  end.

Definition GetQueue s (name : string) : res error pb.Queue :=
  q ← TasksStore.GetQueue s name; Ok (toProtoQueue q).

Definition ListQueues s (filter_ parent pageToken : string) (pageSize : Z)
    : res error (list pb.Queue * string) :=
  match ParseLocation parent with
  | Err _ => Err InvalidArgument
  | Ok _ =>
      keep ← queueFilter queue_desc filter_;
      queues ← TasksStore.ListQueues s parent;
      let kept := filter (λ q, keep (reflect (toProtoQueue q)) = true) queues in
      let byName := fold_left (λ m q, <[q_Name q := q]> m) kept (∅ : gmap string Queue) in
      match Page ("queues:" +:+ parent) (q_Name <$> kept) pageToken pageSize with
      | Err _ => Err InvalidArgument
      | Ok (page, next) => Ok ((λ n, toProtoQueue (default (new_queue "" zero) (byName !! n))) <$> page, next)
      end
  end.

(** [QueueFilter]: the same filter for callers outside the API. *)
Definition QueueFilter (filter_ : string) : res error (Queue → bool) :=
  keep ← queueFilter queue_desc filter_; Ok (λ q, keep (reflect (toProtoQueue q))).

Definition DeleteQueue s (name : string) : Store * res error unit := TasksStore.DeleteQueue s name.

Definition PauseQueue s (name : string) : Store * res error pb.Queue :=
  reply toProtoQueue (SetQueueState s name StatePaused).

Definition ResumeQueue s (name : string) : Store * res error pb.Queue :=
  reply toProtoQueue (SetQueueState s name StateRunning).

Definition PurgeQueue s (name : string) (now : Time) : Store * res error pb.Queue :=
  match TasksStore.PurgeQueue s name now with
  | (s, Err e) => (s, Err e)
  | (s, Ok _) => (s, GetQueue s name)
  end.

(** ** Task methods *)

Definition protoTask s (t : Task) : pb.Task :=
  let override := match t_AppEngine t with
                  | Some _ => match TasksStore.GetQueue s (t_Queue t) with
                              | Ok q => q_AppEngineRouting q
                              | Err _ => None
                              end
                  | None => None
                  end in
  toProtoTaskIn t override.

(** A task the store returns, as the API does. *)
Definition reply_task (r : Store * res error Task) : Store * res error pb.Task :=
  reply (protoTask r.1) r.

(** [trace] is the traceparent of the caller's span, if it has a valid one. *)
Definition CreateTask s (trace : option string) (req : CreateTaskRequest) (r : Readings) : Store * res error pb.Task :=
  let parent := c_parent req in
  match Parse parent with
  | Err _ => (s, Err InvalidArgument)
  | Ok _ =>
      match fromProtoTask (c_task req) parent with
      | Err e => (s, Err e)
      | Ok t =>
          let t := if bool_decide (t_Name t = "") then set_t_Name t (generateTaskName parent (r_name r)) true else t in
          let t := match trace with Some tp => set_Traceparent t tp | None => t end in
          reply_task (TasksStore.CreateTask s t (r_now r) (r_wall r))
      end
  end.

Definition GetTask s (name : string) : res error pb.Task :=
  t ← TasksStore.GetTask s name; Ok (protoTask s t).

(** A Go zero [Task], what a missing map key reads. *)
Definition zero_task : Task := mkTask "" "" None None zero zero 0 0 0 zero None 0%Z "" zero false.

Definition ListTasks s (parent pageToken : string) (pageSize : Z) : res error (list pb.Task * string) :=
  tasks ← TasksStore.ListTasks s parent;
  let byName := fold_left (λ m t, <[t_Name t := t]> m) tasks (∅ : gmap string Task) in
  match Page ("tasks:" +:+ parent) (t_Name <$> tasks) pageToken pageSize with
  | Err _ => Err InvalidArgument
  | Ok (page, next) => Ok ((λ n, protoTask s (default zero_task (byName !! n))) <$> page, next)
  end.

Definition DeleteTask s (name : string) (now : Time) : Store * res error unit := TasksStore.DeleteTask s name now.

Definition RunTask s (name : string) (now : Time) : Store * res error pb.Task :=
  match Parse name with
  | Err _ => (s, Err InvalidArgument)
  | Ok _ => reply_task (TasksStore.RunTask s name now)
  end.

(** ** IAM *)

Definition GetIamPolicy s (resource : string) (requested : Z) : res error iampb.Policy :=
  q ← TasksStore.GetQueue s resource; IamPolicy.Get (IAMPolicy q) requested.

Definition SetIamPolicy s (resource : string) (req : iampb.SetIamPolicyRequest) (rnd : string)
    : Store * res error iampb.Policy :=
  reply (λ p, Proto (Some p)) (TasksStore.SetIamPolicy s resource req rnd).

Definition TestIamPermissions s (resource : string) (permissions : list string) : res error (list string) :=
  _ ← TasksStore.GetQueue s resource; Ok (Permissions permissions).

(** ** Batches *)

(** The finished operation; [now] names it. *)
Definition batchOperation (queue : string) (start end_ : Time) (failed : list (Z * codes.Code)) (resp : BatchResult)
    (allFailed : bool) (now : Time) : BatchOp :=
  let location := match Parse queue with Ok n => LocationName n | Err _ => LocationName (mkName "" "" "" "" "" "") end in
  mkBatchOp (location +:+ "/operations/" +:+ strconv.Itoa (UnixNano now)) start end_
    (negb (bool_decide (failed = []))) failed (if allFailed then BatchAborted else resp).

(** The loop over the requests, from index [i]. *)
Fixpoint create_all s (trace : option string) (reqs : list CreateTaskRequest) (clock : nat → Readings) (i : nat)
    : Store * list (Z * codes.Code) * list pb.Task :=
  match reqs with
  | [] => (s, [], [])
  | r :: reqs =>
      match CreateTask s trace r (clock i) with
      | (s, Err e) => let '(s, failed, created) := create_all s trace reqs clock (Datatypes.S i) in
                      (s, (Z.of_nat i, status_code e) :: failed, created)
      | (s, Ok t) => let '(s, failed, created) := create_all s trace reqs clock (Datatypes.S i) in
                     (s, failed, t :: created)
      end
  end.

(** The clock readings of a batch outside its requests. *)
Record BatchTimes := mkBatchTimes { bt_start : Time; bt_end : Time; bt_name : Time }.

Definition BatchCreateTasks s (trace : option string) (parent : string) (reqs : list CreateTaskRequest)
    (requestID : string) (clock : nat → Readings) (bt : BatchTimes) : Store * res error BatchOp :=
  match Parse parent with
  | Err _ => (s, Err InvalidArgument)
  | Ok _ =>
      let n := length reqs in
      if (n =? 0)%nat || (MaxBatchCreate <? Z.of_nat n)%Z then (s, Err InvalidArgument)
      else if negb (forallb (λ r, bool_decide (c_parent r = parent)) reqs) then (s, Err InvalidArgument)
      else match TasksStore.GetQueue s parent with
      | Err e => (s, Err e)
      | Ok _ =>
          match TasksStore.batchOperation s parent requestID with
          | Some op => (s, Ok op)
          | None =>
              let '(s, failed, created) := create_all s trace reqs clock 0 in
              let op := batchOperation parent (bt_start bt) (bt_end bt) failed (BatchTasks created)
                          (length failed =? n)%nat (bt_name bt) in
              (keepBatchOperation s parent requestID op, Ok op)
          end
      end
  end.

Definition delete_one s (parent name : string) (now : Time) : Store * res error unit :=
  if negb (HasPrefix name (parent +:+ "/tasks/")) then (s, Err InvalidArgument)
  else TasksStore.DeleteTask s name now.

Fixpoint delete_all s (parent : string) (names : list string) (clock : nat → Time) (i : nat)
    : Store * list (Z * codes.Code) :=
  match names with
  | [] => (s, [])
  | name :: names =>
      match delete_one s parent name (clock i) with
      | (s, Err e) => let '(s, failed) := delete_all s parent names clock (Datatypes.S i) in
                      (s, (Z.of_nat i, status_code e) :: failed)
      | (s, Ok _) => delete_all s parent names clock (Datatypes.S i)
      end
  end.

Definition BatchDeleteTasks s (parent : string) (names : list string) (requestID : string) (clock : nat → Time)
    (bt : BatchTimes) : Store * res error BatchOp :=
  match Parse parent with
  | Err _ => (s, Err InvalidArgument)
  | Ok _ =>
      let n := length names in
      if (n =? 0)%nat || (MaxBatchDelete <? Z.of_nat n)%Z then (s, Err InvalidArgument)
      else match TasksStore.GetQueue s parent with
      | Err e => (s, Err e)
      | Ok _ =>
          match TasksStore.batchOperation s parent requestID with
          | Some op => (s, Ok op)
          | None =>
              let '(s, failed) := delete_all s parent names clock 0 in
              let op := batchOperation parent (bt_start bt) (bt_end bt) failed BatchEmpty (length failed =? n)%nat (bt_name bt) in
              (keepBatchOperation s parent requestID op, Ok op)
          end
      end
  end.

(** ** The CMEK config *)

Definition GetCmekConfig s (name : string) : res error (string * string) :=
  if negb (cmekNameRE name) then Err InvalidArgument
  else Ok (name, default "" (get_string s (cmekKey name))).

Definition UpdateCmekConfig s (name key : string) (paths : list string) : Store * res error (string * string) :=
  if negb (cmekNameRE name) then (s, Err InvalidArgument)
  else if negb (forallb (λ p, bool_decide (p = "kms_key") || bool_decide (p = "kmsKey")) paths) then (s, Err InvalidArgument)
  else if negb (bool_decide (key = "")) && negb (kmsKeyRE key) then (s, Err InvalidArgument)
  else if negb (bool_decide (key = "")) && negb (bool_decide (location_segment key = location_segment name))
       then (s, Err InvalidArgument)
  else match setCmek s name key with
       | (s, Err e) => (s, Err e)
       | (s, Ok _) => (s, Ok (name, key))
       end.

End api.

(** ** What an update_mask means *)

Definition path_field (p : string) : string := (Cut p "."%char).1.1.
Definition path_sub (p : string) : string := (Cut p "."%char).1.2.

(** Some path names the message [field], or something under it. *)
Definition touches (paths : list string) (field : string) : bool :=
  existsb (λ p, bool_decide (path_field p = field)) paths.

(** Some path names the field [sub] of the message [field], or all of it. *)
Definition covers (paths : list string) (field sub : string) : bool :=
  existsb (λ p, bool_decide (path_field p = field) && names (path_sub p) sub) paths.

(** The paths that can be updated. *)
Definition settable (p : string) : bool :=
  let f := path_field p in let s := path_sub p in
  if bool_decide (f = "rate_limits")
  then bool_decide (s ∈ [""; "max_dispatches_per_second"; "max_concurrent_dispatches"])
  else if bool_decide (f = "retry_config")
  then bool_decide (s ∈ [""; "max_attempts"; "max_retry_duration"; "min_backoff"; "max_backoff"; "max_doublings"])
  else bool_decide (f ∈ ["stackdriver_logging_config"; "http_target"; "app_engine_routing_override"]).

Definition pick {A} (c : bool) (a b : A) : A := if c then a else b.

(** [q] with the fields the mask names as [want] has them. *)
Definition masked (paths : list string) (want q : Queue) : Queue :=
  let rc := covers paths "retry_config" in
  let rl := covers paths "rate_limits" in
  let wc := q_RetryConfig want in let qc := q_RetryConfig q in
  mkQueue (q_Name q) (q_State q)
    (CloudTasks.mkCloudTasksBackoff
       (pick (rc "max_attempts") (CloudTasks.MaxAttempts wc) (CloudTasks.MaxAttempts qc))
       (pick (rc "min_backoff") (CloudTasks.MinBackoff wc) (CloudTasks.MinBackoff qc))
       (pick (rc "max_backoff") (CloudTasks.MaxBackoff wc) (CloudTasks.MaxBackoff qc))
       (pick (rc "max_doublings") (CloudTasks.MaxDoublings wc) (CloudTasks.MaxDoublings qc))
       (pick (rc "max_retry_duration") (CloudTasks.MaxRetryDuration wc) (CloudTasks.MaxRetryDuration qc)))
    (mkRateLimits
       (pick (rl "max_dispatches_per_second") (MaxDispatchesPerSecond (q_RateLimits want)) (MaxDispatchesPerSecond (q_RateLimits q)))
       (pick (rl "max_concurrent_dispatches") (MaxConcurrentDispatches (q_RateLimits want)) (MaxConcurrentDispatches (q_RateLimits q))))
    (q_Created q) (Purged q) (IAMPolicy q)
    (pick (touches paths "stackdriver_logging_config") (Logging want) (Logging q))
    (pick (touches paths "http_target") (HTTPTarget want) (HTTPTarget q))
    (pick (touches paths "app_engine_routing_override") (q_AppEngineRouting want) (q_AppEngineRouting q)).

(** Zero settings take their defaults, as on create. *)
Definition with_defaults (q : Queue) : Queue :=
  set_q_config q (retry_withDefaults (q_RetryConfig q)) (rate_withDefaults (q_RateLimits q)).

Lemma pick_or {A} (b c : bool) (x y : A) : pick (b || c) x y = pick c x (pick b x y).
Proof. by destruct b, c. Qed.

Lemma masked_nil want q : masked [] want q = q.
Proof. by destruct q as [?? [] [] ??????]. Qed.

Lemma masked_cons p paths want q : masked (p :: paths) want q = masked paths want (masked [p] want q).
Proof. unfold masked, covers, touches. cbn. by rewrite !orb_false_r, !pick_or. Qed.

(** A setter of one path, against [masked]. *)
Ltac solve_setter want :=
  repeat case_bool_decide; subst;
  try (split; [set_solver|]; intros p [?? [] [] ??????] Hf Hs; destruct want as [?? [] [] ??????];
       unfold masked, covers, touches; cbn; by rewrite Hf, Hs);
  (split; [done|set_solver]).

Lemma check_refusal inp sub e :
  checkRateLimits inp sub = Err e ∨ checkRetry inp sub = Err e ∨ checkLogging inp = Err e ∨ checkHTTPTarget inp = Err e →
  e = InvalidArgument.
Proof.
  unfold checkRateLimits, checkRetry, checkLogging, checkHTTPTarget, guard_.
  intros [H|[H|[H|H]]]; repeat (case_match; cbn [mbind res_bind] in H; simplify_eq; try done).
Qed.

Lemma rateLimitsSetter_masked sub want :
  match rateLimitsSetter sub (q_RateLimits want) with
  | Ok f => sub ∈ [""; "max_dispatches_per_second"; "max_concurrent_dispatches"] ∧
            ∀ p q, path_field p = "rate_limits" → path_sub p = sub → on_config f q = masked [p] want q
  | Err e => e = InvalidArgument ∧ sub ∉ [""; "max_dispatches_per_second"; "max_concurrent_dispatches"]
  end.
Proof.
  unfold rateLimitsSetter. solve_setter want.
Qed.

Lemma retryConfigSetter_masked sub want :
  match retryConfigSetter sub (q_RetryConfig want) with
  | Ok f => sub ∈ [""; "max_attempts"; "max_retry_duration"; "min_backoff"; "max_backoff"; "max_doublings"] ∧
            ∀ p q, path_field p = "retry_config" → path_sub p = sub → on_config f q = masked [p] want q
  | Err e => e = InvalidArgument ∧ sub ∉ [""; "max_attempts"; "max_retry_duration"; "min_backoff"; "max_backoff"; "max_doublings"]
  end.
Proof.
  unfold retryConfigSetter. solve_setter want.
Qed.

(** One path: refused, or settable and set to what the request has. *)
Lemma path_setter_masked inp p :
  match path_setter inp p with
  | Ok set => settable p = true ∧ ∀ q, set q = masked [p] (fromProtoQueue inp) q
  | Err e => e = InvalidArgument
  end.
Proof.
  unfold path_setter. destruct (Cut p "."%char) as [[field sub] b] eqn:Hcut.
  assert (path_field p = field ∧ path_sub p = sub) as [Hf Hs] by (unfold path_field, path_sub; by rewrite Hcut).
  unfold settable. rewrite Hf, Hs. case_bool_decide as H1; [|case_bool_decide as H2].
  - destruct (checkRateLimits inp sub) as [[]|e] eqn:Hc; cbn [mbind res_bind]; [|eauto using check_refusal].
    pose proof (rateLimitsSetter_masked sub (fromProtoQueue inp)) as Hset.
    destruct (rateLimitsSetter _ _) as [f|e]; cbn [mbind res_bind]; [|by destruct Hset].
    destruct Hset as [Hin Hset]. split; [by apply bool_decide_eq_true|]. intros q. apply Hset; congruence.
  - destruct (checkRetry inp sub) as [[]|e] eqn:Hc; cbn [mbind res_bind]; [|eauto using check_refusal].
    pose proof (retryConfigSetter_masked sub (fromProtoQueue inp)) as Hset.
    destruct (retryConfigSetter _ _) as [f|e]; cbn [mbind res_bind]; [|by destruct Hset].
    destruct Hset as [Hin Hset]. split; [by apply bool_decide_eq_true|]. intros q. apply Hset; congruence.
  - case_bool_decide as H3; [destruct (checkLogging inp) as [[]|e] eqn:Hc; [|cbn; apply (check_refusal inp sub); auto]|].
    2: case_bool_decide as H4; [destruct (checkHTTPTarget inp) as [[]|e] eqn:Hc; [|cbn; apply (check_refusal inp sub); auto]|].
    3: case_bool_decide as H5; [|done].
    all: split; [apply bool_decide_eq_true; set_solver|]; intros [?? [] [] ??????]; unfold masked, covers, touches; cbn; rewrite Hf; first [rewrite H5|rewrite H4|rewrite H3]; done.
Qed.

Lemma path_setters_masked inp paths :
  match path_setters inp paths with
  | Ok sets => forallb settable paths = true ∧
               ∀ q, fold_left (λ q set, set q) sets q = masked paths (fromProtoQueue inp) q
  | Err e => e = InvalidArgument
  end.
Proof.
  induction paths as [|p paths IH]; cbn [path_setters]; [split; [done|]; intros q; by rewrite masked_nil|].
  pose proof (path_setter_masked inp p) as Hp. destruct (path_setter inp p) as [set|e]; cbn [mbind res_bind]; [|done].
  destruct (path_setters inp paths) as [sets|e]; cbn [mbind res_bind]; [|done].
  destruct Hp as [Hs Hset], IH as [Hall Hsets]. split; [cbn; by rewrite Hs|].
  intros q. cbn. by rewrite Hsets, Hset, <- masked_cons.
Qed.

(** *** The fields a mask can name

    The paths of the Queue message that are neither its name nor output only. *)
Definition field_paths : list string :=
  ["rate_limits"; "rate_limits.max_dispatches_per_second"; "rate_limits.max_concurrent_dispatches";
   "retry_config"; "retry_config.max_attempts"; "retry_config.max_retry_duration"; "retry_config.min_backoff";
   "retry_config.max_backoff"; "retry_config.max_doublings";
   "stackdriver_logging_config"; "stackdriver_logging_config.sampling_ratio";
   "http_target"; "app_engine_routing_override"].

(** The mask names the field [sub] of the message [field], or the whole message. *)
Definition named (paths : list string) (field sub : string) : bool :=
  bool_decide (field ∈ paths) || bool_decide (field +:+ "." +:+ sub ∈ paths).

(** [q] with the fields of [paths] as [want] has them. *)
Definition replaced (paths : list string) (want q : Queue) : Queue :=
  let rc := named paths "retry_config" in
  let rl := named paths "rate_limits" in
  let wc := q_RetryConfig want in let qc := q_RetryConfig q in
  mkQueue (q_Name q) (q_State q)
    (CloudTasks.mkCloudTasksBackoff
       (pick (rc "max_attempts") (CloudTasks.MaxAttempts wc) (CloudTasks.MaxAttempts qc))
       (pick (rc "min_backoff") (CloudTasks.MinBackoff wc) (CloudTasks.MinBackoff qc))
       (pick (rc "max_backoff") (CloudTasks.MaxBackoff wc) (CloudTasks.MaxBackoff qc))
       (pick (rc "max_doublings") (CloudTasks.MaxDoublings wc) (CloudTasks.MaxDoublings qc))
       (pick (rc "max_retry_duration") (CloudTasks.MaxRetryDuration wc) (CloudTasks.MaxRetryDuration qc)))
    (mkRateLimits
       (pick (rl "max_dispatches_per_second") (MaxDispatchesPerSecond (q_RateLimits want)) (MaxDispatchesPerSecond (q_RateLimits q)))
       (pick (rl "max_concurrent_dispatches") (MaxConcurrentDispatches (q_RateLimits want)) (MaxConcurrentDispatches (q_RateLimits q))))
    (q_Created q) (Purged q) (IAMPolicy q)
    (pick (named paths "stackdriver_logging_config" "sampling_ratio") (Logging want) (Logging q))
    (pick (bool_decide ("http_target" ∈ paths)) (HTTPTarget want) (HTTPTarget q))
    (pick (bool_decide ("app_engine_routing_override" ∈ paths)) (q_AppEngineRouting want) (q_AppEngineRouting q)).

(** The other paths the switch accepts: anything under three of the messages, and
    two of them with a trailing dot. *)
Definition loose (p : string) : bool :=
  bool_decide (p ∈ ["rate_limits."; "retry_config."]) ||
  existsb (HasPrefix p) ["stackdriver_logging_config."; "http_target."; "app_engine_routing_override."].

Lemma bool_decide_elem_cons (x p : string) paths : bool_decide (x ∈ p :: paths) = bool_decide (p = x) || bool_decide (x ∈ paths).
Proof. destruct (decide (p = x)) as [->|Hne]; repeat case_bool_decide; set_solver. Qed.

Lemma covers_named paths field sub :
  field ∈ ["rate_limits"; "retry_config"; "stackdriver_logging_config"] →
  (∀ p, p ∈ field_paths → bool_decide (path_field p = field) && names (path_sub p) sub = bool_decide (p = field) || bool_decide (p = field +:+ "." +:+ sub)) →
  Forall (λ p, p ∈ field_paths) paths → covers paths field sub = named paths field sub.
Proof.
  intros Hf Hp. induction 1 as [|p paths Hin _ IH]; [done|]. unfold covers, named in *. cbn [existsb].
  rewrite IH, (Hp p Hin), !bool_decide_elem_cons. destruct (bool_decide (p = field)), (bool_decide (p = _)), (bool_decide (field ∈ paths)); done.
Qed.

Lemma touches_in paths field :
  (∀ p, p ∈ field_paths → bool_decide (path_field p = field) = bool_decide (p = field)) →
  Forall (λ p, p ∈ field_paths) paths → touches paths field = bool_decide (field ∈ paths).
Proof.
  intros Hp. induction 1 as [|p paths Hin _ IH]; [done|]. unfold touches in *. cbn [existsb].
  by rewrite IH, (Hp p Hin), bool_decide_elem_cons.
Qed.

Lemma touches_logging paths :
  Forall (λ p, p ∈ field_paths) paths → touches paths "stackdriver_logging_config" = named paths "stackdriver_logging_config" "sampling_ratio".
Proof.
  intros Hf. rewrite <- (covers_named paths "stackdriver_logging_config" "sampling_ratio"); [|set_solver| |done].
  - clear -Hf. induction Hf as [|p paths Hin _ IH]; [done|]. unfold touches, covers in *. cbn [existsb]. rewrite IH. f_equal.
    unfold field_paths in Hin. rewrite !elem_of_cons, elem_of_nil in Hin. destruct_or! Hin; subst; by vm_compute.
  - intros p Hin. unfold field_paths in Hin. rewrite !elem_of_cons, elem_of_nil in Hin. destruct_or! Hin; subst; by vm_compute.
Qed.

(** On field paths the switch does what the paths say. *)
Lemma masked_replaced paths want q : Forall (λ p, p ∈ field_paths) paths → masked paths want q = replaced paths want q.
Proof.
  intros Hf. unfold masked, replaced. rewrite (touches_logging paths Hf), !touches_in, !covers_named; try done; try set_solver.
  all: intros p Hin; unfold field_paths in Hin; rewrite !elem_of_cons, elem_of_nil in Hin; destruct_or! Hin; subst; by vm_compute.
Qed.

Lemma Cut_dot p : (path_sub p = "" ∧ p = path_field p) ∨ p = path_field p +:+ "." +:+ path_sub p.
Proof.
  unfold path_field, path_sub. pose proof (Cut_spec p "."%char) as H. destruct (Cut p "."%char) as [[x y] []]; cbn in *; naive_solver.
Qed.

Lemma settable_paths p : settable p = true → p ∈ field_paths ∨ loose p = true.
Proof.
  unfold settable. destruct (Cut_dot p) as [[Hs Hp]|Hp].
  - rewrite Hs. intros Hset. left. rewrite Hp. unfold field_paths.
    repeat case_bool_decide; try set_solver.
  - intros Hset. set (f := path_field p) in *. set (sub := path_sub p) in *. clearbody f sub. subst p.
    case_bool_decide as H1; [subst f|case_bool_decide as H2; [subst f|]]; apply bool_decide_eq_true in Hset;
      rewrite !elem_of_cons, elem_of_nil in Hset; destruct_or! Hset; subst; try (left; unfold field_paths; set_solver);
      try (right; by vm_compute); right; unfold loose; rewrite orb_true_iff; right; cbn; by rewrite ?orb_true_r.
Qed.

Section mask.
Context {S : Type} `{MSL : MetaStoreLaws S doc} `{PL : Platform}.
Implicit Types s : (@TasksStore.Store S).

Abbreviation cts s := (contents (db s)).

(** What an update of any mask does, by the switch of the code. *)
Lemma update_queue_switch s inp paths now :
  let r := UpdateQueue s inp paths now in
  let before := match TasksStore.GetQueue s (pb.q_name inp) with Ok q => q | Err _ => new_queue (pb.q_name inp) now end in
  let after := with_defaults (masked (mask_of paths) (fromProtoQueue inp) before) in
  match r.2 with
  | Ok p => TasksStore.GetQueue r.1 (pb.q_name inp) = Ok after ∧ p = toProtoQueue after ∧
            forallb settable (mask_of paths) = true ∧
            cts r.1 = <[queueKey (pb.q_name inp) := DQueue after]> (cts s)
  | Err e => cts r.1 = cts s ∧ (forallb settable (mask_of paths) = false → e = InvalidArgument)
  end.
Proof.
  cbv zeta. unfold UpdateQueue. case_bool_decide; [done|].
  pose proof (path_setters_masked inp (mask_of paths)) as Hp.
  destruct (path_setters inp (mask_of paths)) as [sets|e]; [|done]. destruct Hp as [Hset Hsets].
  unfold TasksStore.UpdateQueue, TasksStore.GetQueue. destruct (checkQueueName _); [|by rewrite Hset].
  set (k := queueKey (pb.q_name inp)). set (before := match get_queue s k with Some q => Ok q | None => Err NotFound end).
  assert (∃ q b, (match get_queue s k with Some q => (q, false) | None => (new_queue (pb.q_name inp) now, true) end) = (q, b) ∧
            q = match before with Ok q => q | Err _ => new_queue (pb.q_name inp) now end) as (q & b & -> & Hq).
  { unfold before. destruct (get_queue s k); eauto. }
  rewrite <- Hq, Hsets. fold (with_defaults (masked (mask_of paths) (fromProtoQueue inp) q)).
  set (after := with_defaults _). unfold reply, returning.
  destruct (put_cases s k (DQueue after)) as [(H1 & H2 & H3)|(e & H1 & H2)]; rewrite H1; cbn [mbind res_bind fst snd].
  - rewrite (proj2 (get_queue_Some _ _ after)); [done|]. split; [done|]. rewrite H3. by rewrite lookup_insert_eq.
  - split; [done|]. by rewrite Hset.
Qed.

(** C6: UpdateQueue and its mask, for masks of field paths of the Queue message
    (an empty mask stands for the five settable messages).  An update that succeeds
    stores the queue as it was, or a new running queue, with exactly the fields the
    mask names replaced by the request's and zero settings defaulted, returns that
    queue and writes nothing else; the name, state, creation and purge times and IAM
    policy never change.  A path that names no field, the name or an output-only
    field is INVALID_ARGUMENT; the claim leaves out the loose paths, which the code
    accepts as the whole message (a reported divergence).  An update that fails
    changes nothing. *)
Theorem update_queue_mask s inp paths now :
  let r := UpdateQueue s inp paths now in
  let before := match TasksStore.GetQueue s (pb.q_name inp) with Ok q => q | Err _ => new_queue (pb.q_name inp) now end in
  let after := with_defaults (replaced (mask_of paths) (fromProtoQueue inp) before) in
  match r.2 with
  | Ok p => Forall (λ p, p ∈ field_paths) (mask_of paths) →
            TasksStore.GetQueue r.1 (pb.q_name inp) = Ok after ∧ p = toProtoQueue after ∧
            cts r.1 = <[queueKey (pb.q_name inp) := DQueue after]> (cts s)
  | Err _ => cts r.1 = cts s
  end ∧
  (∀ p, p ∈ mask_of paths → p ∉ field_paths → loose p = false → cts r.1 = cts s ∧ r.2 = Err InvalidArgument).
Proof.
  cbv zeta. pose proof (update_queue_switch s inp paths now) as H. cbv zeta in H. split.
  - destruct (UpdateQueue s inp paths now).2 as [p|e]; [|by destruct H]. intros Hf. destruct H as (H1 & H2 & _ & H4).
    rewrite (masked_replaced _ _ _ Hf) in H1, H2, H4. done.
  - intros p Hp Hno Hl. assert (forallb settable (mask_of paths) = false) as Hs.
    { apply not_true_is_false. intros Hall. rewrite forallb_forall in Hall.
      destruct (settable_paths p) as [?|?]; [apply Hall; by apply list_elem_of_In|done|congruence]. }
    destruct (UpdateQueue s inp paths now).2 as [q|e]; [destruct H as (_ & _ & H & _); congruence|].
    destruct H as [H1 H2]. by rewrite H2.
Qed.

End mask.

(** ** What a created task reports *)

Definition routing_parts (r : option pb.AppEngineRouting) : string * string * string :=
  match r with Some r => (pb.service r, pb.version r, pb.instance r) | None => ("", "", "") end.

(** The method the API returns: the one given, and POST for a number without a
    name. *)
Definition answered (m : HttpMethod) : HttpMethod := match m with other_method _ => POST | _ => m end.

(** The message the API returns for the one it was given: an HTTP request as it
    is, an App Engine request with its method and URI defaulted and its host
    filled in. *)
Definition echoes (m out : pb.MessageType) : Prop :=
  match m, out with
  | pb.Task_HttpRequest hr, pb.Task_HttpRequest hr' =>
      hr' = pb.mkHttpRequest (pb.hr_url hr) (answered (pb.hr_http_method hr)) (pb.hr_headers hr) (pb.hr_body hr) (pb.hr_authorization_header hr)
  | pb.Task_AppEngineHttpRequest a, pb.Task_AppEngineHttpRequest a' =>
      pb.ae_http_method a' = (if decide (pb.ae_http_method a = HTTP_METHOD_UNSPECIFIED) then POST else answered (pb.ae_http_method a)) ∧
      pb.ae_relative_uri a' = (if bool_decide (pb.ae_relative_uri a = "") then "/" else pb.ae_relative_uri a) ∧
      pb.ae_headers a' = pb.ae_headers a ∧ pb.ae_body a' = pb.ae_body a ∧
      routing_parts (pb.ae_routing a') = routing_parts (pb.ae_routing a)
  | _, _ => False
  end.

(** A number prints with a sign or a digit first. *)
Lemma Itoa_head n : ∃ c r, strconv.Itoa n = String c r ∧ c ∈ ["-"; "0"; "1"; "2"; "3"; "4"; "5"; "6"; "7"; "8"; "9"]%char.
Proof.
  unfold strconv.Itoa. destruct (Z.to_int n) as [d|d]; cbn; [|exists "-"%char; eexists; split; [done|set_solver]].
  destruct d; cbn; do 2 eexists; (split; [done|set_solver]).
Qed.

Lemma HttpMethod_value_String m : default POST (HttpMethod_value (method_String m)) = answered m.
Proof.
  destruct m; try done. destruct (Itoa_head n) as (c & r & Hn & Hc). cbn [method_String]. rewrite Hn.
  rewrite !elem_of_cons, elem_of_nil in Hc. destruct_or! Hc; subst; done.
Qed.

Lemma ToUpper_method m : default POST (HttpMethod_value (ToUpper (method_String m))) = answered m.
Proof.
  destruct m; try done. destruct (Itoa_head n) as (c & r & Hn & Hc). cbn [method_String]. rewrite Hn.
  rewrite !elem_of_cons, elem_of_nil in Hc. destruct_or! Hc; subst; done.
Qed.

Lemma http_roundtrip hr oidc oauth :
  authorizationFromProto hr = Ok (oidc, oauth) →
  httpToProto (mkHTTPRequest (pb.hr_url hr) (method_String (pb.hr_http_method hr)) (pb.hr_headers hr) (pb.hr_body hr) oidc oauth) =
  pb.mkHttpRequest (pb.hr_url hr) (answered (pb.hr_http_method hr)) (pb.hr_headers hr) (pb.hr_body hr) (pb.hr_authorization_header hr).
Proof.
  destruct hr as [url m h b [[t|t]|]]; unfold authorizationFromProto; cbn; [case_bool_decide; [done|]..|];
    intros [= <- <-]; unfold httpToProto; cbn [Method URL Headers Body OIDC OAuth]; by rewrite ToUpper_method.
Qed.

Lemma routing_roundtrip r :
  match routingFromProto r with Some x => (Service x, Version x, Instance_ x) | None => ("", "", "") end = routing_parts r.
Proof.
  destruct r as [[a b c h]|]; [|done]. unfold routingFromProto. cbn.
  repeat case_bool_decide; cbn; congruence.
Qed.

Lemma app_engine_roundtrip ae a name override :
  appEngineFromProto ae = Ok a →
  echoes (pb.Task_AppEngineHttpRequest ae) (pb.Task_AppEngineHttpRequest (appEngineToProto a name override)).
Proof.
  unfold appEngineFromProto. destruct (negb (HasPrefix _ _)); [done|]. destruct (_ && _ && _); [done|]. intros [= <-].
  unfold appEngineToProto, echoes. cbn [ae_Method RelativeURI ae_Headers ae_Body Routing pb.ae_http_method pb.ae_relative_uri pb.ae_headers pb.ae_body pb.ae_routing].
  rewrite HttpMethod_value_String. split_and!; try done; [by case_decide|].
  rewrite <- (routing_roundtrip (pb.ae_routing ae)). by destruct (routingFromProto _).
Qed.

(** What [fromProtoTask] accepts, as the API would show it. *)
Lemma fromProtoTask_ok p parent t :
  fromProtoTask p parent = Ok t →
  t_Name t = pb.t_name p ∧ t_Queue t = parent ∧ ScheduleTime t = default zero (pb.t_schedule_time p) ∧
  t_Created t = zero ∧ DispatchCount t = 0%Z ∧ ResponseCount t = 0%Z ∧ FirstAttempt t = zero ∧ LastAttempt t = None ∧
  (if (0 <? DispatchDeadline t)%Z then Some (DispatchDeadline t) else None) = pb.t_dispatch_deadline p ∧
  ∃ m, pb.t_message_type p = Some m ∧
    match m with
    | pb.Task_HttpRequest hr => ∃ r, t_HTTPRequest t = Some r ∧ t_AppEngine t = None ∧ Method r ≠ "" ∧
        echoes (pb.Task_HttpRequest hr) (pb.Task_HttpRequest (httpToProto r))
    | pb.Task_AppEngineHttpRequest ae => ∃ a, t_AppEngine t = Some a ∧ t_HTTPRequest t = None ∧ appEngineFromProto ae = Ok a
    end.
Proof.
  unfold fromProtoTask. intros (d & Hd & H)%res_bind_ok.
  assert ((if (0 <? d)%Z then Some d else None) = pb.t_dispatch_deadline p) as Hdl.
  { unfold deadlineFromProto in Hd. destruct (pb.t_dispatch_deadline p) as [d'|]; [|by simplify_eq].
    destruct (_ || _) eqn:Hr; [done|]. injection Hd as <-. apply orb_false_iff in Hr as [Hr _].
    apply Z.ltb_ge in Hr. unfold Second in Hr. by rewrite (proj2 (Z.ltb_lt 0 d')) by lia. }
  destruct (pb.t_message_type p) as [[ae|hr]|]; [| |done].
  - apply res_bind_ok in H as (a & Ha & [= <-]). cbn. split_and!; try done.
    eexists. split; [done|]. by eexists.
  - destruct (_ <? _)%Z; [done|]. apply res_bind_ok in H as ([oidc oauth] & Ha & H).
    destruct (_ && _); [done|]. injection H as <-. cbn. split_and!; try done.
    eexists. split; [done|]. eexists. split_and!; [done..| |by apply http_roundtrip].
    destruct (pb.hr_http_method hr); try done. cbn [Method method_String]. by destruct (Itoa_head n) as (c & r & -> & _).
Qed.

Section create.
Context {S : Type} `{MSL : MetaStoreLaws S doc}.
Implicit Types s : (@TasksStore.Store S).

(** C8: a created task is the task that was asked for.  When CreateTask succeeds,
    its queue was there; GetTask of the name returned answers the same task; the
    name is the caller's, or one made from the queue's when there was none; the
    HTTP request comes back field for field (an App Engine request with its
    method, URI and host filled in), except that a method number without a name is
    answered as POST; with the deadline and schedule time asked for, the current
    time for one not given, and no attempts yet. *)
Theorem create_task_roundtrip s trace req r s' out :
  CreateTask s trace req r = (s', Ok out) →
  let p := c_task req in
  GetTask s' (pb.t_name out) = Ok out ∧ is_ok (TasksStore.GetQueue s (c_parent req)) = true ∧
  pb.t_name out = (if bool_decide (pb.t_name p = "") then generateTaskName (c_parent req) (r_name r) else pb.t_name p) ∧
  (∃ m m', pb.t_message_type p = Some m ∧ pb.t_message_type out = Some m' ∧ echoes m m') ∧
  pb.t_schedule_time out =
    Some (match pb.t_schedule_time p with Some t => if IsZero t then r_wall r else t | None => r_wall r end) ∧
  pb.t_create_time out = Some (r_wall r) ∧ pb.t_dispatch_deadline out = pb.t_dispatch_deadline p ∧
  (pb.t_dispatch_count out, pb.t_response_count out, pb.t_first_attempt out, pb.t_last_attempt out) = (0%Z, 0%Z, None, None).
Proof.
  unfold CreateTask. destruct (Parse (c_parent req)) as [n|] eqn:Hparse; [|done].
  destruct (fromProtoTask (c_task req) (c_parent req)) as [t|] eqn:Ht; [|done].
  apply fromProtoTask_ok in Ht as (Hname & Hqueue & Hsched & Hcr & Hdc & Hrc & Hfa & Hla & Hdl & m & Hm & Hmsg).
  set (t1 := if bool_decide (t_Name t = "") then _ else t). set (t2 := match trace with Some _ => _ | None => t1 end).
  assert (t_Name t2 = (if bool_decide (pb.t_name (c_task req) = "") then generateTaskName (c_parent req) (r_name r) else pb.t_name (c_task req))
    ∧ t_Queue t2 = t_Queue t ∧ ScheduleTime t2 = ScheduleTime t ∧ t_Created t2 = t_Created t ∧
    DispatchCount t2 = DispatchCount t ∧ ResponseCount t2 = ResponseCount t ∧ FirstAttempt t2 = FirstAttempt t ∧
    LastAttempt t2 = LastAttempt t ∧ DispatchDeadline t2 = DispatchDeadline t ∧
    t_HTTPRequest t2 = t_HTTPRequest t ∧ t_AppEngine t2 = t_AppEngine t)
    as (E1 & E2 & E3 & E4 & E5 & E6 & E7 & E8 & E9 & E10 & E11).
  { unfold t2, t1. rewrite Hname. destruct trace; case_bool_decide; cbn; by rewrite ?Hname. }
  unfold reply_task, reply. destruct (TasksStore.CreateTask s t2 _ _) as [s1 [t'|e]] eqn:Hc; cbn [fst snd]; [|done].
  intros [= <- <-]. cbv zeta. apply create_then_get in Hc as (Hget & Hq & _ & Hcomp & _).
  rewrite E2, Hqueue, bool_decide_false in Hcomp by (intros Hp; by rewrite Hp in Hparse).
  assert (t_Name t' = t_Name t2 ∧ t_Queue t' = c_parent req ∧ t_AppEngine t' = t_AppEngine t ∧
    t_Created t' = r_wall r ∧ ScheduleTime t' = (if IsZero (ScheduleTime t) then r_wall r else ScheduleTime t) ∧
    DispatchDeadline t' = DispatchDeadline t ∧ DispatchCount t' = 0%Z ∧ ResponseCount t' = 0%Z ∧
    FirstAttempt t' = zero ∧ LastAttempt t' = None ∧
    (∀ hr, t_HTTPRequest t = Some hr → Method hr ≠ "" → t_HTTPRequest t' = Some hr))
    as (C1 & C2 & C3 & C4 & C5 & C6 & C7 & C8 & C9 & C10 & C11).
  { rewrite Hcomp, completed_name, completed_queue. unfold completed. cbn. rewrite E10.
    destruct (t_HTTPRequest t) as [hr|] eqn:Hhr; [destruct (bool_decide (Method hr = "")) eqn:Hb|]; cbn;
      rewrite ?E3, ?E4, ?E5, ?E6, ?E7, ?E8, ?E9, ?E10, ?E11, ?Hcr, ?Hdc, ?Hrc, ?Hfa, ?Hla, ?Hhr; split_and!; try done; intros x [= <-]; try done.
    by apply bool_decide_eq_true in Hb. }
  assert (pb.t_name (protoTask s1 t') = t_Name t2) as Hn by (unfold protoTask; cbn; congruence).
  rewrite Hn. unfold GetTask. rewrite Hget. cbn [mbind res_bind]. rewrite C2 in Hq.
  split_and!; [done|done|done| |..].
  - destruct m as [ae|hr].
    + destruct Hmsg as (a & Ha & _ & Hae). eexists _, _. split; [done|]. unfold protoTask, toProtoTaskIn. cbn.
      rewrite C3, Ha. split; [done|]. by apply app_engine_roundtrip.
    + destruct Hmsg as (x & Hx & Hna & Hmx & Hhr). eexists _, _. split; [done|]. unfold protoTask, toProtoTaskIn. cbn.
      rewrite C3, Hna, (C11 x) by done. split; [done|]. cbn. by rewrite Hhr.
  - unfold protoTask, toProtoTaskIn. cbn. rewrite C5, Hsched. by destruct (pb.t_schedule_time _).
  - unfold protoTask, toProtoTaskIn. cbn. by rewrite C4.
  - unfold protoTask, toProtoTaskIn. cbn. by rewrite C6.
  - unfold protoTask, toProtoTaskIn, first_attempt, last_attempt. cbn. by rewrite C7, C8, C9, C10.
Qed.

End create.
