(* ===== verification/TasksApiSpec.v ===== *)
(** * internal/service/tasks: paging, batches and round trips of the API

    Against TasksApi.v: a client's walk over ListTasks, the request_id of a
    batch, what a queue reports of what it was given, and the witnesses. *)

From S2P Require Import Prelude GoLib ApiError Resource MetaStore Float64 Sched IamPolicy Paging NetHttp TasksModel TasksStore TasksStoreSpec TasksDispatch TasksWorker TasksConvert TasksApi.
From Stdlib Require Import Ascii.

Import strings time.

Section paged.
Context {S : Type} `{MSL : MetaStoreLaws S doc} `{TJ : TokenJSON}.
Implicit Types s : (@TasksStore.Store S).

(** ** Walking ListTasks *)

(** A client that follows next_page_token, for at most [fuel] calls. *)
Fixpoint walk_tasks (fuel : nat) s (parent tok : string) (n : Z) : res error (list pb.Task) :=
  match fuel with
  | O => Err (Sentinel "out of calls")
  | Datatypes.S fuel =>
      '(page, next) ← ListTasks s parent tok n;
      if bool_decide (next = "") then Ok page
      else rest ← walk_tasks fuel s parent next n; Ok (page ++ rest)
  end.

(** A walk of the handler's pages is a walk of the keys. *)
Lemma walk_tasks_pages s parent n l pages fuel tok :
  TasksStore.ListTasks s parent = Ok l →
  let byName := fold_left (λ m t, <[t_Name t := t]> m) l (∅ : gmap string Task) in
  walk ("tasks:" +:+ parent) (replicate fuel (t_Name <$> l)) tok n = Ok (pages, true) →
  walk_tasks fuel s parent tok n = Ok ((λ k, protoTask s (default zero_task (byName !! k))) <$> concat pages).
Proof.
  intros Hl byName. revert tok pages. induction fuel as [|fuel IH]; intros tok pages; [done|].
  cbn [replicate walk walk_tasks]. unfold ListTasks. rewrite Hl. cbn [mbind res_bind]. fold byName.
  destruct (Page _ _ _ _) as [[page next]|e]; cbn [mbind res_bind]; [|done].
  case_bool_decide as Hn; [intros [= <-]; cbn; by rewrite List.app_nil_r|].
  intros ([ps fin] & Hw & [= <- ->])%res_bind_ok. rewrite (IH _ _ Hw). cbn [mbind res_bind concat].
  by rewrite fmap_app.
Qed.

(** Following next_page_token over an unchanged queue, whatever the page
    size, ends within one call more than there are tasks and returns every task
    of the queue exactly once, in name order. *)
Theorem list_tasks_pages s parent n l :
  typed s → ascii_only parent = true → Forall (λ t, ascii_only (t_Name t) = true) l →
  TasksStore.ListTasks s parent = Ok l →
  walk_tasks (Datatypes.S (length l)) s parent "" n = Ok (protoTask s <$> l).
Proof.
  intros Hs Hp Hasc Hl. pose proof Hl as Hl'. unfold TasksStore.ListTasks in Hl'.
  destruct (negb _); [done|]. rewrite List_law in Hl'. injection Hl' as Hl'.
  destruct (task_listing s (parent +:+ "/tasks/") Hs) as [Hnd Hin].
  assert (NoDup (t_Name <$> l)) as Hnd' by (rewrite <- Hl'; by rewrite sort_by_perm).
  assert (good_keys (t_Name <$> l)) as Hg.
  { split; [done|]. split.
    - intros (t & Ht & Htl)%list_elem_of_fmap. rewrite <- Hl', sort_by_elem in Htl.
      apply Hin in Htl as [_ Hpre]. rewrite <- Ht in Hpre. by destruct parent.
    - by apply Forall_fmap. }
  assert (sort_strings (t_Name <$> l) = t_Name <$> l) as Hsort.
  { apply sort_strings_unique; [|done]. pose proof (sort_by_sorted t_Name (omap (get_task s) (list_keys (contents (db s)) (taskKey (parent +:+ "/tasks/"))))) as Hss.
    rewrite Hl' in Hss. clear -Hss. induction Hss as [|t l Hss IH Hall]; cbn; constructor; [done|]. by apply Forall_fmap. }
  destruct (walk_complete ("tasks:" +:+ parent) (t_Name <$> l) n (Datatypes.S (length l)) "" "") as (pages & Hw & Hc);
    [done|done|done| |].
  { unfold remaining. rewrite filter_all by (apply Forall_forall; by left). rewrite sort_strings_perm, length_fmap. lia. }
  rewrite (walk_tasks_pages _ _ _ _ _ _ _ Hl Hw), Hc. f_equal. unfold remaining.
  rewrite filter_all by (apply Forall_forall; by left). rewrite Hsort, <- list_fmap_compose.
  apply list_fmap_ext. intros i t Ht%list_elem_of_lookup_2. cbn. by rewrite byName_lookup.
Qed.

End paged.

(** ** A batch's request_id *)

Inductive batch_call :=
| BCreate (trace : option string) (reqs : list CreateTaskRequest) (clock : nat → Readings)
| BDelete (names : list string) (clock : nat → Time).

(** The number of requests is allowed, and they are for this queue. *)
Definition batch_valid (parent : string) (b : batch_call) : bool :=
  match b with
  | BCreate _ reqs _ => negb ((length reqs =? 0)%nat || (MaxBatchCreate <? Z.of_nat (length reqs))%Z) &&
                        forallb (λ r, bool_decide (c_parent r = parent)) reqs
  | BDelete names _ => negb ((length names =? 0)%nat || (MaxBatchDelete <? Z.of_nat (length names))%Z)
  end.

(** A store operation that does not record another batch under the same key. *)
Definition spares_batch (parent id : string) (o : op) : Prop :=
  match o with OKeepBatch q i _ => batchKey q i ≠ batchKey parent id | _ => True end.

Section batches.
Context {S : Type} `{MSL : MetaStoreLaws S doc}.
Implicit Types s : (@TasksStore.Store S).

Abbreviation cts s := (contents (db s)).

Definition batch s (parent id : string) (b : batch_call) (bt : BatchTimes) : (@TasksStore.Store S) * res error BatchOp :=
  match b with
  | BCreate trace reqs clock => BatchCreateTasks s trace parent reqs id clock bt
  | BDelete names clock => BatchDeleteTasks s parent names id clock bt
  end.

Lemma writes_spare s o w parent id :
  writes s o w → spares_batch parent id o → op_key w ≠ batchKey parent id.
Proof.
  intros Hw Hsp Hk. destruct Hw; cbn in Hk; subst; try discriminate Hk; try done.
  destruct H; discriminate.
Qed.

Lemma exec_keeps_batch s o parent id :
  spares_batch parent id o → cts (exec s o) !! batchKey parent id = cts s !! batchKey parent id.
Proof.
  intros Hsp. destruct (exec_applied s o) as (ws & -> & Hws). apply apply_ops_ne.
  apply Forall_forall. intros w Hw. rewrite Forall_forall in Hws. by eapply writes_spare, Hsp; apply Hws.
Qed.

Lemma run_keeps_batch s os parent id :
  Forall (spares_batch parent id) os → cts (run s os) !! batchKey parent id = cts s !! batchKey parent id.
Proof.
  unfold run. intros Hos. revert s. induction Hos as [|o os Ho Hos IH]; intros s; [done|]. cbn.
  by rewrite IH, exec_keeps_batch.
Qed.

Lemma batchOperation_Some s parent id op :
  id ≠ "" → SafeKey (batchKey parent id) = true → cts s !! batchKey parent id = Some (DBatch op) →
  TasksStore.batchOperation s parent id = Some op.
Proof.
  intros Hid Hk Hc. unfold TasksStore.batchOperation. rewrite bool_decide_false by done.
  by rewrite (proj2 (Get_ok _ _ _) (conj Hk Hc)).
Qed.

(** What a batch that answers has stored. *)
Lemma batch_stores `{!ReliableStore S doc} s parent id b bt s1 op :
  batch s parent id b bt = (s1, Ok op) → id ≠ "" → SafeKey (batchKey parent id) = true →
  is_ok (Parse parent) = true ∧ cts s1 !! batchKey parent id = Some (DBatch op).
Proof.
  assert (∀ s' o, id ≠ "" → SafeKey (batchKey parent id) = true →
    cts (keepBatchOperation s' parent id o) !! batchKey parent id = Some (DBatch o)) as Hkeep.
  { intros s' o Hid Hk. unfold keepBatchOperation. rewrite bool_decide_false by done. cbn. rewrite Put_law.
    destruct (st_Commit_cases (db s') [OpPut (batchKey parent id) (DBatch o)]) as [(_ & _ & ->)|(e & He & _)].
    - cbn. by rewrite lookup_insert_eq.
    - rewrite Commit_succeeds in He; [done|]. apply check_keys_ok. by constructor. }
  assert (∀ o, TasksStore.batchOperation s parent id = Some o → cts s !! batchKey parent id = Some (DBatch o)) as Hold.
  { intros o. unfold TasksStore.batchOperation. case_bool_decide; [done|].
    destruct (st_Get _ _) as [[]|] eqn:Hg; intros [= ->]. by apply Get_ok in Hg as [_ ?]. }
  intros Hb Hid Hk. destruct b as [trace reqs clock|names clock]; cbn [batch] in Hb;
    unfold BatchCreateTasks, BatchDeleteTasks in Hb; destruct (Parse parent) as [n|]; try done; (split; [done|]).
  - destruct (_ || _); [done|]. destruct (negb _); [done|]. destruct (TasksStore.GetQueue s parent); [|done].
    destruct (TasksStore.batchOperation s parent id) as [o|]; [simplify_eq; auto|].
    destruct (create_all _ _ _ _ _) as [[s2 failed] created]. simplify_eq. auto.
  - destruct (_ || _); [done|]. destruct (TasksStore.GetQueue s parent); [|done].
    destruct (TasksStore.batchOperation s parent id) as [o|]; [simplify_eq; auto|].
    destruct (delete_all _ _ _ _ _) as [s2 failed]. simplify_eq. auto.
Qed.

(** A request_id runs its batch once.  After a batch with a request_id has
    answered, and whatever operations ran since, another batch for the same queue
    with that request_id answers the first operation and changes nothing. *)
Theorem batch_runs_once `{!ReliableStore S doc} s parent id b bt s1 op os b' bt' :
  batch s parent id b bt = (s1, Ok op) → id ≠ "" → SafeKey (batchKey parent id) = true →
  Forall (spares_batch parent id) os → is_ok (TasksStore.GetQueue (run s1 os) parent) = true →
  batch_valid parent b' = true →
  batch (run s1 os) parent id b' bt' = (run s1 os, Ok op).
Proof.
  intros Hb Hid Hk Hos Hq Hv. destruct (batch_stores _ _ _ _ _ _ _ Hb Hid Hk) as [Hp Hc].
  pose proof (run_keeps_batch s1 os parent id Hos) as Hr. rewrite Hc in Hr.
  apply batchOperation_Some in Hr; [|done..].
  destruct (Parse parent) as [n|] eqn:HP; [|done]. destruct (TasksStore.GetQueue _ _) eqn:Hg; [|done].
  destruct b' as [trace reqs clock|names clock]; unfold batch_valid in Hv; cbn [batch]; unfold BatchCreateTasks, BatchDeleteTasks; rewrite HP.
  - apply andb_true_iff in Hv as [Hn Hall]. apply negb_true_iff in Hn. by rewrite Hn, Hall, Hg, Hr.
  - apply negb_true_iff in Hv. by rewrite Hv, Hg, Hr.
Qed.

End batches.

(** ** Queues *)

Section queue_roundtrip.
Context `{PL : Platform}.

Definition in_i32 (z : Z) : bool := (- 2 ^ 31 <=? z)%Z && (z <? 2 ^ 31)%Z.

Lemma wrap_i32_id z : in_i32 z = true → wrap_i32 z = z.
Proof. unfold in_i32, wrap_i32. intros [H1 H2]%andb_true_iff. bool_prop. rewrite Z.mod_small by lia. lia. Qed.

(** A queue the API made: counts of 32 bits, a state, and no empty part. *)
Record api_queue (q : Queue) : Prop := mkApiQueue {
  aq_concurrent : in_i32 (MaxConcurrentDispatches (q_RateLimits q)) = true;
  aq_attempts : in_i32 (CloudTasks.MaxAttempts (q_RetryConfig q)) = true;
  aq_doublings : in_i32 (CloudTasks.MaxDoublings (q_RetryConfig q)) = true;
  aq_retry : (0 ≤ CloudTasks.MaxRetryDuration (q_RetryConfig q))%Z;
  aq_state : q_State q ≠ StateUnset;
  aq_target : httpTargetJSON (HTTPTarget q) = HTTPTarget q;
  aq_routing : match q_AppEngineRouting q with Some r => r ≠ mkAppEngineRouting "" "" "" | None => True end
}.

(** What the API shows of a queue is all of its configuration: converting
    the message back gives the queue again, but for its creation and purge times
    and IAM policy, which the message does not set. *)
Theorem queue_proto_roundtrip q :
  api_queue q → fromProtoQueue (toProtoQueue q) = set_IAMPolicy (set_Purged (set_q_Created q zero) zero) None.
Proof.
  intros []. destruct q as [name state [ma mib mab md mrd] [rate conc] cr pu iam log ht routing]. cbn in *.
  unfold fromProtoQueue, toProtoQueue, set_IAMPolicy, set_Purged, set_q_Created. cbn.
  rewrite !wrap_i32_id by done. f_equal.
  - by destruct state.
  - f_equal. destruct (0 <? mrd)%Z eqn:Hm; cbn; [done|]. apply Z.ltb_ge in Hm. lia.
  - by destruct log as [[]|].
  - done.
  - destruct routing as [[a b c]|]; [|done]. cbn. repeat (case_bool_decide; subst; cbn; try done).
Qed.

End queue_roundtrip.

(** ** Examples *)

Module ApiExamples.

Import TasksStoreSpec.Examples Memory Paging.Example.

#[local] Instance amd64 : Platform := {| undef_int64 := int_min |}.

Definition http (m : HttpMethod) : pb.HttpRequest :=
  pb.mkHttpRequest "http://localhost/h" m {["X-A" := "1"]} "" (Some (AuthOidc (mkOIDCToken "me@x" "aud"))).

Definition task_of (name : string) (m : HttpMethod) : pb.Task :=
  pb.mkTask name (Some (pb.Task_HttpRequest (http m))) None None (Some (20 * Second)%Z) 0 0 None None.

Definition request (name : string) (m : HttpMethod) : CreateTaskRequest := mkCreateTaskRequest queue (task_of name m).
Definition times : Readings := mkReadings (unix_epoch * Second + 30)%Z 31%Z 32%Z.

Definition created := CreateTask s1 None (request "" PUT) times.
Definition created_task : pb.Task :=
  match created.2 with Ok p => p | Err _ => task_of "" PUT end.

Lemma create_task_roundtrip_witness :
  GetTask created.1 (pb.t_name created_task) = Ok created_task ∧
  pb.t_message_type created_task = Some (pb.Task_HttpRequest (http PUT)).
Proof.
  assert (created = (created.1, Ok created_task)) as Hc by (vm_compute; reflexivity).
  generalize dependent created_task. generalize created.1. unfold created. intros s' out Hc.
  destruct (create_task_roundtrip s1 None (request "" PUT) times s' out Hc)
    as (Hg & _ & _ & (m & m' & Hm & Hm' & He) & _).
  split; [exact Hg|]. injection Hm as <-. destruct m' as [a|hr]; [destruct He|].
  change (hr = http PUT) in He. subst hr. exact Hm'.
Defined.

(** Three tasks, listed two at a time. *)
Definition s3 : st :=
  run s1 [OCreateTask (a_task (queue +:+ "/tasks/c") "") 9 9; OCreateTask (a_task (queue +:+ "/tasks/b") "") 9 9]%Z.

Definition s3_tasks : list Task := match TasksStore.ListTasks s3 queue with Ok l => l | Err _ => [] end.

Lemma s3_typed : typed s3.
Proof. apply typed_run; [apply s1_typed|]. repeat constructor. Qed.

Lemma list_tasks_pages_witness :
  length s3_tasks = 3%nat ∧ walk_tasks 4 s3 queue "" 2 = Ok (protoTask s3 <$> s3_tasks).
Proof.
  split; [vm_compute; reflexivity|]. refine (list_tasks_pages s3 queue 2 s3_tasks s3_typed _ _ _).
  - reflexivity.
  - vm_compute. repeat constructor.
  - vm_compute. reflexivity.
Defined.

Definition del : batch_call := BDelete [named; other +:+ "/tasks/z"] (λ _, 40%Z).
Definition bt1 : BatchTimes := mkBatchTimes 40%Z 41%Z 42%Z.
Definition bt2 : BatchTimes := mkBatchTimes 50%Z 51%Z 52%Z.

Definition first_batch := batch s1 queue "r1" del bt1.
Definition first_op : BatchOp :=
  match first_batch.2 with Ok op => op | Err _ => mkBatchOp "" 0%Z 0%Z false [] BatchEmpty end.

Example first_batch_result :
  FailedRequests first_op = [(1%Z, codes.InvalidArgument)] ∧ PartiallySucceeded first_op = true ∧
  b_Result first_op = BatchEmpty ∧ TasksStore.GetTask first_batch.1 named = Err NotFound.
Proof. vm_compute. done. Qed.

Lemma batch_runs_once_witness :
  let s2 := run first_batch.1 [ODeleteQueue other; OPurgeQueue queue 45%Z] in
  batch s2 queue "r1" (BCreate None [request "" POST] (λ _, times)) bt2 = (s2, Ok first_op).
Proof.
  apply (batch_runs_once s1 queue "r1" del bt1 first_batch.1 first_op); try (vm_compute; reflexivity); [done|].
  repeat constructor.
Defined.

Definition limited : Queue :=
  set_q_config (a_queue queue) (CloudTasks.mkCloudTasksBackoff 5 Second Hour 4 (2 * Hour)%Z) (mkRateLimits (of_int 3) 7).

Lemma queue_proto_roundtrip_witness :
  fromProtoQueue (toProtoQueue limited) = set_IAMPolicy (set_Purged (set_q_Created limited zero) zero) None.
Proof. apply queue_proto_roundtrip. by split. Defined.

Definition mask_request : pb.Queue :=
  pb.mkQueue queue None (Some (pb.mkRateLimits (of_int 3) 0 7)) None pb.PAUSED None None None.

(** One field of rate_limits is updated, the other keeps its value. *)
Example mask_one_field :
  match (UpdateQueue s1 mask_request ["rate_limits.max_concurrent_dispatches"] 60%Z).2 with
  | Ok p => pb.q_rate_limits p = Some (pb.mkRateLimits (of_int 500) 500 7) ∧ pb.q_state p = pb.RUNNING
  | Err _ => False
  end.
Proof. vm_compute. done. Qed.

(** ** Divergences *)

(** An HTTP task with no http_method, which the contract and the store's
    own default take for POST, is stored and sent with the method
    HTTP_METHOD_UNSPECIFIED. *)
Theorem unspecified_method_sent :
  let s := (CreateTask s1 None (request (queue +:+ "/tasks/m") HTTP_METHOD_UNSPECIFIED) times).1 in
  match TasksStore.GetTask s (queue +:+ "/tasks/m") with
  | Ok t => Method <$> t_HTTPRequest t = Some "HTTP_METHOD_UNSPECIFIED"
  | Err _ => False
  end.
Proof. vm_compute. reflexivity. Qed.

(** A request_id that is not a safe key is not recorded, so repeating the
    batch runs it again: the second operation is another one. *)
Theorem unsafe_request_id_runs_again :
  let r1 := batch s1 queue "a..b" del bt1 in
  let r2 := batch r1.1 queue "a..b" del bt2 in
  match r1.2, r2.2 with
  | Ok op1, Ok op2 => b_Result op1 = BatchEmpty ∧ b_Result op2 = BatchAborted
  | _, _ => False
  end.
Proof. vm_compute. done. Qed.

(** A method number without a name is stored as its digits and answered as POST. *)
Example unknown_method_answered_post :
  let r := CreateTask s1 None (request (queue +:+ "/tasks/u") (other_method 99)) times in
  match r.2, TasksStore.GetTask r.1 (queue +:+ "/tasks/u") with
  | Ok p, Ok t => Method <$> t_HTTPRequest t = Some "99" ∧
                  match pb.t_message_type p with Some (pb.Task_HttpRequest hr) => pb.hr_http_method hr = POST | _ => False end
  | _, _ => False
  end.
Proof. vm_compute. done. Qed.

(** A trailing dot names the whole message, and so does anything under three of
    the messages. *)
Example loose_paths_accepted :
  is_ok (UpdateQueue s1 mask_request ["rate_limits."] 60%Z).2 = true ∧
  is_ok (UpdateQueue s1 mask_request ["http_target.no_such_field"] 60%Z).2 = true.
Proof. vm_compute. done. Qed.

(** A path under stackdriver_logging_config that names no field is accepted,
    where UpdateQueue's contract is to refuse it, and clears the config. *)
Theorem logging_subpath_accepted :
  is_ok (UpdateQueue s1 mask_request ["stackdriver_logging_config.no_such_field"] 60%Z).2 = true.
Proof. vm_compute. reflexivity. Qed.

End ApiExamples.
