(* ===== verification/SecretsModel.v ===== *)
(** * internal/service/secrets: the data of Secret Manager

    The structs of store.go, schedule.go and cmek.go, the documents the store
    holds, and what the code around Secret Manager supplies: a clock reading,
    the Pub/Sub publisher, Cloud KMS and random bytes. *)

From S2P Require Import Prelude GoLib ApiError MetaStore IamPolicy.

Import time.

(** ** Versions and secrets *)

Inductive VersionState := StateEnabled | StateDisabled | StateDestroyed.

#[global] Instance VersionState_eq_dec : EqDecision VersionState.
Proof. solve_decision. Defined.

Definition LatestAlias : string := "latest".

(** One replica's part of a version's replication_status.  A byte slice is the
    string of its bytes. *)
Record ReplicaStatus := mkReplicaStatus {
  r_Location : string;
  r_KMSKey : string;
  r_KeyVersion : string;
  r_WrappedKey : string
}.

Record Secret := mkSecret {
  s_Name : string;
  s_Created : Time;
  s_Labels : gmap string string;
  s_Annotations : gmap string string;
  s_Replication : string;
  s_ReplicaLocations : list string;
  s_KMSKeys : list string;
  s_NextVersion : Z;
  s_Etag : string;
  s_IAMPolicy : option IamPolicy.Stored;
  s_Expire : Time;
  s_Topics : list string;
  s_NextRotation : Time;
  s_RotationPeriod : Duration;
  s_VersionDestroyTTL : Duration;
  s_ScheduledDestroys : gmap string Time
}.

Record Version := mkVersion {
  v_Name : string;
  v_Number : Z;
  v_State : VersionState;
  v_Created : Time;
  v_Destroyed : Time;
  v_ScheduledDestroy : Time;
  v_Payload : string;
  v_PayloadSize : Z;
  v_Etag : string;
  v_Replicas : list ReplicaStatus;
  v_ClientChecksum : bool
}.

Definition Expired (s : Secret) (now : Time) : bool :=
  negb (IsZero (s_Expire s)) && negb (Before now (s_Expire s)).

Definition Accessible (v : Version) : bool := bool_decide (v_State v = StateEnabled).

(** The updates the operations make of one field, or of a few at a time. *)

Definition set_Labels (sec : Secret) (l0 : gmap string string) : Secret :=
  mkSecret (s_Name sec) (s_Created sec) l0 (s_Annotations sec) (s_Replication sec) (s_ReplicaLocations sec)
    (s_KMSKeys sec) (s_NextVersion sec) (s_Etag sec) (s_IAMPolicy sec) (s_Expire sec) (s_Topics sec)
    (s_NextRotation sec) (s_RotationPeriod sec) (s_VersionDestroyTTL sec) (s_ScheduledDestroys sec).
Definition set_Annotations (sec : Secret) (a0 : gmap string string) : Secret :=
  mkSecret (s_Name sec) (s_Created sec) (s_Labels sec) a0 (s_Replication sec) (s_ReplicaLocations sec)
    (s_KMSKeys sec) (s_NextVersion sec) (s_Etag sec) (s_IAMPolicy sec) (s_Expire sec) (s_Topics sec)
    (s_NextRotation sec) (s_RotationPeriod sec) (s_VersionDestroyTTL sec) (s_ScheduledDestroys sec).
Definition set_KMSKeys (sec : Secret) (k0 : list string) : Secret :=
  mkSecret (s_Name sec) (s_Created sec) (s_Labels sec) (s_Annotations sec) (s_Replication sec)
    (s_ReplicaLocations sec) k0 (s_NextVersion sec) (s_Etag sec) (s_IAMPolicy sec) (s_Expire sec)
    (s_Topics sec) (s_NextRotation sec) (s_RotationPeriod sec) (s_VersionDestroyTTL sec)
    (s_ScheduledDestroys sec).
Definition set_NextVersion (sec : Secret) (n0 : Z) : Secret :=
  mkSecret (s_Name sec) (s_Created sec) (s_Labels sec) (s_Annotations sec) (s_Replication sec)
    (s_ReplicaLocations sec) (s_KMSKeys sec) n0 (s_Etag sec) (s_IAMPolicy sec) (s_Expire sec) (s_Topics sec)
    (s_NextRotation sec) (s_RotationPeriod sec) (s_VersionDestroyTTL sec) (s_ScheduledDestroys sec).
Definition set_Etag (sec : Secret) (e0 : string) : Secret :=
  mkSecret (s_Name sec) (s_Created sec) (s_Labels sec) (s_Annotations sec) (s_Replication sec)
    (s_ReplicaLocations sec) (s_KMSKeys sec) (s_NextVersion sec) e0 (s_IAMPolicy sec) (s_Expire sec)
    (s_Topics sec) (s_NextRotation sec) (s_RotationPeriod sec) (s_VersionDestroyTTL sec)
    (s_ScheduledDestroys sec).
Definition set_IAMPolicy (sec : Secret) (i0 : option IamPolicy.Stored) : Secret :=
  mkSecret (s_Name sec) (s_Created sec) (s_Labels sec) (s_Annotations sec) (s_Replication sec)
    (s_ReplicaLocations sec) (s_KMSKeys sec) (s_NextVersion sec) (s_Etag sec) i0 (s_Expire sec)
    (s_Topics sec) (s_NextRotation sec) (s_RotationPeriod sec) (s_VersionDestroyTTL sec)
    (s_ScheduledDestroys sec).
Definition set_Expire (sec : Secret) (e0 : Time) : Secret :=
  mkSecret (s_Name sec) (s_Created sec) (s_Labels sec) (s_Annotations sec) (s_Replication sec)
    (s_ReplicaLocations sec) (s_KMSKeys sec) (s_NextVersion sec) (s_Etag sec) (s_IAMPolicy sec) e0
    (s_Topics sec) (s_NextRotation sec) (s_RotationPeriod sec) (s_VersionDestroyTTL sec)
    (s_ScheduledDestroys sec).
Definition set_Topics (sec : Secret) (t0 : list string) : Secret :=
  mkSecret (s_Name sec) (s_Created sec) (s_Labels sec) (s_Annotations sec) (s_Replication sec)
    (s_ReplicaLocations sec) (s_KMSKeys sec) (s_NextVersion sec) (s_Etag sec) (s_IAMPolicy sec)
    (s_Expire sec) t0 (s_NextRotation sec) (s_RotationPeriod sec) (s_VersionDestroyTTL sec)
    (s_ScheduledDestroys sec).
Definition set_VersionDestroyTTL (sec : Secret) (v0 : Duration) : Secret :=
  mkSecret (s_Name sec) (s_Created sec) (s_Labels sec) (s_Annotations sec) (s_Replication sec)
    (s_ReplicaLocations sec) (s_KMSKeys sec) (s_NextVersion sec) (s_Etag sec) (s_IAMPolicy sec)
    (s_Expire sec) (s_Topics sec) (s_NextRotation sec) (s_RotationPeriod sec) v0 (s_ScheduledDestroys sec).
Definition set_ScheduledDestroys (sec : Secret) (s0 : gmap string Time) : Secret :=
  mkSecret (s_Name sec) (s_Created sec) (s_Labels sec) (s_Annotations sec) (s_Replication sec)
    (s_ReplicaLocations sec) (s_KMSKeys sec) (s_NextVersion sec) (s_Etag sec) (s_IAMPolicy sec)
    (s_Expire sec) (s_Topics sec) (s_NextRotation sec) (s_RotationPeriod sec) (s_VersionDestroyTTL sec) s0.
Definition set_Rotation (sec : Secret) (n0 : Time) (r1 : Duration) : Secret :=
  mkSecret (s_Name sec) (s_Created sec) (s_Labels sec) (s_Annotations sec) (s_Replication sec)
    (s_ReplicaLocations sec) (s_KMSKeys sec) (s_NextVersion sec) (s_Etag sec) (s_IAMPolicy sec)
    (s_Expire sec) (s_Topics sec) n0 r1 (s_VersionDestroyTTL sec) (s_ScheduledDestroys sec).
Definition set_State (v : Version) (s0 : VersionState) (e1 : string) (s2 : Time) : Version :=
  mkVersion (v_Name v) (v_Number v) s0 (v_Created v) (v_Destroyed v) s2 (v_Payload v) (v_PayloadSize v) e1
    (v_Replicas v) (v_ClientChecksum v).
Definition set_Payload (v : Version) (p0 : string) (p1 : Z) : Version :=
  mkVersion (v_Name v) (v_Number v) (v_State v) (v_Created v) (v_Destroyed v) (v_ScheduledDestroy v) p0 p1
    (v_Etag v) (v_Replicas v) (v_ClientChecksum v).
Definition set_sealed (v : Version) (p0 : string) (p1 : Z) (r2 : list ReplicaStatus) : Version :=
  mkVersion (v_Name v) (v_Number v) (v_State v) (v_Created v) (v_Destroyed v) (v_ScheduledDestroy v) p0 p1
    (v_Etag v) r2 (v_ClientChecksum v).
Definition set_destroyed (v : Version) (s0 : VersionState) (s1 : Time) (d2 : Time) (p3 : string) (p4 : Z) (r5 : list ReplicaStatus) (e6 : string) : Version :=
  mkVersion (v_Name v) (v_Number v) s0 (v_Created v) d2 s1 p3 p4 e6 r5 (v_ClientChecksum v).

(** ** Schedules and updates *)

Record Schedule := mkSchedule {
  NextRotation : Time;
  RotationPeriod : Duration;
  VersionDestroyTTL : Duration
}.

Record SecretUpdate := mkSecretUpdate {
  u_Labels : gmap string string;
  u_Annotations : gmap string string;
  UpdateLabels : bool;
  UpdateAnnotations : bool;
  u_Expire : Time;
  UpdateExpire : bool;
  u_Topics : list string;
  UpdateTopics : bool;
  u_Schedule : Schedule;
  UpdateNextRotation : bool;
  UpdateRotationPeriod : bool;
  UpdateVersionDestroyTTL : bool
}.

(** ** Stored documents *)

Inductive doc :=
| DSecret (s : Secret)
| DVersion (v : Version).

(** [json.Marshal] succeeds: every time is in a year it can write. *)
Definition marshals (d : doc) : bool :=
  match d with
  | DSecret s =>
      json_ok (s_Created s) && json_ok (s_Expire s) && json_ok (s_NextRotation s) &&
      forallb (λ kv, json_ok kv.2) (map_to_list (s_ScheduledDestroys s))
  | DVersion v => json_ok (v_Created v) && json_ok (v_Destroyed v) && json_ok (v_ScheduledDestroy v)
  end.

Definition ErrEncode : error := Sentinel "json: unsupported value".
Definition ErrDecode : error := Sentinel "json: cannot unmarshal".

(** ** Event notifications *)

Inductive event :=
| EventTopicConfigured | EventSecretCreate | EventSecretUpdate | EventSecretDelete | EventSecretRotate
| EventSecretVersionAdd | EventSecretVersionEnable | EventSecretVersionDisable
| EventSecretVersionDestroy | EventSecretVersionDestroyScheduled.

#[global] Instance event_eq_dec : EqDecision event.
Proof. solve_decision. Defined.

Inductive deleteType := deleteRequested | deleteExpiration.

(** The data of a message: the rendered secret or version. *)
Inductive rendered :=
| NoData
| SecretData (s : Secret)
| VersionData (v : Version).

(** The attributes [secretId], [versionId] and [timestamp] are those of the
    rendered value and of the event, [dataFormat] is constant. *)
Record Message := mkMessage {
  m_topic : string;
  m_event : event;
  m_data : rendered;
  m_secretId : option string;
  m_versionId : option string;
  m_timestamp : option Time;
  m_deleteType : option deleteType
}.

(** ** What surrounds the store

    Cloud KMS as CMEK uses it: [Encrypt] of a key's name, the plaintext and the
    additional data gives the key version used and the ciphertext. *)
Record KeyService := mkKeyService {
  Encrypt : string → string → string → res error (string * string);
  Decrypt : string → string → string → res error string
}.

(** One operation's surroundings: the base clock's reading, which stands still
    while the operation holds the lock, the publisher and Cloud KMS if there
    are any, the random bytes drawn for a data key, a nonce and a policy's
    etag ([None]: the reader fails), and the order a [range] over a map takes
    its keys in. *)
Record Env := mkEnv {
  clock_Now : Time;
  publisher : option (Message → option error);
  keyService : option KeyService;
  rand_dek : option string;
  rand_nonce : option string;
  rand_etag : string;
  map_order : list string → list string
}.
