(* ===== verification/SecretsNames.v ===== *)
(** * internal/service/secrets: names and storage keys

    The names of secrets and versions, the scope that stands for a project or
    for a project's location, and the keys documents are stored under. *)

From S2P Require Import Prelude GoLib ApiError Resource MetaStore GoCrypto SecretsModel.
From Stdlib Require Import Ascii DecimalString DecimalFacts DecimalN DecimalPos.

Import strings strconv.

(** ** Scopes *)

Definition regionalSep : ascii := "@".

Definition RegionalScope (project location : string) : string := project +:+ String regionalSep location.

Definition SplitScope (scope : string) : string * string :=
  let '(project, location, _) := Cut scope regionalSep in (project, location).

Definition ValidateSecretID (id : string) : res error unit :=
  if bool_decide (id = "") then Err InvalidArgument
  else if (255 <? len id)%nat then Err InvalidArgument
  else if AllBytes (λ a, is_alnum a || one_of ["-"; "_"]%char a) id then Ok tt
  else Err InvalidArgument.

Definition ParseSecretName (name : string) : res error (string * string) :=
  parts ← match Split name slash with
          | [p0; p1; p2; p3; p4; p5] as parts =>
              if bool_decide (p0 = "projects") && bool_decide (p2 = "locations") && bool_decide (p4 = "secrets")
              then if ValidID p3 then Ok [p0; RegionalScope p1 p3; p4; p5] else Err InvalidArgument
              else Ok parts
          | parts => Ok parts
          end;
  match parts with
  | [p0; project; p2; secret] =>
      if negb (bool_decide (p0 = "projects")) || negb (bool_decide (p2 = "secrets")) then Err InvalidArgument
      else if negb (ValidID (SplitScope project).1) then Err InvalidArgument
      else if negb (ValidID secret) then Err InvalidArgument
      else _ ← ValidateSecretID secret; Ok (project, secret)
  | _ => Err InvalidArgument
  end.

Definition ParseVersionName (name : string) : res error (string * string * string) :=
  match Index name "/versions/" with
  | None => Err InvalidArgument
  | Some idx =>
      let parent := take_bytes idx name in
      let version := drop_bytes (idx + len "/versions/") name in
      if bool_decide (version = "") || Contains version "/" then Err InvalidArgument
      else
        '(project, secret) ← ParseSecretName parent;
        if bool_decide (version = LatestAlias) then Ok (project, secret, version)
        else match Atoi version with
             | Some n => if (n <? 1)%Z then Err InvalidArgument else Ok (project, secret, version)
             | None => Err InvalidArgument
             end
  end.

Definition SecretName (project secret : string) : string :=
  let '(p, l) := SplitScope project in
  if negb (bool_decide (l = ""))
  then "projects/" +:+ p +:+ "/locations/" +:+ l +:+ "/secrets/" +:+ secret
  else "projects/" +:+ project +:+ "/secrets/" +:+ secret.

Definition VersionName (project secret : string) (number : Z) : string :=
  SecretName project secret +:+ "/versions/" +:+ Itoa number.

Definition scopeOfName (name : string) : string :=
  match Split name slash with
  | p0 :: p1 :: p2 :: p3 :: rest =>
      if match rest with
         | p4 :: _ :: _ => bool_decide (p0 = "projects") && bool_decide (p2 = "locations") && bool_decide (p4 = "secrets")
         | _ => false
         end
      then RegionalScope p1 p3
      else if bool_decide (p0 = "projects") && bool_decide (p2 = "secrets") then p1 else ""
  | _ => ""
  end.

Definition Regional (s : Secret) : bool :=
  negb (bool_decide ((SplitScope (scopeOfName (s_Name s))).2 = "")).

Definition secretParts (name : string) : string * string :=
  match Split name slash with
  | [_; p; _; id] => (p, id)
  | [_; p; _; l; _; id] => (RegionalScope p l, id)
  | _ => ("", "")
  end.

(** ** Keys *)

Definition secretKey (project secret : string) : string := "secret/" +:+ project +:+ "/" +:+ secret.

(** The prefix of the keys of a secret's versions. *)
Definition versionPrefix (project secret : string) : string := "version/" +:+ project +:+ "/" +:+ secret +:+ "/".

Definition versionKey (project secret : string) (number : Z) : string :=
  versionPrefix project secret +:+ fmt.Sprintf_0d 10 number.

(** The key a version's payload has in its Kubernetes Secret. *)
Definition VersionKey (number : Z) : string := "v" +:+ Itoa number.

(** The page key of a version: the complement of its number, so that ascending
    strings are descending numbers. *)
Definition descendingKey (number : Z) : string := fmt.Sprintf_0d 13 (2 ^ 40 - number).

Section kubernetes.
Context `{Crypto}.

(** [strings.Trim(s, "-")] *)
Fixpoint trim_dashes (s : string) : string :=
  match s with
  | String "-"%char s' => trim_dashes s'
  | _ => s
  end.
Definition Trim_dashes (s : string) : string := String.rev (trim_dashes (String.rev (trim_dashes s))).

Fixpoint sanitise (s : string) : string :=
  match s with
  | EmptyString => ""
  | String a s' => String (if is_lower a || is_digit a || one_of ["-"%char] a then a else "-"%char) (sanitise s')
  end.

(** The secret's ID is ASCII, so its runes are its bytes. *)
Definition KubernetesSecretName (project secret : string) : string :=
  let digest := take_bytes 10 (sha256_hex (project +:+ "/" +:+ secret)) in
  let sanitised := Trim_dashes (sanitise (ToLower secret)) in
  let sanitised := if bool_decide (sanitised = "") then "secret" else sanitised in
  let sanitised := if (200 <? len sanitised)%nat then take_bytes 200 sanitised else sanitised in
  "cb-secret-" +:+ sanitised +:+ "-" +:+ digest.

Definition VersionSecretName (project secret : string) (number : Z) : string :=
  KubernetesSecretName project secret +:+ "-v" +:+ Itoa number.

End kubernetes.

(** ** Facts about scopes and names *)

Lemma SplitScope_free scope :
  free_of slash scope = true →
  free_of slash (SplitScope scope).1 = true ∧ free_of slash (SplitScope scope).2 = true.
Proof.
  unfold SplitScope. pose proof (Cut_spec scope regionalSep) as H.
  destruct (Cut scope regionalSep) as [[x y] found]. destruct H as [_ H]. destruct found.
  - subst. rewrite free_of_app, free_of_cons. cbn. intros Hf. bool_prop. done.
  - destruct H as [-> ->]. done.
Qed.

(** The scope is what its two parts name. *)
Lemma SplitScope_join scope :
  (SplitScope scope).2 ≠ "" → RegionalScope (SplitScope scope).1 (SplitScope scope).2 = scope.
Proof.
  unfold SplitScope, RegionalScope. pose proof (Cut_spec scope regionalSep) as H.
  destruct (Cut scope regionalSep) as [[x y] found]. destruct H as [_ H]. cbn.
  destruct found; [done|]. by destruct H as [_ ->].
Qed.

Lemma SplitScope_Regional p l : free_of regionalSep p = true → SplitScope (RegionalScope p l) = (p, l).
Proof. intros Hp. unfold SplitScope, RegionalScope. by rewrite Cut_app_sep. Qed.

(** The segments of a secret's name. *)
Definition name_segments (project secret : string) : list string :=
  let '(p, l) := SplitScope project in
  if negb (bool_decide (l = ""))
  then ["projects"; p; "locations"; l; "secrets"; secret]
  else ["projects"; project; "secrets"; secret].

Lemma SecretName_segments project secret : SecretName project secret = Join (name_segments project secret) slash.
Proof.
  unfold SecretName, name_segments. destruct (SplitScope project) as [p l].
  by destruct (negb (bool_decide (l = ""))).
Qed.

Lemma Split_SecretName project secret :
  free_of slash project = true → free_of slash secret = true →
  Split (SecretName project secret) slash = name_segments project secret.
Proof.
  intros Hp Hs. rewrite SecretName_segments. unfold name_segments.
  destruct (SplitScope_free _ Hp) as [H1 H2]. destruct (SplitScope project) as [p l].
  destruct (negb (bool_decide (l = ""))); apply Split_Join; [done| |done|]; by repeat constructor.
Qed.

(** A name leads back to the scope and ID it was made of. *)
Lemma secretParts_SecretName project secret :
  free_of slash project = true → free_of slash secret = true →
  secretParts (SecretName project secret) = (project, secret).
Proof.
  intros Hp Hs. unfold secretParts. rewrite Split_SecretName by done. unfold name_segments.
  pose proof (SplitScope_join project) as Hj. destruct (SplitScope project) as [p l].
  destruct (bool_decide (l = "")) eqn:Hl; bool_prop; [done|]. cbn in *. by rewrite Hj.
Qed.

Lemma scopeOfName_SecretName project secret :
  free_of slash project = true → free_of slash secret = true →
  scopeOfName (SecretName project secret) = project.
Proof.
  intros Hp Hs. unfold scopeOfName. rewrite Split_SecretName by done. unfold name_segments.
  pose proof (SplitScope_join project) as Hj. destruct (SplitScope project) as [p l].
  destruct (bool_decide (l = "")) eqn:Hl; bool_prop; [done|]. cbn in *. by rewrite Hj.
Qed.

(** A project, or a project's location, as requests name them. *)
Definition valid_scope (scope : string) : Prop :=
  ValidID scope = true ∨ ∃ p l, ValidID p = true ∧ ValidID l = true ∧ scope = RegionalScope p l.

Lemma idRE_free_of c id :
  idRE id = true → is_alnum c || one_of ["."; "_"; "~"; "%"; "+"; "-"]%char c = false → free_of c id = true.
Proof.
  unfold idRE. intros H. bool_prop. unfold free_of. intros Hc.
  match goal with H : AllBytes _ id = true |- _ => revert H end. clear -Hc.
  induction id as [|a id IH]; [done|]. simpl. intros [Ha H]%andb_true_iff. rewrite IH by done.
  rewrite bool_decide_false; [done|]. intros ->. congruence.
Qed.

Lemma ValidID_no_sep id : ValidID id = true → free_of regionalSep id = true.
Proof. intros H%ValidID_idRE. by apply idRE_free_of. Qed.

Lemma SplitScope_plain p : free_of regionalSep p = true → SplitScope p = (p, "").
Proof.
  intros Hp. unfold SplitScope. pose proof (Cut_spec p regionalSep) as H.
  destruct (Cut p regionalSep) as [[x y] found]. destruct H as [_ H]. destruct found.
  - subst. rewrite free_of_app, free_of_cons in Hp. by rewrite bool_decide_true, andb_false_r in Hp.
  - by destruct H as [-> ->].
Qed.

Lemma valid_scope_free scope : valid_scope scope → free_of slash scope = true ∧ ValidID (SplitScope scope).1 = true.
Proof.
  intros [H|(p & l & Hp & Hl & ->)].
  - rewrite SplitScope_plain by by apply ValidID_no_sep. split; [by apply ValidID_free|done].
  - rewrite SplitScope_Regional by by apply ValidID_no_sep. split; [|done].
    unfold RegionalScope. rewrite free_of_app, free_of_cons. by rewrite !ValidID_free.
Qed.

Lemma Index_cons a s sub :
  Index (String a s) sub = if HasPrefix (String a s) sub then Some 0 else S <$> Index s sub.
Proof. done. Qed.

(** [strings.Index(_, "/versions/")] only finds a whole segment. *)
Lemma Index_skip s t :
  free_of slash s = true → Index (s +:+ t) "/versions/" = (λ n, len s + n) <$> Index t "/versions/".
Proof.
  induction s as [|a s IH]; intros Hs.
  - change ("" +:+ t) with t. by destruct (Index t "/versions/").
  - rewrite free_of_cons in Hs. bool_prop. rewrite app_cons, Index_cons, IH by done.
    assert (HasPrefix (String a (s +:+ t)) "/versions/" = false) as -> by (cbn; by rewrite decide_False).
    by destruct (Index t "/versions/").
Qed.

Lemma HasPrefix_segment s t w :
  free_of slash s = true → free_of slash w = true →
  HasPrefix (s +:+ String slash t) (w +:+ "/") = bool_decide (s = w).
Proof.
  revert w. induction s as [|a s IH]; intros [|b w] Hs Hw; [done|..].
  - rewrite free_of_cons in Hw. bool_prop. change ("" +:+ String slash t) with (String slash t).
    rewrite app_cons. cbn [HasPrefix]. by rewrite decide_False.
  - rewrite free_of_cons in Hs. bool_prop. rewrite app_cons. change ("" +:+ "/") with "/". cbn [HasPrefix].
    by rewrite decide_False.
  - rewrite free_of_cons in Hs, Hw. bool_prop. rewrite !app_cons. cbn [HasPrefix].
    destruct (decide (b = a)) as [->|]; [|symmetry; apply bool_decide_eq_false; congruence].
    rewrite IH by done. apply bool_decide_ext. naive_solver.
Qed.

Lemma Index_segment s t :
  free_of slash s = true → s ≠ "versions" →
  Index (String slash (s +:+ String slash t)) "/versions/" =
  (λ n, S (len s) + n) <$> Index (String slash t) "/versions/".
Proof.
  intros Hs Hne. rewrite (Index_cons slash (s +:+ _)).
  assert (HasPrefix (String slash (s +:+ String slash t)) "/versions/" = false) as ->.
  { change "/versions/" with (String slash ("versions" +:+ "/")). cbn [HasPrefix]. rewrite decide_True by done.
    rewrite HasPrefix_segment by done. by apply bool_decide_eq_false. }
  rewrite Index_skip by done. by destruct (Index (String slash t) "/versions/").
Qed.

(** The segments after the first, each after its slash. *)
Fixpoint tail_segments (segs : list string) : string :=
  match segs with
  | [] => ""
  | s :: rest => String slash (s +:+ tail_segments rest)
  end.

Lemma Join_tail s segs : Join (s :: segs) slash = s +:+ tail_segments segs.
Proof.
  revert s. induction segs as [|x segs IH]; intros s; [by rewrite app_nil_r|].
  by rewrite Join_cons2, IH.
Qed.

Lemma Index_segments segs x :
  Forall (λ s, free_of slash s = true ∧ s ≠ "versions") segs →
  Index (tail_segments segs +:+ "/versions/" +:+ x) "/versions/" = Some (len (tail_segments segs)).
Proof.
  induction 1 as [|s segs [Hs Hv] _ IH]; [done|]. cbn [tail_segments]. rewrite app_cons, app_assoc.
  assert (∃ t, tail_segments segs +:+ "/versions/" +:+ x = String slash t) as [t Ht] by (destruct segs; by eexists).
  rewrite Ht in *. rewrite Index_segment, IH by done. cbn. by rewrite len_app.
Qed.

Lemma Index_SecretName project secret x :
  free_of slash project = true → free_of slash secret = true →
  Forall (λ seg, seg ≠ "versions") (name_segments project secret) →
  Index (SecretName project secret +:+ "/versions/" +:+ x) "/versions/" = Some (len (SecretName project secret)).
Proof.
  intros Hp Hs. rewrite SecretName_segments. unfold name_segments.
  destruct (SplitScope_free _ Hp) as [H1 H2]. destruct (SplitScope project) as [p l]. cbn in H1, H2.
  intros Hv. assert (∃ segs, (if negb (bool_decide (l = "")) then ["projects"; p; "locations"; l; "secrets"; secret]
    else ["projects"; project; "secrets"; secret]) = "projects" :: segs ∧
    Forall (λ s, free_of slash s = true ∧ s ≠ "versions") segs) as (segs & -> & Hsegs).
  { destruct (negb (bool_decide (l = ""))); eexists; (split; [done|]); rewrite !Forall_cons in *; naive_solver. }
  rewrite Join_tail, app_assoc, Index_skip, Index_segments by done. cbn [fmap option_fmap option_map].
  by rewrite len_app.
Qed.

Lemma ParseVersionName_of project secret version :
  free_of slash project = true → free_of slash secret = true →
  Forall (λ seg, seg ≠ "versions") (name_segments project secret) →
  ParseSecretName (SecretName project secret) = Ok (project, secret) →
  Contains version "/" = false →
  version = LatestAlias ∨ (∃ n, Atoi version = Some n ∧ (1 ≤ n)%Z) →
  ParseVersionName (SecretName project secret +:+ "/versions/" +:+ version) = Ok (project, secret, version).
Proof.
  intros Hp Hs Hv Hparse Hc Hver. unfold ParseVersionName. rewrite Index_SecretName by done.
  rewrite take_len_app, drop_len_app. change (drop_bytes (len "/versions/") ("/versions/" +:+ version)) with version.
  rewrite Hc, Hparse. rewrite bool_decide_false by (intros ->; destruct Hver as [|(n & ? & _)]; done).
  cbn [orb mbind res_bind]. destruct Hver as [->|(n & Hn & Hpos)]; [done|]. rewrite Hn.
  destruct (bool_decide (version = LatestAlias)); [done|]. by rewrite (proj2 (Z.ltb_ge n 1)).
Qed.

Lemma ParseSecretName_of scope id :
  valid_scope scope → ValidID id = true → ValidateSecretID id = Ok tt →
  ParseSecretName (SecretName scope id) = Ok (scope, id).
Proof.
  intros Hscope Hid Hval. destruct (valid_scope_free _ Hscope) as [Hf Hp]. unfold ParseSecretName.
  rewrite Split_SecretName by auto with burrow. unfold name_segments. destruct Hscope as [H|(p & l & Hvp & Hvl & ->)].
  - rewrite SplitScope_plain by by apply ValidID_no_sep. rewrite (bool_decide_true ("" = "")) by done.
    cbn [negb mbind res_bind]. rewrite SplitScope_plain by by apply ValidID_no_sep. cbn. by rewrite H, Hid, Hval.
  - rewrite SplitScope_Regional by by apply ValidID_no_sep. rewrite (bool_decide_false (l = "")) by (intros ->; done).
    cbn [negb mbind res_bind]. rewrite !bool_decide_true by done. rewrite Hvl. cbn [andb].
    cbn [mbind res_bind]. rewrite SplitScope_Regional by by apply ValidID_no_sep. cbn. by rewrite Hvp, Hid, Hval.
Qed.

Lemma digits_no_slash n : (0 ≤ n)%Z → Contains (Itoa n) "/" = false.
Proof.
  intros Hn. destruct (Contains (Itoa n) "/") eqn:Hc; [|done]. exfalso.
  apply Contains_spec in Hc as (x & y & Hxy).
  pose proof (Itoa_bytes n) as Hb. rewrite Hxy, !AllBytes_app in Hb. bool_prop. done.
Qed.

(** The name of a secret or of one of its versions, global or regional,
    parses back to the scope, the ID and the version it was made of, unless one
    of its segments is the word "versions". *)
Theorem secret_name_roundtrip scope id n :
  valid_scope scope → ValidID id = true → ValidateSecretID id = Ok tt → (1 ≤ n ≤ int_max)%Z →
  Forall (λ seg, seg ≠ "versions") (name_segments scope id) →
  ParseSecretName (SecretName scope id) = Ok (scope, id) ∧
  ParseVersionName (VersionName scope id n) = Ok (scope, id, Itoa n) ∧
  ParseVersionName (SecretName scope id +:+ "/versions/latest") = Ok (scope, id, LatestAlias).
Proof.
  intros Hscope Hid Hval Hn Hv. pose proof (ParseSecretName_of _ _ Hscope Hid Hval) as Hparse.
  destruct (valid_scope_free _ Hscope) as [Hf _]. pose proof (ValidID_free _ Hid) as Hfi.
  split_and!; [done|apply ParseVersionName_of; try done|by apply (ParseVersionName_of _ _ LatestAlias); auto].
  - apply digits_no_slash. lia.
  - right. exists n. split; [apply Atoi_Itoa|lia]. unfold in_int, int_min. apply andb_true_iff. split; lia.
Qed.

(** ** Facts about keys *)

Lemma segments_unique a b c d :
  free_of slash c = true → free_of slash d = true → a +:+ String slash b = c +:+ String slash d → a = c ∧ b = d.
Proof.
  revert c. induction a as [|x a IH]; intros c Hc Hd.
  - destruct c as [|y c]; [by intros [= ->]|]. rewrite app_cons. intros [= <- _].
    rewrite free_of_cons in Hc. bool_prop. done.
  - destruct c as [|y c]; rewrite app_cons.
    + intros [= -> <-]. rewrite free_of_app, free_of_cons in Hd. bool_prop. done.
    + rewrite app_cons. intros [= -> H]. rewrite free_of_cons in Hc. bool_prop.
      destruct (IH c) as [-> ->]; done.
Qed.

(** Two keys of secrets are equal only for the same secret, one of them being
    made of segments. *)
Lemma secretKey_inj p id p' id' :
  free_of slash p' = true → free_of slash id' = true → secretKey p id = secretKey p' id' → p = p' ∧ id = id'.
Proof.
  intros Hp Hid H. apply segments_unique; [done..|]. unfold secretKey in H.
  change (String "s" (String "e" (String "c" (String "r" (String "e" (String "t" (String slash (p +:+ String slash id))))))) =
    String "s" (String "e" (String "c" (String "r" (String "e" (String "t" (String slash (p' +:+ String slash id')))))))) in H.
  by injection H.
Qed.

Lemma secret_version_ne p id p' id' n : secretKey p id ≠ versionKey p' id' n.
Proof. intros H. discriminate H. Qed.

Lemma version_secret_ne p id p' id' n : versionKey p' id' n ≠ secretKey p id.
Proof. intros H. discriminate H. Qed.

#[export] Hint Resolve secret_version_ne version_secret_ne : burrow.

Lemma pad_digits w s : s ≠ "" → digits (fmt.pad w s) = digits s.
Proof.
  intros Hs. unfold fmt.pad. generalize (w - len s). intros n. induction n as [|n IH]; [done|].
  rewrite <- IH. rewrite Nat.iter_succ. assert (Nat.iter n (String "0") s ≠ "") as Hne by (destruct n; done).
  revert Hne. generalize (Nat.iter n (String "0") s). intros t Ht. unfold digits, NilZero.uint_of_string.
  destruct t as [|a t]; [done|]. cbn [NilEmpty.uint_of_string uint_of_char].
  by destruct (uint_of_char a (NilEmpty.uint_of_string t)).
Qed.

Lemma Sprintf_digits w n : (0 ≤ n)%Z → digits (fmt.Sprintf_0d w n) = Some n.
Proof.
  intros Hn. unfold fmt.Sprintf_0d. destruct (Z.ltb_spec n 0); [lia|].
  rewrite pad_digits by apply Itoa_nonempty. by apply digits_Itoa.
Qed.

Lemma Sprintf_inj w n m : (0 ≤ n)%Z → (0 ≤ m)%Z → fmt.Sprintf_0d w n = fmt.Sprintf_0d w m → n = m.
Proof. intros Hn Hm H%(f_equal digits). rewrite !Sprintf_digits in H by done. by injection H. Qed.

Lemma Itoa_no_slash n : free_of slash (Itoa n) = true.
Proof.
  pose proof (Itoa_bytes n) as H. unfold free_of. revert H. generalize (Itoa n). intros s.
  induction s as [|a s IH]; [done|]. cbn [AllBytes]. intros [Ha Hs]%andb_true_iff. rewrite IH by done.
  rewrite bool_decide_false; [done|]. intros ->. by vm_compute in Ha.
Qed.

Lemma Sprintf_free w n : free_of slash (fmt.Sprintf_0d w n) = true.
Proof.
  assert (∀ w s, free_of slash s = true → free_of slash (fmt.pad w s) = true) as Hpad.
  { intros w' s Hs. unfold fmt.pad. by induction (w' - len s). }
  unfold fmt.Sprintf_0d. destruct (n <? 0)%Z; [rewrite free_of_cons; cbn|]; apply Hpad, Itoa_no_slash.
Qed.

(** A key under the prefix of a secret's versions is a key of that secret. *)
Lemma versionPrefix_key p id p' id' n :
  free_of slash p = true → free_of slash id = true → free_of slash p' = true → free_of slash id' = true →
  HasPrefix (versionKey p id n) (versionPrefix p' id') = true → p = p' ∧ id = id'.
Proof.
  intros Hp Hid Hp' Hid'. unfold versionKey, versionPrefix. rewrite !app_assoc.
  change (HasPrefix (p +:+ String slash (id +:+ String slash (fmt.Sprintf_0d 10 n))) (p' +:+ String slash (id' +:+ "/"))
    = true → p = p' ∧ id = id').
  intros [r Hr]%HasPrefix_spec. apply (f_equal (λ s, Split s slash)) in Hr.
  rewrite app_assoc, app_cons, app_assoc in Hr. change ("/" +:+ r) with (String slash r) in Hr.
  rewrite !Split_app in Hr by done. by injection Hr as -> -> _.
Qed.

Lemma versionKey_prefix p id n : HasPrefix (versionKey p id n) (versionPrefix p id) = true.
Proof. apply HasPrefix_app. Qed.

Lemma versionKey_inj p id n p' id' n' :
  free_of slash p = true → free_of slash id = true → free_of slash p' = true → free_of slash id' = true →
  (0 ≤ n)%Z → (0 ≤ n')%Z → versionKey p id n = versionKey p' id' n' → p = p' ∧ id = id' ∧ n = n'.
Proof.
  intros Hp Hid Hp' Hid' Hn Hn' H. pose proof (versionKey_prefix p' id' n') as Hpre. rewrite <- H in Hpre.
  apply versionPrefix_key in Hpre as [-> ->]; [|done..]. split_and!; [done..|].
  unfold versionKey in H. apply (Sprintf_inj 10); [done..|]. by apply (inj (String.append _)) in H.
Qed.

(** The bytes of a printed number. *)
Definition number_byte (a : ascii) : bool := (N.leb 48 (N_of_ascii a) && N.leb (N_of_ascii a) 57) || bool_decide (a = "-"%char).

Lemma number_clean s : AllBytes number_byte s = true → clean s.
Proof.
  intros Hs. assert (AllBytes number_byte (ToLower s) = true) as Hl.
  { induction s as [|a s IH]; [done|]. cbn [AllBytes ToLower] in *. apply andb_true_iff in Hs as [Ha Hs].
    rewrite IH by done. rewrite andb_true_r. clear -Ha. destruct a as [[] [] [] [] [] [] [] []]; vm_compute in *; done. }
  unfold clean, bad_key_parts. repeat constructor.
  all: destruct (Contains (ToLower s) _) eqn:Hc; [|done].
  all: apply Contains_spec in Hc as (x & y & Hxy); rewrite Hxy, !AllBytes_app in Hl.
  all: apply andb_true_iff in Hl as [_ Hl]; apply andb_true_iff in Hl as [Hl _]; vm_compute in Hl; done.
Qed.

Lemma Sprintf_clean w n : clean (fmt.Sprintf_0d w n).
Proof.
  apply number_clean. assert (∀ w s, AllBytes number_byte s = true → AllBytes number_byte (fmt.pad w s) = true) as Hpad.
  { intros w' s Hs. unfold fmt.pad. by induction (w' - len s). }
  unfold fmt.Sprintf_0d. destruct (n <? 0)%Z; [cbn [AllBytes]; change (number_byte "-") with true; cbn [andb]|];
    apply Hpad, Itoa_bytes.
Qed.

(** The keys of a secret's versions are safe when the secret's own key is. *)
Lemma versionKey_safe p id n : SafeKey (secretKey p id) = true → SafeKey (versionKey p id n) = true.
Proof.
  intros Hs. apply (SafeKey_tail "secret/") in Hs. unfold versionKey, versionPrefix. rewrite !app_assoc.
  change (SafeKey ("version" +:+ String slash (p +:+ "/" +:+ id +:+ String slash (fmt.Sprintf_0d 10 n))) = true).
  apply SafeKey_under; [done..| |].
  - repeat constructor.
  - change (clean (p +:+ String slash (id +:+ String slash (fmt.Sprintf_0d 10 n)))).
    replace (p +:+ String slash (id +:+ String slash (fmt.Sprintf_0d 10 n)))
      with ((p +:+ "/" +:+ id) +:+ String slash (fmt.Sprintf_0d 10 n)) by by rewrite !app_assoc.
    apply clean_slash; [done|apply Sprintf_clean].
Qed.

(** ** Fixed-width numbers are ordered as strings *)

(** The value of a string of digits, none of them included. *)
Definition val (s : string) : option Z := Z.of_uint <$> NilEmpty.uint_of_string s.

Lemma of_uint_acc_Z u acc :
  Z.pos (Pos.of_uint_acc u acc) = (10 ^ Z.of_nat (Decimal.nb_digits u) * Z.pos acc + Z.of_uint u)%Z.
Proof.
  revert acc. induction u as [|u IH|u IH|u IH|u IH|u IH|u IH|u IH|u IH|u IH|u IH]; intros acc; [by cbn; lia|..].
  all: cbn [Pos.of_uint_acc Decimal.nb_digits]; rewrite IH; unfold Z.of_uint; cbn [Pos.of_uint]; fold (Z.of_uint u).
  all: try change (Z.of_N (N.pos ?x)) with (Z.pos x); rewrite ?IH, Nat2Z.inj_succ, Z.pow_succ_r by lia; lia.
Qed.

Lemma nb_digits_len s u : NilEmpty.uint_of_string s = Some u → Decimal.nb_digits u = len s.
Proof.
  revert u. induction s as [|a s IH]; intros u; cbn; [by intros [= <-]|].
  destruct (NilEmpty.uint_of_string s) as [u'|]; [|by destruct a as [[] [] [] [] [] [] [] []]].
  intros Ha. assert (Decimal.nb_digits u = S (Decimal.nb_digits u')) as ->.
  { destruct a as [[] [] [] [] [] [] [] []]; try discriminate Ha; by injection Ha as <-. }
  by rewrite (IH u').
Qed.

Lemma val_cons a s v :
  val (String a s) = Some v →
  ∃ d v', (0 ≤ d ≤ 9)%Z ∧ d = (Z.of_N (N_of_ascii a) - 48)%Z ∧ val s = Some v' ∧
    v = (d * 10 ^ Z.of_nat (len s) + v')%Z.
Proof.
  unfold val. cbn [NilEmpty.uint_of_string]. destruct (NilEmpty.uint_of_string s) as [u|] eqn:Hu;
    [|by destruct a as [[] [] [] [] [] [] [] []]].
  intros Hv. rewrite <- (nb_digits_len s u Hu). exists (Z.of_N (N_of_ascii a) - 48)%Z, (Z.of_uint u).
  destruct a as [[] [] [] [] [] [] [] []]; try discriminate Hv; injection Hv as <-;
    (split; [by vm_compute|]); (split; [done|]); (split; [done|]).
  all: unfold Z.of_uint; cbn [Pos.of_uint]; fold (Z.of_uint u); try change (Z.of_N (N.pos ?x)) with (Z.pos x);
    rewrite ?of_uint_acc_Z; vm_compute (Z.of_N _ - 48)%Z; lia.
Qed.
Lemma val_bound s v : val s = Some v → (0 ≤ v < 10 ^ Z.of_nat (len s))%Z.
Proof.
  revert v. induction s as [|a s IH]; intros v; [by intros [= <-]|].
  intros (d & v' & Hd & _ & Hv' & ->)%val_cons. specialize (IH v' Hv').
  cbn [len String.length]. rewrite Nat2Z.inj_succ, Z.pow_succ_r by lia. unfold len in *. nia.
Qed.

Lemma val_compare s t v w :
  len s = len t → val s = Some v → val t = Some w → String.compare s t = (v ?= w)%Z.
Proof.
  revert t v w. induction s as [|a s IH]; intros [|b t] v w Hlen; try discriminate Hlen.
  { by intros [= <-] [= <-]. }
  injection Hlen as Hlen. intros (d & v' & Hd & Ha & Hv' & ->)%val_cons (e & w' & He & Hb & Hw' & ->)%val_cons.
  cbn [String.compare]. pose proof (val_bound s v' Hv') as Bv. pose proof (val_bound t w' Hw') as Bw.
  assert (len s = len t) as Hl by done. rewrite Hl in *. unfold Ascii.compare.
  destruct (N.compare_spec (N_of_ascii a) (N_of_ascii b)) as [Hab|Hab|Hab].
  - rewrite (IH t v' w') by done. assert (d = e) as -> by lia. symmetry.
    destruct (Z.compare_spec v' w'); [apply Z.compare_eq_iff|apply Z.compare_lt_iff|apply Z.compare_gt_iff]; lia.
  - symmetry. apply Z.compare_lt_iff. nia.
  - symmetry. apply Z.compare_gt_iff. nia.
Qed.

Lemma val_digits s : s ≠ "" → val s = digits s.
Proof. by destruct s. Qed.

(** A positive number is printed without a leading zero. *)
Lemma to_uint_no_zero p u : Pos.to_uint p ≠ Decimal.D0 u.
Proof.
  intros H. pose proof (DecimalPos.Unsigned.of_to p) as Hof. rewrite H in Hof.
  pose proof (DecimalPos.Unsigned.to_of (Decimal.D0 u)) as Hto. rewrite Hof in Hto. cbn [N.to_uint] in Hto.
  rewrite H in Hto. assert (u ≠ Decimal.Nil) as Hu by (intros ->; discriminate Hof).
  change (Decimal.unorm (Decimal.D0 u)) with (Decimal.unorm u) in Hto.
  pose proof (nb_digits_unorm u Hu) as Hle. rewrite <- Hto in Hle. cbn in Hle. lia.
Qed.

Lemma Itoa_len n w : (0 ≤ n < 10 ^ Z.of_nat (S w))%Z → len (Itoa n) ≤ S w.
Proof.
  intros Hn. destruct (decide (len (Itoa n) ≤ S w)) as [|Hlong]; [done|]. exfalso.
  destruct n as [|p|p]; [cbn in Hlong; lia| |lia].
  assert (val (Itoa (Z.pos p)) = Some (Z.pos p)) as Hv by (rewrite val_digits by apply Itoa_nonempty; by apply digits_Itoa).
  destruct (Itoa (Z.pos p)) as [|a s] eqn:Hs; [by apply Itoa_nonempty in Hs|].
  apply val_cons in Hv as (d & v' & Hd & Ha & Hv' & Heq). pose proof (val_bound s v' Hv').
  assert (1 ≤ d)%Z.
  { destruct (decide (d = 0)%Z) as [->|]; [|lia]. exfalso.
    assert (a = "0"%char) as ->.
    { rewrite <- (ascii_N_embedding a). replace (N_of_ascii a) with 48%N by lia. done. }
    unfold Itoa in Hs. cbn [Z.to_int NilZero.string_of_int] in Hs.
    destruct (Pos.to_uint p) eqn:Hp; try discriminate Hs; [by eapply to_uint_nonnil|by eapply to_uint_no_zero]. }
  cbn in Hlong. assert (10 ^ Z.of_nat (S w) ≤ 10 ^ Z.of_nat (len s))%Z by (apply Z.pow_le_mono_r; unfold len; lia). nia.
Qed.

Lemma Sprintf_len w n : (0 ≤ n < 10 ^ Z.of_nat (S w))%Z → len (fmt.Sprintf_0d (S w) n) = S w.
Proof.
  intros Hn. unfold fmt.Sprintf_0d. destruct (Z.ltb_spec n 0); [lia|]. pose proof (Itoa_len n w Hn) as Hl.
  assert (∀ k s, len (Nat.iter k (String "0") s) = k + len s) as Hi by (intros k s; induction k; cbn; by f_equal).
  unfold fmt.pad. rewrite Hi. lia.
Qed.

Lemma Sprintf_compare w n m :
  (0 ≤ n < 10 ^ Z.of_nat (S w))%Z → (0 ≤ m < 10 ^ Z.of_nat (S w))%Z →
  String.compare (fmt.Sprintf_0d (S w) n) (fmt.Sprintf_0d (S w) m) = (n ?= m)%Z.
Proof.
  intros Hn Hm. assert (∀ k, (0 ≤ k < 10 ^ Z.of_nat (S w))%Z → val (fmt.Sprintf_0d (S w) k) = Some k) as Hv.
  { intros k Hk. rewrite val_digits; [apply Sprintf_digits; lia|]. intros He. pose proof (Sprintf_len w k Hk) as Hl.
    by rewrite He in Hl. }
  apply val_compare; [by rewrite !Sprintf_len|by apply Hv..].
Qed.

(** The page keys of versions order them newest first.  For every version
    number up to the 2^40 the code allows for, the keys compare as strings
    opposite to the numbers, and different versions have different keys. *)
Theorem descending_key_order n m :
  (0 ≤ n ≤ 2 ^ 40)%Z → (0 ≤ m ≤ 2 ^ 40)%Z →
  String.compare (descendingKey n) (descendingKey m) = (m ?= n)%Z ∧
  (descendingKey n = descendingKey m → n = m).
Proof.
  intros Hn Hm. split.
  - unfold descendingKey. rewrite Sprintf_compare by (change (10 ^ Z.of_nat 13)%Z with 10000000000000%Z; lia).
    destruct (Z.compare_spec m n); [apply Z.compare_eq_iff|apply Z.compare_lt_iff|apply Z.compare_gt_iff]; lia.
  - intros H%Sprintf_inj; lia.
Qed.

(** ** Instances and divergences *)

Module NameExamples.

Lemma secret_name_roundtrip_witness :
  ParseSecretName "projects/p/locations/us-east1/secrets/db" = Ok ("p@us-east1", "db") ∧
  ParseVersionName "projects/p/locations/us-east1/secrets/db/versions/12" = Ok ("p@us-east1", "db", "12") ∧
  ParseVersionName "projects/p/locations/us-east1/secrets/db/versions/latest" = Ok ("p@us-east1", "db", LatestAlias).
Proof.
  apply (secret_name_roundtrip "p@us-east1" "db" 12); [|done..| |].
  - right. by exists "p", "us-east1".
  - unfold int_max. lia.
  - by repeat constructor.
Defined.

Lemma descending_key_order_witness :
  String.compare (descendingKey 9) (descendingKey 10) = (10 ?= 9)%Z ∧ (descendingKey 9 = descendingKey 10 → 9 = 10)%Z.
Proof. apply (descending_key_order 9 10); lia. Defined.

(** A secret may be called "versions", and then none of its versions has a name
    the API accepts: the first "/versions/" of the name is taken for the one
    before the version. *)
Example versions_secret_unreachable :
  ValidateSecretID "versions" = Ok tt ∧
  ParseSecretName "projects/p/secrets/versions" = Ok ("p", "versions") ∧
  VersionName "p" "versions" 1 = "projects/p/secrets/versions/versions/1" ∧
  ParseVersionName "projects/p/secrets/versions/versions/1" = Err InvalidArgument.
Proof. by vm_compute. Qed.

(** The separator of a regional scope is accepted in the project of a global
    name, which then addresses the regional secret. *)
Example global_name_of_regional_secret :
  ParseSecretName "projects/p@us-east1/secrets/db" = Ok ("p@us-east1", "db") ∧
  SecretName "p@us-east1" "db" = "projects/p/locations/us-east1/secrets/db".
Proof. by vm_compute. Qed.

End NameExamples.
