(* ===== verification/SecretsStore.v ===== *)
(** * internal/service/secrets: the store of Secret Manager

    store.go, schedule.go, expiry.go, notify.go and cmek.go, over any metadata
    store that holds no cluster: the optional interfaces of KubeStore (scanner,
    secretDeleter, bulkDeleter, mounter) are absent, as they are for the file
    and memory stores.  [s.mu] makes each operation one step, a computation of
    the monad [M]; published messages are kept in the order they were sent. *)

From S2P Require Import Prelude GoLib ApiError Resource MetaStore IamPolicy Handler GoCrypto SecretsModel SecretsNames.
From Stdlib Require Import Ascii.

Import strings strconv time.

(** ** Limits (schedule.go, store.go, notify.go) *)

Definition MinRotationLead : Duration := (5 * Minute)%Z.
Definition MinRotationPeriod : Duration := Hour.
Definition MaxRotation : Duration := (3153600000 * Second)%Z.
Definition MinVersionDestroyTTL : Duration := (24 * Hour)%Z.
Definition MaxVersionDestroyTTL : Duration := (1000 * 24 * Hour)%Z.
Definition MaxPayloadBytes : Z := (64 * 1024)%Z.
Definition MaxTopics : nat := 10.

Definition errRotationTopics : error := InvalidArgument.
Definition errPeriodNeedsNext : error := InvalidArgument.
Definition errNoKMS : error := Unimplemented.

(** [Schedule.check] *)
Definition check_next (sch : Schedule) (now : Time) : res error unit :=
  if Before (NextRotation sch) (Add now MinRotationLead) then Err InvalidArgument
  else if After (NextRotation sch) (Add now MaxRotation) then Err InvalidArgument
  else Ok tt.

Definition check (sch : Schedule) (now : Time) (rotation ttl : bool) : res error unit :=
  _ ← (if rotation && negb (IsZero (NextRotation sch)) then check_next sch now else Ok tt);
  _ ← (let p := RotationPeriod sch in
       if negb (p =? 0)%Z then
         if (p <? MinRotationPeriod)%Z || (MaxRotation <? p)%Z || negb (Z.rem p Second =? 0)%Z
         then Err InvalidArgument
         else if IsZero (NextRotation sch) && rotation then Err errPeriodNeedsNext
         else Ok tt
       else Ok tt);
  let d := VersionDestroyTTL sch in
  if ttl && negb (d =? 0)%Z then
    if (d <? MinVersionDestroyTTL)%Z || (MaxVersionDestroyTTL <? d)%Z then Err InvalidArgument else Ok tt
  else Ok tt.

(** ** Customer-managed keys, the pure part (cmek.go) *)

Definition cmekKeyLocation (name : string) : res error string :=
  match Split name slash with
  | [p0; p1; p2; p3; p4; p5; p6; p7] =>
      if bool_decide (p0 = "projects") && bool_decide (p2 = "locations") && bool_decide (p4 = "keyRings")
         && bool_decide (p6 = "cryptoKeys") && negb (bool_decide (p1 = "")) && negb (bool_decide (p3 = ""))
         && negb (bool_decide (p5 = "")) && negb (bool_decide (p7 = ""))
      then Ok p3 else Err InvalidArgument
  | _ => Err InvalidArgument
  end.

Definition hasKeys (keys : list string) : bool := existsb (λ k, negb (bool_decide (k = ""))) keys.

(** A nil slice and an empty one are both the empty list. *)
Definition normalKeys (keys : list string) : list string := if hasKeys keys then keys else [].

(** The loop of [checkKMSKeys]; [i] is the index of the first key of the list. *)
Fixpoint check_keys_from (replication : string) (locations : list string) (i : nat) (keys : list string)
    : res error unit :=
  match keys with
  | [] => Ok tt
  | k :: rest =>
      _ ← (if bool_decide (k = "") then Ok tt
           else loc ← cmekKeyLocation k;
                if bool_decide (replication = "automatic")
                then guard_ (bool_decide (loc = "global")) InvalidArgument
                else guard_ (bool_decide (loc = default "" (locations !! i))) InvalidArgument);
      check_keys_from replication locations (S i) rest
  end.

Definition encrypted (v : Version) : bool := existsb (λ r, negb (bool_decide (r_KMSKey r = ""))) (v_Replicas v).

Definition Size (v : Version) : Z :=
  if encrypted v then v_PayloadSize v else Z.of_nat (len (v_Payload v)).

Section aead.
Context `{Crypto}.

Definition NonceSize : nat := 12.

Definition ErrKeySize : error := Sentinel "data key has the wrong size".
Definition ErrShort : error := Sentinel "sealed payload is too short".
Definition ErrOpen : error := Sentinel "cipher: message authentication failed".
Definition ErrRand : error := Sentinel "crypto/rand failed".

Definition sealPayload (dek : string) (nonce : option string) (plaintext aad : string) : res error string :=
  if negb (len dek =? 32)%nat then Err ErrKeySize
  else match nonce with
       | Some nonce => Ok (nonce +:+ gcm_Seal dek nonce plaintext aad)
       | None => Err ErrRand
       end.

Definition openPayload (dek sealed aad : string) : res error string :=
  if negb (len dek =? 32)%nat then Err ErrKeySize
  else if (len sealed <? NonceSize)%nat then Err ErrShort
  else match gcm_Open dek (take_bytes NonceSize sealed) (drop_bytes NonceSize sealed) aad with
       | Some pt => Ok pt
       | None => Err ErrOpen
       end.

End aead.

(** The data key encrypted under each replica's key, in order; a replica with
    no key holds it as it is. *)
Fixpoint wrap_replicas (kms : KeyService) (dek aad : string) (keys : list string) (rs : list ReplicaStatus)
    : res error (list ReplicaStatus) :=
  match rs with
  | [] => Ok []
  | r :: rest =>
      let key := default "" (head keys) in
      r' ← (if bool_decide (key = "") then Ok (mkReplicaStatus (r_Location r) (r_KMSKey r) (r_KeyVersion r) dek)
            else match Encrypt kms key dek aad with
                 | Ok (version, ciphertext) => Ok (mkReplicaStatus (r_Location r) key version ciphertext)
                 | Err _ => Err FailedPrecondition
                 end);
      rest' ← wrap_replicas kms dek aad (tail keys) rest;
      Ok (r' :: rest')
  end.

(** The data key, decrypted with every replica's key; the last one is used. *)
Fixpoint unwrap_replicas (kms : KeyService) (aad : string) (rs : list ReplicaStatus) (dek : string) : res error string :=
  match rs with
  | [] => Ok dek
  | r :: rest =>
      if bool_decide (r_KMSKey r = "") then unwrap_replicas kms aad rest dek
      else match Decrypt kms (r_KMSKey r) (r_WrappedKey r) aad with
           | Ok pt => unwrap_replicas kms aad rest pt
           | Err _ => Err FailedPrecondition
           end
  end.

(** ** Topics, the pure part (notify.go) *)

Definition topic_ok (t : string) : bool :=
  match Split t slash with
  | [p0; p1; p2; p3] =>
      bool_decide (p0 = "projects") && negb (bool_decide (p1 = "")) && bool_decide (p2 = "topics")
      && negb (bool_decide (p3 = ""))
  | _ => false
  end.

Fixpoint check_topics (seen : list string) (topics : list string) : res error unit :=
  match topics with
  | [] => Ok tt
  | t :: rest =>
      if negb (topic_ok t) then Err InvalidArgument
      else if bool_decide (t ∈ seen) then Err InvalidArgument
      else check_topics (t :: seen) rest
  end.

(** ** The order of versions *)

Definition newer (a b : Version) : Prop := (v_Number b ≤ v_Number a)%Z.
#[global] Instance newer_dec : RelDecision newer.
Proof. intros a b. unfold newer. apply _. Defined.
#[global] Instance newer_trans : Transitive newer.
Proof. unfold newer. intros a b c ??. lia. Qed.
#[global] Instance newer_total : Total newer.
Proof. unfold newer. intros a b. lia. Qed.

(** The loop of [resolveVersion]: the version with the highest number. *)
Definition best (v : Version) (versions : list Version) : Version :=
  fold_left (λ best v, if (v_Number best <? v_Number v)%Z then v else best) versions v.

(** [for !next.After(now) { next = next.Add(period) }]; the fuel is the number
    of periods between the two. *)
Fixpoint catch_up (fuel : nat) (next now : Time) (period : Duration) : Time :=
  match fuel with
  | O => next
  | S fuel => if negb (After next now) then catch_up fuel (Add next period) now period else next
  end.

Definition advance_rotation (next now : Time) (period : Duration) : Time :=
  catch_up (Z.to_nat ((now - next) / period + 1)) next now period.

(** [soonest]: the earlier of two times, zero being none. *)
Definition soonest (next t : Time) : Time :=
  if negb (IsZero t) && (IsZero next || Before t next) then t else next.

(** ** The store *)

Section store.
Context {S : Type} `{MSL : MetaStoreLaws S doc} `{CR : Crypto}.

(** [rearm] is the one-place channel that wakes Run; [sent] is what was
    published, oldest first. *)
Record Store := mkStore {
  db : S;
  offset : Z;
  rearm : bool;
  sent : list Message
}.

Definition NewStore (d : S) : Store := mkStore d 0 false [].

(** A computation: an operation's surroundings and the store give the store
    after it and a result. *)
Abbreviation M := (Handler.M Env Store).

Definition now : M Time := λ e s, (s, Ok (Add (clock_Now e) (offset s))).
Definition wake : M unit := λ _ s, (mkStore (db s) (offset s) true (sent s), Ok tt).

Definition db_Get (key : string) : M (res error doc) := λ _ s, (s, Ok (st_Get (db s) key)).
Definition db_List (prefix : string) : M (list string) := λ _ s,
  (s, match st_List (db s) prefix with Ok ks => Ok ks | Err err => Err (Internal err) end).
Definition db_Delete (key : string) : M unit := λ _ s,
  match st_Delete (db s) key with
  | (d, Ok _) => (mkStore d (offset s) (rearm s) (sent s), Ok tt)
  | (d, Err err) => (mkStore d (offset s) (rearm s) (sent s), Err (Internal err))
  end.

Definition put (key : string) (value : doc) : M unit := λ _ s,
  if negb (marshals value) then (s, Err (Internal ErrEncode))
  else match st_Put (db s) key value with
       | (d, Ok _) => (mkStore d (offset s) (rearm s) (sent s), Ok tt)
       | (d, Err err) => (mkStore d (offset s) (rearm s) (sent s), Err (Internal err))
       end.

(** The first eight bytes of the hash of the time, in hexadecimal and quoted. *)
Definition etag : M string :=
  t ← now;
  mret (String (ascii_of_nat 34) (take_bytes 16 (sha256_hex (Itoa (UnixNano t))) +:+ String (ascii_of_nat 34) "")).

(** ** Notifications *)

(** [publishTo]: the error of the publish, if any. *)
Definition publishTo (m : Message) : M (option error) := λ e s,
  match publisher e with
  | None => (s, Ok (Some (Sentinel "Pub/Sub is not enabled on this instance")))
  | Some p => (mkStore (db s) (offset s) (rearm s) (sent s ++ [m]), Ok (p m))
  end.

Definition validateTopics (topics : list string) : M unit :=
  match topics with
  | [] => mret tt
  | _ =>
      if (MaxTopics <? length topics)%nat then throw InvalidArgument
      else
        lift (check_topics [] topics) ;;
        p ← ask publisher;
        match p with None => throw Unimplemented | Some _ => mret tt end
  end.

Definition topicConfigured : list string → M unit :=
  each (λ t,
    r ← publishTo (mkMessage t EventTopicConfigured NoData None None None None);
    match r with
    | None => mret tt
    | Some err =>
        match from_status err with
        | Some c => if bool_decide (c ≠ codes.OK) && bool_decide (c ≠ codes.Unknown)
                    then throw (Api c "" None) else throw FailedPrecondition
        | None => throw FailedPrecondition
        end
    end).

(** A publish that fails after the change was made is only logged. *)
Definition notify (sec : Secret) (ev : event) (version : option Version) (del : option deleteType) : M unit :=
  p ← ask publisher;
  match s_Topics sec, p with
  | [], _ | _, None => mret tt
  | topics, Some _ =>
      t ← now;
      each (λ topic,
        publishTo (mkMessage topic ev (match version with Some v => VersionData v | None => SecretData sec end)
                     (Some (s_Name sec)) (v_Name <$> version) (Some t) del) ;; mret tt) topics
  end.

(** ** Secrets *)

(** [deleteSecret]: the versions, then the secret. *)
Definition deleteSecret (project id : string) : M unit :=
  keys ← db_List (versionPrefix project id);
  each db_Delete keys ;;
  db_Delete (secretKey project id).

(** [getSecret]: an expired secret is deleted by the read that meets it. *)
Definition getSecret (project id : string) : M Secret :=
  raw ← db_Get (secretKey project id);
  match raw with
  | Err _ => throw NotFound
  | Ok (DVersion _) => throw (Internal ErrDecode)
  | Ok (DSecret sec) =>
      t ← now;
      if Expired sec t then
        deleteSecret project id ;;
        notify sec EventSecretDelete None (Some deleteExpiration) ;;
        throw NotFound
      else mret sec
  end.

Definition GetSecret := getSecret.

Definition notifyVersion (project id : string) (ev : event) (v : Version) : M unit :=
  r ← attempt (getSecret project id);
  match r with
  | Err _ => mret tt
  | Ok sec => notify sec ev (Some v) None
  end.

Definition checkKMSKeys (replication : string) (locations keys : list string) : M unit :=
  lift (check_keys_from replication locations 0 keys) ;;
  kms ← ask keyService;
  match kms with
  | None => if hasKeys keys then throw errNoKMS else mret tt
  | Some _ => mret tt
  end.

(** The replication policy's part of [CreateSecretEncrypted]: the kind, with its
    default, once locations and keys fit it. *)
Definition check_policy (replication : string) (locations : list string) (keys : option (list string))
    : res error string :=
  let replication := if bool_decide (replication = "") then "automatic" else replication in
  _ ← (if bool_decide (replication = "automatic") then guard_ (bool_decide (locations = [])) InvalidArgument
       else if bool_decide (replication = "user-managed") then
         _ ← guard_ (negb (bool_decide (locations = []))) InvalidArgument;
         guard_ (negb (existsb (λ l, bool_decide (l = "")) locations)) InvalidArgument
       else Err InvalidArgument);
  match keys with
  | None => Ok replication
  | Some ks =>
      let want := if bool_decide (replication = "user-managed") then length locations else 1 in
      if negb (length ks =? want)%nat then Err InvalidArgument else Ok replication
  end.

Definition CreateSecretEncrypted (project id : string) (labels annotations : gmap string string) (expire : Time)
    (topics : list string) (sch : Schedule) (keys : option (list string)) (replication : string)
    (locations : list string) : M Secret :=
  t ← now;
  lift (check sch t true true) ;;
  if negb (IsZero (NextRotation sch)) && bool_decide (topics = []) then throw errRotationTopics
  else if negb (IsZero expire) && negb (After expire t) then throw InvalidArgument
  else if bool_decide (project = "") then throw InvalidArgument
  else
    lift (ValidateSecretID id) ;;
    replication ← lift (check_policy replication locations keys);
    checkKMSKeys replication locations (default [] keys) ;;
    validateTopics topics ;;
    existing ← attempt (getSecret project id);
    match existing with
    | Ok _ => throw AlreadyExists
    | Err _ =>
        topicConfigured topics ;;
        et ← etag;
        let sec := mkSecret (SecretName project id) t labels annotations replication locations
                     (normalKeys (default [] keys)) 1 et None expire topics (NextRotation sch)
                     (RotationPeriod sch) (VersionDestroyTTL sch) ∅ in
        put (secretKey project id) (DSecret sec) ;;
        notify sec EventSecretCreate None None ;;
        when (negb (IsZero (s_Expire sec)) || negb (IsZero (s_NextRotation sec))) wake ;;
        mret sec
    end.

(** The fields of an update once its rotation was checked. *)
Definition apply_update (u : SecretUpdate) (next : Time) (period : Duration) (et : string) (sec : Secret) : Secret :=
  let sec := if UpdateTopics u then set_Topics sec (u_Topics u) else sec in
  let sec := if UpdateExpire u then set_Expire sec (u_Expire u) else sec in
  let sec := if UpdateNextRotation u || UpdateRotationPeriod u then set_Rotation sec next period else sec in
  let sec := if UpdateVersionDestroyTTL u then set_VersionDestroyTTL sec (VersionDestroyTTL (u_Schedule u)) else sec in
  let sec := if UpdateLabels u then set_Labels sec (u_Labels u) else sec in
  let sec := if UpdateAnnotations u then set_Annotations sec (u_Annotations u) else sec in
  set_Etag sec et.

Definition UpdateSecretFields (project id : string) (u : SecretUpdate) : M Secret :=
  t ← now;
  if UpdateExpire u && negb (IsZero (u_Expire u)) && negb (After (u_Expire u) t) then throw InvalidArgument
  else
    lift (check (u_Schedule u) t (UpdateNextRotation u) (UpdateVersionDestroyTTL u)) ;;
    sec ← getSecret project id;
    let next := if UpdateNextRotation u then NextRotation (u_Schedule u) else s_NextRotation sec in
    let period := if UpdateRotationPeriod u then RotationPeriod (u_Schedule u) else s_RotationPeriod sec in
    if (0 <? period)%Z && IsZero next then throw errPeriodNeedsNext
    else
      let topics := if UpdateTopics u then u_Topics u else s_Topics sec in
      if negb (IsZero next) && bool_decide (topics = []) then throw errRotationTopics
      else
        when (UpdateTopics u) (validateTopics (u_Topics u) ;; topicConfigured (u_Topics u)) ;;
        deferred (when (UpdateExpire u || UpdateNextRotation u || UpdateRotationPeriod u) wake) (
          et ← etag;
          let sec := apply_update u next period et sec in
          put (secretKey project id) (DSecret sec) ;;
          notify sec EventSecretUpdate None None ;;
          mret sec).

Definition GetIamPolicy (project id : string) : M (option IamPolicy.Stored) :=
  sec ← getSecret project id; mret (s_IAMPolicy sec).

Definition SetIamPolicy (project id : string) (req : iampb.SetIamPolicyRequest) : M IamPolicy.Stored :=
  sec ← getSecret project id;
  rnd ← ask rand_etag;
  next ← lift (Set_ (s_IAMPolicy sec) req rnd);
  put (secretKey project id) (DSecret (set_IAMPolicy sec (Some next))) ;;
  mret next.

(** The values of a list of keys. *)
Definition db_values (keys : list string) : M (list doc) := λ _ s,
  (s, Ok (omap (λ k, match st_Get (db s) k with Ok v => Some v | Err _ => None end) keys)).

(** [scan]: the values under a prefix, in the order the map gives them; a key
    whose Get fails is left out. *)
Definition scan (prefix : string) : M (list doc) :=
  keys ← db_List prefix;
  order ← ask map_order;
  db_values (order keys).

Fixpoint list_secrets (t : Time) (values : list doc) : M (list Secret) :=
  match values with
  | [] => mret []
  | DVersion _ :: rest => list_secrets t rest
  | DSecret sec :: rest =>
      if Expired sec t then
        let '(project, id) := secretParts (s_Name sec) in
        deleteSecret project id ;; list_secrets t rest
      else out ← list_secrets t rest; mret (sec :: out)
  end.

Definition ListSecrets (project : string) : M (list Secret) :=
  if bool_decide (project = "") then throw InvalidArgument
  else
    values ← scan ("secret/" +:+ project +:+ "/");
    t ← now;
    out ← list_secrets t values;
    mret (sort_by s_Name out).

(** A regional secret of [project] that has not expired. *)
Definition regional_of (project : string) (t : Time) (d : doc) : option Secret :=
  match d with
  | DVersion _ => None
  | DSecret sec =>
      if Expired sec t then None
      else let '(p, l) := SplitScope (scopeOfName (s_Name sec)) in
           if bool_decide (p = project) && negb (bool_decide (l = "")) then Some sec else None
  end.

Definition ListRegionalSecrets (project : string) : M (list Secret) :=
  if bool_decide (project = "") then throw InvalidArgument
  else
    values ← scan ("secret/" +:+ project +:+ String regionalSep "");
    t ← now;
    mret (sort_by s_Name (omap (regional_of project t) values)).

Definition DeleteSecret (project id : string) : M unit :=
  sec ← getSecret project id;
  deleteSecret project id ;;
  notify sec EventSecretDelete None (Some deleteRequested).

(** ** Versions *)

(** [sealVersion]: the version with its payload and replicas. *)
Definition sealVersion (sec : Secret) (v : Version) (payload : string) : M Version :=
  let locations := if negb (bool_decide (s_Replication sec = "user-managed")) then [""] else s_ReplicaLocations sec in
  let replicas := (λ l, mkReplicaStatus l "" "" "") <$> locations in
  if negb (hasKeys (s_KMSKeys sec)) then mret (set_sealed v payload (v_PayloadSize v) replicas)
  else
    kms ← ask keyService;
    match kms with
    | None => throw errNoKMS
    | Some kms =>
        dek ← ask rand_dek;
        match dek with
        | None => throw (Internal ErrRand)
        | Some dek =>
            nonce ← ask rand_nonce;
            match sealPayload dek nonce payload (v_Name v) with
            | Err err => throw (Internal err)
            | Ok sealed =>
                replicas ← lift (wrap_replicas kms dek (v_Name v) (s_KMSKeys sec) replicas);
                mret (set_sealed v sealed (Z.of_nat (len payload)) replicas)
            end
        end
    end.

(** [openVersion]: the version with its plaintext. *)
Definition openVersion (v : Version) : M Version :=
  if negb (encrypted v) then mret v
  else
    kms ← ask keyService;
    match kms with
    | None => throw errNoKMS
    | Some kms =>
        dek ← lift (unwrap_replicas kms (v_Name v) (v_Replicas v) "");
        match openPayload dek (v_Payload v) (v_Name v) with
        | Err err => throw (Internal err)
        | Ok pt => mret (set_Payload v pt (v_PayloadSize v))
        end
    end.

Definition addVersion (project id payload : string) (clientChecksum : bool) : M Version :=
  if bool_decide (payload = "") then throw InvalidArgument
  else if (MaxPayloadBytes <? Z.of_nat (len payload))%Z then throw InvalidArgument
  else
    sec ← getSecret project id;
    let number := s_NextVersion sec in
    t ← now;
    et ← etag;
    v ← sealVersion sec (mkVersion (VersionName project id number) number StateEnabled t zero zero "" 0 et [] clientChecksum)
          payload;
    let sec := set_Etag (set_NextVersion sec (wrap_i64 (s_NextVersion sec + 1))) et in
    put (secretKey project id) (DSecret sec) ;;
    put (versionKey project id number) (DVersion v) ;;
    notify sec EventSecretVersionAdd (Some v) None ;;
    mret v.

Definition listVersions (project id : string) : M (list Version) :=
  values ← scan (versionPrefix project id);
  mret (omap (λ d, match d with DVersion v => Some v | DSecret _ => None end) values).

Definition resolveVersion (project id version : string) : M Z :=
  getSecret project id ;;
  if negb (bool_decide (version = LatestAlias)) then
    match Atoi version with
    | Some n => if (n <? 1)%Z then throw InvalidArgument else mret n
    | None => throw InvalidArgument
    end
  else
    versions ← listVersions project id;
    match versions with
    | [] => throw NotFound
    | v :: _ => mret (v_Number (best v versions))
    end.

Definition getVersion (project id : string) (number : Z) : M Version :=
  raw ← db_Get (versionKey project id number);
  match raw with
  | Err _ => throw NotFound
  | Ok (DSecret _) => throw (Internal ErrDecode)
  | Ok (DVersion v) => mret v
  end.

Definition GetVersion (project id version : string) : M Version :=
  number ← resolveVersion project id version; getVersion project id number.

Definition AccessVersion (project id version : string) : M Version :=
  v ← GetVersion project id version;
  if negb (Accessible v) then throw FailedPrecondition else openVersion v.

Definition ListVersions (project id : string) : M (list Version) :=
  getSecret project id ;;
  versions ← listVersions project id;
  mret (merge_sort newer versions).

(** [unschedule]: a cancelled destruction is forgotten. *)
Definition unschedule (project id : string) (number : Z) : M unit :=
  sec ← getSecret project id;
  put (secretKey project id) (DSecret (set_ScheduledDestroys sec (delete (Itoa number) (s_ScheduledDestroys sec)))).

Definition SetVersionState (project id version : string) (state : VersionState) : M Version :=
  if bool_decide (state = StateDestroyed) then throw InvalidArgument
  else
    number ← resolveVersion project id version;
    v ← getVersion project id number;
    if bool_decide (v_State v = StateDestroyed) then throw FailedPrecondition
    else
      et ← etag;
      let cancelled := negb (IsZero (v_ScheduledDestroy v)) in
      let v := set_State v state et zero in
      put (versionKey project id number) (DVersion v) ;;
      when cancelled (unschedule project id number) ;;
      notifyVersion project id
        (if bool_decide (state = StateDisabled) then EventSecretVersionDisable else EventSecretVersionEnable) v ;;
      mret v.

(** [destroyNowQuiet] *)
Definition destroyNowQuiet (project id : string) (v : Version) : M Version :=
  t ← now;
  et ← etag;
  let replicas := (λ r, mkReplicaStatus (r_Location r) (r_KMSKey r) (r_KeyVersion r) "") <$> v_Replicas v in
  let v := set_destroyed v StateDestroyed zero t "" 0 replicas et in
  put (versionKey project id (v_Number v)) (DVersion v) ;;
  mret v.

Definition destroyNow (project id : string) (v : Version) : M Version :=
  v ← destroyNowQuiet project id v;
  notifyVersion project id EventSecretVersionDestroy v ;;
  mret v.

Definition scheduleDestroy (sec : Secret) (v : Version) : M Version :=
  let '(project, id) := secretParts (s_Name sec) in
  t ← now;
  let at_ := Add t (s_VersionDestroyTTL sec) in
  et ← etag;
  let v := set_State v StateDisabled et at_ in
  put (versionKey project id (v_Number v)) (DVersion v) ;;
  let sec := set_ScheduledDestroys sec (<[Itoa (v_Number v) := at_]> (s_ScheduledDestroys sec)) in
  put (secretKey project id) (DSecret sec) ;;
  notify sec EventSecretVersionDestroyScheduled (Some v) None ;;
  wake ;;
  mret v.

Definition DestroyVersion (project id version : string) : M Version :=
  number ← resolveVersion project id version;
  v ← getVersion project id number;
  if bool_decide (v_State v = StateDestroyed) then throw FailedPrecondition
  else if negb (IsZero (v_ScheduledDestroy v)) then throw FailedPrecondition
  else
    sec ← getSecret project id;
    if (0 <? s_VersionDestroyTTL sec)%Z then scheduleDestroy sec v else destroyNow project id v.

(** ** What is due (schedule.go, expiry.go) *)

(** The scheduled destructions of a secret, in the order of their numbers as
    strings; the secret, the next time to come and whether anything changed. *)
Fixpoint destroy_due (project id : string) (t : Time) (numbers : list string) (sec : Secret) (next : Time)
    (changed : bool) : M (Secret * Time * bool) :=
  match numbers with
  | [] => mret (sec, next, changed)
  | n :: rest =>
      let at_ := default zero (s_ScheduledDestroys sec !! n) in
      if Before t at_ then destroy_due project id t rest sec (soonest next at_) changed
      else
        let sec := set_ScheduledDestroys sec (delete n (s_ScheduledDestroys sec)) in
        r ← attempt (getVersion project id (default 0%Z (Atoi n)));
        match r with
        | Err _ => destroy_due project id t rest sec next true
        | Ok v =>
            if IsZero (v_ScheduledDestroy v) || bool_decide (v_State v = StateDestroyed)
            then destroy_due project id t rest sec next true
            else
              destroyed ← destroyNowQuiet project id v;
              notify sec EventSecretVersionDestroy (Some destroyed) None ;;
              destroy_due project id t rest sec next true
        end
  end.

(** The rotation's part of [due]: the secret after a rotation that is due. *)
Definition rotation_due (sec : Secret) (t : Time) : bool :=
  negb (IsZero (s_NextRotation sec)) && negb (Before t (s_NextRotation sec)).
Definition rotated (sec : Secret) (t : Time) : Secret :=
  set_Rotation sec
    (if (0 <? s_RotationPeriod sec)%Z then advance_rotation (s_NextRotation sec) t (s_RotationPeriod sec) else zero)
    (s_RotationPeriod sec).

Definition due (sec : Secret) (t : Time) : M Time :=
  let '(project, id) := secretParts (s_Name sec) in
  let changed := rotation_due sec t in
  when changed (notify sec EventSecretRotate None None) ;;
  let sec := if changed then rotated sec t else sec in
  '(sec, next, changed) ←
    destroy_due project id t (sort_strings (elements (dom (s_ScheduledDestroys sec)))) sec
      (soonest zero (s_NextRotation sec)) changed;
  when changed (put (secretKey project id) (DSecret sec)) ;;
  mret next.

(** One secret of [Sweep]: the earliest time still to come with it. *)
Definition sweep_one (t : Time) (key : string) (next : Time) : M Time :=
  raw ← db_Get key;
  match raw with
  | Err _ | Ok (DVersion _) => mret next
  | Ok (DSecret sec) =>
      if IsZero (s_Expire sec) && IsZero (s_NextRotation sec) && bool_decide (s_ScheduledDestroys sec = ∅)
      then mret next
      else if Expired sec t then
        let '(project, id) := secretParts (s_Name sec) in
        deleteSecret project id ;;
        notify sec EventSecretDelete None (Some deleteExpiration) ;;
        mret next
      else
        later ← due sec t;
        mret (soonest (soonest next (s_Expire sec)) later)
  end.

Fixpoint sweep_loop (t : Time) (keys : list string) (next : Time) : M Time :=
  match keys with
  | [] => mret next
  | k :: rest => next ← sweep_one t k next; sweep_loop t rest next
  end.

Definition Sweep : M Time :=
  keys ← db_List "secret/";
  t ← now;
  sweep_loop t keys zero.

(** [s.offset.Add(int64(d))] *)
Definition shift (d : Duration) : M unit := λ _ s,
  (mkStore (db s) (wrap_i64 (offset s + d)) (rearm s) (sent s), Ok tt).

Definition Advance (d : Duration) : M Time :=
  if (d <? 0)%Z then throw InvalidArgument
  else shift d ;; deferred wake (Sweep ;; now).

(** A turn of [Run] after its sweep: how long the timer is set for ([None]: no
    timer) and the delay the next failure is retried after. *)
Definition run_wait (r : res error Time) (retry : Duration) : M (option Duration * Duration) :=
  match r with
  | Err _ => mret (Some retry, if (Minute <? retry * 2)%Z then Minute else (retry * 2)%Z)
  | Ok next =>
      if negb (IsZero next) then t ← now; mret (Some (Sub next t), Second)
      else mret (None, Second)
  end.

(** ** The rest *)

Definition Reset : M unit :=
  each (λ prefix, keys ← db_List prefix; each db_Delete keys) ["secret/"; "version/"].

Definition SetReplicationKeys (project id : string) (keys : list string) : M Secret :=
  sec ← getSecret project id;
  let want := if bool_decide (s_Replication sec = "user-managed") then length (s_ReplicaLocations sec) else 1 in
  if negb (length keys =? want)%nat then throw InvalidArgument
  else
    checkKMSKeys (s_Replication sec) (s_ReplicaLocations sec) keys ;;
    et ← etag;
    let sec := set_Etag (set_KMSKeys sec (normalKeys keys)) et in
    put (secretKey project id) (DSecret sec) ;;
    notify sec EventSecretUpdate None None ;;
    mret sec.

(** [ResolveSecretRef]: the Kubernetes Secret and the data key of a version. *)
Definition ResolveSecretRef (project secret version : string) : M (string * string) :=
  '(project, id) ← (if Contains secret "/" then lift (ParseSecretName secret) else mret (project, secret));
  if bool_decide (project = "") then throw InvalidArgument
  else
    let version := if bool_decide (version = "") then LatestAlias else version in
    number ← resolveVersion project id version;
    v ← GetVersion project id (Itoa number);
    if negb (Accessible v) then throw FailedPrecondition
    else if encrypted v then throw Unimplemented
    else mret (VersionSecretName project id number, VersionKey number).

End store.

#[global] Arguments Store S : clear implicits.

(** The computations over a metadata store of type [S]. *)
Abbreviation M S := (Handler.M Env (Store S)).
