(* ===== verification/SecretsInv.v ===== *)
(** * What the store of Secret Manager holds

    The documents of one secret (its head and its versions) as a family, the
    invariant of the store, and how each shape of write keeps it.  A secret
    whose next number is [n] has exactly the versions 1 to [n-1], and its index
    of scheduled destructions is exactly theirs. *)

From S2P Require Import Prelude GoLib ApiError Resource MetaStore IamPolicy Handler GoCrypto SecretsModel SecretsNames SecretsStore.
From Stdlib Require Import Ascii.

Import strings strconv time.

Implicit Types (m : gmap string doc) (p id : string) (n : Z) (sec : Secret) (v : Version).

(** ** Families *)

Definition secret_at m p id : option Secret :=
  match m !! secretKey p id with Some (DSecret sec) => Some sec | _ => None end.

Definition version_at m p id n : option Version :=
  match m !! versionKey p id n with Some (DVersion v) => Some v | _ => None end.

(** A scope and an ID that are segments of a key. *)
Definition segments p id : Prop := free_of slash p = true ∧ free_of slash id = true.

Record version_ok (p id : string) (n : Z) (v : Version) : Prop := mkVersionOk {
  vo_Number : v_Number v = n;
  vo_Name : v_Name v = VersionName p id n;
  vo_marshals : marshals (DVersion v) = true;
  vo_destroyed : v_State v = StateDestroyed →
    v_Payload v = "" ∧ Forall (λ r, r_WrappedKey r = "") (v_Replicas v) ∧ v_ScheduledDestroy v = zero;
  vo_scheduled : v_ScheduledDestroy v ≠ zero → v_State v = StateDisabled
}.

(** The schedule a version's own document asks for. *)
Definition scheduled v : option Time :=
  if IsZero (v_ScheduledDestroy v) then None else Some (v_ScheduledDestroy v).

(** A rotation period [Schedule.check] accepts. *)
Definition period_ok sec : Prop := (0 ≤ s_RotationPeriod sec ≤ MaxRotation)%Z.

Record family_ok (B : Z) (p id : string) (sec : Secret) (versions : Z → option Version) : Prop := mkFamilyOk {
  fo_Name : s_Name sec = SecretName p id;
  fo_marshals : marshals (DSecret sec) = true;
  fo_period : period_ok sec;
  fo_Next : (1 ≤ s_NextVersion sec ≤ B)%Z;
  fo_versions : ∀ n, is_Some (versions n) ↔ (1 ≤ n < s_NextVersion sec)%Z;
  fo_each : ∀ n v, versions n = Some v → version_ok p id n v;
  fo_index : ∀ n v, versions n = Some v → s_ScheduledDestroys sec !! Itoa n = scheduled v;
  fo_indexed : ∀ k t, s_ScheduledDestroys sec !! k = Some t → ∃ n, k = Itoa n ∧ is_Some (versions n)
}.

(** A document under its own key. *)
Definition fits (k : string) (d : doc) : Prop :=
  SafeKey k = true ∧
  match d with
  | DSecret _ => ∃ p id, segments p id ∧ k = secretKey p id
  | DVersion _ => ∃ p id n, segments p id ∧ (0 ≤ n)%Z ∧ k = versionKey p id n
  end.

Record Inv (B : Z) (m : gmap string doc) : Prop := mkInv {
  inv_fits : map_Forall fits m;
  inv_family : ∀ p id, segments p id →
    match secret_at m p id with
    | Some sec => family_ok B p id sec (λ n, if (0 <=? n)%Z then version_at m p id n else None)
    | None => ∀ n, (0 ≤ n)%Z → version_at m p id n = None
    end
}.

(** ** Reading *)

Lemma secret_at_Some m p id sec : secret_at m p id = Some sec ↔ m !! secretKey p id = Some (DSecret sec).
Proof. unfold secret_at. case_all; naive_solver. Qed.

Lemma version_at_Some m p id n v : version_at m p id n = Some v ↔ m !! versionKey p id n = Some (DVersion v).
Proof. unfold version_at. case_all; naive_solver. Qed.

(** A stored secret's scope and ID are segments, whatever was asked for. *)
Lemma secret_segments B m p id sec : Inv B m → secret_at m p id = Some sec → segments p id ∧ SafeKey (secretKey p id) = true.
Proof.
  intros [Hf _] Hs%secret_at_Some. apply Hf in Hs as [Hk (p' & id' & [Hp Hid] & Heq)].
  split; [|done]. apply secretKey_inj in Heq as [-> ->]; done.
Qed.

Lemma secret_none B m p id : Inv B m → secret_at m p id = None → m !! secretKey p id = None.
Proof.
  intros [Hf _] Hs. destruct (m !! secretKey p id) as [d|] eqn:Hd; [|done]. exfalso.
  unfold secret_at in Hs. rewrite Hd in Hs. destruct d as [sec|v]; [done|].
  apply Hf in Hd as [_ (p' & id' & n & _ & _ & Heq)]. discriminate Heq.
Qed.

Lemma version_none B m p id n : Inv B m → version_at m p id n = None → m !! versionKey p id n = None.
Proof.
  intros [Hf _] Hs. destruct (m !! versionKey p id n) as [d|] eqn:Hd; [|done]. exfalso.
  unfold version_at in Hs. rewrite Hd in Hs. destruct d as [sec|v]; [|done].
  apply Hf in Hd as [_ (p' & id' & _ & Heq)]. discriminate Heq.
Qed.

Lemma secret_family B m p id sec :
  Inv B m → secret_at m p id = Some sec →
  family_ok B p id sec (λ n, if (0 <=? n)%Z then version_at m p id n else None).
Proof.
  intros HI Hs. destruct (secret_segments _ _ _ _ _ HI Hs) as [Hseg _].
  pose proof (inv_family _ _ HI p id Hseg) as H. by rewrite Hs in H.
Qed.

(** The versions of a secret, by number. *)
Lemma version_range B m p id sec n :
  Inv B m → secret_at m p id = Some sec → (0 ≤ n)%Z → is_Some (version_at m p id n) ↔ (1 ≤ n < s_NextVersion sec)%Z.
Proof.
  intros HI Hs Hn. rewrite <- (fo_versions _ _ _ _ _ (secret_family _ _ _ _ _ HI Hs)).
  by rewrite (proj2 (Z.leb_le 0 n)).
Qed.

Lemma version_is_ok B m p id sec n v :
  Inv B m → secret_at m p id = Some sec → (0 ≤ n)%Z → version_at m p id n = Some v → version_ok p id n v.
Proof.
  intros HI Hs Hn Hv. apply (fo_each _ _ _ _ _ (secret_family _ _ _ _ _ HI Hs)).
  by rewrite (proj2 (Z.leb_le 0 n)).
Qed.

Lemma version_index B m p id sec n v :
  Inv B m → secret_at m p id = Some sec → (0 ≤ n)%Z → version_at m p id n = Some v →
  s_ScheduledDestroys sec !! Itoa n = scheduled v.
Proof.
  intros HI Hs Hn Hv. apply (fo_index _ _ _ _ _ (secret_family _ _ _ _ _ HI Hs)).
  by rewrite (proj2 (Z.leb_le 0 n)).
Qed.

(** ** Writing *)

Lemma secret_at_put m p id sec p' id' :
  segments p id →
  secret_at (<[secretKey p id := DSecret sec]> m) p' id' =
  if decide (p' = p ∧ id' = id) then Some sec else secret_at m p' id'.
Proof.
  intros [Hp Hid]. unfold secret_at. case_decide as Hd.
  - destruct Hd as [-> ->]. by rewrite lookup_insert_eq.
  - rewrite lookup_insert_ne; [done|]. intros Heq. symmetry in Heq. by apply secretKey_inj in Heq.
Qed.

Lemma version_at_put_secret m p id sec p' id' n :
  version_at (<[secretKey p id := DSecret sec]> m) p' id' n = version_at m p' id' n.
Proof. unfold version_at. by rewrite lookup_insert_ne. Qed.

Lemma secret_at_put_version m p id n v p' id' :
  secret_at (<[versionKey p id n := DVersion v]> m) p' id' = secret_at m p' id'.
Proof. unfold secret_at. by rewrite lookup_insert_ne. Qed.

Lemma version_at_put m p id n v p' id' n' :
  segments p id → segments p' id' → (0 ≤ n)%Z → (0 ≤ n')%Z →
  version_at (<[versionKey p id n := DVersion v]> m) p' id' n' =
  if decide (p' = p ∧ id' = id ∧ n' = n) then Some v else version_at m p' id' n'.
Proof.
  intros [Hp Hid] [Hp' Hid'] Hn Hn'. unfold version_at. case_decide as Hd.
  - destruct Hd as (-> & -> & ->). by rewrite lookup_insert_eq.
  - rewrite lookup_insert_ne; [done|]. intros (H1 & H2 & H3)%versionKey_inj; [|done..].
    apply Hd. by subst.
Qed.

(** The key belongs to the secret: its own, or one of its versions'. *)
Definition of_secret p id (k : string) : bool := bool_decide (k = secretKey p id) || HasPrefix k (versionPrefix p id).

Definition purge m p id : gmap string doc := filter (λ kv, of_secret p id kv.1 = false) m.

Lemma secret_at_purge m p id p' id' :
  segments p id →
  secret_at (purge m p id) p' id' = if decide (p' = p ∧ id' = id) then None else secret_at m p' id'.
Proof.
  intros [Hp Hid]. unfold secret_at, purge. case_decide as Hd.
  - destruct Hd as [-> ->]. rewrite map_lookup_filter_None_2; [done|]. right. intros d _. cbn.
    unfold of_secret. by rewrite bool_decide_true.
  - destruct (m !! secretKey p' id') as [d|] eqn:Hm.
    + rewrite (map_lookup_filter_Some_2 _ _ _ d); [done..|]. cbn. unfold of_secret.
      rewrite bool_decide_false by by intros Heq%secretKey_inj. done.
    + rewrite map_lookup_filter_None_2 by by left. done.
Qed.

Lemma version_at_purge m p id p' id' n :
  segments p id → segments p' id' →
  version_at (purge m p id) p' id' n = if decide (p' = p ∧ id' = id) then None else version_at m p' id' n.
Proof.
  intros [Hp Hid] [Hp' Hid']. unfold version_at, purge. case_decide as Hd.
  - destruct Hd as [-> ->]. rewrite map_lookup_filter_None_2; [done|]. right. intros d _. cbn.
    unfold of_secret. by rewrite versionKey_prefix, orb_true_r.
  - destruct (m !! versionKey p' id' n) as [d|] eqn:Hm.
    + rewrite (map_lookup_filter_Some_2 _ _ _ d); [done..|]. cbn. unfold of_secret.
      destruct (HasPrefix (versionKey p' id' n) (versionPrefix p id)) eqn:Hpre; [|by rewrite bool_decide_false by done].
      by apply versionPrefix_key in Hpre.
    + rewrite map_lookup_filter_None_2 by by left. done.
Qed.

(** ** Keeping the invariant *)

Lemma family_ext B p id sec f g : (∀ n, f n = g n) → family_ok B p id sec g → family_ok B p id sec f.
Proof.
  intros Hfg [H1 H2 HP H3 H4 H5 H6 H7]. constructor; [done..| | | |].
  - intros n. by rewrite Hfg.
  - intros n v. rewrite Hfg. apply H5.
  - intros n v. rewrite Hfg. apply H6.
  - intros k t Hk. destruct (H7 k t Hk) as (n & -> & Hn). exists n. by rewrite Hfg.
Qed.

Lemma Inv_mono B B' m : (B ≤ B')%Z → Inv B m → Inv B' m.
Proof.
  intros HB [Hf Hfam]. constructor; [done|]. intros p id Hseg. specialize (Hfam p id Hseg).
  destruct (secret_at m p id) as [sec|]; [|done]. destruct Hfam as [H1 H2 HP H3 H4 H5 H6 H7]. constructor; try done. lia.
Qed.

Lemma Inv_empty B : Inv B ∅.
Proof.
  constructor; [apply map_Forall_empty|]. intros p id _. unfold secret_at, version_at.
  rewrite lookup_empty. intros n _. by rewrite lookup_empty.
Qed.

(** What the invariant says of one secret. *)
Definition family_holds B m p id : Prop :=
  match secret_at m p id with
  | Some sec => family_ok B p id sec (λ n, if (0 <=? n)%Z then version_at m p id n else None)
  | None => ∀ n, (0 ≤ n)%Z → version_at m p id n = None
  end.

(** A write that touches the documents of one secret only. *)
Lemma Inv_local B m m' p id :
  Inv B m → map_Forall fits m' →
  (∀ p' id', segments p' id' → ¬ (p' = p ∧ id' = id) →
     secret_at m' p' id' = secret_at m p' id' ∧ ∀ n, (0 ≤ n)%Z → version_at m' p' id' n = version_at m p' id' n) →
  (segments p id → family_holds B m' p id) → Inv B m'.
Proof.
  intros [_ Hfam] Hf Hother Hown. constructor; [done|]. intros p' id' Hseg.
  destruct (decide (p' = p ∧ id' = id)) as [[-> ->]|Hne]; [by apply Hown|].
  destruct (Hother p' id' Hseg Hne) as [Hs Hv]. specialize (Hfam p' id' Hseg). rewrite Hs.
  destruct (secret_at m p' id') as [sec|].
  - eapply family_ext; [|exact Hfam]. intros n. cbn. destruct (Z.leb_spec 0 n); [by apply Hv|done].
  - intros n Hn. rewrite Hv by done. by apply Hfam.
Qed.

Lemma Inv_purge B m p id : segments p id → Inv B m → Inv B (purge m p id).
Proof.
  intros Hseg HI. eapply (Inv_local _ m _ p id); [done|..].
  - intros k d [Hd _]%map_lookup_filter_Some. by apply (inv_fits _ _ HI).
  - intros p' id' Hseg' Hne. rewrite secret_at_purge by done. rewrite decide_False by done. split; [done|].
    intros n _. rewrite version_at_purge by done. by rewrite decide_False.
  - intros _. unfold family_holds. rewrite secret_at_purge by done. rewrite decide_True by done.
    intros n _. rewrite version_at_purge by done. by rewrite decide_True.
Qed.

Lemma fits_put_secret m p id sec :
  segments p id → SafeKey (secretKey p id) = true → map_Forall fits m →
  map_Forall fits (<[secretKey p id := DSecret sec]> m).
Proof. intros Hseg Hk Hm. apply map_Forall_insert_2; [|done]. split; [done|]. by exists p, id. Qed.

Lemma fits_put_version m p id n v :
  segments p id → (0 ≤ n)%Z → SafeKey (secretKey p id) = true → map_Forall fits m →
  map_Forall fits (<[versionKey p id n := DVersion v]> m).
Proof.
  intros Hseg Hn Hk Hm. apply map_Forall_insert_2; [|done]. split; [by apply versionKey_safe|]. by exists p, id, n.
Qed.

(** A put of the head of a secret. *)
Lemma Inv_put_secret B m p id sec :
  Inv B m → segments p id → SafeKey (secretKey p id) = true →
  family_ok B p id sec (λ n, if (0 <=? n)%Z then version_at m p id n else None) →
  Inv B (<[secretKey p id := DSecret sec]> m).
Proof.
  intros HI Hseg Hk Hfam. eapply (Inv_local _ m _ p id); [done|..].
  - apply fits_put_secret; [done..|]. apply HI.
  - intros p' id' _ Hne. rewrite secret_at_put by done. rewrite decide_False by done. split; [done|].
    intros n _. by rewrite version_at_put_secret.
  - intros _. unfold family_holds. rewrite secret_at_put by done. rewrite decide_True by done.
    eapply family_ext; [|exact Hfam]. intros n. by rewrite version_at_put_secret.
Qed.

(** A put of the head and of one version. *)
Lemma Inv_put_both B m p id sec n v :
  Inv B m → segments p id → SafeKey (secretKey p id) = true → (0 ≤ n)%Z →
  family_ok B p id sec (λ k, if (0 <=? k)%Z then if decide (k = n) then Some v else version_at m p id k else None) →
  Inv B (<[secretKey p id := DSecret sec]> (<[versionKey p id n := DVersion v]> m)).
Proof.
  intros HI Hseg Hk Hn Hfam. eapply (Inv_local _ m _ p id); [done|..].
  - apply fits_put_secret; [done..|]. apply fits_put_version; [done..|]. apply HI.
  - intros p' id' Hseg' Hne. rewrite secret_at_put by done. rewrite decide_False by done.
    rewrite secret_at_put_version. split; [done|].
    intros k Hk'. rewrite version_at_put_secret, version_at_put by done. rewrite decide_False; naive_solver.
  - intros _. unfold family_holds. rewrite secret_at_put by done. rewrite decide_True by done.
    eapply family_ext; [|exact Hfam]. intros k. cbn. destruct (Z.leb_spec 0 k); [|done].
    rewrite version_at_put_secret, version_at_put by done. repeat case_decide; naive_solver.
Qed.

(** A put of one version, the head staying. *)
Lemma Inv_put_version B m p id sec n v :
  Inv B m → secret_at m p id = Some sec → (0 ≤ n)%Z →
  family_ok B p id sec (λ k, if (0 <=? k)%Z then if decide (k = n) then Some v else version_at m p id k else None) →
  Inv B (<[versionKey p id n := DVersion v]> m).
Proof.
  intros HI Hs Hn Hfam. destruct (secret_segments _ _ _ _ _ HI Hs) as [Hseg Hk].
  replace (<[versionKey p id n := DVersion v]> m)
    with (<[secretKey p id := DSecret sec]> (<[versionKey p id n := DVersion v]> m)); [by apply Inv_put_both|].
  apply insert_id. rewrite lookup_insert_ne by done. by apply secret_at_Some.
Qed.

(** ** Families after each change *)

(** The head changes in fields the invariant does not speak of. *)
Lemma family_head B p id sec sec' f :
  family_ok B p id sec f → s_Name sec' = s_Name sec → s_NextVersion sec' = s_NextVersion sec →
  s_ScheduledDestroys sec' = s_ScheduledDestroys sec → marshals (DSecret sec') = true → period_ok sec' →
  family_ok B p id sec' f.
Proof.
  intros [H1 H2 HP H3 H4 H5 H6 H7] Hn Hv Hd Hm HP'. constructor; rewrite ?Hn, ?Hv, ?Hd; done.
Qed.

(** A new secret has no version. *)
Lemma family_new p id sec f B :
  s_Name sec = SecretName p id → marshals (DSecret sec) = true → s_NextVersion sec = 1%Z →
  s_ScheduledDestroys sec = ∅ → period_ok sec → (1 ≤ B)%Z → (∀ n, f n = None) → family_ok B p id sec f.
Proof.
  intros Hn Hm Hv Hd HP HB Hf. constructor; [done..| | | | |].
  - rewrite Hv. lia.
  - intros n. rewrite Hf, Hv. split; [by intros []|lia].
  - intros n v. by rewrite Hf.
  - intros n v. by rewrite Hf.
  - intros k t. by rewrite Hd, lookup_empty.
Qed.

(** The next version, enabled and not scheduled. *)
Lemma family_add B p id sec sec' f v :
  family_ok B p id sec f → version_ok p id (s_NextVersion sec) v → v_ScheduledDestroy v = zero →
  s_Name sec' = s_Name sec → s_NextVersion sec' = (s_NextVersion sec + 1)%Z →
  s_ScheduledDestroys sec' = s_ScheduledDestroys sec → marshals (DSecret sec') = true → period_ok sec' →
  family_ok (B + 1) p id sec' (λ k, if decide (k = s_NextVersion sec) then Some v else f k).
Proof.
  intros [H1 H2 HP H3 H4 H5 H6 H7] Hv Hz Hn Hnext Hd Hm HP'.
  constructor; rewrite ?Hn, ?Hnext, ?Hd; [done..|lia| | | |].
  - intros n. case_decide as Hc; [split; [lia|by eexists]|]. rewrite H4. lia.
  - intros n v'. case_decide as Hc; [|apply H5]. intros [= <-]. by subst.
  - intros n v'. case_decide as Hc; [|apply H6]. intros [= <-]. subst. unfold scheduled. rewrite Hz. cbn.
    destruct (s_ScheduledDestroys sec !! Itoa (s_NextVersion sec)) as [t|] eqn:Ht; [|done]. exfalso.
    apply H7 in Ht as (n & Hk%Itoa_inj & Hs). apply H4 in Hs. lia.
  - intros k t Hk. destruct (H7 k t Hk) as (n & -> & Hs). exists n. split; [done|].
    case_decide; [by eexists|done].
Qed.

(** One version changes, and the index with it. *)
Lemma family_version B p id sec sec' f n v v' :
  family_ok B p id sec f → f n = Some v → version_ok p id n v' →
  s_Name sec' = s_Name sec → s_NextVersion sec' = s_NextVersion sec →
  s_ScheduledDestroys sec' = partial_alter (λ _, scheduled v') (Itoa n) (s_ScheduledDestroys sec) →
  marshals (DSecret sec') = true → period_ok sec' →
  family_ok B p id sec' (λ k, if decide (k = n) then Some v' else f k).
Proof.
  intros [H1 H2 HP H3 H4 H5 H6 H7] Hf Hv Hn Hnext Hd Hm HP'. constructor; rewrite ?Hn, ?Hnext; [done..| | | |].
  - intros k. case_decide as Hc; [|apply H4]. subst. rewrite <- H4, Hf. split; by eexists.
  - intros k v''. case_decide as Hc; [|apply H5]. intros [= <-]. by subst.
  - intros k v''. rewrite Hd. case_decide as Hc.
    + intros [= <-]. subst. by rewrite lookup_partial_alter_eq.
    + intros Hk. rewrite lookup_partial_alter_ne by by intros ?%Itoa_inj. by apply H6.
  - intros k t. rewrite Hd. destruct (decide (k = Itoa n)) as [->|Hne].
    + intros _. exists n. split; [done|]. rewrite decide_True by done. by eexists.
    + rewrite lookup_partial_alter_ne by done. intros Hk. destruct (H7 k t Hk) as (k' & -> & Hs).
      exists k'. split; [done|]. case_decide; [by eexists|done].
Qed.

(** One version changes and its schedule stays. *)
Lemma family_version_same B p id sec f n v v' :
  family_ok B p id sec f → f n = Some v → version_ok p id n v' → scheduled v' = scheduled v →
  family_ok B p id sec (λ k, if decide (k = n) then Some v' else f k).
Proof.
  intros Hfam Hf Hv Hsch. eapply family_version; [done..| |apply Hfam|apply Hfam].
  rewrite Hsch, <- (fo_index _ _ _ _ _ Hfam n v Hf). symmetry. apply partial_alter_self.
Qed.

(** ** The live secrets *)

(** What a read at time [t] finds: an expired secret is gone. *)
Definition live (t : Time) m p id : option Secret :=
  match secret_at m p id with
  | Some sec => if Expired sec t then None else Some sec
  | None => None
  end.

Lemma live_Some t m p id sec : live t m p id = Some sec ↔ secret_at m p id = Some sec ∧ Expired sec t = false.
Proof.
  unfold live. destruct (secret_at m p id) as [s0|]; [|by split; [|intros []]].
  destruct (Expired s0 t) eqn:He; split; [done|intros [[= ->] ?]; congruence|by intros [= ->]|by intros [[= ->] _]].
Qed.

(** The store after the reads of [(p, id)]: an expired secret is removed. *)
Definition settle (t : Time) m p id : gmap string doc :=
  match secret_at m p id with
  | Some sec => if Expired sec t then purge m p id else m
  | None => m
  end.

Lemma settle_live t m p id sec : live t m p id = Some sec → settle t m p id = m.
Proof. intros [Hs He]%live_Some. unfold settle. by rewrite Hs, He. Qed.

Lemma Inv_settle B t m p id : Inv B m → Inv B (settle t m p id).
Proof.
  intros HI. unfold settle. destruct (secret_at m p id) as [sec|] eqn:Hs; [|done].
  destruct (Expired sec t); [|done]. apply Inv_purge; [|done]. by eapply secret_segments.
Qed.

Lemma settle_gone B t m p id : Inv B m → live t m p id = None → settle t m p id !! secretKey p id = None.
Proof.
  intros HI. unfold live, settle. destruct (secret_at m p id) as [sec|] eqn:Hs; [|intros _; by eapply secret_none].
  destruct (Expired sec t); [|done]. intros _. destruct (secret_segments _ _ _ _ _ HI Hs) as [Hseg _].
  eapply (secret_none B); [by apply Inv_purge|]. rewrite secret_at_purge by done. by rewrite decide_True.
Qed.
