(* ===== verification/SecretsOps.v ===== *)
(** * What each operation of Secret Manager does to the store

    A weakest-precondition calculus for the computations of SecretsStore.v, and
    with it the effect of every operation on what is stored, over a metadata
    store whose writes do not fail. *)

From S2P Require Import Prelude GoLib ApiError Resource MetaStore IamPolicy Handler GoCrypto SecretsModel SecretsNames SecretsStore SecretsInv.
From Stdlib Require Import Ascii.

Import strings strconv time.

(** ** The calculus *)

Section wp.
Context {S : Type} `{MSL : MetaStoreLaws S doc} `{CR : Crypto}.
Implicit Types (s : Store S) (e : Env).

Abbreviation cts s := (contents (db s)).

(** The reading of the store's clock. *)
Definition clock e s : Time := Add (clock_Now e) (offset s).

(** [s'] is [s] holding [m'], but for the messages sent. *)
Definition near s (m' : gmap string doc) s' : Prop :=
  cts s' = m' ∧ offset s' = offset s ∧ rearm s' = rearm s.

Lemma near_refl s : near s (cts s) s.
Proof. done. Qed.
Lemma near_trans s m1 s1 m2 s2 : near s m1 s1 → near s1 m2 s2 → near s m2 s2.
Proof. unfold near. intros (? & ? & ?) (? & ? & ?). split_and!; congruence. Qed.
Lemma near_clock e s m' s' : near s m' s' → clock e s' = clock e s.
Proof. intros (_ & Ho & _). unfold clock. by rewrite Ho. Qed.
Lemma near_cts s m' s' : near s m' s' → cts s' = m'.
Proof. by intros (? & _ & _). Qed.

Lemma wp_now e s Q : Q (Ok (clock e s)) s → wp e s now Q.
Proof. done. Qed.
Lemma wp_Get e s k Q : Q (Ok (st_Get (db s) k)) s → wp e s (db_Get k) Q.
Proof. done. Qed.
Lemma wp_List e s p Q : Q (Ok (list_keys (cts s) p)) s → wp e s (db_List p) Q.
Proof. unfold wp, db_List. cbn. by rewrite List_law. Qed.
Lemma wp_wake e s Q : Q (Ok tt) (mkStore (db s) (offset s) true (sent s)) → wp e s wake Q.
Proof. done. Qed.

(** The etag an operation at time [t] writes. *)
Definition etag_of (t : Time) : string :=
  String (ascii_of_nat 34) (take_bytes 16 (sha256_hex (Itoa (UnixNano t))) +:+ String (ascii_of_nat 34) "").

Lemma wp_etag e s Q : Q (Ok (etag_of (clock e s))) s → wp e s etag Q.
Proof. done. Qed.

Lemma wp_publishTo e s msg Q :
  (∀ r s', near s (cts s) s' → Q (Ok r) s') → wp e s (publishTo msg) Q.
Proof. intros HQ. unfold wp, publishTo. destruct (publisher e); cbn; by apply HQ. Qed.

Lemma wp_each {A} e (f : A → M S unit) l s Q :
  (∀ x s1 Q1, x ∈ l → near s (cts s) s1 → (∀ s2, near s (cts s) s2 → Q1 (Ok tt) s2) → wp e s1 (f x) Q1) →
  (∀ s', near s (cts s) s' → Q (Ok tt) s') → wp e s (each f l) Q.
Proof.
  intros Hf HQ. assert (∀ s1, near s (cts s) s1 → wp e s1 (each f l) Q) as H; [|by apply H, near_refl].
  induction l as [|x l IH]; intros s1 H1; [by apply wp_ret, HQ|].
  cbn [each]. apply wp_bind. apply Hf; [set_solver|done|]. intros s2 H2. apply IH; [|done].
  intros y s3 Q3 Hy. apply Hf. set_solver.
Qed.

Lemma wp_notify e s sec ev v del Q :
  (∀ s', near s (cts s) s' → Q (Ok tt) s') → wp e s (notify sec ev v del) Q.
Proof.
  intros HQ. unfold notify. apply wp_bind, wp_ask. destruct (s_Topics sec) as [|t ts]; [by apply wp_ret, HQ|].
  destruct (publisher e); [|by apply wp_ret, HQ]. apply wp_bind, wp_now. apply wp_each; [|done].
  intros x s1 Q1 _ H1 HQ1. apply wp_bind, wp_publishTo. intros _ s2 H2. apply wp_ret, HQ1.
  rewrite (near_cts _ _ _ H1) in H2. by eapply near_trans.
Qed.

(** Announcing the topics changes nothing that is stored. *)
Lemma wp_topicConfigured e s topics Q :
  (∀ r s', near s (cts s) s' → Q r s') → wp e s (topicConfigured topics) Q.
Proof.
  intros HQ. unfold topicConfigured.
  assert (∀ s1, near s (cts s) s1 → wp e s1 (topicConfigured topics) Q) as H; [|by apply H, near_refl].
  induction topics as [|t ts IH]; intros s1 H1; [by apply wp_ret, HQ|].
  unfold topicConfigured. cbn [each]. apply wp_bind, wp_bind, wp_publishTo. intros r s2 H2.
  rewrite (near_cts _ _ _ H1) in H2. pose proof (near_trans _ _ _ _ _ H1 H2) as H3.
  destruct r as [err|]; [|by apply wp_ret, IH].
  destruct (from_status err) as [c|]; [destruct (_ && _)|]; by apply wp_throw, HQ.
Qed.

Lemma wp_validateTopics e s topics Q :
  (∀ r, Q r s) → wp e s (validateTopics topics) Q.
Proof.
  intros HQ. unfold validateTopics. destruct topics as [|t ts]; [by apply wp_ret|].
  destruct (_ <? _)%nat; [by apply wp_throw|]. apply wp_bind, wp_lift. destruct (check_topics [] (t :: ts)); [|done].
  apply wp_bind, wp_ask. destruct (publisher e); [by apply wp_ret|by apply wp_throw].
Qed.

End wp.

(** ** Over a store whose writes do not fail *)

Section ops.
Context {S : Type} `{RS : ReliableStore S doc} `{CR : Crypto}.
Implicit Types (s : Store S) (e : Env).

Abbreviation cts s := (contents (db s)).

Lemma wp_put e s k d Q :
  SafeKey k = true → marshals d = true → (∀ s', near s (<[k := d]> (cts s)) s' → Q (Ok tt) s') → wp e s (put k d) Q.
Proof.
  intros Hk Hd HQ. unfold wp, put. rewrite Hd, Put_law. cbn [negb].
  destruct (Commit_ok (db s) (OpPut k d) Hk) as (d' & -> & Hc). cbn. by apply HQ.
Qed.

(** A put whose document may not be encodable. *)
Lemma wp_put_any e s k d Q :
  SafeKey k = true →
  (marshals d = true → ∀ s', near s (<[k := d]> (cts s)) s' → Q (Ok tt) s') →
  (marshals d = false → Q (Err (Internal ErrEncode)) s) → wp e s (put k d) Q.
Proof.
  intros Hk Hok Herr. destruct (marshals d) eqn:Hd; [apply wp_put; [done..|by apply Hok]|].
  unfold wp, put. rewrite Hd. by apply Herr.
Qed.

Lemma wp_Delete e s k Q :
  SafeKey k = true → (∀ s', near s (delete k (cts s)) s' → Q (Ok tt) s') → wp e s (db_Delete k) Q.
Proof.
  intros Hk HQ. unfold wp, db_Delete. rewrite Delete_law.
  destruct (Commit_ok (db s) (OpDelete k) Hk) as (d' & -> & Hc). cbn. by apply HQ.
Qed.

Lemma wp_deletes e s ks Q :
  Forall (λ k, SafeKey k = true) ks →
  (∀ s', near s (apply_ops (cts s) (OpDelete <$> ks)) s' → Q (Ok tt) s') → wp e s (each db_Delete ks) Q.
Proof.
  revert s. induction ks as [|k ks IH]; intros s Hks HQ; [by apply wp_ret, HQ|].
  apply Forall_cons in Hks as [Hk Hks]. cbn [each]. apply wp_bind, wp_Delete; [done|]. intros s1 H1.
  apply IH; [done|]. intros s2 H2. apply HQ. rewrite (near_cts _ _ _ H1) in H2. by eapply near_trans.
Qed.

Lemma wp_deleteSecret B e s p id sec Q :
  Inv B (cts s) → secret_at (cts s) p id = Some sec →
  (∀ s', near s (purge (cts s) p id) s' → Q (Ok tt) s') → wp e s (deleteSecret p id) Q.
Proof.
  intros HI Hs HQ. destruct (secret_segments _ _ _ _ _ HI Hs) as [_ Hk].
  unfold deleteSecret. apply wp_bind, wp_List, wp_bind, wp_deletes.
  { apply Forall_forall. intros k [[d Hd] _]%elem_of_list_keys. by apply (inv_fits _ _ HI) in Hd as [? _]. }
  intros s1 H1. apply wp_Delete; [done|]. intros s2 H2. apply HQ.
  replace (purge (cts s) p id) with (delete (secretKey p id) (cts s1)); [by eapply near_trans|].
  rewrite (near_cts _ _ _ H1). apply map_eq. intros k. unfold purge.
  destruct (decide (k = secretKey p id)) as [->|Hne].
  { rewrite lookup_delete_eq, map_lookup_filter_None_2; [done|]. right. intros d _. cbn. unfold of_secret.
    by rewrite bool_decide_true. }
  rewrite lookup_delete_ne, apply_deletes by done. case_decide as Hin.
  - apply elem_of_list_keys in Hin as [_ Hpre]. rewrite map_lookup_filter_None_2; [done|]. right. intros d _.
    cbn. unfold of_secret. by rewrite Hpre, orb_true_r.
  - destruct (cts s !! k) as [d|] eqn:Hd; [|by rewrite map_lookup_filter_None_2 by by left].
    symmetry. apply map_lookup_filter_Some. split; [done|]. cbn. unfold of_secret. rewrite bool_decide_false by done. cbn.
    destruct (HasPrefix k (versionPrefix p id)) eqn:Hpre; [|done]. exfalso. apply Hin, elem_of_list_keys. by eauto.
Qed.

(** A read of a secret: what is live, and an expired one is removed. *)
Lemma wp_getSecret B e s p id Q :
  Inv B (cts s) →
  (∀ s', near s (settle (clock e s) (cts s) p id) s' →
     Q (match live (clock e s) (cts s) p id with Some sec => Ok sec | None => Err NotFound end) s') →
  wp e s (getSecret p id) Q.
Proof.
  intros HI HQ. unfold getSecret. apply wp_bind, wp_Get.
  destruct (secret_at (cts s) p id) as [sec|] eqn:Hs.
  - destruct (secret_segments _ _ _ _ _ HI Hs) as [_ Hk].
    rewrite (proj2 (Get_ok (db s) _ (DSecret sec)) (conj Hk (proj1 (secret_at_Some _ _ _ _) Hs))).
    apply wp_bind, wp_now. unfold live, settle in HQ. rewrite Hs in HQ.
    destruct (Expired sec (clock e s)); [|by apply wp_ret, HQ, near_refl].
    apply wp_bind, (wp_deleteSecret B _ _ _ _ sec); [done..|]. intros s1 H1. apply wp_bind, wp_notify. intros s2 H2.
    apply wp_throw, HQ. rewrite (near_cts _ _ _ H1) in H2. by eapply near_trans.
  - unfold live, settle in HQ. rewrite Hs in HQ. pose proof (secret_none _ _ _ _ HI Hs) as Hn.
    destruct (st_Get (db s) (secretKey p id)) as [d|err] eqn:Hg; [|by apply wp_throw, HQ, near_refl].
    apply Get_ok in Hg as [_ Hg]. congruence.
Qed.

(** The read of a secret that is there. *)
Lemma wp_getSecret_live B e s p id sec Q :
  Inv B (cts s) → live (clock e s) (cts s) p id = Some sec →
  (∀ s', near s (cts s) s' → Q (Ok sec) s') → wp e s (getSecret p id) Q.
Proof.
  intros HI Hl HQ. apply (wp_getSecret B); [done|]. intros s' Hs'. rewrite Hl. apply HQ.
  by rewrite (settle_live _ _ _ _ _ Hl) in Hs'.
Qed.

Lemma wp_getVersion e s p id n Q :
  Q (match version_at (cts s) p id n with
     | Some v => if SafeKey (versionKey p id n) then Ok v else Err NotFound
     | None => if SafeKey (versionKey p id n)
               then match cts s !! versionKey p id n with Some _ => Err (Internal ErrDecode) | None => Err NotFound end
               else Err NotFound
     end) s →
  wp e s (getVersion p id n) Q.
Proof.
  intros HQ. unfold getVersion. apply wp_bind, wp_Get. rewrite Get_law. unfold checkKey. unfold version_at in HQ.
  destruct (SafeKey (versionKey p id n)); cbn; destruct (cts s !! versionKey p id n) as [[|]|]; done.
Qed.

(** The read of a version of a stored secret. *)
Lemma wp_getVersion_of B e s p id sec n Q :
  Inv B (cts s) → secret_at (cts s) p id = Some sec →
  Q (match version_at (cts s) p id n with Some v => Ok v | None => Err NotFound end) s →
  wp e s (getVersion p id n) Q.
Proof.
  intros HI Hs HQ. destruct (secret_segments _ _ _ _ _ HI Hs) as [_ Hk]. apply wp_getVersion.
  rewrite versionKey_safe by done. destruct (version_at (cts s) p id n) as [v|] eqn:Hv; [done|].
  by rewrite (version_none _ _ _ _ _ HI Hv).
Qed.

(** ** Listing versions *)

(** A [range] over a map meets every key once. *)
Definition env_ok e : Prop := ∀ l, map_order e l ≡ₚ l.

(** The versions of a secret, oldest first. *)
Definition versions_of m p id (next : Z) : list Version :=
  omap (λ k, version_at m p id (Z.of_nat k)) (seq 1 (Z.to_nat (next - 1))).

Lemma versions_of_elem B m p id sec v :
  Inv B m → secret_at m p id = Some sec →
  v ∈ versions_of m p id (s_NextVersion sec) ↔ ∃ n, (0 ≤ n)%Z ∧ version_at m p id n = Some v.
Proof.
  intros HI Hs. unfold versions_of. rewrite list_elem_of_omap. split.
  - intros (k & _ & Hk). exists (Z.of_nat k). split; [lia|done].
  - intros (n & Hn & Hv). assert (1 ≤ n < s_NextVersion sec)%Z by (eapply version_range; eauto).
    exists (Z.to_nat n). rewrite Z2Nat.id by done. split; [|done]. apply elem_of_seq. lia.
Qed.

Lemma version_at_inj B m p id sec n k v :
  Inv B m → secret_at m p id = Some sec → (0 ≤ n)%Z → (0 ≤ k)%Z →
  version_at m p id n = Some v → version_at m p id k = Some v → n = k.
Proof.
  intros HI Hs Hn Hk Hv Hv'. apply (version_is_ok _ _ _ _ _ _ _ HI Hs Hn) in Hv.
  apply (version_is_ok _ _ _ _ _ _ _ HI Hs Hk) in Hv'. by rewrite <- (vo_Number _ _ _ _ Hv), (vo_Number _ _ _ _ Hv').
Qed.

Lemma NoDup_omap_inj {A C} (f : A → option C) (l : list A) :
  NoDup l → (∀ x y c, x ∈ l → y ∈ l → f x = Some c → f y = Some c → x = y) → NoDup (omap f l).
Proof.
  induction 1 as [|x l Hx Hl IH]; intros Hinj; [constructor|]. cbn.
  assert (NoDup (omap f l)) as Hnd by (apply IH; intros y z c Hy Hz; apply Hinj; set_solver).
  destruct (f x) as [c|] eqn:Hfx; [|done]. constructor; [|done].
  rewrite list_elem_of_omap. intros (y & Hy & Hfy). assert (x = y) as -> by (eapply Hinj; eauto; set_solver). done.
Qed.

Lemma versions_of_NoDup B m p id sec :
  Inv B m → secret_at m p id = Some sec → NoDup (versions_of m p id (s_NextVersion sec)).
Proof.
  intros HI Hs. apply NoDup_omap_inj; [apply NoDup_seq|]. intros x y v _ _ Hx Hy.
  pose proof (version_at_inj B m p id sec (Z.of_nat x) (Z.of_nat y) v). naive_solver lia.
Qed.

Lemma omap_omap {A C D} (f : A → option C) (g : C → option D) (l : list A) :
  omap g (omap f l) = omap (λ x, f x ≫= g) l.
Proof. induction l as [|x l IH]; [done|]. cbn. destruct (f x); cbn; by rewrite IH. Qed.

(** The version stored under a key. *)
Definition version_under (m : gmap string doc) (k : string) : option Version :=
  if SafeKey k then match m !! k with Some (DVersion v) => Some v | _ => None end else None.

Lemma version_under_of B m p id sec k v :
  Inv B m → secret_at m p id = Some sec → HasPrefix k (versionPrefix p id) = true →
  version_under m k = Some v ↔ ∃ n, (0 ≤ n)%Z ∧ k = versionKey p id n ∧ version_at m p id n = Some v.
Proof.
  intros HI Hs Hpre. destruct (secret_segments _ _ _ _ _ HI Hs) as [Hseg Hk]. unfold version_under. split.
  - destruct (SafeKey k); [|done]. destruct (m !! k) as [[|v']|] eqn:Hd; try done. intros [= ->].
    destruct (inv_fits _ _ HI _ _ Hd) as [_ (p' & id' & n & Hseg' & Hn & ->)].
    apply versionPrefix_key in Hpre as [-> ->]; [|apply Hseg'..|apply Hseg|apply Hseg].
    exists n. by rewrite version_at_Some.
  - intros (n & Hn & -> & Hv%version_at_Some). by rewrite versionKey_safe, Hv.
Qed.

(** The values under the prefix of a secret are its versions, in some order. *)
Lemma wp_listVersions B e s p id sec Q :
  Inv B (cts s) → env_ok e → secret_at (cts s) p id = Some sec →
  (∀ vs, vs ≡ₚ versions_of (cts s) p id (s_NextVersion sec) → Q (Ok vs) s) → wp e s (listVersions p id) Q.
Proof.
  intros HI He Hs HQ. unfold listVersions, scan. apply wp_bind, wp_bind, wp_List, wp_bind, wp_ask.
  unfold wp at 1, db_values. cbn. apply wp_ret, HQ. clear HQ Q. rewrite omap_omap.
  set (l := map_order e (list_keys (cts s) (versionPrefix p id))).
  assert (∀ k, k ∈ l → HasPrefix k (versionPrefix p id) = true) as Hl.
  { intros k. unfold l. rewrite (He _ : _ ≡ₚ _). by intros [_ ?]%elem_of_list_keys. }
  rewrite (list_omap_ext _ (version_under (cts s)) l l).
  2: { apply Forall_Forall2_diag, Forall_forall. intros k _. unfold version_under.
       rewrite Get_law. unfold checkKey. destruct (SafeKey k); [|done]. cbn. by destruct (cts s !! k) as [[]|]. }
  pose proof (λ k v H, version_under_of B (cts s) p id sec k v HI Hs (Hl k H)) as Hu.
  apply NoDup_Permutation; [|by eapply versions_of_NoDup|].
  - apply NoDup_omap_inj; [unfold l; rewrite (He _ : _ ≡ₚ _); apply list_keys_NoDup|].
    intros x y v Hx Hy (n & Hn & -> & Hv)%Hu (k & Hk & -> & Hv')%Hu; [|done..].
    by rewrite (version_at_inj B (cts s) p id sec n k v).
  - intros v. rewrite list_elem_of_omap, (versions_of_elem B) by done. split.
    + intros (k & Hk & (n & Hn & _ & Hv)%Hu); [|done]. by exists n.
    + intros (n & Hn & Hv). exists (versionKey p id n). assert (versionKey p id n ∈ l) as Hin.
      { unfold l. rewrite (He _ : _ ≡ₚ _), elem_of_list_keys. split; [|apply versionKey_prefix].
        apply version_at_Some in Hv. by eexists. }
      split; [done|]. apply Hu; [done|]. by exists n.
Qed.

Lemma best_spec v l :
  best v l ∈ v :: l ∧ Forall (λ w, (v_Number w ≤ v_Number (best v l))%Z) (v :: l).
Proof.
  revert v. induction l as [|w l IH]; intros v; [by split; [set_solver|repeat constructor]|].
  change (best v (w :: l)) with (best (if (v_Number v <? v_Number w)%Z then w else v) l).
  set (b := if (v_Number v <? v_Number w)%Z then w else v). destruct (IH b) as [Hin Hall]. rewrite Forall_cons in Hall.
  destruct Hall as [Hb Hall]. split; [unfold b in *; destruct (_ <? _)%Z; set_solver|].
  assert (v_Number v ≤ v_Number b ∧ v_Number w ≤ v_Number b)%Z by (unfold b; destruct (Z.ltb_spec (v_Number v) (v_Number w)); lia).
  constructor; [lia|]. constructor; [lia|done].
Qed.

(** Which number a reference names, for a secret whose next number is [next]. *)
Definition resolve (version : string) (next : Z) : res error Z :=
  if negb (bool_decide (version = LatestAlias)) then
    match Atoi version with
    | Some n => if (n <? 1)%Z then Err InvalidArgument else Ok n
    | None => Err InvalidArgument
    end
  else if (next <=? 1)%Z then Err NotFound else Ok (next - 1)%Z.

(** "latest" is the most recently added version. *)
Lemma best_latest B m p id sec v vs :
  Inv B m → secret_at m p id = Some sec → v :: vs ≡ₚ versions_of m p id (s_NextVersion sec) →
  v_Number (best v (v :: vs)) = (s_NextVersion sec - 1)%Z.
Proof.
  intros HI Hs Hp. destruct (best_spec v (v :: vs)) as [Hin Hall].
  assert (∀ w, w ∈ v :: vs ↔ ∃ n, (0 ≤ n)%Z ∧ version_at m p id n = Some w) as Hmem.
  { intros w. rewrite Hp. by apply (versions_of_elem B). }
  assert (best v (v :: vs) ∈ v :: vs) as Hbin by set_solver. apply Hmem in Hbin as (n & Hn & Hb).
  pose proof (vo_Number _ _ _ _ (version_is_ok _ _ _ _ _ _ _ HI Hs Hn Hb)) as Hnum.
  assert (1 ≤ n < s_NextVersion sec)%Z as Hrange by (eapply version_range; eauto).
  destruct (proj2 (version_range B m p id sec (s_NextVersion sec - 1) HI Hs ltac:(lia))) as [w Hw]; [lia|].
  assert (w ∈ v :: vs) as Hwin by (apply Hmem; exists (s_NextVersion sec - 1)%Z; split; [lia|done]).
  apply Forall_cons in Hall as [_ Hall]. rewrite Forall_forall in Hall. specialize (Hall w Hwin).
  pose proof (vo_Number _ _ _ _ (version_is_ok B m p id sec (s_NextVersion sec - 1) w HI Hs ltac:(lia) Hw)). lia.
Qed.

Lemma wp_resolveVersion B e s p id version Q :
  Inv B (cts s) → env_ok e →
  (∀ s', near s (settle (clock e s) (cts s) p id) s' →
     Q (match live (clock e s) (cts s) p id with
        | Some sec => resolve version (s_NextVersion sec)
        | None => Err NotFound
        end) s') →
  wp e s (resolveVersion p id version) Q.
Proof.
  intros HI He HQ. unfold resolveVersion. apply wp_bind, (wp_getSecret B); [done|]. intros s1 H1. specialize (HQ s1 H1).
  destruct (live (clock e s) (cts s) p id) as [sec|] eqn:Hl; [|done]. unfold resolve in HQ.
  destruct (negb (bool_decide (version = LatestAlias))).
  { destruct (Atoi version) as [n|]; [destruct (n <? 1)%Z|]; done. }
  rewrite (settle_live _ _ _ _ _ Hl) in H1. pose proof (near_cts _ _ _ H1) as Hc. apply live_Some in Hl as [Hs _].
  apply wp_bind, (wp_listVersions B _ _ _ _ sec); rewrite ?Hc; [done..|]. intros vs Hvs.
  pose proof (proj1 (fo_Next _ _ _ _ _ (secret_family _ _ _ _ _ HI Hs))) as Hpos.
  destruct vs as [|v vs].
  - apply wp_throw. destruct (Z.leb_spec (s_NextVersion sec) 1); [done|]. exfalso.
    destruct (proj2 (version_range B (cts s) p id sec 1 HI Hs ltac:(lia))) as [w Hw]; [lia|].
    assert (w ∈ versions_of (cts s) p id (s_NextVersion sec)) as Hin by (apply (versions_of_elem B); [done..|by exists 1%Z]).
    rewrite <- Hvs in Hin. set_solver.
  - apply wp_ret. rewrite (best_latest B (cts s) p id sec) by done.
    destruct (Z.leb_spec (s_NextVersion sec) 1) as [Hle|]; [|done]. exfalso.
    assert (v ∈ versions_of (cts s) p id (s_NextVersion sec)) as Hin by (rewrite <- Hvs; set_solver).
    apply (versions_of_elem B) in Hin as (n & Hn & Hv); [|done..].
    assert (1 ≤ n < s_NextVersion sec)%Z by (eapply version_range; eauto). lia.
Qed.

(** The read of a version by reference. *)
Definition version_named m p id sec (version : string) : res error Version :=
  n ← resolve version (s_NextVersion sec);
  match version_at m p id n with Some v => Ok v | None => Err NotFound end.

Lemma wp_GetVersion B e s p id version Q :
  Inv B (cts s) → env_ok e →
  (∀ s', near s (settle (clock e s) (cts s) p id) s' →
     Q (match live (clock e s) (cts s) p id with
        | Some sec => version_named (cts s) p id sec version
        | None => Err NotFound
        end) s') →
  wp e s (GetVersion p id version) Q.
Proof.
  intros HI He HQ. unfold GetVersion. apply wp_bind, (wp_resolveVersion B); [done..|]. intros s1 H1. specialize (HQ s1 H1).
  destruct (live (clock e s) (cts s) p id) as [sec|] eqn:Hl; [|done]. unfold version_named in HQ.
  destruct (resolve version (s_NextVersion sec)) as [n|err]; [|done]. cbn in HQ.
  rewrite (settle_live _ _ _ _ _ Hl) in H1. pose proof (near_cts _ _ _ H1) as Hc. apply live_Some in Hl as [Hs _].
  apply (wp_getVersion_of B _ _ _ _ sec); rewrite ?Hc; done.
Qed.

End ops.
