(* ===== verification/SecretsEffects.v ===== *)
(** * The effect of each operation of Secret Manager, and its invariant

    One lemma an operation: the store and the result on every branch, over a
    metadata store whose writes do not fail.  The invariant of SecretsInv.v
    follows for every operation and every sequence of them. *)

From S2P Require Import Prelude GoLib ApiError Resource MetaStore IamPolicy Handler GoCrypto SecretsModel SecretsNames SecretsStore SecretsInv SecretsOps.
From Stdlib Require Import Ascii.

Import strings strconv time.

Section effects.
Context {S : Type} `{RS : ReliableStore S doc} `{CR : Crypto}.
Implicit Types (s : Store S) (e : Env) (m : gmap string doc).

Abbreviation cts s := (contents (db s)).

(** ** Shared steps *)

(** Reading a secret that is stored and has not expired. *)
Lemma wp_getSecret_at e s p id sec Q :
  SafeKey (secretKey p id) = true → secret_at (cts s) p id = Some sec → Expired sec (clock e s) = false →
  Q (Ok sec) s → wp e s (getSecret p id) Q.
Proof.
  intros Hk Hs%secret_at_Some Hx HQ. unfold getSecret. apply wp_bind, wp_Get.
  rewrite (proj2 (Get_ok (db s) _ (DSecret sec)) (conj Hk Hs)). apply wp_bind, wp_now. by rewrite Hx.
Qed.

Lemma wp_notifyVersion e s p id sec ev v Q :
  SafeKey (secretKey p id) = true → secret_at (cts s) p id = Some sec → Expired sec (clock e s) = false →
  (∀ s', near s (cts s) s' → Q (Ok tt) s') → wp e s (notifyVersion p id ev v) Q.
Proof.
  intros Hk Hs Hx HQ. unfold notifyVersion. apply wp_bind, wp_attempt, (wp_getSecret_at _ _ _ _ sec); [done..|].
  by apply wp_notify.
Qed.

(** The store after a version and the index of its schedule were written. *)
Definition rescheduled m p id sec (n : Z) (v : Version) : gmap string doc :=
  <[secretKey p id := DSecret (set_ScheduledDestroys sec
      (partial_alter (λ _, scheduled v) (Itoa n) (s_ScheduledDestroys sec)))]>
  (<[versionKey p id n := DVersion v]> m).

(** Two facts of a stored secret that every operation on it uses. *)
Lemma stored_secret B m p id sec :
  Inv B m → secret_at m p id = Some sec → segments p id ∧ SafeKey (secretKey p id) = true ∧ s_Name sec = SecretName p id.
Proof.
  intros HI Hs. destruct (secret_segments _ _ _ _ _ HI Hs) as [??]. split_and!; [done..|].
  apply (fo_Name _ _ _ _ _ (secret_family _ _ _ _ _ HI Hs)).
Qed.

Lemma set_ScheduledDestroys_same sec : set_ScheduledDestroys sec (s_ScheduledDestroys sec) = sec.
Proof. by destruct sec. Qed.

(** A version whose schedule does not change leaves the head as it is. *)
Lemma rescheduled_same B m p id sec n v v' :
  Inv B m → secret_at m p id = Some sec → (0 ≤ n)%Z → version_at m p id n = Some v → scheduled v' = scheduled v →
  rescheduled m p id sec n v' = <[versionKey p id n := DVersion v']> m.
Proof.
  intros HI Hs Hn Hv Hsch. unfold rescheduled.
  rewrite Hsch, <- (version_index _ _ _ _ _ _ _ HI Hs Hn Hv), partial_alter_self, set_ScheduledDestroys_same.
  apply insert_id. rewrite lookup_insert_ne by done. by apply secret_at_Some.
Qed.

Lemma Inv_rescheduled B m p id sec n v v' :
  Inv B m → secret_at m p id = Some sec → (0 ≤ n)%Z → version_at m p id n = Some v →
  version_ok p id n v' → Inv B (rescheduled m p id sec n v').
Proof.
  intros HI Hs Hn Hv Hok. destruct (stored_secret _ _ _ _ _ HI Hs) as (Hseg & Hk & _).
  pose proof (secret_family _ _ _ _ _ HI Hs) as Hfam.
  apply Inv_put_both; [done..|].
  eapply family_ext; [|eapply (family_version _ _ _ _ _ _ n v v' Hfam)]; [|cbn|done..| |].
  - intros k. cbn. destruct (Z.leb_spec 0 k); [done|]. by rewrite decide_False by lia.
  - by rewrite (proj2 (Z.leb_le 0 n)).
  - pose proof (fo_marshals _ _ _ _ _ Hfam) as Hm. cbn in Hm |- *. bool_prop.
    apply andb_true_iff. split; [apply andb_true_iff; split; [apply andb_true_iff; split|]; done|].
    apply forallb_forall. intros [k t] Hin%list_elem_of_In%elem_of_map_to_list.
    destruct (decide (k = Itoa n)) as [->|Hne].
    + rewrite lookup_partial_alter_eq in Hin. pose proof (vo_marshals _ _ _ _ Hok) as Hmv. cbn in Hmv. bool_prop.
      unfold scheduled in Hin. destruct (IsZero (v_ScheduledDestroy v')); [done|]. by injection Hin as <-.
    + rewrite lookup_partial_alter_ne in Hin by done.
      match goal with H : forallb _ _ = true |- _ => rewrite forallb_forall in H; apply (H (k, t)) end.
      by apply list_elem_of_In, elem_of_map_to_list.
  - apply (fo_period _ _ _ _ _ Hfam).
Qed.

(** ** Adding a version *)

Lemma sealVersion_state e s sec v payload : (sealVersion sec v payload e s).1 = s.
Proof.
  unfold sealVersion. destruct (negb (hasKeys _)); [done|]. unfold mbind, M_bind, ask, lift, throw, mret, M_ret.
  repeat case_match; simplify_eq; try done; by repeat case_match; simplify_eq.
Qed.

Lemma sealVersion_ok e s sec v payload v' :
  (sealVersion sec v payload e s).2 = Ok v' → ∃ pl size rs, v' = set_sealed v pl size rs.
Proof.
  unfold sealVersion. destruct (negb (hasKeys _)); [intros [= <-]; by do 3 eexists|].
  unfold mbind, M_bind, ask, lift, throw, mret, M_ret.
  repeat case_match; simplify_eq/=; try done; repeat case_match; simplify_eq/=; intros; simplify_eq; by do 3 eexists.
Qed.

(** The version an add seals. *)
Definition new_version (p id : string) (n : Z) (t : Time) (chk : bool) : Version :=
  mkVersion (VersionName p id n) n StateEnabled t zero zero "" 0 (etag_of t) [] chk.

Definition added m p id sec (v : Version) (et : string) : gmap string doc :=
  <[secretKey p id := DSecret (set_Etag (set_NextVersion sec (s_NextVersion sec + 1)) et)]>
  (<[versionKey p id (s_NextVersion sec) := DVersion v]> m).

Lemma wp_addVersion B e s p id payload chk Q :
  Inv B (cts s) → (B < int_max)%Z → json_ok (clock e s) = true →
  (payload = "" ∨ (MaxPayloadBytes < Z.of_nat (len payload))%Z → Q (Err InvalidArgument) s) →
  (∀ s', payload ≠ "" → (Z.of_nat (len payload) ≤ MaxPayloadBytes)%Z → live (clock e s) (cts s) p id = None →
     near s (settle (clock e s) (cts s) p id) s' → Q (Err NotFound) s') →
  (∀ s' sec v x, payload ≠ "" → (Z.of_nat (len payload) ≤ MaxPayloadBytes)%Z → live (clock e s) (cts s) p id = Some sec →
     v = new_version p id (s_NextVersion sec) (clock e s) chk → near s (cts s) s' →
     (sealVersion sec v payload e s').2 = Err x → Q (Err x) s') →
  (∀ s0 s' sec v v', payload ≠ "" → (Z.of_nat (len payload) ≤ MaxPayloadBytes)%Z → live (clock e s) (cts s) p id = Some sec →
     v = new_version p id (s_NextVersion sec) (clock e s) chk → near s (cts s) s0 →
     (sealVersion sec v payload e s0).2 = Ok v' →
     near s (added (cts s) p id sec v' (etag_of (clock e s))) s' → Q (Ok v') s') →
  wp e s (addVersion p id payload chk) Q.
Proof.
  intros HI HB Ht Hbad Hnone Hseal Hok. unfold addVersion. destruct (bool_decide (payload = "")) eqn:Hp; bool_prop.
  { apply wp_throw. auto. }
  destruct (Z.ltb_spec MaxPayloadBytes (Z.of_nat (len payload))); [apply wp_throw; auto|].
  apply wp_bind, (wp_getSecret B); [done|]. intros s1 H1.
  destruct (live (clock e s) (cts s) p id) as [sec|] eqn:Hl; [|by apply Hnone].
  rewrite (settle_live _ _ _ _ _ Hl) in H1. pose proof (near_clock e _ _ _ H1) as Hclk.
  apply wp_bind, wp_now, wp_bind, wp_etag, wp_bind. rewrite Hclk.
  set (v := mkVersion _ _ _ _ _ _ _ _ _ _ _). unfold wp at 1.
  pose proof (sealVersion_state e s1 sec v payload) as Hst.
  destruct (sealVersion sec v payload e s1) as [s1' [v'|x]] eqn:Hv; cbn in Hst; subst s1'; cbn.
  2: { eapply (Hseal s1 sec v x); try done. by rewrite Hv. }
  apply live_Some in Hl as [Hs Hx]. destruct (stored_secret _ _ _ _ _ HI Hs) as (Hseg & Hk & Hname).
  pose proof (secret_family _ _ _ _ _ HI Hs) as Hfam. pose proof (fo_Next _ _ _ _ _ Hfam) as Hn.
  assert (wrap_i64 (s_NextVersion sec + 1) = (s_NextVersion sec + 1)%Z) as -> by (apply wrap_i64_id; unfold int_min, int_max in *; lia).
  destruct (sealVersion_ok e s1 sec v payload v') as (pl & size & rs & ->); [by rewrite Hv|].
  apply wp_bind, wp_put; [done|apply (fo_marshals _ _ _ _ _ Hfam)|]. intros s2 H2.
  apply wp_bind, wp_put; [by apply versionKey_safe|by cbn; rewrite Ht|]. intros s3 H3.
  apply wp_bind, wp_notify. intros s4 H4. apply wp_ret. eapply (Hok s1); try done.
  - change (new_version p id (s_NextVersion sec) (clock e s) chk) with v. by rewrite Hv.
  - rewrite (near_cts _ _ _ H3), (near_cts _ _ _ H2), (near_cts _ _ _ H1), insert_insert_ne in H4 by done.
    do 3 (eapply near_trans; [eassumption|]). exact H4.
Qed.

Lemma Inv_added B m p id sec v et :
  Inv B m → secret_at m p id = Some sec → version_ok p id (s_NextVersion sec) v → v_ScheduledDestroy v = zero →
  Inv (B + 1) (added m p id sec v et).
Proof.
  intros HI Hs Hv Hz. destruct (stored_secret _ _ _ _ _ HI Hs) as (Hseg & Hk & Hname).
  pose proof (secret_family _ _ _ _ _ HI Hs) as Hfam. pose proof (fo_Next _ _ _ _ _ Hfam) as Hn.
  apply Inv_put_both; [apply (Inv_mono B); [lia|done]|done..|lia|].
  eapply family_ext; [|eapply (family_add _ _ _ _ _ _ v Hfam)]; try done.
  - intros k. cbn. destruct (Z.leb_spec 0 k); [done|]. by rewrite decide_False by lia.
  - apply (fo_marshals _ _ _ _ _ Hfam).
  - apply (fo_period _ _ _ _ _ Hfam).
Qed.

Lemma new_version_ok p id n t chk pl size rs :
  json_ok t = true → version_ok p id n (set_sealed (new_version p id n t chk) pl size rs).
Proof. intros Ht. by constructor; cbn; rewrite ?Ht. Qed.

(** ** Enabling and disabling *)

Lemma resolve_pos version next n : resolve version next = Ok n → (1 ≤ n)%Z.
Proof.
  unfold resolve. destruct (negb _).
  - destruct (Atoi version) as [k|]; [|done]. destruct (Z.ltb_spec k 1); [done|]. intros [= ->]. lia.
  - destruct (Z.leb_spec next 1); [done|]. intros [= <-]. lia.
Qed.

Lemma version_named_ok B m p id sec version v :
  Inv B m → secret_at m p id = Some sec → version_named m p id sec version = Ok v →
  ∃ n, resolve version (s_NextVersion sec) = Ok n ∧ (1 ≤ n < s_NextVersion sec)%Z ∧ version_at m p id n = Some v ∧
    version_ok p id n v.
Proof.
  intros HI Hs. unfold version_named. destruct (resolve version (s_NextVersion sec)) as [n|] eqn:Hr; [|done].
  pose proof (resolve_pos _ _ _ Hr). cbn. destruct (version_at m p id n) as [v'|] eqn:Hv; [|done]. intros [= ->].
  assert (1 ≤ n < s_NextVersion sec)%Z by (eapply (version_range B m p id sec n); [done..|lia|by rewrite Hv]).
  exists n. split_and!; [done|lia..|done|]. eapply version_is_ok; [done..|lia|done].
Qed.

Lemma set_State_ok p id n v state t :
  version_ok p id n v → state ≠ StateDestroyed → version_ok p id n (set_State v state t zero).
Proof.
  intros [H1 H2 H3 H4 H5] Hst. constructor; cbn in *; [done..| |done|by intros []].
  apply andb_true_iff in H3 as [H3 _]. by rewrite H3.
Qed.

(** The two steps an operation on a version starts with. *)
Lemma wp_named {A} B e s p id version (f : Z → Version → M S A) Q :
  Inv B (cts s) → env_ok e →
  (∀ s' x, match live (clock e s) (cts s) p id with
           | Some sec => version_named (cts s) p id sec version | None => Err NotFound end = Err x →
     near s (settle (clock e s) (cts s) p id) s' → Q (Err x) s') →
  (∀ s' sec n v, live (clock e s) (cts s) p id = Some sec → version_named (cts s) p id sec version = Ok v →
     resolve version (s_NextVersion sec) = Ok n → near s (cts s) s' → wp e s' (f n v) Q) →
  wp e s (number ← resolveVersion p id version; v ← getVersion p id number; f number v) Q.
Proof.
  intros HI He Herr Hok. apply wp_bind, (wp_resolveVersion B); [done..|]. intros s1 H1.
  destruct (live (clock e s) (cts s) p id) as [sec|] eqn:Hl; [|by apply Herr].
  destruct (resolve version (s_NextVersion sec)) as [n|x] eqn:Hr.
  2: { apply Herr; [|done]. unfold version_named. by rewrite Hr. }
  pose proof (settle_live _ _ _ _ _ Hl) as Hset. rewrite Hset in *. pose proof (near_cts _ _ _ H1) as Hc.
  pose proof Hl as [Hs Hx]%live_Some. apply wp_bind, (wp_getVersion_of B _ _ _ _ sec); rewrite ?Hc; [done..|].
  destruct (version_at (cts s) p id n) as [v|] eqn:Hv.
  - eapply Hok; try done. unfold version_named. by rewrite Hr; cbn; rewrite Hv.
  - apply Herr; [|done]. unfold version_named. by rewrite Hr; cbn; rewrite Hv.
Qed.

(** Both documents of a version that was rescheduled are read back. *)
Lemma rescheduled_secret m p id sec n v :
  segments p id → secret_at (rescheduled m p id sec n v) p id =
    Some (set_ScheduledDestroys sec (partial_alter (λ _, scheduled v) (Itoa n) (s_ScheduledDestroys sec))).
Proof. intros Hseg. unfold rescheduled. rewrite secret_at_put by done. by rewrite decide_True. Qed.

Lemma wp_SetVersionState B e s p id version state Q :
  Inv B (cts s) → env_ok e →
  (state = StateDestroyed → Q (Err InvalidArgument) s) →
  (∀ s' x, state ≠ StateDestroyed → match live (clock e s) (cts s) p id with
           | Some sec => version_named (cts s) p id sec version | None => Err NotFound end = Err x →
     near s (settle (clock e s) (cts s) p id) s' → Q (Err x) s') →
  (∀ s' sec v, state ≠ StateDestroyed → live (clock e s) (cts s) p id = Some sec →
     version_named (cts s) p id sec version = Ok v → v_State v = StateDestroyed →
     near s (cts s) s' → Q (Err FailedPrecondition) s') →
  (∀ s' sec n v v', state ≠ StateDestroyed → live (clock e s) (cts s) p id = Some sec →
     version_named (cts s) p id sec version = Ok v → resolve version (s_NextVersion sec) = Ok n →
     v_State v ≠ StateDestroyed → v' = set_State v state (etag_of (clock e s)) zero →
     near s (rescheduled (cts s) p id sec n v') s' → Q (Ok v') s') →
  wp e s (SetVersionState p id version state) Q.
Proof.
  intros HI He Hbad Herr Hdest Hok. unfold SetVersionState.
  destruct (bool_decide (state = StateDestroyed)) eqn:Hst; bool_prop; [by apply wp_throw, Hbad|].
  apply (wp_named B); [done..| |]; [intros; by eapply Herr|]. intros s1 sec n v Hl Hnamed Hr H1.
  destruct (bool_decide (v_State v = StateDestroyed)) eqn:Hvd; bool_prop; [by eapply wp_throw, Hdest|].
  apply wp_bind, wp_etag. rewrite (near_clock e _ _ _ H1). set (v' := set_State v state _ zero).
  pose proof Hl as [Hs Hx]%live_Some. destruct (stored_secret _ _ _ _ _ HI Hs) as (Hseg & Hk & _).
  destruct (version_named_ok _ _ _ _ _ _ _ HI Hs Hnamed) as (n' & Hr' & Hn & Hv & Hvok). rewrite Hr in Hr'. injection Hr' as <-.
  pose proof (set_State_ok p id n v state (etag_of (clock e s)) Hvok Hst) as Hv'.
  apply wp_bind, wp_put; [by apply versionKey_safe|apply Hv'|]. intros s2 H2. rewrite (near_cts _ _ _ H1) in H2.
  pose proof (near_trans _ _ _ _ _ H1 H2) as H02.
  assert (∀ s3, near s (rescheduled (cts s) p id sec n v') s3 →
    wp e s3 (notifyVersion p id (if bool_decide (state = StateDisabled) then EventSecretVersionDisable
      else EventSecretVersionEnable) v' ;; mret v') Q) as Hend.
  { intros s3 H3. apply wp_bind. eapply wp_notifyVersion; [done| | |].
    - rewrite (near_cts _ _ _ H3). by apply rescheduled_secret.
    - by rewrite (near_clock e _ _ _ H3).
    - intros s4 H4. eapply wp_ret, Hok; try done. rewrite (near_cts _ _ _ H3) in H4. by eapply near_trans. }
  destruct (negb (IsZero (v_ScheduledDestroy v))) eqn:Hz; cbn [when]; apply wp_bind.
  - unfold unschedule. apply wp_bind, (wp_getSecret_at _ _ _ _ sec); [done| | |].
    + by rewrite (near_cts _ _ _ H2), secret_at_put_version.
    + by rewrite (near_clock e _ _ _ H02).
    + apply wp_put; [done| |].
      * assert (Inv B (rescheduled (cts s) p id sec n v')) as HI' by (eapply Inv_rescheduled; [done..|lia|done|done]).
        exact (fo_marshals _ _ _ _ _ (secret_family _ _ _ _ _ HI' (rescheduled_secret _ _ _ _ _ _ Hseg))).
      * intros s3 H3. apply Hend. rewrite (near_cts _ _ _ H2) in H3. by eapply near_trans.
  - apply wp_ret, Hend. erewrite rescheduled_same; try done; [lia|]. unfold scheduled. cbn. bool_prop. by rewrite Hz.
Qed.

(** ** Destroying *)

Definition destroyed (v : Version) (t : Time) : Version :=
  set_destroyed v StateDestroyed zero t "" 0
    ((λ r, mkReplicaStatus (r_Location r) (r_KMSKey r) (r_KeyVersion r) "") <$> v_Replicas v) (etag_of t).

Lemma destroyed_ok p id n v t : version_ok p id n v → json_ok t = true → version_ok p id n (destroyed v t).
Proof.
  intros [H1 H2 H3 H4 H5] Ht. constructor; cbn in *; [done..| | |by intros []].
  - apply andb_true_iff in H3 as [[H3 _]%andb_true_iff _]. by rewrite H3, Ht.
  - intros _. split_and!; [done| |done]. by apply Forall_fmap, Forall_true.
Qed.

Lemma wp_destroyNowQuiet e s p id v Q :
  SafeKey (secretKey p id) = true → marshals (DVersion (destroyed v (clock e s))) = true →
  (∀ s', near s (<[versionKey p id (v_Number v) := DVersion (destroyed v (clock e s))]> (cts s)) s' →
     Q (Ok (destroyed v (clock e s))) s') →
  wp e s (destroyNowQuiet p id v) Q.
Proof.
  intros Hk Hm HQ. unfold destroyNowQuiet. apply wp_bind, wp_now, wp_bind, wp_etag, wp_bind.
  apply wp_put; [by apply versionKey_safe|done|]. intros s1 H1. by apply wp_ret, HQ.
Qed.

(** The store, woken. *)
Definition near_woken s m' s' : Prop := cts s' = m' ∧ offset s' = offset s ∧ rearm s' = true.

Lemma near_near_woken s m1 s1 m2 s2 : near s m1 s1 → near_woken s1 m2 s2 → near_woken s m2 s2.
Proof. intros (? & ? & ?) (? & ? & ?). split_and!; congruence. Qed.

(** The version a destroy on a secret with a ttl leaves until the time comes. *)
Definition pending (v : Version) (sec : Secret) (t : Time) : Version :=
  set_State v StateDisabled (etag_of t) (Add t (s_VersionDestroyTTL sec)).

Lemma pending_ok p id n v sec t :
  version_ok p id n v → v_State v ≠ StateDestroyed → json_ok (Add t (s_VersionDestroyTTL sec)) = true →
  version_ok p id n (pending v sec t).
Proof.
  intros [H1 H2 H3 H4 H5] Hst Ht. constructor; cbn in *; [done..| |done|done].
  apply andb_true_iff in H3 as [H3 _]. by rewrite H3, Ht.
Qed.

Lemma wp_scheduleDestroy B e s p id sec n v Q :
  Inv B (cts s) → secret_at (cts s) p id = Some sec → (1 ≤ n)%Z → version_at (cts s) p id n = Some v →
  v_State v ≠ StateDestroyed →
  (json_ok (Add (clock e s) (s_VersionDestroyTTL sec)) = false → Q (Err (Internal ErrEncode)) s) →
  (∀ s', json_ok (Add (clock e s) (s_VersionDestroyTTL sec)) = true →
     near_woken s (rescheduled (cts s) p id (sec) n (pending v sec (clock e s))) s' →
     Q (Ok (pending v sec (clock e s))) s') →
  (clock e s > 0)%Z → (0 < s_VersionDestroyTTL sec)%Z →
  wp e s (scheduleDestroy sec v) Q.
Proof.
  intros HI Hs Hn Hv Hst Herr Hok Hclk Httl. destruct (stored_secret _ _ _ _ _ HI Hs) as ([Hp Hid] & Hk & Hname).
  assert (version_ok p id n v) as Hvok by (eapply version_is_ok; [done..|lia|done]).
  unfold scheduleDestroy. rewrite Hname, secretParts_SecretName by done.
  apply wp_bind, wp_now, wp_bind, wp_etag, wp_bind. cbv zeta. cbn [v_Number set_State]. rewrite (vo_Number _ _ _ _ Hvok).
  apply wp_put_any; [by apply versionKey_safe| |].
  2: { intros Hm. apply Herr. pose proof (vo_marshals _ _ _ _ Hvok) as Hmv. cbn in Hm, Hmv.
       apply andb_true_iff in Hmv as [Hmv _]. by rewrite Hmv in Hm. }
  intros Hm s1 H1. cbn in Hm. apply andb_true_iff in Hm as [_ Hm].
  pose proof (pending_ok p id n v sec (clock e s) Hvok Hst Hm) as Hpok.
  assert (Inv B (rescheduled (cts s) p id sec n (pending v sec (clock e s)))) as HI'
    by (eapply Inv_rescheduled; [done..|lia|done|done]).
  assert (scheduled (pending v sec (clock e s)) = Some (Add (clock e s) (s_VersionDestroyTTL sec))) as Hsch.
  { unfold scheduled. cbn. unfold IsZero, Add. by rewrite (proj2 (Z.eqb_neq _ 0)) by lia. }
  apply wp_bind, wp_put; [done| |].
  - pose proof (fo_marshals _ _ _ _ _ (secret_family _ _ _ _ _ HI' (rescheduled_secret _ _ _ _ _ _ (conj Hp Hid)))) as Hms.
    rewrite Hsch in Hms. exact Hms.
  - intros s2 H2. apply wp_bind, wp_notify. intros s3 H3. apply wp_bind, wp_wake, wp_ret, Hok; [done|].
    pose proof (near_trans _ _ _ _ _ H1 H2) as H12. rewrite (near_cts _ _ _ H12) in H3.
    pose proof (near_trans _ _ _ _ _ H12 H3) as (Hc & Ho & _). split_and!; [|done..]. cbn. rewrite Hc.
    rewrite (near_cts _ _ _ H1). unfold rescheduled. by rewrite Hsch.
Qed.

Lemma wp_DestroyVersion B e s p id version Q :
  Inv B (cts s) → env_ok e → (clock e s > 0)%Z → json_ok (clock e s) = true →
  (∀ s' x, match live (clock e s) (cts s) p id with
           | Some sec => version_named (cts s) p id sec version | None => Err NotFound end = Err x →
     near s (settle (clock e s) (cts s) p id) s' → Q (Err x) s') →
  (∀ s' sec v, live (clock e s) (cts s) p id = Some sec → version_named (cts s) p id sec version = Ok v →
     v_State v = StateDestroyed ∨ v_ScheduledDestroy v ≠ zero → near s (cts s) s' → Q (Err FailedPrecondition) s') →
  (∀ s' sec v, live (clock e s) (cts s) p id = Some sec → version_named (cts s) p id sec version = Ok v →
     v_State v ≠ StateDestroyed → v_ScheduledDestroy v = zero → (0 < s_VersionDestroyTTL sec)%Z →
     json_ok (Add (clock e s) (s_VersionDestroyTTL sec)) = false → near s (cts s) s' → Q (Err (Internal ErrEncode)) s') →
  (∀ s' sec n v, live (clock e s) (cts s) p id = Some sec → version_named (cts s) p id sec version = Ok v →
     resolve version (s_NextVersion sec) = Ok n → v_State v ≠ StateDestroyed → v_ScheduledDestroy v = zero →
     (0 < s_VersionDestroyTTL sec)%Z → json_ok (Add (clock e s) (s_VersionDestroyTTL sec)) = true →
     near_woken s (rescheduled (cts s) p id sec n (pending v sec (clock e s))) s' → Q (Ok (pending v sec (clock e s))) s') →
  (∀ s' sec n v, live (clock e s) (cts s) p id = Some sec → version_named (cts s) p id sec version = Ok v →
     resolve version (s_NextVersion sec) = Ok n → v_State v ≠ StateDestroyed → v_ScheduledDestroy v = zero →
     (s_VersionDestroyTTL sec ≤ 0)%Z →
     near s (rescheduled (cts s) p id sec n (destroyed v (clock e s))) s' → Q (Ok (destroyed v (clock e s))) s') →
  wp e s (DestroyVersion p id version) Q.
Proof.
  intros HI He Hclk Ht Herr Hfp Henc Hpend Hdest. unfold DestroyVersion.
  apply (wp_named B); [done..|]. intros s1 sec n v Hl Hnamed Hr H1.
  destruct (bool_decide (v_State v = StateDestroyed)) eqn:Hvd; bool_prop; [eapply wp_throw, Hfp; eauto|].
  destruct (negb (IsZero (v_ScheduledDestroy v))) eqn:Hvs; bool_prop.
  { eapply wp_throw, Hfp; eauto. right. intros Hz. by rewrite Hz in Hvs. }
  assert (v_ScheduledDestroy v = zero) as Hz by by apply Z.eqb_eq.
  pose proof Hl as [Hs Hx]%live_Some. destruct (stored_secret _ _ _ _ _ HI Hs) as (Hseg & Hk & _).
  destruct (version_named_ok _ _ _ _ _ _ _ HI Hs Hnamed) as (n' & Hr' & Hn & Hv & Hvok). rewrite Hr in Hr'. injection Hr' as <-.
  pose proof (near_cts _ _ _ H1) as Hc. pose proof (near_clock e _ _ _ H1) as Hck.
  apply wp_bind, (wp_getSecret_at _ _ _ _ sec); rewrite ?Hc, ?Hck; [done..|].
  destruct (Z.ltb_spec 0 (s_VersionDestroyTTL sec)) as [Httl|Httl].
  - apply (wp_scheduleDestroy B _ _ p id sec n); rewrite ?Hc, ?Hck; [done|done|lia|done|done| | |done|done].
    + intros Hj. by eapply Henc.
    + intros s2 Hj H2. eapply Hpend; try done. by eapply near_near_woken.
  - unfold destroyNow. pose proof (destroyed_ok p id n v (clock e s) Hvok Ht) as Hdok.
    apply wp_bind, wp_destroyNowQuiet; [done|rewrite Hck; apply Hdok|]. rewrite Hck, Hc, (vo_Number _ _ _ _ Hvok).
    intros s2 H2. pose proof (near_trans _ _ _ _ _ H1 H2) as H02. apply wp_bind.
    eapply (wp_notifyVersion _ _ _ _ sec); [done| |by rewrite (near_clock e _ _ _ H02)|].
    { by rewrite (near_cts _ _ _ H2), secret_at_put_version. }
    intros s3 H3. rewrite (near_cts _ _ _ H2) in H3. pose proof (near_trans _ _ _ _ _ H02 H3) as H03.
    eapply wp_ret, Hdest; try done.
    erewrite rescheduled_same; try done; [lia|]. unfold scheduled. cbn. by rewrite Hz.
Qed.

(** ** Creating, updating, deleting *)

(** The store holding [m'], woken or not. *)
Definition near_any s m' s' : Prop := cts s' = m' ∧ offset s' = offset s.

Lemma near_any_of s m' s' : near s m' s' → near_any s m' s'.
Proof. by intros (? & ? & _). Qed.

(** The head of a new secret. *)
Record created_as (p id : string) (t : Time) (expire : Time) (sch : Schedule) (sec : Secret) : Prop := mkCreatedAs {
  ca_Name : s_Name sec = SecretName p id;
  ca_Next : s_NextVersion sec = 1%Z;
  ca_index : s_ScheduledDestroys sec = ∅;
  ca_Expire : s_Expire sec = expire;
  ca_Rotation : s_NextRotation sec = NextRotation sch;
  ca_Period : s_RotationPeriod sec = RotationPeriod sch;
  ca_TTL : s_VersionDestroyTTL sec = VersionDestroyTTL sch;
  ca_marshals : marshals (DSecret sec) = true
}.

Lemma wp_checkKMSKeys e s r ls ks Q :
  (∀ x, Q (Err x) s) → ((hasKeys ks = true → is_Some (keyService e)) → Q (Ok tt) s) → wp e s (checkKMSKeys r ls ks) Q.
Proof.
  intros Herr Hok. unfold checkKMSKeys. apply wp_bind, wp_lift. destruct (check_keys_from r ls 0 ks) as [[]|]; [|done].
  apply wp_bind, wp_ask. destruct (keyService e); [apply wp_ret, Hok; by eexists|].
  destruct (hasKeys ks); [by apply wp_throw|]. by apply wp_ret, Hok.
Qed.

Lemma wp_CreateSecret B e s p id ls ans expire topics sch keys repl locs Q :
  Inv B (cts s) → env_ok e →
  (∀ s' x, (cts s' = cts s ∨ cts s' = settle (clock e s) (cts s) p id) → offset s' = offset s → rearm s' = rearm s →
     Q (Err x) s') →
  (∀ s' sec, live (clock e s) (cts s) p id = None → p ≠ "" → ValidateSecretID id = Ok tt →
     (IsZero expire = true ∨ (clock e s < expire)%Z) → check sch (clock e s) true true = Ok tt →
     created_as p id (clock e s) expire sch sec → SafeKey (secretKey p id) = true →
     (s_KMSKeys sec ≠ [] → is_Some (keyService e)) →
     cts s' = <[secretKey p id := DSecret sec]> (settle (clock e s) (cts s) p id) → offset s' = offset s →
     rearm s' = (if negb (IsZero expire) || negb (IsZero (NextRotation sch)) then true else rearm s) → Q (Ok sec) s') →
  wp e s (CreateSecretEncrypted p id ls ans expire topics sch keys repl locs) Q.
Proof.
  intros HI He Herr Hok. assert (∀ x, Q (Err x) s) as Herr0 by (intros x; apply Herr; auto).
  unfold CreateSecretEncrypted. apply wp_bind, wp_now, wp_bind, wp_lift.
  destruct (check sch (clock e s) true true) as [[]|x] eqn:Hsch; [|done].
  destruct (_ && bool_decide (topics = [])); [by apply wp_throw|].
  destruct (negb (IsZero expire) && negb (After expire (clock e s))) eqn:Hexp; [by apply wp_throw|].
  destruct (bool_decide (p = "")) eqn:Hp; bool_prop; [by apply wp_throw|].
  apply wp_bind, wp_lift. destruct (ValidateSecretID id) as [[]|x] eqn:Hid; [|done].
  apply wp_bind, wp_lift. destruct (check_policy repl locs keys) as [repl'|x]; [|done].
  apply wp_bind, wp_checkKMSKeys; [done|]. intros Hkms.
  apply wp_bind, wp_validateTopics. intros [[]|x]; [|done].
  apply wp_bind, wp_attempt, (wp_getSecret B); [done|]. intros s1 H1.
  destruct (live (clock e s) (cts s) p id) as [sec0|] eqn:Hl.
  { apply wp_throw, Herr; [right; apply H1|apply H1..]. }
  apply wp_bind, wp_topicConfigured. intros [[]|x] s2 H2; rewrite (near_cts _ _ _ H1) in H2;
    pose proof (near_trans _ _ _ _ _ H1 H2) as H02; [|by apply Herr; [right; apply H02|apply H02..]].
  apply wp_bind, wp_etag. cbv zeta. set (sec := mkSecret _ _ _ _ _ _ _ _ _ _ _ _ _ _ _ _).
  apply wp_bind. destruct (SafeKey (secretKey p id)) eqn:Hk.
  2: { unfold wp, put. destruct (negb (marshals (DSecret sec))); [apply Herr; [right; apply H02|apply H02..]|].
       rewrite Put_law. rewrite (Commit_unsafe _ _ (Wrapped ErrUnsafeKey)) by (cbn; unfold checkKey; by rewrite Hk).
       apply Herr; [right; apply H02|apply H02..]. }
  apply wp_put_any; [done| |intros _; apply Herr; [right; apply H02|apply H02..]].
  intros Hm s3 H3. rewrite (near_cts _ _ _ H02) in H3. pose proof (near_trans _ _ _ _ _ H02 H3) as H03.
  apply wp_bind, wp_notify. intros s4 H4. rewrite (near_cts _ _ _ H03) in H4.
  pose proof (near_trans _ _ _ _ _ H03 H4) as (Hc & Ho & Hr).
  assert (created_as p id (clock e s) expire sch sec) as Hcr by by constructor.
  assert (IsZero expire = true ∨ (clock e s < expire)%Z) as Hexp'.
  { destruct (IsZero expire); [by left|right]. cbn in Hexp. unfold After in Hexp. bool_prop. lia. }
  assert (s_KMSKeys sec ≠ [] → is_Some (keyService e)) as Hk'.
  { cbn. unfold normalKeys. destruct (hasKeys (default [] keys)); [|done]. intros _. by apply Hkms. }
  apply wp_bind. cbn [s_Expire s_NextRotation sec].
  destruct (negb (IsZero expire) || negb (IsZero (NextRotation sch))) eqn:Hw; cbn [when].
  - by apply wp_wake, wp_ret, Hok.
  - by apply wp_ret, wp_ret, Hok.
Qed.

Lemma Inv_create B m t p id sec :
  Inv B m → (1 ≤ B)%Z → live t m p id = None → segments p id → SafeKey (secretKey p id) = true →
  s_Name sec = SecretName p id → s_NextVersion sec = 1%Z → s_ScheduledDestroys sec = ∅ → marshals (DSecret sec) = true →
  period_ok sec → Inv B (<[secretKey p id := DSecret sec]> (settle t m p id)).
Proof.
  intros HI HB Hl Hseg Hk Hn Hnext Hidx Hm HP. pose proof (Inv_settle B t m p id HI) as HI'.
  apply Inv_put_secret; [done..|]. apply family_new; [done..|]. intros n. destruct (Z.leb_spec 0 n); [|done].
  pose proof (inv_family _ _ HI' p id Hseg) as Hfam.
  assert (secret_at (settle t m p id) p id = None) as Hnone by by unfold secret_at; rewrite (settle_gone _ _ _ _ _ HI Hl).
  rewrite Hnone in Hfam. by apply Hfam.
Qed.

(** A head whose number and index stay. *)
Lemma Inv_head B m p id sec sec' :
  Inv B m → secret_at m p id = Some sec → s_Name sec' = s_Name sec → s_NextVersion sec' = s_NextVersion sec →
  s_ScheduledDestroys sec' = s_ScheduledDestroys sec → marshals (DSecret sec') = true → period_ok sec' →
  Inv B (<[secretKey p id := DSecret sec']> m).
Proof.
  intros HI Hs Hn Hnext Hidx Hm HP. destruct (stored_secret _ _ _ _ _ HI Hs) as (Hseg & Hk & _).
  apply Inv_put_secret; [done..|]. by eapply family_head; [eapply secret_family|..].
Qed.

Lemma apply_update_fixed u next period et sec :
  s_Name (apply_update u next period et sec) = s_Name sec ∧
  s_NextVersion (apply_update u next period et sec) = s_NextVersion sec ∧
  s_ScheduledDestroys (apply_update u next period et sec) = s_ScheduledDestroys sec ∧
  s_KMSKeys (apply_update u next period et sec) = s_KMSKeys sec ∧
  s_Expire (apply_update u next period et sec) = (if UpdateExpire u then u_Expire u else s_Expire sec) ∧
  s_NextRotation (apply_update u next period et sec) =
    (if UpdateNextRotation u || UpdateRotationPeriod u then next else s_NextRotation sec) ∧
  s_RotationPeriod (apply_update u next period et sec) =
    (if UpdateNextRotation u || UpdateRotationPeriod u then period else s_RotationPeriod sec) ∧
  s_VersionDestroyTTL (apply_update u next period et sec) =
    (if UpdateVersionDestroyTTL u then VersionDestroyTTL (u_Schedule u) else s_VersionDestroyTTL sec).
Proof.
  unfold apply_update. destruct (UpdateTopics u), (UpdateExpire u), (UpdateNextRotation u || UpdateRotationPeriod u),
    (UpdateVersionDestroyTTL u), (UpdateLabels u), (UpdateAnnotations u); by split_and!.
Qed.

(** The rotation an update asks for. *)
Definition next_of u sec : Time := if UpdateNextRotation u then NextRotation (u_Schedule u) else s_NextRotation sec.
Definition period_of u sec : Duration := if UpdateRotationPeriod u then RotationPeriod (u_Schedule u) else s_RotationPeriod sec.

Lemma wp_UpdateSecretFields B e s p id u Q :
  Inv B (cts s) → env_ok e →
  (∀ s' x, (cts s' = cts s ∨ cts s' = settle (clock e s) (cts s) p id) → offset s' = offset s →
     (rearm s = true → rearm s' = true) → Q (Err x) s') →
  (∀ s' sec sec', live (clock e s) (cts s) p id = Some sec →
     sec' = apply_update u (next_of u sec) (period_of u sec) (etag_of (clock e s)) sec →
     (UpdateExpire u = true → IsZero (u_Expire u) = true ∨ (clock e s < u_Expire u)%Z) →
     check (u_Schedule u) (clock e s) (UpdateNextRotation u) (UpdateVersionDestroyTTL u) = Ok tt →
     ((period_of u sec ≤ 0)%Z ∨ IsZero (next_of u sec) = false) → marshals (DSecret sec') = true →
     cts s' = <[secretKey p id := DSecret sec']> (cts s) → offset s' = offset s →
     rearm s' = (if UpdateExpire u || UpdateNextRotation u || UpdateRotationPeriod u then true else rearm s) →
     Q (Ok sec') s') →
  wp e s (UpdateSecretFields p id u) Q.
Proof.
  intros HI He Herr Hok. assert (∀ x, Q (Err x) s) as Herr0 by (intros x; apply Herr; auto).
  unfold UpdateSecretFields. apply wp_bind, wp_now.
  destruct (UpdateExpire u && _ && _) eqn:Hexp; [by apply wp_throw|].
  apply wp_bind, wp_lift. destruct (check _ _ _ _) as [[]|x] eqn:Hsch; [|done].
  apply wp_bind, (wp_getSecret B); [done|]. intros s1 H1.
  destruct (live (clock e s) (cts s) p id) as [sec|] eqn:Hl.
  2: { destruct H1 as (? & ? & ?). apply Herr; [by right|done|congruence]. }
  rewrite (settle_live _ _ _ _ _ Hl) in H1. fold (next_of u sec) (period_of u sec).
  assert (∀ s' x, near s (cts s) s' → Q (Err x) s') as Herr1.
  { intros s' x (? & ? & ?). apply Herr; [by left|done|congruence]. }
  cbv zeta. destruct ((0 <? period_of u sec)%Z && IsZero (next_of u sec)) eqn:Hper; [by apply wp_throw, Herr1|].
  destruct (negb (IsZero (next_of u sec)) && _); [by apply wp_throw, Herr1|].
  assert (∀ s2, near s (cts s) s2 → wp e s2 (deferred (when (UpdateExpire u || UpdateNextRotation u || UpdateRotationPeriod u) wake)
    (et ← etag; let sec0 := apply_update u (next_of u sec) (period_of u sec) et sec in
     put (secretKey p id) (DSecret sec0) ;; notify sec0 EventSecretUpdate None None ;; mret sec0)) Q) as Hend.
  { intros s2 H2. pose proof Hl as [Hs Hx]%live_Some. destruct (stored_secret _ _ _ _ _ HI Hs) as (Hseg & Hk & _).
    apply wp_deferred, wp_bind, wp_etag. cbv zeta. rewrite (near_clock e _ _ _ H2).
    set (sec' := apply_update _ _ _ _ _). apply wp_bind, wp_put_any; [done| |].
    2: { intros _. destruct H2 as (? & ? & ?). destruct (_ || _); cbn [when];
         [apply wp_wake|apply wp_ret]; (apply Herr; [by left|done|]); [done|congruence]. }
    intros Hm s3 H3. rewrite (near_cts _ _ _ H2) in H3. pose proof (near_trans _ _ _ _ _ H2 H3) as H03.
    apply wp_bind, wp_notify. intros s4 H4. rewrite (near_cts _ _ _ H03) in H4.
    destruct (near_trans _ _ _ _ _ H03 H4) as (Hc & Ho & Hr). apply wp_ret.
    destruct (_ || _) eqn:Hw; cbn [when]; [apply wp_wake|apply wp_ret]; eapply Hok; try done.
    all: try (by rewrite Hw).
    all: try (intros Hu; rewrite Hu in Hexp; cbn in Hexp; destruct (IsZero (u_Expire u)); [by left|right];
              cbn in Hexp; unfold After in Hexp; bool_prop; lia).
    all: apply andb_false_iff in Hper as [Hper|Hper]; [left; bool_prop; lia|by right]. }
  destruct (UpdateTopics u); cbn [when]; [|by apply wp_bind, wp_ret, Hend].
  apply wp_bind, wp_bind, wp_validateTopics. intros [[]|x]; [|by apply Herr1].
  apply wp_topicConfigured. intros [[]|x] s2 H2; rewrite (near_cts _ _ _ H1) in H2;
    pose proof (near_trans _ _ _ _ _ H1 H2) as H02; [by apply Hend|by apply Herr1].
Qed.

Lemma wp_DeleteSecret B e s p id Q :
  Inv B (cts s) → env_ok e →
  (∀ s', live (clock e s) (cts s) p id = None → near s (settle (clock e s) (cts s) p id) s' → Q (Err NotFound) s') →
  (∀ s' sec, live (clock e s) (cts s) p id = Some sec → near s (purge (cts s) p id) s' → Q (Ok tt) s') →
  wp e s (DeleteSecret p id) Q.
Proof.
  intros HI He Hnone Hok. unfold DeleteSecret. apply wp_bind, (wp_getSecret B); [done|]. intros s1 H1.
  destruct (live (clock e s) (cts s) p id) as [sec|] eqn:Hl; [|by apply Hnone].
  rewrite (settle_live _ _ _ _ _ Hl) in H1. pose proof Hl as [Hs Hx]%live_Some. pose proof (near_cts _ _ _ H1) as Hc.
  apply wp_bind, (wp_deleteSecret B _ _ _ _ sec); rewrite ?Hc; [done..|]. intros s2 H2.
  pose proof (near_trans _ _ _ _ _ H1 H2) as H02. apply wp_notify. intros s3 H3.
  rewrite (near_cts _ _ _ H02) in H3. eapply Hok; [done|]. by eapply near_trans.
Qed.

Lemma wp_SetIamPolicy B e s p id req Q :
  Inv B (cts s) →
  (∀ s' x, near s (settle (clock e s) (cts s) p id) s' → Q (Err x) s') →
  (∀ s' sec next, live (clock e s) (cts s) p id = Some sec → Set_ (s_IAMPolicy sec) req (rand_etag e) = Ok next →
     near s (<[secretKey p id := DSecret (set_IAMPolicy sec (Some next))]> (cts s)) s' → Q (Ok next) s') →
  wp e s (SetIamPolicy p id req) Q.
Proof.
  intros HI Herr Hok. unfold SetIamPolicy. apply wp_bind, (wp_getSecret B); [done|]. intros s1 H1.
  destruct (live (clock e s) (cts s) p id) as [sec|] eqn:Hl; [|by apply Herr].
  apply wp_bind, wp_ask, wp_bind, wp_lift. destruct (Set_ _ _ _) as [next|x] eqn:Hset; [|by apply Herr].
  rewrite (settle_live _ _ _ _ _ Hl) in *. pose proof Hl as [Hs Hx]%live_Some.
  destruct (stored_secret _ _ _ _ _ HI Hs) as (Hseg & Hk & _).
  apply wp_bind, wp_put; [done|apply (fo_marshals _ _ _ _ _ (secret_family _ _ _ _ _ HI Hs))|]. intros s2 H2.
  rewrite (near_cts _ _ _ H1) in H2. apply wp_ret. eapply Hok; [done..|]. by eapply near_trans.
Qed.

Lemma wp_SetReplicationKeys B e s p id keys Q :
  Inv B (cts s) →
  (∀ s' x, near s (settle (clock e s) (cts s) p id) s' → Q (Err x) s') →
  (∀ s' sec sec', live (clock e s) (cts s) p id = Some sec →
     sec' = set_Etag (set_KMSKeys sec (normalKeys keys)) (etag_of (clock e s)) →
     (hasKeys keys = true → is_Some (keyService e)) →
     near s (<[secretKey p id := DSecret sec']> (cts s)) s' → Q (Ok sec') s') →
  wp e s (SetReplicationKeys p id keys) Q.
Proof.
  intros HI Herr Hok. unfold SetReplicationKeys. apply wp_bind, (wp_getSecret B); [done|]. intros s1 H1.
  destruct (live (clock e s) (cts s) p id) as [sec|] eqn:Hl; [|by apply Herr]. cbv zeta.
  destruct (negb (length keys =? _)%nat); [by apply wp_throw, Herr|].
  apply wp_bind, wp_checkKMSKeys; [by intros; apply Herr|]. intros Hkms.
  rewrite (settle_live _ _ _ _ _ Hl) in *. pose proof Hl as [Hs Hx]%live_Some.
  destruct (stored_secret _ _ _ _ _ HI Hs) as (Hseg & Hk & _).
  apply wp_bind, wp_etag, wp_bind. rewrite (near_clock e _ _ _ H1).
  apply wp_put; [done|apply (fo_marshals _ _ _ _ _ (secret_family _ _ _ _ _ HI Hs))|]. intros s2 H2.
  rewrite (near_cts _ _ _ H1) in H2. pose proof (near_trans _ _ _ _ _ H1 H2) as H02.
  apply wp_bind, wp_notify. intros s3 H3. rewrite (near_cts _ _ _ H02) in H3.
  eapply wp_ret, Hok; [done..|]. by eapply near_trans.
Qed.

(** ** Purges *)

(** [m'] is [m] without some of the secrets that have expired. *)
Inductive purges (t : Time) : gmap string doc → gmap string doc → Prop :=
| purges_refl m : purges t m m
| purges_step m p id sec m' :
    secret_at m p id = Some sec → Expired sec t = true → purges t (purge m p id) m' → purges t m m'.

Lemma purges_settle t m p id : purges t m (settle t m p id).
Proof.
  unfold settle. destruct (secret_at m p id) as [sec|] eqn:Hs; [|constructor].
  destruct (Expired sec t) eqn:Hx; [|constructor]. eapply purges_step; [done..|constructor].
Qed.

Lemma purges_trans t m1 m2 m3 : purges t m1 m2 → purges t m2 m3 → purges t m1 m3.
Proof. induction 1; [done|]. intros H3. eapply purges_step; eauto. Qed.

Lemma Inv_purges B t m m' : Inv B m → purges t m m' → Inv B m'.
Proof.
  intros HI Hp. induction Hp as [|m p id sec m' Hs Hx _ IH]; [done|]. apply IH, Inv_purge; [|done].
  by eapply secret_segments.
Qed.

(** Purges are not seen by any read at [t]. *)
Lemma purges_live B t m m' p id :
  Inv B m → purges t m m' → live t m' p id = live t m p id.
Proof.
  intros HI Hp. induction Hp as [|m q i sec m' Hs Hx _ IH]; [done|].
  destruct (secret_segments _ _ _ _ _ HI Hs) as [Hseg _]. rewrite IH by by apply Inv_purge.
  unfold live. rewrite secret_at_purge by done. case_decide as Hd; [|done]. destruct Hd as [-> ->]. by rewrite Hs, Hx.
Qed.

Lemma purges_versions B t m m' p id sec n :
  Inv B m → purges t m m' → live t m p id = Some sec → version_at m' p id n = version_at m p id n.
Proof.
  intros HI Hp Hl. induction Hp as [|m q i sec' m' Hs Hx Hp IH]; [done|].
  destruct (secret_segments _ _ _ _ _ HI Hs) as [Hseg _]. pose proof (Inv_purge B m q i Hseg HI) as HI'.
  assert (¬ (p = q ∧ id = i)) as Hne.
  { intros [-> ->]. apply live_Some in Hl as [Hs' Hx']. congruence. }
  rewrite IH; [|done|].
  - apply live_Some in Hl as [Hs' _]. destruct (secret_segments _ _ _ _ _ HI Hs') as [Hseg' _].
    rewrite version_at_purge by done. by rewrite decide_False.
  - rewrite <- Hl. unfold live. rewrite secret_at_purge by done. by rewrite decide_False.
Qed.

(** ** Listing secrets *)

Definition unexpired (t : Time) (d : doc) : option Secret :=
  match d with DSecret sec => if Expired sec t then None else Some sec | DVersion _ => None end.

Lemma wp_list_secrets B e values s Q :
  Inv B (cts s) → NoDup values →
  Forall (λ d, match d with DSecret sec => ∃ p id, secret_at (cts s) p id = Some sec | DVersion _ => True end) values →
  (∀ s', purges (clock e s) (cts s) (cts s') → offset s' = offset s → rearm s' = rearm s →
     Q (Ok (omap (unexpired (clock e s)) values)) s') →
  wp e s (list_secrets (clock e s) values) Q.
Proof.
  intros HI Hnd Hst HQ. revert s HI Q Hst HQ. induction Hnd as [|d values Hnin Hnd IH]; intros s HI Q Hst HQ.
  { apply wp_ret, HQ; [constructor|done..]. }
  apply Forall_cons in Hst as [Hd Hst]. cbn [list_secrets]. destruct d as [sec|v]; [|by apply IH].
  destruct Hd as (p & id & Hs). destruct (stored_secret _ _ _ _ _ HI Hs) as (Hseg & Hk & Hname). cbn [omap list_omap unexpired] in HQ.
  destruct (Expired sec (clock e s)) eqn:Hx.
  - rewrite Hname, secretParts_SecretName by apply Hseg. apply wp_bind, (wp_deleteSecret B _ _ _ _ sec); [done..|].
    intros s1 H1. pose proof (near_clock e _ _ _ H1) as Hclk. rewrite <- Hclk. pose proof (near_cts _ _ _ H1) as Hc.
    apply IH; rewrite ?Hc.
    + by apply Inv_purge.
    + apply Forall_forall. intros [sec'|v] Hin; [|done]. rewrite Forall_forall in Hst.
      destruct (Hst _ Hin) as (p' & id' & Hs'). exists p', id'. rewrite secret_at_purge by done.
      rewrite decide_False; [done|]. intros [-> ->]. rewrite Hs in Hs'. injection Hs' as <-. done.
    + intros s' Hp Ho Hr. destruct H1 as (_ & Ho1 & Hr1). rewrite Hclk in *. apply HQ; [|congruence..].
      by eapply purges_step.
  - apply wp_bind, IH; [done..|]. intros s' Hp Ho Hr. by apply wp_ret, HQ.
Qed.

Lemma secretKey_under p id project :
  segments p id → HasPrefix (secretKey p id) ("secret/" +:+ project +:+ "/") = true → p = project.
Proof.
  intros [Hp Hid]. unfold secretKey. change (HasPrefix (p +:+ String slash id) (project +:+ "/") = true → p = project).
  intros [r Hr]%HasPrefix_spec. rewrite app_assoc in Hr. change ("/" +:+ r) with (String slash r) in Hr.
  symmetry in Hr. by apply segments_unique in Hr as [-> _].
Qed.

(** The documents [scan] finds under a prefix of secrets. *)
Lemma scan_values B e s prefix :
  Inv B (cts s) → env_ok e →
  let values := omap (λ k, match st_Get (db s) k with Ok v => Some v | Err _ => None end) (map_order e (list_keys (cts s) ("secret/" +:+ prefix))) in
  NoDup values ∧ ∀ d, d ∈ values ↔
    ∃ p id sec, d = DSecret sec ∧ secret_at (cts s) p id = Some sec ∧ HasPrefix (secretKey p id) ("secret/" +:+ prefix) = true.
Proof.
  intros HI He. cbv zeta. set (f := λ k, match st_Get (db s) k with Ok v => Some v | Err _ => None end).
  assert (∀ k d, f k = Some d ↔ SafeKey k = true ∧ cts s !! k = Some d) as Hf.
  { intros k d. unfold f. rewrite <- Get_ok. by destruct (st_Get (db s) k); split; intros; simplify_eq. }
  assert (∀ k d, HasPrefix k ("secret/" +:+ prefix) = true → f k = Some d →
    ∃ p id sec, k = secretKey p id ∧ d = DSecret sec ∧ secret_at (cts s) p id = Some sec) as Hkey.
  { intros k d Hpre [_ Hd]%Hf. destruct (inv_fits _ _ HI _ _ Hd) as [_ Hfit]. destruct d as [sec|v].
    - destruct Hfit as (p & id & _ & ->). exists p, id, sec. by rewrite secret_at_Some.
    - destruct Hfit as (p & id & n & _ & _ & ->). discriminate Hpre. }
  split.
  - apply NoDup_omap_inj; [rewrite (He _ : _ ≡ₚ _); apply list_keys_NoDup|]. intros x y d.
    rewrite (He _ : _ ≡ₚ _), !elem_of_list_keys. intros [_ Hx] [_ Hy] Hdx Hdy.
    destruct (Hkey x d Hx Hdx) as (p & id & sec & -> & -> & Hs). destruct (Hkey y _ Hy Hdy) as (q & i & sec' & -> & [= <-] & Hs').
    destruct (stored_secret _ _ _ _ _ HI Hs) as ([Hp Hid] & _ & Hn). destruct (stored_secret _ _ _ _ _ HI Hs') as ([Hq Hi] & _ & Hn').
    rewrite Hn in Hn'. apply (f_equal secretParts) in Hn'. rewrite !secretParts_SecretName in Hn' by done. by injection Hn' as -> ->.
  - intros d. rewrite list_elem_of_omap. split.
    + intros (k & Hk & Hd). rewrite (He _ : _ ≡ₚ _), elem_of_list_keys in Hk. destruct Hk as [_ Hpre].
      destruct (Hkey k d Hpre Hd) as (p & id & sec & -> & -> & Hs). by exists p, id, sec.
    + intros (p & id & sec & -> & Hs & Hpre). exists (secretKey p id). destruct (stored_secret _ _ _ _ _ HI Hs) as (_ & Hk & _).
      rewrite (He _ : _ ≡ₚ _), elem_of_list_keys, Hf. apply secret_at_Some in Hs. split; [split; [by eexists|done]|done].
Qed.

Lemma wp_ListSecrets B e s project Q :
  Inv B (cts s) → env_ok e → (project = "" → Q (Err InvalidArgument) s) →
  (∀ s' out, project ≠ "" → purges (clock e s) (cts s) (cts s') → offset s' = offset s → rearm s' = rearm s → NoDup out →
     (∀ sec, sec ∈ out ↔ ∃ id, live (clock e s) (cts s) project id = Some sec) → Q (Ok (sort_by s_Name out)) s') →
  wp e s (ListSecrets project) Q.
Proof.
  intros HI He Hbad HQ. unfold ListSecrets. destruct (bool_decide (project = "")) eqn:Hp; bool_prop; [by apply wp_throw, Hbad|].
  unfold scan. apply wp_bind, wp_bind, wp_List, wp_bind, wp_ask. unfold wp at 1, db_values. cbn [fst snd].
  destruct (scan_values B e s (project +:+ "/") HI He) as [Hnd Hmem]. cbv zeta in Hnd, Hmem.
  set (values := omap _ (map_order e _)) in *. apply wp_bind, wp_now, wp_bind, (wp_list_secrets B); [done..| |].
  { apply Forall_forall. intros d (p & id & sec & -> & Hs & _)%Hmem. by exists p, id. }
  intros s' Hpur Ho Hr. apply wp_ret, HQ; [done..| |].
  - apply NoDup_omap_inj; [done|]. intros [x|x] [y|y] sec _ _; cbn; repeat case_match; intros; simplify_eq; done.
  - intros sec. rewrite list_elem_of_omap. setoid_rewrite live_Some. split.
    + intros (d & (p & id & sec' & -> & Hs & Hpre)%Hmem & Hu). cbn in Hu.
      destruct (Expired sec' (clock e s)) eqn:Hx; [done|]. injection Hu as <-.
      destruct (stored_secret _ _ _ _ _ HI Hs) as (Hseg & _). apply secretKey_under in Hpre as ->; [|done]. by exists id.
    + intros (id & Hs & Hx). exists (DSecret sec). cbn. rewrite Hx. split; [|done]. apply Hmem.
      exists project, id, sec. split_and!; [done..|]. unfold secretKey. apply HasPrefix_spec. exists id. by rewrite !app_assoc.
Qed.

End effects.
