(* ===== verification/SecretsSweep.v ===== *)
(** * Expiry, rotation and delayed destruction

    What a sweep does: every secret whose time has come is gone, every version
    whose destruction is due is destroyed, every rotation that is due has moved
    on, and the time it returns is the next one anything is due.  Run's waits
    follow from it. *)

From S2P Require Import Prelude GoLib ApiError Resource MetaStore IamPolicy Handler GoCrypto SecretsModel SecretsNames SecretsStore SecretsInv SecretsOps SecretsEffects.
From Stdlib Require Import Ascii.

Import strings strconv time.

(** ** Rotation *)

(** The loop that catches up ends within its fuel, on the first time of the
    schedule that is after [now]. *)
Lemma catch_up_spec fuel next now period :
  (0 < period)%Z → (now - next < Z.of_nat fuel * period)%Z →
  ∃ k, (0 ≤ k)%Z ∧ catch_up fuel next now period = (next + k * period)%Z ∧
    (now < next + k * period)%Z ∧ (k = 0 ∨ next + k * period ≤ now + period)%Z.
Proof.
  intros Hp. revert next. induction fuel as [|fuel IH]; intros next Hf.
  - exists 0%Z. cbn. lia.
  - cbn [catch_up]. unfold After. destruct (Z.ltb_spec now next) as [Hlt|Hge]; cbn.
    + exists 0%Z. lia.
    + destruct (IH (Add next period)) as (k & Hk & Heq & Hlt & Hle); [unfold Add; lia|].
      exists (k + 1)%Z. unfold Add in *. rewrite Heq. lia.
Qed.

(** Once the loop has ended, more fuel changes nothing. *)
Lemma catch_up_more fuel k next now period :
  After (catch_up fuel next now period) now = true → catch_up (fuel + k) next now period = catch_up fuel next now period.
Proof.
  revert next. induction fuel as [|fuel IH]; intros next; cbn [catch_up Nat.add].
  - intros Ha. destruct k; cbn; [done|]. by rewrite Ha.
  - destruct (negb (After next now)); [apply IH|done].
Qed.

Lemma advance_rotation_spec next now period :
  (0 < period)%Z → (next ≤ now)%Z →
  let next' := advance_rotation next now period in
  (now < next' ≤ now + period)%Z ∧ ∃ k, (1 ≤ k)%Z ∧ next' = (next + k * period)%Z.
Proof.
  intros Hp Hle. cbv zeta. unfold advance_rotation.
  pose proof (Z.div_pos (now - next) period ltac:(lia) Hp) as Hd.
  destruct (catch_up_spec (Z.to_nat ((now - next) / period + 1)) next now period Hp) as (k & Hk & -> & Hlt & Hb).
  { rewrite Z2Nat.id by lia. pose proof (Z.mod_pos_bound (now - next) period Hp).
    pose proof (Z.div_mod (now - next) period ltac:(lia)). lia. }
  assert (k ≠ 0)%Z by (intros ->; lia). split; [lia|]. exists k. lia.
Qed.

(** A rotation that was missed is caught up with in one step.  However many
    periods have passed, the loop ends (any more iterations allowed change
    nothing) and the next rotation lies on the secret's schedule, after now and
    at most one period away. *)
Theorem rotation_catches_up next now period :
  (0 < period)%Z → (next ≤ now)%Z →
  let next' := advance_rotation next now period in
  (∀ more, catch_up (Z.to_nat ((now - next) / period + 1) + more) next now period = next') ∧
  (now < next' ≤ now + period)%Z ∧ ∃ k, (1 ≤ k)%Z ∧ next' = (next + k * period)%Z.
Proof.
  intros Hp Hle. cbv zeta. destruct (advance_rotation_spec next now period Hp Hle) as [Hb Hk]. split; [|done].
  intros more. apply catch_up_more. unfold After. apply Z.ltb_lt. apply Hb.
Qed.

(** ** Times to come *)

(** [r] is the earliest of the times [P], zero when there is none. *)
Definition earliest (P : Time → Prop) (r : Time) : Prop :=
  (∀ x, P x → x ≠ zero → r ≠ zero ∧ (r ≤ x)%Z) ∧ (r ≠ zero → P r).

Lemma earliest_soonest P r x :
  earliest P r → earliest (λ y, P y ∨ y = x) (soonest r x).
Proof.
  intros [H1 H2]. unfold soonest, IsZero, Before, earliest, zero in *.
  destruct (Z.eqb_spec x 0) as [->|Hx]; cbn.
  { split; [|auto]. intros y [Hy| ->] Hne; [by apply H1|done]. }
  destruct (Z.eqb_spec r 0) as [->|Hr]; cbn.
  { split; [|auto]. intros y [Hy| ->] Hne; [|lia]. destruct (H1 y Hy Hne). done. }
  destruct (Z.ltb_spec x r); (split; [|auto]); intros y [Hy| ->] Hne; try lia; destruct (H1 y Hy Hne); lia.
Qed.

Lemma earliest_ext P P' r : (∀ x, x ≠ zero → P x ↔ P' x) → earliest P r → earliest P' r.
Proof. intros HP [H1 H2]. split; [|intros Hr; by apply HP, H2]. intros x Hx Hne. apply H1; [|done]. by apply HP. Qed.

Lemma earliest_none : earliest (λ _, False) zero.
Proof. split; done. Qed.

Section sweep.
Context {S : Type} `{RS : ReliableStore S doc} `{CR : Crypto}.
Implicit Types (s : Store S) (e : Env) (m : gmap string doc).

Abbreviation cts s := (contents (db s)).

(** ** One secret *)

(** A version once what is due at [t] has run. *)
Definition swept_version (t : Time) (v : Version) : Version :=
  match scheduled v with
  | Some at_ => if Before t at_ then v else destroyed v t
  | None => v
  end.

(** What a loop over the destructions [ns] of [(p, id)] does to the documents. *)
Record swept_over (t : Time) (p id : string) (ns : list string) m m' : Prop := mkSweptOver {
  so_fits : map_Forall fits m → map_Forall fits m';
  so_secret : ∀ q i, segments q i → secret_at m' q i = secret_at m q i;
  so_version : ∀ q i n, segments q i → (0 ≤ n)%Z →
    version_at m' q i n = if decide (q = p ∧ i = id ∧ Itoa n ∈ ns) then swept_version t <$> version_at m q i n
                          else version_at m q i n
}.

Lemma swept_over_nil t p id m : swept_over t p id [] m m.
Proof. constructor; [done..|]. intros q i n _ _. by rewrite decide_False by set_solver. Qed.

Lemma swept_over_skip t p id ns m m' n v :
  version_at m p id n = Some v → swept_version t v = v → Itoa n ∉ ns →
  swept_over t p id ns m m' → swept_over t p id (Itoa n :: ns) m m'.
Proof.
  intros Hv Hsw Hnin [H1 H2 H3]. constructor; [done..|]. intros q i k Hseg Hk. rewrite H3 by done.
  destruct (decide (q = p ∧ i = id ∧ k = n)) as [(-> & -> & ->)|Hne].
  - rewrite decide_False by (intros (_ & _ & ?); done). rewrite decide_True by set_solver. by rewrite Hv; cbn; rewrite Hsw.
  - destruct (decide (q = p ∧ i = id ∧ Itoa k ∈ ns)) as [(-> & -> & ?)|Hd].
    + by rewrite decide_True by set_solver.
    + rewrite decide_False; [done|]. intros (-> & -> & [Heq%Itoa_inj| ?]%elem_of_cons); [by apply Hne|by apply Hd].
Qed.

Lemma swept_over_put t p id ns m m' n v :
  segments p id → SafeKey (secretKey p id) = true → (0 ≤ n)%Z → version_at m p id n = Some v → Itoa n ∉ ns →
  swept_over t p id ns (<[versionKey p id n := DVersion (swept_version t v)]> m) m' →
  swept_over t p id (Itoa n :: ns) m m'.
Proof.
  intros Hseg0 Hk Hn Hv Hnin [H1 H2 H3]. constructor.
  - intros Hm. by apply H1, fits_put_version.
  - intros q i Hseg. by rewrite H2, secret_at_put_version by done.
  - intros q i k Hseg Hk'. rewrite H3, version_at_put by done.
    destruct (decide (q = p ∧ i = id ∧ k = n)) as [(-> & -> & ->)|Hne].
    + rewrite decide_False by (intros (_ & _ & ?); done). rewrite decide_True by set_solver. by rewrite Hv.
    + destruct (decide (q = p ∧ i = id ∧ Itoa k ∈ ns)) as [(-> & -> & ?)|Hd].
      * by rewrite decide_True by set_solver.
      * rewrite decide_False; [done|]. intros (-> & -> & [Heq%Itoa_inj| ?]%elem_of_cons); [by apply Hne|by apply Hd].
Qed.

(** The index without the destructions of [ns] that are due. *)
Definition index_after (t : Time) (ns : list string) (idx : gmap string Time) : gmap string Time :=
  filter (λ kv, ¬ (kv.1 ∈ ns ∧ (kv.2 ≤ t)%Z)) idx.

Lemma index_after_cons_due (t : Time) k ns (idx : gmap string Time) (at_ : Time) :
  idx !! k = Some at_ → (at_ ≤ t)%Z → index_after t ns (delete k idx) = index_after t (k :: ns) idx.
Proof.
  intros Hk Ht. apply map_eq. intros k'. unfold index_after. apply option_eq. intros x.
  rewrite !map_lookup_filter_Some. cbn. destruct (decide (k' = k)) as [->|Hne].
  - rewrite lookup_delete_eq. split; [by intros [? _]|]. intros [Hx Hn]. simplify_eq. destruct Hn.
    split; [apply elem_of_cons; by left|done].
  - rewrite lookup_delete_ne, elem_of_cons by done. naive_solver.
Qed.

Lemma index_after_cons_later (t : Time) k ns (idx : gmap string Time) (at_ : Time) :
  idx !! k = Some at_ → (t < at_)%Z → index_after t ns idx = index_after t (k :: ns) idx.
Proof.
  intros Hk Ht. apply map_eq. intros k'. unfold index_after. apply option_eq. intros x.
  rewrite !map_lookup_filter_Some. cbn. rewrite elem_of_cons. destruct (decide (k' = k)) as [->|Hne]; [|naive_solver].
  split; intros [Hx Hn]; (split; [done|]); simplify_eq; intros [? ?]; [lia|]. apply Hn. auto.
Qed.

(** The index of the destructions in [ns] is that of the versions. *)
Definition indexed m p id (idx : gmap string Time) (k : string) : Prop :=
  ∃ n v at_, k = Itoa n ∧ (0 ≤ n)%Z ∧ in_int n = true ∧ version_at m p id n = Some v ∧ version_ok p id n v ∧
    scheduled v = Some at_ ∧ idx !! k = Some at_.

Lemma indexed_put m p id idx n v ns :
  segments p id → SafeKey (secretKey p id) = true → (0 ≤ n)%Z → Itoa n ∉ ns → Forall (indexed m p id idx) ns →
  Forall (indexed (<[versionKey p id n := DVersion v]> m) p id (delete (Itoa n) idx)) ns.
Proof.
  intros Hseg Hk Hn Hnin Hidx. apply Forall_forall. intros k Hin. rewrite Forall_forall in Hidx.
  destruct (Hidx k Hin) as (n' & v' & at' & -> & Hn' & Hint' & Hv' & Hvok' & Hsch' & Hat').
  assert (n' ≠ n) as Hne by by intros ->. exists n', v', at'. rewrite version_at_put by done.
  rewrite decide_False by (intros (_ & _ & ?); done). split_and!; try done.
  by rewrite lookup_delete_ne by by intros ?%Itoa_inj.
Qed.

(** What is awaited past [t], without an entry that is due. *)
Lemma waits_cons (t : Time) (P : Prop) k ns (idx : gmap string Time) (at_ y : Time) :
  idx !! k = Some at_ → (at_ ≤ t)%Z → k ∉ ns →
  (P ∨ ∃ k', k' ∈ ns ∧ delete k idx !! k' = Some y ∧ (t < y)%Z) ↔ (P ∨ ∃ k', k' ∈ k :: ns ∧ idx !! k' = Some y ∧ (t < y)%Z).
Proof.
  intros Hat Hge Hnin. setoid_rewrite elem_of_cons. split.
  - intros [?|(k' & Hin & Hy & Hlt)]; [auto|]. right. exists k'. split; [auto|].
    destruct (decide (k' = k)) as [->|]; [done|]. by rewrite lookup_delete_ne in Hy.
  - intros [?|(k' & [-> |Hin] & Hy & Hlt)]; [auto| |].
    + rewrite Hat in Hy. injection Hy as <-. lia.
    + right. exists k'. split; [done|]. rewrite lookup_delete_ne; [done|]. intros <-. done.
Qed.

Lemma wp_destroy_due e p id ns s sec next changed P Q :
  segments p id → SafeKey (secretKey p id) = true → json_ok (clock e s) = true → NoDup ns →
  Forall (indexed (cts s) p id (s_ScheduledDestroys sec)) ns → earliest P next →
  (∀ s' m' next' changed', near s m' s' → swept_over (clock e s) p id ns (cts s) m' →
     earliest (λ y, P y ∨ ∃ k, k ∈ ns ∧ s_ScheduledDestroys sec !! k = Some y ∧ (clock e s < y)%Z) next' →
     (changed' = false → changed = false ∧ index_after (clock e s) ns (s_ScheduledDestroys sec) = s_ScheduledDestroys sec) →
     (changed = true → changed' = true) →
     Q (Ok (set_ScheduledDestroys sec (index_after (clock e s) ns (s_ScheduledDestroys sec)), next', changed')) s') →
  wp e s (destroy_due p id (clock e s) ns sec next changed) Q.
Proof.
  intros Hseg Hk Ht. revert s sec next changed P Q Ht. induction ns as [|k ns IH]; intros s sec next changed P Q Ht Hnd Hidx HP HQ.
  - apply wp_ret. pose proof (HQ s (cts s) next changed (near_refl s) (swept_over_nil _ _ _ _)) as H.
    assert (index_after (clock e s) [] (s_ScheduledDestroys sec) = s_ScheduledDestroys sec) as Hnil.
    { unfold index_after. apply map_filter_id. intros i x _ [Hin _]. by apply not_elem_of_nil in Hin. }
    rewrite Hnil, set_ScheduledDestroys_same in H. apply H; [|done|done].
    eapply earliest_ext; [|exact HP]. intros y _. split; [auto|]. intros [?|(k & Hin & _)]; [done|].
    by apply not_elem_of_nil in Hin.
  - apply NoDup_cons in Hnd as [Hnin Hnd]. apply Forall_cons in Hidx as [(n & v & at_ & -> & Hn & Hint & Hv & Hvok & Hsch & Hat) Hidx].
    cbn [destroy_due]. rewrite Hat. cbn [from_option Datatypes.id]. unfold Before. destruct (Z.ltb_spec (clock e s) at_) as [Hlt|Hge].
    + eapply IH; [done..|by apply earliest_soonest|]. intros s' m' next' changed' H1 H2 H3 H4 H5.
      rewrite (index_after_cons_later _ (Itoa n) ns _ at_) in H4 |- * by done. apply (HQ s' m'); [done| | |done|done].
      * eapply swept_over_skip; [done| |done|done]. unfold swept_version. rewrite Hsch. unfold Before. by rewrite (proj2 (Z.ltb_lt _ _)).
      * eapply earliest_ext; [|exact H3]. intros y _. setoid_rewrite elem_of_cons. naive_solver.
    + set (sec1 := set_ScheduledDestroys sec _). cbn zeta. apply wp_bind, wp_attempt.
      rewrite Atoi_Itoa by done. cbn [from_option Datatypes.id]. apply wp_getVersion. rewrite Hv, versionKey_safe by done.
      assert (v_State v = StateDisabled) as Hst.
      { apply (vo_scheduled _ _ _ _ Hvok). unfold scheduled in Hsch. intros Hz. by rewrite Hz in Hsch. }
      assert (IsZero (v_ScheduledDestroy v) = false) as -> by (unfold scheduled in Hsch; by destruct (IsZero _)).
      rewrite bool_decide_false by by rewrite Hst. cbn [orb].
      assert (swept_version (clock e s) v = destroyed v (clock e s)) as Hsw.
      { unfold swept_version. rewrite Hsch. unfold Before. by rewrite (proj2 (Z.ltb_ge _ _)). }
      apply wp_bind, wp_destroyNowQuiet; [done|apply (destroyed_ok p id n); [done|done]|].
      rewrite (vo_Number _ _ _ _ Hvok). intros s1 H1. apply wp_bind, wp_notify. intros s2 H2.
      rewrite (near_cts _ _ _ H1) in H2. pose proof (near_trans _ _ _ _ _ H1 H2) as H02.
      rewrite <- (near_clock e _ _ _ H02). eapply (IH s2 sec1); rewrite ?(near_clock e _ _ _ H02); [done|done| |done|].
      * rewrite (near_cts _ _ _ H02). by apply indexed_put.
      * intros s' m' next' changed' H3 H4 H5 H6 H7. rewrite (near_cts _ _ _ H02) in H4.
        cbn [sec1 s_ScheduledDestroys set_ScheduledDestroys] in *.
        rewrite (index_after_cons_due _ (Itoa n) ns _ at_) in H6 |- * by done.
        assert (changed' = true) as -> by by apply H7.
        apply (HQ s' m' next' true); [by eapply near_trans| | |done|done].
        -- eapply (swept_over_put _ _ _ _ _ _ n v); [done..|]. by rewrite Hsw.
        -- eapply earliest_ext; [|exact H5]. intros y _. by apply (waits_cons _ _ _ _ _ at_).
Qed.

(** The head of a secret once what is due at [t] has run. *)
Definition swept_head (t : Time) (sec : Secret) : Secret :=
  set_ScheduledDestroys (if rotation_due sec t then rotated sec t else sec)
    (filter (λ kv, (t < kv.2)%Z) (s_ScheduledDestroys sec)).

(** The documents of [(p, id)] in [m'] are those of [m] with what is due run. *)
Definition family_swept (t : Time) m m' p id : Prop :=
  match secret_at m p id with
  | Some sec =>
      if Expired sec t
      then secret_at m' p id = None ∧ ∀ n, (0 ≤ n)%Z → version_at m' p id n = None
      else secret_at m' p id = Some (swept_head t sec) ∧
           ∀ n, (0 ≤ n)%Z → version_at m' p id n = swept_version t <$> version_at m p id n
  | None => secret_at m' p id = None ∧ ∀ n, (0 ≤ n)%Z → version_at m' p id n = version_at m p id n
  end.

Definition family_same m m' p id : Prop :=
  secret_at m' p id = secret_at m p id ∧ ∀ n, (0 ≤ n)%Z → version_at m' p id n = version_at m p id n.

(** The times a secret still waits for. *)
Definition waits_for sec (y : Time) : Prop :=
  y = s_Expire sec ∨ y = s_NextRotation sec ∨ ∃ k, s_ScheduledDestroys sec !! k = Some y.

Lemma json_ok_between a b x : json_ok a = true → json_ok b = true → (a ≤ x ≤ b)%Z → json_ok x = true.
Proof. unfold json_ok. intros. bool_prop. apply andb_true_iff. split; [apply Z.leb_le|apply Z.ltb_lt]; lia. Qed.

(** A clock that reads a time JSON can write, and so can 100 years later. *)
Definition sane (t : Time) : Prop := (0 < t)%Z ∧ json_ok t = true ∧ json_ok (Add t MaxRotation) = true.

Lemma rotated_marshals sec t :
  sane t → period_ok sec → rotation_due sec t = true → marshals (DSecret sec) = true → marshals (DSecret (rotated sec t)) = true.
Proof.
  intros (_ & Ht & Ht') Hp Hdue Hm. cbn in *. apply andb_true_iff in Hm as [[Hce Hn]%andb_true_iff Hidx].
  rewrite Hce, Hidx, andb_true_r. cbn [andb]. destruct (Z.ltb_spec 0 (s_RotationPeriod sec)) as [Hpos|]; [|done].
  unfold rotation_due, Before in Hdue. bool_prop. unfold period_ok in Hp.
  destruct (advance_rotation_spec (s_NextRotation sec) t (s_RotationPeriod sec)) as [Hb _]; [done|lia|].
  eapply json_ok_between; [exact Ht|exact Ht'|]. unfold Add. lia.
Qed.

Lemma marshals_index sec idx :
  marshals (DSecret sec) = true → idx ⊆ s_ScheduledDestroys sec → marshals (DSecret (set_ScheduledDestroys sec idx)) = true.
Proof.
  intros Hm Hsub. cbn in *. apply andb_true_iff in Hm as [Hm Hidx]. rewrite Hm. cbn [andb].
  rewrite forallb_forall in Hidx |- *. intros [k t] Hin%list_elem_of_In%elem_of_map_to_list. apply (Hidx (k, t)).
  apply list_elem_of_In, elem_of_map_to_list. by eapply lookup_weaken.
Qed.

Lemma swept_head_marshals sec t :
  sane t → period_ok sec → marshals (DSecret sec) = true → marshals (DSecret (swept_head t sec)) = true.
Proof.
  intros Ht Hp Hm. unfold swept_head. destruct (rotation_due sec t) eqn:Hdue.
  - apply marshals_index; [by apply rotated_marshals|]. apply map_filter_subseteq.
  - apply marshals_index; [done|]. apply map_filter_subseteq.
Qed.

(** After a sweep nothing of a secret is due, but for its expiry. *)
Lemma swept_head_later sec t y :
  sane t → Expired sec t = false → waits_for (swept_head t sec) y → y = zero ∨ (t < y)%Z.
Proof.
  intros (Hpos & _) Hx [->|[->|[k Hk]]]; unfold swept_head in *.
  - assert (s_Expire (if rotation_due sec t then rotated sec t else sec) = s_Expire sec) as He by by destruct (rotation_due sec t).
    cbn. rewrite He. unfold Expired, IsZero, Before in Hx. destruct (Z.eqb_spec (s_Expire sec) 0); [by left|right].
    cbn in Hx. bool_prop. lia.
  - cbn. destruct (rotation_due sec t) eqn:Hdue.
    + cbn. destruct (Z.ltb_spec 0 (s_RotationPeriod sec)); [|by left]. right.
      unfold rotation_due, Before in Hdue. bool_prop.
      destruct (advance_rotation_spec (s_NextRotation sec) t (s_RotationPeriod sec)) as [Hb _]; [done|lia|lia].
    + unfold rotation_due, IsZero, Before in Hdue. destruct (Z.eqb_spec (s_NextRotation sec) 0); [by left|right].
      cbn in Hdue. bool_prop. lia.
  - right. cbn in Hk. apply map_lookup_filter_Some in Hk as [_ Hk]. done.
Qed.

Lemma family_indexed B m p id sec :
  Inv B m → (B ≤ int_max)%Z → secret_at m p id = Some sec →
  Forall (indexed m p id (s_ScheduledDestroys sec)) (sort_strings (elements (dom (s_ScheduledDestroys sec)))).
Proof.
  intros HI HB Hs. apply Forall_forall. intros k. rewrite sort_strings_elem, elem_of_elements, elem_of_dom. intros [at_ Hat].
  pose proof (secret_family _ _ _ _ _ HI Hs) as Hfam.
  destruct (fo_indexed _ _ _ _ _ Hfam k at_ Hat) as (n & -> & [v Hv]). cbn in Hv.
  destruct (Z.leb_spec 0 n) as [Hn|]; [|done]. exists n, v, at_.
  assert (1 ≤ n < s_NextVersion sec)%Z by (eapply version_range; eauto). pose proof (fo_Next _ _ _ _ _ Hfam).
  split_and!; try done.
  - unfold in_int, int_min. apply andb_true_iff. split; apply Z.leb_le; lia.
  - by eapply version_is_ok.
  - by rewrite <- (version_index _ _ _ _ _ _ _ HI Hs Hn Hv).
Qed.

Lemma index_after_all t (idx : gmap string Time) ns :
  (∀ k, is_Some (idx !! k) → k ∈ ns) → index_after t ns idx = filter (λ kv, (t < kv.2)%Z) idx.
Proof.
  intros Hall. apply map_eq. intros k. apply option_eq. intros x. unfold index_after.
  rewrite !map_lookup_filter_Some. cbn. split; intros [Hx Hc]; (split; [done|]).
  - destruct (decide (t < x)%Z); [done|]. destruct Hc. split; [|lia]. apply Hall. by eexists.
  - intros [_ ?]. lia.
Qed.

(** A version of a secret is in the index exactly when it is scheduled. *)
Lemma swept_all B t m m' p id sec :
  Inv B m → secret_at m p id = Some sec →
  swept_over t p id (sort_strings (elements (dom (s_ScheduledDestroys sec)))) m m' →
  ∀ n, (0 ≤ n)%Z → version_at m' p id n = swept_version t <$> version_at m p id n.
Proof.
  intros HI Hs Hsw n Hn. destruct (stored_secret _ _ _ _ _ HI Hs) as (Hseg & _).
  rewrite (so_version _ _ _ _ _ _ Hsw) by done. case_decide as Hd; [done|].
  destruct (version_at m p id n) as [v|] eqn:Hv; [|done]. cbn. f_equal. unfold swept_version.
  rewrite <- (version_index _ _ _ _ _ _ _ HI Hs Hn Hv).
  destruct (s_ScheduledDestroys sec !! Itoa n) as [at_|] eqn:Hat; [|done]. destruct Hd. split_and!; [done..|].
  rewrite sort_strings_elem, elem_of_elements, elem_of_dom. by eexists.
Qed.

(** The families of a sweep over one secret keep the invariant. *)
Lemma swept_version_ok p id n v t : sane t → version_ok p id n v → version_ok p id n (swept_version t v).
Proof.
  intros (_ & Ht & _) Hv. unfold swept_version. destruct (scheduled v); [|done]. destruct (Before t t0); [done|].
  by apply destroyed_ok.
Qed.

Lemma scheduled_swept t v :
  scheduled (swept_version t v) = match scheduled v with Some a => if Before t a then Some a else None | None => None end.
Proof.
  unfold swept_version. destruct (scheduled v) as [a|] eqn:Ha; [|done]. by destruct (Before t a).
Qed.

Lemma family_swept_ok B t m m' p id sec :
  Inv B m → secret_at m p id = Some sec → sane t → Expired sec t = false → family_swept t m m' p id → family_holds B m' p id.
Proof.
  intros HI Hs Ht Hx Hsw. unfold family_swept in Hsw. rewrite Hs, Hx in Hsw. destruct Hsw as [Hs' Hv'].
  unfold family_holds. rewrite Hs'. pose proof (secret_family _ _ _ _ _ HI Hs) as Hfam.
  destruct Hfam as [H1 H2 HP H3 H4 H5 H6 H7].
  assert (s_Name (swept_head t sec) = s_Name sec ∧ s_NextVersion (swept_head t sec) = s_NextVersion sec ∧
    s_RotationPeriod (swept_head t sec) = s_RotationPeriod sec) as (Hn & Hnext & Hper)
    by (unfold swept_head; by destruct (rotation_due sec t)).
  constructor; unfold period_ok; rewrite ?Hn, ?Hnext, ?Hper; [done|by apply swept_head_marshals|done..| | | |].
  - intros n. rewrite <- H4. destruct (Z.leb_spec 0 n); [|done]. by rewrite Hv', fmap_is_Some.
  - intros n v. destruct (Z.leb_spec 0 n) as [Hn0|]; [|done]. rewrite Hv' by done.
    intros (v0 & Hv0 & ->)%fmap_Some. apply swept_version_ok; [done|]. apply H5. by rewrite (proj2 (Z.leb_le 0 n)).
  - intros n v. destruct (Z.leb_spec 0 n) as [Hn0|]; [|done]. rewrite Hv' by done.
    intros (v0 & Hv0 & ->)%fmap_Some. rewrite scheduled_swept.
    assert (s_ScheduledDestroys sec !! Itoa n = scheduled v0) as Hidx by (apply H6; by rewrite (proj2 (Z.leb_le 0 n))).
    cbn. destruct (scheduled v0) as [a|]; [|by apply map_lookup_filter_None_2; left].
    unfold Before. destruct (Z.ltb_spec t a).
    + by apply map_lookup_filter_Some_2.
    + apply map_lookup_filter_None_2. right. intros x Hx'. rewrite Hidx in Hx'. injection Hx' as <-. cbn. lia.
  - intros k y Hk. cbn in Hk. apply map_lookup_filter_Some in Hk as [Hk _]. destruct (H7 k y Hk) as (n & -> & Hsome).
    exists n. split; [done|]. destruct (Z.leb_spec 0 n); [|done]. by rewrite Hv', fmap_is_Some.
Qed.

Lemma wp_due B e s p id sec Q :
  Inv B (cts s) → (B ≤ int_max)%Z → secret_at (cts s) p id = Some sec → Expired sec (clock e s) = false → sane (clock e s) →
  (∀ s' m' next', near s m' s' → Inv B m' → family_swept (clock e s) (cts s) m' p id →
     (∀ q i, segments q i → ¬ (q = p ∧ i = id) → family_same (cts s) m' q i) →
     earliest (λ y, y = s_NextRotation (swept_head (clock e s) sec) ∨
                    ∃ k, s_ScheduledDestroys (swept_head (clock e s) sec) !! k = Some y) next' →
     Q (Ok next') s') →
  wp e s (due sec (clock e s)) Q.
Proof.
  intros HI HB Hs Hx Ht HQ. destruct (stored_secret _ _ _ _ _ HI Hs) as (Hseg & Hk & Hname).
  pose proof (secret_family _ _ _ _ _ HI Hs) as Hfam.
  unfold due. rewrite Hname, secretParts_SecretName by apply Hseg. cbv zeta.
  set (t := clock e s) in *. set (sec1 := if rotation_due sec t then rotated sec t else sec).
  assert (s_ScheduledDestroys sec1 = s_ScheduledDestroys sec) as Hidx1 by (unfold sec1; by destruct (rotation_due sec t)).
  apply wp_bind. assert (∀ Q', (∀ s1, near s (cts s) s1 → Q' (Ok tt) s1) →
    wp e s (when (rotation_due sec t) (notify sec EventSecretRotate None None)) Q') as Hwhen.
  { intros Q' HQ'. destruct (rotation_due sec t); [by apply wp_notify|apply wp_ret, HQ', near_refl]. }
  apply Hwhen. clear Hwhen. intros s1 H1. pose proof (near_clock e _ _ _ H1) as Hc1. pose proof (near_cts _ _ _ H1) as Hcts1.
  fold t in Hc1. rewrite <- Hc1. apply wp_bind.
  eapply (wp_destroy_due e p id _ s1 sec1); rewrite ?Hc1, ?Hcts1, ?Hidx1; [done..|apply Ht| | |apply (earliest_soonest _ _ _ earliest_none)|].
  { rewrite sort_strings_perm. apply NoDup_elements. }
  { by eapply family_indexed. }
  intros s2 m2 next2 changed2 H2 Hsw Hear Hfalse Htrue.
  rewrite index_after_all in Hfalse |- * by (intros k Hk'; by rewrite sort_strings_elem, elem_of_elements, elem_of_dom).
  change (set_ScheduledDestroys sec1 (filter (λ kv, (t < kv.2)%Z) (s_ScheduledDestroys sec))) with (swept_head t sec).
  pose proof (near_trans _ _ _ _ _ H1 H2) as H02.
  set (m3 := <[secretKey p id := DSecret (swept_head t sec)]> m2).
  assert (family_swept t (cts s) m3 p id) as Hfs.
  { unfold family_swept. rewrite Hs, Hx. unfold m3. rewrite secret_at_put by done. rewrite decide_True by done. split; [done|].
    intros n Hn. rewrite version_at_put_secret. by eapply swept_all. }
  assert (∀ q i, segments q i → ¬ (q = p ∧ i = id) → family_same (cts s) m3 q i) as Hothers.
  { intros q i Hseg' Hne. unfold m3. split.
    - rewrite secret_at_put by done. rewrite decide_False by done. by rewrite (so_secret _ _ _ _ _ _ Hsw).
    - intros n Hn. rewrite version_at_put_secret, (so_version _ _ _ _ _ _ Hsw) by done. rewrite decide_False; naive_solver. }
  assert (Inv B m3) as HI3.
  { eapply (Inv_local B (cts s) m3 p id); [done| |done|by intros _; eapply family_swept_ok].
    apply fits_put_secret; [done..|]. apply (so_fits _ _ _ _ _ _ Hsw), HI. }
  assert (∀ s3, near s m3 s3 → Q (Ok next2) s3) as Hend.
  { intros s3 H3. eapply HQ; [exact H3|done..|]. eapply earliest_ext; [|exact Hear]. intros y Hy.
    unfold swept_head. fold sec1. cbn [s_ScheduledDestroys s_NextRotation set_ScheduledDestroys]. split.
    - intros [[[]|?]|(k & _ & Hky & Hlt)]; [by left|right]. exists k. by apply map_lookup_filter_Some_2.
    - intros [?|[k [Hky Hlt]%map_lookup_filter_Some]]; [by left; right|right]. exists k. split; [|done].
      rewrite sort_strings_elem, elem_of_elements, elem_of_dom. by eexists. }
  destruct changed2; cbn [when]; apply wp_bind.
  - apply wp_put; [done|apply swept_head_marshals; [done|apply Hfam..]|]. intros s3 H3. apply wp_ret, Hend.
    rewrite (near_cts _ _ _ H02) in H3. by eapply near_trans.
  - apply wp_ret, wp_ret, Hend. destruct (Hfalse eq_refl) as [Hrd Hidx].
    replace m3 with m2; [done|]. unfold m3. symmetry. apply insert_id.
    assert (swept_head t sec = sec) as ->.
    { unfold swept_head. rewrite Hrd, Hidx. apply set_ScheduledDestroys_same. }
    apply secret_at_Some. rewrite (so_secret _ _ _ _ _ _ Hsw) by done. done.
Qed.

(** ** A sweep over all secrets *)

Lemma idle_swept t sec :
  s_NextRotation sec = zero → s_ScheduledDestroys sec = ∅ → swept_head t sec = sec.
Proof.
  intros Hn Hidx. unfold swept_head, rotation_due. rewrite Hn. cbn [IsZero negb andb].
  rewrite Hidx, map_filter_empty. etransitivity; [|apply set_ScheduledDestroys_same]. by rewrite Hidx.
Qed.

Lemma idle_versions B t m p id sec n :
  Inv B m → secret_at m p id = Some sec → s_ScheduledDestroys sec = ∅ → (0 ≤ n)%Z →
  version_at m p id n = swept_version t <$> version_at m p id n.
Proof.
  intros HI Hs Hidx Hn. destruct (version_at m p id n) as [v|] eqn:Hv; [|done]. cbn. f_equal. unfold swept_version.
  by rewrite <- (version_index _ _ _ _ _ _ _ HI Hs Hn Hv), Hidx, lookup_empty.
Qed.

Lemma family_same_refl m p id : family_same m m p id.
Proof. done. Qed.

Lemma family_same_purge m p id q i :
  segments p id → segments q i → ¬ (q = p ∧ i = id) → family_same m (purge m p id) q i.
Proof.
  intros Hseg Hseg' Hne. split; [rewrite secret_at_purge by done; by rewrite decide_False|].
  intros n _. rewrite version_at_purge by done. by rewrite decide_False.
Qed.

(** What one step of the sweep, or the whole of it, gives. *)
Definition swept_post B (t : Time) (keys : list string) s (P : Time → Prop) (Q : res error Time → Store S → Prop) : Prop :=
  ∀ s' m' next', near s m' s' → Inv B m' →
    (∀ p id, segments p id → if decide (secretKey p id ∈ keys) then family_swept t (cts s) m' p id
                             else family_same (cts s) m' p id) →
    earliest (λ y, P y ∨ ∃ p id sec, segments p id ∧ secretKey p id ∈ keys ∧ secret_at m' p id = Some sec ∧ waits_for sec y) next' →
    Q (Ok next') s'.

Lemma decide_key p id q i A (a b : A) : segments p id →
  (if decide (secretKey q i ∈ [secretKey p id]) then a else b) = if decide (q = p ∧ i = id) then a else b.
Proof.
  intros [Hp Hid]. destruct (decide (q = p ∧ i = id)) as [[-> ->]|Hne].
  - by rewrite decide_True by (apply elem_of_cons; by left).
  - rewrite decide_False; [done|]. intros [Heq| Hn%not_elem_of_nil]%elem_of_cons; [|done]. by apply secretKey_inj in Heq.
Qed.

(** The same for one secret, in terms of its own documents. *)
Lemma swept_post_one B t p id s P Q :
  segments p id → swept_post B t [secretKey p id] s P Q →
  ∀ s' m' next', near s m' s' → Inv B m' → family_swept t (cts s) m' p id →
    (∀ q i, segments q i → ¬ (q = p ∧ i = id) → family_same (cts s) m' q i) →
    earliest (λ y, P y ∨ ∃ sec, secret_at m' p id = Some sec ∧ waits_for sec y) next' → Q (Ok next') s'.
Proof.
  intros Hseg Hpost s' m' next' H1 H2 H3 H4 H5. apply (Hpost s' m'); [done..| |].
  - intros q i Hsegq. destruct (decide (secretKey q i ∈ [secretKey p id])) as [Hin|Hnin].
    + apply elem_of_cons in Hin as [Heq|Hn%not_elem_of_nil]; [|done]. by apply secretKey_inj in Heq as [-> ->]; [|apply Hseg..].
    + apply H4; [done|]. intros [-> ->]. apply Hnin, elem_of_cons. by left.
  - eapply earliest_ext; [|exact H5]. intros y _.
    split; [intros [?|(sec & ? & ?)]; [by left|right]|intros [?|(q & i & sec & Hsq & Hin & ?)]; [by left|right]].
    + exists p, id, sec. split; [done|]. split; [apply elem_of_cons; by left|done].
    + apply elem_of_cons in Hin as [Heq|Hn%not_elem_of_nil]; [|done]. apply secretKey_inj in Heq as [-> ->]; [|apply Hseg..].
      by exists sec.
Qed.

(** The earliest time with a swept secret's own added. *)
Lemma earliest_waits t P next later sec :
  earliest P next →
  earliest (λ y, y = s_NextRotation (swept_head t sec) ∨ ∃ k, s_ScheduledDestroys (swept_head t sec) !! k = Some y) later →
  earliest (λ y, P y ∨ ∃ sec', Some (swept_head t sec) = Some sec' ∧ waits_for sec' y)
    (soonest (soonest next (s_Expire sec)) later).
Proof.
  intros HP [HE1 HE2]. assert (s_Expire (swept_head t sec) = s_Expire sec) as Hexp by (unfold swept_head; by destruct (rotation_due sec t)).
  destruct (earliest_soonest _ _ later (earliest_soonest _ _ (s_Expire sec) HP)) as [HA HB]. split.
  - intros x Hx Hne. assert ((P x ∨ x = s_Expire sec) ∨ (x = later) ∨ (later ≠ zero ∧ (later ≤ x)%Z)) as Hcase.
    { destruct Hx as [?|(sec' & [= <-] & [->|Hw])]; [auto|left; right; congruence|]. right. right. by apply HE1. }
    destruct Hcase as [Hc|[->|[Hl1 Hl2]]]; [by apply HA; [left|]|by apply HA; [right|]|].
    destruct (HA later (or_intror eq_refl) Hl1). split; [done|lia].
  - intros Hr. destruct (HB Hr) as [[?|Hr']|Hr']; [by left|right; exists (swept_head t sec); split; [done|]..].
    + left. congruence.
    + right. rewrite Hr' in *. by apply HE2.
Qed.

Lemma wp_sweep_one B e s p id next P Q :
  Inv B (cts s) → (B ≤ int_max)%Z → sane (clock e s) → segments p id → SafeKey (secretKey p id) = true → earliest P next →
  swept_post B (clock e s) [secretKey p id] s P Q → wp e s (sweep_one (clock e s) (secretKey p id) next) Q.
Proof.
  intros HI HB Ht Hseg Hk HP Hpost. pose proof (swept_post_one _ _ _ _ _ _ _ Hseg Hpost) as HQ. clear Hpost.
  set (t := clock e s) in *.
  unfold sweep_one. apply wp_bind, wp_Get.
  destruct (secret_at (cts s) p id) as [sec|] eqn:Hs.
  2: { pose proof (secret_none _ _ _ _ HI Hs) as Hn.
       assert (Q (Ok next) s) as HQn.
       { apply (HQ s (cts s)); [done|done| |intros; apply family_same_refl|].
         - unfold family_swept. by rewrite Hs.
         - eapply earliest_ext; [|exact HP]. intros y _. rewrite Hs. naive_solver. }
       destruct (st_Get (db s) (secretKey p id)) as [d|err] eqn:Hg; [|by apply wp_ret].
       apply Get_ok in Hg as [_ Hg]. congruence. }
  rewrite (proj2 (Get_ok (db s) _ (DSecret sec)) (conj Hk (proj1 (secret_at_Some _ _ _ _) Hs))).
  destruct (IsZero (s_Expire sec) && _ && _) eqn:Hidle.
  { apply andb_true_iff in Hidle as [[Hz1 Hz2]%andb_true_iff Hz3]. unfold IsZero in *. bool_prop.
    apply wp_ret, (HQ s (cts s)); [done|done| |intros; apply family_same_refl|].
    - unfold family_swept. rewrite Hs. unfold Expired, IsZero. rewrite Hz1. cbn. rewrite idle_swept by done.
      split; [done|]. intros n Hn. by eapply idle_versions.
    - eapply earliest_ext; [|exact HP]. intros y Hy. split; [auto|]. intros [?|(sec' & Hs' & Hw)]; [done|]. exfalso.
      rewrite Hs in Hs'. injection Hs' as <-. unfold waits_for in Hw. rewrite Hz1, Hz2, Hz3 in Hw.
      destruct Hw as [?|[?|[k Hk']]]; [done..|]. by rewrite lookup_empty in Hk'. }
  pose proof (stored_secret _ _ _ _ _ HI Hs) as (_ & _ & Hname).
  destruct (Expired sec t) eqn:Hx.
  { rewrite Hname, secretParts_SecretName by apply Hseg. apply wp_bind, (wp_deleteSecret B _ _ _ _ sec); [done..|].
    intros s1 H1. apply wp_bind, wp_notify. intros s2 H2. rewrite (near_cts _ _ _ H1) in H2.
    apply wp_ret, (HQ s2 (purge (cts s) p id)); [by eapply near_trans|by apply Inv_purge| |intros; by apply family_same_purge|].
    - unfold family_swept. rewrite Hs, Hx, secret_at_purge by done. rewrite decide_True by done. split; [done|].
      intros n _. rewrite version_at_purge by done. by rewrite decide_True.
    - eapply earliest_ext; [|exact HP]. intros y _. rewrite secret_at_purge by done. rewrite decide_True by done. naive_solver. }
  apply wp_bind, (wp_due B _ _ p id); [done..|]. fold t. intros s1 m1 later H1 HI1 Hsw Hsame Hear.
  apply wp_ret, (HQ s1 m1); [done..|]. unfold family_swept in Hsw. rewrite Hs, Hx in Hsw. destruct Hsw as [Hs1 _]. rewrite Hs1.
  by apply earliest_waits.
Qed.

Lemma family_swept_then t m1 m2 m3 p id :
  family_same m1 m2 p id → family_swept t m2 m3 p id → family_swept t m1 m3 p id.
Proof.
  intros [Hs Hv] H. unfold family_swept in *. rewrite Hs in H.
  destruct (secret_at m1 p id) as [sec|]; [destruct (Expired sec t)|]; destruct H as [H1 H2]; (split; [done|]);
    intros n Hn; rewrite H2, ?Hv by done; done.
Qed.

Lemma family_swept_same t m1 m2 m3 p id :
  family_swept t m1 m2 p id → family_same m2 m3 p id → family_swept t m1 m3 p id.
Proof.
  intros H [Hs Hv]. unfold family_swept in *.
  destruct (secret_at m1 p id) as [sec|]; [destruct (Expired sec t)|]; destruct H as [H1 H2]; rewrite Hs;
    (split; [done|]); intros n Hn; rewrite Hv by done; by apply H2.
Qed.

Lemma family_same_trans m1 m2 m3 p id : family_same m1 m2 p id → family_same m2 m3 p id → family_same m1 m3 p id.
Proof. intros [H1 H2] [H3 H4]. split; [congruence|]. intros n Hn. by rewrite H4, H2. Qed.

Lemma wp_sweep_loop B e keys s next P Q :
  Inv B (cts s) → (B ≤ int_max)%Z → sane (clock e s) → NoDup keys →
  Forall (λ k, SafeKey k = true ∧ ∃ p id, segments p id ∧ k = secretKey p id) keys → earliest P next →
  swept_post B (clock e s) keys s P Q → wp e s (sweep_loop (clock e s) keys next) Q.
Proof.
  intros HI HB Ht Hnd Hkeys HP HQ. revert s next P HI Ht HP HQ. induction keys as [|k keys IH]; intros s next P HI Ht HP HQ.
  - apply wp_ret, (HQ s (cts s)); [done|done| |].
    + intros p id _. rewrite decide_False by apply not_elem_of_nil. apply family_same_refl.
    + eapply earliest_ext; [|exact HP]. intros y _. split; [auto|]. intros [?|(p & id & sec & _ & Hin & _)]; [done|].
      by apply not_elem_of_nil in Hin.
  - apply NoDup_cons in Hnd as [Hnin Hnd]. apply Forall_cons in Hkeys as [(Hk & p & id & Hseg & ->) Hkeys].
    cbn [sweep_loop]. apply wp_bind, (wp_sweep_one B _ _ _ _ _ P); [done..|]. intros s1 m1 next1 H1 HI1 Hfam1 Hear1.
    rewrite <- (near_clock e _ _ _ H1). pose proof (near_cts _ _ _ H1) as Hc1.
    eapply (IH Hnd Hkeys s1 next1); rewrite ?Hc1, ?(near_clock e _ _ _ H1); [done..|].
    intros s2 m2 next2 H2 HI2 Hfam2 Hear2. rewrite Hc1 in Hfam2. apply (HQ s2 m2); [by eapply near_trans|done| |].
    + intros q i Hsq. specialize (Hfam1 q i Hsq). specialize (Hfam2 q i Hsq). rewrite decide_key in Hfam1 by done.
      destruct (decide (q = p ∧ i = id)) as [[-> ->]|Hne].
      * rewrite decide_False in Hfam2 by done. rewrite decide_True by (apply elem_of_cons; by left). by eapply family_swept_same.
      * assert (secretKey q i ≠ secretKey p id) as Hnek by by intros Heq%secretKey_inj; [|apply Hseg..].
        destruct (decide (secretKey q i ∈ keys)) as [Hin|Hnin'].
        -- rewrite decide_True by (apply elem_of_cons; by right). by eapply family_swept_then.
        -- rewrite decide_False; [by eapply family_same_trans|]. by intros [?|?]%elem_of_cons.
    + assert (∀ sec, secret_at m1 p id = Some sec ↔ secret_at m2 p id = Some sec) as Hsame.
      { intros sec. pose proof (Hfam2 p id Hseg) as Hf. rewrite decide_False in Hf by done. destruct Hf as [-> _]. done. }
      eapply earliest_ext; [|exact Hear2]. intros y _. setoid_rewrite elem_of_cons. split.
      * intros [[?|(q & i & sec & Hsq & [Hq|Hn%not_elem_of_nil] & Hs & Hw)]|(q & i & sec & Hsq & Hin & Hs & Hw)]; [by left| |done|right].
        -- right. exists q, i, sec. split; [done|]. split; [by left|].
           apply secretKey_inj in Hq as [-> ->]; [|apply Hseg..]. by rewrite <- Hsame.
        -- exists q, i, sec. split; [done|]. split; [by right|done].
      * intros [?|(q & i & sec & Hsq & [Hq|Hin] & Hs & Hw)]; [by left; left| |].
        -- left. right. exists q, i, sec. split; [done|]. split; [by left|].
           apply secretKey_inj in Hq as [-> ->]; [|apply Hseg..]. by rewrite Hsame.
        -- right. by exists q, i, sec.
Qed.

(** The times the stored secrets wait for. *)
Definition awaited m (y : Time) : Prop := ∃ p id sec, secret_at m p id = Some sec ∧ waits_for sec y.

Lemma wp_Sweep B e s Q :
  Inv B (cts s) → (B ≤ int_max)%Z → sane (clock e s) →
  (∀ s' m' next, near s m' s' → Inv B m' → (∀ p id, segments p id → family_swept (clock e s) (cts s) m' p id) →
     earliest (awaited m') next → Q (Ok next) s') →
  wp e s Sweep Q.
Proof.
  intros HI HB Ht HQ. unfold Sweep. apply wp_bind, wp_List, wp_bind, wp_now.
  assert (∀ p id, segments p id → secretKey p id ∈ list_keys (cts s) "secret/" ↔ is_Some (secret_at (cts s) p id)) as Hkeys.
  { intros p id Hseg. rewrite elem_of_list_keys. split.
    - intros [[d Hd] _]. destruct (inv_fits _ _ HI _ _ Hd) as [_ Hf]. destruct d as [sec|v].
      + exists sec. by apply secret_at_Some.
      + destruct Hf as (q & i & n & _ & _ & Heq). discriminate Heq.
    - intros [sec Hs%secret_at_Some]. split; [by eexists|done]. }
  apply (wp_sweep_loop B _ _ _ _ (λ _, False)); [done..|apply list_keys_NoDup| |apply earliest_none|].
  { apply Forall_forall. intros k [[d Hd] Hpre]%elem_of_list_keys. destruct (inv_fits _ _ HI _ _ Hd) as [Hk Hf].
    split; [done|]. destruct d as [sec|v]; [done|]. destruct Hf as (q & i & n & _ & _ & ->). discriminate Hpre. }
  intros s' m' next H1 HI1 Hfam Hear. apply (HQ s' m'); [done..| |].
  - intros p id Hseg. specialize (Hfam p id Hseg). destruct (decide (secretKey p id ∈ _)) as [Hin|Hnin]; [done|].
    rewrite Hkeys in Hnin by done. destruct Hfam as [Hs Hv]. unfold family_swept. rewrite Hs.
    destruct (secret_at (cts s) p id); [|done]. destruct Hnin. by eexists.
  - eapply earliest_ext; [|exact Hear]. intros y _. split.
    + intros [[]|(p & id & sec & _ & _ & Hs & Hw)]. by exists p, id, sec.
    + intros (p & id & sec & Hs & Hw). right. destruct (secret_segments _ _ _ _ _ HI1 Hs) as [Hseg _].
      exists p, id, sec. split; [done|]. split; [|done]. rewrite Hkeys by done.
      specialize (Hfam p id Hseg). unfold family_swept, family_same in Hfam.
      destruct (decide _); [|by destruct Hfam as [Hf _]; rewrite <- Hf; eexists].
      destruct (secret_at (cts s) p id); [by eexists|]. destruct Hfam as [Hf _]. congruence.
Qed.

(** The same, of the result. *)
Lemma wp_Sweep_post B e s :
  Inv B (cts s) → (B ≤ int_max)%Z → sane (clock e s) →
  ∃ next m', (Sweep e s).2 = Ok next ∧ near s m' (Sweep e s).1 ∧ Inv B m' ∧
    (∀ p id, segments p id → family_swept (clock e s) (cts s) m' p id) ∧ earliest (awaited m') next.
Proof.
  intros HI HB Ht. apply (wp_Sweep B e s (λ r s', ∃ next m', r = Ok next ∧ near s m' s' ∧ Inv B m' ∧
    (∀ p id, segments p id → family_swept (clock e s) (cts s) m' p id) ∧ earliest (awaited m') next)); [done..|].
  intros s' m' next H1 H2 H3 H4. by exists next, m'.
Qed.

(** What is awaited once everything due has run. *)
Lemma swept_later B t m m' y :
  Inv B m → Inv B m' → sane t → (∀ p id, segments p id → family_swept t m m' p id) → awaited m' y → y = zero ∨ (t < y)%Z.
Proof.
  intros HI HI' Ht Hfam (p & id & sec & Hs & Hw). destruct (secret_segments _ _ _ _ _ HI' Hs) as [Hseg _].
  specialize (Hfam p id Hseg). unfold family_swept in Hfam. destruct (secret_at m p id) as [sec0|].
  - destruct (Expired sec0 t) eqn:Hx; destruct Hfam as [Hf _]; [congruence|]. rewrite Hf in Hs. injection Hs as <-.
    by apply (swept_head_later sec0).
  - destruct Hfam as [Hf _]. congruence.
Qed.

(** A sweep runs everything that is due.  It ends without error; afterwards
    no stored secret has expired and none waits for a time that has come, the
    secrets that had not expired are still there with all their versions, each
    version whose scheduled destruction was due is destroyed with its payload
    and the others are untouched; and the time returned is the earliest any
    stored secret still waits for. *)
Theorem sweep_runs_everything_due B e s :
  Inv B (cts s) → (B ≤ int_max)%Z → sane (clock e s) →
  ∃ next s', Sweep e s = (s', Ok next) ∧
    (∀ y, awaited (cts s') y → y = zero ∨ (clock e s < y)%Z) ∧
    (∀ p id sec, live (clock e s) (cts s) p id = Some sec → is_Some (live (clock e s) (cts s') p id)) ∧
    (∀ p id sec n v, live (clock e s) (cts s) p id = Some sec → (1 ≤ n)%Z → version_at (cts s) p id n = Some v →
       ∃ v', version_at (cts s') p id n = Some v' ∧
         if negb (IsZero (v_ScheduledDestroy v)) && negb (Before (clock e s) (v_ScheduledDestroy v))
         then v_State v' = StateDestroyed ∧ v_Payload v' = "" else v' = v) ∧
    earliest (awaited (cts s')) next.
Proof.
  intros HI HB Ht. destruct (wp_Sweep_post B e s HI HB Ht) as (next & m' & Hr & H1 & HI' & Hfam & Hear).
  destruct (Sweep e s) as [s' r]. cbn [fst snd] in *. subst r.
  pose proof (near_cts _ _ _ H1) as <-. exists next, s'. split; [done|]. split_and!; [| | |done].
  - intros y. apply (swept_later B _ (cts s)); done.
  - intros p id sec Hl. pose proof Hl as [Hs Hx]%live_Some. destruct (secret_segments _ _ _ _ _ HI Hs) as [Hseg _].
    specialize (Hfam p id Hseg). unfold family_swept in Hfam. rewrite Hs, Hx in Hfam. destruct Hfam as [Hf _].
    unfold live. rewrite Hf. assert (Expired (swept_head (clock e s) sec) (clock e s) = Expired sec (clock e s)) as ->
      by (unfold swept_head; by destruct (rotation_due sec (clock e s))). rewrite Hx. by eexists.
  - intros p id sec n v Hl Hn Hv. pose proof Hl as [Hs Hx]%live_Some. destruct (secret_segments _ _ _ _ _ HI Hs) as [Hseg _].
    specialize (Hfam p id Hseg). unfold family_swept in Hfam. rewrite Hs, Hx in Hfam. destruct Hfam as [_ Hf].
    rewrite Hf, Hv by lia. eexists. split; [done|]. unfold swept_version, scheduled.
    destruct (IsZero (v_ScheduledDestroy v)); [done|]. by destruct (Before (clock e s) (v_ScheduledDestroy v)).
Qed.

End sweep.
