(* ===== verification/SecretsSpec.v ===== *)
(** * What Secret Manager's store guarantees

    The operations as one type, and what each of them keeps: the invariant of the
    documents, the life of every version, and the wake-up of the sweeping
    goroutine for any new time to wait for. *)

From S2P Require Import Prelude GoLib ApiError Resource MetaStore IamPolicy Handler GoCrypto SecretsModel SecretsNames SecretsStore SecretsInv SecretsOps SecretsEffects SecretsSweep.
From Stdlib Require Import Ascii.

Import strings strconv time.

(** ** Operations *)

Inductive op :=
| OCreate (p id : string) (labels annotations : gmap string string) (expire : Time) (topics : list string)
    (sch : Schedule) (keys : option (list string)) (replication : string) (locations : list string)
| OGet (p id : string)
| OUpdate (p id : string) (u : SecretUpdate)
| OSetIam (p id : string) (req : iampb.SetIamPolicyRequest)
| OList (p : string)
| ODelete (p id : string)
| OAdd (p id payload : string) (checksum : bool)
| OGetVersion (p id version : string)
| OAccess (p id version : string)
| OListVersions (p id : string)
| OSetState (p id version : string) (state : VersionState)
| ODestroy (p id version : string)
| OSetKeys (p id : string) (keys : list string)
| OAdvance (d : Duration)
| OReset.

Section spec.
Context {S : Type} `{RS : ReliableStore S doc} `{CR : Crypto}.
Implicit Types (s : Store S) (e : Env) (m : gmap string doc).

Abbreviation cts s := (contents (db s)).

Definition exec (o : op) e s : Store S :=
  match o with
  | OCreate p id ls ans expire topics sch keys repl locs =>
      (CreateSecretEncrypted p id ls ans expire topics sch keys repl locs e s).1
  | OGet p id => (GetSecret p id e s).1
  | OUpdate p id u => (UpdateSecretFields p id u e s).1
  | OSetIam p id req => (SetIamPolicy p id req e s).1
  | OList p => (ListSecrets p e s).1
  | ODelete p id => (DeleteSecret p id e s).1
  | OAdd p id payload chk => (addVersion p id payload chk e s).1
  | OGetVersion p id v => (GetVersion p id v e s).1
  | OAccess p id v => (AccessVersion p id v e s).1
  | OListVersions p id => (ListVersions p id e s).1
  | OSetState p id v st => (SetVersionState p id v st e s).1
  | ODestroy p id v => (DestroyVersion p id v e s).1
  | OSetKeys p id keys => (SetReplicationKeys p id keys e s).1
  | OAdvance d => (Advance d e s).1
  | OReset => (Reset e s).1
  end.

(** The surroundings of an operation: any order of maps, a clock in the years
    JSON can write, a new secret's scope without a slash. *)
Definition op_ok e s (o : op) : Prop :=
  env_ok e ∧ sane (clock e s) ∧
  match o with
  | OCreate p _ _ _ _ _ _ _ _ _ => free_of slash p = true
  | OAdvance d => (0 ≤ d)%Z → in_int (offset s + d) = true ∧ sane (Add (clock e s) d)
  | _ => True
  end.

(** A version from one operation to the next: a destroyed one does not change, any
    other keeps what it holds or is destroyed and holds nothing. *)
Definition evolves (v v' : Version) : Prop :=
  v_Name v' = v_Name v ∧ v_Number v' = v_Number v ∧ v_Created v' = v_Created v ∧
  match v_State v with
  | StateDestroyed => v' = v
  | _ => v_Payload v' = v_Payload v ∧ v_Replicas v' = v_Replicas v ∧ v_State v' ≠ StateDestroyed
         ∨ v_State v' = StateDestroyed ∧ v_Payload v' = "" ∧ Forall (λ r, r_WrappedKey r = "") (v_Replicas v')
  end.

(** The secrets an operation is asked to delete. *)
Definition deletes (o : op) (p id : string) : Prop :=
  match o with ODelete q i => p = q ∧ id = i | OReset => True | _ => False end.

(** A version of a live secret evolves, or goes with its secret: deleted as [del]
    says or expired by the end. *)
Definition keeps e (del : string → string → Prop) s s' : Prop :=
  ∀ p id sec n v, live (clock e s) (cts s) p id = Some sec → (0 ≤ n)%Z → version_at (cts s) p id n = Some v →
    (∃ v', version_at (cts s') p id n = Some v' ∧ evolves v v') ∨
    (secret_at (cts s') p id = None ∧ (del p id ∨ Expired sec (clock e s') = true)).

(** What an operation leaves: the invariant, the versions it must keep, and Run
    woken if there is anything new to wait for. *)
Definition op_post B e (del : string → string → Prop) s s' : Prop :=
  Inv (B + 1) (cts s') ∧ keeps e del s s' ∧
  (rearm s' = true ∨
   (rearm s' = rearm s ∧ offset s' = offset s ∧ ∀ y, y ≠ zero → awaited (cts s') y → awaited (cts s) y)).

Abbreviation none := (λ _ _ : string, False).

Lemma evolves_refl v : v_State v = StateDestroyed → evolves v v.
Proof. intros H. unfold evolves. by rewrite H. Qed.
Lemma evolves_same v v' :
  v_Name v' = v_Name v → v_Number v' = v_Number v → v_Created v' = v_Created v → v_Payload v' = v_Payload v →
  v_Replicas v' = v_Replicas v → v_State v ≠ StateDestroyed → v_State v' ≠ StateDestroyed → evolves v v'.
Proof. intros. unfold evolves. split_and!; [done..|]. destruct (v_State v); [by left..|done]. Qed.
Lemma evolves_id v : evolves v v.
Proof.
  destruct (decide (v_State v = StateDestroyed)); [by apply evolves_refl|]. by apply evolves_same.
Qed.
Lemma evolves_destroyed v t : v_State v ≠ StateDestroyed → evolves v (destroyed v t).
Proof.
  intros H. unfold evolves. split_and!; [done..|]. destruct (v_State v); [right..|done]; split_and!; [done..| |done|done|];
    apply Forall_fmap, Forall_true; done.
Qed.

(** Operations that write no version of a live secret. *)
Lemma keeps_same e del s s' :
  (∀ p id sec n v, live (clock e s) (cts s) p id = Some sec → (0 ≤ n)%Z → version_at (cts s) p id n = Some v →
     version_at (cts s') p id n = Some v) →
  keeps e del s s'.
Proof. intros H p id sec n v Hl Hn Hv. left. exists v. split; [by apply (H p id sec)|apply evolves_id]. Qed.

(** Operations that write one. *)
Lemma keeps_version B e del s s' p id n v v' :
  Inv B (cts s) → segments p id → (0 ≤ n)%Z → version_at (cts s) p id n = Some v → evolves v v' →
  (∀ q i k, segments q i → (0 ≤ k)%Z →
     version_at (cts s') q i k = version_at (<[versionKey p id n := DVersion v']> (cts s)) q i k) →
  keeps e del s s'.
Proof.
  intros HI Hseg Hn Hv Hev Hs' q i sec k w Hl Hk Hw. left. apply live_Some in Hl as [Hs _].
  destruct (secret_segments _ _ _ _ _ HI Hs) as [Hseg' _].
  rewrite Hs', version_at_put by done. case_decide as Hd; [|exists w; split; [done|apply evolves_id]].
  destruct Hd as (-> & -> & ->). exists v'. split; [done|]. congruence.
Qed.

(** ** The times waited for *)

Lemma awaited_purges B t m m' y : Inv B m → purges t m m' → awaited m' y → awaited m y.
Proof.
  intros HI Hp. induction Hp as [|m p id sec m' Hs Hx _ IH]; [done|].
  destruct (secret_segments _ _ _ _ _ HI Hs) as [Hseg _]. intros Hw. apply IH in Hw; [|by apply Inv_purge].
  destruct Hw as (q & i & sec' & Hs' & Hw). rewrite secret_at_purge in Hs' by done. case_decide; [done|]. by exists q, i, sec'.
Qed.

Lemma awaited_put m p id sec y :
  segments p id → awaited (<[secretKey p id := DSecret sec]> m) y → waits_for sec y ∨ awaited m y.
Proof.
  intros Hseg (q & i & sec' & Hs & Hw). rewrite secret_at_put in Hs by done. case_decide.
  - injection Hs as <-. by left.
  - right. by exists q, i, sec'.
Qed.

Lemma awaited_put_version m p id n v y : awaited (<[versionKey p id n := DVersion v]> m) y → awaited m y.
Proof. intros (q & i & sec & Hs & Hw). rewrite secret_at_put_version in Hs. by exists q, i, sec. Qed.

(** A head that waits for nothing new. *)
Lemma awaited_head m p id sec sec' y :
  segments p id → secret_at m p id = Some sec → (∀ z, waits_for sec' z → waits_for sec z) →
  awaited (<[secretKey p id := DSecret sec']> m) y → awaited m y.
Proof.
  intros Hseg Hs Hw [H|H]%awaited_put; [|done|done]. exists p, id, sec. split; [done|]. by apply Hw.
Qed.

Lemma awaited_rescheduled m p id sec n v y :
  segments p id → secret_at m p id = Some sec → scheduled v = None →
  awaited (rescheduled m p id sec n v) y → awaited m y.
Proof.
  intros Hseg Hs Hv. unfold rescheduled. rewrite Hv. intros [Hw|Hw]%awaited_put; [|by eapply awaited_put_version|done].
  exists p, id, sec. split; [done|]. destruct Hw as [?|[?|[k Hk]]]; [by left|by right; left|right; right].
  cbn in Hk. exists k. destruct (decide (k = Itoa n)) as [->|]; [by rewrite lookup_partial_alter_eq in Hk|].
  by rewrite lookup_partial_alter_ne in Hk.
Qed.

(** ** Operations that only read *)

Lemma post_refl B e del s : Inv B (cts s) → op_post B e del s s.
Proof. intros HI. split; [apply (Inv_mono B); [lia|done]|]. split; [by apply keeps_same|]. by right. Qed.

Lemma keeps_purges B e del s s' : Inv B (cts s) → purges (clock e s) (cts s) (cts s') → keeps e del s s'.
Proof. intros HI Hp. apply keeps_same. intros p id sec n v Hl _ <-. by eapply purges_versions. Qed.

Lemma post_purges B e del s s' :
  Inv B (cts s) → purges (clock e s) (cts s) (cts s') → offset s' = offset s → rearm s' = rearm s → op_post B e del s s'.
Proof.
  intros HI Hp Ho Hr. split; [apply (Inv_mono B); [lia|]; by eapply Inv_purges|]. split; [by eapply keeps_purges|].
  right. split_and!; [done..|].
  intros y _. by eapply awaited_purges.
Qed.

Lemma post_settle B e del p id s s' : Inv B (cts s) → near s (settle (clock e s) (cts s) p id) s' → op_post B e del s s'.
Proof. intros HI (Hc & Ho & Hr). eapply post_purges; [done| |done..]. rewrite Hc. apply purges_settle. Qed.

Lemma post_near B e del s s' : Inv B (cts s) → near s (cts s) s' → op_post B e del s s'.
Proof. intros HI (Hc & Ho & Hr). apply post_purges; [done| |done..]. rewrite Hc. constructor. Qed.

(** A write of the head that changes no number, no index and no time. *)
Lemma post_head B e del p id sec sec' s s' :
  Inv B (cts s) → secret_at (cts s) p id = Some sec → s_Name sec' = s_Name sec → s_NextVersion sec' = s_NextVersion sec →
  s_ScheduledDestroys sec' = s_ScheduledDestroys sec → marshals (DSecret sec') = true → period_ok sec' →
  (s_Expire sec' = s_Expire sec ∧ s_NextRotation sec' = s_NextRotation sec ∧ rearm s' = rearm s ∨ rearm s' = true) →
  cts s' = <[secretKey p id := DSecret sec']> (cts s) → offset s' = offset s → op_post B e del s s'.
Proof.
  intros HI Hs Hn Hv Hidx Hm HP Hw Hc Ho. destruct (stored_secret _ _ _ _ _ HI Hs) as (Hseg & _). split.
  - rewrite Hc. apply (Inv_mono B); [lia|]. by eapply Inv_head.
  - split; [apply keeps_same; intros q i _ n v _ _; by rewrite Hc, version_at_put_secret|]. destruct Hw as [(He & Hnr & Hr)|Hr]; [|by left]. right. split_and!; [done..|]. intros y _. rewrite Hc.
    apply (awaited_head _ _ _ sec); [done..|]. intros z. unfold waits_for. by rewrite He, Hnr, Hidx.
Qed.

(** ** Each operation *)

Lemma check_period sch t r ttl : check sch t r ttl = Ok tt → (0 ≤ RotationPeriod sch ≤ MaxRotation)%Z.
Proof.
  unfold check. intros (_ & _ & H)%res_bind_ok. apply res_bind_ok in H as ([] & H & _). cbv zeta in H.
  destruct (Z.eqb_spec (RotationPeriod sch) 0) as [->|Hne]; cbn in H; [unfold MaxRotation, Second; lia|].
  destruct (Z.ltb_spec (RotationPeriod sch) MinRotationPeriod); [done|].
  destruct (Z.ltb_spec MaxRotation (RotationPeriod sch)); [done|].
  unfold MinRotationPeriod, Hour, Minute, Second in *. lia.
Qed.

(** A valid ID is one segment of a key. *)
Lemma ValidateSecretID_free id : ValidateSecretID id = Ok tt → free_of slash id = true.
Proof.
  unfold ValidateSecretID. destruct (bool_decide (id = "")); [done|]. destruct (255 <? len id)%nat; [done|].
  destruct (AllBytes _ id) eqn:Hb; [|done]. intros _. revert Hb. unfold free_of. induction id as [|a id IH]; [done|].
  cbn [AllBytes]. intros [Ha Hb]%andb_true_iff. rewrite IH by done. rewrite bool_decide_false; [done|].
  intros ->. by vm_compute in Ha.
Qed.

Lemma create_post B e s p id ls ans expire topics sch keys repl locs :
  Inv B (cts s) → (1 ≤ B)%Z → op_ok e s (OCreate p id ls ans expire topics sch keys repl locs) →
  wp e s (CreateSecretEncrypted p id ls ans expire topics sch keys repl locs) (λ _ s', op_post B e none s s').
Proof.
  intros HI HB (He & Ht & Hp). apply (wp_CreateSecret B); [done..| |].
  - intros s' x [Hc|Hc] Ho Hr; [by apply post_near|]. eapply post_purges; [done| |done..]. rewrite Hc. apply purges_settle.
  - intros s' sec Hl _ Hid Hexp Hsch Hcr Hk _ Hc Ho Hr.
    pose proof (ValidateSecretID_free _ Hid) as Hfi.
    split.
    + rewrite Hc. apply (Inv_mono B); [lia|]. apply Inv_create; try apply Hcr; [done..|].
      unfold period_ok. rewrite (ca_Period _ _ _ _ _ _ Hcr). by eapply check_period.
    + split.
      { apply keeps_same. intros q i sec' n v Hl' _ <-. rewrite Hc, version_at_put_secret.
        by apply (purges_versions B (clock e s) _ _ _ _ sec'); [|apply purges_settle|]. }
      destruct (negb (IsZero expire) || negb (IsZero (NextRotation sch))) eqn:Hw; [by left|right].
      apply orb_false_iff in Hw as [Hz1 Hz2]. unfold IsZero in *. bool_prop. split_and!; [done..|].
      intros y Hy. rewrite Hc. intros [Hwait|Hwait]%awaited_put; [| |done].
      * exfalso. destruct Hwait as [Hw|[Hw|[k Hw]]].
        -- by rewrite (ca_Expire _ _ _ _ _ _ Hcr), Hz1 in Hw.
        -- by rewrite (ca_Rotation _ _ _ _ _ _ Hcr), Hz2 in Hw.
        -- by rewrite (ca_index _ _ _ _ _ _ Hcr), lookup_empty in Hw.
      * eapply awaited_purges; [done|apply purges_settle|exact Hwait].
Qed.

Lemma update_post B e s p id u :
  Inv B (cts s) → op_ok e s (OUpdate p id u) → wp e s (UpdateSecretFields p id u) (λ _ s', op_post B e none s s').
Proof.
  intros HI (He & Ht & _). apply (wp_UpdateSecretFields B); [done..| |].
  - intros s' x Hc Ho Hr. assert (purges (clock e s) (cts s) (cts s')) as Hp.
    { destruct Hc as [->| ->]; [constructor|apply purges_settle]. }
    split; [apply (Inv_mono B); [lia|]; by eapply Inv_purges|]. split; [by eapply keeps_purges|].
    destruct (rearm s') eqn:Hr'; [by left|right]. split_and!; [|done|].
    + destruct (rearm s); [|done]. by specialize (Hr eq_refl).
    + intros y _. by eapply awaited_purges.
  - intros s' sec sec' Hl -> Hexp Hsch Hper Hm Hc Ho Hr. pose proof Hl as [Hs Hx]%live_Some.
    destruct (apply_update_fixed u (next_of u sec) (period_of u sec) (etag_of (clock e s)) sec)
      as (Hn & Hv & Hidx & _ & Hexp' & Hnr & Hpd & _).
    pose proof (fo_period _ _ _ _ _ (secret_family _ _ _ _ _ HI Hs)) as Hpok.
    apply (post_head _ _ _ p id sec (apply_update u (next_of u sec) (period_of u sec) (etag_of (clock e s)) sec)); try done.
    + unfold period_ok. rewrite Hpd. unfold period_of. destruct (UpdateNextRotation u || UpdateRotationPeriod u); [|apply Hpok].
      destruct (UpdateRotationPeriod u); [by eapply check_period|apply Hpok].
    + revert Hexp' Hnr Hr. destruct (UpdateExpire u), (UpdateNextRotation u), (UpdateRotationPeriod u); cbn; intros; auto.
Qed.

Lemma add_post B e s p id payload chk :
  Inv B (cts s) → (B < int_max)%Z → op_ok e s (OAdd p id payload chk) →
  wp e s (addVersion p id payload chk) (λ _ s', op_post B e none s s').
Proof.
  intros HI HB (He & Ht & _). apply (wp_addVersion B); [done..|apply Ht| | | |].
  - intros _. by apply post_refl.
  - intros s' _ _ _ H1. by eapply post_settle.
  - intros s' sec v x _ _ _ _ H1 _. by apply post_near.
  - intros s0 s' sec v v' _ _ Hl -> _ Hseal (Hc & Ho & Hr). pose proof Hl as [Hs Hx]%live_Some.
    destruct (stored_secret _ _ _ _ _ HI Hs) as (Hseg & _).
    destruct (sealVersion_ok _ _ _ _ _ _ Hseal) as (pl & size & rs & ->). split.
    + rewrite Hc. apply Inv_added; [done..|by apply new_version_ok; apply Ht|done].
    + split.
      { apply keeps_same. intros q i sec' n v Hl' Hn Hv. apply live_Some in Hl' as [Hs' _].
        destruct (secret_segments _ _ _ _ _ HI Hs') as [Hseg' _]. rewrite Hc. unfold added.
        pose proof (fo_Next _ _ _ _ _ (secret_family _ _ _ _ _ HI Hs)) as Hnext.
        rewrite version_at_put_secret, version_at_put by (done || lia). case_decide as Hd; [|done].
        destruct Hd as (-> & -> & ->). assert (is_Some (version_at (cts s) p id (s_NextVersion sec))) as Hin by by eexists.
        rewrite (version_range B _ _ _ sec) in Hin by (done || lia). lia. }
      right. split_and!; [done..|]. intros y _. rewrite Hc. unfold added. intros Hw.
      apply (awaited_head _ _ _ sec) in Hw; [by eapply awaited_put_version|done|by rewrite secret_at_put_version|done].
Qed.

Lemma set_state_post B e s p id version st :
  Inv B (cts s) → op_ok e s (OSetState p id version st) →
  wp e s (SetVersionState p id version st) (λ _ s', op_post B e none s s').
Proof.
  intros HI (He & Ht & _). apply (wp_SetVersionState B); [done..| | | |].
  - intros _. by apply post_refl.
  - intros s' x _ _ H1. by eapply post_settle.
  - intros s' sec v _ _ _ _ H1. by apply post_near.
  - intros s' sec n v v' Hst Hl Hnamed Hr Hvd -> (Hc & Ho & Hrm). pose proof Hl as [Hs Hx]%live_Some.
    destruct (stored_secret _ _ _ _ _ HI Hs) as (Hseg & _).
    destruct (version_named_ok _ _ _ _ _ _ _ HI Hs Hnamed) as (n' & Hr' & Hn & Hv & Hvok).
    rewrite Hr in Hr'. injection Hr' as <-. split.
    + rewrite Hc. apply (Inv_mono B); [lia|]. eapply Inv_rescheduled; [done..|lia|done|by apply set_State_ok].
    + split; [|by right; split_and!; [done..|]; intros y _; rewrite Hc; apply awaited_rescheduled].
      eapply (keeps_version B _ _ _ _ p id n v); [done..|lia|done| |by intros; rewrite Hc; apply version_at_put_secret].
      by apply evolves_same.
Qed.

Lemma destroy_post B e s p id version :
  Inv B (cts s) → op_ok e s (ODestroy p id version) →
  wp e s (DestroyVersion p id version) (λ _ s', op_post B e none s s').
Proof.
  intros HI (He & Ht & _). apply (wp_DestroyVersion B); [done..|destruct Ht; lia|apply Ht| | | | |].
  - intros s' x _ H1. by eapply post_settle.
  - intros s' sec v _ _ _ H1. by apply post_near.
  - intros s' sec v _ _ _ _ _ _ H1. by apply post_near.
  - intros s' sec n v Hl Hnamed Hr Hvd Hz Httl Hj (Hc & Ho & Hrm). pose proof Hl as [Hs Hx]%live_Some.
    destruct (version_named_ok _ _ _ _ _ _ _ HI Hs Hnamed) as (n' & Hr' & Hn & Hv & Hvok).
    rewrite Hr in Hr'. injection Hr' as <-. destruct (stored_secret _ _ _ _ _ HI Hs) as (Hseg & _). split; [|split; [|by left]].
    + rewrite Hc. apply (Inv_mono B); [lia|]. eapply Inv_rescheduled; [done..|lia|done|by apply pending_ok].
    + eapply (keeps_version B _ _ _ _ p id n v); [done..|lia|done| |by intros; rewrite Hc; apply version_at_put_secret].
      by apply evolves_same.
  - intros s' sec n v Hl Hnamed Hr Hvd Hz Httl (Hc & Ho & Hrm). pose proof Hl as [Hs Hx]%live_Some.
    destruct (stored_secret _ _ _ _ _ HI Hs) as (Hseg & _).
    destruct (version_named_ok _ _ _ _ _ _ _ HI Hs Hnamed) as (n' & Hr' & Hn & Hv & Hvok).
    rewrite Hr in Hr'. injection Hr' as <-. split.
    + rewrite Hc. apply (Inv_mono B); [lia|]. eapply Inv_rescheduled; [done..|lia|done|]. by apply destroyed_ok; [|apply Ht].
    + split; [|by right; split_and!; [done..|]; intros y _; rewrite Hc; apply awaited_rescheduled].
      eapply (keeps_version B _ _ _ _ p id n v); [done..|lia|done| |by intros; rewrite Hc; apply version_at_put_secret].
      by apply evolves_destroyed.
Qed.

Lemma purge_post B e p id sec s s' :
  Inv B (cts s) → secret_at (cts s) p id = Some sec → near s (purge (cts s) p id) s' → op_post B e (deletes (ODelete p id)) s s'.
Proof.
  intros HI Hs (Hc & Ho & Hr). destruct (stored_secret _ _ _ _ _ HI Hs) as (Hseg & _). split.
  - rewrite Hc. apply (Inv_mono B); [lia|]. by apply Inv_purge.
  - split.
    { intros q i sec' n v Hl Hn Hv. rewrite Hc, secret_at_purge by done. apply live_Some in Hl as [Hs' _].
      destruct (secret_segments _ _ _ _ _ HI Hs') as [Hseg' _]. rewrite version_at_purge by done.
      case_decide as Hd; [right; split; [done|by left]|left]. exists v. split; [done|apply evolves_id]. }
    right. split_and!; [done..|]. intros y _. rewrite Hc. intros (q & i & sec' & Hs' & Hw).
    rewrite secret_at_purge in Hs' by done. case_decide; [done|]. by exists q, i, sec'.
Qed.

(** What a sweep at [t'] makes of a version. *)
Lemma keeps_swept B t m p id sec n v :
  Inv B m → live t m p id = Some sec → (0 ≤ n)%Z → version_at m p id n = Some v →
  ∀ m' t', (∀ p id, segments p id → family_swept t' m m' p id) →
    (∃ v', version_at m' p id n = Some v' ∧ evolves v v') ∨ (secret_at m' p id = None ∧ Expired sec t' = true).
Proof.
  intros HI [Hs Hx]%live_Some Hn Hv m' t' Hfam. destruct (secret_segments _ _ _ _ _ HI Hs) as [Hseg _].
  specialize (Hfam p id Hseg). unfold family_swept in Hfam. rewrite Hs in Hfam.
  destruct (Expired sec t'); destruct Hfam as [Hs' Hv']; [by right|left]. rewrite Hv', Hv by done. eexists. split; [done|].
  pose proof (version_is_ok _ _ _ _ _ _ _ HI Hs Hn Hv) as Hok. unfold swept_version, scheduled.
  destruct (IsZero (v_ScheduledDestroy v)) eqn:Hz; [apply evolves_id|]. destruct (Before t' _); [apply evolves_id|].
  apply evolves_destroyed. rewrite (vo_scheduled _ _ _ _ Hok); [done|]. unfold IsZero in Hz. by bool_prop.
Qed.

Lemma wp_shift e s d (Q : res error unit → Store S → Prop) :
  in_int (offset s + d) = true →
  (∀ s', cts s' = cts s → offset s' = (offset s + d)%Z → clock e s' = Add (clock e s) d → Q (Ok tt) s') → wp e s (SecretsStore.shift d) Q.
Proof.
  intros Hint HQ. assert (wrap_i64 (offset s + d) = (offset s + d)%Z) as Hw.
  { unfold in_int in Hint. bool_prop. by rewrite wrap_i64_id by lia. }
  apply HQ; cbn; [done|done|]. unfold clock. cbn. rewrite Hw. unfold Add. lia.
Qed.

Lemma advance_post B e s d :
  Inv B (cts s) → (B ≤ int_max)%Z → op_ok e s (OAdvance d) → wp e s (Advance d) (λ _ s', op_post B e none s s').
Proof.
  intros HI HB (He & Ht & Hd). unfold Advance. destruct (Z.ltb_spec d 0) as [|Hd0]; [by apply wp_throw, post_refl|].
  destruct (Hd Hd0) as [Hint Hsane]. apply wp_bind, wp_shift; [done|]. intros s1 Hc1 _ Hclk.
  apply wp_deferred, wp_bind, (wp_Sweep B); [by rewrite Hc1|done|by rewrite Hclk|]. intros s2 m2 next H2 HI2 Hfam _.
  apply wp_now, wp_wake. pose proof (near_cts _ _ _ H2) as Hc. split; [|split; [|by left]].
  - cbn. rewrite Hc. apply (Inv_mono B); [lia|done].
  - pose proof (near_clock e _ _ _ H2) as Hclk2. intros p id sec n v Hl Hn Hv.
    rewrite Hc1 in Hfam.
    destruct (keeps_swept B _ _ p id sec n v HI Hl Hn Hv _ _ Hfam) as [H|H]; cbn in *; rewrite Hc; [by left|right].
    destruct H as [H1 H3]. split; [done|right]. by change (clock e (mkStore _ _ _ _)) with (clock e s2); rewrite Hclk2.
Qed.

(** A reset leaves nothing. *)
Lemma wp_Reset B e s Q : Inv B (cts s) → (∀ s', near s ∅ s' → Q (Ok tt) s') → wp e s Reset Q.
Proof.
  intros HI HQ. unfold Reset. cbn [each]. apply wp_bind, wp_bind, wp_List, wp_deletes.
  { apply Forall_forall. intros k [[d Hd] _]%elem_of_list_keys. by apply (inv_fits _ _ HI) in Hd as [? _]. }
  intros s1 H1. apply wp_bind, wp_bind, wp_List. pose proof (near_cts _ _ _ H1) as Hc1. rewrite Hc1.
  assert (∀ k d, apply_ops (cts s) (OpDelete <$> list_keys (cts s) "secret/") !! k = Some d → cts s !! k = Some d ∧ HasPrefix k "version/" = true) as Hleft.
  { intros k d. rewrite apply_deletes. case_decide as Hin; [done|]. intros Hd. split; [done|].
    destruct (inv_fits _ _ HI _ _ Hd) as [_ Hf]. destruct d as [sec|v].
    - destruct Hf as (p & id & _ & ->). destruct Hin. apply elem_of_list_keys. split; [by eexists|done].
    - by destruct Hf as (p & id & n & _ & _ & ->). }
  apply wp_deletes.
  { apply Forall_forall. intros k [[d [Hd _]%Hleft] _]%elem_of_list_keys. by apply (inv_fits _ _ HI) in Hd as [? _]. }
  intros s2 H2. apply wp_ret, HQ. rewrite Hc1 in H2. eapply near_trans; [done|]. destruct H2 as (Hc & Ho & Hr). split; [|done].
  rewrite Hc. apply map_eq. intros k. rewrite apply_deletes, lookup_empty. case_decide as Hin; [done|].
  destruct (_ !! k) as [d|] eqn:Hd; [|done]. destruct Hin. apply elem_of_list_keys. split; [by eexists|].
  by apply (Hleft k d).
Qed.

Lemma reset_post B e s : Inv B (cts s) → wp e s Reset (λ _ s', op_post B e (deletes OReset) s s').
Proof.
  intros HI. apply (wp_Reset B); [done|]. intros s' (Hempty & Ho & Hr). split; [rewrite Hempty; apply Inv_empty|]. split.
  { intros p id sec n v _ _ _. right. unfold secret_at. rewrite Hempty, lookup_empty. split; [done|by left]. }
  right. split_and!; [done..|]. intros y _. rewrite Hempty.
  intros (p & id & sec & Hs & _). unfold secret_at in Hs. by rewrite lookup_empty in Hs.
Qed.

Lemma openVersion_state e s v : (openVersion v e s).1 = s.
Proof.
  unfold openVersion. destruct (negb (encrypted v)); [done|]. unfold mbind, M_bind, ask, lift, throw, mret, M_ret.
  repeat case_match; simplify_eq; try done; by repeat case_match; simplify_eq.
Qed.

Lemma access_post B e s p id version :
  Inv B (cts s) → env_ok e → wp e s (AccessVersion p id version) (λ _ s', op_post B e none s s').
Proof.
  intros HI He. unfold AccessVersion. apply wp_bind, (wp_GetVersion B); [done..|]. intros s1 H1.
  pose proof (post_settle _ _ none _ _ _ _ HI H1) as Hpost.
  destruct (match live (clock e s) (cts s) p id with Some sec => _ | None => _ end) as [v|x]; [|done].
  destruct (negb (Accessible v)); [done|]. unfold wp. by rewrite openVersion_state.
Qed.

Lemma list_versions_post B e s p id :
  Inv B (cts s) → env_ok e → wp e s (ListVersions p id) (λ _ s', op_post B e none s s').
Proof.
  intros HI He. unfold ListVersions. apply wp_bind, (wp_getSecret B); [done|]. intros s1 H1.
  pose proof (post_settle _ _ none _ _ _ _ HI H1) as Hpost.
  destruct (live (clock e s) (cts s) p id) as [sec|] eqn:Hl; [|done]. pose proof Hl as [Hs _]%live_Some.
  rewrite (settle_live _ _ _ _ _ Hl) in H1. pose proof (near_cts _ _ _ H1) as Hc.
  apply wp_bind, (wp_listVersions B _ _ _ _ sec); rewrite ?Hc; [done..|]. intros vs _. by apply wp_ret.
Qed.

(** Every operation keeps the invariant, and wakes Run for anything new. *)
Lemma exec_post B e s o : Inv B (cts s) → (1 ≤ B < int_max)%Z → op_ok e s o → op_post B e (deletes o) s (exec o e s).
Proof.
  intros HI HB Hop. destruct o; cbn [exec].
  - apply (create_post B); [done|lia|done].
  - eapply (wp_getSecret B _ _ _ _ (λ _ s', op_post B e none s s')); [done|]. intros s'. by apply post_settle.
  - by apply update_post.
  - eapply (wp_SetIamPolicy B _ _ _ _ _ (λ _ s', op_post B e none s s')); [done| |].
    + intros s' x. by apply post_settle.
    + intros s' sec next Hl _ (Hc & Ho & Hr). pose proof Hl as [Hs _]%live_Some.
      pose proof (secret_family _ _ _ _ _ HI Hs) as Hfam.
      apply (λ h1 h2 h3 h4 h5 h6, post_head B e none p id sec _ s s' HI Hs h1 h2 h3 h4 h5 h6 Hc Ho); try done;
        [apply (fo_marshals _ _ _ _ _ Hfam)|apply (fo_period _ _ _ _ _ Hfam)|by left].
  - eapply (wp_ListSecrets B _ _ _ (λ _ s', op_post B e none s s')); [done|apply Hop|by intros _; apply post_refl|].
    intros s' out _ Hp Ho Hr _ _. by eapply post_purges.
  - eapply (wp_DeleteSecret B _ _ _ _ (λ _ s', op_post B e (deletes (ODelete p id)) s s')); [done|apply Hop| |].
    + intros s' _. by apply post_settle.
    + intros s' sec Hl H1. apply live_Some in Hl as [Hs _]. by eapply purge_post.
  - apply (add_post B); [done|lia|done].
  - eapply (wp_GetVersion B _ _ _ _ _ (λ _ s', op_post B e none s s')); [done|apply Hop|]. intros s'. by apply post_settle.
  - apply (access_post B); [done|apply Hop].
  - apply (list_versions_post B); [done|apply Hop].
  - by apply set_state_post.
  - by apply destroy_post.
  - eapply (wp_SetReplicationKeys B _ _ _ _ _ (λ _ s', op_post B e none s s')); [done| |].
    + intros s' x. by apply post_settle.
    + intros s' sec sec' Hl -> _ (Hc & Ho & Hr). pose proof Hl as [Hs _]%live_Some.
      pose proof (secret_family _ _ _ _ _ HI Hs) as Hfam.
      apply (λ h1 h2 h3 h4 h5 h6, post_head B e none p id sec _ s s' HI Hs h1 h2 h3 h4 h5 h6 Hc Ho); try done;
        [apply (fo_marshals _ _ _ _ _ Hfam)|apply (fo_period _ _ _ _ _ Hfam)|by left].
  - apply (advance_post B); [done|lia|done].
  - by apply reset_post.
Qed.

End spec.
