(* ===== verification/SecretsRun.v ===== *)
(** * Secret Manager over time

    The store, the goroutine [Store.Run] of expiry.go that sweeps it, and the
    clock, as one transition system: API operations, Run's own moves and the
    passing of time interleave freely.  What holds in every reachable state. *)

From S2P Require Import Prelude GoLib ApiError Resource MetaStore IamPolicy Handler GoCrypto SecretsModel SecretsNames SecretsStore SecretsInv SecretsOps SecretsEffects SecretsSweep SecretsSpec.
From Stdlib Require Import Ascii.

Import strings strconv time.

(** Where Run is: about to sweep, between the sweep and the timer, or in its
    select until a wake-up or the base clock's reading [timer]. *)
Inductive phase :=
| Sweeping (retry : Duration)
| Swept (r : res error Time) (retry : Duration)
| Asleep (timer : option Time) (retry : Duration).

Section run.
Context {S : Type} `{RS : ReliableStore S doc} `{CR : Crypto}.
Implicit Types (s : Store S) (e : Env).

Abbreviation cts s := (contents (db s)).

Record machine := mkMachine { st : Store S; ph : phase; base : Time }.

(** [case <-s.rearm]: the one place of the channel is taken. *)
Definition drained s : Store S := mkStore (db s) (offset s) false (sent s).

(** Run's own moves. *)
Inductive run_step : machine → machine → Prop :=
| R_sweep e s retry s' r :
    env_ok e → sane (clock e s) → Sweep e s = (s', r) →
    run_step (mkMachine s (Sweeping retry) (clock_Now e)) (mkMachine s' (Swept r retry) (clock_Now e))
| R_wait e s r retry s' d retry' :
    run_wait r retry e s = (s', Ok (d, retry')) →
    run_step (mkMachine s (Swept r retry) (clock_Now e)) (mkMachine s' (Asleep (Add (clock_Now e) <$> d) retry') (clock_Now e))
| R_rearm s timer retry b :
    rearm s = true → run_step (mkMachine s (Asleep timer retry) b) (mkMachine (drained s) (Sweeping retry) b)
| R_timer s t retry b :
    (t ≤ b)%Z → run_step (mkMachine s (Asleep (Some t) retry) b) (mkMachine s (Sweeping retry) b).

Inductive step : machine → machine → Prop :=
| S_run x y : run_step x y → step x y
| S_op e o s w : op_ok e s o → step (mkMachine s w (clock_Now e)) (mkMachine (exec o e s) w (clock_Now e))
| S_tick s w b b' : (b ≤ b')%Z → step (mkMachine s w b) (mkMachine s w b').

(** A server that has just started on an empty store. *)
Definition started (x : machine) : Prop := cts (st x) = ∅ ∧ ph x = Sweeping Second.

(** Nothing is awaited before the time Run knows of. *)
Definition watched (x : machine) : Prop :=
  match ph x with
  | Sweeping _ => True
  | Swept (Err _) _ => False
  | Swept (Ok next) _ => ∀ y, y ≠ zero → awaited (cts (st x)) y → next ≠ zero ∧ (next ≤ y)%Z
  | Asleep timer _ => ∀ y, y ≠ zero → awaited (cts (st x)) y →
      ∃ t, timer = Some t ∧ ((t ≤ base x)%Z ∨ (t + offset (st x) ≤ y)%Z)
  end.

Definition machine_ok (B : Z) (x : machine) : Prop :=
  Inv B (cts (st x)) ∧ (rearm (st x) = true ∨ watched x).

(** ** One step *)

Lemma started_ok x : started x → machine_ok 1 x.
Proof. intros [Hc Hp]. split; [rewrite Hc; apply Inv_empty|]. right. unfold watched. by rewrite Hp. Qed.

Lemma run_wait_cases e s r retry s' d retry' :
  run_wait r retry e s = (s', Ok (d, retry')) →
  s' = s ∧ match r with
           | Err _ => d = Some retry
           | Ok next => d = if IsZero next then None else Some (Sub next (clock e s))
           end.
Proof.
  unfold run_wait. destruct r as [next|x]; [|by intros [= -> -> _]].
  destruct (IsZero next); cbn [negb]; [by intros [= -> <- _]|]. unfold mbind, M_bind, now. by intros [= -> <- _].
Qed.

Lemma sweep_result B e s s' r :
  Inv B (cts s) → (B ≤ int_max)%Z → sane (clock e s) → Sweep e s = (s', r) →
  ∃ next, r = Ok next ∧ Inv B (cts s') ∧ rearm s' = rearm s ∧ offset s' = offset s ∧
    earliest (awaited (cts s')) next ∧ ∀ y, awaited (cts s') y → y = zero ∨ (clock e s < y)%Z.
Proof.
  intros HI HB Ht Heq. destruct (wp_Sweep_post B e s HI HB Ht) as (next & m' & Hr & H1 & HI' & Hfam & Hear).
  rewrite Heq in *. cbn [fst snd] in *. destruct H1 as (<- & Ho & Hrm). exists next. split_and!; try done.
  intros y Hy. by eapply (swept_later B _ (cts s) _ _ HI HI' Ht Hfam).
Qed.

Lemma run_step_ok B x y : machine_ok B x → (B ≤ int_max)%Z → run_step x y → machine_ok B y.
Proof.
  intros [HI HW] HB Hstep. destruct Hstep as [e s retry s' r He Ht Hsw|e s r retry s' d retry' Hw|s timer retry b Hr|s t retry b Hb].
  - destruct (sweep_result _ _ _ _ _ HI HB Ht Hsw) as (next & -> & HI' & Hr & Ho & [Hear _] & _).
    split; [done|]. right. intros y Hy Ha. cbn in *. by apply Hear.
  - destruct (run_wait_cases _ _ _ _ _ _ _ Hw) as [-> Hd]. split; [done|]. destruct HW as [HW|HW]; [by left|right].
    intros y Hy Ha. cbn in *. destruct r as [next|x]; [|done].
    destruct (HW y Hy Ha) as [Hne Hle]. destruct (IsZero next) eqn:Hz; [by unfold IsZero in Hz; bool_prop|]. subst d. cbn.
      eexists. split; [done|]. unfold Sub, clock, Add, int_min, int_max in *. lia.
  - split; [done|]. by right.
  - split; [done|]. by right.
Qed.

Lemma step_ok B x y : machine_ok B x → (1 ≤ B < int_max)%Z → step x y → machine_ok (B + 1) y.
Proof.
  intros Hok HB Hstep. destruct Hstep as [x y Hrun|e o s w Hop|s w b b' Hb].
  - destruct (run_step_ok B x y Hok) as [HI HW]; [lia|done|]. split; [|done]. apply (Inv_mono B); [lia|done].
  - destruct Hok as [HI HW]. destruct (exec_post B e s o HI HB Hop) as (HI' & _ & Hwake). split; [done|]. cbn in *.
    destruct Hwake as [Hr|(Hr & Ho & Ha)]; [by left|]. rewrite Hr. destruct HW as [HW|HW]; [by left|right].
    destruct w as [retry|[next|x] retry|timer retry]; cbn in *; [done| |done|]; intros y Hy Hy'; [by apply HW, Ha|].
    rewrite Ho. by apply HW, Ha.
  - destruct Hok as [HI HW]. split; [apply (Inv_mono B); [lia|done]|]. destruct HW as [HW|HW]; [by left|right].
    destruct w as [retry|[next|x] retry|timer retry]; cbn in *; [done|done|done|]. intros y Hy Hy'.
    destruct (HW y Hy Hy') as (t & -> & Ht). exists t. split; [done|]. lia.
Qed.

Lemma steps_ok n x y : machine_ok 1 x → (1 + Z.of_nat n ≤ int_max)%Z → nsteps step n x y → machine_ok (1 + Z.of_nat n) y.
Proof.
  intros Hx. revert y. induction n as [|n IH]; intros y Hn Hs; [by inversion Hs; subst|].
  apply nsteps_inv_r in Hs as (z & Hxz & Hzy).
  replace (1 + Z.of_nat (Datatypes.S n))%Z with (1 + Z.of_nat n + 1)%Z by lia. eapply step_ok; [apply IH; [lia|done]|lia|done].
Qed.

Lemma started_steps n x0 x :
  started x0 → nsteps step n x0 x → (1 + Z.of_nat n ≤ int_max)%Z → machine_ok (1 + Z.of_nat n) x.
Proof. intros H0 Hs Hn. eapply steps_ok; [by apply started_ok|done|done]. Qed.

(** ** What the store holds *)

(** C35: over a store none of whose writes fails, started empty, with clocks in the
    years JSON can write and fewer than 2^63 steps, whatever operations, sweeps and delays have happened, every stored document lies under
    its own key; a secret whose next number is [k] has exactly the
    versions 1 to [k-1], each under its own number and name, so a number is never
    given twice; a destroyed version holds no payload; and the secret's index of
    scheduled destructions is exactly what its versions say. *)
Theorem documents_typed n x0 x :
  started x0 → nsteps step n x0 x → (1 + Z.of_nat n ≤ int_max)%Z →
  map_Forall fits (cts (st x)) ∧
  ∀ p id sec, secret_at (cts (st x)) p id = Some sec →
    s_Name sec = SecretName p id ∧
    (∀ k, (0 ≤ k)%Z → is_Some (version_at (cts (st x)) p id k) ↔ (1 ≤ k < s_NextVersion sec)%Z) ∧
    (∀ k v, (0 ≤ k)%Z → version_at (cts (st x)) p id k = Some v →
       v_Number v = k ∧ v_Name v = VersionName p id k ∧ (v_State v = StateDestroyed → v_Payload v = "") ∧
       s_ScheduledDestroys sec !! Itoa k = scheduled v).
Proof.
  intros H0 Hs Hn. destruct (started_steps _ _ _ H0 Hs Hn) as [HI _]. split; [apply (inv_fits _ _ HI)|].
  intros p id sec Hsec. split; [apply (fo_Name _ _ _ _ _ (secret_family _ _ _ _ _ HI Hsec))|].
  split; [intros k Hk; by eapply version_range|]. intros k v Hk Hv.
  pose proof (version_is_ok _ _ _ _ _ _ _ HI Hsec Hk Hv) as Hok.
  split_and!; [apply Hok|apply Hok|intros Hd; by apply (vo_destroyed _ _ _ _ Hok)|by eapply version_index].
Qed.

(** C33: over a store none of whose writes fails, with clocks in the years JSON can
    write and fewer than 2^63 steps, in every state reached from an empty one, no operation touches a version in any other way than its life
    allows: of a secret that has not expired, each version keeps its name, number, time of
    creation, payload and wrapped keys until it is destroyed, a destroyed version
    never changes again, and a version goes away only with its whole secret,
    when the operation deletes that secret or it has expired. *)
Theorem version_lifecycle n x0 x e o p id sec k v :
  started x0 → nsteps step n x0 x → (1 + Z.of_nat n < int_max)%Z → op_ok e (st x) o →
  live (clock e (st x)) (cts (st x)) p id = Some sec → (0 ≤ k)%Z → version_at (cts (st x)) p id k = Some v →
  (∃ v', version_at (cts (exec o e (st x))) p id k = Some v' ∧ evolves v v') ∨
  (secret_at (cts (exec o e (st x))) p id = None ∧ (deletes o p id ∨ Expired sec (clock e (exec o e (st x))) = true)).
Proof.
  intros H0 Hs Hn Hop Hl Hk Hv. destruct (started_steps _ _ _ H0 Hs ltac:(lia)) as [HI _].
  destruct (exec_post _ _ _ _ HI ltac:(lia) Hop) as (_ & Hkeep & _). by eapply Hkeep.
Qed.

(** ** Nothing due is slept through *)

(** Surroundings at a reading of the base clock. *)
Definition env_at (b : Time) : Env := mkEnv b None None None None "" (λ l, l).

Lemma sweep_next B s retry b :
  Inv B (cts s) → (B ≤ int_max)%Z → sane (b + offset s)%Z →
  ∃ s' r, run_step (mkMachine s (Sweeping retry) b) (mkMachine s' (Swept r retry) b) ∧
    ∀ y, awaited (cts s') y → y = zero ∨ (b + offset s < y)%Z.
Proof.
  intros HI HB Ht. destruct (Sweep (env_at b) s) as [s' r] eqn:Hsw. exists s', r. split.
  - apply (R_sweep (env_at b)); [by intros l|exact Ht|done].
  - by destruct (sweep_result B (env_at b) _ _ _ HI HB Ht Hsw) as (next & _ & _ & _ & _ & _ & Hl).
Qed.

(** From its select Run either has nothing to do or gets to it in two moves. *)
Lemma asleep_next B s timer retry b :
  machine_ok B (mkMachine s (Asleep timer retry) b) → (B ≤ int_max)%Z → sane (b + offset s)%Z →
  ∃ k y, (k ≤ 2)%nat ∧ nsteps run_step k (mkMachine s (Asleep timer retry) b) y ∧
    ∀ t, awaited (cts (st y)) t → t = zero ∨ (b + offset s < t)%Z.
Proof.
  intros [HI HW] HB Ht. cbn in HI, HW. assert (∀ s1, Inv B (cts s1) → offset s1 = offset s →
    run_step (mkMachine s (Asleep timer retry) b) (mkMachine s1 (Sweeping retry) b) →
    ∃ k y, (k ≤ 2)%nat ∧ nsteps run_step k (mkMachine s (Asleep timer retry) b) y ∧
      ∀ t, awaited (cts (st y)) t → t = zero ∨ (b + offset s < t)%Z) as Hgo.
  { intros s1 HI1 Ho Hstep. rewrite <- Ho in *. destruct (sweep_next B s1 retry b HI1 HB Ht) as (s2 & r & Hsw & Hl).
    exists 2, (mkMachine s2 (Swept r retry) b). split; [done|]. split; [|done]. by econstructor; [|econstructor; [|constructor]]. }
  destruct (rearm s) eqn:Hr; [by apply (Hgo (drained s)); [| |apply R_rearm]|]. destruct HW as [HW|HW]; [done|].
  destruct timer as [t|]; cbn in HW.
  - destruct (decide (t ≤ b)%Z) as [Hb|Hb]; [by apply (Hgo s); [| |apply R_timer]|].
    exists 0, (mkMachine s (Asleep (Some t) retry) b). split; [lia|]. split; [constructor|]. intros y Hy. cbn in Hy.
    destruct (decide (y = zero)) as [|Hne]; [by left|right]. destruct (HW y Hne Hy) as (t' & [= <-] & H). lia.
  - exists 0, (mkMachine s (Asleep None retry) b). split; [lia|]. split; [constructor|]. intros y Hy. cbn in Hy.
    destruct (decide (y = zero)) as [|Hne]; [by left|]. by destruct (HW y Hne Hy) as (t' & ? & _).
Qed.

(** C11: nothing due is slept through.  Over a store none of whose writes fails
    (where one fails, a destruction may be left out of the secret's index and never
    run: [failed_schedule_never_runs]), in every state reached from an empty store
    with clocks in the years JSON can write and fewer than 2^63 steps, Run's own moves, at
    most three of them and without any further operation or delay, lead to a
    state in which nothing awaited is due: every expiry, rotation and scheduled
    destruction whose time has come has run.  In particular Run never waits in
    its select, with no wake-up pending, past a time something is due. *)
Theorem nothing_due_slept_through n x0 x :
  started x0 → nsteps step n x0 x → (1 + Z.of_nat n ≤ int_max)%Z → sane (base x + offset (st x))%Z →
  ∃ k y, (k ≤ 3)%nat ∧ nsteps run_step k x y ∧
    ∀ t, awaited (cts (st y)) t → t = zero ∨ (base x + offset (st x) < t)%Z.
Proof.
  intros H0 Hs Hn Ht. pose proof (started_steps _ _ _ H0 Hs Hn) as Hok. clear Hs H0.
  destruct x as [s w b]. cbn in Ht. destruct w as [retry|r retry|timer retry].
  - destruct (sweep_next _ s retry b (proj1 Hok) Hn Ht) as (s2 & r & Hsw & Hl).
    exists 1, (mkMachine s2 (Swept r retry) b). split; [lia|]. split; [|done]. by econstructor; [|constructor].
  - destruct (run_wait r retry (env_at b) s) as [s' res] eqn:Hw.
    assert (∃ d retry', res = Ok (d, retry')) as (d & retry' & ->).
    { revert Hw. unfold run_wait. destruct r as [next|x]; [destruct (negb (IsZero next))|]; unfold mbind, M_bind, now, mret, M_ret;
        intros [= <- <-]; by do 2 eexists. }
    pose proof (R_wait (env_at b) _ _ _ _ _ _ Hw) as Hstep. destruct (run_wait_cases _ _ _ _ _ _ _ Hw) as [-> _].
    destruct (asleep_next _ _ _ _ _ (run_step_ok _ _ _ Hok Hn Hstep) Hn Ht) as (k & y & Hk & Hks & Hl).
    exists (Datatypes.S k), y. split; [lia|]. split; [|done]. by econstructor.
  - destruct (asleep_next _ _ _ _ _ Hok Hn Ht) as (k & y & Hk & Hks & Hl). exists k, y. split; [lia|done].
Qed.

End run.
