(* ===== verification/SecretsAccess.v ===== *)
(** * Reading back what was added

    A payload is encrypted under a data key, which Cloud KMS wraps with each
    replica's key (cmek.go), and comes back from [AccessVersion] as long as the
    version is enabled. *)

From S2P Require Import Prelude GoLib ApiError Resource MetaStore IamPolicy Handler GoCrypto SecretsModel SecretsNames SecretsStore SecretsInv SecretsOps SecretsEffects SecretsSweep SecretsSpec SecretsRun.
From Stdlib Require Import Ascii.

Import strings strconv time.

(** The documented contract of Cloud KMS, for a secret's keys: what [Encrypt]
    returned under a key is decrypted with that key and the same additional data.
    The two services are the same instance at two times. *)
Definition opens (keys : list string) (kms kms' : KeyService) : Prop :=
  ∀ key pt aad ver ct, key ∈ keys → Encrypt kms key pt aad = Ok (ver, ct) → Decrypt kms' key ct aad = Ok pt.

(** How many keys a secret's replication takes. *)
Definition replica_count (sec : Secret) : nat :=
  if bool_decide (s_Replication sec = "user-managed") then length (s_ReplicaLocations sec) else 1.

Definition keyed (rs : list ReplicaStatus) : bool := existsb (λ r, negb (bool_decide (r_KMSKey r = ""))) rs.

(** Every replica's key gives the one data key back. *)
Lemma unwrap_wrapped kms kms' dek aad keys rs rs' d :
  opens keys kms kms' → Forall (λ r, r_KMSKey r = "") rs → wrap_replicas kms dek aad keys rs = Ok rs' →
  unwrap_replicas kms' aad rs' d = Ok (if keyed rs' then dek else d) ∧ keyed rs' = hasKeys (take (length rs) keys).
Proof.
  revert keys rs' d. induction rs as [|r rs IH]; intros keys rs' d Hkms Hrs Hw; cbn in Hw.
  { injection Hw as <-. by destruct keys. }
  apply Forall_cons in Hrs as [Hr Hrs]. apply res_bind_ok in Hw as (r' & Hr' & Hw). apply res_bind_ok in Hw as (rest & Hrest & [= <-]).
  assert (opens (tail keys) kms kms') as Htail by (intros ? ? ? ? ? Hin; apply Hkms; destruct keys; set_solver).
  cbn [unwrap_replicas keyed existsb length]. destruct keys as [|k keys]; cbn [head tail default from_option Datatypes.id take hasKeys existsb] in *.
  - rewrite bool_decide_true in Hr' by done. injection Hr' as <-. cbn. rewrite Hr, bool_decide_true by done. cbn.
    destruct (IH [] rest d Htail Hrs Hrest) as [-> Hk]. rewrite take_nil in Hk. split; [done|exact Hk].
  - destruct (bool_decide (k = "")) eqn:Hke; cbn.
    + injection Hr' as <-. cbn. rewrite Hr, bool_decide_true by done. cbn. by apply IH.
    + destruct (Encrypt kms k dek aad) as [[ver ct]|] eqn:He; [|done]. injection Hr' as <-. cbn. rewrite Hke. cbn.
      rewrite (Hkms k _ _ _ _ ltac:(set_solver) He). destruct (IH keys rest dek Htail Hrs Hrest) as [-> _]. by destruct (keyed rest).
Qed.

Section access.
Context {S : Type} `{RS : ReliableStore S doc} `{CL : CryptoLaws}.
Implicit Types (s : Store S) (e : Env) (m : gmap string doc).

Abbreviation cts s := (contents (db s)).

Lemma openPayload_sealed dek nonce payload aad sealed :
  len nonce = NonceSize → sealPayload dek (Some nonce) payload aad = Ok sealed → openPayload dek sealed aad = Ok payload.
Proof.
  intros Hn. unfold sealPayload, openPayload. destruct (negb (len dek =? 32)%nat); [done|]. intros [= <-].
  rewrite len_app, (proj2 (Nat.ltb_ge _ _)) by lia. rewrite <- Hn, take_len_app.
  rewrite <- (Nat.add_0_r (len nonce)), drop_len_app. cbn [drop_bytes]. by rewrite gcm_Open_Seal.
Qed.

(** What is sealed under a secret's keys is opened again, at any later time Cloud
    KMS still has them. *)
Lemma openVersion_sealed e s e' s' sec v payload v' :
  (∀ nonce, rand_nonce e = Some nonce → len nonce = NonceSize) → length (s_KMSKeys sec) ≤ replica_count sec →
  (∀ kms, keyService e = Some kms → ∃ kms', keyService e' = Some kms' ∧ opens (s_KMSKeys sec) kms kms') →
  (sealVersion sec v payload e s).2 = Ok v' →
  ∀ w, v_Name w = v_Name v → v_Payload w = v_Payload v' → v_Replicas w = v_Replicas v' →
  openVersion w e' s' = (s', Ok (set_Payload w payload (v_PayloadSize w))).
Proof.
  intros Hnonce Hlen Hkms Hseal w Hname Hpay Hrep. unfold sealVersion in Hseal. unfold openVersion, encrypted. rewrite Hrep, Hname, Hpay.
  set (rs := (λ l, mkReplicaStatus l "" "" "") <$> _) in Hseal.
  assert (Forall (λ r, r_KMSKey r = "") rs) as Hrs by (apply Forall_fmap, Forall_true; done).
  assert (length rs = replica_count sec) as Hrl.
  { unfold rs, replica_count. rewrite length_fmap. by destruct (bool_decide _). }
  destruct (hasKeys (s_KMSKeys sec)) eqn:Hk; cbn [negb] in Hseal.
  - unfold mbind, M_bind, ask, lift, throw in Hseal. destruct (keyService e) as [kms|] eqn:Hks; [|done].
    destruct (rand_dek e) as [dek|]; [|done].
    destruct (sealPayload dek (rand_nonce e) payload (v_Name v)) as [sealed|] eqn:Hs; [|done].
    destruct (wrap_replicas kms dek (v_Name v) (s_KMSKeys sec) rs) as [rs'|] eqn:Hw; [|done]. injection Hseal as <-. cbn.
    destruct (Hkms kms eq_refl) as (kms' & Hks' & Hopen).
    destruct (unwrap_wrapped kms kms' dek _ _ _ _ "" Hopen Hrs Hw) as [Hu Hkeyed]. rewrite take_ge, Hk in Hkeyed by lia.
    unfold keyed in Hkeyed, Hu. rewrite Hkeyed in Hu |- *. cbn. unfold mbind, M_bind, ask, lift. rewrite Hks', Hu.
    destruct (rand_nonce e) as [nonce|] eqn:Hno; [|by revert Hs; unfold sealPayload; destruct (negb (len dek =? 32)%nat)].
    by rewrite (openPayload_sealed dek nonce payload _ sealed (Hnonce _ eq_refl) Hs).
  - injection Hseal as <-. cbn. assert (existsb (λ r, negb (bool_decide (r_KMSKey r = ""))) rs = false) as ->.
    { clear -Hrs. induction Hrs as [|r l Hr _ IH]; [done|]. cbn. by rewrite Hr, IH. }
    cbn in *. unfold mret, M_ret. do 2 f_equal. destruct w. cbn in *. by subst.
Qed.

Lemma resolve_Itoa n next : (1 ≤ n ≤ int_max)%Z → resolve (Itoa n) next = Ok n.
Proof.
  intros Hn. unfold resolve. assert (in_int n = true) as Hin by (unfold in_int, int_min; apply andb_true_iff; split; lia).
  rewrite bool_decide_false, (Atoi_Itoa n Hin), (proj2 (Z.ltb_ge n 1)); [done|lia|].
  intros Heq. pose proof (Atoi_Itoa n Hin) as Hat. by rewrite Heq in Hat.
Qed.

(** An enabled version is opened as its document says. *)
Lemma AccessVersion_enabled B e s p id version v v' :
  Inv B (cts s) → env_ok e →
  (∃ sec, live (clock e s) (cts s) p id = Some sec ∧ version_named (cts s) p id sec version = Ok v) →
  v_State v = StateEnabled → (∀ s', openVersion v e s' = (s', Ok v')) →
  ∃ s', AccessVersion p id version e s = (s', Ok v') ∧ cts s' = cts s.
Proof.
  intros HI He (sec & Hl & Hv) Hst Hopen.
  assert (wp e s (AccessVersion p id version) (λ r s', r = Ok v' ∧ cts s' = cts s)) as [Hr Hc].
  { unfold AccessVersion. apply wp_bind, (wp_GetVersion B); [done..|]. intros s1 H1. rewrite Hl, Hv. unfold Accessible.
    rewrite (bool_decide_true _ Hst). cbn [negb]. unfold wp. rewrite Hopen. split; [done|].
    cbn. by rewrite (near_cts _ _ _ H1), (settle_live _ _ _ _ _ Hl). }
  exists (AccessVersion p id version e s).1. split; [|done]. rewrite <- Hr. by destruct (AccessVersion p id version e s).
Qed.

(** ** Over time *)

Lemma evolves_trans v1 v2 v3 : evolves v1 v2 → evolves v2 v3 → evolves v1 v3.
Proof.
  intros (Hn & Hk & Hc & Hv) (Hn' & Hk' & Hc' & Hv'). unfold evolves. split_and!; [congruence..|].
  destruct (v_State v1) eqn:H1; [..|subst v2; by rewrite H1 in Hv'];
    (destruct Hv as [(Hp & Hr & Hs)|(Hd & Hp & Hx)]; [|by rewrite Hd in Hv'; subst v3; right]);
    destruct (v_State v2) eqn:H2; try done; rewrite <- Hp, <- Hr; destruct Hv' as [Hv'|Hv']; by (left + right).
Qed.

(** The secret is there and has not expired, by the clock of this moment. *)
Definition alive (p id : string) (x : machine) : Prop :=
  is_Some (live (base x + offset (st x))%Z (cts (st x)) p id).

(** A step that leaves the secret there. *)
Definition keeping (p id : string) : relation machine := λ x y, step x y ∧ alive p id y.

Lemma keeping_version B p id k v x y :
  Inv B (cts (st x)) → (1 ≤ B < int_max)%Z → alive p id x → keeping p id x y → (0 ≤ k)%Z →
  version_at (cts (st x)) p id k = Some v → ∃ v', version_at (cts (st y)) p id k = Some v' ∧ evolves v v'.
Proof.
  intros HI HB [sec Hl] [Hstep [sec' [Hs' _]%live_Some]] Hk Hv.
  destruct Hstep as [x y Hrun|e o s w Hop|s w b b' Hb]; cbn in *.
  - destruct Hrun as [e s retry s' r He Ht Hsw|e s r retry s' d retry' Hw|s timer retry b Hr|s t retry b Hb]; cbn in *.
    + destruct (wp_Sweep_post B e s HI ltac:(lia) Ht) as (next & m' & _ & Hnear & _ & Hfam & _).
      rewrite Hsw in Hnear. apply near_cts in Hnear. cbn in Hnear. rewrite Hnear in *.
      destruct (keeps_swept B _ _ _ _ _ _ _ HI Hl Hk Hv _ _ Hfam) as [?|[? _]]; [done|congruence].
    + destruct (run_wait_cases _ _ _ _ _ _ _ Hw) as [-> _]. exists v. split; [done|apply evolves_id].
    + exists v. split; [done|apply evolves_id].
    + exists v. split; [done|apply evolves_id].
  - destruct (exec_post B e s o HI HB Hop) as (_ & Hkeep & _).
    destruct (Hkeep p id sec k v Hl Hk Hv) as [?|[? _]]; [done|congruence].
  - exists v. split; [done|apply evolves_id].
Qed.

Lemma kept_version n B p id k v x y :
  machine_ok B x → (1 ≤ B)%Z → (B + Z.of_nat n ≤ int_max)%Z → alive p id x → nsteps (keeping p id) n x y → (0 ≤ k)%Z →
  version_at (cts (st x)) p id k = Some v →
  Inv (B + Z.of_nat n) (cts (st y)) ∧ ∃ w, version_at (cts (st y)) p id k = Some w ∧ evolves v w.
Proof.
  intros Hok HB1 HB Ha Hs Hk Hv. revert B v Hok HB1 HB Hv. induction Hs as [x|n x z y Hxz Hzy IH]; intros B v Hok HB1 HB Hv.
  - rewrite Z.add_0_r. split; [apply Hok|]. exists v. split; [done|apply evolves_id].
  - destruct (keeping_version B p id k v x z (proj1 Hok) ltac:(lia) Ha Hxz Hk Hv) as (v1 & Hv1 & He1).
    destruct Hxz as [Hstep Haz]. pose proof (step_ok B x z Hok ltac:(lia) Hstep) as Hz.
    destruct (IH Haz (B + 1)%Z v1 Hz ltac:(lia) ltac:(lia) Hv1) as (HI & w & Hw & Hev).
    split; [by replace (B + Z.of_nat (Datatypes.S n))%Z with (B + 1 + Z.of_nat n)%Z by lia|].
    exists w. split; [done|by eapply evolves_trans].
Qed.

Lemma nsteps_inv_alive n p id x y : nsteps (keeping p id) n x y → x = y ∨ alive p id y.
Proof.
  destruct n as [|n]; intros Hs; [left; by inversion Hs|right].
  apply nsteps_inv_r in Hs as (z & _ & Hzy). apply Hzy.
Qed.

(** What a successful add has done. *)
Lemma addVersion_stores B e s p id payload chk s' v :
  Inv B (cts s) → (B < int_max)%Z → json_ok (clock e s) = true → addVersion p id payload chk e s = (s', Ok v) →
  ∃ sec s0 v0, live (clock e s) (cts s) p id = Some sec ∧ v_Number v = s_NextVersion sec ∧ v_State v = StateEnabled ∧
    v_Name v = v_Name v0 ∧ (sealVersion sec v0 payload e s0).2 = Ok v ∧
    version_at (cts s') p id (v_Number v) = Some v ∧ is_Some (live (clock e s') (cts s') p id).
Proof.
  intros HI HB Ht Hadd.
  assert (wp e s (addVersion p id payload chk) (λ r s', ∀ v, r = Ok v → ∃ sec s0 v0,
    live (clock e s) (cts s) p id = Some sec ∧ v_Number v = s_NextVersion sec ∧ v_State v = StateEnabled ∧
    v_Name v = v_Name v0 ∧ (sealVersion sec v0 payload e s0).2 = Ok v ∧
    version_at (cts s') p id (v_Number v) = Some v ∧ is_Some (live (clock e s') (cts s') p id))) as Hwp.
  { apply (wp_addVersion B); [done..| | | |]; try done. intros s0 s1 sec v0 v1 _ _ Hl -> _ Hseal Hnear ? [= <-].
    exists sec, s0. eexists. split; [done|]. destruct (sealVersion_ok _ _ _ _ _ _ Hseal) as (pl & size & rs & ->).
    split; [done|]. split; [done|]. split; [|split; [exact Hseal|]]; [done|].
    pose proof Hl as [Hs Hx]%live_Some. destruct (stored_secret _ _ _ _ _ HI Hs) as (Hseg & _ & _).
    pose proof (fo_Next _ _ _ _ _ (secret_family _ _ _ _ _ HI Hs)) as Hn.
    rewrite (near_clock e _ _ _ Hnear), (near_cts _ _ _ Hnear). unfold added. cbn [v_Number set_Payload]. split.
    - rewrite version_at_put_secret by done. change (v_Number _) with (s_NextVersion sec).
      rewrite version_at_put by (done || lia). by rewrite decide_True.
    - unfold live. rewrite secret_at_put by done. rewrite decide_True by done. cbn. unfold Expired in *. cbn. rewrite Hx. by eexists. }
  unfold wp in Hwp. rewrite Hadd in Hwp. by apply Hwp.
Qed.

(** C34: what AddSecretVersion stored, AccessSecretVersion gives back.  The store
    is one none of whose writes fails, started empty and run by any operations,
    sweeps and delays, with clocks in the years JSON can write and fewer than 2^63
    steps; an add succeeds in it, to a secret that has at most as many
    customer-managed keys as replicas; and any operations, sweeps and delays
    follow, through which the secret is never gone or expired.  Then the version
    the add returned is still stored under its number, and while it is enabled
    AccessSecretVersion of that number answers the payload that was added and
    changes nothing.  Under customer-managed keys too, where the payload is kept
    encrypted: all that is asked of Cloud KMS is that at the time of the access it
    decrypts what it encrypted under the secret's keys at the time of the add, and
    of the random source that a nonce has the length of one. *)
Theorem added_payload_is_accessed n n' x0 x e p id payload chk s' v y e' :
  started x0 → nsteps step n x0 x → clock_Now e = base x → op_ok e (st x) (OAdd p id payload chk) →
  (∀ nonce, rand_nonce e = Some nonce → len nonce = NonceSize) →
  (∀ sec, secret_at (cts (st x)) p id = Some sec → length (s_KMSKeys sec) ≤ replica_count sec) →
  addVersion p id payload chk e (st x) = (s', Ok v) →
  nsteps (keeping p id) n' (mkMachine s' (ph x) (base x)) y → (2 + Z.of_nat n + Z.of_nat n' ≤ int_max)%Z →
  clock_Now e' = base y → env_ok e' →
  (∀ sec kms, secret_at (cts (st x)) p id = Some sec → keyService e = Some kms →
    ∃ kms', keyService e' = Some kms' ∧ opens (s_KMSKeys sec) kms kms') →
  ∃ w, version_at (cts (st y)) p id (v_Number v) = Some w ∧ evolves v w ∧
    (v_State w = StateEnabled →
     ∃ s3 w', AccessVersion p id (Itoa (v_Number v)) e' (st y) = (s3, Ok w') ∧ v_Payload w' = payload ∧ cts s3 = cts (st y)).
Proof.
  intros H0 Hx Hb Hop Hnonce Hlen Hadd Hy HB Hb' He' Hkms.
  pose proof (started_steps _ _ _ H0 Hx ltac:(lia)) as Hok.
  destruct (addVersion_stores _ _ _ _ _ _ _ _ _ (proj1 Hok) ltac:(lia) (proj1 (proj2 (proj1 (proj2 Hop)))) Hadd)
    as (sec & s0 & v0 & Hl & Hnum & Hst & Hname & Hseal & Hv & Hlive).
  pose proof Hl as [Hs _]%live_Some. pose proof (fo_Next _ _ _ _ _ (secret_family _ _ _ _ _ (proj1 Hok) Hs)) as Hn.
  assert (step x (mkMachine s' (ph x) (base x))) as Hstep.
  { destruct x as [s w b]. cbn in *. subst b. replace s' with (exec (OAdd p id payload chk) e s) by (cbn; by rewrite Hadd). by constructor. }
  pose proof (step_ok _ _ _ Hok ltac:(lia) Hstep) as Hok'.
  assert (alive p id (mkMachine s' (ph x) (base x))) as Ha by (unfold alive; cbn; by rewrite <- Hb).
  destruct (kept_version n' (1 + Z.of_nat n + 1)%Z p id (v_Number v) v _ y Hok' ltac:(lia) ltac:(lia) Ha Hy ltac:(lia) Hv) as (HI & w & Hw & Hev).
  exists w. split; [done|]. split; [done|]. intros Hen.
  assert (alive p id y) as [sec2 Hl2] by (destruct (nsteps_inv_alive _ _ _ _ _ Hy) as [<-|?]; done).
  destruct Hev as (Hn1 & _ & _ & Hev). rewrite Hst in Hev. destruct Hev as [(Hp & Hr & _)|(Hd & _)]; [|congruence].
  pose proof (λ z, openVersion_sealed e s0 e' z _ _ _ _ Hnonce (Hlen _ Hs) (λ kms, Hkms _ kms Hs) Hseal w (eq_trans Hn1 Hname) Hp Hr) as Hopen.
  assert (version_named (cts (st y)) p id sec2 (Itoa (v_Number v)) = Ok w) as Hnamed.
  { unfold version_named. rewrite resolve_Itoa by lia. cbn. by rewrite Hw. }
  assert (live (clock e' (st y)) (cts (st y)) p id = Some sec2) as Hl3 by (unfold clock, Add; by rewrite Hb').
  destruct (AccessVersion_enabled _ e' (st y) p id _ w _ HI He' (ex_intro _ sec2 (conj Hl3 Hnamed)) Hen Hopen) as (s3 & Hacc & Hc).
  exists s3. eexists. split; [exact Hacc|]. split; done.
Qed.

End access.
