(* ===== verification/SecretsRefine.v ===== *)
(** * Secret Manager's abstract specification

    A secret is an expiry, a delay of destruction and the list of its versions,
    oldest first; the specification is a finite map of secrets.  The store, with
    its documents, indexes, expiries found late and sweeps, implements it: every
    answer of every sequence of calls and sweeps is one the specification allows.
    The instance has no Cloud KMS, so payloads are stored as they are. *)

From S2P Require Import Prelude GoLib ApiError Resource MetaStore IamPolicy Handler GoCrypto SecretsModel SecretsNames SecretsStore SecretsInv SecretsOps SecretsEffects SecretsSweep SecretsSpec.
From Stdlib Require Import Ascii.

Import strings strconv time.

(** ** The specification *)

Record aversion := mkAVersion { a_state : VersionState; a_payload : string; a_destroy : Time }.
Record asecret := mkASecret { a_expire : Time; a_ttl : Duration; a_versions : list aversion }.
Abbreviation amap := (gmap (string * string) asecret).

(** Answers: a secret by its schedule and how many versions it has had, a version
    by its number and what it holds. *)
Inductive answer :=
| ADone
| ATime (t : Time)
| ASecret (expire : Time) (ttl : Duration) (count : Z)
| AVersion (n : Z) (v : aversion)
| AVersions (l : list (Z * aversion))
| AIds (l : list string).

Definition a_destroyed : aversion := mkAVersion StateDestroyed "" zero.

(** Time passes: what has expired is gone. *)
Definition a_expired (t : Time) (sec : asecret) : bool := negb (IsZero (a_expire sec)) && negb (Before t (a_expire sec)).
Definition elapse (t : Time) (a : amap) : amap := filter (λ kv, a_expired t kv.2 = false) a.

(** A sweep: the destructions that are due. *)
Definition a_sweep (t : Time) (a : amap) : amap :=
  (λ sec, mkASecret (a_expire sec) (a_ttl sec)
    ((λ v, if negb (IsZero (a_destroy v)) && negb (Before t (a_destroy v)) then a_destroyed else v) <$> a_versions sec))
  <$> elapse t a.

Definition set_version (sec : asecret) (n : Z) (v : aversion) : asecret :=
  mkASecret (a_expire sec) (a_ttl sec) (<[Z.to_nat (n - 1) := v]> (a_versions sec)).

Definition numbered (sec : asecret) : list (Z * aversion) := imap (λ i v, (Z.of_nat i + 1, v)%Z) (a_versions sec).

(** The version a request names. *)
Definition a_named (a : amap) (p id version : string) : res error (asecret * Z * aversion) :=
  match a !! (p, id) with
  | None => Err NotFound
  | Some sec =>
      n ← resolve version (Z.of_nat (length (a_versions sec)) + 1);
      match a_versions sec !! Z.to_nat (n - 1) with Some v => Ok (sec, n, v) | None => Err NotFound end
  end.

(** The calls whose answer is determined. *)
Definition spec (t : Time) (a : amap) (o : op) : option (res error answer * amap) :=
  match o with
  | OGet p id =>
      Some (match a !! (p, id) with
            | Some sec => Ok (ASecret (a_expire sec) (a_ttl sec) (Z.of_nat (length (a_versions sec))))
            | None => Err NotFound
            end, a)
  | ODelete p id => Some (if a !! (p, id) then (Ok ADone, delete (p, id) a) else (Err NotFound, a))
  | OAdd p id payload _ =>
      Some (if bool_decide (payload = "") || (MaxPayloadBytes <? Z.of_nat (len payload))%Z then (Err InvalidArgument, a)
            else match a !! (p, id) with
                 | None => (Err NotFound, a)
                 | Some sec =>
                     let v := mkAVersion StateEnabled payload zero in
                     (Ok (AVersion (Z.of_nat (length (a_versions sec)) + 1) v),
                      <[(p, id) := mkASecret (a_expire sec) (a_ttl sec) (a_versions sec ++ [v])]> a)
                 end)
  | OGetVersion p id version =>
      Some (match a_named a p id version with Ok (_, n, v) => Ok (AVersion n v) | Err x => Err x end, a)
  | OAccess p id version =>
      Some (match a_named a p id version with
            | Ok (_, n, v) => if bool_decide (a_state v = StateEnabled) then Ok (AVersion n v) else Err FailedPrecondition
            | Err x => Err x
            end, a)
  | OListVersions p id =>
      Some (match a !! (p, id) with Some sec => Ok (AVersions (reverse (numbered sec))) | None => Err NotFound end, a)
  | OSetState p id version state =>
      Some (if bool_decide (state = StateDestroyed) then (Err InvalidArgument, a)
            else match a_named a p id version with
                 | Err x => (Err x, a)
                 | Ok (sec, n, v) =>
                     if bool_decide (a_state v = StateDestroyed) then (Err FailedPrecondition, a)
                     else let v' := mkAVersion state (a_payload v) zero in
                          (Ok (AVersion n v'), <[(p, id) := set_version sec n v']> a)
                 end)
  | ODestroy p id version =>
      Some (match a_named a p id version with
            | Err x => (Err x, a)
            | Ok (sec, n, v) =>
                if bool_decide (a_state v = StateDestroyed) || negb (IsZero (a_destroy v)) then (Err FailedPrecondition, a)
                else if (0 <? a_ttl sec)%Z then
                  if json_ok (Add t (a_ttl sec)) then
                    let v' := mkAVersion StateDisabled (a_payload v) (Add t (a_ttl sec)) in
                    (Ok (AVersion n v'), <[(p, id) := set_version sec n v']> a)
                  else (Err (Internal ErrEncode), a)
                else (Ok (AVersion n a_destroyed), <[(p, id) := set_version sec n a_destroyed]> a)
            end)
  | OAdvance d =>
      Some (if (d <? 0)%Z then (Err InvalidArgument, a) else (Ok (ATime (Add t d)), a_sweep (Add t d) a))
  | OReset => Some (Ok ADone, ∅)
  | OCreate _ _ _ _ _ _ _ _ _ _ | OUpdate _ _ _ | OSetIam _ _ _ | OSetKeys _ _ _ | OList _ => None
  end.

(** A call or a sweep of Run. *)
Inductive item := Call (o : op) | Turn.

(** One item at time [t].  The calls that take a whole configuration may be refused,
    and then nothing changes. *)
Inductive spec_step (t : Time) (a : amap) : item → res error answer → amap → Prop :=
| Sp_exact o r a' : spec t a o = Some (r, a') → spec_step t a (Call o) r a'
| Sp_create p id ls ans expire topics sch keys repl locs :
    a !! (p, id) = None → IsZero expire = true ∨ (t < expire)%Z →
    spec_step t a (Call (OCreate p id ls ans expire topics sch keys repl locs)) (Ok (ASecret expire (VersionDestroyTTL sch) 0))
      (<[(p, id) := mkASecret expire (VersionDestroyTTL sch) []]> a)
| Sp_create_no p id ls ans expire topics sch keys repl locs x :
    spec_step t a (Call (OCreate p id ls ans expire topics sch keys repl locs)) (Err x) a
| Sp_update p id u sec expire ttl :
    a !! (p, id) = Some sec → expire = (if UpdateExpire u then u_Expire u else a_expire sec) →
    ttl = (if UpdateVersionDestroyTTL u then VersionDestroyTTL (u_Schedule u) else a_ttl sec) →
    IsZero expire = true ∨ (t < expire)%Z →
    spec_step t a (Call (OUpdate p id u)) (Ok (ASecret expire ttl (Z.of_nat (length (a_versions sec)))))
      (<[(p, id) := mkASecret expire ttl (a_versions sec)]> a)
| Sp_update_no p id u x : spec_step t a (Call (OUpdate p id u)) (Err x) a
| Sp_iam p id req : is_Some (a !! (p, id)) → spec_step t a (Call (OSetIam p id req)) (Ok ADone) a
| Sp_iam_no p id req x : spec_step t a (Call (OSetIam p id req)) (Err x) a
| Sp_keys p id keys : is_Some (a !! (p, id)) → hasKeys keys = false → spec_step t a (Call (OSetKeys p id keys)) (Ok ADone) a
| Sp_keys_no p id keys x : spec_step t a (Call (OSetKeys p id keys)) (Err x) a
| Sp_list p ids : NoDup ids → (∀ id, id ∈ ids ↔ is_Some (a !! (p, id))) → spec_step t a (Call (OList p)) (Ok (AIds ids)) a
| Sp_list_no : spec_step t a (Call (OList "")) (Err InvalidArgument) a
| Sp_turn : spec_step t a Turn (Ok ADone) (a_sweep t a).

(** The time once an item is done. *)
Definition time_after (t : Time) (i : item) : Time :=
  match i with Call (OAdvance d) => if (d <? 0)%Z then t else Add t d | _ => t end.

(** A history of items, their times and answers, from time [t] and state [a]. *)
Inductive spec_run : Time → amap → list (Time * item * res error answer) → amap → Prop :=
| Run_nil t a : spec_run t a [] a
| Run_cons t a t' i r a' l a'' :
    (t ≤ t')%Z → spec_step t' (elapse t' a) i r a' → spec_run (time_after t' i) a' l a'' →
    spec_run t a ((t', i, r) :: l) a''.

(** ** The store as an implementation *)

Section refine.
Context {S : Type} `{RS : ReliableStore S doc} `{CR : Crypto}.
Implicit Types (s : Store S) (e : Env) (m : gmap string doc) (a : amap).

Abbreviation cts s := (contents (db s)).

Definition view (v : Version) : aversion := mkAVersion (v_State v) (v_Payload v) (v_ScheduledDestroy v).
Definition show_secret (sec : Secret) : answer := ASecret (s_Expire sec) (s_VersionDestroyTTL sec) (s_NextVersion sec - 1).
Definition show_version (v : Version) : answer := AVersion (v_Number v) (view v).
Definition show_versions (l : list Version) : answer := AVersions ((λ v, (v_Number v, view v)) <$> l).
Definition show_ids (l : list Secret) : answer := AIds ((λ sec, (secretParts (s_Name sec)).2) <$> l).

(** A call's answer, as the specification words it. *)
Definition shown {A} (f : A → answer) (m : M S A) e s : Store S * res error answer :=
  ((m e s).1, match (m e s).2 with Ok x => Ok (f x) | Err x => Err x end).

Definition perform (i : item) e s : Store S * res error answer :=
  match i with
  | Turn => shown (λ _, ADone) Sweep e s
  | Call (OCreate p id ls ans expire topics sch keys repl locs) =>
      shown show_secret (CreateSecretEncrypted p id ls ans expire topics sch keys repl locs) e s
  | Call (OGet p id) => shown show_secret (GetSecret p id) e s
  | Call (OUpdate p id u) => shown show_secret (UpdateSecretFields p id u) e s
  | Call (OSetIam p id req) => shown (λ _, ADone) (SetIamPolicy p id req) e s
  | Call (OList p) => shown show_ids (ListSecrets p) e s
  | Call (ODelete p id) => shown (λ _, ADone) (DeleteSecret p id) e s
  | Call (OAdd p id payload chk) => shown show_version (addVersion p id payload chk) e s
  | Call (OGetVersion p id v) => shown show_version (GetVersion p id v) e s
  | Call (OAccess p id v) => shown show_version (AccessVersion p id v) e s
  | Call (OListVersions p id) => shown show_versions (ListVersions p id) e s
  | Call (OSetState p id v st) => shown show_version (SetVersionState p id v st) e s
  | Call (ODestroy p id v) => shown show_version (DestroyVersion p id v) e s
  | Call (OSetKeys p id keys) => shown (λ _, ADone) (SetReplicationKeys p id keys) e s
  | Call (OAdvance d) => shown ATime (Advance d) e s
  | Call OReset => shown (λ _, ADone) Reset e s
  end.

(** ** The representation *)

Definition versions_rep m p id (next : Z) (l : list aversion) : Prop :=
  Z.of_nat (length l) = (next - 1)%Z ∧
  ∀ n v, (0 ≤ n)%Z → version_at m p id n = Some v → encrypted v = false ∧ l !! Z.to_nat (n - 1) = Some (view v).

Definition secret_rep (t : Time) m p id (o : option asecret) : Prop :=
  match live t m p id, o with
  | None, None => True
  | Some sec, Some asec =>
      a_expire asec = s_Expire sec ∧ a_ttl asec = s_VersionDestroyTTL sec ∧ hasKeys (s_KMSKeys sec) = false ∧
      versions_rep m p id (s_NextVersion sec) (a_versions asec)
  | _, _ => False
  end.

Definition Rep (t : Time) m a : Prop := ∀ p id, secret_rep t m p id (a !! (p, id)).

Lemma Rep_empty t : Rep t ∅ ∅.
Proof. intros p id. unfold secret_rep, live, secret_at. by rewrite !lookup_empty. Qed.

Lemma Rep_lookup t m a p id sec :
  Rep t m a → live t m p id = Some sec → ∃ asec, a !! (p, id) = Some asec ∧
    a_expire asec = s_Expire sec ∧ a_ttl asec = s_VersionDestroyTTL sec ∧ hasKeys (s_KMSKeys sec) = false ∧
    versions_rep m p id (s_NextVersion sec) (a_versions asec).
Proof.
  intros HR Hl. specialize (HR p id). unfold secret_rep in HR. rewrite Hl in HR.
  destruct (a !! (p, id)) as [asec|]; [|done]. by exists asec.
Qed.

Lemma Rep_none t m a p id : Rep t m a → live t m p id = None → a !! (p, id) = None.
Proof. intros HR Hl. specialize (HR p id). unfold secret_rep in HR. rewrite Hl in HR. by destruct (a !! (p, id)). Qed.

Lemma Rep_is_Some t m a p id : Rep t m a → is_Some (a !! (p, id)) ↔ is_Some (live t m p id).
Proof. intros HR. specialize (HR p id). unfold secret_rep in HR. by destruct (live t m p id), (a !! (p, id)). Qed.

(** Expired secrets that are deleted are no change. *)
Lemma Rep_purges B t m m' a : Inv B m → purges t m m' → Rep t m a → Rep t m' a.
Proof.
  intros HI Hp HR p id. specialize (HR p id). unfold secret_rep in *. rewrite (purges_live B t m m') by done.
  destruct (live t m p id) as [sec|] eqn:Hl; [|done]. destruct (a !! (p, id)) as [asec|]; [|done].
  destruct HR as (H1 & H2 & H3 & H4 & H5). split_and!; [done..|]. split; [done|]. intros n v Hn.
  rewrite (purges_versions B t m m' p id sec) by done. by apply H5.
Qed.

Lemma Rep_elapse t t' m a : (t ≤ t')%Z → Rep t m a → Rep t' m (elapse t' a).
Proof.
  intros Ht HR p id. specialize (HR p id). unfold secret_rep, elapse in *. rewrite map_lookup_filter.
  unfold live in *. destruct (secret_at m p id) as [sec|]; [|by destruct (a !! (p, id))].
  destruct (Expired sec t) eqn:Hx.
  - assert (Expired sec t' = true) as ->.
    { unfold Expired, Before in *. apply andb_true_iff in Hx as [-> Hb%negb_true_iff%Z.ltb_ge]. cbn.
      apply negb_true_iff, Z.ltb_ge. lia. }
    by destruct (a !! (p, id)).
  - destruct (a !! (p, id)) as [asec|]; [|done]. cbn. destruct HR as (H1 & H2).
    unfold a_expired. rewrite H1. fold (Expired sec t'). destruct (Expired sec t'); [by rewrite option_guard_False|].
    by rewrite option_guard_True.
Qed.

(** One secret's documents change. *)
Lemma Rep_local t m m' a p id o :
  Rep t m a →
  (∀ q i, ¬ (q = p ∧ i = id) → live t m' q i = live t m q i ∧
     (is_Some (live t m q i) → ∀ n, (0 ≤ n)%Z → version_at m' q i n = version_at m q i n)) →
  secret_rep t m' p id o → Rep t m' (partial_alter (λ _, o) (p, id) a).
Proof.
  intros HR Hsame Ho q i. destruct (decide (q = p ∧ i = id)) as [[-> ->]|Hne]; [by rewrite lookup_partial_alter_eq|].
  rewrite lookup_partial_alter_ne by (intros [= <- <-]; by apply Hne). destruct (Hsame q i Hne) as [Hl Hv]. specialize (HR q i).
  unfold secret_rep in *. rewrite Hl. destruct (live t m q i) as [sec|]; [|done]. destruct (a !! (q, i)) as [asec|]; [|done].
  destruct HR as (H1 & H2 & H3 & H4 & H5). split_and!; [done..|]. split; [done|]. intros n v Hn. rewrite Hv by done. by apply H5.
Qed.

(** A head is written. *)
Lemma live_put t m p id sec q i :
  segments p id → ¬ (q = p ∧ i = id) → live t (<[secretKey p id := DSecret sec]> m) q i = live t m q i.
Proof. intros Hseg Hne. unfold live. rewrite secret_at_put by done. by rewrite decide_False. Qed.

Lemma live_put_self t m p id sec :
  segments p id → Expired sec t = false → live t (<[secretKey p id := DSecret sec]> m) p id = Some sec.
Proof. intros Hseg Hx. apply live_Some. split; [|done]. rewrite secret_at_put by done. by rewrite decide_True. Qed.

Lemma live_put_version t m p id n v q i : live t (<[versionKey p id n := DVersion v]> m) q i = live t m q i.
Proof. unfold live. by rewrite secret_at_put_version. Qed.

Lemma Rep_head t m a p id sec' asec l :
  Rep t m a → segments p id → Expired sec' t = false → hasKeys (s_KMSKeys sec') = false →
  a_expire asec = s_Expire sec' → a_ttl asec = s_VersionDestroyTTL sec' → a_versions asec = l →
  versions_rep m p id (s_NextVersion sec') l →
  Rep t (<[secretKey p id := DSecret sec']> m) (<[(p, id) := asec]> a).
Proof.
  intros HR Hseg Hx Hk He Ht <- [Hlen Hv]. apply (Rep_local _ m); [done| |].
  - intros q i Hne. split; [by apply live_put|]. intros _ n Hn. apply version_at_put_secret.
  - unfold secret_rep. rewrite live_put_self by done. split_and!; [done..|]. split; [done|]. intros n v Hn.
    rewrite version_at_put_secret. by apply Hv.
Qed.

(** ** Versions *)

Lemma versions_named B t m a p id sec asec version :
  Inv B m → live t m p id = Some sec → a !! (p, id) = Some asec → versions_rep m p id (s_NextVersion sec) (a_versions asec) →
  match version_named m p id sec version with
  | Ok v => ∃ n, resolve version (s_NextVersion sec) = Ok n ∧ a_named a p id version = Ok (asec, n, view v) ∧
      v_Number v = n ∧ (1 ≤ n)%Z ∧ version_at m p id n = Some v ∧ encrypted v = false
  | Err x => a_named a p id version = Err x
  end.
Proof.
  intros HI Hl Ha [Hlen Hv]. pose proof Hl as [Hs _]%live_Some. unfold version_named, a_named. rewrite Ha, Hlen.
  replace (s_NextVersion sec - 1 + 1)%Z with (s_NextVersion sec) by lia.
  destruct (resolve version (s_NextVersion sec)) as [n|x] eqn:Hr; cbn; [|done]. pose proof (resolve_pos _ _ _ Hr) as Hn.
  destruct (version_at m p id n) as [v|] eqn:Hat.
  - assert (0 ≤ n)%Z as Hn0 by lia. destruct (Hv n v Hn0 Hat) as [Henc Hlk]. exists n. rewrite Hlk. split_and!; try done.
    apply (vo_Number _ _ _ _ (version_is_ok _ _ _ _ _ _ _ HI Hs Hn0 Hat)).
  - destruct (a_versions asec !! Z.to_nat (n - 1)) as [av|] eqn:Hlk; [|done]. exfalso.
    apply lookup_lt_Some in Hlk. assert (is_Some (version_at m p id n)) as Hsome by (apply (version_range B _ _ _ sec); [done..|lia|lia]).
    rewrite Hat in Hsome. by destruct Hsome.
Qed.

(** The named version of a represented state, whether the secret is there or not. *)
Lemma Rep_named B t m a p id version :
  Inv B m → Rep t m a →
  match (match live t m p id with Some sec => version_named m p id sec version | None => Err NotFound end) with
  | Ok v => ∃ sec asec n, live t m p id = Some sec ∧ resolve version (s_NextVersion sec) = Ok n ∧
      a !! (p, id) = Some asec ∧ a_named a p id version = Ok (asec, n, view v) ∧
      v_Number v = n ∧ (1 ≤ n)%Z ∧ version_at m p id n = Some v ∧ encrypted v = false
  | Err x => a_named a p id version = Err x
  end.
Proof.
  intros HI HR. destruct (live t m p id) as [sec|] eqn:Hl.
  - destruct (Rep_lookup _ _ _ _ _ _ HR Hl) as (asec & Ha & _ & _ & _ & Hvs).
    pose proof (versions_named _ _ _ _ _ _ _ _ version HI Hl Ha Hvs) as Hn.
    destruct (version_named m p id sec version) as [v|x]; [|done]. destruct Hn as (n & ? & ? & ? & ? & ? & ?). by exists sec, asec, n.
  - unfold a_named. by rewrite (Rep_none _ _ _ _ _ HR Hl).
Qed.

Lemma Rep_rescheduled B t m a p id sec asec n v v' :
  Inv B m → Rep t m a → live t m p id = Some sec → a !! (p, id) = Some asec → (1 ≤ n)%Z → version_at m p id n = Some v →
  encrypted v' = false → Rep t (rescheduled m p id sec n v') (<[(p, id) := set_version asec n (view v')]> a).
Proof.
  intros HI HR Hl Ha Hn Hat Henc. pose proof Hl as [Hs Hx]%live_Some. destruct (stored_secret _ _ _ _ _ HI Hs) as (Hseg & _).
  destruct (Rep_lookup _ _ _ _ _ _ HR Hl) as (asec' & Ha' & He & Httl & Hk & Hlen & Hv). rewrite Ha in Ha'. injection Ha' as <-.
  assert (is_Some (version_at m p id n)) as Hrange by by eexists. rewrite (version_range B _ _ _ sec) in Hrange by (done || lia).
  unfold rescheduled. apply (Rep_local _ m); [done| |].
  - intros q i Hne. rewrite live_put, live_put_version by done. split; [done|]. intros [sec' [Hs' _]%live_Some] k Hk'.
    destruct (stored_secret _ _ _ _ _ HI Hs') as (Hseg' & _).
    rewrite version_at_put_secret, version_at_put by (done || lia). rewrite decide_False; [done|]. naive_solver.
  - unfold secret_rep. rewrite live_put_self by done. cbn. split_and!; [done..|]. split; [by rewrite length_insert|].
    intros k w Hk'. rewrite version_at_put_secret, version_at_put by (done || lia). case_decide as Hd.
    + destruct Hd as (_ & _ & ->). intros [= <-]. split; [done|]. apply list_lookup_insert_eq. lia.
    + intros Hw. destruct (Hv k w) as [? Hlk]; [lia|done|]. split; [done|].
      assert (is_Some (version_at m p id k)) as Hr2 by by eexists. rewrite (version_range B _ _ _ sec) in Hr2 by (done || lia).
      rewrite list_lookup_insert_ne; [done|]. intros Heq. assert (k = n) by lia. naive_solver.
Qed.

Lemma Rep_added B t m a p id sec asec v et :
  Inv B m → Rep t m a → live t m p id = Some sec → a !! (p, id) = Some asec → encrypted v = false →
  Rep t (added m p id sec v et) (<[(p, id) := mkASecret (a_expire asec) (a_ttl asec) (a_versions asec ++ [view v])]> a).
Proof.
  intros HI HR Hl Ha Henc. pose proof Hl as [Hs Hx]%live_Some. destruct (stored_secret _ _ _ _ _ HI Hs) as (Hseg & _).
  destruct (Rep_lookup _ _ _ _ _ _ HR Hl) as (asec' & Ha' & He & Httl & Hk & Hlen & Hv). rewrite Ha in Ha'. injection Ha' as <-.
  pose proof (fo_Next _ _ _ _ _ (secret_family _ _ _ _ _ HI Hs)) as Hnext. unfold added. apply (Rep_local _ m); [done| |].
  - intros q i Hne. rewrite live_put, live_put_version by done. split; [done|]. intros [sec' [Hs' _]%live_Some] k Hk'.
    destruct (stored_secret _ _ _ _ _ HI Hs') as (Hseg' & _).
    rewrite version_at_put_secret, version_at_put by (done || lia). rewrite decide_False; [done|]. naive_solver.
  - unfold secret_rep. rewrite live_put_self by done. cbn. split_and!; [done..|]. split; [rewrite length_app; cbn; lia|].
    intros k w Hk'. rewrite version_at_put_secret, version_at_put by (done || lia). case_decide as Hd.
    + destruct Hd as (_ & _ & ->). intros [= <-]. split; [done|]. by apply list_lookup_middle; lia.
    + intros Hw. destruct (Hv k w) as [? Hlk]; [lia|done|]. split; [done|]. by apply lookup_app_l_Some.
Qed.

Lemma Rep_purge B t m a p id sec : Inv B m → Rep t m a → secret_at m p id = Some sec → Rep t (purge m p id) (delete (p, id) a).
Proof.
  intros HI HR Hs. destruct (stored_secret _ _ _ _ _ HI Hs) as (Hseg & _). apply (Rep_local _ m); [done| |].
  - intros q i Hne. unfold live. rewrite secret_at_purge, decide_False by done. split; [done|]. intros [sec' Hl] n Hn.
    assert (segments q i) as Hseg'. { apply (live_Some t m q i sec') in Hl as [Hs' _]. by eapply secret_segments. }
    rewrite version_at_purge by done. by rewrite decide_False.
  - unfold secret_rep, live. rewrite secret_at_purge by done. by rewrite decide_True.
Qed.

Lemma destroyed_encrypted v t : encrypted (destroyed v t) = encrypted v.
Proof. unfold encrypted. cbn. by induction (v_Replicas v) as [|r l IH]; [|cbn; rewrite IH]. Qed.

Lemma Rep_swept B t m m' a :
  Inv B m → Inv B m' → (∀ p id, segments p id → family_swept t m m' p id) → Rep t m a → Rep t m' (a_sweep t a).
Proof.
  intros HI HI' Hfam HR p id. unfold a_sweep, elapse. rewrite lookup_fmap, map_lookup_filter. specialize (HR p id). unfold secret_rep in *.
  assert (secret_at m p id = None → secret_at m' p id = None) as Hnone.
  { intros Hs. apply eq_None_not_Some. intros [sec' Hs']. destruct (secret_segments _ _ _ _ _ HI' Hs') as [Hseg _].
    specialize (Hfam p id Hseg). unfold family_swept in Hfam. rewrite Hs in Hfam. destruct Hfam. congruence. }
  unfold live in *. destruct (secret_at m p id) as [sec|] eqn:Hs; [|rewrite Hnone by done; by destruct (a !! (p, id))].
  destruct (secret_segments _ _ _ _ _ HI Hs) as [Hseg _]. specialize (Hfam p id Hseg). unfold family_swept in Hfam. rewrite Hs in Hfam.
  destruct (Expired sec t) eqn:Hx; destruct Hfam as [Hs' Hv']; rewrite Hs'; [by destruct (a !! (p, id))|].
  destruct (a !! (p, id)) as [asec|]; [|done]. destruct HR as (He & Httl & Hk & Hlen & Hv).
  assert (Expired (swept_head t sec) t = Expired sec t) as -> by (unfold swept_head; by destruct (rotation_due sec t)).
  rewrite Hx. cbn. rewrite option_guard_True by (unfold a_expired; rewrite He; exact Hx). cbn.
  split; [by rewrite He; unfold swept_head; destruct (rotation_due sec t)|].
  split; [by rewrite Httl; unfold swept_head; destruct (rotation_due sec t)|].
  split; [by rewrite <- Hk; unfold swept_head; destruct (rotation_due sec t)|].
  split; [rewrite length_fmap, Hlen; by unfold swept_head; destruct (rotation_due sec t)|].
  intros n w Hn. rewrite Hv' by done. intros (v & Hat & ->)%fmap_Some. destruct (Hv n v Hn Hat) as [Henc Hlk].
  rewrite list_lookup_fmap, Hlk. cbn. unfold swept_version, scheduled. destruct (IsZero (v_ScheduledDestroy v)); [done|]. cbn.
  destruct (Before t (v_ScheduledDestroy v)); [done|]. split; [by rewrite destroyed_encrypted|done].
Qed.

(** ** Listing versions *)

Lemma omap_numbered (g : nat → option Version) (l : list aversion) k :
  (∀ i av, l !! i = Some av → ∃ v, g (k + i) = Some v ∧ v_Number v = Z.of_nat (k + i) ∧ view v = av) →
  (λ v, (v_Number v, view v)) <$> omap g (seq k (length l)) = imap (λ i av, (Z.of_nat (k + i), av)) l.
Proof.
  revert k. induction l as [|av l IH]; intros k Hg; [done|]. cbn. destruct (Hg 0 av eq_refl) as (v & Hv & Hn & Hw).
  rewrite Nat.add_0_r in *. rewrite Hv. cbn. rewrite Hn, Hw. f_equal. rewrite (IH (Datatypes.S k)).
  - apply imap_ext. intros i w _. cbn. do 2 f_equal. lia.
  - intros i w Hw'. destruct (Hg (Datatypes.S i) w Hw') as (v' & ? & ? & ?). exists v'.
    by replace (Datatypes.S k + i) with (k + Datatypes.S i) by lia.
Qed.

Lemma descending_sorted N : StronglySorted Z.ge (Z.of_nat <$> reverse (seq 1 N)).
Proof.
  induction N as [|N IH]; [constructor|]. rewrite seq_S, reverse_snoc. cbn. constructor; [done|].
  apply Forall_fmap, Forall_forall. intros k Hk. rewrite elem_of_reverse, elem_of_seq in Hk. cbn. lia.
Qed.

(** What is sorted by number from the newest on is the list of versions, reversed. *)
Lemma newest_first (vs l : list Version) N :
  v_Number <$> vs = Z.of_nat <$> seq 1 N → l ≡ₚ vs → StronglySorted newer l → l = reverse vs.
Proof.
  intros Hnum Hperm Hsort. assert (AntiSymm (=) Z.ge) as Hanti by (intros x y; lia). assert (v_Number <$> l = v_Number <$> reverse vs) as Heq.
  { rewrite fmap_reverse, Hnum, <- fmap_reverse. apply (StronglySorted_unique Z.ge).
    - clear -Hsort. induction Hsort as [|v l _ IH Hall]; cbn; constructor; [done|]. apply Forall_fmap.
      eapply Forall_impl; [done|]. unfold newer. cbn. lia.
    - apply descending_sorted.
    - rewrite Hperm, Hnum. by rewrite reverse_Permutation. }
  assert (NoDup (v_Number <$> vs)) as Hnd.
  { rewrite Hnum. apply NoDup_fmap_2; [apply _|apply NoDup_seq]. }
  apply list_eq. intros i. assert ((v_Number <$> l) !! i = (v_Number <$> reverse vs) !! i) as Hi by by rewrite Heq.
  rewrite !list_lookup_fmap in Hi. destruct (l !! i) as [x|] eqn:Hx, (reverse vs !! i) as [y|] eqn:Hy; try done.
  cbn in Hi. injection Hi as Hi. f_equal. apply list_elem_of_lookup_2 in Hx, Hy. rewrite Hperm in Hx.
  rewrite elem_of_reverse in Hy. by apply (NoDup_fmap_inj_on v_Number vs).
Qed.

Lemma versions_numbered B m p id sec l :
  Inv B m → secret_at m p id = Some sec → versions_rep m p id (s_NextVersion sec) l →
  (λ v, (v_Number v, view v)) <$> versions_of m p id (s_NextVersion sec) = imap (λ i av, (Z.of_nat (1 + i), av)) l.
Proof.
  intros HI Hs [Hlen Hv]. unfold versions_of. replace (Z.to_nat (s_NextVersion sec - 1)) with (length l) by lia.
  apply omap_numbered. intros i av Hi. pose proof (lookup_lt_Some _ _ _ Hi) as Hlt.
  assert (is_Some (version_at m p id (Z.of_nat (1 + i)))) as [v Hat] by (apply (version_range B _ _ _ sec); [done..|lia|lia]).
  exists v. split; [done|]. destruct (Hv (Z.of_nat (1 + i)) v) as [_ Hlk]; [lia|done|].
  replace (Z.to_nat (Z.of_nat (1 + i) - 1)) with i in Hlk by lia. rewrite Hi in Hlk. injection Hlk as ->. split; [|done].
  assert (0 ≤ Z.of_nat (1 + i))%Z as H0 by lia. apply (vo_Number _ _ _ _ (version_is_ok _ _ _ _ _ _ _ HI Hs H0 Hat)).
Qed.

Lemma listed_versions B m p id sec asec vs :
  Inv B m → secret_at m p id = Some sec → versions_rep m p id (s_NextVersion sec) (a_versions asec) →
  vs ≡ₚ versions_of m p id (s_NextVersion sec) →
  show_versions (merge_sort newer vs) = AVersions (reverse (numbered asec)).
Proof.
  intros HI Hs Hrep Hperm. pose proof (versions_numbered _ _ _ _ _ _ HI Hs Hrep) as Hnum.
  rewrite (newest_first (versions_of m p id (s_NextVersion sec)) (merge_sort newer vs) (length (a_versions asec))).
  - unfold show_versions, numbered. rewrite fmap_reverse, Hnum. do 2 f_equal. apply imap_ext. intros i v _. cbn. f_equal. lia.
  - change v_Number with (λ v, (v_Number v, view v).1). rewrite (list_fmap_compose (λ v, (v_Number v, view v)) fst), Hnum, fmap_imap.
    clear. generalize 1. induction (a_versions asec) as [|av l IH]; intros k; [done|]. cbn. f_equal; [lia|].
    rewrite <- IH. apply imap_ext. intros i v _. cbn. lia.
  - by rewrite merge_sort_Permutation.
  - apply (StronglySorted_merge_sort newer).
Qed.

(** ** One item *)

(** A call ends as the specification allows, in a state that is represented. *)
Definition sim (t : Time) a (i : item) {A} (f : A → answer) (r : res error A) s' : Prop :=
  ∃ a', spec_step t a i (match r with Ok x => Ok (f x) | Err x => Err x end) a' ∧ Rep (time_after t i) (cts s') a'.

(** A failure that leaves at most expired secrets deleted. *)
Lemma sim_same {A} B t a i (f : A → answer) r s s' :
  Inv B (cts s) → Rep t (cts s) a → time_after t i = t → purges t (cts s) (cts s') →
  spec_step t a i (match r with Ok x => Ok (f x) | Err x => Err x end) a → sim t a i f r s'.
Proof. intros HI HR Ht Hp Hsp. exists a. split; [done|]. rewrite Ht. by eapply Rep_purges. Qed.

Lemma purges_near s s' t : near s (cts s) s' → purges t (cts s) (cts s').
Proof. intros (-> & _). constructor. Qed.
Lemma purges_near_settle s s' t p id : near s (settle t (cts s) p id) s' → purges t (cts s) (cts s').
Proof. intros (-> & _). apply purges_settle. Qed.

(** A version sealed without keys is not encrypted. *)
Lemma fresh_replicas ls : existsb (λ r, negb (bool_decide (r_KMSKey r = ""))) ((λ l, mkReplicaStatus l "" "" "") <$> ls) = false.
Proof. by induction ls. Qed.

Lemma a_sweep_elapse t a : a_sweep t (elapse t a) = a_sweep t a.
Proof. unfold a_sweep, elapse. f_equal. apply map_filter_filter_l. naive_solver. Qed.

Section item.
Variables (B : Z) (e : Env) (s : Store S) (a : amap).
Hypothesis (HI : Inv B (cts s)) (HB : (1 ≤ B < int_max)%Z) (He : env_ok e) (Ht : sane (clock e s)).
Hypothesis (Hkms : keyService e = None) (HR : Rep (clock e s) (cts s) a).
Abbreviation t := (clock e s).

Lemma create_sim p id ls ans expire topics sch keys repl locs :
  free_of slash p = true →
  wp e s (CreateSecretEncrypted p id ls ans expire topics sch keys repl locs)
    (sim t a (Call (OCreate p id ls ans expire topics sch keys repl locs)) show_secret).
Proof.
  intros Hp. apply (wp_CreateSecret B); [done..| |].
  - intros s' x Hc _ _. apply (sim_same B _ _ _ _ _ s); [done..| |apply Sp_create_no].
    destruct Hc as [->| ->]; [constructor|apply purges_settle].
  - intros s' sec Hl _ Hid Hexp _ Hcr _ Hk Hc _ _. pose proof (ValidateSecretID_free _ Hid) as Hfi.
    assert (segments p id) as Hseg by done. pose proof (Rep_purges B t _ _ _ HI (purges_settle t (cts s) p id) HR) as HR'.
    exists (<[(p, id) := mkASecret expire (VersionDestroyTTL sch) []]> a). split.
    + unfold show_secret. rewrite (ca_Expire _ _ _ _ _ _ Hcr), (ca_TTL _ _ _ _ _ _ Hcr), (ca_Next _ _ _ _ _ _ Hcr).
      by apply Sp_create; [apply (Rep_none t (cts s))|].
    + cbn [time_after]. rewrite Hc. apply (Rep_head _ _ _ _ _ _ _ []); try done.
      * unfold Expired. rewrite (ca_Expire _ _ _ _ _ _ Hcr). destruct Hexp as [->|Hlt]; [done|].
        unfold Before. by rewrite (proj2 (Z.ltb_lt _ _) Hlt), andb_false_r.
      * destruct (s_KMSKeys sec) as [|k ks] eqn:Hks; [done|]. destruct Hk as [x Hx]; [done|]. congruence.
      * by rewrite (ca_Expire _ _ _ _ _ _ Hcr).
      * by rewrite (ca_TTL _ _ _ _ _ _ Hcr).
      * rewrite (ca_Next _ _ _ _ _ _ Hcr). split; [done|]. intros n v Hn Hv.
        pose proof (inv_family _ _ (Inv_settle B t _ p id HI) p id Hseg) as Hfam. unfold secret_at in Hfam.
        rewrite (settle_gone _ _ _ _ _ HI Hl) in Hfam. by rewrite Hfam in Hv.
Qed.

Lemma update_sim p id u : wp e s (UpdateSecretFields p id u) (sim t a (Call (OUpdate p id u)) show_secret).
Proof.
  apply (wp_UpdateSecretFields B); [done..| |].
  - intros s' x Hc _ _. apply (sim_same B _ _ _ _ _ s); [done..| |apply Sp_update_no].
    destruct Hc as [->| ->]; [constructor|apply purges_settle].
  - intros s' sec sec' Hl -> Hexp _ _ _ Hc _ _. pose proof Hl as [Hs Hx]%live_Some. destruct (stored_secret _ _ _ _ _ HI Hs) as (Hseg & _).
    destruct (apply_update_fixed u (next_of u sec) (period_of u sec) (etag_of t) sec) as (_ & Hv & _ & Hks & Hex & _ & _ & Httl).
    destruct (Rep_lookup _ _ _ _ _ _ HR Hl) as (asec & Ha & He' & Httl' & Hk & Hvs).
    set (sec' := apply_update _ _ _ _ _) in *. exists (<[(p, id) := mkASecret (s_Expire sec') (s_VersionDestroyTTL sec') (a_versions asec)]> a).
    assert (IsZero (s_Expire sec') = true ∨ (t < s_Expire sec')%Z) as Hlive.
    { rewrite Hex. destruct (UpdateExpire u); [by apply Hexp|]. unfold Expired, Before in Hx.
      destruct (IsZero (s_Expire sec)); [by left|right]. cbn in Hx. apply negb_false_iff, Z.ltb_lt in Hx. done. }
    split.
    + unfold show_secret. rewrite Hv, <- (proj1 Hvs). apply (Sp_update _ _ _ _ _ asec); [done|by rewrite Hex, He'|by rewrite Httl, Httl'|done].
    + cbn [time_after]. rewrite Hc. apply (Rep_head _ _ _ _ _ _ _ (a_versions asec)); try done; [| |by rewrite Hv].
      * unfold Expired, Before. destruct Hlive as [->|Hlt]; [done|]. by rewrite (proj2 (Z.ltb_lt _ _) Hlt), andb_false_r.
      * by rewrite Hks.
Qed.

(** A head that keeps what the specification sees of it. *)
Lemma rep_same_head p id sec sec' :
  live t (cts s) p id = Some sec → s_Expire sec' = s_Expire sec → s_VersionDestroyTTL sec' = s_VersionDestroyTTL sec →
  s_NextVersion sec' = s_NextVersion sec → hasKeys (s_KMSKeys sec') = false →
  Rep t (<[secretKey p id := DSecret sec']> (cts s)) a.
Proof.
  intros Hl He' Httl Hn Hk. pose proof Hl as [Hs Hx]%live_Some. destruct (stored_secret _ _ _ _ _ HI Hs) as (Hseg & _).
  destruct (Rep_lookup _ _ _ _ _ _ HR Hl) as (asec & Ha & Ha1 & Ha2 & _ & Hvs).
  rewrite <- (insert_id a (p, id) asec Ha). apply (Rep_head _ _ _ _ _ _ _ (a_versions asec)); [done|done| |done|congruence|congruence|done|by rewrite Hn].
  unfold Expired. rewrite He'. exact Hx.
Qed.

Lemma iam_sim p id req : wp e s (SetIamPolicy p id req) (sim t a (Call (OSetIam p id req)) (λ _, ADone)).
Proof.
  apply (wp_SetIamPolicy B); [done| |].
  - intros s' x H1. apply (sim_same B _ _ _ _ _ s); [done..|by eapply purges_near_settle|apply Sp_iam_no].
  - intros s' sec next Hl _ (Hc & _). exists a. split; [apply Sp_iam; by rewrite Rep_is_Some, Hl|]. cbn. rewrite Hc.
    destruct (Rep_lookup _ _ _ _ _ _ HR Hl) as (asec & _ & _ & _ & Hk & _). by apply (rep_same_head _ _ sec).
Qed.

Lemma keys_sim p id keys : wp e s (SetReplicationKeys p id keys) (sim t a (Call (OSetKeys p id keys)) (λ _, ADone)).
Proof.
  apply (wp_SetReplicationKeys B); [done| |].
  - intros s' x H1. apply (sim_same B _ _ _ _ _ s); [done..|by eapply purges_near_settle|apply Sp_keys_no].
  - intros s' sec sec' Hl -> Hk (Hc & _). assert (hasKeys keys = false) as Hno.
    { destruct (hasKeys keys); [|done]. destruct Hk as [x Hx]; [done|]. congruence. }
    exists a. split; [apply Sp_keys; [by rewrite Rep_is_Some, Hl|done]|]. cbn. rewrite Hc. apply (rep_same_head _ _ sec); try done.
    cbn. unfold normalKeys. by rewrite Hno.
Qed.

Lemma get_sim p id : wp e s (GetSecret p id) (sim t a (Call (OGet p id)) show_secret).
Proof.
  apply (wp_getSecret B); [done|]. intros s' H1. apply (sim_same B _ _ _ _ _ s); [done..|by eapply purges_near_settle|]. apply Sp_exact.
  cbn. destruct (live t (cts s) p id) as [sec|] eqn:Hl.
  - destruct (Rep_lookup _ _ _ _ _ _ HR Hl) as (asec & -> & -> & -> & _ & -> & _). done.
  - by rewrite (Rep_none _ _ _ _ _ HR Hl).
Qed.

Lemma delete_sim p id : wp e s (DeleteSecret p id) (sim t a (Call (ODelete p id)) (λ _, ADone)).
Proof.
  apply (wp_DeleteSecret B); [done..| |].
  - intros s' Hl H1. apply (sim_same B _ _ _ _ _ s); [done..|by eapply purges_near_settle|]. apply Sp_exact. cbn.
    by rewrite (Rep_none _ _ _ _ _ HR Hl).
  - intros s' sec Hl (Hc & _). exists (delete (p, id) a). split.
    + apply Sp_exact. cbn. by destruct (Rep_lookup _ _ _ _ _ _ HR Hl) as (asec & -> & _).
    + cbn. rewrite Hc. apply live_Some in Hl as [Hs _]. by eapply Rep_purge.
Qed.

Lemma add_sim p id payload chk : wp e s (addVersion p id payload chk) (sim t a (Call (OAdd p id payload chk)) show_version).
Proof.
  apply (wp_addVersion B); [done|lia|apply Ht| | | |].
  - intros Hbad. apply (sim_same B _ _ _ _ _ s); [done..|constructor|]. apply Sp_exact. cbn.
    destruct Hbad as [->|Hbad]; [done|]. by rewrite (proj2 (Z.ltb_lt _ _) Hbad), orb_true_r.
  - intros s' Hne Hle Hl H1. apply (sim_same B _ _ _ _ _ s); [done..|by eapply purges_near_settle|]. apply Sp_exact. cbn.
    rewrite bool_decide_false, (proj2 (Z.ltb_ge _ _) Hle) by done. cbn. by rewrite (Rep_none _ _ _ _ _ HR Hl).
  - intros s' sec v x _ _ Hl _ H1 Hseal. exfalso. destruct (Rep_lookup _ _ _ _ _ _ HR Hl) as (asec & _ & _ & _ & Hk & _).
    unfold sealVersion in Hseal. by rewrite Hk in Hseal.
  - intros s0 s' sec v v' Hne Hle Hl -> _ Hseal (Hc & _).
    destruct (Rep_lookup _ _ _ _ _ _ HR Hl) as (asec & Ha & _ & _ & Hk & Hlen & _).
    unfold sealVersion in Hseal. rewrite Hk in Hseal. cbn [negb] in Hseal. injection Hseal as <-. eexists. split.
    + apply Sp_exact. cbn. rewrite bool_decide_false, (proj2 (Z.ltb_ge _ _) Hle) by done. cbn. rewrite Ha, Hlen.
      unfold show_version. cbn. by replace (s_NextVersion sec - 1 + 1)%Z with (s_NextVersion sec) by lia.
    + cbn. rewrite Hc. eapply Rep_added; [done..|]. apply fresh_replicas.
Qed.

Lemma get_version_sim p id version :
  wp e s (GetVersion p id version) (sim t a (Call (OGetVersion p id version)) show_version).
Proof.
  apply (wp_GetVersion B); [done..|]. intros s' H1. apply (sim_same B _ _ _ _ _ s); [done..|by eapply purges_near_settle|].
  apply Sp_exact. cbn. pose proof (Rep_named B t _ _ p id version HI HR) as Hn.
  destruct (match live t (cts s) p id with Some sec => _ | None => _ end) as [v|x]; [|by rewrite Hn].
  destruct Hn as (sec & asec & n & _ & _ & _ & -> & <- & _). done.
Qed.

Lemma access_sim p id version :
  wp e s (AccessVersion p id version) (sim t a (Call (OAccess p id version)) show_version).
Proof.
  unfold AccessVersion. apply wp_bind, (wp_GetVersion B); [done..|]. intros s' H1.
  pose proof (Rep_named B t _ _ p id version HI HR) as Hn. pose proof (purges_near_settle _ _ _ _ _ H1) as Hp.
  destruct (match live t (cts s) p id with Some sec => _ | None => _ end) as [v|x].
  - destruct Hn as (sec & asec & n & _ & _ & _ & Hn & Hnum & _ & _ & Henc). unfold Accessible.
    assert (∀ r : res error answer, (if bool_decide (v_State v = StateEnabled) then Ok (AVersion n (view v)) else Err FailedPrecondition) = r →
      spec_step t a (Call (OAccess p id version)) r a) as Hsp by (intros r <-; apply Sp_exact; cbn; by rewrite Hn).
    destruct (bool_decide (v_State v = StateEnabled)); cbn [negb].
    + unfold openVersion. rewrite Henc. apply wp_ret, (sim_same B _ _ _ _ _ s); [done..|]. apply Hsp. unfold show_version. by rewrite Hnum.
    + apply wp_throw, (sim_same B _ _ _ _ _ s); [done..|]. by apply Hsp.
  - apply (sim_same B _ _ _ _ _ s); [done..|]. apply Sp_exact. cbn. by rewrite Hn.
Qed.

Lemma set_state_sim p id version state :
  wp e s (SetVersionState p id version state) (sim t a (Call (OSetState p id version state)) show_version).
Proof.
  pose proof (Rep_named B t _ _ p id version HI HR) as Hn. apply (wp_SetVersionState B); [done..| | | |].
  - intros ->. apply (sim_same B _ _ _ _ _ s); [done..|constructor|]. by apply Sp_exact.
  - intros s' x Hst Hx H1. rewrite Hx in Hn. apply (sim_same B _ _ _ _ _ s); [done..|by eapply purges_near_settle|]. apply Sp_exact. cbn.
    by rewrite bool_decide_false, Hn.
  - intros s' sec v Hst Hl Hv Hd H1. rewrite Hl, Hv in Hn. destruct Hn as (? & asec & n & _ & _ & _ & Hn & _).
    apply (sim_same B _ _ _ _ _ s); [done..|by apply purges_near|]. apply Sp_exact. cbn.
    rewrite bool_decide_false, Hn by done. cbn. by rewrite bool_decide_true.
  - intros s' sec n v v' Hst Hl Hv Hr Hd -> (Hc & _). rewrite Hl, Hv in Hn.
    destruct Hn as (sec' & asec & n' & [= <-] & Hr' & Ha & Hn & Hnum & Hpos & Hat & Henc). rewrite Hr in Hr'. injection Hr' as <-.
    eexists. split.
    + apply Sp_exact. cbn. rewrite bool_decide_false, Hn by done. cbn. rewrite bool_decide_false by done.
      unfold show_version. cbn. by rewrite Hnum.
    + cbn. rewrite Hc. by eapply (Rep_rescheduled B _ _ _ _ _ _ _ _ v).
Qed.

Lemma destroy_sim p id version :
  wp e s (DestroyVersion p id version) (sim t a (Call (ODestroy p id version)) show_version).
Proof.
  pose proof (Rep_named B t _ _ p id version HI HR) as Hn.
  assert (∀ sec v, live t (cts s) p id = Some sec → version_named (cts s) p id sec version = Ok v →
    ∃ asec n, resolve version (s_NextVersion sec) = Ok n ∧ a !! (p, id) = Some asec ∧ a_named a p id version = Ok (asec, n, view v) ∧
      a_ttl asec = s_VersionDestroyTTL sec ∧ v_Number v = n ∧ (1 ≤ n)%Z ∧ version_at (cts s) p id n = Some v ∧ encrypted v = false) as Hnamed.
  { intros sec v Hl Hv. rewrite Hl, Hv in Hn. destruct Hn as (sec' & asec & n & [= <-] & Hr & Ha & Hn & Hrest).
    exists asec, n. destruct (Rep_lookup _ _ _ _ _ _ HR Hl) as (asec' & Ha' & _ & Httl & _). rewrite Ha in Ha'. injection Ha' as <-. done. }
  apply (wp_DestroyVersion B); [done..|destruct Ht; lia|apply Ht| | | | |].
  - intros s' x Hx H1. rewrite Hx in Hn. apply (sim_same B _ _ _ _ _ s); [done..|by eapply purges_near_settle|]. apply Sp_exact. cbn. by rewrite Hn.
  - intros s' sec v Hl Hv Hd H1. destruct (Hnamed _ _ Hl Hv) as (asec & n & _ & _ & Hn' & _).
    apply (sim_same B _ _ _ _ _ s); [done..|by apply purges_near|]. apply Sp_exact. cbn. rewrite Hn'. cbn.
    destruct Hd as [Hd|Hd]; [by rewrite bool_decide_true|]. destruct (IsZero _) eqn:Hz; [by unfold IsZero in Hz; bool_prop|]. by rewrite orb_true_r.
  - intros s' sec v Hl Hv Hd Hz Httl Hj H1. destruct (Hnamed _ _ Hl Hv) as (asec & n & _ & _ & Hn' & Ha & _).
    apply (sim_same B _ _ _ _ _ s); [done..|by apply purges_near|]. apply Sp_exact. cbn. rewrite Hn'. cbn.
    rewrite Hz, bool_decide_false, Ha, (proj2 (Z.ltb_lt _ _) Httl), Hj by done. done.
  - intros s' sec n v Hl Hv Hr Hd Hz Httl Hj (Hc & _).
    destruct (Hnamed _ _ Hl Hv) as (asec & n' & Hr' & Ha & Hn' & Ha' & Hnum & Hpos & Hat & Henc). rewrite Hr in Hr'. injection Hr' as <-.
    eexists. split.
    + apply Sp_exact. cbn. rewrite Hn'. cbn. rewrite Hz, bool_decide_false, Ha', (proj2 (Z.ltb_lt _ _) Httl), Hj by done.
      unfold show_version. cbn. by rewrite Hnum.
    + cbn. rewrite Hc. by eapply (Rep_rescheduled B _ _ _ _ _ _ _ _ v).
  - intros s' sec n v Hl Hv Hr Hd Hz Httl (Hc & _).
    destruct (Hnamed _ _ Hl Hv) as (asec & n' & Hr' & Ha & Hn' & Ha' & Hnum & Hpos & Hat & Henc). rewrite Hr in Hr'. injection Hr' as <-.
    eexists. split.
    + apply Sp_exact. cbn. rewrite Hn'. cbn. rewrite Hz, bool_decide_false, Ha', (proj2 (Z.ltb_ge _ _) Httl) by done.
      unfold show_version. cbn. by rewrite Hnum.
    + cbn. rewrite Hc. eapply (Rep_rescheduled B _ _ _ _ _ _ _ _ v); try done. by rewrite destroyed_encrypted.
Qed.

Lemma turn_sim : wp e s Sweep (sim t a Turn (λ _, ADone)).
Proof.
  apply (wp_Sweep B); [done|lia|done|]. intros s' m' next (Hc & _) HI' Hfam _. exists (a_sweep t a). split; [apply Sp_turn|].
  cbn. rewrite Hc. by apply (Rep_swept B _ (cts s)).
Qed.

Lemma advance_sim d :
  op_ok e s (OAdvance d) → wp e s (Advance d) (sim t a (Call (OAdvance d)) ATime).
Proof.
  intros (_ & _ & Hd). unfold Advance. destruct (Z.ltb_spec d 0) as [Hneg|Hd0].
  { apply wp_throw. exists a. cbn [time_after]. rewrite (proj2 (Z.ltb_lt _ _) Hneg). split; [|done]. apply Sp_exact. cbn.
    by rewrite (proj2 (Z.ltb_lt _ _) Hneg). }
  destruct (Hd Hd0) as [Hint Hsane]. apply wp_bind, wp_shift; [done|]. intros s1 Hc1 _ Hclk.
  apply wp_deferred, wp_bind, (wp_Sweep B); [by rewrite Hc1|lia|by rewrite Hclk|]. intros s2 m2 next H2 HI2 Hfam _.
  apply wp_now, wp_wake. rewrite (near_clock e _ _ _ H2), Hclk. rewrite Hclk, Hc1 in Hfam.
  exists (a_sweep (Add t d) a). cbn [time_after]. rewrite (proj2 (Z.ltb_ge _ _) Hd0). split.
  - apply Sp_exact. cbn. by rewrite (proj2 (Z.ltb_ge _ _) Hd0).
  - cbn. rewrite (near_cts _ _ _ H2). rewrite <- (a_sweep_elapse (Add t d)). apply (Rep_swept B _ (cts s)); [done..|].
    apply (Rep_elapse t); [unfold Add; lia|done].
Qed.

Lemma reset_sim : wp e s Reset (sim t a (Call OReset) (λ _, ADone)).
Proof.
  apply (wp_Reset B); [done|]. intros s' (Hc & _). exists ∅. split; [by apply Sp_exact|]. cbn. rewrite Hc. apply Rep_empty.
Qed.

Lemma list_versions_sim p id : wp e s (ListVersions p id) (sim t a (Call (OListVersions p id)) show_versions).
Proof.
  unfold ListVersions. apply wp_bind, (wp_getSecret B); [done|]. intros s1 H1. pose proof (purges_near_settle _ _ _ _ _ H1) as Hp.
  destruct (live t (cts s) p id) as [sec|] eqn:Hl.
  - pose proof Hl as [Hs _]%live_Some. rewrite (settle_live _ _ _ _ _ Hl) in H1. pose proof (near_cts _ _ _ H1) as Hc.
    destruct (Rep_lookup _ _ _ _ _ _ HR Hl) as (asec & Ha & _ & _ & _ & Hvs).
    apply wp_bind, (wp_listVersions B _ _ _ _ sec); rewrite ?Hc; [done..|]. intros vs Hperm. apply wp_ret.
    apply (sim_same B _ _ _ _ _ s); [done..|]. apply Sp_exact. cbn. rewrite Ha. by rewrite (listed_versions B (cts s) p id sec asec).
  - apply (sim_same B _ _ _ _ _ s); [done..|]. apply Sp_exact. cbn. by rewrite (Rep_none _ _ _ _ _ HR Hl).
Qed.

Lemma list_sim p : wp e s (ListSecrets p) (sim t a (Call (OList p)) show_ids).
Proof.
  apply (wp_ListSecrets B); [done..| |].
  - intros ->. apply (sim_same B _ _ _ _ _ s); [done..|constructor|apply Sp_list_no].
  - intros s' out _ Hp _ _ Hnd Hout. apply (sim_same B _ _ _ _ _ s); [done..|].
    assert (∀ sec id, live t (cts s) p id = Some sec → (secretParts (s_Name sec)).2 = id) as Hid.
    { intros sec id [Hs _]%live_Some. destruct (stored_secret _ _ _ _ _ HI Hs) as ([Hfp Hfi] & _ & ->).
      by rewrite secretParts_SecretName. }
    apply Sp_list.
    + rewrite (sort_by_perm s_Name out). apply NoDup_fmap_2_strong; [|done]. intros x y (i & Hx)%Hout (j & Hy)%Hout.
      rewrite (Hid x i), (Hid y j) by done. congruence.
    + intros id. rewrite (sort_by_perm s_Name out), list_elem_of_fmap, (Rep_is_Some t (cts s)) by done. split.
      * intros (sec & -> & (i & Hl)%Hout). rewrite (Hid sec i) by done. by rewrite Hl.
      * intros [sec Hl]. exists sec. split; [by rewrite (Hid sec id)|]. apply Hout. by exists id.
Qed.

(** An item's surroundings, and the state it finds. *)
Definition item_ok (i : item) : Prop := match i with Call o => op_ok e s o | Turn => True end.

Lemma perform_sim i :
  item_ok i → ∃ a', spec_step t a i (perform i e s).2 a' ∧ Rep (time_after t i) (cts (perform i e s).1) a'.
Proof.
  intros Hi. destruct i as [[]|]; cbn [perform shown fst snd] in *.
  - apply create_sim, Hi.
  - apply get_sim.
  - apply update_sim.
  - apply iam_sim.
  - apply list_sim.
  - apply delete_sim.
  - apply add_sim.
  - apply get_version_sim.
  - apply access_sim.
  - apply list_versions_sim.
  - apply set_state_sim.
  - apply destroy_sim.
  - apply keys_sim.
  - by apply advance_sim.
  - apply reset_sim.
  - apply turn_sim.
Qed.

Lemma perform_Inv i : item_ok i → Inv (B + 1) (cts (perform i e s).1).
Proof.
  intros Hi. destruct i as [o|].
  - destruct (exec_post B e s o HI HB Hi) as [H _]. by destruct o.
  - assert (wp e s Sweep (λ _ s', Inv (B + 1) (cts s'))) as H; [|exact H].
    apply (wp_Sweep B); [done|lia|done|]. intros s' m' next (-> & _) HI' _ _. apply (Inv_mono B); [lia|done].
Qed.

End item.

(** ** Histories *)

(** The answers of a store to a sequence of items, each with its surroundings. *)
Fixpoint history s (l : list (Env * item)) : list (Time * item * res error answer) :=
  match l with
  | [] => []
  | (e, i) :: rest => (clock e s, i, (perform i e s).2) :: history (perform i e s).1 rest
  end.

(** The surroundings of a sequence: no Cloud KMS, and clocks that do not go back. *)
Fixpoint timely (t : Time) s (l : list (Env * item)) : Prop :=
  match l with
  | [] => True
  | (e, i) :: rest =>
      (t ≤ clock e s)%Z ∧ keyService e = None ∧ env_ok e ∧ sane (clock e s) ∧ item_ok e s i ∧
      timely (time_after (clock e s) i) (perform i e s).1 rest
  end.

Lemma history_refines B t s a l :
  Inv B (cts s) → (1 ≤ B)%Z → (B + Z.of_nat (length l) < int_max)%Z → Rep t (cts s) a → timely t s l →
  ∃ a', spec_run t a (history s l) a'.
Proof.
  revert B t s a. induction l as [|[e i] l IH]; intros B t s a HI HB Hlen HR Hl; [by exists a; constructor|].
  destruct Hl as (Ht & Hkms & He & Hsane & Hi & Hrest). cbn [length history] in *.
  pose proof (Rep_elapse _ _ _ _ Ht HR) as HR'. assert (1 ≤ B < int_max)%Z as HB' by lia.
  destruct (perform_sim B e s _ HI HB' He Hsane Hkms HR' i Hi) as (a1 & Hstep & HR1).
  pose proof (perform_Inv B e s HI HB' Hsane i Hi) as HI1.
  destruct (IH (B + 1)%Z _ _ a1 HI1 ltac:(lia) ltac:(lia) HR1 Hrest) as (a2 & Hrun). exists a2. by econstructor.
Qed.


End refine.
