(* ===== verification/SecretsExamples.v ===== *)
(** * Runs of Secret Manager

    Concrete runs: the theorems' witnesses, and the places where the code does not
    do what it says. *)

From S2P Require Import Prelude GoLib ApiError Resource MetaStore IamPolicy Handler GoCrypto SecretsModel SecretsNames SecretsStore SecretsInv SecretsOps SecretsEffects SecretsSweep SecretsSpec SecretsRun SecretsAccess SecretsRefine.
From Stdlib Require Import Ascii.

Import strings strconv time.

Module SecretsRuns.

(** A cipher that keeps the plaintext, and a key service that does too. *)
#[local] Instance plain_crypto : Crypto := {|
  sha256_hex := λ s, s;
  gcm_Seal := λ _ _ pt _, pt;
  gcm_Open := λ _ _ ct _, Some ct |}.
#[local] Instance plain_laws : CryptoLaws.
Proof. done. Qed.

Definition plain_kms : KeyService := mkKeyService (λ key pt _, Ok (key +:+ "/cryptoKeyVersions/1", pt)) (λ _ ct _, Ok ct).

(** The base clock's reading, some time in 1997. *)
Definition t0 : Time := (63000000000 * Second)%Z.

Definition at_ (t : Time) : Env :=
  mkEnv t None (Some plain_kms) (Some "0123456789abcdef0123456789abcdef") (Some "123456789012") "e" (λ l, l).
Definition bare (t : Time) : Env := mkEnv t None None None None "e" (λ l, l).

Definition no_schedule : Schedule := mkSchedule zero 0%Z 0%Z.
Definition create (expire : Time) (sch : Schedule) (keys : option (list string)) : op :=
  OCreate "p" "x" ∅ ∅ expire [] sch keys "automatic" [].
Definition key : string := "projects/p/locations/global/keyRings/r/cryptoKeys/k".

Abbreviation store := (Store (Memory.Memory doc)).
Definition empty : store := NewStore Memory.NewMemory.

Definition created : store := exec (create zero no_schedule (Some [key])) (at_ t0) empty.
Definition one : store := exec (OAdd "p" "x" "hunter2" false) (at_ t0) created.

Lemma at_ok t : env_ok (at_ t).
Proof. by intros l. Qed.
Lemma bare_ok t : env_ok (bare t).
Proof. by intros l. Qed.
Lemma sane_by t : ((0 <? t) && json_ok t && json_ok (Add t MaxRotation))%Z = true → sane t.
Proof. intros [[H1%Z.ltb_lt H2]%andb_true_iff H3]%andb_true_iff. done. Qed.

(** An operation that needs nothing of its arguments. *)
Lemma plain_op s (o : op) (e : Env) :
  env_ok e → sane (clock e s) → match o with OAdvance _ => False | OCreate p _ _ _ _ _ _ _ _ _ => free_of slash p = true | _ => True end →
  op_ok (S := Memory.Memory doc) e s o.
Proof. intros He Ht Ho. split; [done|]. split; [done|]. by destruct o. Qed.

Lemma empty_Inv : Inv 1 (contents (db empty)).
Proof. apply Inv_empty. Qed.
Lemma created_Inv : Inv 2 (contents (db created)).
Proof.
  apply (exec_post 1 (at_ t0) empty (create zero no_schedule (Some [key])) empty_Inv ltac:(done)).
  apply plain_op; [apply at_ok|by apply sane_by|done].
Qed.
Lemma one_Inv : Inv 3 (contents (db one)).
Proof.
  apply (exec_post 2 (at_ t0) created (OAdd "p" "x" "hunter2" false) created_Inv ltac:(done)).
  apply plain_op; [apply at_ok|by apply sane_by|done].
Qed.

Example added_encrypted :
  (addVersion "p" "x" "hunter2" false (at_ t0) created).2 =
  Ok (mkVersion "projects/p/secrets/x/versions/1" 1 StateEnabled t0 zero zero "123456789012hunter2" 7
        (etag_of t0) [mkReplicaStatus "" key (key +:+ "/cryptoKeyVersions/1") "0123456789abcdef0123456789abcdef"] false).
Proof. vm_compute. reflexivity. Qed.

(** ** Witnesses *)

Lemma rotation_catches_up_witness : (100 < advance_rotation 10 100 30 ≤ 130)%Z.
Proof. exact (proj1 (proj2 (rotation_catches_up 10 100 30 ltac:(lia) ltac:(lia)))). Defined.

(** A secret that expires after an hour, and its sweep a day later. *)
Definition expiring : store := exec (create (t0 + Hour)%Z no_schedule None) (bare t0) empty.
Definition day_later : Time := (t0 + 24 * Hour)%Z.

Lemma expiring_Inv : Inv 2 (contents (db expiring)).
Proof.
  apply (exec_post 1 (bare t0) empty (create (t0 + Hour)%Z no_schedule None) empty_Inv ltac:(done)).
  apply plain_op; [apply bare_ok|by apply sane_by|done].
Qed.

Lemma sweep_runs_everything_due_witness :
  ∃ next s', Sweep (bare day_later) expiring = (s', Ok next) ∧
    ∀ y, awaited (contents (db s')) y → y = zero ∨ (day_later < y)%Z.
Proof.
  assert (sane (clock (bare day_later) expiring)) as Hs by by apply sane_by.
  destruct (sweep_runs_everything_due 2 (bare day_later) expiring expiring_Inv ltac:(done) Hs) as (next & s' & H1 & H2 & _).
  exists next, s'. split; [exact H1|]. exact H2.
Defined.

(** The server after a create and an add. *)
Definition m0 : machine := mkMachine empty (Sweeping Second) t0.
Definition m2 : machine := mkMachine one (Sweeping Second) t0.

Lemma m0_started : started m0.
Proof. done. Qed.
Lemma m0_m2 : nsteps step 2 m0 m2.
Proof.
  eapply nsteps_l.
  - apply (S_op (at_ t0) (create zero no_schedule (Some [key]))). apply plain_op; [apply at_ok|by apply sane_by|done].
  - eapply nsteps_l; [|apply nsteps_O]. apply (S_op (at_ t0) (OAdd "p" "x" "hunter2" false)).
    apply plain_op; [apply at_ok|by apply sane_by|done].
Qed.

Lemma documents_typed_witness : map_Forall fits (contents (db one)).
Proof. exact (proj1 (documents_typed 2 m0 m2 m0_started m0_m2 ltac:(done))). Defined.

(** What the add stored. *)
Definition first : Version :=
  mkVersion "projects/p/secrets/x/versions/1" 1 StateEnabled t0 zero zero "123456789012hunter2" 7
    (etag_of t0) [mkReplicaStatus "" key (key +:+ "/cryptoKeyVersions/1") "0123456789abcdef0123456789abcdef"] false.
Definition head : Secret := default (mkSecret "" zero ∅ ∅ "" [] [] 0 "" None zero [] zero 0%Z 0%Z ∅) (secret_at (contents (db one)) "p" "x").

Lemma version_lifecycle_witness :
  (∃ v', version_at (contents (db (exec (ODestroy "p" "x" "1") (at_ t0) one))) "p" "x" 1 = Some v' ∧ evolves first v') ∨
  (secret_at (contents (db (exec (ODestroy "p" "x" "1") (at_ t0) one))) "p" "x" = None ∧
   (deletes (ODestroy "p" "x" "1") "p" "x" ∨ Expired head (clock (at_ t0) (exec (ODestroy "p" "x" "1") (at_ t0) one)) = true)).
Proof.
  refine (version_lifecycle 2 m0 m2 (at_ t0) (ODestroy "p" "x" "1") "p" "x" head 1 first m0_started m0_m2 _ _ _ _ _).
  - done.
  - apply plain_op; [apply at_ok|by apply sane_by|done].
  - vm_compute. reflexivity.
  - done.
  - vm_compute. reflexivity.
Defined.

Lemma nothing_due_slept_through_witness :
  ∃ k y, (k ≤ 3)%nat ∧ nsteps run_step k m2 y ∧ ∀ t, awaited (contents (db (st y))) t → t = zero ∨ (base m2 + offset (st m2) < t)%Z.
Proof. apply (nothing_due_slept_through 2 m0 m2 m0_started m0_m2); [done|]. by apply sane_by. Defined.

(** A second add follows, and a day goes by. *)
Definition two : store := exec (OAdd "p" "x" "hunter3" false) (at_ t0) one.
Definition m3 : machine := mkMachine two (Sweeping Second) t0.
Definition m4 : machine := mkMachine two (Sweeping Second) day_later.

Lemma m2_m4 : nsteps (keeping "p" "x") 2 m2 m4.
Proof.
  apply (nsteps_l _ _ _ m3); [|eapply nsteps_l; [|apply nsteps_O]].
  - split; [|vm_compute; by eexists]. apply (S_op (at_ t0) (OAdd "p" "x" "hunter3" false)).
    apply plain_op; [apply at_ok|by apply sane_by|done].
  - split; [by apply (S_tick two (Sweeping Second) t0 day_later)|vm_compute; by eexists].
Qed.

Lemma added_payload_is_accessed_witness :
  ∃ s3 w', AccessVersion "p" "x" "1" (at_ day_later) two = (s3, Ok w') ∧ v_Payload w' = "hunter2" ∧ contents (db s3) = contents (db two).
Proof.
  assert (nsteps step 1 m0 (mkMachine created (Sweeping Second) t0)) as Hs.
  { eapply nsteps_l; [|apply nsteps_O]. apply (S_op (at_ t0) (create zero no_schedule (Some [key]))).
    apply plain_op; [apply at_ok|by apply sane_by|done]. }
  assert (op_ok (at_ t0) created (OAdd "p" "x" "hunter2" false)) as Hop by (apply plain_op; [apply at_ok|by apply sane_by|done]).
  assert (∃ w, version_at (contents (db two)) "p" "x" 1 = Some w ∧ evolves first w ∧ (v_State w = StateEnabled →
    ∃ s3 w', AccessVersion "p" "x" "1" (at_ day_later) two = (s3, Ok w') ∧ v_Payload w' = "hunter2" ∧ contents (db s3) = contents (db two)))
    as (w & Hw & _ & Hacc).
  { refine (added_payload_is_accessed 1 2 m0 _ (at_ t0) "p" "x" "hunter2" false one first m4 (at_ day_later)
      m0_started Hs eq_refl Hop _ _ _ m2_m4 _ eq_refl (at_ok _) _).
    - by intros nonce [= <-].
    - intros sec. by vm_compute; intros [= <-]; cbn; lia.
    - vm_compute. reflexivity.
    - vm_compute. discriminate.
    - intros sec kms _ [= <-]. exists plain_kms. split; [done|]. intros k pt aad ver ct _. cbn. by intros [= _ <-]. }
  apply Hacc. vm_compute in Hw. by injection Hw as <-.
Defined.

(** Whether a history of an instance without Cloud KMS is timely. *)
Definition saneb (t : Time) : bool := ((0 <? t) && json_ok t && json_ok (Add t MaxRotation))%Z.
Definition item_okb (t : Time) (s : store) (i : item) : bool :=
  match i with
  | Call (OCreate p _ _ _ _ _ _ _ _ _) => free_of slash p
  | Call (OAdvance d) => (d <? 0)%Z || in_int (offset s + d) && saneb (Add t d)
  | _ => true
  end.
Fixpoint timelyb (t : Time) (s : store) (l : list (Time * item)) : bool :=
  match l with
  | [] => true
  | (b, i) :: rest =>
      let t' := clock (bare b) s in
      (t <=? t')%Z && saneb t' && item_okb t' s i && timelyb (time_after t' i) (perform i (bare b) s).1 rest
  end.

Lemma timelyb_ok t s l : timelyb t s l = true → timely t s ((λ x, (bare x.1, x.2)) <$> l).
Proof.
  revert t s. induction l as [|[b i] l IH]; intros t s; [done|]. cbn [timelyb]. intros [[[H1 H2]%andb_true_iff H3]%andb_true_iff H4]%andb_true_iff.
  apply sane_by in H2. cbn [fmap list_fmap timely fst snd]. split; [by apply Z.leb_le|]. split; [done|]. split; [apply bare_ok|]. split; [done|].
  split; [|by apply IH]. destruct i as [o|]; [|done]. split; [apply bare_ok|]. split; [done|]. destruct o; try done. cbn in *.
  intros Hd. rewrite (proj2 (Z.ltb_ge _ _) Hd) in H3. apply andb_true_iff in H3 as [H3 H5]. split; [done|by apply sane_by].
Qed.

(** A history: create, two adds, a destruction with a delay, time passes. *)
Definition timed : list (Time * item) :=
  [(t0, Call (create zero (mkSchedule zero 0%Z (48 * Hour)%Z) None));
   (t0, Call (OAdd "p" "x" "one" false));
   (t0, Call (OAdd "p" "x" "two" false));
   (t0, Call (ODestroy "p" "x" "latest"));
   (day_later, Turn);
   (day_later, Call (OAdvance (72 * Hour)%Z));
   (day_later, Call (OListVersions "p" "x"))].
Definition calls : list (Env * item) := (λ x, (bare x.1, x.2)) <$> timed.

Example calls_answers :
  (history empty calls).*2 =
  [Ok (ASecret zero (48 * Hour)%Z 0);
   Ok (AVersion 1 (mkAVersion StateEnabled "one" zero));
   Ok (AVersion 2 (mkAVersion StateEnabled "two" zero));
   Ok (AVersion 2 (mkAVersion StateDisabled "two" (t0 + 48 * Hour)%Z));
   Ok ADone;
   Ok (ATime (t0 + 96 * Hour)%Z);
   Ok (AVersions [(2%Z, a_destroyed); (1%Z, mkAVersion StateEnabled "one" zero)])].
Proof. vm_compute. reflexivity. Qed.


(** ** Where the code does not do what it says

    On the durable store, whose writes can fail one at a time. *)

Abbreviation durable := (Store (Durable.Durable doc)).
Definition on_disk (d : gmap string doc) (faults : list (option Durable.fault)) : durable :=
  NewStore (Durable.mkDurable (Durable.Contents d) true d faults).
Definition fails : option Durable.fault := Some Durable.FRename.
Definition with_faults (s : durable) (faults : list (option Durable.fault)) : durable :=
  mkStore (Durable.mkDurable (Durable.file (db s)) true (Durable.data (db s)) faults) (offset s) (rearm s) (sent s).
Definition runs (l : list (Time * op)) (s : durable) : durable := fold_left (λ s x, exec x.2 (bare x.1) s) l s.

(** An expired secret with a version. *)
Definition old : durable := runs [(t0, create (t0 + Hour)%Z no_schedule None); (t0, OAdd "p" "x" "old" false)] (on_disk ∅ []).

(** CreateSecret takes any failure to read the secret for its absence.  When the
    deletion of an expired secret fails, the new secret is written beside the
    old versions and serves the old payload. *)
Example create_inherits_versions :
  let '(s, r) := CreateSecretEncrypted "p" "x" ∅ ∅ zero [] no_schedule None "automatic" [] (bare day_later) (with_faults old [fails]) in
  (∃ sec, r = Ok sec ∧ s_NextVersion sec = 1%Z) ∧
  ∃ v, (AccessVersion "p" "x" "latest" (bare day_later) s).2 = Ok v ∧ v_Payload v = "old".
Proof. vm_compute. split; eexists; split; reflexivity. Qed.

(** Reset deletes the secrets before their versions.  When it fails in between,
    the versions are left, and a secret of the same name serves them. *)
Example failed_reset_leaves_versions :
  let s := exec OReset (bare t0) (with_faults old [None; fails]) in
  let '(s, r) := CreateSecretEncrypted "p" "x" ∅ ∅ zero [] no_schedule None "automatic" [] (bare t0) s in
  (∃ sec, r = Ok sec) ∧ ∃ v, (AccessVersion "p" "x" "1" (bare t0) s).2 = Ok v ∧ v_Payload v = "old".
Proof. vm_compute. split; [by eexists|]. eexists; split; reflexivity. Qed.

(** scheduleDestroy writes the version before the secret's index.  When the second
    write fails the version says when it will be destroyed, no sweep ever
    destroys it, and a second DestroyVersion is refused. *)
Example failed_schedule_never_runs :
  let s := runs [(t0, create zero (mkSchedule zero 0%Z (48 * Hour)%Z) None); (t0, OAdd "p" "x" "kept" false)] (on_disk ∅ []) in
  let '(s, r) := DestroyVersion "p" "x" "1" (bare t0) (with_faults s [None; fails]) in
  let '(s, next) := Sweep (bare (t0 + 1000 * 24 * Hour)%Z) s in
  (∃ x, r = Err x) ∧ next = Ok zero ∧
  (∃ v, (GetVersion "p" "x" "1" (bare t0) s).2 = Ok v ∧ v_Payload v = "kept" ∧ v_ScheduledDestroy v = (t0 + 48 * Hour)%Z) ∧
  (DestroyVersion "p" "x" "1" (bare t0) s).2 = Err FailedPrecondition.
Proof. vm_compute. split; [by eexists|]. split; [reflexivity|]. split; [eexists; split; [reflexivity|split; reflexivity]|reflexivity]. Qed.

(** An expired secret that GetSecret or a sweep finds is announced to its topics;
    one that ListSecrets finds is deleted without a word. *)
Definition topic : string := "projects/p/topics/t".
Definition publishing (t : Time) : Env := mkEnv t (Some (λ _, None)) None None None "e" (λ l, l).
Definition announced : store :=
  exec (OCreate "p" "x" ∅ ∅ (t0 + Hour)%Z [topic] no_schedule None "automatic" []) (publishing t0) empty.

Example list_deletes_silently :
  m_event <$> sent (ListSecrets "p" (publishing day_later) announced).1 = [EventTopicConfigured; EventSecretCreate] ∧
  m_event <$> sent (GetSecret "p" "x" (publishing day_later) announced).1 = [EventTopicConfigured; EventSecretCreate; EventSecretDelete] ∧
  secret_at (contents (db (ListSecrets "p" (publishing day_later) announced).1)) "p" "x" = None.
Proof. vm_compute. split_and!; reflexivity. Qed.

End SecretsRuns.
