(* ===== verification/SecretsFilter.v ===== *)
(** * internal/service/secrets/filter.go: list filters

    The lexer with its two modes, the recursive-descent parser, the checks of a
    restriction's values and its evaluation on secrets and versions.  Error texts
    are not modelled, only their codes.  Case-insensitive matching folds ASCII
    letters. *)

From S2P Require Import Prelude GoLib ApiError Resource MetaStore Float64 Sched IamPolicy Handler FilterText GoCrypto SecretsModel SecretsNames SecretsStore.
From Stdlib Require Import Ascii.

Import strings time.

(** [time.Parse] with the layout 2006-01-02, and [Format] in UTC with RFC3339Nano. *)
Class TimeText := {
  ParseDate : string → option Time;
  FormatNano : Time → string
}.

(** ** Values *)

Inductive valueKind := VNone | VStr | VTime | VDur.

Record filterValue := mkFilterValue { fv_set : bool; fv_strs : list string; fv_t : Time; fv_d : Duration; fv_kind : valueKind }.

Definition unset (k : valueKind) : filterValue := mkFilterValue false [] zero 0%Z k.
Definition timeValue (t : Time) : filterValue := mkFilterValue (negb (IsZero t)) [] t 0%Z VTime.
Definition strValue (s : list string) : filterValue := mkFilterValue (negb (bool_decide (s = []))) s zero 0%Z VStr.
Definition durValue (d : Duration) : filterValue := mkFilterValue (0 <? d)%Z [] zero d VDur.

(** [prefix] is the field's name with a dot. *)
Definition mapValue (m : gmap string string) (field prefix : string) : filterValue :=
  if bool_decide (field = TrimSuffix prefix ".") then strValue (elements (dom m))
  else match m !! TrimPrefix field prefix with
       | None => unset VStr
       | Some v => strValue [v]
       end.

(** ** Fields *)

Definition unsetSecretFields : list string := ["version_aliases"].

(** Whether the field names automatic replication's key. *)
Definition cmekFilterFields (field : string) : option bool :=
  if bool_decide (field ∈ ["replication.user_managed.replicas.customerManagedEncryption";
       "replication.user_managed.replicas.customerManagedEncryption.kmsKeyName";
       "replication.user_managed.replicas.customer_managed_encryption";
       "replication.user_managed.replicas.customer_managed_encryption.kms_key_name"]) then Some false
  else if bool_decide (field ∈ ["replication.automatic.customerManagedEncryption";
       "replication.automatic.customer_managed_encryption";
       "replication.automatic.customerManagedEncryption.kmsKeyName";
       "replication.automatic.customer_managed_encryption.kms_key_name"]) then Some true
  else None.

Definition cmekFilterValue (s : Secret) (automatic : bool) : filterValue :=
  if negb (Bool.eqb automatic (negb (bool_decide (s_Replication s = "user-managed")))) then unset VStr
  else strValue (filter (λ k, k ≠ "") (s_KMSKeys s)).

Definition secretFieldKind (field : string) : option valueKind :=
  if bool_decide (field ∈ ["name"; "replication.automatic"; "replication.user_managed.replicas.location"])
     || HasPrefix field "labels." || HasPrefix field "annotations."
     || bool_decide (field ∈ ["labels"; "annotations"; "topics"; "topics.name"]) then Some VStr
  else if bool_decide (field ∈ ["create_time"; "expire_time"; "rotation.next_rotation_time"]) then Some VTime
  else if bool_decide (field = "rotation") then Some VStr
  else if bool_decide (field ∈ ["rotation.rotation_period"; "version_destroy_ttl"]) then Some VDur
  else if bool_decide (field ∈ unsetSecretFields) then Some VStr
  else if cmekFilterFields field then Some VStr else None.

Definition versionFieldKind (field : string) : option valueKind :=
  if bool_decide (field ∈ ["name"; "state"]) then Some VStr
  else if bool_decide (field ∈ ["create_time"; "destroy_time"]) then Some VTime
  else None.

Definition secretField (s : Secret) (field : string) : filterValue :=
  if bool_decide (field = "name") then strValue [s_Name s]
  else if bool_decide (field = "labels") || HasPrefix field "labels." then mapValue (s_Labels s) field "labels."
  else if bool_decide (field = "annotations") || HasPrefix field "annotations." then mapValue (s_Annotations s) field "annotations."
  else if bool_decide (field = "create_time") then timeValue (s_Created s)
  else if bool_decide (field = "expire_time") then timeValue (s_Expire s)
  else if bool_decide (field = "replication.automatic") then
    if bool_decide (s_Replication s = "user-managed") then unset VStr else mkFilterValue true [""] zero 0%Z VStr
  else if bool_decide (field = "replication.user_managed.replicas.location") then strValue (s_ReplicaLocations s)
  else if bool_decide (field = "topics") || bool_decide (field = "topics.name") then strValue (s_Topics s)
  else if bool_decide (field = "rotation") then
    if IsZero (s_NextRotation s) && (s_RotationPeriod s =? 0)%Z then unset VStr else mkFilterValue true [""] zero 0%Z VStr
  else if bool_decide (field = "rotation.next_rotation_time") then timeValue (s_NextRotation s)
  else if bool_decide (field = "rotation.rotation_period") then durValue (s_RotationPeriod s)
  else if bool_decide (field = "version_destroy_ttl") then durValue (s_VersionDestroyTTL s)
  else match cmekFilterFields field with
       | Some automatic => cmekFilterValue s automatic
       | None => unset VNone
       end.

Definition state_string (s : VersionState) : string :=
  match s with StateEnabled => "ENABLED" | StateDisabled => "DISABLED" | StateDestroyed => "DESTROYED" end.

Definition versionField (v : Version) (field : string) : filterValue :=
  if bool_decide (field = "name") then strValue [v_Name v]
  else if bool_decide (field = "state") then strValue [state_string (v_State v)]
  else if bool_decide (field = "create_time") then timeValue (v_Created v)
  else if bool_decide (field = "destroy_time") then timeValue (v_Destroyed v)
  else unset VNone.

(** ** Matching *)

Inductive filterNode :=
| FAnd (kids : list filterNode)
| FOr (kids : list filterNode)
| FNot (kid : filterNode)
| FRestriction (field cmp : string) (values : list string).

(** [c] is the order of the field's value and the filter's. *)
Definition compare (c : Datatypes.comparison) (cmp : string) : bool :=
  if bool_decide (cmp = "=") then match c with Eq => true | _ => false end
  else if bool_decide (cmp = "<") then match c with Lt => true | _ => false end
  else if bool_decide (cmp = ">") then match c with Gt => true | _ => false end
  else if bool_decide (cmp = "<=") then match c with Gt => false | _ => true end
  else if bool_decide (cmp = ">=") then match c with Lt => false | _ => true end
  else false.

Section values.
Context `{Platform} `{Parsing} `{TimeText}.

Definition parseFilterTime (s : string) : option Time :=
  match ParseTime s with Some t => Some t | None => ParseDate s end.

Definition parseFilterDuration (s : string) : option Duration :=
  if negb (HasSuffix s "s") then None
  else secs ← ParseFloat (TrimSuffix s "s"); Some (Duration_of (mul secs (of_int Second))).

(** A value that does not parse reads as zero, as the code's ignored error does;
    none gets past the check of the parser. *)
Definition valueMatches (v : filterValue) (cmp want : string) : bool :=
  if bool_decide (cmp = ":") && bool_decide (want = "*") then fv_set v
  else if negb (fv_set v) then false
  else match fv_kind v with
       | VTime =>
           if bool_decide (cmp = ":") then Contains (ToLower (FormatNano (fv_t v))) (ToLower want)
           else compare (Z.compare (fv_t v) (default zero (parseFilterTime want))) cmp
       | VDur =>
           let w := default 0%Z (parseFilterDuration want) in
           compare (Z.compare (fv_d v) w) (if bool_decide (cmp = ":") then "=" else cmp)
       | _ =>
           existsb (λ s, if bool_decide (cmp = ":") then Contains (ToLower s) (ToLower want) else compare (Compare s want) cmp)
             (fv_strs v)
       end.

Definition restrictionMatches (v : filterValue) (cmp : string) (values : list string) : bool :=
  existsb (valueMatches v cmp) values.

(** [eval], with the value of a field of the resource. *)
Fixpoint eval (lookup : string → filterValue) (n : filterNode) : bool :=
  match n with
  | FAnd kids => forallb (eval lookup) kids
  | FOr kids => existsb (eval lookup) kids
  | FNot kid => negb (eval lookup kid)
  | FRestriction field cmp values =>
      if bool_decide (cmp = "!=") then negb (restrictionMatches (lookup field) "=" values)
      else restrictionMatches (lookup field) cmp values
  end.

(** [matches]: no filter matches everything. *)
Definition matches (f : option filterNode) (lookup : string → filterValue) : bool :=
  match f with None => true | Some root => eval lookup root end.

(** ** The lexer *)

Record filterToken := mkToken { text : string; quoted : bool }.
Abbreviation bare w := (mkToken w false).

Definition op_bytes : string := "=!<>:~".
Abbreviation squote := "039"%char.

Definition is_quote (c : ascii) : bool := bool_decide (c = dquote) || bool_decide (c = squote).
Definition is_paren (c : ascii) : bool := bool_decide (c = "("%char) || bool_decide (c = ")"%char).
Definition value_byte (c : ascii) : bool := negb (IsSpace c) && negb (is_paren c).
Definition word_byte (c : ascii) : bool :=
  negb (IsSpace c) && negb (is_paren c || ContainsRune op_bytes c || is_quote c).

(** The inside of a quoted string, up to the quote [q], and what follows it. *)
Fixpoint lex_quoted (q : ascii) (s : string) : option (string * string) :=
  match s with
  | EmptyString => None
  | String c s' =>
      if bool_decide (c = q) then Some ("", s')
      else if bool_decide (c = backslash) then
        match s' with
        | String d s'' => '(b, r) ← lex_quoted q s''; Some (String d b, r)
        | EmptyString => None
        end
      else '(b, r) ← lex_quoted q s'; Some (String c b, r)
  end.

(** The operator at [c], and what follows it. *)
Definition lex_op (c : ascii) (s' : string) : string * string :=
  match s' with
  | String d s'' =>
      if negb (bool_decide (c = "="%char)) && negb (bool_decide (c = ":"%char)) &&
         (bool_decide (d = "="%char) || bool_decide (c = "!"%char) && bool_decide (d = "~"%char))
      then (String c (String d ""), s'') else (String c "", s')
  | EmptyString => (String c "", s')
  end.

(** One turn of the loop of [lexFilter], over the rest of the loop, which takes
    afterOp, inList and the text. *)
Definition lex_body (lex : bool → bool → string → option (res error (list filterToken))) (afterOp inList : bool) (s : string)
    : option (res error (list filterToken)) :=
  match s with
  | EmptyString => Some (Ok [])
  | String c s' =>
      let emit tok afterOp inList rest := option_map (λ r, toks ← r; Ok (tok :: toks)) (lex afterOp inList rest) in
      if IsSpace c then lex afterOp inList s'
      else if is_paren c then
        emit (bare (String c "")) false
          (if bool_decide (c = "("%char) && afterOp then true else if bool_decide (c = ")"%char) then false else inList) s'
      else if (afterOp || inList) && negb (is_quote c) then
        let '(a, rest) := span value_byte s in emit (bare a) false inList rest
      else if is_quote c then
        match lex_quoted c s' with
        | None => Some (Err InvalidArgument)
        | Some (b, rest) => emit (mkToken b true) false inList rest
        end
      else if ContainsRune op_bytes c then
        let '(o, rest) := lex_op c s' in emit (bare o) true inList rest
      else let '(a, rest) := span word_byte s in emit (bare a) afterOp inList rest
  end.

(** [None] is out of fuel. *)
Fixpoint lexFilter (fuel : nat) (afterOp inList : bool) (s : string) : option (res error (list filterToken)) :=
  match fuel with O => None | S fuel => lex_body (lexFilter fuel) afterOp inList s end.

(** ** The parser: the state is the tokens from the position on *)

Definition keyword (toks : list filterToken) (w : string) : bool :=
  match toks with t :: _ => negb (quoted t) && bool_decide (text t = w) | [] => false end.

Definition isFilterOp (s : string) : bool :=
  bool_decide (s ∈ ["="; "!="; "<"; ">"; "<="; ">="; ":"; "~"; "!~"; "!"]).

(** The loop over a value list, behind its parenthesis. *)
Fixpoint value_list (toks : list filterToken) : res error (list string * list filterToken) :=
  match toks with
  | [] => Err InvalidArgument
  | t :: toks =>
      if negb (quoted t) && bool_decide (text t = ")") then Ok ([], toks)
      else if negb (quoted t) && bool_decide (text t = "OR") then value_list toks
      else if negb (quoted t) && bool_decide (text t ∈ ["AND"; "NOT"]) then Err Unimplemented
      else '(vs, rest) ← value_list toks; Ok (text t :: vs, rest)
  end.

(** Whether a field of a kind takes a value. *)
Definition check_value (kind : valueKind) (op v : string) : bool :=
  if bool_decide (v = "*") then bool_decide (op = ":")
  else match kind with
       | VTime => bool_decide (op = ":") || bool_decide (is_Some (parseFilterTime v))
       | VDur => bool_decide (is_Some (parseFilterDuration v))
       | _ => true
       end.

Section parser.
Context (kindOf : string → option valueKind).

Definition parseRestriction (field : string) (toks : list filterToken) : res error (filterNode * list filterToken) :=
  match toks with
  | [] => Err Unimplemented
  | o :: toks =>
      if quoted o || negb (isFilterOp (text o)) then Err Unimplemented
      else if bool_decide (text o ∈ ["~"; "!~"; "!"]) then Err Unimplemented
      else match kindOf field with
      | None => Err Unimplemented
      | Some kind =>
          '(values, rest) ←
            (if keyword toks "(" then
               '(vs, rest) ← value_list (tail toks);
               if bool_decide (vs = []) then Err InvalidArgument else Ok (vs, rest)
             else match toks with
                  | [] => Err InvalidArgument
                  | t :: rest =>
                      if negb (quoted t) && bool_decide (text t ∈ [")"; "("]) then Err InvalidArgument else Ok ([text t], rest)
                  end);
          if forallb (check_value kind (text o)) values then Ok (FRestriction field (text o) values, rest)
          else Err InvalidArgument
      end
  end.

(** An answer of the parser; [None] is out of fuel. *)
Abbreviation answer A := (option (res error (A * list filterToken))).

Definition then_ {A B} (r : answer A) (k : A → list filterToken → answer B) : answer B :=
  match r with
  | None => None
  | Some (Err e) => Some (Err e)
  | Some (Ok (a, toks)) => k a toks
  end.

(** The loop of [parseAnd]: the terms from here on; [some] is whether there is one
    before. *)
Definition and_body (por : list filterToken → answer filterNode) (pand : bool → list filterToken → answer (list filterNode))
    (some : bool) (toks : list filterToken) : answer (list filterNode) :=
  if match toks with [] => true | _ => keyword toks ")" end then Some (Ok ([], toks))
  else if keyword toks "AND" then
    if some then pand true (tail toks) else Some (Err InvalidArgument)
  else then_ (por toks) (λ n toks, then_ (pand true toks) (λ rest toks, Some (Ok (n :: rest, toks)))).

(** [parseAnd] once its loop is done. *)
Definition and_node (r : answer (list filterNode)) : answer filterNode :=
  then_ r (λ terms toks, Some (match terms with
                               | [] => Err InvalidArgument
                               | [n] => Ok (n, toks)
                               | _ => Ok (FAnd terms, toks)
                               end)).

(** The loop of [parseOr]: the terms that follow the first. *)
Definition or_body (punary : list filterToken → answer filterNode) (por : list filterToken → answer (list filterNode))
    (toks : list filterToken) : answer (list filterNode) :=
  if keyword toks "OR" then
    then_ (punary (tail toks)) (λ n toks, then_ (por toks) (λ rest toks, Some (Ok (n :: rest, toks))))
  else Some (Ok ([], toks)).

Definition or_node (first : filterNode) (terms : list filterNode) : filterNode :=
  match terms with [] => first | _ => FOr (first :: terms) end.

(** A "-" in front of more text. *)
Definition negation (s : string) : option string :=
  match s with String "-" (String _ _ as r) => Some r | _ => None end.

Definition unary_body (punary : list filterToken → answer filterNode) (pand : list filterToken → answer filterNode)
    (toks : list filterToken) : answer filterNode :=
  match toks with
  | [] => Some (Err InvalidArgument)
  | t :: rest =>
      let negated toks := then_ (punary toks) (λ n toks, Some (Ok (FNot n, toks))) in
      if negb (quoted t) && bool_decide (text t ∈ ["NOT"; "-"]) then negated rest
      else match (if quoted t then None else negation (text t)) with
      | Some r => negated (bare r :: rest)
      | None =>
          if negb (quoted t) && bool_decide (text t = "(") then
            then_ (pand rest) (λ n toks, Some (if keyword toks ")" then Ok (n, tail toks) else Err InvalidArgument))
          else Some (parseRestriction (text t) rest)
      end
  end.

Fixpoint and_loop (fuel : nat) (some : bool) (toks : list filterToken) : answer (list filterNode) :=
  match fuel with O => None | S fuel => and_body (parseOr fuel) (and_loop fuel) some toks end
with parseOr (fuel : nat) (toks : list filterToken) : answer filterNode :=
  match fuel with
  | O => None
  | S fuel => then_ (parseUnary fuel toks) (λ n toks, then_ (or_loop fuel toks) (λ ns toks, Some (Ok (or_node n ns, toks))))
  end
with or_loop (fuel : nat) (toks : list filterToken) : answer (list filterNode) :=
  match fuel with O => None | S fuel => or_body (parseUnary fuel) (or_loop fuel) toks end
with parseUnary (fuel : nat) (toks : list filterToken) : answer filterNode :=
  match fuel with O => None | S fuel => unary_body (parseUnary fuel) (λ toks, and_node (and_loop fuel false toks)) toks end.

Definition parseAnd (fuel : nat) (toks : list filterToken) : answer filterNode := and_node (and_loop fuel false toks).

(** What the remaining input can still cost. *)
Definition weight (toks : list filterToken) : nat := list_sum ((λ t, 1 + String.length (text t))%nat <$> toks).

Definition ErrFuel : error := Sentinel "out of fuel".

(** [parseFilter]: the compiled filter, [None] for an empty one. *)
Definition parseFilter (f : string) : res error (option filterNode) :=
  if bool_decide (TrimSpace f = "") then Ok None
  else
    toks ← default (Err ErrFuel) (lexFilter (S (String.length f)) false false f);
    '(root, rest) ← default (Err ErrFuel) (parseAnd (4 * weight toks + 4) toks);
    match rest with [] => Ok (Some root) | _ => Err InvalidArgument end.

End parser.

Definition parseSecretFilter : string → res error (option filterNode) := parseFilter secretFieldKind.
Definition parseVersionFilter : string → res error (option filterNode) := parseFilter versionFieldKind.

Definition filterList {A} (lookup : A → string → filterValue) (items : list A) (f : option filterNode) : list A :=
  filter (λ it, matches f (lookup it) = true) items.

Definition listTotal (n : nat) (f : option filterNode) : Z := if f then 0%Z else wrap_i32 (Z.of_nat n).

End values.

(** ** The lexer and the parser end *)

Lemma filter_quoted_length q s b r : lex_quoted q s = Some (b, r) → (String.length r < String.length s)%nat.
Proof.
  revert s b r. fix IH 1. intros [|c s] b r; cbn; [done|].
  case_bool_decide; [intros [= <- <-]; lia|]. case_bool_decide.
  - destruct s as [|d s]; [done|]. destruct (lex_quoted q s) as [[b' r']|] eqn:E; [|done]. intros [= <- <-].
    apply IH in E. cbn. lia.
  - destruct (lex_quoted q s) as [[b' r']|] eqn:E; [|done]. intros [= <- <-]. apply IH in E. lia.
Qed.

Lemma lex_op_length c s o r : lex_op c s = (o, r) → (String.length r ≤ String.length s)%nat.
Proof. destruct s as [|d s]; cbn; [by intros [= <- <-]|]. destruct (_ && _); intros [= <- <-]; cbn; lia. Qed.

(** A byte with [P] makes the span that starts at it longer than nothing. *)
Lemma span_progress P c s a r : P c = true → span P (String c s) = (a, r) → (String.length r ≤ String.length s)%nat.
Proof.
  intros Hc. cbn. rewrite Hc. destruct (span P s) as [x y] eqn:Hs. intros [= <- <-]. apply span_length in Hs. lia.
Qed.

Lemma word_byte_of c : IsSpace c = false → is_paren c = false → is_quote c = false → ContainsRune op_bytes c = false → word_byte c = true.
Proof. unfold word_byte. by intros -> -> -> ->. Qed.
Lemma value_byte_of c : IsSpace c = false → is_paren c = false → value_byte c = true.
Proof. unfold value_byte. by intros -> ->. Qed.

Lemma lexFilter_total fuel afterOp inList s :
  (String.length s < fuel)%nat →
  ∃ r, lexFilter fuel afterOp inList s = Some r ∧ match r with Ok _ => True | Err e => e = InvalidArgument end.
Proof.
  revert afterOp inList s. induction fuel as [|fuel IH]; intros afterOp inList s Hs; [lia|]. cbn [lexFilter]. unfold lex_body.
  assert (∀ tok x y rest, (String.length rest < fuel)%nat →
    ∃ r, option_map (λ r, toks ← r; Ok (tok :: toks)) (lexFilter fuel x y rest) = Some r ∧
         match r with Ok _ => True | Err e => e = InvalidArgument end) as Hemit.
  { intros tok x y rest Hr. destruct (IH x y rest) as (r & -> & Hr'); [lia|]. cbn. eexists. split; [done|]. by destruct r. }
  destruct s as [|c s]; [by eexists|]. cbn [String.length] in Hs.
  destruct (IsSpace c) eqn:Hsp; [apply IH; lia|]. destruct (is_paren c) eqn:Hpar; [apply Hemit; lia|].
  destruct ((afterOp || inList) && negb (is_quote c)).
  { destruct (span value_byte (String c s)) as [a rest] eqn:Hspan. apply Hemit.
    apply span_progress in Hspan; [lia|by apply value_byte_of]. }
  destruct (is_quote c) eqn:Hq.
  { destruct (lex_quoted c s) as [[b rest]|] eqn:Hlq; [|by eexists]. apply filter_quoted_length in Hlq. apply Hemit. lia. }
  destruct (ContainsRune op_bytes c) eqn:Hop.
  - destruct (lex_op c s) as [o rest] eqn:Hlo. apply lex_op_length in Hlo. apply Hemit. lia.
  - destruct (span word_byte (String c s)) as [a rest] eqn:Hspan. apply Hemit.
    apply span_progress in Hspan; [lia|by apply word_byte_of].
Qed.

Section total.
Context `{Platform} `{Parsing} `{TimeText} (kindOf : string → option valueKind).

(** A refusal is INVALID_ARGUMENT or UNIMPLEMENTED. *)
Definition refused (e : error) : Prop := e = InvalidArgument ∨ e = Unimplemented.

(** The parser answered: a refusal, or something parsed and at most [bound] of
    input left. *)
Definition answered {A} (bound : nat) (r : option (res error (A * list filterToken))) : Prop :=
  match r with
  | None => False
  | Some (Err e) => refused e
  | Some (Ok (_, toks)) => (weight toks ≤ bound)%nat
  end.

Lemma weight_tok t toks : weight (t :: toks) = (1 + String.length (text t) + weight toks)%nat.
Proof. done. Qed.

Lemma weight_tail toks : (weight (tail toks) ≤ weight toks)%nat.
Proof. destruct toks; cbn; [done|]. unfold weight. lia. Qed.

Lemma answered_then {A B} bound bound' (r : option (res error (A * list filterToken))) (k : A → list filterToken → option (res error (B * list filterToken))) :
  answered bound r → (∀ a toks, (weight toks ≤ bound)%nat → answered bound' (k a toks)) → answered bound' (then_ r k).
Proof. destruct r as [[[a toks]|e]|]; cbn; [intros Hx Hk; by apply Hk|done|done]. Qed.

Lemma answered_le {A} b b' (r : option (res error (A * list filterToken))) : answered b r → (b ≤ b')%nat → answered b' r.
Proof. destruct r as [[[a toks]|e]|]; cbn; [lia|done|done]. Qed.

Lemma value_list_answered toks : answered (weight toks) (Some (value_list toks)).
Proof.
  induction toks as [|t toks IH]; cbn [value_list]; [by left|]. rewrite weight_tok.
  destruct (_ && bool_decide (text t = ")")); [cbn; lia|]. destruct (_ && bool_decide (text t = "OR")).
  { eapply answered_le; [done|lia]. }
  destruct (_ && _); [by right|]. destruct (value_list toks) as [[vs rest]|e]; cbn in *; [lia|done].
Qed.

Lemma secret_restriction_answered field toks : answered (weight toks) (Some (parseRestriction kindOf field toks)).
Proof.
  unfold parseRestriction. destruct toks as [|o toks]; [by right|]. rewrite weight_tok.
  destruct (_ || _); [by right|]. destruct (bool_decide _); [by right|]. destruct (kindOf field) as [kind|]; [|by right].
  set (r := if keyword toks "(" then _ else _). assert (answered (weight toks) (Some r)) as Hr.
  { unfold r. destruct (keyword toks "(").
    - pose proof (value_list_answered (tail toks)) as Hv. pose proof (weight_tail toks).
      destruct (value_list (tail toks)) as [[vs rest]|e]; cbn in *; [|done]. destruct (bool_decide (vs = [])); [by left|cbn; lia].
    - destruct toks as [|t toks]; [by left|]. destruct (_ && _); [by left|]. rewrite weight_tok. cbn. lia. }
  destruct r as [[vs rest]|e]; cbn in *; [|done]. destruct (forallb _ vs); [cbn; lia|by left].
Qed.

Lemma negation_shorter s r : negation s = Some r → (String.length r < String.length s)%nat.
Proof. destruct s as [|c [|d s]]; cbn; [done| |]; destruct c as [[] [] [] [] [] [] [] []]; try done. intros [= <-]. cbn. lia. Qed.

(** Fuel four times the weight of the input is enough for each function. *)
Lemma parser_total fuel :
  (∀ some toks, (4 * weight toks + 3 < fuel)%nat → answered (weight toks) (and_loop kindOf fuel some toks)) ∧
  (∀ toks, (4 * weight toks + 2 < fuel)%nat → toks ≠ [] → answered (weight toks - 1) (parseOr kindOf fuel toks)) ∧
  (∀ toks, (4 * weight toks + 1 < fuel)%nat → answered (weight toks) (or_loop kindOf fuel toks)) ∧
  (∀ toks, (4 * weight toks < fuel)%nat → answered (weight toks - 1) (parseUnary kindOf fuel toks)).
Proof.
  induction fuel as [|fuel (IHa & IHo & IHl & IHu)]; [split_and!; intros; lia|]. split_and!.
  - intros some toks Hf. cbn [and_loop]. unfold and_body. destruct toks as [|t toks]; [unfold answered; lia|].
    pose proof (weight_tok t toks) as Hw. destruct (keyword _ ")"); [unfold answered; lia|]. destruct (keyword _ "AND").
    { destruct some; [|by left]. cbn [tail]. eapply answered_le; [apply IHa|]; lia. }
    eapply answered_then; [apply IHo; [lia|done]|]. intros n rest Hr. eapply answered_then; [apply IHa; lia|].
    intros ns rest' Hr'. unfold answered; lia.
  - intros toks Hf Hne. cbn [parseOr]. destruct toks as [|t toks]; [done|]. pose proof (weight_tok t toks) as Hw.
    eapply answered_then; [apply IHu; lia|]. intros n rest Hr. eapply answered_then; [apply IHl; lia|].
    intros ns rest' Hr'. unfold answered; lia.
  - intros toks Hf. cbn [or_loop]. unfold or_body. destruct (keyword toks "OR") eqn:Hk; [|unfold answered; lia].
    destruct toks as [|t toks]; [done|]. pose proof (weight_tok t toks) as Hw. cbn [tail].
    eapply answered_then; [apply IHu; lia|]. intros n rest Hr. eapply answered_then; [apply IHl; lia|].
    intros ns rest' Hr'. unfold answered; lia.
  - intros toks Hf. cbn [parseUnary]. unfold unary_body. destruct toks as [|t toks]; [by left|].
    pose proof (weight_tok t toks) as Hw.
    assert (∀ toks', (weight toks' < weight (t :: toks))%nat → answered (weight (t :: toks) - 1)
      (then_ (parseUnary kindOf fuel toks') (λ n toks, Some (Ok (FNot n, toks))))) as Hneg.
    { intros toks' Hlt. eapply answered_then; [apply IHu; lia|]. intros n rest Hr. unfold answered; lia. }
    destruct (_ && bool_decide (text t ∈ _)); [apply Hneg; lia|].
    destruct (if quoted t then None else negation (text t)) as [r|] eqn:Hn.
    { apply Hneg. destruct (quoted t); [done|]. apply negation_shorter in Hn. rewrite weight_tok. cbn [text]. lia. }
    destruct (_ && _).
    + unfold and_node. eapply answered_then; [eapply answered_then; [apply IHa; lia|]|].
      * intros terms rest Hr. destruct terms as [|? []]; [by left|exact Hr|exact Hr].
      * intros n rest Hr. destruct (keyword rest ")"); [|by left]. pose proof (weight_tail rest). unfold answered; lia.
    + eapply answered_le; [apply secret_restriction_answered|lia].
Qed.

(** Every list filter is decided: the lexer and the parser end on any text,
    with a filter or with INVALID_ARGUMENT or UNIMPLEMENTED, and the recursion
    never runs deeper than four times the text is long. *)
Theorem secret_filter_decides f :
  match parseFilter kindOf f with
  | Ok _ => True
  | Err e => e = InvalidArgument ∨ e = Unimplemented
  end.
Proof.
  unfold parseFilter. destruct (bool_decide _); [done|].
  destruct (lexFilter_total (S (String.length f)) false false f) as (r & -> & Hr); [lia|].
  destruct r as [toks|e]; [|by left]. cbn [default from_option Datatypes.id res_bind mbind].
  destruct (parser_total (4 * weight toks + 4)) as (Ha & _). specialize (Ha false toks ltac:(lia)).
  assert (answered (weight toks) (parseAnd kindOf (4 * weight toks + 4) toks)) as Hp.
  { unfold parseAnd, and_node. eapply answered_then; [exact Ha|]. intros terms rest Hr'. destruct terms as [|? []]; [by left|exact Hr'|exact Hr']. }
  destruct (parseAnd _ _ toks) as [[[root rest]|e]|]; cbn in Hp |- *; [|done|done]. destruct rest; [done|by left].
Qed.

End total.
