(* ===== verification/SecretsFilterSpec.v ===== *)
(** * Secret Manager's list filters, written out and read back

    A printer of filters, and that the lexer and the parser read what it writes. *)

From S2P Require Import Prelude GoLib ApiError Resource MetaStore Float64 Sched IamPolicy Handler FilterText GoCrypto SecretsModel SecretsNames SecretsStore SecretsFilter.
From Stdlib Require Import Ascii.

Import strings time.

(** Induction over filters and the filters inside them. *)
Lemma filterNode_rec_forall (P : filterNode → Prop) :
  (∀ l, Forall P l → P (FAnd l)) → (∀ l, Forall P l → P (FOr l)) → (∀ n, P n → P (FNot n)) →
  (∀ f o vs, P (FRestriction f o vs)) → ∀ n, P n.
Proof.
  intros HA HO HN HR. fix IH 1. intros [l|l|n|f o vs]; [apply HA|apply HO|apply HN, IH|apply HR];
    (induction l as [|n l IHl]; [constructor|constructor; [apply IH|exact IHl]]).
Qed.

Abbreviation bare w := (mkToken w false).

(** ** The printer *)

(** Values quoted, with OR between them. *)
Fixpoint print_values (vs : list string) : list filterToken :=
  match vs with
  | [] => []
  | [v] => [mkToken v true]
  | v :: vs => mkToken v true :: bare "OR" :: print_values vs
  end.

Fixpoint join (sep : string) (l : list (list filterToken)) : list filterToken :=
  match l with
  | [] => []
  | [x] => x
  | x :: l => x ++ bare sep :: join sep l
  end.

(** A combination stands in parentheses where one expression is expected. *)
Definition paren (n : filterNode) (toks : list filterToken) : list filterToken :=
  match n with FAnd _ | FOr _ => bare "(" :: toks ++ [bare ")"] | _ => toks end.

Fixpoint print (n : filterNode) : list filterToken :=
  match n with
  | FAnd kids => join "AND" (map (λ k, paren k (print k)) kids)
  | FOr kids => join "OR" (map (λ k, paren k (print k)) kids)
  | FNot k => bare "NOT" :: paren k (print k)
  | FRestriction f o [v] => [bare f; bare o; mkToken v true]
  | FRestriction f o vs => bare f :: bare o :: bare "(" :: print_values vs ++ [bare ")"]
  end.

Abbreviation group n := (paren n (print n)).

Definition show_token (t : filterToken) : string :=
  if quoted t then String dquote (escape (text t) +:+ String dquote "") else text t.
Fixpoint show (toks : list filterToken) : string :=
  match toks with [] => "" | t :: toks => show_token t +:+ String " " (show toks) end.

Definition comparisons : list string := ["="; "!="; "<"; ">"; "<="; ">="; ":"].

(** A field that is one word and not read as something else. *)
Definition field_word (s : string) : bool :=
  negb (bool_decide (s = "")) && AllBytes word_byte s && negb (bool_decide (s ∈ ["NOT"; "AND"; "OR"; "-"])) &&
  match negation s with Some _ => false | None => true end.

Section spec.
Context `{Platform} `{Parsing} `{TimeText} (kindOf : string → option valueKind).

(** Filters as the parser builds them. *)
Fixpoint well_formed (n : filterNode) : bool :=
  match n with
  | FAnd kids | FOr kids => (2 <=? length kids)%nat && forallb well_formed kids
  | FNot k => well_formed k
  | FRestriction f o vs =>
      field_word f && bool_decide (o ∈ comparisons) && negb (bool_decide (vs = [])) &&
      match kindOf f with Some kind => forallb (check_value kind o) vs | None => false end
  end.

Abbreviation parseUnary := (SecretsFilter.parseUnary kindOf).
Abbreviation parseOr := (SecretsFilter.parseOr kindOf).
Abbreviation or_loop := (SecretsFilter.or_loop kindOf).
Abbreviation and_loop := (SecretsFilter.and_loop kindOf).

Lemma secret_weight_app a b : weight (a ++ b) = (weight a + weight b)%nat.
Proof. unfold weight. by rewrite fmap_app, list_sum_app. Qed.

Lemma parseOr_S fuel toks :
  parseOr (S fuel) toks = then_ (parseUnary fuel toks) (λ n toks, then_ (or_loop fuel toks) (λ ns toks, Some (Ok (or_node n ns, toks)))).
Proof. done. Qed.
Lemma or_loop_S fuel toks : or_loop (S fuel) toks = or_body (parseUnary fuel) (or_loop fuel) toks.
Proof. done. Qed.

Lemma and_loop_S fuel some toks : and_loop (S fuel) some toks = and_body (parseOr fuel) (and_loop fuel) some toks.
Proof. done. Qed.
Lemma parseUnary_S fuel toks :
  parseUnary (S fuel) toks = unary_body kindOf (parseUnary fuel) (λ toks, and_node (and_loop fuel false toks)) toks.
Proof. done. Qed.

(** ** One restriction *)

Lemma value_list_print v vs rest : value_list (print_values (v :: vs) ++ bare ")" :: rest) = Ok (v :: vs, rest).
Proof.
  revert v. induction vs as [|w vs IH]; intros v; [done|].
  change (print_values (v :: w :: vs)) with (mkToken v true :: bare "OR" :: print_values (w :: vs)).
  rewrite <- !app_comm_cons. cbn [value_list quoted text negb andb]. by rewrite IH.
Qed.

Lemma comparison_op o : o ∈ comparisons → isFilterOp o = true ∧ bool_decide (o ∈ ["~"; "!~"; "!"]) = false.
Proof. intros Ho. unfold comparisons in Ho. repeat (apply elem_of_cons in Ho as [->|Ho]; [done|]). by apply not_elem_of_nil in Ho. Qed.

Lemma restriction_print f o vs rest :
  well_formed (FRestriction f o vs) = true →
  ∃ t toks, print (FRestriction f o vs) = t :: toks ∧ t = bare f ∧ parseRestriction kindOf f (toks ++ rest) = Ok (FRestriction f o vs, rest).
Proof.
  cbn [well_formed]. intros [[[_ Ho]%andb_true_iff Hne]%andb_true_iff Hk]%andb_true_iff.
  apply bool_decide_eq_true in Ho. destruct (comparison_op o Ho) as [Hop Hre].
  destruct (kindOf f) as [kind|] eqn:Hkind; [|done]. destruct vs as [|v [|w vs]]; [done| |].
  - exists (bare f), [bare o; mkToken v true]. split; [done|]. split; [done|]. cbn [app]. unfold parseRestriction. cbn [quoted text orb].
    rewrite Hop, Hre, Hkind. cbn [negb keyword quoted andb res_bind mbind text]. by rewrite Hk.
  - exists (bare f), (bare o :: bare "(" :: print_values (v :: w :: vs) ++ [bare ")"]). split; [done|]. split; [done|].
    rewrite <- !app_comm_cons, <- List.app_assoc. unfold parseRestriction. cbn [quoted text orb]. rewrite Hop, Hre, Hkind. cbn [negb].
    change (keyword (bare "(" :: _) "(") with true. cbn [tail]. change ([bare ")"] ++ rest) with (bare ")" :: rest).
    rewrite value_list_print. cbn -[forallb]. by rewrite Hk.
Qed.

(** ** Expressions *)

(** The first token of an expression is not one that ends a list of terms. *)
Definition starts (toks : list filterToken) : Prop :=
  ∃ t toks', toks = t :: toks' ∧ keyword toks ")" = false ∧ keyword toks "AND" = false.

Lemma field_word_not f w : field_word f = true → w ∈ ["NOT"; "AND"; "OR"; "-"; "("; ")"] → f ≠ w.
Proof.
  intros Hf Hw ->. repeat (apply elem_of_cons in Hw as [->|Hw]; [by vm_compute in Hf|]). by apply not_elem_of_nil in Hw.
Qed.

Lemma group_starts n rest : well_formed n = true → starts (group n ++ rest).
Proof.
  destruct n as [l|l|n|f o vs]; intros Hwf; [by do 2 eexists..|].
  destruct (restriction_print f o vs rest Hwf) as (t & toks & Hp & -> & _). cbn [paren]. rewrite Hp.
  cbn [well_formed] in Hwf. do 3 apply andb_true_iff in Hwf as [Hwf _].
  do 2 eexists. split; [done|]. cbn. split; apply bool_decide_eq_false; apply (field_word_not f); by try set_solver.
Qed.

(** What follows a list of terms. *)
Definition ends (rest : list filterToken) : Prop := rest = [] ∨ keyword rest ")" = true.

Lemma ends_no_or rest : ends rest → keyword rest "OR" = false.
Proof.
  intros [-> |Hk]; [done|]. destruct rest as [|t rest]; [done|]. cbn in *. apply andb_true_iff in Hk as [-> Hk].
  apply bool_decide_eq_true in Hk. by rewrite Hk.
Qed.

Lemma and_loop_ends fuel some rest : ends rest → and_loop (S fuel) some rest = Some (Ok ([], rest)).
Proof. intros [-> |Hk]; [done|]. rewrite and_loop_S. unfold and_body. destruct rest; [done|]. by rewrite Hk. Qed.

(** The parser reads one expression back, given fuel for its tokens. *)
Definition reads (n : filterNode) : Prop :=
  ∀ rest fuel, (4 * weight (group n) + 1 ≤ fuel)%nat → parseUnary fuel (group n ++ rest) = Some (Ok (n, rest)).

Lemma or_loop_print kids rest fuel :
  Forall reads kids → Forall (λ k, well_formed k = true) kids → keyword rest "OR" = false →
  (4 * weight (concat (map (λ k, bare "OR" :: group k) kids)) + 1 ≤ fuel)%nat →
  or_loop fuel (concat (map (λ k, bare "OR" :: group k) kids) ++ rest) = Some (Ok (kids, rest)).
Proof.
  intros Hr. revert fuel. induction Hr as [|k kids Hk _ IH]; intros fuel Hwf Hrest Hf.
  { destruct fuel as [|fuel]; [lia|]. cbn [map concat app]. rewrite or_loop_S. unfold or_body. by rewrite Hrest. }
  apply Forall_cons in Hwf as [Hwk Hwf]. cbn [map concat] in Hf |- *. rewrite secret_weight_app, weight_tok in Hf. cbn [text String.length] in Hf.
  destruct fuel as [|fuel]; [lia|]. rewrite <- !app_comm_cons, <- List.app_assoc. rewrite or_loop_S. unfold or_body.
  change (keyword (bare "OR" :: _) "OR") with true. cbn [tail]. rewrite Hk by lia. cbn [then_]. rewrite IH by (done || lia). done.
Qed.

(** A term of a conjunction that is a single expression. *)
Lemma parseOr_one n rest fuel :
  reads n → keyword rest "OR" = false → (4 * weight (group n) + 2 ≤ fuel)%nat → parseOr fuel (group n ++ rest) = Some (Ok (n, rest)).
Proof.
  intros Hn Hrest Hf. destruct fuel as [|[|fuel]]; [lia|lia|]. rewrite parseOr_S, Hn by lia. cbn [then_].
  rewrite or_loop_S. unfold or_body. by rewrite Hrest.
Qed.

Lemma and_loop_step fuel some n toks rest ns rest' :
  starts toks → parseOr fuel toks = Some (Ok (n, rest)) → and_loop fuel true rest = Some (Ok (ns, rest')) →
  and_loop (S fuel) some toks = Some (Ok (n :: ns, rest')).
Proof.
  intros (t & toks' & -> & H1' & H2') Ho Ha. rewrite and_loop_S. unfold and_body. rewrite H1', H2', Ho. cbn [then_]. by rewrite Ha.
Qed.

Lemma and_loop_word fuel toks : and_loop (S fuel) true (bare "AND" :: toks) = and_loop fuel true toks.
Proof. done. Qed.

Lemma join_cons sep x l : join sep (x :: l) = x ++ concat (map (λ y, bare sep :: y) l).
Proof.
  revert x. induction l as [|y l IH]; intros x; [cbn; by rewrite List.app_nil_r|].
  change (join sep (x :: y :: l)) with (x ++ bare sep :: join sep (y :: l)). by rewrite IH.
Qed.

Lemma and_loop_print kids rest fuel :
  Forall reads kids → Forall (λ k, well_formed k = true) kids → ends rest →
  (4 * weight (concat (map (λ k, bare "AND" :: group k) kids)) + 4 ≤ fuel)%nat →
  and_loop fuel true (concat (map (λ k, bare "AND" :: group k) kids) ++ rest) = Some (Ok (kids, rest)).
Proof.
  intros Hr. revert fuel. induction Hr as [|k kids Hk _ IH]; intros fuel Hwf Hrest Hf.
  { destruct fuel as [|fuel]; [lia|]. by apply and_loop_ends. }
  apply Forall_cons in Hwf as [Hwk Hwf]. cbn [map concat] in Hf |- *. rewrite secret_weight_app, weight_tok in Hf. cbn [text String.length] in Hf.
  destruct fuel as [|[|fuel]]; [lia|lia|]. rewrite <- !app_comm_cons, <- List.app_assoc, and_loop_word.
  eapply and_loop_step; [by apply group_starts|apply parseOr_one; [done| |lia]|apply IH; [done|done|lia]].
  destruct kids; [by apply ends_no_or|done].
Qed.

(** The kids of a combination. *)
Lemma kids_wf kids :
  (2 <=? length kids)%nat && forallb well_formed kids = true →
  ∃ k1 l, kids = k1 :: l ∧ l ≠ [] ∧ Forall (λ k, well_formed k = true) (k1 :: l) ∧ (1 ≤ weight (group k1))%nat.
Proof.
  intros [Hlen Hwf]%andb_true_iff. apply Nat.leb_le in Hlen. destruct kids as [|k1 [|k2 kids]]; [cbn in Hlen; lia..|].
  assert (Forall (λ k, well_formed k = true) (k1 :: k2 :: kids)) as Hall.
  { apply Forall_forall. intros k Hk. rewrite forallb_forall in Hwf. apply Hwf. by apply list_elem_of_In. }
  exists k1, (k2 :: kids). split; [done|]. split; [done|]. split; [done|]. apply Forall_cons in Hall as [Hw1 _].
  destruct (group_starts k1 [] Hw1) as (t & toks & Ht & _). rewrite List.app_nil_r in Ht. rewrite Ht, weight_tok. lia.
Qed.

(** A whole filter is read back by [parseAnd], without parentheses around it. *)
Lemma parseAnd_print n rest fuel :
  well_formed n = true → (match n with FAnd l | FOr l => Forall reads l | _ => reads n end) → ends rest →
  (4 * weight (print n) + 4 ≤ fuel)%nat → parseAnd kindOf fuel (print n ++ rest) = Some (Ok (n, rest)).
Proof.
  intros Hwf Hr Hrest Hf. unfold parseAnd, and_node.
  assert (∀ n, paren n (print n) = print n → reads n → well_formed n = true → (4 * weight (print n) + 4 ≤ fuel)%nat →
    and_loop fuel false (print n ++ rest) = Some (Ok ([n], rest))) as Hone.
  { clear -Hrest. intros n Hp Hr Hwf Hf. rewrite <- Hp in Hf |- *. destruct fuel as [|[|fuel]]; [lia|lia|].
    eapply and_loop_step; [by apply group_starts|apply parseOr_one; [done|by apply ends_no_or|lia]|by apply and_loop_ends]. }
  destruct n as [kids|kids|k|f o vs]; [| |by rewrite Hone..].
  - destruct (kids_wf kids Hwf) as (k1 & l & -> & Hl & Hw & H1w). cbn [print map] in Hf |- *.
    rewrite join_cons, map_map in Hf |- *. rewrite secret_weight_app in Hf. apply Forall_cons in Hr as [Hr1 Hr]. apply Forall_cons in Hw as [Hw1 Hw].
    destruct fuel as [|fuel]; [lia|]. rewrite <- List.app_assoc.
    erewrite and_loop_step; [|by apply group_starts|apply parseOr_one; [done|by destruct l|lia]|apply and_loop_print; [done..|lia]].
    by destruct l.
  - destruct (kids_wf kids Hwf) as (k1 & l & -> & Hl & Hw & H1w). cbn [print map] in Hf |- *.
    rewrite join_cons, map_map in Hf |- *. rewrite secret_weight_app in Hf. apply Forall_cons in Hr as [Hr1 Hr]. apply Forall_cons in Hw as [Hw1 Hw].
    destruct fuel as [|[|fuel]]; [lia|lia|]. rewrite <- List.app_assoc.
    erewrite (and_loop_step _ _ (FOr (k1 :: l))); [|by apply group_starts| |by apply and_loop_ends]; [done|].
    rewrite parseOr_S, Hr1 by lia. cbn [then_]. rewrite or_loop_print; [by destruct l|done|done|by apply ends_no_or|lia].
Qed.

(** Every expression is read back by [parseUnary]. *)
Lemma group_reads n : well_formed n = true → reads n.
Proof.
  assert (∀ l, Forall (λ n, well_formed n = true → reads n) l → (2 <=? length l)%nat && forallb well_formed l = true → Forall reads l) as Hkids.
  { intros l Hl [_ Hwf]%andb_true_iff. rewrite forallb_forall in Hwf. apply Forall_forall. intros k Hk.
    rewrite Forall_forall in Hl. apply Hl; [done|]. apply Hwf. by apply list_elem_of_In. }
  assert (∀ n', paren n' (print n') = bare "(" :: print n' ++ [bare ")"] → well_formed n' = true →
    (match n' with FAnd l | FOr l => Forall reads l | _ => reads n' end) → reads n') as Hparen.
  { intros n' Hp Hwf Hr rest fuel Hf. rewrite Hp in Hf |- *. rewrite weight_tok, secret_weight_app in Hf. cbn [text String.length] in Hf.
    change (weight [bare ")"]) with 2 in Hf.
    destruct fuel as [|fuel]; [lia|]. rewrite <- app_comm_cons, <- List.app_assoc, parseUnary_S. unfold unary_body. cbn [quoted text negb andb].
    change (bool_decide ("(" ∈ ["NOT"; "-"])) with false. change (negation "(") with (@None string).
    change (bool_decide ("(" = "(")) with true. cbn match.
    assert (parseAnd kindOf fuel (print n' ++ [bare ")"] ++ rest) = Some (Ok (n', [bare ")"] ++ rest))) as HA.
    { apply parseAnd_print; [done|done|by right|lia]. }
    unfold parseAnd in HA. by rewrite HA. }
  induction n as [l IH|l IH|k IH|f o vs] using filterNode_rec_forall; intros Hwf.
  - apply Hparen; [done|done|]. by apply Hkids.
  - apply Hparen; [done|done|]. by apply Hkids.
  - intros rest fuel Hf. cbn [paren print] in Hf |- *. rewrite weight_tok in Hf. cbn [text String.length] in Hf.
    destruct fuel as [|fuel]; [lia|]. rewrite <- app_comm_cons, parseUnary_S. unfold unary_body. cbn [quoted text negb andb].
    change (bool_decide ("NOT" ∈ ["NOT"; "-"])) with true. cbn match. rewrite (IH Hwf) by lia. done.
  - intros rest fuel Hf. destruct fuel as [|fuel]; [lia|]. destruct (restriction_print f o vs rest Hwf) as (t & toks & Hp & -> & Hr).
    cbn [paren]. rewrite Hp, <- app_comm_cons, parseUnary_S. unfold unary_body. cbn [quoted text negb andb].
    cbn [well_formed] in Hwf. do 3 apply andb_true_iff in Hwf as [Hwf _]. pose proof (λ w, field_word_not f w Hwf) as Hnot.
    rewrite bool_decide_false by (intros Hin; apply (Hnot f); set_solver).
    unfold field_word in Hwf. apply andb_true_iff in Hwf as [_ Hneg]. destruct (negation f); [done|].
    rewrite bool_decide_false by (apply Hnot; set_solver). by rewrite Hr.
Qed.

(** ** The text *)

(** The modes of the lexer in which it reads a token back, and its mode after. *)
Definition tok_fits (afterOp inList : bool) (t : filterToken) : bool :=
  quoted t || bool_decide (text t ∈ ["("; ")"]) ||
  (if afterOp || inList then inList && negb afterOp && bool_decide (text t = "OR")
   else bool_decide (text t ∈ comparisons) || negb (bool_decide (text t = "")) && AllBytes word_byte (text t)).

Definition mode_after (afterOp inList : bool) (t : filterToken) : bool * bool :=
  if quoted t then (false, inList)
  else if bool_decide (text t = "(") then (false, afterOp || inList)
  else if bool_decide (text t = ")") then (false, false)
  else (bool_decide (text t ∈ comparisons), inList).

Fixpoint fits_all (afterOp inList : bool) (toks : list filterToken) : bool :=
  match toks with
  | [] => true
  | t :: toks => tok_fits afterOp inList t && fits_all (mode_after afterOp inList t).1 (mode_after afterOp inList t).2 toks
  end.

Lemma secret_lex_quoted_escape s r : lex_quoted dquote (escape s +:+ String dquote r) = Some (s, r).
Proof.
  induction s as [|c s IH]; [done|]. cbn [escape].
  destruct (bool_decide (c = dquote) || bool_decide (c = backslash)) eqn:Hc; rewrite !app_cons; cbn [lex_quoted].
  - by rewrite IH.
  - apply orb_false_iff in Hc as [-> ->]. by rewrite IH.
Qed.

(** A word, where the lexer expects one. *)
Lemma lex_word fuel w s :
  w ≠ "" → AllBytes word_byte w = true →
  lexFilter (S (S fuel)) false false (w +:+ String " " s) = option_map (λ r, toks ← r; Ok (bare w :: toks)) (lexFilter fuel false false s).
Proof.
  intros Hne Hw. destruct w as [|c w]; [done|]. pose proof Hw as Hc. cbn in Hc. apply andb_true_iff in Hc as [Hc _].
  pose proof (span_all word_byte (String c w) " "%char s Hw eq_refl) as Hspan. unfold word_byte in Hc. apply andb_true_iff in Hc as [Hs Hc].
  apply negb_true_iff in Hs, Hc. apply orb_false_iff in Hc as [[Hp Ho]%orb_false_iff Hq].
  rewrite app_cons in Hspan |- *. cbn [lexFilter]. unfold lex_body at 1. rewrite Hs, Hp, Hq, Ho. cbn [orb andb]. by rewrite Hspan.
Qed.

Lemma word_no_symbol w x : w ≠ "" → AllBytes word_byte w = true → x ∈ ["("; ")"] ++ comparisons → w ≠ x.
Proof. intros Hne Hw Hx ->. cbn in Hx. repeat (apply elem_of_cons in Hx as [->|Hx]; [done|]). by apply not_elem_of_nil in Hx. Qed.

Lemma tok_fits_word w : negb (bool_decide (w = "")) = true → AllBytes word_byte w = true → tok_fits false false (bare w) = true.
Proof. unfold tok_fits. cbn [text quoted orb]. intros -> ->. by rewrite !orb_true_r. Qed.

Lemma mode_word w : negb (bool_decide (w = "")) = true → AllBytes word_byte w = true → mode_after false false (bare w) = (false, false).
Proof.
  intros Hne%negb_true_iff%bool_decide_eq_false Hw. unfold mode_after. cbn [text quoted orb].
  pose proof (λ x, word_no_symbol w x Hne Hw) as Hno. rewrite !bool_decide_false; [done| | |].
  - intros Hin. apply (Hno w); set_solver.
  - apply Hno. set_solver.
  - apply Hno. set_solver.
Qed.

Lemma tok_fits_op o : bool_decide (o ∈ comparisons) = true → tok_fits false false (bare o) = true.
Proof. unfold tok_fits. cbn [text quoted orb]. intros ->. by rewrite !orb_true_r. Qed.

Lemma mode_op o : bool_decide (o ∈ comparisons) = true → mode_after false false (bare o) = (true, false).
Proof.
  intros Ho%bool_decide_eq_true. unfold comparisons in Ho. repeat (apply elem_of_cons in Ho as [->|Ho]; [done|]). by apply not_elem_of_nil in Ho.
Qed.

Lemma secret_lex_token fuel a i t s :
  tok_fits a i t = true →
  lexFilter (S (S fuel)) a i (show_token t +:+ String " " s) =
  option_map (λ r, toks ← r; Ok (t :: toks)) (lexFilter fuel (mode_after a i t).1 (mode_after a i t).2 s).
Proof.
  destruct t as [w q]. unfold tok_fits, show_token, mode_after. cbn [text quoted]. destruct q; cbn [orb fst snd].
  { intros _. rewrite app_cons, app_assoc, app_cons. change ("" +:+ String " " s) with (String " " s). cbn [lexFilter].
    unfold lex_body at 1. change (IsSpace dquote) with false. change (is_paren dquote) with false. change (is_quote dquote) with true.
    rewrite andb_false_r, secret_lex_quoted_escape. done. }
  intros [Hp|Hw]%orb_true_iff.
  - apply bool_decide_eq_true in Hp. apply elem_of_cons in Hp as [-> |Hp]; [by destruct a, i|].
    apply elem_of_cons in Hp as [-> |Hp]; [by destruct a, i|]. by apply not_elem_of_nil in Hp.
  - destruct (a || i) eqn:Hai.
    + apply andb_true_iff in Hw as [[Hi Ha]%andb_true_iff Hw]. apply bool_decide_eq_true in Hw as ->. apply negb_true_iff in Ha as ->.
      destruct i; [|done]. done.
    + apply orb_false_iff in Hai as [-> ->]. apply orb_true_iff in Hw as [Hw|[Hne Hw]%andb_true_iff].
      * apply bool_decide_eq_true in Hw. unfold comparisons in Hw. repeat (apply elem_of_cons in Hw as [->|Hw]; [done|]).
        by apply not_elem_of_nil in Hw.
      * pose proof (mode_word w Hne Hw) as Hm. unfold mode_after in Hm. cbn [text quoted orb] in Hm. rewrite Hm.
        apply negb_true_iff, bool_decide_eq_false in Hne. by apply lex_word.
Qed.

Lemma secret_show_token_length a i t : tok_fits a i t = true → (1 ≤ String.length (show_token t))%nat.
Proof.
  destruct t as [w q]. unfold tok_fits, show_token. cbn [text quoted]. destruct q; cbn; [lia|]. destruct w; [by destruct a, i|]. cbn. lia.
Qed.

Lemma secret_lex_show toks a i fuel :
  fits_all a i toks = true → (String.length (show toks) < fuel)%nat → lexFilter fuel a i (show toks) = Some (Ok toks).
Proof.
  revert a i fuel. induction toks as [|t toks IH]; intros a i fuel; [destruct fuel; [cbn; lia|done]|].
  cbn [fits_all show]. intros [Ht Htoks]%andb_true_iff Hf. pose proof (secret_show_token_length _ _ _ Ht).
  rewrite length_app_string in Hf. cbn [String.length] in Hf. destruct fuel as [|[|fuel]]; [lia|lia|].
  rewrite secret_lex_token by done. rewrite IH; [done|done|lia].
Qed.

(** What the printer writes fits, and leaves the lexer as it found it. *)
Lemma values_fit v vs rest : fits_all false true (print_values (v :: vs) ++ rest) = fits_all false true rest.
Proof. revert v. induction vs as [|w vs IH]; intros v; [done|]. exact (IH w). Qed.

Lemma join_fits sep l rest :
  (∀ r, fits_all false false (bare sep :: r) = fits_all false false r) →
  Forall (λ x, ∀ r, fits_all false false (x ++ r) = fits_all false false r) l →
  fits_all false false (join sep l ++ rest) = fits_all false false rest.
Proof.
  intros Hsep Hl. destruct Hl as [|x l Hx Hl]; [done|]. rewrite join_cons, <- List.app_assoc, Hx. clear Hx x.
  induction Hl as [|y l Hy _ IH]; [done|]. cbn [map concat]. rewrite <- !app_comm_cons, <- List.app_assoc, Hsep, Hy. exact IH.
Qed.

Lemma print_fits n : well_formed n = true → ∀ rest, fits_all false false (print n ++ rest) = fits_all false false rest.
Proof.
  assert (∀ k, (∀ rest, fits_all false false (print k ++ rest) = fits_all false false rest) →
    ∀ rest, fits_all false false (group k ++ rest) = fits_all false false rest) as Hgroup.
  { intros k Hk rest. assert (fits_all false false ((bare "(" :: print k ++ [bare ")"]) ++ rest) = fits_all false false rest) as Hp.
    { rewrite <- app_comm_cons, <- List.app_assoc. etransitivity; [exact (Hk ([bare ")"] ++ rest))|done]. }
    destruct k; [exact Hp|exact Hp|exact (Hk rest)|exact (Hk rest)]. }
  assert (∀ sep l, sep ∈ ["AND"; "OR"] → Forall (λ n, well_formed n = true → ∀ rest, fits_all false false (print n ++ rest) = fits_all false false rest) l →
    (2 <=? length l)%nat && forallb well_formed l = true →
    ∀ rest, fits_all false false (join sep (map (λ k, group k) l) ++ rest) = fits_all false false rest) as Hjoin.
  { intros sep l Hsep Hl [_ Hwf]%andb_true_iff rest. assert (∀ r, fits_all false false (bare sep :: r) = fits_all false false r) as Hs.
    { intros r. repeat (apply elem_of_cons in Hsep as [->|Hsep]; [done|]). by apply not_elem_of_nil in Hsep. }
    apply join_fits; [done|]. rewrite forallb_forall in Hwf. rewrite Forall_forall in Hl. apply Forall_forall. intros x.
    rewrite list_elem_of_In, in_map_iff. intros (k & <- & Hk). apply Hgroup, Hl; [by apply list_elem_of_In|by apply Hwf]. }
  induction n as [l IH|l IH|k IH|f o vs] using filterNode_rec_forall; intros Hwf rest.
  - apply Hjoin; [set_solver|done|done].
  - apply Hjoin; [set_solver|done|done].
  - cbn [print]. rewrite <- app_comm_cons. etransitivity; [|exact (Hgroup k (IH Hwf) rest)]. done.
  - cbn [well_formed] in Hwf. apply andb_true_iff in Hwf as [[[Hf Ho]%andb_true_iff Hne]%andb_true_iff _].
    unfold field_word in Hf. apply andb_true_iff in Hf as [[[Hf0 Hf1]%andb_true_iff _]%andb_true_iff _].
    assert (∀ r, fits_all false false (bare f :: bare o :: r) = fits_all true false r) as Hhead.
    { intros r. cbn [fits_all]. rewrite (tok_fits_word f) by done. rewrite (mode_word f) by done. cbn [fst snd andb].
      rewrite (tok_fits_op o), (mode_op o) by done. done. }
    destruct vs as [|v [|w vs]]; [done| |].
    + cbn [print app]. by rewrite Hhead.
    + change (print (FRestriction f o (v :: w :: vs))) with (bare f :: bare o :: bare "(" :: print_values (v :: w :: vs) ++ [bare ")"]).
      rewrite <- !app_comm_cons, <- List.app_assoc, Hhead. etransitivity; [exact (values_fit v (w :: vs) ([bare ")"] ++ rest))|done].
Qed.

Lemma IsSpace_is_space c : IsSpace c = false → is_space c = false.
Proof.
  unfold IsSpace, is_space. cbv zeta. intros Hs. repeat rewrite orb_false_iff in Hs. destruct Hs as (((-> & ->) & _) & _). done.
Qed.

Lemma secret_show_nonempty n : well_formed n = true → TrimSpace (show (print n)) ≠ "".
Proof.
  intros Hwf. destruct (print n) as [|t toks] eqn:Hp.
  { exfalso. destruct n as [l|l|k|f o vs]; [| |done|by destruct vs as [|? []]].
    all: destruct (kids_wf l Hwf) as (k1 & l' & -> & _ & _ & Hw); cbn [print map] in Hp; rewrite join_cons in Hp;
      apply app_nil in Hp as [Hp _]; rewrite Hp in Hw; unfold weight in Hw; cbn in Hw; lia. }
  pose proof (print_fits n Hwf []) as Hfit. rewrite List.app_nil_r, Hp in Hfit. cbn [fits_all] in Hfit. apply andb_true_iff in Hfit as [Ht _].
  destruct t as [w q]. unfold show, show_token. unfold tok_fits in Ht. cbn [text quoted orb] in Ht |- *. destruct q.
  { rewrite app_cons. by apply TrimSpace_nonempty. }
  apply orb_true_iff in Ht as [Ht|[Ht|[Hne Hw]%andb_true_iff]%orb_true_iff].
  - apply bool_decide_eq_true in Ht. repeat (apply elem_of_cons in Ht as [->|Ht]; [rewrite app_cons; by apply TrimSpace_nonempty|]).
    by apply not_elem_of_nil in Ht.
  - apply bool_decide_eq_true in Ht. unfold comparisons in Ht.
    repeat (apply elem_of_cons in Ht as [->|Ht]; [rewrite app_cons; by apply TrimSpace_nonempty|]). by apply not_elem_of_nil in Ht.
  - destruct w as [|c w]; [done|]. rewrite app_cons. apply TrimSpace_nonempty, IsSpace_is_space. cbn in Hw.
    apply andb_true_iff in Hw as [Hc _]. unfold word_byte in Hc. apply andb_true_iff in Hc as [Hc _]. by apply negb_true_iff in Hc.
Qed.

(** C36: a list filter is read as it was meant.  Any filter, written out with AND, OR
    and NOT in words, parentheses around every combination inside another one,
    values quoted and value lists in parentheses, is parsed to exactly that
    filter; in particular AND takes whole alternatives and NOT one expression. *)
Theorem filter_print_parse n :
  well_formed n = true → parseFilter kindOf (show (print n)) = Ok (Some n).
Proof.
  intros Hwf. unfold parseFilter. rewrite bool_decide_false by by apply secret_show_nonempty.
  rewrite secret_lex_show; [|by rewrite <- (List.app_nil_r (print n)), print_fits|lia]. cbn [default from_option Datatypes.id mbind res_bind].
  pose proof (parseAnd_print n [] (4 * weight (print n) + 4)) as Hp. rewrite List.app_nil_r in Hp. rewrite Hp; [done|done| |by left|lia].
  destruct n as [l|l|k|f o vs]; [| |by apply group_reads..]; cbn [well_formed] in Hwf; apply andb_true_iff in Hwf as [_ Hwf];
    rewrite forallb_forall in Hwf; apply Forall_forall; intros k Hk; apply group_reads, Hwf; by apply list_elem_of_In.
Qed.

End spec.

Module SecretFilterRuns.

#[local] Instance no_platform : Platform := {| undef_int64 := 0%Z |}.
#[local] Instance decimals : Parsing := {| ParseFloat := λ s, of_int <$> strconv.Atoi s; ParseTime := λ _, None |}.
#[local] Instance no_text : TimeText := {| ParseDate := λ _, None; FormatNano := λ _, "" |}.

(** Labelled prod or without topics, and rotated less than hourly. *)
Definition sample : filterNode :=
  FAnd [FOr [FRestriction "labels.env" "=" ["prod"]; FNot (FRestriction "topics" ":" ["*"])];
        FRestriction "rotation.rotation_period" ">" ["3600s"]].

Lemma filter_print_parse_witness : parseFilter secretFieldKind (show (print sample)) = Ok (Some sample).
Proof. apply (filter_print_parse secretFieldKind sample). vm_compute. reflexivity. Defined.

Definition labelled : Secret :=
  mkSecret "projects/p/secrets/x" zero {["env" := "prod"]} ∅ "automatic" [] ["projects/p/locations/global/keyRings/r/cryptoKeys/k"] 1 "" None zero [] zero
    0%Z 0%Z ∅.

(** Without parentheses OR binds tighter than AND. *)
Example or_binds_tighter :
  parseSecretFilter "name:a labels.env=prod OR labels.env=test" =
  Ok (Some (FAnd [FRestriction "name" ":" ["a"]; FOr [FRestriction "labels.env" "=" ["prod"]; FRestriction "labels.env" "=" ["test"]]])).
Proof. vm_compute. reflexivity. Qed.

(** "AND needs an expression on each side" is refused only on the left. *)
Example trailing_and_accepted :
  parseSecretFilter "name:a AND" = Ok (Some (FRestriction "name" ":" ["a"])) ∧ parseSecretFilter "AND name:a" = Err InvalidArgument.
Proof. vm_compute. split; reflexivity. Qed.

(** Whether a secret passes a filter that parses. *)
Definition passes (f : string) (sec : Secret) : bool :=
  match parseSecretFilter f with Ok f => matches f (secretField sec) | Err _ => false end.

(** labels:KEY is a substring match over the keys, not "the map has the key". *)
Example labels_key_is_substring : passes "labels:n" labelled = true ∧ s_Labels labelled !! "n" = None.
Proof. split; vm_compute; reflexivity. Qed.

(** A secret's key is a field that can be set, whatever the comment over the
    fields says. *)
Example cmek_field_is_set : passes "replication.automatic.customer_managed_encryption.kms_key_name:*" labelled = true.
Proof. vm_compute. reflexivity. Qed.

End SecretFilterRuns.
