(* ===== verification/SecretsApi.v ===== *)
(** * internal/service/secrets: the gRPC service

    The conversions and request checks of grpcserver.go, fidelity.go and
    expiry.go, then the handlers of grpcserver.go and rotation1215.go. *)

From S2P Require Import Prelude GoLib ApiError Resource MetaStore Paging IamPolicy Handler GoCrypto Float64 Sched FilterText SecretsModel SecretsNames SecretsStore SecretsFilter.
From Stdlib Require Import Ascii.

Import strings time.

(** ** strings *)

(** [strings.Trim] of one byte. *)
Fixpoint trim_front (c : ascii) (s : string) : string :=
  match s with String a s' => if bool_decide (a = c) then trim_front c s' else s | EmptyString => "" end.
Fixpoint trim_back (c : ascii) (s : string) : string :=
  match s with
  | EmptyString => ""
  | String a s => match trim_back c s with "" => if bool_decide (a = c) then "" else String a "" | r => String a r end
  end.
Definition trim_quotes (s : string) : string := trim_back "034"%char (trim_front "034"%char s).

(** ** Messages of google.cloud.secretmanager.v1 *)

Module pb.

(** [CustomerManagedEncryption], by its kms_key_name. *)
Abbreviation CMEK := (option string).

Inductive replication :=
| Automatic (cmek : CMEK)
| UserManaged (replicas : list (string * CMEK)).

Inductive expiration :=
| ExpireTime (t : timestamppb.Timestamp)
| Ttl (d : durationpb.Duration).

Record Rotation := mkRotation { next_rotation_time : option timestamppb.Timestamp; rotation_period : option durationpb.Duration }.

(** A [Replication] message may have no policy; of the maps that no secret here
    can have, only their size is read. *)
Record Secret := mkSecret {
  name : string;
  policy : option (option replication);
  create_time : option timestamppb.Timestamp;
  labels : gmap string string;
  topics : list string;
  expiry : option expiration;
  etag : string;
  rotation : option Rotation;
  version_aliases : nat;
  annotations : gmap string string;
  version_destroy_ttl : option durationpb.Duration;
  customer_managed_encryption : CMEK;
  tags : nat
}.

(** [nil], whose getters answer the defaults. *)
Definition nil_secret : Secret := mkSecret "" None None ∅ [] None "" None 0 ∅ None None 0.

(** By the key version that encrypted each replica. *)
Inductive replication_status :=
| AutomaticStatus (cmek : CMEK)
| UserManagedStatus (replicas : list (string * CMEK)).

Inductive State := ENABLED | DISABLED | DESTROYED.

Record SecretVersion := mkSecretVersion {
  v_name : string;
  v_create_time : option timestamppb.Timestamp;
  v_destroy_time : option timestamppb.Timestamp;
  v_state : State;
  v_replication_status : option replication_status;
  v_etag : string;
  v_client_checksum : bool;
  v_scheduled_destroy_time : option timestamppb.Timestamp;
  v_cmek : CMEK
}.

End pb.

(** [r.GetAutomatic().GetCustomerManagedEncryption()], nil when there is none. *)
Definition automatic_cmek (r : option (option pb.replication)) : pb.CMEK :=
  match r with Some (Some (pb.Automatic c)) => c | _ => None end.
Definition user_managed (r : option (option pb.replication)) : option (list (string * pb.CMEK)) :=
  match r with Some (Some (pb.UserManaged rs)) => Some rs | _ => None end.

(** A [*string] key name, "" for nil. *)
Definition GetKmsKeyName (c : pb.CMEK) : string := default "" c.
Definition cmek_of (key : string) : pb.CMEK := if bool_decide (key = "") then None else Some key.

(** ** To messages *)

Definition toProtoReplication (s : Secret) : pb.replication :=
  let cmek i := cmek_of (default "" (s_KMSKeys s !! i)) in
  if bool_decide (s_Replication s = "user-managed")
  then pb.UserManaged (imap (λ i l, (l, cmek i)) (s_ReplicaLocations s))
  else pb.Automatic (cmek 0).

Definition time_of (t : Time) : option timestamppb.Timestamp := if IsZero t then None else Some (timestamppb.New t).
Definition duration_of (d : Duration) : option durationpb.Duration := if (0 <? d)%Z then Some (durationpb.New d) else None.

Definition toProtoSecret (s : Secret) : pb.Secret :=
  let rotation :=
    if negb (IsZero (s_NextRotation s)) || (0 <? s_RotationPeriod s)%Z
    then Some (pb.mkRotation (time_of (s_NextRotation s)) (duration_of (s_RotationPeriod s))) else None in
  let out policy cmek :=
    pb.mkSecret (s_Name s) policy (Some (timestamppb.New (s_Created s))) (s_Labels s) (s_Topics s)
      (pb.ExpireTime <$> time_of (s_Expire s)) (s_Etag s) rotation 0 (s_Annotations s) (duration_of (s_VersionDestroyTTL s)) cmek 0 in
  if Regional s then out None (cmek_of (default "" (s_KMSKeys s !! 0)))
  else out (Some (Some (toProtoReplication s))) None.

Definition regionalKeyStatus (v : Version) : pb.CMEK :=
  match v_Replicas v with [] => None | r :: _ => cmek_of (r_KeyVersion r) end.

Definition toProtoReplicationStatus (v : Version) : option pb.replication_status :=
  match v_Replicas v with
  | [] => None
  | [r] => if bool_decide (r_Location r = "") then Some (pb.AutomaticStatus (cmek_of (r_KeyVersion r)))
           else Some (pb.UserManagedStatus [(r_Location r, cmek_of (r_KeyVersion r))])
  | rs => Some (pb.UserManagedStatus ((λ r, (r_Location r, cmek_of (r_KeyVersion r))) <$> rs))
  end.

Definition toProtoVersion (v : Version) : pb.SecretVersion :=
  let state := match v_State v with StateDisabled => pb.DISABLED | StateDestroyed => pb.DESTROYED | StateEnabled => pb.ENABLED end in
  let scope := scopeOfName (v_Name v) in
  let regional := negb (bool_decide (scope = "")) && negb (bool_decide ((SplitScope scope).2 = "")) in
  pb.mkSecretVersion (v_Name v) (Some (timestamppb.New (v_Created v))) (time_of (v_Destroyed v)) state
    (if regional then None else toProtoReplicationStatus v) (v_Etag v) (v_ClientChecksum v) (time_of (v_ScheduledDestroy v))
    (if regional then regionalKeyStatus v else None).

(** ** From messages *)

(** Keys with nil for none. *)
Definition some_keys (keys : list string) : option (list string) := if hasKeys keys then Some keys else None.

Definition replicationOf (r : option (option pb.replication)) : string * list string * option (list string) :=
  match user_managed r with
  | None => ("automatic", [], some_keys [GetKmsKeyName (automatic_cmek r)])
  | Some rs => ("user-managed", rs.*1, some_keys ((λ x, GetKmsKeyName x.2) <$> rs))
  end.

Definition parseParent (parent : string) : res error string :=
  if negb (HasPrefix parent "projects/") then Err InvalidArgument
  else
    let project := TrimPrefix parent "projects/" in
    let bad x := bool_decide (x = "") || Contains x "/" || negb (ValidID x) in
    match CutString project "/locations/" with
    | Some (p, l) => if bad p || bad l then Err InvalidArgument else Ok (RegionalScope p l)
    | None => if bad project then Err InvalidArgument else Ok project
    end.

Definition topicNames (sec : pb.Secret) : list string := pb.topics sec.

Definition scheduleOf (sec : pb.Secret) : res error Schedule :=
  next ← (match pb.rotation sec ≫= pb.next_rotation_time with
          | None => Ok zero
          | Some t => if timestamppb.CheckValid t then Ok (timestamppb.AsTime t) else Err InvalidArgument
          end);
  period ← (match pb.rotation sec ≫= pb.rotation_period with
            | None => Ok 0%Z
            | Some d => if negb (durationpb.CheckValid d) || (durationpb.AsDuration d <=? 0)%Z then Err InvalidArgument
                        else Ok (durationpb.AsDuration d)
            end);
  ttl ← (match pb.version_destroy_ttl sec with
         | None => Ok 0%Z
         | Some d => if negb (durationpb.CheckValid d) || (durationpb.AsDuration d <? 0)%Z then Err InvalidArgument
                     else Ok (durationpb.AsDuration d)
         end);
  Ok (mkSchedule next period ttl).

(** *** Expiry *)

Definition minExpiry : Duration := (60 * Second)%Z.
Definition maxExpiryYears : Z := 100.

Definition CheckExpiryBounds (expire now : Time) : res error unit :=
  if Before expire (Add now minExpiry) then Err InvalidArgument
  else if After expire (AddYears now maxExpiryYears) then Err InvalidArgument
  else Ok tt.

Definition expireOf (sec : pb.Secret) (now : Time) : res error Time :=
  match pb.expiry sec with
  | Some (pb.ExpireTime t) =>
      if negb (timestamppb.CheckValid t) then Err InvalidArgument
      else CheckExpiryBounds (timestamppb.AsTime t) now ≫= λ _, Ok (timestamppb.AsTime t)
  | Some (pb.Ttl d) =>
      if negb (durationpb.CheckValid d) then Err InvalidArgument
      else if (durationpb.AsDuration d <=? 0)%Z then Err InvalidArgument
      else CheckExpiryBounds (Add now (durationpb.AsDuration d)) now ≫= λ _, Ok (Add now (durationpb.AsDuration d))
  | None => Ok zero
  end.

(** *** Refused fields *)

(** A customer_managed_encryption without its key name. *)
Definition keyless (c : pb.CMEK) : bool := bool_decide (c = Some "").

Definition checkCMEKFields (r : option (option pb.replication)) : res error unit :=
  if keyless (automatic_cmek r) then Err InvalidArgument
  else if existsb (λ x, keyless x.2) (default [] (user_managed r)) then Err InvalidArgument
  else Ok tt.

Definition checkCreatable (sec : pb.Secret) (regional : bool) : res error unit :=
  if (0 <? pb.version_aliases sec)%nat then Err Unimplemented
  else if negb regional && bool_decide (is_Some (pb.customer_managed_encryption sec)) then Err Unimplemented
  else if (0 <? pb.tags sec)%nat then Err Unimplemented
  else
    _ ← (if regional then
           if bool_decide (is_Some (pb.policy sec)) then Err InvalidArgument
           else if keyless (pb.customer_managed_encryption sec) then Err InvalidArgument else Ok tt
         else Ok tt);
    _ ← checkCMEKFields (pb.policy sec);
    match user_managed (pb.policy sec) with
    | None => Ok tt
    | Some rs => if bool_decide (rs = []) then Err InvalidArgument
                 else if existsb (λ x, bool_decide (x.1 = "")) rs then Err InvalidArgument else Ok tt
    end.

Definition checkEtag (requested current : string) : res error unit :=
  if bool_decide (requested = "") then Ok tt
  else if bool_decide (trim_quotes requested = trim_quotes current) then Ok tt else Err FailedPrecondition.

(** ** CRC32C *)

(** The Castagnoli polynomial, reversed, as [crc32.MakeTable] takes it: a table
    entry is eight of these steps. *)
Definition crc_bit (c : Z) : Z := if Z.testbit c 0 then Z.lxor (Z.shiftr c 1) 0x82F63B78 else Z.shiftr c 1.
Definition crc_byte (c : Z) (a : ascii) : Z :=
  Nat.iter 8 crc_bit (Z.lxor c (Z.of_N (N_of_ascii a))).
Fixpoint crc_update (c : Z) (s : string) : Z :=
  match s with EmptyString => c | String a s => crc_update (crc_byte c a) s end.
Definition payloadCRC32C (data : string) : Z := Z.lxor (crc_update 0xFFFFFFFF data) 0xFFFFFFFF.

Definition checkPayloadCRC32C (data : string) (crc : option Z) : res error unit :=
  match crc with
  | None => Ok tt
  | Some crc => if (payloadCRC32C data =? crc)%Z then Ok tt else Err InvalidArgument
  end.

Example crc32c_check_value : payloadCRC32C "123456789" = 0xE3069283%Z.
Proof. vm_compute. reflexivity. Qed.

(** ** internal/service/secrets: the google.cloud.secretmanager.v1 service

    The handlers of grpcserver.go and rotation1215.go over the Store.  A handler
    holds the store's lock in each of its calls and not between them; it is
    modelled as the sequence of those calls. *)

Import strings strconv time.

(** ** update_mask *)

Record mask := mkMask {
  updateLabels : bool; updateAnnotations : bool; checkReplication : bool; updateExpire : bool; updateTopics : bool;
  updateCMEK : bool; updateNext : bool; updatePeriod : bool; updateTTL : bool
}.

Definition no_mask : mask := mkMask false false false false false false false false false.

Definition mask_or (a b : mask) : mask :=
  mkMask (updateLabels a || updateLabels b) (updateAnnotations a || updateAnnotations b)
    (checkReplication a || checkReplication b) (updateExpire a || updateExpire b) (updateTopics a || updateTopics b)
    (updateCMEK a || updateCMEK b) (updateNext a || updateNext b) (updatePeriod a || updatePeriod b) (updateTTL a || updateTTL b).

(** What one path sets; [None] is refused. *)
Definition mask_path (p : string) : option mask :=
  if bool_decide (p = "rotation") then Some (mkMask false false false false false false true true false)
  else if bool_decide (p ∈ ["rotation.next_rotation_time"; "rotation.nextRotationTime"]) then
    Some (mkMask false false false false false false true false false)
  else if bool_decide (p ∈ ["rotation.rotation_period"; "rotation.rotationPeriod"]) then
    Some (mkMask false false false false false false false true false)
  else if bool_decide (p ∈ ["version_destroy_ttl"; "versionDestroyTtl"]) then
    Some (mkMask false false false false false false false false true)
  else if bool_decide (p = "labels") then Some (mkMask true false false false false false false false false)
  else if bool_decide (p = "annotations") then Some (mkMask false true false false false false false false false)
  else if bool_decide (p ∈ ["expire_time"; "ttl"; "expireTime"]) then Some (mkMask false false false true false false false false false)
  else if bool_decide (p = "topics") then Some (mkMask false false false false true false false false false)
  else if bool_decide (p = "replication") || HasPrefix p "replication." then
    Some (mkMask false false true false false false false false false)
  else if bool_decide (p ∈ ["customer_managed_encryption"; "customerManagedEncryption"]) ||
          HasPrefix p "customer_managed_encryption." || HasPrefix p "customerManagedEncryption." then
    Some (mkMask false false false false false true false false false)
  else None.

Fixpoint mask_of (paths : list string) : res error mask :=
  match paths with
  | [] => Ok no_mask
  | p :: paths =>
      match mask_path p with
      | None => Err InvalidArgument
      | Some m => rest ← mask_of paths; Ok (mask_or m rest)
      end
  end.

Record UpdateSecretRequest := mkUpdateSecretRequest { up_secret : pb.Secret; up_mask : list string }.

Record ListRequest := mkListRequest { l_parent : string; l_page_size : Z; l_page_token : string; l_filter : string }.

Section api.
Context {S : Type} `{MSL : MetaStoreLaws S doc} `{CR : Crypto} `{PL : Platform} `{PA : Parsing} `{TT : TimeText} `{TJ : TokenJSON}.

Abbreviation M := (SecretsStore.M S).

(** [return nil, apierror.Wrap(err)] *)
Definition wrap {A} (m : M A) : M A := λ e s,
  let '(s', r) := m e s in (s', match r with Ok a => Ok a | Err err => Err (From err) end).

(** ** Secrets *)

Definition CreateSecret (parent secret_id : string) (sec : pb.Secret) : M pb.Secret :=
  wrap (
    project ← lift (parseParent parent);
    let location := (SplitScope project).2 in
    let regional := negb (bool_decide (location = "")) in
    lift (checkCreatable sec regional) ;;
    t ← now;
    expire ← lift (expireOf sec t);
    sch ← lift (scheduleOf sec);
    let '(kind, locations, keys) :=
      if regional then ("user-managed", [location], some_keys [GetKmsKeyName (pb.customer_managed_encryption sec)])
      else replicationOf (pb.policy sec) in
    created ← CreateSecretEncrypted project secret_id (pb.labels sec) (pb.annotations sec) expire (topicNames sec) sch keys kind
                locations;
    mret (toProtoSecret created)).

Definition GetSecret (name : string) : M pb.Secret :=
  wrap ('(project, id) ← lift (ParseSecretName name);
        sec ← SecretsStore.GetSecret project id;
        mret (toProtoSecret sec)).

Definition secretEtag (project id etag : string) : M unit :=
  if bool_decide (etag = "") then mret tt
  else cur ← SecretsStore.GetSecret project id; lift (checkEtag etag (s_Etag cur)).

Definition versionEtag (project id version etag : string) : M unit :=
  if bool_decide (etag = "") then mret tt
  else cur ← SecretsStore.GetVersion project id version; lift (checkEtag etag (v_Etag cur)).

(** The keys to set, [None] when they do not change. *)
Definition replicationUnchanged (project id : string) (requested : option (option pb.replication)) : M (option (list string)) :=
  current ← SecretsStore.GetSecret project id;
  lift (checkCMEKFields requested) ;;
  let '(kind, locations, keys) := replicationOf requested in
  if bool_decide (mjoin requested = None) || negb (bool_decide (kind = s_Replication current)) ||
     negb (bool_decide (locations = s_ReplicaLocations current)) then throw InvalidArgument
  else if bool_decide (default [] keys = s_KMSKeys current) then mret None
  else mret (Some (default (replicate (Nat.max 1 (length locations)) "") keys)).

(** The switch over what the mask says of keys. *)
Definition new_keys (project id : string) (m : mask) (sec : pb.Secret) : M (option (list string)) :=
  let regional := negb (bool_decide ((SplitScope project).2 = "")) in
  if checkReplication m && regional then throw InvalidArgument
  else if checkReplication m then replicationUnchanged project id (pb.policy sec)
  else if updateCMEK m && negb regional then throw InvalidArgument
  else if updateCMEK m then
    cur ← SecretsStore.GetSecret project id;
    if keyless (pb.customer_managed_encryption sec) then throw InvalidArgument
    else
      let k := [GetKmsKeyName (pb.customer_managed_encryption sec)] in
      mret (if bool_decide (normalKeys k = s_KMSKeys cur) then None else Some k)
  else mret None.

Definition update_of (sec : pb.Secret) (m : mask) (expire : Time) (sch : Schedule) : SecretUpdate :=
  mkSecretUpdate (pb.labels sec) (pb.annotations sec) (updateLabels m) (updateAnnotations m) expire (updateExpire m)
    (topicNames sec) (updateTopics m) sch (updateNext m) (updatePeriod m) (updateTTL m).

Definition UpdateSecret (req : UpdateSecretRequest) : M pb.Secret :=
  wrap (
    let sec := up_secret req in
    '(project, id) ← lift (ParseSecretName (pb.name sec));
    if bool_decide (up_mask req = []) then throw InvalidArgument
    else
      m ← lift (mask_of (up_mask req));
      secretEtag project id (pb.etag sec) ;;
      newKeys ← new_keys project id m sec;
      t ← now;
      expire ← lift (if updateExpire m then expireOf sec t else Ok zero);
      sch ← lift (scheduleOf sec);
      updated ← UpdateSecretFields project id (update_of sec m expire sch);
      match newKeys with
      | None => mret (toProtoSecret updated)
      | Some keys => updated ← SetReplicationKeys project id keys; mret (toProtoSecret updated)
      end).

Definition DeleteSecret (name etag : string) : M unit :=
  wrap ('(project, id) ← lift (ParseSecretName name);
        secretEtag project id etag ;;
        SecretsStore.DeleteSecret project id).

(** A secret that [byName] does not have, which no page names. *)
Definition zero_secret : Secret := mkSecret "" zero ∅ ∅ "" [] [] 0 "" None zero [] zero 0%Z 0%Z ∅.
Definition zero_version : Version := mkVersion "" 0 StateEnabled zero zero zero "" 0 "" [] false.

(** One page, its token and the total. *)
Definition ListSecrets (req : ListRequest) : M (list pb.Secret * string * Z) :=
  wrap (
    project ← lift (parseParent (l_parent req));
    f ← lift (parseSecretFilter (l_filter req));
    all ← SecretsStore.ListSecrets project;
    let all := filterList secretField all f in
    let byName := fold_left (λ m sec, <[s_Name sec := sec]> m) all (∅ : gmap string Secret) in
    '(page, next) ← lift (Page (l_parent req +:+ "?" +:+ l_filter req) (s_Name <$> all) (l_page_token req) (l_page_size req));
    mret ((λ n, toProtoSecret (default zero_secret (byName !! n))) <$> page, next, listTotal (length all) f)).

(** ** Versions *)

Definition AddSecretVersion (parent data : string) (crc : option Z) : M pb.SecretVersion :=
  wrap ('(project, id) ← lift (ParseSecretName parent);
        lift (checkPayloadCRC32C data crc) ;;
        v ← addVersion project id data (bool_decide (is_Some crc));
        mret (toProtoVersion v)).

Definition GetSecretVersion (name : string) : M pb.SecretVersion :=
  wrap ('(project, id, version) ← lift (ParseVersionName name);
        v ← SecretsStore.GetVersion project id version;
        mret (toProtoVersion v)).

(** The version's name, its payload and the payload's checksum. *)
Definition AccessSecretVersion (name : string) : M (string * string * Z) :=
  wrap ('(project, id, version) ← lift (ParseVersionName name);
        v ← AccessVersion project id version;
        mret (v_Name v, v_Payload v, payloadCRC32C (v_Payload v))).

Definition ListSecretVersions (req : ListRequest) : M (list pb.SecretVersion * string * Z) :=
  wrap (
    '(project, id) ← lift (ParseSecretName (l_parent req));
    f ← lift (parseVersionFilter (l_filter req));
    all ← SecretsStore.ListVersions project id;
    let all := filterList versionField all f in
    let byKey := fold_left (λ m v, <[descendingKey (v_Number v) := v]> m) all (∅ : gmap string Version) in
    '(page, next) ← lift (Page (l_parent req +:+ "?" +:+ l_filter req) ((λ v, descendingKey (v_Number v)) <$> all) (l_page_token req)
                            (l_page_size req));
    mret ((λ k, toProtoVersion (default zero_version (byKey !! k))) <$> page, next, listTotal (length all) f)).

Definition setState (name etag : string) (state : VersionState) : M pb.SecretVersion :=
  wrap ('(project, id, version) ← lift (ParseVersionName name);
        versionEtag project id version etag ;;
        v ← SetVersionState project id version state;
        mret (toProtoVersion v)).

Definition EnableSecretVersion (name etag : string) : M pb.SecretVersion := setState name etag StateEnabled.
Definition DisableSecretVersion (name etag : string) : M pb.SecretVersion := setState name etag StateDisabled.

Definition DestroySecretVersion (name etag : string) : M pb.SecretVersion :=
  wrap ('(project, id, version) ← lift (ParseVersionName name);
        versionEtag project id version etag ;;
        v ← DestroyVersion project id version;
        mret (toProtoVersion v)).

(** ** IAM and managed rotation *)

Definition GetIamPolicy (resource : string) (requested : Z) : M iampb.Policy :=
  wrap ('(project, id) ← lift (ParseSecretName resource);
        p ← SecretsStore.GetIamPolicy project id;
        lift (IamPolicy.Get p requested)).

Definition SetIamPolicy (resource : string) (req : iampb.SetIamPolicyRequest) : M iampb.Policy :=
  wrap ('(project, id) ← lift (ParseSecretName resource);
        p ← SecretsStore.SetIamPolicy project id req;
        mret (Proto (Some p))).

Definition TestIamPermissions (resource : string) (permissions : list string) : M (list string) :=
  wrap ('(project, id) ← lift (ParseSecretName resource);
        SecretsStore.GetSecret project id ;;
        mret (Permissions permissions)).

Definition RotateSecret : M pb.SecretVersion := throw Unimplemented.
Definition EnableManagedRotation : M pb.SecretVersion := throw Unimplemented.

(** For callers outside the API, such as the console. *)
Definition ListSecretsFiltered (project f : string) : M (list Secret) :=
  f ← lift (parseSecretFilter f);
  all ← SecretsStore.ListSecrets project;
  mret (filterList secretField all f).

Definition ListRegionalSecretsFiltered (project f : string) : M (list Secret) :=
  f ← lift (parseSecretFilter f);
  all ← ListRegionalSecrets project;
  mret (filterList secretField all f).

End api.
