(* ===== verification/SecretsApiSpec.v ===== *)
(** * What Secret Manager's gRPC service guarantees

    Listing versions page by page, etags, and the places where the handlers do
    not do what they say. *)

From S2P Require Import Prelude GoLib ApiError Resource MetaStore Float64 Sched IamPolicy Handler Paging FilterText GoCrypto SecretsModel SecretsNames SecretsStore SecretsInv SecretsOps SecretsEffects SecretsSweep SecretsSpec SecretsRefine SecretsExamples SecretsFilter SecretsApi.
From Stdlib Require Import Ascii.

Import strings strconv time.

Section spec.
Context {S : Type} `{RS : ReliableStore S doc} `{CR : Crypto} `{PL : Platform} `{PA : Parsing} `{TT : TimeText} `{TJ : TokenJSON}.
Implicit Types (s : Store S) (e : Env).

Abbreviation cts s := (contents (db s)).

Lemma wp_wrap {A} e s (m : M S A) Q :
  wp e s m (λ r, Q (match r with Ok a => Ok a | Err x => Err (From x) end)) → wp e s (wrap m) Q.
Proof. unfold wp, wrap. by destruct (m e s). Qed.

(** ** Listing versions *)

(** A client that follows next_page_token, for at most [fuel] calls. *)
Fixpoint walk_versions (fuel : nat) (parent f tok : string) (n : Z) e s : res error (list pb.SecretVersion) :=
  match fuel with
  | O => Err (Sentinel "out of calls")
  | Datatypes.S fuel =>
      let '(s', r) := ListSecretVersions (mkListRequest parent n tok f) e s in
      '(page, next, _) ← r;
      if bool_decide (next = "") then Ok page
      else rest ← walk_versions fuel parent f next n e s'; Ok (page ++ rest)
  end.

Lemma versions_of_numbers B m p id sec :
  Inv B m → secret_at m p id = Some sec →
  v_Number <$> versions_of m p id (s_NextVersion sec) = Z.of_nat <$> seq 1 (Z.to_nat (s_NextVersion sec - 1)).
Proof.
  intros HI Hs. unfold versions_of. assert (∀ k, k ∈ seq 1 (Z.to_nat (s_NextVersion sec - 1)) →
    ∃ v, version_at m p id (Z.of_nat k) = Some v ∧ v_Number v = Z.of_nat k) as Hv.
  { intros k Hk%elem_of_seq. assert (0 ≤ Z.of_nat k)%Z as H0 by lia.
    assert (is_Some (version_at m p id (Z.of_nat k))) as [v Hv] by (apply (version_range B _ _ _ sec); [done..|lia]).
    exists v. split; [done|]. apply (vo_Number _ _ _ _ (version_is_ok _ _ _ _ _ _ _ HI Hs H0 Hv)). }
  revert Hv. induction (seq _ _) as [|k l IH]; intros Hv; [done|]. cbn. destruct (Hv k) as (v & -> & Hn); [left|].
  cbn. rewrite Hn. f_equal. apply IH. intros j Hj. apply Hv. by right.
Qed.

(** Every version of the secret that the filter keeps, newest first. *)
Definition kept_versions e s p id (f : option filterNode) : list Version :=
  match live (clock e s) (cts s) p id with
  | Some sec => filterList versionField (reverse (versions_of (cts s) p id (s_NextVersion sec))) f
  | None => []
  end.

(** The page keys of the versions kept. *)
Definition version_key (v : Version) : string := descendingKey (v_Number v).

Lemma descendingKey_le n m : (0 ≤ m ≤ n)%Z → (n ≤ 2 ^ 40)%Z → String.le (descendingKey n) (descendingKey m).
Proof.
  intros Hm Hn. apply sort.leb_le. unfold String.leb, descendingKey.
  rewrite Sprintf_compare by (change (10 ^ Z.of_nat 13)%Z with 10000000000000%Z; lia).
  destruct (Z.compare_spec (2 ^ 40 - n) (2 ^ 40 - m)); [done|done|lia].
Qed.

Lemma descendingKey_ascii n : (0 ≤ n ≤ 2 ^ 40)%Z → ascii_only (descendingKey n) = true ∧ descendingKey n ≠ "".
Proof.
  intros Hn. split.
  - unfold descendingKey, fmt.Sprintf_0d. destruct (Z.ltb_spec (2 ^ 40 - n) 0) as [|_]; [lia|]. unfold ascii_only, fmt.pad.
    assert (AllBytes (λ a, (N_of_ascii a <? 128)%N) (Itoa (2 ^ 40 - n)) = true) as Hi.
    { pose proof (Itoa_bytes (2 ^ 40 - n)) as Hb. revert Hb. generalize (Itoa (2 ^ 40 - n)). intros w. induction w as [|a w IH]; [done|].
      cbn [AllBytes]. intros [Ha Hw]%andb_true_iff. rewrite IH by done. rewrite andb_true_r. apply N.ltb_lt.
      apply orb_true_iff in Ha as [[_ Ha%N.leb_le]%andb_true_iff|Ha]; [lia|]. bool_prop. by subst. }
    generalize (13 - len (Itoa (2 ^ 40 - n))). intros k. induction k as [|k IH]; [exact Hi|exact IH].
  - intros Hz. pose proof (Sprintf_len 12 (2 ^ 40 - n)) as Hl. unfold descendingKey in Hz. rewrite Hz in Hl. cbn in Hl.
    specialize (Hl ltac:(lia)). done.
Qed.

(** The numbers of the versions kept, and their order. *)
Lemma kept_versions_sorted B e s p id f :
  Inv B (cts s) → StronglySorted (λ a b, (v_Number b < v_Number a)%Z) (kept_versions e s p id f) ∧
    Forall (λ v, ∀ sec, live (clock e s) (cts s) p id = Some sec → (1 ≤ v_Number v < s_NextVersion sec)%Z) (kept_versions e s p id f).
Proof.
  intros HI. unfold kept_versions. destruct (live (clock e s) (cts s) p id) as [sec|] eqn:Hl; [|by split; constructor].
  pose proof Hl as [Hs _]%live_Some. pose proof (versions_of_numbers _ _ _ _ _ HI Hs) as Hnum.
  set (N := Z.to_nat (s_NextVersion sec - 1)) in Hnum. set (vs := versions_of _ _ _ _) in *.
  assert (StronglySorted (λ a b, (v_Number b < v_Number a)%Z) (reverse vs)) as Hsort.
  { assert (v_Number <$> reverse vs = Z.of_nat <$> reverse (seq 1 N)) as Hr by (by rewrite !fmap_reverse, Hnum).
    revert Hr. generalize (reverse vs). clear. induction N as [|N IH]; intros l Hl.
    { cbn in Hl. by apply fmap_nil_inv in Hl as ->; constructor. }
    rewrite seq_S, reverse_snoc in Hl. cbn in Hl. destruct l as [|v l]; [done|]. cbn in Hl. injection Hl as Hv Hl.
    constructor; [by apply IH|]. apply Forall_forall. intros w Hw. apply (list_elem_of_fmap_2 v_Number) in Hw. rewrite Hl in Hw.
    apply list_elem_of_fmap in Hw as (k & -> & Hk). rewrite elem_of_reverse, elem_of_seq in Hk. lia. }
  split.
  - unfold filterList. by apply StronglySorted_filter.
  - apply Forall_forall. intros v Hv sec' [= <-]. unfold filterList in Hv. apply list_elem_of_filter in Hv as [_ Hv].
    rewrite elem_of_reverse in Hv. apply (list_elem_of_fmap_2 v_Number) in Hv. rewrite Hnum in Hv.
    apply list_elem_of_fmap in Hv as (k & -> & Hk). rewrite elem_of_seq in Hk. lia.
Qed.

Lemma kept_versions_near e s s' p id f : near s (cts s) s' → kept_versions e s' p id f = kept_versions e s p id f.
Proof. intros H1. unfold kept_versions. by rewrite (near_clock e _ _ _ H1), (near_cts _ _ _ H1). Qed.

Definition byKey (l : list Version) : gmap string Version := fold_left (λ m v, <[version_key v := v]> m) l ∅.

(** One call: the page of the keys of what is kept, and nothing is changed. *)
Lemma wp_ListSecretVersions B e s parent p id sec f flt tok n :
  Inv B (cts s) → env_ok e → ParseSecretName parent = Ok (p, id) → live (clock e s) (cts s) p id = Some sec →
  parseVersionFilter f = Ok flt →
  wp e s (ListSecretVersions (mkListRequest parent n tok f)) (λ r s', near s (cts s) s' ∧
    r = match Page (parent +:+ "?" +:+ f) (version_key <$> kept_versions e s p id flt) tok n with
        | Ok (page, next) => Ok ((λ k, toProtoVersion (default zero_version (byKey (kept_versions e s p id flt) !! k))) <$> page, next,
                                 listTotal (length (kept_versions e s p id flt)) flt)
        | Err x => Err (From x)
        end).
Proof.
  intros HI He Hp Hl Hf. pose proof Hl as [Hs _]%live_Some. unfold ListSecretVersions. cbn [l_parent l_filter l_page_token l_page_size].
  apply wp_wrap, wp_bind, wp_lift. rewrite Hp. apply wp_bind, wp_lift. rewrite Hf. unfold SecretsStore.ListVersions.
  apply wp_bind, wp_bind, (wp_getSecret_live B _ _ _ _ sec); [done..|]. intros s1 H1. pose proof (near_cts _ _ _ H1) as Hc.
  apply wp_bind, (wp_listVersions B _ _ _ _ sec); rewrite ?Hc; [done..|]. intros vs Hperm. apply wp_ret.
  assert (filterList versionField (merge_sort newer vs) flt = kept_versions e s p id flt) as ->.
  { unfold kept_versions. rewrite Hl. f_equal. eapply newest_first; [by eapply versions_of_numbers| |apply (StronglySorted_merge_sort newer)].
    by rewrite merge_sort_Permutation. }
  fold version_key. apply wp_bind, wp_lift. change (λ v, descendingKey (v_Number v)) with version_key.
  destruct (Page _ _ _ _) as [[page next]|x]; [|by split]. apply wp_ret. by split.
Qed.

Lemma walk_versions_pages B parent f n e p id sec flt fuel tok s pages :
  Inv B (cts s) → env_ok e → ParseSecretName parent = Ok (p, id) → live (clock e s) (cts s) p id = Some sec →
  parseVersionFilter f = Ok flt →
  walk (parent +:+ "?" +:+ f) (replicate fuel (version_key <$> kept_versions e s p id flt)) tok n = Ok (pages, true) →
  walk_versions fuel parent f tok n e s =
    Ok ((λ k, toProtoVersion (default zero_version (byKey (kept_versions e s p id flt) !! k))) <$> concat pages).
Proof.
  intros HI He Hp Hl Hf. revert tok s HI Hl pages. induction fuel as [|fuel IH]; intros tok s HI Hl pages; [done|].
  cbn [replicate walk walk_versions]. destruct (wp_ListSecretVersions B e s parent p id sec f flt tok n) as [Hnear Hr]; [done..|].
  destruct (ListSecretVersions _ e s) as [s' r]. cbn [fst snd] in Hnear, Hr. subst r.
  destruct (Page _ _ _ _) as [[page next]|x]; cbn [mbind res_bind]; [|done].
  case_bool_decide as Hn; [intros [= <-]; cbn; by rewrite List.app_nil_r|].
  intros ([ps fin] & Hw & [= <- ->])%res_bind_ok. pose proof (kept_versions_near e s s' p id flt Hnear) as Hk.
  rewrite <- Hk in Hw. rewrite (IH _ s') with (pages := ps); [| |by rewrite (near_clock e _ _ _ Hnear), (near_cts _ _ _ Hnear)|done].
  - cbn [mbind res_bind concat]. by rewrite Hk, fmap_app.
  - by rewrite (near_cts _ _ _ Hnear).
Qed.

(** ListSecretVersions page by page.  Following next_page_token from the first
    page, whatever the page size and the filter, ends within one call more than
    there are versions, and the pages together are exactly the versions the
    filter keeps, each once, the newest first. *)
Theorem list_versions_pages B e s parent p id sec f flt n :
  Inv B (cts s) → (B ≤ 2 ^ 40)%Z → env_ok e → ParseSecretName parent = Ok (p, id) → live (clock e s) (cts s) p id = Some sec →
  parseVersionFilter f = Ok flt → ascii_only (parent +:+ "?" +:+ f) = true →
  walk_versions (Datatypes.S (length (kept_versions e s p id flt))) parent f "" n e s =
    Ok (toProtoVersion <$> kept_versions e s p id flt).
Proof.
  intros HI HB He Hp Hl Hf Hasc. destruct (kept_versions_sorted B e s p id flt HI) as [Hsort Hrange].
  set (l := kept_versions e s p id flt) in *. pose proof Hl as [Hs _]%live_Some.
  pose proof (fo_Next _ _ _ _ _ (secret_family _ _ _ _ _ HI Hs)) as Hnext.
  assert (Forall (λ v, (1 ≤ v_Number v ≤ 2 ^ 40)%Z) l) as Hnum.
  { eapply Forall_impl; [done|]. intros v Hv. specialize (Hv sec Hl). cbn in Hv. lia. }
  assert (StronglySorted String.le (version_key <$> l) ∧ NoDup (version_key <$> l)) as [Hle Hnd].
  { clear -Hsort Hnum. induction Hsort as [|v l _ IH Hall]; [split; constructor|]. apply Forall_cons in Hnum as [Hv Hnum].
    destruct (IH Hnum) as [H1 H2]. cbn. split; constructor; try done.
    - apply Forall_fmap. rewrite Forall_forall in Hall, Hnum |- *. intros w Hw. specialize (Hall w Hw). specialize (Hnum w Hw). cbn in *.
      apply descendingKey_le; lia.
    - intros (w & Heq & Hw)%list_elem_of_fmap. rewrite Forall_forall in Hall, Hnum. specialize (Hall w Hw). specialize (Hnum w Hw). cbn in *.
      unfold version_key, descendingKey in Heq. apply Sprintf_inj in Heq; lia. }
  assert (good_keys (version_key <$> l)) as Hg.
  { split; [done|]. rewrite Forall_forall in Hnum. split.
    - intros (v & Hv & Hin)%list_elem_of_fmap. symmetry in Hv. by apply (descendingKey_ascii (v_Number v)) in Hv; [|specialize (Hnum v Hin); cbn in *; lia].
    - apply Forall_fmap, Forall_forall. intros v Hin. apply descendingKey_ascii. specialize (Hnum v Hin). cbn in *. lia. }
  destruct (walk_complete (parent +:+ "?" +:+ f) (version_key <$> l) n (Datatypes.S (length l)) "" "") as (pages & Hw & Hc); [done|done|done| |].
  { unfold remaining. rewrite filter_all by (apply Forall_forall; by left). rewrite sort_strings_perm, length_fmap. lia. }
  rewrite (walk_versions_pages B _ _ _ _ p id sec flt _ _ _ pages), Hc by done. f_equal. unfold remaining.
  rewrite filter_all by (apply Forall_forall; by left). rewrite (sort_strings_unique _ (version_key <$> l)), <- list_fmap_compose by done.
  apply list_fmap_ext. intros i v Hv%list_elem_of_lookup_2. cbn. unfold byKey. by rewrite (byName_lookup version_key).
Qed.

(** ** Etags *)

(** An etag of a request that does not name the current one. *)
Definition stale (requested current : string) : Prop := requested ≠ "" ∧ trim_quotes requested ≠ trim_quotes current.

Lemma checkEtag_stale requested current : stale requested current → checkEtag requested current = Err FailedPrecondition.
Proof. intros [H1 H2]. unfold checkEtag. by rewrite bool_decide_eq_false_2, bool_decide_eq_false_2. Qed.

Lemma wp_secretEtag_stale B e s p id sec etag Q :
  Inv B (cts s) → live (clock e s) (cts s) p id = Some sec → stale etag (s_Etag sec) →
  (∀ s', near s (cts s) s' → Q (Err FailedPrecondition) s') → wp e s (secretEtag p id etag) Q.
Proof.
  intros HI Hl Hst HQ. unfold secretEtag. rewrite bool_decide_eq_false_2 by apply Hst.
  apply wp_bind, (wp_getSecret_live B _ _ _ _ sec); [done..|]. intros s' Hs'. apply wp_lift. rewrite (checkEtag_stale _ _ Hst). by apply HQ.
Qed.

Lemma wp_versionEtag_stale B e s p id sec version v etag Q :
  Inv B (cts s) → env_ok e → live (clock e s) (cts s) p id = Some sec → version_named (cts s) p id sec version = Ok v → stale etag (v_Etag v) →
  (∀ s', near s (cts s) s' → Q (Err FailedPrecondition) s') → wp e s (versionEtag p id version etag) Q.
Proof.
  intros HI He Hl Hv Hst HQ. unfold versionEtag. rewrite bool_decide_eq_false_2 by apply Hst.
  apply wp_bind, (wp_GetVersion B); [done..|]. intros s' Hs'. rewrite Hl, Hv. apply wp_lift. rewrite (checkEtag_stale _ _ Hst).
  apply HQ. by rewrite (settle_live _ _ _ _ _ Hl) in Hs'.
Qed.

(** An answer of FAILED_PRECONDITION, with nothing written. *)
Definition refused {A} (e : Env) s (m : SecretsStore.M S A) : Prop :=
  (m e s).2 = Err FailedPrecondition ∧ cts (m e s).1 = cts s.

Lemma refused_intro {A} e s (m : SecretsStore.M S A) :
  wp e s m (λ r s', r = Err FailedPrecondition ∧ near s (cts s) s') → refused e s (wrap m).
Proof.
  unfold wp, refused, wrap. destruct (m e s) as [s' r]. cbn. intros [-> Hs']. split; [done|]. by eapply near_cts.
Qed.

(** C37: five writes check the etag they name.  On a well-formed store none of whose
    writes fails, of a secret that has not expired: UpdateSecret (of any fields, with any
    non-empty mask the switch accepts) and DeleteSecret compare the secret's etag,
    EnableSecretVersion, DisableSecretVersion and DestroySecretVersion the
    version's.  Named a non-empty etag that, quotes aside, is not the current one, each of the five
    answers FAILED_PRECONDITION and leaves every stored document as it was.  (A
    mask that is refused is INVALID_ARGUMENT first, and SetIamPolicy, which answers
    ABORTED, is not one of them.) *)
Theorem stale_etag_changes_nothing B e s name p id sec etag :
  Inv B (cts s) → env_ok e → live (clock e s) (cts s) p id = Some sec →
  (ParseSecretName name = Ok (p, id) → stale etag (s_Etag sec) →
     refused e s (DeleteSecret name etag) ∧
     ∀ msg paths m, pb.name msg = name → pb.etag msg = etag → mask_of paths = Ok m → paths ≠ [] →
       refused e s (UpdateSecret (mkUpdateSecretRequest msg paths))) ∧
  (∀ version v, ParseVersionName name = Ok (p, id, version) → version_named (cts s) p id sec version = Ok v → stale etag (v_Etag v) →
     refused e s (EnableSecretVersion name etag) ∧ refused e s (DisableSecretVersion name etag) ∧
     refused e s (DestroySecretVersion name etag)).
Proof.
  intros HI He Hl. split; [intros Hn Hst; split|intros version v Hn Hv Hst].
  - apply refused_intro, wp_bind, wp_lift. rewrite Hn. by apply wp_bind, (wp_secretEtag_stale B _ _ _ _ sec).
  - intros msg paths m <- <- Hm Hp. apply refused_intro, wp_bind, wp_lift. cbn [up_secret up_mask]. rewrite Hn, bool_decide_eq_false_2 by done.
    apply wp_bind, wp_lift. rewrite Hm. by apply wp_bind, (wp_secretEtag_stale B _ _ _ _ sec).
  - split_and!; apply refused_intro, wp_bind, wp_lift; rewrite Hn; by apply wp_bind, (wp_versionEtag_stale B _ _ _ _ sec _ v).
Qed.

End spec.

Module SecretsCalls.
Import SecretsRuns.
#[local] Existing Instance plain_crypto.

#[local] Instance no_platform : Platform := {| undef_int64 := 0%Z |}.
#[local] Instance decimals : Parsing := {| ParseFloat := λ s, of_int <$> strconv.Atoi s; ParseTime := λ _, None |}.
#[local] Instance no_text : TimeText := {| ParseDate := λ _, None; FormatNano := λ _, "" |}.
#[local] Existing Instance Paging.Example.example_json.

(** The store with a second version. *)
Lemma two_Inv : Inv 4 (contents (db two)).
Proof.
  apply (exec_post 3 (at_ t0) one (OAdd "p" "x" "hunter3" false) one_Inv ltac:(done)).
  apply plain_op; [apply at_ok|by apply sane_by|done].
Qed.
Definition enabled : option filterNode := Some (FRestriction "state" "=" ["ENABLED"]).
Definition head2 : Secret := default zero_secret (live (clock (at_ t0) two) (contents (db two)) "p" "x").

Lemma list_versions_pages_witness :
  walk_versions 3 "projects/p/secrets/x" "state=ENABLED" "" 1 (at_ t0) two =
  Ok (toProtoVersion <$> kept_versions (at_ t0) two "p" "x" enabled).
Proof.
  refine (list_versions_pages 4 (at_ t0) two "projects/p/secrets/x" "p" "x" head2 "state=ENABLED" enabled 1 two_Inv _ (at_ok _) _ _ _ _);
    by vm_compute.
Defined.

Definition update_msg (etag : string) (labels : gmap string string) (key : string) : pb.Secret :=
  pb.mkSecret "projects/p/secrets/x" (Some (Some (pb.Automatic (Some key)))) None labels [] None etag None 0 ∅ None None 0.

Lemma stale_etag_changes_nothing_witness :
  refused (at_ t0) two (DeleteSecret "projects/p/secrets/x" "old") ∧
  refused (at_ t0) two (UpdateSecret (mkUpdateSecretRequest (update_msg "old" ∅ key) ["labels"; "replication"])).
Proof.
  destruct (stale_etag_changes_nothing 4 (at_ t0) two "projects/p/secrets/x" "p" "x" head2 "old" two_Inv (at_ok _)) as [H _];
    [by vm_compute|].
  destruct H as [H1 H2]; [by vm_compute|split; by vm_compute|]. split; [exact H1|].
  exact (H2 (update_msg "old" ∅ key) ["labels"; "replication"] (mask_or (mkMask true false false false false false false false false)
    (mkMask false false true false false false false false false)) eq_refl eq_refl ltac:(by vm_compute) ltac:(done)).
Defined.

(** ** Where the handlers do not do what they say *)

(** A page token that is not one is a client's mistake; ListSecrets and
    ListSecretVersions answer INTERNAL to it. *)
Example bad_token_is_internal :
  (ListSecretVersions (mkListRequest "projects/p/secrets/x" 1 "nonsense" "") (at_ t0) two).2 = Err (From invalid_token) ∧
  (ListSecrets (mkListRequest "projects/p" 1 "nonsense" "") (at_ t0) two).2 = Err (From invalid_token) ∧
  code_of invalid_token = codes.Internal.
Proof. vm_compute. split_and!; reflexivity. Qed.

(** UpdateSecret with labels and a key that is not a key's name answers
    INVALID_ARGUMENT, with the labels changed. *)
Example failed_update_changes_labels :
  let '(s, r) := UpdateSecret (mkUpdateSecretRequest (update_msg "" {["a" := "b"]} "nonsense") ["labels"; "replication"]) (at_ t0) two in
  r = Err InvalidArgument ∧ s_Labels <$> secret_at (contents (db s)) "p" "x" = Some {["a" := "b"]} ∧
  s_Labels <$> secret_at (contents (db two)) "p" "x" = Some ∅.
Proof. vm_compute. split_and!; reflexivity. Qed.

End SecretsCalls.
