(* ===== verification/SchedulerStore.v ===== *)
(** * internal/service/scheduler: the data of Cloud Scheduler and its store

    store.go's and appengine1447.go's types, nextRun and the operations of the
    Store.  A nil map or slice and an empty one
    are one value: the code only ranges over them and takes their length. *)

From S2P Require Import Prelude GoLib ApiError Resource MetaStore.
From Stdlib Require Import Ascii.

Import strings time.

Inductive State := StateEnabled | StatePaused.

#[global] Instance State_eq_dec : EqDecision State.
Proof. solve_decision. Defined.

Record OIDCToken := mkOIDCToken { oidc_email : string; Audience : string }.
Record OAuthToken := mkOAuthToken { oauth_email : string; Scope : string }.

Record HTTPTarget := mkHTTPTarget {
  URI : string;
  Method : string;
  Headers : gmap string string;
  Body : string;
  OIDC : option OIDCToken;
  OAuth : option OAuthToken
}.

Record PubSubTarget := mkPubSubTarget {
  Topic : string;
  Data : string;
  Attributes : gmap string string
}.

Record AppEngineRouting := mkAppEngineRouting { Service : string; Version : string; Instance_ : string }.

Record AppEngineTarget := mkAppEngineTarget {
  ae_Method : string;
  RelativeURI : string;
  ae_Headers : gmap string string;
  ae_Body : string;
  Routing : AppEngineRouting
}.

Record RetryConfig := mkRetryConfig {
  RetryCount : Z;
  MaxRetryDuration : Duration;
  MinBackoff : Duration;
  MaxBackoff : Duration;
  MaxDoublings : Z
}.

Definition DefaultRetryConfig : RetryConfig := (mkRetryConfig 0 0 (5 * Second) Hour 5)%Z.

Record Job := mkJob {
  Name : string;
  Description : string;
  Schedule : string;
  TimeZone : string;
  State_ : State;
  HTTP : option HTTPTarget;
  PubSub : option PubSubTarget;
  AppEngine : option AppEngineTarget;
  Retry : RetryConfig;
  RetryUnset : bool;
  AttemptDeadline : Duration;
  UserUpdateTime : Time;
  ScheduleTime : Time;
  LastAttemptTime : Time;
  LastCode : Z;
  LastMessage : string
}.

#[global] Instance OIDCToken_eq_dec : EqDecision OIDCToken.
Proof. solve_decision. Defined.
#[global] Instance OAuthToken_eq_dec : EqDecision OAuthToken.
Proof. solve_decision. Defined.
#[global] Instance HTTPTarget_eq_dec : EqDecision HTTPTarget.
Proof. solve_decision. Defined.
#[global] Instance PubSubTarget_eq_dec : EqDecision PubSubTarget.
Proof. solve_decision. Defined.
#[global] Instance AppEngineRouting_eq_dec : EqDecision AppEngineRouting.
Proof. solve_decision. Defined.
#[global] Instance AppEngineTarget_eq_dec : EqDecision AppEngineTarget.
Proof. solve_decision. Defined.
#[global] Instance RetryConfig_eq_dec : EqDecision RetryConfig.
Proof. solve_decision. Defined.
#[global] Instance Job_eq_dec : EqDecision Job.
Proof. solve_decision. Defined.

(** ** Assignments to fields *)

Definition set_ScheduleTime (j : Job) (t : Time) : Job :=
  mkJob (Name j) (Description j) (Schedule j) (TimeZone j) (State_ j) (HTTP j) (PubSub j) (AppEngine j) (Retry j) (RetryUnset j)
    (AttemptDeadline j) (UserUpdateTime j) t (LastAttemptTime j) (LastCode j) (LastMessage j).
Definition set_State (j : Job) (s : State) : Job :=
  mkJob (Name j) (Description j) (Schedule j) (TimeZone j) s (HTTP j) (PubSub j) (AppEngine j) (Retry j) (RetryUnset j)
    (AttemptDeadline j) (UserUpdateTime j) (ScheduleTime j) (LastAttemptTime j) (LastCode j) (LastMessage j).
Definition set_Last (j : Job) (t : Time) (code : Z) (msg : string) : Job :=
  mkJob (Name j) (Description j) (Schedule j) (TimeZone j) (State_ j) (HTTP j) (PubSub j) (AppEngine j) (Retry j) (RetryUnset j)
    (AttemptDeadline j) (UserUpdateTime j) (ScheduleTime j) t code msg.
Definition set_UserUpdateTime (j : Job) (t : Time) : Job :=
  mkJob (Name j) (Description j) (Schedule j) (TimeZone j) (State_ j) (HTTP j) (PubSub j) (AppEngine j) (Retry j) (RetryUnset j)
    (AttemptDeadline j) t (ScheduleTime j) (LastAttemptTime j) (LastCode j) (LastMessage j).

(** [json.Marshal] succeeds: every time is in a year it can write. *)
Definition marshals (j : Job) : bool :=
  json_ok (UserUpdateTime j) && json_ok (ScheduleTime j) && json_ok (LastAttemptTime j).

Definition ErrEncode : error := Sentinel "json: unsupported value".

(** ** Cron and time zones

    github.com/robfig/cron/v3 with the fields of [cronParser], and the zones of
    [time.LoadLocation]. *)
Class Cron := {
  location : Type;
  spec : Type;
  LoadLocation : string → option location;
  cron_Parse : string → option spec;
  cron_Next : spec → location → Time → Time
}.

(** The package's documentation of [Schedule.Next]: the next activation, later
    than the given time; the zero time when none can be found. *)
Class CronLaws `{Cron} := Next_later s l t : cron_Next s l t = zero ∨ (t < cron_Next s l t)%Z.

Section cron.
Context `{Cron}.

(** [nextRun] (server.go) *)
Definition nextRun (schedule zone : string) (after : Time) : res error Time :=
  if bool_decide (zone = "Local") then Err InvalidArgument
  else match LoadLocation zone with
       | None => Err InvalidArgument
       | Some loc =>
           if HasPrefix schedule "TZ=" || HasPrefix schedule "CRON_TZ=" then Err InvalidArgument
           else match cron_Parse schedule with
                | None => Err InvalidArgument
                | Some s => Ok (cron_Next s loc after)
                end
       end.

End cron.

Lemma nextRun_later `{CL : CronLaws} schedule zone now next :
  nextRun schedule zone now = Ok next → next = zero ∨ (now < next)%Z.
Proof.
  unfold nextRun. destruct (bool_decide _); [done|]. destruct (LoadLocation zone); [|done]. destruct (_ || _); [done|].
  destruct (cron_Parse schedule); [|done]. intros [= <-]. apply Next_later.
Qed.

(** ** internal/service/scheduler/store.go: jobs in the metadata store

    Every operation of the Store, over any implementation of the metadata
    store's interface; [s.mu] makes each one step. *)

Definition slash : ascii := "/".
Definition tilde : ascii := "~".

Definition keyPrefix : string := "scheduler/jobs/".
Definition key (name : string) : string := keyPrefix +:+ ReplaceAll name slash tilde.

Section store.
Context {S : Type} `{MSL : MetaStoreLaws S Job}.
Implicit Types (s : S).

Definition put s (j : Job) : S * res error unit :=
  if negb (marshals j) then (s, Err (Internal ErrEncode))
  else match st_Put s (key (Name j)) j with
       | (s, Err e) => (s, Err (Internal e))
       | (s, Ok _) => (s, Ok tt)
       end.

Definition get s (name : string) : res error Job :=
  match st_Get s (key name) with Err _ => Err NotFound | Ok j => Ok j end.

(** [return j, s.put(j)] *)
Definition stored (j : Job) (r : S * res error unit) : S * res error Job := (r.1, r.2 ≫= λ _, Ok j).

Definition Create s (j : Job) : S * res error Job :=
  if is_ok (get s (Name j)) then (s, Err AlreadyExists) else stored j (put s j).

Definition Get s (name : string) : res error Job := get s name.

Definition Update s (name : string) (fn : Job → res error Job) : S * res error Job :=
  match get s name with
  | Err e => (s, Err e)
  | Ok j => match fn j with
            | Err e => (s, Err e)
            | Ok j => stored j (put s j)
            end
  end.

Definition Delete s (name : string) : S * res error unit :=
  match get s name with
  | Err e => (s, Err e)
  | Ok _ => match st_Delete s (key name) with
            | (s, Err e) => (s, Err (Internal e))
            | (s, Ok _) => (s, Ok tt)
            end
  end.

(** The job of a key, when its name starts with [prefix]. *)
Definition listed s (prefix k : string) : option Job :=
  let name := ReplaceAll (TrimPrefix k keyPrefix) tilde slash in
  if negb (HasPrefix name prefix) then None
  else match get s name with Ok j => Some j | Err _ => None end.

Definition List_ s (prefix : string) : res error (list Job) :=
  match st_List s keyPrefix with
  | Err e => Err (Internal e)
  | Ok keys => Ok (sort_by Name (omap (listed s prefix) keys))
  end.

Fixpoint delete_all s (keys : list string) : S * res error unit :=
  match keys with
  | [] => (s, Ok tt)
  | k :: rest => match st_Delete s k with (s, Err e) => (s, Err e) | (s, Ok _) => delete_all s rest end
  end.

Definition Reset s : S * res error unit :=
  match st_List s keyPrefix with Err e => (s, Err e) | Ok keys => delete_all s keys end.

End store.
