(* ===== verification/SchedulerConvert.v ===== *)
(** * internal/service/scheduler: between the API's messages and the stored model

    fromProto, toProto and the request checks of server.go, with the App Engine
    targets of appengine1447.go. *)

From S2P Require Import Prelude GoLib ApiError Resource MetaStore SchedulerStore.
From Stdlib Require Import Ascii.

Import strings time.

(** ** Messages of google.cloud.scheduler.v1 *)

Module pb.

(** [HttpMethod] is an open enum: any int32 may arrive. *)
Definition HttpMethod_names : list string :=
  ["HTTP_METHOD_UNSPECIFIED"; "POST"; "GET"; "HEAD"; "PUT"; "DELETE"; "PATCH"; "OPTIONS"].

(** The generated [String] method prints a number it has no name for. *)
Definition HttpMethod_String (m : Z) : string :=
  if (m <? 0)%Z then strconv.Itoa m else default (strconv.Itoa m) (HttpMethod_names !! Z.to_nat m).

(** [HttpMethod_value], 0 for a name it has not. *)
Definition HttpMethod_value (s : string) : Z := from_option (λ p, Z.of_nat p.1) 0%Z (list_find (λ n, n = s) HttpMethod_names).

Record OidcToken := mkOidcToken { oidc_email : string; audience : string }.
Record OAuthToken := mkOAuthToken { oauth_email : string; scope : string }.
Inductive authorization := AuthOidc (t : OidcToken) | AuthOauth (t : OAuthToken).

Record HttpTarget := mkHttpTarget {
  uri : string; http_method : Z; headers : gmap string string; body : string; authorization_header : option authorization
}.

Record PubsubTarget := mkPubsubTarget { topic_name : string; data : string; attributes : gmap string string }.

Record AppEngineRouting := mkAppEngineRouting { service : string; version : string; instance : string; host : string }.

Record AppEngineHttpTarget := mkAppEngineHttpTarget {
  ae_http_method : Z; relative_uri : string; ae_headers : gmap string string; ae_body : string;
  app_engine_routing : option AppEngineRouting
}.

Inductive target :=
| Job_HttpTarget (t : HttpTarget)
| Job_PubsubTarget (t : PubsubTarget)
| Job_AppEngineHttpTarget (t : AppEngineHttpTarget).

Record RetryConfig := mkRetryConfig {
  retry_count : Z; max_retry_duration : option durationpb.Duration; min_backoff_duration : option durationpb.Duration;
  max_backoff_duration : option durationpb.Duration; max_doublings : Z
}.

Inductive State := ENABLED | PAUSED.

(** A [google.rpc.Status]: the code and the message. *)
Record Status := mkStatus { code : Z; message : string }.

Record Job := mkJob {
  name : string;
  description : string;
  schedule : string;
  time_zone : string;
  target_ : option target;
  retry_config : option RetryConfig;
  attempt_deadline : option durationpb.Duration;
  user_update_time : option timestamppb.Timestamp;
  schedule_time : option timestamppb.Timestamp;
  state : State;
  last_attempt_time : option timestamppb.Timestamp;
  status : option Status
}.

End pb.

(** ** App Engine targets *)

Definition AppEngineHost (project : string) (r : AppEngineRouting) : string :=
  fold_left (λ host part, if bool_decide (part = "") then host else part +:+ "." +:+ host)
    [Service r; Version r; Instance_ r] (project +:+ ".appspot.com").

Definition projectOf (name : string) : string :=
  match Split name slash with _ :: p1 :: _ => p1 | _ => "" end.

Definition appEngineFromProto (t : pb.AppEngineHttpTarget) : res error AppEngineTarget :=
  let uri := if bool_decide (pb.relative_uri t = "") then "/" else pb.relative_uri t in
  if negb (HasPrefix uri "/") then Err InvalidArgument
  else
    let method := if (pb.ae_http_method t =? 0)%Z then 1%Z else pb.ae_http_method t in
    if negb (bool_decide (pb.ae_body t = "")) && negb (method =? 1)%Z && negb (method =? 4)%Z then Err InvalidArgument
    else
      let r := default (pb.mkAppEngineRouting "" "" "" "") (pb.app_engine_routing t) in
      Ok (mkAppEngineTarget (pb.HttpMethod_String method) uri (pb.ae_headers t) (pb.ae_body t)
            (mkAppEngineRouting (pb.service r) (pb.version r) (pb.instance r))).

Definition appEngineToProto (a : AppEngineTarget) (job : string) : pb.AppEngineHttpTarget :=
  pb.mkAppEngineHttpTarget (pb.HttpMethod_value (ae_Method a)) (RelativeURI a) (ae_Headers a) (ae_Body a)
    (Some (pb.mkAppEngineRouting (Service (Routing a)) (Version (Routing a)) (Instance_ (Routing a))
             (AppEngineHost (projectOf job) (Routing a)))).

(** ** Names *)

Definition location_byte (a : ascii) : bool := is_lower a || is_digit a || one_of ["-"%char] a.

(** [^projects/<project>/locations/[a-z0-9-]+$] *)
Definition parentRE (s : string) : bool :=
  match Split s slash with
  | [p0; p; p2; l] =>
      bool_decide (p0 = "projects") && projectRE p && bool_decide (p2 = "locations") &&
      negb (bool_decide (l = "")) && AllBytes location_byte l
  | _ => false
  end.

(** [^[A-Za-z0-9_-]{1,500}$] *)
Definition jobIDRE (s : string) : bool :=
  (1 <=? len s)%nat && (len s <=? 500)%nat && AllBytes (λ a, is_alnum a || one_of ["_"; "-"]%char a) s.

(** What precedes and follows the last occurrence of [sub]. *)
Fixpoint CutLast (s sub : string) : option (string * string) :=
  match s with
  | EmptyString => if bool_decide (sub = "") then Some ("", "") else None
  | String a s' =>
      match CutLast s' sub with
      | Some (x, y) => Some (String a x, y)
      | None => if HasPrefix s sub then Some ("", drop_bytes (len sub) s) else None
      end
  end.

Definition parseJobName (name : string) : res error unit :=
  match CutLast name "/jobs/" with
  | None => Err InvalidArgument
  | Some (parent, id) => if parentRE parent && jobIDRE id then Ok tt else Err InvalidArgument
  end.

(** ** From a message *)

Definition http_from (h : pb.HttpTarget) : res error HTTPTarget :=
  if negb (HasPrefix (pb.uri h) "http://") && negb (HasPrefix (pb.uri h) "https://") then Err InvalidArgument
  else
    let method := if (pb.http_method h =? 0)%Z then "POST" else pb.HttpMethod_String (pb.http_method h) in
    if negb (bool_decide (pb.body h = "")) && negb (bool_decide (method ∈ ["POST"; "PUT"; "PATCH"])) then Err InvalidArgument
    else
      let target := mkHTTPTarget (pb.uri h) method (pb.headers h) (pb.body h) in
      match pb.authorization_header h with
      | Some (pb.AuthOidc t) =>
          if bool_decide (pb.oidc_email t = "") then Err InvalidArgument
          else Ok (target (Some (mkOIDCToken (pb.oidc_email t) (pb.audience t))) None)
      | Some (pb.AuthOauth t) =>
          if bool_decide (pb.oauth_email t = "") then Err InvalidArgument
          else Ok (target None (Some (mkOAuthToken (pb.oauth_email t) (pb.scope t))))
      | None => Ok (target None None)
      end.

Definition pubsub_from (t : pb.PubsubTarget) : res error PubSubTarget :=
  let topic := pb.topic_name t in
  if negb (HasPrefix topic "projects/") || negb (Contains topic "/topics/") then Err InvalidArgument
  else if bool_decide (pb.data t = "") && bool_decide (pb.attributes t = ∅) then Err InvalidArgument
  else Ok (mkPubSubTarget topic (pb.data t) (pb.attributes t)).

(** The three target fields of the job. *)
Definition target_from (t : option pb.target)
    : res error (option HTTPTarget * option PubSubTarget * option AppEngineTarget) :=
  match t with
  | Some (pb.Job_HttpTarget h) => h ← http_from h; Ok (Some h, None, None)
  | Some (pb.Job_PubsubTarget t) => p ← pubsub_from t; Ok (None, Some p, None)
  | Some (pb.Job_AppEngineHttpTarget t) => a ← appEngineFromProto t; Ok (None, None, Some a)
  | None => Err InvalidArgument
  end.

(** [d != nil && d.AsDuration() > 0], else the default. *)
Definition positive_or (d : option durationpb.Duration) (default : Duration) : Duration :=
  match d with
  | Some d => if (0 <? durationpb.AsDuration d)%Z then durationpb.AsDuration d else default
  | None => default
  end.

Definition retry_from (rc : option pb.RetryConfig) : res error RetryConfig :=
  match rc with
  | None => Ok DefaultRetryConfig
  | Some rc =>
      if (pb.retry_count rc <? 0)%Z || (5 <? pb.retry_count rc)%Z then Err InvalidArgument
      else Ok (mkRetryConfig (pb.retry_count rc) (from_option durationpb.AsDuration 0%Z (pb.max_retry_duration rc))
                 (positive_or (pb.min_backoff_duration rc) (MinBackoff DefaultRetryConfig))
                 (positive_or (pb.max_backoff_duration rc) (MaxBackoff DefaultRetryConfig))
                 (if (0 <? pb.max_doublings rc)%Z then pb.max_doublings rc else MaxDoublings DefaultRetryConfig))
  end.

Definition default_deadline : Duration := (3 * Minute)%Z.

Definition deadline_from (d : option durationpb.Duration) : res error Duration :=
  let d := positive_or d 0%Z in
  if (d =? 0)%Z then Ok default_deadline
  else if (d <? 15 * Second)%Z || (30 * Minute <? d)%Z then Err InvalidArgument
  else Ok d.

Definition fromProto (p : pb.Job) : res error Job :=
  let zone := if bool_decide (pb.time_zone p = "") then "Etc/UTC" else pb.time_zone p in
  if bool_decide (pb.schedule p = "") then Err InvalidArgument
  else
    '(http, pubsub, appEngine) ← target_from (pb.target_ p);
    retry ← retry_from (pb.retry_config p);
    deadline ← deadline_from (pb.attempt_deadline p);
    Ok (mkJob (pb.name p) (pb.description p) (pb.schedule p) zone StateEnabled http pubsub appEngine retry
          (bool_decide (pb.retry_config p = None)) deadline zero zero zero 0 "").

(** ** To a message *)

Definition auth_to (h : HTTPTarget) : option pb.authorization :=
  match OIDC h, OAuth h with
  | Some t, _ => Some (pb.AuthOidc (pb.mkOidcToken (oidc_email t) (Audience t)))
  | None, Some t => Some (pb.AuthOauth (pb.mkOAuthToken (oauth_email t) (Scope t)))
  | None, None => None
  end.

Definition target_to (j : Job) : option pb.target :=
  match HTTP j, PubSub j, AppEngine j with
  | Some h, _, _ => Some (pb.Job_HttpTarget (pb.mkHttpTarget (URI h) (pb.HttpMethod_value (Method h)) (Headers h) (Body h) (auth_to h)))
  | None, Some p, _ => Some (pb.Job_PubsubTarget (pb.mkPubsubTarget (Topic p) (Data p) (Attributes p)))
  | None, None, Some a => Some (pb.Job_AppEngineHttpTarget (appEngineToProto a (Name j)))
  | None, None, None => None
  end.

Definition retry_to (r : RetryConfig) : pb.RetryConfig :=
  pb.mkRetryConfig (wrap_i32 (RetryCount r)) (Some (durationpb.New (MaxRetryDuration r))) (Some (durationpb.New (MinBackoff r)))
    (Some (durationpb.New (MaxBackoff r))) (wrap_i32 (MaxDoublings r)).

Definition toProto (j : Job) : pb.Job :=
  pb.mkJob (Name j) (Description j) (Schedule j) (TimeZone j) (target_to j)
    (if RetryUnset j then None else Some (retry_to (Retry j)))
    (Some (durationpb.New (AttemptDeadline j)))
    (Some (timestamppb.New (UserUpdateTime j))) (Some (timestamppb.New (ScheduleTime j)))
    (if bool_decide (State_ j = StatePaused) then pb.PAUSED else pb.ENABLED)
    (if IsZero (LastAttemptTime j) then None else Some (timestamppb.New (LastAttemptTime j)))
    (if IsZero (LastAttemptTime j) then None else Some (pb.mkStatus (LastCode j) (LastMessage j))).

(** ** CreateJob's checks *)

Section create.
Context `{Cron}.

Definition checkCreate (parent : string) (job : option pb.Job) (now : Time) : res error Job :=
  if negb (parentRE parent) then Err InvalidArgument
  else match job with
  | None => Err InvalidArgument
  | Some in_ =>
      if bool_decide (pb.name in_ = "") then Err InvalidArgument
      else
        _ ← parseJobName (pb.name in_);
        if negb (HasPrefix (pb.name in_) (parent +:+ "/jobs/")) then Err InvalidArgument
        else
          j ← fromProto in_;
          next ← nextRun (Schedule j) (TimeZone j) now;
          Ok (set_ScheduleTime (set_UserUpdateTime j now) next)
  end.

(** The parent and the job of the CreateJob request. *)
Definition CreateRequest (job : pb.Job) (now : Time) : res error (string * pb.Job) :=
  _ ← parseJobName (pb.name job);
  let parent := match CutLast (pb.name job) "/jobs/" with Some (x, _) => x | None => "" end in
  _ ← checkCreate parent (Some job) now;
  Ok (parent, job).

End create.
