(* ===== verification/SchedulerApi.v ===== *)
(** * internal/service/scheduler: the google.cloud.scheduler.v1 service

    The handlers of server.go over the Store, and the Locations mixin of
    locations.go.  RunJob hands its job to the runner: it answers with the job
    and the time to fire it for, which SchedulerRunner.v's [fire] takes. *)

From S2P Require Import Prelude GoLib ApiError Resource MetaStore Paging SchedulerStore SchedulerConvert.
From Stdlib Require Import Ascii.

Import strings time.

(** ** update_mask *)

Definition default_paths : list string := ["description"; "schedule"; "time_zone"; "target"; "retry_config"; "attempt_deadline"].

(** One path of the mask: the field of [in_] over [merged]. *)
Definition merge_path (in_ merged : pb.Job) (p : string) : res error pb.Job :=
  let 'pb.mkJob n d s z t r a ut st state la status := merged in
  if bool_decide (p = "description") then Ok (pb.mkJob n (pb.description in_) s z t r a ut st state la status)
  else if bool_decide (p = "schedule") then Ok (pb.mkJob n d (pb.schedule in_) z t r a ut st state la status)
  else if bool_decide (p = "time_zone") then Ok (pb.mkJob n d s (pb.time_zone in_) t r a ut st state la status)
  else if bool_decide (p = "target") || HasPrefix p "http_target" || HasPrefix p "pubsub_target" || HasPrefix p "app_engine_http_target"
  then Ok (pb.mkJob n d s z (pb.target_ in_) r a ut st state la status)
  else if bool_decide (p = "retry_config") || HasPrefix p "retry_config."
  then Ok (pb.mkJob n d s z t (pb.retry_config in_) a ut st state la status)
  else if bool_decide (p = "attempt_deadline") then Ok (pb.mkJob n d s z t r (pb.attempt_deadline in_) ut st state la status)
  else Err InvalidArgument.

Fixpoint merge_paths (in_ merged : pb.Job) (paths : list string) : res error pb.Job :=
  match paths with
  | [] => Ok merged
  | p :: rest => merged ← merge_path in_ merged p; merge_paths in_ merged rest
  end.

Definition mask_paths (paths : list string) : list string := if bool_decide (paths = []) then default_paths else paths.

(** What UpdateJob keeps of the current job. *)
Definition keep_outcome (cur next : Job) : Job :=
  mkJob (Name next) (Description next) (Schedule next) (TimeZone next) (State_ cur) (HTTP next) (PubSub next) (AppEngine next)
    (Retry next) (RetryUnset next) (AttemptDeadline next) (UserUpdateTime next) (ScheduleTime next) (LastAttemptTime cur)
    (LastCode cur) (LastMessage cur).

Section api.
Context {S : Type} `{MSL : MetaStoreLaws S Job} `{CR : Cron} `{TJ : TokenJSON}.
Implicit Types (s : S).

(** [return toProto(j), apierror.Wrap(err)] *)
Definition reply (r : S * res error Job) : S * res error pb.Job :=
  (r.1, match r.2 with Ok j => Ok (toProto j) | Err e => Err (From e) end).

Definition CreateJob s (parent : string) (job : option pb.Job) (now : Time) : S * res error pb.Job :=
  match checkCreate parent job now with
  | Err e => (s, Err (From e))
  | Ok j => reply (Create s j)
  end.

Definition GetJob s (name : string) : res error pb.Job := (reply (s, Get s name)).2.

(** A job that [byName] does not have, which no page names. *)
Definition zero_job : Job :=
  mkJob "" "" "" "" StateEnabled None None None (mkRetryConfig 0 0 0 0 0)%Z false 0%Z zero zero zero 0%Z "".

Definition ListJobs s (parent pageToken : string) (pageSize : Z) : res error (list pb.Job * string) :=
  if negb (parentRE parent) then Err InvalidArgument
  else match List_ s (parent +:+ "/jobs/") with
  | Err e => Err (From e)
  | Ok jobs =>
      let byName := fold_left (λ m j, <[Name j := j]> m) jobs (∅ : gmap string Job) in
      match Page ("scheduler:" +:+ parent) (Name <$> jobs) pageToken pageSize with
      | Err _ => Err InvalidArgument
      | Ok (page, next) => Ok ((λ n, toProto (default zero_job (byName !! n))) <$> page, next)
      end
  end.

(** The function UpdateJob gives to Update. *)
Definition update_fn (in_ : pb.Job) (paths : list string) (now : Time) (cur : Job) : res error Job :=
  merged ← merge_paths in_ (toProto cur) (mask_paths paths);
  next ← fromProto merged;
  at_ ← nextRun (Schedule next) (TimeZone next) now;
  Ok (set_ScheduleTime (set_UserUpdateTime (keep_outcome cur next) now) at_).

Definition UpdateJob s (job : option pb.Job) (paths : list string) (now : Time) : S * res error pb.Job :=
  match job with
  | None => (s, Err InvalidArgument)
  | Some in_ => reply (Update s (pb.name in_) (update_fn in_ paths now))
  end.

Definition DeleteJob s (name : string) : S * res error unit :=
  let '(s, r) := Delete s name in (s, match r with Ok _ => Ok tt | Err e => Err (From e) end).

Definition PauseJob s (name : string) : S * res error pb.Job := reply (Update s name (λ j, Ok (set_State j StatePaused))).

(** The function ResumeJob gives to Update. *)
Definition resume_fn (now : Time) (j : Job) : res error Job :=
  if bool_decide (State_ j = StateEnabled) then Ok j
  else next ← nextRun (Schedule j) (TimeZone j) now; Ok (set_ScheduleTime (set_State j StateEnabled) next).

Definition ResumeJob s (name : string) (now : Time) : S * res error pb.Job := reply (Update s name (resume_fn now)).

(** [running] is whether there is a runner. *)
Definition RunJob s (running : bool) (name : string) (now : Time) : res error (pb.Job * (Job * Time)) :=
  match Get s name with
  | Err e => Err (From e)
  | Ok j => if negb running then Err FailedPrecondition else Ok (toProto j, (j, now))
  end.

End api.

(** ** Locations *)

(** [internal/locations.Regions] *)
Definition Regions : list string :=
  ["africa-south1";
   "asia-east1"; "asia-east2"; "asia-northeast1"; "asia-northeast2"; "asia-northeast3";
   "asia-south1"; "asia-south2"; "asia-southeast1"; "asia-southeast2";
   "australia-southeast1"; "australia-southeast2";
   "europe-central2"; "europe-north1"; "europe-southwest1";
   "europe-west1"; "europe-west2"; "europe-west3"; "europe-west4"; "europe-west6";
   "europe-west8"; "europe-west9"; "europe-west10"; "europe-west12";
   "me-central1"; "me-central2"; "me-west1";
   "northamerica-northeast1"; "northamerica-northeast2";
   "southamerica-east1"; "southamerica-west1";
   "us-central1"; "us-east1"; "us-east4"; "us-east5"; "us-south1";
   "us-west1"; "us-west2"; "us-west3"; "us-west4"].

(** [^projects/<project>$] *)
Definition projectNameRE (s : string) : bool :=
  match Split s slash with [p0; p] => bool_decide (p0 = "projects") && projectRE p | _ => false end.

(** [locationRE.FindStringSubmatch]: the project's name and the location. *)
Definition locationRE_submatch (s : string) : option (string * string) :=
  if parentRE s then match Split s slash with [p0; p; _; l] => Some (p0 +:+ "/" +:+ p, l) | _ => None end else None.

(** [locationpb.Location], whose display name is its ID. *)
Record Location := mkLocation { loc_name : string; location_id : string; display_name : string }.
Definition location_of (project id : string) : Location := mkLocation (project +:+ "/locations/" +:+ id) id id.

Section locations.
Context {S : Type} `{MSL : MetaStoreLaws S Job} `{TJ : TokenJSON}.
Implicit Types (s : S).

(** The location of a job's name. *)
Definition job_location (j : Job) : option string :=
  snd <$> locationRE_submatch (default (Name j) (fst <$> CutString (Name j) "/jobs/")).

Definition locations s (project : string) : res error (list string) :=
  jobs ← List_ s (project +:+ "/locations/");
  Ok (sort_strings (elements (list_to_set Regions ∪ list_to_set (omap job_location jobs) : gset string))).

Definition ListLocations s (name filter_ pageToken : string) (pageSize : Z) : res error (list Location * string) :=
  if negb (projectNameRE name) then Err InvalidArgument
  else if negb (bool_decide (filter_ = "")) then Err Unimplemented
  else match locations s name with
  | Err e => Err (From e)
  | Ok ids =>
      match Page ("scheduler-locations:" +:+ name) ids pageToken pageSize with
      | Err _ => Err InvalidArgument
      | Ok (page, next) => Ok (location_of name <$> page, next)
      end
  end.

Definition GetLocation s (name : string) : res error Location :=
  match locationRE_submatch name with
  | None => Err InvalidArgument
  | Some (project, id) =>
      match locations s project with
      | Err e => Err (From e)
      | Ok ids => let i := sort.SearchStrings ids id in
                  if (i <? length ids)%nat && bool_decide (ids !! i = Some id) then Ok (location_of project id) else Err NotFound
      end
  end.

End locations.
