(* ===== verification/SchedulerRunner.v ===== *)
(** * internal/service/scheduler: delivering jobs

    runner.go and the App Engine attempts of appengine1447.go: what one attempt
    sends and what its answer means, and the Runner as a transition system in
    which its pass, its deliveries and the API are interleaved.  The attempt
    observer only reports and is left out. *)

From S2P Require Import Prelude GoLib ApiError Resource MetaStore Float64 Sched NetHttp SchedulerStore SchedulerConvert SchedulerApi.
From Stdlib Require Import Ascii.

Import strings strconv time.

(** ** One attempt *)

(** The [TokenMinter] interface; an error is its text. *)
Record TokenMinter := mkTokenMinter {
  ServiceAccountIDToken : string → string → res string string;
  ServiceAccountAccessToken : string → string → res string string
}.

Definition DefaultOAuthScope : string := "https://www.googleapis.com/auth/cloud-platform".
Definition AppEngineUserAgent : string := "AppEngine-Google; (+http://code.google.com/appengine)".
Definition AppEngineAttemptStatus : Z := 404.

(** The configuration of a Runner: whether it has a Publisher, its token minter
    and the App Engine stand-in, "" for none. *)
Record Runner := mkRunner { publish : bool; tokens : option TokenMinter; appEngine : string }.

Definition WithAppEngine (r : Runner) (base : string) : Runner := mkRunner (publish r) (tokens r) (TrimSuffix base "/").

(** An attempt's error: its text, and whether it is [errNoAppEngine]. *)
Record failure := mkFailure { no_app : bool; text : string }.
Definition plain_failure (t : string) : failure := mkFailure false t.

Definition errNoAppEngine (url : string) : failure :=
  mkFailure true ("HTTP " +:+ Itoa AppEngineAttemptStatus +:+
    ": App Engine is not available on this CloudBurrow instance, so no app serves " +:+ url).

(** What an attempt puts on the wire. *)
Inductive sent :=
| SentMessage (topic data : string) (attributes : gmap string string)
| SentRequest (r : Request).

(** What the outside answers: the publisher's error, the HTTP status or the
    client's error, and the text of [http.NewRequest]'s refusal. *)
Record answer := mkAnswer { published : option string; responded : res string Z; refused : string }.

Definition authorize (r : Runner) (j : Job) (h : HTTPTarget) (hd : Header) : res failure Header :=
  match OIDC h, OAuth h with
  | None, None => Ok hd
  | oidc, oauth =>
      match tokens r with
      | None => Err (plain_failure ("job " +:+ Name j +:+ " asks for a token, and this instance has no local credentials to mint one"))
      | Some m =>
          let minted :=
            match oidc, oauth with
            | Some o, _ => ServiceAccountIDToken m (oidc_email o) (if bool_decide (Audience o = "") then URI h else Audience o)
            | None, Some o => ServiceAccountAccessToken m (oauth_email o) (if bool_decide (Scope o = "") then DefaultOAuthScope else Scope o)
            | None, None => Ok ""
            end in
          match minted with
          | Err e => Err (plain_failure ("mint the token for " +:+ Name j +:+ ": " +:+ e))
          | Ok tok => Ok (Header_Set hd "Authorization" ("Bearer " +:+ tok))
          end
      end
  end.

Definition default_content_type (body : string) (h : Header) : Header :=
  if bool_decide (Header_Get h "Content-Type" = "") && negb (bool_decide (body = ""))
  then Header_Set h "Content-Type" "application/octet-stream" else h.

(** The headers the service sets on both kinds of request. *)
Definition service_headers (j : Job) (scheduled : Time) (h : Header) : Header :=
  let h := Header_Set h "X-CloudScheduler" "true" in
  let h := Header_Set h "X-CloudScheduler-JobName" (AfterLast (Name j) slash) in
  Header_Set h "X-CloudScheduler-ScheduleTime" (FormatRFC3339 scheduled).

(** Headers an App Engine job may not set. *)
Definition app_engine_reserved (k : string) : bool :=
  HasPrefix (ToLower k) "x-appengine-" || HasPrefix (ToLower k) "x-google-".

Section attempt.
Context `{Net}.

(** The HTTP branch of [attempt]; [order] is the order the job's header map is
    ranged over in, [why] the text of a refused request. *)
Definition http_request (r : Runner) (j : Job) (h : HTTPTarget) (scheduled : Time) (order : list (string * string)) (why : string)
    : res failure Request :=
  if negb (request_ok (Method h) (URI h)) then Err (plain_failure why)
  else
    hd ← authorize r j h (set_all order ∅);
    let hd := service_headers j scheduled (Header_Set hd "User-Agent" "Google-Cloud-Scheduler") in
    Ok (mkRequest (Method h) (URI h) (default_content_type (Body h) hd) (Body h) None).

Definition appEngineRequest (r : Runner) (j : Job) (a : AppEngineTarget) (scheduled : Time) (order : list (string * string)) (why : string)
    : res failure Request :=
  if negb (request_ok (ae_Method a) (appEngine r +:+ RelativeURI a)) then Err (plain_failure why)
  else
    let hd := set_all (filter (λ kv, app_engine_reserved kv.1 = false) order) ∅ in
    let own := Header_Get hd "User-Agent" in
    let ua := if bool_decide (own = "") then AppEngineUserAgent else own +:+ " " +:+ AppEngineUserAgent in
    let hd := service_headers j scheduled (Header_Set hd "User-Agent" ua) in
    Ok (mkRequest (ae_Method a) (appEngine r +:+ RelativeURI a) (default_content_type (ae_Body a) hd) (ae_Body a)
          (Some (AppEngineHost (projectOf (Name j)) (Routing a)))).

Definition attemptAppEngine (j : Job) (a : AppEngineTarget) : Z * option failure :=
  (AppEngineAttemptStatus,
   Some (errNoAppEngine ("https://" +:+ AppEngineHost (projectOf (Name j)) (Routing a) +:+ RelativeURI a))).

(** [client.Do] and the check of the status; [whom] is what the text names. *)
Definition do_request (whom : string) (ans : answer) : Z * option failure :=
  match responded ans with
  | Err e => (0%Z, Some (plain_failure e))
  | Ok status =>
      if (status <? 200)%Z || (299 <? status)%Z then (status, Some (plain_failure (whom +:+ " returned HTTP " +:+ Itoa status)))
      else (status, None)
  end.

(** What is sent, the status code and the error. *)
Definition attempt (r : Runner) (j : Job) (scheduled : Time) (order : list (string * string)) (ans : answer)
    : option sent * (Z * option failure) :=
  match PubSub j, HTTP j, AppEngine j with
  | Some p, _, _ =>
      if negb (publish r)
      then (None, (0%Z, Some (plain_failure ("Pub/Sub is not enabled on this instance, so " +:+ Name j +:+ " cannot publish"))))
      else (Some (SentMessage (Topic p) (Data p) (Attributes p)), (0%Z, plain_failure <$> published ans))
  | None, Some h, _ =>
      match http_request r j h scheduled order (refused ans) with
      | Err f => (None, (0%Z, Some f))
      | Ok rq => (Some (SentRequest rq), do_request (URI h) ans)
      end
  | None, None, Some a =>
      if bool_decide (appEngine r = "") then (None, attemptAppEngine j a)
      else match appEngineRequest r j a scheduled order (refused ans) with
           | Err f => (None, (0%Z, Some f))
           | Ok rq => (Some (SentRequest rq), do_request (default "" (rq_Host rq) +:+ RelativeURI a) ans)
           end
  | None, None, None => (None, (0%Z, Some (plain_failure ("job " +:+ Name j +:+ " has no target"))))
  end.

End attempt.

(** ** One delivery *)

Definition backoff_of (j : Job) : CloudTasks.CloudTasksBackoff :=
  CloudTasks.WithDefaults
    (CloudTasks.mkCloudTasksBackoff (RetryCount (Retry j) + 1) (MinBackoff (Retry j)) (MaxBackoff (Retry j)) (MaxDoublings (Retry j)) 0%Z).

(** [Job.status]'s code: OK 0, UNKNOWN 2, NOT_FOUND 5. *)
Definition grpc_code (err : option failure) : Z :=
  match err with None => 0 | Some f => if no_app f then 5 else 2 end%Z.

(** The function [deliver] gives to Update. *)
Definition record_fn (now : Time) (err : option failure) (cur : Job) : res error Job :=
  Ok (set_Last cur now (grpc_code err) (from_option text "" err)).

Section deliver.
Context `{Platform}.

(** After attempt [n]: how long to wait for the next one, [None] to return.
    [now] is the reading after the attempt. *)
Definition next_attempt (j : Job) (start now : Time) (n : Z) (err : option failure) : option Duration :=
  let b := backoff_of j in
  if bool_decide (err = None) || negb (CloudTasks.ShouldRetry b n) then None
  else if (0 <? MaxRetryDuration (Retry j))%Z && (MaxRetryDuration (Retry j) <=? Sub now start)%Z then None
  else Some (CloudTasks.Delay b n).

End deliver.

(** ** The runner, its deliveries and the API *)

Inductive phase :=
| Starting
| Attempting (n : Z)
| Tried (n : Z) (err : option failure)
| Waiting (n : Z) (until : Time).

(** One background delivery: the job as it was fired. *)
Record delivery := mkDelivery { d_job : Job; d_scheduled : Time; d_start : Time; d_phase : phase }.

(** Where Run's loop is: between passes, at a job of the pass, or between the
    job's Update and [fire]. *)
Inductive pass :=
| Between
| Passing (now : Time) (jobs : list Job)
| Firing (now : Time) (j : Job) (jobs : list Job).

(** The operations of the API and of /admin/reset that write. *)
Inductive call :=
| CCreate (parent : string) (job : option pb.Job) (now : Time)
| CUpdate (job : option pb.Job) (paths : list string) (now : Time)
| CDelete (name : string)
| CPause (name : string)
| CResume (name : string) (now : Time)
| CReset.

Section runner.
Context {S : Type} `{MSL : MetaStoreLaws S Job} `{CR : Cron} `{NT : Net} `{PL : Platform}.
Implicit Types (s : S).

Definition call_run s (c : call) : S :=
  match c with
  | CCreate parent job now => (CreateJob s parent job now).1
  | CUpdate job paths now => (UpdateJob s job paths now).1
  | CDelete name => (DeleteJob s name).1
  | CPause name => (PauseJob s name).1
  | CResume name now => (ResumeJob s name now).1
  | CReset => (Reset s).1
  end.

(** [requested] holds the RunJob calls that have read their job and not yet
    reached [fire]. *)
Record world := mkWorld {
  db : S;
  inflight : gset string;
  running : list delivery;
  requested : list (Job * Time);
  at_ : pass
}.

Definition due (now : Time) (j : Job) : bool := bool_decide (State_ j = StateEnabled) && negb (After (ScheduleTime j) now).

(** One job of a pass: the schedule is advanced first; [true] when the job is to
    be fired. *)
Definition advance s (now : Time) (j : Job) : S * bool :=
  if negb (due now j) then (s, false)
  else match nextRun (Schedule j) (TimeZone j) now with
       | Err _ => (s, false)
       | Ok next =>
           let '(s, r) := Update s (Name j) (λ cur, Ok (set_ScheduleTime cur next)) in (s, is_ok r)
       end.

(** [fire]: a job already being delivered is not started again. *)
Definition fire (w : world) (j : Job) (scheduled : Time) : world :=
  if bool_decide (Name j ∈ inflight w) then w
  else mkWorld (db w) ({[Name j]} ∪ inflight w) (mkDelivery j scheduled zero Starting :: running w) (requested w) (at_ w).

(** A whole pass, [fireDue], with nothing in between. *)
Fixpoint fire_all (w : world) (now : Time) (jobs : list Job) : world :=
  match jobs with
  | [] => w
  | j :: rest =>
      let '(s, go) := advance (db w) now j in
      let w := mkWorld s (inflight w) (running w) (requested w) (at_ w) in
      fire_all (if go then fire w j (ScheduleTime j) else w) now rest
  end.

Definition fireDue (w : world) (now : Time) : world :=
  match List_ (db w) "" with Err _ => w | Ok jobs => fire_all w now jobs end.

Inductive step (r : Runner) : world → world → Prop :=
(** [fireDue] lists the jobs and reads the clock. *)
| S_list s fl ds rq now jobs :
    List_ s "" = Ok jobs → step r (mkWorld s fl ds rq Between) (mkWorld s fl ds rq (Passing now jobs))
| S_advance s fl ds rq now j jobs s' :
    advance s now j = (s', true) → step r (mkWorld s fl ds rq (Passing now (j :: jobs))) (mkWorld s' fl ds rq (Firing now j jobs))
| S_skip s fl ds rq now j jobs s' :
    advance s now j = (s', false) → step r (mkWorld s fl ds rq (Passing now (j :: jobs))) (mkWorld s' fl ds rq (Passing now jobs))
| S_fire s fl ds rq now j jobs :
    step r (mkWorld s fl ds rq (Firing now j jobs)) (fire (mkWorld s fl ds rq (Passing now jobs)) j (ScheduleTime j))
| S_pass_end s fl ds rq now :
    step r (mkWorld s fl ds rq (Passing now [])) (mkWorld s fl ds rq Between)
(** RunJob reads its job, then fires it. *)
| S_run s fl ds rq p name now msg j :
    RunJob s true name now = Ok (msg, (j, now)) → step r (mkWorld s fl ds rq p) (mkWorld s fl ds ((j, now) :: rq) p)
| S_run_fire s fl ds rq1 rq2 p j t :
    step r (mkWorld s fl ds (rq1 ++ (j, t) :: rq2) p) (fire (mkWorld s fl ds (rq1 ++ rq2) p) j t)
(** A delivery: it reads the clock, attempts, records the outcome, and returns or
    waits. *)
| S_start s fl ds1 ds2 rq p j t start :
    step r (mkWorld s fl (ds1 ++ mkDelivery j t zero Starting :: ds2) rq p)
           (mkWorld s fl (ds1 ++ mkDelivery j t start (Attempting 1) :: ds2) rq p)
| S_attempt s fl ds1 ds2 rq p j t start n order ans out code err now :
    attempt r j t order ans = (out, (code, err)) →
    step r (mkWorld s fl (ds1 ++ mkDelivery j t start (Attempting n) :: ds2) rq p)
           (mkWorld (Update s (Name j) (record_fn now err)).1 fl (ds1 ++ mkDelivery j t start (Tried n err) :: ds2) rq p)
| S_return s fl ds1 ds2 rq p j t start n err now :
    next_attempt j start now n err = None →
    step r (mkWorld s fl (ds1 ++ mkDelivery j t start (Tried n err) :: ds2) rq p)
           (mkWorld s (fl ∖ {[Name j]}) (ds1 ++ ds2) rq p)
| S_wait s fl ds1 ds2 rq p j t start n err now d :
    next_attempt j start now n err = Some d →
    step r (mkWorld s fl (ds1 ++ mkDelivery j t start (Tried n err) :: ds2) rq p)
           (mkWorld s fl (ds1 ++ mkDelivery j t start (Waiting n (Add now d)) :: ds2) rq p)
| S_again s fl ds1 ds2 rq p j t start n until :
    step r (mkWorld s fl (ds1 ++ mkDelivery j t start (Waiting n until) :: ds2) rq p)
           (mkWorld s fl (ds1 ++ mkDelivery j t start (Attempting (n + 1)) :: ds2) rq p)
(** The context ends while a delivery waits. *)
| S_cancel s fl ds1 ds2 rq p j t start n until :
    step r (mkWorld s fl (ds1 ++ mkDelivery j t start (Waiting n until) :: ds2) rq p)
           (mkWorld s (fl ∖ {[Name j]}) (ds1 ++ ds2) rq p)
| S_call s fl ds rq p c :
    step r (mkWorld s fl ds rq p) (mkWorld (call_run s c) fl ds rq p).

Definition start_world s : world := mkWorld s ∅ [] [] Between.

End runner.
