(* ===== verification/SchedulerSpec.v ===== *)
(** * What Cloud Scheduler's store and API guarantee

    Every stored job is one the API would accept, listings are exact, and an
    update changes what its mask names. *)

From S2P Require Import Prelude GoLib ApiError Resource MetaStore Paging SchedulerStore SchedulerConvert SchedulerApi.
From Stdlib Require Import Ascii.

Import strings strconv time.

(** ** Names and keys *)

Lemma CutLast_spec s sub x y : CutLast s sub = Some (x, y) → s = x +:+ sub +:+ y.
Proof.
  revert x y. induction s as [|a s IH]; intros x y; cbn [CutLast].
  - case_bool_decide; [|done]. intros [= <- <-]. by subst.
  - destruct (CutLast s sub) as [[x' y']|].
    + intros [= <- <-]. rewrite app_cons. f_equal. by apply IH.
    + destruct (HasPrefix (String a s) sub) eqn:Hp; [|done]. intros [= <- <-].
      apply HasPrefix_spec in Hp as [r Hr]. unfold len. by rewrite Hr, drop_bytes_app.
Qed.

Lemma parentRE_no_tilde s : parentRE s = true → free_of tilde s = true.
Proof.
  unfold parentRE. intros H. rewrite <- (Join_Split s slash). destruct (Split s slash) as [|p0 [|p [|p2 [|l [|]]]]]; try done.
  apply andb_true_iff in H as [[[[H0 Hp]%andb_true_iff H2]%andb_true_iff _]%andb_true_iff Hl]. bool_prop. subst.
  unfold projectRE in Hp. apply andb_true_iff in Hp as [[_ Hp]%andb_true_iff _].
  rewrite !Join_cons2. change (Join [l] slash) with l. rewrite (free_of_app _ "projects"), (free_of_cons _ slash), (free_of_app _ p), (free_of_cons _ slash).
  rewrite (free_of_app _ "locations"), (free_of_cons _ slash).
  unfold free_of. rewrite (AllBytes_not_in _ p tilde Hp), (AllBytes_not_in _ l tilde Hl) by done. done.
Qed.

Lemma parseJobName_no_tilde name : parseJobName name = Ok tt → free_of tilde name = true.
Proof.
  unfold parseJobName. destruct (CutLast name "/jobs/") as [[x y]|] eqn:Hc; [|done].
  destruct (parentRE x && jobIDRE y) eqn:Hre; [|done]. intros _. apply CutLast_spec in Hc as ->.
  apply andb_true_iff in Hre as [Hx Hy]. rewrite !free_of_app, parentRE_no_tilde by done. cbn.
  unfold jobIDRE in Hy. apply andb_true_iff in Hy as [_ Hy]. by apply (AllBytes_not_in _ y tilde Hy).
Qed.

Lemma key_inj m n : free_of tilde m = true → free_of tilde n = true → key m = key n → m = n.
Proof.
  intros Hm Hn Hk. assert (ReplaceAll m slash tilde = ReplaceAll n slash tilde) as Hr by (unfold key, keyPrefix in Hk; by injection Hk).
  by rewrite <- (ReplaceAll_back m slash tilde), Hr, ReplaceAll_back.
Qed.

(** ** Jobs the API accepts *)

Definition http_ok (h : HTTPTarget) : Prop :=
  (HasPrefix (URI h) "http://" = true ∨ HasPrefix (URI h) "https://" = true) ∧
  (Body h = "" ∨ Method h ∈ ["POST"; "PUT"; "PATCH"]) ∧ Method h ≠ "" ∧
  (∀ t, OIDC h = Some t → oidc_email t ≠ "") ∧ (∀ t, OAuth h = Some t → oauth_email t ≠ "") ∧
  (OIDC h = None ∨ OAuth h = None).

Definition pubsub_ok (p : PubSubTarget) : Prop :=
  HasPrefix (Topic p) "projects/" = true ∧ Contains (Topic p) "/topics/" = true ∧ (Data p ≠ "" ∨ Attributes p ≠ ∅).

Definition app_engine_ok (a : AppEngineTarget) : Prop :=
  HasPrefix (RelativeURI a) "/" = true ∧ (ae_Body a = "" ∨ ae_Method a = "POST" ∨ ae_Method a = "PUT").

(** Exactly one target, as the API checks it. *)
Definition target_ok (j : Job) : Prop :=
  match HTTP j, PubSub j, AppEngine j with
  | Some h, None, None => http_ok h
  | None, Some p, None => pubsub_ok p
  | None, None, Some a => app_engine_ok a
  | _, _, _ => False
  end.

Record retry_ok (r : RetryConfig) : Prop := mkRetryOk {
  ro_count : (0 ≤ RetryCount r ≤ 5)%Z;
  ro_duration : (int_min ≤ MaxRetryDuration r ≤ int_max)%Z;
  ro_min : (0 < MinBackoff r ≤ int_max)%Z;
  ro_max : (0 < MaxBackoff r ≤ int_max)%Z;
  ro_doublings : (0 < MaxDoublings r)%Z
}.

Record job_ok (j : Job) : Prop := mkJobOk {
  jo_name : parseJobName (Name j) = Ok tt;
  jo_schedule : Schedule j ≠ "";
  jo_zone : TimeZone j ≠ "";
  jo_target : target_ok j;
  jo_retry : retry_ok (Retry j);
  jo_unset : RetryUnset j = true → Retry j = DefaultRetryConfig;
  jo_deadline : (15 * Second ≤ AttemptDeadline j ≤ 30 * Minute)%Z
}.

Lemma AsDuration_range d : (int_min ≤ durationpb.AsDuration d ≤ int_max)%Z.
Proof. unfold durationpb.AsDuration, int_min, int_max. lia. Qed.

Lemma positive_or_range d default :
  (0 < default ≤ int_max)%Z → (0 < positive_or d default ≤ int_max)%Z.
Proof.
  intros Hd. unfold positive_or. destruct d as [d|]; [|done]. destruct (Z.ltb_spec 0 (durationpb.AsDuration d)); [|done].
  pose proof (AsDuration_range d). lia.
Qed.

Lemma HttpMethod_String_nonempty m : pb.HttpMethod_String m ≠ "".
Proof.
  unfold pb.HttpMethod_String. destruct (m <? 0)%Z; [apply Itoa_nonempty|]. unfold pb.HttpMethod_names.
  destruct (Z.to_nat m) as [|[|[|[|[|[|[|[|n]]]]]]]]; try done. apply Itoa_nonempty.
Qed.

Lemma http_from_ok h t : http_from h = Ok t → http_ok t.
Proof.
  unfold http_from, http_ok. destruct (negb _ && negb _) eqn:Hu; [done|]. cbv zeta. set (method := if (_ =? 0)%Z then _ else _).
  assert (method ≠ "") as Hm. { unfold method. destruct (_ =? 0)%Z; [done|apply HttpMethod_String_nonempty]. }
  destruct (negb (bool_decide (pb.body h = "")) && _) eqn:Hb; [done|].
  assert (HasPrefix (pb.uri h) "http://" = true ∨ HasPrefix (pb.uri h) "https://" = true) as Hu'.
  { apply andb_false_iff in Hu as [Hu|Hu]; apply negb_false_iff in Hu; auto. }
  assert (pb.body h = "" ∨ method ∈ ["POST"; "PUT"; "PATCH"]) as Hb'.
  { apply andb_false_iff in Hb as [Hb|Hb]; apply negb_false_iff, bool_decide_eq_true in Hb; auto. }
  destruct (pb.authorization_header h) as [[t'|t']|].
  - destruct (bool_decide (pb.oidc_email t' = "")) eqn:He; [done|]. bool_prop. intros [= <-]. cbn. naive_solver.
  - destruct (bool_decide (pb.oauth_email t' = "")) eqn:He; [done|]. bool_prop. intros [= <-]. cbn. naive_solver.
  - intros [= <-]. cbn. naive_solver.
Qed.

Lemma default_retry_ok : retry_ok DefaultRetryConfig.
Proof. split; try split; vm_compute; first [reflexivity|discriminate]. Qed.

Lemma retry_from_ok rc r : retry_from rc = Ok r → retry_ok r ∧ (rc = None → r = DefaultRetryConfig).
Proof.
  destruct rc as [rc|]; cbn; [|intros [= <-]; split; [apply default_retry_ok|done]].
  destruct ((pb.retry_count rc <? 0)%Z || (5 <? pb.retry_count rc)%Z) eqn:Hc; [done|]. intros [= <-]. bool_prop. split; [|done].
  split; cbn.
  - lia.
  - destruct (pb.max_retry_duration rc) as [d|]; cbn; [apply AsDuration_range|unfold int_min, int_max; lia].
  - apply positive_or_range, default_retry_ok.
  - apply positive_or_range, default_retry_ok.
  - destruct (Z.ltb_spec 0 (pb.max_doublings rc)); [done|apply default_retry_ok].
Qed.

Lemma fromProto_ok p j : fromProto p = Ok j → parseJobName (pb.name p) = Ok tt → job_ok j ∧ Name j = pb.name p.
Proof.
  unfold fromProto. cbv zeta. destruct (bool_decide (pb.schedule p = "")) eqn:Hs; [done|].
  intros ([[http pubsub] app] & Ht & (retry & Hr & (deadline & Hd & [= <-])%res_bind_ok)%res_bind_ok)%res_bind_ok Hn.
  split; [|done]. destruct (retry_from_ok _ _ Hr) as [Hr1 Hr2]. split; cbn.
  - done.
  - by bool_prop.
  - destruct (bool_decide (pb.time_zone p = "")) eqn:Hz; [done|by bool_prop].
  - unfold target_from in Ht. destruct (pb.target_ p) as [[h|t|a]|]; [..|done];
      apply res_bind_ok in Ht as (x & Hx & [= <- <- <-]); unfold target_ok; cbn.
    + by eapply http_from_ok.
    + unfold pubsub_from in Hx. destruct (negb _ || negb _) eqn:H1; [done|]. destruct (bool_decide _ && _) eqn:H2; [done|].
      injection Hx as <-. apply orb_false_iff in H1 as [?%negb_false_iff ?%negb_false_iff]. unfold pubsub_ok. cbn. split_and!; [done|done|].
      apply andb_false_iff in H2 as [?|?]; bool_prop; auto.
    + unfold appEngineFromProto in Hx. cbv zeta in Hx. destruct (negb (HasPrefix _ "/")) eqn:H1; [done|].
      destruct (negb _ && _ && _) eqn:H2; [done|]. injection Hx as <-. split; cbn; [by apply negb_false_iff in H1|].
      destruct (bool_decide (pb.ae_body a = "")) eqn:Hb; [left; by bool_prop|right]. cbn in H2.
      apply andb_false_iff in H2 as [H2|H2]; apply negb_false_iff, Z.eqb_eq in H2; rewrite H2; auto.
  - done.
  - intros Hu. apply Hr2. by apply bool_decide_eq_true in Hu.
  - unfold deadline_from in Hd. cbv zeta in Hd. destruct (_ =? 0)%Z; [injection Hd as <-; unfold default_deadline; by unfold Second, Minute|].
    destruct (_ || _) eqn:Hb; [done|]. injection Hd as <-. apply orb_false_iff in Hb as [?%Z.ltb_ge ?%Z.ltb_ge]. lia.
Qed.

(** ** toProto, read back *)

(** A method with a number. *)
Definition known (m : string) : Prop := m ∈ ["POST"; "GET"; "HEAD"; "PUT"; "DELETE"; "PATCH"; "OPTIONS"].

(** What a message can carry of a job: methods by their number, int32 counts. *)
Definition carried (j : Job) : Prop :=
  (∀ h, HTTP j = Some h → known (Method h)) ∧ (∀ a, AppEngine j = Some a → known (ae_Method a)) ∧ (MaxDoublings (Retry j) < 2 ^ 31)%Z.

Lemma known_number m : known m →
  (pb.HttpMethod_value m =? 0)%Z = false ∧ pb.HttpMethod_String (pb.HttpMethod_value m) = m ∧
  (pb.HttpMethod_value m = 1%Z ↔ m = "POST") ∧ (pb.HttpMethod_value m = 4%Z ↔ m = "PUT").
Proof. unfold known. intros H. repeat (apply elem_of_cons in H as [->|H]; [by vm_compute|]). by apply not_elem_of_nil in H. Qed.

Lemma job_http_roundtrip h : http_ok h → known (Method h) →
  http_from (pb.mkHttpTarget (URI h) (pb.HttpMethod_value (Method h)) (Headers h) (Body h) (auth_to h)) = Ok h.
Proof.
  intros (Hu & Hb & _ & Ho & Ha & Hone) Hk. destruct (known_number _ Hk) as (Hn & Hs & _). destruct h as [uri method hd body oidc oauth].
  unfold http_from. cbn [URI Method Headers Body OIDC OAuth pb.uri pb.http_method pb.headers pb.body pb.authorization_header] in *. rewrite Hn, Hs.
  assert (negb (HasPrefix uri "http://") && negb (HasPrefix uri "https://") = false) as -> by (destruct Hu as [-> | ->]; [done|by rewrite andb_false_r]).
  assert (negb (bool_decide (body = "")) && negb (bool_decide (method ∈ ["POST"; "PUT"; "PATCH"])) = false) as ->.
  { destruct Hb as [-> |Hb]; [done|]. by rewrite (bool_decide_eq_true_2 _ Hb), andb_false_r. }
  unfold auth_to. cbn. destruct oidc as [[e a]|], oauth as [[e' a']|]; cbn; try done.
  - by destruct Hone.
  - rewrite bool_decide_eq_false_2 by by eapply (Ho (mkOIDCToken e a)). done.
  - rewrite bool_decide_eq_false_2 by by eapply (Ha (mkOAuthToken e' a')). done.
Qed.

Lemma job_app_engine_roundtrip a job : app_engine_ok a → known (ae_Method a) → appEngineFromProto (appEngineToProto a job) = Ok a.
Proof.
  intros [Hu Hb] Hk. destruct (known_number _ Hk) as (Hn & Hs & Hpost & Hput). destruct a as [method uri hd body [sv v i]].
  unfold appEngineFromProto, appEngineToProto.
  cbn [RelativeURI ae_Body ae_Method ae_Headers Routing pb.relative_uri pb.ae_body pb.ae_http_method pb.ae_headers pb.app_engine_routing] in *.
  rewrite bool_decide_eq_false_2 by by intros ->. rewrite Hu. cbv zeta. rewrite Hn, Hs. cbn [negb].
  assert (negb (bool_decide (body = "")) && negb (pb.HttpMethod_value method =? 1)%Z && negb (pb.HttpMethod_value method =? 4)%Z = false) as ->; [|done].
  destruct Hb as [-> |[Hm|Hm]]; [done| |].
  - apply Hpost in Hm as ->. by rewrite andb_false_r.
  - apply Hput in Hm as ->. by rewrite andb_false_r.
Qed.

Lemma target_roundtrip j : target_ok j → carried j → target_from (target_to j) = Ok (HTTP j, PubSub j, AppEngine j).
Proof.
  intros Ht (Hh & Ha & _). unfold target_to, target_ok in *. destruct (HTTP j) as [h|], (PubSub j) as [p|], (AppEngine j) as [a|]; try done.
  - cbn. rewrite job_http_roundtrip; [done|done|by apply Hh].
  - destruct p as [topic data attrs], Ht as (H1 & H2 & H3). cbn [target_from]. unfold pubsub_from.
    cbn [Topic Data Attributes pb.topic_name pb.data pb.attributes] in *. rewrite H1, H2. cbn [negb orb].
    assert (bool_decide (data = "") && bool_decide (attrs = ∅) = false) as ->; [|done].
    apply andb_false_iff. destruct H3; [left|right]; by apply bool_decide_eq_false_2.
  - cbn. rewrite job_app_engine_roundtrip; [done|done|by apply Ha].
Qed.

Lemma positive_or_New d default : (0 < d ≤ int_max)%Z → positive_or (Some (durationpb.New d)) default = d.
Proof.
  intros Hd. unfold positive_or. rewrite durationpb.AsDuration_New by (unfold int_min in *; lia). by rewrite (proj2 (Z.ltb_lt _ _)) by lia.
Qed.

Lemma retry_roundtrip j : retry_ok (Retry j) → (RetryUnset j = true → Retry j = DefaultRetryConfig) → carried j →
  retry_from (if RetryUnset j then None else Some (retry_to (Retry j))) = Ok (Retry j).
Proof.
  intros [Hc Hd H1 H2 H3] Hu (_ & _ & H4). destruct (RetryUnset j); [cbn; by rewrite Hu|]. destruct (Retry j) as [c d mi ma db].
  unfold retry_from, retry_to. cbn [pb.retry_count pb.max_retry_duration pb.min_backoff_duration pb.max_backoff_duration pb.max_doublings
    RetryCount MaxRetryDuration MinBackoff MaxBackoff MaxDoublings from_option] in *.
  assert (wrap_i32 c = c) as -> by (unfold wrap_i32; rewrite Z.mod_small; lia).
  assert (wrap_i32 db = db) as -> by (unfold wrap_i32; rewrite Z.mod_small; lia).
  rewrite !positive_or_New, durationpb.AsDuration_New by done. rewrite (proj2 (Z.ltb_ge _ _)), (proj2 (Z.ltb_ge _ _)), (proj2 (Z.ltb_lt _ _)) by lia. done.
Qed.

Lemma deadline_roundtrip d : (15 * Second ≤ d ≤ 30 * Minute)%Z → deadline_from (Some (durationpb.New d)) = Ok d.
Proof.
  intros Hd. unfold deadline_from. rewrite positive_or_New by (unfold Minute, Second, int_max in *; lia). cbv zeta.
  rewrite (proj2 (Z.eqb_neq _ _)) by (unfold Second in *; lia). by rewrite (proj2 (Z.ltb_ge _ _)), (proj2 (Z.ltb_ge _ _)) by lia.
Qed.

(** What the request fields of a job say, without what the service keeps. *)
Definition settings (j : Job) : Job :=
  mkJob (Name j) (Description j) (Schedule j) (TimeZone j) StateEnabled (HTTP j) (PubSub j) (AppEngine j) (Retry j) (RetryUnset j)
    (AttemptDeadline j) zero zero zero 0%Z "".

(** ** Masks *)

Inductive field := FDescription | FSchedule | FTimeZone | FTarget | FRetry | FDeadline.
#[global] Instance field_eq_dec : EqDecision field.
Proof. solve_decision. Defined.

(** The paths of the fields of a job that can be updated, as the API documents
    them. *)
Definition job_fields : list (string * field) :=
  [("description", FDescription); ("schedule", FSchedule); ("time_zone", FTimeZone);
   ("http_target", FTarget); ("pubsub_target", FTarget); ("app_engine_http_target", FTarget);
   ("retry_config", FRetry); ("attempt_deadline", FDeadline)].

(** The mask asks for the field; an empty one asks for all of them. *)
Definition asked (paths : list string) (f : field) : bool :=
  bool_decide (paths = []) || existsb (λ p, bool_decide ((p, f) ∈ job_fields)) paths.

(** The path of the request's own target. *)
Definition target_path (t : option pb.target) : option string :=
  match t with
  | Some (pb.Job_HttpTarget _) => Some "http_target"
  | Some (pb.Job_PubsubTarget _) => Some "pubsub_target"
  | Some (pb.Job_AppEngineHttpTarget _) => Some "app_engine_http_target"
  | None => None
  end.

(** A mask of field paths, whose target, if it names one, is the kind of target the
    request has. *)
Definition field_mask (in_ : pb.Job) (paths : list string) : Prop :=
  Forall (λ p, p ∈ job_fields.*1 ∧ ((p, FTarget) ∈ job_fields → ∀ q, target_path (pb.target_ in_) = Some q → p = q)) paths.

(** The other paths the switch accepts: the name of the oneof, and whatever begins
    with the path of a target or lies under retry_config. *)
Definition loose_path (p : string) : bool :=
  bool_decide (p = "target") || existsb (HasPrefix p) ["http_target"; "pubsub_target"; "app_engine_http_target"; "retry_config."].

(** The case of the switch a path takes: the message field it sets. *)
Definition path_field (p : string) : option field :=
  if bool_decide (p = "description") then Some FDescription
  else if bool_decide (p = "schedule") then Some FSchedule
  else if bool_decide (p = "time_zone") then Some FTimeZone
  else if bool_decide (p = "target") || HasPrefix p "http_target" || HasPrefix p "pubsub_target" || HasPrefix p "app_engine_http_target"
  then Some FTarget
  else if bool_decide (p = "retry_config") || HasPrefix p "retry_config." then Some FRetry
  else if bool_decide (p = "attempt_deadline") then Some FDeadline
  else None.

Definition names (paths : list string) (f : field) : bool := existsb (λ p, bool_decide (path_field p = Some f)) paths.

(** [in_]'s field where the mask names it. *)
Definition merged_of (in_ m : pb.Job) (paths : list string) : pb.Job :=
  pb.mkJob (pb.name m)
    (if names paths FDescription then pb.description in_ else pb.description m)
    (if names paths FSchedule then pb.schedule in_ else pb.schedule m)
    (if names paths FTimeZone then pb.time_zone in_ else pb.time_zone m)
    (if names paths FTarget then pb.target_ in_ else pb.target_ m)
    (if names paths FRetry then pb.retry_config in_ else pb.retry_config m)
    (if names paths FDeadline then pb.attempt_deadline in_ else pb.attempt_deadline m)
    (pb.user_update_time m) (pb.schedule_time m) (pb.state m) (pb.last_attempt_time m) (pb.status m).

Lemma merge_path_of in_ m p :
  merge_path in_ m p = if path_field p then Ok (merged_of in_ m [p]) else Err InvalidArgument.
Proof.
  destruct m as [n d sc z t r a ut st state la status]. unfold merge_path, merged_of, names, existsb, path_field.
  destruct (bool_decide (p = "description")); [done|]. destruct (bool_decide (p = "schedule")); [done|].
  destruct (bool_decide (p = "time_zone")); [done|]. destruct (_ || _ || _ || _); [done|].
  destruct (bool_decide (p = "retry_config") || _); [done|]. by destruct (bool_decide (p = "attempt_deadline")).
Qed.

Lemma merged_of_cons in_ m p paths : merged_of in_ (merged_of in_ m [p]) paths = merged_of in_ m (p :: paths).
Proof.
  unfold merged_of. cbn [pb.name pb.description pb.schedule pb.time_zone pb.target_ pb.retry_config pb.attempt_deadline pb.user_update_time
    pb.schedule_time pb.state pb.last_attempt_time pb.status].
  unfold names. cbn [existsb]. f_equal; by destruct (bool_decide _), (existsb _ paths).
Qed.

Lemma merge_paths_of in_ m paths :
  merge_paths in_ m paths = if forallb (λ p, bool_decide (is_Some (path_field p))) paths then Ok (merged_of in_ m paths) else Err InvalidArgument.
Proof.
  revert m. induction paths as [|p paths IH]; intros m; [by destruct m|]. cbn [merge_paths forallb]. rewrite merge_path_of.
  destruct (path_field p) as [f|] eqn:Hp; [|done]. rewrite bool_decide_eq_true_2 by done. cbn [mbind res_bind andb].
  by rewrite IH, merged_of_cons.
Qed.

(** On field paths the switch sets the field that is named. *)
Lemma job_fields_switch p : p ∈ job_fields.*1 → ∀ f, bool_decide (path_field p = Some f) = bool_decide ((p, f) ∈ job_fields).
Proof.
  intros H. cbn in H. repeat (apply elem_of_cons in H as [->|H]; [by intros []; vm_compute|]). by apply not_elem_of_nil in H.
Qed.

Lemma asked_names in_ paths f : field_mask in_ paths → asked paths f = names (mask_paths paths) f.
Proof.
  intros Hm. unfold asked, mask_paths. case_bool_decide as Hp; [subst paths; by destruct f; vm_compute|]. cbn [orb]. clear Hp.
  induction Hm as [|p paths [Hp _] _ IH]; [done|]. unfold names in *. cbn [existsb]. by rewrite IH, (job_fields_switch p Hp).
Qed.

(** What the switch accepts is a field's path or a loose one. *)
Lemma path_field_loose p : p ∉ job_fields.*1 → loose_path p = false → path_field p = None.
Proof.
  intros Hno Hl. unfold loose_path in Hl. cbn [existsb] in Hl. apply orb_false_iff in Hl as [H0 Hl]. apply orb_false_iff in Hl as [H1 Hl].
  apply orb_false_iff in Hl as [H2 Hl]. apply orb_false_iff in Hl as [H3 Hl]. apply orb_false_iff in Hl as [H4 _].
  unfold path_field. rewrite H0, H1, H2, H3, H4. cbn [orb].
  repeat (rewrite bool_decide_eq_false_2 by (intros ->; apply Hno; by apply (bool_decide_unpack _); vm_compute)). done.
Qed.

Lemma refused_paths p paths : p ∈ paths → p ∉ job_fields.*1 → loose_path p = false →
  forallb (λ p, bool_decide (is_Some (path_field p))) (mask_paths paths) = false.
Proof.
  intros Hp Hno Hl. unfold mask_paths. case_bool_decide as Hn; [subst paths; by apply not_elem_of_nil in Hp|].
  apply not_true_is_false. intros Hall. rewrite forallb_forall in Hall. specialize (Hall p (proj1 (list_elem_of_In _ _) Hp)).
  rewrite (path_field_loose p Hno Hl) in Hall. done.
Qed.

Section store.
Context {S : Type} `{MSL : MetaStoreLaws S Job} `{CR : Cron}.
Implicit Types (s : S) (m : gmap string Job).

(** What UpdateJob makes of [cur]: each field that is [named] is the request's,
    every other one is kept, and the next run is taken from the new schedule. *)
Record masked (in_ : pb.Job) (named : field → bool) (now : Time) (cur next : Job) : Prop := mkMasked {
  mk_Name : Name next = Name cur;
  mk_Description : Description next = if named FDescription then pb.description in_ else Description cur;
  mk_Schedule : Schedule next = if named FSchedule then pb.schedule in_ else Schedule cur;
  mk_TimeZone : TimeZone next = if named FTimeZone then (if bool_decide (pb.time_zone in_ = "") then "Etc/UTC" else pb.time_zone in_)
                                else TimeZone cur;
  mk_target : if named FTarget then target_from (pb.target_ in_) = Ok (HTTP next, PubSub next, AppEngine next)
              else (HTTP next, PubSub next, AppEngine next) = (HTTP cur, PubSub cur, AppEngine cur);
  mk_retry : if named FRetry then retry_from (pb.retry_config in_) = Ok (Retry next) ∧ RetryUnset next = bool_decide (pb.retry_config in_ = None)
             else Retry next = Retry cur ∧ RetryUnset next = RetryUnset cur;
  mk_deadline : if named FDeadline then deadline_from (pb.attempt_deadline in_) = Ok (AttemptDeadline next)
                else AttemptDeadline next = AttemptDeadline cur;
  mk_kept : State_ next = State_ cur ∧ LastAttemptTime next = LastAttemptTime cur ∧ LastCode next = LastCode cur ∧ LastMessage next = LastMessage cur;
  mk_times : UserUpdateTime next = now ∧ nextRun (Schedule next) (TimeZone next) now = Ok (ScheduleTime next)
}.

Lemma masked_ext in_ named named' now cur next :
  (∀ f, named' f = named f) → masked in_ named now cur next → masked in_ named' now cur next.
Proof. intros Heq []. by split; rewrite ?Heq. Qed.

Lemma update_fn_masked in_ paths now cur next :
  job_ok cur → carried cur → update_fn in_ paths now cur = Ok next →
  forallb (λ p, bool_decide (is_Some (path_field p))) (mask_paths paths) = true ∧ masked in_ (names (mask_paths paths)) now cur next.
Proof.
  intros Hok Hcar. unfold update_fn. rewrite merge_paths_of. destruct (forallb _ _); [|done]. cbn [mbind res_bind].
  intros (nj & Hf & (t & Ht & [= <-])%res_bind_ok)%res_bind_ok. split; [done|]. generalize dependent (mask_paths paths). clear paths. intros paths Hf.
  unfold fromProto in Hf. cbn [merged_of toProto pb.name pb.description pb.schedule pb.time_zone pb.target_ pb.retry_config pb.attempt_deadline] in Hf.
  cbv zeta in Hf. destruct (bool_decide (_ = "")) eqn:Hs in Hf; [done|].
  apply res_bind_ok in Hf as ([[http pubsub] app] & Htg & (retry & Hr & (deadline & Hd & [= <-])%res_bind_ok)%res_bind_ok).
  cbn [Schedule TimeZone] in Ht. split; cbn; try done.
  - destruct (names paths FTimeZone); [done|]. by rewrite bool_decide_eq_false_2 by apply Hok.
  - destruct (names paths FTarget); [done|]. rewrite target_roundtrip in Htg by (done || apply Hok). by injection Htg as <- <- <-.
  - destruct (names paths FRetry); [done|]. rewrite retry_roundtrip in Hr by (done || apply Hok). injection Hr as <-. split; [done|].
    by destruct (RetryUnset cur).
  - destruct (names paths FDeadline); [done|]. rewrite deadline_roundtrip in Hd by apply Hok. by injection Hd as <-.
Qed.

(** ** The store's invariant *)

Definition Inv m : Prop := map_Forall (λ k j, k = key (Name j) ∧ SafeKey k = true ∧ job_ok j) m.

Lemma job_Inv_empty : Inv ∅.
Proof. apply map_Forall_empty. Qed.

Lemma Inv_insert m j : Inv m → SafeKey (key (Name j)) = true → job_ok j → Inv (<[key (Name j) := j]> m).
Proof. intros HI Hk Hj. by apply map_Forall_insert_2. Qed.

Lemma get_Ok s name j : get s name = Ok j ↔ SafeKey (key name) = true ∧ contents s !! key name = Some j.
Proof. unfold get. rewrite <- Get_ok. destruct (st_Get s (key name)); naive_solver. Qed.

Lemma get_Err s name e : get s name = Err e → e = NotFound.
Proof. unfold get. destruct (st_Get s (key name)); naive_solver. Qed.

(** A stored job is found under its own name. *)
Lemma Inv_get s name j : Inv (contents s) → get s name = Ok j → key name = key (Name j) ∧ job_ok j ∧ get s (Name j) = Ok j.
Proof.
  intros HI [Hk Hl]%get_Ok. destruct (HI _ _ Hl) as (Heq & _ & Hok). split; [done|]. split; [done|].
  rewrite get_Ok, <- Heq. done.
Qed.

Lemma job_put_cases s j :
  (∃ s', put s j = (s', Ok tt) ∧ SafeKey (key (Name j)) = true ∧ contents s' = <[key (Name j) := j]> (contents s)) ∨
  (∃ s' e, put s j = (s', Err e) ∧ contents s' = contents s).
Proof.
  unfold put. destruct (negb (marshals j)); [right; by do 2 eexists|]. rewrite Put_law.
  pose proof (st_Commit_cases s [OpPut (key (Name j)) j]) as H.
  destruct (st_Commit s _) as [s' [[]|e]] eqn:Hc; cbn [fst snd] in H.
  - left. exists s'. destruct H as [(_ & Hck & Hct)|(e & ? & _)]; [|done]. split; [done|]. split; [|done].
    apply check_keys_ok in Hck. by apply Forall_cons in Hck as [Hck _].
  - right. destruct H as [(? & _)|(e' & _ & Hct)]; [done|]. by do 2 eexists.
Qed.

(** What an Update does, its function given. *)
Lemma Update_cases s name fn :
  (∃ j j' s', get s name = Ok j ∧ fn j = Ok j' ∧ Update s name fn = (s', Ok j') ∧ SafeKey (key (Name j')) = true ∧
     contents s' = <[key (Name j') := j']> (contents s)) ∨
  (∃ s' e, Update s name fn = (s', Err e) ∧ contents s' = contents s).
Proof.
  unfold Update. destruct (get s name) as [j|e]; [|right; by do 2 eexists]. destruct (fn j) as [j'|e] eqn:Hf; [|right; by do 2 eexists].
  destruct (job_put_cases s j') as [(s' & -> & Hk & Hc)|(s' & e & -> & Hc)]; [left|right].
  - exists j, j', s'. cbn. done.
  - exists s', e. done.
Qed.

Lemma Inv_Update s name fn :
  Inv (contents s) → (∀ j j', job_ok j → fn j = Ok j' → job_ok j') → Inv (contents (Update s name fn).1).
Proof.
  intros HI Hfn. destruct (Update_cases s name fn) as [(j & j' & s' & Hg & Hf & -> & Hk & Hc)|(s' & e & -> & Hc)]; cbn; rewrite Hc; [|done].
  apply Inv_insert; [done|done|]. eapply Hfn; [|done]. by eapply Inv_get.
Qed.

Lemma Inv_Create s j : Inv (contents s) → job_ok j → Inv (contents (Create s j).1).
Proof.
  intros HI Hj. unfold Create. destruct (is_ok _); [done|].
  destruct (job_put_cases s j) as [(s' & -> & Hk & Hc)|(s' & e & -> & Hc)]; cbn; rewrite Hc; [by apply Inv_insert|done].
Qed.

Lemma delete_cases s k : contents (st_Delete s k).1 = contents s ∨ contents (st_Delete s k).1 = delete k (contents s).
Proof.
  rewrite Delete_law. pose proof (st_Commit_cases s [OpDelete k]) as [(_ & _ & H)|(e & _ & H)]; rewrite H; [by right|by left].
Qed.

Lemma Inv_st_Delete s k : Inv (contents s) → Inv (contents (st_Delete s k).1).
Proof. intros HI. destruct (delete_cases s k) as [-> | ->]; [done|]. by apply map_Forall_delete. Qed.

Lemma Inv_Delete s name : Inv (contents s) → Inv (contents (Delete s name).1).
Proof.
  intros HI. unfold Delete. destruct (get s name); [|done]. pose proof (Inv_st_Delete s (key name) HI) as H.
  by destruct (st_Delete s (key name)) as [s' []].
Qed.

Lemma Inv_Reset s : Inv (contents s) → Inv (contents (Reset s).1).
Proof.
  intros HI. unfold Reset. destruct (st_List s keyPrefix) as [keys|]; [|done]. revert s HI.
  induction keys as [|k keys IH]; intros s HI; [done|]. cbn. pose proof (Inv_st_Delete s k HI) as H.
  destruct (st_Delete s k) as [s' []]; [by apply IH|done].
Qed.

(** ** Listings *)

Lemma listed_key s prefix j :
  free_of tilde (Name j) = true → get s (Name j) = Ok j →
  listed s prefix (key (Name j)) = if HasPrefix (Name j) prefix then Some j else None.
Proof.
  intros Hf Hg. unfold listed, key. rewrite TrimPrefix_app, ReplaceAll_back by done. rewrite Hg. by destruct (HasPrefix (Name j) prefix).
Qed.

Lemma omap_keys {A} (f : string → option A) (g : A → string) ks :
  (∀ k a, k ∈ ks → f k = Some a → g a = k) → g <$> omap f ks `sublist_of` ks.
Proof.
  induction ks as [|k ks IH]; intros H; [done|]. cbn. destruct (f k) as [a|] eqn:Hf; cbn.
  - rewrite (H k a) by (done || left). constructor. apply IH. intros. apply H; [by right|done].
  - constructor. apply IH. intros. apply H; [by right|done].
Qed.

(** A listing holds exactly the stored jobs under the prefix, in name order. *)
Lemma List_exact s prefix :
  Inv (contents s) →
  ∃ l, List_ s prefix = Ok l ∧ StronglySorted (key_le Name) l ∧ NoDup (Name <$> l) ∧
    ∀ j, j ∈ l ↔ get s (Name j) = Ok j ∧ HasPrefix (Name j) prefix = true.
Proof.
  intros HI. unfold List_. rewrite List_law. eexists. split; [done|]. split; [apply sort_by_sorted|].
  assert (∀ k, k ∈ list_keys (contents s) keyPrefix → ∃ j, k = key (Name j) ∧ get s (Name j) = Ok j ∧
    listed s prefix k = if HasPrefix (Name j) prefix then Some j else None) as Hk.
  { intros k [[j Hj] _]%elem_of_list_keys. destruct (HI _ _ Hj) as (-> & Hsafe & Hok). exists j.
    assert (get s (Name j) = Ok j) as Hg by by rewrite get_Ok. split; [done|]. split; [done|].
    apply listed_key; [|done]. apply parseJobName_no_tilde, Hok. }
  split.
  - rewrite (sort_by_perm Name). apply (NoDup_fmap_1 key). rewrite <- (list_fmap_compose Name key).
    eapply sublist_NoDup; [apply (list_keys_NoDup (contents s) keyPrefix)|apply (omap_keys _ (λ j, key (Name j)))]. intros k a Hin Ha. destruct (Hk k Hin) as (j & -> & _ & Hl).
    rewrite Hl in Ha. destruct (HasPrefix _ _); by simplify_eq.
  - intros j. rewrite sort_by_elem, list_elem_of_omap. split.
    + intros (k & Hin & Ha). destruct (Hk k Hin) as (j' & -> & Hg & Hl). rewrite Hl in Ha. destruct (HasPrefix _ _) eqn:Hp; by simplify_eq.
    + intros [Hg Hp]. exists (key (Name j)). pose proof Hg as [_ Hc]%get_Ok. destruct (HI _ _ Hc) as (_ & _ & Hok).
      rewrite elem_of_list_keys, listed_key, Hp by (done || apply parseJobName_no_tilde, Hok). split; [|done]. split; [by eexists|].
      apply HasPrefix_app.
Qed.

(** ** Every call keeps the invariant *)

Lemma settings_ok j j' : settings j' = settings j → job_ok j → job_ok j'.
Proof.
  intros He [H1 H2 H3 H4 H5 H6 H7]. unfold settings in He. injection He as E1 E2 E3 E4 E5 E6 E7 E8 E9 E10.
  split; rewrite ?E1, ?E3, ?E4, ?E8, ?E9, ?E10; try done. unfold target_ok. by rewrite E5, E6, E7.
Qed.

Lemma update_fn_ok in_ paths now cur next : job_ok cur → update_fn in_ paths now cur = Ok next → job_ok next ∧ Name next = Name cur.
Proof.
  intros Hok. unfold update_fn. rewrite merge_paths_of. destruct (forallb _ _); [|done]. cbn [mbind res_bind].
  intros (nj & Hf & (t & Ht & [= <-])%res_bind_ok)%res_bind_ok. apply fromProto_ok in Hf as [Hnj Hn]; [|apply Hok].
  split; [|done]. by apply (settings_ok nj).
Qed.

Lemma resume_fn_ok now j j' : job_ok j → resume_fn now j = Ok j' → job_ok j'.
Proof.
  intros Hok. unfold resume_fn. case_bool_decide; [by intros [= <-]|]. intros (t & _ & [= <-])%res_bind_ok. by apply (settings_ok j).
Qed.

Lemma checkCreate_ok parent job now j :
  checkCreate parent job now = Ok j →
  job_ok j ∧ ∃ in_ nj, job = Some in_ ∧ Name j = pb.name in_ ∧ fromProto in_ = Ok nj ∧ settings j = nj ∧ State_ j = StateEnabled ∧
    UserUpdateTime j = now ∧ nextRun (Schedule j) (TimeZone j) now = Ok (ScheduleTime j) ∧ HasPrefix (Name j) (parent +:+ "/jobs/") = true.
Proof.
  unfold checkCreate. destruct (negb (parentRE parent)); [done|]. destruct job as [in_|]; [|done]. destruct (bool_decide _); [done|].
  intros ([] & Hn & Hj)%res_bind_ok. destruct (negb (HasPrefix _ _)) eqn:Hp; [done|].
  apply res_bind_ok in Hj as (nj & Hf & (t & Ht & [= <-])%res_bind_ok). destruct (fromProto_ok _ _ Hf Hn) as [Hok Hname].
  split; [by apply (settings_ok nj)|]. exists in_, nj. apply negb_false_iff in Hp.
  assert (settings nj = nj ∧ State_ nj = StateEnabled) as [Hs He].
  { unfold fromProto in Hf. cbv zeta in Hf. destruct (bool_decide _); [done|].
    by apply res_bind_ok in Hf as ([[h p] a] & _ & (r & _ & (d & _ & [= <-])%res_bind_ok)%res_bind_ok). }
  split_and!; try done. by rewrite <- Hname in Hp.
Qed.

Lemma Inv_CreateJob s parent job now : Inv (contents s) → Inv (contents (CreateJob s parent job now).1).
Proof.
  intros HI. unfold CreateJob. destruct (checkCreate parent job now) as [j|] eqn:Hc; [|done]. cbn.
  apply Inv_Create; [done|]. by apply checkCreate_ok in Hc as [Hok _].
Qed.

Lemma Inv_UpdateJob s job paths now : Inv (contents s) → Inv (contents (UpdateJob s job paths now).1).
Proof.
  intros HI. destruct job as [in_|]; [|done]. cbn. apply Inv_Update; [done|]. intros j j' Hj Hu. by apply (update_fn_ok in_ paths now j).
Qed.

Lemma Inv_PauseJob s name : Inv (contents s) → Inv (contents (PauseJob s name).1).
Proof. intros HI. apply Inv_Update; [done|]. intros j j' Hj [= <-]. by apply (settings_ok j). Qed.

Lemma Inv_ResumeJob s name now : Inv (contents s) → Inv (contents (ResumeJob s name now).1).
Proof. intros HI. apply Inv_Update; [done|]. intros j j'. apply resume_fn_ok. Qed.

Lemma Inv_DeleteJob s name : Inv (contents s) → Inv (contents (DeleteJob s name).1).
Proof.
  intros HI. unfold DeleteJob. pose proof (Inv_Delete s name HI) as H. by destruct (Delete s name).
Qed.

(** ** What the calls do *)

(** C40: UpdateJob and its mask, for masks of field paths whose target, if one is
    named, is of the kind the request has (an empty mask names every settable
    field).  The job is a stored one that a message can carry: its methods have a
    name and its max_doublings is an int32.  It is read into a message, merged path
    by path and read back, and all that leaves no trace: each field the mask names
    is what the request gives, every other setting, the state and the last outcome
    are kept, the next run is the new schedule's first one after now, and no other
    job changes.  A path that names no settable field is INVALID_ARGUMENT; the claim
    leaves out the loose paths, which the code takes for the whole message (a
    reported divergence).  A refused update writes nothing. *)
Theorem update_job_mask s in_ paths now cur :
  Inv (contents s) → get s (pb.name in_) = Ok cur → carried cur →
  match UpdateJob s (Some in_) paths now with
  | (s', Ok msg) => field_mask in_ paths →
                    ∃ next, contents s' = <[key (Name cur) := next]> (contents s) ∧ msg = toProto next ∧
                            masked in_ (asked paths) now cur next
  | (s', Err _) => contents s' = contents s
  end ∧
  (∀ p, p ∈ paths → p ∉ job_fields.*1 → loose_path p = false →
   UpdateJob s (Some in_) paths now = (s, Err InvalidArgument)).
Proof.
  intros HI Hg Hcar. destruct (Inv_get _ _ _ HI Hg) as (_ & Hok & _). split.
  - unfold UpdateJob. destruct (Update_cases s (pb.name in_) (update_fn in_ paths now)) as [(j & j' & s' & Hg' & Hu & -> & _ & Hc)|(s' & e & -> & Hc)];
      [|done]. cbn. rewrite Hg in Hg'. injection Hg' as <-. intros Hm. exists j'. destruct (update_fn_ok _ _ _ _ _ Hok Hu) as [_ Hn].
    rewrite Hn in Hc. split; [done|]. split; [done|]. destruct (update_fn_masked _ _ _ _ _ Hok Hcar Hu) as [_ Hmk].
    by eapply masked_ext; [|exact Hmk]; intros f; apply (asked_names in_).
  - intros p Hp Hno Hl. unfold UpdateJob, Update. rewrite Hg. unfold update_fn. by rewrite merge_paths_of, (refused_paths _ _ Hp Hno Hl).
Qed.

Lemma fromProto_toProto j : job_ok j → carried j → fromProto (toProto j) = Ok (settings j).
Proof.
  intros Hok Hcar. unfold fromProto. cbn [toProto pb.name pb.description pb.schedule pb.time_zone pb.target_ pb.retry_config pb.attempt_deadline].
  rewrite (bool_decide_eq_false_2 (TimeZone j = "")), (bool_decide_eq_false_2 (Schedule j = "")) by apply Hok.
  rewrite target_roundtrip, retry_roundtrip, deadline_roundtrip by (done || apply Hok). cbn [mbind res_bind]. unfold settings. do 2 f_equal.
  by destruct (RetryUnset j).
Qed.

(** A created job is the job that was asked for.  When CreateJob answers, the
    job is stored and nothing else is changed, GetJob answers the same message,
    and that message read as a request says what the request said: target,
    schedule and zone, retries and deadline, with the documented defaults where
    the request left them out; its next run is the first one after now. *)
Theorem create_job_roundtrip s parent in_ now s' msg :
  Inv (contents s) → (∀ j, fromProto in_ = Ok j → carried j) → CreateJob s parent (Some in_) now = (s', Ok msg) →
  GetJob s' (pb.name in_) = Ok msg ∧ fromProto msg = fromProto in_ ∧
  ∃ j, msg = toProto j ∧ get s (Name j) = Err NotFound ∧ contents s' = <[key (Name j) := j]> (contents s) ∧ Name j = pb.name in_ ∧
    State_ j = StateEnabled ∧ nextRun (Schedule j) (TimeZone j) now = Ok (ScheduleTime j).
Proof.
  intros HI Hcar. unfold CreateJob. destruct (checkCreate parent (Some in_) now) as [j|] eqn:Hc; [|done].
  destruct (checkCreate_ok _ _ _ _ Hc) as (Hok & in' & nj & [= <-] & Hn & Hf & Hs & He & _ & Ht & _).
  unfold Create. destruct (get s (Name j)) as [|e] eqn:Hg; [done|]. cbn [is_ok].
  destruct (job_put_cases s j) as [(s1 & -> & Hk & Hct)|(s1 & e1 & -> & _)]; [|done]. intros [= <- <-].
  assert (get s1 (Name j) = Ok j) as Hg1 by by rewrite get_Ok, Hct, lookup_insert_eq. split_and!.
  - unfold GetJob, Get. rewrite <- Hn. by rewrite Hg1.
  - rewrite Hf, <- Hs. apply fromProto_toProto; [done|]. specialize (Hcar _ Hf). rewrite <- Hs in Hcar. done.
  - exists j. rewrite (get_Err _ _ _ Hg) in Hg. done.
Qed.

(** ResumeJob does not make up for what was missed: a paused job that is
    resumed is next run at the first time of its schedule after now; resuming
    an enabled job stores it as it was. *)
Theorem resume_makes_up_nothing `{!CronLaws} s name now s' msg cur :
  Inv (contents s) → get s name = Ok cur → ResumeJob s name now = (s', Ok msg) →
  ∃ j, get s' (Name cur) = Ok j ∧ msg = toProto j ∧ State_ j = StateEnabled ∧ settings j = settings cur ∧
    (State_ cur = StateEnabled → j = cur) ∧
    (State_ cur = StatePaused → nextRun (Schedule cur) (TimeZone cur) now = Ok (ScheduleTime j) ∧ (ScheduleTime j = zero ∨ now < ScheduleTime j)%Z).
Proof.
  intros HI Hg. unfold ResumeJob.
  destruct (Update_cases s name (resume_fn now)) as [(j & j' & s1 & Hg' & Hr & -> & Hk & Hc)|(s1 & e & -> & _)]; [|done].
  cbn. intros [= <- <-]. rewrite Hg in Hg'. injection Hg' as <-. unfold resume_fn in Hr. destruct (bool_decide _) eqn:Hb.
  - injection Hr as <-. apply bool_decide_eq_true in Hb. exists cur. split; [by rewrite get_Ok, Hc, lookup_insert_eq|].
    split_and!; try done. congruence.
  - apply res_bind_ok in Hr as (t & Ht & [= <-]). apply bool_decide_eq_false in Hb. eexists.
    split; [by rewrite get_Ok, Hc, lookup_insert_eq|]. split_and!; try done. intros _. split; [done|]. by eapply nextRun_later.
Qed.

End store.

(** ** Locations *)

Section locations.
Context {S : Type} `{MSL : MetaStoreLaws S Job}.
Implicit Types (s : S).

(** The binary search of a sorted list is membership. *)
Lemma search_member ids id :
  StronglySorted String.le ids →
  (let i := sort.SearchStrings ids id in (i <? length ids)%nat && bool_decide (ids !! i = Some id)) = bool_decide (id ∈ ids).
Proof.
  intros Hs. cbv zeta. destruct (sort.SearchStrings_spec ids id Hs) as (Hle & Hlt & Hge). apply eq_bool_prop_intro. split.
  - intros [_ Hb]%andb_prop_elim. apply bool_decide_unpack in Hb. apply bool_decide_pack. by eapply list_elem_of_lookup_2.
  - intros Hin%bool_decide_unpack. apply list_elem_of_lookup_1 in Hin as [i Hi]. apply andb_prop_intro.
    assert (sort.SearchStrings ids id ≤ i) as Hsi.
    { destruct (decide (sort.SearchStrings ids id ≤ i)) as [|Hgt]; [done|]. exfalso. apply (Hlt i id); [lia|done|done]. }
    pose proof (lookup_lt_Some _ _ _ Hi) as Hil. split; [apply Is_true_true, Nat.ltb_lt; lia|]. apply bool_decide_pack.
    destruct (lookup_lt_is_Some_2 ids (sort.SearchStrings ids id)) as [x Hx]; [lia|]. rewrite Hx. f_equal.
    apply (anti_symm String.le); [|by apply (Hge (sort.SearchStrings ids id))]. by eapply (sort.sorted_lookup_le ids _ i).
Qed.

(** GetLocation finds exactly the locations ListLocations lists: the regions and
    every location that holds a job of the project. *)
Theorem get_location_listed s name project id :
  Inv (contents s) → locationRE_submatch name = Some (project, id) →
  GetLocation s name = Ok (location_of project id) ↔
    id ∈ Regions ∨ ∃ j, get s (Name j) = Ok j ∧ HasPrefix (Name j) (project +:+ "/locations/") = true ∧ job_location j = Some id.
Proof.
  intros HI Hm. unfold GetLocation. rewrite Hm. unfold locations. destruct (List_exact s (project +:+ "/locations/") HI) as (l & -> & _ & _ & Hin).
  cbn [mbind res_bind]. set (ids := sort_strings _). cbv zeta. rewrite search_member by apply sort_strings_sorted.
  assert (id ∈ ids ↔ id ∈ Regions ∨ ∃ j, get s (Name j) = Ok j ∧ HasPrefix (Name j) (project +:+ "/locations/") = true ∧ job_location j = Some id) as <-.
  { unfold ids. rewrite sort_strings_elem, elem_of_elements, elem_of_union, !elem_of_list_to_set, list_elem_of_omap.
    setoid_rewrite Hin. naive_solver. }
  by case_bool_decide.
Qed.

End locations.
