(* ===== verification/SchedulerRunnerSpec.v ===== *)
(** * What Cloud Scheduler's runner guarantees

    Invariants over every interleaving of the pass, the deliveries, RunJob and the
    API; what one pass does; and concrete runs. *)

From S2P Require Import Prelude GoLib ApiError Resource MetaStore Float64 Sched NetHttp SchedulerStore SchedulerConvert SchedulerApi SchedulerRunner SchedulerSpec.
From Stdlib Require Import Ascii.

Import strings strconv time.

Section runner.
Context {S : Type} `{MSL : MetaStoreLaws S Job} `{CR : Cron} `{NT : Net} `{PL : Platform}.
Implicit Types (s : S) (w : world (S := S)).

(** ** Invariants *)

Lemma Inv_call s c : Inv (contents s) → Inv (contents (call_run s c)).
Proof.
  destruct c; cbn [call_run];
    [apply Inv_CreateJob|apply Inv_UpdateJob|apply Inv_DeleteJob|apply Inv_PauseJob|apply Inv_ResumeJob|apply Inv_Reset].
Qed.

Lemma Inv_advance s now j s' go : Inv (contents s) → advance s now j = (s', go) → Inv (contents s').
Proof.
  intros HI. unfold advance. destruct (negb (due now j)); [by intros [= <- <-]|]. destruct (nextRun _ _ _) as [next|]; [|by intros [= <- <-]].
  pose proof (Inv_Update s (Name j) (λ cur, Ok (set_ScheduleTime cur next)) HI) as H. destruct (Update s _ _) as [s1 r].
  intros [= <- _]. apply H. intros a b Ha [= <-]. by apply (settings_ok a).
Qed.

Lemma Inv_record s name now err : Inv (contents s) → Inv (contents (Update s name (record_fn now err)).1).
Proof. intros HI. apply Inv_Update; [done|]. intros a b Ha [= <-]. by apply (settings_ok a). Qed.

(** The attempts a delivery may still be at. *)
Definition phase_ok (d : delivery) : Prop :=
  let last := (RetryCount (Retry (d_job d)) + 1)%Z in
  match d_phase d with
  | Starting => True
  | Attempting n | Tried n _ => (1 ≤ n ≤ last)%Z
  | Waiting n _ => (1 ≤ n < last)%Z
  end.

Definition pass_jobs (p : pass) : list Job :=
  match p with Between => [] | Passing _ jobs => jobs | Firing _ j jobs => j :: jobs end.

Definition dname (d : delivery) : string := Name (d_job d).

Record winv w : Prop := mkWinv {
  wi_store : Inv (contents (db w));
  wi_once : NoDup (dname <$> running w);
  wi_inflight : ∀ n, n ∈ inflight w ↔ n ∈ dname <$> running w;
  wi_running : Forall (λ d, job_ok (d_job d) ∧ phase_ok d) (running w);
  wi_requested : Forall (λ r, job_ok r.1) (requested w);
  wi_pass : Forall job_ok (pass_jobs (at_ w))
}.

Lemma winv_start s : Inv (contents s) → winv (start_world s).
Proof. intros HI. split; cbn; [done|constructor|set_solver|constructor..]. Qed.

Lemma winv_fire w j t : winv w → job_ok j → winv (fire w j t).
Proof.
  intros [H1 H2 H3 H4 H5 H6] Hj. unfold fire. case_bool_decide as Hin; [by split|]. split; cbn; try done.
  - apply NoDup_cons. split; [|done]. intros Hin'. by apply Hin, H3.
  - intros n. rewrite elem_of_union, elem_of_singleton, elem_of_cons, H3. done.
  - by constructor.
Qed.

(** Replacing a delivery by a later state of itself. *)
Lemma winv_move s fl ds1 d d' ds2 rq p s' :
  winv (mkWorld s fl (ds1 ++ d :: ds2) rq p) → d_job d' = d_job d → phase_ok d' → Inv (contents s') →
  winv (mkWorld s' fl (ds1 ++ d' :: ds2) rq p).
Proof.
  intros [H1 H2 H3 H4 H5 H6] Hj Hp HI. cbn in *. assert (dname <$> ds1 ++ d' :: ds2 = dname <$> ds1 ++ d :: ds2) as Heq.
  { rewrite !fmap_app, !fmap_cons. unfold dname at 2 5. by rewrite Hj. }
  split; cbn; try done; [by rewrite Heq|by rewrite Heq|]. apply Forall_app in H4 as [H4 [H4' H4'']%Forall_cons].
  apply Forall_app. split; [done|]. constructor; [|done]. rewrite Hj. split; [apply H4'|done].
Qed.

(** Removing a delivery. *)
Lemma winv_remove s fl ds1 d ds2 rq p :
  winv (mkWorld s fl (ds1 ++ d :: ds2) rq p) → winv (mkWorld s (fl ∖ {[dname d]}) (ds1 ++ ds2) rq p).
Proof.
  intros [H1 H2 H3 H4 H5 H6]. cbn in *. rewrite fmap_app, fmap_cons in H2. apply NoDup_app in H2 as (Hn1 & Hn2 & [Hn3 Hn4]%NoDup_cons).
  split; cbn; try done.
  - rewrite fmap_app. apply NoDup_app. split; [done|]. split; [|done]. intros x Hx Hx'. apply (Hn2 x Hx). by right.
  - intros n. rewrite elem_of_difference, elem_of_singleton, H3, !fmap_app, fmap_cons, !elem_of_app, elem_of_cons. split.
    + naive_solver.
    + intros Hn. split; [naive_solver|]. intros ->. destruct Hn as [Hn|Hn]; [|done]. apply (Hn2 _ Hn). left.
  - apply Forall_app in H4 as [H4 [_ H4']%Forall_cons]. by apply Forall_app.
Qed.

Lemma next_attempt_more j start now n err d :
  job_ok j → next_attempt j start now n err = Some d → (n < RetryCount (Retry j) + 1)%Z.
Proof.
  intros Hj. unfold next_attempt. destruct (bool_decide _ || _) eqn:Hb; [done|]. intros _.
  apply orb_false_iff in Hb as [_ Hs%negb_false_iff]. unfold backoff_of, CloudTasks.ShouldRetry, CloudTasks.WithDefaults in Hs.
  cbn [CloudTasks.MaxAttempts] in Hs. pose proof (ro_count _ (jo_retry _ Hj)) as Hc.
  destruct (Z.eqb_spec (RetryCount (Retry j) + 1) 0); [lia|]. destruct (Z.ltb_spec (RetryCount (Retry j) + 1) 0); [lia|].
  by apply Z.ltb_lt in Hs.
Qed.

Lemma winv_step r w w' : winv w → step r w w' → winv w'.
Proof.
  intros Hw Hs. destruct Hs as [s fl ds rq now jobs Hl|s fl ds rq now j jobs s' Ha|s fl ds rq now j jobs s' Ha|s fl ds rq now j jobs|s fl ds rq now
    |s fl ds rq p name now msg j Hr|s fl ds rq1 rq2 p j t|s fl ds1 ds2 rq p j t start|s fl ds1 ds2 rq p j t start n order ans out code err now Ha
    |s fl ds1 ds2 rq p j t start n err now Hn|s fl ds1 ds2 rq p j t start n err now d Hn|s fl ds1 ds2 rq p j t start n until
    |s fl ds1 ds2 rq p j t start n until|s fl ds rq p c];
    pose proof Hw as [H1 H2 H3 H4 H5 H6]; cbn [db inflight running requested at_ pass_jobs] in *.
  - split; cbn; try done. destruct (List_exact s "" H1) as (l & Hl' & _ & _ & Hin). rewrite Hl in Hl'. injection Hl' as <-.
    apply Forall_forall. intros j [Hg _]%Hin. by eapply Inv_get.
  - split; cbn; try done. by eapply Inv_advance.
  - split; cbn; try done; [by eapply Inv_advance|]. by apply Forall_cons in H6 as [_ H6].
  - apply Forall_cons in H6 as [Hj H6]. apply winv_fire; [by split|done].
  - split; cbn; try done.
  - split; cbn; try done. constructor; [|done]. unfold RunJob, Get in Hr. destruct (get s name) as [j'|] eqn:Hg; [|done].
    cbn in Hr. injection Hr as _ <-. by eapply Inv_get.
  - apply Forall_app in H5 as [H5 [Hj H5']%Forall_cons]. apply winv_fire; [|done]. split; cbn; try done. by apply Forall_app.
  - eapply winv_move; [exact Hw|done| |done]. unfold phase_ok. cbn. apply Forall_app in H4 as [_ [[Hj _] _]%Forall_cons].
    pose proof (ro_count _ (jo_retry _ Hj)) as Hc. cbn in Hc. lia.
  - eapply winv_move; [exact Hw|done| |by apply Inv_record]. by apply Forall_app in H4 as [_ [[_ Hp] _]%Forall_cons].
  - by apply (winv_remove _ _ _ (mkDelivery j t start (Tried n err))).
  - eapply winv_move; [exact Hw|done| |done]. apply Forall_app in H4 as [_ [[Hj Hp] _]%Forall_cons].
    apply (next_attempt_more _ _ _ _ _ _ Hj) in Hn. unfold phase_ok in *. cbn in *. lia.
  - eapply winv_move; [exact Hw|done| |done]. apply Forall_app in H4 as [_ [[Hj Hp] _]%Forall_cons]. unfold phase_ok in *. cbn in *. lia.
  - by apply (winv_remove _ _ _ (mkDelivery j t start (Waiting n until))).
  - split; cbn; try done. by apply Inv_call.
Qed.

Lemma winv_reachable r s w : Inv (contents s) → rtc (step r) (start_world s) w → winv w.
Proof. intros HI. apply rtc_invariant; [apply winv_step|by apply winv_start]. Qed.

(** C38: over every interleaving of the runner's passes, its deliveries, RunJob and
    every other call, no job is ever delivered twice at once: the deliveries
    under way are of different jobs. *)
Theorem one_delivery_per_job r s w :
  Inv (contents s) → rtc (step r) (start_world s) w → NoDup (dname <$> running w).
Proof. intros HI Hr. apply (winv_reachable r s w HI Hr). Qed.

(** Over every interleaving, every stored job is under its own key and is one
    CreateJob would accept: a well-formed name, one target that the contract
    allows, retry settings and deadline in their documented ranges; and no
    delivery of it ever makes more attempts than its retry_count and the first
    one, which is six at most. *)
Theorem jobs_valid_attempts_bounded r s w :
  Inv (contents s) → rtc (step r) (start_world s) w →
  map_Forall (λ k j, k = key (Name j) ∧ job_ok j) (contents (db w)) ∧
  ∀ d n, d ∈ running w → d_phase d = Attempting n → (1 ≤ n ≤ RetryCount (Retry (d_job d)) + 1 ∧ n ≤ 6)%Z.
Proof.
  intros HI Hr. destruct (winv_reachable r s w HI Hr) as [H1 _ _ H4 _ _]. split.
  - eapply map_Forall_impl; [exact H1|]. intros k j (? & _ & ?). done.
  - intros d n Hd Hp. rewrite Forall_forall in H4. destruct (H4 d Hd) as [Hj Hph]. unfold phase_ok in Hph. rewrite Hp in Hph.
    pose proof (ro_count _ (jo_retry _ Hj)). lia.
Qed.

(** ** One pass *)

(** The time a pass at [now] moves the schedule of [j] to, when it fires it. *)
Definition fires_at (now : Time) (j : Job) : option Time :=
  if due now j then match nextRun (Schedule j) (TimeZone j) now with Ok next => Some next | Err _ => None end else None.

Definition after_pass (now : Time) (j : Job) : Job := from_option (set_ScheduleTime j) j (fires_at now j).

Context `{RS : !ReliableStore S Job}.

Lemma put_reliable s j : SafeKey (key (Name j)) = true → marshals j = true → ∃ s', put s j = (s', Ok tt) ∧ contents s' = <[key (Name j) := j]> (contents s).
Proof.
  intros Hk Hm. unfold put. rewrite Hm, Put_law. cbn [negb]. assert (check_keys [OpPut (key (Name j)) j] = Ok tt) as Hck.
  { apply check_keys_ok. by repeat constructor. }
  pose proof (Commit_succeeds s _ Hck) as Hok. destruct (Commit_atomic s _ Hck) as [[_ Hc]|(e & He & _)]; [|congruence].
  destruct (st_Commit s _) as [s' r]. cbn in *. subst r. by exists s'.
Qed.

Lemma advance_spec s now j :
  get s (Name j) = Ok j → marshals (after_pass now j) = true →
  ∃ s', advance s now j = (s', bool_decide (is_Some (fires_at now j))) ∧
    if bool_decide (is_Some (fires_at now j)) then contents s' = <[key (Name j) := after_pass now j]> (contents s) else s' = s.
Proof.
  intros Hg Hm. unfold advance, after_pass, fires_at in *. destruct (due now j); cbn [negb]; [|by exists s].
  destruct (nextRun (Schedule j) (TimeZone j) now) as [next|]; [|by exists s]. cbn in *. unfold Update. rewrite Hg.
  pose proof Hg as [Hk _]%get_Ok. destruct (put_reliable s (set_ScheduleTime j next) Hk Hm) as (s' & -> & Hc). exists s'. done.
Qed.

Definition new_delivery (j : Job) : delivery := mkDelivery j (ScheduleTime j) zero Starting.

(** What a pass over [jobs] leaves. *)
Record passed (w w' : world (S := S)) (now : Time) (jobs : list Job) : Prop := mkPassed {
  pa_job : ∀ j, j ∈ jobs → get (db w') (Name j) = Ok (after_pass now j);
  pa_other : ∀ n, free_of tilde n = true → n ∉ Name <$> jobs → get (db w') n = get (db w) n;
  pa_fired : ∀ j, j ∈ jobs → is_Some (fires_at now j) → Name j ∈ inflight w ∨ new_delivery j ∈ running w';
  pa_kept : running w ⊆ running w';
  pa_only : ∀ d, d ∈ running w' → d ∈ running w ∨ ∃ j, j ∈ jobs ∧ is_Some (fires_at now j) ∧ Name j ∉ inflight w ∧ d = new_delivery j
}.

Lemma get_insert s s' n j : free_of tilde n = true → job_ok j → contents s' = <[key (Name j) := j]> (contents s) → SafeKey (key n) = true →
  get s' n = if bool_decide (n = Name j) then Ok j else get s n.
Proof.
  intros Hf Hj Hc Hk. unfold get. rewrite !Get_law, Hc. unfold checkKey. rewrite Hk. cbn [mbind res_bind]. case_bool_decide as Hn.
  - subst. by rewrite lookup_insert_eq.
  - rewrite lookup_insert_ne; [done|]. intros He. apply Hn. symmetry in He. apply (key_inj _ _ Hf) in He; [done|].
    by apply parseJobName_no_tilde, Hj.
Qed.

Lemma get_unsafe s n : SafeKey (key n) = false → get s n = Err NotFound.
Proof. intros Hk. unfold get. by rewrite Get_law; unfold checkKey; rewrite Hk. Qed.

Lemma get_insert_ne s s' n j : free_of tilde n = true → job_ok j → contents s' = <[key (Name j) := j]> (contents s) → n ≠ Name j →
  get s' n = get s n.
Proof.
  intros Hf Hj Hc Hn. destruct (SafeKey (key n)) eqn:Hk; [|by rewrite !get_unsafe].
  rewrite (get_insert s s' n j) by done. by rewrite bool_decide_eq_false_2.
Qed.

Lemma after_pass_Name now j : Name (after_pass now j) = Name j.
Proof. unfold after_pass. by destruct (fires_at now j). Qed.
Lemma after_pass_ok now j : job_ok j → job_ok (after_pass now j).
Proof. intros Hj. apply (settings_ok j); [|done]. unfold after_pass. by destruct (fires_at now j). Qed.

(** One job of the pass. *)
Definition pass_one w (now : Time) (j : Job) : world :=
  let '(s, go) := advance (db w) now j in
  let w := mkWorld s (inflight w) (running w) (requested w) (at_ w) in
  if go then fire w j (ScheduleTime j) else w.

Lemma fire_all_cons w now j jobs : fire_all w now (j :: jobs) = fire_all (pass_one w now j) now jobs.
Proof. cbn. unfold pass_one. by destruct (advance (db w) now j). Qed.

Lemma pass_one_spec w now j :
  get (db w) (Name j) = Ok j → job_ok j → marshals (after_pass now j) = true →
  passed w (pass_one w now j) now [j] ∧
  (∀ n, n ≠ Name j → n ∈ inflight (pass_one w now j) ↔ n ∈ inflight w).
Proof.
  intros Hg Hj Hm. unfold pass_one. destruct (advance_spec _ now j Hg Hm) as (s' & -> & Hs').
  pose proof (proj1 (get_Ok _ _ _) Hg) as [Hsafe _]. destruct (bool_decide (is_Some (fires_at now j))) eqn:Hb.
  - apply bool_decide_eq_true in Hb. assert (get s' (Name j) = Ok (after_pass now j)) as Hnew by by rewrite get_Ok, Hs', lookup_insert_eq.
    assert (∀ n, free_of tilde n = true → n ∉ Name <$> [j] → get s' n = get (db w) n) as Hoth.
    { intros n Hf Hn. rewrite <- (after_pass_Name now j) in Hs'. apply (get_insert_ne _ _ _ _ Hf (after_pass_ok now j Hj) Hs').
      rewrite after_pass_Name. set_solver. }
    unfold fire. cbn [inflight]. case_bool_decide as Hin; split; [split|set_solver|split|]; cbn; try done.
    + by intros j' ->%list_elem_of_singleton.
    + intros j' ->%list_elem_of_singleton _. by left.
    + intros d Hd. by left.
    + by intros j' ->%list_elem_of_singleton.
    + intros j' ->%list_elem_of_singleton _. right. left.
    + set_solver.
    + intros d [->|Hd]%elem_of_cons; [right|by left]. exists j. split; [by left|]. done.
    + intros n Hn. set_solver.
  - subst s'. apply bool_decide_eq_false in Hb. split; [split|done]; cbn; try done.
    + intros j' ->%list_elem_of_singleton. rewrite Hg. unfold after_pass. destruct (fires_at now j); [|done]. by destruct Hb.
    + by intros j' ->%list_elem_of_singleton ?.
    + intros d Hd. by left.
Qed.

Lemma passed_cons w w1 w2 now j jobs :
  job_ok j → Forall job_ok jobs → NoDup (Name <$> j :: jobs) → passed w w1 now [j] → (∀ n, n ≠ Name j → n ∈ inflight w1 ↔ n ∈ inflight w) →
  passed w1 w2 now jobs → passed w w2 now (j :: jobs).
Proof.
  intros Hj Hjs [Hnin Hnd]%NoDup_cons [A1 A2 A3 A4 A5] Hfl [B1 B2 B3 B4 B5].
  assert (∀ i, i ∈ jobs → Name i ≠ Name j) as Hne. { intros i Hi He. apply Hnin. rewrite <- He. by apply list_elem_of_fmap_2. }
  split.
  - intros i [->|Hi]%elem_of_cons; [|by apply B1]. rewrite B2; [apply A1; by left| |done]. apply parseJobName_no_tilde, Hj.
  - intros n Hf Hn. rewrite fmap_cons, not_elem_of_cons in Hn. destruct Hn as [Hn1 Hn2]. rewrite B2 by done. apply A2; [done|]. set_solver.
  - intros i [->|Hi]%elem_of_cons Hfire.
    + destruct (A3 j) as [?|?]; [by left|done|by left|right]. by apply B4.
    + destruct (B3 i Hi Hfire) as [Hin|?]; [|by right]. left. apply Hfl; [by apply Hne|done].
  - etrans; [exact A4|exact B4].
  - intros d Hd. destruct (B5 d Hd) as [Hd1|(i & Hi & Hfire & Hnf & ->)].
    + destruct (A5 d Hd1) as [?|(i & ->%list_elem_of_singleton & Hfire & Hnf & ->)]; [by left|right]. exists j. split; [by left|]. done.
    + right. exists i. split; [by right|]. split; [done|]. split; [|done]. intros Hin. apply Hnf, Hfl; [by apply Hne|done].
Qed.

Lemma fire_all_passed w now jobs :
  NoDup (Name <$> jobs) → (∀ j, j ∈ jobs → get (db w) (Name j) = Ok j ∧ job_ok j ∧ marshals (after_pass now j) = true) →
  passed w (fire_all w now jobs) now jobs.
Proof.
  revert w. induction jobs as [|j jobs IH]; intros w Hnd Hjs.
  - split; try done. { by intros j ?%not_elem_of_nil. } { by intros j ?%not_elem_of_nil. } intros d Hd. by left.
  - rewrite fire_all_cons. destruct (Hjs j) as (Hg & Hj & Hm); [by left|]. destruct (pass_one_spec w now j Hg Hj Hm) as [H1 H2].
    assert (Forall job_ok jobs) as Hall. { apply Forall_forall. intros i Hi. by apply Hjs; right. }
    eapply passed_cons; [done|done|done|exact H1|exact H2|]. pose proof Hnd as [Hnin Hnd']%NoDup_cons. apply IH; [done|].
    intros i Hi. destruct (Hjs i) as (Hgi & Hji & Hmi); [by right|]. split; [|done]. rewrite (pa_other _ _ _ _ H1); [done| |].
    + apply parseJobName_no_tilde, Hji.
    + intros He%list_elem_of_singleton. apply Hnin. rewrite <- He. by apply list_elem_of_fmap_2.
Qed.

(** C39: one pass of the runner, with no other call during it, fires exactly what is
    due.  Over a store none of whose writes fails, holding valid jobs whose moved
    records can be encoded: every enabled job whose time has come and whose
    schedule gives a next run is moved to that run and, unless it was already being
    delivered, is being delivered afterwards for the time it was due at; every
    other job is left as it was, the deliveries under way stay, and no other
    delivery is started.  Where the next run is not the zero time (which the cron
    package gives for a schedule no day satisfies) the job is not due again at the
    time of the pass; of the package it is asked that a next run it gives is later
    than the time asked about. *)
Theorem fire_due_exact `{CL : !CronLaws} w now :
  Inv (contents (db w)) → (∀ j, get (db w) (Name j) = Ok j → marshals (after_pass now j) = true) →
  let w' := fireDue w now in
  (∀ j, get (db w) (Name j) = Ok j →
     get (db w') (Name j) = Ok (after_pass now j) ∧
     (∀ next, fires_at now j = Some next →
        (Name j ∈ inflight w ∨ new_delivery j ∈ running w') ∧ (next ≠ zero → due now (after_pass now j) = false))) ∧
  (∀ d, d ∈ running w' ↔ d ∈ running w ∨
     ∃ j, get (db w) (Name j) = Ok j ∧ is_Some (fires_at now j) ∧ Name j ∉ inflight w ∧ d = new_delivery j).
Proof.
  intros HI Hm. unfold fireDue. destruct (List_exact (db w) "" HI) as (l & -> & _ & Hnd & Hin). cbv zeta.
  assert (∀ j, j ∈ l ↔ get (db w) (Name j) = Ok j) as Hl. { intros j. rewrite Hin. split; [by intros [? _]|]. intros ?. split; [done|]. by destruct (Name j). }
  destruct (fire_all_passed w now l Hnd) as [P1 P2 P3 P4 P5].
  { intros j Hj%Hl. destruct (Inv_get _ _ _ HI Hj) as (_ & Hok & _). auto. }
  split.
  - intros j Hj. pose proof (proj2 (Hl j) Hj) as Hjl. split; [by apply P1|]. intros next Hn. split; [apply P3; [done|by eexists]|].
    intros Hz. unfold after_pass. rewrite Hn. unfold fires_at in Hn. destruct (due now j); [|done].
    destruct (nextRun _ _ _) as [nx|] eqn:Hr; [|done]. injection Hn as ->. apply nextRun_later in Hr as [?|Hlt]; [done|].
    unfold due. cbn. unfold After. rewrite (proj2 (Z.ltb_lt _ _) Hlt). by rewrite andb_false_r.
  - intros d. split.
    + intros Hd. destruct (P5 d Hd) as [?|(j & Hj & ? & ? & ->)]; [by left|right]. exists j. split; [by apply Hl|]. done.
    + intros [Hd|(j & Hj & Hf & Hnf & ->)]; [by apply P4|]. destruct (P3 j (proj2 (Hl j) Hj) Hf) as [?|?]; done.
Qed.

End runner.

(** ** Runs *)

Module SchedulerRuns.

(** Schedules of a fixed period, and one that no day satisfies. *)
#[local] Instance periods : Cron := {|
  location := unit;
  spec := Z;
  LoadLocation := λ z, if bool_decide (z = "Nowhere") then None else Some tt;
  cron_Parse := λ s, if bool_decide (s = "* * * * *") then Some Minute else if bool_decide (s = "0 * * * *") then Some Hour
                     else if bool_decide (s = "0 0 30 2 *") then Some 0%Z else None;
  cron_Next := λ p _ t, if (p <=? 0)%Z then zero else ((t / p + 1) * p)%Z |}.
#[local] Instance periods_laws : CronLaws.
Proof.
  intros p l t. cbn. destruct (Z.leb_spec p 0) as [|Hpos]; [by left|right].
  pose proof (Z.div_mod t p ltac:(lia)). pose proof (Z.mod_pos_bound t p Hpos). nia.
Qed.
#[local] Instance any_request : Net := {| url_Parse := λ _, None; url_String := λ _, ""; request_ok := λ _ _, true |}.
#[local] Instance no_platform : Platform := {| undef_int64 := 0%Z |}.

Abbreviation store := (Memory.Memory Job).
Definition empty : store := Memory.NewMemory.

Definition parent : string := "projects/my-project/locations/us-east1".
Definition the_name : string := parent +:+ "/jobs/j".
Definition t0 : Time := (63000000000 * Second)%Z.

(** A job with a GET target, retried three times from ten seconds on. *)
Definition request_of (method : Z) (schedule : string) : pb.Job :=
  pb.mkJob the_name "a job" schedule "" (Some (pb.Job_HttpTarget (pb.mkHttpTarget "http://localhost/" method ∅ "" None)))
    (Some (pb.mkRetryConfig 3 None (Some (durationpb.New (10 * Second)%Z)) None 0)) None None None pb.ENABLED None None.
Definition plain : pb.Job := request_of 2 "* * * * *".

Definition created : store := (CreateJob empty parent (Some plain) t0).1.
Definition the_job : Job := default zero_job (contents created !! key the_name).

Lemma empty_jobs_Inv : Inv (contents empty).
Proof. apply job_Inv_empty. Qed.
Lemma created_jobs_Inv : Inv (contents created).
Proof. apply Inv_CreateJob, empty_jobs_Inv. Qed.
Lemma created_get : get created the_name = Ok the_job.
Proof. by vm_compute. Qed.

(** A job with a GET target is carried by a message. *)
Lemma get_carried j : HTTP j = Some (mkHTTPTarget "http://localhost/" "GET" ∅ "" None None) → AppEngine j = None →
  MaxDoublings (Retry j) = 5%Z → carried j.
Proof. intros Hh Ha Hm. split_and!; [|by rewrite Ha|by rewrite Hm]. intros h. rewrite Hh. intros [= <-]. by right; left. Qed.
Lemma the_job_carried : carried the_job.
Proof. by apply get_carried; vm_compute. Qed.

(** *** Witnesses *)

(** A later description, with a mask that names nothing else. *)
Definition described : pb.Job := pb.mkJob the_name "another" "" "" None None None None None pb.ENABLED None None.

Lemma described_get : get created (pb.name described) = Ok the_job.
Proof. by vm_compute. Qed.

Lemma update_job_mask_witness :
  match UpdateJob created (Some described) ["description"] (t0 + Hour)%Z with
  | (s', Ok msg) => ∃ next, contents s' = <[key (Name the_job) := next]> (contents created) ∧ msg = toProto next ∧
                            masked described (asked ["description"]) (t0 + Hour)%Z the_job next
  | (s', Err _) => contents s' = contents created
  end.
Proof.
  destruct (update_job_mask created described ["description"] (t0 + Hour)%Z the_job created_jobs_Inv described_get the_job_carried) as [H _].
  destruct (UpdateJob created (Some described) ["description"] (t0 + Hour)%Z) as [s' [msg|]]; [apply H|exact H].
  constructor; [split; [by left|by intros _ q]|constructor].
Defined.

Definition created_msg : pb.Job := toProto the_job.

Lemma create_job_roundtrip_witness : GetJob created the_name = Ok created_msg ∧ fromProto created_msg = fromProto plain.
Proof.
  destruct (create_job_roundtrip empty parent plain t0 created created_msg empty_jobs_Inv) as (H1 & H2 & _).
  - intros j Hj. assert (fromProto plain = Ok (settings the_job)) as Hp by by vm_compute. rewrite Hp in Hj. injection Hj as <-.
    by apply get_carried; vm_compute.
  - vm_compute. reflexivity.
  - by split.
Defined.

Definition paused : store := (PauseJob created the_name).1.

Lemma resume_makes_up_nothing_witness :
  ∃ j, get (ResumeJob paused the_name (t0 + Hour)%Z).1 the_name = Ok j ∧ State_ j = StateEnabled ∧ (t0 + Hour < ScheduleTime j)%Z.
Proof.
  destruct (resume_makes_up_nothing paused the_name (t0 + Hour)%Z (ResumeJob paused the_name (t0 + Hour)%Z).1
    (toProto (set_ScheduleTime the_job (t0 + Hour + Minute)%Z)) (set_State the_job StatePaused)) as (j & H1 & _ & H3 & _ & _ & H6).
  - apply Inv_PauseJob, created_jobs_Inv.
  - by vm_compute.
  - vm_compute. reflexivity.
  - exists j. split; [exact H1|]. split; [exact H3|]. destruct (H6 eq_refl) as [Hn [Hz|Hlt]]; [|exact Hlt].
    rewrite Hz in Hn. vm_compute in Hn. discriminate.
Defined.

Definition runner : Runner := mkRunner false None "".
Definition later : Time := (t0 + Hour)%Z.
(** The world after a pass that fired the job. *)
Definition w1 : world := mkWorld created ∅ [] [] (Passing later [the_job]).
Definition w2 : world := mkWorld (advance created later the_job).1 ∅ [] [] (Firing later the_job []).
Definition w3 : world := fire (mkWorld (db w2) ∅ [] [] (Passing later [])) the_job (ScheduleTime the_job).

Lemma advanced : advance created later the_job = (db w2, true).
Proof. vm_compute. reflexivity. Qed.
Lemma to_w3 : rtc (step runner) (start_world created) w3.
Proof.
  eapply rtc_l; [apply (S_list runner created ∅ [] [] later [the_job]); by vm_compute|].
  eapply rtc_l; [exact (S_advance runner created ∅ [] [] later the_job [] (db w2) advanced)|].
  eapply rtc_l; [apply S_fire|]. apply rtc_refl.
Qed.

Lemma one_delivery_per_job_witness : NoDup (dname <$> running w3) ∧ length (running w3) = 1%nat.
Proof. split; [exact (one_delivery_per_job runner created w3 created_jobs_Inv to_w3)|by vm_compute]. Defined.

Definition w4 : world := mkWorld (db w3) (inflight w3) [mkDelivery the_job (ScheduleTime the_job) later (Attempting 1)] [] (at_ w3).
Lemma to_w4 : rtc (step runner) (start_world created) w4.
Proof.
  eapply rtc_r; [apply to_w3|]. apply (S_start runner (db w3) (inflight w3) [] [] [] (at_ w3) the_job (ScheduleTime the_job) later).
Qed.

Lemma jobs_valid_attempts_bounded_witness :
  (1 ≤ 1 ≤ RetryCount (Retry the_job) + 1 ∧ 1 ≤ 6)%Z.
Proof.
  exact (proj2 (jobs_valid_attempts_bounded runner created w4 created_jobs_Inv to_w4)
    (mkDelivery the_job (ScheduleTime the_job) later (Attempting 1)) 1%Z ltac:(left) eq_refl).
Defined.

Lemma created_contents : contents created = {[key the_name := the_job]}.
Proof. apply (bool_decide_unpack _). vm_compute. exact I. Qed.
Lemma created_only j : get created (Name j) = Ok j → j = the_job.
Proof. intros [_ Hl]%get_Ok. rewrite created_contents in Hl. by apply lookup_singleton_Some in Hl as [_ <-]. Qed.
Lemma the_job_marshals : marshals (after_pass later the_job) = true.
Proof. by vm_compute. Qed.

Lemma fire_due_exact_witness :
  get (db (fireDue (start_world created) later)) (Name the_job) = Ok (after_pass later the_job).
Proof.
  refine (proj1 (proj1 (fire_due_exact (start_world created) later created_jobs_Inv _) the_job _)).
  - intros j Hj. apply created_only in Hj as ->. exact the_job_marshals.
  - by vm_compute.
Defined.

(** *** Where the code does not do what it says *)

(** A schedule that no day satisfies is accepted; the cron package answers the
    zero time, which has always come, so the job is fired at every pass. *)
Definition never : store := (CreateJob empty parent (Some (request_of 2 "0 0 30 2 *")) t0).1.
Definition never_job : Job := default zero_job (contents never !! key the_name).

Example never_fires_every_pass :
  get never the_name = Ok never_job ∧ ScheduleTime never_job = zero ∧ due t0 never_job = true ∧ due later never_job = true ∧
  after_pass later never_job = never_job ∧ length (running (fireDue (start_world never) later)) = 1%nat.
Proof. vm_compute. split_and!; reflexivity. Qed.

(** A mask of one field of retry_config replaces the whole message: the backoff
    that was not named goes back to its default. *)
Definition recount : pb.Job :=
  pb.mkJob the_name "" "" "" None (Some (pb.mkRetryConfig 1 None None None 0)) None None None pb.ENABLED None None.

Example subpath_replaces_message :
  MinBackoff (Retry the_job) = (10 * Second)%Z ∧
  Retry <$> contents (UpdateJob created (Some recount) ["retry_config.retry_count"] later).1 !! key the_name =
  Some (mkRetryConfig 1 0 (5 * Second) Hour 5)%Z.
Proof. vm_compute. split; reflexivity. Qed.

(** A path that names no field is accepted as the whole target or retry_config ... *)
Example loose_paths_update :
  (("http_targetXYZ", FTarget) ∉ job_fields) ∧ ("retry_config.nonsense" ∉ job_fields.*1) ∧
  is_ok (UpdateJob created (Some plain) ["http_targetXYZ"; "retry_config.nonsense"] later).2 = true ∧
  (UpdateJob created (Some plain) ["http_targe"] later).2 = Err InvalidArgument.
Proof.
  split_and!; [by apply (bool_decide_unpack _); vm_compute..| |]; vm_compute; reflexivity.
Qed.

(** ... and the path of one kind of target takes a target of another kind. *)
Definition to_topic : pb.Job :=
  pb.mkJob the_name "" "" "" (Some (pb.Job_PubsubTarget (pb.mkPubsubTarget "projects/my-project/topics/t" "d" ∅))) None None None None pb.ENABLED None None.
Example http_path_takes_topic :
  (λ j, (Method <$> HTTP j, Topic <$> PubSub j)) <$> contents (UpdateJob created (Some to_topic) ["http_target"] later).1 !! key the_name =
  Some (None, Some "projects/my-project/topics/t").
Proof. vm_compute. reflexivity. Qed.

(** A name is looked up by its key, in which "/" and "~" are one: a name that is
    no job's name addresses the job. *)
Definition alias : string := "projects~my-project~locations~us-east1~jobs~j".
Example alias_addresses_job :
  parseJobName alias = Err InvalidArgument ∧ (DeleteJob created alias).2 = Ok tt ∧ get (DeleteJob created alias).1 the_name = Err NotFound.
Proof. vm_compute. split_and!; reflexivity. Qed.

(** An http_method that has no name is accepted, and sent as its number; an update
    of the description makes it POST. *)
Definition odd : store := (CreateJob empty parent (Some (request_of 42 "* * * * *")) t0).1.
Definition method_of (s : store) : option string := contents s !! key the_name ≫= λ j, Method <$> HTTP j.
Example unknown_method_changes :
  method_of odd = Some "42" ∧ method_of (UpdateJob odd (Some described) ["description"] later).1 = Some "POST".
Proof. vm_compute. split; reflexivity. Qed.

(** The outcome of a delivery is recorded on whatever job has the name by then: a
    job deleted and created again while its delivery ran shows an attempt it
    never had. *)
Definition recreated : store := (CreateJob (DeleteJob created the_name).1 parent (Some plain) later).1.
Example outcome_on_new_job :
  LastAttemptTime <$> contents recreated !! key the_name = Some zero ∧
  LastAttemptTime <$> contents (Update recreated (Name the_job) (record_fn later None)).1 !! key the_name = Some later.
Proof. vm_compute. split; reflexivity. Qed.

(** A pass moves a job by the schedule it listed.  A job whose schedule is changed
    between the listing and its turn is moved to a time of the old schedule. *)
Definition hourly : pb.Job := pb.mkJob the_name "" "0 * * * *" "" None None None None None pb.ENABLED None None.
Definition rescheduled : store := (UpdateJob created (Some hourly) ["schedule"] later).1.
Example stale_pass_reschedules :
  ScheduleTime <$> contents rescheduled !! key the_name = Some (later + Hour)%Z ∧
  ScheduleTime <$> contents (advance rescheduled later the_job).1 !! key the_name = Some (later + Minute)%Z.
Proof. vm_compute. split; reflexivity. Qed.

End SchedulerRuns.
