(* ===== verification/RmModel.v ===== *)
(** * internal/service/resourcemanager: projects, folders and what hangs on them

    The records the registry stores, the keys they are stored under, and the rules
    for names.  A time kept as RFC 3339 text is the instant the text denotes, in
    whole seconds; the empty text is [None]. *)

From S2P Require Import Prelude GoLib ApiError Resource MetaStore IamPolicy.
From Stdlib Require Import Ascii.

Import strings strconv time.

(** ** Records *)

Inductive State := ACTIVE | DELETE_REQUESTED.

#[global] Instance State_eq_dec : EqDecision State.
Proof. solve_decision. Defined.

Record Project := mkProject {
  p_Name : string;
  p_ProjectID : string;
  p_DisplayName : string;
  p_State : State;
  p_CreateTime : option Time;
  p_Labels : gmap string string;
  p_DeleteTime : option Time;
  p_Parent : string;
  p_ConfiguredCapabilities : list string;
  p_Number : Z
}.

Record Folder := mkFolder {
  f_Name : string;
  f_Parent : string;
  f_DisplayName : string;
  f_State : State;
  f_CreateTime : option Time;
  f_UpdateTime : option Time;
  f_DeleteTime : option Time;
  f_Capabilities : list string;
  f_ManagementProject : string
}.

Record Lien := mkLien {
  l_Name : string;
  l_Parent : string;
  l_Restrictions : list string;
  l_Reason : string;
  l_Origin : string;
  l_CreateTime : option Time
}.

(** The messages of resourcemanagerpb the tag services store. *)
Record TagKey := mkTagKey {
  tk_name : string;
  tk_parent : string;
  tk_short_name : string;
  tk_namespaced_name : string;
  tk_description : string;
  tk_create_time : option Time;
  tk_update_time : option Time;
  tk_etag : string;
  tk_purpose : Z;
  tk_purpose_data : gmap string string
}.

Record TagValue := mkTagValue {
  tv_name : string;
  tv_parent : string;
  tv_short_name : string;
  tv_namespaced_name : string;
  tv_description : string;
  tv_create_time : option Time;
  tv_update_time : option Time;
  tv_etag : string
}.

Record TagBinding := mkTagBinding {
  tb_name : string;
  tb_parent : string;
  tb_tag_value : string;
  tb_namespaced_name : string
}.

Record TagHold := mkTagHold {
  th_name : string;
  th_holder : string;
  th_origin : string;
  th_help_link : string;
  th_create_time : option Time
}.

(** crmv1.OrgPolicy and its list policy. *)
Record ListPolicy := mkListPolicy {
  lp_AllValues : string;
  lp_AllowedValues : list string;
  lp_DeniedValues : list string;
  lp_InheritFromParent : bool;
  lp_SuggestedValue : string
}.

Record OrgPolicy := mkOrgPolicy {
  op_Constraint : string;
  op_Version : Z;
  op_BooleanPolicy : option bool;
  op_ListPolicy : option ListPolicy;
  op_RestoreDefault : bool;
  op_Etag : string;
  op_UpdateTime : option Time
}.

(** What the store holds: a record, or the bytes of a retired number or ID. *)
Inductive doc :=
| DProject (p : Project)
| DFolder (f : Folder)
| DLien (l : Lien)
| DTagKey (k : TagKey)
| DTagValue (v : TagValue)
| DTagBinding (b : TagBinding)
| DTagHold (h : TagHold)
| DIam (s : IamPolicy.Stored)
| DOrgPolicy (p : OrgPolicy)
| DText (s : string).

(** ** Keys *)

Definition keyPrefix : string := "resourcemanager/projects/".
Definition folderPrefix : string := "resourcemanager/folders/".
Definition retiredNumberPrefix : string := "resourcemanager/retired-numbers/".
Definition retiredIDPrefix : string := "resourcemanager/retired-ids/".
Definition iamPrefix : string := "resourcemanager/iam/".
Definition lienPrefix : string := "resourcemanager/liens/".
Definition tagKeyPrefix : string := "resourcemanager/tagkeys/".
Definition tagValuePrefix : string := "resourcemanager/tagvalues/".
Definition tagBindingPrefix : string := "resourcemanager/tagbindings/".
Definition tagHoldPrefix : string := "resourcemanager/tagholds/".
Definition orgPolicyPrefix : string := "resourcemanager/orgpolicies/".
Definition folderOrgPolicyPrefix : string := "resourcemanager/orgpolicies-folders/".
Definition orgOrgPolicyPrefix : string := "resourcemanager/orgpolicies-organizations/".

Definition key (id : string) : string := keyPrefix +:+ id.
Definition folderKey (id : string) : string := folderPrefix +:+ id.
Definition iamKey (resource : string) : string := iamPrefix +:+ resource.

(** ** The organization and the limits *)

Definition OrganizationNumber : string := "100000000001".
Definition OrganizationName : string := "organizations/" +:+ OrganizationNumber.
Definition MaxFolderDepth : nat := 10.
Definition RetentionPeriod : Duration := (30 * 24 * Hour)%Z.
Definition ProjectDeleteRestriction : string := "resourcemanager.projects.delete".
Definition CRMPrefix : string := "//cloudresourcemanager.googleapis.com/".

(** [t.UTC().Format(time.RFC3339)], read back: the instant in whole seconds. *)
Definition RFC3339 (t : Time) : option Time := Some (t / Second * Second)%Z.

(** Pending deletion for longer than the retention period. *)
Definition expired (st : State) (deleted : option Time) (t : Time) : bool :=
  bool_decide (st = DELETE_REQUESTED) &&
  match deleted with Some d => negb (Before t (Add d RetentionPeriod)) | None => false end.

(** ** Names *)

Definition CutPrefix (s p : string) : option string := if HasPrefix s p then Some (drop_bytes (String.length p) s) else None.

(** [strconv.ParseUint(s, 10, 64)] succeeds. *)
Definition ParseUint_ok (s : string) : bool :=
  match digits s with Some n => (n <? 2 ^ 64)%Z | None => false end.

Definition project_rune (a : ascii) : bool := is_lower a || is_digit a || one_of ["-"%char] a.

(** [^[a-z][a-z0-9-]{4,28}[a-z0-9]$] on a string of 6 to 30 bytes. *)
Definition projectIDPattern (id : string) : bool :=
  match id with
  | String a rest =>
      is_lower a && AllBytes project_rune rest &&
      match last (String.list_ascii_of_string rest) with Some z => is_lower z || is_digit z | None => false end
  | EmptyString => false
  end.

Definition ValidateProjectID (id : string) : res error unit :=
  if bool_decide (id = "") then Err InvalidArgument
  else if (len id <? 6)%nat || (30 <? len id)%nat then Err InvalidArgument
  else if negb (projectIDPattern id) then Err InvalidArgument
  else Ok tt.

(** [strings.ContainsAny(id, "/\")] *)
Definition has_separator (id : string) : bool := negb (free_of "/"%char id && free_of "\"%char id).

(** The folder's number. *)
Definition f_ID (f : Folder) : string := TrimPrefix (f_Name f) "folders/".

Definition FolderName (s : string) : res error string :=
  let id := TrimPrefix s "folders/" in
  if negb (ParseUint_ok id) || bool_decide (id = "") then Err InvalidArgument else Ok ("folders/" +:+ id).

Section names.
Context `{UNI : Unicode}.

Definition letter_or_number (r : N) : bool := IsLetter r || in_N r.
Definition folder_rune (r : N) : bool := letter_or_number r || bool_decide (r ∈ [32; 95; 45]%N).

(** [^[\p{L}\p{N}]([\p{L}\p{N} _-]{0,28}[\p{L}\p{N}])?$] *)
Definition folderNamePattern (name : string) : bool :=
  match runes name with
  | [] => false
  | r :: rest =>
      letter_or_number r &&
      match last rest with
      | None => true
      | Some z => letter_or_number z && forallb folder_rune rest && (length rest <=? 29)%nat
      end
  end.

Definition ValidateFolderName (name : string) : res error unit :=
  if negb (folderNamePattern name) then Err InvalidArgument else Ok tt.

End names.

Definition checkOrg (name : string) : res error unit :=
  if bool_decide (name = OrganizationName) then Ok tt
  else if HasPrefix name "organizations/" then Err NotFound else Err InvalidArgument.

(** [numericID] *)
Definition numericID (prefix name : string) : res error string :=
  match CutPrefix name prefix with
  | None => Err InvalidArgument
  | Some id => if negb (ParseUint_ok id) then Err InvalidArgument else Ok id
  end.

(** ** Numbers *)

(** One draw of crypto/rand below 900000000000, or, when it fails, what
    [time.Now().UnixNano()] reads. *)
Inductive draw := Drew (n : Z) | Failed (nanos : Z).

Definition randomFolderNumber (d : draw) : string :=
  match d with
  | Drew n => Itoa (n + 100000000000)
  | Failed t => Itoa (Z.rem t 900000000000 + 100000000000)
  end.

Definition numberOf (p : Project) : Z :=
  if negb (p_Number p =? 0)%Z then p_Number p else DerivedProjectNumber (p_ProjectID p).

(** ** Updates *)

Definition set_p_State (p : Project) (st : State) (deleted : option Time) : Project :=
  mkProject (p_Name p) (p_ProjectID p) (p_DisplayName p) st (p_CreateTime p) (p_Labels p) deleted (p_Parent p)
    (p_ConfiguredCapabilities p) (p_Number p).
Definition set_p_Parent (p : Project) (parent : string) : Project :=
  mkProject (p_Name p) (p_ProjectID p) (p_DisplayName p) (p_State p) (p_CreateTime p) (p_Labels p) (p_DeleteTime p) parent
    (p_ConfiguredCapabilities p) (p_Number p).
Definition set_p_Settings (p : Project) (display : string) (labels : gmap string string) : Project :=
  mkProject (p_Name p) (p_ProjectID p) display (p_State p) (p_CreateTime p) labels (p_DeleteTime p) (p_Parent p)
    (p_ConfiguredCapabilities p) (p_Number p).

Definition set_f_DisplayName (f : Folder) (display : string) (t : option Time) : Folder :=
  mkFolder (f_Name f) (f_Parent f) display (f_State f) (f_CreateTime f) t (f_DeleteTime f) (f_Capabilities f) (f_ManagementProject f).
Definition set_f_Parent (f : Folder) (parent : string) (t : option Time) : Folder :=
  mkFolder (f_Name f) parent (f_DisplayName f) (f_State f) (f_CreateTime f) t (f_DeleteTime f) (f_Capabilities f) (f_ManagementProject f).
Definition set_f_State (f : Folder) (st : State) (deleted t : option Time) : Folder :=
  mkFolder (f_Name f) (f_Parent f) (f_DisplayName f) st (f_CreateTime f) t deleted (f_Capabilities f) (f_ManagementProject f).
Definition set_f_Capabilities (f : Folder) (cs : list string) (mp : string) (t : option Time) : Folder :=
  mkFolder (f_Name f) (f_Parent f) (f_DisplayName f) (f_State f) (f_CreateTime f) t (f_DeleteTime f) cs mp.
