(* ===== verification/RmRegistry.v ===== *)
(** * internal/service/resourcemanager: the registry

    projects.go, numbers.go, purge.go, hierarchy.go, capabilities.go and the
    liens, tags and policies of tags.go and iam.go that a purge removes.  Each
    method holds [r.mu] from its first access to the store to its end ([locked]),
    so it is one computation; [Create] and [EnsureExists], which take the lock
    twice, are two. *)

From S2P Require Import Prelude GoLib ApiError Resource MetaStore IamPolicy Handler RmModel.
From Stdlib Require Import Ascii.

Import strings strconv time.

(** The surroundings of a call: its clock, the draws of crypto/rand in order, what
    the purge hooks answer for a project, and the random part of an IAM etag. *)
Record Env := mkEnv {
  clock_Now : Time;
  draws : list draw;
  run_hooks : string → option error;
  iam_etag : string
}.

Definition ErrRand : error := Sentinel "crypto/rand failed".
Definition ErrDraws : error := Sentinel "still drawing a number".
Definition ErrDecode : error := Sentinel "decode".
Definition ErrFuel : error := Sentinel "out of fuel".

(** A call of the hooks: of OnPurge with a project, or of OnNumbersChanged. *)
Inductive Hook := Purged (id : string) | NumbersChanged.

(** A record kind: how it lies in the store. *)
Class Stored_ (T : Type) := { to_doc : T → doc; of_doc : doc → option T }.
#[global] Instance stored_project : Stored_ Project := {| to_doc := DProject; of_doc d := match d with DProject p => Some p | _ => None end |}.
#[global] Instance stored_folder : Stored_ Folder := {| to_doc := DFolder; of_doc d := match d with DFolder f => Some f | _ => None end |}.
#[global] Instance stored_lien : Stored_ Lien := {| to_doc := DLien; of_doc d := match d with DLien l => Some l | _ => None end |}.
#[global] Instance stored_key : Stored_ TagKey := {| to_doc := DTagKey; of_doc d := match d with DTagKey k => Some k | _ => None end |}.
#[global] Instance stored_value : Stored_ TagValue := {| to_doc := DTagValue; of_doc d := match d with DTagValue v => Some v | _ => None end |}.
#[global] Instance stored_binding : Stored_ TagBinding := {| to_doc := DTagBinding; of_doc d := match d with DTagBinding b => Some b | _ => None end |}.
#[global] Instance stored_hold : Stored_ TagHold := {| to_doc := DTagHold; of_doc d := match d with DTagHold h => Some h | _ => None end |}.
#[global] Instance stored_iam : Stored_ IamPolicy.Stored := {| to_doc := DIam; of_doc d := match d with DIam s => Some s | _ => None end |}.
#[global] Instance stored_policy : Stored_ OrgPolicy := {| to_doc := DOrgPolicy; of_doc d := match d with DOrgPolicy p => Some p | _ => None end |}.
#[global] Instance stored_text : Stored_ string := {| to_doc := DText; of_doc d := match d with DText s => Some s | _ => None end |}.

Section registry.
Context {D : Type} `{MSL : MetaStoreLaws D doc}.

(** [purged] and [numbersChanged] are what unlock tells the hooks; [hooked] is
    what they were told. *)
Record Registry := mkRegistry {
  db : D;
  purged : list string;
  numbersChanged : bool;
  hooked : list Hook
}.

Definition New (d : D) : Registry := mkRegistry d [] false [].

Abbreviation H := (M Env Registry).

Definition set_db (s : Registry) (d : D) : Registry := mkRegistry d (purged s) (numbersChanged s) (hooked s).

Definition now : H Time := ask clock_Now.

(** [unlock]: the hooks run after the lock is released, before the call returns. *)
Definition unlock : H unit := λ _ s,
  let told := match purged s with [] => numbersChanged s | _ => true end in
  (mkRegistry (db s) [] false (hooked s ++ (Purged <$> purged s) ++ (if told then [NumbersChanged] else [])), Ok tt).

Definition locked {A} (body : H A) : H A := deferred unlock body.

Definition queue_purged (id : string) : H unit := λ _ s,
  (mkRegistry (db s) (purged s ++ [id]) (numbersChanged s) (hooked s), Ok tt).
Definition numbers_changed : H unit := λ _ s, (mkRegistry (db s) (purged s) true (hooked s), Ok tt).
Definition runHooks (id : string) : H (option error) := λ e s,
  (mkRegistry (db s) (purged s) (numbersChanged s) (hooked s ++ [Purged id]), Ok (run_hooks e id)).

(** ** The store *)

(** [r.st.Get]; the callers look at no more of an error than that there is one. *)
Definition raw (k : string) : H (option doc) := λ _ s,
  (s, Ok (match st_Get (db s) k with Ok d => Some d | Err _ => None end)).

Definition db_Put (k : string) (d : doc) : H unit := λ _ s,
  match st_Put (db s) k d with
  | (d', Ok _) => (set_db s d', Ok tt)
  | (d', Err err) => (set_db s d', Err (Internal err))
  end.

Definition db_Delete (k : string) : H unit := λ _ s,
  match st_Delete (db s) k with
  | (d', Ok _) => (set_db s d', Ok tt)
  | (d', Err err) => (set_db s d', Err (Internal err))
  end.

Definition db_List (prefix : string) : H (list string) := λ _ s,
  (s, match st_List (db s) prefix with Ok ks => Ok ks | Err err => Err (Internal err) end).

(** [_ = f()] *)
Definition ignore (m : H unit) : H unit := attempt m ;; mret tt.

(** A record that must be there, and decode. *)
Definition find {T} `{Stored_ T} (k : string) (missing : error) : H T :=
  d ← raw k;
  match d with
  | None => throw missing
  | Some d => match of_doc d with Some v => mret v | None => throw (Internal ErrDecode) end
  end.

(** The records under a prefix; what does not decode is skipped. *)
Definition listProtos {T} `{Stored_ T} (prefix : string) : H (list T) :=
  keys ← db_List prefix;
  collect (λ k, d ← raw k; mret (d ≫= of_doc)) (sort_strings keys).

Definition dropIAM (resource : string) : H unit := ignore (db_Delete (iamKey resource)).

Definition deletePrefixLocked (prefix : string) : H unit :=
  keys ← db_List prefix;
  each db_Delete keys.

(** ** Project numbers (numbers.go) *)

Definition NumberOf (id : string) : H (option Z) :=
  if bool_decide (id = "") || has_separator id then mret None
  else
    p ← raw (key id);
    match p with
    | Some (DProject p) => mret (Some (numberOf p))
    | _ =>
        r ← raw (retiredIDPrefix +:+ id);
        mret (match r with Some (DText b) => Atoi b | _ => None end)
    end.

Definition projectNumber (id : string) : H Z :=
  n ← NumberOf id;
  mret (default (DerivedProjectNumber id) n).

Definition NumberOverrides : H (list (string * Z)) :=
  keys ← db_List keyPrefix;
  collect (λ k, let id := TrimPrefix k keyPrefix in
                n ← NumberOf id;
                mret (match n with
                      | Some n => if negb (n =? DerivedProjectNumber id)%Z then Some (id, n) else None
                      | None => None
                      end)) keys.

Definition free_number (used : list Z) (n : Z) : H bool :=
  if bool_decide (n ∈ used) then mret false
  else r ← raw (retiredNumberPrefix +:+ Itoa n); mret (match r with Some _ => false | None => true end).

(** The loop of draws; it ends at the first free number. *)
Fixpoint draw_number (used : list Z) (ds : list draw) : H Z :=
  match ds with
  | [] => throw ErrDraws
  | Failed _ :: _ => throw (Internal ErrRand)
  | Drew v :: rest =>
      let n := (v + 100000000000)%Z in
      f ← free_number used n;
      if f : bool then mret n else draw_number used rest
  end.

Definition assignNumberLocked (id : string) : H Z :=
  keys ← db_List keyPrefix;
  used ← collect (λ k, NumberOf (TrimPrefix k keyPrefix)) keys;
  let n := DerivedProjectNumber id in
  f ← free_number used n;
  if f : bool then mret n else ds ← ask draws; draw_number used ds.

Definition retireNumberLocked (p : Project) : H unit :=
  let n := Itoa (numberOf p) in
  ignore (db_Put (retiredNumberPrefix +:+ n) (DText (p_ProjectID p))) ;;
  ignore (db_Put (retiredIDPrefix +:+ p_ProjectID p) (DText n)).

(** ** What the registry keeps for a project (purge.go) *)

Definition namesProject (parent id : string) : H bool :=
  match CutPrefix parent "projects/" with
  | None => mret false
  | Some x => n ← projectNumber id; mret (bool_decide (x = id) || bool_decide (x = Itoa n))
  end.

Definition inProject (fullName id : string) : H bool :=
  match CutString (TrimPrefix fullName "//") "/projects/" with
  | None => mret false
  | Some (_, rest) => namesProject ("projects/" +:+ (Cut rest "/"%char).1.1) id
  end.

Definition getLien (id : string) : H Lien := find (lienPrefix +:+ id) NotFound.

Definition drop_lien (id k : string) : H unit :=
  l ← attempt (getLien (TrimPrefix k lienPrefix));
  match l with
  | Err _ => mret tt
  | Ok l => n ← namesProject (l_Parent l) id; when n (ignore (db_Delete k))
  end.

Definition drop_value (v : TagValue) : H string :=
  let vid := TrimPrefix (tv_name v) "tagValues/" in
  deletePrefixLocked (tagHoldPrefix +:+ vid +:+ "/") ;;
  ignore (db_Delete (tagValuePrefix +:+ vid)) ;;
  dropIAM (tv_name v) ;;
  mret (tv_name v).

(** The tag keys of the project's namespace; the names of the values that went. *)
Fixpoint drop_keys (id : string) (ks : list TagKey) : H (list string) :=
  match ks with
  | [] => mret []
  | k :: rest =>
      if negb (HasPrefix (tk_namespaced_name k) (id +:+ "/")) then drop_keys id rest
      else
        vals ← listProtos (T := TagValue) tagValuePrefix;
        names ← collect (λ v, n ← drop_value v; mret (Some n)) (base.filter (λ v, tv_parent v = tk_name k) vals);
        ignore (db_Delete (tagKeyPrefix +:+ TrimPrefix (tk_name k) "tagKeys/")) ;;
        dropIAM (tk_name k) ;;
        more ← drop_keys id rest;
        mret (names ++ more)
  end.

Definition drop_binding (id : string) (values : list string) (k : string) : H unit :=
  b ← raw k;
  match b ≫= of_doc with
  | None => mret tt
  | Some b =>
      i ← inProject (tb_parent b) id;
      when (bool_decide (tb_tag_value b ∈ values) || i) (ignore (db_Delete k))
  end.

Definition dropProjectStateLocked (id : string) : H unit :=
  dropIAM ("projects/" +:+ id) ;;
  deletePrefixLocked (orgPolicyPrefix +:+ id +:+ "/") ;;
  liens ← db_List lienPrefix;
  each (drop_lien id) liens ;;
  keys ← listProtos (T := TagKey) tagKeyPrefix;
  values ← drop_keys id keys;
  bindings ← db_List tagBindingPrefix;
  each (drop_binding id values) bindings.

(** [purgeLocked]: a failure of the last step is logged. *)
Definition purgeLocked (p : Project) : H unit :=
  retireNumberLocked p ;;
  ignore (db_Delete (key (p_ProjectID p))) ;;
  ignore (dropProjectStateLocked (p_ProjectID p)) ;;
  queue_purged (p_ProjectID p).

(** ** Projects (projects.go) *)

Definition put_project (p : Project) : H unit := db_Put (key (p_ProjectID p)) (DProject p).

Definition load (id : string) : H Project :=
  p ← find (key id) NotFound;
  t ← now;
  if expired (p_State p) (p_DeleteTime p) t then purgeLocked p ;; throw NotFound else mret p.

Definition registerLocked (p : Project) : H Project :=
  old ← attempt (load (p_ProjectID p));
  match old with
  | Ok _ => throw AlreadyExists
  | Err _ =>
      t ← now;
      n ← assignNumberLocked (p_ProjectID p);
      let p := mkProject ("projects/" +:+ p_ProjectID p) (p_ProjectID p)
                 (if bool_decide (TrimSpace (p_DisplayName p) = "") then p_ProjectID p else p_DisplayName p) ACTIVE
                 (match p_CreateTime p with None => RFC3339 t | c => c end) (p_Labels p) None (p_Parent p)
                 (p_ConfiguredCapabilities p) n in
      numbers_changed ;;
      dropProjectStateLocked (p_ProjectID p) ;;
      put_project p ;;
      mret p
  end.

Definition register (p : Project) : H Project :=
  refuse (bool_decide (TrimSpace (p_ProjectID p) = "")) InvalidArgument ;;
  refuse (has_separator (p_ProjectID p)) InvalidArgument ;;
  refuse (negb (SafeKey (key (p_ProjectID p)))) InvalidArgument ;;
  locked (registerLocked p).

Definition Update (id display : string) (labels : gmap string string) : H Project :=
  locked (
    p ← load id;
    refuse (bool_decide (p_State p = DELETE_REQUESTED)) FailedPrecondition ;;
    let name := TrimSpace display in
    let p := set_p_Settings p (if bool_decide (name = "") then p_ProjectID p else name) labels in
    put_project p ;;
    mret p).

Definition Get (id : string) : H Project := locked (load id).

Definition EnsureExists (id : string) : H Project :=
  p ← attempt (Get id);
  match p with
  | Ok p => mret p
  | Err _ => register (mkProject "" id "" ACTIVE None ∅ None "" [] 0)
  end.

(** [List]: each project is read under the lock, the keys before it is taken. *)
Definition List_ : H (list Project) :=
  keys ← db_List keyPrefix;
  ps ← collect (λ k, p ← attempt (Get (TrimPrefix k keyPrefix)); mret (match p with Ok p => Some p | Err _ => None end)) keys;
  mret (sort_by p_ProjectID ps).

Definition Active : H (list Project) :=
  ps ← List_;
  mret (base.filter (λ p, p_State p ≠ DELETE_REQUESTED) ps).

(** *** Liens (tags.go) *)

(** Oldest first, then by name. *)
Definition lien_le (a b : Lien) : Prop :=
  let ta := default (-1)%Z (l_CreateTime a) in
  let tb := default (-1)%Z (l_CreateTime b) in
  (ta < tb)%Z ∨ (ta = tb ∧ String.le (l_Name a) (l_Name b)).
#[global] Instance lien_le_dec : RelDecision lien_le.
Proof. intros a b. unfold lien_le. apply _. Defined.

Definition liensOfLocked (id : string) : H (list Lien) :=
  keys ← db_List lienPrefix;
  ls ← collect (λ k, l ← attempt (getLien (TrimPrefix k lienPrefix));
                     match l with
                     | Err _ => mret None
                     | Ok l => n ← namesProject (l_Parent l) id; mret (if n : bool then Some l else None)
                     end) keys;
  mret (merge_sort lien_le ls).

Definition checkDeleteLiensLocked (id : string) : H unit :=
  liens ← liensOfLocked id;
  refuse (existsb (λ l, bool_decide (ProjectDeleteRestriction ∈ l_Restrictions l)) liens) FailedPrecondition.

Definition Delete (id : string) : H Project :=
  locked (
    p ← load id;
    refuse (bool_decide (p_State p = DELETE_REQUESTED)) FailedPrecondition ;;
    checkDeleteLiensLocked (p_ProjectID p) ;;
    t ← now;
    let p := set_p_State p DELETE_REQUESTED (RFC3339 t) in
    put_project p ;;
    mret p).

Definition Undelete (id : string) : H Project :=
  locked (
    p ← load id;
    refuse (negb (bool_decide (p_State p = DELETE_REQUESTED))) FailedPrecondition ;;
    let p := set_p_State p ACTIVE None in
    put_project p ;;
    mret p).

(** [Purge]: the record goes whatever the hooks answer. *)
Definition Purge (id : string) : H unit :=
  r ← locked (
    p ← load id;
    refuse (negb (bool_decide (p_State p = DELETE_REQUESTED))) FailedPrecondition ;;
    retireNumberLocked p ;;
    numbers_changed ;;
    ignore (db_Delete (key id)) ;;
    attempt (dropProjectStateLocked id));
  h ← runHooks id;
  match r, h with
  | Err err, _ => throw err
  | Ok _, Some err => throw err
  | Ok _, None => mret tt
  end.

Definition reset_prefixes : list string :=
  [iamPrefix; orgPolicyPrefix; folderOrgPolicyPrefix; orgOrgPolicyPrefix; lienPrefix; tagBindingPrefix; tagHoldPrefix; tagValuePrefix; tagKeyPrefix].

Definition ResetProjectState (project : string) : H unit :=
  locked (if negb (bool_decide (project = "")) then dropProjectStateLocked project else each deletePrefixLocked reset_prefixes).

(** ** Folders (hierarchy.go) *)

Definition loadFolder (name : string) : H Folder :=
  n ← lift (FolderName name);
  let id := TrimPrefix n "folders/" in
  f ← find (folderKey id) NotFound;
  t ← now;
  if expired (f_State f) (f_DeleteTime f) t then ignore (db_Delete (folderKey id)) ;; dropIAM n ;; throw NotFound else mret f.

Definition putFolder (f : Folder) : H unit := db_Put (folderKey (f_ID f)) (DFolder f).

Definition folders : H (list Folder) :=
  keys ← db_List folderPrefix;
  fs ← collect (λ k, f ← attempt (loadFolder (TrimPrefix k folderPrefix)); mret (match f with Ok f => Some f | Err _ => None end)) keys;
  mret (sort_by f_Name fs).

Definition Folders : H (list Folder) := locked folders.
Definition GetFolder (name : string) : H Folder := locked (loadFolder name).

(** The loop of [checkParentLocked]: it ends by itself after thirteen folders. *)
Fixpoint parent_depth (fuel : nat) (parent p : string) (depth : nat) : H nat :=
  if negb (HasPrefix p "folders/") then mret depth
  else match fuel with
       | O => throw ErrFuel
       | S fuel =>
           f ← loadFolder p;
           refuse (bool_decide (p = parent) && negb (bool_decide (f_State f = ACTIVE))) FailedPrecondition ;;
           refuse (MaxFolderDepth + 1 <? depth)%nat (Internal (Sentinel "too deep")) ;;
           parent_depth fuel parent (f_Parent f) (S depth)
       end.

Definition checkParentLocked (parent : string) : H nat :=
  if bool_decide (parent = OrganizationName) then mret 0
  else if HasPrefix parent "organizations/" then throw NotFound
  else if negb (HasPrefix parent "folders/") then throw InvalidArgument
  else parent_depth (MaxFolderDepth + 3) parent parent 0.

Definition CheckParent (parent : string) : H unit :=
  if bool_decide (parent = "") then mret tt else locked (checkParentLocked parent ;; mret tt).

(** [Create] and [Move] of a project. *)
Definition Create (p : Project) : H Project :=
  lift (ValidateProjectID (p_ProjectID p)) ;;
  CheckParent (p_Parent p) ;;
  register p.

Definition Move (id parent : string) : H Project :=
  locked (
    p ← load id;
    refuse (bool_decide (p_State p = DELETE_REQUESTED)) FailedPrecondition ;;
    refuse (bool_decide (parent = "")) InvalidArgument ;;
    checkParentLocked parent ;;
    let p := set_p_Parent p parent in
    put_project p ;;
    mret p).

(** How many active folders deep a subtree goes; [None] is deeper than the fuel. *)
Fixpoint subtreeDepth (fuel : nat) (all : list Folder) (name : string) : option nat :=
  match fuel with
  | O => None
  | S fuel =>
      ds ← mapM (λ f, subtreeDepth fuel all (f_Name f)) (base.filter (λ f, f_Parent f = name ∧ f_State f = ACTIVE) all);
      Some (foldr Nat.max 0 ds + 1)
  end.

(** Active folders are never more than thirteen deep (RmSpec.v). *)
Definition depth_fuel : nat := MaxFolderDepth + 4.

Definition checkSiblingName (all : list Folder) (parent display self : string) : res error unit :=
  if existsb (λ f, bool_decide (f_Parent f = parent) && bool_decide (f_State f = ACTIVE) &&
                   negb (bool_decide (f_Name f = self)) && bool_decide (f_DisplayName f = display)) all
  then Err FailedPrecondition else Ok tt.

(** The loop of draws until a number is not in use under a prefix. *)
Fixpoint free_id (prefix : string) (shape : string → string) (ds : list draw) : H string :=
  match ds with
  | [] => throw ErrDraws
  | d :: rest =>
      let id := shape (randomFolderNumber d) in
      r ← raw (prefix +:+ id);
      match r with None => mret id | Some _ => free_id prefix shape rest end
  end.

Section folder_names.
Context `{UNI : Unicode}.

Definition CreateFolder (parent display : string) : H Folder :=
  lift (ValidateFolderName display) ;;
  refuse (bool_decide (parent = "")) InvalidArgument ;;
  locked (
    depth ← checkParentLocked parent;
    refuse (MaxFolderDepth <? depth + 1)%nat FailedPrecondition ;;
    all ← folders;
    lift (checkSiblingName all parent display "") ;;
    ds ← ask draws;
    id ← free_id folderPrefix (λ n, n) ds;
    t ← now;
    let f := mkFolder ("folders/" +:+ id) parent display ACTIVE (RFC3339 t) (RFC3339 t) None [] "" in
    putFolder f ;;
    mret f).

Definition RenameFolder (name display : string) : H Folder :=
  lift (ValidateFolderName display) ;;
  locked (
    f ← loadFolder name;
    refuse (negb (bool_decide (f_State f = ACTIVE))) FailedPrecondition ;;
    all ← folders;
    lift (checkSiblingName all (f_Parent f) display (f_Name f)) ;;
    t ← now;
    let f := set_f_DisplayName f display (RFC3339 t) in
    putFolder f ;;
    mret f).

End folder_names.

(** The destination must not be the folder or below it. *)
Fixpoint not_below (fuel : nat) (name p : string) : H unit :=
  if negb (HasPrefix p "folders/") then mret tt
  else match fuel with
       | O => throw ErrFuel
       | S fuel =>
           refuse (bool_decide (p = name)) InvalidArgument ;;
           pf ← loadFolder p;
           not_below fuel name (f_Parent pf)
       end.

Definition MoveFolder (name parent : string) : H Folder :=
  locked (
    f ← loadFolder name;
    refuse (negb (bool_decide (f_State f = ACTIVE))) FailedPrecondition ;;
    depth ← checkParentLocked parent;
    not_below depth_fuel (f_Name f) parent ;;
    all ← folders;
    match subtreeDepth depth_fuel all (f_Name f) with
    | None => throw ErrFuel
    | Some d =>
        refuse (MaxFolderDepth <? depth + d)%nat FailedPrecondition ;;
        lift (checkSiblingName all parent (f_DisplayName f) (f_Name f)) ;;
        t ← now;
        let f := set_f_Parent f parent (RFC3339 t) in
        putFolder f ;;
        mret f
    end).

(** A project of the folder that is active. *)
Definition has_project (folder k : string) : H bool :=
  p ← attempt (load (TrimPrefix k keyPrefix));
  mret (match p with Ok p => bool_decide (p_Parent p = folder) && bool_decide (p_State p = ACTIVE) | Err _ => false end).

Definition DeleteFolder (name : string) : H Folder :=
  locked (
    f ← loadFolder name;
    refuse (negb (bool_decide (f_State f = ACTIVE))) FailedPrecondition ;;
    all ← folders;
    refuse (existsb (λ c, bool_decide (f_Parent c = f_Name f) && bool_decide (f_State c = ACTIVE)) all) FailedPrecondition ;;
    projects ← db_List keyPrefix;
    each (λ k, b ← has_project (f_Name f) k; refuse b FailedPrecondition) projects ;;
    t ← now;
    let f := set_f_State f DELETE_REQUESTED (RFC3339 t) (RFC3339 t) in
    putFolder f ;;
    mret f).

Definition UndeleteFolder (name : string) : H Folder :=
  locked (
    f ← loadFolder name;
    refuse (negb (bool_decide (f_State f = DELETE_REQUESTED))) FailedPrecondition ;;
    d ← attempt (checkParentLocked (f_Parent f));
    match d with
    | Err _ => throw FailedPrecondition
    | Ok _ =>
        all ← folders;
        lift (checkSiblingName all (f_Parent f) (f_DisplayName f) (f_Name f)) ;;
        t ← now;
        let f := set_f_State f ACTIVE None (RFC3339 t) in
        putFolder f ;;
        mret f
    end).

(** *** Ancestry *)

Inductive Ancestor := AProject (id : string) | AFolder (id : string) | AOrganization (id : string).

Fixpoint ancestors (turns : nat) (parent : string) : H (list Ancestor) :=
  match turns with
  | O => mret []
  | S turns =>
      if bool_decide (parent = "") then mret []
      else if bool_decide (parent = OrganizationName) then mret [AOrganization OrganizationNumber]
      else f ← loadFolder parent; rest ← ancestors turns (f_Parent f); mret (AFolder (f_ID f) :: rest)
  end.

Definition Ancestry (projectID : string) : H (list Ancestor) :=
  locked (
    p ← load projectID;
    rest ← ancestors (MaxFolderDepth + 2) (p_Parent p);
    mret (AProject (p_ProjectID p) :: rest)).

(** ** Capabilities (capabilities.go) *)

Definition appManagement : string := "app-management".
Definition folderCapabilities : list string := [appManagement].
Definition ManagementProjectID (folder : string) : string := "google-mp-" +:+ folder.
Definition capabilityName (folder capability : string) : string := "folders/" +:+ folder +:+ "/capabilities/" +:+ capability.
Definition checkCapability (capability : string) : res error unit :=
  if bool_decide (capability ∈ folderCapabilities) then Ok tt else Err InvalidArgument.

(** [FolderCapability] releases the lock without the hooks: it loads no project. *)
Definition FolderCapability (folder capability : string) : H (string * bool) :=
  lift (checkCapability capability) ;;
  f ← loadFolder ("folders/" +:+ folder);
  let name := capabilityName (f_ID f) capability in
  mret (name, bool_decide (name ∈ f_Capabilities f)).

Definition management_project (f : Folder) (name : string) : Project :=
  mkProject "" (ManagementProjectID (f_ID f)) "" ACTIVE None ∅ None (f_Name f) [name] 0.

Definition SetFolderCapability (folder capability : string) (value : bool) : H (string * bool) :=
  lift (checkCapability capability) ;;
  locked (
    f ← loadFolder ("folders/" +:+ folder);
    refuse (negb (bool_decide (f_State f = ACTIVE))) FailedPrecondition ;;
    let name := capabilityName (f_ID f) capability in
    let has := bool_decide (name ∈ f_Capabilities f) in
    if value && negb has then
      mp ← (if bool_decide (capability = appManagement) then
              p ← attempt (registerLocked (management_project f name));
              match p with Ok p => mret (p_Name p) | Err _ => throw FailedPrecondition end
            else mret (f_ManagementProject f));
      t ← now;
      putFolder (set_f_Capabilities f (sort_strings (f_Capabilities f ++ [name])) mp (RFC3339 t)) ;;
      mret (name, value)
    else if negb value && has then
      mp ← (if bool_decide (capability = appManagement) && negb (bool_decide (f_ManagementProject f = "")) then
              p ← attempt (load (TrimPrefix (f_ManagementProject f) "projects/"));
              match p with Ok p => purgeLocked p | Err _ => mret tt end ;;
              mret ""
            else mret (f_ManagementProject f));
      t ← now;
      putFolder (set_f_Capabilities f (base.filter (λ c, c ≠ name) (f_Capabilities f)) mp (RFC3339 t)) ;;
      mret (name, value)
    else mret (name, value)).

End registry.

Global Arguments Registry : clear implicits.
