(* ===== verification/RmTags.v ===== *)
(** * internal/service/resourcemanager: liens, tags, and policies

    tags.go, the policies of iam.go, and orgpolicy.go.  The encodings their etags
    digest (encoding/json, protobuf), SHA-256 and base64 are parameters. *)

From S2P Require Import Prelude GoLib ApiError Resource MetaStore IamPolicy Handler GoCrypto RmModel RmRegistry.
From Stdlib Require Import Ascii.

Import strings strconv time.

Class Encodings := {
  json_policy : OrgPolicy → string;
  proto_key : TagKey → string;
  proto_value : TagValue → string;
  sha256_Sum256 : string → string;
  base64_Encode : string → string;
  base64_Decode : string → option string;
  base64_URLDecode : string → option string
}.

(** [url.PathEscape] *)
Definition path_safe (a : ascii) : bool := is_alnum a || one_of ["-"; "_"; "."; "~"; "$"; "&"; "+"; "="; ":"; "@"]%char a.
Definition hex_digit (n : N) : ascii := ascii_of_N (if (n <? 10)%N then n + 48 else n + 55).
Fixpoint PathEscape (s : string) : string :=
  match s with
  | EmptyString => ""
  | String a s' =>
      if path_safe a then String a (PathEscape s')
      else String "%" (String (hex_digit (N_of_ascii a / 16)) (String (hex_digit (N_of_ascii a mod 16)) (PathEscape s')))
  end.

(** [strings.Trim] of quotes. *)
Definition is_quote (a : ascii) : bool := one_of [ascii_of_nat 34; "'"%char] a.
Fixpoint trim_quotes_left (s : string) : string :=
  match s with EmptyString => "" | String a s' => if is_quote a then trim_quotes_left s' else s end.
Fixpoint trim_quotes_right (s : string) : string :=
  match s with
  | EmptyString => ""
  | String a s' => match trim_quotes_right s' with EmptyString => if is_quote a then "" else String a "" | r => String a r end
  end.
Definition trim_quotes (s : string) : string := trim_quotes_right (trim_quotes_left s).

(** [queryTerms]: at blanks outside quotes. *)
Definition emit (cur : string) (rest : list string) : list string := if bool_decide (cur = "") then rest else cur :: rest.
Fixpoint terms_from (quote : option ascii) (cur s : string) : list string :=
  match s with
  | EmptyString => emit cur []
  | String c s' =>
      match quote with
      | Some q => terms_from (if bool_decide (c = q) then None else quote) (cur +:+ String c "") s'
      | None =>
          if is_quote c then terms_from (Some c) (cur +:+ String c "") s'
          else if one_of [" "; "009"]%char c then emit cur (terms_from None "" s')
          else terms_from None (cur +:+ String c "") s'
      end
  end.
Definition queryTerms (q : string) : list string := terms_from None "" q.

Section tags.
Context {D : Type} `{MSL : MetaStoreLaws D doc} `{CR : Crypto} `{ENC : Encodings}.

Abbreviation H := (M Env (Registry D)).

Definition policyEtag (raw : string) : string := base64_Encode (take_bytes 8 (sha256_Sum256 raw)).
Definition set_tk_Etag (k : TagKey) (etag : string) : TagKey :=
  mkTagKey (tk_name k) (tk_parent k) (tk_short_name k) (tk_namespaced_name k) (tk_description k) (tk_create_time k)
    (tk_update_time k) etag (tk_purpose k) (tk_purpose_data k).
Definition set_tv_Etag (v : TagValue) (etag : string) : TagValue :=
  mkTagValue (tv_name v) (tv_parent v) (tv_short_name v) (tv_namespaced_name v) (tv_description v) (tv_create_time v)
    (tv_update_time v) etag.
(** [protoEtag]: the digest of everything but the etag. *)
Definition key_etag (k : TagKey) : string := policyEtag (proto_key (set_tk_Etag k "")).
Definition value_etag (v : TagValue) : string := policyEtag (proto_value (set_tv_Etag v "")).

Definition nowTS : H (option Time) := t ← now; mret (RFC3339 t).

(** The first key under which a listed project has the number. *)
Fixpoint by_number (n : Z) (keys : list string) : H Project :=
  match keys with
  | [] => throw NotFound
  | k :: rest =>
      let pid := TrimPrefix k keyPrefix in
      m ← projectNumber pid;
      if (m =? n)%Z then load pid else by_number n rest
  end.

Definition resolveProjectLocked (name : string) : H Project :=
  match CutPrefix name "projects/" with
  | None => throw InvalidArgument
  | Some id =>
      if bool_decide (id = "") || negb (free_of "/"%char id) then throw InvalidArgument
      else match Atoi id with
           | Some n => keys ← db_List keyPrefix; by_number n keys
           | None => load id
           end
  end.

(** ** Liens *)

Definition lienIDPattern (id : string) : bool :=
  (1 <=? len id)%nat && (len id <=? 100)%nat && AllBytes (λ a, is_alnum a || one_of ["."; "_"; "-"]%char a) id.

Definition CreateLien (l : Lien) : H Lien :=
  refuse (bool_decide (l_Restrictions l = [])) InvalidArgument ;;
  refuse (existsb (λ r, free_of "."%char r) (l_Restrictions l)) InvalidArgument ;;
  refuse (bool_decide (l_Reason l = "") || (200 <? len (l_Reason l))%nat) InvalidArgument ;;
  refuse (bool_decide (l_Origin l = "") || (200 <? len (l_Origin l))%nat) InvalidArgument ;;
  locked (
    p ← resolveProjectLocked (l_Parent l);
    refuse (negb (bool_decide (p_State p = ACTIVE))) FailedPrecondition ;;
    ds ← ask draws;
    id ← free_id lienPrefix (λ n, "p" +:+ Itoa (numberOf p) +:+ "-l" +:+ n) ds;
    t ← now;
    let l := mkLien ("liens/" +:+ id) (l_Parent l) (l_Restrictions l) (l_Reason l) (l_Origin l) (RFC3339 t) in
    db_Put (lienPrefix +:+ id) (DLien l) ;;
    mret l).

Definition lienID (name : string) : res error string :=
  let id := TrimPrefix name "liens/" in
  if lienIDPattern id then Ok id else Err InvalidArgument.

Definition GetLien (name : string) : H Lien := id ← lift (lienID name); locked (getLien id).

Definition Liens (parent : string) : H (list Lien) :=
  locked (p ← resolveProjectLocked parent; liensOfLocked (p_ProjectID p)).

Definition DeleteLien (name : string) : H unit :=
  id ← lift (lienID name);
  locked (getLien id ;; db_Delete (lienPrefix +:+ id)).

(** ** Tag keys *)

Definition short_rune (a : ascii) : bool := is_alnum a || one_of ["."; "_"; "-"]%char a.
Definition tagShortNamePattern (s : string) : bool :=
  match s with
  | EmptyString => false
  | String a rest =>
      is_alnum a && AllBytes short_rune rest && (len rest <=? 255)%nat &&
      match last (String.list_ascii_of_string rest) with Some z => is_alnum z | None => true end
  end.
Definition validateShortName (s : string) : res error unit := if tagShortNamePattern s then Ok tt else Err InvalidArgument.
Definition validateDescription (s : string) : res error unit := if (256 <? len s)%nat then Err InvalidArgument else Ok tt.

Definition tagNamespaceLocked (parent : string) : H string :=
  if bool_decide (parent = "") then throw InvalidArgument
  else if HasPrefix parent "organizations/" then lift (checkOrg parent) ;; mret OrganizationNumber
  else if HasPrefix parent "projects/" then
    p ← resolveProjectLocked parent;
    refuse (negb (bool_decide (p_State p = ACTIVE))) FailedPrecondition ;;
    mret (p_ProjectID p)
  else throw InvalidArgument.

Definition newID (prefix : string) : H string := ds ← ask draws; free_id prefix (λ n, n) ds.

Definition GCE_FIREWALL : Z := 1.

Definition CreateTagKey (req : option TagKey) (validateOnly : bool) : H TagKey :=
  match req with
  | None => throw InvalidArgument
  | Some req =>
      lift (validateShortName (tk_short_name req)) ;;
      lift (validateDescription (tk_description req)) ;;
      refuse ((tk_purpose req =? GCE_FIREWALL)%Z && bool_decide (default "" (tk_purpose_data req !! "network") = "")) InvalidArgument ;;
      locked (
        ns ← tagNamespaceLocked (tk_parent req);
        let namespaced := ns +:+ "/" +:+ tk_short_name req in
        keys ← listProtos (T := TagKey) tagKeyPrefix;
        refuse (existsb (λ k, bool_decide (tk_namespaced_name k = namespaced)) keys) AlreadyExists ;;
        id ← newID tagKeyPrefix;
        t ← nowTS;
        let k := mkTagKey ("tagKeys/" +:+ id) (tk_parent req) (tk_short_name req) namespaced (tk_description req) t t ""
                   (tk_purpose req) (tk_purpose_data req) in
        let k := set_tk_Etag k (key_etag k) in
        when (negb validateOnly) (db_Put (tagKeyPrefix +:+ id) (DTagKey k)) ;;
        mret k)
  end.

Definition tagKeyLocked (name : string) : H (TagKey * string) :=
  id ← lift (numericID "tagKeys/" name);
  k ← attempt (find (tagKeyPrefix +:+ id) NotFound);
  match k with Ok k => mret (k, id) | Err _ => throw NotFound end.

Definition GetTagKey (name : string) : H TagKey := locked (k ← tagKeyLocked name; mret k.1).
Definition AllTagKeys : H (list TagKey) := locked (listProtos tagKeyPrefix).

Definition TagKeys (parent : string) : H (list TagKey) :=
  locked (
    ns ← tagNamespaceLocked parent;
    all ← listProtos tagKeyPrefix;
    mret (base.filter (λ k, HasPrefix (tk_namespaced_name k) (ns +:+ "/") = true) all)).

Definition NamespacedTagKey (namespaced : string) : H TagKey :=
  all ← AllTagKeys;
  match base.filter (λ k, tk_namespaced_name k = namespaced) all with k :: _ => mret k | [] => throw NotFound end.

Definition checkEtag (given cur : string) : res error unit :=
  if negb (bool_decide (given = "")) && negb (bool_decide (given = cur)) then Err Aborted else Ok tt.

Definition only_description (paths : list string) : bool := forallb (λ p, bool_decide (p = "description")) paths.

Definition UpdateTagKey (req : option TagKey) (paths : list string) (validateOnly : bool) : H TagKey :=
  match req with
  | None => throw InvalidArgument
  | Some req =>
      refuse (negb (only_description paths)) InvalidArgument ;;
      lift (validateDescription (tk_description req)) ;;
      locked (
        '(k, id) ← tagKeyLocked (tk_name req);
        lift (checkEtag (tk_etag req) (tk_etag k)) ;;
        t ← nowTS;
        let k := mkTagKey (tk_name k) (tk_parent k) (tk_short_name k) (tk_namespaced_name k) (tk_description req)
                   (tk_create_time k) t (tk_etag k) (tk_purpose k) (tk_purpose_data k) in
        let k := set_tk_Etag k (key_etag k) in
        when (negb validateOnly) (db_Put (tagKeyPrefix +:+ id) (DTagKey k)) ;;
        mret k)
  end.

Definition DeleteTagKey (name etag : string) (validateOnly : bool) : H TagKey :=
  locked (
    '(k, id) ← tagKeyLocked name;
    lift (checkEtag etag (tk_etag k)) ;;
    values ← listProtos (T := TagValue) tagValuePrefix;
    refuse (existsb (λ v, bool_decide (tv_parent v = tk_name k)) values) FailedPrecondition ;;
    when (negb validateOnly) (db_Delete (tagKeyPrefix +:+ id) ;; dropIAM (tk_name k)) ;;
    mret k).

(** ** Tag values *)

Definition CreateTagValue (req : option TagValue) (validateOnly : bool) : H TagValue :=
  match req with
  | None => throw InvalidArgument
  | Some req =>
      lift (validateShortName (tv_short_name req)) ;;
      lift (validateDescription (tv_description req)) ;;
      locked (
        '(k, _) ← tagKeyLocked (tv_parent req);
        let namespaced := tk_namespaced_name k +:+ "/" +:+ tv_short_name req in
        values ← listProtos (T := TagValue) tagValuePrefix;
        refuse (existsb (λ v, bool_decide (tv_namespaced_name v = namespaced)) values) AlreadyExists ;;
        id ← newID tagValuePrefix;
        t ← nowTS;
        let v := mkTagValue ("tagValues/" +:+ id) (tk_name k) (tv_short_name req) namespaced (tv_description req) t t "" in
        let v := set_tv_Etag v (value_etag v) in
        when (negb validateOnly) (db_Put (tagValuePrefix +:+ id) (DTagValue v)) ;;
        mret v)
  end.

Definition tagValueLocked (name : string) : H (TagValue * string) :=
  id ← lift (numericID "tagValues/" name);
  v ← attempt (find (tagValuePrefix +:+ id) NotFound);
  match v with Ok v => mret (v, id) | Err _ => throw NotFound end.

Definition GetTagValue (name : string) : H TagValue := locked (v ← tagValueLocked name; mret v.1).

Definition TagValues (parent : string) : H (list TagValue) :=
  locked (
    tagKeyLocked parent ;;
    all ← listProtos tagValuePrefix;
    mret (base.filter (λ v, tv_parent v = parent) all)).

Definition namespacedTagValueLocked (namespaced : string) : H TagValue :=
  all ← listProtos tagValuePrefix;
  match base.filter (λ v, tv_namespaced_name v = namespaced) all with v :: _ => mret v | [] => throw NotFound end.

Definition NamespacedTagValue (namespaced : string) : H TagValue := locked (namespacedTagValueLocked namespaced).

Definition UpdateTagValue (req : option TagValue) (paths : list string) (validateOnly : bool) : H TagValue :=
  match req with
  | None => throw InvalidArgument
  | Some req =>
      refuse (negb (only_description paths)) InvalidArgument ;;
      lift (validateDescription (tv_description req)) ;;
      locked (
        '(v, id) ← tagValueLocked (tv_name req);
        lift (checkEtag (tv_etag req) (tv_etag v)) ;;
        t ← nowTS;
        let v := mkTagValue (tv_name v) (tv_parent v) (tv_short_name v) (tv_namespaced_name v) (tv_description req)
                   (tv_create_time v) t (tv_etag v) in
        let v := set_tv_Etag v (value_etag v) in
        when (negb validateOnly) (db_Put (tagValuePrefix +:+ id) (DTagValue v)) ;;
        mret v)
  end.

Definition DeleteTagValue (name etag : string) (validateOnly : bool) : H TagValue :=
  locked (
    '(v, id) ← tagValueLocked name;
    lift (checkEtag etag (tv_etag v)) ;;
    bindings ← listProtos (T := TagBinding) tagBindingPrefix;
    refuse (existsb (λ b, bool_decide (tb_tag_value b = tv_name v)) bindings) FailedPrecondition ;;
    holds ← db_List (tagHoldPrefix +:+ id +:+ "/");
    refuse (0 <? length holds)%nat FailedPrecondition ;;
    when (negb validateOnly) (db_Delete (tagValuePrefix +:+ id) ;; dropIAM (tv_name v)) ;;
    mret v).

(** ** Tag bindings *)

(** [V3Name], with the registry installed as the resolver of project numbers. *)
Definition V3Name (id : string) : H string := n ← projectNumber id; mret ("projects/" +:+ Itoa n).

Definition canonicalTargetLocked (parent : string) : H string :=
  if negb (HasPrefix parent "//") || free_of "/"%char (TrimPrefix parent "//") then throw InvalidArgument
  else match CutPrefix parent CRMPrefix with
       | None => mret parent
       | Some rest =>
           if HasPrefix rest "projects/" then
             p ← resolveProjectLocked rest; n ← V3Name (p_ProjectID p); mret (CRMPrefix +:+ n)
           else if HasPrefix rest "folders/" then f ← loadFolder rest; mret (CRMPrefix +:+ f_Name f)
           else if HasPrefix rest "organizations/" then lift (checkOrg rest) ;; mret (CRMPrefix +:+ rest)
           else throw InvalidArgument
       end.

Definition owningProjectLocked (target : string) : H (option Project) :=
  match CutString (TrimPrefix target "//") "/projects/" with
  | None => mret None
  | Some (_, rest) =>
      let id := (Cut rest "/"%char).1.1 in
      if bool_decide (id = "") || bool_decide (id = "_") then mret None
      else p ← attempt (resolveProjectLocked ("projects/" +:+ id)); mret (match p with Ok p => Some p | Err _ => None end)
  end.

Definition TagBindingName (parent value : string) : string := "tagBindings/" +:+ PathEscape parent +:+ "/" +:+ value.
Definition bindingKey (target value : string) : string :=
  tagBindingPrefix +:+ take_bytes 32 (sha256_hex (target +:+ String "000" value)).

(** [rest[:i], rest[i+1:]] at the last occurrence [i] of the separator. *)
Fixpoint CutLast (s sub : string) : option (string * string) :=
  match s with
  | EmptyString => None
  | String a s' =>
      match CutLast s' sub with
      | Some (x, y) => Some (String a x, y)
      | None => if HasPrefix s sub then Some ("", s') else None
      end
  end.

Fixpoint unescape (turns : nat) (parent : string) : string :=
  match turns with
  | O => parent
  | S turns =>
      if free_of "%"%char parent then parent
      else match url.PathUnescape parent with None => parent | Some u => unescape turns u end
  end.

Definition ParseTagBindingName (name : string) : res error (string * string) :=
  match CutPrefix name "tagBindings/" with
  | None => Err InvalidArgument
  | Some rest =>
      match CutLast rest "/tagValues/" with
      | Some (String a x, value) => Ok (unescape 3 (String a x), value)
      | _ => Err InvalidArgument
      end
  end.

(** The check of one binding of the target against the new value. *)
Definition check_binding (target : string) (v : TagValue) (b : TagBinding) : H unit :=
  bt ← attempt (canonicalTargetLocked (tb_parent b));
  match bt with
  | Err _ => mret tt
  | Ok bt =>
      if negb (bool_decide (bt = target)) then mret tt
      else
        refuse (bool_decide (tb_tag_value b = tv_name v)) AlreadyExists ;;
        bv ← attempt (tagValueLocked (tb_tag_value b));
        match bv with
        | Err _ => mret tt
        | Ok (bv, _) => refuse (bool_decide (tv_parent bv = tv_parent v)) FailedPrecondition
        end
  end.

Definition CreateTagBinding (req : option TagBinding) (validateOnly : bool) : H TagBinding :=
  match req with
  | None => throw InvalidArgument
  | Some req =>
      locked (
        target ← canonicalTargetLocked (tb_parent req);
        v ← (if negb (bool_decide (tb_tag_value req = "")) then v ← tagValueLocked (tb_tag_value req); mret v.1
             else if negb (bool_decide (tb_namespaced_name req = "")) then namespacedTagValueLocked (tb_namespaced_name req)
             else throw InvalidArgument);
        all ← listProtos (T := TagBinding) tagBindingPrefix;
        each (check_binding target v) all ;;
        let b := mkTagBinding (TagBindingName (tb_parent req) (tv_name v)) (tb_parent req) (tv_name v) (tv_namespaced_name v) in
        when (negb validateOnly) (db_Put (bindingKey target (tv_name v)) (DTagBinding b)) ;;
        mret b)
  end.

Definition bindingsOnLocked (target : string) : H (list TagBinding) :=
  all ← listProtos (T := TagBinding) tagBindingPrefix;
  bs ← collect (λ b, bt ← attempt (canonicalTargetLocked (tb_parent b));
                     mret (match bt with Ok bt => if bool_decide (bt = target) then Some b else None | Err _ => None end)) all;
  mret (sort_by tb_namespaced_name bs).

Definition TagBindings (parent : string) : H (list TagBinding) :=
  locked (target ← canonicalTargetLocked parent; bindingsOnLocked target).

Definition DeleteTagBinding (name : string) : H unit :=
  '(parent, value) ← lift (ParseTagBindingName name);
  locked (
    target ← attempt (canonicalTargetLocked parent);
    match target with
    | Err _ => throw NotFound
    | Ok target =>
        b ← raw (bindingKey target value);
        match b with None => throw NotFound | Some _ => db_Delete (bindingKey target value) end
    end).

(** *** Effective tags *)

Record EffectiveTag := mkEffectiveTag {
  et_tag_value : string;
  et_namespaced_tag_value : string;
  et_tag_key : string;
  et_namespaced_tag_key : string;
  et_tag_key_parent_name : string;
  et_inherited : bool
}.

(** What is above [next]; at most twelve turns. *)
Fixpoint chain_above (turns : nat) (next : string) : H (list string) :=
  match turns with
  | O => mret []
  | S turns =>
      if bool_decide (next = "") then mret []
      else if negb (HasPrefix next "folders/") then mret [CRMPrefix +:+ next]
      else f ← loadFolder next; rest ← chain_above turns (f_Parent f); mret ((CRMPrefix +:+ next) :: rest)
  end.

Definition tag_chain (target : string) : H (list string) :=
  '(own, next) ← match CutPrefix target CRMPrefix with
                 | Some rest =>
                     if HasPrefix rest "projects/" then p ← resolveProjectLocked rest; mret ([], p_Parent p)
                     else if HasPrefix rest "folders/" then f ← loadFolder rest; mret ([], f_Parent f)
                     else mret ([], "")
                 | None =>
                     p ← owningProjectLocked target;
                     match p with
                     | Some p => n ← V3Name (p_ProjectID p); mret ([CRMPrefix +:+ n], p_Parent p)
                     | None => mret ([], "")
                     end
                 end;
  above ← chain_above (MaxFolderDepth + 2) next;
  mret (target :: own ++ above).

(** The tags of one resource of the chain that no nearer one gave a value of. *)
Fixpoint tags_on (inherited : bool) (seen : list string) (bs : list TagBinding) : H (list string * list EffectiveTag) :=
  match bs with
  | [] => mret (seen, [])
  | b :: rest =>
      v ← attempt (tagValueLocked (tb_tag_value b));
      match v with
      | Err _ => tags_on inherited seen rest
      | Ok (v, _) =>
          if bool_decide (tv_parent v ∈ seen) then tags_on inherited seen rest
          else
            k ← attempt (tagKeyLocked (tv_parent v));
            '(seen', more) ← tags_on inherited (tv_parent v :: seen) rest;
            mret (seen', match k with
                         | Err _ => more
                         | Ok (k, _) => mkEffectiveTag (tv_name v) (tv_namespaced_name v) (tk_name k) (tk_namespaced_name k)
                                          (tk_parent k) inherited :: more
                         end)
      end
  end.

Fixpoint tags_along (inherited : bool) (seen : list string) (chain : list string) : H (list EffectiveTag) :=
  match chain with
  | [] => mret []
  | r :: rest =>
      bs ← bindingsOnLocked r;
      '(seen', tags) ← tags_on inherited seen bs;
      more ← tags_along true seen' rest;
      mret (tags ++ more)
  end.

Definition EffectiveTags (parent : string) : H (list EffectiveTag) :=
  locked (
    target ← canonicalTargetLocked parent;
    chain ← tag_chain target;
    tags_along false [] chain).

(** ** Tag holds *)

Definition CreateTagHold (parent : string) (req : option TagHold) (validateOnly : bool) : H TagHold :=
  match req with
  | None => throw InvalidArgument
  | Some req =>
      refuse (bool_decide (th_holder req = "")) InvalidArgument ;;
      refuse ((200 <? len (th_holder req))%nat || (200 <? len (th_origin req))%nat) InvalidArgument ;;
      locked (
        '(_, vid) ← tagValueLocked parent;
        hid ← newID (tagHoldPrefix +:+ vid +:+ "/");
        t ← nowTS;
        let h := mkTagHold (parent +:+ "/tagHolds/" +:+ hid) (th_holder req) (th_origin req) (th_help_link req) t in
        when (negb validateOnly) (db_Put (tagHoldPrefix +:+ vid +:+ "/" +:+ hid) (DTagHold h)) ;;
        mret h)
  end.

Fixpoint hold_terms (terms : list string) : res error (list (TagHold → bool)) :=
  match terms with
  | [] => Ok []
  | term :: rest =>
      if bool_decide (term = "AND") then hold_terms rest
      else let '(k, v, ok) := Cut term "="%char in
           if negb ok then Err InvalidArgument
           else let val := trim_quotes (TrimSpace v) in
                let field := TrimSpace k in
                p ← (if bool_decide (field = "holder") then Ok (λ h, bool_decide (th_holder h = val))
                     else if bool_decide (field = "origin") then Ok (λ h, bool_decide (th_origin h = val))
                     else Err InvalidArgument);
                ps ← hold_terms rest;
                Ok (p :: ps)
  end.

Definition TagHolds (parent filter : string) : H (list TagHold) :=
  preds ← lift (hold_terms (queryTerms filter));
  locked (
    '(_, vid) ← tagValueLocked parent;
    all ← listProtos (tagHoldPrefix +:+ vid +:+ "/");
    mret (base.filter (λ h, forallb (λ p : TagHold → bool, p h) preds = true) all)).

Definition DeleteTagHold (name : string) : H unit :=
  match CutString name "/tagHolds/" with
  | None => throw InvalidArgument
  | Some (parent, hid) =>
      vid ← lift (numericID "tagValues/" parent);
      refuse (negb (ParseUint_ok hid)) InvalidArgument ;;
      let k := tagHoldPrefix +:+ vid +:+ "/" +:+ hid in
      locked (
        h ← raw k;
        match h with None => throw NotFound | Some _ => db_Delete k end)
  end.

(** ** IAM policies (iam.go) *)

Definition iamTargetLocked (resource : string) : H bool :=
  if HasPrefix resource "projects/" then
    p ← load (TrimPrefix resource "projects/"); mret (bool_decide (p_State p = DELETE_REQUESTED))
  else if HasPrefix resource "folders/" then f ← loadFolder resource; mret (bool_decide (f_State f = DELETE_REQUESTED))
  else if HasPrefix resource "tagKeys/" then tagKeyLocked resource ;; mret false
  else if HasPrefix resource "tagValues/" then tagValueLocked resource ;; mret false
  else lift (checkOrg resource) ;; mret false.

Definition isTag (resource : string) : bool := HasPrefix resource "tagKeys/" || HasPrefix resource "tagValues/".

Definition loadIAMLocked (resource : string) : H (option IamPolicy.Stored) :=
  d ← raw (iamKey resource);
  match d with
  | None => mret None
  | Some d => match of_doc d with Some s => mret (Some s) | None => throw (Internal ErrDecode) end
  end.

Definition IAMPolicy (resource : string) : H (option IamPolicy.Stored) :=
  locked (iamTargetLocked resource ;; loadIAMLocked resource).

Definition SetIAMPolicy (resource : string) (req : iampb.SetIamPolicyRequest) : H iampb.Policy :=
  locked (
    deleting ← iamTargetLocked resource;
    refuse deleting FailedPrecondition ;;
    current ← loadIAMLocked resource;
    rnd ← ask iam_etag;
    next ← lift ((if isTag resource then IamPolicy.Set_ else IamPolicy.SetWithAuditConfigs) current req rnd);
    db_Put (iamKey resource) (DIam next) ;;
    mret (IamPolicy.Proto (Some next))).

Definition ResetIAM (project : string) : H unit :=
  locked (
    if negb (bool_decide (project = "")) then ignore (db_Delete (iamKey ("projects/" +:+ project)))
    else deletePrefixLocked iamPrefix).

(** ** Organization policies (orgpolicy.go) *)

Definition bool_constraints : list string :=
  (λ c, "constraints/" +:+ c) <$> ["compute.disableSerialPortAccess"; "compute.requireOsLogin"; "compute.skipDefaultNetworkCreation";
   "iam.disableServiceAccountKeyCreation"; "sql.restrictPublicIp"; "storage.publicAccessPrevention"; "storage.uniformBucketLevelAccess"].
Definition list_constraints : list string :=
  (λ c, "constraints/" +:+ c) <$> ["compute.vmExternalIpAccess"; "gcp.resourceLocations"; "iam.allowedPolicyMemberDomains"; "run.allowedIngress"].

Definition checkConstraint (name : string) : res error unit :=
  match CutPrefix name "constraints/" with
  | None => Err InvalidArgument
  | Some c => if bool_decide (c = "") || negb (free_of "/"%char c && free_of " "%char c) then Err InvalidArgument else Ok tt
  end.

Definition policyResource (resource : string) : string := if free_of "/"%char resource then "projects/" +:+ resource else resource.

Definition orgPolicyScope (resource : string) : res error string :=
  if HasPrefix resource "projects/" then Ok (orgPolicyPrefix +:+ TrimPrefix resource "projects/" +:+ "/")
  else if HasPrefix resource "folders/" then Ok (folderOrgPolicyPrefix +:+ TrimPrefix resource "folders/" +:+ "/")
  else if HasPrefix resource "organizations/" then Ok (orgOrgPolicyPrefix +:+ TrimPrefix resource "organizations/" +:+ "/")
  else Err InvalidArgument.

Definition checkPolicyResource (resource : string) : H unit :=
  if HasPrefix resource "projects/" then load (TrimPrefix resource "projects/") ;; mret tt
  else if HasPrefix resource "folders/" then loadFolder resource ;; mret tt
  else if HasPrefix resource "organizations/" then lift (checkOrg resource)
  else lift (orgPolicyScope resource) ;; mret tt.

Definition sameEtag (given cur : string) : bool :=
  if bool_decide (given = cur) then true
  else match base64_URLDecode (ReplaceAll (ReplaceAll given "+" "-") "/" "_"), base64_Decode cur with
       | Some a, Some b => bool_decide (a = b)
       | _, _ => false
       end.

(** [stored]: a missing record is no policy, any other failure an error. *)
Definition get_policy (k : string) : H (option OrgPolicy) := λ _ s,
  (s, match st_Get (db s) k with
      | Err err => if errors_Is err "key not found" then Ok None else Err (Internal err)
      | Ok d => match of_doc d with Some p => Ok (Some p) | None => Err (Internal ErrDecode) end
      end).

Definition stored (resource constraint : string) : H (option OrgPolicy) :=
  scope ← lift (orgPolicyScope resource);
  get_policy (scope +:+ TrimPrefix constraint "constraints/").

Definition orgPolicy (resource constraint : string) : H OrgPolicy :=
  p ← stored resource constraint;
  mret (match p with Some p => p | None => mkOrgPolicy constraint 0 None None false (policyEtag constraint) None end).

Definition GetOrgPolicy (resource constraint : string) : H OrgPolicy :=
  let resource := policyResource resource in
  lift (checkConstraint constraint) ;;
  locked (checkPolicyResource resource ;; orgPolicy resource constraint).

Definition set_op (p : OrgPolicy) (version : Z) (etag : string) (t : option Time) : OrgPolicy :=
  mkOrgPolicy (op_Constraint p) version (op_BooleanPolicy p) (op_ListPolicy p) (op_RestoreDefault p) etag t.

(** Whether the policy is of a kind its constraint takes. *)
Definition check_policy (p : OrgPolicy) : res error unit :=
  match checkConstraint (op_Constraint p), op_BooleanPolicy p, op_ListPolicy p with
  | Err err, _, _ => Err err
  | Ok _, Some _, Some _ => Err InvalidArgument
  | Ok _, b, l =>
      if bool_decide (op_Constraint p ∈ bool_constraints) && match l with Some _ => true | None => false end then Err InvalidArgument
      else if bool_decide (op_Constraint p ∈ list_constraints) && match b with Some _ => true | None => false end then Err InvalidArgument
      else match l with
           | Some l => if negb (bool_decide (lp_AllValues l = "")) &&
                          (negb (bool_decide (lp_AllowedValues l = [])) || negb (bool_decide (lp_DeniedValues l = [])))
                       then Err InvalidArgument else Ok tt
           | None => Ok tt
           end
  end.

(** The time of an update, in whole microseconds. *)
Definition micros (t : Time) : option Time := Some (t / 1000 * 1000)%Z.

Definition SetOrgPolicy (resource : string) (req : option OrgPolicy) : H OrgPolicy :=
  let resource := policyResource resource in
  match req with
  | None => throw InvalidArgument
  | Some p =>
      lift (check_policy p) ;;
      scope ← lift (orgPolicyScope resource);
      locked (
        checkPolicyResource resource ;;
        cur ← orgPolicy resource (op_Constraint p);
        refuse (negb (bool_decide (op_Etag p = "")) && negb (sameEtag (op_Etag p) (op_Etag cur))) Aborted ;;
        t ← now;
        let out := set_op p (if (op_Version p =? 0)%Z then 1 else op_Version p) "" (micros t) in
        let out := set_op out (op_Version out) (policyEtag (json_policy out)) (op_UpdateTime out) in
        db_Put (scope +:+ TrimPrefix (op_Constraint p) "constraints/") (DOrgPolicy out) ;;
        mret out)
  end.

Definition ClearOrgPolicy (resource constraint etag : string) : H unit :=
  let resource := policyResource resource in
  lift (checkConstraint constraint) ;;
  scope ← lift (orgPolicyScope resource);
  locked (
    checkPolicyResource resource ;;
    cur ← orgPolicy resource constraint;
    refuse (negb (bool_decide (etag = "")) && negb (sameEtag etag (op_Etag cur))) Aborted ;;
    db_Delete (scope +:+ TrimPrefix constraint "constraints/")).

Definition OrgPolicies (resource : string) : H (list OrgPolicy) :=
  let resource := policyResource resource in
  scope ← lift (orgPolicyScope resource);
  locked (
    checkPolicyResource resource ;;
    keys ← db_List scope;
    collect (λ k, p ← orgPolicy resource ("constraints/" +:+ TrimPrefix k scope); mret (Some p)) (sort_strings keys)).

(** What is above [parent], the organization first. *)
Fixpoint policies_above (turns : nat) (parent : string) (chain : list string) : H (list string) :=
  match turns with
  | O => mret chain
  | S turns =>
      if bool_decide (parent = "") then mret chain
      else if negb (HasPrefix parent "folders/") then mret (parent :: chain)
      else f ← loadFolder parent; policies_above turns (f_Parent f) (parent :: chain)
  end.

Definition policyChain (resource : string) : H (list string) :=
  parent ← (if HasPrefix resource "projects/" then p ← load (TrimPrefix resource "projects/"); mret (p_Parent p)
            else if HasPrefix resource "folders/" then f ← loadFolder resource; mret (f_Parent f)
            else checkPolicyResource resource ;; mret "");
  policies_above (MaxFolderDepth + 2) parent [resource].

Definition union_ (a b : list string) : list string :=
  foldl (λ out v, if bool_decide (v ∈ out) then out else out ++ [v]) [] (a ++ b).

Definition mergePolicy (above : option OrgPolicy) (p : OrgPolicy) : OrgPolicy :=
  match op_ListPolicy p, above ≫= op_ListPolicy with
  | Some lp, Some al =>
      if negb (lp_InheritFromParent lp) then p
      else
        let suggested := if bool_decide (lp_SuggestedValue lp = "") then lp_SuggestedValue al else lp_SuggestedValue lp in
        let out :=
          if negb (bool_decide (lp_AllValues lp = "")) then mkListPolicy (lp_AllValues lp) [] [] false suggested
          else if bool_decide (lp_AllValues al = "ALLOW") then
            mkListPolicy (if bool_decide (lp_DeniedValues lp = []) then "ALLOW" else "") [] (lp_DeniedValues lp) false suggested
          else if bool_decide (lp_AllValues al = "DENY") then
            mkListPolicy (if bool_decide (lp_AllowedValues lp = []) then "DENY" else "") (lp_AllowedValues lp) [] false suggested
          else mkListPolicy "" (union_ (lp_AllowedValues al) (lp_AllowedValues lp)) (union_ (lp_DeniedValues al) (lp_DeniedValues lp)) false suggested in
        mkOrgPolicy (op_Constraint p) 0 None (Some out) false "" (op_UpdateTime p)
  | _, _ => p
  end.

(** A policy that says something. *)
Definition says (p : OrgPolicy) : bool :=
  match op_BooleanPolicy p, op_ListPolicy p with None, None => op_RestoreDefault p | _, _ => true end.

Fixpoint effective_along (constraint : string) (eff : option OrgPolicy) (chain : list string) : H (option OrgPolicy) :=
  match chain with
  | [] => mret eff
  | r :: rest =>
      p ← stored r constraint;
      effective_along constraint
        (match p with Some p => if says p then Some (mergePolicy eff p) else eff | None => eff end) rest
  end.

Definition EffectiveOrgPolicy (resource constraint : string) : H OrgPolicy :=
  let resource := policyResource resource in
  lift (checkConstraint constraint) ;;
  lift (orgPolicyScope resource) ;;
  locked (
    chain ← policyChain resource;
    eff ← effective_along constraint None chain;
    mret (match eff with
          | Some p => mkOrgPolicy constraint 1 (op_BooleanPolicy p) (op_ListPolicy p) (op_RestoreDefault p) "" (op_UpdateTime p)
          | None => mkOrgPolicy constraint 1 None None false "" None
          end)).

End tags.
