(* ===== verification/RmInv.v ===== *)
(** * Resource Manager: what is stored, and what may be written

    [Inv]: every project and folder is under its own key, the active folders form
    a tree under the organization, siblings have distinct names, and project
    numbers are distinct and not retired.  [write] is one change of the store, and
    keeps [Inv]; everything that is neither a project, a folder nor a retired
    number is [inert]. *)

From S2P Require Import Prelude GoLib ApiError Resource MetaStore IamPolicy Handler RmModel RmRegistry.
From Stdlib Require Import Ascii.

Import strings strconv time.

Abbreviation contents_ := (gmap string doc).

(** ** Keys *)

Lemma diverges p q a b : HasPrefix p q = false → HasPrefix q p = false → p +:+ a ≠ q +:+ b.
Proof.
  revert q. induction p as [|x p IH]; intros [|y q]; cbn; try done. destruct (decide (y = x)) as [->|Hn].
  - rewrite decide_True by done. intros H1 H2 [=]. by eapply IH.
  - intros _ _ [=]. congruence.
Qed.

Lemma HasPrefix_diverges p q a : HasPrefix p q = false → HasPrefix q p = false → HasPrefix (p +:+ a) q = false.
Proof.
  intros H1 H2. destruct (HasPrefix (p +:+ a) q) eqn:Hp; [|done]. apply HasPrefix_spec in Hp as [b Hb]. exfalso. by eapply diverges.
Qed.

Lemma app_inj_l (p a b : string) : p +:+ a = p +:+ b → a = b.
Proof. induction p as [|x p IH]; [done|]. intros [=]. auto. Qed.

Lemma project_key_inj a b : key a = key b → a = b.
Proof. apply app_inj_l. Qed.
Lemma folderKey_inj a b : folderKey a = folderKey b → a = b.
Proof. apply app_inj_l. Qed.

Definition retiredKey (n : Z) : string := retiredNumberPrefix +:+ Itoa n.
Lemma retiredKey_inj a b : retiredKey a = retiredKey b → a = b.
Proof. intros H%app_inj_l. by apply Itoa_inj. Qed.

Lemma key_folderKey a b : key a ≠ folderKey b.
Proof. by apply diverges. Qed.
Lemma key_retiredKey a b : key a ≠ retiredKey b.
Proof. by apply diverges. Qed.
Lemma folderKey_retiredKey a b : folderKey a ≠ retiredKey b.
Proof. by apply diverges. Qed.

(** The keys [Inv] speaks of. *)
Definition core (k : string) : bool := HasPrefix k keyPrefix || HasPrefix k folderPrefix || HasPrefix k retiredNumberPrefix.

Lemma core_key id : core (key id) = true.
Proof. unfold core, key. by rewrite HasPrefix_app. Qed.
Lemma core_folderKey id : core (folderKey id) = true.
Proof. unfold core, folderKey. by rewrite HasPrefix_app, orb_true_r. Qed.
Lemma core_retiredKey n : core (retiredKey n) = true.
Proof. unfold core, retiredKey. by rewrite HasPrefix_app, orb_true_r. Qed.

(** The prefixes of everything else. *)
Definition outer (p : string) : bool :=
  forallb (λ q, negb (HasPrefix p q) && negb (HasPrefix q p)) [keyPrefix; folderPrefix; retiredNumberPrefix].
Lemma outer_core p a : outer p = true → core (p +:+ a) = false.
Proof.
  unfold outer, core. cbn [forallb]. intros H. apply andb_true_iff in H as [H1 H]. apply andb_true_iff in H as [H2 H].
  apply andb_true_iff in H as [H3 _]. apply andb_true_iff in H1 as [?%negb_true_iff ?%negb_true_iff].
  apply andb_true_iff in H2 as [?%negb_true_iff ?%negb_true_iff]. apply andb_true_iff in H3 as [?%negb_true_iff ?%negb_true_iff].
  by rewrite !HasPrefix_diverges.
Qed.

(** The keys a purge leaves alone: these, and the numbers of purged IDs. *)
Definition kept (k : string) : bool := core k || HasPrefix k retiredIDPrefix.
Definition dropped_prefix (p : string) : bool := outer p && negb (HasPrefix p retiredIDPrefix) && negb (HasPrefix retiredIDPrefix p).
Lemma dropped_kept p a : dropped_prefix p = true → kept (p +:+ a) = false.
Proof.
  unfold dropped_prefix, kept. intros H. apply andb_true_iff in H as [H H2%negb_true_iff]. apply andb_true_iff in H as [H H1%negb_true_iff].
  by rewrite outer_core, HasPrefix_diverges.
Qed.

(** ** The tree *)

Definition project_in (m : contents_) (id : string) (p : Project) : Prop := m !! key id = Some (DProject p).
Definition folder_in (m : contents_) (id : string) (f : Folder) : Prop := m !! folderKey id = Some (DFolder f).
Definition retired (m : contents_) (n : Z) : Prop := is_Some (m !! retiredKey n).

(** [y] is [h] steps above [x], by active folders. *)
Inductive above (m : contents_) : string → nat → string → Prop :=
| above_0 x : above m x 0 x
| above_S id f h y : folder_in m id f → f_State f = ACTIVE → above m (f_Parent f) h y → above m (f_Name f) (S h) y.

(** Active folders are never deeper than this: the limit of ten is not checked
    when a folder is undeleted. *)
Definition deepest : nat := MaxFolderDepth + 3.

Definition good_id (id : string) : Prop := TrimSpace id ≠ "" ∧ has_separator id = false ∧ SafeKey (key id) = true.

Definition typed_project (id : string) (p : Project) : Prop :=
  p_ProjectID p = id ∧ p_Name p = "projects/" +:+ id ∧ good_id id ∧ (p_State p = ACTIVE → p_DeleteTime p = None).
Definition typed_folder (id : string) (f : Folder) : Prop := f_Name f = "folders/" +:+ id ∧ ParseUint_ok id = true.

(** No other active folder of the parent has the display name. *)
Definition sibling_free (m : contents_) (id : string) (f : Folder) : Prop :=
  ∀ id' f', folder_in m id' f' → f_State f' = ACTIVE → f_Parent f' = f_Parent f → f_DisplayName f' = f_DisplayName f → id' = id.

Record Inv (m : contents_) : Prop := mkInv {
  inv_project id d : m !! key id = Some d → ∃ p, d = DProject p ∧ typed_project id p;
  inv_folder id d : m !! folderKey id = Some d → ∃ f, d = DFolder f ∧ typed_folder id f;
  inv_tree id f : folder_in m id f → f_State f = ACTIVE → ∃ d, (d ≤ deepest)%nat ∧ above m (f_Name f) d OrganizationName;
  inv_sibling id f : folder_in m id f → f_State f = ACTIVE → sibling_free m id f;
  inv_number id p id' p' : project_in m id p → project_in m id' p' → numberOf p = numberOf p' → id = id';
  inv_retired id p : project_in m id p → ¬ retired m (numberOf p)
}.

(** ** Writes *)

Definition inert (m m' : contents_) : Prop := ∀ k, core k = true → m' !! k = m !! k.

(** What may become of a folder. *)
Inductive folder_step (m : contents_) (id : string) (f f' : Folder) : Prop :=
| fs_same : f_Parent f' = f_Parent f → f_State f' = f_State f → (f_State f = ACTIVE → sibling_free m id f') → folder_step m id f f'
| fs_move d : f_State f = ACTIVE → f_State f' = ACTIVE → above m (f_Parent f') d OrganizationName →
    (∀ h, ¬ above m (f_Parent f') h (f_Name f)) → (∀ x h, above m x h (f_Name f) → (d + S h ≤ MaxFolderDepth)%nat) →
    sibling_free m id f' → folder_step m id f f'
| fs_delete : f_State f = ACTIVE → f_State f' = DELETE_REQUESTED → f_Parent f' = f_Parent f →
    (∀ id' c, folder_in m id' c → f_State c = ACTIVE → f_Parent c ≠ f_Name f) → folder_step m id f f'
| fs_undelete d : f_State f = DELETE_REQUESTED → f_State f' = ACTIVE → above m (f_Parent f') d OrganizationName → (d < deepest)%nat →
    sibling_free m id f' → folder_step m id f f'.

Inductive write (m : contents_) : contents_ → Prop :=
| w_inert m' : inert m m' → write m m'
| w_project_new p : let id := p_ProjectID p in m !! key id = None → typed_project id p → p_State p = ACTIVE →
    (∀ id' p', project_in m id' p' → numberOf p' ≠ numberOf p) → ¬ retired m (numberOf p) →
    write m (<[key id := DProject p]> m)
| w_project_set id p p' : project_in m id p → typed_project id p' → p_Number p' = p_Number p →
    p_CreateTime p' = p_CreateTime p → write m (<[key id := DProject p']> m)
| w_purge id p m' : project_in m id p →
    inert (delete (key id) (<[retiredKey (numberOf p) := DText id]> m)) m' → write m m'
| w_folder_new id f d : m !! folderKey id = None → typed_folder id f → f_State f = ACTIVE →
    above m (f_Parent f) d OrganizationName → (d < MaxFolderDepth)%nat → sibling_free m id f →
    write m (<[folderKey id := DFolder f]> m)
| w_folder_set id f f' : folder_in m id f → f_Name f' = f_Name f → folder_step m id f f' → write m (<[folderKey id := DFolder f']> m)
| w_folder_purge id f m' : folder_in m id f → f_State f = DELETE_REQUESTED → inert (delete (folderKey id) m) m' → write m m'.

(** ** Every write keeps the invariant *)

Lemma inert_refl m : inert m m.
Proof. done. Qed.
Lemma inert_trans m1 m2 m3 : inert m1 m2 → inert m2 m3 → inert m1 m3.
Proof. intros H1 H2 k Hk. rewrite H2 by done. by apply H1. Qed.

Lemma inert_project m m' id p : inert m m' → project_in m' id p ↔ project_in m id p.
Proof. intros H. unfold project_in. by rewrite H by apply core_key. Qed.
Lemma inert_folder m m' id f : inert m m' → folder_in m' id f ↔ folder_in m id f.
Proof. intros H. unfold folder_in. by rewrite H by apply core_folderKey. Qed.
Lemma inert_retired m m' n : inert m m' → retired m' n ↔ retired m n.
Proof. intros H. unfold retired. by rewrite H by apply core_retiredKey. Qed.

(** The path from [x] is the same where the folders on it are. *)
Lemma above_frame m m' x h y :
  above m x h y → (∀ id f h', (h' < h)%nat → above m x h' (f_Name f) → folder_in m id f → f_State f = ACTIVE → folder_in m' id f) → above m' x h y.
Proof.
  induction 1 as [x|id f h y Hf Ha H IH]; intros Hk; [constructor|]. eapply above_S; [|done|].
  - eapply (Hk id f 0); [lia|constructor|done|done].
  - apply IH. intros id' f' h' Hh Hab. apply (Hk id' f' (S h')); [lia|]. by eapply above_S.
Qed.

Lemma above_mono m m' x h y : (∀ id f, folder_in m id f → f_State f = ACTIVE → folder_in m' id f) → above m x h y → above m' x h y.
Proof. intros Hk Ha. eapply above_frame; [done|]. auto. Qed.

Lemma above_trans m x h y h' z : above m x h y → above m y h' z → above m x (h + h') z.
Proof. induction 1; [done|]. intros. cbn. eapply above_S; eauto. Qed.

(** The step up from an active folder is its own. *)
Lemma above_inv m id f h y : Inv m → folder_in m id f → above m (f_Name f) (S h) y → above m (f_Parent f) h y.
Proof.
  intros HI Hf Ha. inversion Ha as [|id' f' ? ? Hf' _ Hp Hn]; subst. 
  destruct (inv_folder m HI _ _ Hf) as (? & [= <-] & Hn1 & _), (inv_folder m HI _ _ Hf') as (? & [= <-] & Hn2 & _).
  rewrite Hn1, Hn2 in Hn. apply app_inj_l in Hn as ->. unfold folder_in in *. rewrite Hf in Hf'. by injection Hf' as ->.
Qed.

Lemma above_det m x h y h' z : Inv m → above m x h y → above m x h' z → (h ≤ h')%nat → above m y (h' - h) z.
Proof.
  intros HI H. revert h'. induction H as [x|id f h y Hf Ha H IH]; intros h' Hz Hle; [by rewrite Nat.sub_0_r|].
  destruct h' as [|h']; [lia|]. apply (above_inv m id) in Hz; [|done|done]. cbn. apply IH; [done|lia].
Qed.

(** The organization is no folder: a path to it is as long as any. *)
Lemma above_org m h y : Inv m → above m OrganizationName h y → h = 0 ∧ y = OrganizationName.
Proof.
  intros HI Ha. inversion Ha as [|id f ? ? Hf _ _ Hn]; subst; [done|]. exfalso.
  destruct (inv_folder m HI _ _ Hf) as (? & [= <-] & Hn1 & _). by rewrite Hn1 in Hn.
Qed.

Lemma above_depth m x h y d : Inv m → above m x h y → above m x d OrganizationName → (h ≤ d)%nat ∧ above m y (d - h) OrganizationName.
Proof.
  intros HI H Ho. destruct (decide (h ≤ d)%nat) as [Hle|Hlt]; [split; [done|]; by eapply above_det|].
  pose proof (above_det m x d _ h y HI Ho H ltac:(lia)) as H'. apply above_org in H' as [? _]; [lia|done].
Qed.

(** No folder is above itself. *)
Lemma above_acyclic m id f h : Inv m → folder_in m id f → f_State f = ACTIVE → ¬ above m (f_Name f) (S h) (f_Name f).
Proof.
  intros HI Hf Ha Hc. destruct (inv_tree m HI id f Hf Ha) as (d & _ & Ho).
  assert (∀ n, ∃ k, (n ≤ k)%nat ∧ above m (f_Name f) k (f_Name f)) as Hn.
  { induction n as [|n (k & Hk & Hx)]; [exists 0; split; [lia|constructor]|]. exists (S h + k). split; [lia|]. by eapply above_trans. }
  destruct (Hn (S d)) as (k & Hk & Hx). destruct (above_depth m _ _ _ _ HI Hx Ho). lia.
Qed.

Lemma above_zero m x y : above m x 0 y → x = y.
Proof. by inversion 1. Qed.

(** The step that arrives at [y]. *)
Lemma above_last m x h y : above m x (S h) y → ∃ id c, folder_in m id c ∧ f_State c = ACTIVE ∧ f_Parent c = y.
Proof.
  intros Ha. remember (S h) as n eqn:Hn. revert h Hn. induction Ha as [x|id f h y Hf Ha H IH]; intros h' [= <-].
  destruct h as [|h]; [|by apply (IH h)]. inversion H; subst. by exists id, f.
Qed.

(** Active folders replaced by ones of the same name and parent. *)
Lemma above_sim m m' x h y :
  (∀ id f, folder_in m id f → f_State f = ACTIVE →
     ∃ f', folder_in m' id f' ∧ f_State f' = ACTIVE ∧ f_Name f' = f_Name f ∧ f_Parent f' = f_Parent f) →
  above m x h y → above m' x h y.
Proof.
  intros Hk. induction 1 as [x|id f h y Hf Ha H IH]; [constructor|]. destruct (Hk id f Hf Ha) as (f' & Hf' & Ha' & <- & Hp).
  eapply above_S; [done..|]. by rewrite Hp.
Qed.

(** *** The two halves of the invariant *)

Lemma Inv_projects m m' :
  Inv m → (∀ id, m' !! folderKey id = m !! folderKey id) →
  (∀ id d, m' !! key id = Some d → ∃ p, d = DProject p ∧ typed_project id p) →
  (∀ id p id' p', project_in m' id p → project_in m' id' p' → numberOf p = numberOf p' → id = id') →
  (∀ id p, project_in m' id p → ¬ retired m' (numberOf p)) → Inv m'.
Proof.
  intros HI Hf Ht Hn Hr. assert (∀ id f, folder_in m' id f ↔ folder_in m id f) as Hin by (intros; unfold folder_in; by rewrite Hf).
  constructor; [done| | | |done..].
  - intros id d. rewrite Hf. apply (inv_folder m HI).
  - intros id f Hi Ha. rewrite Hin in Hi. destruct (inv_tree m HI id f Hi Ha) as (d & Hd & Hab). exists d. split; [done|].
    eapply above_mono; [|done]. intros. by apply Hin.
  - intros id f Hi Ha id' f' Hi'. rewrite Hin in Hi, Hi'. by apply (inv_sibling m HI id f).
Qed.

Lemma Inv_folders m m' :
  Inv m → (∀ id, m' !! key id = m !! key id) → (∀ n, m' !! retiredKey n = m !! retiredKey n) →
  (∀ id d, m' !! folderKey id = Some d → ∃ f, d = DFolder f ∧ typed_folder id f) →
  (∀ id f, folder_in m' id f → f_State f = ACTIVE → ∃ d, (d ≤ deepest)%nat ∧ above m' (f_Name f) d OrganizationName) →
  (∀ id f, folder_in m' id f → f_State f = ACTIVE → sibling_free m' id f) → Inv m'.
Proof.
  intros HI Hp Hr Ht Hd Hs. constructor; [|done..| |].
  - intros id d. rewrite Hp. apply (inv_project m HI).
  - intros id p id' p'. unfold project_in. rewrite !Hp. apply (inv_number m HI).
  - intros id p. unfold project_in, retired. rewrite Hp, Hr. apply (inv_retired m HI).
Qed.

Lemma Inv_inert m m' : Inv m → inert m m' → Inv m'.
Proof.
  intros HI Hm. apply (Inv_projects m); [done|..].
  - intros id. apply Hm, core_folderKey.
  - intros id d. rewrite (Hm (key id)) by apply core_key. apply (inv_project m HI).
  - intros id p id' p'. rewrite !(inert_project m m') by done. apply (inv_number m HI).
  - intros id p. rewrite (inert_project m m'), (inert_retired m m') by done. apply (inv_retired m HI).
Qed.

(** *** Projects *)

Lemma Inv_put_project m id p :
  Inv m → typed_project id p → (∀ id' p', project_in m id' p' → numberOf p' = numberOf p → id' = id) → ¬ retired m (numberOf p) →
  Inv (<[key id := DProject p]> m).
Proof.
  intros HI Ht Hn Hr.
  assert (∀ id' p', project_in (<[key id := DProject p]> m) id' p' → (id' = id ∧ p' = p) ∨ (id' ≠ id ∧ project_in m id' p')) as Hin.
  { intros id' p'. unfold project_in. destruct (decide (id' = id)) as [->|Hne].
    - rewrite lookup_insert_eq. intros [= ->]. by left.
    - rewrite lookup_insert_ne by (by intros ?%project_key_inj). by right. }
  apply (Inv_projects m); [done|..].
  - intros id'. by rewrite lookup_insert_ne by apply key_folderKey.
  - intros id' d. destruct (decide (id' = id)) as [->|Hne].
    + rewrite lookup_insert_eq. intros [= <-]. by exists p.
    + rewrite lookup_insert_ne by (by intros ?%project_key_inj). apply (inv_project m HI).
  - intros i1 p1 i2 p2 [[-> ->]|[H1 Hp1]]%Hin [[-> ->]|[H2 Hp2]]%Hin He; [done| | |by apply (inv_number m HI i1 p1 i2 p2)].
    + symmetry. by apply (Hn i2 p2).
    + by apply (Hn i1 p1).
  - intros i q Hq. unfold retired. rewrite lookup_insert_ne by apply key_retiredKey.
    apply Hin in Hq as [[-> ->]|[_ Hq]]; [done|by apply (inv_retired m HI i)].
Qed.

Definition purged_project m id p : contents_ := delete (key id) (<[retiredKey (numberOf p) := DText id]> m).

Lemma Inv_purge_project m id p : Inv m → project_in m id p → Inv (purged_project m id p).
Proof.
  intros HI Hp.
  assert (∀ id', purged_project m id p !! key id' = if decide (id' = id) then None else m !! key id') as Hk.
  { intros id'. unfold purged_project. destruct (decide (id' = id)) as [->|Hne]; [by rewrite lookup_delete_eq|].
    rewrite lookup_delete_ne by (by intros ?%project_key_inj). rewrite lookup_insert_ne; [done|]. intros E. by symmetry in E; apply key_retiredKey in E. }
  apply (Inv_projects m); [done|..].
  - intros id'. unfold purged_project. rewrite lookup_delete_ne by apply key_folderKey. rewrite lookup_insert_ne; [done|].
    intros E. by symmetry in E; apply folderKey_retiredKey in E.
  - intros id' d. rewrite Hk. case_decide; [done|]. apply (inv_project m HI).
  - intros i1 p1 i2 p2. unfold project_in. rewrite !Hk. case_decide; [done|]. case_decide; [done|]. apply (inv_number m HI).
  - intros i q. unfold project_in. rewrite Hk. case_decide as Hne; [done|]. intros Hq. unfold retired, purged_project.
    rewrite lookup_delete_ne by apply key_retiredKey. destruct (decide (numberOf q = numberOf p)) as [E|E].
    + exfalso. apply Hne. by apply (inv_number m HI i q id p).
    + rewrite lookup_insert_ne by (by intros ?%retiredKey_inj). by apply (inv_retired m HI i).
Qed.

(** *** Folders *)

Lemma folder_in_insert m id f id' g :
  folder_in (<[folderKey id := DFolder f]> m) id' g ↔ (id' = id ∧ g = f) ∨ (id' ≠ id ∧ folder_in m id' g).
Proof.
  unfold folder_in. destruct (decide (id' = id)) as [->|Hne].
  - rewrite lookup_insert_eq. naive_solver.
  - rewrite lookup_insert_ne by (by intros ?%folderKey_inj). naive_solver.
Qed.

Lemma sibling_insert m id f :
  Inv m → (f_State f = ACTIVE → sibling_free m id f) →
  ∀ id' g, folder_in (<[folderKey id := DFolder f]> m) id' g → f_State g = ACTIVE → sibling_free (<[folderKey id := DFolder f]> m) id' g.
Proof.
  intros HI Hs id' g Hg Hga i2 g2 Hg2 Hg2a Hp Hd. rewrite folder_in_insert in Hg, Hg2.
  destruct Hg as [[-> ->]|[Hne Hg]], Hg2 as [[-> ->]|[Hne2 Hg2]]; [done| | |by apply (inv_sibling m HI id' g Hg Hga i2 g2)].
  - by apply (Hs Hga i2 g2).
  - symmetry. by apply (Hs Hg2a id' g).
Qed.

Lemma Inv_put_folder m id f :
  Inv m → typed_folder id f → (f_State f = ACTIVE → sibling_free m id f) →
  (∀ id' g, folder_in (<[folderKey id := DFolder f]> m) id' g → f_State g = ACTIVE →
     ∃ d, (d ≤ deepest)%nat ∧ above (<[folderKey id := DFolder f]> m) (f_Name g) d OrganizationName) →
  Inv (<[folderKey id := DFolder f]> m).
Proof.
  intros HI Ht Hs Hd. apply (Inv_folders m); [done|..|done|by apply sibling_insert].
  - intros id'. rewrite lookup_insert_ne; [done|]. intros E. by symmetry in E; apply key_folderKey in E.
  - intros n. by rewrite lookup_insert_ne by apply folderKey_retiredKey.
  - intros id' d. destruct (decide (id' = id)) as [->|Hne].
    + rewrite lookup_insert_eq. intros [= <-]. by exists f.
    + rewrite lookup_insert_ne by (by intros ?%folderKey_inj). apply (inv_folder m HI).
Qed.

(** A folder that was not active joins the tree under an active one. *)
Lemma tree_join m id f d :
  Inv m → (∀ g, folder_in m id g → f_State g ≠ ACTIVE) → f_State f = ACTIVE → above m (f_Parent f) d OrganizationName → (d < deepest)%nat →
  ∀ id' g, folder_in (<[folderKey id := DFolder f]> m) id' g → f_State g = ACTIVE →
    ∃ d, (d ≤ deepest)%nat ∧ above (<[folderKey id := DFolder f]> m) (f_Name g) d OrganizationName.
Proof.
  intros HI Hno Ha Hp Hd id' g Hg Hga.
  assert (∀ x h y, above m x h y → above (<[folderKey id := DFolder f]> m) x h y) as Hmono.
  { intros x h y. apply above_mono. intros i k Hk Hka. apply folder_in_insert. right. split; [|done]. intros ->. by apply (Hno k). }
  pose proof Hg as Hg'. apply folder_in_insert in Hg' as [[-> ->]|[Hne Hm]].
  - exists (S d). split; [lia|]. eapply above_S; [done..|]. by apply Hmono.
  - destruct (inv_tree m HI id' g Hm Hga) as (d' & Hd' & Hab). exists d'. split; [done|]. by apply Hmono.
Qed.

(** A path to the organization after a folder was moved below [d] others. *)
Lemma above_moved m id f f' d x h :
  Inv m → folder_in m id f → f_Name f' = f_Name f → f_State f' = ACTIVE → above m (f_Parent f') d OrganizationName →
  (∀ h, ¬ above m (f_Parent f') h (f_Name f)) → above m x h OrganizationName →
  ∃ h', above (<[folderKey id := DFolder f']> m) x h' OrganizationName ∧ (h' = h ∨ ∃ k, above m x k (f_Name f) ∧ h' = k + S d).
Proof.
  intros HI Hf Hn Ha Hp Hnb. remember OrganizationName as o eqn:Ho.
  induction 1 as [x|i g h y Hg Hga Hx IH]; [exists 0; split; [constructor|by left]|].
  destruct (decide (i = id)) as [->|Hne].
  - assert (g = f) as -> by (unfold folder_in in *; congruence). exists (S d). split; [|right; exists 0; split; [constructor|lia]].
    rewrite <- Hn. eapply above_S; [apply folder_in_insert; by left|done|]. eapply above_frame; [by subst|].
    intros i2 g2 h2 _ Hab Hg2 _. apply folder_in_insert. right. split; [|done]. intros ->.
    assert (g2 = f) as -> by (unfold folder_in in *; congruence). by apply (Hnb h2).
  - destruct IH as (h' & Hh' & Hc); [done..|]. exists (S h'). split; [eapply above_S; [apply folder_in_insert; by right|done..]|].
    destruct Hc as [->|(k & Hk & ->)]; [by left|]. right. exists (S k). split; [by eapply above_S|lia].
Qed.

(** A path from elsewhere does not pass a folder without active children. *)
Lemma above_leaf m id f f' x h y :
  folder_in m id f → (∀ id' c, folder_in m id' c → f_State c = ACTIVE → f_Parent c ≠ f_Name f) → x ≠ f_Name f →
  above m x h y → above (<[folderKey id := DFolder f']> m) x h y.
Proof.
  intros Hf Hno Hx Hab. eapply above_frame; [done|]. intros i g h' _ Hg Hin Hga. apply folder_in_insert. right. split; [|done]. intros ->.
  assert (g = f) as -> by (unfold folder_in in *; congruence). destruct h' as [|h']; [by inversion Hg|].
  destruct (above_last _ _ _ _ Hg) as (i2 & c & Hc & Hca & Hcp). by apply (Hno i2 c).
Qed.

Lemma tree_step m id f f' :
  Inv m → folder_in m id f → f_Name f' = f_Name f → folder_step m id f f' →
  ∀ id' g, folder_in (<[folderKey id := DFolder f']> m) id' g → f_State g = ACTIVE →
    ∃ d, (d ≤ deepest)%nat ∧ above (<[folderKey id := DFolder f']> m) (f_Name g) d OrganizationName.
Proof.
  intros HI Hf Hn Hst id' g Hg Hga. destruct Hst as [Hp Hs _|d Hs Hs' Hp Hnb Hdeep _|Hs Hs' Hp Hno|d Hs Hs' Hp Hd _].
  - assert (∃ g0, folder_in m id' g0 ∧ f_State g0 = ACTIVE ∧ f_Name g0 = f_Name g) as (g0 & Hg0 & Hg0a & <-).
    { apply folder_in_insert in Hg as [[-> ->]|[_ Hg]]; [exists f; split_and!; congruence|by exists g]. }
    destruct (inv_tree m HI id' g0 Hg0 Hg0a) as (d & Hd & Hab). exists d. split; [done|]. eapply above_sim; [|done].
    intros i k Hk Hka. destruct (decide (i = id)) as [->|Hne].
    + assert (k = f) as -> by (unfold folder_in in *; congruence). exists f'. split_and!; [apply folder_in_insert; by left|congruence|done..].
    + exists k. split_and!; [apply folder_in_insert; by right|done..].
  - assert (∃ g0, folder_in m id' g0 ∧ f_State g0 = ACTIVE ∧ f_Name g0 = f_Name g) as (g0 & Hg0 & Hg0a & <-).
    { apply folder_in_insert in Hg as [[-> ->]|[_ Hg]]; [by exists f|by exists g]. }
    destruct (inv_tree m HI id' g0 Hg0 Hg0a) as (d0 & Hd0 & Hab).
    destruct (above_moved m id f f' d _ _ HI Hf Hn Hs' Hp Hnb Hab) as (h' & Hh' & Hc). exists h'. split; [|done].
    destruct Hc as [->|(k & Hk & ->)]; [done|]. specialize (Hdeep _ _ Hk). unfold deepest. lia.
  - apply folder_in_insert in Hg as [[-> ->]|[Hne Hg]]; [congruence|].
    destruct (inv_tree m HI id' g Hg Hga) as (d0 & Hd0 & Hab). exists d0. split; [done|].
    eapply above_leaf; [done..| |done].
    destruct (inv_folder m HI _ _ Hf) as (? & [= <-] & Hn1 & _), (inv_folder m HI _ _ Hg) as (? & [= <-] & Hn2 & _).
    rewrite Hn1, Hn2. by intros ?%app_inj_l.
  - eapply (tree_join m id f' d HI); [|done..]. intros g0 Hg0. assert (g0 = f) as -> by (unfold folder_in in *; congruence). congruence.
Qed.

Lemma Inv_purge_folder m id f : Inv m → folder_in m id f → f_State f = DELETE_REQUESTED → Inv (delete (folderKey id) m).
Proof.
  intros HI Hf Hs.
  assert (∀ i g, folder_in (delete (folderKey id) m) i g → folder_in m i g) as Hin.
  { intros i g. unfold folder_in. rewrite lookup_delete_Some. naive_solver. }
  apply (Inv_folders m); [done|..].
  - intros i. rewrite lookup_delete_ne; [done|]. intros E. by symmetry in E; apply key_folderKey in E.
  - intros n. by rewrite lookup_delete_ne by apply folderKey_retiredKey.
  - intros i d. rewrite lookup_delete_Some. intros [_ ?]. by apply (inv_folder m HI).
  - intros i g Hg%Hin Hga. destruct (inv_tree m HI i g Hg Hga) as (d & Hd & Hab). exists d. split; [done|].
    eapply above_mono; [|done]. intros j k Hk Hka. unfold folder_in. rewrite lookup_delete_ne; [done|].
    intros ->%folderKey_inj. unfold folder_in in *. congruence.
  - intros i g Hg%Hin Hga j k Hk%Hin. by apply (inv_sibling m HI i g).
Qed.

Lemma write_Inv m m' : Inv m → write m m' → Inv m'.
Proof.
  intros HI [m1 Hm|p id Hno Ht Ha Hn Hr|id p p' Hp Ht Hnum Hc|id p m1 Hp Hm|id f d Hno Ht Ha Hp Hd Hs|id f f' Hf Hn Hst|id f m1 Hf Hs Hm].
  - by eapply Inv_inert.
  - apply Inv_put_project; [done..| |done]. intros id' p' Hp' E. exfalso. by apply (Hn id' p').
  - destruct (inv_project m HI _ _ Hp) as (? & [= <-] & Ht1 & _). pose proof Ht as [Hi _].
    assert (numberOf p' = numberOf p) as En by (unfold numberOf; by rewrite Hnum, Hi, Ht1).
    apply Inv_put_project; [done..| |rewrite En; by apply (inv_retired m HI id)].
    intros id' q Hq E. apply (inv_number m HI id' q id p); congruence.
  - eapply Inv_inert; [|done]. by apply Inv_purge_project.
  - apply Inv_put_folder; [done..|]. apply (tree_join m id f d HI); [|done..|unfold deepest; lia].
    intros g Hg. unfold folder_in in Hg. congruence.
  - destruct (inv_folder m HI _ _ Hf) as (? & [= <-] & Ht1 & Ht2). apply Inv_put_folder; [done|split; congruence| |by apply (tree_step m id f)].
    intros Ha. destruct Hst as [_ Hs Hsib| | |]; [apply Hsib|..]; congruence || done.
  - eapply Inv_inert; [|done]. by eapply Inv_purge_folder.
Qed.

Definition writes : contents_ → contents_ → Prop := rtc write.

Lemma writes_Inv m m' : Inv m → writes m m' → Inv m'.
Proof. intros HI. induction 1; [done|]. eauto using write_Inv. Qed.

Lemma Inv_nothing : Inv ∅.
Proof. constructor; intros *; unfold project_in, folder_in; by rewrite lookup_empty. Qed.
