(* ===== verification/RmEffects.v ===== *)
(** * Resource Manager: what the operations write

    Over a store whose writes do not fail.  [does R op]: whatever [op] returns, the
    store moves by [R]; the rules for it are one per combinator, and [solve_does]
    applies them.  The operations that write projects and folders have a lemma
    each, with what they know of the store when they write. *)

From S2P Require Import Prelude GoLib ApiError Resource MetaStore IamPolicy Handler GoCrypto RmModel RmRegistry RmTags RmInv.
From Stdlib Require Import Ascii DecimalString.

Import strings strconv time.

(** crypto/rand stays below its bound, and the clock is after 1970. *)
Definition draw_ok (d : draw) : Prop :=
  match d with Drew n => (0 ≤ n < 900000000000)%Z | Failed t => (0 ≤ t)%Z end.
Definition env_ok (e : Env) : Prop := Forall draw_ok (draws e).

(** ** Ways the store may move *)

(** Only projects and what hangs on them. *)
Definition around_folders (m m' : contents_) : Prop := writes m m' ∧ ∀ id, m' !! folderKey id = m !! folderKey id.

(** Folders pending for too long at [t] may go. *)
Definition reaps (t : Time) (m m' : contents_) : Prop :=
  writes m m' ∧ (∀ id, m' !! key id = m !! key id) ∧ (∀ id f, folder_in m' id f → folder_in m id f) ∧
  (∀ id f, folder_in m id f → expired (f_State f) (f_DeleteTime f) t = false → folder_in m' id f).

(** Records that hang on projects and folders may go. *)
Definition drops (m m' : contents_) : Prop := ∀ k, m' !! k = m !! k ∨ (m' !! k = None ∧ kept k = false).

Class Drops (R : contents_ → contents_ → Prop) := {
  drops_pre :: PreOrder R;
  drops_delete m k : kept k = false → R m (delete k m);
  drops_writes m m' : R m m' → writes m m'
}.

Class Moves (R : contents_ → contents_ → Prop) := {
  moves_pre : PreOrder R;
  moves_inert m m' : inert m m' → R m m';
  moves_writes m m' : R m m' → writes m m'
}.

Lemma inert_delete m k : core k = false → inert m (delete k m).
Proof. intros Hk k' Hk'. apply lookup_delete_ne. congruence. Qed.

Lemma kept_core k : kept k = false → core k = false.
Proof. by intros [? _]%orb_false_iff. Qed.

#[export] Instance moves_drops R : Moves R → Drops R.
Proof.
  intros HR. constructor; [apply moves_pre| |apply moves_writes]. intros m k Hk. apply moves_inert, inert_delete, kept_core, Hk.
Qed.

Lemma inert_writes m m' : inert m m' → writes m m'.
Proof. intros. by apply rtc_once, w_inert. Qed.

Lemma drops_inert m m' : drops m m' → inert m m'.
Proof. intros Hd k Hk. destruct (Hd k) as [->|[_ Hkept]]; [done|]. apply kept_core in Hkept. congruence. Qed.

#[export] Instance drops_drops : Drops drops.
Proof.
  constructor; [split|..].
  - intros m k. by left.
  - intros m1 m2 m3 H1 H2 k. destruct (H2 k) as [->|?]; [apply H1|by right].
  - intros m k Hk k'. destruct (decide (k' = k)) as [->|Hne]; [right; by rewrite lookup_delete_eq|left; by rewrite lookup_delete_ne].
  - intros m m' Hd. by apply inert_writes, drops_inert.
Qed.

#[export] Instance inert_moves : Moves inert.
Proof. constructor; [split; [by intros m|intros ???; apply inert_trans]|done|apply inert_writes]. Qed.

#[export] Instance writes_moves : Moves writes.
Proof. constructor; [apply _|apply inert_writes|done]. Qed.

#[export] Instance around_folders_moves : Moves around_folders.
Proof.
  constructor; [split|..].
  - intros m. by split.
  - intros m1 m2 m3 [H1 F1] [H2 F2]. split; [by etrans|]. intros id. by rewrite F2, F1.
  - intros m m' Hm. split; [by apply inert_writes|]. intros id. apply Hm, core_folderKey.
  - by intros m m' [??].
Qed.

#[export] Instance reaps_moves t : Moves (reaps t).
Proof.
  constructor; [split|..].
  - intros m. by split_and!.
  - intros m1 m2 m3 (W1 & P1 & F1 & G1) (W2 & P2 & F2 & G2). split_and!; [by etrans| |eauto|eauto]. intros id. by rewrite P2, P1.
  - intros m m' Hm. split_and!; [by apply inert_writes| |intros id f; by rewrite (inert_folder m m')|intros id f Hf _; by rewrite (inert_folder m m')].
    intros id. apply Hm, core_key.
  - by intros m m' [??].
Qed.

Section effects.
Context {D : Type} `{RS : ReliableStore D doc}.
Implicit Types (s : Registry D) (e : Env) (m : contents_).

Abbreviation H := (M Env (Registry D)).
Abbreviation cts s := (contents (db s)).

(** ** The store *)

Lemma wp_raw e s k Q : Q (Ok (if SafeKey k then cts s !! k else None)) s → wp e s (raw k) Q.
Proof.
  intros HQ. unfold wp, raw. cbn. rewrite Get_law. unfold checkKey. destruct (SafeKey k); [|done]. cbn. by destruct (cts s !! k).
Qed.

Lemma set_db_id s : set_db s (db s) = s.
Proof. by destruct s. Qed.

Lemma wp_db_Put e s k d Q :
  (SafeKey k = true → ∀ d', contents d' = <[k := d]> (cts s) → Q (Ok tt) (set_db s d')) →
  (SafeKey k = false → ∀ x, Q (Err x) s) → wp e s (db_Put k d) Q.
Proof.
  intros H1 H2. unfold wp, db_Put. rewrite Put_law. destruct (SafeKey k) eqn:Hk.
  - destruct (Commit_ok (db s) (OpPut k d) Hk) as (d' & -> & Hc). by apply H1.
  - rewrite (Commit_unsafe (db s) [OpPut k d] (Wrapped ErrUnsafeKey)) by (cbn; unfold checkKey; by rewrite Hk). cbn.
    rewrite set_db_id. by apply H2.
Qed.

Lemma wp_db_Delete e s k Q :
  (SafeKey k = true → ∀ d', contents d' = delete k (cts s) → Q (Ok tt) (set_db s d')) →
  (SafeKey k = false → ∀ x, Q (Err x) s) → wp e s (db_Delete k) Q.
Proof.
  intros H1 H2. unfold wp, db_Delete. rewrite Delete_law. destruct (SafeKey k) eqn:Hk.
  - destruct (Commit_ok (db s) (OpDelete k) Hk) as (d' & -> & Hc). by apply H1.
  - rewrite (Commit_unsafe (db s) [OpDelete k] (Wrapped ErrUnsafeKey)) by (cbn; unfold checkKey; by rewrite Hk). cbn.
    rewrite set_db_id. by apply H2.
Qed.

Lemma wp_db_List e s p Q : Q (Ok (list_keys (cts s) p)) s → wp e s (db_List p) Q.
Proof. unfold wp, db_List. cbn. by rewrite List_law. Qed.

Lemma wp_ignore e s (m : H unit) Q : wp e s m (λ _, Q (Ok tt)) → wp e s (ignore m) Q.
Proof. intros. unfold ignore. by apply wp_bind, wp_attempt. Qed.

Lemma wp_clock e s Q : Q (Ok (clock_Now e)) s → wp e s now Q.
Proof. done. Qed.

Lemma wp_locked {A} e s (m : H A) Q :
  wp e s m (λ r s', ∀ s'', db s'' = db s' → Q r s'') → wp e s (locked m) Q.
Proof. intros Hm. apply wp_deferred. eapply wp_mono; [|done]. intros r s' HQ. by apply HQ. Qed.

Lemma reads_raw k : reads (raw (D := D) k).
Proof. done. Qed.
Lemma reads_List p : reads (db_List (D := D) p).
Proof. done. Qed.
Lemma reads_now : reads (now (D := D)).
Proof. done. Qed.
Lemma reads_find {T} `{Stored_ T} k x : reads (find (D := D) (T := T) k x).
Proof. unfold find. apply reads_bind; [done|]. intros [d|]; [destruct (of_doc d)|]; done. Qed.
Lemma reads_NumberOf id : reads (NumberOf (D := D) id).
Proof. unfold NumberOf. solve_reads. Qed.
Lemma reads_projectNumber id : reads (projectNumber (D := D) id).
Proof. apply reads_bind; [apply reads_NumberOf|done]. Qed.
Lemma reads_listProtos {T} `{Stored_ T} p : reads (listProtos (D := D) (T := T) p).
Proof. unfold listProtos. solve_reads. Qed.
Lemma reads_free_id p f ds : reads (free_id (D := D) p f ds).
Proof. induction ds as [|d ds IH]; [done|]. cbn. apply reads_bind; [done|]. intros []; done. Qed.
Lemma reads_free_number used n : reads (free_number (D := D) used n).
Proof. unfold free_number. solve_reads. Qed.
Lemma reads_draw_number used ds : reads (draw_number (D := D) used ds).
Proof.
  induction ds as [|[v|t] ds IH]; [done| |done]. cbn. apply reads_bind; [apply reads_free_number|]. intros []; done.
Qed.
Lemma reads_namesProject parent id : reads (namesProject (D := D) parent id).
Proof. unfold namesProject. case_match; [|done]. apply reads_bind; [apply reads_projectNumber|done]. Qed.
Lemma reads_inProject n id : reads (inProject (D := D) n id).
Proof. unfold inProject. repeat case_match; [apply reads_namesProject|done]. Qed.
Lemma reads_getLien id : reads (getLien (D := D) id).
Proof. apply reads_find. Qed.

End effects.

#[export] Hint Resolve reads_raw reads_List reads_now reads_find reads_NumberOf reads_projectNumber reads_listProtos reads_free_id
  reads_free_number reads_draw_number reads_namesProject reads_inProject reads_getLien : burrow.

Section does.
Context {D : Type} `{RS : ReliableStore D doc}.
Implicit Types (s : Registry D) (e : Env) (m : contents_) (R : contents_ → contents_ → Prop).

Abbreviation H := (M Env (Registry D)).
Abbreviation cts s := (contents (db s)).

(** ** The store moves by [R], whatever the result *)

Definition does R {A} (op : H A) : Prop :=
  ∀ e s, env_ok e → Inv (cts s) → wp e s op (λ _ s', R (cts s) (cts s')).

Lemma Inv_moves R `{!Drops R} m m' : Inv m → R m m' → Inv m'.
Proof. intros HI HR. eapply writes_Inv; [done|]. by apply drops_writes. Qed.

Lemma rm_does_mono R R' {A} (op : H A) : (∀ m m', R m m' → R' m m') → does R op → does R' op.
Proof. intros HR Hop e s He HI. eapply wp_mono; [|by apply Hop]. auto. Qed.

Lemma rm_does_reads R `{!Drops R} {A} (op : H A) : reads op → does R op.
Proof. intros Hop e s _ _. by apply wp_reads. Qed.

Lemma rm_does_bind R `{!Drops R} {A B} (op : H A) (f : A → H B) : does R op → (∀ a, does R (f a)) → does R (op ≫= f).
Proof.
  intros Hop Hf e s He HI. apply wp_bind. eapply wp_mono; [|by apply Hop]. intros [a|x] s' HR; [|done].
  eapply wp_mono; [|apply Hf; [done|by eapply Inv_moves]]. intros r s2 HR2. cbn in *. by etrans.
Qed.

Lemma does_lift_bind R `{!Drops R} {A B} (r : res error A) (f : A → H B) : (∀ a, r = Ok a → does R (f a)) → does R (lift r ≫= f).
Proof. intros Hf e s He HI. apply wp_bind, wp_lift. destruct r as [a|x]; [by apply Hf|done]. Qed.

Lemma rm_does_attempt R `{!Drops R} {A} (op : H A) : does R op → does R (attempt op).
Proof. intros Hop e s He HI. by apply wp_attempt, Hop. Qed.

Lemma does_ignore R `{!Drops R} (op : H unit) : does R op → does R (ignore op).
Proof. intros Hop. apply rm_does_bind; [done|by apply rm_does_attempt|]. intros. by apply rm_does_reads. Qed.

Lemma rm_does_when R `{!Drops R} c (op : H unit) : does R op → does R (when c op).
Proof. intros Hop. destruct c; [done|by apply rm_does_reads]. Qed.

Lemma does_locked R {A} (op : H A) : does R op → does R (locked op).
Proof. intros Hop e s He HI. apply wp_locked. eapply wp_mono; [|by apply Hop]. intros r s' HR s2 ->. done. Qed.

Lemma does_each R `{!Drops R} {A} (f : A → H unit) l : (∀ x, x ∈ l → does R (f x)) → does R (each f l).
Proof.
  induction l as [|x l IH]; intros Hf; [by apply rm_does_reads|]. cbn. apply rm_does_bind; [done|apply Hf; left|].
  intros _. apply IH. intros y Hy. apply Hf. by right.
Qed.

Lemma does_collect R `{!Drops R} {A B} (f : A → H (option B)) l : (∀ x, does R (f x)) → does R (collect f l).
Proof.
  intros Hf. induction l as [|x l IH]; [by apply rm_does_reads|]. cbn. apply rm_does_bind; [done..|]. intros b.
  apply rm_does_bind; [done..|]. intros bs. by apply rm_does_reads.
Qed.

(** The keys a listing gives start with its prefix. *)
Lemma does_List_bind R `{!Drops R} {A} p (f : list string → H A) :
  (∀ ks, (∀ k, k ∈ ks → ∃ a, k = p +:+ a) → does R (f ks)) → does R (db_List p ≫= f).
Proof.
  intros Hf e s He HI. apply wp_bind, wp_db_List. apply Hf; [|done..]. intros k [_ Hp]%elem_of_list_keys. by apply HasPrefix_spec.
Qed.

Lemma does_Put R `{!Moves R} k d : core k = false → does R (db_Put k d).
Proof.
  intros Hk e s _ _. apply wp_db_Put; [|done]. intros _ d' Hc. cbn. rewrite Hc. apply moves_inert. intros k' Hk'.
  apply lookup_insert_ne. congruence.
Qed.

Lemma does_Delete R `{!Drops R} k : kept k = false → does R (db_Delete k).
Proof. intros Hk e s _ _. apply wp_db_Delete; [|done]. intros _ d' Hc. cbn. rewrite Hc. by apply drops_delete. Qed.

End does.

(** A key of none of the three kinds [Inv] speaks of. *)
Ltac solve_core :=
  unfold iamKey; rewrite ?strings.app_assoc; first [apply outer_core; done | apply dropped_kept; done].

#[export] Hint Extern 1 (core _ = false) => solve_core : burrow.
#[export] Hint Extern 1 (kept _ = false) => solve_core : burrow.

(** Proves [does R op] by the structure of [op]. *)
Ltac solve_does :=
  repeat first
    [ solve [auto with burrow nocore] | solve [apply rm_does_reads; [apply _|solve_reads]]
    | apply does_locked | apply does_lift_bind; [apply _|intros ? ?] | apply rm_does_bind; [apply _| |intros ?] | apply does_ignore; [apply _|]
    | apply rm_does_attempt; [apply _|] | apply rm_does_when; [apply _|]
    | apply does_each; [apply _|intros ? ?] | apply does_collect; [apply _|intros ?]
    | apply does_Put; [apply _|] | apply does_Delete; [apply _|] | case_match ].

Section drops.
Context {D : Type} `{RS : ReliableStore D doc}.
Context (R : contents_ → contents_ → Prop) `{!Drops R}.

Lemma does_dropIAM r : does R (dropIAM (D := D) r).
Proof. unfold dropIAM. solve_does. Qed.

Lemma does_deletePrefix p : (∀ a, kept (p +:+ a) = false) → does R (deletePrefixLocked (D := D) p).
Proof. intros Hp. apply does_List_bind; [done|]. intros ks Hks. apply does_each; [done|]. intros k [a ->]%Hks. by apply does_Delete. Qed.

Lemma does_drop_lien id a : does R (drop_lien (D := D) id (lienPrefix +:+ a)).
Proof. unfold drop_lien. solve_does. Qed.

Lemma does_drop_value v : does R (drop_value (D := D) v).
Proof. unfold drop_value. apply rm_does_bind; [done|apply does_deletePrefix; intros; solve_core|]. intros _. pose proof does_dropIAM. solve_does. Qed.

Lemma does_drop_keys id ks : does R (drop_keys (D := D) id ks).
Proof.
  pose proof does_dropIAM. pose proof does_drop_value. induction ks as [|k ks IH]; [by apply rm_does_reads|]. cbn. solve_does.
Qed.

Lemma does_drop_binding id vs a : does R (drop_binding (D := D) id vs (tagBindingPrefix +:+ a)).
Proof. unfold drop_binding. solve_does. Qed.

Lemma does_dropProjectState id : does R (dropProjectStateLocked (D := D) id).
Proof.
  unfold dropProjectStateLocked. apply rm_does_bind; [done|apply does_dropIAM|intros _].
  apply rm_does_bind; [done|apply does_deletePrefix; intros; solve_core|intros _].
  apply does_List_bind; [done|]. intros ks Hks. apply rm_does_bind; [done| |intros _].
  { apply does_each; [done|]. intros k [a ->]%Hks. apply does_drop_lien. }
  apply rm_does_bind; [done|by apply rm_does_reads, reads_listProtos|intros keys].
  apply rm_does_bind; [done|apply does_drop_keys|intros vs]. apply does_List_bind; [done|]. intros ks' Hks'.
  apply does_each; [done|]. intros k [a ->]%Hks'. apply does_drop_binding.
Qed.

Lemma does_ResetProjectState p : does R (ResetProjectState (D := D) p).
Proof.
  unfold ResetProjectState. apply does_locked. case_match; [apply does_dropProjectState|]. apply does_each; [done|].
  intros q Hq. apply does_deletePrefix. intros a. unfold reset_prefixes in Hq. apply dropped_kept.
  rewrite !elem_of_cons in Hq. destruct_or! Hq; subst; try done. by apply not_elem_of_nil in Hq.
Qed.

End drops.

#[export] Hint Resolve does_dropIAM does_dropProjectState does_ResetProjectState : burrow.

(** ** Reading a project *)

Lemma SafeKey_digits p id :
  AllBytes safe_byte p = true → p ≠ "" → HasPrefix p "/" = false →
  AllBytes (λ a, (N.leb 48 (N_of_ascii a) && N.leb (N_of_ascii a) 57) || bool_decide (a = "-"%char)) id = true → SafeKey (p +:+ id) = true.
Proof.
  intros Hp Hne Hs Hd. apply SafeKey_bytes.
  - rewrite AllBytes_app, Hp. revert Hd. clear. induction id as [|a id IH]; [done|]. cbn. rewrite !andb_true_iff.
    intros [Ha Hd]. split; [|by apply IH]. revert Ha. clear. destruct a as [[] [] [] [] [] [] [] []]; vm_compute; done.
  - by destruct p.
  - destruct p as [|a p]; [done|]. rewrite app_cons. cbn in *. by case_decide.
Qed.

Lemma retiredKey_safe n : SafeKey (retiredKey n) = true.
Proof. apply SafeKey_digits; [done..|apply Itoa_bytes]. Qed.

Lemma digits_bytes id n : digits id = Some n → AllBytes (λ a, (N.leb 48 (N_of_ascii a) && N.leb (N_of_ascii a) 57) || bool_decide (a = "-"%char)) id = true.
Proof.
  unfold digits. destruct (NilZero.uint_of_string id) as [u|] eqn:Hu; [|done]. intros _. apply NilZero.sus in Hu as <-.
  assert (∀ u, AllBytes (λ a, (N.leb 48 (N_of_ascii a) && N.leb (N_of_ascii a) 57) || bool_decide (a = "-"%char))
    (NilEmpty.string_of_uint u) = true) as Hb by (intros v; induction v; cbn; done).
  destruct u; [done|..]; apply Hb.
Qed.

Lemma folderKey_safe id : ParseUint_ok id = true → SafeKey (folderKey id) = true.
Proof. unfold ParseUint_ok. destruct (digits id) eqn:Hd; [|done]. intros _. apply SafeKey_digits; [done..|by eapply digits_bytes]. Qed.

Section project.
Context {D : Type} `{RS : ReliableStore D doc}.
Implicit Types (s : Registry D) (e : Env) (m : contents_).

Abbreviation cts s := (contents (db s)).

Lemma wp_does R {A} e s (op : M Env (Registry D) A) Q :
  does R op → env_ok e → Inv (cts s) → (∀ r s', R (cts s) (cts s') → Q r s') → wp e s op Q.
Proof. intros Hop He HI HQ. eapply wp_mono; [|by apply Hop]. done. Qed.

Lemma inert_put m k d : core k = false → inert m (<[k := d]> m).
Proof. intros Hk k' Hk'. apply lookup_insert_ne. congruence. Qed.

Lemma wp_retireNumber e s p Q :
  (∀ s', inert (<[retiredKey (numberOf p) := DText (p_ProjectID p)]> (cts s)) (cts s') → Q (Ok tt) s') →
  wp e s (retireNumberLocked p) Q.
Proof.
  intros HQ. unfold retireNumberLocked. apply wp_bind, wp_ignore, wp_db_Put; [|intros Hk; pose proof (retiredKey_safe (numberOf p)); unfold retiredKey in *; congruence].
  intros _ d1 H1. apply wp_ignore, wp_db_Put; [|by intros; apply HQ; cbn; rewrite H1].
  intros _ d2 H2. apply HQ. cbn. rewrite H2. cbn [db set_db]. rewrite H1. apply inert_put, outer_core. done.
Qed.

Lemma inert_delete_key m m' id : inert m m' → inert (delete (key id) m) (delete (key id) m').
Proof.
  intros Hm k Hk. destruct (decide (k = key id)) as [->|Hne]; [by rewrite !lookup_delete_eq|].
  rewrite !lookup_delete_ne by done. by apply Hm.
Qed.

(** The record goes after its number was retired. *)
Lemma wp_delete_retired {A} e s id p s1 (rest : M Env (Registry D) A) Q :
  Inv (cts s) → project_in (cts s) id p → inert (<[retiredKey (numberOf p) := DText (p_ProjectID p)]> (cts s)) (cts s1) →
  (∀ s', inert (purged_project (cts s) id p) (cts s') → wp e s' rest Q) →
  wp e s1 (ignore (db_Delete (key id)) ;; rest) Q.
Proof.
  intros HI Hp H1 HQ. destruct (inv_project _ HI _ _ Hp) as (? & [= <-] & Hid & _ & (_ & _ & Hsafe) & _).
  apply wp_bind, wp_ignore, wp_db_Delete; [|congruence]. intros _ d2 H2. apply HQ. cbn. rewrite H2. rewrite Hid in H1. by apply inert_delete_key.
Qed.

Lemma wp_purgeLocked e s id p Q :
  env_ok e → Inv (cts s) → project_in (cts s) id p →
  (∀ s', inert (purged_project (cts s) id p) (cts s') → Q (Ok tt) s') → wp e s (purgeLocked p) Q.
Proof.
  intros He HI Hp HQ. destruct (inv_project _ HI _ _ Hp) as (? & [= <-] & Hid & _). unfold purgeLocked. rewrite Hid.
  apply wp_bind, wp_retireNumber. intros s0 H0. apply (wp_delete_retired _ s id p); [done..|]. intros s1 H1.
  assert (Inv (cts s1)) as HI1 by (eapply Inv_inert; [|done]; by apply Inv_purge_project).
  apply wp_bind, wp_ignore, (wp_does inert); [apply does_dropProjectState, _|done..|]. intros r s2 H2.
  apply HQ. cbn. by eapply inert_trans.
Qed.

Lemma purged_around m m' id p : project_in m id p → inert (purged_project m id p) m' → around_folders m m'.
Proof.
  intros Hp Hm. split; [by eapply rtc_once, w_purge|]. intros id'. rewrite Hm by apply core_folderKey. unfold purged_project.
  rewrite lookup_delete_ne by apply key_folderKey. rewrite lookup_insert_ne; [done|]. intros E. by symmetry in E; apply folderKey_retiredKey in E.
Qed.

Lemma purged_gone m m' id p : inert (purged_project m id p) m' → m' !! key id = None.
Proof. intros Hm. rewrite Hm by apply core_key. apply lookup_delete_eq. Qed.

Definition p_expired (p : Project) (t : Time) : bool := expired (p_State p) (p_DeleteTime p) t.

(** A project is read from an unchanged store; one that is not found is not there,
    or no longer. *)
Lemma wp_load_full e s id Q :
  env_ok e → Inv (cts s) →
  (∀ p, project_in (cts s) id p → typed_project id p → p_expired p (clock_Now e) = false → Q (Ok p) s) →
  (∀ s', around_folders (cts s) (cts s') → cts s' !! key id = None → (∀ p, project_in (cts s) id p → p_expired p (clock_Now e) = true) →
     Q (Err NotFound) s') → wp e s (load id) Q.
Proof.
  intros He HI Hok Hno. unfold load, find. apply wp_bind, wp_bind, wp_raw. destruct (cts s !! key id) as [d|] eqn:Hd.
  - destruct (inv_project _ HI _ _ Hd) as (p & -> & Ht). pose proof Ht as (_ & _ & (_ & _ & Hsafe) & _). rewrite Hsafe. cbn.
    apply wp_bind, wp_clock. fold (p_expired p (clock_Now e)). destruct (p_expired p (clock_Now e)) eqn:Hx; [|by apply wp_ret, Hok].
    apply wp_bind, (wp_purgeLocked _ _ id); [done..|]. intros s' Hs'. apply wp_throw, Hno; [by eapply purged_around|by eapply purged_gone|].
    intros q Hq. unfold project_in in Hq. congruence.
  - assert (∀ p, project_in (cts s) id p → p_expired p (clock_Now e) = true) as Hn by (intros p Hp; unfold project_in in Hp; congruence).
    destruct (SafeKey (key id)); by apply Hno.
Qed.

Lemma wp_load e s id Q :
  env_ok e → Inv (cts s) →
  (∀ p, project_in (cts s) id p → typed_project id p → p_expired p (clock_Now e) = false → Q (Ok p) s) →
  (∀ s', around_folders (cts s) (cts s') → cts s' !! key id = None → Q (Err NotFound) s') → wp e s (load id) Q.
Proof. intros. apply wp_load_full; auto. Qed.

Lemma rm_does_load id : does around_folders (load (D := D) id).
Proof. intros e s He HI. by apply wp_load. Qed.

(** *** A project changed in place *)

Lemma project_writes m id p p' :
  project_in m id p → typed_project id p' → p_Number p' = p_Number p → p_CreateTime p' = p_CreateTime p → writes m (<[key id := DProject p']> m).
Proof. intros. by eapply rtc_once, w_project_set. Qed.

Lemma wp_put_project e s p Q :
  good_id (p_ProjectID p) → (∀ d', contents d' = <[key (p_ProjectID p) := DProject p]> (cts s) → Q (Ok tt) (set_db s d')) →
  wp e s (put_project p) Q.
Proof. intros (_ & _ & Hk) HQ. apply wp_db_Put; [auto|congruence]. Qed.

(** Read a project, refuse or prepare, write it back changed. *)
Lemma does_change (op : Project → M Env (Registry D) Project) id :
  (∀ p e s Q, env_ok e → Inv (cts s) → project_in (cts s) id p → typed_project id p →
     (∀ s' x, writes (cts s) (cts s') → Q (Err x) s') →
     (∀ p', typed_project id p' → p_Number p' = p_Number p → p_CreateTime p' = p_CreateTime p → wp e s (put_project p' ;; mret p') Q) → wp e s (op p) Q) →
  does writes (locked (load id ≫= op)).
Proof.
  intros Hop. apply does_locked. intros e s He HI. apply wp_bind, wp_load; [done..| |by intros s' [? _] _].
  intros p Hp Ht _. apply Hop; [done..|]. intros p' Ht' Hnum Hc. pose proof Ht' as (Hid & _ & Hg & _).
  apply wp_bind, wp_put_project; [by rewrite Hid|]. intros d' Hd'. apply wp_ret. cbn. rewrite Hd', Hid. by eapply project_writes.
Qed.

Lemma does_Update id display labels : does writes (Update (D := D) id display labels).
Proof.
  apply does_change. intros p e s Q He HI Hp Ht Herr Hput. apply wp_bind, wp_refuse; intros _; [by apply Herr|]. destruct Ht as (? & ? & ? & ?). by apply Hput.
Qed.

Lemma does_Undelete id : does writes (Undelete (D := D) id).
Proof.
  apply does_change. intros p e s Q He HI Hp Ht Herr Hput. apply wp_bind, wp_refuse; intros _; [by apply Herr|]. destruct Ht as (? & ? & ? & ?). by apply Hput.
Qed.

Lemma reads_liensOf id : reads (liensOfLocked (D := D) id).
Proof. unfold liensOfLocked. solve_reads. Qed.
Lemma reads_checkDeleteLiens id : reads (checkDeleteLiensLocked (D := D) id).
Proof. unfold checkDeleteLiensLocked. pose proof reads_liensOf. solve_reads. Qed.

Lemma does_Delete_project id : does writes (Delete (D := D) id).
Proof.
  apply does_change. intros p e s Q He HI Hp Ht Herr Hput. apply wp_bind, wp_refuse; intros _; [by apply Herr|].
  apply wp_bind, wp_reads; [apply reads_checkDeleteLiens|]. destruct ((checkDeleteLiensLocked (p_ProjectID p) e s).2); [|by apply Herr].
  apply wp_bind, wp_clock. destruct Ht as (? & ? & ? & ?). by apply Hput.
Qed.

Lemma does_quiet R `{!Drops R} {A} (op : M Env (Registry D) A) : (∀ e s, db (op e s).1 = db s) → does R op.
Proof. intros Hop e s _ _. unfold wp. by rewrite Hop. Qed.

Lemma does_Purge id : does writes (Purge (D := D) id).
Proof.
  unfold Purge. apply rm_does_bind; [apply _| |intros r; apply rm_does_bind; [apply _|by apply does_quiet; [apply _|]|]].
  - apply does_locked. intros e s He HI. apply wp_bind, wp_load; [done..| |by intros s' [? _] _]. intros p Hp Ht _.
    apply wp_bind, wp_refuse; intros _; [done|]. apply wp_bind, wp_retireNumber. intros s0 H0. apply wp_bind.
    apply (wp_delete_retired _ s id p); [done..|]. intros s1 H1.
    assert (Inv (cts s1)) as HI1 by (eapply Inv_inert; [|done]; by apply Inv_purge_project).
    apply wp_attempt, (wp_does inert); [apply does_dropProjectState, _|done..|]. intros r s2 H2.
    eapply rtc_once, w_purge; [done|]. by eapply inert_trans.
  - intros h. apply rm_does_reads; [apply _|]. by destruct r, h.
Qed.

End project.

(** ** Registering a project *)

Lemma good_nonempty id : good_id id → id ≠ "".
Proof. intros [Hne _] ->. by apply Hne. Qed.

Section register.
Context {D : Type} `{RS : ReliableStore D doc}.
Implicit Types (s : Registry D) (e : Env) (m : contents_).

Abbreviation cts s := (contents (db s)).

Definition number_free m (n : Z) : Prop := (∀ id p, project_in m id p → numberOf p ≠ n) ∧ ¬ retired m n.

Lemma NumberOf_project e s id p : Inv (cts s) → project_in (cts s) id p → (NumberOf id e s).2 = Ok (Some (numberOf p)).
Proof.
  intros HI Hp. destruct (inv_project _ HI _ _ Hp) as (? & [= <-] & _ & _ & Hg & _). pose proof (good_nonempty _ Hg). destruct Hg as (_ & Hsep & Hk).
  unfold NumberOf. rewrite bool_decide_false, Hsep by done. cbn [orb]. unfold mbind, M_bind, raw.
  by rewrite (proj2 (Get_ok (db s) (key id) (DProject p)) (conj Hk Hp)).
Qed.

Lemma free_number_spec e s used n :
  Inv (cts s) → (∀ id p, project_in (cts s) id p → numberOf p ∈ used) → (free_number used n e s).2 = Ok true → number_free (cts s) n.
Proof.
  intros HI Hu. unfold free_number. case_bool_decide as Hn; [done|]. unfold mbind, M_bind, raw. cbn.
  rewrite Get_law. unfold checkKey. fold (retiredKey n). rewrite retiredKey_safe. cbn. intros Hr. split.
  - intros id p Hp <-. by eapply Hn, Hu.
  - unfold retired. destruct (cts s !! retiredKey n); [done|]. by intros [].
Qed.

Lemma draw_number_spec e s used ds n :
  Inv (cts s) → (∀ id p, project_in (cts s) id p → numberOf p ∈ used) → Forall draw_ok ds →
  (draw_number used ds e s).2 = Ok n → number_free (cts s) n ∧ n ≠ 0%Z.
Proof.
  intros HI Hu. induction 1 as [|[v|t] ds Hv _ IH]; [done| |done]. cbn in Hv |- *. unfold mbind, M_bind.
  pose proof (reads_free_number used (v + 100000000000) e s) as Hs.
  pose proof (free_number_spec e s used (v + 100000000000) HI Hu) as Hf.
  destruct (free_number used (v + 100000000000) e s) as [s' [[]|]]; cbn in *; subst; [|done..].
  intros [= <-]. split; [by apply Hf|lia].
Qed.

Lemma wp_assignNumber e s id Q :
  env_ok e → Inv (cts s) → (∀ n, number_free (cts s) n → n ≠ 0%Z → Q (Ok n) s) → (∀ x, Q (Err x) s) → wp e s (assignNumberLocked id) Q.
Proof.
  intros He HI Hok Herr. unfold assignNumberLocked. apply wp_bind, wp_db_List, wp_bind, wp_collect_reads; [|intros used Hused|done].
  { intros k. apply reads_NumberOf. }
  assert (∀ id p, project_in (cts s) id p → numberOf p ∈ used) as Hu.
  { intros i p Hp. apply Hused. exists (key i). split; [|unfold key; rewrite TrimPrefix_app; by apply NumberOf_project].
    apply elem_of_list_keys. split; [by eexists|apply HasPrefix_app]. }
  apply wp_bind, wp_reads; [apply reads_free_number|].
  destruct ((free_number used (DerivedProjectNumber id) e s).2) as [[]|] eqn:Hf; [|apply wp_bind, wp_ask|done].
  - apply wp_ret, Hok; [by eapply free_number_spec|]. pose proof (DerivedProjectNumber_range id). lia.
  - apply wp_reads; [apply reads_draw_number|]. destruct ((draw_number used (draws e) e s).2) eqn:Hd; [|done].
    by edestruct draw_number_spec; [..|apply Hok].
Qed.

(** The project [registerLocked] stores. *)
Definition registered (p : Project) (t : Time) (n : Z) : Project :=
  mkProject ("projects/" +:+ p_ProjectID p) (p_ProjectID p)
    (if bool_decide (TrimSpace (p_DisplayName p) = "") then p_ProjectID p else p_DisplayName p) ACTIVE
    (match p_CreateTime p with None => RFC3339 t | c => c end) (p_Labels p) None (p_Parent p) (p_ConfiguredCapabilities p) n.

Lemma wp_registerLocked e s p Q :
  env_ok e → Inv (cts s) → good_id (p_ProjectID p) →
  (∀ p' s', project_in (cts s) (p_ProjectID p) p' → p_expired p' (clock_Now e) = false → cts s' = cts s → Q (Err AlreadyExists) s') →
  (∀ x s', around_folders (cts s) (cts s') → Q (Err x) s') →
  (∀ n m1 s', around_folders (cts s) m1 → m1 !! key (p_ProjectID p) = None → number_free m1 n → n ≠ 0%Z →
     cts s' = <[key (p_ProjectID p) := DProject (registered p (clock_Now e) n)]> m1 → Q (Ok (registered p (clock_Now e) n)) s') →
  wp e s (registerLocked p) Q.
Proof.
  intros He HI Hg Hdup Herr Hok. unfold registerLocked. apply wp_bind, wp_attempt, wp_load; [done..| |].
  { intros p' Hp' _ Hx. apply wp_throw. by eapply Hdup. }
  intros s1 H1 Hno. apply wp_bind, wp_clock, wp_bind. pose proof (Inv_moves _ _ _ HI H1) as HI1.
  apply wp_assignNumber; [done..| |intros x; by apply Herr]. intros n Hn Hn0. apply wp_bind. unfold wp at 1. cbn.
  apply wp_bind, (wp_does inert); [apply does_dropProjectState, _|done..|]. intros [[]|x] s2 H2; cbn in H2.
  2: { apply Herr. etrans; [done|]. by apply moves_inert. }
  apply wp_bind, wp_put_project; [done|]. intros d3 H3. apply wp_ret. apply (Hok n (cts s2)); [| |split|done|done].
  - etrans; [done|]. by apply moves_inert.
  - by rewrite H2 by apply core_key.
  - intros id q. rewrite (inert_project (cts s1)) by done. apply Hn.
  - rewrite (inert_retired (cts s1)) by done. apply Hn.
Qed.

Lemma does_registerLocked p : good_id (p_ProjectID p) → does around_folders (registerLocked (D := D) p).
Proof.
  intros Hg e s He HI. apply wp_registerLocked; [done..| |done|].
  - intros p' s' _ _ ->. done.
  - intros n m1 s' H1 Hno [Hn Hr] Hn0 ->. etrans; [done|].
    assert (numberOf (registered p (clock_Now e) n) = n) as En.
    { unfold numberOf. cbn [p_Number registered]. by rewrite (proj2 (Z.eqb_neq n 0) Hn0). }
    split.
    + apply rtc_once. apply (w_project_new m1 (registered p (clock_Now e) n)); cbn; [done|by split_and!|done|rewrite En; done..].
    + intros id. by rewrite lookup_insert_ne by apply key_folderKey.
Qed.

Lemma does_register p : does around_folders (register (D := D) p).
Proof.
  intros e s He HI. unfold register. apply wp_bind, wp_refuse; intros H1; [done|]. apply wp_bind, wp_refuse; intros H2; [done|].
  apply wp_bind, wp_refuse; intros H3; [done|]. apply does_locked; [|done..]. apply does_registerLocked.
  split_and!; [by apply bool_decide_eq_false in H1|done|by apply negb_false_iff].
Qed.

Lemma does_Get id : does around_folders (Get (D := D) id).
Proof. apply does_locked, rm_does_load. Qed.

Lemma does_EnsureExists id : does around_folders (EnsureExists (D := D) id).
Proof. pose proof does_register. pose proof does_Get. unfold EnsureExists. solve_does. Qed.

Lemma does_List_ : does around_folders (List_ (D := D)).
Proof. pose proof does_Get. unfold List_. solve_does. Qed.

Lemma does_Active : does around_folders (Active (D := D)).
Proof. pose proof does_List_. unfold Active. solve_does. Qed.

End register.

(** ** Reading folders *)

Lemma ParseUint_no_folder id : ParseUint_ok id = true → HasPrefix id "folders/" = false.
Proof.
  destruct (HasPrefix id "folders/") eqn:Hp; [|done]. apply HasPrefix_spec in Hp as [r ->]. unfold ParseUint_ok.
  destruct (digits ("folders/" +:+ r)) as [n|] eqn:Hd; [|done]. apply digits_bytes in Hd. by rewrite app_cons in Hd.
Qed.

Lemma FolderName_Ok name n : FolderName name = Ok n → ∃ id, n = "folders/" +:+ id ∧ TrimPrefix name "folders/" = id ∧ ParseUint_ok id = true.
Proof.
  unfold FolderName. destruct (ParseUint_ok (TrimPrefix name "folders/")) eqn:Hp; [|done]. cbn. case_bool_decide; [done|].
  intros [= <-]. by eexists.
Qed.

Lemma FolderName_id id : ParseUint_ok id = true → FolderName id = Ok ("folders/" +:+ id).
Proof.
  intros Hid. unfold FolderName, TrimPrefix. rewrite (ParseUint_no_folder _ Hid), Hid. cbn. case_bool_decide; [by subst|done].
Qed.

Lemma FolderName_name id : ParseUint_ok id = true → FolderName ("folders/" +:+ id) = Ok ("folders/" +:+ id).
Proof. intros Hid. unfold FolderName. rewrite TrimPrefix_app, Hid. cbn. case_bool_decide; [by subst|done]. Qed.

(** A name with the prefix is in its own form. *)
Lemma FolderName_prefix name id : HasPrefix name "folders/" = true → FolderName name = Ok ("folders/" +:+ id) → name = "folders/" +:+ id.
Proof. intros [r ->]%HasPrefix_spec (i & E & Ht & _)%FolderName_Ok. rewrite TrimPrefix_app in Ht. by subst. Qed.

Definition f_expired (f : Folder) (t : Time) : bool := expired (f_State f) (f_DeleteTime f) t.

Lemma active_not_expired f t : f_State f = ACTIVE → f_expired f t = false.
Proof. intros Ha. unfold f_expired, expired. by rewrite Ha. Qed.

Lemma f_ID_typed id f : typed_folder id f → f_ID f = id.
Proof. intros [Hn _]. unfold f_ID. by rewrite Hn, TrimPrefix_app. Qed.

Section folder.
Context {D : Type} `{RS : ReliableStore D doc}.
Implicit Types (s : Registry D) (e : Env) (m : contents_).

Abbreviation cts s := (contents (db s)).

Lemma reaped m m' t id f :
  folder_in m id f → f_expired f t = true → inert (delete (folderKey id) m) m' → reaps t m m' ∧ m' !! folderKey id = None.
Proof.
  intros Hf Hx Hm. assert (f_State f = DELETE_REQUESTED) as Hs.
  { unfold f_expired, expired in Hx. by apply andb_true_iff in Hx as [?%bool_decide_eq_true _]. }
  split; [split_and!|].
  - by eapply rtc_once, w_folder_purge.
  - intros i. rewrite Hm by apply core_key. rewrite lookup_delete_ne; [done|]. intros E. by symmetry in E; apply key_folderKey in E.
  - intros i g. unfold folder_in. rewrite Hm by apply core_folderKey. rewrite lookup_delete_Some. naive_solver.
  - intros i g Hg Hgx. unfold folder_in. rewrite Hm by apply core_folderKey. rewrite lookup_delete_ne; [done|].
    intros E%folderKey_inj. subst i. unfold folder_in, f_expired in *. congruence.
  - rewrite Hm by apply core_folderKey. apply lookup_delete_eq.
Qed.

Lemma wp_loadFolder e s name Q :
  Inv (cts s) → (∀ x, FolderName name = Err x → Q (Err x) s) →
  (∀ id f, FolderName name = Ok ("folders/" +:+ id) → folder_in (cts s) id f → typed_folder id f → f_expired f (clock_Now e) = false → Q (Ok f) s) →
  (∀ id s', FolderName name = Ok ("folders/" +:+ id) → reaps (clock_Now e) (cts s) (cts s') → cts s' !! folderKey id = None → Q (Err NotFound) s') →
  wp e s (loadFolder name) Q.
Proof.
  intros HI Hbad Hok Hno. unfold loadFolder. apply wp_bind, wp_lift. destruct (FolderName name) as [n|x] eqn:Hn; [|by apply Hbad].
  destruct (FolderName_Ok _ _ Hn) as (id & -> & _ & Hid). rewrite TrimPrefix_app. unfold find.
  apply wp_bind, wp_bind, wp_raw. rewrite (folderKey_safe _ Hid). destruct (cts s !! folderKey id) as [d|] eqn:Hd.
  2: { by apply wp_throw, (Hno id). }
  destruct (inv_folder _ HI _ _ Hd) as (f & -> & Ht). cbn. apply wp_bind, wp_clock. fold (f_expired f (clock_Now e)).
  destruct (f_expired f (clock_Now e)) eqn:Hx; [|by apply wp_ret, (Hok id)].
  apply wp_bind, wp_ignore, wp_db_Delete; [|rewrite (folderKey_safe _ Hid); done]. intros _ d1 H1. apply wp_bind.
  apply wp_ignore, wp_db_Delete; [intros _ d2 H2|intros _ x]; apply wp_throw.
  - destruct (reaped (cts s) (contents d2) (clock_Now e) id f Hd Hx) as [Hr Hk]; [|by apply (Hno id)].
    rewrite H2. cbn [db set_db]. rewrite H1. intros k Hk. apply lookup_delete_ne. intros <-.
    assert (core (iamKey ("folders/" +:+ id)) = false) by solve_core. congruence.
  - destruct (reaped (cts s) (contents d1) (clock_Now e) id f Hd Hx) as [Hr Hk]; [by rewrite H1|by apply (Hno id)].
Qed.

Lemma wp_loadFolder_active e s id f Q :
  Inv (cts s) → folder_in (cts s) id f → f_State f = ACTIVE → Q (Ok f) s → wp e s (loadFolder (f_Name f)) Q.
Proof.
  intros HI Hf Ha HQ. destruct (inv_folder _ HI _ _ Hf) as (? & [= <-] & Hn & Hid).
  apply wp_loadFolder; [done|..]; rewrite Hn, (FolderName_name _ Hid).
  - done.
  - intros id' f' [= E%app_inj_l] Hf' _ _. subst id'. unfold folder_in in *. congruence.
  - intros id' s' [= E%app_inj_l] (_ & _ & _ & Hk) Hno. subst id'. specialize (Hk id f Hf (active_not_expired f _ Ha)).
    unfold folder_in in Hk. congruence.
Qed.

Lemma does_loadFolder name e s : env_ok e → Inv (cts s) → wp e s (loadFolder name) (λ _ s', reaps (clock_Now e) (cts s) (cts s')).
Proof. intros He HI. apply wp_loadFolder; intros; done || reflexivity. Qed.

Lemma writes_loadFolder name : does writes (loadFolder (D := D) name).
Proof. intros e s He HI. eapply wp_mono; [|by apply does_loadFolder]. by intros r s' [? _]. Qed.

(** One turn of the listing: the folder, if it is still there. *)
Abbreviation turn k := (f ← attempt (loadFolder (TrimPrefix k folderPrefix)); mret (match f with Ok f => Some f | Err _ => None end)).

Lemma wp_turn e s id Q :
  Inv (cts s) → ParseUint_ok id = true →
  (∀ o s1, reaps (clock_Now e) (cts s) (cts s1) → (∀ m' f, reaps (clock_Now e) (cts s1) m' → o = Some f ↔ folder_in m' id f) → Q (Ok o) s1) →
  wp e s (turn (folderKey id)) Q.
Proof.
  intros HI Hid HQ. unfold folderKey. rewrite TrimPrefix_app. apply wp_bind, wp_attempt, wp_loadFolder; [done|..]; rewrite (FolderName_id _ Hid).
  - done.
  - intros id' f [= E%app_inj_l] Hf Ht Hx. subst id'. apply wp_ret, HQ; [done|]. intros m' g (_ & _ & Hb & Hk). split.
    + intros [= <-]. by apply Hk.
    + intros Hg%Hb. unfold folder_in in *. congruence.
  - intros id' s1 [= E%app_inj_l] Hr Hno. subst id'. apply wp_ret, HQ; [done|]. intros m' g (_ & _ & Hb & _). split; [done|].
    intros Hg%Hb. unfold folder_in in *. congruence.
Qed.

Lemma wp_turns e ks s Q :
  Inv (cts s) → (∀ k, k ∈ ks → ∃ id, k = folderKey id ∧ ParseUint_ok id = true) →
  (∀ fs s', reaps (clock_Now e) (cts s) (cts s') → (∀ f, f ∈ fs ↔ ∃ id, folderKey id ∈ ks ∧ folder_in (cts s') id f) → Q (Ok fs) s') →
  wp e s (collect (λ k, turn k) ks) Q.
Proof.
  revert s Q. induction ks as [|k ks IH]; intros s Q HI Hks HQ.
  { apply wp_ret, HQ; [done|]. intros f. split; [by intros ?%not_elem_of_nil|]. by intros (? & ?%not_elem_of_nil & _). }
  destruct (Hks k) as (id & -> & Hid); [left|]. cbn [collect]. apply wp_bind, wp_turn; [done..|]. intros o s1 H1 Ho.
  apply wp_bind, IH; [by eapply (Inv_moves (reaps _))|intros; apply Hks; by right|]. intros fs s2 H2 Hfs. apply wp_ret, HQ; [by etrans|].
  intros f. transitivity (o = Some f ∨ f ∈ fs); [destruct o; [rewrite elem_of_cons|]; naive_solver|]. rewrite (Ho _ f H2), Hfs. split.
  - intros [Hf|(i & Hi & Hf)]; [exists id; split; [left|done]|exists i; split; [by right|done]].
  - intros (i & [E%folderKey_inj|Hi]%elem_of_cons & Hf); [left; by subst|right; eauto].
Qed.

(** The listing holds the folders that are stored when it ends. *)
Lemma wp_folders e s Q :
  Inv (cts s) →
  (∀ fs s', reaps (clock_Now e) (cts s) (cts s') → (∀ f, f ∈ fs ↔ ∃ id, folder_in (cts s') id f) → Q (Ok fs) s') → wp e s folders Q.
Proof.
  intros HI HQ. unfold folders. apply wp_bind, wp_db_List, wp_bind, wp_turns; [done|..].
  - intros k ([d Hd] & [id ->]%HasPrefix_spec)%elem_of_list_keys. exists id. split; [done|].
    by destruct (inv_folder _ HI _ _ Hd) as (f & _ & _ & Hid).
  - intros fs s' Hr Hfs. apply wp_ret, HQ; [done|]. intros f. rewrite sort_by_elem, Hfs. split; [intros (id & _ & Hf); eauto|].
    intros [id Hf]. exists id. split; [|done]. apply elem_of_list_keys. split; [|apply HasPrefix_app].
    destruct Hr as (_ & _ & Hb & _). apply Hb in Hf. by eexists.
Qed.

Lemma writes_folders : does writes (folders (D := D)).
Proof. intros e s He HI. apply wp_folders; [done|]. by intros fs s' [? _] _. Qed.

End folder.

(** ** The checks of the hierarchy *)

Lemma HasPrefix_folder id : HasPrefix ("folders/" +:+ id) "folders/" = true.
Proof. apply HasPrefix_app. Qed.

Lemma above_snoc m x h y : above m x (S h) y → ∃ id c, folder_in m id c ∧ f_State c = ACTIVE ∧ f_Parent c = y ∧ above m x h (f_Name c).
Proof.
  revert x. induction h as [|h IH]; intros x Hx; inversion Hx as [|id f ? ? Hf Ha Hp Hn]; subst.
  - inversion Hp; subst. exists id, f. split_and!; [done..|constructor].
  - destruct (IH _ Hp) as (i & c & Hc & Hca & Hcp & Hab). exists i, c. split_and!; [done..|]. by eapply above_S.
Qed.

Definition lists (all : list Folder) (m : contents_) : Prop := ∀ f, f ∈ all ↔ ∃ id, folder_in m id f.

Lemma elem_of_children all m name f :
  lists all m → f ∈ base.filter (λ f, f_Parent f = name ∧ f_State f = ACTIVE) all ↔ (∃ id, folder_in m id f) ∧ f_Parent f = name ∧ f_State f = ACTIVE.
Proof. intros Hl. rewrite list_elem_of_filter, (Hl f). naive_solver. Qed.

Lemma max_elem ds d : d ∈ ds → (d ≤ foldr Nat.max 0 ds)%nat.
Proof. induction 1; cbn; lia. Qed.

(** The depth computed is no less than any path down. *)
Lemma subtreeDepth_bound fuel all m name d x h :
  lists all m → subtreeDepth fuel all name = Some d → above m x h name → (S h ≤ d)%nat.
Proof.
  intros Hl. revert name d h. induction fuel as [|fuel IH]; intros name d h; [done|]. cbn.
  destruct (mapM _ _) as [ds|] eqn:Hds; [|done]. intros [= <-] Hab. destruct h as [|h]; [lia|].
  destruct (above_snoc _ _ _ _ Hab) as (id & c & Hc & Hca & Hcp & Hx). apply mapM_Some_1 in Hds.
  assert (c ∈ base.filter (λ f, f_Parent f = name ∧ f_State f = ACTIVE) all) as Hin by (apply (elem_of_children all m); eauto).
  apply list_elem_of_lookup in Hin as [i Hi]. destruct (Forall2_lookup_l _ _ _ _ _ Hds Hi) as (dc & Hdc & Hs).
  specialize (IH _ _ _ Hs Hx). pose proof (max_elem ds dc (list_elem_of_lookup_2 _ _ _ Hdc)). lia.
Qed.

Lemma subtreeDepth_total fuel all m name :
  lists all m → (∀ x h, above m x h name → (h < fuel)%nat) → is_Some (subtreeDepth fuel all name).
Proof.
  intros Hl. revert name. induction fuel as [|fuel IH]; intros name Hh; [specialize (Hh name 0 (above_0 _ _)); lia|]. cbn.
  edestruct (mapM_is_Some_2 (λ f, subtreeDepth fuel all (f_Name f))) as [ds ->]; [|by eexists].
  apply Forall_forall. intros c ([id Hc] & Hcp & Hca)%(elem_of_children all m); [|done]. apply IH. intros x h Hx.
  apply PeanoNat.lt_S_n. rewrite <- Nat.add_1_r. apply (Hh x). eapply above_trans; [done|]. eapply above_S; [done..|]. rewrite Hcp. constructor.
Qed.

Lemma checkSiblingName_free all m id f self u :
  Inv m → lists all m → checkSiblingName all (f_Parent f) (f_DisplayName f) self = Ok u → self = "" ∨ self = "folders/" +:+ id →
  sibling_free m id f.
Proof.
  intros HI Hl. unfold checkSiblingName. destruct (existsb _ all) eqn:Hex; [done|]. intros _ Hself id' f' Hf' Ha Hp Hd.
  destruct (inv_folder m HI _ _ Hf') as (? & [= <-] & Hn & _). destruct (decide (f_Name f' = self)) as [E|Hne].
  - destruct Hself as [->| ->]; rewrite Hn in E; [done|]. by apply app_inj_l in E.
  - exfalso. apply not_true_iff_false in Hex. apply Hex, existsb_exists. exists f'.
    split; [apply list_elem_of_In, Hl; eauto|]. by rewrite (bool_decide_true _ Hp), (bool_decide_true _ Ha), (bool_decide_false _ Hne), (bool_decide_true _ Hd).
Qed.

Lemma reaps_above t m m' x h y : reaps t m m' → above m x h y → above m' x h y.
Proof. intros (_ & _ & _ & Hk). apply above_mono. intros id f Hf Ha. apply Hk; [done|]. by apply active_not_expired. Qed.

Lemma reaps_above_back t m m' x h y : reaps t m m' → above m' x h y → above m x h y.
Proof. intros (_ & _ & Hb & _). apply above_mono. eauto. Qed.

Section hierarchy.
Context {D : Type} `{RS : ReliableStore D doc}.
Implicit Types (s : Registry D) (e : Env) (m : contents_).

Abbreviation cts s := (contents (db s)).

Lemma wp_parent_depth e s parent fuel p h depth Q :
  Inv (cts s) → above (cts s) p h OrganizationName → (h ≤ fuel)%nat →
  (h = 0 ∨ depth + h ≤ MaxFolderDepth + 2 → Q (Ok (depth + h)) s)%nat → (∀ x, x ≠ ErrFuel → Q (Err x) s) →
  wp e s (parent_depth fuel parent p depth) Q.
Proof.
  intros HI. revert p h depth. induction fuel as [|fuel IH]; intros p h depth Hab Hh Hok Herr; cbn [parent_depth].
  { assert (h = 0) as -> by lia. inversion Hab; subst. cbn. apply wp_ret. replace depth with (depth + 0)%nat by lia. apply Hok. by left. }
  destruct h as [|h].
  { inversion Hab; subst. cbn. apply wp_ret. replace depth with (depth + 0)%nat at 1 by lia. apply Hok. by left. }
  inversion Hab as [|id f ? ? Hf Ha Hp Hn]; subst. destruct (inv_folder _ HI _ _ Hf) as (? & [= <-] & Hnm & _).
  assert (HasPrefix (f_Name f) "folders/" = true) as -> by (rewrite Hnm; apply HasPrefix_folder). cbn [negb]. apply wp_bind, (wp_loadFolder_active _ _ id); [done..|].
  apply wp_bind, wp_refuse; intros H1; [by apply Herr|]. apply wp_bind, wp_refuse; intros H2; [by apply Herr|].
  apply Nat.ltb_ge in H2. apply (IH _ h); [done|lia| |done]. intros Hd. replace (S depth + h)%nat with (depth + S h)%nat by lia.
  apply Hok. right. destruct Hd as [->|Hd]; lia.
Qed.

Lemma parent_depth_S fuel parent p depth :
  parent_depth (D := D) (S fuel) parent p depth =
  if negb (HasPrefix p "folders/") then mret depth
  else
    f ← loadFolder p;
    refuse (bool_decide (p = parent) && negb (bool_decide (f_State f = ACTIVE))) FailedPrecondition ;;
    refuse (MaxFolderDepth + 1 <? depth)%nat (Internal (Sentinel "too deep")) ;;
    parent_depth fuel parent (f_Parent f) (S depth).
Proof. done. Qed.

(** The parent of a folder is checked: it is active, or the organization, and so deep. *)
Lemma wp_checkParent e s parent Q :
  Inv (cts s) →
  (∀ d, above (cts s) parent d OrganizationName → (d ≤ MaxFolderDepth + 2)%nat → Q (Ok d) s) →
  (∀ x s', reaps (clock_Now e) (cts s) (cts s') → x ≠ ErrFuel → Q (Err x) s') → wp e s (checkParentLocked parent) Q.
Proof.
  intros HI Hok Herr. unfold checkParentLocked. case_bool_decide as Ho.
  { apply wp_ret, Hok; [subst; constructor|lia]. }
  destruct (HasPrefix parent "organizations/"); [by apply wp_throw, Herr|].
  destruct (HasPrefix parent "folders/") eqn:Hp; [|by apply wp_throw, Herr]. cbn [negb].
  change (MaxFolderDepth + 3)%nat with (S 12). rewrite parent_depth_S, Hp. cbn [negb].
  apply wp_bind, wp_loadFolder; [done|..].
  - intros x Hx. apply Herr; [done|]. unfold FolderName in Hx. destruct (_ || _); [by injection Hx as <-|done].
  - intros id f Hn Hf Ht _. pose proof (FolderName_prefix _ _ Hp Hn) as ->. apply wp_bind, wp_refuse; intros H1; [by apply Herr|].
    apply wp_bind, wp_refuse; intros H2; [done|]. rewrite bool_decide_true in H1 by done. cbn in H1.
    apply negb_false_iff, bool_decide_eq_true in H1. destruct (inv_tree _ HI _ _ Hf H1) as (d & Hd & Hab). destruct Ht as [Hnm _].
    destruct d as [|d]; [apply above_zero in Hab; by rewrite Hnm in Hab|].
    apply (above_inv _ id) in Hab as Hpar; [|done..]. apply (wp_parent_depth _ _ _ _ _ d); [done..|unfold deepest, MaxFolderDepth in Hd; lia| |by intros; apply Herr].
    intros Hd1. change (1 + d)%nat with (S d). apply Hok; [by rewrite <- Hnm|]. unfold MaxFolderDepth in *. lia.
  - intros id s' Hn Hr _. by apply Herr.
Qed.

Lemma wp_not_below e s fuel name p h Q :
  Inv (cts s) → name ≠ OrganizationName → above (cts s) p h OrganizationName → (h ≤ fuel)%nat →
  ((∀ k, ¬ above (cts s) p k name) → Q (Ok tt) s) → (∀ x, x ≠ ErrFuel → Q (Err x) s) → wp e s (not_below fuel name p) Q.
Proof.
  intros HI Hname. revert p h. induction fuel as [|fuel IH]; intros p h Hab Hh Hok Herr; cbn [not_below].
  { assert (h = 0) as -> by lia. inversion Hab; subst. apply wp_ret, Hok. intros k Hk. by apply above_org in Hk as [_ ?]. }
  destruct h as [|h]; [inversion Hab; subst; apply wp_ret, Hok; intros k Hk; by apply above_org in Hk as [_ ?]|].
  inversion Hab as [|id f ? ? Hf Ha Hp Hn]; subst. destruct (inv_folder _ HI _ _ Hf) as (? & [= <-] & Hnm & _).
  assert (HasPrefix (f_Name f) "folders/" = true) as -> by (rewrite Hnm; apply HasPrefix_folder). cbn [negb]. apply wp_bind, wp_refuse; intros H1; [by apply Herr|].
  apply wp_bind, (wp_loadFolder_active _ _ id); [done..|]. apply (IH _ h); [done|lia| |done]. intros Hno. apply Hok.
  intros [|k] Hk; [inversion Hk; subst; by rewrite bool_decide_true in H1|]. apply (above_inv _ id) in Hk; [|done..]. by apply (Hno k).
Qed.

(** A path below a folder is never as long as the fuel. *)
Lemma below_short m id f x h : Inv m → folder_in m id f → f_State f = ACTIVE → above m x h (f_Name f) → (h < depth_fuel)%nat.
Proof.
  intros HI Hf Ha Hab. destruct h as [|h]; [unfold depth_fuel; lia|].
  inversion Hab as [|i g ? ? Hg Hga _ Hn]; subst. destruct (inv_tree m HI i g Hg Hga) as (d & Hd & Ho).
  destruct (above_depth m _ _ _ _ HI Hab Ho) as [Hle _]. unfold depth_fuel, deepest in *. lia.
Qed.

Lemma wp_putFolder e s id f Q :
  typed_folder id f → (∀ d', contents d' = <[folderKey id := DFolder f]> (cts s) → Q (Ok tt) (set_db s d')) → wp e s (putFolder f) Q.
Proof.
  intros Ht HQ. unfold putFolder. rewrite (f_ID_typed _ _ Ht). destruct Ht as [_ Hid]. apply wp_db_Put; [auto|].
  by rewrite (folderKey_safe _ Hid).
Qed.

(** A stored folder changed in place. *)
Lemma wp_change_folder e s id f f' (Q : res error Folder → Registry D → Prop) :
  Inv (cts s) → folder_in (cts s) id f → f_Name f' = f_Name f → folder_step (cts s) id f f' →
  (∀ s', write (cts s) (cts s') → Q (Ok f') s') → wp e s (putFolder f' ;; mret f') Q.
Proof.
  intros HI Hf Hn Hst HQ. destruct (inv_folder _ HI _ _ Hf) as (? & [= <-] & Hnm & Hid).
  apply wp_bind, (wp_putFolder _ _ id); [split; congruence|]. intros d' Hd'. apply wp_ret, HQ. cbn. rewrite Hd'. by eapply w_folder_set.
Qed.

End hierarchy.

(** ** Operations on folders *)

Lemma ParseUint_Itoa n : (0 ≤ n < 2 ^ 64)%Z → ParseUint_ok (Itoa n) = true.
Proof.
  intros Hn. unfold ParseUint_ok. rewrite digits_Itoa by lia. apply Z.ltb_lt. lia.
Qed.

Lemma randomFolderNumber_ok d : draw_ok d → ParseUint_ok (randomFolderNumber d) = true.
Proof.
  destruct d as [n|t]; cbn; intros Hd; apply ParseUint_Itoa; [lia|]. pose proof (Z.rem_bound_pos t 900000000000). lia.
Qed.

Section folder_ops.
Context {D : Type} `{RS : ReliableStore D doc} `{UNI : Unicode}.
Implicit Types (s : Registry D) (e : Env) (m : contents_).

Abbreviation cts s := (contents (db s)).

Lemma wp_free_id e s ds Q :
  Forall draw_ok ds → (∀ id, ParseUint_ok id = true → cts s !! folderKey id = None → Q (Ok id) s) → Q (Err ErrDraws) s →
  wp e s (free_id folderPrefix (λ n, n) ds) Q.
Proof.
  intros Hds Hok Herr. induction Hds as [|d ds Hd _ IH]; [done|]. cbn. apply wp_bind, wp_raw. fold (folderKey (randomFolderNumber d)).
  rewrite folderKey_safe by (by apply randomFolderNumber_ok).
  destruct (cts s !! folderKey (randomFolderNumber d)) eqn:Hk; [done|]. apply wp_ret, Hok; [by apply randomFolderNumber_ok|done].
Qed.

Lemma does_CreateFolder parent display : does writes (CreateFolder (D := D) parent display).
Proof.
  unfold CreateFolder. apply does_lift_bind; [apply _|intros _ _]. apply rm_does_bind; [apply _|apply rm_does_reads; [apply _|apply reads_refuse]|intros _].
  apply does_locked. intros e s He HI. apply wp_bind, wp_checkParent; [done| |by intros x s' [? _] _]. intros d Hab _.
  apply wp_bind, wp_refuse; intros Hd; [done|]. apply wp_bind, wp_folders; [done|]. intros all s1 Hr Hall.
  pose proof (Inv_moves _ _ _ HI Hr) as HI1. apply wp_bind, wp_lift. destruct (checkSiblingName _ _ _ _) eqn:Hsib; [|by destruct Hr].
  apply wp_bind, wp_ask, wp_bind, wp_free_id; [done| |by destruct Hr]. intros id Hid Hno. apply wp_bind, wp_clock, wp_bind.
  apply (wp_putFolder _ _ id); [by split|]. intros d' Hd'. apply wp_ret. cbn. rewrite Hd'. etrans; [apply Hr|]. apply rtc_once.
  apply (w_folder_new _ _ _ d); [done|by split|done|by eapply reaps_above|apply Nat.ltb_ge in Hd; lia|].
  eapply checkSiblingName_free; [done..|by left].
Qed.

(** An active folder is read, then all of them. *)
Lemma wp_with_folders {A} e s id f (k : list Folder → M Env (Registry D) A) Q :
  Inv (cts s) → folder_in (cts s) id f → f_expired f (clock_Now e) = false →
  (∀ all s1, reaps (clock_Now e) (cts s) (cts s1) → Inv (cts s1) → lists all (cts s1) → folder_in (cts s1) id f → wp e s1 (k all) Q) →
  wp e s (folders ≫= k) Q.
Proof.
  intros HI Hf Hx Hk. apply wp_bind, wp_folders; [done|]. intros all s1 Hr Hall. apply Hk; [done|by eapply (Inv_moves (reaps _))|done|].
  by apply Hr.
Qed.

Lemma does_RenameFolder name display : does writes (RenameFolder (D := D) name display).
Proof.
  unfold RenameFolder. apply does_lift_bind; [apply _|intros _ _]. apply does_locked. intros e s He HI.
  apply wp_bind, wp_loadFolder; [done..| |by intros id s' _ [? _] _]. intros id f _ Hf Ht Hx.
  apply wp_bind, wp_refuse; intros Ha; [done|]. apply negb_false_iff, bool_decide_eq_true in Ha.
  apply (wp_with_folders _ _ id f); [done..|]. intros all s1 [Hw _] HI1 Hall Hf1. apply wp_bind, wp_lift.
  destruct (checkSiblingName _ _ _ _) eqn:Hsib; [|done]. apply wp_bind, wp_clock. apply (wp_change_folder _ _ id f); [done..| |].
  - apply fs_same; [done..|]. intros _. eapply checkSiblingName_free; [done..|]. right. apply Ht.
  - intros s' Hs'. etrans; [done|]. by apply rtc_once.
Qed.

(** Moving a folder: its walks up and down end before their fuel does. *)
Lemma wp_MoveFolder e s name parent :
  Inv (cts s) → wp e s (MoveFolder name parent) (λ r s', writes (cts s) (cts s') ∧ r ≠ Err ErrFuel).
Proof.
  intros HI. unfold MoveFolder. apply wp_locked. 
  apply wp_bind, wp_loadFolder; [done|intros x Hx s' ->|intros id f _ Hf Ht Hx|by intros id s' _ [? _] _ s2 ->].
  { split; [done|]. unfold FolderName in Hx. destruct (_ || _); [by injection Hx as <-|done]. }
  apply wp_bind, wp_refuse; intros Ha; [by intros s2 ->|]. apply negb_false_iff, bool_decide_eq_true in Ha.
  apply wp_bind, wp_checkParent; [done| |by intros x s' [? _] Hx' s2 ->; split; [|congruence]]. intros d Hab Hd.
  apply wp_bind, (wp_not_below _ _ _ _ _ d); [done|by destruct Ht as [-> _]|done|unfold depth_fuel; lia|
    |by intros x Hx' s2 ->; split; [|congruence]]. intros Hnb.
  apply (wp_with_folders _ _ id f); [done..|]. intros all s1 Hr HI1 Hall Hf1. pose proof Hr as [Hw _].
  destruct (subtreeDepth_total depth_fuel all (cts s1) (f_Name f) Hall) as [ds Hds]; [intros x h; by apply (below_short _ id)|]. rewrite Hds.
  apply wp_bind, wp_refuse; intros Hdeep; [by intros s2 ->|]. apply Nat.ltb_ge in Hdeep. apply wp_bind, wp_lift.
  destruct (checkSiblingName _ _ _ _) eqn:Hsib; [|intros s2 ->; split; [done|]; unfold checkSiblingName in Hsib; by case_match; simplify_eq].
  apply wp_bind, wp_clock. apply (wp_change_folder _ _ id f); [done..| |].
  - apply (fs_move _ _ _ _ d); [done..|by eapply reaps_above| | |].
    + intros h Hh. apply (Hnb h). by eapply reaps_above_back.
    + intros x h Hh. pose proof (subtreeDepth_bound _ _ _ _ _ _ _ Hall Hds Hh). lia.
    + eapply checkSiblingName_free; [done..|]. right. apply Ht.
  - intros s' Hs' s2 ->. split; [|done]. etrans; [done|]. by apply rtc_once.
Qed.

Lemma does_MoveFolder name parent : does writes (MoveFolder (D := D) name parent).
Proof. intros e s He HI. eapply wp_mono; [|by apply wp_MoveFolder]. by intros r s' [? _]. Qed.

Lemma does_has_project folder k : does around_folders (has_project (D := D) folder k).
Proof. pose proof rm_does_load. unfold has_project. solve_does. Qed.

Lemma does_DeleteFolder name : does writes (DeleteFolder (D := D) name).
Proof.
  unfold DeleteFolder. apply does_locked. intros e s He HI.
  apply wp_bind, wp_loadFolder; [done..| |by intros id s' _ [? _] _]. intros id f _ Hf Ht Hx.
  apply wp_bind, wp_refuse; intros Ha; [done|]. apply negb_false_iff, bool_decide_eq_true in Ha.
  apply (wp_with_folders _ _ id f); [done..|]. intros all s1 [Hw _] HI1 Hall Hf1.
  apply wp_bind, wp_refuse; intros Hch; [done|]. apply wp_bind, wp_db_List, wp_bind, (wp_does around_folders); [|done..|].
  { pose proof does_has_project. solve_does. }
  intros [[]|x] s2 [Hw2 Hfol]; [|by etrans]. apply wp_bind, wp_clock.
  assert (∀ i g, folder_in (cts s2) i g ↔ folder_in (cts s1) i g) as Hin by (intros; unfold folder_in; by rewrite Hfol).
  apply (wp_change_folder _ _ id f); [by eapply writes_Inv|by apply Hin|done| |intros s' Hs'; etrans; [done|]; etrans; [done|by apply rtc_once]].
  apply fs_delete; [done..|]. intros i c Hc%Hin Hca Hcp. apply not_true_iff_false in Hch. apply Hch, existsb_exists. exists c.
  split; [apply list_elem_of_In, Hall; eauto|]. by rewrite !bool_decide_true.
Qed.

Lemma does_UndeleteFolder name : does writes (UndeleteFolder (D := D) name).
Proof.
  unfold UndeleteFolder. apply does_locked. intros e s He HI.
  apply wp_bind, wp_loadFolder; [done..| |by intros id s' _ [? _] _]. intros id f _ Hf Ht Hx.
  apply wp_bind, wp_refuse; intros Ha; [done|]. apply negb_false_iff, bool_decide_eq_true in Ha.
  apply wp_bind, wp_attempt, wp_checkParent; [done| |by intros x s' [? _] _]. intros d Hab Hd.
  apply (wp_with_folders _ _ id f); [done..|]. intros all s1 Hr HI1 Hall Hf1. apply wp_bind, wp_lift.
  destruct (checkSiblingName _ _ _ _) eqn:Hsib; [|by destruct Hr]. apply wp_bind, wp_clock. apply (wp_change_folder _ _ id f); [done..| |].
  - apply (fs_undelete _ _ _ _ d); [done..|by eapply reaps_above|unfold deepest; lia|]. eapply checkSiblingName_free; [done..|]. right. apply Ht.
  - intros s' Hs'. etrans; [apply Hr|]. by apply rtc_once.
Qed.

Lemma does_checkParent parent : does writes (checkParentLocked (D := D) parent).
Proof. intros e s He HI. by apply wp_checkParent; [..|intros x s' [? _] _]. Qed.

Lemma does_Create p : does writes (Create (D := D) p).
Proof.
  pose proof does_checkParent. unfold Create. apply does_lift_bind; [apply _|intros _ _]. apply rm_does_bind; [apply _| |intros _].
  - unfold CheckParent. solve_does.
  - eapply rm_does_mono; [|apply does_register]. by intros ?? [].
Qed.

Lemma does_Move id parent : does writes (Move (D := D) id parent).
Proof.
  apply does_change. intros p e s Q He HI Hp Ht Herr Hput. apply wp_bind, wp_refuse; intros _; [by apply Herr|].
  apply wp_bind, wp_refuse; intros _; [by apply Herr|]. apply wp_bind, wp_checkParent; [done| |by intros x s' [? _] _; apply Herr].
  intros d _ _. destruct Ht as (? & ? & ? & ?). by apply Hput.
Qed.

Lemma management_good f id name : typed_folder id f → good_id (p_ProjectID (management_project f name)).
Proof.
  intros Ht. cbn. rewrite (f_ID_typed _ _ Ht). destruct Ht as [_ Hid]. unfold ParseUint_ok in Hid.
  destruct (digits id) as [n|] eqn:Hd; [|done]. pose proof (digits_bytes _ _ Hd) as Hb. unfold ManagementProjectID. split_and!.
  - rewrite app_cons. by apply TrimSpace_nonempty.
  - unfold has_separator, free_of. rewrite !AllBytes_app. apply negb_false_iff, andb_true_iff. split; apply andb_true_iff; split; [done| |done|].
    all: eapply AllBytes_mono; [|exact Hb]; intros [[] [] [] [] [] [] [] []]; vm_compute; done.
  - unfold key. rewrite <- strings.app_assoc. by apply SafeKey_digits.
Qed.

(** The folder's own record, once the management project is there or gone. *)
Lemma wp_set_capabilities {A} e s s1 id f cs mp t (a : A) :
  Inv (cts s) → folder_in (cts s) id f → f_State f = ACTIVE → around_folders (cts s) (cts s1) →
  wp e s1 (putFolder (set_f_Capabilities f cs mp t) ;; mret a) (λ _ s', writes (cts s) (cts s')).
Proof.
  intros HI Hf Ha [Hw Hfol]. destruct (inv_folder _ HI _ _ Hf) as (? & [= <-] & Ht).
  apply wp_bind, (wp_putFolder _ _ id); [done|]. intros d' Hd'. apply wp_ret. cbn. rewrite Hd'. etrans; [done|]. apply rtc_once.
  eapply w_folder_set; [unfold folder_in; by rewrite Hfol|done|]. apply fs_same; [done..|]. intros _ i g. unfold folder_in. rewrite Hfol.
  apply (inv_sibling _ HI id f Hf Ha).
Qed.

Lemma does_SetFolderCapability folder capability value : does writes (SetFolderCapability (D := D) folder capability value).
Proof.
  unfold SetFolderCapability. apply does_lift_bind; [apply _|intros _ _]. apply does_locked. intros e s He HI.
  apply wp_bind, wp_loadFolder; [done..| |by intros id s' _ [? _] _]. intros id f _ Hf Ht Hx.
  apply wp_bind, wp_refuse; intros Ha; [done|]. apply negb_false_iff, bool_decide_eq_true in Ha.
  destruct (value && _); [|destruct (negb value && _); [|by apply wp_ret]].
  - apply wp_bind. destruct (bool_decide (capability = appManagement)).
    + apply wp_bind, wp_attempt, (wp_does around_folders); [by eapply does_registerLocked, management_good|done..|].
      intros [p|x] s1 H1; [|by destruct H1]. apply wp_ret, wp_bind, wp_clock. by eapply wp_set_capabilities.
    + apply wp_ret, wp_bind, wp_clock. by eapply wp_set_capabilities.
  - apply wp_bind. destruct (_ && negb (bool_decide (f_ManagementProject f = ""))).
    + apply wp_bind, wp_attempt, wp_load; [done..| |].
      * intros p Hp _ _. apply wp_bind, (wp_purgeLocked _ _ (TrimPrefix (f_ManagementProject f) "projects/")); [done..|]. intros s1 H1.
        apply wp_ret, wp_bind, wp_clock. eapply wp_set_capabilities; [done..|]. by eapply purged_around.
      * intros s1 H1 _. apply wp_bind, wp_ret, wp_ret, wp_bind, wp_clock. by eapply wp_set_capabilities.
    + apply wp_ret, wp_bind, wp_clock. by eapply wp_set_capabilities.
Qed.

End folder_ops.
