(* ===== verification/RmSpec.v ===== *)
(** * Resource Manager: what holds of every run

    The locked sections of the registry are the steps of a run: any interleaving of
    concurrent calls is a sequence of them.  On every reachable store the active
    folders form a tree under the organization and siblings have distinct names; a
    project number names one project for ever; a project deleted and undeleted in
    time is as it was; a purged project leaves nothing behind. *)

From S2P Require Import Prelude GoLib ApiError Resource MetaStore IamPolicy Handler GoCrypto RmModel RmRegistry RmTags RmInv RmEffects.
From Stdlib Require Import Ascii.

Import strings strconv time.

(** ** The locked sections *)

(** [Create] is CCheckParent then CRegister, [EnsureExists] is CGet then CRegister,
    [List] is CGet of each key. *)
Inductive call :=
| CCheckParent (parent : string)
| CRegister (p : Project)
| CGet (id : string)
| CUpdate (id display : string) (labels : gmap string string)
| CMove (id parent : string)
| CDelete (id : string)
| CUndelete (id : string)
| CPurge (id : string)
| CResetProjectState (project : string)
| CAncestry (id : string)
| CFolders
| CGetFolder (name : string)
| CCreateFolder (parent display : string)
| CRenameFolder (name display : string)
| CMoveFolder (name parent : string)
| CDeleteFolder (name : string)
| CUndeleteFolder (name : string)
| CFolderCapability (folder capability : string)
| CSetFolderCapability (folder capability : string) (value : bool)
| CCreateLien (l : Lien)
| CGetLien (name : string)
| CLiens (parent : string)
| CDeleteLien (name : string)
| CCreateTagKey (k : option TagKey) (validateOnly : bool)
| CGetTagKey (name : string)
| CTagKeys (parent : string)
| CNamespacedTagKey (name : string)
| CUpdateTagKey (k : option TagKey) (paths : list string) (validateOnly : bool)
| CDeleteTagKey (name etag : string) (validateOnly : bool)
| CCreateTagValue (v : option TagValue) (validateOnly : bool)
| CGetTagValue (name : string)
| CTagValues (parent : string)
| CNamespacedTagValue (name : string)
| CUpdateTagValue (v : option TagValue) (paths : list string) (validateOnly : bool)
| CDeleteTagValue (name etag : string) (validateOnly : bool)
| CCreateTagBinding (b : option TagBinding) (validateOnly : bool)
| CTagBindings (parent : string)
| CDeleteTagBinding (name : string)
| CEffectiveTags (parent : string)
| CCreateTagHold (parent : string) (h : option TagHold) (validateOnly : bool)
| CTagHolds (parent filter : string)
| CDeleteTagHold (name : string)
| CIAMPolicy (resource : string)
| CSetIAMPolicy (resource : string) (req : iampb.SetIamPolicyRequest)
| CResetIAM (project : string)
| CGetOrgPolicy (resource constraint : string)
| CSetOrgPolicy (resource : string) (p : option OrgPolicy)
| CClearOrgPolicy (resource constraint etag : string)
| COrgPolicies (resource : string)
| CEffectiveOrgPolicy (resource constraint : string).

Section run.
Context {D : Type} `{RS : ReliableStore D doc} `{UNI : Unicode} `{CR : Crypto} `{ENC : Encodings}.
Implicit Types (s : Registry D) (e : Env) (m : contents_).

Abbreviation cts s := (contents (db s)).

Definition done_ {A} (op : M Env (Registry D) A) : M Env (Registry D) unit := op ;; mret tt.

Definition exec (c : call) : M Env (Registry D) unit :=
  match c with
  | CCheckParent p => CheckParent p
  | CRegister p => done_ (register p)
  | CGet id => done_ (Get id)
  | CUpdate id d l => done_ (Update id d l)
  | CMove id p => done_ (Move id p)
  | CDelete id => done_ (Delete id)
  | CUndelete id => done_ (Undelete id)
  | CPurge id => Purge id
  | CResetProjectState p => ResetProjectState p
  | CAncestry id => done_ (Ancestry id)
  | CFolders => done_ Folders
  | CGetFolder n => done_ (GetFolder n)
  | CCreateFolder p d => done_ (CreateFolder p d)
  | CRenameFolder n d => done_ (RenameFolder n d)
  | CMoveFolder n p => done_ (MoveFolder n p)
  | CDeleteFolder n => done_ (DeleteFolder n)
  | CUndeleteFolder n => done_ (UndeleteFolder n)
  | CFolderCapability f c => done_ (FolderCapability f c)
  | CSetFolderCapability f c v => done_ (SetFolderCapability f c v)
  | CCreateLien l => done_ (CreateLien l)
  | CGetLien n => done_ (GetLien n)
  | CLiens p => done_ (Liens p)
  | CDeleteLien n => DeleteLien n
  | CCreateTagKey k v => done_ (CreateTagKey k v)
  | CGetTagKey n => done_ (GetTagKey n)
  | CTagKeys p => done_ (TagKeys p)
  | CNamespacedTagKey n => done_ (NamespacedTagKey n)
  | CUpdateTagKey k p v => done_ (UpdateTagKey k p v)
  | CDeleteTagKey n g v => done_ (DeleteTagKey n g v)
  | CCreateTagValue x v => done_ (CreateTagValue x v)
  | CGetTagValue n => done_ (GetTagValue n)
  | CTagValues p => done_ (TagValues p)
  | CNamespacedTagValue n => done_ (NamespacedTagValue n)
  | CUpdateTagValue x p v => done_ (UpdateTagValue x p v)
  | CDeleteTagValue n g v => done_ (DeleteTagValue n g v)
  | CCreateTagBinding b v => done_ (CreateTagBinding b v)
  | CTagBindings p => done_ (TagBindings p)
  | CDeleteTagBinding n => DeleteTagBinding n
  | CEffectiveTags p => done_ (EffectiveTags p)
  | CCreateTagHold p h v => done_ (CreateTagHold p h v)
  | CTagHolds p f => done_ (TagHolds p f)
  | CDeleteTagHold n => DeleteTagHold n
  | CIAMPolicy r => done_ (IAMPolicy r)
  | CSetIAMPolicy r q => done_ (SetIAMPolicy r q)
  | CResetIAM p => ResetIAM p
  | CGetOrgPolicy r c => done_ (GetOrgPolicy r c)
  | CSetOrgPolicy r p => done_ (SetOrgPolicy r p)
  | CClearOrgPolicy r c g => ClearOrgPolicy r c g
  | COrgPolicies r => done_ (OrgPolicies r)
  | CEffectiveOrgPolicy r c => done_ (EffectiveOrgPolicy r c)
  end.

(** ** Every section keeps to the writes *)

Lemma writes_load id : does writes (load (D := D) id).
Proof. eapply rm_does_mono; [|apply rm_does_load]. by intros ?? []. Qed.
#[local] Hint Resolve writes_load writes_loadFolder writes_folders : burrow.

Lemma writes_by_number n ks : does writes (by_number (D := D) n ks).
Proof. induction ks as [|k ks IH]; cbn; solve_does. Qed.
#[local] Hint Resolve writes_by_number : burrow.

Lemma writes_resolve n : does writes (resolveProjectLocked (D := D) n).
Proof. unfold resolveProjectLocked. solve_does. Qed.
#[local] Hint Resolve writes_resolve : burrow.

Lemma writes_namespace n : does writes (tagNamespaceLocked (D := D) n).
Proof. unfold tagNamespaceLocked. solve_does. Qed.

Lemma writes_canonical p : does writes (canonicalTargetLocked (D := D) p).
Proof. unfold canonicalTargetLocked, V3Name. solve_does. Qed.
#[local] Hint Resolve writes_namespace writes_canonical : burrow.

Lemma reads_tagKey n : reads (tagKeyLocked (D := D) n).
Proof. unfold tagKeyLocked. solve_reads. Qed.
Lemma reads_tagValue n : reads (tagValueLocked (D := D) n).
Proof. unfold tagValueLocked. solve_reads. Qed.
Lemma reads_newID p : reads (newID (D := D) p).
Proof. unfold newID. solve_reads. Qed.
#[local] Hint Resolve reads_tagKey reads_tagValue reads_newID reads_liensOf : burrow.

Lemma writes_bindingsOn t : does writes (bindingsOnLocked (D := D) t).
Proof. unfold bindingsOnLocked. solve_does. Qed.
#[local] Hint Resolve writes_bindingsOn : burrow.

Lemma writes_chain_above n p : does writes (chain_above (D := D) n p).
Proof. revert p. induction n as [|n IH]; intros p; cbn; solve_does. Qed.
Lemma writes_policies_above n p l : does writes (policies_above (D := D) n p l).
Proof. revert p l. induction n as [|n IH]; intros p l; cbn; solve_does. Qed.
Lemma writes_ancestors n p : does writes (ancestors (D := D) n p).
Proof. revert p. induction n as [|n IH]; intros p; cbn; solve_does. Qed.
#[local] Hint Resolve writes_chain_above writes_policies_above writes_ancestors : burrow.

Lemma writes_tag_chain t : does writes (tag_chain (D := D) t).
Proof. unfold tag_chain, owningProjectLocked, V3Name. solve_does. Qed.

Lemma reads_tags_on i seen bs : reads (tags_on (D := D) i seen bs).
Proof.
  revert seen. induction bs as [|b bs IH]; intros seen; [done|]. cbn. apply reads_bind; [by apply reads_attempt, reads_tagValue|].
  intros [[v ?]|]; [|done]. case_match; [done|]. apply reads_bind; [by apply reads_attempt, reads_tagKey|]. intros k.
  apply reads_bind; [done|]. by intros [? ?].
Qed.
#[local] Hint Resolve reads_tags_on : burrow.
Lemma writes_tags_along i seen c : does writes (tags_along (D := D) i seen c).
Proof. revert i seen. induction c as [|r c IH]; intros i seen; cbn; solve_does. Qed.
#[local] Hint Resolve writes_tag_chain writes_tags_along : burrow.

Lemma writes_iamTarget r : does writes (iamTargetLocked (D := D) r).
Proof. unfold iamTargetLocked. solve_does. Qed.
Lemma writes_policyResource r : does writes (checkPolicyResource (D := D) r).
Proof. unfold checkPolicyResource. solve_does. Qed.
#[local] Hint Resolve writes_iamTarget writes_policyResource : burrow.
Lemma writes_policyChain r : does writes (policyChain (D := D) r).
Proof. unfold policyChain. solve_does. Qed.
Lemma reads_get_policy k : reads (get_policy (D := D) k).
Proof. done. Qed.
#[local] Hint Resolve reads_get_policy : burrow.
Lemma reads_stored r c : reads (stored (D := D) r c).
Proof. unfold stored. solve_reads. Qed.
#[local] Hint Resolve reads_stored : burrow.
Lemma reads_orgPolicy r c : reads (orgPolicy (D := D) r c).
Proof. unfold orgPolicy. solve_reads. Qed.
Lemma reads_effective_along c eff l : reads (effective_along (D := D) c eff l).
Proof. revert eff. induction l as [|r l IH]; intros eff; cbn; [done|]. apply reads_bind; [apply reads_stored|done]. Qed.
#[local] Hint Resolve writes_policyChain reads_orgPolicy reads_effective_along : burrow.

(** The scopes of organization policies lie outside the hierarchy. *)
Lemma orgPolicyScope_outer r scope a : orgPolicyScope r = Ok scope → kept (scope +:+ a) = false.
Proof. unfold orgPolicyScope. repeat case_match; intros [= <-]; solve_core. Qed.
#[local] Hint Extern 1 (core (?scope +:+ _) = false) =>
  match goal with Hs : orgPolicyScope _ = Ok scope |- _ => exact (kept_core _ (orgPolicyScope_outer _ _ _ Hs)) end : burrow.
#[local] Hint Extern 1 (kept (?scope +:+ _) = false) =>
  match goal with Hs : orgPolicyScope _ = Ok scope |- _ => exact (orgPolicyScope_outer _ _ _ Hs) end : burrow.

Lemma writes_folder_change {A} (op : M Env (Registry D) A) : does around_folders op → does writes op.
Proof. apply rm_does_mono. by intros ?? []. Qed.

Lemma writes_done {A} (op : M Env (Registry D) A) : does writes op → does writes (done_ op).
Proof. intros. unfold done_. solve_does. Qed.

Lemma writes_DeleteTagBinding n : does writes (DeleteTagBinding (D := D) n).
Proof. unfold DeleteTagBinding. apply does_lift_bind; [apply _|]. intros [p v] _. unfold bindingKey. solve_does. Qed.

Lemma writes_ResetIAM p : does writes (ResetIAM (D := D) p).
Proof.
  unfold ResetIAM. apply does_locked. case_match; [solve_does|]. apply does_deletePrefix; [apply _|]. intros a. solve_core.
Qed.

Lemma writes_check_binding t v b : does writes (check_binding (D := D) t v b).
Proof. unfold check_binding. solve_does. Qed.

#[local] Hint Resolve writes_DeleteTagBinding writes_ResetIAM writes_check_binding does_checkParent does_Update does_Undelete
  does_Delete_project does_Purge does_CreateFolder does_RenameFolder does_MoveFolder does_DeleteFolder does_UndeleteFolder
  does_SetFolderCapability does_Move : burrow.

Lemma writes_register p : does writes (register (D := D) p).
Proof. apply writes_folder_change, does_register. Qed.
Lemma writes_OrgPolicy_set r p : does writes (SetOrgPolicy (D := D) r p).
Proof. destruct p as [p|]; unfold SetOrgPolicy; [|solve_does]. do 2 (apply does_lift_bind; [apply _|intros ? ?]). solve_does. Qed.
Lemma writes_OrgPolicy_clear r c g : does writes (ClearOrgPolicy (D := D) r c g).
Proof. unfold ClearOrgPolicy. do 2 (apply does_lift_bind; [apply _|intros ? ?]). solve_does. Qed.
#[local] Hint Resolve writes_register writes_OrgPolicy_set writes_OrgPolicy_clear : burrow.

Lemma writes_exec c : does writes (exec c).
Proof.
  destruct c; cbn [exec]; try apply writes_done; try solve [auto with burrow nocore | apply does_ResetProjectState; apply _].
  all: unfold CheckParent, Get, Ancestry, Folders, GetFolder, FolderCapability, CreateLien, GetLien, Liens, DeleteLien, CreateTagKey,
    GetTagKey, TagKeys, NamespacedTagKey, AllTagKeys, UpdateTagKey, DeleteTagKey, CreateTagValue, GetTagValue, TagValues, NamespacedTagValue,
    namespacedTagValueLocked, UpdateTagValue, DeleteTagValue, CreateTagBinding, TagBindings, EffectiveTags, CreateTagHold, TagHolds,
    DeleteTagHold, IAMPolicy, SetIAMPolicy, loadIAMLocked, GetOrgPolicy, OrgPolicies, EffectiveOrgPolicy, bindingKey, nowTS.
  all: solve_does.
Qed.
(** ** Runs *)

Inductive step : Registry D → Registry D → Prop :=
| step_call e c s : env_ok e → step s (exec c e s).1.

Definition reachable s : Prop := ∃ d : D, contents d = ∅ ∧ rtc step (New d) s.

Lemma step_writes s s' : Inv (cts s) → step s s' → writes (cts s) (cts s').
Proof. intros HI Hst. revert HI. destruct Hst as [e c s0 He]. intros HI. exact (writes_exec c e s0 He HI). Qed.

Lemma steps_writes s s' : Inv (cts s) → rtc step s s' → Inv (cts s') ∧ writes (cts s) (cts s').
Proof.
  intros HI. induction 1 as [s|s s1 s2 H1 H2 IH]; [done|]. pose proof (step_writes _ _ HI H1) as Hw.
  destruct (IH (writes_Inv _ _ HI Hw)) as [HI2 Hw2]. split; [done|]. by etrans.
Qed.

Lemma reachable_Inv s : reachable s → Inv (cts s).
Proof. intros (d & Hd & Hs). apply (steps_writes (New d)); [|done]. cbn. rewrite Hd. apply Inv_nothing. Qed.

(** C22: on every store the service can reach while none of its writes fails, by any
    interleaving of its locked sections, the active folders form a tree: a walk up from an active folder, by
    active folders, arrives at the organization after at most thirteen steps and
    never returns to where it began; and no two active folders of one parent share
    a display name. *)
Theorem folders_form_a_tree s id f :
  reachable s → folder_in (cts s) id f → f_State f = ACTIVE →
  (∃ d, (1 ≤ d ≤ deepest)%nat ∧ above (cts s) (f_Name f) d OrganizationName) ∧
  (∀ h, ¬ above (cts s) (f_Name f) (S h) (f_Name f)) ∧
  (∀ id' f', folder_in (cts s) id' f' → f_State f' = ACTIVE → f_Parent f' = f_Parent f → f_DisplayName f' = f_DisplayName f → id' = id).
Proof.
  intros HI%reachable_Inv Hf Ha. split_and!; [|by intros h; eapply above_acyclic|by apply (inv_sibling _ HI)].
  destruct (inv_tree _ HI id f Hf Ha) as (d & Hd & Hab). exists d. split; [|done]. split; [|done].
  destruct d; [|lia]. apply above_zero in Hab. destruct (inv_folder _ HI _ _ Hf) as (? & [= <-] & Hn & _). by rewrite Hn in Hab.
Qed.

(** ** Project numbers *)

(** The number is still the project's, created when it was, or retired. *)
Definition held (id : string) (p : Project) m : Prop :=
  (∃ p', project_in m id p' ∧ numberOf p' = numberOf p ∧ p_CreateTime p' = p_CreateTime p) ∨ retired m (numberOf p).

Lemma write_retired m m' n : write m m' → retired m n → retired m' n.
Proof.
  unfold retired. intros Hw Hr.
  destruct Hw as [m1 Hm|p id|id p p'|id p m1 Hp Hm|id f d|id f f'|id f m1 Hf Hs Hm].
  - by rewrite Hm by apply core_retiredKey.
  - by rewrite lookup_insert_ne by apply key_retiredKey.
  - by rewrite lookup_insert_ne by apply key_retiredKey.
  - rewrite Hm by apply core_retiredKey. rewrite lookup_delete_ne by apply key_retiredKey.
    destruct (decide (numberOf p = n)) as [->|Hne]; [rewrite lookup_insert_eq; by eexists|].
    by rewrite lookup_insert_ne by (by intros ?%retiredKey_inj).
  - by rewrite lookup_insert_ne by apply folderKey_retiredKey.
  - by rewrite lookup_insert_ne by apply folderKey_retiredKey.
  - rewrite Hm by apply core_retiredKey. by rewrite lookup_delete_ne by apply folderKey_retiredKey.
Qed.

Lemma write_held id p m m' : Inv m → write m m' → held id p m → held id p m'.
Proof.
  intros HI Hw [(p0 & Hp0 & Hn & Hc)|Hr]; [|right; by eapply write_retired].
  assert (m' !! key id = m !! key id → held id p m') as Hsame by (intros E; left; exists p0; unfold project_in; by rewrite E).
  destruct Hw as [m1 Hm|q i Hno|i q q' Hq Ht Hnum Hct|i q m1 Hq Hm|i f d|i f f'|i f m1 Hf Hs Hm].
  - apply Hsame, Hm, core_key.
  - apply Hsame. apply lookup_insert_ne. intros E%project_key_inj. subst i. unfold project_in in Hp0. congruence.
  - destruct (decide (i = id)) as [->|Hne]; [|apply Hsame; apply lookup_insert_ne; by intros ?%project_key_inj].
    assert (q = p0) as -> by (unfold project_in in *; congruence). left. exists q'. unfold project_in. rewrite lookup_insert_eq.
    destruct (inv_project m HI _ _ Hp0) as (? & [= <-] & Hi & _), Ht as [Hi' _].
    split_and!; [done| |congruence]. rewrite <- Hn. unfold numberOf. by rewrite Hnum, Hi, Hi'.
  - destruct (decide (i = id)) as [->|Hne].
    + assert (q = p0) as -> by (unfold project_in in *; congruence). right. unfold retired. rewrite Hm by apply core_retiredKey.
      rewrite lookup_delete_ne by apply key_retiredKey. rewrite Hn, lookup_insert_eq. by eexists.
    + apply Hsame. rewrite Hm by apply core_key. rewrite lookup_delete_ne by (by intros ?%project_key_inj). apply lookup_insert_ne.
      intros E. by symmetry in E; apply key_retiredKey in E.
  - apply Hsame, lookup_insert_ne. intros E. by symmetry in E; apply key_folderKey in E.
  - apply Hsame, lookup_insert_ne. intros E. by symmetry in E; apply key_folderKey in E.
  - apply Hsame. rewrite Hm by apply core_key. apply lookup_delete_ne. intros E. by symmetry in E; apply key_folderKey in E.
Qed.

(** C23: a project number names one project for ever, over a store none of whose
    writes fails (retireNumberLocked ignores a failed one): when a project that is stored
    now and one that is stored at any later point of the run have the same number,
    they are the same project, and it was not purged and created again in between. *)
Theorem number_names_one_project s s' id p id' p' :
  reachable s → rtc step s s' → project_in (cts s) id p → project_in (cts s') id' p' → numberOf p' = numberOf p →
  id' = id ∧ p_CreateTime p' = p_CreateTime p.
Proof.
  intros HI%reachable_Inv Hs Hp Hp' Hn. destruct (steps_writes _ _ HI Hs) as [HI' Hw].
  assert (held id p (cts s')) as Hh.
  { assert (held id p (cts s)) as Hh by (left; eauto). revert HI Hh. clear -Hw.
    induction Hw as [|m m1 m2 H1 H2 IH]; [done|]. intros HI Hh. apply IH; [by eapply write_Inv|by eapply write_held]. }
  destruct Hh as [(q & Hq & Hnq & Hcq)|Hr]; [|exfalso; apply (inv_retired _ HI' id' p'); [done|by rewrite Hn]].
  assert (id' = id) as -> by (apply (inv_number _ HI' id' p' id q); congruence). split; [done|].
  assert (q = p') as -> by (unfold project_in in *; congruence). done.
Qed.

(** The walks over the hierarchy end: on every reachable store, checking a
    parent and moving a folder never run out of the fuel the model gives them, so
    the loops of the code end by themselves. *)
Theorem hierarchy_walks_end s e name parent :
  reachable s → (checkParentLocked parent e s).2 ≠ Err ErrFuel ∧ (MoveFolder name parent e s).2 ≠ Err ErrFuel.
Proof.
  intros HI%reachable_Inv. split; [|apply (wp_MoveFolder e s name parent HI)].
  change (wp e s (checkParentLocked parent) (λ r _, r ≠ Err ErrFuel)). apply wp_checkParent; [done..|]. intros x s' _ Hx. congruence.
Qed.

(** ** Ancestry *)

(** What lies above [x]: its active folders, then the organization. *)
Inductive ancestors_of m : string → list Ancestor → Prop :=
| of_organization : ancestors_of m OrganizationName [AOrganization OrganizationNumber]
| of_folder id f l : folder_in m id f → f_State f = ACTIVE → ancestors_of m (f_Parent f) l → ancestors_of m (f_Name f) (AFolder id :: l).

Lemma wp_ancestors e s turns x d Q :
  Inv (cts s) → above (cts s) x d OrganizationName → (d < turns)%nat →
  (∀ l, ancestors_of (cts s) x l → length l = S d → Q (Ok l) s) → wp e s (ancestors turns x) Q.
Proof.
  intros HI. revert x d Q. induction turns as [|turns IH]; intros x d Q Hab Hd HQ; [lia|]. cbn [ancestors].
  destruct d as [|d].
  { apply above_zero in Hab as ->. apply (HQ [AOrganization OrganizationNumber]); [constructor|done]. }
  inversion Hab as [|id f ? ? Hf Ha Hp Hn]; subst. destruct (inv_folder _ HI _ _ Hf) as (? & [= <-] & Ht). pose proof Ht as [Hnm _].
  rewrite bool_decide_false by (by rewrite Hnm). rewrite bool_decide_false by (by rewrite Hnm).
  apply wp_bind, (wp_loadFolder_active _ _ id); [done..|]. apply wp_bind, (IH _ d); [done|lia|]. intros l Hl Hlen. apply wp_ret.
  rewrite (f_ID_typed _ _ Ht). apply HQ; [by eapply of_folder|cbn; by rewrite Hlen].
Qed.

(** A project whose parent lies at most eleven folders deep. *)
Lemma wp_Ancestry e s id p d :
  env_ok e → Inv (cts s) → project_in (cts s) id p → p_expired p (clock_Now e) = false →
  above (cts s) (p_Parent p) d OrganizationName → (d ≤ MaxFolderDepth + 1)%nat →
  wp e s (Ancestry id) (λ r s', ∃ l, r = Ok (AProject id :: l) ∧ ancestors_of (cts s) (p_Parent p) l ∧ length l = S d ∧ cts s' = cts s).
Proof.
  intros He HI Hp Hx Hab Hd. unfold Ancestry. apply wp_locked, wp_bind, wp_load_full; [done..| |].
  - intros q Hq (Hid & _) _. assert (q = p) as -> by (unfold project_in in *; congruence).
    apply wp_bind, (wp_ancestors _ _ _ _ d); [done..|lia|]. intros l Hl Hlen. apply wp_ret. intros s2 ->. exists l. by rewrite Hid.
  - intros s' _ _ Hexp. specialize (Hexp p Hp). congruence.
Qed.

(** ** Deleting and undeleting a project *)

Lemma wp_Delete_Ok e s id :
  env_ok e → Inv (cts s) →
  wp e s (Delete id) (λ r s', ∀ p1, r = Ok p1 →
    ∃ p, project_in (cts s) id p ∧ typed_project id p ∧ p_State p = ACTIVE ∧
         p1 = set_p_State p DELETE_REQUESTED (RFC3339 (clock_Now e)) ∧ cts s' = <[key id := DProject p1]> (cts s)).
Proof.
  intros He HI. unfold Delete. apply wp_locked, wp_bind, wp_load; [done..| |done]. intros p Hp Ht _.
  apply wp_bind, wp_refuse; intros Hst; [done|]. apply bool_decide_eq_false in Hst.
  apply wp_bind, wp_reads; [apply reads_checkDeleteLiens|]. destruct ((checkDeleteLiensLocked (p_ProjectID p) e s).2); [|done].
  apply wp_bind, wp_clock. pose proof Ht as (Hid & _ & Hg & _). apply wp_bind, wp_put_project; [cbn; by rewrite Hid|].
  intros d' Hd'. apply wp_ret. intros s2 -> p1 [= <-]. exists p. split_and!; [done..|by destruct (p_State p)|done|]. cbn. rewrite Hd'. cbn. by rewrite Hid.
Qed.

Lemma wp_Undelete_Ok e s id p :
  env_ok e → Inv (cts s) → project_in (cts s) id p → p_State p = DELETE_REQUESTED → p_expired p (clock_Now e) = false →
  wp e s (Undelete id) (λ r s', r = Ok (set_p_State p ACTIVE None) ∧ cts s' = <[key id := DProject (set_p_State p ACTIVE None)]> (cts s)).
Proof.
  intros He HI Hp Hst Hx. unfold Undelete. apply wp_locked, wp_bind, wp_load_full; [done..| |].
  - intros q Hq (Hid & _ & Hg & _) _. assert (q = p) as -> by (unfold project_in in *; congruence).
    apply wp_bind, wp_refuse; intros Hr; [by rewrite bool_decide_true in Hr|].
    apply wp_bind, wp_put_project; [cbn; by rewrite Hid|]. intros d' Hd'. apply wp_ret. intros s2 ->. split; [done|]. cbn. rewrite Hd'. cbn. by rewrite Hid.
  - intros s' _ _ Hexp. specialize (Hexp p Hp). congruence.
Qed.

Lemma set_p_State_back p t : p_State p = ACTIVE → p_DeleteTime p = None → set_p_State (set_p_State p DELETE_REQUESTED t) ACTIVE None = p.
Proof. destruct p. cbn. by intros -> ->. Qed.

(** C25: what is deleted comes back whole (over a store none of whose writes
    fails): after DeleteProject, UndeleteProject
    before thirty days have passed succeeds, returns the project as it was before
    the deletion, and leaves the whole store (its policies, liens, tags and
    everything else) as it was. *)
Theorem delete_undelete_restores s s1 e e2 id p1 :
  reachable s → env_ok e → env_ok e2 → Delete id e s = (s1, Ok p1) →
  Before (clock_Now e2) (Add (clock_Now e / Second * Second)%Z RetentionPeriod) = true →
  ∃ p, project_in (cts s) id p ∧ p_State p1 = DELETE_REQUESTED ∧ (Undelete id e2 s1).2 = Ok p ∧ cts (Undelete id e2 s1).1 = cts s.
Proof.
  intros HI%reachable_Inv He He2 Hdel Ht. pose proof (wp_Delete_Ok e s id He HI) as Hd. unfold wp in Hd. rewrite Hdel in Hd.
  destruct (Hd p1 eq_refl) as (p & Hp & (Hid & Hn & Hg & Hdt) & Ha & -> & Hc). cbn in Hc. exists p.
  assert (Inv (cts s1)) as HI1.
  { rewrite Hc. eapply write_Inv; [done|]. eapply w_project_set; [done| |done..]. by split_and!. }
  destruct (wp_Undelete_Ok e2 s1 id (set_p_State p DELETE_REQUESTED (RFC3339 (clock_Now e)))) as [Hr Hs]; [done..| |done| |].
  - unfold project_in. by rewrite Hc, lookup_insert_eq.
  - unfold p_expired, expired, RFC3339. cbn. rewrite Ht. done.
  - rewrite set_p_State_back in Hr, Hs by auto. split_and!; [done..|]. rewrite Hs, Hc, insert_insert_eq. by apply insert_id.
Qed.

(** ** Liens *)

Lemma projectNumber_project e s id p : Inv (cts s) → project_in (cts s) id p → projectNumber id e s = (s, Ok (numberOf p)).
Proof.
  intros HI Hp. pose proof (reads_projectNumber id e s) as Hs. pose proof (NumberOf_project e s id p HI Hp) as Hn.
  unfold projectNumber, mbind, M_bind in *. destruct (NumberOf id e s) as [s' [o|]]; cbn in *; by simplify_eq.
Qed.

(** The two ways a lien names a project: by its ID and by its number. *)
Definition lien_parents (id : string) (p : Project) : list string := ["projects/" +:+ id; "projects/" +:+ Itoa (numberOf p)].

Lemma namesProject_true e s id p parent :
  Inv (cts s) → project_in (cts s) id p → parent ∈ lien_parents id p → (namesProject parent id e s).2 = Ok true.
Proof.
  intros HI Hp Hpar. unfold namesProject, CutPrefix. unfold lien_parents in Hpar. rewrite !elem_of_cons in Hpar.
  destruct Hpar as [->|[->|[]%not_elem_of_nil]]; rewrite HasPrefix_app, drop_bytes_app; unfold mbind, M_bind;
    rewrite (projectNumber_project e s id p HI Hp); cbn.
  - by rewrite bool_decide_true.
  - by rewrite (bool_decide_true (Itoa _ = Itoa _)), orb_true_r.
Qed.

(** One turn of the listing of a project's liens. *)
Definition lien_turn (id k : string) : M Env (Registry D) (option Lien) :=
  l ← attempt (getLien (TrimPrefix k lienPrefix));
  match l with
  | Err _ => mret None
  | Ok l => n ← namesProject (l_Parent l) id; mret (if n : bool then Some l else None)
  end.

Lemma projectNumber_Ok e s id : ∃ n, projectNumber id e s = (s, Ok n).
Proof.
  unfold projectNumber, NumberOf, mbind, M_bind, raw. destruct (_ || _); [by eexists|]. by destruct (st_Get (db s) (key id)) as [[]|]; eexists.
Qed.

Lemma namesProject_Ok e s parent id : ∃ b, namesProject parent id e s = (s, Ok b).
Proof.
  unfold namesProject. destruct (CutPrefix parent "projects/") as [x|]; [|by eexists]. unfold mbind, M_bind.
  destruct (projectNumber_Ok e s id) as [n ->]. by eexists.
Qed.

Lemma lien_turn_Ok e s id k err : (lien_turn id k e s).2 ≠ Err err.
Proof.
  unfold lien_turn, mbind, M_bind, attempt. destruct (getLien (TrimPrefix k lienPrefix) e s) as [s' [l|]]; [|done].
  by destruct (namesProject_Ok e s' (l_Parent l) id) as [b ->].
Qed.

Lemma getLien_Ok e s lid l : st_Get (db s) (lienPrefix +:+ lid) = Ok (DLien l) → getLien lid e s = (s, Ok l).
Proof. intros Hl. unfold getLien, find, mbind, M_bind, raw. by rewrite Hl. Qed.

(** A lien that names the project is among its liens. *)
Lemma liensOf_complete e s id p lid l :
  Inv (cts s) → project_in (cts s) id p → st_Get (db s) (lienPrefix +:+ lid) = Ok (DLien l) → l_Parent l ∈ lien_parents id p →
  wp e s (liensOfLocked id) (λ r s', s' = s ∧ ∃ ls, r = Ok ls ∧ l ∈ ls).
Proof.
  intros HI Hp Hl Hpar. unfold liensOfLocked. apply wp_bind, wp_db_List, wp_bind.
  apply (wp_collect_reads e s (lien_turn id)); [intros k; unfold lien_turn; solve_reads| |by intros k err _ []%lien_turn_Ok].
  intros ls Hls. apply wp_ret. split; [done|]. eexists. split; [done|]. rewrite merge_sort_Permutation. apply Hls.
  apply Get_ok in Hl as Hl'. exists (lienPrefix +:+ lid). split; [apply elem_of_list_keys; split; [by eexists; apply Hl'|apply HasPrefix_app]|].
  unfold lien_turn, mbind, M_bind, attempt. rewrite TrimPrefix_app, (getLien_Ok _ _ _ _ Hl).
  pose proof (namesProject_true e s id p (l_Parent l) HI Hp Hpar) as Hn. destruct (namesProject (l_Parent l) id e s) as [s' [[]|]]; cbn in *; by simplify_eq.
Qed.

(** A lien protects its project: while a lien that restricts deletion names the
    project, by its ID or by its number, DeleteProject is refused and leaves the
    store as it was. *)
Theorem lien_protects_project s e id p lid l :
  reachable s → env_ok e → project_in (cts s) id p → p_expired p (clock_Now e) = false →
  st_Get (db s) (lienPrefix +:+ lid) = Ok (DLien l) → l_Parent l ∈ lien_parents id p → ProjectDeleteRestriction ∈ l_Restrictions l →
  (Delete id e s).2 = Err FailedPrecondition ∧ cts (Delete id e s).1 = cts s.
Proof.
  intros HI%reachable_Inv He Hp Hx Hl Hpar Hr.
  change (wp e s (Delete id) (λ r s', r = Err FailedPrecondition ∧ cts s' = cts s)). unfold Delete.
  apply wp_locked, wp_bind, wp_load_full; [done..| |intros s' _ _ Hexp; specialize (Hexp p Hp); congruence].
  intros q Hq (Hid & _) _. assert (q = p) as -> by (unfold project_in in *; congruence).
  apply wp_bind, wp_refuse; intros _; [by intros s2 ->|]. apply wp_bind. unfold checkDeleteLiensLocked. rewrite Hid. apply wp_bind.
  eapply wp_mono; [|by apply (liensOf_complete e s id p lid l)]. intros r s' (-> & ls & -> & Hin). apply wp_refuse; intros Hex; [by intros s2 ->|].
  exfalso. apply not_true_iff_false in Hex. apply Hex, existsb_exists. exists l. split; [by apply list_elem_of_In|by apply bool_decide_eq_true].
Qed.

(** ** What a purge leaves *)

(** Nothing of the project: no IAM policy, no organization policy, no lien on it, no
    tag key in its namespace, no tag bound to it or to a resource in it. *)
Record nothing_of (id : string) (s : Registry D) : Prop := {
  no_iam d : st_Get (db s) (iamKey ("projects/" +:+ id)) ≠ Ok d;
  no_policy k : HasPrefix k (orgPolicyPrefix +:+ id +:+ "/") = true → cts s !! k = None;
  no_lien lid l e : st_Get (db s) (lienPrefix +:+ lid) = Ok (DLien l) → (namesProject (l_Parent l) id e s).2 = Ok false;
  no_key tid k : st_Get (db s) (tagKeyPrefix +:+ tid) = Ok (DTagKey k) → tk_name k = "tagKeys/" +:+ tid →
    HasPrefix (tk_namespaced_name k) (id +:+ "/") = false;
  no_binding bid b e : st_Get (db s) (tagBindingPrefix +:+ bid) = Ok (DTagBinding b) → (inProject (tb_parent b) id e s).2 = Ok false
}.

Lemma drops_Get s s' k d : drops (cts s) (cts s') → st_Get (db s') k = Ok d → st_Get (db s) k = Ok d.
Proof. intros Hd. rewrite !Get_ok. destruct (Hd k) as [->|[-> _]]; naive_solver. Qed.

Lemma drops_kept s s' k : drops (cts s) (cts s') → kept k = true → st_Get (db s') k = st_Get (db s) k.
Proof. intros Hd Hk. rewrite !Get_law. destruct (Hd k) as [->|[_ ?]]; [done|congruence]. Qed.

Lemma kept_key id : kept (key id) = true.
Proof. unfold kept. by rewrite core_key. Qed.
Lemma kept_retiredID id : kept (retiredIDPrefix +:+ id) = true.
Proof. unfold kept. by rewrite HasPrefix_app, orb_true_r. Qed.

(** Which names mean the project does not change. *)
Lemma drops_projectNumber e s s' id : drops (cts s) (cts s') → (projectNumber id e s').2 = (projectNumber id e s).2.
Proof.
  intros Hd. pose proof (drops_kept s s' (key id) Hd (kept_key id)) as H1.
  pose proof (drops_kept s s' (retiredIDPrefix +:+ id) Hd (kept_retiredID id)) as H2.
  unfold projectNumber, NumberOf, mbind, M_bind, raw. destruct (_ || _); [done|]. rewrite H1.
  destruct (st_Get (db s) (key id)) as [[]|]; cbn; by rewrite ?H2.
Qed.

Lemma drops_names e s s' x id : drops (cts s) (cts s') → (namesProject x id e s').2 = (namesProject x id e s).2.
Proof.
  intros Hd. pose proof (drops_projectNumber e s s' id Hd) as Hn. unfold namesProject. destruct (CutPrefix x "projects/"); [|done].
  unfold mbind, M_bind. destruct (projectNumber id e s') as [? []], (projectNumber id e s) as [? []]; cbn in *; by simplify_eq.
Qed.

Lemma drops_inProject e s s' x id : drops (cts s) (cts s') → (inProject x id e s').2 = (inProject x id e s).2.
Proof. intros Hd. unfold inProject. destruct (CutString _ _) as [[? ?]|]; [by apply drops_names|done]. Qed.

(** A property that stays when records are dropped. *)
Definition stable (P : Registry D → Prop) : Prop := ∀ s s', P s → drops (cts s) (cts s') → P s'.

Lemma wp_with_drops {A} e s (op : M Env (Registry D) A) P Q :
  does drops op → env_ok e → Inv (cts s) → wp e s op P →
  (∀ r s', drops (cts s) (cts s') → Inv (cts s') → P r s' → Q r s') → wp e s op Q.
Proof.
  intros Hd He HI HP HQ. pose proof (wp_and _ _ _ _ _ (Hd e s He HI) HP) as Hb. eapply wp_mono; [|exact Hb].
  intros r s' [Hdr Hr]. apply HQ; [done| |done]. by eapply (Inv_moves drops).
Qed.

(** A loop of drops establishes, for each element, what its turn does. *)
Lemma wp_each_stable {A} e s (f : A → M Env (Registry D) unit) l (P : A → Registry D → Prop) :
  env_ok e → Inv (cts s) → (∀ x, x ∈ l → does drops (f x)) → (∀ x, stable (P x)) →
  (∀ x s0, x ∈ l → Inv (cts s0) → wp e s0 (f x) (λ r s', r = Ok tt → P x s')) →
  wp e s (each f l) (λ r s', r = Ok tt → ∀ x, x ∈ l → P x s').
Proof.
  intros He HI Hd Hst. revert s HI. induction l as [|x l IH]; intros s HI Hf; [by intros _ y ?%not_elem_of_nil|]. cbn.
  apply wp_bind, (wp_with_drops e s _ _ _ (Hd x ltac:(left)) He HI (Hf x s ltac:(left) HI)).
  intros [[]|err] s1 Hdx HI1 Hx; [|done]. specialize (Hx eq_refl).
  assert (∀ y, y ∈ l → does drops (f y)) as Hd' by (intros; apply Hd; by right).
  eapply (wp_with_drops e s1); [by apply (does_each drops)|done..|apply IH; [done..|intros y s0 Hy; apply Hf; by right]|].
  intros r s2 Hd2 _ Hl -> y [->|Hy]%elem_of_cons; [by eapply Hst|by apply Hl].
Qed.

Lemma drop_iam_spec e s id : wp e s (dropIAM ("projects/" +:+ id)) (λ _ s', ∀ d, st_Get (db s') (iamKey ("projects/" +:+ id)) ≠ Ok d).
Proof.
  unfold dropIAM. apply wp_ignore, wp_db_Delete.
  - intros Hk d' Hd' d [_ Hg]%Get_ok. cbn in Hg. by rewrite Hd', lookup_delete_eq in Hg.
  - intros Hk x d [Hs _]%Get_ok. congruence.
Qed.

Lemma deletePrefix_spec e s p :
  env_ok e → Inv (cts s) → (∀ a, kept (p +:+ a) = false) →
  wp e s (deletePrefixLocked p) (λ r s', r = Ok tt → ∀ k, HasPrefix k p = true → cts s' !! k = None).
Proof.
  intros He HI Hp. unfold deletePrefixLocked. apply wp_bind, wp_db_List.
  assert (∀ k, k ∈ list_keys (cts s) p → does drops (db_Delete (D := D) k)) as Hdel.
  { intros k [_ [a ->]%HasPrefix_spec]%elem_of_list_keys. by apply does_Delete; [apply _|]. }
  eapply (wp_with_drops e s); [by apply (does_each drops)|done..|apply (wp_each_stable _ _ _ _ (λ k s, cts s !! k = None)); [done..| |]|].
  - intros k s0 s1 Hk Hdr. by destruct (Hdr k) as [->|[-> _]].
  - intros k s0 _ _. apply wp_db_Delete; [|done]. intros _ d' Hd' _. cbn. by rewrite Hd', lookup_delete_eq.
  - intros r s' Hdr _ Hl -> k Hk. destruct (decide (k ∈ list_keys (cts s) p)) as [Hin|Hout]; [by apply Hl|].
    destruct (cts s !! k) as [d|] eqn:Hc; [destruct Hout; apply elem_of_list_keys; split; [by eexists|done]|].
    by destruct (Hdr k) as [->|[-> _]].
Qed.

Lemma names_env e e' s x id : namesProject x id e' s = namesProject x id e s.
Proof.
  unfold namesProject. destruct (CutPrefix x "projects/"); [|done]. unfold projectNumber, NumberOf, mbind, M_bind, raw.
  destruct (_ || _); [done|]. by destruct (st_Get (db s) (key id)) as [[]|].
Qed.
Lemma inProject_env e e' s x id : inProject x id e' s = inProject x id e s.
Proof. unfold inProject. destruct (CutString _ _) as [[? ?]|]; [apply names_env|done]. Qed.

Definition lien_gone (id k : string) (s : Registry D) : Prop :=
  ∀ l e, st_Get (db s) k = Ok (DLien l) → (namesProject (l_Parent l) id e s).2 = Ok false.
Definition binding_gone (id k : string) (s : Registry D) : Prop :=
  ∀ b e, st_Get (db s) k = Ok (DTagBinding b) → (inProject (tb_parent b) id e s).2 = Ok false.

Lemma lien_gone_stable id k : stable (lien_gone id k).
Proof. intros s s' Hg Hd l e Hl. rewrite (drops_names e s s') by done. by eapply Hg, drops_Get. Qed.
Lemma binding_gone_stable id k : stable (binding_gone id k).
Proof. intros s s' Hg Hd l e Hl. rewrite (drops_inProject e s s') by done. by eapply Hg, drops_Get. Qed.

Lemma getLien_cases e s lid :
  (∃ l, st_Get (db s) (lienPrefix +:+ lid) = Ok (DLien l) ∧ getLien lid e s = (s, Ok l)) ∨
  (∃ x, (∀ l, st_Get (db s) (lienPrefix +:+ lid) ≠ Ok (DLien l)) ∧ getLien lid e s = (s, Err x)).
Proof.
  unfold getLien, find, mbind, M_bind, raw. destruct (st_Get (db s) (lienPrefix +:+ lid)) as [d|]; [|right; by eexists].
  destruct d; try (right; by eexists). left. by eexists.
Qed.

Lemma drop_lien_spec e s id lid : wp e s (drop_lien id (lienPrefix +:+ lid)) (λ r s', r = Ok tt → lien_gone id (lienPrefix +:+ lid) s').
Proof.
  unfold drop_lien. rewrite TrimPrefix_app. apply wp_bind, wp_attempt. unfold wp at 1.
  destruct (getLien_cases e s lid) as [(l & Hg & ->)|(x & Hg & ->)]; cbn.
  2: { apply wp_ret. intros _ l e' Hl. by apply Hg in Hl. }
  destruct (namesProject_Ok e s (l_Parent l) id) as [b Hb]. apply wp_bind. unfold wp at 1. rewrite Hb. cbn. destruct b; cbn.
  - apply wp_ignore, wp_db_Delete; [|intros Hk; apply Get_ok in Hg as [? _]; congruence].
    intros _ d' Hd' _ l' e' [_ Hl]%Get_ok. cbn in Hl. by rewrite Hd', lookup_delete_eq in Hl.
  - apply wp_ret. intros _ l' e' Hl. rewrite Hg in Hl. injection Hl as <-. by rewrite (names_env e), Hb.
Qed.

Lemma drop_binding_spec e s id vs bid :
  wp e s (drop_binding id vs (tagBindingPrefix +:+ bid)) (λ r s', r = Ok tt → binding_gone id (tagBindingPrefix +:+ bid) s').
Proof.
  unfold drop_binding. apply wp_bind. unfold wp at 1, raw. cbn. destruct (st_Get (db s) (tagBindingPrefix +:+ bid)) as [d|x] eqn:Hg; cbn.
  2: { apply wp_ret. intros _ b e' Hb. congruence. }
  destruct d as [| | | | |b0| | | |]; try (apply wp_ret; intros _ b' e' Hb; congruence). apply wp_bind, wp_reads; [apply reads_inProject|].
  destruct ((inProject (tb_parent b0) id e s).2) as [i|] eqn:Hi; [|done]. destruct (_ || i) eqn:Hc; cbn.
  - apply wp_ignore, wp_db_Delete; [|intros Hk; apply Get_ok in Hg as [? _]; congruence].
    intros _ d' Hd' _ b e' [_ Hl]%Get_ok. cbn in Hl. by rewrite Hd', lookup_delete_eq in Hl.
  - apply wp_ret. apply orb_false_iff in Hc as [_ ->]. intros _ b e' Hb. rewrite Hg in Hb. injection Hb as <-. by rewrite (inProject_env e), Hi.
Qed.

Definition key_gone (k : TagKey) (s : Registry D) : Prop :=
  ∀ d, st_Get (db s) (tagKeyPrefix +:+ TrimPrefix (tk_name k) "tagKeys/") ≠ Ok d.

Lemma key_gone_stable k : stable (key_gone k).
Proof. intros s s' Hg Hd d Hk. by eapply Hg, drops_Get. Qed.

Lemma listKeys_spec e s :
  wp e s (listProtos (T := TagKey) tagKeyPrefix) (λ r s', ∀ ks, r = Ok ks → s' = s ∧
    ∀ tid k, st_Get (db s) (tagKeyPrefix +:+ tid) = Ok (DTagKey k) → k ∈ ks).
Proof.
  unfold listProtos. apply wp_bind, wp_db_List, wp_collect_reads; [intros k; solve_reads| |by intros].
  intros ks Hks ? [= <-]. split; [done|]. intros tid k Hk. apply Hks. exists (tagKeyPrefix +:+ tid). split.
  - rewrite sort_strings_elem. apply elem_of_list_keys. apply Get_ok in Hk as [_ Hk]. split; [by eexists|apply HasPrefix_app].
  - unfold mbind, M_bind, raw. by rewrite Hk.
Qed.

Lemma drop_keys_spec e s id ks :
  env_ok e → Inv (cts s) →
  wp e s (drop_keys id ks) (λ r s', ∀ vs, r = Ok vs → ∀ k, k ∈ ks → HasPrefix (tk_namespaced_name k) (id +:+ "/") = true → key_gone k s').
Proof.
  intros He. revert s. induction ks as [|k ks IH]; intros s HI; [by intros vs _ k ?%not_elem_of_nil|]. cbn [drop_keys].
  destruct (HasPrefix (tk_namespaced_name k) (id +:+ "/")) eqn:Hp; cbn [negb].
  2: { eapply wp_mono; [|by apply IH]. intros r s' Hr vs -> k' [->|Hk']%elem_of_cons Hpk; [congruence|by eapply Hr]. }
  apply wp_bind, (wp_does drops); [apply rm_does_reads; [apply _|apply reads_listProtos]|done..|]. intros [vals|x] s1 H1; [|done].
  pose proof (Inv_moves drops _ _ HI H1) as HI1. apply wp_bind, (wp_does drops); [|done..|].
  { apply does_collect; [apply _|]. intros v. apply rm_does_bind; [apply _|apply does_drop_value; apply _|]. intros n. by apply rm_does_reads; [apply _|]. }
  intros [names|x] s2 H2; [|done]. pose proof (Inv_moves drops _ _ HI1 H2) as HI2. apply wp_bind.
  assert (wp e s2 (ignore (db_Delete (tagKeyPrefix +:+ TrimPrefix (tk_name k) "tagKeys/"))) (λ _ s', key_gone k s')) as Hdel.
  { apply wp_ignore, wp_db_Delete.
    - intros _ d' Hd' d [_ Hd]%Get_ok. cbn in Hd. by rewrite Hd', lookup_delete_eq in Hd.
    - intros Hk x d [Hs _]%Get_ok. congruence. }
  eapply wp_with_drops; [solve_does|done|exact HI2|exact Hdel|]. intros [[]|x] s3 H3 HI3 Hg3; [|done]. apply wp_bind.
  apply (wp_does drops); [apply does_dropIAM; apply _|done..|]. intros [[]|x] s4 H4; [|done]. pose proof (Inv_moves drops _ _ HI3 H4) as HI4.
  apply wp_bind. eapply wp_with_drops; [apply does_drop_keys; apply _|done..|by apply IH|]. intros [more|x] s5 H5 HI5 Hr; [|done].
  apply wp_ret. intros vs _ k' [->|Hk']%elem_of_cons Hpk; [|by eapply Hr]. eapply key_gone_stable; [|done]. by eapply key_gone_stable.
Qed.

(** A loop over the records under a prefix does for each of them what its turn does. *)
Lemma wp_each_listed e s p f (G : string → Registry D → Prop) :
  env_ok e → Inv (cts s) → (∀ a, does drops (f (p +:+ a))) → (∀ k, stable (G k)) →
  (∀ a s0, wp e s0 (f (p +:+ a)) (λ r s', r = Ok tt → G (p +:+ a) s')) → (∀ k s0, cts s0 !! k = None → G k s0) →
  wp e s (each f (list_keys (cts s) p)) (λ r s', drops (cts s) (cts s') ∧ Inv (cts s') ∧ (r = Ok tt → ∀ a, G (p +:+ a) s')).
Proof.
  intros He HI Hd Hst Hf Hno.
  assert (∀ k, k ∈ list_keys (cts s) p → ∃ a, k = p +:+ a) as Hlk by (intros k [_ Hk]%elem_of_list_keys; by apply HasPrefix_spec).
  eapply wp_with_drops; [apply does_each; [apply _|]; intros k [a ->]%Hlk; apply Hd|done..| |].
  { apply (wp_each_stable _ _ _ _ G); [done..| |done|]; [intros k [a ->]%Hlk; apply Hd|intros k s0 [a ->]%Hlk _; apply Hf]. }
  intros r s' Hdr HI' Hl. split_and!; [done..|]. intros Hr a. destruct (decide (p +:+ a ∈ list_keys (cts s) p)) as [Hin|Hout]; [by apply Hl|].
  apply (Hst _ s); [|done]. apply Hno. destruct (cts s !! (p +:+ a)) eqn:Hc; [|done]. destruct Hout. apply elem_of_list_keys.
  split; [by eexists|apply HasPrefix_app].
Qed.

Lemma absent_Get s k d : cts s !! k = None → st_Get (db s) k ≠ Ok d.
Proof. intros Hn [_ Hk]%Get_ok. congruence. Qed.

(** Dropping the state of a project, when it succeeds, leaves nothing of it. *)
Lemma dropProjectState_spec e s id :
  env_ok e → Inv (cts s) → wp e s (dropProjectStateLocked id) (λ r s', r = Ok tt → nothing_of id s').
Proof.
  intros He HI. unfold dropProjectStateLocked. apply wp_bind.
  eapply wp_with_drops; [apply does_dropIAM; apply _|done..|apply drop_iam_spec|]. intros [[]|x] s1 H1 HI1 Hiam; [|done].
  apply wp_bind. eapply wp_with_drops; [apply does_deletePrefix; [apply _|intros; solve_core]|done..|apply deletePrefix_spec; [done..|intros; solve_core]|].
  intros [[]|x] s2 H2 HI2 Hpol; [|done]. specialize (Hpol eq_refl). apply wp_bind, wp_db_List, wp_bind.
  eapply wp_mono; [|apply (wp_each_listed e s2 lienPrefix (drop_lien id) (lien_gone id)); [done|done|..]].
  2: { intros a. apply does_drop_lien; apply _. }
  2: { apply lien_gone_stable. }
  2: { intros a s0. apply drop_lien_spec. }
  2: { intros k s0 Hk l e' Hl. by apply absent_Get in Hl. }
  intros [[]|x] s3 (H3 & HI3 & Hlien); [|done]. specialize (Hlien eq_refl). apply wp_bind.
  eapply wp_mono; [|apply listKeys_spec]. intros [ks|x] s3' Hks; [|done]. destruct (Hks ks eq_refl) as [-> Hkeys]. apply wp_bind.
  eapply wp_with_drops; [apply does_drop_keys; apply _|done..|by apply drop_keys_spec|]. intros [vs|x] s4 H4 HI4 Hgone; [|done].
  specialize (Hgone vs eq_refl). apply wp_bind, wp_db_List.
  eapply wp_mono; [|apply (wp_each_listed e s4 tagBindingPrefix (drop_binding id vs) (binding_gone id)); [done|done|..]].
  2: { intros a. apply does_drop_binding; apply _. }
  2: { apply binding_gone_stable. }
  2: { intros a s0. apply drop_binding_spec. }
  2: { intros k s0 Hk l e' Hl. by apply absent_Get in Hl. }
  intros r s5 (H5 & HI5 & Hbind) Hr. specialize (Hbind Hr).
  assert (drops (cts s3) (cts s5)) as H35 by (etrans; eassumption). assert (drops (cts s2) (cts s5)) as H25 by (etrans; eassumption).
  assert (drops (cts s1) (cts s5)) as H15 by (etrans; eassumption). constructor.
  - intros d Hd. by eapply Hiam, drops_Get.
  - intros k Hk. destruct (H25 k) as [->|[-> _]]; [by apply Hpol|done].
  - intros lid l e' Hl. by apply (lien_gone_stable id (lienPrefix +:+ lid) s3).
  - intros tid k Hk Hn. destruct (HasPrefix (tk_namespaced_name k) (id +:+ "/")) eqn:Hp; [|done]. exfalso.
    assert (k ∈ ks) as Hin by (eapply Hkeys; by eapply drops_Get). apply (key_gone_stable k s4 s5 (Hgone k Hin Hp) H5 (DTagKey k)).
    by rewrite Hn, TrimPrefix_app.
  - intros bid b e' Hb. by apply (Hbind bid b).
Qed.

Lemma nothing_of_db id s s' : db s' = db s → nothing_of id s → nothing_of id s'.
Proof.
  intros E [H1 H2 H3 H4 H5]. assert (drops (cts s) (cts s')) as Hd by (rewrite E; reflexivity). constructor.
  - intros d. rewrite E. apply H1.
  - intros k Hk. rewrite E. by apply H2.
  - intros lid l e. rewrite E, (drops_names e s s') by done. apply H3.
  - intros tid k. rewrite E. apply H4.
  - intros bid b e. rewrite E, (drops_inProject e s s') by done. apply H5.
Qed.

(** C24: a purge leaves nothing, over a store none of whose writes fails (Purge
    ignores the failure of most of its own): when Purge returns without an error, the project was
    pending deletion, its record is gone, its number is retired, no IAM policy,
    organization policy, lien, tag key or tag binding of it can be read any more,
    and the hooks of the other services were told its ID, after all of that. *)
Theorem purge_leaves_nothing s e id :
  reachable s → env_ok e → (Purge id e s).2 = Ok tt →
  ∃ p, project_in (cts s) id p ∧ p_State p = DELETE_REQUESTED ∧ cts (Purge id e s).1 !! key id = None ∧
       retired (cts (Purge id e s).1) (numberOf p) ∧ nothing_of id (Purge id e s).1 ∧
       last (hooked (Purge id e s).1) = Some (Purged id).
Proof.
  intros HI%reachable_Inv He.
  change (wp e s (Purge id) (λ r s', r = Ok tt → ∃ p, project_in (cts s) id p ∧ p_State p = DELETE_REQUESTED ∧ cts s' !! key id = None ∧
    retired (cts s') (numberOf p) ∧ nothing_of id s' ∧ last (hooked s') = Some (Purged id))).
  unfold Purge. apply wp_bind, wp_locked, wp_bind, wp_load; [done..| |by intros s' _ _ s2 _].
  intros p Hp _ _. apply wp_bind, wp_refuse; intros Hst; [by intros s2 _|]. apply negb_false_iff, bool_decide_eq_true in Hst.
  apply wp_bind, wp_retireNumber. intros s0 H0. apply wp_bind, (wp_delete_retired _ s id p); [done..|]. intros s1 H1.
  assert (Inv (cts s1)) as HI1 by (eapply Inv_inert; [|done]; by apply Inv_purge_project). apply wp_attempt.
  eapply wp_with_drops; [apply does_dropProjectState; apply _|done..|by apply dropProjectState_spec|].
  intros r s2 H2 _ Hr s3 E3. apply wp_bind. unfold wp at 1. cbn. destruct r as [[]|x]; [|by destruct (run_hooks e id)].
  specialize (Hr eq_refl). destruct (run_hooks e id); [done|]. apply wp_ret. intros _. exists p. cbn. rewrite E3.
  apply drops_inert in H2. split_and!; [done..| | | |by rewrite last_snoc].
  - rewrite H2 by apply core_key. by eapply purged_gone.
  - unfold retired. rewrite H2, H1 by apply core_retiredKey. unfold purged_project.
    rewrite lookup_delete_ne by apply key_retiredKey. rewrite lookup_insert_eq. by eexists.
  - by apply (nothing_of_db id s2).
Qed.

(** *** Registration *)

(** Nothing is stored under the project's ID. *)
Record nothing_under (id : string) (s : Registry D) : Prop := {
  nu_iam d : st_Get (db s) (iamKey ("projects/" +:+ id)) ≠ Ok d;
  nu_policy k : HasPrefix k (orgPolicyPrefix +:+ id +:+ "/") = true → cts s !! k = None;
  nu_lien lid l : st_Get (db s) (lienPrefix +:+ lid) = Ok (DLien l) → l_Parent l ≠ "projects/" +:+ id;
  nu_key tid k : st_Get (db s) (tagKeyPrefix +:+ tid) = Ok (DTagKey k) → tk_name k = "tagKeys/" +:+ tid →
    HasPrefix (tk_namespaced_name k) (id +:+ "/") = false;
  nu_binding bid b host rest : st_Get (db s) (tagBindingPrefix +:+ bid) = Ok (DTagBinding b) →
    CutString (TrimPrefix (tb_parent b) "//") "/projects/" = Some (host, rest) → (Cut rest "/"%char).1.1 ≠ id
}.

Lemma names_id e s id : (namesProject ("projects/" +:+ id) id e s).2 = Ok true.
Proof.
  unfold namesProject, CutPrefix. rewrite HasPrefix_app, drop_bytes_app. unfold mbind, M_bind.
  destruct (projectNumber_Ok e s id) as [n ->]. cbn. by rewrite bool_decide_true.
Qed.

Lemma nothing_of_under id s : nothing_of id s → nothing_under id s.
Proof.
  intros [H1 H2 H3 H4 H5]. pose (e := mkEnv 0%Z [] (λ _, None) ""). constructor; [done..| | |].
  - intros lid l Hl E. specialize (H3 lid l e Hl). rewrite E, names_id in H3. done.
  - done.
  - intros bid b host rest Hb Hc E. specialize (H5 bid b e Hb). unfold inProject in H5. rewrite Hc, E, names_id in H5. done.
Qed.

(** Writing the project's own record does not change that. *)
Lemma nothing_under_put id s d d' : contents d' = <[key id := d]> (cts s) → nothing_under id s → nothing_under id (set_db s d').
Proof.
  intros Hd' [H1 H2 H3 H4 H5].
  assert (∀ k, core k = false → contents d' !! k = cts s !! k) as Hk.
  { intros k Hk. rewrite Hd'. apply lookup_insert_ne. intros <-. by rewrite core_key in Hk. }
  assert (∀ k d, core k = false → st_Get d' k = Ok d → st_Get (db s) k = Ok d) as Hg.
  { intros k x Hc. rewrite !Get_ok. by rewrite Hk. }
  constructor; cbn.
  - intros x Hx. eapply H1, Hg; [|done]. solve_core.
  - intros k Hp. rewrite Hk; [by apply H2|]. apply HasPrefix_spec in Hp as [r ->]. solve_core.
  - intros lid l Hl. eapply H3, Hg; [|done]. solve_core.
  - intros tid k Hl. eapply H4, Hg; [|done]. solve_core.
  - intros bid b host rest Hl. eapply H5, Hg; [|done]. solve_core.
Qed.

Lemma nothing_under_db id s s' : db s' = db s → nothing_under id s → nothing_under id s'.
Proof. intros E [H1 H2 H3 H4 H5]. by constructor; rewrite E. Qed.

Lemma registerLocked_clean e s p :
  env_ok e → Inv (cts s) → good_id (p_ProjectID p) →
  wp e s (registerLocked p) (λ r s', ∀ p', r = Ok p' →
    nothing_under (p_ProjectID p) s' ∧ project_in (cts s') (p_ProjectID p) p' ∧ p_State p' = ACTIVE).
Proof.
  intros He HI Hg. unfold registerLocked. apply wp_bind, wp_attempt, wp_load; [done..|].
  intros s1 H1 _. pose proof (Inv_moves around_folders _ _ HI H1) as HI1. apply wp_bind, wp_clock, wp_bind, wp_assignNumber; [done..| |done].
  intros n _ _. apply wp_bind. unfold wp at 1. cbn. apply wp_bind.
  eapply wp_with_drops; [apply does_dropProjectState; apply _|done|exact HI1|by apply dropProjectState_spec|].
  intros [[]|x] s2 _ _ Hn; [|done]. specialize (Hn eq_refl). apply wp_bind, wp_put_project; [done|]. intros d' Hd'. apply wp_ret.
  intros p' [= <-]. split_and!; [|unfold project_in; cbn in *; by rewrite Hd', lookup_insert_eq|done].
  eapply nothing_under_put; [done|]. by apply nothing_of_under.
Qed.

(** C26: a project that is created starts with nothing, over a store none of whose
    writes fails (the failures of the clearing are ignored): whatever an earlier project
    left under its ID, when the registration succeeds no IAM policy, organization
    policy, lien, tag key or tag binding can be read under the ID, the project is
    stored and active, and its number is neither retired nor another project's. *)
Theorem created_starts_with_nothing s e p p' :
  reachable s → env_ok e → (register p e s).2 = Ok p' →
  nothing_under (p_ProjectID p) (register p e s).1 ∧
  project_in (cts (register p e s).1) (p_ProjectID p) p' ∧ p_State p' = ACTIVE ∧
  ¬ retired (cts (register p e s).1) (numberOf p') ∧
  ∀ id q, project_in (cts (register p e s).1) id q → numberOf q = numberOf p' → id = p_ProjectID p.
Proof.
  intros HI%reachable_Inv He Hreg.
  assert (Inv (cts (register p e s).1)) as HI' by exact (Inv_moves around_folders _ _ HI (does_register p e s He HI)).
  assert (nothing_under (p_ProjectID p) (register p e s).1 ∧ project_in (cts (register p e s).1) (p_ProjectID p) p' ∧ p_State p' = ACTIVE) as (Hn & Hp & Ha).
  { revert Hreg. clear HI'. change (wp e s (register p) (λ r s', r = Ok p' →
      nothing_under (p_ProjectID p) s' ∧ project_in (cts s') (p_ProjectID p) p' ∧ p_State p' = ACTIVE)).
    unfold register. apply wp_bind, wp_refuse; intros H1; [done|]. apply wp_bind, wp_refuse; intros H2; [done|].
    apply wp_bind, wp_refuse; intros H3; [done|]. apply bool_decide_eq_false in H1. apply negb_false_iff in H3.
    apply wp_locked. eapply wp_mono; [|by apply registerLocked_clean]. intros r s' Hr s2 E Hok. destruct (Hr p' Hok) as (Hn & Hp & Ha).
    rewrite E. split_and!; [by eapply nothing_under_db|done..]. }
  split_and!; [done..|by apply (inv_retired _ HI' (p_ProjectID p))|]. intros id q Hq E. by apply (inv_number _ HI' id q _ p').
Qed.

End run.

(** ** Witnesses *)

Module RmRuns.

#[export] Instance plain_crypto : Crypto := {| sha256_hex x := x; gcm_Seal _ _ p _ := p; gcm_Open _ _ c _ := Some c |}.
#[export] Instance ascii_only : Unicode :=
  {| uni_letter _ := false; uni_digit _ := false; uni_Ll _ := false; uni_Lo _ := false; uni_N _ := false |}.
#[export] Instance plain_encodings : Encodings := {|
  json_policy p := op_Constraint p; proto_key := tk_name; proto_value := tv_name; sha256_Sum256 x := x;
  base64_Encode x := x; base64_Decode := Some; base64_URLDecode := Some |}.

Definition reg : Type := Registry (Memory.Memory doc).

(** A call at [t] seconds, its draws starting from [n]. *)
Definition at_ (t n : Z) : Env := mkEnv (t * Second)%Z [Drew n; Drew (n + 1)] (λ _, None) "rnd".

Definition run (calls : list (Z * Z * call)) (s : reg) : reg :=
  foldl (λ s c, (exec c.2 (at_ c.1.1 c.1.2) s).1) s calls.

Lemma run_steps calls s : Forall (λ c, 0 ≤ c.1.2 < 1000000)%Z calls → rtc step s (run calls s).
Proof.
  intros Hc. revert s. induction Hc as [|[[t n] c] calls Hn _ IH]; intros s; [apply rtc_refl|]. cbn in Hn.
  eapply rtc_l; [|apply IH]. cbn. apply step_call. repeat constructor; cbn; lia.
Qed.

Definition empty : reg := New (Memory.NewMemory (V := doc)).

Lemma run_reachable calls : Forall (λ c, 0 ≤ c.1.2 < 1000000)%Z calls → reachable (run calls empty).
Proof. intros Hc. exists (Memory.NewMemory (V := doc)). split; [done|]. by apply run_steps. Qed.

Definition team : string := "folders/100000000005".
Definition project : Project := mkProject "" "alpha-one" "Alpha" ACTIVE None ∅ None team [] 0.

(** A folder, a folder in it, a project in the first. *)
Definition calls : list (Z * Z * call) :=
  [((1, 5)%Z, CCreateFolder OrganizationName "Team"); ((2, 9)%Z, CCreateFolder team "Sub"); ((3, 1)%Z, CRegister project)].
Definition world : reg := run calls empty.

Example world_keys : list_keys (contents (db world)) "" = [folderKey "100000000005"; folderKey "100000000009"; key "alpha-one"].
Proof. by vm_compute. Qed.

Lemma world_reachable : reachable world.
Proof. apply run_reachable. repeat constructor; cbn; lia. Qed.

Lemma rm_at_ok t n : (0 ≤ n < 1000000)%Z → env_ok (at_ t n).
Proof. intros Hn. repeat constructor; cbn; lia. Qed.

Definition sub : Folder :=
  mkFolder "folders/100000000009" team "Sub" ACTIVE (Some (2 * Second)%Z) (Some (2 * Second)%Z) None [] "".

Lemma folders_form_a_tree_witness :
  (∃ d, (1 ≤ d ≤ deepest)%nat ∧ above (contents (db world)) "folders/100000000009" d OrganizationName) ∧
  (∀ h, ¬ above (contents (db world)) "folders/100000000009" (S h) "folders/100000000009") ∧
  (∀ id f, folder_in (contents (db world)) id f → f_State f = ACTIVE → f_Parent f = team → f_DisplayName f = "Sub" → id = "100000000009").
Proof. apply (folders_form_a_tree world "100000000009" sub); [exact world_reachable|by vm_compute|done]. Defined.

Definition alpha : Project :=
  mkProject "projects/alpha-one" "alpha-one" "Alpha" ACTIVE (Some (3 * Second)%Z) ∅ None team [] (DerivedProjectNumber "alpha-one").
Definition renamed : reg := run [((4, 1)%Z, CUpdate "alpha-one" "Beta" ∅)] world.
Definition beta : Project := set_p_Settings alpha "Beta" ∅.

Lemma number_names_one_project_witness : "alpha-one" = "alpha-one" ∧ p_CreateTime beta = p_CreateTime alpha.
Proof.
  apply (number_names_one_project world renamed); [exact world_reachable| |by vm_compute..].
  apply run_steps. repeat constructor; cbn; lia.
Defined.

Lemma hierarchy_walks_end_witness :
  (checkParentLocked team (at_ 4 1) world).2 ≠ Err ErrFuel ∧ (MoveFolder "folders/100000000009" team (at_ 4 1) world).2 ≠ Err ErrFuel.
Proof. apply (hierarchy_walks_end world). exact world_reachable. Defined.

Definition deleted : reg := (Delete "alpha-one" (at_ 100 1) world).1.

Lemma delete_undelete_restores_witness :
  ∃ p, project_in (contents (db world)) "alpha-one" p ∧ DELETE_REQUESTED = DELETE_REQUESTED ∧
       (Undelete "alpha-one" (at_ 2592099 1) deleted).2 = Ok p ∧
       contents (db (Undelete "alpha-one" (at_ 2592099 1) deleted).1) = contents (db world).
Proof.
  apply (delete_undelete_restores world deleted (at_ 100 1) (at_ 2592099 1) "alpha-one"
    (set_p_State alpha DELETE_REQUESTED (Some (100 * Second)%Z))); [exact world_reachable|by apply rm_at_ok..|by vm_compute|by vm_compute].
Defined.

(** A lien on the project, by its number. *)
Definition lien : Lien :=
  mkLien "" ("projects/" +:+ Itoa (DerivedProjectNumber "alpha-one")) [ProjectDeleteRestriction] "because" "origin.example.com" None.
Definition liened : reg := run [((4, 7)%Z, CCreateLien lien)] world.

Lemma liened_reachable : reachable liened.
Proof. apply (run_reachable (calls ++ [((4, 7)%Z, CCreateLien lien)])). repeat constructor; cbn; lia. Qed.

Lemma lien_protects_project_witness :
  (Delete "alpha-one" (at_ 100 1) liened).2 = Err FailedPrecondition ∧
  contents (db (Delete "alpha-one" (at_ 100 1) liened).1) = contents (db liened).
Proof.
  apply (lien_protects_project liened (at_ 100 1) "alpha-one" alpha
    ("p" +:+ Itoa (DerivedProjectNumber "alpha-one") +:+ "-l100000000007")
    (mkLien ("liens/p" +:+ Itoa (DerivedProjectNumber "alpha-one") +:+ "-l100000000007") (l_Parent lien) [ProjectDeleteRestriction]
       "because" "origin.example.com" (Some (4 * Second)%Z)));
    [exact liened_reachable|by apply rm_at_ok|by vm_compute..|by apply elem_of_cons; right; left|by left].
Defined.

(** A policy, a tag key and a lien of the project, which is then deleted. *)
Definition furnished : list (Z * Z * call) :=
  calls ++ [((4, 7)%Z, CSetIAMPolicy "projects/alpha-one" (iampb.mkSetIamPolicyRequest (Some (iampb.mkPolicy 1 [] [] "")) []));
            ((5, 8)%Z, CCreateTagKey (Some (mkTagKey "" "projects/alpha-one" "env" "" "" None None "" 0 ∅)) false);
            ((6, 9)%Z, CDelete "alpha-one")].
Definition pending : reg := run furnished empty.

Lemma pending_reachable : reachable pending.
Proof. apply run_reachable. repeat constructor; cbn; lia. Qed.

Example pending_has :
  list_keys (contents (db pending)) "" =
  [folderKey "100000000005"; folderKey "100000000009"; iamKey "projects/alpha-one"; key "alpha-one"; tagKeyPrefix +:+ "100000000008"].
Proof. by vm_compute. Qed.

Definition purged_ : reg := (Purge "alpha-one" (at_ 7 1) pending).1.

Lemma purge_leaves_nothing_witness :
  ∃ p, project_in (contents (db pending)) "alpha-one" p ∧ p_State p = DELETE_REQUESTED ∧ contents (db purged_) !! key "alpha-one" = None ∧
       retired (contents (db purged_)) (numberOf p) ∧ nothing_of "alpha-one" purged_ ∧ last (hooked purged_) = Some (Purged "alpha-one").
Proof. apply (purge_leaves_nothing pending (at_ 7 1) "alpha-one"); [exact pending_reachable|by apply rm_at_ok|by vm_compute]. Defined.

(** Created again: the number derived from the ID is retired, so another is drawn. *)
Definition again : reg := run (furnished ++ [((7, 1)%Z, CPurge "alpha-one")]) empty.

Lemma again_reachable : reachable again.
Proof. unfold again. apply run_reachable. repeat constructor; cbn; lia. Qed.

Lemma created_starts_with_nothing_witness :
  let s' := (register project (at_ 8 3) again).1 in
  let p' := mkProject "projects/alpha-one" "alpha-one" "Alpha" ACTIVE (Some (8 * Second)%Z) ∅ None team [] 100000000003 in
  nothing_under "alpha-one" s' ∧ project_in (contents (db s')) "alpha-one" p' ∧ p_State p' = ACTIVE ∧
  ¬ retired (contents (db s')) (numberOf p') ∧ ∀ id q, project_in (contents (db s')) id q → numberOf q = numberOf p' → id = "alpha-one".
Proof. apply (created_starts_with_nothing again (at_ 8 3) project); [exact again_reachable|by apply rm_at_ok|by vm_compute]. Defined.

(** ** Where the code departs from what it says *)

(** Nine folders, one in the other; a tenth beside them with a folder in it that is
    deleted; the tenth is moved below the nine, and the deleted one restored: it is
    the eleventh.  The move counts active folders only, and the restoration counts
    none. *)
Definition nth_folder (n : Z) : string := "folders/" +:+ Itoa (100000000000 + n).
Definition nest (n : Z) : Z * Z * call := ((n, n)%Z, CCreateFolder (if (n =? 1)%Z then OrganizationName else nth_folder (n - 1)) "Level").
Definition eleven_deep : reg :=
  run ((nest <$> [1; 2; 3; 4; 5; 6; 7; 8; 9]%Z) ++
       [((10, 20)%Z, CCreateFolder OrganizationName "Side"); ((11, 30)%Z, CCreateFolder (nth_folder 20) "Below");
        ((12, 1)%Z, CDeleteFolder (nth_folder 30)); ((13, 1)%Z, CMoveFolder (nth_folder 20) (nth_folder 9));
        ((14, 1)%Z, CUndeleteFolder (nth_folder 30))]) empty.

Example undelete_exceeds_depth :
  (checkParentLocked (nth_folder 30) (at_ 15 1) eleven_deep).2 = Ok 11 ∧ (MaxFolderDepth < 11)%nat.
Proof. split; [by vm_compute|unfold MaxFolderDepth; lia]. Qed.

(** A project deleted in a folder, the folder deleted too, and the project restored:
    it is active in a folder pending deletion, and once the folder is gone its
    ancestry cannot be read. *)
Definition orphaned : reg :=
  run [((1, 5)%Z, CCreateFolder OrganizationName "Team"); ((2, 1)%Z, CRegister project); ((3, 1)%Z, CDelete "alpha-one");
       ((4, 1)%Z, CDeleteFolder team); ((5, 1)%Z, CUndelete "alpha-one")] empty.

Example undelete_into_deleted_folder :
  (p_State <$> (Get "alpha-one" (at_ 6 1) orphaned).2) = Ok ACTIVE ∧ (f_State <$> (GetFolder team (at_ 6 1) orphaned).2) = Ok DELETE_REQUESTED ∧
  (Ancestry "alpha-one" (at_ 2592004 1) orphaned).2 = Err NotFound.
Proof. by vm_compute. Qed.

(** The parent is checked, the folder deleted, and the project registered: [Create]
    takes the lock twice. *)
Definition created_in_deleted : reg :=
  run [((1, 5)%Z, CCreateFolder OrganizationName "Team"); ((2, 1)%Z, CCheckParent team); ((2, 1)%Z, CDeleteFolder team);
       ((2, 1)%Z, CRegister project)] empty.

Example create_races_delete :
  (p_State <$> (Get "alpha-one" (at_ 3 1) created_in_deleted).2) = Ok ACTIVE ∧
  (f_State <$> (GetFolder team (at_ 3 1) created_in_deleted).2) = Ok DELETE_REQUESTED.
Proof. by vm_compute. Qed.

(** An empty destination, which the comment of [Move] allows, is refused. *)
Example move_nowhere_refused : (Move "alpha-one" "" (at_ 4 1) world).2 = Err InvalidArgument.
Proof. by vm_compute. Qed.

(** A folder's IAM policy is stored, though the file's comment says it is not. *)
Example folder_policy_stored :
  (iampb.Version <$> (SetIAMPolicy team (iampb.mkSetIamPolicyRequest (Some (iampb.mkPolicy 1 [] [] "")) []) (at_ 4 1) world).2) = Ok 1%Z.
Proof. by vm_compute. Qed.

End RmRuns.
