(* ===== verification/KmsModel.v ===== *)
(** * internal/service/kms: the data of Cloud KMS

    The enumerations of kmspb the code names (any other number is an [_other]
    value), the table of algorithms of purposes.go, the records the store keeps
    and the messages of the API.  A stored enumeration name is the value itself,
    the empty string is [None]; a byte slice is the string of its bytes; a nil
    map, slice or message field and an empty one are one value where the code
    does not tell them apart. *)

From S2P Require Import Prelude GoLib ApiError Resource IamPolicy GoCrypto.
From Stdlib Require Import Ascii.

Import strings time.

(** ** Enumerations *)

Inductive VersionState :=
| STATE_UNSPECIFIED | PENDING_GENERATION | ENABLED | DISABLED | DESTROYED | DESTROY_SCHEDULED | state_other (n : Z).

Inductive ProtectionLevel :=
| PROTECTION_LEVEL_UNSPECIFIED | SOFTWARE | HSM | EXTERNAL | EXTERNAL_VPC | HSM_SINGLE_TENANT | level_other (n : Z).

Inductive Purpose :=
| PURPOSE_UNSPECIFIED | ENCRYPT_DECRYPT | ASYMMETRIC_SIGN | ASYMMETRIC_DECRYPT | RAW_ENCRYPT_DECRYPT | MAC
| KEY_ENCAPSULATION | AES_WRAPPING | purpose_other (n : Z).

Inductive aes_mode := gcm_mode | cbc_mode | ctr_mode.

Inductive algo :=
| ALGORITHM_UNSPECIFIED
| GOOGLE_SYMMETRIC_ENCRYPTION | EXTERNAL_SYMMETRIC_ENCRYPTION
| RSA_SIGN_PSS_2048_SHA256 | RSA_SIGN_PSS_3072_SHA256 | RSA_SIGN_PSS_4096_SHA256 | RSA_SIGN_PSS_4096_SHA512
| RSA_SIGN_PKCS1_2048_SHA256 | RSA_SIGN_PKCS1_3072_SHA256 | RSA_SIGN_PKCS1_4096_SHA256 | RSA_SIGN_PKCS1_4096_SHA512
| RSA_SIGN_RAW_PKCS1_2048 | RSA_SIGN_RAW_PKCS1_3072 | RSA_SIGN_RAW_PKCS1_4096
| EC_SIGN_P256_SHA256 | EC_SIGN_P384_SHA384 | EC_SIGN_ED25519
| RSA_DECRYPT_OAEP_2048_SHA256 | RSA_DECRYPT_OAEP_3072_SHA256 | RSA_DECRYPT_OAEP_4096_SHA256 | RSA_DECRYPT_OAEP_4096_SHA512
| RSA_DECRYPT_OAEP_2048_SHA1 | RSA_DECRYPT_OAEP_3072_SHA1 | RSA_DECRYPT_OAEP_4096_SHA1
| HMAC_SHA1 | HMAC_SHA224 | HMAC_SHA256 | HMAC_SHA384 | HMAC_SHA512
| AES_128_GCM | AES_256_GCM | AES_128_CBC | AES_256_CBC | AES_128_CTR | AES_256_CTR
| ML_KEM_768 | ML_KEM_1024
| AES_256_KWP
| alg_other (n : Z).

Inductive EkmMode := MODE_UNSPECIFIED | MANUAL | CLOUD_KMS | mode_other (n : Z).

Inductive ImportMethod :=
| IMPORT_METHOD_UNSPECIFIED
| RSA_OAEP_3072_SHA1_AES_256 | RSA_OAEP_4096_SHA1_AES_256 | RSA_OAEP_3072_SHA256_AES_256 | RSA_OAEP_4096_SHA256_AES_256
| RSA_OAEP_3072_SHA256 | RSA_OAEP_4096_SHA256
| method_other (n : Z).

Inductive ImportJobState := JOB_ACTIVE | JOB_EXPIRED.

Inductive InstanceState :=
| INSTANCE_UNSPECIFIED | PENDING_TWO_FACTOR_AUTH_REGISTRATION | INSTANCE_ACTIVE | INSTANCE_DISABLED | INSTANCE_DELETED.

Inductive ProposalState :=
| PROPOSAL_PENDING | PROPOSAL_APPROVED | PROPOSAL_SUCCEEDED | PROPOSAL_FAILED | PROPOSAL_DELETED.

(** The names gcloud's --operation-type uses. *)
Inductive ProposalOp := opRegister | opDisable | opEnable | opDelete | opAdd | opRemove | opRefresh | opUpgrade.

#[global] Instance VersionState_eq_dec : EqDecision VersionState.
Proof. solve_decision. Defined.
#[global] Instance ProtectionLevel_eq_dec : EqDecision ProtectionLevel.
Proof. solve_decision. Defined.
#[global] Instance Purpose_eq_dec : EqDecision Purpose.
Proof. solve_decision. Defined.
#[global] Instance aes_mode_eq_dec : EqDecision aes_mode.
Proof. solve_decision. Defined.
#[global] Instance algo_eq_dec : EqDecision algo.
Proof. solve_decision. Defined.
#[global] Instance EkmMode_eq_dec : EqDecision EkmMode.
Proof. solve_decision. Defined.
#[global] Instance ImportMethod_eq_dec : EqDecision ImportMethod.
Proof. solve_decision. Defined.
#[global] Instance ImportJobState_eq_dec : EqDecision ImportJobState.
Proof. solve_decision. Defined.
#[global] Instance InstanceState_eq_dec : EqDecision InstanceState.
Proof. solve_decision. Defined.
#[global] Instance ProposalState_eq_dec : EqDecision ProposalState.
Proof. solve_decision. Defined.
#[global] Instance ProposalOp_eq_dec : EqDecision ProposalOp.
Proof. solve_decision. Defined.

(** The names [String] gives, where a list filter compares them. *)
Definition state_String (st : VersionState) : string :=
  match st with
  | STATE_UNSPECIFIED => "CRYPTO_KEY_VERSION_STATE_UNSPECIFIED"
  | PENDING_GENERATION => "PENDING_GENERATION"
  | ENABLED => "ENABLED"
  | DISABLED => "DISABLED"
  | DESTROYED => "DESTROYED"
  | DESTROY_SCHEDULED => "DESTROY_SCHEDULED"
  | state_other n => strconv.Itoa n
  end.

Definition job_String (st : ImportJobState) : string := match st with JOB_ACTIVE => "ACTIVE" | JOB_EXPIRED => "EXPIRED" end.

Definition instance_String (st : InstanceState) : string :=
  match st with
  | INSTANCE_UNSPECIFIED => "STATE_UNSPECIFIED"
  | PENDING_TWO_FACTOR_AUTH_REGISTRATION => "PENDING_TWO_FACTOR_AUTH_REGISTRATION"
  | INSTANCE_ACTIVE => "ACTIVE"
  | INSTANCE_DISABLED => "DISABLED"
  | INSTANCE_DELETED => "DELETED"
  end.

Definition proposal_String (st : ProposalState) : string :=
  match st with
  | PROPOSAL_PENDING => "PENDING"
  | PROPOSAL_APPROVED => "APPROVED"
  | PROPOSAL_SUCCEEDED => "SUCCEEDED"
  | PROPOSAL_FAILED => "FAILED"
  | PROPOSAL_DELETED => "DELETED"
  end.

(** ** Algorithms (purposes.go) *)

Record algSpec := mkAlgSpec {
  as_purpose : Purpose;
  rsaBits : nat;
  as_curve : option curve;
  ed25519 : bool;
  keyLen : nat;
  as_hash : option hash;
  pss : bool;
  as_mode : option aes_mode;
  kem : nat
}.

Definition sym_spec (p : Purpose) (n : nat) : algSpec := mkAlgSpec p 0 None false n None false None 0.
Definition rsa_sign (bits : nat) (h : option hash) (pss : bool) : algSpec := mkAlgSpec ASYMMETRIC_SIGN bits None false 0 h pss None 0.
Definition ec_sign (c : curve) (h : hash) : algSpec := mkAlgSpec ASYMMETRIC_SIGN 0 (Some c) false 0 (Some h) false None 0.
Definition rsa_oaep (bits : nat) (h : hash) : algSpec := mkAlgSpec ASYMMETRIC_DECRYPT bits None false 0 (Some h) false None 0.
Definition hmac_spec (h : hash) (n : nat) : algSpec := mkAlgSpec MAC 0 None false n (Some h) false None 0.
Definition raw_spec (n : nat) (m : aes_mode) : algSpec := mkAlgSpec RAW_ENCRYPT_DECRYPT 0 None false n None false (Some m) 0.
Definition kem_spec (n : nat) : algSpec := mkAlgSpec KEY_ENCAPSULATION 0 None false 0 None false None n.

Definition algorithms (a : algo) : option algSpec :=
  match a with
  | GOOGLE_SYMMETRIC_ENCRYPTION | EXTERNAL_SYMMETRIC_ENCRYPTION => Some (sym_spec ENCRYPT_DECRYPT 32)
  | RSA_SIGN_PSS_2048_SHA256 => Some (rsa_sign 2048 (Some SHA256) true)
  | RSA_SIGN_PSS_3072_SHA256 => Some (rsa_sign 3072 (Some SHA256) true)
  | RSA_SIGN_PSS_4096_SHA256 => Some (rsa_sign 4096 (Some SHA256) true)
  | RSA_SIGN_PSS_4096_SHA512 => Some (rsa_sign 4096 (Some SHA512) true)
  | RSA_SIGN_PKCS1_2048_SHA256 => Some (rsa_sign 2048 (Some SHA256) false)
  | RSA_SIGN_PKCS1_3072_SHA256 => Some (rsa_sign 3072 (Some SHA256) false)
  | RSA_SIGN_PKCS1_4096_SHA256 => Some (rsa_sign 4096 (Some SHA256) false)
  | RSA_SIGN_PKCS1_4096_SHA512 => Some (rsa_sign 4096 (Some SHA512) false)
  | RSA_SIGN_RAW_PKCS1_2048 => Some (rsa_sign 2048 None false)
  | RSA_SIGN_RAW_PKCS1_3072 => Some (rsa_sign 3072 None false)
  | RSA_SIGN_RAW_PKCS1_4096 => Some (rsa_sign 4096 None false)
  | EC_SIGN_P256_SHA256 => Some (ec_sign P256 SHA256)
  | EC_SIGN_P384_SHA384 => Some (ec_sign P384 SHA384)
  | EC_SIGN_ED25519 => Some (mkAlgSpec ASYMMETRIC_SIGN 0 None true 0 None false None 0)
  | RSA_DECRYPT_OAEP_2048_SHA256 => Some (rsa_oaep 2048 SHA256)
  | RSA_DECRYPT_OAEP_3072_SHA256 => Some (rsa_oaep 3072 SHA256)
  | RSA_DECRYPT_OAEP_4096_SHA256 => Some (rsa_oaep 4096 SHA256)
  | RSA_DECRYPT_OAEP_4096_SHA512 => Some (rsa_oaep 4096 SHA512)
  | RSA_DECRYPT_OAEP_2048_SHA1 => Some (rsa_oaep 2048 SHA1)
  | RSA_DECRYPT_OAEP_3072_SHA1 => Some (rsa_oaep 3072 SHA1)
  | RSA_DECRYPT_OAEP_4096_SHA1 => Some (rsa_oaep 4096 SHA1)
  | HMAC_SHA1 => Some (hmac_spec SHA1 20)
  | HMAC_SHA224 => Some (hmac_spec SHA224 28)
  | HMAC_SHA256 => Some (hmac_spec SHA256 32)
  | HMAC_SHA384 => Some (hmac_spec SHA384 48)
  | HMAC_SHA512 => Some (hmac_spec SHA512 64)
  | AES_128_GCM => Some (raw_spec 16 gcm_mode)
  | AES_256_GCM => Some (raw_spec 32 gcm_mode)
  | AES_128_CBC => Some (raw_spec 16 cbc_mode)
  | AES_256_CBC => Some (raw_spec 32 cbc_mode)
  | AES_128_CTR => Some (raw_spec 16 ctr_mode)
  | AES_256_CTR => Some (raw_spec 32 ctr_mode)
  | ML_KEM_768 => Some (kem_spec 768)
  | ML_KEM_1024 => Some (kem_spec 1024)
  | AES_256_KWP => Some (sym_spec AES_WRAPPING 32)
  | ALGORITHM_UNSPECIFIED | alg_other _ => None
  end.

Definition algorithmPurpose (a : algo) : option Purpose := as_purpose <$> algorithms a.

Definition purposes (p : Purpose) : bool :=
  match p with PURPOSE_UNSPECIFIED | purpose_other _ => false | _ => true end.

Definition keyAlgorithm (p : Purpose) (a : algo) : res error algo :=
  if bool_decide (a = ALGORITHM_UNSPECIFIED) then
    if bool_decide (p = ENCRYPT_DECRYPT) then Ok GOOGLE_SYMMETRIC_ENCRYPTION else Err InvalidArgument
  else match algorithmPurpose a with
       | None => Err Unimplemented
       | Some ap => if bool_decide (ap = p) then Ok a else Err InvalidArgument
       end.

(** ** Protection levels (protection.go, external.go) *)

Definition protectionLevelOf (pl : ProtectionLevel) : res error ProtectionLevel :=
  match pl with
  | PROTECTION_LEVEL_UNSPECIFIED | SOFTWARE => Ok SOFTWARE
  | HSM | EXTERNAL | EXTERNAL_VPC | HSM_SINGLE_TENANT => Ok pl
  | level_other _ => Err InvalidArgument
  end.

Definition storedLevel (pl : ProtectionLevel) : option ProtectionLevel :=
  match pl with SOFTWARE | PROTECTION_LEVEL_UNSPECIFIED => None | _ => Some pl end.
Definition levelOf (stored : option ProtectionLevel) : ProtectionLevel := default SOFTWARE stored.

Definition storedPurpose (p : Purpose) : option Purpose := if bool_decide (p = ENCRYPT_DECRYPT) then None else Some p.
Definition purposeOf (stored : option Purpose) : Purpose := default ENCRYPT_DECRYPT stored.

Definition storedAlgorithm (a : algo) : option algo := if bool_decide (a = GOOGLE_SYMMETRIC_ENCRYPTION) then None else Some a.
Definition algorithmOf (stored : option algo) : algo := default GOOGLE_SYMMETRIC_ENCRYPTION stored.

Definition externalAlgorithms (a : algo) : bool :=
  match a with
  | EXTERNAL_SYMMETRIC_ENCRYPTION | EC_SIGN_P256_SHA256 | EC_SIGN_P384_SHA384
  | RSA_SIGN_PSS_2048_SHA256 | RSA_SIGN_PSS_3072_SHA256 | RSA_SIGN_PSS_4096_SHA256 | RSA_SIGN_PSS_4096_SHA512
  | RSA_SIGN_PKCS1_2048_SHA256 | RSA_SIGN_PKCS1_3072_SHA256 | RSA_SIGN_PKCS1_4096_SHA256 | RSA_SIGN_PKCS1_4096_SHA512 => true
  | _ => false
  end.

Definition isExternal (pl : ProtectionLevel) : bool :=
  bool_decide (pl = EXTERNAL) || bool_decide (pl = EXTERNAL_VPC).

Definition levelAlgorithm (level : ProtectionLevel) (p : Purpose) (a : algo) : res error algo :=
  if bool_decide (p = AES_WRAPPING) && negb (bool_decide (level = HSM_SINGLE_TENANT)) then Err Unimplemented
  else if negb (isExternal level) then
    if bool_decide (a = EXTERNAL_SYMMETRIC_ENCRYPTION) then Err InvalidArgument else keyAlgorithm p a
  else
    let a := if bool_decide (a = ALGORITHM_UNSPECIFIED) && bool_decide (p = ENCRYPT_DECRYPT)
             then EXTERNAL_SYMMETRIC_ENCRYPTION else a in
    if negb (bool_decide (p = ENCRYPT_DECRYPT)) && negb (bool_decide (p = ASYMMETRIC_SIGN)) then Err InvalidArgument
    else got ← keyAlgorithm p a;
         if externalAlgorithms got then Ok got else Err InvalidArgument.

(** ** Stored records *)

(** The reason every call to the instance carries, the other named reasons, and
    numbers without a name. *)
Inductive AccessReason := CUSTOMER_INITIATED_ACCESS | reason (n : Z) | reason_unnamed (n : Z).

#[global] Instance AccessReason_eq_dec : EqDecision AccessReason.
Proof. solve_decision. Defined.

Definition kajPolicy : Type := list AccessReason.

Record keyRing := mkKeyRing {
  kr_Name : string;
  kr_Created : Time;
  kr_IAMPolicy : option IamPolicy.Stored
}.

Record cryptoKey := mkCryptoKey {
  ck_Name : string;
  ck_Created : Time;
  ck_Labels : gmap string string;
  ck_Primary : Z;
  ck_Next : Z;
  ck_DestroyScheduled : Duration;
  ck_IAMPolicy : option IamPolicy.Stored;
  ck_RotationPeriod : Duration;
  ck_NextRotation : Time;
  ck_Purpose : option Purpose;
  ck_Algorithm : option algo;
  ck_ProtectionLevel : option ProtectionLevel;
  ck_KAJPolicy : option kajPolicy;
  ck_Backend : string;
  ck_Coordinated : bool
}.

Record keyVersion := mkKeyVersion {
  kv_Name : string;
  kv_Created : Time;
  kv_Material : string;
  kv_Algorithm : option algo;
  kv_ProtectionLevel : option ProtectionLevel;
  kv_ImportJob : string;
  kv_Imported : Time;
  kv_State : option VersionState;
  kv_DestroyTime : Time;
  kv_DestroyEventTime : Time;
  kv_ExternalKeyURI : string;
  kv_KeyPath : string;
  kv_Backend : string;
  kv_TrustedWrapping : bool;
  kv_HsmTrusted : bool
}.

(** The resource type is always that of a CryptoKey. *)
Record retiredResource := mkRetired {
  rr_Name : string;
  rr_Original : string;
  rr_Deleted : Time
}.

Record ringHold := mkRingHold {
  rh_Name : string;
  rh_Deleted : Time
}.

Record importJob := mkImportJob {
  ij_Name : string;
  ij_Method : ImportMethod;
  ij_Created : Time;
  ij_Private : string;
  ij_ProtectionLevel : option ProtectionLevel;
  ij_Backend : string
}.

Record ekmResolver := mkEkmResolver {
  er_Service : string;
  er_Filter : string;
  er_Hostname : string;
  er_Certs : list string
}.

Record ekmConnection := mkEkmConnection {
  ec_Name : string;
  ec_Created : Time;
  ec_Resolvers : list ekmResolver;
  ec_Mode : option EkmMode;
  ec_CryptoSpace : string;
  ec_IAMPolicy : option IamPolicy.Stored
}.

Record ekmConfig := mkEkmConfig {
  ef_Name : string;
  ef_Default : string;
  ef_IAMPolicy : option IamPolicy.Stored
}.

Inductive AutokeyMode := RESOLUTION_UNSPECIFIED | DEDICATED_KEY_PROJECT | RESOURCE_PROJECT | AUTOKEY_DISABLED | resolution_other (n : Z).

#[global] Instance AutokeyMode_eq_dec : EqDecision AutokeyMode.
Proof. solve_decision. Defined.

Record autokeyConfig := mkAutokeyConfig {
  ac_Name : string;
  ac_KeyProject : string;
  ac_Mode : option AutokeyMode
}.

Record keyHandle := mkKeyHandle {
  kh_Name : string;
  kh_KmsKey : string;
  kh_ResourceType : string
}.

Record hsmInstance := mkHsmInstance {
  hi_Name : string;
  hi_Created : Time;
  hi_State : InstanceState;
  hi_Total : Z;
  hi_Required : Z;
  hi_Pems : list string;
  hi_Deleted : Time;
  hi_DisableAt : Time;
  hi_Portability : bool
}.

Record hsmChallenge := mkHsmChallenge {
  hc_Challenge : string;
  hc_Pem : string;
  hc_Approved : bool
}.

Record hsmProposal := mkHsmProposal {
  hp_Name : string;
  hp_Created : Time;
  hp_State : ProposalState;
  hp_Failure : option error;
  hp_Op : ProposalOp;
  hp_RegisterRequired : Z;
  hp_RegisterPems : list string;
  hp_MemberPem : string;
  hp_Version : string;
  hp_Required : Z;
  hp_Quorum : list hsmChallenge;
  hp_Must : list hsmChallenge;
  hp_Expire : Time;
  hp_Deleted : Time;
  hp_Purge : Time
}.

(** *** Assignments to one field *)

Definition set_ck_Labels (k : cryptoKey) (x : gmap string string) : cryptoKey :=
  mkCryptoKey (ck_Name k)
    (ck_Created k) x (ck_Primary k) (ck_Next k) (ck_DestroyScheduled k) (ck_IAMPolicy k) (ck_RotationPeriod k)
    (ck_NextRotation k) (ck_Purpose k) (ck_Algorithm k) (ck_ProtectionLevel k) (ck_KAJPolicy k) (ck_Backend k)
    (ck_Coordinated k).
Definition set_ck_Primary (k : cryptoKey) (x : Z) : cryptoKey :=
  mkCryptoKey (ck_Name k) (ck_Created k)
    (ck_Labels k) x (ck_Next k) (ck_DestroyScheduled k) (ck_IAMPolicy k) (ck_RotationPeriod k) (ck_NextRotation
    k) (ck_Purpose k) (ck_Algorithm k) (ck_ProtectionLevel k) (ck_KAJPolicy k) (ck_Backend k) (ck_Coordinated
    k).
Definition set_ck_Next (k : cryptoKey) (x : Z) : cryptoKey :=
  mkCryptoKey (ck_Name k) (ck_Created k) (ck_Labels
    k) (ck_Primary k) x (ck_DestroyScheduled k) (ck_IAMPolicy k) (ck_RotationPeriod k) (ck_NextRotation k)
    (ck_Purpose k) (ck_Algorithm k) (ck_ProtectionLevel k) (ck_KAJPolicy k) (ck_Backend k) (ck_Coordinated k).
Definition set_ck_IAMPolicy (k : cryptoKey) (x : option IamPolicy.Stored) : cryptoKey :=
  mkCryptoKey (ck_Name
    k) (ck_Created k) (ck_Labels k) (ck_Primary k) (ck_Next k) (ck_DestroyScheduled k) x (ck_RotationPeriod k)
    (ck_NextRotation k) (ck_Purpose k) (ck_Algorithm k) (ck_ProtectionLevel k) (ck_KAJPolicy k) (ck_Backend k)
    (ck_Coordinated k).
Definition set_ck_RotationPeriod (k : cryptoKey) (x : Duration) : cryptoKey :=
  mkCryptoKey (ck_Name k)
    (ck_Created k) (ck_Labels k) (ck_Primary k) (ck_Next k) (ck_DestroyScheduled k) (ck_IAMPolicy k) x
    (ck_NextRotation k) (ck_Purpose k) (ck_Algorithm k) (ck_ProtectionLevel k) (ck_KAJPolicy k) (ck_Backend k)
    (ck_Coordinated k).
Definition set_ck_NextRotation (k : cryptoKey) (x : Time) : cryptoKey :=
  mkCryptoKey (ck_Name k) (ck_Created k)
    (ck_Labels k) (ck_Primary k) (ck_Next k) (ck_DestroyScheduled k) (ck_IAMPolicy k) (ck_RotationPeriod k) x
    (ck_Purpose k) (ck_Algorithm k) (ck_ProtectionLevel k) (ck_KAJPolicy k) (ck_Backend k) (ck_Coordinated k).
Definition set_ck_Algorithm (k : cryptoKey) (x : option algo) : cryptoKey :=
  mkCryptoKey (ck_Name k)
    (ck_Created k) (ck_Labels k) (ck_Primary k) (ck_Next k) (ck_DestroyScheduled k) (ck_IAMPolicy k)
    (ck_RotationPeriod k) (ck_NextRotation k) (ck_Purpose k) x (ck_ProtectionLevel k) (ck_KAJPolicy k)
    (ck_Backend k) (ck_Coordinated k).
Definition set_ck_KAJPolicy (k : cryptoKey) (x : option kajPolicy) : cryptoKey :=
  mkCryptoKey (ck_Name k)
    (ck_Created k) (ck_Labels k) (ck_Primary k) (ck_Next k) (ck_DestroyScheduled k) (ck_IAMPolicy k)
    (ck_RotationPeriod k) (ck_NextRotation k) (ck_Purpose k) (ck_Algorithm k) (ck_ProtectionLevel k) x
    (ck_Backend k) (ck_Coordinated k).
Definition set_ck_Backend (k : cryptoKey) (x : string) : cryptoKey :=
  mkCryptoKey (ck_Name k) (ck_Created k)
    (ck_Labels k) (ck_Primary k) (ck_Next k) (ck_DestroyScheduled k) (ck_IAMPolicy k) (ck_RotationPeriod k)
    (ck_NextRotation k) (ck_Purpose k) (ck_Algorithm k) (ck_ProtectionLevel k) (ck_KAJPolicy k) x (ck_Coordinated
    k).
Definition set_ck_Coordinated (k : cryptoKey) (x : bool) : cryptoKey :=
  mkCryptoKey (ck_Name k) (ck_Created k)
    (ck_Labels k) (ck_Primary k) (ck_Next k) (ck_DestroyScheduled k) (ck_IAMPolicy k) (ck_RotationPeriod k)
    (ck_NextRotation k) (ck_Purpose k) (ck_Algorithm k) (ck_ProtectionLevel k) (ck_KAJPolicy k) (ck_Backend k)
    x.
Definition set_kv_Material (v : keyVersion) (x : string) : keyVersion :=
  mkKeyVersion (kv_Name v) (kv_Created
    v) x (kv_Algorithm v) (kv_ProtectionLevel v) (kv_ImportJob v) (kv_Imported v) (kv_State v) (kv_DestroyTime v)
    (kv_DestroyEventTime v) (kv_ExternalKeyURI v) (kv_KeyPath v) (kv_Backend v) (kv_TrustedWrapping v)
    (kv_HsmTrusted v).
Definition set_kv_State (v : keyVersion) (x : option VersionState) : keyVersion :=
  mkKeyVersion (kv_Name v)
    (kv_Created v) (kv_Material v) (kv_Algorithm v) (kv_ProtectionLevel v) (kv_ImportJob v) (kv_Imported v) x
    (kv_DestroyTime v) (kv_DestroyEventTime v) (kv_ExternalKeyURI v) (kv_KeyPath v) (kv_Backend v)
    (kv_TrustedWrapping v) (kv_HsmTrusted v).
Definition set_kv_DestroyTime (v : keyVersion) (x : Time) : keyVersion :=
  mkKeyVersion (kv_Name v) (kv_Created
    v) (kv_Material v) (kv_Algorithm v) (kv_ProtectionLevel v) (kv_ImportJob v) (kv_Imported v) (kv_State v) x
    (kv_DestroyEventTime v) (kv_ExternalKeyURI v) (kv_KeyPath v) (kv_Backend v) (kv_TrustedWrapping v)
    (kv_HsmTrusted v).
Definition set_kv_DestroyEventTime (v : keyVersion) (x : Time) : keyVersion :=
  mkKeyVersion (kv_Name v)
    (kv_Created v) (kv_Material v) (kv_Algorithm v) (kv_ProtectionLevel v) (kv_ImportJob v) (kv_Imported v)
    (kv_State v) (kv_DestroyTime v) x (kv_ExternalKeyURI v) (kv_KeyPath v) (kv_Backend v) (kv_TrustedWrapping v)
    (kv_HsmTrusted v).
Definition set_kv_ExternalKeyURI (v : keyVersion) (x : string) : keyVersion :=
  mkKeyVersion (kv_Name v)
    (kv_Created v) (kv_Material v) (kv_Algorithm v) (kv_ProtectionLevel v) (kv_ImportJob v) (kv_Imported v)
    (kv_State v) (kv_DestroyTime v) (kv_DestroyEventTime v) x (kv_KeyPath v) (kv_Backend v) (kv_TrustedWrapping
    v) (kv_HsmTrusted v).
Definition set_kv_KeyPath (v : keyVersion) (x : string) : keyVersion :=
  mkKeyVersion (kv_Name v) (kv_Created v)
    (kv_Material v) (kv_Algorithm v) (kv_ProtectionLevel v) (kv_ImportJob v) (kv_Imported v) (kv_State v)
    (kv_DestroyTime v) (kv_DestroyEventTime v) (kv_ExternalKeyURI v) x (kv_Backend v) (kv_TrustedWrapping v)
    (kv_HsmTrusted v).
Definition set_kv_Backend (v : keyVersion) (x : string) : keyVersion :=
  mkKeyVersion (kv_Name v) (kv_Created v)
    (kv_Material v) (kv_Algorithm v) (kv_ProtectionLevel v) (kv_ImportJob v) (kv_Imported v) (kv_State v)
    (kv_DestroyTime v) (kv_DestroyEventTime v) (kv_ExternalKeyURI v) (kv_KeyPath v) x (kv_TrustedWrapping v)
    (kv_HsmTrusted v).
Definition set_kv_TrustedWrapping (v : keyVersion) (x : bool) : keyVersion :=
  mkKeyVersion (kv_Name v)
    (kv_Created v) (kv_Material v) (kv_Algorithm v) (kv_ProtectionLevel v) (kv_ImportJob v) (kv_Imported v)
    (kv_State v) (kv_DestroyTime v) (kv_DestroyEventTime v) (kv_ExternalKeyURI v) (kv_KeyPath v) (kv_Backend v) x
    (kv_HsmTrusted v).
Definition set_kv_HsmTrusted (v : keyVersion) (x : bool) : keyVersion :=
  mkKeyVersion (kv_Name v) (kv_Created
    v) (kv_Material v) (kv_Algorithm v) (kv_ProtectionLevel v) (kv_ImportJob v) (kv_Imported v) (kv_State v)
    (kv_DestroyTime v) (kv_DestroyEventTime v) (kv_ExternalKeyURI v) (kv_KeyPath v) (kv_Backend v)
    (kv_TrustedWrapping v) x.
Definition set_ec_Resolvers (c : ekmConnection) (x : list ekmResolver) : ekmConnection :=
  mkEkmConnection
    (ec_Name c) (ec_Created c) x (ec_Mode c) (ec_CryptoSpace c) (ec_IAMPolicy c).
Definition set_ec_Mode (c : ekmConnection) (x : option EkmMode) : ekmConnection :=
  mkEkmConnection (ec_Name c)
    (ec_Created c) (ec_Resolvers c) x (ec_CryptoSpace c) (ec_IAMPolicy c).
Definition set_ec_CryptoSpace (c : ekmConnection) (x : string) : ekmConnection :=
  mkEkmConnection (ec_Name c)
    (ec_Created c) (ec_Resolvers c) (ec_Mode c) x (ec_IAMPolicy c).
Definition set_ec_IAMPolicy (c : ekmConnection) (x : option IamPolicy.Stored) : ekmConnection :=
 
    mkEkmConnection (ec_Name c) (ec_Created c) (ec_Resolvers c) (ec_Mode c) (ec_CryptoSpace c) x.
Definition set_hi_State (i : hsmInstance) (x : InstanceState) : hsmInstance :=
  mkHsmInstance (hi_Name i)
    (hi_Created i) x (hi_Total i) (hi_Required i) (hi_Pems i) (hi_Deleted i) (hi_DisableAt i) (hi_Portability
    i).
Definition set_hi_Total (i : hsmInstance) (x : Z) : hsmInstance :=
  mkHsmInstance (hi_Name i) (hi_Created i)
    (hi_State i) x (hi_Required i) (hi_Pems i) (hi_Deleted i) (hi_DisableAt i) (hi_Portability i).
Definition set_hi_Required (i : hsmInstance) (x : Z) : hsmInstance :=
  mkHsmInstance (hi_Name i) (hi_Created i)
    (hi_State i) (hi_Total i) x (hi_Pems i) (hi_Deleted i) (hi_DisableAt i) (hi_Portability i).
Definition set_hi_Pems (i : hsmInstance) (x : list string) : hsmInstance :=
  mkHsmInstance (hi_Name i)
    (hi_Created i) (hi_State i) (hi_Total i) (hi_Required i) x (hi_Deleted i) (hi_DisableAt i) (hi_Portability
    i).
Definition set_hi_Deleted (i : hsmInstance) (x : Time) : hsmInstance :=
  mkHsmInstance (hi_Name i) (hi_Created
    i) (hi_State i) (hi_Total i) (hi_Required i) (hi_Pems i) x (hi_DisableAt i) (hi_Portability i).
Definition set_hi_DisableAt (i : hsmInstance) (x : Time) : hsmInstance :=
  mkHsmInstance (hi_Name i) (hi_Created
    i) (hi_State i) (hi_Total i) (hi_Required i) (hi_Pems i) (hi_Deleted i) x (hi_Portability i).
Definition set_hp_State (p : hsmProposal) (x : ProposalState) : hsmProposal :=
  mkHsmProposal (hp_Name p)
    (hp_Created p) x (hp_Failure p) (hp_Op p) (hp_RegisterRequired p) (hp_RegisterPems p) (hp_MemberPem p)
    (hp_Version p) (hp_Required p) (hp_Quorum p) (hp_Must p) (hp_Expire p) (hp_Deleted p) (hp_Purge p).
Definition set_hp_Failure (p : hsmProposal) (x : option error) : hsmProposal :=
  mkHsmProposal (hp_Name p)
    (hp_Created p) (hp_State p) x (hp_Op p) (hp_RegisterRequired p) (hp_RegisterPems p) (hp_MemberPem p)
    (hp_Version p) (hp_Required p) (hp_Quorum p) (hp_Must p) (hp_Expire p) (hp_Deleted p) (hp_Purge p).
Definition set_hp_Required (p : hsmProposal) (x : Z) : hsmProposal :=
  mkHsmProposal (hp_Name p) (hp_Created p)
    (hp_State p) (hp_Failure p) (hp_Op p) (hp_RegisterRequired p) (hp_RegisterPems p) (hp_MemberPem p)
    (hp_Version p) x (hp_Quorum p) (hp_Must p) (hp_Expire p) (hp_Deleted p) (hp_Purge p).
Definition set_hp_Quorum (p : hsmProposal) (x : list hsmChallenge) : hsmProposal :=
  mkHsmProposal (hp_Name p)
    (hp_Created p) (hp_State p) (hp_Failure p) (hp_Op p) (hp_RegisterRequired p) (hp_RegisterPems p)
    (hp_MemberPem p) (hp_Version p) (hp_Required p) x (hp_Must p) (hp_Expire p) (hp_Deleted p) (hp_Purge p).
Definition set_hp_Must (p : hsmProposal) (x : list hsmChallenge) : hsmProposal :=
  mkHsmProposal (hp_Name p)
    (hp_Created p) (hp_State p) (hp_Failure p) (hp_Op p) (hp_RegisterRequired p) (hp_RegisterPems p)
    (hp_MemberPem p) (hp_Version p) (hp_Required p) (hp_Quorum p) x (hp_Expire p) (hp_Deleted p) (hp_Purge p).
Definition set_hp_Deleted (p : hsmProposal) (x : Time) : hsmProposal :=
  mkHsmProposal (hp_Name p) (hp_Created
    p) (hp_State p) (hp_Failure p) (hp_Op p) (hp_RegisterRequired p) (hp_RegisterPems p) (hp_MemberPem p)
    (hp_Version p) (hp_Required p) (hp_Quorum p) (hp_Must p) (hp_Expire p) x (hp_Purge p).
Definition set_hp_Purge (p : hsmProposal) (x : Time) : hsmProposal :=
  mkHsmProposal (hp_Name p) (hp_Created p)
    (hp_State p) (hp_Failure p) (hp_Op p) (hp_RegisterRequired p) (hp_RegisterPems p) (hp_MemberPem p)
    (hp_Version p) (hp_Required p) (hp_Quorum p) (hp_Must p) (hp_Expire p) (hp_Deleted p) x.

(** *** Methods of the records *)

Definition ck_purpose (k : cryptoKey) : Purpose := purposeOf (ck_Purpose k).
Definition ck_algorithm (k : cryptoKey) : algo := algorithmOf (ck_Algorithm k).
Definition ck_protectionLevel (k : cryptoKey) : ProtectionLevel := levelOf (ck_ProtectionLevel k).
Definition kv_algorithm (v : keyVersion) : algo := algorithmOf (kv_Algorithm v).
Definition kv_protectionLevel (v : keyVersion) : ProtectionLevel := levelOf (kv_ProtectionLevel v).
Definition ij_protectionLevel (j : importJob) : ProtectionLevel := levelOf (ij_ProtectionLevel j).

Definition defaultDestroyScheduled : Duration := (30 * 24 * Hour)%Z.
Definition minDestroyScheduled : Duration := (24 * Hour)%Z.
Definition maxDestroyScheduled : Duration := (120 * 24 * Hour)%Z.

Definition destroyScheduled (k : cryptoKey) : Duration :=
  if (ck_DestroyScheduled k =? 0)%Z then defaultDestroyScheduled else ck_DestroyScheduled k.

Definition state (v : keyVersion) : VersionState := default ENABLED (kv_State v).

(** The version as it is at [now]. *)
Definition effective (v : keyVersion) (now : Time) : keyVersion :=
  if bool_decide (state v = DESTROY_SCHEDULED) && negb (Before now (kv_DestroyTime v)) then
    set_kv_Material (set_kv_DestroyTime (set_kv_DestroyEventTime (set_kv_State v (Some DESTROYED)) (kv_DestroyTime v)) zero) ""
  else v.

(** Whether each version of the key needs a reference only the caller can give. *)
Definition manualExternal (k : cryptoKey) : bool :=
  match ck_protectionLevel k with
  | EXTERNAL => true
  | EXTERNAL_VPC => negb (ck_Coordinated k)
  | _ => false
  end.

Definition importJobTTL : Duration := (3 * 24 * Hour)%Z.

Definition ij_state (j : importJob) (now : Time) : ImportJobState :=
  if negb (Before now (Add (ij_Created j) importJobTTL)) then JOB_EXPIRED else JOB_ACTIVE.

(** A mode number without a name is stored as its digits, which read back as
    the unspecified mode. *)
Definition ec_mode (c : ekmConnection) : EkmMode :=
  match ec_Mode c with
  | None => MANUAL
  | Some (mode_other _) => MODE_UNSPECIFIED
  | Some m => m
  end.

Definition hi_effective (i : hsmInstance) (now : Time) : hsmInstance :=
  if bool_decide (hi_State i = INSTANCE_ACTIVE) && negb (IsZero (hi_DisableAt i)) && negb (Before now (hi_DisableAt i))
  then set_hi_State i INSTANCE_DISABLED else i.

(** Whether the proposal still blocks another one on its instance. *)
Definition active (p : hsmProposal) (now : Time) : bool :=
  (bool_decide (hp_State p = PROPOSAL_PENDING) || bool_decide (hp_State p = PROPOSAL_APPROVED)) && Before now (hp_Expire p).

(** ** Operations

    A finished long-running operation: its name and, when it failed, its error. *)
Record Operation := mkOperation { op_Name : string; op_Error : option error }.

(** ** The store's documents *)

Inductive doc :=
| DRing (r : keyRing)
| DKey (k : cryptoKey)
| DVersion (v : keyVersion)
| DRetired (r : retiredResource)
| DHold (h : ringHold)
| DJob (j : importJob)
| DConnection (c : ekmConnection)
| DConfig (c : ekmConfig)
| DAutokey (c : autokeyConfig)
| DHandle (h : keyHandle)
| DInstance (i : hsmInstance)
| DProposal (p : hsmProposal)
| DOperation (o : Operation).

(** [json.Marshal] succeeds: every time is in a year it can write. *)
Definition marshals (d : doc) : bool :=
  match d with
  | DRing r => json_ok (kr_Created r)
  | DKey k => json_ok (ck_Created k) && json_ok (ck_NextRotation k)
  | DVersion v => json_ok (kv_Created v) && json_ok (kv_Imported v) && json_ok (kv_DestroyTime v) && json_ok (kv_DestroyEventTime v)
  | DRetired r => json_ok (rr_Deleted r)
  | DHold h => json_ok (rh_Deleted h)
  | DJob j => json_ok (ij_Created j)
  | DConnection c => json_ok (ec_Created c)
  | DConfig _ | DAutokey _ | DHandle _ | DOperation _ => true
  | DInstance i => json_ok (hi_Created i) && json_ok (hi_Deleted i) && json_ok (hi_DisableAt i)
  | DProposal p => json_ok (hp_Created p) && json_ok (hp_Expire p) && json_ok (hp_Deleted p) && json_ok (hp_Purge p)
  end.

Definition ErrEncode : error := Sentinel "json: unsupported value".
Definition ErrDecode : error := Sentinel "json: cannot unmarshal".

(** How a record is written, read back, and seen at the time of a read: every
    read of a version sees its effective state. *)
Class Record_ (T : Type) := {
  to_doc : T → doc;
  of_doc : doc → option T;
  on_read : Time → T → T
}.

#[global] Instance keyRing_record : Record_ keyRing :=
  {| to_doc := DRing; of_doc d := match d with DRing r => Some r | _ => None end; on_read _ r := r |}.
#[global] Instance cryptoKey_record : Record_ cryptoKey :=
  {| to_doc := DKey; of_doc d := match d with DKey r => Some r | _ => None end; on_read _ r := r |}.
#[global] Instance keyVersion_record : Record_ keyVersion :=
  {| to_doc := DVersion; of_doc d := match d with DVersion r => Some r | _ => None end; on_read t v := effective v t |}.
#[global] Instance retired_record : Record_ retiredResource :=
  {| to_doc := DRetired; of_doc d := match d with DRetired r => Some r | _ => None end; on_read _ r := r |}.
#[global] Instance hold_record : Record_ ringHold :=
  {| to_doc := DHold; of_doc d := match d with DHold r => Some r | _ => None end; on_read _ r := r |}.
#[global] Instance job_record : Record_ importJob :=
  {| to_doc := DJob; of_doc d := match d with DJob r => Some r | _ => None end; on_read _ r := r |}.
#[global] Instance connection_record : Record_ ekmConnection :=
  {| to_doc := DConnection; of_doc d := match d with DConnection r => Some r | _ => None end; on_read _ r := r |}.
#[global] Instance config_record : Record_ ekmConfig :=
  {| to_doc := DConfig; of_doc d := match d with DConfig r => Some r | _ => None end; on_read _ r := r |}.
#[global] Instance autokey_record : Record_ autokeyConfig :=
  {| to_doc := DAutokey; of_doc d := match d with DAutokey r => Some r | _ => None end; on_read _ r := r |}.
#[global] Instance handle_record : Record_ keyHandle :=
  {| to_doc := DHandle; of_doc d := match d with DHandle r => Some r | _ => None end; on_read _ r := r |}.
#[global] Instance instance_record : Record_ hsmInstance :=
  {| to_doc := DInstance; of_doc d := match d with DInstance r => Some r | _ => None end; on_read _ r := r |}.
#[global] Instance proposal_record : Record_ hsmProposal :=
  {| to_doc := DProposal; of_doc d := match d with DProposal r => Some r | _ => None end; on_read _ r := r |}.
