(* ===== verification/KmsNames.v ===== *)
(** * internal/service/kms/names.go: resource names

    The checks every request's names go through, and the keys records are stored
    under (server.go's dbKey).  The error every one of them returns is
    INVALID_ARGUMENT. *)

From S2P Require Import Prelude GoLib ApiError Resource MetaStore.
From Stdlib Require Import Ascii.

Import strings.

Definition tilde : ascii := "~".

(** [^[a-zA-Z0-9_-]{1,63}$] *)
Definition id_byte (a : ascii) : bool := is_alnum a || one_of ["_"; "-"]%char a.
Definition idRE (id : string) : bool := (1 <=? len id)%nat && (len id <=? 63)%nat && AllBytes id_byte id.

(** [^[1-9][0-9]*$] *)
Definition versionIDRE (id : string) : bool :=
  first_byte (in_range 49 57) id && AllBytes is_digit id.

Definition parseLocation (name : string) : res error unit :=
  match ParseLocation name with Ok _ => Ok tt | Err _ => Err InvalidArgument end.

Definition parseKeyRing (name : string) : res error unit :=
  match Split name slash with
  | [p0; p1; p2; p3; p4; p5] =>
      if negb (bool_decide (p4 = "keyRings")) then Err InvalidArgument
      else _ ← parseLocation (Join [p0; p1; p2; p3] slash);
           if idRE p5 then Ok tt else Err InvalidArgument
  | _ => Err InvalidArgument
  end.

Definition parseCryptoKey (name : string) : res error unit :=
  match Split name slash with
  | [p0; p1; p2; p3; p4; p5; p6; p7] =>
      if negb (bool_decide (p6 = "cryptoKeys")) then Err InvalidArgument
      else _ ← parseKeyRing (Join [p0; p1; p2; p3; p4; p5] slash);
           if idRE p7 then Ok tt else Err InvalidArgument
  | _ => Err InvalidArgument
  end.

Definition versionNumber (id : string) : res error Z :=
  if negb (versionIDRE id) then Err InvalidArgument
  else match strconv.Atoi id with Some n => Ok n | None => Err InvalidArgument end.

Definition parseCryptoKeyVersion (name : string) : res error (string * Z) :=
  match Split name slash with
  | [p0; p1; p2; p3; p4; p5; p6; p7; p8; p9] =>
      if negb (bool_decide (p8 = "cryptoKeyVersions")) then Err InvalidArgument
      else let key := Join [p0; p1; p2; p3; p4; p5; p6; p7] slash in
           _ ← parseCryptoKey key;
           n ← versionNumber p9;
           Ok (key, n)
  | _ => Err InvalidArgument
  end.

(** The other resources of the service (delete.go, import.go, ekm.go, hsm.go,
    autokey.go). *)

Definition parseRetired (name : string) : res error unit :=
  match Split name slash with
  | [p0; p1; p2; p3; p4; p5] =>
      if negb (bool_decide (p4 = "retiredResources")) || bool_decide (p5 = "") then Err InvalidArgument
      else parseLocation (Join [p0; p1; p2; p3] slash)
  | _ => Err InvalidArgument
  end.

Definition parseImportJob (name : string) : res error unit :=
  match Split name slash with
  | [p0; p1; p2; p3; p4; p5; p6; p7] =>
      if negb (bool_decide (p6 = "importJobs")) then Err InvalidArgument
      else _ ← parseKeyRing (Join [p0; p1; p2; p3; p4; p5] slash);
           if idRE p7 then Ok tt else Err InvalidArgument
  | _ => Err InvalidArgument
  end.

Definition parseEkmConnection (name : string) : res error unit :=
  match Split name slash with
  | [p0; p1; p2; p3; p4; p5] =>
      if negb (bool_decide (p4 = "ekmConnections")) then Err InvalidArgument
      else _ ← parseLocation (Join [p0; p1; p2; p3] slash);
           if idRE p5 then Ok tt else Err InvalidArgument
  | _ => Err InvalidArgument
  end.

(** [strings.CutSuffix] *)
Definition CutSuffix (s suffix : string) : option string := if HasSuffix s suffix then Some (TrimSuffix s suffix) else None.

Definition parseEkmConfig (name : string) : res error string :=
  match CutSuffix name "/ekmConfig" with
  | None => Err InvalidArgument
  | Some loc => _ ← parseLocation loc; Ok loc
  end.

Definition parseHsmInstance (name : string) : res error string :=
  match Split name slash with
  | [p0; p1; p2; p3; p4; p5] =>
      if negb (bool_decide (p4 = "singleTenantHsmInstances")) || negb (idRE p5) then Err InvalidArgument
      else let loc := Join [p0; p1; p2; p3] slash in _ ← parseLocation loc; Ok loc
  | _ => Err InvalidArgument
  end.

Definition parseHsmProposal (name : string) : res error string :=
  match Split name slash with
  | [p0; p1; p2; p3; p4; p5; p6; p7] =>
      if negb (bool_decide (p6 = "proposals")) || negb (idRE p7) then Err InvalidArgument
      else parseHsmInstance (Join [p0; p1; p2; p3; p4; p5] slash)
  | _ => Err InvalidArgument
  end.

Definition parseKeyHandle (name : string) : res error unit :=
  match Split name slash with
  | [p0; p1; p2; p3; p4; p5] =>
      if negb (bool_decide (p4 = "keyHandles")) || negb (idRE p5) then Err InvalidArgument
      else parseLocation (Join [p0; p1; p2; p3] slash)
  | _ => Err InvalidArgument
  end.

(** ** Names of children and keys of records *)

Definition versionName (key : string) (n : Z) : string := key +:+ "/cryptoKeyVersions/" +:+ strconv.Itoa n.

(** [strings.Join(strings.Split(name, "/")[:4], "/")] of a parsed name *)
Definition locationOf (name : string) : string := Join (take 4 (Split name slash)) slash.

(** [name[:strings.Index(name, sub)]], which panics where there is no [sub] *)
Definition ErrPanic : error := Sentinel "panic: slice bounds out of range".

Definition BeforeIndex (name sub : string) : res error string :=
  match Index name sub with
  | Some i => Ok (take_bytes i name)
  | None => Err ErrPanic
  end.

Definition dbKey (prefix name : string) : string := prefix +:+ ReplaceAll name slash tilde.

Definition ringPrefix : string := "kms/ring/".
Definition keyPrefix : string := "kms/key/".
Definition versionPrefix : string := "kms/version/".
Definition retiredPrefix : string := "kms/retired/".
Definition ringHoldPrefix : string := "kms/ringhold/".
Definition importJobPrefix : string := "kms/importjob/".
Definition ekmConnectionPrefix : string := "kms/ekmconnection/".
Definition ekmConfigPrefix : string := "kms/ekmconfig/".
Definition autokeyConfigPrefix : string := "kms/autokeyconfig/".
Definition keyHandlePrefix : string := "kms/keyhandle/".
Definition operationPrefix : string := "kms/operation/".
Definition hsmInstancePrefix : string := "kms/hsminstance/".
Definition hsmProposalPrefix : string := "kms/hsmproposal/".

(** ** Facts

    The bytes of a well-formed name: none of them is replaced or refused by the
    store. *)
Definition name_byte (a : ascii) : bool := is_alnum a || one_of ["_"; "-"; "/"]%char a.
Definition plain (s : string) : Prop := AllBytes name_byte s = true.

Lemma plain_app s t : plain (s +:+ t) ↔ plain s ∧ plain t.
Proof. unfold plain. by rewrite AllBytes_app, andb_true_iff. Qed.

Lemma plain_Join parts : Forall plain parts → plain (Join parts slash).
Proof.
  induction 1 as [|p [|q l] Hp Hl IH]; [done|done|]. rewrite Join_cons2. apply plain_app. split; [done|]. exact IH.
Qed.

Lemma idRE_plain id : idRE id = true → plain id.
Proof.
  unfold idRE. rewrite !andb_true_iff. intros [_ H]. revert H. apply AllBytes_mono. intros a. unfold id_byte, name_byte, one_of.
  rewrite !orb_true_iff, !bool_decide_eq_true. set_solver.
Qed.

Lemma segment_free id : idRE id = true → free_of slash id = true.
Proof. unfold idRE. rewrite !andb_true_iff. intros [_ H]. by apply (AllBytes_not_in id_byte id slash). Qed.

Lemma projectRE_plain p : projectRE p = true → plain p.
Proof.
  unfold projectRE. rewrite !andb_true_iff. intros [[_ H] _]. revert H. apply AllBytes_mono. intros a.
  unfold name_byte, is_alnum, one_of. rewrite !orb_true_iff, !bool_decide_eq_true. set_solver.
Qed.

Lemma locationRE_plain l : locationRE l = true → plain l.
Proof.
  unfold locationRE. intros H. pose proof (Join_Split l "-"%char) as Hl. destruct (Split l "-"%char) as [|first rest]; [done|].
  rewrite !andb_true_iff, forallb_forall in H. destruct H as [[_ Hf] Hr]. rewrite <- Hl.
  assert (∀ parts, Forall plain parts → plain (Join parts "-"%char)) as Hj.
  { induction 1 as [|p [|q k] Hp Hk IH]; [done|done|]. rewrite Join_cons2. apply plain_app. split; [done|]. exact IH. }
  apply Hj. constructor.
  - revert Hf. apply AllBytes_mono. intros a Ha. unfold name_byte, is_alnum. by rewrite Ha.
  - apply Forall_forall. intros p Hp%list_elem_of_In%Hr. rewrite andb_true_iff in Hp. destruct Hp as [_ Hp].
    revert Hp. apply AllBytes_mono. intros a. unfold name_byte, is_alnum. rewrite !orb_true_iff. naive_solver.
Qed.

Lemma Itoa_plain n : (0 ≤ n)%Z → plain (strconv.Itoa n).
Proof.
  intros Hn. pose proof (strconv.Itoa_bytes n) as H. revert H. unfold plain. apply AllBytes_mono. intros a. unfold name_byte, is_alnum, is_digit, in_range, one_of.
  rewrite !orb_true_iff, !bool_decide_eq_true. set_solver.
Qed.

(** *** What a parsed name is *)

Definition location_segments (name : string) : Prop :=
  ∃ p l, name = Join ["projects"; p; "locations"; l] slash ∧ projectRE p = true ∧ locationRE l = true.

Lemma parseLocation_ok name : parseLocation name = Ok tt ↔ location_segments name.
Proof.
  unfold parseLocation, location_segments. split.
  - intros H. destruct (ParseLocation name) as [[p l]|] eqn:Hp; [|done]. exists p, l.
    pose proof (Join_Split name slash) as Hn. unfold ParseLocation in Hp.
    destruct (Split name slash) as [|p0 [|p1 [|p2 [|p3 [|]]]]]; try done.
    destruct (bool_decide (p0 = "projects")) eqn:H0; [|done]. destruct (bool_decide (p2 = "locations")) eqn:H2; [|done].
    apply bool_decide_eq_true in H0 as ->, H2 as ->. cbn in Hp. destruct (projectRE p1) eqn:H1; [|done].
    destruct (locationRE p3) eqn:H3; [|done]. injection Hp as <- <-. done.
  - intros (p & l & -> & Hp & Hl). rewrite ParseLocation_segments by eauto using projectRE_free, locationRE_free.
    by rewrite Hp, Hl.
Qed.

Lemma location_plain name : parseLocation name = Ok tt → plain name.
Proof.
  intros (p & l & -> & Hp & Hl)%parseLocation_ok. apply plain_Join.
  repeat constructor; [by apply projectRE_plain|by apply locationRE_plain].
Qed.

(** A parsed child name is its parent's name, a collection and an ID. *)
Lemma split_child (name : string) (parts : list string) (coll id : string) :
  Split name slash = parts ++ [coll; id] → parts ≠ [] → name = Join parts slash +:+ "/" +:+ coll +:+ "/" +:+ id.
Proof.
  intros Hs Hne. pose proof (Join_Split name slash) as Hn. rewrite Hs in Hn. rewrite <- Hn. clear -Hne.
  induction parts as [|p parts IH]; [done|]. destruct parts as [|q parts].
  - cbn [app]. rewrite !Join_cons2. done.
  - cbn [app] in *. rewrite Join_cons2, (IH ltac:(done)), Join_cons2, !app_assoc. cbn. done.
Qed.

Lemma Split_child parent coll id :
  free_of slash coll = true → free_of slash id = true →
  Split (parent +:+ "/" +:+ coll +:+ "/" +:+ id) slash = Split parent slash ++ [coll; id].
Proof.
  intros Hc Hi. pose proof (Split_parts_free parent slash) as Hf.
  replace (parent +:+ "/" +:+ coll +:+ "/" +:+ id) with (Join (Split parent slash ++ [coll; id]) slash).
  - apply Split_Join; [by destruct (Split parent slash)|]. apply Forall_app. split; [done|]. by repeat constructor.
  - rewrite (split_child (Join (Split parent slash ++ [coll; id]) slash) (Split parent slash) coll id).
    + by rewrite Join_Split.
    + apply Split_Join; [by destruct (Split parent slash)|]. apply Forall_app. split; [done|]. by repeat constructor.
    + apply Split_nonempty.
Qed.

Lemma Split_sep s c t : Split (s +:+ String c t) c = Split s c ++ Split t c.
Proof.
  induction s as [|a s IH]; [change ("" +:+ String c t) with (String c t); simpl; by rewrite decide_True|]. rewrite app_cons. cbn [Split]. rewrite IH. case_decide; [done|].
  destruct (Split s c) as [|x l] eqn:Hs; [by apply Split_nonempty in Hs|]. done.
Qed.

Lemma location_split name : parseLocation name = Ok tt → ∃ p l, Split name slash = ["projects"; p; "locations"; l].
Proof.
  intros (p & l & -> & Hp & Hl)%parseLocation_ok. exists p, l. apply Split_Join; [done|].
  repeat constructor; eauto using projectRE_free, locationRE_free.
Qed.

Lemma parseKeyRing_ok name :
  parseKeyRing name = Ok tt ↔ ∃ loc id, name = loc +:+ "/keyRings/" +:+ id ∧ parseLocation loc = Ok tt ∧ idRE id = true.
Proof.
  unfold parseKeyRing. split.
  - intros H. destruct (Split name slash) as [|p0 [|p1 [|p2 [|p3 [|p4 [|p5 [|]]]]]]] eqn:Hs; try done.
    destruct (bool_decide (p4 = "keyRings")) eqn:H4; [|done]. apply bool_decide_eq_true in H4 as ->. cbn [negb] in H.
    apply res_bind_ok in H as ([] & Hl & H). destruct (idRE p5) eqn:H5; [|done].
    exists (Join [p0; p1; p2; p3] slash), p5. split; [|done].
    by apply (split_child name [p0; p1; p2; p3] "keyRings" p5).
  - intros (loc & id & -> & Hl & Hid). change (loc +:+ "/keyRings/" +:+ id) with (loc +:+ "/" +:+ "keyRings" +:+ "/" +:+ id).
    destruct (location_split _ Hl) as (p & l & Hs). rewrite Split_child, Hs by auto using segment_free. cbn [app].
    rewrite bool_decide_true by done. cbn [negb]. replace (Join _ slash) with loc; [by rewrite Hl, Hid|].
    rewrite <- (Join_Split loc slash), Hs. done.
Qed.

Lemma ring_split name : parseKeyRing name = Ok tt → ∃ p l id, Split name slash = ["projects"; p; "locations"; l; "keyRings"; id].
Proof.
  intros (loc & id & -> & Hl & Hid)%parseKeyRing_ok. destruct (location_split _ Hl) as (p & l & Hs). exists p, l, id.
  change (loc +:+ "/keyRings/" +:+ id) with (loc +:+ "/" +:+ "keyRings" +:+ "/" +:+ id).
  by rewrite Split_child, Hs by auto using segment_free.
Qed.

Lemma ring_plain name : parseKeyRing name = Ok tt → plain name.
Proof.
  intros (loc & id & -> & Hl & Hid)%parseKeyRing_ok. apply plain_app. split; [by apply location_plain|].
  apply plain_app. split; [done|by apply idRE_plain].
Qed.

Lemma parseCryptoKey_ok name :
  parseCryptoKey name = Ok tt ↔ ∃ ring id, name = ring +:+ "/cryptoKeys/" +:+ id ∧ parseKeyRing ring = Ok tt ∧ idRE id = true.
Proof.
  unfold parseCryptoKey. split.
  - intros H. destruct (Split name slash) as [|p0 [|p1 [|p2 [|p3 [|p4 [|p5 [|p6 [|p7 [|]]]]]]]]] eqn:Hs; try done.
    destruct (bool_decide (p6 = "cryptoKeys")) eqn:H4; [|done]. apply bool_decide_eq_true in H4 as ->. cbn [negb] in H.
    apply res_bind_ok in H as ([] & Hl & H). destruct (idRE p7) eqn:H5; [|done].
    exists (Join [p0; p1; p2; p3; p4; p5] slash), p7. split; [|done].
    by apply (split_child name [p0; p1; p2; p3; p4; p5] "cryptoKeys" p7).
  - intros (ring & id & -> & Hl & Hid). change (ring +:+ "/cryptoKeys/" +:+ id) with (ring +:+ "/" +:+ "cryptoKeys" +:+ "/" +:+ id).
    destruct (ring_split _ Hl) as (p & l & r & Hs). rewrite Split_child, Hs by auto using segment_free. cbn [app].
    rewrite bool_decide_true by done. cbn [negb]. replace (Join _ slash) with ring; [by rewrite Hl, Hid|].
    rewrite <- (Join_Split ring slash), Hs. done.
Qed.

Lemma key_split name : parseCryptoKey name = Ok tt →
  ∃ p l r id, Split name slash = ["projects"; p; "locations"; l; "keyRings"; r; "cryptoKeys"; id].
Proof.
  intros (ring & id & -> & Hl & Hid)%parseCryptoKey_ok. destruct (ring_split _ Hl) as (p & l & r & Hs). exists p, l, r, id.
  change (ring +:+ "/cryptoKeys/" +:+ id) with (ring +:+ "/" +:+ "cryptoKeys" +:+ "/" +:+ id).
  by rewrite Split_child, Hs by auto using segment_free.
Qed.

Lemma key_plain name : parseCryptoKey name = Ok tt → plain name.
Proof.
  intros (ring & id & -> & Hl & Hid)%parseCryptoKey_ok. apply plain_app. split; [by apply ring_plain|].
  apply plain_app. split; [done|by apply idRE_plain].
Qed.

(** *** Version numbers *)

Lemma versionNumber_ok id n : versionNumber id = Ok n → id = strconv.Itoa n ∧ (1 ≤ n ≤ int_max)%Z.
Proof.
  unfold versionNumber. destruct (versionIDRE id) eqn:Hid; [|done]. cbn [negb]. destruct (strconv.Atoi id) as [m|] eqn:Hm; [|done].
  intros [= <-]. unfold versionIDRE in Hid. apply andb_true_iff in Hid as [Hf _]. destruct id as [|a id]; [done|]. cbn in Hf.
  assert (a ≠ "0"%char ∧ a ≠ "-"%char ∧ a ≠ "+"%char) as (H0 & H1 & H2).
  { split_and!; intros ->; vm_compute in Hf; done. }
  apply strconv.Atoi_plain in Hm as [Hd Hin]; [|done..]. destruct (strconv.Itoa_digits (String a id) m) as [-> Hpos]; [done|done|].
  split; [done|]. unfold in_int in Hin. lia.
Qed.

Lemma versionNumber_Itoa n : (1 ≤ n ≤ int_max)%Z → versionNumber (strconv.Itoa n) = Ok n.
Proof.
  intros Hn. unfold versionNumber.
  assert (versionIDRE (strconv.Itoa n) = true) as ->.
  { unfold versionIDRE. destruct (strconv.Itoa_positive n ltac:(lia)) as (a & s & Heq & Ha & Hs). rewrite Heq. cbn. unfold is_digit, in_range.
    cbn in Hs. rewrite !andb_true_iff in *. split_and!; try (apply N.leb_le; lia). by destruct Hs. }
  cbn [negb]. rewrite strconv.Atoi_Itoa; [done|]. unfold in_int, int_min in *. lia.
Qed.

Lemma versionName_Split key n p l r id :
  Split key slash = ["projects"; p; "locations"; l; "keyRings"; r; "cryptoKeys"; id] → (1 ≤ n)%Z →
  Split (versionName key n) slash = ["projects"; p; "locations"; l; "keyRings"; r; "cryptoKeys"; id; "cryptoKeyVersions"; strconv.Itoa n].
Proof.
  intros Hs Hn. unfold versionName.
  change (key +:+ "/cryptoKeyVersions/" +:+ strconv.Itoa n) with (key +:+ "/" +:+ "cryptoKeyVersions" +:+ "/" +:+ strconv.Itoa n).
  rewrite Split_child, Hs; [done|done|]. destruct (strconv.Itoa_positive n Hn) as (a & t & -> & _ & Ht).
  by apply (AllBytes_not_in _ (String a t) slash Ht).
Qed.

(** A version's name names its key and its number, and nothing else does. *)
Lemma parse_versionName key n :
  parseCryptoKey key = Ok tt → (1 ≤ n ≤ int_max)%Z → parseCryptoKeyVersion (versionName key n) = Ok (key, n).
Proof.
  intros Hk Hn. destruct (key_split _ Hk) as (p & l & r & id & Hs). unfold parseCryptoKeyVersion.
  rewrite (versionName_Split key n p l r id) by (done || lia). rewrite bool_decide_true by done. cbn [negb].
  replace (Join _ slash) with key; [rewrite Hk|rewrite <- (Join_Split key slash), Hs; done].
  cbn [mbind res_bind]. by rewrite versionNumber_Itoa.
Qed.

Lemma parseCryptoKeyVersion_ok name key n :
  parseCryptoKeyVersion name = Ok (key, n) → name = versionName key n ∧ parseCryptoKey key = Ok tt ∧ (1 ≤ n ≤ int_max)%Z.
Proof.
  unfold parseCryptoKeyVersion. intros H.
  destruct (Split name slash) as [|p0 [|p1 [|p2 [|p3 [|p4 [|p5 [|p6 [|p7 [|p8 [|p9 [|]]]]]]]]]]] eqn:Hs; try done.
  destruct (bool_decide (p8 = "cryptoKeyVersions")) eqn:H8; [|done]. apply bool_decide_eq_true in H8 as ->. cbn [negb] in H.
  cbv zeta in H. apply res_bind_ok in H as ([] & Hk & H). apply res_bind_ok in H as (m & Hm & [= <- <-]).
  apply versionNumber_ok in Hm as [Hid Hm]. split_and!; [|done|lia..].
  rewrite (split_child name [p0; p1; p2; p3; p4; p5; p6; p7] "cryptoKeyVersions" p9 Hs ltac:(done)). by rewrite Hid.
Qed.

Lemma versionName_inj k k' n n' :
  parseCryptoKey k = Ok tt → parseCryptoKey k' = Ok tt → (1 ≤ n ≤ int_max)%Z → (1 ≤ n' ≤ int_max)%Z →
  versionName k n = versionName k' n' → k = k' ∧ n = n'.
Proof.
  intros Hk Hk' Hn Hn' H. pose proof (parse_versionName k n Hk Hn) as H1. rewrite H, parse_versionName in H1 by done. by injection H1.
Qed.

Lemma version_plain k n : plain k → (1 ≤ n)%Z → plain (versionName k n).
Proof. intros Hk Hn. apply plain_app. split; [done|]. apply plain_app. split; [done|]. apply Itoa_plain. lia. Qed.

(** *** Keys of records *)

Lemma plain_no_tilde s : plain s → free_of tilde s = true.
Proof. intros H. by apply (AllBytes_not_in name_byte s tilde). Qed.

Lemma dbKey_inj p n m : plain n → plain m → dbKey p n = dbKey p m → n = m.
Proof.
  intros Hn Hm. unfold dbKey. intros H.
  assert (ReplaceAll n slash tilde = ReplaceAll m slash tilde) as Hr.
  { revert H. clear. induction p as [|a p IH]; [done|]. rewrite !app_cons. intros [= H]. auto. }
  rewrite <- (ReplaceAll_back n slash tilde), Hr, ReplaceAll_back by auto using plain_no_tilde. done.
Qed.

Lemma plain_safe s : plain s → AllBytes safe_byte (ReplaceAll s slash tilde) = true.
Proof.
  unfold plain. induction s as [|a s IH]; [done|]. cbn. rewrite !andb_true_iff. intros [Ha Hs]. split; [|auto].
  case_bool_decide; [done|]. revert Ha. clear. destruct a as [[] [] [] [] [] [] [] []]; vm_compute; done.
Qed.

Definition prefixes : list string :=
  [ringPrefix; keyPrefix; versionPrefix; retiredPrefix; ringHoldPrefix; importJobPrefix; ekmConnectionPrefix; ekmConfigPrefix;
   autokeyConfigPrefix; keyHandlePrefix; operationPrefix; hsmInstancePrefix; hsmProposalPrefix].

Lemma SafeKey_dbKey p name : p ∈ prefixes → plain name → SafeKey (dbKey p name) = true.
Proof.
  intros Hp Hn. assert (AllBytes safe_byte p = true ∧ p ≠ "" ∧ HasPrefix p "/" = false) as (Ha & Hne & Hs).
  { unfold prefixes in Hp. rewrite !elem_of_cons in Hp. destruct_or! Hp; subst; try done. by apply not_elem_of_nil in Hp. }
  apply SafeKey_bytes; unfold dbKey.
  - by rewrite AllBytes_app, Ha, plain_safe.
  - by destruct p.
  - destruct p as [|a p]; [done|]. rewrite app_cons. cbn in *. by case_decide.
Qed.

(** Records of different kinds are never under one key. *)
Ltac solve_dbKey :=
  match goal with
  | |- dbKey _ _ ≠ dbKey _ _ =>
      unfold dbKey, ringPrefix, keyPrefix, versionPrefix, retiredPrefix, ringHoldPrefix, importJobPrefix, ekmConnectionPrefix,
        ekmConfigPrefix, autokeyConfigPrefix, keyHandlePrefix, operationPrefix, hsmInstancePrefix, hsmProposalPrefix; discriminate
  end.
