(* ===== verification/KmsFilter.v ===== *)
(** * internal/service/kms: list filters and pages

    filter.go whole, and server.go's parseOrderBy and orderedPage.  Only the codes
    of the errors are modelled.  The operator ":" folds ASCII letters. *)

From S2P Require Import Prelude GoLib ApiError Resource Paging Float64 FilterText KmsNames.
From Stdlib Require Import Ascii.

Import strings.

(** ** Expressions *)

(** Per field, the operators a listing evaluates; a field ending in "." is a prefix. *)
Definition fieldSupport : Type := list (string * list string).

Inductive filterExpr :=
| cmpExpr (field op value : string)
| notExpr (e : filterExpr)
| andExpr (es : list filterExpr)
| orExpr (es : list filterExpr).

Definition cmp_match (values : string → option string) (field op value : string) : bool :=
  match values field with
  | None => false
  | Some v =>
      if bool_decide (op = "=") then bool_decide (v = value)
      else if bool_decide (op = "!=") then negb (bool_decide (v = value))
      else if bool_decide (op = ":") then Contains (ToLower v) (ToLower value)
      else false
  end.

Fixpoint match_ (e : filterExpr) (values : string → option string) : bool :=
  match e with
  | cmpExpr field op value => cmp_match values field op value
  | notExpr e => negb (match_ e values)
  | andExpr es => forallb (λ e, match_ e values) es
  | orExpr es => existsb (λ e, match_ e values) es
  end.

(** The operators of a field: its own entry, or that of the prefix it extends. *)
Definition supported (support : fieldSupport) (field : string) : option (list string) :=
  match list_find (λ p, p.1 = field) support with
  | Some (_, p) => Some p.2
  | None =>
      (λ ip, ip.2.2) <$> list_find (λ p, HasSuffix p.1 "." && HasPrefix field p.1 && (len p.1 <? len field)%nat = true) support
  end.

Definition check_cmp (support : fieldSupport) (field op : string) : res error unit :=
  match supported support field with
  | None => Err Unimplemented
  | Some ops => if bool_decide (op ∈ ops) then Ok tt else Err Unimplemented
  end.

Fixpoint checkSupport (e : filterExpr) (support : fieldSupport) : res error unit :=
  match e with
  | cmpExpr field op _ => check_cmp support field op
  | notExpr e => checkSupport e support
  | andExpr es | orExpr es => fold_left (λ r e, _ ← r; checkSupport e support) es (Ok tt)
  end.

(** Induction over an expression and the expressions it holds. *)
Lemma filterExpr_ind' (P : filterExpr → Prop) :
  (∀ field op value, P (cmpExpr field op value)) → (∀ e, P e → P (notExpr e)) →
  (∀ es, Forall P es → P (andExpr es)) → (∀ es, Forall P es → P (orExpr es)) → ∀ e, P e.
Proof.
  intros Hc Hn Ha Ho. fix IH 1. intros [field op value|e|es|es]; [apply Hc|apply Hn, IH|apply Ha|apply Ho]; induction es; by constructor.
Qed.

(** ** The tokenizer *)

Definition word_end (c : ascii) : bool :=
  bool_decide (c ∈ [" "; "009"; "010"; "("; ")"; dquote; "="; ":"; "<"; ">"; "!"]%char).

(** One turn of the loop; [None] is out of fuel. *)
Definition tok_body (rec : string → option (res error (list string))) (s : string) : option (res error (list string)) :=
  let emit t rest := option_map (λ r, ts ← r; Ok (t :: ts)) (rec rest) in
  match s with
  | EmptyString => Some (Ok [])
  | String c s' =>
      if bool_decide (c ∈ [" "; "009"; "010"]%char) then rec s'
      else if bool_decide (c ∈ ["("; ")"]%char) then emit (String c "") s'
      else if bool_decide (c = dquote) then
        match Cut s' dquote with
        | (inside, rest, true) => emit (String dquote (inside +:+ String dquote "")) rest
        | (_, _, false) => Some (Err InvalidArgument)
        end
      else if HasPrefix s "!=" || HasPrefix s "<=" || HasPrefix s "=>" || HasPrefix s ">=" then emit (take_bytes 2 s) (drop_bytes 2 s)
      else if bool_decide (c ∈ ["="; ":"; "<"; ">"]%char) then emit (String c "") s'
      else match span (λ c, negb (word_end c)) s with
           | (EmptyString, _) => Some (Err InvalidArgument)
           | (t, rest) => emit t rest
           end
  end.

Fixpoint tok_loop (fuel : nat) (s : string) : option (res error (list string)) :=
  match fuel with O => None | S fuel => tok_body (tok_loop fuel) s end.

Definition ErrFuel : error := Sentinel "out of fuel".

Definition tokenize (s : string) : res error (list string) := default (Err ErrFuel) (tok_loop (S (len s)) s).

(** ** The parser *)

Section parser.
Context `{Unicode}.

Definition field_rune (r : N) : bool :=
  IsLetter r || IsDigit r || (r =? 95)%N || (r =? 45)%N.

Definition isField (s : string) : bool :=
  forallb (λ part, negb (bool_decide (part = "")) && forallb field_rune (runes part)) (Split s ".")
  && negb (first_byte is_digit s).

(** The empty string at the end of the tokens. *)
Definition peek (toks : list string) : string := default "" (head toks).

(** [strings.Trim] of quotes *)
Fixpoint trim_left_quotes (s : string) : string :=
  match s with String c s' => if bool_decide (c = dquote) then trim_left_quotes s' else s | EmptyString => s end.
Fixpoint trim_right_quotes (s : string) : string :=
  match s with
  | EmptyString => EmptyString
  | String c s' =>
      match trim_right_quotes s' with
      | EmptyString => if bool_decide (c = dquote) then EmptyString else String c EmptyString
      | t => String c t
      end
  end.
Definition unquote (value : string) : string :=
  if HasPrefix value (String dquote "") then trim_right_quotes (trim_left_quotes value) else value.

Definition operators : list string := ["="; "!="; ":"; "<"; ">"; "<="; "=>"; ">="].

Definition comparison (toks : list string) : res error (filterExpr * list string) :=
  let field := peek toks in
  if bool_decide (field = "") || negb (isField field) then Err InvalidArgument
  else let toks := tail toks in
       let op := peek toks in
       if negb (bool_decide (op ∈ operators)) then Err InvalidArgument
       else let toks := tail toks in
            let value := peek toks in
            if bool_decide (value ∈ [""; "("; ")"; "AND"; "OR"]) then Err InvalidArgument
            else Ok (cmpExpr field (if bool_decide (op = ">=") then "=>" else op) (unquote value), tail toks).

(** An answer of the parser; [None] is out of fuel. *)
Abbreviation answer A := (option (res error (A * list string))).

Definition and_body (por : list string → answer (list filterExpr)) (pand : list string → answer (list filterExpr)) (toks : list string)
    : answer (list filterExpr) :=
  match por toks with
  | None => None
  | Some (Err e) => Some (Err e)
  | Some (Ok (parts, toks)) =>
      let e := match parts with [e] => e | _ => orExpr parts end in
      let more toks := option_map (λ r, '(rest, toks) ← r; Ok (e :: rest, toks)) (pand toks) in
      if bool_decide (peek toks = "AND") then more (tail toks)
      else if bool_decide (peek toks ∈ [""; ")"]) then Some (Ok ([e], toks))
      else more toks
  end.

Definition or_body (punary : list string → answer filterExpr) (por : list string → answer (list filterExpr)) (toks : list string)
    : answer (list filterExpr) :=
  match punary toks with
  | None => None
  | Some (Err e) => Some (Err e)
  | Some (Ok (e, toks)) =>
      if bool_decide (peek toks = "OR") then option_map (λ r, '(rest, toks) ← r; Ok (e :: rest, toks)) (por (tail toks))
      else Some (Ok ([e], toks))
  end.

Definition unary_body (punary : list string → answer filterExpr) (pand : list string → answer (list filterExpr)) (toks : list string)
    : answer filterExpr :=
  let t := peek toks in
  let negated toks := option_map (λ r, '(e, toks) ← r; Ok (notExpr e, toks)) (punary toks) in
  if bool_decide (t = "NOT") then negated (tail toks)
  else if HasPrefix t "-" && (1 <? len t)%nat then negated (drop_bytes 1 t :: tail toks)
  else if bool_decide (t = "(") then
    match pand (tail toks) with
    | None => None
    | Some (Err e) => Some (Err e)
    | Some (Ok (parts, toks)) =>
        Some (if bool_decide (peek toks = ")") then Ok (match parts with [e] => e | _ => andExpr parts end, tail toks)
              else Err InvalidArgument)
    end
  else Some (comparison toks).

Fixpoint p_and (fuel : nat) (toks : list string) : answer (list filterExpr) :=
  match fuel with O => None | S fuel => and_body (p_or fuel) (p_and fuel) toks end
with p_or (fuel : nat) (toks : list string) : answer (list filterExpr) :=
  match fuel with O => None | S fuel => or_body (p_unary fuel) (p_or fuel) toks end
with p_unary (fuel : nat) (toks : list string) : answer filterExpr :=
  match fuel with O => None | S fuel => unary_body (p_unary fuel) (p_and fuel) toks end.

Lemma expr_p_and_S fuel toks : p_and (S fuel) toks = and_body (p_or fuel) (p_and fuel) toks.
Proof. done. Qed.
Lemma expr_p_or_S fuel toks : p_or (S fuel) toks = or_body (p_unary fuel) (p_or fuel) toks.
Proof. done. Qed.
Lemma expr_p_unary_S fuel toks : p_unary (S fuel) toks = unary_body (p_unary fuel) (p_and fuel) toks.
Proof. done. Qed.

(** What the remaining input can still cost. *)
Definition weight (toks : list string) : nat := list_sum ((λ t, 1 + len t)%nat <$> toks).

(** No filter is [None]: everything matches. *)
Definition parseFilter (filter : string) (support : fieldSupport) : res error (option filterExpr) :=
  if bool_decide (TrimSpace filter = "") then Ok None
  else
    toks ← tokenize filter;
    '(parts, rest) ← default (Err ErrFuel) (p_and (3 * weight toks + 3) toks);
    let e := match parts with [e] => e | _ => andExpr parts end in
    if negb (bool_decide (rest = [])) then Err InvalidArgument
    else _ ← checkSupport e support; Ok (Some e).

(** Whether a record with the given fields is listed. *)
Definition listed_by (filter : option filterExpr) (values : string → option string) : bool :=
  match filter with None => true | Some e => match_ e values end.

End parser.

(** ** Orders and pages *)

(** [strings.Fields] *)
Fixpoint fields_from (word : string) (s : string) : list string :=
  match s with
  | EmptyString => if bool_decide (word = "") then [] else [word]
  | String c s =>
      if is_space c then if bool_decide (word = "") then fields_from "" s else word :: fields_from "" s
      else fields_from (word +:+ String c "") s
  end.
Definition Fields (s : string) : list string := fields_from "" s.

(** Whether the order is descending. *)
Definition parseOrderBy (orderBy : string) : res error bool :=
  let o := Join (Fields orderBy) " " in
  if bool_decide (o ∈ [""; "name"; "name asc"]) then Ok false
  else if bool_decide (o = "name desc") then Ok true
  else Err InvalidArgument.

Definition byName (a b : string) : bool := negb (String.leb b a).

Definition version_of (name : string) : Z := default 0%Z (strconv.Atoi (AfterLast name slash)).
Definition byVersionNumber (a b : string) : bool := (version_of a <? version_of b)%Z.

(** [sort.SliceStable] with a strict order: no later element before an earlier. *)
Definition in_order (less : string → string → bool) (desc : bool) (a b : string) : Prop :=
  (if desc then less a b else less b a) = false.
#[global] Instance in_order_dec less desc : RelDecision (in_order less desc).
Proof. intros a b. unfold in_order. apply _. Defined.

Definition sorted_names (names : list string) (less : string → string → bool) (desc : bool) : list string :=
  merge_sort (in_order less desc) names.

(** The ordinals the pages are cut by. *)
Definition ordinals (n : nat) : list string := (λ i, fmt.Sprintf_0d 10 (Z.of_nat i)) <$> seq 0 n.

Section pages.
Context `{TokenJSON}.

Definition orderedPage (scope : string) (names : list string) (less : string → string → bool) (desc : bool) (token : string)
    (size : Z) : res error (list string * string) :=
  let sorted := sorted_names names less desc in
  let keys := ordinals (length sorted) in
  let byKey : gmap string string := list_to_map (zip keys sorted) in
  match Page (scope +:+ "|order=" +:+ (if desc then "desc" else "asc")) keys token size with
  | Err _ => Err InvalidArgument
  | Ok (page, next) => Ok ((λ k, default "" (byKey !! k)) <$> page, next)
  end.

End pages.

(** ** Every filter is answered *)

Lemma Cut_length s c a b : Cut s c = (a, b, true) → (len b < len s)%nat.
Proof.
  unfold len. revert a b. induction s as [|d s IH]; intros a b; cbn; [done|]. case_decide; [intros [= <- <-]; lia|].
  destruct (Cut s c) as [[a' b'] f]. intros [= <- <- ->]. specialize (IH _ _ eq_refl). lia.
Qed.

Lemma drop_bytes_len n s : len (drop_bytes n s) = (len s - n)%nat.
Proof. unfold len. revert s. induction n as [|n IH]; intros [|c s]; cbn; [done..|]. apply IH. Qed.

Lemma tok_loop_total fuel s :
  (len s < fuel)%nat → ∃ r, tok_loop fuel s = Some r ∧ match r with Ok _ => True | Err e => e = InvalidArgument end.
Proof.
  revert s. induction fuel as [|fuel IH]; intros s Hs; [lia|]. cbn [tok_loop]. unfold tok_body.
  assert (∀ t rest, (len rest < len s)%nat → ∃ r, option_map (λ r, ts ← r; Ok (t :: ts)) (tok_loop fuel rest) = Some r ∧
    match r with Ok _ => True | Err e => e = InvalidArgument end) as Hemit.
  { intros t rest Hr. destruct (IH rest) as (r & -> & Hr'); [lia|]. cbn. eexists. split; [done|]. by destruct r. }
  unfold len in *. destruct s as [|c s]; [by eexists|]. cbn [String.length] in *.
  destruct (bool_decide (c ∈ [" "; "009"; "010"]%char)); [apply IH; lia|].
  destruct (bool_decide (c ∈ ["("; ")"]%char)); [apply Hemit; cbn; lia|].
  destruct (bool_decide (c = dquote)).
  { destruct (Cut s dquote) as [[a b] []] eqn:Hc; [|by eexists]. apply Hemit. apply Cut_length in Hc. unfold len in *. cbn [String.length]. lia. }
  destruct (_ || HasPrefix (String c s) ">=") eqn:Hp.
  { apply Hemit. rewrite drop_bytes_len. unfold len in *. cbn [String.length]. lia. }
  destruct (bool_decide (c ∈ ["="; ":"; "<"; ">"]%char)); [apply Hemit; cbn; lia|].
  destruct (span _ (String c s)) as [t rest] eqn:Hsp. apply span_length in Hsp. destruct t as [|d t]; [by eexists|].
  apply Hemit. unfold len in *. cbn [String.length] in *. lia.
Qed.

Section total.
Context `{Unicode}.

(** The parser answered: a refusal, or something parsed and less input. *)
Definition answered {A} (bound : nat) (r : option (res error (A * list string))) : Prop :=
  match r with
  | None => False
  | Some (Err e) => e = InvalidArgument
  | Some (Ok (_, toks)) => (weight toks < bound)%nat
  end.

Lemma expr_weight_cons t toks : weight (t :: toks) = (1 + len t + weight toks)%nat.
Proof. done. Qed.

Lemma expr_weight_tail toks : peek toks ≠ "" → (weight (tail toks) + 2 ≤ weight toks)%nat.
Proof.
  destruct toks as [|t toks]; [done|]. cbn [peek head default tail from_option Datatypes.id]. rewrite expr_weight_cons. destruct t; [done|].
  intros _. cbn [len String.length]. lia.
Qed.

Lemma expr_answered_mono {A} b b' (r : option (res error (A * list string))) : answered b r → (b ≤ b')%nat → answered b' r.
Proof. destruct r as [[[a toks]|e]|]; cbn; [lia|done|done]. Qed.

Lemma expr_answered_map {A B} b b' (f : A → B) (r : option (res error (A * list string))) :
  answered b r → (b ≤ b')%nat → answered b' (option_map (λ r, '(a, toks) ← r; Ok (f a, toks)) r).
Proof. destruct r as [[[a toks]|e]|]; cbn; [lia|done|done]. Qed.

Lemma comparison_answered toks : answered (weight toks) (Some (comparison toks)).
Proof.
  unfold comparison. destruct (bool_decide (peek toks = "") || _) eqn:Hf; [done|]. apply orb_false_iff in Hf as [Hf%bool_decide_eq_false _].
  destruct (bool_decide (peek (tail toks) ∈ operators)) eqn:Ho; [|done]. cbn [negb].
  destruct (bool_decide (peek (tail (tail toks)) ∈ _)) eqn:Hv; [done|]. apply bool_decide_eq_true in Ho. apply bool_decide_eq_false in Hv. cbn.
  pose proof (expr_weight_tail _ Hf). assert (peek (tail toks) ≠ "") as H2%expr_weight_tail by (intros Heq; rewrite Heq in Ho; unfold operators in Ho; rewrite !elem_of_cons, elem_of_nil in Ho; naive_solver).
  assert (peek (tail (tail toks)) ≠ "") as H3%expr_weight_tail by (intros Heq; apply Hv; rewrite Heq; set_solver). lia.
Qed.

Lemma expr_parser_answers fuel :
  (∀ toks, (3 * weight toks + 3 ≤ fuel)%nat → answered (weight toks) (p_and fuel toks)) ∧
  (∀ toks, (3 * weight toks + 2 ≤ fuel)%nat → answered (weight toks) (p_or fuel toks)) ∧
  (∀ toks, (3 * weight toks + 1 ≤ fuel)%nat → answered (weight toks) (p_unary fuel toks)).
Proof.
  induction fuel as [|fuel (IHand & IHor & IHun)]; [repeat split; intros; lia|]. split; [|split]; intros toks Hf;
    [rewrite expr_p_and_S; unfold and_body|rewrite expr_p_or_S; unfold or_body|rewrite expr_p_unary_S; unfold unary_body].
  - specialize (IHor toks ltac:(lia)). destruct (p_or fuel toks) as [[[parts toks']|e]|]; [|done|done]. unfold answered in IHor.
    cbv zeta. destruct (bool_decide (peek toks' = "AND")) eqn:Ha.
    + apply bool_decide_eq_true in Ha. pose proof (expr_weight_tail toks' ltac:(by rewrite Ha)).
      eapply expr_answered_map; [apply IHand|]; lia.
    + destruct (bool_decide (peek toks' ∈ _)); [done|]. eapply expr_answered_map; [apply IHand|]; lia.
  - specialize (IHun toks ltac:(lia)). destruct (p_unary fuel toks) as [[[e toks']|e]|]; [|done|done]. unfold answered in IHun.
    destruct (bool_decide (peek toks' = "OR")) eqn:Ho; [|done]. apply bool_decide_eq_true in Ho.
    pose proof (expr_weight_tail toks' ltac:(by rewrite Ho)). eapply expr_answered_map; [apply IHor|]; lia.
  - cbv zeta. destruct (bool_decide (peek toks = "NOT")) eqn:Hn.
    { apply bool_decide_eq_true in Hn. pose proof (expr_weight_tail toks ltac:(by rewrite Hn)). eapply expr_answered_map; [apply IHun|]; lia. }
    destruct (HasPrefix (peek toks) "-" && _) eqn:Hm.
    { apply andb_true_iff in Hm as [_ Hm%Nat.ltb_lt]. destruct toks as [|t toks]; [cbn in Hm; lia|].
      cbn [peek head default from_option Datatypes.id tail] in *. rewrite expr_weight_cons in Hf.
      eapply expr_answered_map; [apply IHun; rewrite expr_weight_cons, drop_bytes_len; lia|]. rewrite !expr_weight_cons, drop_bytes_len. lia. }
    destruct (bool_decide (peek toks = "(")) eqn:Hp; [|apply comparison_answered].
    apply bool_decide_eq_true in Hp. pose proof (expr_weight_tail toks ltac:(by rewrite Hp)).
    specialize (IHand (tail toks) ltac:(lia)). destruct (p_and fuel (tail toks)) as [[[parts toks']|e]|]; [|done|done].
    unfold answered in *. destruct (bool_decide (peek toks' = ")")) eqn:Hc; [|done]. apply bool_decide_eq_true in Hc.
    pose proof (expr_weight_tail toks' ltac:(by rewrite Hc)). lia.
Qed.

Lemma fold_refusal support es r x :
  (∀ y, r = Err y → y = Unimplemented) → Forall (λ e, ∀ x, checkSupport e support = Err x → x = Unimplemented) es →
  fold_left (λ r e, _ ← r; checkSupport e support) es r = Err x → x = Unimplemented.
Proof.
  intros Hr HF. revert r Hr. induction HF as [|e es He _ IH]; intros r Hr; cbn; [by apply Hr|].
  apply IH. intros y. destruct r; cbn; [apply He|apply Hr].
Qed.

Lemma checkSupport_refusal e support x : checkSupport e support = Err x → x = Unimplemented.
Proof.
  revert x. induction e as [field op value|e IH|es IH|es IH] using filterExpr_ind'; intros x; cbn [checkSupport].
  - unfold check_cmp. destruct (supported support field); [|by intros [= <-]]. case_bool_decide; [done|by intros [= <-]].
  - apply IH.
  - by apply (fold_refusal support es (Ok tt)).
  - by apply (fold_refusal support es (Ok tt)).
Qed.

(** A filter is parsed, or refused with INVALID_ARGUMENT or UNIMPLEMENTED: the
    tokenizer and the parser end on every input. *)
Lemma parseFilter_answers filter support :
  match parseFilter filter support with Ok _ => True | Err e => e = InvalidArgument ∨ e = Unimplemented end.
Proof.
  unfold parseFilter. case_bool_decide; [done|]. unfold tokenize.
  destruct (tok_loop_total (S (len filter)) filter) as (r & -> & Hr); [lia|]. destruct r as [toks|e]; cbn; [|by left].
  destruct (expr_parser_answers (3 * weight toks + 3)) as (Hand & _ & _). specialize (Hand toks ltac:(lia)).
  destruct (p_and _ _) as [[[parts rest]|e]|]; cbn; [|by left|done]. case_bool_decide; cbn; [|by left].
  destruct (checkSupport _ _) eqn:Hc; cbn; [done|]. right. by eapply checkSupport_refusal.
Qed.

End total.
