(* ===== verification/KmsStore.v ===== *)
(** * internal/service/kms: the server and its store

    server.go's Server with put, get, load and list, random material, and
    delete.go's and hsm.go's finished operations.  [s.mu] makes every handler that
    writes one step; a handler that only reads is one step too.  The clock stands
    still during a step. *)

From S2P Require Import Prelude GoLib ApiError Resource MetaStore IamPolicy Handler GoCrypto KmsModel KmsNames.
From Stdlib Require Import Ascii.

Import strings time.

(** Resource Manager's hierarchy, as Autokey uses it: a project's ancestors,
    nearest first ([None]: an error), and whether a folder exists. *)
Record Hierarchy := mkHierarchy {
  Ancestors : string → option (list string);
  FolderExists : string → bool
}.

(** A step's surroundings: the clock's reading, new key material for an algorithm,
    a GCM nonce, the random parts of the names it makes, the challenges of a
    proposal in order, the etag of a policy, a block for an initialization
    vector, a number of bytes and what the ciphers read of their own ([None]: the
    reader of random bytes fails), and the hierarchy if there is one. *)
Record Env := mkEnv {
  clock_Now : Time;
  rand_key : algSpec → option string;
  rand_nonce : option string;
  rand_id : option string;
  rand_path : option string;
  rand_operation : option string;
  new_uuid : string;
  rand_challenge : nat → option string;
  rand_etag : string;
  rand_iv : option string;
  rand_bytes : Z → option string;
  rand_reader : string;
  hierarchy : option Hierarchy
}.

(** crypto/rand fills the buffer it is given; the lengths the code asks for. *)
Record env_ok (e : Env) : Prop := mkEnvOk {
  env_clock : json_ok (clock_Now e) = true;
  env_key spec b : rand_key e spec = Some b → rsaBits spec = 0 → as_curve spec = None → ed25519 spec = false → kem spec = 0 →
    len b = keyLen spec;
  env_nonce b : rand_nonce e = Some b → len b = 12;
  env_iv b : rand_iv e = Some b → len b = 16;
  env_bytes n b : rand_bytes e n = Some b → Z.of_nat (len b) = n;
  env_id b : rand_id e = Some b → idRE b = true;
  env_operation b : rand_operation e = Some b → idRE b = true;
  env_uuid : idRE (new_uuid e) = true
}.

Definition ErrRand : error := Sentinel "crypto/rand failed".

Section server.
Context {S : Type} `{MSL : MetaStoreLaws S doc}.

(** [rearm] is the one-place channel that wakes Run. *)
Record Server := mkServer { db : S; rearm : bool }.

Definition NewServer (d : S) : Server := mkServer d false.

Abbreviation H := (M Env Server).

Definition now : H Time := ask clock_Now.
Definition wake : H unit := λ _ s, (mkServer (db s) true, Ok tt).

Definition put {T} `{Record_ T} (key : string) (v : T) : H unit := λ _ s,
  if negb (marshals (to_doc v)) then (s, Err (Internal ErrEncode))
  else match st_Put (db s) key (to_doc v) with
       | (d, Ok _) => (mkServer d (rearm s), Ok tt)
       | (d, Err err) => (mkServer d (rearm s), Err (Internal err))
       end.

Definition db_Delete (key : string) : H unit := λ _ s,
  match st_Delete (db s) key with
  | (d, Ok _) => (mkServer d (rearm s), Ok tt)
  | (d, Err err) => (mkServer d (rearm s), Err (Internal err))
  end.

Definition db_List (prefix : string) : H (list string) := λ _ s,
  (s, match st_List (db s) prefix with Ok ks => Ok ks | Err err => Err (Internal err) end).

Definition get {T} `{Record_ T} (key : string) : H (option T) := λ e s,
  (s, match st_Get (db s) key with
      | Err err => if errors_Is err "key not found" then Ok None else Err (Internal err)
      | Ok d => match of_doc d with
                | Some v => Ok (Some (on_read (clock_Now e) v))
                | None => Err (Internal ErrDecode)
                end
      end).

Definition load {T} `{Record_ T} (key : string) : H T :=
  v ← get key;
  match v with Some v => mret v | None => throw NotFound end.

Definition listed (prefix parent k : string) : option string :=
  let n := ReplaceAll (TrimPrefix k prefix) tilde slash in
  if HasPrefix n (parent +:+ "/") then Some n else None.

Definition list_ (prefix parent : string) : H (list string) :=
  keys ← db_List prefix;
  mret (sort_strings (omap (listed prefix parent) keys)).

(** ** Random bytes *)

(** A draw, failing as the reader does. *)
Definition draw {A} (f : Env → option A) : H A :=
  r ← ask f;
  match r with Some b => mret b | None => throw (Internal ErrRand) end.

(** [generate] (purposes.go): the bytes of a symmetric key, or a private key's
    encoding, are one draw. *)
Definition generate (a : algo) : H string :=
  match algorithms a with
  | None => throw (Internal (Sentinel "no generator"))
  | Some spec => draw (λ e, rand_key e spec)
  end.

Definition newMaterial (k : cryptoKey) : H string := generate (ck_algorithm k).

Definition randomID : H string := draw rand_id.

(** ** Finished operations *)

Definition doneOperation (location : string) : H Operation :=
  id ← draw rand_operation;
  mret (mkOperation (location +:+ "/operations/" +:+ id) None).

(** [doneOp] stores the operation too; protojson encodes it. *)
Definition put_operation (op : Operation) : H unit := λ _ s,
  match st_Put (db s) (dbKey operationPrefix (op_Name op)) (DOperation op) with
  | (d, Ok _) => (mkServer d (rearm s), Ok tt)
  | (d, Err err) => (mkServer d (rearm s), Err (Internal err))
  end.

Definition doneOp (loc : string) (failed : option error) : H Operation :=
  id ← ask new_uuid;
  let op := mkOperation (loc +:+ "/operations/" +:+ id) failed in
  put_operation op ;;
  mret op.

End server.

Global Arguments Server : clear implicits.
