(* ===== verification/KmsVersions.v ===== *)
(** * internal/service/kms: versions, their backends and their rendering

    external.go (references to external keys and new versions), hsm.go's and
    trusted.go's checks of a key's backend, protection.go's key access
    justifications, and server.go's messages; then delete.go and deletering.go:
    deleting versions, keys and rings. *)

From S2P Require Import Prelude GoLib ApiError Resource MetaStore Paging IamPolicy Handler GoCrypto NetHttp KmsModel KmsNames KmsFilter KmsStore.
From Stdlib Require Import Ascii.

Import strings time.

(** ** Messages *)

Record ExternalOptions := mkExternalOptions { xo_Uri : string; xo_Path : string; xo_Override : string }.

Record pbVersion := mkPbVersion {
  pv_name : string;
  pv_state : VersionState;
  pv_protection_level : ProtectionLevel;
  pv_algorithm : algo;
  pv_create_time : timestamppb.Timestamp;
  pv_generate_time : option timestamppb.Timestamp;
  pv_external : option ExternalOptions;
  pv_trusted_wrapping : bool;
  pv_hsm_trusted : bool;
  pv_import_job : string;
  pv_import_time : option timestamppb.Timestamp;
  pv_destroy_time : option timestamppb.Timestamp;
  pv_destroy_event_time : option timestamppb.Timestamp
}.

(** A CryptoKey, as it is sent and as it is returned. *)
Record pbKey := mkPbKey {
  pk_name : string;
  pk_purpose : Purpose;
  pk_create_time : option timestamppb.Timestamp;
  pk_labels : gmap string string;
  pk_destroy_scheduled : option durationpb.Duration;
  pk_protection_level : ProtectionLevel;
  pk_algorithm : algo;
  pk_kaj : option (list AccessReason);
  pk_backend : string;
  pk_rotation_period : option durationpb.Duration;
  pk_next_rotation : option timestamppb.Timestamp;
  pk_import_only : bool;
  pk_primary : option pbVersion
}.

(** [externalOptions] *)
Definition externalOptions (v : keyVersion) : option ExternalOptions :=
  if bool_decide (kv_ExternalKeyURI v = "") && bool_decide (kv_KeyPath v = "") && bool_decide (kv_Backend v = "") then None
  else Some (mkExternalOptions (kv_ExternalKeyURI v) (kv_KeyPath v) (kv_Backend v)).

Definition toVersion (v : keyVersion) : pbVersion :=
  let imported := negb (bool_decide (kv_ImportJob v = "")) || negb (IsZero (kv_Imported v)) in
  mkPbVersion (kv_Name v) (state v) (kv_protectionLevel v) (kv_algorithm v) (timestamppb.New (kv_Created v))
    (Some (timestamppb.New (kv_Created v))) (externalOptions v) (kv_TrustedWrapping v) (kv_HsmTrusted v)
    (if imported then kv_ImportJob v else "") (if imported then Some (timestamppb.New (kv_Imported v)) else None)
    (if bool_decide (state v = DESTROY_SCHEDULED) then Some (timestamppb.New (kv_DestroyTime v)) else None)
    (if bool_decide (state v = DESTROYED) then Some (timestamppb.New (kv_DestroyEventTime v)) else None).

(** ** Key access justifications (protection.go) *)

Definition reason_named (r : AccessReason) : bool := match r with reason_unnamed _ => false | _ => true end.

Definition kajPolicyOf (p : option (list AccessReason)) : res error (option kajPolicy) :=
  match p with
  | None => Ok None
  | Some rs => if forallb reason_named rs then Ok (Some rs) else Err InvalidArgument
  end.

Definition kajRefusal (k : cryptoKey) : res error unit :=
  match ck_KAJPolicy k with
  | None => Ok tt
  | Some rs => if bool_decide (CUSTOMER_INITIATED_ACCESS ∈ rs) then Ok tt else Err FailedPrecondition
  end.

(** ** Trusted wrapping (trusted.go) *)

Definition trustedWrappingAllowed (k : cryptoKey) : res error unit :=
  if negb (bool_decide (ck_protectionLevel k = HSM_SINGLE_TENANT)) then Err InvalidArgument
  else if bool_decide (ck_purpose k = ENCRYPT_DECRYPT) then Err InvalidArgument
  else Ok tt.

(** ** Backends *)

Section backends.
Context {S : Type} `{MSL : MetaStoreLaws S doc} `{NET : Net}.

Abbreviation H := (M Env (Server S)).

Definition checkKeyURI (uri : string) : res error unit :=
  match url_Parse uri with
  | None => Err FailedPrecondition
  | Some u => if negb (bool_decide (u_Scheme u = "https")) || bool_decide (u_Host u = "") then Err FailedPrecondition else Ok tt
  end.

Definition keyBackend (named keyRing : string) : H ekmConnection :=
  loc ← lift (BeforeIndex keyRing "/keyRings/");
  named ← (if bool_decide (named = "") then
             cfg ← get (T := ekmConfig) (dbKey ekmConfigPrefix (loc +:+ "/ekmConfig"));
             let default_ := from_option ef_Default "" cfg in
             if bool_decide (default_ = "") then throw InvalidArgument else mret default_
           else mret named);
  lift (parseEkmConnection named) ;;
  refuse (negb (HasPrefix named (loc +:+ "/"))) InvalidArgument ;;
  c ← get (T := ekmConnection) (dbKey ekmConnectionPrefix named);
  match c with Some c => mret c | None => throw InvalidArgument end.

Definition coordinatedPath (c : ekmConnection) : H string :=
  b ← draw rand_path;
  mret (TrimSuffix (ec_CryptoSpace c) "/" +:+ "/" +:+ b).

(** [externalRef]: the version with its reference to its external key. *)
Definition externalRef (k : cryptoKey) (opts : option ExternalOptions) (v : keyVersion) : H keyVersion :=
  let uri := from_option xo_Uri "" opts in
  let path := from_option xo_Path "" opts in
  let override := from_option xo_Override "" opts in
  let given (s : string) := negb (bool_decide (s = "")) in
  match ck_protectionLevel k with
  | EXTERNAL =>
      refuse (given path || given override) InvalidArgument ;;
      refuse (negb (given uri)) InvalidArgument ;;
      lift (checkKeyURI uri) ;;
      mret (set_kv_ExternalKeyURI v uri)
  | EXTERNAL_VPC =>
      refuse (given uri) InvalidArgument ;;
      '(backend, v) ← (if given override then
                         ring ← lift (BeforeIndex (ck_Name k) "/cryptoKeys/");
                         c ← keyBackend override ring;
                         mret (ec_Name c, set_kv_Backend v (ec_Name c))
                       else mret (ck_Backend k, v));
      c ← load (T := ekmConnection) (dbKey ekmConnectionPrefix backend);
      if bool_decide (ec_mode c = CLOUD_KMS) then
        refuse (given path) Unimplemented ;;
        p ← coordinatedPath c;
        mret (set_kv_KeyPath v p)
      else
        refuse (negb (given path)) InvalidArgument ;;
        mret (set_kv_KeyPath v path)
  | _ =>
      refuse (given uri || given path || given override) InvalidArgument ;;
      mret v
  end.

Definition newVersion (k : cryptoKey) (n : Z) (t : Time) (st : VersionState) (opts : option ExternalOptions) : H keyVersion :=
  let v := mkKeyVersion (versionName (ck_Name k) n) t "" (ck_Algorithm k) (ck_ProtectionLevel k) "" zero
             (if bool_decide (st = ENABLED) then None else Some st) zero zero "" "" "" false false in
  v ← externalRef k opts v;
  mat ← newMaterial k;
  mret (set_kv_Material v mat).

(** [loc[strings.LastIndex(loc, "/")+1:]] *)
Definition last_segment (loc : string) : string := AfterLast loc slash.

(** [hsmBackend] *)
Definition hsmBackend (named keyRing : string) : H string :=
  refuse (bool_decide (named = "")) InvalidArgument ;;
  loc ← lift (parseHsmInstance named);
  ringLoc ← lift (BeforeIndex keyRing "/keyRings/");
  refuse (negb (bool_decide (last_segment loc = last_segment ringLoc))) InvalidArgument ;;
  i ← get (T := hsmInstance) (dbKey hsmInstancePrefix named);
  match i with
  | None => throw InvalidArgument
  | Some i =>
      t ← now;
      refuse (negb (bool_decide (hi_State (hi_effective i t) = INSTANCE_ACTIVE))) FailedPrecondition ;;
      mret named
  end.

(** [backendUsable] *)
Definition backendUsable (k : cryptoKey) : H unit :=
  if negb (bool_decide (ck_protectionLevel k = HSM_SINGLE_TENANT)) then mret tt
  else
    i ← get (T := hsmInstance) (dbKey hsmInstancePrefix (ck_Backend k));
    t ← now;
    let st := match i with Some i => hi_State (hi_effective i t) | None => INSTANCE_DELETED end in
    refuse (negb (bool_decide (st = INSTANCE_ACTIVE))) FailedPrecondition.

(** [portableInstance] *)
Definition portableInstance (name : string) : H unit :=
  i ← get (T := hsmInstance) (dbKey hsmInstancePrefix name);
  match i with
  | None => throw FailedPrecondition
  | Some i =>
      t ← now;
      let i := hi_effective i t in
      refuse (negb (bool_decide (hi_State i = INSTANCE_ACTIVE))) FailedPrecondition ;;
      refuse (negb (hi_Portability i)) FailedPrecondition
  end.

(** ** Rendering a key *)

Definition toKey (k : cryptoKey) : H pbKey :=
  primary ← (if (0 <? ck_Primary k)%Z then
               v ← get (T := keyVersion) (dbKey versionPrefix (versionName (ck_Name k) (ck_Primary k)));
               match v with
               | Some v => mret (Some (toVersion v))
               | None => throw (Internal (Sentinel "the primary version is missing"))
               end
             else mret None);
  mret (mkPbKey (ck_Name k) (ck_purpose k) (Some (timestamppb.New (ck_Created k))) (ck_Labels k)
          (Some (durationpb.New (destroyScheduled k))) (ck_protectionLevel k) (ck_algorithm k) (ck_KAJPolicy k) (ck_Backend k)
          (if (0 <? ck_RotationPeriod k)%Z then Some (durationpb.New (ck_RotationPeriod k)) else None)
          (if negb (IsZero (ck_NextRotation k)) then Some (timestamppb.New (ck_NextRotation k)) else None) false primary).

(** [kajAllows] *)
Definition kajAllows (name : string) : H unit :=
  '(keyName, _) ← lift (parseCryptoKeyVersion name);
  k ← load (T := cryptoKey) (dbKey keyPrefix keyName);
  lift (kajRefusal k).

(** [wantPurpose] (ops.go) *)
Definition wantPurpose (k : cryptoKey) (want : list Purpose) : res error unit :=
  if bool_decide (ck_purpose k ∈ want) then Ok tt else Err FailedPrecondition.

(** [usableVersion] (ops.go) *)
Definition usableVersion (name : string) (want : list Purpose) : H keyVersion :=
  '(keyName, _) ← lift (parseCryptoKeyVersion name);
  k ← load (T := cryptoKey) (dbKey keyPrefix keyName);
  lift (wantPurpose k want) ;;
  backendUsable k ;;
  v ← load (T := keyVersion) (dbKey versionPrefix name);
  refuse (negb (bool_decide (state v = ENABLED))) FailedPrecondition ;;
  mret v.

End backends.

(** ** internal/service/kms: deletion and names that cannot be used again

    delete.go (retired resources), deletering.go's hold on the name of a deleted
    ring, and the look-ups they share with creation. *)

Definition ringReuseAfter : Duration := (5 * Minute)%Z.

Section delete.
Context {S : Type} `{MSL : MetaStoreLaws S doc} `{TJ : TokenJSON}.

Abbreviation H := (M Env (Server S)).

(** [isRetired]: the loop ends at the first record of the name. *)
Fixpoint find_retired (name : string) (keys : list string) : H bool :=
  match keys with
  | [] => mret false
  | key :: rest =>
      r ← get (T := retiredResource) key;
      match r with
      | Some r => if bool_decide (rr_Original r = name) then mret true else find_retired name rest
      | None => find_retired name rest
      end
  end.

Definition isRetired (name : string) : H bool :=
  keys ← db_List (retiredPrefix +:+ ReplaceAll (locationOf name) slash tilde +:+ "~");
  find_retired name keys.

(** [ringHeld]: a hold whose time is over is deleted. *)
Definition ringHeld (name : string) : H bool :=
  h ← get (T := ringHold) (dbKey ringHoldPrefix name);
  match h with
  | None => mret false
  | Some h =>
      t ← now;
      if Before t (Add (rh_Deleted h) ringReuseAfter) then mret true
      else db_Delete (dbKey ringHoldPrefix name) ;; mret false
  end.

Fixpoint find_handle (key : string) (handles : list string) : H bool :=
  match handles with
  | [] => mret false
  | dbk :: rest =>
      h ← get (T := keyHandle) dbk;
      match h with
      | Some h => if bool_decide (kh_KmsKey h = key) then mret true else find_handle key rest
      | None => find_handle key rest
      end
  end.

(** [autokeyKey]: whether a KeyHandle names the key. *)
Definition autokeyKey (key : string) : H bool :=
  handles ← db_List keyHandlePrefix;
  find_handle key handles.

Definition DeleteCryptoKeyVersion (name : string) : H Operation :=
  '(keyName, number) ← lift (parseCryptoKeyVersion name);
  v ← load (T := keyVersion) (dbKey versionPrefix name);
  refuse (negb (bool_decide (state v = DESTROYED))) FailedPrecondition ;;
  refuse (negb (bool_decide (kv_ImportJob v = ""))) FailedPrecondition ;;
  k ← load (T := cryptoKey) (dbKey keyPrefix keyName);
  when (ck_Primary k =? number)%Z (put (dbKey keyPrefix (ck_Name k)) (set_ck_Primary k 0)) ;;
  db_Delete (dbKey versionPrefix (kv_Name v)) ;;
  doneOperation (locationOf (kv_Name v)).

Definition DeleteCryptoKey (name : string) : H Operation :=
  lift (parseCryptoKey name) ;;
  k ← load (T := cryptoKey) (dbKey keyPrefix name);
  versions ← list_ versionPrefix (ck_Name k);
  refuse (0 <? length versions)%nat FailedPrecondition ;;
  refuse (0 <? ck_RotationPeriod k)%Z FailedPrecondition ;;
  autokey ← autokeyKey (ck_Name k);
  refuse autokey FailedPrecondition ;;
  id ← randomID;
  t ← now;
  let r := mkRetired (locationOf (ck_Name k) +:+ "/retiredResources/" +:+ id) (ck_Name k) t in
  put (dbKey retiredPrefix (rr_Name r)) r ;;
  db_Delete (dbKey keyPrefix (ck_Name k)) ;;
  doneOperation (locationOf (ck_Name k)).

(** The first import job of the ring that has not expired refuses. *)
Fixpoint jobs_expired (t : Time) (names : list string) : H unit :=
  match names with
  | [] => mret tt
  | n :: rest =>
      j ← load (T := importJob) (dbKey importJobPrefix n);
      refuse (negb (bool_decide (ij_state j t = JOB_EXPIRED))) FailedPrecondition ;;
      jobs_expired t rest
  end.

Definition DeleteKeyRing (name : string) : H Operation :=
  lift (parseKeyRing name) ;;
  r ← load (T := keyRing) (dbKey ringPrefix name);
  keys ← list_ keyPrefix (kr_Name r);
  refuse (0 <? length keys)%nat FailedPrecondition ;;
  jobs ← list_ importJobPrefix (kr_Name r);
  t ← now;
  jobs_expired t jobs ;;
  put (dbKey ringHoldPrefix (kr_Name r)) (mkRingHold (kr_Name r) t) ;;
  each (λ n, db_Delete (dbKey importJobPrefix n)) jobs ;;
  db_Delete (dbKey ringPrefix (kr_Name r)) ;;
  doneOperation (locationOf (kr_Name r)).

(** ** Retired resources *)

Record pbRetired := mkPbRetired { pt_name : string; pt_original : string; pt_delete_time : timestamppb.Timestamp }.
Definition toRetired (r : retiredResource) : pbRetired := mkPbRetired (rr_Name r) (rr_Original r) (timestamppb.New (rr_Deleted r)).

Definition GetRetiredResource (name : string) : H pbRetired :=
  lift (parseRetired name) ;;
  r ← load (T := retiredResource) (dbKey retiredPrefix name);
  mret (toRetired r).

Definition ListRetiredResources (parent token : string) (size : Z) : H (list pbRetired * string * Z) :=
  lift (parseLocation parent) ;;
  names ← list_ retiredPrefix parent;
  '(page, next) ← lift (orderedPage ("kms-retired:" +:+ parent) names byName false token size);
  rs ← collect (λ n, r ← get (T := retiredResource) (dbKey retiredPrefix n); mret (toRetired <$> r)) page;
  mret (rs, next, Z.of_nat (length names)).

End delete.
