(* ===== verification/KmsKeys.v ===== *)
(** * internal/service/kms: key rings, crypto keys and versions

    server.go's handlers of KeyManagementService, with rotation.go's checks of a
    schedule.  A request message is its fields; the text of an error is left out. *)

From S2P Require Import Prelude GoLib ApiError Resource MetaStore Paging IamPolicy Handler GoCrypto NetHttp KmsModel KmsNames KmsFilter KmsStore KmsVersions.
From Stdlib Require Import Ascii.

Import strings time.

Definition minRotationPeriod : Duration := (24 * Hour)%Z.
Definition maxRotationPeriod : Duration := (876000 * Hour)%Z.

(** ** Checks of a CryptoKey message *)

Definition unsupportedKey (k : pbKey) : res error unit :=
  if bool_decide (pk_purpose k = PURPOSE_UNSPECIFIED) then Err InvalidArgument
  else if negb (purposes (pk_purpose k)) then Err Unimplemented
  else pl ← protectionLevelOf (pk_protection_level k);
       if negb (bool_decide (pk_backend k = "")) && negb (bool_decide (pl = EXTERNAL_VPC)) && negb (bool_decide (pl = HSM_SINGLE_TENANT))
       then Err Unimplemented
       else if pk_import_only k then Err Unimplemented else Ok tt.

Definition destroyScheduledOf (k : pbKey) : res error Duration :=
  match pk_destroy_scheduled k with
  | None => Ok defaultDestroyScheduled
  | Some d =>
      if negb (durationpb.CheckValid d) || negb (durationpb.nanos d =? 0)%Z then Err InvalidArgument
      else let v := durationpb.AsDuration d in
           if (v <? minDestroyScheduled)%Z || (maxDestroyScheduled <? v)%Z then Err InvalidArgument else Ok v
  end.

Definition rotationPeriodOf (k : pbKey) : res error Duration :=
  match pk_rotation_period k with
  | None => Ok 0%Z
  | Some d =>
      if negb (durationpb.CheckValid d) then Err InvalidArgument
      else let v := durationpb.AsDuration d in
           if (v <? minRotationPeriod)%Z || (maxRotationPeriod <? v)%Z then Err InvalidArgument else Ok v
  end.

Definition nextRotationOf (k : pbKey) : res error Time :=
  match pk_next_rotation k with
  | None => Ok zero
  | Some t => if timestamppb.CheckValid t then Ok (timestamppb.AsTime t) else Err InvalidArgument
  end.

Definition checkSchedule (period : Duration) (next : Time) : res error unit :=
  if (0 <? period)%Z && IsZero next then Err InvalidArgument else Ok tt.

Definition scheduled (period : Duration) (next : Time) : bool := (0 <? period)%Z || negb (IsZero next).

(** ** Labels *)

Section labels.
Context `{Unicode}.

Definition label_rune (r : N) : bool := in_Ll r || in_Lo r || in_N r || (r =? 95)%N || (r =? 45)%N.

Definition labelKeyRE (s : string) : bool :=
  match runes s with
  | [] => false
  | r :: rs => in_Ll r && forallb label_rune rs && (length rs <=? 62)%nat
  end.
Definition labelValueRE (s : string) : bool := forallb label_rune (runes s) && (length (runes s) <=? 63)%nat.

Definition validateLabels (labels : gmap string string) : res error unit :=
  if (64 <? size labels)%nat then Err InvalidArgument
  else if forallb (λ kv, labelKeyRE kv.1 && labelValueRE kv.2) (map_to_list labels) then Ok tt
  else Err InvalidArgument.

End labels.

(** ** The handlers *)

Section keys.
Context {S : Type} `{MSL : MetaStoreLaws S doc} `{NET : Net} `{UNI : Unicode} `{TJ : TokenJSON}.

Abbreviation H := (M Env (Server S)).

(** *** Key rings *)

Record pbRing := mkPbRing { pr_name : string; pr_create_time : timestamppb.Timestamp }.
Definition toRing (r : keyRing) : pbRing := mkPbRing (kr_Name r) (timestamppb.New (kr_Created r)).

Definition CreateKeyRing (parent id : string) : H pbRing :=
  lift (parseLocation parent) ;;
  refuse (negb (idRE id)) InvalidArgument ;;
  let name := parent +:+ "/keyRings/" +:+ id in
  existing ← get (T := keyRing) (dbKey ringPrefix name);
  refuse (bool_decide (is_Some existing)) AlreadyExists ;;
  held ← attempt (ringHeld name);
  match held with
  | Err err => throw (Internal err)
  | Ok true => throw AlreadyExists
  | Ok false =>
      t ← now;
      let r := mkKeyRing name t None in
      put (dbKey ringPrefix name) r ;;
      mret (toRing r)
  end.

Definition GetKeyRing (name : string) : H pbRing :=
  lift (parseKeyRing name) ;;
  r ← load (T := keyRing) (dbKey ringPrefix name);
  mret (toRing r).

(** The page of a listing, and the records of it still there: one gone since is
    left out. *)
Definition page_of {T B} `{Record_ T} (prefix : string) (render : T → H B) (page : list string) : H (list B) :=
  collect (λ n, v ← get (T := T) (dbKey prefix n);
                match v with Some v => b ← render v; mret (Some b) | None => mret None end) page.

(** The names of the records a filter lists; [fields] are a record's. *)
Definition filter_names {T} `{Record_ T} (prefix : string) (filter : option filterExpr) (fields : string → T → string → option string)
    (names : list string) : H (list string) :=
  match filter with
  | None => mret names
  | Some e =>
      collect (λ n, v ← get (T := T) (dbKey prefix n);
                    mret (match v with
                          | Some v => if match_ e (fields n v) then Some n else None
                          | None => None
                          end)) names
  end.

Definition ringFilterFields : fieldSupport := [("name", ["="; "!="; ":"])].
Definition keyFilterFields : fieldSupport := [("name", ["="; "!="; ":"]); ("labels.", ["="; ":"])].
Definition versionFilterFields : fieldSupport := [("state", ["="; "!="])].

Definition name_field (n field : string) : option string := if bool_decide (field = "name") then Some n else None.

(** A list request's common fields. *)
Record ListRequest := mkListRequest { lr_parent : string; lr_filter : string; lr_order_by : string; lr_page_token : string; lr_page_size : Z }.

(** A page of it: the elements, the next token and the number of elements the
    filter lists. *)
Record ListResponse (B : Type) := mkListResponse { ls_elements : list B; ls_next : string; ls_total : Z }.
Global Arguments mkListResponse {B}.

Definition ListKeyRings (req : ListRequest) : H (ListResponse pbRing) :=
  lift (parseLocation (lr_parent req)) ;;
  filter ← lift (parseFilter (lr_filter req) ringFilterFields);
  desc ← lift (parseOrderBy (lr_order_by req));
  names ← list_ ringPrefix (lr_parent req);
  let names := base.filter (λ n, listed_by filter (name_field n) = true) names in
  '(page, next) ← lift (orderedPage ("kms-rings:" +:+ lr_parent req +:+ "|filter=" +:+ lr_filter req) names byName desc
                          (lr_page_token req) (lr_page_size req));
  rings ← page_of (T := keyRing) ringPrefix (λ r, mret (toRing r)) page;
  mret (mkListResponse rings next (wrap_i32 (Z.of_nat (length names)))).

Definition KeyRingsInProject (project : string) : H (list pbRing) :=
  lift (parseLocation ("projects/" +:+ project +:+ "/locations/global")) ;;
  names ← list_ ringPrefix ("projects/" +:+ project +:+ "/locations");
  page_of (T := keyRing) ringPrefix (λ r, mret (toRing r)) names.

(** *** Crypto keys *)

Record CreateKeyRequest := mkCreateKeyRequest {
  cr_parent : string;
  cr_id : string;
  cr_key : option pbKey;
  cr_skip_initial_version : bool;
  cr_trusted_wrapping : bool
}.

(** The request's own checks, in order: the level, the algorithm, the destroy
    duration, the policy and the schedule of the new key. *)
Definition checked_key (input : pbKey) : res error (ProtectionLevel * algo * Duration * option kajPolicy * Duration * Time) :=
  _ ← unsupportedKey input;
  level ← protectionLevelOf (pk_protection_level input);
  alg ← levelAlgorithm level (pk_purpose input) (pk_algorithm input);
  destroyAfter ← destroyScheduledOf input;
  kaj ← kajPolicyOf (pk_kaj input);
  period ← rotationPeriodOf input;
  next ← nextRotationOf input;
  if scheduled period next && negb (bool_decide (pk_purpose input = ENCRYPT_DECRYPT)) then Err InvalidArgument
  else _ ← checkSchedule period next; Ok (level, alg, destroyAfter, kaj, period, next).

(** The key with its backend, looked up under the lock. *)
Definition with_backend (k : cryptoKey) (level : ProtectionLevel) (backend ring : string) : H cryptoKey :=
  match level with
  | EXTERNAL_VPC =>
      c ← keyBackend backend ring;
      mret (set_ck_Coordinated (set_ck_Backend k (ec_Name c)) (bool_decide (ec_mode c = CLOUD_KMS)))
  | HSM_SINGLE_TENANT => b ← hsmBackend backend ring; mret (set_ck_Backend k b)
  | _ => mret k
  end.

Definition CreateCryptoKey (req : CreateKeyRequest) : H pbKey :=
  lift (parseKeyRing (cr_parent req)) ;;
  refuse (negb (idRE (cr_id req))) InvalidArgument ;;
  match cr_key req with
  | None => throw InvalidArgument
  | Some input =>
      '(level, alg, destroyAfter, kaj, period, next) ← lift (checked_key input);
      let name := cr_parent req +:+ "/cryptoKeys/" +:+ cr_id req in
      load (T := keyRing) (dbKey ringPrefix (cr_parent req)) ;;
      existing ← get (T := cryptoKey) (dbKey keyPrefix name);
      refuse (bool_decide (is_Some existing)) AlreadyExists ;;
      t ← now;
      retired ← isRetired name;
      refuse retired AlreadyExists ;;
      let k := mkCryptoKey name t (pk_labels input) 0 1 destroyAfter None period next (storedPurpose (pk_purpose input))
                 (storedAlgorithm alg) (storedLevel level) kaj "" false in
      k ← with_backend k level (pk_backend input) (cr_parent req);
      when (manualExternal k)
        (refuse (negb (cr_skip_initial_version req)) InvalidArgument ;;
         refuse (scheduled period next) Unimplemented) ;;
      when (cr_trusted_wrapping req)
        (lift (trustedWrappingAllowed k) ;;
         refuse (cr_skip_initial_version req) Unimplemented) ;;
      k ← (if cr_skip_initial_version req then mret k
           else
             v ← newVersion k 1 t ENABLED None;
             let v := set_kv_TrustedWrapping v (cr_trusted_wrapping req) in
             put (dbKey versionPrefix (kv_Name v)) v ;;
             let k := set_ck_Next k 2 in
             mret (if bool_decide (ck_purpose k = ENCRYPT_DECRYPT) then set_ck_Primary k 1 else k));
      put (dbKey keyPrefix name) k ;;
      when (negb (IsZero (ck_NextRotation k))) wake ;;
      toKey k
  end.

Definition GetCryptoKey (name : string) : H pbKey :=
  lift (parseCryptoKey name) ;;
  k ← load (T := cryptoKey) (dbKey keyPrefix name);
  toKey k.

(** A view of versions: unspecified and FULL are the views there are. *)
Inductive VersionView := VIEW_UNSPECIFIED | VIEW_FULL | view_other (n : Z).
Definition checkView (v : VersionView) : res error unit := match v with view_other _ => Err InvalidArgument | _ => Ok tt end.

Definition key_fields (n : string) (k : cryptoKey) (field : string) : option string :=
  if bool_decide (field = "name") then Some n
  else if HasPrefix field "labels." then ck_Labels k !! TrimPrefix field "labels." else None.

Definition ListCryptoKeys (req : ListRequest) (view : VersionView) : H (ListResponse pbKey) :=
  lift (checkView view) ;;
  lift (parseKeyRing (lr_parent req)) ;;
  filter ← lift (parseFilter (lr_filter req) keyFilterFields);
  desc ← lift (parseOrderBy (lr_order_by req));
  load (T := keyRing) (dbKey ringPrefix (lr_parent req)) ;;
  names ← list_ keyPrefix (lr_parent req);
  names ← filter_names (T := cryptoKey) keyPrefix filter key_fields names;
  '(page, next) ← lift (orderedPage ("kms-keys:" +:+ lr_parent req +:+ "|filter=" +:+ lr_filter req) names byName desc
                          (lr_page_token req) (lr_page_size req));
  keys ← page_of (T := cryptoKey) keyPrefix toKey page;
  mret (mkListResponse keys next (wrap_i32 (Z.of_nat (length names)))).

(** *** Versions *)

Definition pendingGeneration (k : cryptoKey) (v : keyVersion) : bool :=
  bool_decide (ck_purpose k ∈ [ASYMMETRIC_SIGN; ASYMMETRIC_DECRYPT; KEY_ENCAPSULATION])
  && bool_decide (kv_protectionLevel v ∈ [SOFTWARE; HSM]) && bool_decide (state v = ENABLED).

Record CreateVersionRequest := mkCreateVersionRequest {
  cv_parent : string;
  cv_state : VersionState;
  cv_trusted_wrapping : bool;
  cv_external : option ExternalOptions
}.

Definition initial_state (st : VersionState) : res error VersionState :=
  match st with
  | STATE_UNSPECIFIED | ENABLED => Ok ENABLED
  | DISABLED => Ok DISABLED
  | _ => Err InvalidArgument
  end.

(** A version that is being generated has no generate_time yet. *)
Definition pending (p : pbVersion) : pbVersion :=
  mkPbVersion (pv_name p) PENDING_GENERATION (pv_protection_level p) (pv_algorithm p) (pv_create_time p) None (pv_external p)
    (pv_trusted_wrapping p) (pv_hsm_trusted p) (pv_import_job p) (pv_import_time p) (pv_destroy_time p) (pv_destroy_event_time p).

Definition CreateCryptoKeyVersion (req : CreateVersionRequest) : H pbVersion :=
  lift (parseCryptoKey (cv_parent req)) ;;
  initial ← lift (initial_state (cv_state req));
  k ← load (T := cryptoKey) (dbKey keyPrefix (cv_parent req));
  backendUsable k ;;
  when (cv_trusted_wrapping req) (lift (trustedWrappingAllowed k)) ;;
  t ← now;
  let n := ck_Next k in
  v ← newVersion k n t initial (cv_external req);
  let v := set_kv_TrustedWrapping v (cv_trusted_wrapping req) in
  put (dbKey versionPrefix (kv_Name v)) v ;;
  put (dbKey keyPrefix (ck_Name k)) (set_ck_Next k (n + 1)) ;;
  mret (if pendingGeneration k v then pending (toVersion v) else toVersion v).

Definition GetCryptoKeyVersion (name : string) : H pbVersion :=
  lift (parseCryptoKeyVersion name) ;;
  v ← load (T := keyVersion) (dbKey versionPrefix name);
  mret (toVersion v).

Definition version_fields (_ : string) (v : keyVersion) (field : string) : option string :=
  if bool_decide (field = "state") then Some (state_String (state v)) else None.

Definition ListCryptoKeyVersions (req : ListRequest) (view : VersionView) : H (ListResponse pbVersion) :=
  lift (checkView view) ;;
  lift (parseCryptoKey (lr_parent req)) ;;
  filter ← lift (parseFilter (lr_filter req) versionFilterFields);
  desc ← lift (parseOrderBy (lr_order_by req));
  load (T := cryptoKey) (dbKey keyPrefix (lr_parent req)) ;;
  names ← list_ versionPrefix (lr_parent req);
  names ← filter_names (T := keyVersion) versionPrefix filter version_fields names;
  '(page, next) ← lift (orderedPage ("kms-versions:" +:+ lr_parent req +:+ "|filter=" +:+ lr_filter req) names byVersionNumber desc
                          (lr_page_token req) (lr_page_size req));
  versions ← page_of (T := keyVersion) versionPrefix (λ v, mret (toVersion v)) page;
  mret (mkListResponse versions next (wrap_i32 (Z.of_nat (length names)))).

Definition UpdateCryptoKeyPrimaryVersion (name id : string) : H pbKey :=
  lift (parseCryptoKey name) ;;
  n ← lift (versionNumber id);
  k ← load (T := cryptoKey) (dbKey keyPrefix name);
  refuse (negb (bool_decide (ck_purpose k = ENCRYPT_DECRYPT))) FailedPrecondition ;;
  v ← load (T := keyVersion) (dbKey versionPrefix (versionName (ck_Name k) n));
  refuse (negb (bool_decide (state v = ENABLED))) FailedPrecondition ;;
  let k := set_ck_Primary k n in
  put (dbKey keyPrefix (ck_Name k)) k ;;
  toKey k.

(** **** UpdateCryptoKeyVersion *)

(** The paths of external_protection_level_options a mask names. *)
Inductive external_path := all_options | external_key_uri | ekm_connection_key_path | ekm_connection_backend_override.

#[global] Instance external_path_eq_dec : EqDecision external_path.
Proof. solve_decision. Defined.

Definition version_path (p : string) : option (option external_path) :=
  if bool_decide (p = "state") then Some None
  else if bool_decide (p = "external_protection_level_options") then Some (Some all_options)
  else if bool_decide (p = "external_protection_level_options.external_key_uri") then Some (Some external_key_uri)
  else if bool_decide (p = "external_protection_level_options.ekm_connection_key_path") then Some (Some ekm_connection_key_path)
  else if bool_decide (p = "external_protection_level_options.ekm_connection_backend_override") then Some (Some ekm_connection_backend_override)
  else None.

(** Whether the state is set, and which options. *)
Fixpoint version_mask (paths : list string) : res error (bool * list external_path) :=
  match paths with
  | [] => Ok (false, [])
  | p :: rest =>
      match version_path p with
      | None => Err InvalidArgument
      | Some path =>
          '(setState, external) ← version_mask rest;
          Ok (match path with None => (true, external) | Some x => (setState, x :: external) end)
      end
  end.

(** The options a mask gives: its own, and the version's for the rest. *)
Definition merged_options (v : keyVersion) (given : option ExternalOptions) (external : list external_path) : ExternalOptions :=
  let named p := bool_decide (all_options ∈ external) || bool_decide (p ∈ external) in
  mkExternalOptions
    (if named external_key_uri then from_option xo_Uri "" given else kv_ExternalKeyURI v)
    (if named ekm_connection_key_path then from_option xo_Path "" given else kv_KeyPath v)
    (if named ekm_connection_backend_override then from_option xo_Override "" given else kv_Backend v).

Record UpdateVersionRequest := mkUpdateVersionRequest {
  uv_name : string;
  uv_state : VersionState;
  uv_external : option ExternalOptions;
  uv_paths : list string
}.

Definition UpdateCryptoKeyVersion (req : UpdateVersionRequest) : H pbVersion :=
  '(key, _) ← lift (parseCryptoKeyVersion (uv_name req));
  refuse (bool_decide (uv_paths req = [])) InvalidArgument ;;
  '(setState, external) ← lift (version_mask (uv_paths req));
  let target := uv_state req in
  refuse (setState && negb (bool_decide (target = ENABLED)) && negb (bool_decide (target = DISABLED))) InvalidArgument ;;
  v ← load (T := keyVersion) (dbKey versionPrefix (uv_name req));
  refuse (negb (bool_decide (state v = ENABLED)) && negb (bool_decide (state v = DISABLED))) FailedPrecondition ;;
  v ← (if bool_decide ((external : list external_path) = []) then mret v
       else
         k ← load (T := cryptoKey) (dbKey keyPrefix key);
         refuse (negb (isExternal (kv_protectionLevel v))) InvalidArgument ;;
         let opts := merged_options v (uv_external req) external in
         refuse (ck_Coordinated k && bool_decide (kv_Backend v = "")) Unimplemented ;;
         externalRef k (Some opts) (set_kv_Backend (set_kv_KeyPath (set_kv_ExternalKeyURI v "") "") ""));
  let v : keyVersion := if (setState : bool) then set_kv_State v (Some target) else v in
  put (dbKey versionPrefix (kv_Name v)) v ;;
  mret (toVersion v).

(** **** Destruction *)

Definition DestroyCryptoKeyVersion (name : string) : H pbVersion :=
  '(key, _) ← lift (parseCryptoKeyVersion name);
  v ← load (T := keyVersion) (dbKey versionPrefix name);
  refuse (negb (bool_decide (state v = ENABLED)) && negb (bool_decide (state v = DISABLED))) FailedPrecondition ;;
  k ← load (T := cryptoKey) (dbKey keyPrefix key);
  t ← now;
  let v := set_kv_DestroyTime (set_kv_State v (Some DESTROY_SCHEDULED)) (Add t (destroyScheduled k)) in
  put (dbKey versionPrefix (kv_Name v)) v ;;
  wake ;;
  mret (toVersion v).

Definition RestoreCryptoKeyVersion (name : string) : H pbVersion :=
  lift (parseCryptoKeyVersion name) ;;
  v ← load (T := keyVersion) (dbKey versionPrefix name);
  refuse (negb (bool_decide (state v = DESTROY_SCHEDULED))) FailedPrecondition ;;
  let v := set_kv_DestroyTime (set_kv_State v (Some DISABLED)) zero in
  put (dbKey versionPrefix (kv_Name v)) v ;;
  wake ;;
  mret (toVersion v).

(** **** UpdateCryptoKey *)

(** What a mask sets, [None] where it does not name the field. *)
Record key_mask := mkKeyMask {
  km_labels : bool;
  km_algorithm : option algo;
  km_level : option ProtectionLevel;
  km_period : option Duration;
  km_next : option Time;
  km_kaj : option (option kajPolicy)
}.

Definition no_mask : key_mask := mkKeyMask false None None None None None.

Definition mask_path (input : pbKey) (m : key_mask) (p : string) : res error key_mask :=
  if bool_decide (p = "labels") then
    _ ← validateLabels (pk_labels input);
    Ok (mkKeyMask true (km_algorithm m) (km_level m) (km_period m) (km_next m) (km_kaj m))
  else if bool_decide (p ∈ ["version_template"; "version_template.algorithm"; "version_template.protection_level"]) then
    let m := if bool_decide (p = "version_template.protection_level") then m
             else mkKeyMask (km_labels m) (Some (pk_algorithm input)) (km_level m) (km_period m) (km_next m) (km_kaj m) in
    if bool_decide (p = "version_template.algorithm") then Ok m
    else pl ← protectionLevelOf (pk_protection_level input);
         Ok (mkKeyMask (km_labels m) (km_algorithm m) (Some pl) (km_period m) (km_next m) (km_kaj m))
  else if bool_decide (p = "rotation_period") then
    d ← rotationPeriodOf input;
    Ok (mkKeyMask (km_labels m) (km_algorithm m) (km_level m) (Some d) (km_next m) (km_kaj m))
  else if bool_decide (p = "next_rotation_time") then
    t ← nextRotationOf input;
    Ok (mkKeyMask (km_labels m) (km_algorithm m) (km_level m) (km_period m) (Some t) (km_kaj m))
  else if bool_decide (p = "key_access_justifications_policy") then
    pol ← kajPolicyOf (pk_kaj input);
    Ok (mkKeyMask (km_labels m) (km_algorithm m) (km_level m) (km_period m) (km_next m) (Some pol))
  else Err InvalidArgument.

Fixpoint mask_paths (input : pbKey) (m : key_mask) (paths : list string) : res error key_mask :=
  match paths with
  | [] => Ok m
  | p :: rest => m ← mask_path input m p; mask_paths input m rest
  end.

(** The key the mask makes of the stored one. *)
Definition masked_key (k : cryptoKey) (input : pbKey) (m : key_mask) : res error cryptoKey :=
  let k := if km_labels m then set_ck_Labels k (pk_labels input) else k in
  let k := from_option (set_ck_RotationPeriod k) k (km_period m) in
  let k := from_option (set_ck_NextRotation k) k (km_next m) in
  _ ← guard_ (from_option (λ level, bool_decide (level = ck_protectionLevel k)) true (km_level m)) InvalidArgument;
  let k := from_option (set_ck_KAJPolicy k) k (km_kaj m) in
  k ← from_option (λ alg, a ← levelAlgorithm (ck_protectionLevel k) (ck_purpose k) alg; Ok (set_ck_Algorithm k (storedAlgorithm a)))
        (Ok k) (km_algorithm m);
  let sch := scheduled (ck_RotationPeriod k) (ck_NextRotation k) in
  if sch && negb (bool_decide (ck_purpose k = ENCRYPT_DECRYPT)) then Err InvalidArgument
  else if sch && manualExternal k then Err Unimplemented
  else _ ← checkSchedule (ck_RotationPeriod k) (ck_NextRotation k); Ok k.

Definition UpdateCryptoKey (input : pbKey) (paths : list string) : H pbKey :=
  lift (parseCryptoKey (pk_name input)) ;;
  refuse (bool_decide (paths = [])) InvalidArgument ;;
  m ← lift (mask_paths input no_mask paths);
  k ← load (T := cryptoKey) (dbKey keyPrefix (pk_name input));
  k ← lift (masked_key k input m);
  put (dbKey keyPrefix (ck_Name k)) k ;;
  when (bool_decide (is_Some (km_period m)) || bool_decide (is_Some (km_next m))) wake ;;
  toKey k.

End keys.
