(* ===== verification/KmsCrypt.v ===== *)
(** * internal/service/kms: symmetric encryption

    envelope.go (the ciphertext format) and crypto.go (Encrypt and Decrypt).  A
    byte slice is the string of its bytes. *)

From S2P Require Import Prelude GoLib ApiError Resource MetaStore Paging IamPolicy Handler GoCrypto GoBinary NetHttp KmsModel KmsNames KmsFilter KmsStore KmsVersions.
From Stdlib Require Import Ascii.

Import strings time.

(** ** The envelope (envelope.go) *)

Definition envelopeFormat : ascii := "001".
Definition headerLen : nat := 5.
Definition nonceLen : nat := 12.
Definition tagLen : nat := 16.

Definition errOpen : error := Sentinel "ciphertext is invalid, was produced by another key, or its additional authenticated data does not match".
Definition ErrKeySize : error := Sentinel "key material is not 32 bytes".

Definition header (version : Z) : string := String envelopeFormat (put_uint32 version).

Definition authData (h aad : string) : string := h +:+ aad.

Section envelope.
Context `{CR : Crypto}.

(** [nonce] is what [rand.Read] gave, if it did. *)
Definition seal (material : string) (version : Z) (plaintext aad : string) (nonce : option string) : res error string :=
  if negb (len material =? 32)%nat then Err ErrKeySize
  else match nonce with
       | None => Err (Wrapped ErrRand)
       | Some nonce => let h := header version in Ok (h +:+ nonce +:+ gcm_Seal material nonce plaintext (authData h aad))
       end.

Definition parseVersion (ciphertext : string) : res error Z :=
  if (len ciphertext <? headerLen + nonceLen + tagLen)%nat || negb (first_byte (λ a, bool_decide (a = envelopeFormat)) ciphertext)
  then Err errOpen
  else let v := uint32 (drop_bytes 1 ciphertext) in
       if (v =? 0)%Z then Err errOpen else Ok v.

Definition open (material : string) (version : Z) (ciphertext aad : string) : res error string :=
  match parseVersion ciphertext with
  | Err _ => Err errOpen
  | Ok got =>
      if negb (got =? version)%Z then Err errOpen
      else if negb (len material =? 32)%nat then Err errOpen
      else let h := take_bytes headerLen ciphertext in
           let nonce := take_bytes nonceLen (drop_bytes headerLen ciphertext) in
           match gcm_Open material nonce (drop_bytes (headerLen + nonceLen) ciphertext) (authData h aad) with
           | Some pt => Ok pt
           | None => Err errOpen
           end
  end.

End envelope.

(** ** Encrypt and Decrypt (crypto.go) *)

Definition maxSoftwareBytes : Z := (64 * 1024)%Z.
Definition maxHSMBytes : Z := (8 * 1024)%Z.

(** [len(b) > limit] *)
Definition longer (limit : Z) (n : nat) : bool := (limit <? Z.of_nat n)%Z.

Section crypt.
Context {S : Type} `{MSL : MetaStoreLaws S doc} `{CR : Crypto} `{CRC : Crc32}.

Abbreviation H := (M Env (Server S)).

Definition crc32c (b : string) : Z := crc32_Checksum b.

(** Whether a checksum was sent and verified. *)
Definition checkCRC (data : string) (sent : option Z) : res error bool :=
  match sent with
  | None => Ok false
  | Some c => if (c =? crc32c data)%Z then Ok true else Err InvalidArgument
  end.

(** A name of more than eight segments is a version's. *)
Definition encrypt_name (name : string) : res error (string * Z) :=
  if (8 <? length (Split name slash))%nat then parseCryptoKeyVersion name
  else _ ← parseCryptoKey name; Ok (name, 0%Z).

Definition encryptTarget (name : string) : H keyVersion :=
  '(keyName, number) ← lift (encrypt_name name);
  k ← load (T := cryptoKey) (dbKey keyPrefix keyName);
  lift (wantPurpose k [ENCRYPT_DECRYPT]) ;;
  backendUsable k ;;
  lift (kajRefusal k) ;;
  refuse ((number =? 0)%Z && (ck_Primary k =? 0)%Z) FailedPrecondition ;;
  let number := if (number =? 0)%Z then ck_Primary k else number in
  v ← load (T := keyVersion) (dbKey versionPrefix (versionName keyName number));
  refuse (negb (bool_decide (state v = ENABLED))) FailedPrecondition ;;
  mret v.

Record EncryptRequest := mkEncryptRequest {
  en_name : string;
  en_plaintext : string;
  en_aad : string;
  en_plaintext_crc : option Z;
  en_aad_crc : option Z
}.

Record EncryptResponse := mkEncryptResponse {
  es_name : string;
  es_ciphertext : string;
  es_ciphertext_crc : Z;
  es_verified_plaintext : bool;
  es_verified_aad : bool;
  es_protection_level : ProtectionLevel
}.

Definition Encrypt (req : EncryptRequest) : H EncryptResponse :=
  let pt := en_plaintext req in
  let aad := en_aad req in
  refuse (len pt =? 0)%nat InvalidArgument ;;
  refuse (longer maxSoftwareBytes (len pt)) InvalidArgument ;;
  refuse (longer maxSoftwareBytes (len aad)) InvalidArgument ;;
  ptOK ← lift (checkCRC pt (en_plaintext_crc req));
  aadOK ← lift (checkCRC aad (en_aad_crc req));
  v ← encryptTarget (en_name req);
  refuse (bool_decide (kv_protectionLevel v = HSM) && longer maxHSMBytes (len pt + len aad)) InvalidArgument ;;
  match parseCryptoKeyVersion (kv_Name v) with
  | Err err => throw (Internal err)
  | Ok (_, number) =>
      nonce ← ask rand_nonce;
      match seal (kv_Material v) (wrap_u32 number) pt aad nonce with
      | Err err => throw (Internal err)
      | Ok ct => mret (mkEncryptResponse (kv_Name v) ct (crc32c ct) ptOK aadOK (kv_protectionLevel v))
      end
  end.

Definition errBadCiphertext : error := InvalidArgument.

Record DecryptRequest := mkDecryptRequest {
  de_name : string;
  de_ciphertext : string;
  de_aad : string;
  de_ciphertext_crc : option Z;
  de_aad_crc : option Z
}.

Record DecryptResponse := mkDecryptResponse {
  ds_plaintext : string;
  ds_plaintext_crc : Z;
  ds_used_primary : bool;
  ds_protection_level : ProtectionLevel
}.

Definition Decrypt (req : DecryptRequest) : H DecryptResponse :=
  lift (parseCryptoKey (de_name req)) ;;
  let ct := de_ciphertext req in
  let aad := de_aad req in
  refuse (len ct =? 0)%nat InvalidArgument ;;
  refuse (longer maxSoftwareBytes (len aad)) InvalidArgument ;;
  lift (checkCRC ct (de_ciphertext_crc req)) ;;
  lift (checkCRC aad (de_aad_crc req)) ;;
  k ← load (T := cryptoKey) (dbKey keyPrefix (de_name req));
  lift (wantPurpose k [ENCRYPT_DECRYPT]) ;;
  backendUsable k ;;
  lift (kajRefusal k) ;;
  match parseVersion ct with
  | Err _ => throw errBadCiphertext
  | Ok number =>
      v ← get (T := keyVersion) (dbKey versionPrefix (versionName (ck_Name k) number));
      match v with
      | None => throw errBadCiphertext
      | Some v =>
          refuse (negb (bool_decide (state v = ENABLED))) FailedPrecondition ;;
          match open (kv_Material v) number ct aad with
          | Err _ => throw errBadCiphertext
          | Ok pt => mret (mkDecryptResponse pt (crc32c pt) (number =? ck_Primary k)%Z (kv_protectionLevel v))
          end
      end
  end.

End crypt.

(** ** The envelope opens again *)

Section roundtrip.
Context `{CL : CryptoLaws, !GcmOverhead}.

Lemma header_len v : len (header v) = headerLen.
Proof. done. Qed.

(** What [seal] made under a version's material names that version, and [open]
    gives its plaintext back. *)
Lemma parseVersion_seal material v pt aad nonce ct :
  (0 < v < 2 ^ 32)%Z → (∀ b, nonce = Some b → len b = nonceLen) → seal material v pt aad nonce = Ok ct → parseVersion ct = Ok v.
Proof.
  intros Hv Hn. unfold seal, parseVersion. destruct (negb _); [done|]. destruct nonce as [b|]; [|done]. intros [= <-].
  rewrite !len_app, header_len, (Hn b eq_refl), gcm_Seal_len.
  rewrite (proj2 (Nat.ltb_ge _ _)) by (unfold headerLen, nonceLen, tagLen; lia).
  unfold header. rewrite app_cons. cbn [first_byte drop_bytes orb negb]. rewrite bool_decide_true by done. cbn [negb].
  rewrite uint32_put by lia. by rewrite (proj2 (Z.eqb_neq _ _)) by lia.
Qed.

Lemma open_seal material v pt aad nonce ct :
  (0 < v < 2 ^ 32)%Z → (∀ b, nonce = Some b → len b = nonceLen) → seal material v pt aad nonce = Ok ct → open material v ct aad = Ok pt.
Proof.
  intros Hv Hn Hs. unfold open. rewrite (parseVersion_seal material v pt aad nonce ct) by done. rewrite Z.eqb_refl. cbn [negb].
  unfold seal in Hs. destruct (len material =? 32)%nat; [|done]. cbn [negb] in *. destruct nonce as [b|]; [|done]. injection Hs as <-.
  specialize (Hn b eq_refl). cbv zeta.
  assert (take_bytes headerLen (header v +:+ b +:+ gcm_Seal material b pt (authData (header v) aad)) = header v) as ->
    by (rewrite <- (header_len v); apply take_len_app).
  assert (∀ n r, drop_bytes (headerLen + n) (header v +:+ r) = drop_bytes n r) as Hdrop by (intros n r; rewrite <- (header_len v); apply drop_len_app).
  rewrite Hdrop. rewrite <- (Nat.add_0_r headerLen) at 1. rewrite Hdrop. cbn [drop_bytes].
  rewrite <- Hn, take_len_app. rewrite <- (Nat.add_0_r (len b)), drop_len_app. cbn [drop_bytes]. by rewrite gcm_Open_Seal.
Qed.

End roundtrip.
