(* ===== verification/KmsOps.v ===== *)
(** * internal/service/kms: signing, MACs, raw encryption and encapsulation

    ops.go, and the client-side VerifySignature and EncryptWithPublicKey of
    purposes.go. *)

From S2P Require Import Prelude GoLib ApiError Resource MetaStore Paging IamPolicy Handler GoCrypto GoBinary NetHttp KmsModel KmsNames KmsFilter KmsStore KmsVersions KmsKeys KmsCrypt.
From Stdlib Require Import Ascii.

Import strings time.

Definition checkSize (b : string) : res error unit := if longer maxSoftwareBytes (len b) then Err InvalidArgument else Ok tt.

(** The spec of a version's algorithm; one the table does not have is the zero
    spec. *)
Definition version_spec (v : keyVersion) : algSpec := default (sym_spec PURPOSE_UNSPECIFIED 0) (algorithms (kv_algorithm v)).

Definition gcmIVLen : nat := 12.
Definition gcmTagLen : Z := 16.

Inductive PublicKeyFormat := FORMAT_UNSPECIFIED | FORMAT_PEM | FORMAT_DER | NIST_PQC | format_other (n : Z).

(** A digest of a request: its hash, if it is set. *)
Inductive Digest := Sha256 (b : string) | Sha384 (b : string) | Sha512 (b : string) | digest_unset.

Definition digestBytes (d : option Digest) : option hash * string :=
  match d with
  | Some (Sha256 b) => (Some SHA256, b)
  | Some (Sha384 b) => (Some SHA384, b)
  | Some (Sha512 b) => (Some SHA512, b)
  | _ => (None, "")
  end.

Section ops.
Context {S : Type} `{MSL : MetaStoreLaws S doc} `{CRC : Crc32} `{CR : Crypto} `{AE : Aes} `{HA : Hashes}.
Context `{X : X509} `{SG : Signatures} `{OA : Oaep} `{MK : Mlkem}.

Abbreviation H := (M Env (Server S)).

(** [keyVersion.privateKey]: the kind of a key that can sign. *)
Definition privateKey (v : keyVersion) : res error KeyKind :=
  match ParsePKCS8PrivateKey (kv_Material v) with
  | None => Err (Internal (Sentinel "stored key"))
  | Some (kind_other false) => Err (Internal (Sentinel "stored key is not a signer"))
  | Some k => Ok k
  end.

(** ** Public keys *)

Record pbPublicKey := mkPbPublicKey {
  pu_pem : string;
  pu_pem_crc : option Z;
  pu_algorithm : algo;
  pu_name : string;
  pu_level : ProtectionLevel;
  pu_format : PublicKeyFormat;
  pu_data : option (string * Z)
}.

Definition kemPublicKey (v : keyVersion) (f : PublicKeyFormat) : res error pbPublicKey :=
  match f with
  | NIST_PQC =>
      match kem_public (if (kem (version_spec v) =? 1024)%nat then 1024 else 768) (kv_Material v) with
      | None => Err (Internal (Sentinel "stored key"))
      | Some ek => Ok (mkPbPublicKey "" None (kv_algorithm v) (kv_Name v) (kv_protectionLevel v) f (Some (ek, crc32c ek)))
      end
  | _ => Err InvalidArgument
  end.

Definition public_key (v : keyVersion) (f : PublicKeyFormat) : res error pbPublicKey :=
  if (0 <? kem (version_spec v))%nat then kemPublicKey v f
  else
    _ ← privateKey v;
    match MarshalPKIXPublicKey (kv_Material v) with
    | None => Err (Internal (Sentinel "encode the public key"))
    | Some der =>
        let p := pem_Encode der in
        let out := mkPbPublicKey p (Some (crc32c p)) (kv_algorithm v) (kv_Name v) (kv_protectionLevel v) in
        match f with
        | FORMAT_UNSPECIFIED => Ok (out FORMAT_UNSPECIFIED None)
        | FORMAT_PEM => Ok (out f (Some (p, crc32c p)))
        | FORMAT_DER => Ok (out f (Some (der, crc32c der)))
        | _ => Err InvalidArgument
        end
    end.

Definition GetPublicKey (name : string) (f : PublicKeyFormat) : H pbPublicKey :=
  v ← usableVersion name [ASYMMETRIC_SIGN; ASYMMETRIC_DECRYPT; KEY_ENCAPSULATION];
  lift (public_key v f).

(** ** Signatures *)

(** What is signed: the data of an algorithm without a hash, or a digest of the
    algorithm's. *)
Definition to_sign (spec : algSpec) (data : string) (digest : option Digest) : res error string :=
  let hasDigest := bool_decide (is_Some digest) in
  let '(dh, d) := digestBytes digest in
  match as_hash spec with
  | None => if hasDigest then Err InvalidArgument else if (len data =? 0)%nat then Err InvalidArgument else Ok data
  | Some h =>
      if hasDigest then
        if negb (bool_decide (dh = Some h)) then Err InvalidArgument
        else if negb (len d =? hash_Size h)%nat then Err InvalidArgument else Ok d
      else if (len data =? 0)%nat then Err InvalidArgument else Ok (hash_Sum h data)
  end.

(** The switch over the key's type: how it signs. *)
Definition scheme_of (spec : algSpec) (k : KeyKind) : option scheme :=
  match k with
  | kind_rsa _ =>
      Some (match as_hash spec with
            | None => PKCS1v15 None
            | Some h => if pss spec then PSS h else PKCS1v15 (Some h)
            end)
  | kind_ecdsa _ => Some ECDSA
  | kind_ed25519 => Some Ed25519
  | kind_other _ => None
  end.

Record SignResponse := mkSignResponse {
  sr_signature : string;
  sr_signature_crc : Z;
  sr_verified_digest : bool;
  sr_verified_data : bool;
  sr_name : string;
  sr_level : ProtectionLevel
}.

(** ed25519 signs the data itself; no algorithm with a hash has such a key. *)
Definition AsymmetricSign (name data : string) (digest : option Digest) (data_crc digest_crc : option Z) : H SignResponse :=
  let hasDigest := bool_decide (is_Some digest) in
  refuse (hasDigest && (0 <? len data)%nat) InvalidArgument ;;
  lift (checkSize data) ;;
  dataOK ← lift (checkCRC data data_crc);
  digestOK ← lift (checkCRC (digestBytes digest).2 digest_crc);
  v ← usableVersion name [ASYMMETRIC_SIGN];
  kajAllows (kv_Name v) ;;
  let spec := version_spec v in
  msg ← lift (to_sign spec data digest);
  kind ← lift (privateKey v);
  r ← ask rand_reader;
  match scheme_of spec kind with
  | None => throw (Internal (Sentinel "unknown type"))
  | Some sch =>
      match sign sch (kv_Material v) (if bool_decide (sch = Ed25519) then data else msg) r with
      | None => throw InvalidArgument
      | Some sig => mret (mkSignResponse sig (crc32c sig) digestOK dataOK (kv_Name v) (kv_protectionLevel v))
      end
  end.

(** [VerifySignature] (purposes.go), as a client does it. *)
Definition VerifySignature (publicPEM : string) (a : algo) (data sig : string) : res error bool :=
  match pem_Decode publicPEM with
  | None => Err (Sentinel "not a PEM public key")
  | Some (_, der) =>
      match ParsePKIXPublicKey der with
      | None => Err (Sentinel "x509")
      | Some kind =>
          match algorithms a with
          | Some s =>
              if negb (bool_decide (as_purpose s = ASYMMETRIC_SIGN)) then Err (Sentinel "not a signing algorithm")
              else
                let digest := match as_hash s with Some h => hash_Sum h data | None => "" end in
                match kind with
                | kind_ecdsa _ => Ok (verify ECDSA der digest sig)
                | kind_ed25519 => Ok (verify Ed25519 der data sig)
                | kind_rsa _ =>
                    Ok (match as_hash s with
                        | None => verify (PKCS1v15 None) der data sig
                        | Some h => verify (if pss s then PSS h else PKCS1v15 (Some h)) der digest sig
                        end)
                | kind_other _ => Err (Sentinel "unsupported public key type")
                end
          | None => Err (Sentinel "not a signing algorithm")
          end
      end
  end.

(** ** RSA-OAEP *)

Definition AsymmetricDecrypt (name ct : string) (ct_crc : option Z) : H (string * Z * bool * ProtectionLevel) :=
  refuse (len ct =? 0)%nat InvalidArgument ;;
  ctOK ← lift (checkCRC ct ct_crc);
  v ← usableVersion name [ASYMMETRIC_DECRYPT];
  kajAllows (kv_Name v) ;;
  kind ← lift (privateKey v);
  match kind with
  | kind_rsa _ =>
      match as_hash (version_spec v) with
      | None => throw errBadCiphertext
      | Some h =>
          match DecryptOAEP h (kv_Material v) ct with
          | None => throw errBadCiphertext
          | Some pt => mret (pt, crc32c pt, ctOK, kv_protectionLevel v)
          end
      end
  | _ => throw (Internal (Sentinel "stored key is not RSA"))
  end.

(** [EncryptWithPublicKey] (purposes.go) *)
Definition EncryptWithPublicKey (publicPEM : string) (a : algo) (plaintext rand : string) : res error string :=
  match pem_Decode publicPEM with
  | None => Err (Sentinel "not a PEM public key")
  | Some (_, der) =>
      match ParsePKIXPublicKey der, algorithms a with
      | Some (kind_rsa _), Some s =>
          if negb (bool_decide (as_purpose s = ASYMMETRIC_DECRYPT)) then Err (Sentinel "not an asymmetric decryption algorithm")
          else match as_hash s with
               | None => Err (Sentinel "no hash")
               | Some h => from_option Ok (Err (Sentinel "rsa")) (EncryptOAEP h der plaintext rand)
               end
      | None, _ => Err (Sentinel "x509")
      | _, _ => Err (Sentinel "not an asymmetric decryption algorithm")
      end
  end.

(** ** MACs *)

Definition mac (v : keyVersion) (data : string) : string := hmac_Sum (default SHA256 (as_hash (version_spec v))) (kv_Material v) data.

Record MacSignResponse := mkMacSignResponse { ms_name : string; ms_mac : string; ms_mac_crc : Z; ms_verified_data : bool; ms_level : ProtectionLevel }.

Definition MacSign (name data : string) (data_crc : option Z) : H MacSignResponse :=
  lift (checkSize data) ;;
  dataOK ← lift (checkCRC data data_crc);
  v ← usableVersion name [MAC];
  kajAllows (kv_Name v) ;;
  let m := mac v data in
  mret (mkMacSignResponse (kv_Name v) m (crc32c m) dataOK (kv_protectionLevel v)).

Record MacVerifyResponse := mkMacVerifyResponse { mv_name : string; mv_success : bool; mv_verified_data : bool; mv_verified_mac : bool; mv_level : ProtectionLevel }.

Definition MacVerify (name data m : string) (data_crc mac_crc : option Z) : H MacVerifyResponse :=
  lift (checkSize data) ;;
  dataOK ← lift (checkCRC data data_crc);
  macOK ← lift (checkCRC m mac_crc);
  v ← usableVersion name [MAC];
  mret (mkMacVerifyResponse (kv_Name v) (bool_decide (mac v data = m)) dataOK macOK (kv_protectionLevel v)).

(** ** Raw encryption *)

Record RawRequest := mkRawRequest {
  rw_name : string;
  rw_text : string;
  rw_aad : string;
  rw_iv : string;
  rw_text_crc : option Z;
  rw_aad_crc : option Z;
  rw_iv_crc : option Z
}.

Record RawEncryptResponse := mkRawEncryptResponse {
  re_ciphertext : string;
  re_iv : string;
  re_tag_length : Z;
  re_ciphertext_crc : Z;
  re_iv_crc : Z;
  re_verified : bool * bool * bool;
  re_name : string;
  re_level : ProtectionLevel
}.

(** The initialization vector of CBC or CTR: the caller's, or a new one. *)
Definition block_iv (iv : string) : H string :=
  if (len iv =? 0)%nat then draw rand_iv
  else refuse (negb (len iv =? BlockSize)%nat) InvalidArgument ;; mret iv.

(** The switch over the mode: the ciphertext, the vector and the length of the
    tag; an algorithm without a mode gives nothing. *)
Definition raw_seal (mode : option aes_mode) (key pt aad iv : string) : H (string * string * Z) :=
  match mode with
  | Some gcm_mode =>
      refuse (0 <? len iv)%nat InvalidArgument ;;
      iv ← draw rand_nonce;
      mret (gcm_Seal key iv pt aad, iv, gcmTagLen)
  | Some cbc_mode =>
      iv ← block_iv iv;
      refuse (negb (len pt mod BlockSize =? 0)%nat) InvalidArgument ;;
      mret (CBCEncrypt key iv pt, iv, 0%Z)
  | Some ctr_mode =>
      iv ← block_iv iv;
      mret (CTR key iv pt, iv, 0%Z)
  | None => mret ("", iv, 0%Z)
  end.

(** What RawEncrypt and RawDecrypt check of a version before its mode. *)
Definition raw_version (name aad : string) : H keyVersion :=
  v ← usableVersion name [RAW_ENCRYPT_DECRYPT];
  kajAllows (kv_Name v) ;;
  refuse (negb (aes_key_ok (kv_Material v))) (Internal (Sentinel "stored key")) ;;
  refuse (negb (bool_decide (as_mode (version_spec v) = Some gcm_mode)) && (0 <? len aad)%nat) InvalidArgument ;;
  mret v.

Definition RawEncrypt (req : RawRequest) : H RawEncryptResponse :=
  let '(pt, aad, iv) := (rw_text req, rw_aad req, rw_iv req) in
  lift (checkSize pt) ;;
  lift (checkSize aad) ;;
  ptOK ← lift (checkCRC pt (rw_text_crc req));
  aadOK ← lift (checkCRC aad (rw_aad_crc req));
  ivOK ← lift (checkCRC iv (rw_iv_crc req));
  v ← raw_version (rw_name req) aad;
  '(ct, iv, tag) ← raw_seal (as_mode (version_spec v)) (kv_Material v) pt aad iv;
  mret (mkRawEncryptResponse ct iv tag (crc32c ct) (crc32c iv) (ptOK, aadOK, ivOK) (kv_Name v) (kv_protectionLevel v)).

Definition raw_open (mode : option aes_mode) (key ct aad iv : string) (tag : Z) : res error string :=
  match mode with
  | Some gcm_mode =>
      if negb (tag =? 0)%Z && negb (tag =? gcmTagLen)%Z then Err InvalidArgument
      else if negb (len iv =? gcmIVLen)%nat then Err InvalidArgument
      else from_option Ok (Err errBadCiphertext) (gcm_Open key iv ct aad)
  | Some cbc_mode =>
      if negb (len iv =? BlockSize)%nat then Err InvalidArgument
      else if negb (len ct mod BlockSize =? 0)%nat then Err InvalidArgument
      else Ok (CBCDecrypt key iv ct)
  | Some ctr_mode => if negb (len iv =? BlockSize)%nat then Err InvalidArgument else Ok (CTR key iv ct)
  | None => Ok ""
  end.

Record RawDecryptResponse := mkRawDecryptResponse { rd_plaintext : string; rd_plaintext_crc : Z; rd_level : ProtectionLevel; rd_verified : bool * bool * bool }.

Definition RawDecrypt (req : RawRequest) (tag : Z) : H RawDecryptResponse :=
  let '(ct, aad, iv) := (rw_text req, rw_aad req, rw_iv req) in
  refuse (len ct =? 0)%nat InvalidArgument ;;
  refuse (len iv =? 0)%nat InvalidArgument ;;
  lift (checkSize aad) ;;
  ctOK ← lift (checkCRC ct (rw_text_crc req));
  aadOK ← lift (checkCRC aad (rw_aad_crc req));
  ivOK ← lift (checkCRC iv (rw_iv_crc req));
  v ← raw_version (rw_name req) aad;
  pt ← lift (raw_open (as_mode (version_spec v)) (kv_Material v) ct aad iv tag);
  mret (mkRawDecryptResponse pt (crc32c pt) (kv_protectionLevel v) (ctOK, aadOK, ivOK)).

(** ** Random bytes and encapsulation *)

Definition GenerateRandomBytes (location : string) (n : Z) (pl : ProtectionLevel) : H (string * Z) :=
  lift (parseLocation location) ;;
  refuse ((n <? 8)%Z || (1024 <? n)%Z) InvalidArgument ;;
  refuse (negb (bool_decide (pl = HSM))) InvalidArgument ;;
  b ← draw (λ e, rand_bytes e n);
  mret (b, crc32c b).

Definition Decapsulate (name ct : string) (ct_crc : option Z) : H (string * string * Z * bool * ProtectionLevel) :=
  refuse (len ct =? 0)%nat InvalidArgument ;;
  ctOK ← lift (checkCRC ct ct_crc);
  v ← usableVersion name [KEY_ENCAPSULATION];
  kajAllows (kv_Name v) ;;
  let size := if (kem (version_spec v) =? 1024)%nat then 1024 else 768 in
  refuse (bool_decide (kem_public size (kv_Material v) = None)) (Internal (Sentinel "stored key")) ;;
  match kem_Decapsulate size (kv_Material v) ct with
  | None => throw InvalidArgument
  | Some secret => mret (kv_Name v, secret, crc32c secret, ctOK, kv_protectionLevel v)
  end.

End ops.
