(* ===== verification/KmsKwp.v ===== *)
(** * internal/service/kms: AES key wrap with padding

    import.go's wrapKWP and unwrapKWP (RFC 5649).  The register [a] is a string of
    eight bytes; the array [r] is the list of its blocks of eight bytes. *)

From S2P Require Import Prelude GoLib ApiError Resource GoCrypto GoBinary.
From Stdlib Require Import Ascii.

Import strings.

Definition ErrKWP : error := Sentinel "not an RFC 5649 wrapping".
Definition ErrWrapSize : error := Sentinel "the key to wrap must be 1 to 2^32-1 bytes".
Definition ErrKek : error := Sentinel "crypto/aes: invalid key size".

(** The integrity value {0xA6, 0x59, 0x59, 0xA6}. *)
Definition kwp_icv : string := be_put 4 2790873510.

(** The blocks of eight bytes of a slice, [n] of them. *)
Fixpoint blocks8 (n : nat) (s : string) : list string :=
  match n with
  | O => []
  | S n => take_bytes 8 s :: blocks8 n (drop_bytes 8 s)
  end.

Fixpoint zeros (n : nat) : string := match n with O => "" | S n => String "000" (zeros n) end.

Fixpoint concat_bytes (l : list string) : string := match l with [] => "" | b :: l => b +:+ concat_bytes l end.

(** The turns of the two loops, in the order of wrapping: [j] from 0 to 5 and
    within it [i] from 1 to [n], with the counter [n*j+i]. *)
Definition kwp_turns (n : nat) : list (nat * Z) :=
  mjoin ((λ j, (λ i, (i, Z.of_nat (n * j + S i))) <$> seq 0 n) <$> seq 0 6).

Section kwp.
Context `{AE : Aes}.

(** One turn on the register and the block at [i]. *)
Definition kwp_wrap_turn (kek : string) (st : string * list string) (turn : nat * Z) : string * list string :=
  let '(a, r) := st in
  let '(i, t) := turn in
  let b := aes_Encrypt kek (a +:+ default "" (r !! i)) in
  (put_uint64 (Z.lxor (uint64 (take_bytes 8 b)) (wrap_u64 t)), <[i := drop_bytes 8 b]> r).

Definition kwp_unwrap_turn (kek : string) (st : string * list string) (turn : nat * Z) : string * list string :=
  let '(a, r) := st in
  let '(i, t) := turn in
  let b := aes_Decrypt kek (put_uint64 (Z.lxor (uint64 a) (wrap_u64 t)) +:+ default "" (r !! i)) in
  (take_bytes 8 b, <[i := drop_bytes 8 b]> r).

Definition wrapKWP (kek p : string) : res error string :=
  if (len p =? 0)%nat || (2 ^ 32 - 1 <? Z.of_nat (len p))%Z then Err ErrWrapSize
  else if negb (aes_key_ok kek) then Err ErrKek
  else
    let a := kwp_icv +:+ put_uint32 (wrap_u32 (Z.of_nat (len p))) in
    let n := (len p + 7) / 8 in
    let r := p +:+ zeros (n * 8 - len p) in
    if (n =? 1)%nat then Ok (aes_Encrypt kek (a +:+ r))
    else let '(a, r) := foldl (kwp_wrap_turn kek) (a, blocks8 n r) (kwp_turns n) in
         Ok (a +:+ concat_bytes r).

Definition is_zero_byte (c : ascii) : bool := bool_decide (c = "000"%char).

Definition unwrapKWP (kek c : string) : res error string :=
  if negb (aes_key_ok kek) then Err ErrKek
  else if (len c <? 16)%nat || negb (len c mod 8 =? 0)%nat then Err ErrKWP
  else
    let n := len c / 8 - 1 in
    let '(a, r) :=
      (if (n =? 1)%nat then
         let b := aes_Decrypt kek c in (take_bytes 8 b, drop_bytes 8 b)
       else
         let '(a, r) := foldl (kwp_unwrap_turn kek) (take_bytes 8 c, blocks8 n (drop_bytes 8 c)) (reverse (kwp_turns n)) in
         (a, concat_bytes r)) in
    if negb (bool_decide (take_bytes 4 a = kwp_icv)) then Err ErrKWP
    else
      let mli := uint32 (drop_bytes 4 a) in
      if (Z.of_nat (n * 8) <? mli)%Z || (mli <=? Z.of_nat ((n - 1) * 8))%Z then Err ErrKWP
      else if AllBytes is_zero_byte (drop_bytes (Z.to_nat mli) r) then Ok (take_bytes (Z.to_nat mli) r)
      else Err ErrKWP.

End kwp.

(** ** Unwrapping undoes wrapping *)

Definition block8 (b : string) : Prop := len b = 8.

Lemma blocks8_len n s : length (blocks8 n s) = n.
Proof. revert s. induction n as [|n IH]; intros s; [done|]. cbn. by rewrite IH. Qed.

Lemma blocks8_all n s : len s = 8 * n → Forall block8 (blocks8 n s).
Proof.
  revert s. induction n as [|n IH]; intros s Hs; [constructor|]. constructor.
  - unfold block8. rewrite take_bytes_len. lia.
  - apply IH. rewrite drop_bytes_length. lia.
Qed.

Lemma concat_blocks8 n s : len s = 8 * n → concat_bytes (blocks8 n s) = s.
Proof.
  revert s. induction n as [|n IH]; intros s Hs; [by destruct s|]. cbn [blocks8 concat_bytes].
  rewrite IH by (rewrite drop_bytes_length; lia). apply take_drop_bytes.
Qed.

Lemma blocks8_concat l : Forall block8 l → blocks8 (length l) (concat_bytes l) = l.
Proof.
  induction 1 as [|b l Hb _ IH]; [done|]. cbn [length blocks8 concat_bytes]. rewrite <- Hb, take_len_app, <- (Nat.add_0_r (len b)), drop_len_app.
  cbn [drop_bytes]. by rewrite IH.
Qed.

Lemma concat_blocks_len l : Forall block8 l → len (concat_bytes l) = 8 * length l.
Proof. induction 1 as [|b l Hb _ IH]; [done|]. cbn. rewrite len_app, IH, Hb. lia. Qed.

Lemma zeros_len n : len (zeros n) = n.
Proof. induction n as [|n IH]; [done|]. unfold len in *. cbn. by rewrite IH. Qed.

Lemma zeros_all n : AllBytes is_zero_byte (zeros n) = true.
Proof. induction n as [|n IH]; [done|]. cbn. by rewrite IH. Qed.

Lemma lxor_u64 x t : (0 ≤ x < 2 ^ 64)%Z → (0 ≤ t < 2 ^ 64)%Z → (0 ≤ Z.lxor x t < 2 ^ 64)%Z.
Proof.
  intros Hx Ht. assert (∀ z, (0 ≤ z < 2 ^ 64)%Z → Z.land z (Z.ones 64) = z) as Hl
    by (intros z Hz; rewrite Z.land_ones by lia; apply Z.mod_small; lia).
  replace (Z.lxor x t) with (Z.land (Z.lxor x t) (Z.ones 64)); [rewrite Z.land_ones by lia; apply Z.mod_pos_bound; lia|].
  apply Z.bits_inj'. intros n Hn. rewrite Z.land_spec, !Z.lxor_spec, <- (Hl x Hx), <- (Hl t Ht), !Z.land_spec.
  by destruct (Z.testbit x n), (Z.testbit t n), (Z.testbit (Z.ones 64) n).
Qed.

Lemma turns_in_range n turn : turn ∈ kwp_turns n → turn.1 < n.
Proof.
  unfold kwp_turns. intros (l & Hin & (j & -> & Hj)%list_elem_of_fmap)%list_elem_of_join.
  apply list_elem_of_fmap in Hin as (i & -> & Hi%elem_of_seq). cbn. lia.
Qed.

Lemma split8 a r : len a = 8 → take_bytes 8 (a +:+ r) = a ∧ drop_bytes 8 (a +:+ r) = r.
Proof.
  intros Ha. rewrite <- Ha. split; [apply take_len_app|]. rewrite <- (Nat.add_0_r (len a)). apply drop_len_app.
Qed.

Section laws.
Context `{AL : AesLaws}.

Definition good (n : nat) (st : string * list string) : Prop := len st.1 = 8 ∧ length st.2 = n ∧ Forall block8 st.2.

Lemma turn_back kek n st turn :
  good n st → turn.1 < n → good n (kwp_wrap_turn kek st turn) ∧ kwp_unwrap_turn kek (kwp_wrap_turn kek st turn) turn = st.
Proof.
  destruct st as [a r], turn as [i t]. intros (Ha & Hn & Hr) Hi. cbn [fst snd kwp_wrap_turn] in *.
  destruct (lookup_lt_is_Some_2 r i ltac:(lia)) as [x Hx]. rewrite Hx. cbn [default from_option Datatypes.id]. pose proof (Forall_lookup_1 _ _ _ _ Hr Hx) as Hxl.
  set (b := aes_Encrypt kek (a +:+ x)). assert (len b = 16) as Hb by (apply aes_block; rewrite len_app, Ha, Hxl; done).
  assert (len (take_bytes 8 b) = 8) as Ht8 by (rewrite take_bytes_len; lia).
  assert (0 ≤ wrap_u64 t < 2 ^ 64)%Z as Htr by (apply Z.mod_pos_bound; lia).
  pose proof (lxor_u64 _ _ (uint64_range _ Ht8) Htr) as Hxor. split.
  - split_and!; cbn [fst snd]; [apply be_put_len|by rewrite length_insert|]. apply Forall_insert; [done|]. unfold block8. rewrite drop_bytes_length. lia.
  - cbn [kwp_unwrap_turn]. rewrite list_lookup_insert_eq by lia. cbn [default from_option Datatypes.id].
    assert (uint64 (put_uint64 (Z.lxor (uint64 (take_bytes 8 b)) (wrap_u64 t))) = Z.lxor (uint64 (take_bytes 8 b)) (wrap_u64 t)) as ->
      by (rewrite <- (app_nil_r (put_uint64 _)); by apply uint64_put).
    rewrite Z.lxor_assoc, Z.lxor_nilpotent, Z.lxor_0_r, put_uint64_uint64, take_drop_bytes by done.
    unfold b. rewrite aes_Decrypt_Encrypt by (rewrite len_app, Ha, Hxl; done).
    destruct (split8 a x Ha) as [-> ->].
    by rewrite list_insert_insert_eq, list_insert_id.
Qed.

Lemma turns_back kek n st turns :
  good n st → Forall (λ turn, turn.1 < n) turns →
  good n (foldl (kwp_wrap_turn kek) st turns) ∧
  foldl (kwp_unwrap_turn kek) (foldl (kwp_wrap_turn kek) st turns) (reverse turns) = st.
Proof.
  intros Hst Ht. revert st Hst. induction Ht as [|turn turns Hturn _ IH]; intros st Hst; [done|].
  destruct (turn_back kek n st turn Hst Hturn) as [Hg Hb]. destruct (IH _ Hg) as [Hg' Hb']. cbn [foldl].
  split; [done|]. rewrite reverse_cons, foldl_app. cbn [foldl]. by rewrite Hb'.
Qed.

(** What the checks of unwrapping make of the register and the blocks wrapping
    started from. *)
Lemma unpad p n :
  (0 < Z.of_nat (len p) ≤ 2 ^ 32 - 1)%Z → n = (len p + 7) / 8 →
  let a := kwp_icv +:+ put_uint32 (wrap_u32 (Z.of_nat (len p))) in
  let r := p +:+ zeros (n * 8 - len p) in
  bool_decide (take_bytes 4 a = kwp_icv) = true ∧ uint32 (drop_bytes 4 a) = Z.of_nat (len p) ∧
  ((Z.of_nat (n * 8) <? Z.of_nat (len p))%Z || (Z.of_nat (len p) <=? Z.of_nat ((n - 1) * 8))%Z) = false ∧
  take_bytes (len p) r = p ∧ AllBytes is_zero_byte (drop_bytes (len p) r) = true.
Proof.
  intros Hp Hn a r. assert (len p ≤ n * 8 ∧ (n - 1) * 8 < len p) as [Hle Hgt].
  { pose proof (Nat.div_mod_eq (len p + 7) 8). pose proof (Nat.mod_upper_bound (len p + 7) 8 ltac:(lia)). lia. }
  split_and!.
  - apply bool_decide_true. unfold a. change 4 with (len kwp_icv) at 1. apply take_len_app.
  - unfold a. change 4 with (len kwp_icv + 0). rewrite drop_len_app. cbn [drop_bytes]. rewrite <- (app_nil_r (put_uint32 _)).
    unfold wrap_u32. rewrite uint32_put by (apply Z.mod_pos_bound; lia). apply Z.mod_small. lia.
  - apply orb_false_iff. split; [apply Z.ltb_ge|apply Z.leb_gt]; lia.
  - apply take_len_app.
  - unfold r. rewrite <- (Nat.add_0_r (len p)) at 1. rewrite drop_len_app. apply zeros_all.
Qed.

Lemma kwp_icv_len p : len (kwp_icv +:+ put_uint32 p) = 8.
Proof. rewrite len_app. unfold put_uint32. by rewrite be_put_len. Qed.

(** Under a key AES takes, every key of 1 to 2^32-1 bytes wraps, and unwraps to
    itself. *)
Lemma unwrapKWP_wrapKWP kek p :
  aes_key_ok kek = true → (0 < Z.of_nat (len p) ≤ 2 ^ 32 - 1)%Z → ∃ c, wrapKWP kek p = Ok c ∧ unwrapKWP kek c = Ok p.
Proof.
  intros Hkek Hp. unfold wrapKWP, unwrapKWP. rewrite Hkek, (proj2 (Nat.eqb_neq (len p) 0)) by lia. rewrite (proj2 (Z.ltb_ge _ _)) by lia.
  cbn [orb negb]. set (n := (len p + 7) / 8). pose proof (unpad p n Hp eq_refl) as Hu. cbv zeta in Hu. cbv zeta.
  set (a := kwp_icv +:+ _) in *. set (r := p +:+ _) in *. destruct Hu as (Hicv & Hmli & Hbounds & Htake & Hzero).
  assert (len p ≤ n * 8 ∧ 1 ≤ n) as [Hle Hn1].
  { unfold n. pose proof (Nat.div_mod_eq (len p + 7) 8). pose proof (Nat.mod_upper_bound (len p + 7) 8 ltac:(lia)). lia. }
  assert (len r = 8 * n) as Hr by (unfold r; rewrite len_app, zeros_len; lia). assert (len a = 8) as Ha by apply kwp_icv_len.
  destruct (Nat.eqb_spec n 1) as [H1|Hne]; (eexists; split; [reflexivity|] || idtac).
  - rewrite H1 in *. assert (len (a +:+ r) = 16) as Har by (rewrite len_app, Ha, Hr; done).
    rewrite (aes_block kek (a +:+ r)) by done. cbn [Nat.ltb Nat.leb orb negb Nat.modulo Nat.eqb].
    rewrite aes_Decrypt_Encrypt by done. change (16 / 8 - 1 =? 1)%nat with true. cbv iota.
    rewrite (proj1 (split8 a r Ha)), (proj2 (split8 a r Ha)), Hicv, Hmli. cbn [negb]. change (16 / 8 - 1) with 1.
    rewrite Hbounds, Nat2Z.id, Hzero. by rewrite Htake.
  - destruct (turns_back kek n (a, blocks8 n r) (kwp_turns n)) as [(Ha' & Hl' & Hb') Hback].
    { split_and!; [done|apply blocks8_len|by apply blocks8_all]. }
    { apply Forall_forall. intros turn. apply turns_in_range. }
    destruct (foldl (kwp_wrap_turn kek) _ _) as [a' r'] eqn:Hfold. cbn [fst snd] in Ha', Hl', Hb'. eexists; split; [reflexivity|].
    assert (len (a' +:+ concat_bytes r') = 8 * (n + 1)) as Hlen by (rewrite len_app, concat_blocks_len by done; lia).
    rewrite Hlen, (proj2 (Nat.ltb_ge _ _)) by lia. rewrite (Nat.mul_comm 8), Nat.Div0.mod_mul, Nat.div_mul by lia. cbn [Nat.eqb orb negb].
    replace (n + 1 - 1) with n by lia. rewrite (proj2 (Nat.eqb_neq n 1)) by done.
    rewrite (proj1 (split8 a' _ Ha')), (proj2 (split8 a' _ Ha')).
    rewrite <- Hl' at 1. rewrite blocks8_concat by done. rewrite Hback. rewrite concat_blocks8 by done.
    by rewrite Hicv, Hmli, Hbounds, Nat2Z.id, Hzero, Htake.
Qed.

End laws.
