(* ===== verification/KmsImport.v ===== *)
(** * internal/service/kms: importing key material

    import.go (import jobs and ImportCryptoKeyVersion, with the client's
    WrapForImport) and trusted.go (key wrapping inside a single-tenant HSM). *)

From S2P Require Import Prelude GoLib ApiError Resource MetaStore Paging IamPolicy Handler GoCrypto GoBinary NetHttp KmsModel KmsNames KmsFilter KmsStore KmsVersions KmsKeys KmsCrypt KmsKwp.
From Stdlib Require Import Ascii.

Import strings time.

(** ** Import methods *)

Record importSpec := mkImportSpec { is_bits : nat; is_hash : hash; is_aes : bool }.

Definition importMethods (m : ImportMethod) : option importSpec :=
  match m with
  | RSA_OAEP_3072_SHA1_AES_256 => Some (mkImportSpec 3072 SHA1 true)
  | RSA_OAEP_4096_SHA1_AES_256 => Some (mkImportSpec 4096 SHA1 true)
  | RSA_OAEP_3072_SHA256_AES_256 => Some (mkImportSpec 3072 SHA256 true)
  | RSA_OAEP_4096_SHA256_AES_256 => Some (mkImportSpec 4096 SHA256 true)
  | RSA_OAEP_3072_SHA256 => Some (mkImportSpec 3072 SHA256 false)
  | RSA_OAEP_4096_SHA256 => Some (mkImportSpec 4096 SHA256 false)
  | IMPORT_METHOD_UNSPECIFIED | method_other _ => None
  end.

(** An ImportJob message. *)
Record pbImportJob := mkPbImportJob {
  pj_name : string;
  pj_method : ImportMethod;
  pj_level : ProtectionLevel;
  pj_create_time : timestamppb.Timestamp;
  pj_expire_time : timestamppb.Timestamp;
  pj_state : ImportJobState;
  pj_backend : string;
  pj_public_pem : string;
  pj_expire_event : option timestamppb.Timestamp
}.

Definition errBadWrappedKey : error := InvalidArgument.

Section material.
Context `{X : X509} `{OA : Oaep} `{AE : Aes}.

(** [importJob.key]: the size of the job's RSA key. *)
Definition ij_key (j : importJob) : res error nat :=
  match ParsePKCS8PrivateKey (ij_Private j) with
  | None => Err (Internal (Sentinel "stored key"))
  | Some (kind_rsa bits) => Ok bits
  | Some _ => Err (Internal (Sentinel "stored key is not RSA"))
  end.

Definition toImportJob (t : Time) (j : importJob) : res error pbImportJob :=
  _ ← ij_key j;
  match MarshalPKIXPublicKey (ij_Private j) with
  | None => Err (Internal (Sentinel "encode the public key"))
  | Some der =>
      let expire := timestamppb.New (Add (ij_Created j) importJobTTL) in
      Ok (mkPbImportJob (ij_Name j) (ij_Method j) (ij_protectionLevel j) (timestamppb.New (ij_Created j)) expire (ij_state j t)
            (ij_Backend j) (pem_Encode der) (if bool_decide (ij_state j t = JOB_EXPIRED) then Some expire else None))
  end.

(** A method the table does not have is the zero spec, whose hash panics; the
    jobs stored have one of the table's. *)
Definition unwrap (j : importJob) (wrapped : string) : res error string :=
  bits ← ij_key j;
  let n := rsa_Size bits in
  match importMethods (ij_Method j) with
  | None => Err errBadWrappedKey
  | Some spec =>
      if negb (is_aes spec) then from_option Ok (Err errBadWrappedKey) (DecryptOAEP (is_hash spec) (ij_Private j) wrapped)
      else if (len wrapped <=? n)%nat then Err errBadWrappedKey
      else match DecryptOAEP (is_hash spec) (ij_Private j) (take_bytes n wrapped) with
           | None => Err errBadWrappedKey
           | Some kek =>
               if negb (len kek =? 32)%nat then Err errBadWrappedKey
               else match unwrapKWP kek (drop_bytes n wrapped) with
                    | Err _ => Err errBadWrappedKey
                    | Ok pt => Ok pt
                    end
           end
  end.

(** An algorithm the table does not have is the zero spec, which nothing suits. *)
Definition importedMaterial (a : algo) (key : string) : res error string :=
  let spec := default (sym_spec PURPOSE_UNSPECIFIED 0) (algorithms a) in
  if (0 <? keyLen spec)%nat then if (len key =? keyLen spec)%nat then Ok key else Err InvalidArgument
  else match ParsePKCS8PrivateKey key with
       | None => Err InvalidArgument
       | Some kind =>
           let suits := match kind with
                        | kind_rsa bits => negb (rsaBits spec =? 0)%nat && (bits =? rsaBits spec)%nat
                        | kind_ecdsa c => bool_decide (is_Some (as_curve spec)) && bool_decide (c = as_curve spec)
                        | kind_ed25519 => ed25519 spec
                        | kind_other _ => false
                        end in
           if suits then Ok key else Err InvalidArgument
       end.

(** [WrapForImport], with the key it draws and what RSA reads of the random
    reader. *)
Definition WrapForImport (publicPEM : string) (method : ImportMethod) (key : string) (kek : option string) (rand : string) : res error string :=
  match importMethods method with
  | None => Err (Sentinel "import method is not implemented")
  | Some spec =>
      match pem_Decode publicPEM with
      | None => Err (Sentinel "not PEM")
      | Some (_, der) =>
          match ParsePKIXPublicKey der with
          | Some (kind_rsa _) =>
              if negb (is_aes spec) then from_option Ok (Err (Sentinel "rsa")) (EncryptOAEP (is_hash spec) der key rand)
              else match kek with
                   | None => Err ErrRand
                   | Some kek =>
                       match EncryptOAEP (is_hash spec) der kek rand with
                       | None => Err (Sentinel "rsa")
                       | Some wrappedKEK => wrapped ← wrapKWP kek key; Ok (wrappedKEK +:+ wrapped)
                       end
                   end
          | _ => Err (Sentinel "not RSA")
          end
      end
  end.

End material.

(** ** The handlers *)

Section import.
Context {S : Type} `{MSL : MetaStoreLaws S doc} `{NET : Net} `{UNI : Unicode} `{TJ : TokenJSON}.
Context `{X : X509} `{OA : Oaep} `{AE : Aes} `{CRC : Crc32}.

Abbreviation H := (M Env (Server S)).

Record CreateImportJobRequest := mkCreateImportJobRequest {
  cj_parent : string;
  cj_id : string;
  cj_method : ImportMethod;
  cj_level : ProtectionLevel;
  cj_backend : string
}.

Definition CreateImportJob (req : CreateImportJobRequest) : H pbImportJob :=
  lift (parseKeyRing (cj_parent req)) ;;
  refuse (negb (idRE (cj_id req))) InvalidArgument ;;
  let m := cj_method req in
  refuse (bool_decide (m = IMPORT_METHOD_UNSPECIFIED)) InvalidArgument ;;
  match importMethods m with
  | None => throw Unimplemented
  | Some spec =>
      refuse (bool_decide (cj_level req = PROTECTION_LEVEL_UNSPECIFIED)) InvalidArgument ;;
      level ← lift (protectionLevelOf (cj_level req));
      refuse (isExternal level) Unimplemented ;;
      refuse (negb (bool_decide (cj_backend req = "")) && negb (bool_decide (level = HSM_SINGLE_TENANT))) Unimplemented ;;
      let name := cj_parent req +:+ "/importJobs/" +:+ cj_id req in
      der ← draw (λ e, rand_key e (rsa_sign (is_bits spec) None false));
      load (T := keyRing) (dbKey ringPrefix (cj_parent req)) ;;
      existing ← get (T := importJob) (dbKey importJobPrefix name);
      refuse (bool_decide (is_Some existing)) AlreadyExists ;;
      t ← now;
      backend ← (if bool_decide (level = HSM_SINGLE_TENANT) then hsmBackend (cj_backend req) (cj_parent req) else mret "");
      let j := mkImportJob name m t der (storedLevel level) backend in
      put (dbKey importJobPrefix name) j ;;
      lift (toImportJob t j)
  end.

Definition GetImportJob (name : string) : H pbImportJob :=
  lift (parseImportJob name) ;;
  j ← load (T := importJob) (dbKey importJobPrefix name);
  t ← now;
  lift (toImportJob t j).

Definition importJobFilterFields : fieldSupport := [("state", ["="; "!="])].

(** The jobs a filter lists, each under its name as read here: the page renders
    these, not a second read. *)
Definition ListImportJobs (req : ListRequest) : H (ListResponse pbImportJob) :=
  lift (parseKeyRing (lr_parent req)) ;;
  filter ← lift (parseFilter (lr_filter req) importJobFilterFields);
  desc ← lift (parseOrderBy (lr_order_by req));
  load (T := keyRing) (dbKey ringPrefix (lr_parent req)) ;;
  names ← list_ importJobPrefix (lr_parent req);
  t ← now;
  jobs ← collect (λ n, j ← get (T := importJob) (dbKey importJobPrefix n);
                       mret (match j with
                             | Some j =>
                                 if listed_by filter (λ f, if bool_decide (f = "state") then Some (job_String (ij_state j t)) else None)
                                 then Some (n, j) else None
                             | None => None
                             end)) names;
  '(page, next) ← lift (orderedPage ("kms-importjobs:" +:+ lr_parent req +:+ "|filter=" +:+ lr_filter req) (jobs.*1) byName desc
                          (lr_page_token req) (lr_page_size req));
  out ← collect (λ n, match find (λ nj, bool_decide (nj.1 = n)) jobs with
                      | Some (_, j) => pj ← lift (toImportJob t j); mret (Some pj)
                      | None => mret None
                      end) page;
  mret (mkListResponse out next (wrap_i32 (Z.of_nat (length jobs)))).

(** A version imported at [t], numbered by its key. *)
Definition imported_version (k : cryptoKey) (t : Time) (mat : string) (a : algo) (job : string) (trusted : bool) : keyVersion :=
  mkKeyVersion (versionName (ck_Name k) (ck_Next k)) t mat (storedAlgorithm a) (ck_ProtectionLevel k) job t None zero zero "" "" "" trusted false.

Record ImportRequest := mkImportRequest {
  im_parent : string;
  im_job : string;
  im_version : string;
  im_wrapped : string;
  im_rsa_aes_wrapped : string;
  im_algorithm : algo;
  im_trusted_wrapping : bool
}.

(** The purpose of an algorithm a key can be imported for. *)
Definition import_purpose (a : algo) : res error Purpose :=
  if bool_decide (a = ALGORITHM_UNSPECIFIED) then Err InvalidArgument
  else match algorithmPurpose a with
       | Some p => if bool_decide (a = EXTERNAL_SYMMETRIC_ENCRYPTION) then Err Unimplemented else Ok p
       | None => Err Unimplemented
       end.

(** The new version, then its key with the next number. *)
Definition add_version (k : cryptoKey) (v : keyVersion) : H pbVersion :=
  put (dbKey versionPrefix (kv_Name v)) v ;;
  put (dbKey keyPrefix (ck_Name k)) (set_ck_Next k (ck_Next k + 1)) ;;
  mret (toVersion v).

Definition ImportCryptoKeyVersion (req : ImportRequest) : H pbVersion :=
  lift (parseCryptoKey (im_parent req)) ;;
  lift (parseImportJob (im_job req)) ;;
  refuse (negb (bool_decide (im_version req = ""))) Unimplemented ;;
  let wrapped := if (len (im_wrapped req) =? 0)%nat then im_rsa_aes_wrapped req else im_wrapped req in
  refuse (len wrapped =? 0)%nat InvalidArgument ;;
  let a := im_algorithm req in
  ap ← lift (import_purpose a);
  k ← load (T := cryptoKey) (dbKey keyPrefix (im_parent req));
  refuse (negb (bool_decide (ap = ck_purpose k))) InvalidArgument ;;
  j ← load (T := importJob) (dbKey importJobPrefix (im_job req));
  refuse (negb (bool_decide (ij_protectionLevel j = ck_protectionLevel k))) InvalidArgument ;;
  refuse (negb (bool_decide (ij_Backend j = ck_Backend k)) && bool_decide (ck_protectionLevel k = HSM_SINGLE_TENANT)) InvalidArgument ;;
  backendUsable k ;;
  when (im_trusted_wrapping req) (lift (trustedWrappingAllowed k)) ;;
  t ← now;
  refuse (negb (bool_decide (ij_state j t = JOB_ACTIVE))) FailedPrecondition ;;
  raw ← lift (unwrap j wrapped);
  mat ← lift (importedMaterial a raw);
  add_version k (imported_version k t mat a (ij_Name j) (im_trusted_wrapping req)).

(** ** Trusted wrapping (trusted.go) *)

Definition wrappingVersion (name : string) (trusted : bool) : H (keyVersion * cryptoKey) :=
  '(keyName, _) ← lift (parseCryptoKeyVersion name);
  k ← load (T := cryptoKey) (dbKey keyPrefix keyName);
  v ← load (T := keyVersion) (dbKey versionPrefix name);
  t ← now;
  let v := effective v t in
  refuse (negb (bool_decide (ck_purpose k = AES_WRAPPING)) || negb (bool_decide (kv_algorithm v = AES_256_KWP))
          || negb (bool_decide (ck_protectionLevel k = HSM_SINGLE_TENANT))) InvalidArgument ;;
  refuse (negb (bool_decide (state v = ENABLED))) FailedPrecondition ;;
  refuse (trusted && negb (kv_HsmTrusted v)) FailedPrecondition ;;
  mret (v, k).

(** The loop from the newest version down, [n] the number it is at. *)
Fixpoint newest_trusted (rec : string → H (keyVersion * cryptoKey)) (name : string) (n : nat) : H (keyVersion * cryptoKey) :=
  match n with
  | O => throw FailedPrecondition
  | Datatypes.S n' =>
      v ← get (T := keyVersion) (dbKey versionPrefix (versionName name (Z.of_nat n)));
      t ← now;
      match v with
      | Some v => if kv_HsmTrusted v && bool_decide (state (effective v t) = ENABLED) then rec (kv_Name v) else newest_trusted rec name n'
      | None => newest_trusted rec name n'
      end
  end.

Definition importing_body (rec : string → H (keyVersion * cryptoKey)) (name : string) : H (keyVersion * cryptoKey) :=
  match parseCryptoKey name with
  | Err _ =>
      '(v, k) ← wrappingVersion name true;
      portableInstance (ck_Backend k) ;;
      mret (v, k)
  | Ok _ =>
      k ← load (T := cryptoKey) (dbKey keyPrefix name);
      newest_trusted rec name (Z.to_nat (ck_Next k - 1))
  end.

(** A key's name calls it once more, with the name of one of its versions, which
    is not a key's. *)
Definition importingVersion (name : string) : H (keyVersion * cryptoKey) :=
  importing_body (importing_body (λ _, throw ErrFuel)) name.

Definition trustedMaterial (a : algo) : res error unit :=
  if (0 <? from_option kem 0 (algorithms a))%nat then Err Unimplemented else Ok tt.

(** The wrapped key and its checksum. *)
Definition ExportTrustedKeyWrappedCryptoKeyVersion (name wrappingKey : string) : H (string * Z) :=
  '(keyName, _) ← lift (parseCryptoKeyVersion name);
  refuse (bool_decide (wrappingKey = "")) InvalidArgument ;;
  k ← load (T := cryptoKey) (dbKey keyPrefix keyName);
  v ← load (T := keyVersion) (dbKey versionPrefix name);
  t ← now;
  let v := effective v t in
  refuse (negb (kv_TrustedWrapping v)) FailedPrecondition ;;
  refuse (negb (bool_decide (state v = ENABLED))) FailedPrecondition ;;
  portableInstance (ck_Backend k) ;;
  '(w, wk) ← wrappingVersion wrappingKey true;
  portableInstance (ck_Backend wk) ;;
  lift (trustedMaterial (kv_algorithm v)) ;;
  match wrapKWP (kv_Material w) (kv_Material v) with
  | Err err => throw (Internal err)
  | Ok wrapped => mret (wrapped, crc32c wrapped)
  end.

Record ImportTrustedRequest := mkImportTrustedRequest {
  it_parent : string;
  it_importing_key : string;
  it_version : string;
  it_wrapped : string;
  it_algorithm : algo
}.

Definition ImportTrustedKeyWrappedCryptoKeyVersion (req : ImportTrustedRequest) : H pbVersion :=
  lift (parseCryptoKey (it_parent req)) ;;
  refuse (bool_decide (it_importing_key req = "")) InvalidArgument ;;
  refuse (negb (bool_decide (it_version req = ""))) Unimplemented ;;
  refuse (len (it_wrapped req) =? 0)%nat InvalidArgument ;;
  let a := it_algorithm req in
  ap ← lift (import_purpose a);
  lift (trustedMaterial a) ;;
  k ← load (T := cryptoKey) (dbKey keyPrefix (it_parent req));
  refuse (negb (bool_decide (ap = ck_purpose k))) InvalidArgument ;;
  lift (trustedWrappingAllowed k) ;;
  portableInstance (ck_Backend k) ;;
  '(w, _) ← importingVersion (it_importing_key req);
  match unwrapKWP (kv_Material w) (it_wrapped req) with
  | Err _ => throw InvalidArgument
  | Ok raw =>
      mat ← lift (importedMaterial a raw);
      t ← now;
      add_version k (imported_version k t mat a "" true)
  end.

(** [upgradeTrust] *)
Definition upgradeTrust (name : string) : H unit :=
  v ← load (T := keyVersion) (dbKey versionPrefix name);
  put (dbKey versionPrefix name) (set_kv_HsmTrusted v true).

End import.
