(* ===== verification/KmsHsm.v ===== *)
(** * internal/service/kms: single-tenant HSM instances

    hsm.go (instances, and the proposals a quorum of their administrators
    approves) and trusted.go's check of an upgrade.  Challenges are drawn in the
    order the code draws them. *)

From S2P Require Import Prelude GoLib ApiError Resource MetaStore Paging IamPolicy Handler GoCrypto GoBinary NetHttp KmsModel KmsNames KmsFilter KmsStore KmsVersions KmsKeys KmsCrypt KmsKwp KmsImport.
From Stdlib Require Import Ascii.

Import strings time.

Definition hsmUnrefreshed : Duration := (730 * 24 * Hour)%Z.
Definition hsmMinApprovers : Z := 3%Z.
Definition hsmMaxApprovers : Z := 16%Z.
Definition proposalDefaultTTL : Duration := (24 * Hour)%Z.
Definition proposalMinTTL : Duration := (5 * Minute)%Z.
Definition proposalMaxTTL : Duration := (7 * 24 * Hour)%Z.

(** ** Messages *)

Record pbInstance := mkPbInstance {
  pi_name : string;
  pi_create_time : timestamppb.Timestamp;
  pi_state : InstanceState;
  pi_total : Z;
  pi_required : Z;
  pi_pems : list string;
  pi_portability : bool;
  pi_delete_time : option timestamppb.Timestamp;
  pi_disable_time : option timestamppb.Timestamp
}.

Definition some_time (t : Time) : option timestamppb.Timestamp := if IsZero t then None else Some (timestamppb.New t).

Definition instance_proto (i : hsmInstance) : pbInstance :=
  mkPbInstance (hi_Name i) (timestamppb.New (hi_Created i)) (hi_State i) (wrap_i32 (hi_Total i)) (wrap_i32 (hi_Required i))
    (hi_Pems i) (hi_Portability i) (some_time (hi_Deleted i)) (some_time (hi_DisableAt i)).

(** An operation and an expiration, as a proposal carries them. *)
Inductive Proposed :=
| RegisterTwoFactorAuthKeys (required : Z) (pems : list string)
| DisableSingleTenantHsmInstance
| EnableSingleTenantHsmInstance
| DeleteSingleTenantHsmInstance
| AddQuorumMember (pem : string)
| RemoveQuorumMember (pem : string)
| RefreshSingleTenantHsmInstance
| UpgradeKeyTrust (version pem : string).

Inductive Expiration := Ttl (d : durationpb.Duration) | ExpireTime (t : timestamppb.Timestamp).

Definition challengesProto (cs : list hsmChallenge) : list (string * string) * list string :=
  ((λ c, (hc_Challenge c, hc_Pem c)) <$> cs, hc_Pem <$> base.filter (λ c, hc_Approved c = true) cs).

Inductive ApprovalParameters :=
| QuorumParameters (required : Z) (challenges : list (string * string)) (approved : list string)
| RequiredActionQuorumParameters (must : list (string * string)) (required : Z) (challenges : list (string * string)) (approved : list string).

Record pbProposal := mkPbProposal {
  pp_name : string;
  pp_create_time : timestamppb.Timestamp;
  pp_state : ProposalState;
  pp_failure : option error;
  pp_expire_time : timestamppb.Timestamp;
  pp_delete_time : option timestamppb.Timestamp;
  pp_purge_time : option timestamppb.Timestamp;
  pp_parameters : ApprovalParameters;
  pp_operation : Proposed
}.

Definition proposal_operation (p : hsmProposal) : Proposed :=
  match hp_Op p with
  | opRegister => RegisterTwoFactorAuthKeys (wrap_i32 (hp_RegisterRequired p)) (hp_RegisterPems p)
  | opDisable => DisableSingleTenantHsmInstance
  | opEnable => EnableSingleTenantHsmInstance
  | opDelete => DeleteSingleTenantHsmInstance
  | opAdd => AddQuorumMember (hp_MemberPem p)
  | opRemove => RemoveQuorumMember (hp_MemberPem p)
  | opRefresh => RefreshSingleTenantHsmInstance
  | opUpgrade => UpgradeKeyTrust (hp_Version p) (hp_MemberPem p)
  end.

Definition proposal_proto (p : hsmProposal) : pbProposal :=
  let '(quorum, approved) := challengesProto (hp_Quorum p) in
  let '(must, mustApproved) := challengesProto (hp_Must p) in
  mkPbProposal (hp_Name p) (timestamppb.New (hp_Created p)) (hp_State p) (hp_Failure p) (timestamppb.New (hp_Expire p))
    (some_time (hp_Deleted p)) (some_time (hp_Purge p))
    (if (0 <? length (hp_Must p))%nat then RequiredActionQuorumParameters must (wrap_i32 (hp_Required p)) quorum (mustApproved ++ approved)
     else QuorumParameters (wrap_i32 (hp_Required p)) quorum approved)
    (proposal_operation p).

(** ** Two-factor keys *)

Section two_factor.
Context `{X : X509} `{RP : RsaPublic} `{HA : Hashes}.

(** [twoFactorKey]: the key's canonical DER. *)
Definition twoFactorKey (p : string) : res error string :=
  match pem_Decode p with
  | None => Err InvalidArgument
  | Some (t, bytes) =>
      if negb (bool_decide (t = "PUBLIC KEY")) && negb (bool_decide (t = "RSA PUBLIC KEY")) then Err InvalidArgument
      else match rsa_public t bytes with
           | None => Err InvalidArgument
           | Some (kind, der) => if bool_decide (kind = kind_rsa 2048) then Ok der else Err InvalidArgument
           end
  end.

Definition samePem (a b : string) : bool :=
  match twoFactorKey a, twoFactorKey b with
  | Ok x, Ok y => bool_decide (x = y)
  | _, _ => false
  end.

(** The distinct keys of a register_2fa_keys: the first that does not parse or
    repeats one is refused. *)
Fixpoint distinct_keys (seen : list string) (pems : list string) : res error unit :=
  match pems with
  | [] => Ok tt
  | k :: rest =>
      der ← twoFactorKey k;
      if bool_decide (der ∈ seen) then Err InvalidArgument else distinct_keys (der :: seen) rest
  end.

Record ChallengeReply := mkChallengeReply { cr_signed_challenge : string; cr_public_key_pem : string }.

(** The last challenge of the key, from the index [j] on. *)
Fixpoint challenge_at (der : string) (j : nat) (found : option nat) (cs : list hsmChallenge) : option nat :=
  match cs with
  | [] => found
  | c :: rest =>
      challenge_at der (S j)
        (match twoFactorKey (hc_Pem c) with Ok d => if bool_decide (d = der) then Some j else found | Err _ => found end) rest
  end.

Definition verifyReply (cs : list hsmChallenge) (r : ChallengeReply) : res error nat :=
  if (len (cr_signed_challenge r) =? 0)%nat then Err InvalidArgument
  else
    der ← twoFactorKey (cr_public_key_pem r);
    match challenge_at der 0 None cs with
    | None => Err InvalidArgument
    | Some at_ =>
        match cs !! at_ with
        | None => Err InvalidArgument
        | Some c =>
            if VerifyPKCS1v15_SHA256 der (hash_Sum SHA256 (hc_Challenge c)) (cr_signed_challenge r) then Ok at_ else Err InvalidArgument
        end
    end.

(** The indexes of the challenges the replies sign. *)
Fixpoint verifyReplies (replies : list ChallengeReply) (cs : list hsmChallenge) : res error (list nat) :=
  match replies with
  | [] => Ok []
  | r :: rest => at_ ← verifyReply cs r; out ← verifyReplies rest cs; Ok (at_ :: out)
  end.

End two_factor.

Definition countApproved (cs : list hsmChallenge) : Z := Z.of_nat (length (base.filter (λ c, hc_Approved c = true) cs)).

Definition approve (c : hsmChallenge) : hsmChallenge := mkHsmChallenge (hc_Challenge c) (hc_Pem c) true.
Definition approve_all (cs : list hsmChallenge) (at_ : list nat) : list hsmChallenge := foldl (λ cs j, alter approve j cs) cs at_.

Definition needState (op : ProposalOp) : list InstanceState :=
  match op with
  | opRegister => [PENDING_TWO_FACTOR_AUTH_REGISTRATION]
  | opEnable => [INSTANCE_DISABLED]
  | opDelete => [INSTANCE_DISABLED; PENDING_TWO_FACTOR_AUTH_REGISTRATION]
  | _ => [INSTANCE_ACTIVE]
  end.

Definition hsmFilterFields : fieldSupport := [("name", ["="; "!="; ":"]); ("state", ["="; "!="])].

(** ** The handlers *)

Section hsm.
Context {S : Type} `{MSL : MetaStoreLaws S doc} `{NET : Net} `{UNI : Unicode} `{TJ : TokenJSON}.
Context `{X : X509} `{RP : RsaPublic} `{HA : Hashes}.

Abbreviation H := (M Env (Server S)).

(** [checkOperation] *)
Definition checkOperation (i : hsmInstance) (p : hsmProposal) : res error unit :=
  if negb (bool_decide (hi_State i ∈ needState (hp_Op p))) then Err FailedPrecondition
  else match hp_Op p with
       | opRegister =>
           if negb (Z.of_nat (length (hp_RegisterPems p)) =? hi_Total i)%Z then Err InvalidArgument
           else if (hp_RegisterRequired p <? 2)%Z || (hi_Total i - 1 <? hp_RegisterRequired p)%Z then Err InvalidArgument
           else Ok tt
       | opAdd =>
           if existsb (λ k, samePem k (hp_MemberPem p)) (hi_Pems i) then Err FailedPrecondition
           else if (hsmMaxApprovers <? hi_Total i + 1)%Z then Err FailedPrecondition else Ok tt
       | opRemove =>
           if negb (existsb (λ k, samePem k (hp_MemberPem p)) (hi_Pems i)) then Err FailedPrecondition
           else if (hi_Total i - 1 <? hsmMinApprovers)%Z || (hi_Total i - 2 <? hi_Required i)%Z then Err FailedPrecondition
           else Ok tt
       | _ => Ok tt
       end.

(** [checkUpgrade] (trusted.go) *)
Definition checkUpgrade (i : hsmInstance) (p : hsmProposal) : H unit :=
  '(v, k) ← wrappingVersion (hp_Version p) false;
  refuse (negb (bool_decide (ck_Backend k = hi_Name i))) InvalidArgument ;;
  refuse (kv_HsmTrusted v) FailedPrecondition ;;
  refuse (negb (hi_Portability i)) FailedPrecondition ;;
  refuse (negb (existsb (λ pem, samePem pem (hp_MemberPem p)) (hi_Pems i))) InvalidArgument.

(** [checkProposal] *)
Definition checkProposal (i : hsmInstance) (p : hsmProposal) : H unit :=
  lift (checkOperation i p) ;;
  when (bool_decide (hp_Op p = opUpgrade)) (checkUpgrade i p).

Definition loadInstance (name : string) : H hsmInstance :=
  i ← load (T := hsmInstance) (dbKey hsmInstancePrefix name);
  t ← now;
  mret (hi_effective i t).

(** A proposal purged after deletion is absent. *)
Definition getProposal (name : string) : H (option hsmProposal) :=
  p ← get (T := hsmProposal) (dbKey hsmProposalPrefix name);
  t ← now;
  mret (match p with
        | Some p => if bool_decide (hp_State p = PROPOSAL_DELETED) && negb (Before t (hp_Purge p)) then None else Some p
        | None => None
        end).

Definition loadProposal (name : string) : H hsmProposal :=
  p ← getProposal name;
  match p with Some p => mret p | None => throw NotFound end.

(** [quorum_auth] absent is [None]. *)
Definition CreateSingleTenantHsmInstance (parent id : string) (total : option Z) (portability : bool) : H Operation :=
  lift (parseLocation parent) ;;
  uuid ← ask new_uuid;
  let id := if bool_decide (id = "") then uuid else id in
  refuse (negb (idRE id)) InvalidArgument ;;
  match total with
  | None => throw InvalidArgument
  | Some n =>
      refuse ((n <? hsmMinApprovers)%Z || (hsmMaxApprovers <? n)%Z) InvalidArgument ;;
      let name := parent +:+ "/singleTenantHsmInstances/" +:+ id in
      existing ← get (T := hsmInstance) (dbKey hsmInstancePrefix name);
      refuse (bool_decide (is_Some existing)) AlreadyExists ;;
      t ← now;
      put (dbKey hsmInstancePrefix name)
        (mkHsmInstance name t PENDING_TWO_FACTOR_AUTH_REGISTRATION n 0 [] zero (Add t hsmUnrefreshed) portability) ;;
      doneOp parent None
  end.

Definition GetSingleTenantHsmInstance (name : string) : H pbInstance :=
  lift (parseHsmInstance name) ;;
  i ← loadInstance name;
  mret (instance_proto i).

Definition hsm_fields (name state f : string) : option string :=
  if bool_decide (f = "name") then Some name else if bool_decide (f = "state") then Some state else None.

(** The elements a listing keeps, each under its name; the page renders these. *)
Definition rendered {T B} (kept : list (string * T)) (render : T → B) (page : list string) : list B :=
  omap (λ n, render ∘ snd <$> find (λ nj, bool_decide (nj.1 = n)) kept) page.

Definition ListSingleTenantHsmInstances (req : ListRequest) (showDeleted : bool) : H (ListResponse pbInstance) :=
  lift (parseLocation (lr_parent req)) ;;
  filter ← lift (parseFilter (lr_filter req) hsmFilterFields);
  desc ← lift (parseOrderBy (lr_order_by req));
  names ← list_ hsmInstancePrefix (lr_parent req);
  kept ← collect (λ n, i ← loadInstance n;
                       mret (if bool_decide (hi_State i = INSTANCE_DELETED) && negb showDeleted then None
                             else if listed_by filter (hsm_fields (hi_Name i) (instance_String (hi_State i))) then Some (n, i) else None)) names;
  '(page, next) ← lift (orderedPage ("kms-hsm:" +:+ lr_parent req +:+ "|filter=" +:+ lr_filter req) (kept.*1) byName desc
                          (lr_page_token req) (lr_page_size req));
  mret (mkListResponse (rendered kept instance_proto page) next
          (if bool_decide (is_Some filter) then 0%Z else wrap_i32 (Z.of_nat (length kept)))).

Definition HsmInstancesInProject (project : string) : H (list pbInstance) :=
  lift (parseLocation ("projects/" +:+ project +:+ "/locations/global")) ;;
  names ← list_ hsmInstancePrefix ("projects/" +:+ project +:+ "/locations");
  collect (λ n, i ← loadInstance n; mret (Some (instance_proto i))) names.

(** *** Proposals *)

Definition blank_proposal (name : string) (t : Time) (op : ProposalOp) : hsmProposal :=
  mkHsmProposal name t PROPOSAL_PENDING None op 0 [] "" "" 0 [] [] zero zero zero.

Definition set_hp_Member (p : hsmProposal) (pem version : string) : hsmProposal :=
  mkHsmProposal (hp_Name p) (hp_Created p) (hp_State p) (hp_Failure p) (hp_Op p) (hp_RegisterRequired p) (hp_RegisterPems p) pem
    version (hp_Required p) (hp_Quorum p) (hp_Must p) (hp_Expire p) (hp_Deleted p) (hp_Purge p).
Definition set_hp_Register (p : hsmProposal) (required : Z) (pems : list string) : hsmProposal :=
  mkHsmProposal (hp_Name p) (hp_Created p) (hp_State p) (hp_Failure p) (hp_Op p) required pems (hp_MemberPem p)
    (hp_Version p) (hp_Required p) (hp_Quorum p) (hp_Must p) (hp_Expire p) (hp_Deleted p) (hp_Purge p).
Definition set_hp_Expire (p : hsmProposal) (t : Time) : hsmProposal :=
  mkHsmProposal (hp_Name p) (hp_Created p) (hp_State p) (hp_Failure p) (hp_Op p) (hp_RegisterRequired p) (hp_RegisterPems p) (hp_MemberPem p)
    (hp_Version p) (hp_Required p) (hp_Quorum p) (hp_Must p) t (hp_Deleted p) (hp_Purge p).

(** The switch over the operation of a new proposal. *)
Definition new_proposal (name : string) (t : Time) (op : option Proposed) : res error hsmProposal :=
  match op with
  | Some (RegisterTwoFactorAuthKeys required pems) =>
      _ ← distinct_keys [] pems; Ok (set_hp_Register (blank_proposal name t opRegister) required pems)
  | Some DisableSingleTenantHsmInstance => Ok (blank_proposal name t opDisable)
  | Some EnableSingleTenantHsmInstance => Ok (blank_proposal name t opEnable)
  | Some DeleteSingleTenantHsmInstance => Ok (blank_proposal name t opDelete)
  | Some (AddQuorumMember pem) => _ ← twoFactorKey pem; Ok (set_hp_Member (blank_proposal name t opAdd) pem "")
  | Some (RemoveQuorumMember pem) => _ ← twoFactorKey pem; Ok (set_hp_Member (blank_proposal name t opRemove) pem "")
  | Some RefreshSingleTenantHsmInstance => Ok (blank_proposal name t opRefresh)
  | Some (UpgradeKeyTrust version pem) =>
      _ ← parseCryptoKeyVersion version;
      _ ← twoFactorKey pem;
      Ok (set_hp_Member (blank_proposal name t opUpgrade) pem version)
  | None => Err InvalidArgument
  end.

Definition proposal_ttl (t : Time) (e : option Expiration) : res error Duration :=
  ttl ← match e with
        | None => Ok proposalDefaultTTL
        | Some (Ttl d) => if durationpb.CheckValid d then Ok (durationpb.AsDuration d) else Err InvalidArgument
        | Some (ExpireTime x) => if timestamppb.CheckValid x then Ok (Sub (timestamppb.AsTime x) t) else Err InvalidArgument
        end;
  if (ttl <? proposalMinTTL)%Z || (proposalMaxTTL <? ttl)%Z then Err InvalidArgument else Ok ttl.

(** The first other proposal that is active refuses. *)
Fixpoint none_active (t : Time) (names : list string) : H unit :=
  match names with
  | [] => mret tt
  | n :: rest =>
      o ← getProposal n;
      refuse (match o with Some o => active o t | None => false end) FailedPrecondition ;;
      none_active t rest
  end.

(** Challenges from the [n]th of the step on. *)
Fixpoint newChallenges (n : nat) (pems : list string) : H (list hsmChallenge) :=
  match pems with
  | [] => mret []
  | p :: rest =>
      b ← draw (λ e, rand_challenge e n);
      cs ← newChallenges (Datatypes.S n) rest;
      mret (mkHsmChallenge b p false :: cs)
  end.

(** The message is absent when [op] is [None] and there is no operation in it
    otherwise: both are refused alike. *)
Definition CreateSingleTenantHsmInstanceProposal (parent id : string) (op : option Proposed) (expiration : option Expiration) : H Operation :=
  loc ← lift (parseHsmInstance parent);
  uuid ← ask new_uuid;
  let id := if bool_decide (id = "") then uuid else id in
  refuse (negb (idRE id)) InvalidArgument ;;
  t ← now;
  p ← lift (new_proposal (parent +:+ "/proposals/" +:+ id) t op);
  ttl ← lift (proposal_ttl t expiration);
  let p := set_hp_Expire p (Add t ttl) in
  i ← loadInstance parent;
  checkProposal i p ;;
  existing ← getProposal (hp_Name p);
  refuse (bool_decide (is_Some existing)) AlreadyExists ;;
  others ← list_ hsmProposalPrefix parent;
  none_active t others ;;
  let '(keys, required) := if bool_decide (hp_Op p = opRegister) then (hp_RegisterPems p, Z.of_nat (length (hp_RegisterPems p)))
                           else (hi_Pems i, hi_Required i) in
  let p := set_hp_Required p required in
  quorum ← newChallenges 0 keys;
  let p := set_hp_Quorum p quorum in
  must ← (if bool_decide (hp_Op p = opAdd) || bool_decide (hp_Op p = opUpgrade) then newChallenges (length keys) [hp_MemberPem p] else mret []);
  let p := set_hp_Must p must in
  put (dbKey hsmProposalPrefix (hp_Name p)) p ;;
  doneOp loc None.

Definition GetSingleTenantHsmInstanceProposal (name : string) : H pbProposal :=
  lift (parseHsmProposal name) ;;
  p ← loadProposal name;
  mret (proposal_proto p).

Definition ListSingleTenantHsmInstanceProposals (req : ListRequest) (showDeleted : bool) : H (ListResponse pbProposal) :=
  lift (parseHsmInstance (lr_parent req)) ;;
  filter ← lift (parseFilter (lr_filter req) hsmFilterFields);
  desc ← lift (parseOrderBy (lr_order_by req));
  loadInstance (lr_parent req) ;;
  names ← list_ hsmProposalPrefix (lr_parent req);
  kept ← collect (λ n, p ← getProposal n;
                       mret (match p with
                             | None => None
                             | Some p =>
                                 if bool_decide (hp_State p = PROPOSAL_DELETED) && negb showDeleted then None
                                 else if listed_by filter (hsm_fields (hp_Name p) (proposal_String (hp_State p))) then Some (n, p) else None
                             end)) names;
  '(page, next) ← lift (orderedPage ("kms-hsmproposals:" +:+ lr_parent req +:+ "|filter=" +:+ lr_filter req) (kept.*1) byName desc
                          (lr_page_token req) (lr_page_size req));
  mret (mkListResponse (rendered kept proposal_proto page) next
          (if bool_decide (is_Some filter) then 0%Z else wrap_i32 (Z.of_nat (length kept)))).

Inductive ApprovalPayload :=
| QuorumReply (replies : list ChallengeReply)
| RequiredActionQuorumReply (required quorum : list ChallengeReply).

(** The challenges a payload signs, of the quorum and of the required ones: the
    payload must be of the kind of the proposal's parameters. *)
Definition verified (p : hsmProposal) (payload : option ApprovalPayload) : res error (list nat * list nat) :=
  match payload with
  | Some (QuorumReply replies) =>
      if (0 <? length (hp_Must p))%nat then Err InvalidArgument
      else if (length replies =? 0)%nat then Err InvalidArgument
      else quorum ← verifyReplies replies (hp_Quorum p); Ok (quorum, [])
  | Some (RequiredActionQuorumReply required replies) =>
      if (length (hp_Must p) =? 0)%nat then Err InvalidArgument
      else if (length required + length replies =? 0)%nat then Err InvalidArgument
      else must ← verifyReplies required (hp_Must p); quorum ← verifyReplies replies (hp_Quorum p); Ok (quorum, must)
  | None => Err InvalidArgument
  end.

(** The proposal with the verified replies recorded. *)
Definition recorded (p : hsmProposal) (quorum must : list nat) : hsmProposal :=
  let p := set_hp_Must (set_hp_Quorum p (approve_all (hp_Quorum p) quorum)) (approve_all (hp_Must p) must) in
  if (hp_Required p <=? countApproved (hp_Quorum p))%Z && (countApproved (hp_Must p) =? Z.of_nat (length (hp_Must p)))%Z
  then set_hp_State p PROPOSAL_APPROVED else p.

Definition ApproveSingleTenantHsmInstanceProposal (name : string) (payload : option ApprovalPayload) : H unit :=
  lift (parseHsmProposal name) ;;
  p ← loadProposal name;
  refuse (negb (bool_decide (hp_State p = PROPOSAL_PENDING))) FailedPrecondition ;;
  t ← now;
  refuse (negb (Before t (hp_Expire p))) FailedPrecondition ;;
  '(quorum, must) ← lift (verified p payload);
  put (dbKey hsmProposalPrefix (hp_Name p)) (recorded p quorum must).

(** What executing the proposal makes of its instance. *)
Definition executed (i : hsmInstance) (p : hsmProposal) (t : Time) : hsmInstance :=
  match hp_Op p with
  | opRegister =>
      set_hi_DisableAt (set_hi_State (set_hi_Required (set_hi_Pems i (hp_RegisterPems p)) (hp_RegisterRequired p)) INSTANCE_ACTIVE)
        (Add t hsmUnrefreshed)
  | opDisable => set_hi_State i INSTANCE_DISABLED
  | opEnable => set_hi_DisableAt (set_hi_State i INSTANCE_ACTIVE) (Add t hsmUnrefreshed)
  | opDelete => set_hi_Deleted (set_hi_State i INSTANCE_DELETED) t
  | opAdd => set_hi_Total (set_hi_Pems i (hi_Pems i ++ [hp_MemberPem p])) (hi_Total i + 1)
  | opRemove =>
      let keep := base.filter (λ k, samePem k (hp_MemberPem p) = false) (hi_Pems i) in
      set_hi_Total (set_hi_Pems i keep) (Z.of_nat (length keep))
  | opRefresh => set_hi_DisableAt i (Add t hsmUnrefreshed)
  | opUpgrade => i
  end.

(** [hsmProposal.instance] *)
Definition proposal_instance (p : hsmProposal) : res error string := BeforeIndex (hp_Name p) "/proposals/".

Definition ExecuteSingleTenantHsmInstanceProposal (name : string) : H Operation :=
  loc ← lift (parseHsmProposal name);
  p ← loadProposal name;
  refuse (negb (bool_decide (hp_State p = PROPOSAL_APPROVED))) FailedPrecondition ;;
  t ← now;
  refuse (negb (Before t (hp_Expire p))) FailedPrecondition ;;
  instance ← lift (proposal_instance p);
  i ← loadInstance instance;
  checked ← attempt (checkProposal i p);
  match checked with
  | Err err =>
      put (dbKey hsmProposalPrefix (hp_Name p)) (set_hp_Failure (set_hp_State p PROPOSAL_FAILED) (Some err)) ;;
      doneOp loc (Some err)
  | Ok _ =>
      when (bool_decide (hp_Op p = opUpgrade)) (upgradeTrust (hp_Version p)) ;;
      put (dbKey hsmInstancePrefix (hi_Name i)) (executed i p t) ;;
      put (dbKey hsmProposalPrefix (hp_Name p)) (set_hp_State p PROPOSAL_SUCCEEDED) ;;
      doneOp loc None
  end.

Definition DeleteSingleTenantHsmInstanceProposal (name : string) : H unit :=
  lift (parseHsmProposal name) ;;
  p ← loadProposal name;
  refuse (bool_decide (hp_State p = PROPOSAL_DELETED)) FailedPrecondition ;;
  t ← now;
  let purge := if Before (hp_Expire p) t then t else hp_Expire p in
  put (dbKey hsmProposalPrefix (hp_Name p)) (set_hp_Purge (set_hp_Deleted (set_hp_State p PROPOSAL_DELETED) t) purge).

End hsm.
