(* ===== verification/KmsEkm.v ===== *)
(** * internal/service/kms: external key managers and IAM policies

    ekm.go (EkmConnections and the EkmConfig of a location) and iam.go. *)

From S2P Require Import Prelude GoLib ApiError Resource MetaStore Paging IamPolicy Handler GoCrypto NetHttp KmsModel KmsNames KmsFilter KmsStore KmsVersions KmsKeys.
From Stdlib Require Import Ascii.

Import strings time.

Definition maxServerCertificates : nat := 10.

(** [sdServiceRE] *)
Definition sdServiceRE (s : string) : bool :=
  match Split s slash with
  | [a; p; b; l; c; n; d; v] =>
      bool_decide ([a; b; c; d] = ["projects"; "locations"; "namespaces"; "services"]) && forallb (λ x, negb (bool_decide (x = ""))) [p; l; n; v]
  | _ => false
  end.

(** The JSON text of a record, which an etag hashes. *)
Class JsonText := json_text : doc → string.

(** What [x509.ParseCertificate] tells of a certificate. *)
Record Certificate := mkCertificate {
  ct_issuer : string;
  ct_subject : string;
  ct_dns_names : list string;
  ct_not_before : Time;
  ct_not_after : Time;
  ct_serial_hex : string
}.
Class Certificates := ParseCertificate : string → option Certificate.

(** ** Messages *)

(** A certificate as it is returned: its DER, and its fields and fingerprint
    when it parses. *)
Record pbCertificate := mkPbCertificate { pc_raw_der : string; pc_parsed : option (Certificate * string) }.

Record pbResolver := mkPbResolver { ps_service : string; ps_filter : string; ps_hostname : string; ps_certs : list string }.

Record pbConnection := mkPbConnection {
  pe_name : string;
  pe_create_time : timestamppb.Timestamp;
  pe_etag : string;
  pe_mode : EkmMode;
  pe_crypto_space : string;
  pe_resolvers : list (pbResolver * list pbCertificate)
}.

(** The fields of an EkmConnection a request sets. *)
Record EkmInput := mkEkmInput {
  ei_name : string;
  ei_resolvers : list pbResolver;
  ei_mode : EkmMode;
  ei_crypto_space : string;
  ei_etag : string
}.

Section ekm_values.
Context `{CR : Crypto} `{JT : JsonText} `{CE : Certificates}.

Definition ec_etag (c : ekmConnection) : string :=
  take_bytes 16 (sha256_hex (json_text (DConnection (set_ec_IAMPolicy c None)))).

Definition certificate (der : string) : pbCertificate :=
  mkPbCertificate der
    ((λ c, (mkCertificate (ct_issuer c) (ct_subject c) (ct_dns_names c) (ct_not_before c) (ct_not_after c) (ToUpper (ct_serial_hex c)),
            ToUpper (sha256_hex der))) <$> ParseCertificate der).

Definition connection_proto (c : ekmConnection) : pbConnection :=
  mkPbConnection (ec_Name c) (timestamppb.New (ec_Created c)) (ec_etag c) (ec_mode c) (ec_CryptoSpace c)
    ((λ r, (mkPbResolver (er_Service r) (er_Filter r) (er_Hostname r) (er_Certs r), certificate <$> er_Certs r)) <$> ec_Resolvers c).

Definition resolver_of (r : pbResolver) : res error ekmResolver :=
  if negb (sdServiceRE (ps_service r)) then Err InvalidArgument
  else if bool_decide (ps_hostname r = "") then Err InvalidArgument
  else if (length (ps_certs r) =? 0)%nat || (maxServerCertificates <? length (ps_certs r))%nat then Err InvalidArgument
  else if existsb (λ der, (len der =? 0)%nat) (ps_certs r) then Err InvalidArgument
  else Ok (mkEkmResolver (ps_service r) (ps_filter r) (ps_hostname r) (ps_certs r)).

Definition resolversOf (rs : list pbResolver) : res error (list ekmResolver) :=
  match rs with
  | [] => Ok []
  | [r] => x ← resolver_of r; Ok [x]
  | _ => Err InvalidArgument
  end.

Definition checkCryptoSpace (c : ekmConnection) : res error unit :=
  if bool_decide (ec_mode c = CLOUD_KMS) && bool_decide (ec_CryptoSpace c = "") then Err InvalidArgument else Ok tt.

Definition storedMode (m : EkmMode) : option EkmMode := if bool_decide (m = MODE_UNSPECIFIED) then None else Some m.

(** What the mask of an update sets. *)
Record ekm_mask := mkEkmMask { em_resolvers : option (list ekmResolver); em_mode : bool; em_space : bool }.

Fixpoint ekm_mask_paths (input : EkmInput) (m : ekm_mask) (paths : list string) : res error ekm_mask :=
  match paths with
  | [] => Ok m
  | p :: rest =>
      m ← (if bool_decide (p = "service_resolvers") then
             r ← resolversOf (ei_resolvers input); Ok (mkEkmMask (Some r) (em_mode m) (em_space m))
           else if bool_decide (p = "key_management_mode") then Ok (mkEkmMask (em_resolvers m) true (em_space m))
           else if bool_decide (p = "crypto_space_path") then Ok (mkEkmMask (em_resolvers m) (em_mode m) true)
           else Err InvalidArgument);
      ekm_mask_paths input m rest
  end.

Definition masked_connection (c : ekmConnection) (input : EkmInput) (m : ekm_mask) : ekmConnection :=
  let c := from_option (set_ec_Resolvers c) c (em_resolvers m) in
  let c := if em_mode m then set_ec_Mode c (storedMode (ei_mode input)) else c in
  if em_space m then set_ec_CryptoSpace c (ei_crypto_space input) else c.

End ekm_values.

Section ekm.
Context {S : Type} `{MSL : MetaStoreLaws S doc} `{UNI : Unicode} `{TJ : TokenJSON}.
Context `{CR : Crypto} `{JT : JsonText} `{CE : Certificates}.

Abbreviation H := (M Env (Server S)).

Definition ekmFilterFields : fieldSupport := [("name", ["="; "!="; ":"])].

Definition CreateEkmConnection (parent id : string) (input : option EkmInput) : H pbConnection :=
  lift (parseLocation parent) ;;
  refuse (negb (idRE id)) InvalidArgument ;;
  match input with
  | None => throw InvalidArgument
  | Some input =>
      resolvers ← lift (resolversOf (ei_resolvers input));
      t ← now;
      let name := parent +:+ "/ekmConnections/" +:+ id in
      let c := mkEkmConnection name t resolvers (storedMode (ei_mode input)) (ei_crypto_space input) None in
      lift (checkCryptoSpace c) ;;
      existing ← get (T := ekmConnection) (dbKey ekmConnectionPrefix name);
      refuse (bool_decide (is_Some existing)) AlreadyExists ;;
      put (dbKey ekmConnectionPrefix name) c ;;
      mret (connection_proto c)
  end.

Definition GetEkmConnection (name : string) : H pbConnection :=
  lift (parseEkmConnection name) ;;
  c ← load (T := ekmConnection) (dbKey ekmConnectionPrefix name);
  mret (connection_proto c).

Definition ListEkmConnections (req : ListRequest) : H (ListResponse pbConnection) :=
  lift (parseLocation (lr_parent req)) ;;
  filter ← lift (parseFilter (lr_filter req) ekmFilterFields);
  desc ← lift (parseOrderBy (lr_order_by req));
  names ← list_ ekmConnectionPrefix (lr_parent req);
  let names := base.filter (λ n, listed_by filter (name_field n) = true) names in
  '(page, next) ← lift (orderedPage ("kms-ekm:" +:+ lr_parent req +:+ "|filter=" +:+ lr_filter req) names byName desc
                          (lr_page_token req) (lr_page_size req));
  cs ← page_of (T := ekmConnection) ekmConnectionPrefix (λ c, mret (connection_proto c)) page;
  mret (mkListResponse cs next (wrap_i32 (Z.of_nat (length names)))).

Definition EkmConnectionsInProject (project : string) : H (list pbConnection) :=
  lift (parseLocation ("projects/" +:+ project +:+ "/locations/global")) ;;
  names ← list_ ekmConnectionPrefix ("projects/" +:+ project +:+ "/locations");
  page_of (T := ekmConnection) ekmConnectionPrefix (λ c, mret (connection_proto c)) names.

Definition UpdateEkmConnection (input : EkmInput) (paths : list string) : H pbConnection :=
  lift (parseEkmConnection (ei_name input)) ;;
  refuse (bool_decide (paths = [])) InvalidArgument ;;
  m ← lift (ekm_mask_paths input (mkEkmMask None false false) paths);
  c ← load (T := ekmConnection) (dbKey ekmConnectionPrefix (ei_name input));
  refuse (negb (bool_decide (ei_etag input = "")) && negb (bool_decide (ei_etag input = ec_etag c))) Aborted ;;
  let c := masked_connection c input m in
  lift (checkCryptoSpace c) ;;
  put (dbKey ekmConnectionPrefix (ec_Name c)) c ;;
  mret (connection_proto c).

(** The config of a location: its name and its default connection. *)
Definition GetEkmConfig (name : string) : H (string * string) :=
  lift (parseEkmConfig name) ;;
  c ← get (T := ekmConfig) (dbKey ekmConfigPrefix name);
  let c := default (mkEkmConfig name "" None) c in
  mret (ef_Name c, ef_Default c).

Definition UpdateEkmConfig (name def : string) (paths : list string) : H (string * string) :=
  loc ← lift (parseEkmConfig name);
  refuse (bool_decide (paths = [])) InvalidArgument ;;
  refuse (existsb (λ p, negb (bool_decide (p = "default_ekm_connection"))) paths) InvalidArgument ;;
  when (negb (bool_decide (def = "")))
    (lift (parseEkmConnection def) ;;
     refuse (negb (HasPrefix def (loc +:+ "/"))) InvalidArgument ;;
     c ← get (T := ekmConnection) (dbKey ekmConnectionPrefix def);
     refuse (negb (bool_decide (is_Some c))) InvalidArgument) ;;
  c ← get (T := ekmConfig) (dbKey ekmConfigPrefix name);
  let policy := c ≫= ef_IAMPolicy in
  put (dbKey ekmConfigPrefix name) (mkEkmConfig name def policy) ;;
  mret (name, def).

Definition VerifyConnectivity (name : string) : H unit :=
  lift (parseEkmConnection name) ;;
  load (T := ekmConnection) (dbKey ekmConnectionPrefix name) ;;
  mret tt.

(** ** IAM policies (iam.go) *)

Inductive iamKind := iamKeyRing | iamCryptoKey | iamEkmConfig | iamEkmConnection.

(** [iamTarget]: the kind of the resource, whose record is under its prefix. *)
Definition iamTarget (resource : string) : res error iamKind :=
  if bool_decide (resource = "") then Err InvalidArgument
  else
    let parts := Split resource slash in
    let n := length parts in
    let part i := default "" (parts !! i) in
    if (n =? 6)%nat && bool_decide (part 4 = "keyRings") then _ ← parseKeyRing resource; Ok iamKeyRing
    else if (n =? 8)%nat && bool_decide (part 6 = "cryptoKeys") then _ ← parseCryptoKey resource; Ok iamCryptoKey
    else if (n =? 8)%nat && bool_decide (part 6 = "importJobs") then Err Unimplemented
    else if (n =? 5)%nat && bool_decide (part 4 = "ekmConfig") then _ ← parseEkmConfig resource; Ok iamEkmConfig
    else if (n =? 6)%nat && bool_decide (part 4 = "ekmConnections") then _ ← parseEkmConnection resource; Ok iamEkmConnection
    else Err InvalidArgument.

(** [policyOf]: the record's policy, and whether there is a record; a location's
    config always is. *)
Definition policyOf (k : iamKind) (name : string) : H (option (option IamPolicy.Stored)) :=
  match k with
  | iamKeyRing => r ← get (T := keyRing) (dbKey ringPrefix name); mret (kr_IAMPolicy <$> r)
  | iamCryptoKey => r ← get (T := cryptoKey) (dbKey keyPrefix name); mret (ck_IAMPolicy <$> r)
  | iamEkmConfig => r ← get (T := ekmConfig) (dbKey ekmConfigPrefix name); mret (Some (r ≫= ef_IAMPolicy))
  | iamEkmConnection => r ← get (T := ekmConnection) (dbKey ekmConnectionPrefix name); mret (ec_IAMPolicy <$> r)
  end.

(** [apply] of iam.go: the policy the request makes of [current], stored with
    [set]. *)
Definition apply_policy {T} `{Record_ T} (key : string) (current : option IamPolicy.Stored) (set : option IamPolicy.Stored → T)
    (req : iampb.SetIamPolicyRequest) : H IamPolicy.Stored :=
  rnd ← ask rand_etag;
  next ← lift (IamPolicy.Set_ current req rnd);
  put key (set (Some next)) ;;
  mret next.

Definition set_kr_IAMPolicy (r : keyRing) (p : option IamPolicy.Stored) : keyRing := mkKeyRing (kr_Name r) (kr_Created r) p.

Definition setPolicy (k : iamKind) (name : string) (req : iampb.SetIamPolicyRequest) : H IamPolicy.Stored :=
  match k with
  | iamKeyRing =>
      r ← load (T := keyRing) (dbKey ringPrefix name);
      apply_policy (dbKey ringPrefix name) (kr_IAMPolicy r) (set_kr_IAMPolicy r) req
  | iamCryptoKey =>
      r ← load (T := cryptoKey) (dbKey keyPrefix name);
      apply_policy (dbKey keyPrefix name) (ck_IAMPolicy r) (set_ck_IAMPolicy r) req
  | iamEkmConfig =>
      r ← get (T := ekmConfig) (dbKey ekmConfigPrefix name);
      let r := default (mkEkmConfig name "" None) r in
      apply_policy (dbKey ekmConfigPrefix name) (ef_IAMPolicy r) (mkEkmConfig (ef_Name r) (ef_Default r)) req
  | iamEkmConnection =>
      r ← load (T := ekmConnection) (dbKey ekmConnectionPrefix name);
      apply_policy (dbKey ekmConnectionPrefix name) (ec_IAMPolicy r) (set_ec_IAMPolicy r) req
  end.

Definition GetIamPolicy (resource : string) (requested : Z) : H iampb.Policy :=
  k ← lift (iamTarget resource);
  p ← policyOf k resource;
  match p with
  | None => throw NotFound
  | Some p => lift (IamPolicy.Get p requested)
  end.

Definition SetIamPolicy (resource : string) (req : iampb.SetIamPolicyRequest) : H iampb.Policy :=
  k ← lift (iamTarget resource);
  next ← setPolicy k resource req;
  mret (IamPolicy.Proto (Some next)).

Definition TestIamPermissions (resource : string) (permissions : list string) : H (list string) :=
  k ← lift (iamTarget resource);
  p ← policyOf k resource;
  mret (match p with Some _ => IamPolicy.Permissions permissions | None => [] end).

End ekm.
