(* ===== verification/KmsAutokey.v ===== *)
(** * internal/service/kms: Autokey, operations and locations

    autokey.go (AutokeyConfigs, KeyHandles and the stored operations) and
    locations.go.  CreateKeyHandle takes the lock for the ring, for the key and
    for the handle in turn; it is one step here. *)

From S2P Require Import Prelude GoLib ApiError Resource MetaStore Paging IamPolicy Handler GoCrypto NetHttp KmsModel KmsNames KmsFilter KmsStore KmsVersions KmsKeys KmsHsm KmsEkm.
From Stdlib Require Import Ascii.

Import strings time.

Definition autokeyRing : string := "autokey".
Definition autokeyRotation : Duration := (365 * 24 * Hour)%Z.

(** ^projects/[a-z0-9][a-z0-9-]{0,62}$ *)
Definition autokeyProjectRE (s : string) : bool :=
  HasPrefix s "projects/" &&
  let p := TrimPrefix s "projects/" in
  (1 <=? len p)%nat && (len p <=? 63)%nat && first_byte (λ a, is_lower a || is_digit a) p &&
  AllBytes (λ a, is_lower a || is_digit a || one_of ["-"%char] a) p.

(** ^([a-z][a-z0-9-]* )\.googleapis\.com/([A-Za-z][A-Za-z0-9]* )$: the two
    submatches.  The first holds no dot, so it ends at the first of the text. *)
Definition resourceTypeRE (s : string) : option (string * string) :=
  match CutString s ".googleapis.com/" with
  | None => None
  | Some (svc, typ) =>
      if first_byte is_lower svc && AllBytes (λ a, is_lower a || is_digit a || one_of ["-"%char] a) svc &&
         first_byte (λ a, is_alnum a && negb (is_digit a)) typ && AllBytes is_alnum typ
      then Some (svc, typ) else None
  end.

(** ** AutokeyConfigs *)

(** A mode number without a name reads back as the unspecified mode. *)
Definition ac_mode (c : autokeyConfig) : AutokeyMode :=
  match ac_Mode c with None | Some (resolution_other _) => RESOLUTION_UNSPECIFIED | Some m => m end.

Definition configured (c : autokeyConfig) : bool :=
  negb (bool_decide (ac_KeyProject c = "")) ||
  negb (bool_decide (ac_mode c = RESOLUTION_UNSPECIFIED)) && negb (bool_decide (ac_mode c = DEDICATED_KEY_PROJECT)).

Record pbAutokeyConfig := mkPbAutokeyConfig { pa_name : string; pa_key_project : string; pa_active : bool; pa_etag : string; pa_mode : AutokeyMode }.

(** [parseAutokeyConfig]: its folder or project. *)
Definition parseAutokeyConfig (name : string) : res error string :=
  match CutSuffix name "/autokeyConfig" with
  | None => Err InvalidArgument
  | Some parent =>
      match Split parent slash with
      | [kind; id] =>
          if negb (bool_decide (kind = "folders")) && negb (bool_decide (kind = "projects")) || bool_decide (id = "") then Err InvalidArgument
          else if bool_decide (kind = "folders") && negb (AllBytes is_digit id) then Err InvalidArgument
          else Ok parent
      | _ => Err InvalidArgument
      end
  end.

Section autokey_values.
Context `{CR : Crypto} `{JT : JsonText}.

Definition ac_etag (c : autokeyConfig) : string := take_bytes 16 (sha256_hex (json_text (DAutokey c))).

Definition autokey_proto (c : autokeyConfig) : pbAutokeyConfig :=
  mkPbAutokeyConfig (ac_Name c) (ac_KeyProject c) (configured c) (ac_etag c) (ac_mode c).

End autokey_values.

Record AutokeyInput := mkAutokeyInput { ai_name : string; ai_key_project : string; ai_mode : AutokeyMode; ai_etag : string }.

(** Whether the key project and the mode are set. *)
Fixpoint autokey_mask (paths : list string) : res error (bool * bool) :=
  match paths with
  | [] => Ok (false, false)
  | p :: rest =>
      if bool_decide (p ∈ ["key_project"; "keyProject"]) then '(_, m) ← autokey_mask rest; Ok (true, m)
      else if bool_decide (p ∈ ["key_project_resolution_mode"; "keyProjectResolutionMode"]) then '(k, _) ← autokey_mask rest; Ok (k, true)
      else Err InvalidArgument
  end.

Definition masked_config (c : autokeyConfig) (input : AutokeyInput) (setProject setMode : bool) : res error autokeyConfig :=
  let c := if setProject then mkAutokeyConfig (ac_Name c) (ai_key_project input) (ac_Mode c) else c in
  let c := if setMode
           then mkAutokeyConfig (ac_Name c) (ac_KeyProject c)
                  (if bool_decide (ai_mode input = RESOLUTION_UNSPECIFIED) then None else Some (ai_mode input))
           else c in
  if bool_decide (ac_mode c = RESOURCE_PROJECT) && negb (bool_decide (ac_KeyProject c = "")) then Err InvalidArgument
  else if bool_decide (ac_mode c = DEDICATED_KEY_PROJECT) && bool_decide (ac_KeyProject c = "") && setMode then Err InvalidArgument
  else Ok c.

(** ** Locations (locations.go) *)

Definition Locations : list string :=
  ["global"; "asia"; "europe"; "us";
   "eur4"; "eur5"; "eur6"; "nam4"; "nam6"; "nam7"; "nam8"; "nam9"; "nam10"; "nam11"; "nam12";
   "nam13"; "nam14"; "nam15"; "nam16"; "nam-eur-asia1"; "asia1";
   "africa-south1";
   "asia-east1"; "asia-east2"; "asia-northeast1"; "asia-northeast2"; "asia-northeast3";
   "asia-south1"; "asia-south2"; "asia-southeast1"; "asia-southeast2";
   "australia-southeast1"; "australia-southeast2";
   "europe-central2"; "europe-north1"; "europe-southwest1";
   "europe-west1"; "europe-west2"; "europe-west3"; "europe-west4"; "europe-west6";
   "europe-west8"; "europe-west9"; "europe-west10"; "europe-west12";
   "me-central1"; "me-central2"; "me-west1";
   "northamerica-northeast1"; "northamerica-northeast2";
   "southamerica-east1"; "southamerica-west1";
   "us-central1"; "us-east1"; "us-east4"; "us-east5"; "us-south1";
   "us-west1"; "us-west2"; "us-west3"; "us-west4"].

(** A Location: its name and its ID, which is its display name too. *)
Record pbLocation := mkPbLocation { pl_name : string; pl_id : string }.
Definition kmsLocation (project id : string) : pbLocation := mkPbLocation (project +:+ "/locations/" +:+ id) id.

Section autokey.
Context {S : Type} `{MSL : MetaStoreLaws S doc} `{NET : Net} `{UNI : Unicode} `{TJ : TokenJSON}.
Context `{CR : Crypto} `{JT : JsonText}.

Abbreviation H := (M Env (Server S)).

Definition GetAutokeyConfig (name : string) : H pbAutokeyConfig :=
  lift (parseAutokeyConfig name) ;;
  c ← get (T := autokeyConfig) (dbKey autokeyConfigPrefix name);
  mret (autokey_proto (default (mkAutokeyConfig name "" None) c)).

Definition UpdateAutokeyConfig (input : AutokeyInput) (paths : list string) : H pbAutokeyConfig :=
  parent ← lift (parseAutokeyConfig (ai_name input));
  refuse (bool_decide (paths = [])) InvalidArgument ;;
  '(setProject, setMode) ← lift (autokey_mask paths);
  refuse ((setProject : bool) && negb (bool_decide (ai_key_project input = "")) && negb (autokeyProjectRE (ai_key_project input))) InvalidArgument ;;
  h ← ask hierarchy;
  refuse (HasPrefix parent "folders/" && from_option (λ h, negb (FolderExists h parent)) false h) NotFound ;;
  c ← get (T := autokeyConfig) (dbKey autokeyConfigPrefix (ai_name input));
  let c := default (mkAutokeyConfig (ai_name input) "" None) c in
  refuse (negb (bool_decide (ai_etag input = "")) && negb (bool_decide (ai_etag input = ac_etag c))) Aborted ;;
  c ← lift (masked_config c input setProject setMode);
  put (dbKey autokeyConfigPrefix (ac_Name c)) c ;;
  mret (autokey_proto c).

(** The project and its folders, nearest first; an error of the hierarchy leaves
    the project alone. *)
Definition autokey_chain (h : option Hierarchy) (project : string) : list string :=
  project :: base.filter (λ a, HasPrefix a "folders/" = true) (default [] (h ≫= λ h, Ancestors h project)).

Definition AutokeyChain (project : string) : H (list string) :=
  h ← ask hierarchy;
  mret ((λ r, r +:+ "/autokeyConfig") <$> autokey_chain h ("projects/" +:+ project)).

(** The first configured of the chain decides. *)
Fixpoint first_config (project : string) (chain : list string) : H string :=
  match chain with
  | [] => mret ""
  | r :: rest =>
      c ← get (T := autokeyConfig) (dbKey autokeyConfigPrefix (r +:+ "/autokeyConfig"));
      match c with
      | Some c =>
          if negb (configured c) then first_config project rest
          else match ac_mode c with
               | AUTOKEY_DISABLED => mret ""
               | RESOURCE_PROJECT => mret project
               | _ => mret (ac_KeyProject c)
               end
      | None => first_config project rest
      end
  end.

Definition effectiveKeyProject (project : string) : H string :=
  h ← ask hierarchy;
  first_config project (autokey_chain h project).

Definition ShowEffectiveAutokeyConfig (parent : string) : H string :=
  refuse (negb (autokeyProjectRE parent)) InvalidArgument ;;
  effectiveKeyProject parent.

(** ** KeyHandles *)

Definition autokey_request (ring keyID : string) (t : Time) : CreateKeyRequest :=
  mkCreateKeyRequest ring keyID
    (Some (mkPbKey "" ENCRYPT_DECRYPT None ∅ None HSM GOOGLE_SYMMETRIC_ENCRYPTION None ""
             (Some (durationpb.New autokeyRotation)) (Some (timestamppb.New (Add t autokeyRotation))) false None))
    false false.

(** [resolver] is what the process installed for project numbers; the suffix is
    the first eight digits of the step's random name. *)
Definition CreateKeyHandle (resolver : option (string → option Z)) (parent id sel : string) : H Operation :=
  lift (parseLocation parent) ;;
  uuid ← ask new_uuid;
  let id := if bool_decide (id = "") then uuid else id in
  refuse (negb (idRE id)) InvalidArgument ;;
  match resourceTypeRE sel with
  | None => throw InvalidArgument
  | Some (svc, typ) =>
      let name := parent +:+ "/keyHandles/" +:+ id in
      let parts := Split parent slash in
      let project := "projects/" +:+ default "" (parts !! 1) in
      let location := default "" (parts !! 3) in
      existing ← get (T := keyHandle) (dbKey keyHandlePrefix name);
      refuse (bool_decide (is_Some existing)) AlreadyExists ;;
      kp ← effectiveKeyProject project;
      refuse (bool_decide (kp = "")) FailedPrecondition ;;
      let ringParent := kp +:+ "/locations/" +:+ location in
      let ring := ringParent +:+ "/keyRings/" +:+ autokeyRing in
      created ← attempt (CreateKeyRing ringParent autokeyRing);
      match created with
      | Err err => refuse (negb (bool_decide (code_of err = codes.AlreadyExists))) err
      | Ok _ => mret tt
      end ;;
      suffix ← ask rand_path;
      let keyID := strconv.Itoa (ProjectNumber resolver (TrimPrefix kp "projects/")) +:+ "-" +:+ svc +:+ "-" +:+ ToLower typ +:+ "-"
                     +:+ take_bytes 8 (default "00000000" suffix) in
      t ← now;
      key ← CreateCryptoKey (autokey_request ring keyID t);
      existing ← get (T := keyHandle) (dbKey keyHandlePrefix name);
      refuse (bool_decide (is_Some existing)) AlreadyExists ;;
      put (dbKey keyHandlePrefix name) (mkKeyHandle name (pk_name key) sel) ;;
      doneOp parent None
  end.

Definition GetKeyHandle (name : string) : H keyHandle :=
  lift (parseKeyHandle name) ;;
  load (T := keyHandle) (dbKey keyHandlePrefix name).

Definition keyHandleFilterFields : fieldSupport := [("resource_type_selector", ["="; "!="]); ("name", ["="; "!="; ":"])].

Definition handle_fields (h : keyHandle) (field : string) : option string :=
  if bool_decide (field = "name") then Some (kh_Name h)
  else if bool_decide (field = "resource_type_selector") then Some (kh_ResourceType h) else None.

Definition ListKeyHandles (parent filter token : string) (size : Z) : H (list keyHandle * string) :=
  lift (parseLocation parent) ;;
  f ← lift (parseFilter filter keyHandleFilterFields);
  names ← list_ keyHandlePrefix parent;
  handles ← collect (λ n, h ← get (T := keyHandle) (dbKey keyHandlePrefix n);
                          mret (match h with Some h => if listed_by f (handle_fields h) then Some (kh_Name h, h) else None | None => None end)) names;
  let size := if (size <=? 0)%Z || (100 <? size)%Z then 100%Z else size in
  '(page, next) ← lift (orderedPage ("kms-keyhandles:" +:+ parent +:+ "|filter=" +:+ filter) (handles.*1) byName false token size);
  mret (rendered handles Datatypes.id page, next).

Definition KeyHandlesInProject (project : string) : H (list keyHandle) :=
  lift (parseLocation ("projects/" +:+ project +:+ "/locations/global")) ;;
  names ← list_ keyHandlePrefix ("projects/" +:+ project +:+ "/locations");
  page_of (T := keyHandle) keyHandlePrefix (λ h, mret h) names.

(** ** Operations *)

Definition GetOperation (name : string) : H Operation := λ e s,
  match Split name slash with
  | [p0; p1; p2; p3; p4; p5] =>
      if negb (bool_decide (p4 = "operations")) then (s, Err InvalidArgument)
      else match parseLocation (Join [p0; p1; p2; p3] slash) with
           | Err _ => (s, Err InvalidArgument)
           | Ok _ =>
               (s, match st_Get (db s) (dbKey operationPrefix name) with
                   | Err err => if errors_Is err "key not found" then Err NotFound else Err (Internal err)
                   | Ok (DOperation op) => Ok op
                   | Ok _ => Err (Internal ErrDecode)
                   end)
           end
  | _ => (s, Err InvalidArgument)
  end.

(** ** The Locations mixin *)

Definition ring_location (r : string) : option string := let parts := Split r slash in if (4 <=? length parts)%nat then parts !! 3 else None.

Definition locations (project : string) : H (list string) :=
  rings ← list_ ringPrefix (project +:+ "/locations");
  mret (sort_strings (remove_dups (Locations ++ omap ring_location rings))).

(** [strings.Count(s, "/")] *)
Definition count_slash (s : string) : nat := length (Split s slash) - 1.

Definition ListLocations (name filter token : string) (size : Z) : H (list pbLocation * string) :=
  refuse (match ParseLocation (name +:+ "/locations/global") with Ok _ => negb (count_slash name =? 1)%nat | Err _ => true end) InvalidArgument ;;
  refuse (negb (bool_decide (filter = ""))) Unimplemented ;;
  ids ← locations name;
  '(page, next) ← match Page ("kms-locations:" +:+ name) ids token size with Ok r => mret r | Err _ => throw InvalidArgument end;
  mret (kmsLocation name <$> page, next).

Definition GetLocation (name : string) : H pbLocation :=
  '(project, id) ← match ParseLocation name with Ok r => mret r | Err _ => throw InvalidArgument end;
  ids ← locations ("projects/" +:+ project);
  let i := sort.SearchStrings ids id in
  if (i <? length ids)%nat && bool_decide (ids !! i = Some id) then mret (kmsLocation ("projects/" +:+ project) id) else throw NotFound.

End autokey.

(** Sixteen of the locations every project lists are no location of a name: no
    method takes them. *)
Definition refused_location (l : string) : bool :=
  match parseLocation ("projects/my-project/locations/" +:+ l) with Ok _ => false | Err _ => true end.

Lemma unusable_locations :
  base.filter (λ l, refused_location l = true) Locations =
  ["eur4"; "eur5"; "eur6"; "nam4"; "nam6"; "nam7"; "nam8"; "nam9"; "nam10"; "nam11"; "nam12"; "nam13"; "nam14"; "nam15"; "nam16"; "asia1"].
Proof. by vm_compute. Qed.
