(* ===== verification/KmsSweep.v ===== *)
(** * internal/service/kms: scheduled destruction and rotation

    rotation.go's advance and rotateDue, server.go's destroyDue, Sweep and Run,
    over a store that is no scanner.  Sweep reads without the lock and takes it
    once a record that is due, so destroyDue and rotateDue are steps of their own,
    at a clock reading that may be older than the step. *)

From S2P Require Import Prelude GoLib ApiError Resource MetaStore Paging IamPolicy Handler GoCrypto NetHttp KmsModel KmsNames KmsFilter KmsStore KmsVersions KmsKeys.
From Stdlib Require Import Ascii.

Import strings time.

(** ** The next rotation *)

(** [for !next.After(now) { next = next.Add(period) }]; the fuel is the number of
    periods between the two. *)
Fixpoint step_past (fuel : nat) (next now : Time) (period : Duration) : Time :=
  match fuel with
  | O => next
  | S fuel => if negb (After next now) then step_past fuel (Add next period) now period else next
  end.

(** The product is an int64. *)
Definition advance (next : Time) (period : Duration) (now : Time) : Time :=
  if (period <=? 0)%Z then zero
  else
    let behind := Sub now next in
    let next := if (0 <=? behind)%Z then Add next (wrap_i64 ((Z.quot behind period + 1) * period)) else next in
    step_past (Z.to_nat ((now - next) / period + 1)) next now period.

(** The earlier of two times, zero being none. *)
Definition earliest (next t : Time) : Time :=
  if negb (IsZero t) && (IsZero next || Before t next) then t else next.

Section sweep.
Context {S : Type} `{MSL : MetaStoreLaws S doc} `{NET : Net}.

Abbreviation H := (M Env (Server S)).

(** A record as the sweep reads it: without its effective state. *)
Definition raw {T} `{Record_ T} (key : string) : H (option T) := λ _ s,
  (s, match st_Get (db s) key with
      | Err err => if errors_Is err "key not found" then Ok None else Err (Wrapped err)
      | Ok d => match of_doc d with Some v => Ok (Some v) | None => Err (Wrapped ErrDecode) end
      end).

Definition destroyDue (key : string) (t : Time) : H unit :=
  stored ← raw (T := keyVersion) key;
  match stored with
  | None => mret tt
  | Some stored =>
      if negb (bool_decide (state stored = DESTROY_SCHEDULED)) then mret tt
      else let eff := effective stored t in
           when (bool_decide (state eff = DESTROYED)) (put key eff)
  end.

Definition rotateDue (key : string) (t : Time) : H Time :=
  k ← raw (T := cryptoKey) key;
  match k with
  | None => mret zero
  | Some k =>
      if IsZero (ck_NextRotation k) || Before t (ck_NextRotation k) then mret (ck_NextRotation k)
      else
        let n := ck_Next k in
        v ← newVersion k n t ENABLED None;
        put (dbKey versionPrefix (kv_Name v)) v ;;
        let k := set_ck_Primary (set_ck_Next k (n + 1)) n in
        let k := set_ck_NextRotation k (advance (ck_NextRotation k) (ck_RotationPeriod k) t) in
        put key k ;;
        mret (ck_NextRotation k)
  end.

(** ** A sweep *)

(** [scan]: the records under a prefix, each under its key; one deleted since the
    listing is left out. *)
Definition scan {T} `{Record_ T} (prefix : string) : H (list (string * T)) :=
  keys ← db_List prefix;
  collect (λ k, v ← raw (T := T) k; mret (pair k <$> v)) keys.

(** The loop over the versions: what is due is destroyed, and the earliest of
    the rest is kept. *)
Fixpoint sweep_versions (t : Time) (next : Time) (versions : list (string * keyVersion)) : H Time :=
  match versions with
  | [] => mret next
  | (key, stored) :: rest =>
      if negb (bool_decide (state stored = DESTROY_SCHEDULED)) then sweep_versions t next rest
      else if negb (bool_decide (state (effective stored t) = DESTROYED)) then sweep_versions t (earliest next (kv_DestroyTime stored)) rest
      else destroyDue key t ;; sweep_versions t next rest
  end.

Fixpoint sweep_keys (t : Time) (next : Time) (keys : list (string * cryptoKey)) : H Time :=
  match keys with
  | [] => mret next
  | (key, k) :: rest =>
      if IsZero (ck_NextRotation k) then sweep_keys t next rest
      else if Before t (ck_NextRotation k) then sweep_keys t (earliest next (ck_NextRotation k)) rest
      else rotation ← rotateDue key t; sweep_keys t (earliest next rotation) rest
  end.

Definition Sweep : H Time :=
  versions ← scan (T := keyVersion) versionPrefix;
  keys ← scan (T := cryptoKey) keyPrefix;
  t ← now;
  next ← sweep_versions t zero versions;
  sweep_keys t next keys.

(** ** Run

    What Run does after a sweep: the time it waits, if any, and the next retry. *)
Definition run_wait (retry : Duration) (swept : res error Time) (now : Time) : Duration * option Duration :=
  match swept with
  | Err _ => (if (Minute <? retry * 2)%Z then Minute else (retry * 2)%Z, Some retry)
  | Ok next => if negb (IsZero next) then (Second, Some (Sub next now)) else (Second, None)
  end.

End sweep.

(** ** The next rotation is on the schedule and after now *)

Lemma step_past_spec fuel next now period :
  (0 < period)%Z → ((now - next) / period + 1 ≤ Z.of_nat fuel)%Z →
  ∃ m, (0 ≤ m)%Z ∧ step_past fuel next now period = (next + m * period)%Z ∧ (now < step_past fuel next now period)%Z ∧
    ((next ≤ now)%Z → (step_past fuel next now period ≤ now + period)%Z).
Proof.
  intros Hp. revert next. induction fuel as [|fuel IH]; intros next Hf; cbn [step_past]; unfold After, Add.
  - exists 0%Z. assert ((now - next) / period < 0)%Z as Hneg by lia. apply Z.div_lt_upper_bound in Hneg || idtac.
    assert (now < next)%Z by (destruct (Z.lt_ge_cases now next); [done|]; pose proof (Z.div_pos (now - next) period ltac:(lia) Hp); lia).
    split_and!; [lia..|]. lia.
  - destruct (Z.ltb_spec now next) as [Hlt|Hge]; cbn [negb].
    + exists 0%Z. split_and!; [lia..|]. lia.
    + destruct (IH (next + period)%Z) as (m & Hm & Heq & Hgt & Hle).
      { replace (now - (next + period))%Z with (now - next + (-1) * period)%Z by lia. rewrite Z.div_add by lia. lia. }
      exists (m + 1)%Z. rewrite Heq in *. split_and!; [lia|lia|lia|]. intros _.
      destruct (Z.le_gt_cases (next + period) now) as [Hc|Hc]; [by apply Hle|].
      destruct (Z.eq_dec m 0) as [->|Hm0]; [lia|]. exfalso.
      destruct fuel as [|fuel]; cbn [step_past] in Heq; unfold After in Heq.
      * nia.
      * rewrite (proj2 (Z.ltb_lt now (next + period))) in Heq by lia. cbn [negb] in Heq. nia.
Qed.
