(* ===== verification/KmsInv.v ===== *)
(** * Cloud KMS: the stored records and what may be written

    Every record is under the key its kind and its name give.  [write] is one
    change of the store: what a record may become, given the others.  A handler
    is a sequence of such writes, whether its later ones fail or not. *)

From S2P Require Import Prelude GoLib ApiError Resource MetaStore GoCrypto KmsModel KmsNames KmsKeys KmsHsm.
From Stdlib Require Import Ascii.

Import strings time.

Definition doc_prefix (d : doc) : string :=
  match d with
  | DRing _ => ringPrefix
  | DKey _ => keyPrefix
  | DVersion _ => versionPrefix
  | DRetired _ => retiredPrefix
  | DHold _ => ringHoldPrefix
  | DJob _ => importJobPrefix
  | DConnection _ => ekmConnectionPrefix
  | DConfig _ => ekmConfigPrefix
  | DAutokey _ => autokeyConfigPrefix
  | DHandle _ => keyHandlePrefix
  | DInstance _ => hsmInstancePrefix
  | DProposal _ => hsmProposalPrefix
  | DOperation _ => operationPrefix
  end.

Definition doc_name (d : doc) : string :=
  match d with
  | DRing r => kr_Name r
  | DKey k => ck_Name k
  | DVersion v => kv_Name v
  | DRetired r => rr_Name r
  | DHold h => rh_Name h
  | DJob j => ij_Name j
  | DConnection c => ec_Name c
  | DConfig c => ef_Name c
  | DAutokey c => ac_Name c
  | DHandle h => kh_Name h
  | DInstance i => hi_Name i
  | DProposal p => hp_Name p
  | DOperation o => op_Name o
  end.

Definition home (d : doc) : string := dbKey (doc_prefix d) (doc_name d).

Abbreviation key_at k := (dbKey keyPrefix k).
Abbreviation version_at k n := (dbKey versionPrefix (versionName k n)).

(** A key's name, its numbers, how long it keeps a version that is to be
    destroyed, and a schedule only where there is a primary to rotate. *)
Definition key_ok (k : cryptoKey) : Prop :=
  parseCryptoKey (ck_Name k) = Ok tt ∧ (1 ≤ ck_Next k)%Z ∧ (minDestroyScheduled ≤ destroyScheduled k ≤ maxDestroyScheduled)%Z ∧
  (scheduled (ck_RotationPeriod k) (ck_NextRotation k) = true → ck_purpose k = ENCRYPT_DECRYPT).

(** The names of the records the theorems follow. *)
Definition named (d : doc) : Prop :=
  match d with
  | DRing r => parseKeyRing (kr_Name r) = Ok tt
  | DKey k => key_ok k
  | DVersion v => ∃ key n, kv_Name v = versionName key n ∧ parseCryptoKey key = Ok tt ∧ (1 ≤ n)%Z
  | DRetired r => ∃ id, rr_Name r = locationOf (rr_Original r) +:+ "/retiredResources/" +:+ id ∧ parseCryptoKey (rr_Original r) = Ok tt ∧ idRE id = true
  | DHold h => parseKeyRing (rh_Name h) = Ok tt
  | DInstance i => ∃ loc, parseHsmInstance (hi_Name i) = Ok loc
  | DProposal p => ∃ loc instance id, hp_Name p = instance +:+ "/proposals/" +:+ id ∧ parseHsmInstance instance = Ok loc ∧ idRE id = true
  | _ => True
  end.

Abbreviation contents_ := (gmap string doc).

Definition Inv (m : contents_) : Prop := map_Forall (λ key d, key = home d ∧ named d) m.

(** The records whose changes [write] restricts. *)
Definition tracked (d : doc) : bool :=
  match d with DKey _ | DVersion _ | DRetired _ | DInstance _ | DProposal _ => true | _ => false end.

(** Whether the name of a crypto key is held by a retired resource. *)
Definition retired (m : contents_) (name : string) : Prop := ∃ key r, m !! key = Some (DRetired r) ∧ rr_Original r = name.

(** ** Versions *)

Definition destroyed (t : Time) (v : keyVersion) : Prop := state (effective v t) = DESTROYED.

(** What a version is made with and keeps. *)
Definition same_version (v v' : keyVersion) : Prop :=
  kv_Name v' = kv_Name v ∧ kv_Created v' = kv_Created v ∧ kv_Algorithm v' = kv_Algorithm v ∧ kv_ProtectionLevel v' = kv_ProtectionLevel v ∧
  kv_ImportJob v' = kv_ImportJob v ∧ kv_Imported v' = kv_Imported v ∧ kv_TrustedWrapping v' = kv_TrustedWrapping v ∧ kv_HsmTrusted v' = kv_HsmTrusted v.

Definition able (st : VersionState) : Prop := st = ENABLED ∨ st = DISABLED.

(** How the states of a version follow each other, the record as it is at [t]. *)
Inductive lifecycle (t : Time) (v v' : keyVersion) : Prop :=
| lc_set : able (state (effective v t)) → able (state v') → lifecycle t v v'
| lc_schedule : able (state (effective v t)) → state v' = DESTROY_SCHEDULED → (t + minDestroyScheduled ≤ kv_DestroyTime v')%Z → lifecycle t v v'
| lc_restore : state (effective v t) = DESTROY_SCHEDULED → state v' = DISABLED → lifecycle t v v'.

Inductive version_step (t : Time) (v v' : keyVersion) : Prop :=
| vs_live : same_version v v' → kv_Material v' = kv_Material v → lifecycle t v v' → version_step t v v'
| vs_destroy u : (u ≤ t)%Z → v' = effective v u → state v = DESTROY_SCHEDULED → state v' = DESTROYED → version_step t v v'.

Definition version_new (v : keyVersion) : Prop := able (state v) ∧ kv_HsmTrusted v = false.

(** ** Keys *)

Definition same_key (k k' : cryptoKey) : Prop :=
  ck_Name k' = ck_Name k ∧ ck_Created k' = ck_Created k ∧ ck_Purpose k' = ck_Purpose k ∧ ck_ProtectionLevel k' = ck_ProtectionLevel k ∧
  ck_DestroyScheduled k' = ck_DestroyScheduled k ∧ ck_Backend k' = ck_Backend k ∧ ck_Coordinated k' = ck_Coordinated k.

Definition version_in (m : contents_) (key : string) (n : Z) (P : keyVersion → Prop) : Prop :=
  ∃ v, m !! version_at key n = Some (DVersion v) ∧ P v.

(** The primary stays, becomes a version that is enabled, or is taken away with a
    version that is destroyed. *)
Definition primary_step (t : Time) (m : contents_) (k k' : cryptoKey) : Prop :=
  ck_Primary k' = ck_Primary k
  ∨ (1 ≤ ck_Primary k')%Z ∧ ck_purpose k = ENCRYPT_DECRYPT ∧ version_in m (ck_Name k) (ck_Primary k') (λ v, state (effective v t) = ENABLED)
  ∨ ck_Primary k' = 0%Z ∧ version_in m (ck_Name k) (ck_Primary k) (destroyed t).

Definition key_step (t : Time) (m : contents_) (k k' : cryptoKey) : Prop :=
  same_key k k' ∧ key_ok k' ∧ primary_step t m k k' ∧
  (ck_Next k' = ck_Next k ∨ ck_Next k' = (ck_Next k + 1)%Z ∧ version_in m (ck_Name k) (ck_Next k) (λ _, True)).

(** A new key: before its first version, or with it as its primary. *)
Definition key_new (m : contents_) (k : cryptoKey) : Prop :=
  key_ok k ∧ m !! key_at (ck_Name k) = None ∧ ¬ retired m (ck_Name k) ∧
  (ck_Next k = 1%Z ∧ ck_Primary k = 0%Z ∨
   ck_Next k = 2%Z ∧ version_in m (ck_Name k) 1 (λ _, True) ∧ (ck_Primary k = 0%Z ∨ ck_Primary k = 1%Z ∧ ck_purpose k = ENCRYPT_DECRYPT)).

(** Where a new version may go: the next number of its key, or the first of a key
    about to be made. *)
Definition slot (m : contents_) (key : string) (n : Z) : Prop :=
  match m !! key_at key with
  | Some (DKey k) => n = ck_Next k
  | Some _ => False
  | None => n = 1%Z ∧ ¬ retired m key
  end.

(** ** HSM instances and proposals *)

Section writes.
Context `{X : X509} `{RP : RsaPublic} `{HA : Hashes}.
Implicit Types (m : contents_).

(** The reply signs the challenge with the challenge's key. *)
Definition signs (r : ChallengeReply) (c : hsmChallenge) : Prop :=
  ∃ der, twoFactorKey (cr_public_key_pem r) = Ok der ∧ twoFactorKey (hc_Pem c) = Ok der ∧
    VerifyPKCS1v15_SHA256 der (hash_Sum SHA256 (hc_Challenge c)) (cr_signed_challenge r) = true.

(** A challenge with the replies [rs]: as it was, or approved by one of them. *)
Definition challenge_step (rs : list ChallengeReply) (c c' : hsmChallenge) : Prop :=
  c' = c ∨ c' = approve c ∧ ∃ r, r ∈ rs ∧ signs r c.

Definition same_proposal (p p' : hsmProposal) : Prop :=
  hp_Name p' = hp_Name p ∧ hp_Op p' = hp_Op p ∧ hp_RegisterRequired p' = hp_RegisterRequired p ∧ hp_RegisterPems p' = hp_RegisterPems p ∧
  hp_MemberPem p' = hp_MemberPem p ∧ hp_Version p' = hp_Version p ∧ hp_Required p' = hp_Required p ∧ hp_Expire p' = hp_Expire p.

Definition approved_by_all (p : hsmProposal) : Prop :=
  (hp_Required p ≤ countApproved (hp_Quorum p))%Z ∧ Forall (λ c, hc_Approved c = true) (hp_Must p).

Definition ended (st : ProposalState) : Prop := st = PROPOSAL_SUCCEEDED ∨ st = PROPOSAL_FAILED ∨ st = PROPOSAL_DELETED.

Inductive proposal_step (rs : list ChallengeReply) (t : Time) (p p' : hsmProposal) : Prop :=
| ps_approve :
    same_proposal p p' → hp_State p = PROPOSAL_PENDING →
    Forall2 (challenge_step rs) (hp_Quorum p) (hp_Quorum p') → Forall2 (challenge_step rs) (hp_Must p) (hp_Must p') →
    (hp_State p' = PROPOSAL_PENDING ∨ hp_State p' = PROPOSAL_APPROVED ∧ approved_by_all p') → proposal_step rs t p p'
| ps_end :
    same_proposal p p' → hp_Quorum p' = hp_Quorum p → hp_Must p' = hp_Must p → ended (hp_State p') → proposal_step rs t p p'.

(** The keys a proposal needs the signatures of, and how many. *)
Definition quorum_of (i : hsmInstance) (p : hsmProposal) : list string * Z :=
  if bool_decide (hp_Op p = opRegister) then (hp_RegisterPems p, Z.of_nat (length (hp_RegisterPems p))) else (hi_Pems i, hi_Required i).

Definition must_of (p : hsmProposal) : list string :=
  if bool_decide (hp_Op p = opAdd) || bool_decide (hp_Op p = opUpgrade) then [hp_MemberPem p] else [].

Definition unapproved (pems : list string) (cs : list hsmChallenge) : Prop := hc_Pem <$> cs = pems ∧ Forall (λ c, hc_Approved c = false) cs.

(** The two-factor keys a proposal brings along parse, and are distinct. *)
Definition keys_parse (p : hsmProposal) : Prop :=
  match hp_Op p with
  | opRegister => distinct_keys [] (hp_RegisterPems p) = Ok tt
  | opAdd | opRemove | opUpgrade => ∃ der, twoFactorKey (hp_MemberPem p) = Ok der
  | _ => True
  end.

Definition instance_at (m : contents_) (name : string) (i : hsmInstance) : Prop := m !! dbKey hsmInstancePrefix name = Some (DInstance i).
Definition proposal_at (m : contents_) (name : string) (p : hsmProposal) : Prop := m !! dbKey hsmProposalPrefix name = Some (DProposal p).

Definition of_instance (p : hsmProposal) (instance : string) : Prop :=
  ∃ id, hp_Name p = instance +:+ "/proposals/" +:+ id ∧ idRE id = true.

(** No proposal of the instance is active at [t]. *)
Definition idle (t : Time) (m : contents_) (instance : string) : Prop :=
  ∀ name p, proposal_at m name p → of_instance p instance → active p t = false.

Definition proposal_new (t : Time) (m : contents_) (i : hsmInstance) (p : hsmProposal) : Prop :=
  idle t m (hi_Name i) ∧ checkOperation (hi_effective i t) p = Ok tt ∧ keys_parse p ∧ hp_State p = PROPOSAL_PENDING ∧
  unapproved (quorum_of i p).1 (hp_Quorum p) ∧ hp_Required p = (quorum_of i p).2 ∧ unapproved (must_of p) (hp_Must p).

(** An executed proposal whose end was not recorded cannot run again: its check
    refuses it. *)
Definition spent (i : hsmInstance) (p : hsmProposal) : Prop :=
  match hp_Op p with
  | opRegister => hi_State i ≠ PENDING_TWO_FACTOR_AUTH_REGISTRATION
  | opAdd => existsb (λ k, samePem k (hp_MemberPem p)) (hi_Pems i) = true
  | opRemove => existsb (λ k, samePem k (hp_MemberPem p)) (hi_Pems i) = false
  | _ => False
  end.

(** ** One write *)

(** What a call brings that a write may need: the replies it carries, and the
    stored proposal it executes. *)
Record warrant := mkWarrant { replies : list ChallengeReply; executing : option hsmProposal }.
Definition no_warrant : warrant := mkWarrant [] None.

Inductive write (rs : warrant) (t : Time) (m : contents_) : contents_ → Prop :=
| w_other d : tracked d = false → named d → write rs t m (<[home d := d]> m)
| w_other_delete key : (∀ d, m !! key = Some d → tracked d = false) → write rs t m (delete key m)
| w_key_new k : key_new m k → write rs t m (<[key_at (ck_Name k) := DKey k]> m)
| w_key k k' : m !! key_at (ck_Name k) = Some (DKey k) → key_step t m k k' → write rs t m (<[key_at (ck_Name k) := DKey k']> m)
| w_key_delete k :
    m !! key_at (ck_Name k) = Some (DKey k) → retired m (ck_Name k) → (∀ n, (1 ≤ n)%Z → m !! version_at (ck_Name k) n = None) →
    write rs t m (delete (key_at (ck_Name k)) m)
| w_version_new key n v :
    parseCryptoKey key = Ok tt → (1 ≤ n)%Z → kv_Name v = versionName key n → version_new v → slot m key n →
    write rs t m (<[version_at key n := DVersion v]> m)
| w_version v v' :
    m !! dbKey versionPrefix (kv_Name v) = Some (DVersion v) → version_step t v v' →
    write rs t m (<[dbKey versionPrefix (kv_Name v) := DVersion v']> m)
| w_version_trust v p :
    m !! dbKey versionPrefix (kv_Name v) = Some (DVersion v) → state v = ENABLED → proposal_at m (hp_Name p) p →
    hp_Op p = opUpgrade → hp_Version p = kv_Name v → hp_State p = PROPOSAL_APPROVED → Before t (hp_Expire p) = true →
    write rs t m (<[dbKey versionPrefix (kv_Name v) := DVersion (set_kv_HsmTrusted v true)]> m)
| w_version_delete key n v k :
    parseCryptoKey key = Ok tt → m !! version_at key n = Some (DVersion v) → (1 ≤ n)%Z → destroyed t v →
    m !! key_at key = Some (DKey k) → ck_Primary k ≠ n → write rs t m (delete (version_at key n) m)
| w_retired r :
    m !! dbKey retiredPrefix (rr_Name r) = None → named (DRetired r) → write rs t m (<[dbKey retiredPrefix (rr_Name r) := DRetired r]> m)
| w_instance_new i :
    m !! dbKey hsmInstancePrefix (hi_Name i) = None → named (DInstance i) → hi_State i = PENDING_TWO_FACTOR_AUTH_REGISTRATION →
    (3 ≤ hi_Total i ≤ 16)%Z → hi_Pems i = [] → hi_Required i = 0%Z → write rs t m (<[dbKey hsmInstancePrefix (hi_Name i) := DInstance i]> m)
| w_instance i p :
    executing rs = Some p → instance_at m (hi_Name i) i → proposal_at m (hp_Name p) p → of_instance p (hi_Name i) →
    hp_State p = PROPOSAL_APPROVED → Before t (hp_Expire p) = true → checkOperation (hi_effective i t) p = Ok tt →
    write rs t m (<[dbKey hsmInstancePrefix (hi_Name i) := DInstance (executed (hi_effective i t) p t)]> m)
| w_proposal_new i p :
    instance_at m (hi_Name i) i → named (DProposal p) → of_instance p (hi_Name i) → proposal_new t m i p →
    write rs t m (<[dbKey hsmProposalPrefix (hp_Name p) := DProposal p]> m)
| w_proposal p p' :
    proposal_at m (hp_Name p) p → proposal_step (replies rs) t p p' →
    write rs t m (<[dbKey hsmProposalPrefix (hp_Name p) := DProposal p']> m).

End writes.
