(* ===== verification/KmsEffects.v ===== *)
(** * Cloud KMS: a handler's writes

    [does]: a computation ends in contents its writes lead to, each of them one
    [write] allows, whether it succeeds or fails on the way; when it succeeds its
    result is as the postcondition says.  One rule per combinator and primitive. *)

From S2P Require Import Prelude GoLib ApiError Resource MetaStore Paging IamPolicy Handler GoCrypto NetHttp KmsModel KmsNames KmsFilter KmsStore KmsHsm KmsInv.
From Stdlib Require Import Ascii.

Import strings time.

(** ** Names and their keys *)

Lemma dbKey_ne p p' n n' : p ∈ prefixes → p' ∈ prefixes → p ≠ p' → dbKey p n ≠ dbKey p' n'.
Proof.
  unfold prefixes. rewrite !elem_of_cons, !elem_of_nil. intros Hp Hp' Hne. destruct_or! Hp; destruct_or! Hp'; subst; try done; solve_dbKey.
Qed.

Lemma doc_prefix_in d : doc_prefix d ∈ prefixes.
Proof. unfold prefixes. destruct d; cbn; rewrite !elem_of_cons; tauto. Qed.

Lemma version_number_inj k k' n n' :
  parseCryptoKey k = Ok tt → parseCryptoKey k' = Ok tt → (1 ≤ n)%Z → (1 ≤ n')%Z → versionName k n = versionName k' n' → k = k' ∧ n = n'.
Proof.
  intros Hk Hk' Hn Hn' H. destruct (key_split _ Hk) as (p & l & r & id & Hs). destruct (key_split _ Hk') as (p' & l' & r' & id' & Hs').
  pose proof (versionName_Split k n p l r id Hs Hn) as H1. rewrite H, (versionName_Split k' n' p' l' r' id' Hs' Hn') in H1.
  injection H1 as -> -> -> -> Hi. apply strconv.Itoa_inj in Hi as ->. split; [|done].
  by rewrite <- (Join_Split k slash), Hs, <- Hs', Join_Split.
Qed.

Lemma version_slot_inj k k' n n' :
  parseCryptoKey k = Ok tt → parseCryptoKey k' = Ok tt → (1 ≤ n)%Z → (1 ≤ n')%Z → version_at k n = version_at k' n' → k = k' ∧ n = n'.
Proof.
  intros Hk Hk' Hn Hn' H. apply version_number_inj; try done.
  eapply dbKey_inj; [by apply version_plain; [apply key_plain|] ..|]; done.
Qed.

Section typed.
Implicit Types (m : contents_).

Lemma inv_home m key d : Inv m → m !! key = Some d → key = home d ∧ named d.
Proof. intros HI Hd. by apply (HI key d). Qed.

Lemma inv_insert m d : Inv m → named d → Inv (<[home d := d]> m).
Proof. intros HI Hd. apply map_Forall_insert_2; [done|]. done. Qed.

Lemma inv_delete m key : Inv m → Inv (delete key m).
Proof. intros HI. by apply map_Forall_delete. Qed.

Lemma home_prefix m p name d : Inv m → p ∈ prefixes → m !! dbKey p name = Some d → doc_prefix d = p.
Proof.
  intros HI Hp Hd. destruct (inv_home m _ d HI Hd) as [Hh _]. destruct (decide (doc_prefix d = p)) as [|Hne]; [done|].
  exfalso. eapply (dbKey_ne p (doc_prefix d)); [done|apply doc_prefix_in|done|exact Hh].
Qed.

Lemma keyPrefix_in : keyPrefix ∈ prefixes.
Proof. apply (bool_decide_unpack _). by vm_compute. Qed.
Lemma versionPrefix_in : versionPrefix ∈ prefixes.
Proof. apply (bool_decide_unpack _). by vm_compute. Qed.

Lemma key_named m name d : Inv m → plain name → m !! key_at name = Some d → ∃ k, d = DKey k ∧ ck_Name k = name ∧ key_ok k.
Proof.
  intros HI Hp Hd. pose proof (home_prefix _ _ _ _ HI keyPrefix_in Hd) as He.
  destruct (inv_home m _ d HI Hd) as [Hh Hn]. destruct d; try done. exists k. pose proof (proj1 Hn) as Hk.
  apply dbKey_inj in Hh; [|done|by apply key_plain]. by subst.
Qed.

Lemma version_named m key n d : Inv m → parseCryptoKey key = Ok tt → (1 ≤ n)%Z → m !! version_at key n = Some d →
  ∃ v, d = DVersion v ∧ kv_Name v = versionName key n.
Proof.
  intros HI Hk Hnn Hd. pose proof (home_prefix _ _ _ _ HI versionPrefix_in Hd) as He.
  destruct (inv_home m _ d HI Hd) as [Hh Hn]. destruct d; try done. exists v. split; [done|].
  destruct Hn as (k' & n' & Hv & Hk' & Hn'). unfold home in Hh. cbn [doc_prefix doc_name] in Hh. rewrite Hv in Hh |- *.
  destruct (version_slot_inj key k' n n') as [-> ->]; done.
Qed.

End typed.

Lemma effective_name v t : kv_Name (effective v t) = kv_Name v.
Proof. unfold effective. by destruct (_ && _). Qed.

Lemma effective_live v t : state (effective v t) ≠ DESTROYED → effective v t = v.
Proof. unfold effective. by destruct (_ && _). Qed.

Lemma executed_name `{X509, RsaPublic} i p t : hi_Name (executed i p t) = hi_Name i.
Proof. unfold executed. by destruct (hp_Op p). Qed.

Lemma hi_effective_name i t : hi_Name (hi_effective i t) = hi_Name i.
Proof. unfold hi_effective. by destruct (_ && _). Qed.

(** Every write leaves every record at home. *)
Lemma write_inv `{X509, RsaPublic, Hashes} rs t (m m' : contents_) : write rs t m m' → Inv m → Inv m'.
Proof.
  intros Hw HI. destruct Hw; try (by apply inv_delete); try (by apply inv_insert).
  - apply (inv_insert m (DKey k) HI). by destruct H2.
  - destruct H3 as [(Hn & _) (Hok & _)]. rewrite <- Hn. by apply (inv_insert m (DKey k') HI).
  - rewrite <- H4. apply (inv_insert m (DVersion v) HI). exists key, n. done.
  - assert (kv_Name v' = kv_Name v) as Hn by (destruct H3 as [(Hn & _) _ _|u _ -> _ _]; [done|apply effective_name]).
    destruct (inv_home m _ _ HI H2) as [_ (key & n & Hv & Hk & Hnn)]. rewrite <- Hn. apply (inv_insert m (DVersion v') HI). exists key, n. by rewrite Hn.
  - apply (inv_insert m (DVersion (set_kv_HsmTrusted v true)) HI). by destruct (inv_home m _ _ HI H2).
  - destruct (inv_home m _ _ HI H3) as [_ Hi]. rewrite <- (hi_effective_name i t), <- (executed_name (hi_effective i t) p t).
    apply (inv_insert m (DInstance _) HI). cbn. by rewrite executed_name, hi_effective_name.
  - assert (hp_Name p' = hp_Name p) as Hn by (by destruct H3 as [(Hn & _)|(Hn & _)]).
    destruct (inv_home m _ _ HI H2) as [_ Hi]. rewrite <- Hn. apply (inv_insert m (DProposal p') HI). cbn. by rewrite Hn.
Qed.

Lemma writes_inv `{X509, RsaPublic, Hashes} rs t (m m' : contents_) : rtc (write rs t) m m' → Inv m → Inv m'.
Proof. induction 1; eauto using write_inv. Qed.

(** ** The judgement *)

Section does.
Context {S : Type} `{MSL : MetaStoreLaws S doc} `{X : X509} `{RP : RsaPublic} `{HA : Hashes}.
Context (rs : warrant).
Implicit Types (s : Server S) (e : Env).

Abbreviation H := (M Env (Server S)).
Abbreviation cts s := (contents (db s)).

Definition does {A} (e : Env) (s : Server S) (h : H A) (Q : A → Server S → Prop) : Prop :=
  wp e s h (λ r s', rtc (write rs (clock_Now e)) (cts s) (cts s') ∧ match r with Ok a => Q a s' | Err _ => True end).

Lemma does_mono {A} e s (h : H A) (Q Q' : A → Server S → Prop) : (∀ a s', Q a s' → Q' a s') → does e s h Q → does e s h Q'.
Proof. intros HQ. apply wp_mono. intros [a|x] s' [Hw Hp]; auto. Qed.

Lemma does_bind {A B} e s (h : H A) (f : A → H B) Q : does e s h (λ a s', does e s' (f a) Q) → does e s (h ≫= f) Q.
Proof.
  intros Hh. unfold does. apply wp_bind. revert Hh. apply wp_mono. intros [a|x] s' [Hw Hp]; [|done].
  revert Hp. apply wp_mono. intros r s'' [Hw' Hr]. split; [by etrans|done].
Qed.

Lemma does_ret {A} e s (a : A) (Q : A → Server S → Prop) : Q a s → does e s (mret a) Q.
Proof. intros HQ. by apply wp_ret. Qed.
Lemma does_throw {A} e s x (Q : A → Server S → Prop) : does e s (throw x) Q.
Proof. by apply wp_throw. Qed.
Lemma does_lift {A} e s (r : res error A) (Q : A → Server S → Prop) : (∀ a, r = Ok a → Q a s) → does e s (lift r) Q.
Proof. intros HQ. apply wp_lift. split; [done|]. destruct r; auto. Qed.
Lemma does_ask {A} e s (f : Env → A) (Q : A → Server S → Prop) : Q (f e) s → does e s (ask f) Q.
Proof. intros HQ. by apply wp_ask. Qed.
Lemma does_now e s (Q : Time → Server S → Prop) : Q (clock_Now e) s → does e s now Q.
Proof. apply does_ask. Qed.
Lemma does_refuse e s c x (Q : unit → Server S → Prop) : (c = false → Q tt s) → does e s (refuse c x) Q.
Proof. intros HQ. apply wp_refuse; intros Hc; (split; [done|]); auto. Qed.
Lemma does_when e s c h (Q : unit → Server S → Prop) :
  (c = true → does e s h Q) → (c = false → Q tt s) → does e s (when c h) Q.
Proof. intros H1 H2. destruct c; [by apply H1|]. apply does_ret. auto. Qed.

Lemma does_reads {A} e s (h : H A) (Q : A → Server S → Prop) : reads h → (∀ a, (h e s).2 = Ok a → Q a s) → does e s h Q.
Proof. intros Hr HQ. apply wp_reads; [done|]. split; [done|]. destruct (h e s).2; auto. Qed.

(** A computation that ends in an error has written what it wrote. *)
Lemma does_attempt {A} e s (h : H A) (Q : res error A → Server S → Prop) :
  does e s h (λ a s', Q (Ok a) s') → (∀ x s', rtc (write rs (clock_Now e)) (cts s) (cts s') → Q (Err x) s') → does e s (attempt h) Q.
Proof.
  intros Hh He. apply wp_attempt. revert Hh. apply wp_mono. intros [a|x] s' [Hw Hp]; split; auto.
Qed.

Lemma does_attempt_reads {A} e s (h : H A) (Q : res error A → Server S → Prop) : reads h → (∀ r, (h e s).2 = r → Q r s) → does e s (attempt h) Q.
Proof.
  intros Hr HQ. apply wp_attempt. apply wp_reads; [done|]. split; [done|]. by apply HQ.
Qed.

(** *** The store *)

Lemma does_get {T} `{Record_ T} e s key (Q : option T → Server S → Prop) :
  (cts s !! key = None → Q None s) →
  (∀ d v, cts s !! key = Some d → of_doc d = Some v → Q (Some (on_read (clock_Now e) v)) s) → does e s (get key) Q.
Proof.
  intros Hn Hs. unfold does, wp, get. cbn [fst snd]. split; [done|]. rewrite Get_law.
  destruct (checkKey key) as [[]|x] eqn:Hc; cbn [mbind res_bind].
  - destruct (cts s !! key) as [d|] eqn:Hd; [|cbn; by apply Hn]. destruct (of_doc d) as [v|] eqn:Hv; [|done]. by eapply Hs.
  - unfold checkKey in Hc. destruct (SafeKey key); [done|]. injection Hc as <-. done.
Qed.

Lemma does_load {T} `{Record_ T} e s key (Q : T → Server S → Prop) :
  (∀ d v, cts s !! key = Some d → of_doc d = Some v → Q (on_read (clock_Now e) v) s) → does e s (load key) Q.
Proof.
  intros Hs. unfold load. apply does_bind, does_get; [intros _; apply does_throw|]. intros d v Hd Hv. apply does_ret. by eapply Hs.
Qed.

Lemma commit_cases s op : ∃ r, (st_Commit (db s) [op]).2 = r ∧
  (r = Ok tt ∧ contents (st_Commit (db s) [op]).1 = apply_op (cts s) op ∨ (∃ x, r = Err x) ∧ contents (st_Commit (db s) [op]).1 = cts s).
Proof.
  eexists. split; [reflexivity|]. destruct (check_keys [op]) as [[]|x] eqn:Hc.
  - destruct (Commit_atomic (db s) [op] Hc) as [[-> ->]|(x & -> & ->)]; eauto.
  - rewrite (Commit_unsafe (db s) [op] x Hc). eauto.
Qed.

Lemma does_put {T} `{Record_ T} e s key (v : T) (Q : unit → Server S → Prop) :
  write rs (clock_Now e) (cts s) (<[key := to_doc v]> (cts s)) →
  (∀ s', cts s' = <[key := to_doc v]> (cts s) → Q tt s') → does e s (put key v) Q.
Proof.
  intros Hw HQ. unfold does, wp, put. destruct (negb (marshals (to_doc v))); [done|]. rewrite Put_law.
  destruct (commit_cases s (OpPut key (to_doc v))) as (r & Hr & Hc). destruct (st_Commit _ _) as [d r']. cbn in *. subst r'.
  destruct Hc as [[-> Hc]|[[x ->] Hc]]; cbn; rewrite Hc.
  - split; [by apply rtc_once|]. by apply HQ.
  - done.
Qed.

Lemma does_put_operation e s op (Q : unit → Server S → Prop) :
  (∀ s', cts s' = <[home (DOperation op) := DOperation op]> (cts s) → Q tt s') → does e s (put_operation op) Q.
Proof.
  intros HQ. unfold does, wp, put_operation. rewrite Put_law.
  destruct (commit_cases s (OpPut (dbKey operationPrefix (op_Name op)) (DOperation op))) as (r & Hr & Hc).
  destruct (st_Commit _ _) as [d r']. cbn in *. subst r'. destruct Hc as [[-> Hc]|[[x ->] Hc]]; cbn; rewrite Hc.
  - split; [|by apply HQ]. apply rtc_once. change (dbKey operationPrefix (op_Name op)) with (home (DOperation op)). by apply w_other.
  - done.
Qed.

Lemma does_delete e s key (Q : unit → Server S → Prop) :
  write rs (clock_Now e) (cts s) (delete key (cts s)) → (∀ s', cts s' = delete key (cts s) → Q tt s') → does e s (db_Delete key) Q.
Proof.
  intros Hw HQ. unfold does, wp, db_Delete. rewrite Delete_law.
  destruct (commit_cases s (OpDelete key)) as (r & Hr & Hc). destruct (st_Commit _ _) as [d r']. cbn in *. subst r'.
  destruct Hc as [[-> Hc]|[[x ->] Hc]]; cbn; rewrite Hc.
  - split; [by apply rtc_once|]. by apply HQ.
  - done.
Qed.

Lemma does_wake e s (Q : unit → Server S → Prop) : (∀ s', cts s' = cts s → Q tt s') → does e s wake Q.
Proof. intros HQ. unfold does, wp, wake. cbn. split; [done|]. by apply HQ. Qed.

Lemma does_doneOp e s loc failed (Q : Operation → Server S → Prop) : (∀ op s', Q op s') → does e s (doneOp loc failed) Q.
Proof. intros HQ. unfold doneOp. apply does_bind, does_ask. apply does_bind, does_put_operation. intros s' _. by apply does_ret. Qed.

Lemma reads_doneOperation loc : reads (doneOperation (S := S) loc).
Proof. unfold doneOperation, draw. solve_reads. Qed.

Lemma does_doneOperation e s loc (Q : Operation → Server S → Prop) : (∀ op, Q op s) → does e s (doneOperation loc) Q.
Proof. intros HQ. apply does_reads; [apply reads_doneOperation|auto]. Qed.

(** A listing finds the records of its kind under the parent. *)
Lemma does_list e s prefix parent (Q : list string → Server S → Prop) :
  (∀ names, (∀ d, cts s !! home d = Some d → doc_prefix d = prefix → plain (doc_name d) → HasPrefix (doc_name d) (parent +:+ "/") = true →
               doc_name d ∈ names) → Q names s) → does e s (list_ prefix parent) Q.
Proof.
  intros HQ. unfold list_. apply does_bind. unfold does, wp, db_List. cbn [fst snd]. split; [done|]. rewrite List_law.
  apply does_ret. apply HQ. intros d Hd Hp Hpl Hpre. apply sort_strings_elem. apply list_elem_of_omap.
  exists (home d). split; [apply elem_of_list_keys; split; [by exists d|]; unfold home, dbKey; rewrite Hp; apply HasPrefix_app|].
  unfold listed, home, dbKey. rewrite Hp. unfold TrimPrefix. rewrite HasPrefix_app, drop_bytes_app.
  rewrite ReplaceAll_back by by apply plain_no_tilde. by rewrite Hpre.
Qed.

Lemma does_list_any e s prefix parent (Q : list string → Server S → Prop) : (∀ names, Q names s) → does e s (list_ prefix parent) Q.
Proof. intros HQ. apply does_list. auto. Qed.

End does.

Lemma reads_get {S : Type} `{MetaStoreLaws S doc} {T} `{Record_ T} key : reads (get (S := S) (T := T) key).
Proof. done. Qed.
Lemma reads_load {S : Type} `{MetaStoreLaws S doc} {T} `{Record_ T} key : reads (load (S := S) (T := T) key).
Proof. unfold load. solve_reads. Qed.
Lemma reads_list {S : Type} `{MetaStoreLaws S doc} prefix parent : reads (list_ (S := S) prefix parent).
Proof. unfold list_. apply reads_bind; [done|]. solve_reads. Qed.
Lemma reads_draw {S : Type} {A} (f : Env → option A) : reads (draw (S := S) f).
Proof. unfold draw. solve_reads. Qed.
#[export] Hint Resolve reads_get reads_load reads_list reads_draw : burrow.

(** Applies the rule of the computation at the head. *)
Ltac does_step :=
  lazymatch goal with
  | |- does _ _ _ (mbind _ _) _ => apply does_bind
  | |- does _ _ _ (mret _) _ => apply does_ret
  | |- does _ _ _ (throw _) _ => apply does_throw
  | |- does _ _ _ (lift _) _ => apply does_lift; intros ? ?
  | |- does _ _ _ (refuse _ _) _ => apply does_refuse; intros ?
  | |- does _ _ _ (when _ _) _ => apply does_when; intros ?
  | |- does _ _ _ now _ => apply does_now
  | |- does _ _ _ (ask _) _ => apply does_ask
  | |- does _ _ _ wake _ => apply does_wake; intros ? ?
  | |- does _ _ _ (get _) _ => apply does_get; [intros ?|intros ? ? ? ?]
  | |- does _ _ _ (load _) _ => apply does_load; intros ? ? ? ?
  | |- does _ _ _ (doneOp _ _) _ => apply does_doneOp; intros ? ?
  | |- does _ _ _ (doneOperation _) _ => apply does_doneOperation; intros ?
  | |- does _ _ _ (let '_ := ?x in _) _ => destruct x
  | |- does _ _ _ (match ?x with _ => _ end) _ => destruct x eqn:?
  end.
