(* ===== verification/KmsHandlers.v ===== *)
(** * Cloud KMS: the writes of the handlers

    Each handler of server.go and delete.go, and each of the files beside them but
    hsm.go, makes only writes [write] allows, from contents that keep [Inv], over
    any store, whichever of its writes fails. *)

From S2P Require Import Prelude GoLib ApiError Resource MetaStore Paging IamPolicy Handler GoCrypto GoBinary NetHttp KmsModel KmsNames KmsFilter KmsStore KmsVersions KmsKeys KmsCrypt KmsKwp KmsImport KmsHsm KmsEkm KmsAutokey KmsSweep KmsInv KmsEffects.
From Stdlib Require Import Ascii.

Import strings time.

Section handlers.
Context {S : Type} `{MSL : MetaStoreLaws S doc} `{NET : Net} `{UNI : Unicode} `{TJ : TokenJSON}.
Context `{X : X509} `{RP : RsaPublic} `{HA : Hashes} `{OA : Oaep} `{AE : Aes} `{CRC : Crc32}.
Context (rs : warrant).
Implicit Types (s : Server S) (e : Env) (m : contents_).

Abbreviation H := (M Env (Server S)).
Abbreviation cts s := (contents (db s)).
Abbreviation any := (λ _ _, True).

(** ** What only reads *)

Lemma reads_toKey k : reads (toKey (S := S) k).
Proof. unfold toKey. solve_reads. Qed.
Lemma reads_backendUsable k : reads (backendUsable (S := S) k).
Proof. unfold backendUsable, now. solve_reads. Qed.
Lemma reads_portableInstance n : reads (portableInstance (S := S) n).
Proof. unfold portableInstance, now. solve_reads. Qed.
Lemma reads_hsmBackend a b : reads (hsmBackend (S := S) a b).
Proof. unfold hsmBackend, now. solve_reads. Qed.
Lemma reads_keyBackend a b : reads (keyBackend (S := S) a b).
Proof. unfold keyBackend. solve_reads. Qed.
Lemma reads_coordinatedPath c : reads (coordinatedPath (S := S) c).
Proof. unfold coordinatedPath. solve_reads. Qed.
Hint Resolve reads_toKey reads_backendUsable reads_portableInstance reads_hsmBackend reads_keyBackend reads_coordinatedPath : burrow.
Lemma reads_externalRef k o v : reads (externalRef (S := S) k o v).
Proof. unfold externalRef. solve_reads. Qed.
Lemma reads_newMaterial k : reads (newMaterial (S := S) k).
Proof. unfold newMaterial, generate. solve_reads. Qed.
Hint Resolve reads_externalRef reads_newMaterial : burrow.
Lemma reads_newVersion k n t st o : reads (newVersion (S := S) k n t st o).
Proof. unfold newVersion. solve_reads. Qed.
Hint Resolve reads_newVersion : burrow.
Lemma reads_with_backend k l b r : reads (with_backend (S := S) k l b r).
Proof. unfold with_backend. solve_reads. Qed.
Hint Resolve reads_with_backend : burrow.

(** ** The versions a handler makes *)

(** Only the reference to the external key differs. *)
Definition rereferenced (v v' : keyVersion) : Prop :=
  ∃ u p b, v' = set_kv_Backend (set_kv_KeyPath (set_kv_ExternalKeyURI v u) p) b.

Lemma rereferenced_refl v : rereferenced v v.
Proof. exists (kv_ExternalKeyURI v), (kv_KeyPath v), (kv_Backend v). by destruct v. Qed.

Lemma externalRef_result e s k o v v' : (externalRef k o v e s).2 = Ok v' → rereferenced v v'.
Proof.
  enough (does rs e s (externalRef k o v) (λ v' _, rereferenced v v')) as Hd
    by (intros Hr; destruct Hd as [_ Hd]; by rewrite Hr in Hd).
  unfold externalRef. destruct (ck_protectionLevel k); repeat does_step; try (by apply rereferenced_refl).
  - exists (from_option xo_Uri "" o), (kv_KeyPath v), (kv_Backend v). by destruct v.
  - apply does_reads; [auto with burrow|]. intros c Hc. repeat does_step.
    + apply does_reads; [auto with burrow|]. intros path _. repeat does_step.
      exists (kv_ExternalKeyURI v), path, (ec_Name c). by destruct v.
    + exists (kv_ExternalKeyURI v), (from_option xo_Path "" o), (ec_Name c). by destruct v.
  - apply does_reads; [auto with burrow|]. intros path _. repeat does_step.
    exists (kv_ExternalKeyURI v), path, (kv_Backend v). by destruct v.
  - exists (kv_ExternalKeyURI v), (from_option xo_Path "" o), (kv_Backend v). by destruct v.
Qed.

Lemma newVersion_result e s k n t st o v :
  (newVersion k n t st o e s).2 = Ok v →
  kv_Name v = versionName (ck_Name k) n ∧ state v = st ∧ kv_HsmTrusted v = false ∧ kv_Algorithm v = ck_Algorithm k ∧ kv_ProtectionLevel v = ck_ProtectionLevel k ∧
  (∃ spec, algorithms (ck_algorithm k) = Some spec ∧ rand_key e spec = Some (kv_Material v)).
Proof.
  unfold newVersion, newMaterial, generate, draw, ask, mbind, M_bind. set (v0 := mkKeyVersion _ _ _ _ _ _ _ _ _ _ _ _ _ _ _).
  pose proof (reads_externalRef k o v0 e s) as Hr. pose proof (externalRef_result e s k o v0) as Href.
  destruct (externalRef k o v0 e s) as [s' [v1|x]]; [|done]. cbn in Hr. subst s'. destruct (Href v1 eq_refl) as (u & p & b & ->).
  destruct (algorithms (ck_algorithm k)) as [spec|]; [|done]. destruct (rand_key e spec) as [mat|] eqn:Hmat; [|done].
  intros [= <-]. cbn. split_and!; [done| |done|done|done|by exists spec]. unfold v0, state. cbn. by case_bool_decide.
Qed.

(** ** The writes of a new version *)

Lemma version_ne_key k n k' : version_at k n ≠ key_at k'.
Proof. solve_dbKey. Qed.

Lemma slot_next m k : m !! key_at (ck_Name k) = Some (DKey k) → slot m (ck_Name k) (ck_Next k).
Proof. intros Hk. unfold slot. by rewrite Hk. Qed.

Lemma key_ok_step k k' :
  key_ok k → same_key k k' → (1 ≤ ck_Next k')%Z → (scheduled (ck_RotationPeriod k') (ck_NextRotation k') = true → ck_purpose k = ENCRYPT_DECRYPT) → key_ok k'.
Proof.
  intros (Hp & _ & Hd & _) (Hn & _ & Hpu & _ & Hds & _) Hnx Hs. unfold key_ok, destroyScheduled, ck_purpose in *. rewrite Hn, Hpu, Hds. done.
Qed.

(** A version put at its key's next number, and then the key with the number
    after it. *)
Lemma does_add_version {A} e s k v k' (rest : H A) (Q : A → Server S → Prop) :
  Inv (cts s) → cts s !! key_at (ck_Name k) = Some (DKey k) → kv_Name v = versionName (ck_Name k) (ck_Next k) → version_new v →
  same_key k k' → key_ok k' → ck_Next k' = (ck_Next k + 1)%Z →
  (ck_Primary k' = ck_Primary k ∨ ck_Primary k' = ck_Next k ∧ ck_purpose k = ENCRYPT_DECRYPT ∧ state v = ENABLED) →
  (∀ s', Inv (cts s') → cts s' = <[key_at (ck_Name k) := DKey k']> (<[version_at (ck_Name k) (ck_Next k) := DVersion v]> (cts s)) → does rs e s' rest Q) →
  does rs e s (put (dbKey versionPrefix (kv_Name v)) v ;; put (key_at (ck_Name k)) k' ;; rest) Q.
Proof.
  intros HI Hk Hv Hst Hsame Hok Hnext Hprim HQ. destruct (inv_home _ _ _ HI Hk) as [_ (Hp & Hn & _)]. does_step. rewrite Hv. apply does_put.
  { apply (w_version_new rs (clock_Now e) (cts s) (ck_Name k) (ck_Next k) v); [done..|]. by apply slot_next. }
  intros s' Hs'.
  assert (Inv (cts s')) as HI'. { rewrite Hs', <- Hv. apply (inv_insert _ (DVersion v) HI). exists (ck_Name k), (ck_Next k). done. }
  assert (cts s' !! key_at (ck_Name k) = Some (DKey k)) as Hk' by (rewrite Hs', lookup_insert_ne by apply version_ne_key; done).
  assert (cts s' !! version_at (ck_Name k) (ck_Next k) = Some (DVersion v)) as Hv' by (by rewrite Hs', lookup_insert_eq).
  assert (write rs (clock_Now e) (cts s') (<[key_at (ck_Name k) := DKey k']> (cts s'))) as Hw.
  { apply w_key; [done|]. split; [done|]. split; [done|]. split.
    - destruct Hprim as [Heq|(Heq & Hpu & He)]; [by left|]. right; left. rewrite Heq. split; [lia|]. split; [done|].
      exists v. split; [done|]. unfold effective. by rewrite He.
    - right. split; [done|]. by exists v. }
  does_step. apply does_put; [done|]. intros s'' Hs''. apply HQ; [rewrite Hs''; by eapply write_inv|]. by rewrite Hs'', Hs'.
Qed.

(** ** Names of deleted keys *)

Lemma reads_find_retired name keys : reads (find_retired (S := S) name keys).
Proof. induction keys as [|k keys IH]; cbn; solve_reads. Qed.
Lemma reads_isRetired name : reads (isRetired (S := S) name).
Proof. unfold isRetired. apply reads_bind; [done|]. intros keys. apply reads_find_retired. Qed.

Lemma find_retired_none e s name keys :
  (find_retired name keys e s).2 = Ok false → ∀ key r, key ∈ keys → cts s !! key = Some (DRetired r) → rr_Original r ≠ name.
Proof.
  induction keys as [|k keys IH]; cbn [find_retired]; intros Hf key r Hin Hr; [by apply not_elem_of_nil in Hin|].
  assert (does rs e s (r ← get (T := retiredResource) k;
                       match r with
                       | Some r => if bool_decide (rr_Original r = name) then mret true else find_retired name keys
                       | None => find_retired name keys
                       end) (λ b _, b = false → ∀ key r, key ∈ k :: keys → cts s !! key = Some (DRetired r) → rr_Original r ≠ name)) as Hd.
  { assert (∀ b, (find_retired name keys e s).2 = Ok b → b = false → ∀ key r, key ∈ keys → cts s !! key = Some (DRetired r) → rr_Original r ≠ name) as IH'
      by (intros b Hb ->; by apply IH).
    does_step. does_step.
    - apply does_reads; [apply reads_find_retired|]. intros b Hb -> key' r' [->|Hin']%elem_of_cons Hr'; [congruence|]. by eapply IH'.
    - destruct d as [| | |r0| | | | | | | | | ]; try done. match goal with Hx : of_doc _ = Some _ |- _ => injection Hx as <- end. cbn [on_read retired_record].
      destruct (bool_decide (rr_Original r0 = name)) eqn:Hb; [by apply does_ret|]. apply bool_decide_eq_false in Hb.
      apply does_reads; [apply reads_find_retired|]. intros b Hb' -> key' r' [->|Hin']%elem_of_cons Hr'; [by simplify_eq|]. by eapply IH'. }
  destruct Hd as [_ Hd]. rewrite Hf in Hd. by eapply Hd.
Qed.

Lemma retired_listed m name : Inv m → retired m name →
  ∃ key r, key ∈ list_keys m (retiredPrefix +:+ ReplaceAll (locationOf name) slash tilde +:+ "~") ∧ m !! key = Some (DRetired r) ∧ rr_Original r = name.
Proof.
  intros HI (key & r & Hr & Ho). destruct (inv_home _ _ _ HI Hr) as [Hh (id & Hn & Hk & _)]. exists key, r. split; [|done].
  apply elem_of_list_keys. split; [by exists (DRetired r)|]. rewrite Hh. unfold home, dbKey. cbn [doc_prefix doc_name].
  rewrite Hn, Ho. apply HasPrefix_spec. exists ("retiredResources~" +:+ ReplaceAll id slash tilde).
  assert (∀ a b, ReplaceAll (a +:+ b) slash tilde = ReplaceAll a slash tilde +:+ ReplaceAll b slash tilde) as Happ.
  { clear. intros a b. induction a as [|c a IH]; [done|]. rewrite app_cons. cbn. rewrite app_cons. by rewrite IH. }
  rewrite !Happ. rewrite !app_assoc. done.
Qed.

Lemma isRetired_none e s name : Inv (cts s) → (isRetired name e s).2 = Ok false → ¬ retired (cts s) name.
Proof.
  intros HI Hf Hret. destruct (retired_listed _ _ HI Hret) as (key & r & Hin & Hr & Ho).
  unfold isRetired, db_List, mbind, M_bind in Hf. cbn in Hf. rewrite List_law in Hf. by eapply (find_retired_none e s); [exact Hf|..].
Qed.

(** ** Rings and keys *)

Lemma does_ringHeld e s name (Q : bool → Server S → Prop) :
  Inv (cts s) → (∀ b s', Inv (cts s') → (∀ d, tracked d = true → cts s' !! home d = cts s !! home d) → Q b s') → does rs e s (ringHeld name) Q.
Proof.
  intros HI HQ. unfold ringHeld. repeat does_step; try (by apply HQ). apply does_delete.
  - apply w_other_delete. intros d' Hd'. destruct d; try done. by simplify_eq.
  - intros s' Hs'. does_step. apply HQ; rewrite Hs'; [by apply inv_delete|]. intros d' Ht. apply lookup_delete_ne.
    destruct d'; try done; solve_dbKey.
Qed.

Lemma child_ring parent id : parseLocation parent = Ok tt → idRE id = true → parseKeyRing (parent +:+ "/keyRings/" +:+ id) = Ok tt.
Proof. intros Hp Hi. apply parseKeyRing_ok. eauto. Qed.
Lemma child_key ring id : parseKeyRing ring = Ok tt → idRE id = true → parseCryptoKey (ring +:+ "/cryptoKeys/" +:+ id) = Ok tt.
Proof. intros Hp Hi. apply parseCryptoKey_ok. eauto. Qed.

Lemma CreateKeyRing_does e s parent id : Inv (cts s) → does rs e s (CreateKeyRing parent id) (λ _ s', Inv (cts s')).
Proof.
  intros HI. unfold CreateKeyRing. does_step. does_step. destruct a. repeat does_step; try done.
  match goal with Hx : negb _ = false |- _ => apply negb_false_iff in Hx; rename Hx into Hid end.
  apply does_attempt.
  - apply does_ringHeld; [done|]. intros b s' HI' _. destruct b; repeat does_step.
    apply does_put.
    + apply (w_other rs (clock_Now e) (cts s') (DRing (mkKeyRing (parent +:+ "/keyRings/" +:+ id) (clock_Now e) None))); [done|]. by apply child_ring.
    + intros s'' Hs''. does_step. rewrite Hs''. apply (inv_insert _ (DRing (mkKeyRing (parent +:+ "/keyRings/" +:+ id) (clock_Now e) None)) HI'). by apply child_ring.
  - intros x s' _. does_step.
Qed.

Lemma destroyScheduledOf_range k d : destroyScheduledOf k = Ok d → (minDestroyScheduled ≤ d ≤ maxDestroyScheduled)%Z.
Proof.
  unfold destroyScheduledOf. destruct (pk_destroy_scheduled k) as [x|]; [|intros [= <-]; vm_compute; split; discriminate].
  destruct (_ || _); [done|]. destruct (_ || _) eqn:Hr; [done|]. intros [= <-]. apply orb_false_iff in Hr. lia.
Qed.

Lemma checked_key_range input level alg d kaj period next :
  checked_key input = Ok (level, alg, d, kaj, period, next) →
  (minDestroyScheduled ≤ d ≤ maxDestroyScheduled)%Z ∧ (scheduled period next = true → pk_purpose input = ENCRYPT_DECRYPT).
Proof.
  unfold checked_key. intros H1. apply res_bind_ok in H1 as (? & _ & H1). apply res_bind_ok in H1 as (? & _ & H1).
  apply res_bind_ok in H1 as (? & _ & H1). apply res_bind_ok in H1 as (d' & Hd & H1). apply res_bind_ok in H1 as (? & _ & H1).
  apply res_bind_ok in H1 as (? & _ & H1). apply res_bind_ok in H1 as (? & _ & H1). destruct (_ && _) eqn:Hs; [done|].
  apply res_bind_ok in H1 as (? & _ & H1). injection H1 as <- <- <- <- <- <-. split; [by eapply destroyScheduledOf_range|].
  intros Hsc. rewrite Hsc in Hs. cbn in Hs. by apply negb_false_iff, bool_decide_eq_true in Hs.
Qed.

Lemma purposeOf_stored p : purposeOf (storedPurpose p) = p.
Proof. unfold purposeOf, storedPurpose. by case_bool_decide. Qed.

Lemma with_backend_result e s k l b r k' : (with_backend k l b r e s).2 = Ok k' → ∃ b' c, k' = set_ck_Coordinated (set_ck_Backend k b') c.
Proof.
  enough (does rs e s (with_backend k l b r) (λ k' _, ∃ b' c, k' = set_ck_Coordinated (set_ck_Backend k b') c)) as Hd
    by (intros Hr; destruct Hd as [_ Hd]; by rewrite Hr in Hd).
  unfold with_backend. destruct l; repeat does_step; try (exists (ck_Backend k), (ck_Coordinated k); by destruct k).
  - apply does_reads; [auto with burrow|]. intros c _. does_step. eauto.
  - apply does_reads; [auto with burrow|]. intros c _. does_step. exists c, (ck_Coordinated k). by destruct k.
Qed.

(** A key about to be made, of a free name. *)
Lemma does_new_key e s k skip trusted (Q : cryptoKey → Server S → Prop) :
  Inv (cts s) → key_ok k → cts s !! key_at (ck_Name k) = None → ¬ retired (cts s) (ck_Name k) →
  ck_Primary k = 0%Z → ck_Next k = 1%Z →
  (∀ k' s', Inv (cts s') → same_key k k' → key_new (cts s') k' → Q k' s') →
  does rs e s (if skip : bool then mret k
               else v ← newVersion k 1 (clock_Now e) ENABLED None;
                    let v := set_kv_TrustedWrapping v trusted in
                    put (dbKey versionPrefix (kv_Name v)) v ;;
                    let k := set_ck_Next k 2 in
                    mret (if bool_decide (ck_purpose k = ENCRYPT_DECRYPT) then set_ck_Primary k 1 else k)) Q.
Proof.
  intros HI Hok Hnone Hret Hpr Hn HQ. pose proof (proj1 Hok) as Hp. destruct skip.
  { does_step. apply HQ; [done|done|]. do 3 (split; [done|]). left. done. }
  does_step. apply does_reads; [auto with burrow|]. intros v Hv. apply newVersion_result in Hv as (Hname & Hst & Htr & _). cbv zeta. does_step.
  change (kv_Name (set_kv_TrustedWrapping v trusted)) with (kv_Name v). rewrite Hname. apply does_put.
  { apply (w_version_new rs _ _ (ck_Name k) 1); [done|lia|done| |unfold slot; by rewrite Hnone]. split; [left; exact Hst|done]. }
  intros s' Hs'. cbn [to_doc keyVersion_record] in Hs'. set (v' := set_kv_TrustedWrapping v trusted) in *.
  assert (Inv (cts s')) as HI'. { rewrite Hs', <- Hname. apply (inv_insert _ (DVersion v') HI). exists (ck_Name k), 1%Z. split; [done|]. by split. }
  assert (cts s' !! key_at (ck_Name k) = None) as Hnone' by (rewrite Hs', lookup_insert_ne by apply version_ne_key; done).
  assert (¬ retired (cts s') (ck_Name k)) as Hret'.
  { intros (key & r & Hr & Ho). apply Hret. exists key, r. split; [|done]. rewrite Hs' in Hr. by apply lookup_insert_Some in Hr as [[_ Hx]|[_ Hx]]. }
  assert (version_in (cts s') (ck_Name k) 1 (λ _, True)) as Hv1 by (exists v'; by rewrite Hs', lookup_insert_eq).
  does_step. apply HQ; [done|by destruct (bool_decide _)|].
  destruct (bool_decide (ck_purpose (set_ck_Next k 2) = ENCRYPT_DECRYPT)) eqn:Hpu.
  - apply bool_decide_eq_true in Hpu. split; [by apply (key_ok_step k)|]. do 2 (split; [done|]). right. split; [done|]. split; [done|]. by right.
  - split; [by apply (key_ok_step k), Hok|]. do 2 (split; [done|]). right. split; [done|]. split; [done|]. by left.
Qed.

Lemma CreateCryptoKey_does e s req : Inv (cts s) → does rs e s (CreateCryptoKey req) (λ _ s', Inv (cts s')).
Proof.
  intros HI. unfold CreateCryptoKey. does_step. does_step. destruct a. does_step. does_step.
  match goal with Hx : negb _ = false |- _ => apply negb_false_iff in Hx; rename Hx into Hid end.
  destruct (cr_key req) as [input|]; [|does_step]. does_step. does_step. destruct a as [[[[[level alg] d] kaj] period] next].
  match goal with Hx : checked_key _ = Ok _ |- _ => apply checked_key_range in Hx as [Hrange Hsched] end.
  match goal with Hx : parseKeyRing _ = Ok tt |- _ => pose proof (child_key _ _ Hx Hid) as Hkey end.
  set (name := cr_parent req +:+ "/cryptoKeys/" +:+ cr_id req) in *. does_step. does_step. does_step. does_step; [|does_step; does_step; done].
  rename H into Hnone || idtac. does_step. does_step. does_step. does_step. does_step. apply does_reads; [apply reads_isRetired|].
  intros ret Hret. does_step. does_step. subst ret. apply isRetired_none in Hret; [|done].
  set (k0 := mkCryptoKey _ _ _ _ _ _ _ _ _ _ _ _ _ _ _). does_step. apply does_reads; [auto with burrow|]. intros k Hk.
  apply with_backend_result in Hk as (b' & c' & ->). set (k := set_ck_Coordinated _ _) in *.
  assert (key_ok k) as Hdk.
  { split; [done|]. split; [done|]. unfold destroyScheduled, ck_purpose.
    cbn [k k0 ck_DestroyScheduled set_ck_Coordinated set_ck_Backend ck_Purpose ck_RotationPeriod ck_NextRotation].
    rewrite purposeOf_stored. split; [|done]. destruct (d =? 0)%Z; [|done]. vm_compute; split; discriminate. }
  assert (∀ s', s' = s → does rs e s' (k ← (if cr_skip_initial_version req then mret k
           else
             v ← newVersion k 1 (clock_Now e) ENABLED None;
             let v := set_kv_TrustedWrapping v (cr_trusted_wrapping req) in
             put (dbKey versionPrefix (kv_Name v)) v ;;
             let k := set_ck_Next k 2 in
             mret (if bool_decide (ck_purpose k = ENCRYPT_DECRYPT) then set_ck_Primary k 1 else k));
      put (dbKey keyPrefix name) k ;;
      when (negb (IsZero (ck_NextRotation k))) wake ;;
      toKey k) (λ _ s', Inv (cts s'))) as Hmain.
  { intros s' ->. does_step. apply does_new_key; try done. intros k' s' HI' Hsame Hnew.
    assert (name = ck_Name k') as -> by (destruct Hsame as (-> & _); done). does_step.
    assert (write rs (clock_Now e) (cts s') (<[key_at (ck_Name k') := DKey k']> (cts s'))) as Hw by by apply w_key_new.
    apply does_put; [done|]. intros s'' Hs''. assert (Inv (cts s'')) as HI'' by (rewrite Hs''; by eapply write_inv).
    does_step. does_step.
    - does_step. match goal with Hx : cts _ = cts s'' |- _ => rewrite <- Hx in HI'' end. apply does_reads; [auto with burrow|]. done.
    - apply does_reads; [auto with burrow|]. done. }
  repeat (first [ apply Hmain; done | does_step ]).
Qed.

(** ** Records as they are loaded *)

Lemma does_load_key e s name (Q : cryptoKey → Server S → Prop) :
  Inv (cts s) → parseCryptoKey name = Ok tt →
  (∀ k, cts s !! key_at name = Some (DKey k) → ck_Name k = name → key_ok k → Q k s) → does rs e s (load (T := cryptoKey) (key_at name)) Q.
Proof.
  intros HI Hp HQ. apply does_load. intros d k Hd Hk. destruct (key_named _ _ _ HI (key_plain _ Hp) Hd) as (k' & -> & Hn & Hnm).
  injection Hk as <-. by apply HQ.
Qed.

Lemma does_load_version e s name key n (Q : keyVersion → Server S → Prop) :
  Inv (cts s) → parseCryptoKeyVersion name = Ok (key, n) →
  (∀ v, cts s !! version_at key n = Some (DVersion v) → kv_Name v = versionName key n → Q (effective v (clock_Now e)) s) →
  does rs e s (load (T := keyVersion) (dbKey versionPrefix name)) Q.
Proof.
  intros HI Hp HQ. apply parseCryptoKeyVersion_ok in Hp as (-> & Hk & Hn). apply does_load. intros d v Hd Hv.
  destruct (version_named _ _ _ _ HI Hk (proj1 Hn) Hd) as (v' & -> & Hname). injection Hv as <-. by apply HQ.
Qed.

Lemma able_effective v t : able (state (effective v t)) → effective v t = v.
Proof. intros [Ha|Ha]; apply effective_live; by rewrite Ha. Qed.

(** The write of a version that was loaded. *)
Lemma does_put_version e s v v' (Q : unit → Server S → Prop) :
  Inv (cts s) → cts s !! dbKey versionPrefix (kv_Name v) = Some (DVersion v) → version_step (clock_Now e) v v' → kv_Name v' = kv_Name v →
  (∀ s', Inv (cts s') → cts s' = <[dbKey versionPrefix (kv_Name v) := DVersion v']> (cts s) → Q tt s') →
  does rs e s (put (dbKey versionPrefix (kv_Name v')) v') Q.
Proof.
  intros HI Hv Hstep -> HQ. assert (write rs (clock_Now e) (cts s) (<[dbKey versionPrefix (kv_Name v) := DVersion v']> (cts s))) as Hw by by apply w_version.
  apply does_put; [done|]. intros s' Hs'. apply HQ; [rewrite Hs'; by eapply write_inv|done].
Qed.

Lemma does_put_key e s k k' (Q : unit → Server S → Prop) :
  Inv (cts s) → cts s !! key_at (ck_Name k) = Some (DKey k) → key_step (clock_Now e) (cts s) k k' →
  (∀ s', Inv (cts s') → cts s' = <[key_at (ck_Name k) := DKey k']> (cts s) → Q tt s') → does rs e s (put (key_at (ck_Name k')) k') Q.
Proof.
  intros HI Hk Hstep HQ. assert (ck_Name k' = ck_Name k) as -> by (by destruct Hstep as [(-> & _) _]).
  assert (write rs (clock_Now e) (cts s) (<[key_at (ck_Name k) := DKey k']> (cts s))) as Hw by by apply w_key.
  apply does_put; [done|]. intros s' Hs'. apply HQ; [rewrite Hs'; by eapply write_inv|done].
Qed.

(** ** Versions *)

Lemma initial_state_able st st' : initial_state st = Ok st' → able st'.
Proof. destruct st; intros [= <-]; unfold able; auto. Qed.

Lemma CreateCryptoKeyVersion_does e s req : Inv (cts s) → does rs e s (CreateCryptoKeyVersion req) (λ _ s', Inv (cts s')).
Proof.
  intros HI. unfold CreateCryptoKeyVersion. does_step. does_step. destruct a. rename H into Hp. does_step. does_step.
  apply initial_state_able in H as Hable. does_step. apply does_load_key; [done|done|]. intros k Hk Hname Hnm.
  does_step. apply does_reads; [auto with burrow|]. intros [] _. rewrite <- Hname in Hk.
  assert (∀ s', s' = s → does rs e s' (t ← now;
     let n := ck_Next k in
     v ← newVersion k n t a (cv_external req);
     let v := set_kv_TrustedWrapping v (cv_trusted_wrapping req) in
     put (dbKey versionPrefix (kv_Name v)) v ;;
     put (dbKey keyPrefix (ck_Name k)) (set_ck_Next k (n + 1)) ;;
     mret (if pendingGeneration k v then pending (toVersion v) else toVersion v)) (λ _ s', Inv (cts s'))) as Hmain.
  { intros s' ->. does_step. does_step. cbv zeta. does_step. apply does_reads; [auto with burrow|]. intros v Hv. apply newVersion_result in Hv as (Hvn & Hst & Htr & _). set (v' := set_kv_TrustedWrapping v _).
    subst a.
    apply does_add_version; try done; [apply (key_ok_step k); [done|done|cbn; unfold key_ok in Hnm; lia|by apply Hnm]|by left]. }
  repeat (first [ apply Hmain; done | does_step ]).
Qed.

Lemma UpdateCryptoKeyPrimaryVersion_does e s name id : Inv (cts s) → does rs e s (UpdateCryptoKeyPrimaryVersion name id) (λ _ s', Inv (cts s')).
Proof.
  intros HI. unfold UpdateCryptoKeyPrimaryVersion. does_step. does_step. destruct a. rename H into Hp. does_step. does_step.
  apply versionNumber_ok in H as [_ Hn]. does_step. apply does_load_key; [done|done|]. intros k Hk Hname Hnm. does_step. does_step.
  apply negb_false_iff, bool_decide_eq_true in H. does_step.
  rewrite Hname. apply (does_load_version e s (versionName name a) name a); [done|by apply parse_versionName|]. intros v Hv Hvn.
  does_step. does_step. apply negb_false_iff, bool_decide_eq_true in H0. does_step.
  rewrite <- Hname in Hk, Hv.
  apply (does_put_key e s k); [done|done| |].
  - split; [done|]. split; [by apply (key_ok_step k); [..|apply Hnm|apply Hnm]|]. split; [|by left].
    right; left. split; [cbn; lia|]. split; [done|]. by exists v.
  - intros s' HI' _. apply does_reads; [auto with burrow|]. done.
Qed.

Lemma rereferenced_same v v' : rereferenced v v' → same_version v v' ∧ kv_Material v' = kv_Material v ∧ state v' = state v.
Proof. intros (u & p & b & ->). by destruct v. Qed.

Lemma able_bool st : negb (bool_decide (st = ENABLED)) && negb (bool_decide (st = DISABLED)) = false → able st.
Proof. unfold able. intros H1. apply andb_false_iff in H1 as [H1|H1]; apply negb_false_iff, bool_decide_eq_true in H1; auto. Qed.

Lemma UpdateCryptoKeyVersion_does e s req : Inv (cts s) → does rs e s (UpdateCryptoKeyVersion req) (λ _ s', Inv (cts s')).
Proof.
  intros HI. unfold UpdateCryptoKeyVersion. does_step. does_step. destruct a as [key n]. rename H into Hp. does_step. does_step. does_step. does_step.
  destruct a as [setState external]. does_step. does_step. rename H1 into Htarget. does_step. apply (does_load_version e s _ key n); [done|done|].
  intros v Hv Hvn. does_step. does_step. apply able_bool in H1 as Hable. pose proof (able_effective _ _ Hable) as Heff. rewrite Heff in *.
  apply parseCryptoKeyVersion_ok in Hp as (Hreq & Hkey & Hn). rewrite <- Hvn in Hv.
  assert (∀ v', rereferenced v v' → does rs e s
     (let v := if setState then set_kv_State v' (Some (uv_state req)) else v' in
      put (dbKey versionPrefix (kv_Name v)) v ;; mret (toVersion v)) (λ _ s', Inv (cts s'))) as Hmain.
  { intros v' Hr. apply rereferenced_same in Hr as (Hsame & Hmat & Hst). cbv zeta. set (v'' := if setState then _ else _).
    assert (same_version v v'' ∧ kv_Material v'' = kv_Material v ∧ able (state v'')) as (Hs2 & Hm2 & Ha2).
    { unfold v''. destruct setState; (split; [done|]; split; [done|]); [|by rewrite Hst]. by apply able_bool. }
    does_step. apply (does_put_version e s v); [done|done| |by destruct Hs2 as (-> & _)|].
    - apply vs_live; [done|done|]. apply lc_set; [by rewrite Heff|done].
    - intros s' HI' _. by does_step. }
  destruct (bool_decide (external = [])) eqn:Hext; [does_step; does_step; by apply Hmain, rereferenced_refl|].
  does_step. does_step. apply does_load_key; [done|done|]. intros k Hk _ _. does_step. does_step. cbv zeta. does_step. does_step.
  apply does_reads; [auto with burrow|]. intros v' Hv'. apply Hmain. apply externalRef_result in Hv' as (u & p & b & ->). exists u, p, b. by destruct v.
Qed.

Lemma DestroyCryptoKeyVersion_does e s name : Inv (cts s) → does rs e s (DestroyCryptoKeyVersion name) (λ _ s', Inv (cts s')).
Proof.
  intros HI. unfold DestroyCryptoKeyVersion. does_step. does_step. destruct a as [key n]. rename H into Hp. does_step.
  apply (does_load_version e s _ key n); [done|done|]. intros v Hv Hvn. does_step. does_step. apply able_bool in H as Hable.
  pose proof (able_effective _ _ Hable) as Heff. rewrite Heff in *. apply parseCryptoKeyVersion_ok in Hp as (Hreq & Hkey & Hn). rewrite <- Hvn in Hv.
  does_step. apply does_load_key; [done|done|]. intros k Hk _ (_ & _ & Hd & _). does_step. does_step. cbv zeta. does_step.
  apply (does_put_version e s v); [done|done| |done|].
  - apply vs_live; [done|done|]. apply lc_schedule; [by rewrite Heff|done|]. cbn. unfold Add. lia.
  - intros s' HI' _. does_step. does_step. does_step. match goal with Hx : cts _ = cts s' |- _ => by rewrite Hx end.
Qed.

Lemma RestoreCryptoKeyVersion_does e s name : Inv (cts s) → does rs e s (RestoreCryptoKeyVersion name) (λ _ s', Inv (cts s')).
Proof.
  intros HI. unfold RestoreCryptoKeyVersion. does_step. does_step. destruct a as [key n]. rename H into Hp. does_step.
  apply (does_load_version e s _ key n); [done|done|]. intros v Hv Hvn. does_step. does_step.
  apply negb_false_iff, bool_decide_eq_true in H. assert (effective v (clock_Now e) = v) as Heff by (apply effective_live; by rewrite H).
  rewrite Heff in *. rewrite <- Hvn in Hv. cbv zeta. does_step.
  apply (does_put_version e s v); [done|done| |done|].
  - apply vs_live; [done|done|]. apply lc_restore; [by rewrite Heff|done].
  - intros s' HI' _. does_step. does_step. does_step. match goal with Hx : cts _ = cts s' |- _ => by rewrite Hx end.
Qed.

(** ** UpdateCryptoKey *)

Lemma masked_key_same k input mk k' :
  masked_key k input mk = Ok k' →
  same_key k k' ∧ ck_Primary k' = ck_Primary k ∧ ck_Next k' = ck_Next k ∧
  (scheduled (ck_RotationPeriod k') (ck_NextRotation k') = true → ck_purpose k = ENCRYPT_DECRYPT).
Proof.
  unfold masked_key. cbv zeta. set (k1 := if km_labels mk then _ else k).
  set (k2 := from_option (set_ck_RotationPeriod k1) k1 (km_period mk)). set (k3 := from_option (set_ck_NextRotation k2) k2 (km_next mk)).
  set (k4 := from_option (set_ck_KAJPolicy k3) k3 (km_kaj mk)). intros H1. apply res_bind_ok in H1 as ([] & _ & H1).
  apply res_bind_ok in H1 as (k5 & H5 & H1).
  assert (k5 = k' ∧ (scheduled (ck_RotationPeriod k5) (ck_NextRotation k5) = true → ck_purpose k5 = ENCRYPT_DECRYPT)) as [-> Hsched].
  { destruct (_ && _) eqn:Hs; [done|]. destruct (_ && manualExternal _); [done|]. apply res_bind_ok in H1 as ([] & _ & [= <-]). split; [done|].
    intros Hsc. rewrite Hsc in Hs. by apply negb_false_iff, bool_decide_eq_true in Hs. }
  assert (same_key k k4 ∧ ck_Primary k4 = ck_Primary k ∧ ck_Next k4 = ck_Next k) as Hk4
    by (unfold k4, k3, k2, k1; destruct (km_labels mk), (km_period mk), (km_next mk), (km_kaj mk); done).
  assert (same_key k k' ∧ ck_Primary k' = ck_Primary k ∧ ck_Next k' = ck_Next k) as (Hsame & Hp & Hn).
  { destruct (km_algorithm mk) as [alg|]; cbn [from_option] in H5; [|by injection H5 as <-]. apply res_bind_ok in H5 as (a & _ & [= <-]). done. }
  split_and!; [by apply Hsame..|done|done|]. destruct Hsame as (_ & _ & Hpu & _). unfold ck_purpose in *. by rewrite <- Hpu.
Qed.

Lemma UpdateCryptoKey_does e s input paths : Inv (cts s) → does rs e s (UpdateCryptoKey input paths) (λ _ s', Inv (cts s')).
Proof.
  intros HI. unfold UpdateCryptoKey. does_step. does_step. destruct a. rename H into Hp. does_step. does_step. does_step. does_step. does_step.
  apply does_load_key; [done|done|]. intros k Hk Hname Hnm. does_step. does_step. apply masked_key_same in H1 as (Hsame & Hpr & Hnx & Hsched).
  rewrite <- Hname in Hk. does_step. apply (does_put_key e s k); [done|done| |].
  - split; [done|]. split; [|split; by left]. by apply (key_ok_step k); [..|rewrite Hnx; apply Hnm|].
  - intros s' HI' _. does_step. does_step; [|apply does_reads; [auto with burrow|done]].
    does_step. match goal with Hx : cts _ = cts s' |- _ => rewrite <- Hx in HI' end. apply does_reads; [auto with burrow|done].
Qed.

(** ** Deletion *)

Lemma DeleteCryptoKeyVersion_does e s name : Inv (cts s) → does rs e s (DeleteCryptoKeyVersion name) (λ _ s', Inv (cts s')).
Proof.
  intros HI. unfold DeleteCryptoKeyVersion. does_step. does_step. destruct a as [key n]. rename H into Hp. does_step.
  apply (does_load_version e s _ key n); [done|done|]. intros v Hv Hvn. does_step. does_step. does_step. does_step.
  apply negb_false_iff, bool_decide_eq_true in H. apply parseCryptoKeyVersion_ok in Hp as (Hreq & Hkey & Hn).
  does_step. apply does_load_key; [done|done|]. intros k Hk Hname Hnm. rewrite effective_name, Hvn.
  assert (∀ s' k', Inv (cts s') → cts s' !! version_at key n = Some (DVersion v) → cts s' !! key_at key = Some (DKey k') → ck_Primary k' ≠ n →
    does rs e s' (db_Delete (version_at key n) ;; doneOperation (locationOf (versionName key n))) (λ _ s', Inv (cts s'))) as Hmain.
  { intros s' k' HI' Hv' Hk' Hne. does_step. apply does_delete; [by apply (w_version_delete rs _ _ key n v k'); [done|done|lia|..]|].
    intros s'' Hs''. does_step. rewrite Hs''. by apply inv_delete. }
  does_step. does_step; [|apply (Hmain s k); try done; by apply Z.eqb_neq].
  apply Z.eqb_eq in H1. rewrite <- Hname in Hk.
  apply (does_put_key e s k (set_ck_Primary k 0)); [done|done| |].
  - split; [done|]. split; [by apply (key_ok_step k); [..|apply Hnm|apply Hnm]|]. split; [|by left].
    right; right. split; [done|]. exists v. rewrite H1, Hname. done.
  - intros s' HI' Hs'. apply (Hmain s' (set_ck_Primary k 0)); [done|..]; rewrite ?Hs'; [|by rewrite Hname, lookup_insert_eq|cbn; lia].
    by rewrite lookup_insert_ne by (intros Hx; by apply (version_ne_key key n (ck_Name k))).
Qed.

Lemma reads_autokeyKey key : reads (autokeyKey (S := S) key).
Proof.
  unfold autokeyKey. apply reads_bind; [done|]. intros hs. induction hs as [|h hs IH]; cbn; [apply reads_ret|]. solve_reads.
Qed.

(** The random part of a new retired resource's name is new. *)
Definition fresh (e : Env) (m : contents_) : Prop :=
  ∀ id loc, rand_id e = Some id → m !! dbKey retiredPrefix (loc +:+ "/retiredResources/" +:+ id) = None.

Lemma DeleteCryptoKey_does e s name :
  Inv (cts s) → env_ok e → fresh e (cts s) →
  does rs e s (DeleteCryptoKey name) (λ _ s', parseCryptoKey name = Ok tt ∧ cts s' !! key_at name = None ∧ retired (cts s') name).
Proof.
  intros HI Henv Hfresh. unfold DeleteCryptoKey. does_step. does_step. destruct a. rename H into Hp. does_step.
  apply does_load_key; [done|done|]. intros k Hk Hname Hnm. does_step. apply does_list. intros names Hnames. does_step. does_step.
  apply Nat.ltb_ge in H. assert (names = []) as -> by (destruct names; [done|cbn in H; lia]). does_step. does_step. does_step.
  apply does_reads; [apply reads_autokeyKey|]. intros autokey _. does_step. does_step. does_step.
  unfold randomID, draw. does_step. does_step. destruct (rand_id e) as [id|] eqn:Hid; [|does_step]. does_step. does_step. does_step. cbv zeta.
  set (r := mkRetired _ _ _). does_step. rewrite <- Hname in Hk.
  assert (named (DRetired r)) as Hr by (exists id; split_and!; [done|by destruct Hnm|by apply (env_id e Henv)]).
  assert (write rs (clock_Now e) (cts s) (<[dbKey retiredPrefix (rr_Name r) := DRetired r]> (cts s))) as Hw by (apply w_retired; [by apply Hfresh|done]).
  apply does_put; [done|]. intros s' Hs'. cbn [to_doc retired_record] in Hs'. assert (Inv (cts s')) as HI' by (rewrite Hs'; by eapply write_inv).
  does_step. apply does_delete.
  - apply w_key_delete.
    + rewrite Hs', lookup_insert_ne by solve_dbKey. done.
    + exists (dbKey retiredPrefix (rr_Name r)), r. by rewrite Hs', lookup_insert_eq.
    + intros n Hn. rewrite Hs', lookup_insert_ne by solve_dbKey. destruct (cts s !! version_at (ck_Name k) n) as [d|] eqn:Hd; [|done].
      destruct (version_named _ _ _ _ HI (proj1 Hnm) Hn Hd) as (v & -> & Hvn). exfalso.
      assert (doc_name (DVersion v) ∈ @nil string) as Hin; [|by apply not_elem_of_nil in Hin].
      apply Hnames; [unfold home; cbn; by rewrite Hvn|done|cbn; rewrite Hvn; apply version_plain; [apply key_plain, Hnm|done]|].
      cbn. rewrite Hvn. unfold versionName. apply HasPrefix_spec. exists ("cryptoKeyVersions/" +:+ strconv.Itoa n). by rewrite app_assoc.
  - intros s'' Hs''. does_step. rewrite Hs'', Hname. split; [done|]. split; [apply lookup_delete_eq|].
    exists (dbKey retiredPrefix (rr_Name r)), r. by rewrite lookup_delete_ne, Hs', lookup_insert_eq by solve_dbKey.
Qed.

End handlers.

(** ** Cloud KMS: the writes of rings, sweeps, imports and the other services

    The handlers of deletering.go, rotation.go, import.go, trusted.go, ekm.go, iam.go
    and autokey.go, as KmsHandlers.v has those of keys and versions. *)

Section writes.
Context {S : Type} `{MSL : MetaStoreLaws S doc} `{NET : Net} `{UNI : Unicode} `{TJ : TokenJSON}.
Context `{X : X509} `{RP : RsaPublic} `{HA : Hashes} `{OA : Oaep} `{AE : Aes} `{CRC : Crc32} `{CR : Crypto} `{JT : JsonText} `{CE : Certificates}.
Context (rs : warrant).
Implicit Types (s : Server S) (e : Env) (m : contents_).

Abbreviation H := (M Env (Server S)).
Abbreviation cts s := (contents (db s)).

Hint Resolve reads_toKey reads_backendUsable reads_portableInstance reads_hsmBackend reads_keyBackend reads_newVersion : burrow.

(** ** Records no theorem follows *)

(** A put of a record of its own kind. *)
Lemma does_put_other {T} `{Record_ T} e s key (v : T) (Q : unit → Server S → Prop) :
  Inv (cts s) → tracked (to_doc v) = false → named (to_doc v) → key = home (to_doc v) → (∀ s', Inv (cts s') → Q tt s') → does rs e s (put key v) Q.
Proof.
  intros HI Ht Hn -> HQ. apply does_put; [by apply w_other|]. intros s' Hs'. apply HQ. rewrite Hs'. by apply inv_insert.
Qed.

(** A deletion under the prefix of such a record. *)
Lemma does_delete_other e s p name (Q : unit → Server S → Prop) :
  Inv (cts s) → p ∈ [ringPrefix; importJobPrefix] → (∀ s', Inv (cts s') → Q tt s') → does rs e s (db_Delete (dbKey p name)) Q.
Proof.
  intros HI Hp HQ. apply does_delete.
  - apply w_other_delete. intros d Hd. assert (p ∈ prefixes) as Hin by (unfold prefixes; set_solver).
    pose proof (home_prefix _ _ _ _ HI Hin Hd) as <-. by destruct d; set_solver.
  - intros s' Hs'. apply HQ. rewrite Hs'. by apply inv_delete.
Qed.

Lemma reads_jobs_expired t names : reads (jobs_expired (S := S) t names).
Proof. induction names as [|n names IH]; cbn; solve_reads. Qed.

Lemma DeleteKeyRing_does e s name : Inv (cts s) → does rs e s (DeleteKeyRing name) (λ _ s', Inv (cts s')).
Proof.
  intros HI. unfold DeleteKeyRing. does_step. does_step. destruct a. rename H into Hp. does_step. does_step.
  destruct d; try done. injection H0 as <-. destruct (inv_home _ _ _ HI H) as [Hh Hn]. apply dbKey_inj in Hh; [|by apply ring_plain..].
  cbn in Hh. subst name. cbn [on_read keyRing_record]. does_step. apply does_list_any. intros keys. does_step. does_step. does_step.
  apply does_list_any. intros jobs. does_step. does_step. does_step. apply does_reads; [apply reads_jobs_expired|]. intros [] _.
  does_step. apply does_put_other; [done..|]. intros s1 HI1. does_step.
  assert (∀ s', Inv (cts s') → does rs e s' (each (λ n, db_Delete (dbKey importJobPrefix n)) jobs) (λ _ s'', Inv (cts s''))) as Heach.
  { clear. induction jobs as [|j jobs IH]; intros s' HI'; cbn [each]; [by does_step|]. does_step.
    apply does_delete_other; [done|set_solver|]. done. }
  eapply does_mono; [|by apply Heach]. cbn beta. intros x s2 HI2. does_step. apply does_delete_other; [done|set_solver|]. intros s3 HI3. by does_step.
Qed.

(** ** Sweeps *)

Lemma does_raw {T} `{Record_ T} e s key (Q : option T → Server S → Prop) :
  (cts s !! key = None → Q None s) → (∀ d v, cts s !! key = Some d → of_doc d = Some v → Q (Some v) s) → does rs e s (raw key) Q.
Proof.
  intros Hn Hs. unfold does, wp, raw. cbn [fst snd]. split; [done|]. rewrite Get_law.
  destruct (checkKey key) as [[]|x] eqn:Hc; cbn [mbind res_bind].
  - destruct (cts s !! key) as [d|] eqn:Hd; [|cbn; by apply Hn]. destruct (of_doc d) as [v|] eqn:Hv; [|done]. by eapply Hs.
  - unfold checkKey in Hc. destruct (SafeKey key); [done|]. injection Hc as <-. done.
Qed.

(** The sweep's clock reading may be older than the step. *)
Lemma destroyDue_does e s key t : Inv (cts s) → (t ≤ clock_Now e)%Z → does rs e s (destroyDue key t) (λ _ s', Inv (cts s')).
Proof.
  intros HI Ht. unfold destroyDue. does_step. apply does_raw; [intros _; by does_step|]. intros d v Hd Hv. destruct d; try done. injection Hv as ->.
  destruct (inv_home _ _ _ HI Hd) as [-> _]. destruct (bool_decide (state v = DESTROY_SCHEDULED)) eqn:Hst; cbn [negb]; [|by does_step].
  apply bool_decide_eq_true in Hst. cbv zeta. does_step; [|done]. apply bool_decide_eq_true in H. unfold home. cbn [doc_prefix doc_name].
  rewrite <- (effective_name v t) at 1. apply (does_put_version rs e s v); [done|done| |apply effective_name|done].
  by apply (vs_destroy _ _ _ t).
Qed.

Lemma rotateDue_does e s key t : Inv (cts s) → does rs e s (rotateDue key t) (λ _ s', Inv (cts s')).
Proof.
  intros HI. unfold rotateDue. does_step. apply does_raw; [intros _; by does_step|]. intros d k Hd Hk. destruct d; try done. injection Hk as ->.
  destruct (inv_home _ _ _ HI Hd) as [-> (Hp & Hn & Hdr & Hpu)].
  destruct (IsZero (ck_NextRotation k) || Before t (ck_NextRotation k)) eqn:Hz; [by does_step|]. apply orb_false_iff in Hz as [Hz _].
  unfold scheduled in Hpu. rewrite Hz, orb_true_r in Hpu. specialize (Hpu eq_refl). cbv zeta. does_step.
  apply does_reads; [auto with burrow|]. intros v Hv. apply (newVersion_result rs) in Hv as (Hvn & Hst & Htr & _).
  change (home (DKey k)) with (key_at (ck_Name k)).
  apply does_add_version; try done; [split; [by left|done]| |by right]. split_and!; cbn; try done; [lia|apply Hdr..].
Qed.

(** ** Imports *)

(** What an import leaves in the store. *)
Definition added (k : cryptoKey) (v : keyVersion) (m m' : contents_) : Prop :=
  m' = <[key_at (ck_Name k) := DKey (set_ck_Next k (ck_Next k + 1))]> (<[version_at (ck_Name k) (ck_Next k) := DVersion v]> m).

Lemma does_add_imported e s k v : Inv (cts s) → cts s !! key_at (ck_Name k) = Some (DKey k) → kv_Name v = versionName (ck_Name k) (ck_Next k) →
  version_new v → does rs e s (add_version k v) (λ pv s', Inv (cts s') ∧ pv = toVersion v ∧ added k v (cts s) (cts s')).
Proof.
  intros HI Hk Hv Hst. destruct (inv_home _ _ _ HI Hk) as [_ Hok]. cbn [named] in Hok. unfold add_version.
  apply does_add_version; try done; [|by left]. apply (key_ok_step k); [done|done|unfold key_ok in Hok; cbn; lia|by apply Hok].
Qed.

Lemma CreateImportJob_does e s req : Inv (cts s) → does rs e s (CreateImportJob req) (λ _ s', Inv (cts s')).
Proof.
  intros HI. unfold CreateImportJob. does_step. does_step. destruct a. does_step. does_step. cbv zeta. does_step. does_step.
  destruct (importMethods (cj_method req)) as [spec|]; [|does_step]. does_step. does_step. does_step. does_step. does_step. does_step. does_step. does_step.
  does_step. apply does_reads; [auto with burrow|]. intros der _. does_step. does_step. does_step. does_step; [|does_step; does_step; done].
  does_step. does_step. does_step. does_step. does_step.
  assert (∀ backend, does rs e s
    (let j := mkImportJob (cj_parent req +:+ "/importJobs/" +:+ cj_id req) (cj_method req) (clock_Now e) der (storedLevel a) backend in
     put (dbKey importJobPrefix (cj_parent req +:+ "/importJobs/" +:+ cj_id req)) j ;; lift (toImportJob (clock_Now e) j)) (λ _ s', Inv (cts s'))) as Hmain.
  { intros backend. cbv zeta. does_step. apply does_put_other; [done..|]. intros s' HI'. by does_step. }
  destruct (bool_decide (a = HSM_SINGLE_TENANT)); [apply does_reads; [auto with burrow|]; intros b _; apply Hmain|does_step; apply Hmain].
Qed.

Lemma ImportCryptoKeyVersion_does e s req : Inv (cts s) → does rs e s (ImportCryptoKeyVersion req) (λ _ s', Inv (cts s')).
Proof.
  intros HI. unfold ImportCryptoKeyVersion. does_step. does_step. destruct a. rename H into Hp. do 4 does_step. cbv zeta. do 4 does_step.
  does_step. apply does_load_key; [done|done|]. intros k Hk Hname _. rewrite <- Hname in Hk. does_step. does_step. does_step. does_step.
  do 4 does_step. does_step. apply does_reads; [auto with burrow|]. intros [] _.
  assert (∀ j mat, does rs e s (add_version k (imported_version k (clock_Now e) mat (im_algorithm req) (ij_Name j) (im_trusted_wrapping req))) (λ _ s', Inv (cts s')))
    as Hmain by (intros j mat; eapply does_mono; [|apply does_add_imported; try done; split; [by left|done]]; by intros ? ? []).
  repeat (first [ apply Hmain | does_step ]).
Qed.

Lemma reads_wrappingVersion name trusted : reads (wrappingVersion (S := S) name trusted).
Proof. unfold wrappingVersion, now. solve_reads. Qed.
Lemma reads_newest rec name n : (∀ x, reads (rec x)) → reads (newest_trusted (S := S) rec name n).
Proof. intros Hrec. induction n as [|n IH]; cbn; unfold now; solve_reads. Qed.
Lemma reads_importingVersion name : reads (importingVersion (S := S) name).
Proof.
  assert (∀ rec x, (∀ y, reads (rec y)) → reads (importing_body (S := S) rec x)) as Hb.
  { intros rec x Hrec. unfold importing_body. destruct (parseCryptoKey x).
    - apply reads_bind; [auto with burrow|]. intros k. by apply reads_newest.
    - apply reads_bind; [apply reads_wrappingVersion|]. intros [v k]. solve_reads. }
  unfold importingVersion. apply Hb. intros y. apply Hb. done.
Qed.

Lemma ImportTrusted_does e s req : Inv (cts s) → does rs e s (ImportTrustedKeyWrappedCryptoKeyVersion req) (λ _ s', Inv (cts s')).
Proof.
  intros HI. unfold ImportTrustedKeyWrappedCryptoKeyVersion. does_step. does_step. destruct a. rename H into Hp. do 6 does_step. cbv zeta. do 4 does_step.
  does_step. apply does_load_key; [done|done|]. intros k Hk Hname _. rewrite <- Hname in Hk. do 4 does_step. does_step.
  apply does_reads; [auto with burrow|]. intros [] _. does_step. apply does_reads; [apply reads_importingVersion|]. intros [w wk] _.
  destruct (unwrapKWP (kv_Material w) (it_wrapped req)) as [raw_|]; [|does_step]. does_step. does_step. does_step. does_step.
  eapply does_mono; [|apply does_add_imported; try done; split; [by left|done]]. by intros ? ? [].
Qed.

(** ** External key managers, policies and Autokey *)

Lemma CreateEkmConnection_does e s parent id input : Inv (cts s) → does rs e s (CreateEkmConnection parent id input) (λ _ s', Inv (cts s')).
Proof.
  intros HI. unfold CreateEkmConnection. do 4 does_step. destruct input as [input|]; [|does_step]. do 4 does_step. cbv zeta. do 4 does_step; do 3 does_step; try done.
  apply does_put_other; [done..|]. intros s' HI'. by does_step.
Qed.

Lemma UpdateEkmConnection_does e s input paths : Inv (cts s) → does rs e s (UpdateEkmConnection input paths) (λ _ s', Inv (cts s')).
Proof.
  intros HI. unfold UpdateEkmConnection. do 7 does_step. does_step. does_step. does_step. cbv zeta. do 3 does_step.
  apply does_put_other; [done..|]. intros s' HI'. by does_step.
Qed.

Lemma UpdateEkmConfig_does e s name def paths : Inv (cts s) → does rs e s (UpdateEkmConfig name def paths) (λ _ s', Inv (cts s')).
Proof.
  intros HI. unfold UpdateEkmConfig. do 6 does_step.
  assert (does rs e s (c ← get (T := ekmConfig) (dbKey ekmConfigPrefix name);
    let policy := c ≫= ef_IAMPolicy in
    put (dbKey ekmConfigPrefix name) (mkEkmConfig name def policy) ;;
    mret (name, def)) (λ _ s', Inv (cts s'))) as Hmain.
  { does_step. does_step; cbv zeta; does_step; (apply does_put_other; [done..|]; intros s' HI'; by does_step). }
  repeat (first [ apply Hmain | does_step ]).
Qed.

Lemma SetIamPolicy_does e s resource req : Inv (cts s) → does rs e s (SetIamPolicy resource req) (λ _ s', Inv (cts s')).
Proof.
  intros HI. unfold SetIamPolicy. does_step. does_step. does_step.
  enough (does rs e s (setPolicy a resource req) (λ _ s', Inv (cts s'))) as Hd by (revert Hd; apply does_mono; intros x s' HI'; by does_step).
  destruct a; cbn [setPolicy]; unfold apply_policy.
  - does_step. does_step. destruct d; try done. match goal with Hx : of_doc _ = Some _ |- _ => injection Hx as -> end.
    destruct (inv_home _ _ _ HI H0) as [-> Hn]. do 4 does_step. does_step. apply does_put_other; [done..|]. intros s' HI'. by does_step.
  - does_step. does_step. destruct d; try done. match goal with Hx : of_doc _ = Some _ |- _ => injection Hx as -> end.
    destruct (inv_home _ _ _ HI H0) as [Hh Hn]. rewrite Hh in *. do 4 does_step. does_step.
    apply (does_put_key rs e s v (set_ck_IAMPolicy v (Some a))); [done|done| |intros s' HI' _; by does_step].
    split; [done|]. split; [exact Hn|]. split; by left.
  - does_step. assert (∀ r : ekmConfig, dbKey ekmConfigPrefix resource = home (DConfig r) →
      does rs e s (rnd ← ask rand_etag; next ← lift (IamPolicy.Set_ (ef_IAMPolicy r) req rnd);
                   put (dbKey ekmConfigPrefix resource) (mkEkmConfig (ef_Name r) (ef_Default r) (Some next)) ;; mret next) (λ _ s', Inv (cts s'))) as Hmain.
    { intros r ->. do 5 does_step. apply does_put_other; [done..|]. intros s' HI'. by does_step. }
    does_step; [by apply (Hmain (mkEkmConfig resource "" None))|]. destruct d; try done.
    match goal with Hx : of_doc _ = Some _ |- _ => injection Hx as -> end. destruct (inv_home _ _ _ HI H0) as [Hh _]. by apply (Hmain v).
  - does_step. does_step. destruct d; try done. match goal with Hx : of_doc _ = Some _ |- _ => injection Hx as -> end.
    destruct (inv_home _ _ _ HI H0) as [-> Hn]. do 4 does_step. does_step. apply does_put_other; [done..|]. intros s' HI'. by does_step.
Qed.

Lemma UpdateAutokeyConfig_does e s input paths : Inv (cts s) → does rs e s (UpdateAutokeyConfig input paths) (λ _ s', Inv (cts s')).
Proof.
  intros HI. unfold UpdateAutokeyConfig. do 6 does_step. destruct a0 as [sp sm]. do 2 does_step. does_step. does_step. does_step. does_step.
  assert (∀ c, does rs e s (let c := c in
    refuse (negb (bool_decide (ai_etag input = "")) && negb (bool_decide (ai_etag input = ac_etag c))) Aborted ;;
    c ← lift (masked_config c input sp sm);
    put (dbKey autokeyConfigPrefix (ac_Name c)) c ;;
    mret (autokey_proto c)) (λ _ s', Inv (cts s'))) as Hmain.
  { intros c. cbv zeta. do 5 does_step. apply does_put_other; [done..|]. intros s' HI'. by does_step. }
  does_step. does_step; apply Hmain.
Qed.

Lemma reads_first_config project chain : reads (first_config (S := S) project chain).
Proof. induction chain as [|r chain IH]; cbn; solve_reads. Qed.

Lemma CreateKeyHandle_does e s resolver parent id sel : Inv (cts s) → does rs e s (CreateKeyHandle resolver parent id sel) (λ _ s', True).
Proof.
  intros HI. unfold CreateKeyHandle. do 4 does_step. cbv zeta. does_step. does_step.
  destruct (resourceTypeRE sel) as [[svc typ]|]; [|does_step]. does_step. does_step; [|do 2 does_step; done]. do 2 does_step.
  does_step. unfold effectiveKeyProject. apply does_reads; [apply reads_bind; [done|]; intros h; apply reads_first_config|].
  intros kp _. do 2 does_step.
  assert (∀ s', Inv (cts s') → does rs e s' (
      suffix ← ask rand_path;
      let keyID := strconv.Itoa (ProjectNumber resolver (TrimPrefix kp "projects/")) +:+ "-" +:+ svc +:+ "-" +:+ ToLower typ +:+ "-"
                     +:+ take_bytes 8 (default "00000000" suffix) in
      t ← now;
      key ← CreateCryptoKey (autokey_request ((kp +:+ "/locations/" +:+ default "" (Split parent slash !! 3)) +:+ "/keyRings/" +:+ autokeyRing) keyID t);
      existing ← get (T := keyHandle) (dbKey keyHandlePrefix (parent +:+ "/keyHandles/" +:+ (if bool_decide (id = "") then new_uuid e else id)));
      refuse (bool_decide (is_Some existing)) AlreadyExists ;;
      put (dbKey keyHandlePrefix (parent +:+ "/keyHandles/" +:+ (if bool_decide (id = "") then new_uuid e else id)))
        (mkKeyHandle (parent +:+ "/keyHandles/" +:+ (if bool_decide (id = "") then new_uuid e else id)) (pk_name key) sel) ;;
      doneOp parent None) (λ _ _, True)) as Hmain.
  { intros s' HI'. do 2 does_step. cbv zeta. do 3 does_step. eapply does_mono; [|by apply CreateCryptoKey_does]. cbn beta. intros key s'' HI''.
    does_step. does_step; [|do 2 does_step; done]. do 2 does_step. does_step. apply does_put_other; [done..|]. intros s3 HI3. by does_step. }
  does_step. apply does_attempt.
  - eapply does_mono; [|by apply CreateKeyRing_does]. cbn beta. intros ring s' HI'. do 2 does_step. by apply Hmain.
  - intros x s' Hw. assert (Inv (cts s')) as HI' by (by eapply writes_inv). do 2 does_step. by apply Hmain.
Qed.

End writes.
