(* ===== verification/KmsHsmWrites.v ===== *)
(** * Cloud KMS: the writes of HSM instances and their proposals

    The handlers of hsm.go, as KmsHandlers.v has those of keys and versions: what a
    payload's replies approve is what they sign. *)

From S2P Require Import Prelude GoLib ApiError Resource MetaStore Paging IamPolicy Handler GoCrypto GoBinary NetHttp KmsModel KmsNames KmsFilter KmsStore KmsVersions KmsKeys KmsCrypt KmsKwp KmsSweep KmsImport KmsHsm KmsInv KmsEffects KmsHandlers.
From Stdlib Require Import Ascii.

Import strings time.

(** ** Names *)

Lemma parseHsmInstance_ok name loc :
  parseHsmInstance name = Ok loc ↔ ∃ id, name = loc +:+ "/singleTenantHsmInstances/" +:+ id ∧ parseLocation loc = Ok tt ∧ idRE id = true.
Proof.
  unfold parseHsmInstance. split.
  - intros H. destruct (Split name slash) as [|p0 [|p1 [|p2 [|p3 [|p4 [|p5 [|]]]]]]] eqn:Hs; try done.
    destruct (bool_decide (p4 = "singleTenantHsmInstances")) eqn:H4; [|done]. apply bool_decide_eq_true in H4 as ->. cbn [negb orb] in H.
    destruct (idRE p5) eqn:H5; [|done]. cbv zeta in H. apply res_bind_ok in H as ([] & Hl & [= <-]). exists p5. split; [|done].
    by apply (split_child name [p0; p1; p2; p3] "singleTenantHsmInstances" p5).
  - intros (id & -> & Hl & Hid).
    change (loc +:+ "/singleTenantHsmInstances/" +:+ id) with (loc +:+ "/" +:+ "singleTenantHsmInstances" +:+ "/" +:+ id).
    destruct (location_split _ Hl) as (p & l & Hs). rewrite Split_child, Hs by auto using segment_free. cbn [app].
    rewrite bool_decide_true, Hid by done. cbn [negb orb]. replace (Join _ slash) with loc; [by rewrite Hl|].
    rewrite <- (Join_Split loc slash), Hs. done.
Qed.

Lemma instance_split name loc : parseHsmInstance name = Ok loc →
  ∃ p l id, Split name slash = ["projects"; p; "locations"; l; "singleTenantHsmInstances"; id].
Proof.
  intros (id & -> & Hl & Hid)%parseHsmInstance_ok. destruct (location_split _ Hl) as (p & l & Hs). exists p, l, id.
  change (loc +:+ "/singleTenantHsmInstances/" +:+ id) with (loc +:+ "/" +:+ "singleTenantHsmInstances" +:+ "/" +:+ id).
  by rewrite Split_child, Hs by auto using segment_free.
Qed.

Lemma instance_plain name loc : parseHsmInstance name = Ok loc → plain name.
Proof.
  intros (id & -> & Hl & Hid)%parseHsmInstance_ok. apply plain_app. split; [by apply location_plain|].
  apply plain_app. split; [done|by apply idRE_plain].
Qed.

Lemma parseHsmProposal_ok name loc :
  parseHsmProposal name = Ok loc → ∃ instance id, name = instance +:+ "/proposals/" +:+ id ∧ parseHsmInstance instance = Ok loc ∧ idRE id = true.
Proof.
  unfold parseHsmProposal. intros H. destruct (Split name slash) as [|p0 [|p1 [|p2 [|p3 [|p4 [|p5 [|p6 [|p7 [|]]]]]]]]] eqn:Hs; try done.
  destruct (bool_decide (p6 = "proposals")) eqn:H4; [|done]. apply bool_decide_eq_true in H4 as ->. cbn [negb orb] in H.
  destruct (idRE p7) eqn:H5; [|done]. exists (Join [p0; p1; p2; p3; p4; p5] slash), p7. split; [|done].
  by apply (split_child name [p0; p1; p2; p3; p4; p5] "proposals" p7).
Qed.

Lemma proposal_plain instance loc id : parseHsmInstance instance = Ok loc → idRE id = true → plain (instance +:+ "/proposals/" +:+ id).
Proof. intros Hi Hid. apply plain_app. split; [by eapply instance_plain|]. apply plain_app. split; [done|by apply idRE_plain]. Qed.

(** A proposal's name is one instance's. *)
Lemma instance_unique i i' id id' loc loc' :
  parseHsmInstance i = Ok loc → parseHsmInstance i' = Ok loc' → idRE id = true → idRE id' = true →
  i +:+ "/proposals/" +:+ id = i' +:+ "/proposals/" +:+ id' → i = i' ∧ id = id'.
Proof.
  intros Hi Hi' Hid Hid' Heq. destruct (instance_split _ _ Hi) as (p & l & x & Hs). destruct (instance_split _ _ Hi') as (p' & l' & x' & Hs').
  assert (∀ a b, a +:+ "/proposals/" +:+ b = a +:+ "/" +:+ "proposals" +:+ "/" +:+ b) as Hsl by done. rewrite !Hsl in Heq.
  apply (f_equal (λ s, Split s slash)) in Heq. rewrite !Split_child, Hs, Hs' in Heq by auto using segment_free. injection Heq as -> -> -> ->.
  split; [|done]. by rewrite <- (Join_Split i slash), Hs, <- Hs', Join_Split.
Qed.

(** A part of a proposal's name that is an instance's name is its instance's. *)
Lemma instance_before i inst id y loc loc' :
  parseHsmInstance i = Ok loc → parseHsmInstance inst = Ok loc' → idRE id = true →
  inst +:+ "/proposals/" +:+ id = i +:+ "/proposals/" +:+ y → i = inst ∧ y = id.
Proof.
  intros Hi Hi' Hid Heq. destruct (instance_split _ _ Hi) as (p & l & x & Hs). destruct (instance_split _ _ Hi') as (p' & l' & x' & Hs').
  assert (∀ a b, a +:+ "/proposals/" +:+ b = a +:+ String slash ("proposals" +:+ String slash b)) as Hsl by done. rewrite !Hsl in Heq.
  apply (f_equal (λ s, Split s slash)) in Heq. rewrite !Split_sep, Hs, Hs', (Split_free id) in Heq by auto using segment_free.
  cbn [app] in Heq. injection Heq as -> -> -> Hy. assert (y = id) as ->.
  { pose proof (Join_Split y slash) as Hj. rewrite <- Hy in Hj. by cbn in Hj. }
  split; [|done]. by rewrite <- (Join_Split i slash), Hs, <- Hs', Join_Split.
Qed.

Lemma BeforeIndex_spec s sub x : BeforeIndex s sub = Ok x → ∃ y, s = x +:+ sub +:+ y.
Proof.
  unfold BeforeIndex. destruct (Index s sub) as [i|] eqn:Hi; [|done]. intros [= <-]. revert i Hi. induction s as [|a s IH]; intros i.
  - cbn. destruct (HasPrefix "" sub) eqn:Hp; [|done]. intros [= <-]. apply HasPrefix_spec in Hp as [y ->]. by exists y.
  - cbn [Index]. destruct (HasPrefix (String a s) sub) eqn:Hp; [intros [= <-]; apply HasPrefix_spec in Hp as [y ->]; by exists y|].
    destruct (Index s sub) as [j|]; [|done]. intros [= <-]. destruct (IH j eq_refl) as [y Hy]. exists y. cbn [take_bytes]. rewrite app_cons. by rewrite <- Hy.
Qed.

(** ** Replies *)

Section replies.
Context `{X : X509} `{RP : RsaPublic} `{HA : Hashes}.

Lemma challenge_at_spec der j found cs k :
  challenge_at der j found cs = Some k → found = Some k ∨ ∃ c, (j ≤ k)%nat ∧ cs !! (k - j) = Some c ∧ twoFactorKey (hc_Pem c) = Ok der.
Proof.
  revert j found. induction cs as [|c cs IH]; intros j found; cbn [challenge_at]; [auto|]. intros H.
  destruct (IH _ _ H) as [Hf|(c' & Hle & Hc & Hd)].
  - destruct (twoFactorKey (hc_Pem c)) as [d|] eqn:Hd; [|by left]. destruct (bool_decide (d = der)) eqn:He; [|by left].
    apply bool_decide_eq_true in He as ->. injection Hf as <-. right. exists c. rewrite Nat.sub_diag. done.
  - right. exists c'. split; [lia|]. split; [|done]. replace (k - j)%nat with (Datatypes.S (k - Datatypes.S j)) by lia. done.
Qed.

Lemma verifyReply_signs cs r k : verifyReply cs r = Ok k → ∃ c, cs !! k = Some c ∧ signs r c.
Proof.
  unfold verifyReply. destruct (_ =? 0)%nat; [done|]. intros H. apply res_bind_ok in H as (der & Hder & H).
  destruct (challenge_at der 0 None cs) as [at_|] eqn:Hat; [|done]. destruct (cs !! at_) as [c|] eqn:Hc; [|done].
  destruct (VerifyPKCS1v15_SHA256 _ _ _) eqn:Hv; [|done]. injection H as <-. exists c. split; [done|].
  apply challenge_at_spec in Hat as [|(c' & _ & Hc' & Hd)]; [done|]. rewrite Nat.sub_0_r in Hc'. simplify_eq. exists der. done.
Qed.

Lemma challenge_step_refl rs c : challenge_step rs c c.
Proof. by left. Qed.

Lemma approve_approve c : approve (approve c) = approve c.
Proof. done. Qed.

Lemma approve_one rs cs cs' k c r :
  Forall2 (challenge_step rs) cs cs' → cs !! k = Some c → r ∈ rs → signs r c → Forall2 (challenge_step rs) cs (alter approve k cs').
Proof.
  intros Hf Hc Hr Hs. apply Forall2_same_length_lookup. split; [rewrite length_alter; by eapply Forall2_length|].
  intros i x y Hx Hy. destruct (decide (i = k)) as [->|Hne].
  - rewrite list_lookup_alter_eq in Hy. simplify_eq. destruct (cs' !! k) as [z|] eqn:Hz; [|done]. injection Hy as <-.
    destruct (Forall2_lookup_lr _ _ _ _ _ _ Hf Hc Hz) as [->|[-> _]]; right; (split; [done|]); eauto.
  - rewrite list_lookup_alter_ne in Hy by done. by eapply Forall2_lookup_lr.
Qed.

Lemma approve_all_steps rs replies cs js cs' :
  verifyReplies replies cs = Ok js → replies ⊆ rs → Forall2 (challenge_step rs) cs cs' → Forall2 (challenge_step rs) cs (approve_all cs' js).
Proof.
  revert js cs'. induction replies as [|r replies IH]; intros js cs' Hv Hsub Hf; cbn [verifyReplies] in Hv; [by injection Hv as <-|].
  apply res_bind_ok in Hv as (k & Hk & Hv). apply res_bind_ok in Hv as (out & Hout & [= <-]). cbn [approve_all foldl].
  apply (IH out); [done|set_solver|]. apply verifyReply_signs in Hk as (c & Hc & Hs). eapply approve_one; [done|done| |done]. set_solver.
Qed.

Lemma all_approved cs : countApproved cs = Z.of_nat (length cs) → Forall (λ c, hc_Approved c = true) cs.
Proof.
  unfold countApproved. induction cs as [|c cs IH]; [constructor|]. cbn [length]. rewrite filter_cons. case_decide as Hc.
  - cbn [length]. intros Hl. constructor; [done|]. apply IH. lia.
  - pose proof (length_filter (λ c, hc_Approved c = true) cs). lia.
Qed.

(** The replies a payload carries. *)
Definition payload_replies (p : option ApprovalPayload) : list ChallengeReply :=
  match p with Some (QuorumReply l) => l | Some (RequiredActionQuorumReply a b) => a ++ b | None => [] end.

Lemma recorded_step t p payload quorum must :
  hp_State p = PROPOSAL_PENDING → verified p payload = Ok (quorum, must) → proposal_step (payload_replies payload) t p (recorded p quorum must).
Proof.
  intros Hst Hv. assert (Forall2 (challenge_step (payload_replies payload)) (hp_Quorum p) (approve_all (hp_Quorum p) quorum) ∧
    Forall2 (challenge_step (payload_replies payload)) (hp_Must p) (approve_all (hp_Must p) must)) as [Hq Hm].
  { assert (∀ rs cs, Forall2 (challenge_step rs) cs cs) as Hrefl by (intros rs cs; apply Forall2_same_length_lookup; split; [done|]; intros; simplify_eq; by left).
    unfold verified in Hv. destruct payload as [[replies|req replies]|]; [| |done].
    - destruct (0 <? _)%nat; [done|]. destruct (_ =? 0)%nat; [done|]. apply res_bind_ok in Hv as (q & Hq & [= <- <-]). cbn [payload_replies].
      split; [by eapply approve_all_steps; [..|apply Hrefl]|]. apply Hrefl.
    - destruct (_ =? 0)%nat; [done|]. destruct (_ =? 0)%nat; [done|]. apply res_bind_ok in Hv as (mu & Hmu & Hv).
      apply res_bind_ok in Hv as (q & Hq & [= <- <-]). cbn [payload_replies].
      split; (eapply approve_all_steps; [done|set_solver|apply Hrefl]). }
  unfold recorded. cbv zeta. set (p' := set_hp_Must _ _). destruct (_ && _) eqn:Hb.
  - apply andb_true_iff in Hb as [H1 H2]. apply ps_approve; [done|done|exact Hq|exact Hm|]. right. split; [done|].
    split; [by apply Z.leb_le in H1|]. apply all_approved. by apply Z.eqb_eq in H2.
  - apply ps_approve; [done|done|exact Hq|exact Hm|]. by left.
Qed.

End replies.

(** ** The handlers *)

Section hsm_writes.
Context {S : Type} `{MSL : MetaStoreLaws S doc} `{NET : Net} `{UNI : Unicode} `{TJ : TokenJSON}.
Context `{X : X509} `{RP : RsaPublic} `{HA : Hashes} `{OA : Oaep} `{AE : Aes} `{CRC : Crc32}.
Context (rs : warrant).
Implicit Types (s : Server S) (e : Env) (m : contents_).

Abbreviation cts s := (contents (db s)).

Lemma instancePrefix_in : hsmInstancePrefix ∈ prefixes.
Proof. apply (bool_decide_unpack _). by vm_compute. Qed.
Lemma proposalPrefix_in : hsmProposalPrefix ∈ prefixes.
Proof. apply (bool_decide_unpack _). by vm_compute. Qed.

Lemma does_loadInstance e s name loc (Q : hsmInstance → Server S → Prop) :
  Inv (cts s) → parseHsmInstance name = Ok loc →
  (∀ i, instance_at (cts s) name i → hi_Name i = name → Q (hi_effective i (clock_Now e)) s) → does rs e s (loadInstance name) Q.
Proof.
  intros HI Hp HQ. unfold loadInstance. does_step. does_step. do 3 does_step. destruct d; try done. injection H0 as ->.
  destruct (inv_home _ _ _ HI H) as [Hh (loc' & Hn)]. apply dbKey_inj in Hh; [|by eapply instance_plain..]. cbn in Hh. by apply HQ.
Qed.

Lemma does_getProposal e s name loc (Q : option hsmProposal → Server S → Prop) :
  Inv (cts s) → parseHsmProposal name = Ok loc → Q None s →
  (∀ p, proposal_at (cts s) name p → hp_Name p = name → Q (Some p) s) → does rs e s (getProposal name) Q.
Proof.
  intros HI Hp HN HQ. unfold getProposal. does_step. does_step; [by do 3 does_step|]. do 3 does_step. destruct d; try done. injection H0 as ->.
  cbn [on_read proposal_record]. destruct (_ && _); [done|]. destruct (inv_home _ _ _ HI H) as [Hh (loc' & inst & id & Hn & Hi & Hid)].
  apply parseHsmProposal_ok in Hp as (inst' & id' & -> & Hi' & Hid').
  apply dbKey_inj in Hh; [|by eapply proposal_plain|cbn; rewrite Hn; by eapply proposal_plain]. by apply HQ.
Qed.

Lemma does_loadProposal e s name loc (Q : hsmProposal → Server S → Prop) :
  Inv (cts s) → parseHsmProposal name = Ok loc → (∀ p, proposal_at (cts s) name p → hp_Name p = name → Q p s) → does rs e s (loadProposal name) Q.
Proof.
  intros HI Hp HQ. unfold loadProposal. does_step. apply (does_getProposal e s name loc); [done|done|does_step|]. intros p Hat Hn. does_step. by apply HQ.
Qed.

(** The write of a proposal that was loaded. *)
Lemma does_put_proposal e s p p' (Q : unit → Server S → Prop) :
  Inv (cts s) → proposal_at (cts s) (hp_Name p) p → proposal_step (replies rs) (clock_Now e) p p' → hp_Name p' = hp_Name p →
  (∀ s', Inv (cts s') → Q tt s') → does rs e s (put (dbKey hsmProposalPrefix (hp_Name p)) p') Q.
Proof.
  intros HI Hp Hstep Hn HQ.
  assert (write rs (clock_Now e) (cts s) (<[dbKey hsmProposalPrefix (hp_Name p) := DProposal p']> (cts s))) as Hw by by apply w_proposal.
  apply does_put; [done|]. intros s' Hs'. apply HQ. rewrite Hs'. by eapply write_inv.
Qed.

Lemma CreateSingleTenantHsmInstance_does e s parent id total portability :
  Inv (cts s) → does rs e s (CreateSingleTenantHsmInstance parent id total portability) (λ _ _, True).
Proof.
  intros HI. unfold CreateSingleTenantHsmInstance. do 2 does_step. destruct a. does_step. does_step. cbv zeta. does_step. does_step.
  apply negb_false_iff in H0. destruct total as [n|]; [|does_step]. does_step. does_step. apply orb_false_iff in H1 as [H1 H2].
  apply Z.ltb_ge in H1. apply Z.ltb_ge in H2. does_step. does_step; [|do 2 does_step; done]. do 5 does_step.
  set (id' := if bool_decide (id = "") then new_uuid e else id) in *.
  apply does_put; [|intros s' _; by does_step].
  apply (w_instance_new rs _ _ (mkHsmInstance (parent +:+ "/singleTenantHsmInstances/" +:+ id') (clock_Now e) PENDING_TWO_FACTOR_AUTH_REGISTRATION n 0 [] zero
           (Add (clock_Now e) hsmUnrefreshed) portability)); [done| |done|done|done|done].
  exists parent. apply parseHsmInstance_ok. by exists id'.
Qed.

Lemma newChallenges_result e s n pems cs : (newChallenges n pems e s).2 = Ok cs → unapproved pems cs.
Proof.
  enough (does rs e s (newChallenges n pems) (λ cs _, unapproved pems cs)) as Hd by (intros Hr; destruct Hd as [_ Hd]; by rewrite Hr in Hd).
  revert n. induction pems as [|p pems IH]; intros n; cbn [newChallenges]; [by does_step|]. does_step. unfold draw. does_step. does_step.
  destruct (rand_challenge e n); [|does_step]. do 2 does_step. eapply does_mono; [|apply IH]. cbn beta. intros cs' s' [Hp Ha]. does_step.
  split; [cbn; by rewrite Hp|by constructor].
Qed.

Lemma reads_newChallenges n pems : reads (newChallenges (S := S) n pems).
Proof. revert n. induction pems as [|p pems IH]; intros n; cbn; solve_reads. Qed.
Lemma reads_getProposal name : reads (getProposal (S := S) name).
Proof. unfold getProposal, now. solve_reads. Qed.
Lemma reads_none_active t names : reads (none_active (S := S) t names).
Proof. induction names as [|n names IH]; cbn; [apply reads_ret|]. apply reads_bind; [apply reads_getProposal|]. solve_reads. Qed.

Lemma none_active_result e s t names :
  (none_active t names e s).2 = Ok tt → Forall (λ n, ∀ p, proposal_at (cts s) n p → active p t = false) names.
Proof.
  enough (does rs e s (none_active t names) (λ _ _, Forall (λ n, ∀ p, proposal_at (cts s) n p → active p t = false) names)) as Hd
    by (intros Hr; destruct Hd as [_ Hd]; by rewrite Hr in Hd).
  induction names as [|n names IH]; cbn [none_active]; [by does_step|].
  assert (∀ b, (∀ p, proposal_at (cts s) n p → b = false → active p t = false) →
    does rs e s (refuse b FailedPrecondition ;; none_active t names) (λ _ _, Forall (λ n, ∀ p, proposal_at (cts s) n p → active p t = false) (n :: names))) as Hmain.
  { intros b Hb. do 2 does_step. eapply does_mono; [|apply IH]. cbn beta. intros u s' Hall. constructor; [|done]. intros p Hp. by apply Hb. }
  does_step. unfold getProposal. does_step. does_step.
  - do 3 does_step. apply Hmain. unfold proposal_at. intros p Hp. by simplify_eq.
  - destruct d as [| | | | | | | | | | |p0| ]; try done. match goal with Hx : of_doc _ = Some _ |- _ => injection Hx as <- end. do 3 does_step.
    cbn [on_read proposal_record]. apply Hmain. unfold proposal_at. intros p Hp. assert (p0 = p) as -> by congruence.
    destruct (bool_decide (hp_State p = PROPOSAL_DELETED) && _) eqn:Hdel; [|done]. intros _. apply andb_true_iff in Hdel as [Hdel _].
    apply bool_decide_eq_true in Hdel. unfold active. by rewrite Hdel.
Qed.

Lemma new_proposal_keys name t op p : new_proposal name t op = Ok p → keys_parse p ∧ hp_Name p = name ∧ hp_State p = PROPOSAL_PENDING.
Proof.
  destruct op as [[]|]; cbn [new_proposal]; try (intros [= <-]; done); intros H1; try done.
  - apply res_bind_ok in H1 as ([] & Hd & [= <-]). done.
  - apply res_bind_ok in H1 as (der & Hd & [= <-]). split; [by exists der|done].
  - apply res_bind_ok in H1 as (der & Hd & [= <-]). split; [by exists der|done].
  - apply res_bind_ok in H1 as ([k n] & _ & H1). apply res_bind_ok in H1 as (der & Hd & [= <-]). split; [by exists der|done].
Qed.

Lemma reads_checkProposal i p : reads (checkProposal (S := S) i p).
Proof. unfold checkProposal, checkUpgrade. apply reads_bind; [done|]. intros _. apply reads_when, reads_bind; [apply reads_wrappingVersion|]. intros [v k]. solve_reads. Qed.

Lemma checkProposal_operation e s i p u : (checkProposal i p e s).2 = Ok u → checkOperation i p = Ok tt.
Proof. unfold checkProposal, mbind, M_bind, lift. by destruct (checkOperation i p) as [[]|]. Qed.

Lemma does_new_proposal e s i p t (Q : Operation → Server S → Prop) loc id :
  Inv (cts s) → t = clock_Now e → instance_at (cts s) (hi_Name i) i → parseHsmInstance (hi_Name i) = Ok loc → idRE id = true →
  hp_Name p = hi_Name i +:+ "/proposals/" +:+ id → hp_State p = PROPOSAL_PENDING → keys_parse p → checkOperation (hi_effective i t) p = Ok tt →
  idle t (cts s) (hi_Name i) → (∀ op s', Q op s') →
  does rs e s
    (quorum ← newChallenges 0 (quorum_of (hi_effective i t) p).1;
     let p := set_hp_Quorum (set_hp_Required p (quorum_of (hi_effective i t) p).2) quorum in
     must ← (if bool_decide (hp_Op p = opAdd) || bool_decide (hp_Op p = opUpgrade)
             then newChallenges (length (quorum_of (hi_effective i t) p).1) [hp_MemberPem p] else mret []);
     let p := set_hp_Must p must in
     put (dbKey hsmProposalPrefix (hp_Name p)) p ;; doneOp loc None) Q.
Proof.
  intros HI -> Hi Hloc Hid Hname Hst Hkeys Hcheck Hidle HQ. does_step. apply does_reads; [apply reads_newChallenges|].
  intros quorum Hq. apply newChallenges_result in Hq. cbv zeta. set (p1 := set_hp_Quorum _ _). does_step.
  assert (∀ must, unapproved (must_of p1) must → does rs e s (let p := set_hp_Must p1 must in
    put (dbKey hsmProposalPrefix (hp_Name p)) p ;; doneOp loc None) Q) as Hmain.
  { intros must Hm. cbv zeta. does_step. apply does_put; [|intros s' _; by apply does_doneOp].
    assert (quorum_of i (set_hp_Must p1 must) = quorum_of (hi_effective i (clock_Now e)) p) as Hqe by (unfold hi_effective, quorum_of; by destruct (_ && _)).
    apply (w_proposal_new rs _ _ i); [done|exists loc, (hi_Name i), id; done|by exists id|].
    unfold proposal_new. rewrite Hqe. do 6 (split; [done|]). exact Hm. }
  unfold must_of in Hmain. destruct (_ || _); [apply does_reads; [apply reads_newChallenges|]; intros must Hm; apply Hmain; by eapply newChallenges_result|].
  does_step. by apply Hmain.
Qed.

Lemma CreateProposal_does e s parent id op expiration :
  Inv (cts s) → does rs e s (CreateSingleTenantHsmInstanceProposal parent id op expiration) (λ _ _, True).
Proof.
  intros HI. unfold CreateSingleTenantHsmInstanceProposal. do 2 does_step. rename a into loc, H into Hloc. does_step. does_step. cbv zeta.
  set (id' := if bool_decide (id = "") then new_uuid e else id). do 2 does_step. apply negb_false_iff in H. do 4 does_step.
  apply new_proposal_keys in H0 as (Hkeys & Hname & Hst). do 2 does_step. does_step. apply (does_loadInstance e s parent loc); [done|done|].
  intros i Hi Hin. subst parent. set (p := set_hp_Expire a _) in *. does_step. apply does_reads; [apply reads_checkProposal|]. intros [] Hcheck.
  apply checkProposal_operation in Hcheck. does_step.
  assert (does rs e s
    (others ← list_ hsmProposalPrefix (hi_Name i);
     none_active (clock_Now e) others ;;
     let '(keys, required) := if bool_decide (hp_Op p = opRegister) then (hp_RegisterPems p, Z.of_nat (length (hp_RegisterPems p)))
                              else (hi_Pems (hi_effective i (clock_Now e)), hi_Required (hi_effective i (clock_Now e))) in
     let p := set_hp_Required p required in
     quorum ← newChallenges 0 keys;
     let p := set_hp_Quorum p quorum in
     must ← (if bool_decide (hp_Op p = opAdd) || bool_decide (hp_Op p = opUpgrade) then newChallenges (length keys) [hp_MemberPem p] else mret []);
     let p := set_hp_Must p must in
     put (dbKey hsmProposalPrefix (hp_Name p)) p ;;
     doneOp loc None) (λ _ _, True)) as Hmain.
  { does_step. apply does_list. intros names Hnames. does_step. apply does_reads; [apply reads_none_active|]. intros [] Hnone.
    apply none_active_result in Hnone. rewrite Forall_forall in Hnone. fold (quorum_of (hi_effective i (clock_Now e)) p).
    rewrite (surjective_pairing (quorum_of _ p)). apply (does_new_proposal e s i p _ _ loc id'); try done.
    intros name p' Hp' (id0 & Hn0 & Hid0). unfold proposal_at in Hp'. destruct (inv_home _ _ _ HI Hp') as [Hh _]. rewrite Hh in Hp'. apply (Hnone (hp_Name p')); [|done].
    apply (Hnames (DProposal p')); [done|done|cbn; rewrite Hn0; by eapply proposal_plain|].
    cbn. rewrite Hn0. apply HasPrefix_spec. exists ("proposals/" +:+ id0). by rewrite app_assoc. }
  unfold getProposal. does_step. does_step; do 3 does_step; do 2 does_step; try exact Hmain.
Qed.

Lemma ApproveProposal_does e s name payload :
  replies rs = payload_replies payload → Inv (cts s) → does rs e s (ApproveSingleTenantHsmInstanceProposal name payload) (λ _ _, True).
Proof.
  intros Hrs HI. unfold ApproveSingleTenantHsmInstanceProposal. do 2 does_step. does_step. apply (does_loadProposal e s name a); [done|done|].
  intros p Hp Hn. do 2 does_step. apply negb_false_iff, bool_decide_eq_true in H0. do 4 does_step. do 2 does_step. destruct a0 as [quorum must].
  rewrite <- Hn in Hp. apply does_put_proposal; [done|done| | |done].
  - rewrite Hrs. by apply recorded_step.
  - unfold recorded. cbv zeta. by destruct (_ && _).
Qed.

Lemma effective_destroyed v t t' : state (effective v t) = DESTROYED → state (effective (effective v t) t') = DESTROYED.
Proof. intros Hv. unfold effective at 1. rewrite bool_decide_false by (rewrite Hv; done). done. Qed.

(** An upgrade that passed its check names an enabled version. *)
Lemma checkUpgrade_version e s i p u :
  Inv (cts s) → (checkProposal i p e s).2 = Ok u → hp_Op p = opUpgrade →
  ∃ key n v, parseCryptoKeyVersion (hp_Version p) = Ok (key, n) ∧ cts s !! version_at key n = Some (DVersion v) ∧ kv_Name v = hp_Version p ∧ state v = ENABLED ∧
    effective v (clock_Now e) = v.
Proof.
  intros HI Hok Hop.
  enough (does rs e s (checkProposal i p) (λ _ _, ∃ key n v, parseCryptoKeyVersion (hp_Version p) = Ok (key, n) ∧ cts s !! version_at key n = Some (DVersion v) ∧
    kv_Name v = hp_Version p ∧ state v = ENABLED ∧ effective v (clock_Now e) = v)) as Hd by (destruct Hd as [_ Hd]; by rewrite Hok in Hd).
  unfold checkProposal. do 2 does_step. rewrite Hop, bool_decide_true by done. unfold when, checkUpgrade, wrappingVersion. do 3 does_step.
  destruct a0 as [key n]. does_step. apply parseCryptoKeyVersion_ok in H0 as Hpv. destruct Hpv as (Hver & Hkey & Hn).
  apply does_load_key; [done|done|]. intros k Hk _ _. does_step. apply (does_load_version rs e s _ key n); [done|done|]. intros v Hv Hvn.
  do 2 does_step. cbv zeta. do 2 does_step. do 2 does_step. apply negb_false_iff, bool_decide_eq_true in H2.
  assert (effective v (clock_Now e) = v) as Heff.
  { apply effective_live. intros Hde. rewrite effective_destroyed in H2 by done. done. }
  rewrite !Heff in H2. do 2 does_step. does_step. do 2 does_step. do 2 does_step. do 2 does_step. apply does_refuse. intros _.
  exists key, n, v. split; [done|]. split; [done|]. split; [by rewrite Hver|]. done.
Qed.

Lemma ExecuteProposal_does e s name :
  (∀ p, proposal_at (cts s) name p → executing rs = Some p) → Inv (cts s) →
  does rs e s (ExecuteSingleTenantHsmInstanceProposal name) (λ _ _, True).
Proof.
  intros Hex HI. unfold ExecuteSingleTenantHsmInstanceProposal. do 2 does_step. rename a into loc, H into Hloc. does_step.
  apply (does_loadProposal e s name loc); [done|done|]. intros p Hp Hn. specialize (Hex p Hp). do 2 does_step. apply negb_false_iff, bool_decide_eq_true in H.
  do 2 does_step. do 2 does_step. apply negb_false_iff in H0. do 2 does_step. rename a into instance. apply BeforeIndex_spec in H1 as [id' Hbi].
  does_step. rewrite <- Hn in Hp. unfold loadInstance. does_step. does_step. do 3 does_step. destruct d; try done. injection H2 as ->.
  rename v into i. cbn [on_read instance_record]. destruct (inv_home _ _ _ HI H1) as [Hh (loci & Hi)].
  destruct (inv_home _ _ _ HI Hp) as [_ (locp & inst & id & Hpn & Hinst & Hid)].
  assert (of_instance p (hi_Name i)) as Hof.
  { assert (plain (hp_Name p)) as Hpl by (rewrite Hpn; by eapply proposal_plain).
    assert (plain instance) as Hpli by (rewrite Hbi in Hpl; by apply plain_app in Hpl as [? _]).
    apply dbKey_inj in Hh; [|done|by eapply instance_plain]. cbn in Hh. subst instance. rewrite Hpn in Hbi.
    destruct (instance_before (hi_Name i) inst id id' loci locp) as [-> ->]; try done. by exists id. }
  rewrite Hh in H1. does_step. apply does_attempt_reads; [apply reads_checkProposal|]. intros [[]|err] Hcheck.
  2:{ does_step. apply does_put_proposal; [done|done| |done|intros s' HI'; by does_step]. apply ps_end; [done|done|done|]. right; by left. }
  apply checkProposal_operation in Hcheck as Hop.
  assert (∀ s', Inv (cts s') → proposal_at (cts s') (hp_Name p) p → instance_at (cts s') (hi_Name i) i → does rs e s'
    (put (dbKey hsmInstancePrefix (hi_Name (hi_effective i (clock_Now e)))) (executed (hi_effective i (clock_Now e)) p (clock_Now e)) ;;
     put (dbKey hsmProposalPrefix (hp_Name p)) (set_hp_State p PROPOSAL_SUCCEEDED) ;;
     doneOp loc None) (λ _ _, True)) as Hmain.
  { intros s' HI' Hp' Hi'. rewrite hi_effective_name. does_step.
    assert (write rs (clock_Now e) (cts s') (<[dbKey hsmInstancePrefix (hi_Name i) := DInstance (executed (hi_effective i (clock_Now e)) p (clock_Now e))]> (cts s')))
      as Hw by by apply w_instance.
    apply does_put; [done|]. intros s2 Hs2. assert (Inv (cts s2)) as HI2 by (rewrite Hs2; by eapply write_inv). does_step.
    apply does_put_proposal; [done| | |done|intros s3 HI3; by does_step].
    - unfold proposal_at. rewrite Hs2, lookup_insert_ne by solve_dbKey. done.
    - apply ps_end; [done|done|done|]. by left. }
  does_step. does_step; [|by apply Hmain]. apply bool_decide_eq_true in H2.
  destruct (checkUpgrade_version e s _ p () HI Hcheck H2) as (key & n & v & Hpv & Hv & Hvn & Hst & Heff). unfold upgradeTrust. does_step.
  apply (does_load_version rs e s _ key n); [done|done|]. intros v' Hv' _. assert (v' = v) as -> by congruence. rewrite Heff.
  apply parseCryptoKeyVersion_ok in Hpv as (Hver & _ & _). rewrite <- Hver, <- Hvn in Hv. rewrite <- Hvn.
  assert (write rs (clock_Now e) (cts s) (<[dbKey versionPrefix (kv_Name v) := DVersion (set_kv_HsmTrusted v true)]> (cts s))) as Hw by by apply (w_version_trust rs _ _ v p).
  apply does_put; [done|]. intros s' Hs'. apply Hmain; [rewrite Hs'; by eapply write_inv|..]; unfold proposal_at, instance_at; rewrite Hs', lookup_insert_ne by solve_dbKey; done.
Qed.

Lemma DeleteProposal_does e s name : Inv (cts s) → does rs e s (DeleteSingleTenantHsmInstanceProposal name) (λ _ _, True).
Proof.
  intros HI. unfold DeleteSingleTenantHsmInstanceProposal. do 2 does_step. does_step. apply (does_loadProposal e s name a); [done|done|].
  intros p Hp Hn. do 2 does_step. do 2 does_step. cbv zeta. rewrite <- Hn in Hp. apply does_put_proposal; [done|done| |done|done].
  apply ps_end; [done|done|done|]. by right; right.
Qed.

End hsm_writes.
