(* ===== verification/KmsRun.v ===== *)
(** * Cloud KMS: what one write does to one record, and runs

    The cases of [write] seen from the record of a key, of a version, of an HSM
    instance and of a proposal: every other record is as it was.  Then the calls,
    the two steps of a sweep, passing time and restarts as one transition system,
    and the properties its steps keep. *)

From S2P Require Import Prelude GoLib ApiError Resource MetaStore Paging IamPolicy Handler GoCrypto GoBinary NetHttp KmsModel KmsNames KmsFilter KmsStore KmsVersions KmsKeys KmsCrypt KmsKwp KmsImport KmsHsm KmsEkm KmsAutokey KmsSweep KmsInv KmsEffects KmsHandlers KmsHsmWrites.
From Stdlib Require Import Ascii.

Import strings time.

Lemma retiredPrefix_in : retiredPrefix ∈ prefixes.
Proof. apply (bool_decide_unpack _). by vm_compute. Qed.

#[export] Hint Resolve keyPrefix_in versionPrefix_in instancePrefix_in proposalPrefix_in retiredPrefix_in doc_prefix_in : kms.

(** Two keys of different kinds differ. *)
Ltac other_kind := apply dbKey_ne; [by auto with kms nocore..|done].

Lemma untracked_home d p name : tracked d = false → p ∈ [keyPrefix; versionPrefix; retiredPrefix; hsmInstancePrefix; hsmProposalPrefix] → home d ≠ dbKey p name.
Proof.
  rewrite !elem_of_cons, elem_of_nil. intros Ht Hp. unfold home.
  apply dbKey_ne; [apply doc_prefix_in|destruct_or! Hp; subst; auto with kms nocore; done|destruct_or! Hp; subst; by destruct d].
Qed.

Lemma tracked_prefix m p name d : Inv m → p ∈ [keyPrefix; versionPrefix; retiredPrefix; hsmInstancePrefix; hsmProposalPrefix] →
  m !! dbKey p name = Some d → tracked d = true.
Proof.
  intros HI Hp Hd. destruct (tracked d) eqn:Ht; [done|]. exfalso. destruct (inv_home m _ d HI Hd) as [Hh _].
  by apply (untracked_home d p name Ht Hp).
Qed.

Section changes.
Context `{X : X509} `{RP : RsaPublic} `{HA : Hashes}.
Implicit Types (m : contents_).

Inductive key_change (t : Time) m m' (key : string) : Prop :=
| kc_same : m' !! key_at key = m !! key_at key → key_change t m m' key
| kc_new k : ck_Name k = key → key_new m k → m' = <[key_at key := DKey k]> m → key_change t m m' key
| kc_step k k' : ck_Name k = key → m !! key_at key = Some (DKey k) → key_step t m k k' → m' = <[key_at key := DKey k']> m → key_change t m m' key
| kc_delete k :
    ck_Name k = key → m !! key_at key = Some (DKey k) → retired m key → (∀ n, (1 ≤ n)%Z → m !! version_at key n = None) →
    m' = delete (key_at key) m → key_change t m m' key.

Inductive version_change (t : Time) m m' (key : string) (n : Z) : Prop :=
| vc_same : m' !! version_at key n = m !! version_at key n → version_change t m m' key n
| vc_new v : kv_Name v = versionName key n → version_new v → slot m key n → m' = <[version_at key n := DVersion v]> m → version_change t m m' key n
| vc_step v v' : m !! version_at key n = Some (DVersion v) → version_step t v v' → m' = <[version_at key n := DVersion v']> m → version_change t m m' key n
| vc_trust v p :
    m !! version_at key n = Some (DVersion v) → state v = ENABLED → proposal_at m (hp_Name p) p → hp_Op p = opUpgrade →
    hp_Version p = versionName key n → hp_State p = PROPOSAL_APPROVED → Before t (hp_Expire p) = true →
    m' = <[version_at key n := DVersion (set_kv_HsmTrusted v true)]> m → version_change t m m' key n
| vc_delete v k :
    m !! version_at key n = Some (DVersion v) → destroyed t v → m !! key_at key = Some (DKey k) → ck_Primary k ≠ n →
    m' = delete (version_at key n) m → version_change t m m' key n.

Inductive instance_change (rs : warrant) (t : Time) m m' (name : string) : Prop :=
| ic_same : m' !! dbKey hsmInstancePrefix name = m !! dbKey hsmInstancePrefix name → instance_change rs t m m' name
| ic_new i :
    m !! dbKey hsmInstancePrefix name = None → hi_Name i = name → hi_State i = PENDING_TWO_FACTOR_AUTH_REGISTRATION →
    (3 ≤ hi_Total i ≤ 16)%Z → hi_Pems i = [] → hi_Required i = 0%Z → m' = <[dbKey hsmInstancePrefix name := DInstance i]> m → instance_change rs t m m' name
| ic_execute i p :
    executing rs = Some p → instance_at m name i → hi_Name i = name → proposal_at m (hp_Name p) p → of_instance p name → hp_State p = PROPOSAL_APPROVED →
    Before t (hp_Expire p) = true → checkOperation (hi_effective i t) p = Ok tt →
    m' = <[dbKey hsmInstancePrefix name := DInstance (executed (hi_effective i t) p t)]> m → instance_change rs t m m' name.

Inductive proposal_change (rs : warrant) (t : Time) m m' (name : string) : Prop :=
| pc_same : m' !! dbKey hsmProposalPrefix name = m !! dbKey hsmProposalPrefix name → proposal_change rs t m m' name
| pc_new i p :
    instance_at m (hi_Name i) i → hp_Name p = name → of_instance p (hi_Name i) → proposal_new t m i p →
    m' = <[dbKey hsmProposalPrefix name := DProposal p]> m → proposal_change rs t m m' name
| pc_step p p' :
    proposal_at m name p → hp_Name p = name → proposal_step (replies rs) t p p' → m' = <[dbKey hsmProposalPrefix name := DProposal p']> m →
    proposal_change rs t m m' name.

(** The deletion of an untracked record leaves the tracked ones. *)
Lemma delete_other m key p name :
  Inv m → (∀ d, m !! key = Some d → tracked d = false) → p ∈ [keyPrefix; versionPrefix; retiredPrefix; hsmInstancePrefix; hsmProposalPrefix] →
  delete key m !! dbKey p name = m !! dbKey p name.
Proof.
  intros HI Ho Hp. destruct (decide (key = dbKey p name)) as [->|Hne]; [|by rewrite lookup_delete_ne].
  destruct (m !! dbKey p name) as [d|] eqn:Hd; [|apply lookup_delete_eq].
  pose proof (Ho d eq_refl) as Ht. by rewrite (tracked_prefix m p name d HI Hp Hd) in Ht.
Qed.

Ltac in_tracked := by rewrite !elem_of_cons; auto 6.

(** A write of another kind of record. *)
Ltac elsewhere :=
  first [ by apply delete_other; [..|in_tracked]
        | rewrite lookup_insert_ne; [done|]; first [other_kind | by apply untracked_home; [|in_tracked]]
        | rewrite lookup_delete_ne; [done|]; other_kind ].

Lemma retired_kept rs t m m' name : write rs t m m' → Inv m → retired m name → retired m' name.
Proof.
  intros Hw HI (key & r & Hr & Ho). destruct (inv_home m _ _ HI Hr) as [-> _]. exists (home (DRetired r)), r. split; [|done].
  unfold home in *. cbn [doc_prefix doc_name] in *. rewrite <- Hr. destruct Hw; try elsewhere.
  rewrite lookup_insert_ne; [done|]. intros Heq. rewrite Heq in *. congruence.
Qed.

Lemma write_key rs t m m' key : write rs t m m' → Inv m → parseCryptoKey key = Ok tt → key_change t m m' key.
Proof.
  intros Hw HI Hk. assert (∀ k, key_ok k → key_at (ck_Name k) = key_at key → ck_Name k = key) as Hinj
    by (intros k [Hp _] Heq; eapply dbKey_inj; [by apply key_plain..|exact Heq]).
  destruct Hw; try (by apply kc_same; elsewhere).
  - destruct (decide (key_at (ck_Name k) = key_at key)) as [Heq|Hne]; [|by apply kc_same; rewrite lookup_insert_ne].
    assert (ck_Name k = key) as <- by (apply Hinj; [by destruct H|done]). by apply (kc_new _ _ _ _ k).
  - destruct (decide (key_at (ck_Name k) = key_at key)) as [Heq|Hne]; [|by apply kc_same; rewrite lookup_insert_ne].
    assert (ck_Name k = key) as <- by (apply Hinj; [by destruct (inv_home m _ _ HI H)|done]). by apply (kc_step _ _ _ _ k k').
  - destruct (decide (key_at (ck_Name k) = key_at key)) as [Heq|Hne]; [|by apply kc_same; rewrite lookup_delete_ne].
    assert (ck_Name k = key) as <- by (apply Hinj; [by destruct (inv_home m _ _ HI H)|done]). by apply (kc_delete _ _ _ _ k).
Qed.

Lemma write_version rs t m m' key n :
  write rs t m m' → Inv m → parseCryptoKey key = Ok tt → (1 ≤ n)%Z → version_change t m m' key n.
Proof.
  intros Hw HI Hk Hn.
  destruct Hw as [d|k0|k|k k'|k|key' n' v Hk' Hn' Hv Hnew Hs|v v' Hv Hst|v p Hv|key' n' v k Hk' Hv Hn' Hd Hkey Hp|r|i|i p|i p|p p'];
    try (by apply vc_same; elsewhere).
  - destruct (decide (version_at key' n' = version_at key n)) as [Heq|Hne]; [|by apply vc_same; rewrite lookup_insert_ne].
    apply version_slot_inj in Heq as [-> ->]; [|done..]. by apply (vc_new _ _ _ _ _ v).
  - destruct (decide (dbKey versionPrefix (kv_Name v) = version_at key n)) as [Heq|Hne]; [|by apply vc_same; rewrite lookup_insert_ne].
    rewrite Heq in *. by apply (vc_step _ _ _ _ _ v v').
  - destruct (decide (dbKey versionPrefix (kv_Name v) = version_at key n)) as [Heq|Hne]; [|by apply vc_same; rewrite lookup_insert_ne].
    rewrite Heq in *. destruct (version_named m key n _ HI Hk Hn Hv) as (v' & [= <-] & Hname). rewrite Hname in *. by apply (vc_trust _ _ _ _ _ v p).
  - destruct (decide (version_at key' n' = version_at key n)) as [Heq|Hne]; [|by apply vc_same; rewrite lookup_delete_ne].
    apply version_slot_inj in Heq as [-> ->]; [|done..]. by apply (vc_delete _ _ _ _ _ v k).
Qed.

Lemma proposal_named p : named (DProposal p) → plain (hp_Name p).
Proof. intros (loc & inst & id & -> & Hi & Hid). by eapply proposal_plain. Qed.

Lemma instance_named i : named (DInstance i) → plain (hi_Name i).
Proof. intros [loc Hl]. by eapply instance_plain. Qed.

Lemma write_instance rs t m m' name : write rs t m m' → Inv m → plain name → instance_change rs t m m' name.
Proof.
  intros Hw HI Hp. destruct Hw; try (by apply ic_same; elsewhere).
  - destruct (decide (dbKey hsmInstancePrefix (hi_Name i) = dbKey hsmInstancePrefix name)) as [Heq|Hne]; [|by apply ic_same; rewrite lookup_insert_ne].
    apply dbKey_inj in Heq as <-; [|by apply instance_named|done]. by apply (ic_new _ _ _ _ _ i).
  - destruct (decide (dbKey hsmInstancePrefix (hi_Name i) = dbKey hsmInstancePrefix name)) as [Heq|Hne]; [|by apply ic_same; rewrite lookup_insert_ne].
    apply dbKey_inj in Heq as <-; [|apply instance_named; by apply (inv_home m _ _ HI H0)|done]. by apply (ic_execute _ _ _ _ _ i p).
Qed.

Lemma write_proposal rs t m m' name : write rs t m m' → Inv m → plain name → proposal_change rs t m m' name.
Proof.
  intros Hw HI Hp. destruct Hw; try (by apply pc_same; elsewhere).
  - destruct (decide (dbKey hsmProposalPrefix (hp_Name p) = dbKey hsmProposalPrefix name)) as [Heq|Hne]; [|by apply pc_same; rewrite lookup_insert_ne].
    apply dbKey_inj in Heq as <-; [|by apply proposal_named|done]. by apply (pc_new _ _ _ _ _ i p).
  - destruct (decide (dbKey hsmProposalPrefix (hp_Name p) = dbKey hsmProposalPrefix name)) as [Heq|Hne]; [|by apply pc_same; rewrite lookup_insert_ne].
    apply dbKey_inj in Heq as <-; [|apply proposal_named; by apply (inv_home m _ _ HI H)|done]. by apply (pc_step _ _ _ _ _ p p').
Qed.

End changes.

(** ** Cloud KMS: runs of the service

    The calls that change the store, executed one after the other at clocks that
    do not go back, over a store whose writes may fail, with restarts between
    them.  What every [write] keeps, every run keeps. *)

(** Every RPC that writes, and the two steps of a sweep, which come with the clock
    reading the sweep began with.  [Server.Exclusive], by which an administrator's
    reset (/admin/reset, ResetProject) deletes records while no call runs, is left
    out: a run is one between resets. *)
Inductive call :=
| c_CreateKeyRing (parent id : string)
| c_DeleteKeyRing (name : string)
| c_CreateCryptoKey (req : CreateKeyRequest)
| c_UpdateCryptoKey (input : pbKey) (paths : list string)
| c_UpdateCryptoKeyPrimaryVersion (name id : string)
| c_DeleteCryptoKey (name : string)
| c_CreateCryptoKeyVersion (req : CreateVersionRequest)
| c_UpdateCryptoKeyVersion (req : UpdateVersionRequest)
| c_DestroyCryptoKeyVersion (name : string)
| c_RestoreCryptoKeyVersion (name : string)
| c_DeleteCryptoKeyVersion (name : string)
| c_CreateImportJob (req : CreateImportJobRequest)
| c_ImportCryptoKeyVersion (req : ImportRequest)
| c_ImportTrusted (req : ImportTrustedRequest)
| c_CreateInstance (parent id : string) (total : option Z) (portability : bool)
| c_CreateProposal (parent id : string) (op : option Proposed) (expiration : option Expiration)
| c_Approve (name : string) (payload : option ApprovalPayload)
| c_Execute (name : string)
| c_DeleteProposal (name : string)
| c_CreateEkmConnection (parent id : string) (input : option EkmInput)
| c_UpdateEkmConnection (input : EkmInput) (paths : list string)
| c_UpdateEkmConfig (name def : string) (paths : list string)
| c_SetIamPolicy (resource : string) (req : iampb.SetIamPolicyRequest)
| c_UpdateAutokeyConfig (input : AutokeyInput) (paths : list string)
| c_CreateKeyHandle (resolver : option (string → option Z)) (parent id sel : string)
| c_destroyDue (key : string) (t : Time)
| c_rotateDue (key : string) (t : Time).

(** The replies a call carries. *)
Definition call_replies (c : call) : list ChallengeReply := match c with c_Approve _ p => payload_replies p | _ => [] end.

(** ... and the proposal it executes, as stored when it is called. *)
Definition call_warrant (c : call) (m : contents_) : warrant :=
  mkWarrant (call_replies c)
    match c with
    | c_Execute name => match m !! dbKey hsmProposalPrefix name with Some (DProposal p) => Some p | _ => None end
    | _ => None
    end.

(** A sweep's reading is not ahead of the clock. *)
Definition call_time (c : call) (t : Time) : Prop := match c with c_destroyDue _ u | c_rotateDue _ u => (u ≤ t)%Z | _ => True end.

Section run.
Context {S : Type} `{MSL : MetaStoreLaws S doc} `{NET : Net} `{UNI : Unicode} `{TJ : TokenJSON}.
Context `{X : X509} `{RP : RsaPublic} `{HA : Hashes} `{OA : Oaep} `{AE : Aes} `{CRC : Crc32} `{CR : Crypto} `{JT : JsonText} `{CE : Certificates}.
Implicit Types (s : Server S) (e : Env) (m : contents_) (c : call).

Abbreviation H := (M Env (Server S)).
Abbreviation cts s := (contents (db s)).

Definition done_ {A} (h : H A) : H unit := h ;; mret tt.

Definition exec (c : call) : H unit :=
  match c with
  | c_CreateKeyRing parent id => done_ (CreateKeyRing parent id)
  | c_DeleteKeyRing name => done_ (DeleteKeyRing name)
  | c_CreateCryptoKey req => done_ (CreateCryptoKey req)
  | c_UpdateCryptoKey input paths => done_ (UpdateCryptoKey input paths)
  | c_UpdateCryptoKeyPrimaryVersion name id => done_ (UpdateCryptoKeyPrimaryVersion name id)
  | c_DeleteCryptoKey name => done_ (DeleteCryptoKey name)
  | c_CreateCryptoKeyVersion req => done_ (CreateCryptoKeyVersion req)
  | c_UpdateCryptoKeyVersion req => done_ (UpdateCryptoKeyVersion req)
  | c_DestroyCryptoKeyVersion name => done_ (DestroyCryptoKeyVersion name)
  | c_RestoreCryptoKeyVersion name => done_ (RestoreCryptoKeyVersion name)
  | c_DeleteCryptoKeyVersion name => done_ (DeleteCryptoKeyVersion name)
  | c_CreateImportJob req => done_ (CreateImportJob req)
  | c_ImportCryptoKeyVersion req => done_ (ImportCryptoKeyVersion req)
  | c_ImportTrusted req => done_ (ImportTrustedKeyWrappedCryptoKeyVersion req)
  | c_CreateInstance parent id total portability => done_ (CreateSingleTenantHsmInstance parent id total portability)
  | c_CreateProposal parent id op expiration => done_ (CreateSingleTenantHsmInstanceProposal parent id op expiration)
  | c_Approve name payload => ApproveSingleTenantHsmInstanceProposal name payload
  | c_Execute name => done_ (ExecuteSingleTenantHsmInstanceProposal name)
  | c_DeleteProposal name => DeleteSingleTenantHsmInstanceProposal name
  | c_CreateEkmConnection parent id input => done_ (CreateEkmConnection parent id input)
  | c_UpdateEkmConnection input paths => done_ (UpdateEkmConnection input paths)
  | c_UpdateEkmConfig name def paths => done_ (UpdateEkmConfig name def paths)
  | c_SetIamPolicy resource req => done_ (SetIamPolicy resource req)
  | c_UpdateAutokeyConfig input paths => done_ (UpdateAutokeyConfig input paths)
  | c_CreateKeyHandle resolver parent id sel => done_ (CreateKeyHandle resolver parent id sel)
  | c_destroyDue key t => destroyDue key t
  | c_rotateDue key t => done_ (rotateDue key t)
  end.

(** A world: the server, the time of its last step and the replies its approvals
    have carried so far. *)
Record world := mkWorld { w_srv : Server S; w_time : Time; w_replies : list ChallengeReply }.

Inductive step : world → world → Prop :=
| step_call c e s t h :
    (t ≤ clock_Now e)%Z → env_ok e → fresh e (cts s) → call_time c (clock_Now e) →
    step (mkWorld s t h) (mkWorld (exec c e s).1 (clock_Now e) (call_replies c ++ h))
| step_restart s s' t h : cts s' = cts s → step (mkWorld s t h) (mkWorld s' t h).

Lemma done_does {A} rs e s (h : H A) Q : does rs e s h Q → does rs e s (done_ h) (λ _ _, True).
Proof. intros Hh. unfold done_. apply does_bind. revert Hh. apply does_mono. intros a s' _. by apply does_ret. Qed.

Lemma exec_does c e s :
  Inv (cts s) → env_ok e → fresh e (cts s) → call_time c (clock_Now e) → does (call_warrant c (cts s)) e s (exec c) (λ _ _, True).
Proof.
  intros HI He Hf Ht.
  assert (∀ name p, proposal_at (cts s) name p → executing (call_warrant (c_Execute name) (cts s)) = Some p) as Hex
    by (intros name p Hp; unfold proposal_at in Hp; cbn; by rewrite Hp).
  assert (∀ name p, replies (call_warrant (c_Approve name p) (cts s)) = payload_replies p) as Hre by done.
  destruct c; cbn [exec call_time] in *;
    try (eapply does_mono; [|by eauto using ApproveProposal_does, DeleteProposal_does, destroyDue_does]; done);
    (eapply done_does; eauto using CreateKeyRing_does, DeleteKeyRing_does, CreateCryptoKey_does, UpdateCryptoKey_does,
       UpdateCryptoKeyPrimaryVersion_does, DeleteCryptoKey_does, CreateCryptoKeyVersion_does, UpdateCryptoKeyVersion_does,
       DestroyCryptoKeyVersion_does, RestoreCryptoKeyVersion_does, DeleteCryptoKeyVersion_does, CreateImportJob_does,
       ImportCryptoKeyVersion_does, ImportTrusted_does, CreateSingleTenantHsmInstance_does, CreateProposal_does, ExecuteProposal_does,
       CreateEkmConnection_does, UpdateEkmConnection_does, UpdateEkmConfig_does, SetIamPolicy_does, UpdateAutokeyConfig_does,
       CreateKeyHandle_does, rotateDue_does).
Qed.

(** ** What writes keep, runs keep *)

Lemma exec_writes c e s :
  Inv (cts s) → env_ok e → fresh e (cts s) → call_time c (clock_Now e) → rtc (write (call_warrant c (cts s)) (clock_Now e)) (cts s) (cts (exec c e s).1).
Proof. intros HI He Hf Ht. by destruct (exec_does c e s HI He Hf Ht). Qed.

(** An invariant of the contents, the time and the replies so far. *)
Record stable (P : Time → list ChallengeReply → contents_ → Prop) : Prop := mkStable {
  stable_later t t' h h' m : P t h m → (t ≤ t')%Z → h ⊆ h' → P t' h' m;
  stable_write rs t h m m' : P t h m → Inv m → write rs t m m' → replies rs ⊆ h → P t h m'
}.

Lemma stable_writes P rs t h m m' :
  stable P → replies rs ⊆ h → rtc (write rs t) m m' → Inv m → P t h m → Inv m' ∧ P t h m'.
Proof.
  intros HP Hrs. induction 1 as [m|m m1 m2 Hw _ IH]; [done|]. intros HI Hm.
  apply IH; [by eapply write_inv|by eapply (stable_write P HP)].
Qed.

Lemma stable_step P w w' :
  stable P → step w w' → Inv (cts (w_srv w)) → P (w_time w) (w_replies w) (cts (w_srv w)) →
  Inv (cts (w_srv w')) ∧ P (w_time w') (w_replies w') (cts (w_srv w')).
Proof.
  intros HP Hs. destruct Hs as [c e s t h Ht He Hf Hc|s s' t h Heq]; cbn; intros HI Hw; [|by rewrite Heq].
  eapply stable_writes; [done| |by apply exec_writes|done|]; [set_solver|].
  apply (stable_later P HP t _ h); [done..|set_solver].
Qed.

Lemma stable_run P w w' :
  stable P → rtc step w w' → Inv (cts (w_srv w)) → P (w_time w) (w_replies w) (cts (w_srv w)) →
  Inv (cts (w_srv w')) ∧ P (w_time w') (w_replies w') (cts (w_srv w')).
Proof.
  intros HP. induction 1 as [w|w w1 w2 Hs _ IH]; [done|]. intros HI Hw.
  destruct (stable_step P w w1) as [HI' Hw']; [done..|]. by apply IH.
Qed.

(** The clock of a run does not go back. *)
Lemma run_time w w' : rtc step w w' → (w_time w ≤ w_time w')%Z.
Proof. induction 1 as [|w w1 w2 Hs _ IH]; [lia|]. destruct Hs; cbn in *; lia. Qed.

(** ** Runs of a new service *)

Definition started (w : world) : Prop := cts (w_srv w) = ∅ ∧ w_replies w = [].
Definition reachable (w : world) : Prop := ∃ w0, started w0 ∧ rtc step w0 w.

Lemma reachable_stable P w : stable P → (∀ t, P t [] ∅) → reachable w → Inv (cts (w_srv w)) ∧ P (w_time w) (w_replies w) (cts (w_srv w)).
Proof.
  intros HP H0 (w0 & [Hc Hr] & Hrun). apply (stable_run P w0); [done|done|..]; rewrite Hc; [apply map_Forall_empty|]. by rewrite Hr.
Qed.

Lemma reachable_inv w : reachable w → Inv (cts (w_srv w)).
Proof. intros Hw. by apply (reachable_stable (λ _ _ _, True)). Qed.

Lemma reachable_run w w' : reachable w → rtc step w w' → reachable w'.
Proof. intros (w0 & H0 & Hr) Hr'. exists w0. split; [done|]. by etrans. Qed.

End run.
