(* ===== verification/KmsSpec.v ===== *)
(** * Cloud KMS: what holds of versions and keys over every run

    Invariants of the store that every write keeps, and what they mean for the
    handlers: a destroyed version stays destroyed, a live one is kept for the
    time its key promises, its material never changes, a primary exists, and the
    name of a deleted key is gone. *)

From S2P Require Import Prelude GoLib ApiError Resource MetaStore Paging IamPolicy Handler GoCrypto GoBinary NetHttp KmsModel KmsNames KmsFilter KmsStore KmsVersions KmsKeys KmsCrypt KmsKwp KmsSweep KmsImport KmsHsm KmsEkm KmsAutokey KmsInv KmsEffects KmsHandlers KmsHsmWrites KmsRun.
From Stdlib Require Import Ascii.

Import strings time.

(** ** Over time *)

Lemma destroyed_later v t t' : destroyed t v → (t ≤ t')%Z → destroyed t' v.
Proof.
  unfold destroyed, effective, Before. intros Hd Ht. destruct (bool_decide (state v = DESTROY_SCHEDULED)) eqn:Hs; [|done].
  cbn [andb] in *. destruct (Z.ltb_spec t (kv_DestroyTime v)) as [Hlt|Hge]; cbn [negb] in *.
  - apply bool_decide_eq_true in Hs. congruence.
  - by rewrite (proj2 (Z.ltb_ge _ _)) by lia.
Qed.

Lemma destroyed_live v v' t : destroyed t v → version_step t v v' → destroyed t v'.
Proof.
  intros Hd [_ _ Hl|u Hu -> Hs Hs']; unfold destroyed in *.
  - destruct Hl as [Ha _|Ha _ _|Ha _]; unfold able in *; rewrite Hd in Ha; naive_solver.
  - unfold effective at 1. by rewrite Hs'.
Qed.

Lemma enabled_live v t : state v = ENABLED → ¬ destroyed t v.
Proof. unfold destroyed, effective. intros Hs. rewrite bool_decide_false by by rewrite Hs. cbn [andb]. by rewrite Hs. Qed.

Section spec.
Context `{X : X509} `{RP : RsaPublic} `{HA : Hashes}.
Implicit Types (m : contents_).

(** The key is as [Q] says, or is gone for ever. *)
Definition key_is m (key : string) (Q : cryptoKey → Prop) : Prop :=
  match m !! key_at key with
  | Some (DKey k) => Q k
  | Some _ => False
  | None => retired m key
  end.

Lemma key_is_write rs t m m' key (Q : cryptoKey → Prop) :
  (∀ k k', key_step t m k k' → Q k → Q k') → write rs t m m' → Inv m → parseCryptoKey key = Ok tt → key_is m key Q → key_is m' key Q.
Proof.
  intros HQ Hw HI Hk Hi. pose proof (retired_kept rs t m m' key Hw HI) as Hr.
  destruct (write_key rs t m m' key Hw HI Hk) as [Heq|k Hn Hnew ->|k k' Hn Hkey Hst ->|k Hn Hkey Hret Hv ->]; unfold key_is in *.
  - rewrite Heq. destruct (m !! key_at key) as [[]|]; auto.
  - destruct Hnew as (_ & Hnone & Hnr & _). rewrite Hn in *. by rewrite Hnone in Hi.
  - rewrite lookup_insert_eq. rewrite Hkey in Hi. by eapply HQ.
  - rewrite lookup_delete_eq. by apply Hr.
Qed.

(** The key has given out the number. *)
Definition issued m (key : string) (n : Z) : Prop := key_is m key (λ k, (n < ck_Next k)%Z).

Lemma issued_write rs t m m' key n : write rs t m m' → Inv m → parseCryptoKey key = Ok tt → issued m key n → issued m' key n.
Proof. apply key_is_write. intros k k' (_ & _ & _ & [->|[-> _]]); lia. Qed.

(** A key's purpose does not change. *)
Definition has_purpose (key : string) (p : Purpose) (t : Time) (h : list ChallengeReply) m : Prop := key_is m key (λ k, ck_purpose k = p).

Lemma has_purpose_stable key p : parseCryptoKey key = Ok tt → stable (has_purpose key p).
Proof.
  intros Hk. split; [done|]. intros rs t h m m' Hp HI Hw _. revert Hp. apply (key_is_write rs t); [|done..].
  intros k k' ((_ & _ & Hpu & _) & _). unfold ck_purpose. by rewrite Hpu.
Qed.

(** No number is given out twice. *)
Lemma issued_slot m key n : issued m key n → slot m key n → False.
Proof. unfold issued, key_is, slot. destruct (m !! key_at key) as [[]|]; [done|lia|done..|naive_solver]. Qed.

(** ** Destroyed for good *)

Definition gone (key : string) (n : Z) (t : Time) (h : list ChallengeReply) m : Prop :=
  issued m key n ∧ match m !! version_at key n with Some (DVersion v) => destroyed t v | Some _ => False | None => True end.

Lemma gone_stable key n : parseCryptoKey key = Ok tt → (1 ≤ n)%Z → stable (gone key n).
Proof.
  intros Hk Hn. split.
  - intros t t' h h' m [Hi Hv] Ht _. split; [done|]. destruct (m !! version_at key n) as [[]|]; try done. by eapply destroyed_later.
  - intros rs t h m m' [Hi Hv] HI Hw _. split; [by eapply issued_write|].
    destruct (write_version rs t m m' key n Hw HI Hk Hn) as [->|v Hname _ Hs ->|v v' Hv' Hst ->|v p Hv' Hst _ _ _ _ _ ->|v k Hv' _ _ _ ->]; [done|..].
    + by destruct (issued_slot m key n).
    + rewrite Hv' in Hv. rewrite lookup_insert_eq. by eapply destroyed_live.
    + rewrite Hv' in Hv. by apply enabled_live in Hv.
    + by rewrite lookup_delete_eq.
Qed.

(** ** Material *)

(** The version, while it is not destroyed, has the material and the algorithm it
    was made with. *)
Definition keeps (key : string) (n : Z) (v0 : keyVersion) (t : Time) (h : list ChallengeReply) m : Prop :=
  issued m key n ∧
  match m !! version_at key n with
  | Some (DVersion v) => destroyed t v ∨ kv_Material v = kv_Material v0 ∧ kv_Algorithm v = kv_Algorithm v0 ∧ kv_ProtectionLevel v = kv_ProtectionLevel v0
  | Some _ => False
  | None => True
  end.

Lemma keeps_stable key n v0 : parseCryptoKey key = Ok tt → (1 ≤ n)%Z → stable (keeps key n v0).
Proof.
  intros Hk Hn. split.
  - intros t t' h h' m [Hi Hv] Ht _. split; [done|]. destruct (m !! version_at key n) as [[]|]; try done.
    destruct Hv; [left; by eapply destroyed_later|by right].
  - intros rs t h m m' [Hi Hv] HI Hw _. split; [by eapply issued_write|].
    destruct (write_version rs t m m' key n Hw HI Hk Hn) as [->|v Hname _ Hs ->|v v' Hv' Hst ->|v p Hv' Hst _ _ _ _ _ ->|v k Hv' _ _ _ ->]; [done|..].
    + by destruct (issued_slot m key n).
    + rewrite Hv' in Hv. rewrite lookup_insert_eq. destruct Hv as [Hd|Hs]; [left; by eapply destroyed_live|].
      destruct Hst as [(_ & _ & Ha & Hp & _) Hm _|u Hu -> Hsch Hd]; [right; by rewrite Hm, Ha, Hp|].
      left. unfold destroyed, effective at 1. by rewrite Hd.
    + rewrite Hv' in Hv. rewrite lookup_insert_eq. right. destruct Hv as [Hd|?]; [by apply enabled_live in Hd|done].
    + by rewrite lookup_delete_eq.
Qed.

(** Destroyed material is erased. *)
Definition erased (t : Time) (h : list ChallengeReply) m : Prop :=
  ∀ key n v, parseCryptoKey key = Ok tt → (1 ≤ n)%Z → m !! version_at key n = Some (DVersion v) → state v = DESTROYED → kv_Material v = "".

Lemma erased_stable : stable erased.
Proof.
  split; [done|]. intros rs t h m m' He HI Hw _ key n v Hk Hn Hv Hd.
  destruct (write_version rs t m m' key n Hw HI Hk Hn) as [Heq|v1 _ [Hab _] _ ->|v1 v2 Hv1 Hst ->|v1 p Hv1 Hst _ _ _ _ _ ->|v1 k _ _ _ _ ->].
  - rewrite Heq in Hv. by eapply He.
  - rewrite lookup_insert_eq in Hv. injection Hv as ->. unfold able in Hab. destruct Hab; congruence.
  - rewrite lookup_insert_eq in Hv. injection Hv as ->. destruct Hst as [_ _ [_ Hab|_ Hs _|_ Hs]|u _ -> Hs _].
    + destruct Hab; congruence.
    + congruence.
    + congruence.
    + unfold effective in *. destruct (bool_decide _ && _); [done|congruence].
  - rewrite lookup_insert_eq in Hv. injection Hv as <-. change (state v1 = DESTROYED) in Hd. congruence.
  - by rewrite lookup_delete_eq in Hv.
Qed.

(** ** The wait before destruction *)

(** Until a minimum's time after [t0] the version is there with its material,
    whatever is scheduled. *)
Definition waits (key : string) (n : Z) (v0 : keyVersion) (t0 : Time) (t : Time) (h : list ChallengeReply) m : Prop :=
  (t0 ≤ t)%Z ∧ issued m key n ∧
  ((t < t0 + minDestroyScheduled)%Z →
   version_in m key n (λ v, kv_Material v = kv_Material v0 ∧ state v ≠ DESTROYED ∧
     (state v = DESTROY_SCHEDULED → (t0 + minDestroyScheduled ≤ kv_DestroyTime v)%Z))).

Lemma waiting_live v t t1 : (t < t1)%Z → state v ≠ DESTROYED → (state v = DESTROY_SCHEDULED → (t1 ≤ kv_DestroyTime v)%Z) → ¬ destroyed t v.
Proof.
  intros Ht Hs Hd. unfold destroyed, effective. destruct (bool_decide (state v = DESTROY_SCHEDULED)) eqn:He; [|done].
  apply bool_decide_eq_true in He. specialize (Hd He). unfold Before. rewrite (proj2 (Z.ltb_lt _ _)) by lia. cbn. congruence.
Qed.

Lemma waits_stable key n v0 t0 : parseCryptoKey key = Ok tt → (1 ≤ n)%Z → stable (waits key n v0 t0).
Proof.
  intros Hk Hn. split.
  - intros t t' h h' m (H0 & Hi & Hv) Ht _. split_and!; [lia|done|]. intros Hlt. apply Hv. lia.
  - intros rs t h m m' (H0 & Hi & Hv) HI Hw _. split_and!; [done|by eapply issued_write|]. intros Hlt.
    destruct (Hv Hlt) as (v & Hat & Hm & Hs & Hd). pose proof (waiting_live v t _ Hlt Hs Hd) as Hlive.
    destruct (write_version rs t m m' key n Hw HI Hk Hn) as [Heq|v1 _ _ Hsl ->|v1 v2 Hv1 Hst ->|v1 p Hv1 Hst _ _ _ _ _ ->|v1 k Hv1 Hdes _ _ ->].
    + exists v. by rewrite Heq.
    + by destruct (issued_slot m key n).
    + rewrite Hat in Hv1. injection Hv1 as <-. exists v2. rewrite lookup_insert_eq. split; [done|].
      destruct Hst as [_ Hm2 Hl|u Hu -> Hsch Hdes]; [|exfalso; apply Hlive; by eapply destroyed_later].
      rewrite Hm2. destruct Hl as [_ [Hab|Hab]|_ Hab Hdt|_ Hab]; rewrite Hab; (split_and!; [done|done|intros ?; lia || done]).
    + rewrite Hat in Hv1. injection Hv1 as <-. exists (set_kv_HsmTrusted v true). by rewrite lookup_insert_eq.
    + rewrite Hat in Hv1. injection Hv1 as <-. by destruct Hlive.
Qed.

(** ** The primary *)

Definition primary_there m (key : string) (k : cryptoKey) : Prop :=
  ck_Primary k = 0%Z ∨ (1 ≤ ck_Primary k)%Z ∧ ck_purpose k = ENCRYPT_DECRYPT ∧ version_in m key (ck_Primary k) (λ _, True).

Definition primaries (t : Time) (h : list ChallengeReply) m : Prop :=
  ∀ key k, parseCryptoKey key = Ok tt → m !! key_at key = Some (DKey k) → primary_there m key k.

(** What keeps the versions keeps the primary. *)
Lemma primary_there_mono m m' key k :
  (∀ v, m !! version_at key (ck_Primary k) = Some (DVersion v) → ∃ v', m' !! version_at key (ck_Primary k) = Some (DVersion v')) →
  primary_there m key k → primary_there m' key k.
Proof.
  intros Hm [H0|(H1 & Hp & v & Hv & _)]; [by left|]. right. split_and!; [done|done|]. destruct (Hm v Hv) as [v' Hv']. by exists v'.
Qed.

(** A write to a key leaves every version; a write to a version leaves the key's
    primary. *)
Lemma primary_kept rs t m m' key k :
  write rs t m m' → Inv m → parseCryptoKey key = Ok tt → m !! key_at key = Some (DKey k) → primary_there m key k → primary_there m' key k.
Proof.
  intros Hw HI Hk Hkey. intros [H0|(H1 & Hp & v & Hv & _)]; [by left|]. right. split_and!; [done|done|].
  destruct (write_version rs t m m' key (ck_Primary k) Hw HI Hk H1) as [Heq|v1 _ _ _ ->|v1 v2 _ _ ->|v1 p _ _ _ _ _ _ _ ->|v1 k1 _ _ Hk1 Hne ->].
  - exists v. by rewrite Heq.
  - exists v1. by rewrite lookup_insert_eq.
  - exists v2. by rewrite lookup_insert_eq.
  - eexists. by rewrite lookup_insert_eq.
  - rewrite Hkey in Hk1. by injection Hk1 as ->.
Qed.

Lemma primaries_stable : stable primaries.
Proof.
  split; [done|]. intros rs t h m m' Hall HI Hw _ key k Hk Hkey.
  destruct (write_key rs t m m' key Hw HI Hk) as [Heq|k1 Hn Hnew ->|k1 k2 Hn Hk1 Hst ->|k1 _ _ _ _ ->].
  - rewrite Heq in Hkey. eapply primary_kept; [done..|]. by apply Hall.
  - rewrite lookup_insert_eq in Hkey. injection Hkey as ->. destruct Hnew as (_ & _ & _ & [[_ Hp]|(_ & Hv1 & [Hp|[Hp Hpu]])]); [by left|by left|].
    right. split_and!; [lia|done|]. rewrite Hp. destruct Hv1 as (v & Hv & _). exists v. split; [|done]. rewrite Hn in Hv.
    by rewrite lookup_insert_ne by other_kind.
  - rewrite lookup_insert_eq in Hkey. injection Hkey as ->. destruct Hst as ((_ & _ & Hpu & _) & _ & Hp & _).
    assert (ck_purpose k = ck_purpose k1) as Hpu' by (unfold ck_purpose; by rewrite Hpu).
    apply (primary_there_mono m); [intros v Hv; exists v; by rewrite lookup_insert_ne by other_kind|].
    destruct Hp as [Hp|[(H1 & Hp & v & Hv & _)|[Hp _]]]; [|right|by left].
    + specialize (Hall key k1 Hk Hk1). unfold primary_there in *. by rewrite Hp, Hpu'.
    + split_and!; [done|by rewrite Hpu'|]. exists v. by rewrite <- Hn.
  - by rewrite lookup_delete_eq in Hkey.
Qed.

(** ** Retired names *)

Definition name_retired (key : string) (t : Time) (h : list ChallengeReply) m : Prop := m !! key_at key = None ∧ retired m key.

Lemma name_retired_stable key : parseCryptoKey key = Ok tt → stable (name_retired key).
Proof.
  intros Hk. split; [done|]. intros rs t h m m' [Hn Hr] HI Hw _. split; [|by eapply retired_kept].
  destruct (write_key rs t m m' key Hw HI Hk) as [Heq|k1 Hnm Hnew ->|k1 k2 _ Hk1 _ ->|k1 _ Hk1 _ _ ->]; try congruence.
  destruct Hnew as (_ & _ & Hnr & _). by rewrite Hnm in Hnr.
Qed.

End spec.
