(* ===== verification/KmsRunSpec.v ===== *)
(** * Cloud KMS: versions and keys over runs of the service

    What the invariants of [KmsSpec] mean for the handlers of a service that has
    run for a while, through failing writes and restarts. *)

From S2P Require Import Prelude GoLib ApiError Resource MetaStore Paging IamPolicy Handler GoCrypto GoBinary NetHttp KmsModel KmsNames KmsFilter KmsStore KmsVersions KmsKeys KmsCrypt KmsKwp KmsSweep KmsImport KmsHsm KmsEkm KmsAutokey KmsInv KmsEffects KmsHandlers KmsHsmWrites KmsRun KmsSpec.
From Stdlib Require Import Ascii.

Import strings time.

Section runs.
Context {S : Type} `{MSL : MetaStoreLaws S doc} `{NET : Net} `{UNI : Unicode} `{TJ : TokenJSON}.
Context `{X : X509} `{RP : RsaPublic} `{HA : Hashes} `{OA : Oaep} `{AE : Aes} `{CRC : Crc32} `{CR : Crypto} `{JT : JsonText} `{CE : Certificates}.
Implicit Types (s : Server S) (e : Env) (w : world (S := S)).

Abbreviation H := (M Env (Server S)).
Abbreviation cts s := (contents (db s)).
Abbreviation store w := (contents (db (w_srv w))).

(** What [does] says of a result. *)
Lemma does_result {A} rs e s (h : H A) Q a : does rs e s h Q → (h e s).2 = Ok a → Q a (h e s).1.
Proof. intros [_ Hq] Ha. by rewrite Ha in Hq. Qed.

(** ** Destroyed for good *)

Section gone.
Context e s key n (HI : Inv (cts s)) (Hk : parseCryptoKey key = Ok tt) (Hn : (1 ≤ n)%Z) (Hg : gone key n (clock_Now e) [] (cts s)).

Lemma gone_read d v : cts s !! version_at key n = Some d → of_doc d = Some v → state (on_read (clock_Now e) v) = DESTROYED.
Proof.
  intros Hd Hv. destruct Hg as [_ Hx]. rewrite Hd in Hx. by destruct d; try done; injection Hv as ->.
Qed.

Lemma gone_Get pv : (GetCryptoKeyVersion (versionName key n) e s).2 = Ok pv → pv_state pv = DESTROYED.
Proof.
  apply (does_result no_warrant _ _ _ (λ pv _, pv_state pv = DESTROYED)). unfold GetCryptoKeyVersion. does_step. does_step. does_step. does_step.
  does_step. by eapply gone_read.
Qed.

Lemma gone_Decrypt req r : de_name req = key → parseVersion (de_ciphertext req) = Ok n → (Decrypt req e s).2 ≠ Ok r.
Proof.
  intros Hreq Hct Hr. revert Hr. apply (does_result no_warrant _ _ _ (λ _ _, False)). unfold Decrypt. rewrite Hreq.
  do 11 does_step. apply does_load_key; [done|done|]. intros k _ Hname _. do 3 does_step.
  apply does_reads; [apply reads_backendUsable|]. intros [] _. do 2 does_step. rewrite Hct, Hname. does_step.
  apply does_get; [intros _; does_step|]. intros d v Hd Hv. does_step. does_step. match goal with Hx : context [state (on_read _ v)] |- _ => by rewrite (gone_read d v Hd Hv) in Hx end.
Qed.

Lemma gone_Restore pv : (RestoreCryptoKeyVersion (versionName key n) e s).2 ≠ Ok pv.
Proof.
  intros Hr. revert Hr. apply (does_result no_warrant _ _ _ (λ _ _, False)). unfold RestoreCryptoKeyVersion. do 3 does_step.
  apply does_load. intros d v Hd Hv. do 2 does_step. match goal with Hx : context [state (on_read _ v)] |- _ => by rewrite (gone_read d v Hd Hv) in Hx end.
Qed.

Lemma gone_Update req pv : uv_name req = versionName key n → (UpdateCryptoKeyVersion req e s).2 ≠ Ok pv.
Proof.
  intros Hreq Hr. revert Hr. apply (does_result no_warrant _ _ _ (λ _ _, False)). unfold UpdateCryptoKeyVersion. rewrite Hreq. does_step. does_step.
  destruct a as [key' n']. do 4 does_step. destruct a as [set ext]. do 3 does_step. apply does_load. intros d v Hd Hv. do 2 does_step.
  match goal with Hx : context [state (on_read _ v)] |- _ => by rewrite (gone_read d v Hd Hv) in Hx end.
Qed.

End gone.

(** C13: A version whose number its key has given out and that is destroyed at some
    time is destroyed at every later one, after any run of the service (an
    administrator's reset aside) and whatever writes failed in it: it is read as
    destroyed until it is deleted, and nothing brings it back, decrypts with it or
    changes it.  A number is given out by the write of the key; a version left by a
    creation whose key write failed is not covered: the next creation overwrites
    it. *)
Theorem destroyed_for_good w w' e key n :
  reachable w → rtc step w w' → (w_time w' ≤ clock_Now e)%Z → parseCryptoKey key = Ok tt → (1 ≤ n)%Z →
  issued (store w) key n → version_in (store w) key n (destroyed (w_time w)) →
  (∀ pv, (GetCryptoKeyVersion (versionName key n) e (w_srv w')).2 = Ok pv → pv_state pv = DESTROYED) ∧
  (∀ req r, de_name req = key → parseVersion (de_ciphertext req) = Ok n → (Decrypt req e (w_srv w')).2 ≠ Ok r) ∧
  (∀ pv, (RestoreCryptoKeyVersion (versionName key n) e (w_srv w')).2 ≠ Ok pv) ∧
  (∀ req pv, uv_name req = versionName key n → (UpdateCryptoKeyVersion req e (w_srv w')).2 ≠ Ok pv) ∧
  (∀ v, store w' !! version_at key n = Some (DVersion v) → kv_Material (effective v (clock_Now e)) = "").
Proof.
  intros Hw Hr He Hk Hn Hi (v & Hv & Hd). pose proof (reachable_inv w Hw) as HI. pose proof (gone_stable key n Hk Hn) as Hst.
  destruct (stable_run _ w w' Hst Hr HI) as [HI' Hg]; [split; [done|by rewrite Hv]|].
  apply (stable_later _ Hst _ (clock_Now e) _ (w_replies w')) in Hg; [|done|set_solver].
  destruct (reachable_stable erased w' erased_stable) as [_ He']; [by intros ? ? ? ? _ _ ?%lookup_empty_Some|by eapply reachable_run|].
  split_and!; [by apply gone_Get|by apply gone_Decrypt|by apply gone_Restore|by apply gone_Update|].
  intros v' Hv'. destruct Hg as [_ Hg]. rewrite Hv' in Hg. unfold destroyed, effective in *. destruct (bool_decide (state v' = DESTROY_SCHEDULED) && negb (Before (clock_Now e) (kv_DestroyTime v'))); [done|]. by eapply He'.
Qed.

(** ** Encrypt and Decrypt *)

(** Computations that succeed without writing, one after the other. *)
Lemma bind_ok {A B} e s (h : H A) (f : A → H B) a : h e s = (s, Ok a) → (h ≫= f) e s = f a e s.
Proof. intros Hh. unfold mbind, M_bind. by rewrite Hh. Qed.

Lemma reads_ok {A} e s (h : H A) a : reads h → (h e s).2 = Ok a → h e s = (s, Ok a).
Proof. intros Hr Ha. rewrite <- (Hr e s) at 2. rewrite <- Ha. by destruct (h e s). Qed.

Lemma get_ok {T} `{Record_ T} e s p name d (v : T) :
  p ∈ prefixes → plain name → cts s !! dbKey p name = Some d → of_doc d = Some v → get (dbKey p name) e s = (s, Ok (Some (on_read (clock_Now e) v))).
Proof.
  intros Hp Hn Hd Hv. unfold get. rewrite Get_law. unfold checkKey. rewrite (SafeKey_dbKey p name Hp Hn). cbn [mbind res_bind]. by rewrite Hd, Hv.
Qed.

Lemma load_ok {T} `{Record_ T} e s p name d (v : T) :
  p ∈ prefixes → plain name → cts s !! dbKey p name = Some d → of_doc d = Some v → load (dbKey p name) e s = (s, Ok (on_read (clock_Now e) v)).
Proof. intros Hp Hn Hd Hv. unfold load. by rewrite (bind_ok _ _ _ _ _ (get_ok e s p name d v Hp Hn Hd Hv)). Qed.

Lemma load_key_ok e s key k : parseCryptoKey key = Ok tt → cts s !! key_at key = Some (DKey k) → load (T := cryptoKey) (key_at key) e s = (s, Ok k).
Proof. intros Hk Hkey. pose proof (load_ok e s _ _ _ k keyPrefix_in (key_plain _ Hk) Hkey) as Hl. exact (Hl eq_refl). Qed.

Lemma get_version_ok e s key n v :
  parseCryptoKey key = Ok tt → (1 ≤ n)%Z → cts s !! version_at key n = Some (DVersion v) →
  get (T := keyVersion) (version_at key n) e s = (s, Ok (Some (effective v (clock_Now e)))).
Proof. intros Hk Hn Hv. pose proof (get_ok e s _ _ _ v versionPrefix_in (version_plain _ _ (key_plain _ Hk) Hn) Hv) as Hg. exact (Hg eq_refl). Qed.

Lemma encrypt_name_ok name key n : encrypt_name name = Ok (key, n) → parseCryptoKey key = Ok tt ∧ (n = 0%Z ∨ (1 ≤ n)%Z).
Proof.
  unfold encrypt_name. destruct (8 <? _)%nat.
  - intros (_ & Hk & Hn)%parseCryptoKeyVersion_ok. split; [done|lia].
  - destruct (parseCryptoKey name) as [[]|] eqn:Hk; [|done]. intros [= <- <-]. auto.
Qed.

(** The version a request's name stands for: its own, or its key's primary. *)
Definition target (m : contents_) (name : string) (v : keyVersion) : Prop := ∃ key n n0 k,
  encrypt_name name = Ok (key, n0) ∧ n = (if (n0 =? 0)%Z then ck_Primary k else n0) ∧ parseCryptoKey key = Ok tt ∧ (1 ≤ n)%Z ∧ m !! key_at key = Some (DKey k) ∧ ck_purpose k = ENCRYPT_DECRYPT ∧
  m !! version_at key n = Some (DVersion v) ∧ kv_Name v = versionName key n ∧ state v = ENABLED.

Lemma encryptTarget_does e s name : Inv (cts s) → primaries zero [] (cts s) → does no_warrant e s (encryptTarget name) (λ v s', s' = s ∧ target (cts s) name v).
Proof.
  intros HI Hpr. unfold encryptTarget. do 2 does_step. destruct a as [key n]. rename H into Hname0. apply encrypt_name_ok in Hname0 as Hx. destruct Hx as [Hk Hn].
  does_step. apply does_load_key; [done|done|]. intros k Hkey Hname _. do 2 does_step. does_step. apply does_reads; [apply reads_backendUsable|].
  intros [] _. do 4 does_step. cbv zeta. set (n' := if (n =? 0)%Z then ck_Primary k else n).
  unfold wantPurpose in *. case_bool_decide as Hpu; [|done]. apply list_elem_of_singleton in Hpu.
  assert (1 ≤ n')%Z as Hn'.
  { subst n'. destruct (Z.eqb_spec n 0) as [->|]; [|lia]. destruct (Hpr key k Hk Hkey) as [Hp|[? _]]; [|done].
    by rewrite Hp in *. }
  does_step. apply does_load. intros d v Hd Hv. destruct (version_named _ _ _ _ HI Hk Hn' Hd) as (v' & -> & Hvn). injection Hv as <-.
  do 3 does_step. cbn [on_read keyVersion_record] in *.
  match goal with Hx : negb (bool_decide (state _ = ENABLED)) = false |- _ => apply negb_false_iff, bool_decide_eq_true in Hx; rename Hx into Hen end.
  rewrite effective_live in * by by rewrite Hen. split; [done|]. exists key, n', n, k. done.
Qed.

(** What a successful Encrypt did. *)
Lemma Encrypt_result e s req r :
  Inv (cts s) → primaries zero [] (cts s) → (Encrypt req e s).2 = Ok r → ∃ v key n,
    target (cts s) (en_name req) v ∧ kv_Name v = versionName key n ∧ parseCryptoKeyVersion (kv_Name v) = Ok (key, n) ∧
    es_name r = kv_Name v ∧ es_protection_level r = kv_protectionLevel v ∧
    longer maxSoftwareBytes (len (en_aad req)) = false ∧
    seal (kv_Material v) (wrap_u32 n) (en_plaintext req) (en_aad req) (rand_nonce e) = Ok (es_ciphertext r).
Proof.
  intros HI Hpr. refine (does_result no_warrant e s _ (λ r _, _) r _). unfold Encrypt. do 6 does_step. rename H1 into Haad. do 5 does_step.
  eapply does_mono; [|by apply encryptTarget_does]. intros v s' [-> Ht]. do 2 does_step.
  destruct (parseCryptoKeyVersion (kv_Name v)) as [[key n]|] eqn:Hp; [|does_step]. do 2 does_step.
  destruct (seal _ _ _ _ _) as [ct|] eqn:Hs; [|does_step]. does_step. exists v, key, n. cbn. apply parseCryptoKeyVersion_ok in Hp as Hp'.
  split_and!; try done. apply Hp'.
Qed.

(** A checksum that was sent is right. *)
Definition sent_ok (data : string) (sent : option Z) : Prop := ∃ b, checkCRC data sent = Ok b.

(** The request decrypts what [r] is. *)
Definition decrypts (req : EncryptRequest) (r : EncryptResponse) (key : string) (req' : DecryptRequest) : Prop :=
  de_name req' = key ∧ de_ciphertext req' = es_ciphertext r ∧ de_aad req' = en_aad req ∧
  sent_ok (de_ciphertext req') (de_ciphertext_crc req') ∧ sent_ok (de_aad req') (de_aad_crc req').

(** Decrypt of a ciphertext of an enabled version whose material opens it. *)
Lemma Decrypt_ok e s key n k v req pt :
  Inv (cts s) → parseCryptoKey key = Ok tt → (1 ≤ n)%Z → cts s !! key_at key = Some (DKey k) → ck_purpose k = ENCRYPT_DECRYPT →
  (backendUsable k e s).2 = Ok tt → kajRefusal k = Ok tt → cts s !! version_at key n = Some (DVersion v) → state (effective v (clock_Now e)) = ENABLED →
  de_name req = key → (0 < len (de_ciphertext req)) → longer maxSoftwareBytes (len (de_aad req)) = false →
  sent_ok (de_ciphertext req) (de_ciphertext_crc req) → sent_ok (de_aad req) (de_aad_crc req) →
  parseVersion (de_ciphertext req) = Ok n → open (kv_Material v) n (de_ciphertext req) (de_aad req) = Ok pt →
  (Decrypt req e s).2 = Ok (mkDecryptResponse pt (crc32c pt) (n =? ck_Primary k)%Z (kv_protectionLevel v)).
Proof.
  intros HI Hk Hn Hkey Hpu Hb Hkaj Hv Hen Hreq Hlen Haad [c1 Hc1] [c2 Hc2] Hpv Hop. unfold Decrypt. rewrite Hreq, Hk, Haad, Hc1, Hc2.
  rewrite (proj2 (Nat.eqb_neq _ _)) by lia. do 5 (rewrite (bind_ok _ _ _ _ _ eq_refl)).
  rewrite (bind_ok _ _ _ _ _ (load_key_ok e s key k Hk Hkey)).
  unfold wantPurpose. rewrite bool_decide_true by (rewrite Hpu; by left). rewrite (bind_ok _ _ _ _ _ eq_refl).
  rewrite (bind_ok _ _ _ _ _ (reads_ok _ _ _ _ (reads_backendUsable k) Hb)), Hkaj, (bind_ok _ _ _ _ _ eq_refl), Hpv.
  destruct (key_named _ _ _ HI (key_plain _ Hk) Hkey) as (k' & [= <-] & Hkn & _). rewrite Hkn.
  rewrite (bind_ok _ _ _ _ _ (get_version_ok e s key n v Hk Hn Hv)).
  rewrite effective_live in * by by rewrite Hen. rewrite bool_decide_true by done. cbn [negb].
  rewrite (bind_ok _ _ _ _ _ eq_refl), Hop. done.
Qed.

Lemma decrypt_after `{CL : !CryptoLaws, GO : !GcmOverhead} w w' e e' req r key n k' v' req' :
  reachable w → env_ok e → (Encrypt req e (w_srv w)).2 = Ok r → es_name r = versionName key n →
  parseCryptoKey key = Ok tt → (1 ≤ n < 2 ^ 32)%Z → issued (store w) key n →
  rtc step w w' → (w_time w' ≤ clock_Now e')%Z → decrypts req r key req' →
  store w' !! key_at key = Some (DKey k') → kajRefusal k' = Ok tt → (backendUsable k' e' (w_srv w')).2 = Ok tt →
  store w' !! version_at key n = Some (DVersion v') → state (effective v' (clock_Now e')) = ENABLED →
  (Decrypt req' e' (w_srv w')).2 =
    Ok (mkDecryptResponse (en_plaintext req) (crc32c (en_plaintext req)) (n =? ck_Primary k')%Z (es_protection_level r)).
Proof.
  intros Hw He Henc Hname Hk Hn Hi Hr Ht (Hreq & Hct & Haad & Hc1 & Hc2) Hk' Hkaj Hb Hv' Hen'.
  destruct (reachable_stable primaries w primaries_stable) as [HI Hpr]; [by intros ? ? ? _ ?%lookup_empty_Some|done|].
  destruct (Encrypt_result e _ req r HI Hpr Henc) as (v & key0 & n0 & Ht0 & Hvn & Hp0 & Hes & Hlv & Hlong & Hseal).
  apply parseCryptoKeyVersion_ok in Hp0 as (_ & Hk0 & Hn0). rewrite Hes, Hvn in Hname.
  apply version_number_inj in Hname as [-> ->]; [|done|done|lia|lia].
  destruct Ht0 as (key1 & n1 & n0 & k & _ & _ & Hk1 & Hn1 & Hkey & Hpu & Hv & Hvn1 & Hst). rewrite Hvn in Hvn1.
  apply version_number_inj in Hvn1 as [<- <-]; [|done|done|lia|lia].
  destruct (stable_run _ w w' (keeps_stable key n v Hk ltac:(lia)) Hr HI) as [HI' [_ Hkeep]]; [split; [done|rewrite Hv; auto]|].
  destruct (stable_run _ w w' (has_purpose_stable key ENCRYPT_DECRYPT Hk) Hr HI) as [_ Hpu']; [unfold has_purpose, key_is; by rewrite Hkey|].
  unfold has_purpose, key_is in Hpu'. rewrite Hk' in Hpu'. rewrite Hv' in Hkeep.
  assert (kv_Material v' = kv_Material v ∧ kv_ProtectionLevel v' = kv_ProtectionLevel v) as [Hm Hpl].
  { destruct Hkeep as [Hd|(? & _ & ?)]; [|done]. apply (destroyed_later _ _ (clock_Now e')) in Hd; [|done]. unfold destroyed in Hd. congruence. }
  assert (wrap_u32 n = n) as Hwrap by (unfold wrap_u32; rewrite Z.mod_small; lia). rewrite Hwrap in Hseal.
  assert (∀ b, rand_nonce e = Some b → len b = nonceLen) as Hnonce by apply (env_nonce e He).
  rewrite Hlv. unfold kv_protectionLevel. rewrite <- Hpl. rewrite <- Hct, <- Haad in Hseal. rewrite <- Hm in Hseal.
  apply (Decrypt_ok e' _ key n k' v'); try done; [|by rewrite Haad|by eapply parseVersion_seal; [|done..]; lia|by eapply open_seal; [|done..]; lia].
  unfold seal in Hseal. destruct (negb _); [done|]. destruct (rand_nonce e); [|done]. injection Hseal as <-. rewrite len_app, header_len. unfold headerLen. lia.
Qed.

(** C12: What Encrypt made with a version the key has given out, Decrypt gives back
    after any run of the service, as long as the version is enabled and the key may
    be used: the material of a version never changes.  (A run leaves out an
    administrator's reset, which deletes records.) *)
Theorem encrypted_is_decrypted `{CL : !CryptoLaws, GO : !GcmOverhead} w w' e e' req r key n k' v' req' :
  reachable w → env_ok e → (Encrypt req e (w_srv w)).2 = Ok r → es_name r = versionName key n →
  parseCryptoKey key = Ok tt → (1 ≤ n < 2 ^ 32)%Z → issued (store w) key n →
  rtc step w w' → (w_time w' ≤ clock_Now e')%Z → decrypts req r key req' →
  store w' !! key_at key = Some (DKey k') → kajRefusal k' = Ok tt → (backendUsable k' e' (w_srv w')).2 = Ok tt →
  store w' !! version_at key n = Some (DVersion v') → state (effective v' (clock_Now e')) = ENABLED →
  (Decrypt req' e' (w_srv w')).2 =
    Ok (mkDecryptResponse (en_plaintext req) (crc32c (en_plaintext req)) (n =? ck_Primary k')%Z (es_protection_level r)).
Proof. apply decrypt_after. Qed.

(** ** The wait before destruction *)

(** C18: An enabled or disabled version whose number its key has given out (not one
    left by a creation whose key write failed) is there, with its material, for at
    least a day, whatever is called in between, an administrator's reset aside:
    DestroyCryptoKeyVersion only starts the wait. *)
Theorem destruction_delayed w w' e key n v :
  reachable w → rtc step w w' → (w_time w' ≤ clock_Now e < w_time w + minDestroyScheduled)%Z →
  parseCryptoKey key = Ok tt → (1 ≤ n ≤ int_max)%Z → issued (store w) key n →
  store w !! version_at key n = Some (DVersion v) → able (state v) →
  ∃ v' pv, store w' !! version_at key n = Some (DVersion v') ∧ kv_Material (effective v' (clock_Now e)) = kv_Material v ∧
    GetCryptoKeyVersion (versionName key n) e (w_srv w') = (w_srv w', Ok pv) ∧ pv_name pv = versionName key n ∧ pv_state pv ≠ DESTROYED.
Proof.
  intros Hw Hr He Hk Hn Hi Hv Ha. pose proof (waits_stable key n v (w_time w) Hk (proj1 Hn)) as Hst.
  destruct (stable_run _ w w' Hst Hr (reachable_inv w Hw)) as [HI' Hx].
  { split_and!; [lia|done|]. intros _. exists v. split_and!; [done|done|..]; destruct Ha as [->| ->]; done. }
  apply (stable_later _ Hst _ (clock_Now e) _ (w_replies w')) in Hx; [|lia|set_solver].
  destruct Hx as (_ & _ & Hx). destruct (Hx (proj2 He)) as (v' & Hv' & Hm & Hs & Hd).
  pose proof (waiting_live v' _ _ (proj2 He) Hs Hd) as Hl. exists v', (toVersion v'). rewrite effective_live by done.
  split_and!; [done|done| |by destruct (version_named _ _ _ _ HI' Hk (proj1 Hn) Hv') as (? & [= <-] & ?)|done].
  unfold GetCryptoKeyVersion, load. rewrite parse_versionName by done. rewrite (bind_ok _ _ _ _ _ eq_refl).
  unfold mbind, M_bind. rewrite (get_version_ok e _ key n v' Hk (proj1 Hn) Hv'). cbn. by rewrite effective_live.
Qed.

(** ** The primary *)

(** A key that is stored is served, with its primary: the version a key names as
    its primary is never missing, after any run. *)
Theorem primary_never_missing w e key k :
  reachable w → parseCryptoKey key = Ok tt → store w !! key_at key = Some (DKey k) →
  ∃ pk, GetCryptoKey key e (w_srv w) = (w_srv w, Ok pk) ∧
    (pk_primary pk = None ↔ ck_Primary k = 0%Z) ∧ (∀ pv, pk_primary pk = Some pv → pv_name pv = versionName key (ck_Primary k) ∧ pk_purpose pk = ENCRYPT_DECRYPT).
Proof.
  intros Hw Hk Hkey. destruct (reachable_stable primaries w primaries_stable) as [HI Hpr]; [by intros ? ? ? _ ?%lookup_empty_Some|done|].
  destruct (key_named _ _ _ HI (key_plain _ Hk) Hkey) as (k' & [= <-] & Hkn & _).
  unfold GetCryptoKey. rewrite Hk, (bind_ok _ _ _ _ _ eq_refl), (bind_ok _ _ _ _ _ (load_key_ok e _ key k Hk Hkey)). unfold toKey. rewrite Hkn.
  destruct (Hpr key k Hk Hkey) as [H0|(H1 & Hpu & v & Hv & _)].
  - rewrite H0. cbn [Z.ltb Z.compare]. rewrite (bind_ok _ _ _ _ _ eq_refl). eexists. split; [done|]. done.
  - rewrite (proj2 (Z.ltb_lt 0 (ck_Primary k))) by lia. destruct (version_named _ _ _ _ HI Hk H1 Hv) as (? & [= <-] & Hvn).
    erewrite bind_ok; [|rewrite (bind_ok _ _ _ _ _ (get_version_ok e _ key _ v Hk H1 Hv)); reflexivity].
    eexists. split; [done|]. cbn. split; [split; [done|intros ?; exfalso; lia]|]. intros pv [= <-]. cbn. by rewrite effective_name.
Qed.

(** ** Names *)

Lemma retired_refuses e s req key pk :
  Inv (cts s) → retired (cts s) key → key = cr_parent req +:+ "/cryptoKeys/" +:+ cr_id req → (CreateCryptoKey req e s).2 ≠ Ok pk.
Proof.
  intros HI Hret Hreq Hr. revert Hr. apply (does_result no_warrant _ _ _ (λ _ _, False)). unfold CreateCryptoKey. do 4 does_step.
  destruct (cr_key req) as [input|]; [|does_step]. do 2 does_step. destruct a0 as [[[[[level alg] d] kaj] period] next]. cbv zeta.
  rewrite <- Hreq. do 3 does_step. apply does_get; [intros _|intros ? ? _ _; do 2 does_step; by match goal with Hx : _ = false |- _ => apply bool_decide_eq_false in Hx; destruct Hx end]. do 5 does_step.
  apply does_reads; [apply reads_isRetired|]. intros ret Hx. do 2 does_step. subst ret. exfalso. by apply (isRetired_none no_warrant e s key HI Hx).
Qed.

(** C16: The name of a crypto key that was deleted is never a key's again: it is not
    found and cannot be created, after any run (an administrator's reset aside). *)
Theorem deleted_name_never_reused w e key op w' e' :
  reachable w → env_ok e → fresh e (store w) → (w_time w ≤ clock_Now e)%Z → (DeleteCryptoKey key e (w_srv w)).2 = Ok op →
  rtc step (mkWorld (DeleteCryptoKey key e (w_srv w)).1 (clock_Now e) (w_replies w)) w' →
  (∀ pk, (GetCryptoKey key e' (w_srv w')).2 ≠ Ok pk) ∧
  (∀ req pk, key = cr_parent req +:+ "/cryptoKeys/" +:+ cr_id req → (CreateCryptoKey req e' (w_srv w')).2 ≠ Ok pk).
Proof.
  intros Hw He Hf Ht Hd Hr. pose proof (reachable_inv w Hw) as HI.
  pose proof (DeleteCryptoKey_does no_warrant e (w_srv w) key HI He Hf) as Hdel.
  assert (Inv (cts (DeleteCryptoKey key e (w_srv w)).1)) as HI1 by (eapply writes_inv; [apply Hdel|done]).
  apply (does_result _ _ _ _ _ _ Hdel) in Hd as [Hk Hd].
  destruct (stable_run _ _ w' (name_retired_stable key Hk) Hr HI1) as [HI' [Hn Hret]]; [exact Hd|].
  split; [|intros req pk Hreq; by eapply retired_refuses].
  intros pk Hp. revert Hp. apply (does_result no_warrant _ _ _ (λ _ _, False)). unfold GetCryptoKey. do 3 does_step. apply does_load. congruence.
Qed.

End runs.
