(* ===== verification/KmsQuorum.v ===== *)
(** * Cloud KMS: the quorum of an HSM instance

    The invariant of the instances and their proposals: an instance has between
    three and sixteen distinct two-factor keys and needs a true part of them, one
    proposal is active at a time, its challenges are those of the instance's
    present members, and every challenge that counts as approved was signed by a
    reply the service got. *)

From S2P Require Import Prelude GoLib ApiError Resource MetaStore Paging IamPolicy Handler GoCrypto GoBinary NetHttp KmsModel KmsNames KmsFilter KmsStore KmsVersions KmsKeys KmsCrypt KmsKwp KmsSweep KmsImport KmsHsm KmsEkm KmsAutokey KmsInv KmsEffects KmsHandlers KmsHsmWrites KmsRun.
From Stdlib Require Import Ascii.

Import strings time.

(** ** Two-factor keys *)

Section keys.
Context `{X : X509} `{RP : RsaPublic}.

(** Keys that parse, to distinct ones. *)
Definition distinct (pems : list string) : Prop := ∃ ders, Forall2 (λ pem der, twoFactorKey pem = Ok der) pems ders ∧ NoDup ders.

Lemma distinct_keys_distinct pems : distinct_keys [] pems = Ok tt → distinct pems.
Proof.
  assert (∀ seen, distinct_keys seen pems = Ok tt →
    ∃ ders, Forall2 (λ pem der, twoFactorKey pem = Ok der) pems ders ∧ NoDup ders ∧ ∀ d, d ∈ ders → d ∉ seen) as Hgen.
  { induction pems as [|pem pems IH]; intros seen; cbn [distinct_keys]; [intros _; exists []; split_and!; [constructor|constructor|set_solver]|].
    intros (der & Hder & Hrest)%res_bind_ok. case_bool_decide as Hin; [done|]. destruct (IH _ Hrest) as (ders & Hf & Hnd & Hnot).
    exists (der :: ders). split_and!; [by constructor|constructor; [set_solver|done]|set_solver]. }
  intros H. destruct (Hgen [] H) as (ders & Hf & Hnd & _). by exists ders.
Qed.

Lemma samePem_refl pem der : twoFactorKey pem = Ok der → samePem pem pem = true.
Proof. intros H. unfold samePem. rewrite H. by apply bool_decide_eq_true. Qed.

Lemma distinct_add pems pem der :
  distinct pems → twoFactorKey pem = Ok der → existsb (λ k, samePem k pem) pems = false → distinct (pems ++ [pem]).
Proof.
  intros (ders & Hf & Hnd) Hder Hno. exists (ders ++ [der]). split; [by apply Forall2_app; [|repeat constructor]|].
  apply NoDup_app. split_and!; [done| |apply NoDup_singleton]. intros d Hd ->%list_elem_of_singleton.
  apply list_elem_of_lookup in Hd as [j Hj]. destruct (Forall2_lookup_r _ _ _ _ _ Hf Hj) as (k & Hk & Hkd).
  assert (existsb (λ k, samePem k pem) pems = true); [|congruence]. apply existsb_exists. exists k.
  split; [apply list_elem_of_In, list_elem_of_lookup; by exists j|]. unfold samePem. rewrite Hkd, Hder. by apply bool_decide_eq_true.
Qed.

(** Removing a key leaves the others. *)
Lemma distinct_remove pems pem :
  distinct pems → distinct (base.filter (λ k, samePem k pem = false) pems) ∧
    length pems ≤ length (base.filter (λ k, samePem k pem = false) pems) + 1 ∧ length (base.filter (λ k, samePem k pem = false) pems) ≤ length pems.
Proof.
  intros (ders & Hf & Hnd).
  assert (∃ ders', Forall2 (λ pem der, twoFactorKey pem = Ok der) (base.filter (λ k, samePem k pem = false) pems) ders' ∧ NoDup ders' ∧ ders' ⊆ ders ∧
    (length pems ≤ length (base.filter (λ k, samePem k pem = false) pems) + 1) ∧
    ((∀ der, twoFactorKey pem = Ok der → der ∉ ders) → base.filter (λ k, samePem k pem = false) pems = pems)) as (ders' & ? & ? & _ & ? & _).
  { clear -Hf Hnd. induction Hf as [|k d ks ds Hk Hf IH]; [exists []; split_and!; [constructor|constructor|done|cbn; lia|done]|].
    apply NoDup_cons in Hnd as [Hd Hnd]. destruct (IH Hnd) as (ders' & Hf' & Hnd' & Hsub & Hlen & Hall). rewrite filter_cons. case_decide as Hs.
    - exists (d :: ders'). split_and!; [by constructor|constructor; [set_solver|done]|set_solver|cbn; lia|].
      intros Hno. f_equal. apply Hall. intros der Hder. specialize (Hno der Hder). set_solver.
    - unfold samePem in Hs. rewrite Hk in Hs. destruct (twoFactorKey pem) as [der|] eqn:Hpem; [|done].
      apply not_false_iff_true, bool_decide_eq_true in Hs as <-. exists ders'. split_and!; [done|done|set_solver| |].
      + rewrite Hall; [cbn; lia|]. by intros ? [= <-].
      + intros Hno. exfalso. apply (Hno d eq_refl). by left. }
  split_and!; [by exists ders'|done|]. apply length_filter.
Qed.

End keys.

(** ** The invariant *)

Section quorum.
Context `{X : X509} `{RP : RsaPublic} `{HA : Hashes}.
Implicit Types (m : contents_) (h : list ChallengeReply) (p : hsmProposal) (i : hsmInstance).

Definition stored_p m p : Prop := proposal_at m (hp_Name p) p.
Definition stored_i m i : Prop := instance_at m (hi_Name i) i.

(** The challenge was signed if it counts as approved. *)
Definition signed h (c : hsmChallenge) : Prop := hc_Approved c = true → ∃ r, r ∈ h ∧ signs r c.

Record proposal_ok h p : Prop := mkProposalOk {
  po_quorum : Forall (signed h) (hp_Quorum p);
  po_must : Forall (signed h) (hp_Must p);
  po_approved : hp_State p = PROPOSAL_APPROVED → approved_by_all p;
  po_keys : keys_parse p;
  po_members : hc_Pem <$> hp_Must p = must_of p
}.

Definition registered i : Prop := hi_Total i = Z.of_nat (length (hi_Pems i)) ∧ (2 ≤ hi_Required i ≤ hi_Total i - 1)%Z ∧ distinct (hi_Pems i).
Definition unregistered i : Prop := hi_Pems i = [] ∧ hi_Required i = 0%Z.

Definition instance_ok i : Prop :=
  (3 ≤ hi_Total i ≤ 16)%Z ∧
  match hi_State i with
  | PENDING_TWO_FACTOR_AUTH_REGISTRATION => unregistered i
  | INSTANCE_DELETED => unregistered i ∨ registered i
  | _ => registered i
  end.

(** The proposal asks the instance's members, or its operation is done. *)
Definition current i p : Prop := (hc_Pem <$> hp_Quorum p = (quorum_of i p).1 ∧ hp_Required p = (quorum_of i p).2) ∨ spent i p.

Record hsm_ok (t : Time) h m : Prop := mkHsmOk {
  ho_proposals p : stored_p m p → proposal_ok h p;
  ho_instances i : stored_i m i → instance_ok i;
  ho_home p : stored_p m p → ∃ i, stored_i m i ∧ of_instance p (hi_Name i);
  ho_single i p p' : stored_i m i → stored_p m p → stored_p m p' → of_instance p (hi_Name i) → of_instance p' (hi_Name i) →
    active p t = true → active p' t = true → p = p';
  ho_current i p : stored_i m i → stored_p m p → of_instance p (hi_Name i) → active p t = true → current i p
}.

(** *** Where a record of the new contents comes from *)

Lemma proposal_origin rs t m m' p :
  write rs t m m' → Inv m → stored_p m' p →
  (∃ p0, stored_p m p0 ∧ hp_Name p0 = hp_Name p ∧ (p = p0 ∨ proposal_step (replies rs) t p0 p)) ∨
  (∃ i, stored_i m i ∧ of_instance p (hi_Name i) ∧ proposal_new t m i p ∧ ∀ p', stored_p m' p' → p' = p ∨ stored_p m p').
Proof.
  intros Hw HI Hp. assert (plain (hp_Name p)) as Hpl by (apply proposal_named; by destruct (inv_home m' _ _ (write_inv _ _ _ _ Hw HI) Hp)).
  destruct (write_proposal rs t m m' (hp_Name p) Hw HI Hpl) as [Heq|i p1 Hi Hn Hof Hnew ->|p0 p1 Hp0 Hn Hst ->]; unfold stored_p, proposal_at in *.
  - left. exists p. rewrite Heq in Hp. auto 6.
  - rewrite lookup_insert_eq in Hp. injection Hp as ->. right. exists i. split_and!; try done. intros p' Hp'.
    destruct (decide (dbKey hsmProposalPrefix (hp_Name p) = dbKey hsmProposalPrefix (hp_Name p'))) as [Heq|Hne]; [left|right].
    + rewrite Heq, lookup_insert_eq in Hp'. by injection Hp' as ->.
    + by rewrite lookup_insert_ne in Hp'.
  - rewrite lookup_insert_eq in Hp. injection Hp as ->. left. exists p0. rewrite Hn. auto.
Qed.

Lemma instance_origin (rs : warrant) t m m' i :
  write rs t m m' → Inv m → stored_i m' i →
  stored_i m i ∨
  (hi_State i = PENDING_TWO_FACTOR_AUTH_REGISTRATION ∧ (3 ≤ hi_Total i ≤ 16)%Z ∧ unregistered i ∧ m !! dbKey hsmInstancePrefix (hi_Name i) = None ∧
    (∀ p, stored_p m' p → stored_p m p)) ∨
  (∃ i0 p, stored_i m i0 ∧ hi_Name i0 = hi_Name i ∧ stored_p m p ∧ of_instance p (hi_Name i) ∧ hp_State p = PROPOSAL_APPROVED ∧
    Before t (hp_Expire p) = true ∧ checkOperation (hi_effective i0 t) p = Ok tt ∧ i = executed (hi_effective i0 t) p t ∧
    (∀ p, stored_p m' p → stored_p m p)).
Proof.
  intros Hw HI Hi. assert (plain (hi_Name i)) as Hpl by (apply instance_named; by destruct (inv_home m' _ _ (write_inv _ _ _ _ Hw HI) Hi)).
  destruct (write_instance rs t m m' (hi_Name i) Hw HI Hpl) as [Heq|i1 Hnone Hn Hs Htot Hpem Hreq ->|i0 p _ Hi0 Hn Hp Hof Hst Hex Hc ->]; unfold stored_i, instance_at in *.
  - left. by rewrite <- Heq.
  - rewrite lookup_insert_eq in Hi. injection Hi as ->. right. left. split_and!; try done; try lia.
    intros p Hp. unfold stored_p, proposal_at in *. by rewrite lookup_insert_ne in Hp by other_kind.
  - rewrite lookup_insert_eq in Hi. injection Hi as Hi. right. right. exists i0, p. rewrite Hn. split_and!; try done.
    intros p' Hp'. unfold stored_p, proposal_at in *. by rewrite lookup_insert_ne in Hp' by other_kind.
Qed.

(** An existing instance stays. *)
Lemma instance_stays rs t m m' i : write rs t m m' → Inv m → stored_i m i → ∃ i', stored_i m' i' ∧ hi_Name i' = hi_Name i.
Proof.
  intros Hw HI Hi. assert (plain (hi_Name i)) as Hpl by (apply instance_named; by destruct (inv_home m _ _ HI Hi)).
  destruct (write_instance rs t m m' (hi_Name i) Hw HI Hpl) as [Heq|i1 Hnone _ _ _ _ _ _|i0 p _ Hi0 Hn _ _ _ _ _ ->]; unfold stored_i, instance_at in *.
  - exists i. by rewrite Heq.
  - congruence.
  - eexists. rewrite executed_name, hi_effective_name, Hn. by rewrite lookup_insert_eq.
Qed.

Lemma instance_of_unique m i i' p :
  Inv m → stored_i m i → stored_i m i' → of_instance p (hi_Name i) → of_instance p (hi_Name i') → i = i'.
Proof.
  intros HI Hi Hi' (id & Hn & Hid) (id' & Hn' & Hid'). destruct (inv_home m _ _ HI Hi) as [_ [loc Hl]]. destruct (inv_home m _ _ HI Hi') as [_ [loc' Hl']].
  rewrite Hn in Hn'. destruct (instance_unique _ _ _ _ _ _ Hl Hl' Hid Hid' Hn') as [Heq _]. unfold stored_i, instance_at in *. rewrite Heq in Hi. congruence.
Qed.

Lemma of_instance_name p p' name : hp_Name p = hp_Name p' → of_instance p name → of_instance p' name.
Proof. unfold of_instance. by intros ->. Qed.

(** *** Steps of a proposal *)

Lemma active_later p t t' : active p t' = true → (t ≤ t')%Z → active p t = true.
Proof.
  unfold active, Before. intros [-> Hb%Z.ltb_lt]%andb_true_iff Ht. by apply Z.ltb_lt, (Z.le_lt_trans _ t').
Qed.

Lemma step_active rs t p0 p : proposal_step rs t p0 p → active p t = true → active p0 t = true.
Proof.
  unfold active. intros Hst [Hs Hb]%andb_true_iff. destruct Hst as [(_ & _ & _ & _ & _ & _ & _ & Hx) Hp _ _ _|_ _ _ Hend].
  - rewrite Hx in Hb. by rewrite Hp, Hb.
  - destruct Hend as [He|[He|He]]; by rewrite He in Hs.
Qed.

Lemma challenges_pems rs cs cs' : Forall2 (challenge_step rs) cs cs' → hc_Pem <$> cs' = hc_Pem <$> cs.
Proof. induction 1 as [|c c' cs cs' [->|[-> _]] _ IH]; [done|..]; cbn; by rewrite IH. Qed.

Lemma step_current rs t p0 p i : proposal_step rs t p0 p → current i p0 → current i p.
Proof.
  intros Hst. assert (hp_Op p = hp_Op p0 ∧ hp_RegisterPems p = hp_RegisterPems p0 ∧ hp_MemberPem p = hp_MemberPem p0 ∧ hp_Required p = hp_Required p0 ∧
    hc_Pem <$> hp_Quorum p = hc_Pem <$> hp_Quorum p0) as (Ho & Hr & Hm & Hq & Hc).
  { destruct Hst as [(_ & ? & _ & ? & ? & _ & ? & _) _ Hc _ _|(_ & ? & _ & ? & ? & _ & ? & _) Hc _ _]; split_and!; try done;
      [by eapply challenges_pems|by rewrite Hc]. }
  unfold current, quorum_of, spent. by rewrite Ho, Hr, Hm, Hq, Hc.
Qed.

Lemma signed_step rs h cs cs' : rs ⊆ h → Forall2 (challenge_step rs) cs cs' → Forall (signed h) cs → Forall (signed h) cs'.
Proof.
  intros Hsub. induction 1 as [|c c' cs cs' Hc _ IH]; [done|]. intros [Hs Hr]%Forall_cons. constructor; [|by apply IH].
  destruct Hc as [->|[-> (r & Hin & Hsg)]]; [done|]. intros _. exists r. split; [by apply Hsub|exact Hsg].
Qed.

Lemma step_hsm_ok rs t h p0 p : rs ⊆ h → proposal_step rs t p0 p → proposal_ok h p0 → proposal_ok h p.
Proof.
  intros Hsub Hst [Hq Hm Ha Hk Hmem]. destruct Hst as [(Hn & Ho & Hrr & Hr & Hp & Hv & Hreq & He) _ Hq' Hm' Hs|(Hn & Ho & Hrr & Hr & Hp & Hv & Hreq & He) Hq' Hm' Hs].
  - split; [by eapply signed_step|by eapply signed_step| |unfold keys_parse; by rewrite Ho, Hr, Hp|].
    + intros Hap. destruct Hs as [?|[_ ?]]; [congruence|done].
    + unfold must_of. rewrite Ho, Hp. by rewrite (challenges_pems _ _ _ Hm').
  - split; [by rewrite Hq'|by rewrite Hm'| |unfold keys_parse; by rewrite Ho, Hr, Hp|unfold must_of; by rewrite Hm', Ho, Hp].
    intros Hap. destruct Hs as [?|[?|?]]; congruence.
Qed.

Lemma unapproved_signed h pems cs : unapproved pems cs → Forall (signed h) cs.
Proof. intros [_ Hu]. eapply Forall_impl; [exact Hu|]. intros c Hc. unfold signed. by rewrite Hc. Qed.

Lemma new_ok t h m i p : proposal_new t m i p → proposal_ok h p ∧ current i p.
Proof.
  intros (_ & _ & Hk & Hs & Hq & Hr & Hm). split.
  - split; [by eapply unapproved_signed|by eapply unapproved_signed|by rewrite Hs|done|apply Hm].
  - left. split; [apply Hq|done].
Qed.

(** *** Executing a proposal *)

Lemma effective_ok i t : instance_ok i → instance_ok (hi_effective i t).
Proof.
  unfold hi_effective. destruct (bool_decide (hi_State i = INSTANCE_ACTIVE)) eqn:Hs; [|done]. apply bool_decide_eq_true in Hs.
  destruct (_ && _); [|done]. unfold instance_ok. rewrite Hs. done.
Qed.

Lemma checkOperation_state i p : checkOperation i p = Ok tt → hi_State i ∈ needState (hp_Op p).
Proof. unfold checkOperation. by case_bool_decide. Qed.

Lemma registered_state i : instance_ok i → hi_State i = INSTANCE_ACTIVE ∨ hi_State i = INSTANCE_DISABLED → registered i.
Proof. intros [_ Hi] [Hs|Hs]; by rewrite Hs in Hi. Qed.

Lemma executed_ok i p t : instance_ok i → keys_parse p → checkOperation i p = Ok tt → instance_ok (executed i p t).
Proof.
  intros Hok Hk Hc. pose proof (checkOperation_state i p Hc) as Hst. pose proof Hok as [Htot _]. pose proof (registered_state i Hok) as Hreg.
  unfold checkOperation in Hc. rewrite bool_decide_true in Hc by done. cbn [negb] in Hc. unfold executed, keys_parse in *.
  destruct (hp_Op p); cbn [needState] in Hst; rewrite ?elem_of_cons, ?elem_of_nil in Hst.
  - destruct (negb _) eqn:Hl; [done|]. apply negb_false_iff, Z.eqb_eq in Hl. destruct (_ || _) eqn:Hr; [done|].
    apply orb_false_iff in Hr as [Hr1%Z.ltb_ge Hr2%Z.ltb_ge]. split; [done|]. split_and!; cbn; [lia|lia|lia|]. by apply distinct_keys_distinct.
  - split; [done|]. apply Hreg. naive_solver.
  - split; [done|]. apply Hreg. naive_solver.
  - split; [done|]. destruct Hst as [Hs|[Hs|[]]]; [right; apply Hreg; auto|left]. destruct Hok as [_ Hok]. by rewrite Hs in Hok.
  - destruct (existsb _ _) eqn:Hex; [done|]. destruct (_ <? _)%Z eqn:Hmax; [done|]. apply Z.ltb_ge in Hmax. unfold hsmMaxApprovers in Hmax.
    destruct Hst as [Hs|[]]. destruct (Hreg (or_introl Hs)) as (Hlen & Hr & Hd). destruct Hk as [der Hder].
    split; cbn; [lia|]. rewrite Hs. split_and!; cbn; [rewrite length_app; cbn; lia|lia|lia|]. by eapply distinct_add.
  - destruct (negb _) eqn:Hex; [done|]. destruct (_ || _) eqn:Hmin; [done|]. apply orb_false_iff in Hmin as [Hm1%Z.ltb_ge Hm2%Z.ltb_ge].
    unfold hsmMinApprovers in *. destruct Hst as [Hs|[]]. destruct (Hreg (or_introl Hs)) as (Hlen & Hr & Hd).
    destruct (distinct_remove _ (hp_MemberPem p) Hd) as (Hd' & Hl1 & Hl2). split; cbn; [lia|]. rewrite Hs. split_and!; cbn; [done|lia|lia|done].
  - split; [done|]. cbn. destruct Hst as [Hs|[]]. rewrite Hs. apply Hreg. auto.
  - done.
Qed.

Lemma executed_current i p t :
  keys_parse p → checkOperation (hi_effective i t) p = Ok tt → current i p → current (executed (hi_effective i t) p t) p.
Proof.
  intros Hk Hc Hcur.
  assert (hi_Pems (hi_effective i t) = hi_Pems i ∧ hi_Required (hi_effective i t) = hi_Required i) as [Hp Hr]
    by (unfold hi_effective; by destruct (_ && _)).
  unfold current, quorum_of, spent, executed, keys_parse in *. destruct (hp_Op p) eqn:Ho; cbn [bool_decide decide_rel] in *; unfold checkOperation in Hc;
    rewrite Ho in Hc; try (destruct Hcur as [Hcur|[]]; left; cbn; rewrite ?Hp, ?Hr; exact Hcur).
  - by right.
  - right. cbn. destruct Hk as [der Hder]. rewrite existsb_app. cbn. by rewrite (samePem_refl _ _ Hder), orb_true_r.
  - right. cbn. apply not_true_is_false. intros (k & Hin & Hs)%existsb_exists. apply list_elem_of_In, list_elem_of_filter in Hin as [Hf _]. congruence.
Qed.

(** *** Every write keeps it *)

Section write.
Context (rs : warrant) t h m m' (Hw : write rs t m m') (HI : Inv m) (Hsub : replies rs ⊆ h) (Hok : hsm_ok t h m).

Lemma write_proposals p : stored_p m' p → proposal_ok h p.
Proof.
  intros Hp. destruct (proposal_origin _ _ _ _ _ Hw HI Hp) as [(p0 & Hp0 & _ & [->|Hst])|(i & _ & _ & Hnew & _)].
  - by apply (ho_proposals _ _ _ Hok).
  - eapply step_hsm_ok; [done|done|]. by apply (ho_proposals _ _ _ Hok).
  - by eapply new_ok.
Qed.

Lemma write_instances i : stored_i m' i → instance_ok i.
Proof.
  intros Hi. destruct (instance_origin _ _ _ _ _ Hw HI Hi) as [Hi0|[(Hs & Ht & Hu & _)|(i0 & p & Hi0 & _ & Hp & _ & _ & _ & Hc & -> & _)]].
  - by apply (ho_instances _ _ _ Hok).
  - split; [done|]. by rewrite Hs.
  - apply executed_ok; [by apply effective_ok, (ho_instances _ _ _ Hok)|by apply (ho_proposals _ _ _ Hok)|done].
Qed.

Lemma write_home p : stored_p m' p → ∃ i, stored_i m' i ∧ of_instance p (hi_Name i).
Proof.
  intros Hp. assert (∃ i, stored_i m i ∧ of_instance p (hi_Name i)) as (i & Hi & Hof).
  { destruct (proposal_origin _ _ _ _ _ Hw HI Hp) as [(p0 & Hp0 & Hn & _)|(i & Hi & Hof & _)]; [|by exists i].
    destruct (ho_home _ _ _ Hok p0 Hp0) as (i & Hi & Hof). exists i. split; [done|]. by eapply of_instance_name. }
  destruct (instance_stays _ _ _ _ _ Hw HI Hi) as (i' & Hi' & Hn). exists i'. by rewrite Hn.
Qed.

(** The proposal of an instance that was there before was there too, or is new. *)
Lemma instance_was i p : stored_i m' i → stored_p m' p → of_instance p (hi_Name i) → ∃ i0, stored_i m i0 ∧ hi_Name i0 = hi_Name i.
Proof.
  intros Hi Hp Hof. destruct (instance_origin _ _ _ _ _ Hw HI Hi) as [Hi0|[(_ & _ & _ & Hnone & Hps)|(i0 & _ & Hi0 & Hn & _)]]; [by exists i| |by exists i0].
  destruct (ho_home _ _ _ Hok p (Hps p Hp)) as (i1 & Hi1 & Hof1). destruct (instance_stays _ _ _ _ _ Hw HI Hi1) as (i2 & Hi2 & Hn2).
  rewrite <- Hn2 in Hof1. rewrite (instance_of_unique m' i i2 p (write_inv _ _ _ _ Hw HI) Hi Hi2 Hof Hof1) in Hnone.
  rewrite Hn2 in Hnone. unfold stored_i, instance_at in Hi1. congruence.
Qed.

(** An active proposal of the new contents was active, or is the only one. *)
Lemma active_was p : stored_p m' p → active p t = true →
  (∃ p0, stored_p m p0 ∧ hp_Name p0 = hp_Name p ∧ active p0 t = true) ∨
  (∃ i, stored_i m i ∧ of_instance p (hi_Name i) ∧ idle t m (hi_Name i) ∧ ∀ p', stored_p m' p' → p' = p ∨ stored_p m p').
Proof.
  intros Hp Ha. destruct (proposal_origin _ _ _ _ _ Hw HI Hp) as [(p0 & Hp0 & Hn & Hst)|(i & Hi & Hof & Hnew & Hall)].
  - left. exists p0. split_and!; [done|done|]. destruct Hst as [->|Hst]; [done|by eapply step_active].
  - right. exists i. split_and!; try done. apply Hnew.
Qed.

(** A new proposal's instance has no other that is active. *)
Lemma idle_other i i0 p p' :
  stored_i m i → idle t m (hi_Name i) → (∀ q, stored_p m' q → q = p ∨ stored_p m q) → of_instance p (hi_Name i) →
  stored_i m i0 → of_instance p (hi_Name i0) → stored_p m' p' → of_instance p' (hi_Name i0) → active p' t = true → p' = p.
Proof.
  intros Hi Hidle Hall Hof Hi0 Hof0 Hp' Hof' Ha. destruct (Hall p' Hp') as [?|Hold]; [done|]. exfalso.
  rewrite (instance_of_unique m i0 i p HI Hi0 Hi Hof0 Hof) in Hof'. rewrite (Hidle _ p' Hold Hof') in Ha. done.
Qed.

Lemma write_single i p p' :
  stored_i m' i → stored_p m' p → stored_p m' p' → of_instance p (hi_Name i) → of_instance p' (hi_Name i) →
  active p t = true → active p' t = true → p = p'.
Proof.
  intros Hi Hp Hp' Hof Hof' Ha Ha'. destruct (instance_was i p Hi Hp Hof) as (i0 & Hi0 & Hn). rewrite <- Hn in Hof, Hof'.
  destruct (active_was p Hp Ha) as [(p0 & Hp0 & Hn0 & Ha0)|(i1 & Hi1 & Hof1 & Hid & Hall)]; [|symmetry; by apply (idle_other i1 i0 p p')].
  destruct (active_was p' Hp' Ha') as [(p1 & Hp1 & Hn1 & Ha1)|(i1 & Hi1 & Hof1 & Hid & Hall)]; [|by apply (idle_other i1 i0 p' p)].
  assert (p0 = p1) as <-.
  { apply (ho_single _ _ _ Hok i0); try done; [by eapply of_instance_name; [symmetry; exact Hn0|]|by eapply of_instance_name; [symmetry; exact Hn1|]]. }
  unfold stored_p, proposal_at in Hp, Hp'. rewrite <- Hn0 in Hp. rewrite <- Hn1 in Hp'. congruence.
Qed.

Lemma write_current i p : stored_i m' i → stored_p m' p → of_instance p (hi_Name i) → active p t = true → current i p.
Proof.
  intros Hi Hp Hof Ha. destruct (instance_origin _ _ _ _ _ Hw HI Hi) as [Hi0|[(_ & _ & _ & Hnone & _)|(i0 & q & Hi0 & Hn & Hq & Hofq & Hap & Hex & Hc & -> & Hps)]].
  - destruct (proposal_origin _ _ _ _ _ Hw HI Hp) as [(p0 & Hp0 & Hn & Hst)|(i1 & Hi1 & Hof1 & Hnew & _)].
    + assert (active p0 t = true) as Ha0 by (destruct Hst as [->|Hst]; [done|by eapply step_active]).
      assert (current i p0) as Hcur by (apply (ho_current _ _ _ Hok); try done; by eapply of_instance_name).
      destruct Hst as [->|Hst]; [done|by eapply step_current].
    + rewrite (instance_of_unique m i i1 p HI Hi0 Hi1 Hof Hof1). by eapply new_ok.
  - destruct (instance_was i p Hi Hp Hof) as (i0 & Hi0 & Hn). unfold stored_i, instance_at in Hi0. rewrite Hn in Hi0. congruence.
  - rewrite executed_name, hi_effective_name in *. assert (active q t = true) as Haq by (unfold active; by rewrite Hap, Hex).
    assert (p = q) as -> by (apply (ho_single _ _ _ Hok i0); auto).
    apply executed_current; [by apply (ho_proposals _ _ _ Hok)|done|]. by apply (ho_current _ _ _ Hok).
Qed.

End write.

Lemma proposal_ok_mono h h' p : h ⊆ h' → proposal_ok h p → proposal_ok h' p.
Proof.
  intros Hsub [Hq Hm Ha Hk Hmem]. assert (∀ c, signed h c → signed h' c) as Hs.
  { intros c Hc Hx. destruct (Hc Hx) as (r & Hr & Hsg). exists r. split; [by apply Hsub|done]. }
  split; [by eapply Forall_impl|by eapply Forall_impl|done..].
Qed.

Lemma hsm_stable : stable hsm_ok.
Proof.
  split.
  - intros t t' h h' m [H1 H2 H3 H4 H5] Ht Hsub. split; eauto using proposal_ok_mono, active_later.
  - intros rs t h m m' Hok HI Hw Hsub. split; eauto using write_proposals, write_instances, write_home, write_single, write_current.
Qed.

Lemma hsm_ok_empty t : hsm_ok t [] ∅.
Proof. by split; unfold stored_p, stored_i, proposal_at, instance_at; intros; simplify_map_eq. Qed.

End quorum.

(** ** What the quorum decides *)

Section decides.
Context {S : Type} `{MSL : MetaStoreLaws S doc} `{NET : Net} `{UNI : Unicode} `{TJ : TokenJSON}.
Context `{X : X509} `{RP : RsaPublic} `{HA : Hashes} `{OA : Oaep} `{AE : Aes} `{CRC : Crc32} `{CR : Crypto} `{JT : JsonText} `{CE : Certificates}.
Implicit Types (m : contents_) (h : list ChallengeReply) (p : hsmProposal) (i : hsmInstance) (w : world (S := S)).

Abbreviation store w := (contents (db (w_srv w))).

(** As many of the instance's members as it needs, and every key the operation
    adds or acts for, signed a challenge of the proposal. *)
Definition authorised h i p : Prop :=
  ∃ signers, sublist signers (quorum_of i p).1 ∧ ((quorum_of i p).2 ≤ Z.of_nat (length signers))%Z ∧
    ∀ pem, pem ∈ signers ++ must_of p → ∃ r c, r ∈ h ∧ c ∈ hp_Quorum p ++ hp_Must p ∧ hc_Pem c = pem ∧ signs r c.

Lemma not_spent i p t : checkOperation (hi_effective i t) p = Ok tt → ¬ spent i p.
Proof.
  intros Hc. pose proof (checkOperation_state _ _ Hc) as Hst. unfold checkOperation in Hc. rewrite bool_decide_true in Hc by done. cbn [negb] in Hc.
  assert (hi_Pems (hi_effective i t) = hi_Pems i) as Hp by (unfold hi_effective; by destruct (_ && _)).
  unfold spent. destruct (hp_Op p); try by intros [].
  - cbn in Hst. apply list_elem_of_singleton in Hst. unfold hi_effective in Hst. destruct (_ && _); [done|]. auto.
  - intros Hx. by rewrite Hp, Hx in Hc.
  - intros Hx. by rewrite Hp, Hx in Hc.
Qed.

Lemma matched_authorised h i p :
  proposal_ok h p → hp_State p = PROPOSAL_APPROVED → hc_Pem <$> hp_Quorum p = (quorum_of i p).1 → hp_Required p = (quorum_of i p).2 → authorised h i p.
Proof.
  intros [Hq Hm Ha _ Hmem] Hs Hpems Hreq. destruct (Ha Hs) as [Hcount Hall]. rewrite Forall_forall in Hq, Hm, Hall.
  exists (hc_Pem <$> base.filter (λ c, hc_Approved c = true) (hp_Quorum p)). split_and!.
  - rewrite <- Hpems. apply fmap_sublist, sublist_filter.
  - rewrite length_fmap, <- Hreq. exact Hcount.
  - intros pem [Hin|Hin]%elem_of_app.
    + apply list_elem_of_fmap in Hin as (c & -> & [Hc Hin]%list_elem_of_filter). destruct (Hq c Hin Hc) as (r & Hr & Hsg).
      exists r, c. split_and!; try done. apply elem_of_app. by left.
    + rewrite <- Hmem in Hin. apply list_elem_of_fmap in Hin as (c & -> & Hin). destruct (Hm c Hin (Hall c Hin)) as (r & Hr & Hsg).
      exists r, c. split_and!; try done. apply elem_of_app. by right.
Qed.

Lemma approved_authorised t h m i p :
  hsm_ok t h m → stored_i m i → stored_p m p → of_instance p (hi_Name i) → hp_State p = PROPOSAL_APPROVED → Before t (hp_Expire p) = true →
  ¬ spent i p → authorised h i p.
Proof.
  intros Hok Hi Hp Hof Hs Hb Hns. assert (active p t = true) as Ha by (unfold active; by rewrite Hs, Hb).
  destruct (ho_current _ _ _ Hok i p Hi Hp Hof Ha) as [[Hpems Hreq]|]; [|done].
  eapply matched_authorised; try done. by apply (ho_proposals _ _ _ Hok).
Qed.

(** A proposal that is executed and could be executed once more leaves its
    instance as it is. *)
Lemma executed_again i p t :
  keys_parse p → let i' := executed (hi_effective i t) p t in
  checkOperation (hi_effective i t) p = Ok tt → checkOperation (hi_effective i' t) p = Ok tt →
  executed (hi_effective i' t) p t = i'.
Proof.
  intros Hk i' Hc Hc'. pose proof (not_spent i' p t Hc') as Hns. pose proof (checkOperation_state _ _ Hc') as Hst.
  pose proof (checkOperation_state _ _ Hc) as Hst0.
  assert (∀ j, hi_effective (set_hi_DisableAt j (Add t hsmUnrefreshed)) t = set_hi_DisableAt j (Add t hsmUnrefreshed)) as Hlive.
  { intros j. unfold hi_effective. cbn [hi_DisableAt set_hi_DisableAt]. unfold Before, Add.
    rewrite (proj2 (Z.ltb_lt t _)) by (assert (0 < hsmUnrefreshed)%Z by done; lia). by rewrite andb_false_r. }
  subst i'. unfold executed, spent, keys_parse in *. destruct (hp_Op p); cbn [needState] in Hst, Hst0; rewrite ?elem_of_cons, ?elem_of_nil in Hst, Hst0.
  - by destruct Hns.
  - destruct Hst as [Hst|[]]. unfold hi_effective in Hst at 1. cbn in Hst. done.
  - destruct Hst as [Hst|[]]. rewrite Hlive in Hst. done.
  - unfold hi_effective in Hst at 1. cbn in Hst. naive_solver.
  - destruct Hns. cbn. destruct Hk as [der Hder]. rewrite existsb_app. cbn. by rewrite (samePem_refl _ _ Hder), orb_true_r.
  - destruct Hns. cbn. apply not_true_is_false. intros (k & Hin & Hs)%existsb_exists.
    apply list_elem_of_In, list_elem_of_filter in Hin as [Hf _]. congruence.
  - by rewrite Hlive.
  - destruct Hst as [Hst|[]]. unfold hi_effective in Hst at 1 |- * at 1. destruct (_ && _); [done|done].
Qed.

(** What the writes of one call make of an instance: nothing, or what the one
    proposal it executes says. *)
Lemma writes_execute (rs : warrant) t h m m' i :
  rtc (write rs t) m m' → replies rs ⊆ h → hsm_ok t h m → Inv m → stored_i m i →
  stored_i m' i ∨
  ∃ p, executing rs = Some p ∧ of_instance p (hi_Name i) ∧ hp_State p = PROPOSAL_APPROVED ∧ Before t (hp_Expire p) = true ∧
    checkOperation (hi_effective i t) p = Ok tt ∧ instance_at m' (hi_Name i) (executed (hi_effective i t) p t).
Proof.
  intros Hr Hsub Hok HI Hi. assert (plain (hi_Name i)) as Hpl by (apply instance_named; by destruct (inv_home m _ _ HI Hi)).
  revert m' Hr. apply rtc_ind_r; [by left|]. intros m1 m2 Hr Hw IH.
  destruct (stable_writes hsm_ok rs t h m m1 hsm_stable Hsub Hr HI Hok) as [HI1 Hok1].
  destruct (write_instance rs t m1 m2 (hi_Name i) Hw HI1 Hpl) as [Heq|i1 Hnone _ _ _ _ _ _|i0 p Hx Hi0 Hn Hp Hof Hst Hex Hc Hm2].
  - unfold stored_i, instance_at in *. by rewrite Heq.
  - unfold stored_i, instance_at in IH. destruct IH as [IH|(p & _ & _ & _ & _ & _ & IH)]; congruence.
  - right. destruct IH as [IH|(p0 & Hx0 & _ & _ & _ & Hc0 & IH)]; unfold stored_i, instance_at in *.
    + assert (i0 = i) as -> by congruence. exists p. split_and!; try done. by rewrite Hm2, lookup_insert_eq.
    + assert (p0 = p) as -> by congruence. assert (i0 = executed (hi_effective i t) p t) as -> by congruence.
      exists p. split_and!; try done. rewrite Hm2, lookup_insert_eq. do 2 f_equal.
      apply executed_again; [|done..]. by apply (ho_proposals _ _ _ Hok1).
Qed.

Lemma reachable_hsm w : reachable w → Inv (store w) ∧ hsm_ok (w_time w) (w_replies w) (store w).
Proof. intros Hw. apply reachable_stable; [apply hsm_stable|apply hsm_ok_empty|done]. Qed.

(** C14: nothing changes an HSM instance but the execution of an approved proposal
    (an administrator's reset aside).  When a step of any run, whatever writes
    failed in it, changes the stored record of an instance, the step is the call
    of ExecuteSingleTenantHsmInstanceProposal on a proposal of this instance that
    was stored, APPROVED and unexpired before the step and whose operation the
    instance admits; the record afterwards is exactly what that operation makes of
    it; and among the replies the service had received before the step, as many of
    the instance's present members as it needs (of the keys to be registered, for
    the registration) have signed their challenge of that stored proposal, and so
    has every key the proposal adds or acts for. *)
Theorem instance_change_authorised w w' i :
  reachable w → step w w' → instance_at (store w) (hi_Name i) i → ¬ instance_at (store w') (hi_Name i) i →
  ∃ name p e, w_srv w' = (exec (c_Execute name) e (w_srv w)).1 ∧ clock_Now e = w_time w' ∧
    proposal_at (store w) name p ∧ of_instance p (hi_Name i) ∧
    hp_State p = PROPOSAL_APPROVED ∧ Before (w_time w') (hp_Expire p) = true ∧
    checkOperation (hi_effective i (w_time w')) p = Ok tt ∧ authorised (w_replies w) i p ∧
    instance_at (store w') (hi_Name i) (executed (hi_effective i (w_time w')) p (w_time w')).
Proof.
  intros Hw Hs Hi Hno. destruct (reachable_hsm w Hw) as [HI Hok]. destruct Hs as [c e s t h Ht He Hf Hc|s s' t h Heq]; cbn in *; [|by rewrite Heq in Hno].
  assert (hsm_ok (clock_Now e) h (contents (db s))) as Hok' by (by apply (stable_later _ hsm_stable t _ h)).
  assert (hsm_ok (clock_Now e) (call_replies c ++ h) (contents (db s))) as Hok2 by (apply (stable_later _ hsm_stable t _ h); [done|done|set_solver]).
  destruct (writes_execute _ _ (call_replies c ++ h) _ _ i (exec_writes c e s HI He Hf Hc)) as [?|(p & Hx & Hof & Hst & Hex & Hch & Hi')];
    [set_solver|done|done|done|done|].
  cbn in Hx. destruct c; try done. destruct (contents (db s) !! dbKey hsmProposalPrefix name) as [[]|] eqn:Hp; try done. injection Hx as ->.
  exists name, p, e. split_and!; try done. eapply approved_authorised; try done; [|by eapply not_spent].
  destruct (inv_home _ _ _ HI Hp) as [Hh _]. unfold stored_p, proposal_at. by rewrite <- Hp, Hh.
Qed.

(** C20: An instance that is registered has from three to sixteen members with distinct
    two-factor keys and needs at least two of them and not all; at most one of its
    proposals can still be approved or executed. *)
Theorem instance_quorum_sound w i :
  reachable w → instance_at (store w) (hi_Name i) i →
  instance_ok i ∧
  (∀ p p', proposal_at (store w) (hp_Name p) p → proposal_at (store w) (hp_Name p') p' → of_instance p (hi_Name i) → of_instance p' (hi_Name i) →
    active p (w_time w) = true → active p' (w_time w) = true → p = p').
Proof.
  intros Hw Hi. destruct (reachable_hsm w Hw) as [_ Hok]. split; [by apply (ho_instances _ _ _ Hok)|]. intros p p'. by apply (ho_single _ _ _ Hok).
Qed.

End decides.
