(* ===== verification/KmsSecrets.v ===== *)
(** * Cloud KMS between Secret Manager and Resource Manager

    cmd/cloudburrow/secrets.go gives Secret Manager the instance's Cloud KMS for
    customer-managed encryption: the contract [SecretsAccess] states of its key
    service is one Cloud KMS keeps.  cmd/cloudburrow/kms.go gives Cloud KMS the
    registry of Resource Manager as the hierarchy Autokey resolves folders through:
    the chain of configs it reads is the project's path to the organization. *)

From S2P Require Import RmModel RmRegistry RmTags RmInv RmEffects RmSpec.
From S2P Require Import Prelude GoLib ApiError Resource MetaStore IamPolicy SecretsModel SecretsNames SecretsStore SecretsInv SecretsOps SecretsEffects SecretsSweep SecretsSpec SecretsAccess.
From S2P Require Import GoLib Paging Handler GoCrypto GoBinary NetHttp KmsModel KmsNames KmsFilter KmsStore KmsVersions KmsKeys KmsCrypt KmsKwp KmsSweep KmsImport KmsHsm KmsEkm KmsAutokey KmsInv KmsEffects KmsHandlers KmsHsmWrites KmsRun KmsSpec KmsRunSpec.
From Stdlib Require Import Ascii.

Import strings time.

Section secrets.
Context {S : Type} `{MSL : MetaStoreLaws S doc} `{NET : Net} `{UNI : Unicode} `{TJ : TokenJSON}.
Context `{X : X509} `{RP : RsaPublic} `{HA : Hashes} `{OA : Oaep} `{AE : Aes} `{CRC : Crc32} `{CR : Crypto} `{JT : JsonText} `{CE : Certificates}.
Context `{CL : !CryptoLaws, GO : !GcmOverhead}.
Implicit Types (s : Server S) (e : Env) (w : world (S := S)).

Abbreviation store w := (contents (db (w_srv w))).

(** The server, as cmek.go calls it: no checksums. *)
Definition key_service (s : Server S) (e : Env) : KeyService :=
  mkKeyService
    (λ key pt aad, r ← (Encrypt (mkEncryptRequest key pt aad None None) e s).2; Ok (es_name r, es_ciphertext r))
    (λ key ct aad, r ← (Decrypt (mkDecryptRequest key ct aad None None) e s).2; Ok (ds_plaintext r)).

(** The primary of the key at [w], whose number the key has given out and the
    ciphertext's four bytes can hold, may still be used at [w']. *)
Definition still_usable w w' e' (key : string) : Prop :=
  ∀ k, store w !! key_at key = Some (DKey k) →
    issued (store w) key (ck_Primary k) ∧ (ck_Primary k < 2 ^ 32)%Z ∧
    ∃ k' v', store w' !! key_at key = Some (DKey k') ∧ kajRefusal k' = Ok tt ∧ (backendUsable k' e' (w_srv w')).2 = Ok tt ∧
      store w' !! version_at key (ck_Primary k) = Some (DVersion v') ∧ state (effective v' (clock_Now e')) = ENABLED.

(** C15: Cloud KMS keeps its contract with Secret Manager: what it encrypted under
    crypto keys whose primary version has a number the key has given out (not one
    left by a creation whose key write failed) below 2^32, it decrypts after any run
    (an administrator's reset aside), while those versions are enabled and the keys
    usable. *)
Theorem cloud_kms_opens w w' e e' keys :
  reachable w → env_ok e → rtc step w w' → (w_time w' ≤ clock_Now e')%Z →
  Forall (λ key, length (Split key slash) = 8) keys → Forall (still_usable w w' e') keys →
  opens keys (key_service (w_srv w) e) (key_service (w_srv w') e').
Proof.
  intros Hw He Hr Ht Hkeys Huse key pt aad ver ct Hin (r & Henc & [= Hver Hct])%res_bind_ok.
  rewrite Forall_forall in Hkeys, Huse. specialize (Hkeys key Hin). specialize (Huse key Hin).
  destruct (reachable_stable primaries w primaries_stable) as [HI Hpr]; [by intros ? ? ? _ ?%lookup_empty_Some|done|].
  destruct (Encrypt_result e _ _ r HI Hpr Henc) as (v & key0 & n & Htg & Hvn & Hp & Hes & _ & _ & _).
  destruct Htg as (key1 & n1 & n0 & k & Hen & Hn1 & Hk1 & Hn1' & Hkey & _ & _ & Hvn1 & _).
  unfold encrypt_name in Hen. cbn [en_name] in Hen. rewrite Hkeys in Hen. cbn [Nat.ltb Nat.leb] in Hen.
  destruct (parseCryptoKey key) as [[]|] eqn:Hk; [|done]. injection Hen as <- <-. cbn in Hn1. subst n1.
  destruct (Huse k Hkey) as (Hi & Hlt & k' & v' & Hkey' & Hkaj & Hb & Hv' & Hst').
  cbn [key_service SecretsModel.Decrypt].
  rewrite (decrypt_after w w' e e' (mkEncryptRequest key pt aad None None) r key (ck_Primary k) k' v'); try done; [by rewrite Hes|].
  split_and!; [done|done|done|by exists false|by exists false].
Qed.

End secrets.

(** ** Resource Manager's registry as [kms.Hierarchy] *)

(** [a.Type + "s/" + a.ID] *)
Definition ancestor_name (a : RmRegistry.Ancestor) : string :=
  match a with
  | RmRegistry.AProject id => "projects/" +:+ id
  | RmRegistry.AFolder id => "folders/" +:+ id
  | RmRegistry.AOrganization id => "organizations/" +:+ id
  end.

Section hierarchy.
Context {D : Type} `{RS : ReliableStore D RmModel.doc} `{UNI : Unicode} `{CR : Crypto} `{ENC : RmTags.Encodings}.
Implicit Types (e : RmRegistry.Env) (s : RmRegistry.Registry D).

Abbreviation cts s := (contents (RmRegistry.db s)).

Definition kmsHierarchy_Ancestors e s (project : string) : option (list string) :=
  match (RmRegistry.Ancestry (TrimPrefix project "projects/") e s).2 with
  | Ok chain => Some (ancestor_name <$> tail chain)
  | Err _ => None
  end.

Definition kmsHierarchy_FolderExists e s (name : string) : bool :=
  match (RmRegistry.GetFolder name e s).2 with Ok _ => true | Err _ => false end.

Definition kmsHierarchy e s : Hierarchy := mkHierarchy (kmsHierarchy_Ancestors e s) (kmsHierarchy_FolderExists e s).

Lemma folders_of_path m x l d :
  RmSpec.ancestors_of m x l → length l = S d → base.filter (λ a, HasPrefix a "folders/" = true) (ancestor_name <$> l) = ancestor_name <$> take d l.
Proof.
  intros Hl. revert d. induction Hl as [|id f l Hf Ha Hl IH]; intros d [= Hd]; [by subst|]. destruct d as [|d]; [by destruct Hl|].
  cbn [fmap list_fmap take ancestor_name]. rewrite filter_cons_True by apply RmEffects.HasPrefix_folder. f_equal. by apply IH.
Qed.

Lemma path_exists e s x l id :
  RmInv.Inv (cts s) → RmSpec.ancestors_of (cts s) x l → RmRegistry.AFolder id ∈ l → kmsHierarchy_FolderExists e s ("folders/" +:+ id) = true.
Proof.
  intros HI Hl. induction Hl as [|i f l Hf Ha _ IH]; [by intros ?%list_elem_of_singleton|]. intros [[= ->]|Hin]%elem_of_cons; [|by apply IH].
  destruct (RmInv.inv_folder _ HI _ _ Hf) as (? & [= <-] & Hn & _). unfold kmsHierarchy_FolderExists. rewrite <- Hn.
  assert (wp e s (RmRegistry.GetFolder (RmModel.f_Name f)) (λ r _, r = Ok f)) as Hr.
  { apply RmEffects.wp_locked, (RmEffects.wp_loadFolder_active _ _ i); [done..|]. by intros. }
  unfold wp in Hr. by rewrite Hr.
Qed.

(** C27: Autokey follows the hierarchy.  Given the registry of Resource Manager over
    a store none of whose writes fails, for a project that is stored and has not
    expired and whose parent is joined to the organization by a path of at most
    eleven active folders (folders can lie thirteen deep; the walk stops short
    there): Cloud KMS reads the config of the project first and then those of
    exactly the folders of that path, nearest first; and each of those folders
    exists for it. *)
Theorem autokey_follows_hierarchy s e id p d :
  RmSpec.reachable s → RmEffects.env_ok e → RmInv.project_in (cts s) id p → RmEffects.p_expired p (RmRegistry.clock_Now e) = false →
  RmInv.above (cts s) (RmModel.p_Parent p) d RmModel.OrganizationName → d ≤ RmModel.MaxFolderDepth + 1 →
  ∃ l, RmSpec.ancestors_of (cts s) (RmModel.p_Parent p) l ∧ length l = S d ∧
       autokey_chain (Some (kmsHierarchy e s)) ("projects/" +:+ id) = ("projects/" +:+ id) :: (ancestor_name <$> take d l) ∧
       ∀ i, RmRegistry.AFolder i ∈ l → FolderExists (kmsHierarchy e s) ("folders/" +:+ i) = true.
Proof.
  intros HI%RmSpec.reachable_Inv He Hp Hx Hab Hd. pose proof (RmSpec.wp_Ancestry e s id p d He HI Hp Hx Hab Hd) as (l & Hr & Hl & Hlen & _).
  exists l. split_and!; [done..| |intros i Hi; by eapply path_exists].
  unfold autokey_chain. cbn [mbind option_bind Ancestors kmsHierarchy]. unfold kmsHierarchy_Ancestors. rewrite TrimPrefix_app, Hr.
  cbn [default tail]. f_equal. by eapply folders_of_path.
Qed.

End hierarchy.

Import RmSpec.RmRuns.

Lemma autokey_follows_hierarchy_witness :
  ∃ l, RmSpec.ancestors_of (contents (RmRegistry.db world)) team l ∧ length l = 2 ∧
       autokey_chain (Some (kmsHierarchy (at_ 4 1) world)) "projects/alpha-one" = "projects/alpha-one" :: (ancestor_name <$> take 1 l) ∧
       ∀ i, RmRegistry.AFolder i ∈ l → FolderExists (kmsHierarchy (at_ 4 1) world) ("folders/" +:+ i) = true.
Proof.
  apply (autokey_follows_hierarchy world (at_ 4 1) "alpha-one" alpha 1);
    [exact world_reachable|by apply rm_at_ok|by vm_compute|by vm_compute| |unfold RmModel.MaxFolderDepth; lia].
  eapply (RmInv.above_S _ "100000000005" (RmModel.mkFolder team RmModel.OrganizationName "Team" RmModel.ACTIVE (Some Second) (Some Second) None [] ""));
    [by vm_compute|done|constructor].
Defined.
