(* ===== verification/KmsRoundtrip.v ===== *)
(** * Cloud KMS: what one operation made, its inverse gives back

    Raw encryption, signatures, RSA-OAEP, MACs and imported keys, each after any
    run of the service in between. *)

From S2P Require Import Prelude GoLib ApiError Resource MetaStore Paging IamPolicy Handler GoCrypto GoBinary NetHttp KmsModel KmsNames KmsFilter KmsStore KmsVersions KmsKeys KmsCrypt KmsOps KmsKwp KmsSweep KmsImport KmsHsm KmsEkm KmsAutokey KmsInv KmsEffects KmsHandlers KmsHsmWrites KmsRun KmsSpec KmsRunSpec.
From Stdlib Require Import Ascii.

Import strings time.

Section roundtrip.
Context {S : Type} `{MSL : MetaStoreLaws S doc} `{NET : Net} `{UNI : Unicode} `{TJ : TokenJSON}.
Context `{X : X509} `{RP : RsaPublic} `{HA : Hashes} `{OA : Oaep} `{AE : Aes} `{CRC : Crc32} `{CR : Crypto} `{JT : JsonText} `{CE : Certificates}.
Context `{SG : Signatures} `{MK : Mlkem}.
Implicit Types (s : Server S) (e : Env) (w : world (S := S)).

Abbreviation H := (M Env (Server S)).
Abbreviation cts s := (contents (db s)).
Abbreviation store w := (contents (db (w_srv w))).

(** ** A version that is usable at two times *)

Lemma usableVersion_does rs e s name want :
  Inv (cts s) → does rs e s (usableVersion name want) (λ v s', s' = s ∧ ∃ key n, parseCryptoKeyVersion name = Ok (key, n) ∧
    cts s !! version_at key n = Some (DVersion v) ∧ kv_Name v = versionName key n ∧ state v = ENABLED).
Proof.
  intros HI. unfold usableVersion. do 2 does_step. destruct a as [key n]. rename H into Hp. apply parseCryptoKeyVersion_ok in Hp as Hp'.
  destruct Hp' as (_ & Hk & Hn). does_step. apply does_load_key; [done|done|]. intros k _ _ _. do 2 does_step. does_step.
  apply does_reads; [apply reads_backendUsable|]. intros [] _. does_step. eapply does_load_version; [done|done|]. intros v Hv Hvn.
  do 3 does_step. match goal with Hx : negb (bool_decide (state _ = ENABLED)) = false |- _ => apply negb_false_iff, bool_decide_eq_true in Hx; rename Hx into Hen end.
  rewrite effective_live in * by by rewrite Hen. split; [done|]. by exists key, n.
Qed.

Lemma reads_usableVersion name want : reads (usableVersion (S := S) name want).
Proof. unfold usableVersion, backendUsable, now. solve_reads. Qed.
Lemma reads_kajAllows name : reads (kajAllows (S := S) name).
Proof. unfold kajAllows. solve_reads. Qed.

(** The version a name has given out and that is usable later is the same, with
    the same key. *)
Lemma usable_keeps w w' e e' name key n want want' v v' :
  reachable w → rtc step w w' → (w_time w' ≤ clock_Now e')%Z → parseCryptoKeyVersion name = Ok (key, n) → issued (store w) key n →
  (usableVersion name want e (w_srv w)).2 = Ok v → (usableVersion name want' e' (w_srv w')).2 = Ok v' →
  kv_Material v' = kv_Material v ∧ version_spec v' = version_spec v ∧ kv_Name v' = kv_Name v ∧ kv_algorithm v' = kv_algorithm v.
Proof.
  intros Hw Hr Ht Hp Hi Hv Hv'. pose proof (reachable_inv w Hw) as HI. pose proof (reachable_inv w' (reachable_run w w' Hw Hr)) as HI'.
  apply (does_result no_warrant _ _ _ _ _ (usableVersion_does no_warrant e (w_srv w) name want HI)) in Hv as (_ & k1 & n1 & Hp1 & Hat & Hvn & Hen).
  apply (does_result no_warrant _ _ _ _ _ (usableVersion_does no_warrant e' (w_srv w') name want' HI')) in Hv' as (_ & k2 & n2 & Hp2 & Hat' & Hvn' & Hen').
  rewrite Hp in Hp1, Hp2. injection Hp1 as <- <-. injection Hp2 as <- <-. apply parseCryptoKeyVersion_ok in Hp as (_ & Hk & Hn).
  destruct (stable_run _ w w' (keeps_stable key n v Hk (proj1 Hn)) Hr HI) as [_ [_ Hx]]; [split; [done|rewrite Hat; auto]|].
  rewrite Hat' in Hx. destruct Hx as [Hd|(Hm & Ha & _)]; [by apply enabled_live in Hd|].
  unfold version_spec, kv_algorithm. rewrite Hm, Ha, Hvn, Hvn'. done.
Qed.

(** ** MACs *)

Lemma MacSign_result e s name data crc r :
  (MacSign name data crc e s).2 = Ok r → checkSize data = Ok tt ∧ ∃ v, (usableVersion name [MAC] e s).2 = Ok v ∧ ms_mac r = mac v data.
Proof.
  unfold MacSign, mbind, M_bind, lift. cbn. destruct (checkSize data) as [[]|]; [|done]. destruct (checkCRC data crc); [|done].
  pose proof (reads_usableVersion name [MAC] e s) as Hu. destruct (usableVersion name [MAC] e s) as [s1 [v|]]; [|done]. cbn in Hu. subst s1.
  destruct (kajAllows (kv_Name v) e s) as [s2 [[]|]]; [|done]. intros [= <-]. split; [done|]. by exists v.
Qed.

(** What MacSign signed, MacVerify verifies, while the version is usable. *)
Theorem mac_verifies w w' e e' name key n data crc r v' :
  reachable w → rtc step w w' → (w_time w' ≤ clock_Now e')%Z → parseCryptoKeyVersion name = Ok (key, n) → issued (store w) key n →
  (MacSign name data crc e (w_srv w)).2 = Ok r → (usableVersion name [MAC] e' (w_srv w')).2 = Ok v' →
  ∃ r', (MacVerify name data (ms_mac r) None None e' (w_srv w')).2 = Ok r' ∧ mv_success r' = true.
Proof.
  intros Hw Hr Ht Hp Hi Hsign Hu'. apply MacSign_result in Hsign as (Hsz & v & Hu & Hmac).
  destruct (usable_keeps w w' e e' name key n _ _ v v' Hw Hr Ht Hp Hi Hu Hu') as (Hm & Hs & _).
  unfold MacVerify. rewrite Hsz, !(bind_ok _ _ _ _ _ eq_refl). rewrite (bind_ok _ _ _ _ _ (reads_ok _ _ _ _ (reads_usableVersion _ _) Hu')).
  eexists. split; [reflexivity|]. cbn. apply bool_decide_eq_true. rewrite Hmac. unfold mac. by rewrite Hm, Hs.
Qed.

(** ** Raw encryption *)

Section raw.
Context `{AL : !AesLaws, CL : !CryptoLaws}.

Lemma block_iv_len e s iv iv' : env_ok e → (block_iv iv e s).2 = Ok iv' → len iv' = BlockSize.
Proof.
  intros He. unfold block_iv. destruct (len iv =? 0)%nat.
  - unfold draw, mbind, M_bind, ask. cbn. destruct (rand_iv e) as [b|] eqn:Hb; [|done]. intros [= <-]. by apply (env_iv e He).
  - unfold refuse, when, mbind, M_bind. destruct (Nat.eqb_spec (len iv) BlockSize) as [Hl|]; cbn; [|done]. by intros [= <-].
Qed.

Lemma raw_seal_open e s mode key pt aad iv ct iv' tag :
  env_ok e → (raw_seal mode key pt aad iv e s).2 = Ok (ct, iv', tag) → ct ≠ "" → raw_open mode key ct aad iv' tag = Ok pt ∧ (len iv' =? 0)%nat = false.
Proof.
  intros He. unfold raw_seal, raw_open, mbind, M_bind, refuse, when. destruct mode as [[]|].
  - destruct (0 <? len iv)%nat; [done|]. unfold draw, mbind, M_bind, ask. cbn. destruct (rand_nonce e) as [b|] eqn:Hb; [|done]. intros [= <- <- <-] _.
    rewrite (env_nonce e He b Hb). cbn. by rewrite gcm_Open_Seal.
  - destruct (block_iv iv e s) as [s1 [b|]] eqn:Hb; [|done]. pose proof (block_iv_len e s iv b He ltac:(by rewrite Hb)) as Hlen.
    destruct (Nat.eqb_spec (len pt mod BlockSize) 0) as [Hm|]; cbn [negb]; [|done]. intros [= <- <- <-] _.
    destruct (CBCDecrypt_Encrypt key b pt Hm Hlen) as [Hd Hl]. by rewrite Hlen, Hl, Hm, Hd.
  - destruct (block_iv iv e s) as [s1 [b|]] eqn:Hb; [|done]. pose proof (block_iv_len e s iv b He ltac:(by rewrite Hb)) as Hlen.
    cbn. intros [= <- <- <-] _. by rewrite Hlen, CTR_CTR.
  - by intros [= <- <- <-].
Qed.

(** What RawEncrypt and RawDecrypt find a version to be. *)
Definition raw_usable e s (name aad : string) (v : keyVersion) : Prop :=
  (usableVersion name [RAW_ENCRYPT_DECRYPT] e s).2 = Ok v ∧ (kajAllows (kv_Name v) e s).2 = Ok tt ∧ aes_key_ok (kv_Material v) = true ∧
  negb (bool_decide (as_mode (version_spec v) = Some gcm_mode)) && (0 <? len aad)%nat = false.

Lemma raw_version_ok e s name aad v : raw_usable e s name aad v → raw_version name aad e s = (s, Ok v).
Proof.
  intros (Hu & Hk & Ha & Hm). unfold raw_version. rewrite (bind_ok _ _ _ _ _ (reads_ok _ _ _ _ (reads_usableVersion _ _) Hu)).
  rewrite (bind_ok _ _ _ _ _ (reads_ok _ _ _ _ (reads_kajAllows _) Hk)). by rewrite Ha, Hm.
Qed.

Lemma raw_version_result e s name aad v : (raw_version name aad e s).2 = Ok v → raw_usable e s name aad v.
Proof.
  unfold raw_version, mbind, M_bind, refuse, when, raw_usable. pose proof (reads_usableVersion name [RAW_ENCRYPT_DECRYPT] e s) as Hr.
  destruct (usableVersion name _ e s) as [s1 [u|]]; [|done]. cbn in Hr. subst s1. pose proof (reads_kajAllows (kv_Name u) e s) as Hr'.
  destruct (kajAllows (kv_Name u) e s) as [s2 [[]|]] eqn:Hk; [|done]. cbn in Hr'. subst s2.
  destruct (aes_key_ok (kv_Material u)) eqn:Ha; [|done]. cbn [negb]. destruct (_ && _) eqn:Hm; [done|]. intros [= <-]. by rewrite Hk.
Qed.

Lemma RawEncrypt_result e s req r :
  (RawEncrypt req e s).2 = Ok r → checkSize (rw_aad req) = Ok tt ∧ ∃ v, raw_usable e s (rw_name req) (rw_aad req) v ∧
    (raw_seal (as_mode (version_spec v)) (kv_Material v) (rw_text req) (rw_aad req) (rw_iv req) e s).2 = Ok (re_ciphertext r, re_iv r, re_tag_length r).
Proof.
  unfold RawEncrypt, mbind, M_bind, lift. destruct (checkSize (rw_text req)) as [[]|]; [|done]. destruct (checkSize (rw_aad req)) as [[]|]; [|done].
  destruct (checkCRC _ _); [|done]. destruct (checkCRC _ _); [|done]. destruct (checkCRC _ _); [|done].
  destruct (raw_version (rw_name req) (rw_aad req) e s) as [s1 [v|]] eqn:Hv; [|done].
  pose proof (raw_version_result e s (rw_name req) (rw_aad req) v ltac:(by rewrite Hv)) as Hu. rewrite (raw_version_ok _ _ _ _ _ Hu) in Hv. injection Hv as <-.
  destruct (raw_seal _ _ _ _ _ e s) as [s2 [[[ct iv] tag]|]] eqn:Hs; [|done]. intros [= <-]. split; [done|]. exists v. by rewrite Hs.
Qed.

(** C19: What RawEncrypt made, in any of its modes, with a version whose number its
    key has given out (not one left by a creation whose key write failed),
    RawDecrypt reverses after any run (an administrator's reset aside) while the
    version is usable; an empty ciphertext, which CBC and CTR make of an empty
    plaintext, is the exception. *)
Theorem raw_decrypts w w' e e' req r key n v' :
  reachable w → rtc step w w' → env_ok e → (w_time w' ≤ clock_Now e')%Z →
  parseCryptoKeyVersion (rw_name req) = Ok (key, n) → issued (store w) key n →
  (RawEncrypt req e (w_srv w)).2 = Ok r → re_ciphertext r ≠ "" →
  (usableVersion (rw_name req) [RAW_ENCRYPT_DECRYPT] e' (w_srv w')).2 = Ok v' → (kajAllows (kv_Name v') e' (w_srv w')).2 = Ok tt →
  ∃ r', (RawDecrypt (mkRawRequest (rw_name req) (re_ciphertext r) (rw_aad req) (re_iv r) None None None) (re_tag_length r) e' (w_srv w')).2 = Ok r' ∧
    rd_plaintext r' = rw_text req.
Proof.
  intros Hw Hr He Ht Hp Hi Henc Hne Hu' Hkaj. apply RawEncrypt_result in Henc as (Hsz & v & (Hu & _ & Ha & Hm) & Hseal).
  destruct (usable_keeps w w' e e' (rw_name req) key n _ _ v v' Hw Hr Ht Hp Hi Hu Hu') as (Hmat & Hspec & _).
  destruct (raw_seal_open _ _ _ _ _ _ _ _ _ _ He Hseal Hne) as [Hop Hiv].
  assert (raw_usable e' (w_srv w') (rw_name req) (rw_aad req) v') as Hraw by (unfold raw_usable; rewrite Hmat, Hspec; done).
  unfold RawDecrypt. cbn [rw_text rw_aad rw_iv rw_name rw_text_crc rw_aad_crc rw_iv_crc]. rewrite Hiv, Hsz.
  assert ((len (re_ciphertext r) =? 0)%nat = false) as -> by (apply Nat.eqb_neq; intros Hl; apply Hne; by destruct (re_ciphertext r)).
  do 6 rewrite (bind_ok _ _ _ _ _ eq_refl). rewrite (bind_ok _ _ _ _ _ (raw_version_ok _ _ _ _ _ Hraw)), Hmat, Hspec, Hop.
  rewrite (bind_ok _ _ _ _ _ eq_refl). by eexists.
Qed.

End raw.

(** ** Asymmetric keys *)

Section asymmetric.
Context `{XL : !X509Laws, SL : !SignatureLaws, OL : !OaepLaws}.

(** The elliptic curves of the table sign digests. *)
Lemma curve_hash a spec c : algorithms a = Some spec → as_curve spec = Some c → is_Some (as_hash spec).
Proof. destruct a; intros [= <-]; try done; by intros _; eexists. Qed.

Lemma signing_material a spec mat kind :
  algorithms a = Some spec → as_purpose spec = ASYMMETRIC_SIGN → importedMaterial a mat = Ok mat → ParsePKCS8PrivateKey mat = Some kind →
  match kind with kind_ecdsa _ => is_Some (as_hash spec) | kind_other _ => False | _ => True end.
Proof.
  intros Ha Hp Hm Hk. unfold importedMaterial in Hm. rewrite Ha, Hk in Hm. cbn [default from_option Datatypes.id] in Hm.
  assert (keyLen spec = 0) as Hkl by (destruct a; first [discriminate Ha|injection Ha as <-; first [done|discriminate Hp]]). rewrite Hkl in Hm. cbn [Nat.ltb Nat.leb] in Hm.
  destruct kind as [bits|c| |b]; try done. destruct (as_curve spec) as [c'|] eqn:Hc; [by eapply curve_hash|done].
Qed.

Lemma sign_verifies a spec mat kind data msg sch rand sig der :
  algorithms a = Some spec → as_purpose spec = ASYMMETRIC_SIGN → importedMaterial a mat = Ok mat → ParsePKCS8PrivateKey mat = Some kind →
  to_sign spec data None = Ok msg → scheme_of spec kind = Some sch → sign sch mat (if bool_decide (sch = Ed25519) then data else msg) rand = Some sig →
  MarshalPKIXPublicKey mat = Some der → VerifySignature (pem_Encode der) a data sig = Ok true.
Proof.
  intros Ha Hp Hm Hk Hts Hsch Hsig Hder. unfold VerifySignature. rewrite pem_Decode_Encode, (public_kind _ _ _ Hk Hder), Ha, Hp. cbn [negb bool_decide].
  rewrite bool_decide_true by done. cbn [negb]. pose proof (signing_material a spec mat kind Ha Hp Hm Hk) as Hkind.
  unfold to_sign in Hts. cbn [bool_decide is_Some digestBytes] in Hts. rewrite bool_decide_false in Hts by by intros [].
  pose proof (verify_sign sch mat der _ rand sig Hder Hsig) as Hv.
  destruct kind as [bits|c| |b]; cbn [scheme_of] in Hsch; injection Hsch as <- || done.
  - destruct (as_hash spec) as [h|]; destruct (len data =? 0)%nat; try done; injection Hts as <-; by destruct (pss spec); rewrite bool_decide_false in Hv by done; rewrite Hv.
  - destruct Hkind as [h Hh]. rewrite Hh in *. destruct (len data =? 0)%nat; [done|]. injection Hts as <-. rewrite bool_decide_false in Hv by done. by rewrite Hv.
  - rewrite bool_decide_true in Hv by done. by rewrite Hv.
Qed.

Lemma privateKey_kind v k : privateKey v = Ok k → ParsePKCS8PrivateKey (kv_Material v) = Some k.
Proof. unfold privateKey. destruct (ParsePKCS8PrivateKey (kv_Material v)) as [[]|]; try (by intros [= <-]). by destruct signer; intros [= <-]. Qed.

Lemma public_key_pem v f pk :
  public_key v f = Ok pk → kem (version_spec v) = 0 → ∃ der, MarshalPKIXPublicKey (kv_Material v) = Some der ∧ pu_pem pk = pem_Encode der ∧ pu_algorithm pk = kv_algorithm v.
Proof.
  unfold public_key. intros Hpk Hkem. rewrite Hkem in Hpk. cbn [Nat.ltb Nat.leb] in Hpk. apply res_bind_ok in Hpk as (k & _ & Hpk).
  destruct (MarshalPKIXPublicKey _) as [der|]; [|done]. exists der. by destruct f; first [discriminate Hpk|injection Hpk as <-].
Qed.

Lemma GetPublicKey_result e s name f pk :
  (GetPublicKey name f e s).2 = Ok pk → ∃ v, (usableVersion name [ASYMMETRIC_SIGN; ASYMMETRIC_DECRYPT; KEY_ENCAPSULATION] e s).2 = Ok v ∧ public_key v f = Ok pk.
Proof.
  unfold GetPublicKey, mbind, M_bind, lift. destruct (usableVersion name _ e s) as [s1 [v|]]; [|done]. intros Hpk. by exists v.
Qed.

Lemma AsymmetricSign_result e s name data crc dcrc r :
  (AsymmetricSign name data None crc dcrc e s).2 = Ok r → ∃ v msg kind sch,
    (usableVersion name [ASYMMETRIC_SIGN] e s).2 = Ok v ∧ to_sign (version_spec v) data None = Ok msg ∧ privateKey v = Ok kind ∧
    scheme_of (version_spec v) kind = Some sch ∧
    sign sch (kv_Material v) (if bool_decide (sch = Ed25519) then data else msg) (rand_reader e) = Some (sr_signature r).
Proof.
  unfold AsymmetricSign, mbind, M_bind, mret, M_ret, lift, refuse, when, ask, throw. rewrite bool_decide_false by by intros []. cbn [andb].
  destruct (checkSize data) as [[]|]; [|done]. destruct (checkCRC data crc); [|done]. destruct (checkCRC _ dcrc); [|done].
  unfold mret, M_ret. cbv beta iota zeta. pose proof (reads_usableVersion name [ASYMMETRIC_SIGN] e s) as Hr. destruct (usableVersion name _ e s) as [s1 [v|]]; [|done]. cbn in Hr. subst s1.
  destruct (kajAllows (kv_Name v) e s) as [s2 [[]|]]; [|done]. destruct (to_sign (version_spec v) data None) as [msg|] eqn:Hts; [|done].
  destruct (privateKey v) as [kind|] eqn:Hpk; [|done]. destruct (scheme_of _ kind) as [sch|] eqn:Hsch; [|done].
  destruct (sign sch _ _ _) as [sig|] eqn:Hsig; [|done]. intros [= <-]. by exists v, msg, kind, sch.
Qed.

(** The signature of some data verifies with the public key the service gives out,
    at any later time the version is usable: its algorithm is the table's and its
    key one of that algorithm's. *)
Theorem signature_verifies w w' e e' name key n data crc dcrc r f pk v :
  reachable w → rtc step w w' → (w_time w' ≤ clock_Now e')%Z → parseCryptoKeyVersion name = Ok (key, n) → issued (store w) key n →
  store w !! version_at key n = Some (DVersion v) → algorithmPurpose (kv_algorithm v) = Some ASYMMETRIC_SIGN →
  importedMaterial (kv_algorithm v) (kv_Material v) = Ok (kv_Material v) →
  (AsymmetricSign name data None crc dcrc e (w_srv w)).2 = Ok r → (GetPublicKey name f e' (w_srv w')).2 = Ok pk →
  VerifySignature (pu_pem pk) (pu_algorithm pk) data (sr_signature r) = Ok true.
Proof.
  intros Hw Hr Ht Hp Hi Hv Hap Him Hsign Hget. apply AsymmetricSign_result in Hsign as (v0 & msg & kind & sch & Hu & Hts & Hpk & Hsch & Hsig).
  apply GetPublicKey_result in Hget as (v' & Hu' & Hpub). destruct (usable_keeps w w' e e' name key n _ _ v0 v' Hw Hr Ht Hp Hi Hu Hu') as (Hmat & Hspec & _ & Halg).
  apply (does_result no_warrant _ _ _ _ _ (usableVersion_does no_warrant e (w_srv w) name _ (reachable_inv w Hw))) in Hu as (_ & k1 & n1 & Hp1 & Hat & _).
  rewrite Hp in Hp1. injection Hp1 as <- <-. rewrite Hv in Hat. injection Hat as <-.
  unfold algorithmPurpose in Hap. destruct (algorithms (kv_algorithm v)) as [spec|] eqn:Ha; [|done]. injection Hap as Hap.
  assert (version_spec v = spec) as Hsp by (unfold version_spec; by rewrite Ha). rewrite Hsp in *.
  apply public_key_pem in Hpub as (der & Hder & -> & ->); [|rewrite Hspec; clear -Ha Hap; destruct (kv_algorithm v); first [discriminate Ha|injection Ha as <-; first [done|discriminate Hap]]].
  rewrite Hmat in Hder. rewrite Halg. eapply sign_verifies; try done. by apply privateKey_kind.
Qed.

End asymmetric.

(** ** Imported keys *)

Section imported.
Context `{XL : !X509Laws, OL : !OaepLaws, AL : !AesLaws}.

(** The job's key unwraps what was wrapped for the job. *)
Lemma unwrap_wrapped_for_import t j pj key kek rand wrapped :
  toImportJob t j = Ok pj → WrapForImport (pj_public_pem pj) (pj_method pj) key kek rand = Ok wrapped →
  (∀ b, kek = Some b → len b = 32) → (0 < Z.of_nat (len key) ≤ 2 ^ 32 - 1)%Z → unwrap j wrapped = Ok key.
Proof.
  intros (bits & Hbits & Hj)%res_bind_ok Hw Hkek Hkey. destruct (MarshalPKIXPublicKey (ij_Private j)) as [der|] eqn:Hder; [|done]. injection Hj as <-.
  cbn [pj_public_pem pj_method] in Hw. unfold WrapForImport in Hw. unfold unwrap. rewrite Hbits. cbn [mbind res_bind].
  destruct (importMethods (ij_Method j)) as [spec|]; [|done]. rewrite pem_Decode_Encode in Hw.
  assert (ParsePKCS8PrivateKey (ij_Private j) = Some (kind_rsa bits)) as Hpriv.
  { unfold ij_key in Hbits. destruct (ParsePKCS8PrivateKey (ij_Private j)) as [[]|]; try done. by injection Hbits as ->. }
  pose proof (public_kind _ _ _ Hpriv Hder) as Hpub. rewrite Hpub in Hw. destruct (is_aes spec); cbn [negb] in *.
  - destruct kek as [b|]; [|done]. destruct (EncryptOAEP (is_hash spec) der b rand) as [wk|] eqn:Henc; [|done].
    apply res_bind_ok in Hw as (c & Hc & [= <-]). pose proof (EncryptOAEP_len _ _ _ _ _ _ Hpub Henc) as Hlen.
    pose proof (Hkek b eq_refl) as Hb. assert (aes_key_ok b = true) as Hak by (unfold aes_key_ok; rewrite Hb; done).
    destruct (unwrapKWP_wrapKWP b key Hak Hkey) as (c' & Hc' & Hun). rewrite Hc in Hc'. injection Hc' as <-.
    assert (1 ≤ len c)%nat as Hc1 by (destruct (Nat.le_gt_cases 1 (len c)); [done|]; unfold unwrapKWP in Hun; rewrite Hak, (proj2 (Nat.ltb_lt _ _)) in Hun by lia; done).
    rewrite len_app, (proj2 (Nat.leb_gt _ _)) by lia. rewrite <- Hlen, take_len_app. rewrite (DecryptOAEP_Encrypt _ _ _ _ _ _ Hder Henc), Hb. cbn [Nat.eqb negb].
    rewrite <- (Nat.add_0_r (len wk)), drop_len_app. cbn [drop_bytes]. by rewrite Hun.
  - destruct (EncryptOAEP (is_hash spec) der key rand) as [ct|] eqn:Henc; [|done]. injection Hw as <-. by rewrite (DecryptOAEP_Encrypt _ _ _ _ _ _ Hder Henc).
Qed.

Lemma ImportCryptoKeyVersion_result e s req j pv :
  Inv (cts s) → cts s !! dbKey importJobPrefix (im_job req) = Some (DJob j) → im_rsa_aes_wrapped req = "" →
  (ImportCryptoKeyVersion req e s).2 = Ok pv → ∃ k raw mat,
    parseCryptoKey (im_parent req) = Ok tt ∧ ck_Name k = im_parent req ∧ unwrap j (im_wrapped req) = Ok raw ∧ importedMaterial (im_algorithm req) raw = Ok mat ∧
    let v := imported_version k (clock_Now e) mat (im_algorithm req) (ij_Name j) (im_trusted_wrapping req) in
    pv = toVersion v ∧ (1 ≤ ck_Next k)%Z ∧ added k v (cts s) (cts (ImportCryptoKeyVersion req e s).1).
Proof.
  intros HI Hj Hrsa. refine (does_result no_warrant e s _ (λ pv s', ∃ k raw mat, _ ∧ _ ∧ _ ∧ _ ∧ pv = toVersion _ ∧ _ ∧ added k _ (cts s) (cts s')) pv _).
  unfold ImportCryptoKeyVersion. do 2 does_step. destruct a. rename H into Hp. do 4 does_step. cbv zeta. rewrite Hrsa. do 4 does_step.
  does_step. apply does_load_key; [done|done|]. intros k Hk Hname Hok. rewrite <- Hname in Hk. do 2 does_step. does_step.
  apply does_load. intros d j' Hj' Hof. rewrite Hj in Hj'. injection Hj' as <-. injection Hof as <-.
  do 4 does_step. does_step. apply does_reads; [apply reads_backendUsable|]. intros [] _.
  assert (∀ raw mat, unwrap j (if (len (im_wrapped req) =? 0)%nat then "" else im_wrapped req) = Ok raw → importedMaterial (im_algorithm req) raw = Ok mat →
    does no_warrant e s (add_version k (imported_version k (clock_Now e) mat (im_algorithm req) (ij_Name j) (im_trusted_wrapping req)))
    (λ pv s', ∃ k raw mat, parseCryptoKey (im_parent req) = Ok tt ∧ ck_Name k = im_parent req ∧ unwrap j (im_wrapped req) = Ok raw ∧ importedMaterial (im_algorithm req) raw = Ok mat ∧
      pv = toVersion (imported_version k (clock_Now e) mat (im_algorithm req) (ij_Name j) (im_trusted_wrapping req)) ∧ (1 ≤ ck_Next k)%Z ∧
      added k (imported_version k (clock_Now e) mat (im_algorithm req) (ij_Name j) (im_trusted_wrapping req)) (cts s) (cts s'))) as Hmain.
  { intros raw mat Hraw Hmat. eapply does_mono; [|apply does_add_imported; try done; split; [by left|done]]. intros pv' s' (_ & -> & Hadd).
    exists k, raw, mat. split_and!; try done; [|apply Hok]. destruct (Nat.eqb_spec (len (im_wrapped req)) 0) as [Hl|]; [|done]. by destruct (im_wrapped req). }
  repeat (first [ eapply Hmain; done | does_step ]).
Qed.

(** C21: A key, of 1 to 2^32-1 bytes, that was wrapped for an import job (with a
    32-byte AES key where its method has one) and imported under it as wrapped_key
    without an error is, byte for byte as it was wrapped, the
    material of the version the import made (an asymmetric key is not re-encoded,
    whatever importedMaterial's comment says), which has the algorithm asked for, is
    enabled and given out. *)
Theorem imported_key_is_kept w e req j t pj key kek rand pv :
  reachable w → store w !! dbKey importJobPrefix (im_job req) = Some (DJob j) → toImportJob t j = Ok pj →
  WrapForImport (pj_public_pem pj) (pj_method pj) key kek rand = Ok (im_wrapped req) → im_rsa_aes_wrapped req = "" →
  (∀ b, kek = Some b → len b = 32) → (0 < Z.of_nat (len key) ≤ 2 ^ 32 - 1)%Z →
  (ImportCryptoKeyVersion req e (w_srv w)).2 = Ok pv →
  let m := cts (ImportCryptoKeyVersion req e (w_srv w)).1 in
  ∃ n v, pv_name pv = versionName (im_parent req) n ∧ m !! version_at (im_parent req) n = Some (DVersion v) ∧
    kv_Material v = key ∧ kv_algorithm v = im_algorithm req ∧ state v = ENABLED ∧ issued m (im_parent req) n.
Proof.
  intros Hw Hj Hpj Hwrap Hrsa Hkek Hkey Himp m. pose proof (unwrap_wrapped_for_import t j pj key kek rand _ Hpj Hwrap Hkek Hkey) as Hun.
  destruct (ImportCryptoKeyVersion_result e _ req j pv (reachable_inv w Hw) Hj Hrsa Himp) as (k & raw & mat & Hk & Hname & Hraw & Hmat & -> & Hn & Hadd).
  rewrite Hun in Hraw. injection Hraw as <-. assert (mat = key) as ->.
  { unfold importedMaterial in Hmat. repeat case_match; simplify_eq; done. }
  fold m in Hadd. unfold added in Hadd. rewrite Hname in Hadd. set (v := imported_version _ _ _ _ _ _) in *.
  exists (ck_Next k), v. split_and!; try done; [cbn; by rewrite Hname|rewrite Hadd, lookup_insert_ne by other_kind; apply lookup_insert_eq| |].
  - unfold kv_algorithm, v. cbn [imported_version kv_Algorithm]. unfold storedAlgorithm. by case_bool_decide.
  - unfold issued, key_is. rewrite Hadd, lookup_insert_eq. cbn. lia.
Qed.

End imported.

End roundtrip.
