(* ===== verification/KmsRotation.v ===== *)
(** * Cloud KMS: a due rotation makes one version

    [advance] gives the first time of the schedule after now, and [rotateDue] makes
    one version for a key that is due, however late it comes. *)

From S2P Require Import Prelude GoLib ApiError Resource MetaStore Paging IamPolicy Handler GoCrypto GoBinary NetHttp KmsModel KmsNames KmsFilter KmsStore KmsVersions KmsKeys KmsCrypt KmsKwp KmsSweep KmsImport KmsHsm KmsEkm KmsAutokey KmsInv KmsEffects KmsHandlers KmsHsmWrites KmsRun KmsSpec KmsRunSpec.
From Stdlib Require Import Ascii.

Import strings time.

(** ** The next time of a schedule *)

Lemma step_past_after fuel next now period : (now < next)%Z → step_past fuel next now period = next.
Proof. intros H. destruct fuel; [done|]. cbn [step_past]. unfold After. by rewrite (proj2 (Z.ltb_lt _ _)). Qed.

(** Within the range of a duration, the first time on the schedule after now. *)
Lemma advance_due next period now :
  (0 < period)%Z → (next ≤ now)%Z → (now - next + period ≤ int_max)%Z →
  ∃ m, (1 ≤ m)%Z ∧ advance next period now = (next + m * period)%Z ∧ (now < advance next period now ≤ now + period)%Z.
Proof.
  intros Hp Hn Hr. set (d := (now - next)%Z) in *.
  assert (Z.quot d period * period ≤ d < (Z.quot d period + 1) * period)%Z as Hq.
  { rewrite Z.quot_div_nonneg by lia. pose proof (Z.div_mod d period ltac:(lia)). pose proof (Z.mod_pos_bound d period Hp). nia. }
  assert (0 ≤ Z.quot d period)%Z as Hq0 by (apply Z.quot_pos; lia).
  assert (advance next period now = next + (Z.quot d period + 1) * period)%Z as ->.
  { unfold advance. rewrite (proj2 (Z.leb_gt _ _)) by lia. assert (Sub now next = d) as -> by (unfold Sub; fold d; unfold int_min, int_max in *; lia).
    rewrite (proj2 (Z.leb_le 0 d)) by lia. cbv zeta. unfold Add. rewrite wrap_i64_id by (unfold int_min; nia). rewrite step_past_after by lia. done. }
  exists (Z.quot d period + 1)%Z. split_and!; [lia|done|lia|lia].
Qed.

(** A schedule of every thirty days, from 1700 on, found in 2026: the product
    overflows, and the time [advance] gives is on no such schedule. *)
Definition in_1700 : Time := (1699 * 31556952 * Second)%Z.
Definition in_2026 : Time := (2026 * 31556952 * Second)%Z.
Definition thirty_days : Duration := (30 * 24 * Hour)%Z.

Theorem advance_off_schedule : ((advance in_1700 thirty_days in_2026 - in_1700) mod thirty_days ≠ 0)%Z.
Proof. vm_compute. discriminate. Qed.

(** ** A rotation *)

Section rotation.
Context {S : Type} `{MSL : MetaStoreLaws S doc} `{NET : Net} `{UNI : Unicode} `{TJ : TokenJSON}.
Context `{X : X509} `{RP : RsaPublic} `{HA : Hashes} `{OA : Oaep} `{AE : Aes} `{CRC : Crc32} `{CR : Crypto} `{JT : JsonText} `{CE : Certificates}.
Implicit Types (s : Server S) (e : Env) (w : world (S := S)).

Abbreviation H := (M Env (Server S)).
Abbreviation cts s := (contents (db s)).
Abbreviation store w := (contents (db (w_srv w))).

Definition due (k : cryptoKey) (t : Time) : Prop := IsZero (ck_NextRotation k) = false ∧ (ck_NextRotation k ≤ t)%Z.

(** The key after its rotation at [t]. *)
Definition rotated (k : cryptoKey) (t : Time) : cryptoKey :=
  set_ck_NextRotation (set_ck_Primary (set_ck_Next k (ck_Next k + 1)) (ck_Next k)) (advance (ck_NextRotation k) (ck_RotationPeriod k) t).

Lemma rotateDue_rotates e s k t :
  Inv (cts s) → cts s !! key_at (ck_Name k) = Some (DKey k) → due k t →
  does no_warrant e s (rotateDue (key_at (ck_Name k)) t) (λ r s', ∃ v, r = ck_NextRotation (rotated k t) ∧ state v = ENABLED ∧
    (∃ spec, algorithms (ck_algorithm k) = Some spec ∧ rand_key e spec = Some (kv_Material v)) ∧
    cts s' = <[key_at (ck_Name k) := DKey (rotated k t)]> (<[version_at (ck_Name k) (ck_Next k) := DVersion v]> (cts s))).
Proof.
  intros HI Hk [Hz Hd]. destruct (inv_home _ _ _ HI Hk) as [_ (Hp & Hn & Hdr & Hpu)]. unfold rotateDue. does_step.
  apply does_raw; [congruence|]. intros d k' Hd' Hk'. rewrite Hk in Hd'. injection Hd' as <-. injection Hk' as <-.
  rewrite Hz. unfold Before. rewrite (proj2 (Z.ltb_ge _ _)) by lia. cbn [orb]. unfold scheduled in Hpu. rewrite Hz, orb_true_r in Hpu. specialize (Hpu eq_refl).
  cbv zeta. does_step. apply does_reads; [apply reads_newVersion|]. intros v Hv. apply (newVersion_result no_warrant) in Hv as (Hvn & Hst & Htr & _ & _ & Hmat).
  apply (does_add_version no_warrant e s k v); try done; [split; [by left|done]| |by right|].
  - split_and!; cbn; try done; [lia|apply Hdr..].
  - intros s' _ Hs'. does_step. by exists v.
Qed.

Lemma rotateDue_waits e s k t :
  parseCryptoKey (ck_Name k) = Ok tt → cts s !! key_at (ck_Name k) = Some (DKey k) → ck_NextRotation k = zero ∨ (t < ck_NextRotation k)%Z →
  rotateDue (key_at (ck_Name k)) t e s = (s, Ok (ck_NextRotation k)).
Proof.
  intros Hp Hk Hw. unfold rotateDue, raw, mbind, M_bind. rewrite Get_law. unfold checkKey. rewrite (SafeKey_dbKey _ _ keyPrefix_in (key_plain _ Hp)).
  cbn [mbind res_bind]. rewrite Hk. cbn [of_doc cryptoKey_record]. unfold IsZero, Before. destruct Hw as [->|Hw]; [done|].
  by rewrite (proj2 (Z.ltb_lt _ _) Hw), orb_true_r.
Qed.

(** C17: A rotation that is due and succeeds, for a key whose period is not negative
    and late by no more than the nanoseconds an int64 holds less one period (292
    years; [advance_off_schedule] is what happens beyond), makes one version,
    enabled and with new material, makes it the primary, and sets the next rotation
    to the first time of the schedule after now, or to none without a period; coming
    again at the same time it does nothing. *)
Theorem due_rotation_makes_one_version w e key k t r :
  reachable w → store w !! key_at key = Some (DKey k) → parseCryptoKey key = Ok tt → due k t → (0 ≤ ck_RotationPeriod k)%Z →
  (t - ck_NextRotation k + ck_RotationPeriod k ≤ int_max)%Z → (rotateDue (key_at key) t e (w_srv w)).2 = Ok r →
  let s' := (rotateDue (key_at key) t e (w_srv w)).1 in
  (∃ v, state v = ENABLED ∧ (∃ spec, algorithms (ck_algorithm k) = Some spec ∧ rand_key e spec = Some (kv_Material v)) ∧
    cts s' = <[key_at key := DKey (rotated k t)]> (<[version_at key (ck_Next k) := DVersion v]> (store w))) ∧
  ck_Primary (rotated k t) = ck_Next k ∧ r = ck_NextRotation (rotated k t) ∧
  (if (ck_RotationPeriod k =? 0)%Z then r = zero
   else (t < r ≤ t + ck_RotationPeriod k)%Z ∧ ∃ m, (1 ≤ m)%Z ∧ r = (ck_NextRotation k + m * ck_RotationPeriod k)%Z) ∧
  rotateDue (key_at key) t e s' = (s', Ok r).
Proof.
  intros Hw Hkey Hp Hdue Hper Hrange Hr s'. pose proof (reachable_inv w Hw) as HI.
  destruct (key_named _ _ _ HI (key_plain _ Hp) Hkey) as (k' & [= <-] & Hname & _). subst key.
  pose proof (does_result _ _ _ _ _ _ (rotateDue_rotates e (w_srv w) k t HI Hkey Hdue) Hr) as (v & Hrn & Hst & Hmat & Hs').
  assert (if (ck_RotationPeriod k =? 0)%Z then r = zero
   else (t < r ≤ t + ck_RotationPeriod k)%Z ∧ ∃ m, (1 ≤ m)%Z ∧ r = (ck_NextRotation k + m * ck_RotationPeriod k)%Z) as Hnext.
  { rewrite Hrn. cbn. destruct (Z.eqb_spec (ck_RotationPeriod k) 0) as [H0|Hne]; [by rewrite H0|]. destruct Hdue as [_ Hd].
    destruct (advance_due (ck_NextRotation k) (ck_RotationPeriod k) t) as (m & Hm & Heq & Hlt); [lia|done|done|]. split; [done|]. by exists m. }
  split; [exists v; split; [done|]; split; [done|exact Hs']|]. split_and!; [done|done|done|].
  rewrite Hrn. apply (rotateDue_waits e s' (rotated k t) t Hp); [subst s'; by rewrite Hs', lookup_insert_eq|]. rewrite <- Hrn.
  destruct (ck_RotationPeriod k =? 0)%Z; [by left|right; lia].
Qed.

End rotation.
