(* ===== verification/KmsExamples.v ===== *)
(** * Runs of Cloud KMS

    Concrete runs: the theorems' witnesses, and the places where the code does not
    do what it says. *)

From S2P Require Import Prelude GoLib ApiError Resource MetaStore IamPolicy SecretsModel SecretsAccess.
From S2P Require Import GoLib Paging Handler GoCrypto GoBinary NetHttp KmsModel KmsNames KmsFilter KmsStore KmsVersions KmsKeys KmsCrypt KmsOps KmsKwp KmsSweep KmsImport KmsHsm KmsEkm KmsAutokey KmsInv KmsEffects KmsHandlers KmsHsmWrites KmsRun KmsSpec KmsRunSpec KmsQuorum KmsSecrets KmsRoundtrip KmsRotation.
From Stdlib Require Import Ascii.

Import strings time.

Module KmsRuns.

(** ** Ciphers that keep what they are given

    A tag of sixteen bytes, a block cipher that does nothing, keys whose first byte
    is their kind, signatures that are the key and the message. *)

Definition tag : string := "0123456789abcdef".

#[local] Instance plain_crypto : Crypto := {|
  sha256_hex := λ s, s;
  gcm_Seal := λ _ _ pt _, pt +:+ tag;
  gcm_Open := λ _ _ ct _, if (len ct <? 16)%nat then None else Some (take_bytes (len ct - 16) ct) |}.
#[local] Instance plain_laws : CryptoLaws.
Proof.
  intros key nonce pt aad. cbn [gcm_Open gcm_Seal plain_crypto]. rewrite len_app. change (len tag) with 16. rewrite (proj2 (Nat.ltb_ge _ _)) by lia.
  replace (len pt + 16 - 16) with (len pt) by lia. by rewrite take_len_app.
Qed.
#[local] Instance plain_overhead : GcmOverhead.
Proof. intros key nonce pt aad. cbn. by rewrite len_app. Qed.

#[local] Instance plain_aes : Aes := {| aes_Encrypt := λ _ b, b; aes_Decrypt := λ _ b, b |}.
#[local] Instance plain_aes_laws : AesLaws.
Proof. done. Qed.

#[local] Instance no_crc : Crc32 := λ _, 0%Z.
#[local] Instance plain_hashes : Hashes := {| hash_Sum := λ _ s, s; hmac_Sum := λ _ k d, k +:+ d |}.

Definition kind_of (s : string) : option KeyKind :=
  match s with
  | String "r" _ => Some (kind_rsa 3072)
  | String "e" _ => Some (kind_ecdsa (Some P256))
  | _ => None
  end.

#[local] Instance plain_x509 : X509 := {|
  ParsePKCS8PrivateKey := kind_of;
  ParsePKIXPublicKey := kind_of;
  MarshalPKIXPublicKey := Some;
  pem_Encode := λ der, der;
  pem_Decode := λ s, Some ("PUBLIC KEY", s) |}.
#[local] Instance plain_x509_laws : X509Laws.
Proof. split; [|done]. intros priv pub kind Hk [= <-]. exact Hk. Qed.

#[local] Instance plain_signatures : Signatures := {|
  sign := λ _ priv msg _, Some (priv +:+ msg);
  verify := λ _ pub msg sig, bool_decide (sig = pub +:+ msg) |}.
#[local] Instance plain_signature_laws : SignatureLaws.
Proof. intros sch priv pub msg rand sig [= <-] [= <-]. by apply bool_decide_eq_true. Qed.

(** The length of the message, the message, and zeros. *)
#[local] Instance plain_oaep : Oaep := {|
  EncryptOAEP := λ _ _ msg _, if (380 <? len msg)%nat then None else Some (put_uint32 (Z.of_nat (len msg)) +:+ msg +:+ zeros (380 - len msg));
  DecryptOAEP := λ _ _ ct, Some (take_bytes (Z.to_nat (uint32 ct)) (drop_bytes 4 ct)) |}.
#[local] Instance plain_oaep_laws : OaepLaws.
Proof.
  split.
  - intros h priv pub msg rand ct _. cbn [EncryptOAEP DecryptOAEP plain_oaep]. destruct (Nat.ltb_spec 380 (len msg)) as [|Hl]; [done|]. intros [= <-].
    rewrite uint32_put by lia. rewrite Nat2Z.id. assert (∀ r, drop_bytes 4 (put_uint32 (Z.of_nat (len msg)) +:+ r) = r) as -> by done. by rewrite take_len_app.
  - intros h pub bits msg rand ct. cbn [EncryptOAEP ParsePKIXPublicKey plain_oaep plain_x509]. intros Hk. destruct (Nat.ltb_spec 380 (len msg)) as [|Hl]; [done|].
    intros [= <-]. assert (bits = 3072) as ->. { unfold kind_of in Hk. repeat case_match; simplify_eq; done. }
    rewrite !len_app, zeros_len. unfold put_uint32. rewrite be_put_len. change (rsa_Size 3072) with 384. lia.
Qed.

#[local] Instance plain_rsa : RsaPublic := {|
  rsa_public := λ _ der, Some (kind_rsa 2048, der);
  VerifyPKCS1v15_SHA256 := λ der digest sig, bool_decide (sig = der +:+ digest) |}.

#[local] Instance no_kem : Mlkem := {| kem_public := λ _ _, None; kem_Decapsulate := λ _ _ _, None |}.
#[local] Instance no_net : Net := {| url_Parse := λ _, None; url_String := λ _, ""; request_ok := λ _ _, true |}.
#[local] Instance no_unicode : Unicode :=
  {| uni_letter := λ _, false; uni_digit := λ _, false; uni_Ll := λ _, false; uni_Lo := λ _, false; uni_N := λ _, false |}.
#[local] Instance no_text : JsonText := λ _, "".
#[local] Instance no_certificates : Certificates := λ _, None.
#[local] Existing Instance Paging.Example.example_json.

(** ** Surroundings *)

(** The key of an algorithm: bytes of its kind. *)
Definition some_key (spec : algSpec) : string :=
  if negb (rsaBits spec =? 0)%nat then "rsa" else if bool_decide (is_Some (as_curve spec)) then "ec" else zeros (keyLen spec).

Definition t0 : Time := (63000000000 * Second)%Z.
Definition day : Duration := (24 * Hour)%Z.

(** No random identifiers but an operation's. *)
Definition at_ (t : Time) : Env :=
  mkEnv t (λ spec, Some (some_key spec)) (Some "123456789012") None (Some "path") (Some "op") "uuid" (λ n, Some (strconv.Itoa (Z.of_nat n)))
    "etag" (Some tag) (λ _, None) "" None.
(** One with the identifier of a retired resource. *)
Definition deleting (t : Time) : Env :=
  mkEnv t (λ spec, Some (some_key spec)) (Some "123456789012") (Some "id") (Some "path") (Some "op") "uuid" (λ n, Some (strconv.Itoa (Z.of_nat n)))
    "etag" (Some tag) (λ _, None) "" None.

Lemma at_env_ok t : json_ok t = true → env_ok (at_ t).
Proof.
  intros Ht. split; cbn; try done; try (by intros b [= <-]).
  intros spec b [= <-] Hr Hc _ _. unfold some_key. rewrite Hr, Hc. cbn. by rewrite zeros_len.
Qed.
Lemma deleting_ok t : json_ok t = true → env_ok (deleting t).
Proof.
  intros Ht. split; cbn; try done; try (by intros b [= <-]).
  intros spec b [= <-] Hr Hc _ _. unfold some_key. rewrite Hr, Hc. cbn. by rewrite zeros_len.
Qed.
Lemma at_fresh t m : fresh (at_ t) m.
Proof. by intros id loc. Qed.

(** ** Runs *)

Abbreviation mem := (Memory.Memory doc).
Definition w0 : world (S := mem) := mkWorld (NewServer Memory.NewMemory) t0 [].

Definition next_world (t : Time) (c : call) (w : world (S := mem)) : world :=
  mkWorld (exec c (at_ t) (w_srv w)).1 t (call_replies c ++ w_replies w).
Definition runs (l : list (Time * call)) (w : world) : world := foldl (λ w tc, next_world tc.1 tc.2 w) w l.

Definition call_timely (c : call) (t : Time) : bool := match c with c_destroyDue _ u | c_rotateDue _ u => (u <=? t)%Z | _ => true end.
Fixpoint timely (t : Time) (l : list (Time * call)) : bool :=
  match l with
  | [] => true
  | (t', c) :: rest => (t <=? t')%Z && json_ok t' && call_timely c t' && timely t' rest
  end.

Lemma next_step t c w : ((w_time w <=? t)%Z && json_ok t && call_timely c t) = true → step w (next_world t c w).
Proof.
  intros [[H1%Z.leb_le H2]%andb_true_iff H3]%andb_true_iff. destruct w as [s u h]. apply (step_call c (at_ t) s u h); [done|by apply at_env_ok|apply at_fresh|].
  by destruct c; try done; apply Z.leb_le.
Qed.

Lemma runs_steps l w : timely (w_time w) l = true → rtc step w (runs l w).
Proof.
  revert w. induction l as [|[t c] l IH]; intros w; [done|]. cbn [timely]. intros [Hc Hl]%andb_true_iff.
  eapply rtc_l; [by apply (next_step t c)|]. by apply (IH (next_world t c w)).
Qed.

Lemma w0_reachable : reachable w0.
Proof. by exists w0. Qed.
Lemma runs_reachable l w : reachable w → timely (w_time w) l = true → reachable (runs l w).
Proof. intros Hw Hl. eapply reachable_run; [done|]. by apply runs_steps. Qed.

(** ** A key and its versions *)

Definition loc : string := "projects/project-1/locations/global".
Definition ring : string := loc +:+ "/keyRings/r".
Definition key : string := ring +:+ "/cryptoKeys/k".

Definition a_key (p : Purpose) (a : algo) : pbKey :=
  mkPbKey "" p None ∅ None SOFTWARE a None "" None None false None.
Definition create (id : string) (p : Purpose) (a : algo) : call := c_CreateCryptoKey (mkCreateKeyRequest ring id (Some (a_key p a)) false false).

Definition setup : list (Time * call) := [(t0, c_CreateKeyRing loc "r"); (t0, create "k" ENCRYPT_DECRYPT ALGORITHM_UNSPECIFIED)].
Definition w1 : world := runs setup w0.

Lemma w1_reachable : reachable w1.
Proof. apply runs_reachable; [apply w0_reachable|vm_compute; reflexivity]. Qed.

(** The key is made with its first version as its primary. *)
Example w1_key : option_map (λ d, match d with DKey k => (ck_Primary k, ck_Next k) | _ => (0%Z, 0%Z) end) (contents (db (w_srv w1)) !! key_at key) = Some (1%Z, 2%Z).
Proof. vm_compute. reflexivity. Qed.

(** The second version is made and the first one destroyed. *)
Definition destroying : list (Time * call) :=
  [(t0, c_CreateCryptoKeyVersion (mkCreateVersionRequest key STATE_UNSPECIFIED false None));
   (t0, c_UpdateCryptoKeyPrimaryVersion key "2");
   (t0, c_DestroyCryptoKeyVersion (versionName key 1))].
Definition w2 : world := runs destroying w1.
(** A month later, and the sweep after it. *)
Definition later : Time := (t0 + 31 * day)%Z.
Definition w3 : world := runs [(later, c_CreateKeyRing loc "s")] w2.
Definition w4 : world := runs [(later, c_destroyDue (version_at key 1) later)] w3.

Lemma w2_reachable : reachable w2.
Proof. apply runs_reachable; [apply w1_reachable|vm_compute; reflexivity]. Qed.
Lemma w3_reachable : reachable w3.
Proof. apply runs_reachable; [apply w2_reachable|vm_compute; reflexivity]. Qed.

Lemma issued_by (w : world (S := mem)) n (Hb : match contents (db (w_srv w)) !! key_at key with Some (DKey k) => (n <? ck_Next k)%Z | _ => false end = true) :
  issued (contents (db (w_srv w))) key n.
Proof. unfold issued, key_is. destruct (contents (db (w_srv w)) !! key_at key) as [[]|]; try done. by apply Z.ltb_lt. Qed.

Definition version_of (w : world (S := mem)) (key : string) (n : Z) : keyVersion :=
  match contents (db (w_srv w)) !! version_at key n with
  | Some (DVersion v) => v
  | _ => mkKeyVersion "" zero "" None None "" zero None zero zero "" "" "" false false
  end.
Definition key_of (w : world (S := mem)) (key : string) : cryptoKey :=
  match contents (db (w_srv w)) !! key_at key with
  | Some (DKey k) => k
  | _ => mkCryptoKey "" zero ∅ 0 0 0%Z None 0%Z zero None None None None "" false
  end.

(** ** Witnesses *)

Lemma destroyed_for_good_witness :
  (∀ pv, (GetCryptoKeyVersion (versionName key 1) (at_ later) (w_srv w4)).2 = Ok pv → pv_state pv = DESTROYED) ∧
  (GetCryptoKeyVersion (versionName key 1) (at_ later) (w_srv w4)).2 = Ok (toVersion (version_of w4 key 1)).
Proof.
  split; [|vm_compute; reflexivity].
  refine (proj1 (destroyed_for_good w3 w4 (at_ later) key 1 w3_reachable _ _ _ _ _ _)).
  - apply runs_steps. vm_compute. reflexivity.
  - vm_compute. discriminate.
  - reflexivity.
  - lia.
  - apply issued_by. vm_compute. reflexivity.
  - exists (version_of w3 key 1). split; vm_compute; reflexivity.
Defined.

Definition secret : EncryptRequest := mkEncryptRequest key "hello" "aad" None None.
Definition encrypted : EncryptResponse :=
  match (Encrypt secret (at_ t0) (w_srv w1)).2 with Ok r => r | Err _ => mkEncryptResponse "" "" 0 false false SOFTWARE end.

(** The first version is destroyed after the second was made, and decrypts as long
    as it is not. *)
Definition made : list (Time * call) :=
  [(t0, c_CreateCryptoKeyVersion (mkCreateVersionRequest key STATE_UNSPECIFIED false None)); (t0, c_UpdateCryptoKeyPrimaryVersion key "2")].
Definition w1' : world := runs made w1.

Lemma encrypted_is_decrypted_witness :
  (Decrypt (mkDecryptRequest key (es_ciphertext encrypted) "aad" None None) (at_ later) (w_srv w1')).2 = Ok (mkDecryptResponse "hello" 0%Z false SOFTWARE).
Proof.
  refine (encrypted_is_decrypted w1 w1' (at_ t0) (at_ later) secret encrypted key 1 (key_of w1' key) (version_of w1' key 1)
    (mkDecryptRequest key (es_ciphertext encrypted) "aad" None None) w1_reachable (at_env_ok _ _) _ _ _ _ _ _ _ _ _ _ _ _ _).
  - reflexivity.
  - vm_compute. reflexivity.
  - vm_compute. reflexivity.
  - reflexivity.
  - lia.
  - apply issued_by. vm_compute. reflexivity.
  - apply runs_steps. vm_compute. reflexivity.
  - vm_compute. discriminate.
  - split_and!; [reflexivity|reflexivity|reflexivity|by exists false|by exists false].
  - vm_compute. reflexivity.
  - vm_compute. reflexivity.
  - vm_compute. reflexivity.
  - vm_compute. reflexivity.
  - vm_compute. reflexivity.
Defined.

(** A day after its destruction was asked for, less a second. *)
Definition soon : Time := (t0 + day - Second)%Z.

Lemma destruction_delayed_witness :
  ∃ v' pv, contents (db (w_srv w2)) !! version_at key 1 = Some (DVersion v') ∧ kv_Material (effective v' soon) = zeros 32 ∧
    GetCryptoKeyVersion (versionName key 1) (at_ soon) (w_srv w2) = (w_srv w2, Ok pv) ∧ pv_name pv = versionName key 1 ∧ pv_state pv ≠ DESTROYED.
Proof.
  refine (destruction_delayed w1 w2 (at_ soon) key 1 (version_of w1 key 1) w1_reachable _ _ _ _ _ _ _).
  - apply runs_steps. vm_compute. reflexivity.
  - vm_compute. split; [discriminate|reflexivity].
  - reflexivity.
  - unfold int_max. lia.
  - apply issued_by. vm_compute. reflexivity.
  - vm_compute. reflexivity.
  - left. vm_compute. reflexivity.
Defined.

Lemma primary_never_missing_witness :
  ∃ pk, GetCryptoKey key (at_ later) (w_srv w2) = (w_srv w2, Ok pk) ∧
    (pk_primary pk = None ↔ ck_Primary (key_of w2 key) = 0%Z) ∧
    (∀ pv, pk_primary pk = Some pv → pv_name pv = versionName key (ck_Primary (key_of w2 key)) ∧ pk_purpose pk = ENCRYPT_DECRYPT).
Proof. refine (primary_never_missing w2 (at_ later) key (key_of w2 key) w2_reachable eq_refl _). vm_compute. reflexivity. Defined.

(** *** A key that is deleted *)

(** A key without a version, deleted; its name is asked for again. *)
Definition bare : list (Time * call) :=
  [(t0, c_CreateKeyRing loc "r"); (t0, c_CreateCryptoKey (mkCreateKeyRequest ring "k" (Some (a_key ENCRYPT_DECRYPT ALGORITHM_UNSPECIFIED)) true false))].
Definition wb : world := runs bare w0.
Lemma wb_reachable : reachable wb.
Proof. apply runs_reachable; [apply w0_reachable|vm_compute; reflexivity]. Qed.

Definition wb' : world := mkWorld (DeleteCryptoKey key (deleting t0) (w_srv wb)).1 t0 (w_replies wb).
Definition again : CreateKeyRequest := mkCreateKeyRequest ring "k" (Some (a_key ENCRYPT_DECRYPT ALGORITHM_UNSPECIFIED)) true false.

Lemma none_retired (m : contents_) e :
  Inv m → forallb (λ kd, match kd.2 with DRetired _ => false | _ => true end) (map_to_list m) = true → fresh e m.
Proof.
  intros HI Hb id l _. destruct (m !! _) as [d|] eqn:Hd; [|done]. exfalso. pose proof (home_prefix m _ _ d HI retiredPrefix_in Hd) as Hp.
  apply elem_of_map_to_list in Hd. rewrite forallb_forall in Hb. specialize (Hb _ (proj1 (list_elem_of_In _ _) Hd)). by destruct d.
Qed.

Lemma deleted_name_never_reused_witness :
  (∀ pk, (GetCryptoKey key (at_ later) (w_srv wb')).2 ≠ Ok pk) ∧ (∀ pk, (CreateCryptoKey again (at_ later) (w_srv wb')).2 ≠ Ok pk).
Proof.
  assert (fresh (deleting t0) (contents (db (w_srv wb)))) as Hf by (apply none_retired; [apply reachable_inv, wb_reachable|vm_compute; reflexivity]).
  assert ((DeleteCryptoKey key (deleting t0) (w_srv wb)).2 = Ok (mkOperation (loc +:+ "/operations/op") None)) as Hd by (vm_compute; reflexivity).
  pose proof (deleted_name_never_reused wb (deleting t0) key _ wb' (at_ later) wb_reachable (deleting_ok t0 eq_refl) Hf ltac:(vm_compute; discriminate) Hd (rtc_refl _ _)) as [H1 H2].
  split; [exact H1|]. intros pk. exact (H2 again pk eq_refl).
Defined.

(** *** An HSM instance *)

Definition instance : string := loc +:+ "/singleTenantHsmInstances/i".
Definition proposal : string := instance +:+ "/proposals/p".
Definition pems : list string := ["a"; "b"; "c"].
Definition register : list (Time * call) :=
  [(t0, c_CreateInstance loc "i" (Some 3%Z) false);
   (t0, c_CreateProposal instance "p" (Some (RegisterTwoFactorAuthKeys 2 pems)) None);
   (t0, c_Approve proposal (Some (QuorumReply [mkChallengeReply "a0" "a"; mkChallengeReply "b1" "b"; mkChallengeReply "c2" "c"])))].
Definition wh : world := runs register w0.
Definition wh' : world := runs [(t0, c_Execute proposal)] wh.

Lemma wh_reachable : reachable wh.
Proof. apply runs_reachable; [apply w0_reachable|vm_compute; reflexivity]. Qed.
Lemma wh'_reachable : reachable wh'.
Proof. apply runs_reachable; [apply wh_reachable|vm_compute; reflexivity]. Qed.

Definition instance_of (w : world (S := mem)) : hsmInstance :=
  match contents (db (w_srv w)) !! dbKey hsmInstancePrefix instance with
  | Some (DInstance i) => i
  | _ => mkHsmInstance "" zero INSTANCE_UNSPECIFIED 0 0 [] zero zero false
  end.

Example registered_active : (hi_State (instance_of wh'), hi_Pems (instance_of wh'), hi_Required (instance_of wh')) = (INSTANCE_ACTIVE, pems, 2%Z).
Proof. vm_compute. reflexivity. Qed.

Lemma instance_change_authorised_witness :
  ∃ name p e, w_srv wh' = (exec (c_Execute name) e (w_srv wh)).1 ∧ clock_Now e = t0 ∧
    proposal_at (contents (db (w_srv wh))) name p ∧ of_instance p instance ∧
    hp_State p = PROPOSAL_APPROVED ∧ Before t0 (hp_Expire p) = true ∧
    checkOperation (hi_effective (instance_of wh) t0) p = Ok tt ∧ authorised (w_replies wh) (instance_of wh) p ∧
    instance_at (contents (db (w_srv wh'))) instance (executed (hi_effective (instance_of wh) t0) p t0).
Proof.
  refine (instance_change_authorised wh wh' (instance_of wh) wh_reachable _ _ _).
  - apply (next_step t0 (c_Execute proposal) wh). vm_compute. reflexivity.
  - vm_compute. reflexivity.
  - vm_compute. discriminate.
Defined.

Lemma instance_quorum_sound_witness : instance_ok (instance_of wh').
Proof. refine (proj1 (instance_quorum_sound wh' (instance_of wh') wh'_reachable _)). vm_compute. reflexivity. Defined.

(** *** Secret Manager's keys *)

Lemma cloud_kms_opens_witness : opens [key] (key_service (w_srv w1) (at_ t0)) (key_service (w_srv w1') (at_ later)).
Proof.
  refine (cloud_kms_opens w1 w1' (at_ t0) (at_ later) [key] w1_reachable (at_env_ok t0 eq_refl) _ _ _ _).
  - apply runs_steps. vm_compute. reflexivity.
  - vm_compute. discriminate.
  - repeat constructor.
  - constructor; [|constructor]. intros k Hk.
    assert (k = key_of w1 key) as -> by (unfold key_of; rewrite Hk; reflexivity).
    split; [apply issued_by; vm_compute; reflexivity|]. split; [vm_compute; reflexivity|].
    exists (key_of w1' key), (version_of w1' key 1). split_and!; vm_compute; reflexivity.
Defined.

(** *** Keys of other purposes *)

Definition others : list (Time * call) :=
  [(t0, c_CreateKeyRing loc "r"); (t0, create "cbc" RAW_ENCRYPT_DECRYPT AES_256_CBC); (t0, create "sign" ASYMMETRIC_SIGN EC_SIGN_P256_SHA256);
   (t0, create "mac" MAC HMAC_SHA256);
   (t0, c_CreateImportJob (mkCreateImportJobRequest ring "j" RSA_OAEP_3072_SHA256_AES_256 SOFTWARE ""))].
Definition wo : world := runs others w0.
Lemma wo_reachable : reachable wo.
Proof. apply runs_reachable; [apply w0_reachable|vm_compute; reflexivity]. Qed.

Definition cbc_key : string := ring +:+ "/cryptoKeys/cbc".
Definition sign_key : string := ring +:+ "/cryptoKeys/sign".
Definition mac_key : string := ring +:+ "/cryptoKeys/mac".

Lemma issued_first (w : world (S := mem)) k (Hb : match contents (db (w_srv w)) !! key_at k with Some (DKey k) => (1 <? ck_Next k)%Z | _ => false end = true) :
  issued (contents (db (w_srv w))) k 1.
Proof. unfold issued, key_is. destruct (contents (db (w_srv w)) !! key_at k) as [[]|]; try done. by apply Z.ltb_lt. Qed.

Definition raw_request : RawRequest := mkRawRequest (versionName cbc_key 1) "sixteen bytes ok" "" "" None None None.
Definition raw_response : RawEncryptResponse :=
  match (RawEncrypt raw_request (at_ t0) (w_srv wo)).2 with Ok r => r | Err _ => mkRawEncryptResponse "" "" 0 0 0 (false, false, false) "" SOFTWARE end.

Lemma raw_decrypts_witness :
  ∃ r', (RawDecrypt (mkRawRequest (versionName cbc_key 1) (re_ciphertext raw_response) "" (re_iv raw_response) None None None) (re_tag_length raw_response)
           (at_ later) (w_srv wo)).2 = Ok r' ∧ rd_plaintext r' = "sixteen bytes ok".
Proof.
  refine (raw_decrypts wo wo (at_ t0) (at_ later) raw_request raw_response cbc_key 1 (version_of wo cbc_key 1) wo_reachable (rtc_refl _ _) (at_env_ok t0 eq_refl) _ _ _ _ _ _ _).
  - vm_compute. discriminate.
  - vm_compute. reflexivity.
  - apply issued_first. vm_compute. reflexivity.
  - vm_compute. reflexivity.
  - vm_compute. discriminate.
  - vm_compute. reflexivity.
  - vm_compute. reflexivity.
Defined.

Definition signature : SignResponse :=
  match (AsymmetricSign (versionName sign_key 1) "data" None None None (at_ t0) (w_srv wo)).2 with Ok r => r | Err _ => mkSignResponse "" 0 false false "" SOFTWARE end.
Definition public : pbPublicKey :=
  match (GetPublicKey (versionName sign_key 1) FORMAT_PEM (at_ later) (w_srv wo)).2 with
  | Ok p => p
  | Err _ => mkPbPublicKey "" None ALGORITHM_UNSPECIFIED "" SOFTWARE FORMAT_PEM None
  end.

Lemma signature_verifies_witness : VerifySignature (pu_pem public) (pu_algorithm public) "data" (sr_signature signature) = Ok true.
Proof.
  refine (signature_verifies wo wo (at_ t0) (at_ later) (versionName sign_key 1) sign_key 1 "data" None None signature FORMAT_PEM public (version_of wo sign_key 1)
    wo_reachable (rtc_refl _ _) _ _ _ _ _ _ _ _).
  - vm_compute. discriminate.
  - vm_compute. reflexivity.
  - apply issued_first. vm_compute. reflexivity.
  - vm_compute. reflexivity.
  - vm_compute. reflexivity.
  - vm_compute. reflexivity.
  - vm_compute. reflexivity.
  - vm_compute. reflexivity.
Defined.

Lemma mac_verifies_witness :
  ∃ r', (MacVerify (versionName mac_key 1) "data" (zeros 32 +:+ "data") None None (at_ later) (w_srv wo)).2 = Ok r' ∧ mv_success r' = true.
Proof.
  refine (mac_verifies wo wo (at_ t0) (at_ later) (versionName mac_key 1) mac_key 1 "data" None
    (mkMacSignResponse (versionName mac_key 1) (zeros 32 +:+ "data") 0 false SOFTWARE) (version_of wo mac_key 1) wo_reachable (rtc_refl _ _) _ _ _ _ _).
  - vm_compute. discriminate.
  - vm_compute. reflexivity.
  - apply issued_first. vm_compute. reflexivity.
  - vm_compute. reflexivity.
  - vm_compute. reflexivity.
Defined.

(** *** An imported key *)

Definition job : string := ring +:+ "/importJobs/j".
Definition job_of (w : world (S := mem)) : importJob :=
  match contents (db (w_srv w)) !! dbKey importJobPrefix job with
  | Some (DJob j) => j
  | _ => mkImportJob "" IMPORT_METHOD_UNSPECIFIED zero "" None ""
  end.
Definition job_message : pbImportJob :=
  match toImportJob t0 (job_of wo) with
  | Ok p => p
  | Err _ => mkPbImportJob "" IMPORT_METHOD_UNSPECIFIED SOFTWARE (timestamppb.New zero) (timestamppb.New zero) JOB_ACTIVE "" "" None
  end.
Definition own_key : string := "my own hmac key of 32 bytes, yes".
Definition wrapped_key : string :=
  match WrapForImport (pj_public_pem job_message) (pj_method job_message) own_key (Some (zeros 32)) "" with Ok c => c | Err _ => "" end.
Definition import_request : ImportRequest := mkImportRequest mac_key job "" wrapped_key "" HMAC_SHA256 false.
Definition imported : pbVersion :=
  match (ImportCryptoKeyVersion import_request (at_ t0) (w_srv wo)).2 with
  | Ok p => p
  | Err _ => toVersion (version_of wo "" 1)
  end.

Lemma imported_key_is_kept_witness :
  let m := contents (db (ImportCryptoKeyVersion import_request (at_ t0) (w_srv wo)).1) in
  ∃ n v, pv_name imported = versionName mac_key n ∧ m !! version_at mac_key n = Some (DVersion v) ∧
    kv_Material v = own_key ∧ kv_algorithm v = HMAC_SHA256 ∧ state v = ENABLED ∧ issued m mac_key n.
Proof.
  refine (imported_key_is_kept wo (at_ t0) import_request (job_of wo) t0 job_message own_key (Some (zeros 32)) "" imported wo_reachable _ _ _ _ _ _ _).
  - vm_compute. reflexivity.
  - vm_compute. reflexivity.
  - vm_compute. reflexivity.
  - reflexivity.
  - intros b [= <-]. reflexivity.
  - vm_compute. split; [reflexivity|discriminate].
  - vm_compute. reflexivity.
Defined.

(** *** A rotation *)

Definition monthly : pbKey :=
  mkPbKey "" ENCRYPT_DECRYPT None ∅ None SOFTWARE ALGORITHM_UNSPECIFIED None "" (Some (durationpb.New thirty_days)) (Some (timestamppb.New t0)) false None.
Definition rotating : list (Time * call) :=
  [(t0, c_CreateKeyRing loc "r"); (t0, c_CreateCryptoKey (mkCreateKeyRequest ring "k" (Some monthly) false false))].
Definition wr : world := runs rotating w0.
Lemma wr_reachable : reachable wr.
Proof. apply runs_reachable; [apply w0_reachable|vm_compute; reflexivity]. Qed.

(** A hundred days late: one version, and the next rotation after twenty more. *)
Definition late : Time := (t0 + 100 * day)%Z.
Definition next_rotation : Time := (t0 + 120 * day)%Z.

Lemma due_rotation_makes_one_version_witness :
  let s' := (rotateDue (key_at key) late (at_ late) (w_srv wr)).1 in
  ck_Primary (rotated (key_of wr key) late) = 2%Z ∧ rotateDue (key_at key) late (at_ late) s' = (s', Ok next_rotation).
Proof.
  intros s'.
  assert (contents (db (w_srv wr)) !! key_at key = Some (DKey (key_of wr key))) as Hk by (vm_compute; reflexivity).
  assert (due (key_of wr key) late) as Hd by (split; [vm_compute; reflexivity|vm_compute; discriminate]).
  assert ((rotateDue (key_at key) late (at_ late) (w_srv wr)).2 = Ok next_rotation) as Hr by (vm_compute; reflexivity).
  pose proof (due_rotation_makes_one_version wr (at_ late) key (key_of wr key) late next_rotation wr_reachable Hk eq_refl Hd
    ltac:(vm_compute; discriminate) ltac:(vm_compute; discriminate) Hr) as (_ & Hp & _ & _ & Hagain).
  split; [rewrite Hp; vm_compute; reflexivity|exact Hagain].
Defined.

(** ** Where the code differs from what it says *)

(** CreateCryptoKey stores labels UpdateCryptoKey refuses. *)
Definition labelled : pbKey :=
  mkPbKey key ENCRYPT_DECRYPT None {[ "Not A Label" := "" ]} None SOFTWARE ALGORITHM_UNSPECIFIED None "" None None false None.

Theorem create_takes_any_label :
  is_ok (CreateCryptoKey (mkCreateKeyRequest ring "l" (Some labelled) false false) (at_ t0) (w_srv w1)).2 = true ∧
  (UpdateCryptoKey labelled ["labels"] (at_ t0) (w_srv w1)).2 = Err InvalidArgument.
Proof. split; vm_compute; reflexivity. Qed.

(** RawEncrypt takes an empty plaintext in CBC mode; RawDecrypt refuses what it
    made. *)
Theorem raw_empty_is_one_way :
  ∃ r, (RawEncrypt (mkRawRequest (versionName cbc_key 1) "" "" "" None None None) (at_ t0) (w_srv wo)).2 = Ok r ∧
    (RawDecrypt (mkRawRequest (versionName cbc_key 1) (re_ciphertext r) "" (re_iv r) None None None) (re_tag_length r) (at_ t0) (w_srv wo)).2 = Err InvalidArgument.
Proof. exists (mkRawEncryptResponse "" tag 0 0 0 (false, false, false) (versionName cbc_key 1) SOFTWARE). split; vm_compute; reflexivity. Qed.

(** A proposal to delete an instance that has no two-factor keys yet is taken, and
    no reply can approve it. *)
Definition pending_delete : list (Time * call) :=
  [(t0, c_CreateInstance loc "i" (Some 3%Z) false); (t0, c_CreateProposal instance "p" (Some DeleteSingleTenantHsmInstance) None)].

Lemma no_challenges p payload : hp_Quorum p = [] → hp_Must p = [] → verified p payload = Err InvalidArgument.
Proof.
  intros Hq Hm. unfold verified. rewrite Hq, Hm. destruct payload as [[[|r rs]|rs qs]|]; [done| |done|done]. cbn [length Nat.ltb Nat.leb Nat.eqb verifyReplies].
  unfold verifyReply. destruct (len (cr_signed_challenge r) =? 0)%nat; [done|]. unfold twoFactorKey. by repeat case_match.
Qed.

Definition wp : world := runs pending_delete w0.
Definition delete_proposal : hsmProposal :=
  match contents (db (w_srv wp)) !! dbKey hsmProposalPrefix proposal with Some (DProposal p) => p | _ => blank_proposal "" zero opDelete end.

Theorem pending_delete_never_approved payload :
  proposal_at (contents (db (w_srv wp))) proposal delete_proposal ∧ hp_State delete_proposal = PROPOSAL_PENDING ∧
  (ApproveSingleTenantHsmInstanceProposal proposal payload (at_ t0) (w_srv wp)).2 = Err InvalidArgument.
Proof.
  split; [vm_compute; reflexivity|]. split; [vm_compute; reflexivity|].
  assert (loadProposal proposal (at_ t0) (w_srv wp) = (w_srv wp, Ok delete_proposal)) as Hl by (vm_compute; reflexivity).
  assert (parseHsmProposal proposal = Ok loc) as Hp by (vm_compute; reflexivity).
  assert (hp_State delete_proposal = PROPOSAL_PENDING ∧ hp_Quorum delete_proposal = [] ∧ hp_Must delete_proposal = []) as (Hs & Hq & Hm) by (split_and!; vm_compute; reflexivity).
  unfold ApproveSingleTenantHsmInstanceProposal. rewrite Hp, (bind_ok _ _ _ _ _ eq_refl), (bind_ok _ _ _ _ _ Hl), Hs, !(bind_ok _ _ _ _ _ eq_refl).
  by rewrite no_challenges.
Qed.

(** A project called proposals: its HSM instance cannot be executed on. *)
Definition named_proposals : string := "projects/proposals/locations/global".
Definition in_proposals : list (Time * call) :=
  [(t0, c_CreateInstance named_proposals "i" (Some 3%Z) false);
   (t0, c_CreateProposal (named_proposals +:+ "/singleTenantHsmInstances/i") "p" (Some (RegisterTwoFactorAuthKeys 2 pems)) None);
   (t0, c_Approve (named_proposals +:+ "/singleTenantHsmInstances/i/proposals/p")
          (Some (QuorumReply [mkChallengeReply "a0" "a"; mkChallengeReply "b1" "b"; mkChallengeReply "c2" "c"])))].

Theorem project_proposals_not_found :
  (ExecuteSingleTenantHsmInstanceProposal (named_proposals +:+ "/singleTenantHsmInstances/i/proposals/p") (at_ t0) (w_srv (runs in_proposals w0))).2 = Err NotFound.
Proof. vm_compute. reflexivity. Qed.

(** A key ring called cryptoKeys: a version of one of its keys that names a
    connection of its own slices a string at -1. *)
Definition odd_key : cryptoKey :=
  mkCryptoKey (loc +:+ "/keyRings/cryptoKeys/cryptoKeys/k") t0 ∅ 0 1 0%Z None 0%Z zero None (Some EXTERNAL_SYMMETRIC_ENCRYPTION) (Some EXTERNAL_VPC) None "" false.

Theorem ring_cryptoKeys_panics :
  parseCryptoKey (ck_Name odd_key) = Ok tt ∧
  (newVersion odd_key 1 t0 ENABLED (Some (mkExternalOptions "" "path" (loc +:+ "/ekmConnections/c"))) (at_ t0) (w_srv w0)).2 = Err ErrPanic.
Proof. split; vm_compute; reflexivity. Qed.

(** A page token is a position: deleting an element of the first page hides one of
    the second. *)
Definition second_page : string := match orderedPage "s" ["a"; "b"; "c"] byName false "" 1 with Ok (_, token) => token | Err _ => "" end.

Theorem page_skips_an_element :
  orderedPage "s" ["a"; "b"; "c"] byName false "" 1 = Ok (["a"], second_page) ∧ orderedPage "s" ["b"; "c"] byName false second_page 1 = Ok (["c"], "").
Proof. split; vm_compute; reflexivity. Qed.

(** The sweep rotates a key of an HSM instance that is disabled, for which no
    version can be created. *)
Definition hsm_monthly : pbKey :=
  mkPbKey "" ENCRYPT_DECRYPT None ∅ None HSM_SINGLE_TENANT ALGORITHM_UNSPECIFIED None instance (Some (durationpb.New thirty_days)) (Some (timestamppb.New later)) false None.
Definition disabling : list (Time * call) :=
  [(t0, c_CreateKeyRing loc "r"); (t0, c_CreateCryptoKey (mkCreateKeyRequest ring "k" (Some hsm_monthly) false false));
   (t0, c_CreateProposal instance "q" (Some DisableSingleTenantHsmInstance) None);
   (t0, c_Approve (instance +:+ "/proposals/q") (Some (QuorumReply [mkChallengeReply "a0" "a"; mkChallengeReply "b1" "b"])));
   (t0, c_Execute (instance +:+ "/proposals/q"))].
Definition wd : world := runs disabling wh'.

Theorem disabled_instance_rotates :
  hi_State (instance_of wd) = INSTANCE_DISABLED ∧
  (CreateCryptoKeyVersion (mkCreateVersionRequest key STATE_UNSPECIFIED false None) (at_ later) (w_srv wd)).2 = Err FailedPrecondition ∧
  (rotateDue (key_at key) later (at_ later) (w_srv wd)).2 = Ok (later + thirty_days)%Z.
Proof. split_and!; vm_compute; reflexivity. Qed.

End KmsRuns.
